(* ===== verification/_CoqProject ===== *)
-Q . S2P
Prelude.v
Bitmap.v
BitmapFacts.v
BitmapOpsFacts.v
BitmapMaps.v
BitmapSpec.v
Memblock.v
MemblockFacts.v
MemblockRanges.v
MemblockIter.v
MemblockOps.v
MemblockLimits.v
MemblockSpec.v
Page.v
PageAlloc.v
BuddyFacts.v
BuddyOps.v
PagePcp.v
PageZone.v
PageNode.v
PageClient.v
PageSpec.v
PageBoot.v
PageBootFacts.v
PageBootInit.v
PageBootSpec.v
Asid.v
AsidInv.v
AsidSteps.v
AsidRun.v
AsidSpec.v
Mmu.v
MmuTables.v
MmuStep.v
MmuCreate.v
MmuSpec.v
MmuBoot.v
MmuLinear.v
MmuLinearSpec.v
Sort.v
SortHeap.v
ListSortFacts.v
SortSpec.v
Ctype.v
Kstrtox.v
KstrtoxFacts.v
Vsprintf.v
PrintDigits.v
PrintBuffer.v
PrintFormat.v
PrintRender.v
PrintParse.v
TextSpec.v
Qspinlock.v
QspinInv.v
QspinMoves.v
QspinRun.v
QspinLive.v
Qrwlock.v
QrwlockInv.v
QrwlockRun.v
LockSpec.v
Crc32Table.v
Crc32.v
Crc32Facts.v
Crc32Spec.v
Rbtree.v
RbtreeFacts.v
RbtreeInsert.v
RbtreeErase.v
RbtreeColor.v
RbtreeWalk.v
RbtreeSpec.v
Math64.v
Math64Spec.v
Time.v
TimeFacts.v
TimeSpec.v
