(* ===== verification/Prelude.v ===== *)
(** * Rtochius: a verification library for the kernel and its base library

    Rtochius is an arm64 kernel (src/kernel) over a freestanding base library
    (src/lib/base).  This library models parts of both as executable definitions
    translated from the C code, and proves what those parts promise.

    ** How C is modelled

    A function that can stop the machine, touch memory outside an object or loop
    is in the [outcome] monad of this file: [Ret], [Bug] (BUG_ON, panic),
    [Fault] (an access outside an array, a NULL dereference, undefined
    arithmetic) and [OutOfFuel].  [returns m Q] is total correctness: it
    excludes the last three, so every theorem stated with it also says that
    the code neither stops nor runs off and that the fuel is enough.  A C loop
    is [loop fuel body]: the body is a named definition ([..._turn],
    [..._step]) and the fuel is a bound written next to the loop (the number
    of words, regions, pages or set bits it can visit, plus one).  Error codes
    are ordinary negative results.  Integers are [Z] with their wrap-around
    written out ([u32], [s32], [u64]); arrays are lists read and written
    through [rd] and [wr], which fault outside the list; pointers into the page
    descriptors are page frame numbers; words shared between CPUs are read and
    written one at a time where a component is modelled as a step relation.

    ** Components

    - Boot memory (lib/base/src/memblock.c): Memblock.v has the two region
      arrays and every operation; MemblockFacts, MemblockRanges, MemblockIter,
      MemblockOps and MemblockLimits relate the arrays to sets of
      addresses; MemblockSpec has the theorems: the effect of each operation on
      the address space, sound and complete allocation, exact enumeration of
      the free memory, and the safety of every sequence of operations.
    - Page allocator (kernel/mm/page_alloc.c): Page.v has [struct page], Page
      flags, counts and compound pages; PageAlloc.v the zones, the buddy
      system, the per-CPU lists and the public entry points; BuddyFacts and
      BuddyOps the buddy invariant; PagePcp, PageZone and PageNode
      the zone and the node; PageClient a user that allocates, shares and
      frees blocks; PageSpec the theorems.  A critical section under a zone
      lock, or with interrupts disabled, is one step.
    - Bring-up (the boot half of page_alloc.c, kernel/arch/arm64/core/init.c):
      PageBoot.v is the client of memblock that fills the page allocator;
      PageBootFacts and PageBootInit follow it; PageBootSpec
      states that the allocator ends up safe and offers exactly memblock's free
      frames.  The frame map of the architecture is the class [PfnMap], which
      arm64's [pfn_valid] over memblock implements.
    - Bitmaps (lib/base/src/bitmap.c, find_bit.c, hweight.c and their
      headers): Bitmap.v; BitmapFacts, BitmapOpsFacts and BitmapMaps read a map
      as a predicate on bit numbers; BitmapSpec states what the
      searches, runs, aligned areas and regions, logical operations, shifts,
      weights and relative maps compute.
    - ASID allocator (kernel/arch/arm64/mm/context.c), a client of the bitmaps:
      Asid.v has the functions and the step relation in which the CPUs
      interleave at every access to a shared word; AsidInv,
      AsidSteps and AsidRun its invariant; AsidSpec states that no CPU hits a
      stale translation, that active address spaces have different ASIDs, that
      nothing faults or deadlocks, and that the sequential definition is a run
      of the machine.
    - Kernel page tables (kernel/arch/arm64/mm/mmu.c and the pgtable headers):
      Mmu.v has [__create_pgd_mapping] and the functions of each level over a
      memory of descriptors; MmuTables, MmuStep and MmuCreate follow the tables
      from level to level, for any allocator of table pages (the record
      [table_allocator]); MmuSpec has the walk of the hardware, the theorem about
      what it finds afterwards, and mappings of disjoint ranges one after another.
      MmuBoot.v has the callers at boot, with memblock as the allocator;
      MmuLinear and MmuLinearSpec show that the linear map is complete, and
      read-only over the kernel text.
    - Sorting (lib/base/src/sort.c, bsearch.c, list_sort.c): Sort.v has heap
      sort and binary search over the bytes of an array, and the merge
      sort of linked lists over a store of pointers; SortHeap is the heap,
      ListSortFacts the chains of nodes, the counter of partial lists and the
      ring.  SortSpec states that both sort, the second one stably, and what the
      search finds in the result.
    - Text (lib/base/src/kstrtox.c, vsprintf.c, errname.c, ctype.c): strings
      are byte memories, a C string a run of bytes up to a NUL (Ctype.v).
      Kstrtox.v parses numbers, and KstrtoxFacts compares it with a grammar of
      numerals; Vsprintf.v names error codes and prints into a bounded
      buffer.  PrintDigits has the decimal converters, PrintBuffer,
      PrintFormat the conversions of the format, PrintRender
      the text of a whole format as a function without a buffer ([render]),
      PrintParse the two directions between texts and
      values.  TextSpec states when parsing succeeds and with which code it
      fails, that printing stays inside the buffer and renders the text, how
      directives are decoded, and that what is printed is read back.
    - Locks (kernel/core/locking/qspinlock.c, qrwlock.c, mcs_spinlock.h and
      their asm-generic headers): Qspinlock.v is a machine of contexts (four
      levels on each CPU) that interleave at every access to a lock word or a
      queue node; QspinInv ties the word and the nodes to an owner, a context
      that set the pending bit and a queue, and has the abstract
      first-come first-served lock; QspinMoves and QspinRun show that each step
      keeps the invariant and is a step of the abstract lock; QspinLive that under fairness every request is granted.
      Qrwlock.v is the read-write lock over that abstract lock, QrwlockInv and
      QrwlockRun its invariant and progress.  In both machines a context stands
      still while an interrupt is handled on top of it.  LockSpec states
      exclusion, the meaning of the words, the refinement and the liveness, and
      that the read-write lock does not deadlock when writers keep out the
      interrupts whose handlers use it.
    - Checksums (lib/base/src/crc32.c, crc32table.h, bitrev.c): Crc32Table.v
      has the tables row by row as the header has them, Crc32.v the functions.
      Crc32Facts shows that the table steps are linear and that four bytes at a
      time give what one byte at a time gives, and has the multiplication
      of polynomials behind the combination of two sums, and the byte
      swaps and reversals.  Crc32Spec states equality with the bit by
      bit definition and that combined sums are the sums of joined buffers.
    - Red-black trees (lib/base/src/rbtree.c, rbtree.h, rbree_augmented.h):
      Rbtree.v has the nodes with their parent words, every operation and the
      callbacks RB_DECLARE_CALLBACKS generates.  RbtreeFacts has the tree a
      store represents, the context of a subtree, the coloring rules and the
      class [AugmentLaws], what rebalancing needs of the callbacks;
      RbtreeInsert follows insertion, RbtreeErase the unlinking of a node,
      RbtreeColor the rebalancing after it, RbtreeWalk the walks and the
      replacement of a node.  RbtreeSpec states that the operations refine
      those on the in-order list and keep the tree balanced, what the walks
      visit, and that augmented values stay right.
    - 64-bit arithmetic (lib/base/include/base/math64.h, asm-generic div64.h,
      lib/base/src/div64.c): Math64.v has the products in both variants and the
      divisions of 64-bit and of 32-bit machines; [DoDiv] is the division a
      machine provides.  Math64Spec states that they agree with each other and
      with exact arithmetic, and where the 32-bit division does not.
    - Calendar time (lib/base/src/time.c, timeconv.c, time64.h, time32.h):
      Time.v.  TimeFacts has the reference, the rule for the day after a date,
      and the convergence of the guess of the year; TimeSpec states that seconds
      become the date the rule reaches, that [mktime64] is the inverse, and what
      each operation on time stamps does to the number of nanoseconds.  All of it
      is stated for the kernel build, whose signed arithmetic wraps, and for the
      user-space build of lib/base, where an overflow faults ([Overflow]).

    ** Conventions

    Each component has a model file (definitions only), files of facts, and a
    file ending in Spec with the theorems its users rely on, each followed by a
    witness that applies it to concrete values.  This file has the outcome
    monad, the loop rule [loop_returns], machine integers, arrays and the hint
    databases the components share.

    ** Not modelled

    Log output, statistics that nothing reads, and the contents of pages.
    Relaxed memory ordering: the step relations interleave single accesses
    under sequential consistency.  Configuration is fixed to the defaults of
    kernel/arch/arm64/configs/defconfig (4K pages, 48-bit addresses, little
    endian); CONFIG_ARM64_SW_TTBR0_PAN and CNP are off.  The text formats of
    bitmap.c and its 32-bit copies are left out.  Of the rest of the
    repository, libfdt is third-party code, the assembly, the build system and
    the Kconfig tools are not C, and vsscanf, the interrupt core, the device tree,
    the slab allocator, the radix tree and XArray, the
    drivers and the user-space stubs are not modelled yet. *)

From stdpp Require Import base numbers list option gmap.
From Stdlib Require Import ZArith Lia.

#[global] Open Scope Z_scope.

(** ** Outcomes of C code

    A C function that can stop the machine ([BUG_ON]), touch memory outside
    an object, or loop, is modelled in the [outcome] monad.  [Ret] is normal
    return; error codes ([-ENOMEM], ...) are ordinary values, as in C. *)

Inductive outcome (A : Type) : Type :=
  | Ret (a : A)     (* the code returns *)
  | Bug             (* BUG() / BUG_ON() / panic() was reached *)
  | Fault           (* an access outside an object, or through NULL *)
  | OutOfFuel.      (* the loop bound of the model was too small *)
Arguments Ret {A} a.
Arguments Bug {A}.
Arguments Fault {A}.
Arguments OutOfFuel {A}.

#[export] Instance outcome_ret : MRet outcome := fun A a => Ret a.
#[export] Instance outcome_bind : MBind outcome := fun A B f m =>
  match m with
  | Ret a => f a
  | Bug => Bug
  | Fault => Fault
  | OutOfFuel => OutOfFuel
  end.

(** [returns m Q]: the code returns, and its result satisfies [Q].  This is
    total correctness: a BUG, a fault or an exhausted bound falsifies it. *)
Definition returns {A} (m : outcome A) (Q : A -> Prop) : Prop :=
  match m with
  | Ret a => Q a
  | _ => False
  end.

Definition BUG_ON (c : bool) : outcome unit := if c then Bug else Ret tt.

(** A C loop: the body either continues with a new loop state or leaves the
    loop with a result. *)
Fixpoint loop {S R : Type} (fuel : nat) (body : S -> outcome (S + R)) (s : S)
  : outcome R :=
  match fuel with
  | O => OutOfFuel
  | Datatypes.S fuel' =>
      r ← body s;
      match r with
      | inl s' => loop fuel' body s'
      | inr x => Ret x
      end
  end.

(** Array accesses, faulting outside the array. *)
Definition rd {A} (l : list A) (i : Z) : outcome A :=
  if decide (0 <= i) then
    match l !! Z.to_nat i with
    | Some x => Ret x
    | None => Fault
    end
  else Fault.

Definition wr {A} (l : list A) (i : Z) (x : A) : outcome (list A) :=
  if decide (0 <= i < Z.of_nat (length l)) then Ret (<[Z.to_nat i := x]> l)
  else Fault.

(** [memmove(&l[dst], &l[src], n * sizeof(elt))]. *)
Definition memmove {A} (l : list A) (dst src n : Z) : outcome (list A) :=
  if decide (0 <= n /\ 0 <= dst /\ 0 <= src /\
             dst + n <= Z.of_nat (length l) /\ src + n <= Z.of_nat (length l))
  then Ret (take (Z.to_nat dst) l ++
            take (Z.to_nat n) (drop (Z.to_nat src) l) ++
            drop (Z.to_nat (dst + n)) l)
  else Fault.

(** ** Machine integers *)

Definition u8 (z : Z) : Z := z mod 2 ^ 8.
Definition u16 (z : Z) : Z := z mod 2 ^ 16.
Definition u32 (z : Z) : Z := z mod 2 ^ 32.
Definition u64 (z : Z) : Z := z mod 2 ^ 64.
(** Conversion to [int] (two's complement). *)
Definition s32 (z : Z) : Z := (z + 2 ^ 31) mod 2 ^ 32 - 2 ^ 31.
Definition s64 (z : Z) : Z := (z + 2 ^ 63) mod 2 ^ 64 - 2 ^ 63.
Definition ULLONG_MAX : Z := 2 ^ 64 - 1.

(** [enum]/errno constants used across the library (asm/base/errno-base.h). *)
Definition ENOMEM : Z := 12.
Definition EINVAL : Z := 22.
Definition ERANGE : Z := 34.

(** Page geometry of the default 4K configuration (ARM64_PAGE_SHIFT = 12). *)
Definition PAGE_SHIFT : Z := 12.
Definition PAGE_SIZE : Z := Z.shiftl 1 PAGE_SHIFT.
Definition PFN_UP (x : Z) : Z := Z.shiftr (u64 (u64 (x + PAGE_SIZE) - 1)) PAGE_SHIFT.
Definition PFN_DOWN (x : Z) : Z := Z.shiftr x PAGE_SHIFT.
Definition PFN_PHYS (x : Z) : Z := u64 (Z.shiftl x PAGE_SHIFT).

(** [round_up] and [round_down] on 64-bit operands. *)
Definition round_mask (y : Z) : Z := u64 (y - 1).
Definition round_up (x y : Z) : Z := u64 (Z.lor (u64 (x - 1)) (round_mask y) + 1).
Definition round_down (x y : Z) : Z := Z.land x (ULLONG_MAX - round_mask y).
Definition clamp (val lo hi : Z) : Z := Z.min (Z.max val lo) hi.

(** ** Laws of the outcome monad *)

Lemma bind_ret {A B} (a : A) (f : A -> outcome B) : (Ret a ≫= f) = f a.
Proof. reflexivity. Qed.

Lemma returns_ret {A} (a : A) (Q : A -> Prop) : Q a -> returns (Ret a) Q.
Proof. done. Qed.

Lemma returns_bind {A B} (m : outcome A) (f : A -> outcome B) P Q :
  returns m P -> (forall a, P a -> returns (f a) Q) -> returns (m ≫= f) Q.
Proof. destruct m; simpl; auto; contradiction. Qed.

Lemma returns_mono {A} (m : outcome A) (P Q : A -> Prop) :
  returns m P -> (forall a, P a -> Q a) -> returns m Q.
Proof. destruct m; simpl; auto. Qed.

Lemma returns_inv {A} (m : outcome A) Q :
  returns m Q -> exists a, m = Ret a /\ Q a.
Proof. destruct m; simpl; try contradiction. eauto. Qed.

Lemma returns_eq {A} (m : outcome A) a : m = Ret a -> returns m (eq a).
Proof. intros ->. reflexivity. Qed.

Lemma bind_Ret_inv {A B} (m : outcome A) (f : A -> outcome B) b :
  (m ≫= f) = Ret b -> exists a, m = Ret a /\ f a = Ret b.
Proof. destruct m; simpl; try discriminate. eauto. Qed.

Lemma bind_assoc {A B C} (m : outcome A) (f : A -> outcome B) (g : B -> outcome C) :
  ((m ≫= f) ≫= g) = (m ≫= (fun a => f a ≫= g)).
Proof. by destruct m. Qed.

Lemma BUG_ON_false {B} c (f : unit -> outcome B) :
  c = false -> (BUG_ON c ≫= f) = f tt.
Proof. intros ->. reflexivity. Qed.

(** The loop rule: an invariant and a measure bounded by the fuel. *)
Lemma loop_returns {S R} (I : S -> Prop) (m : S -> nat) (Q : R -> Prop)
    (body : S -> outcome (S + R)) fuel s :
  I s -> (m s < fuel)%nat ->
  (forall s, I s -> returns (body s) (fun r =>
     match r with
     | inl s' => I s' /\ (m s' < m s)%nat
     | inr x => Q x
     end)) ->
  returns (loop fuel body s) Q.
Proof.
  revert s. induction fuel as [|fuel IH]; intros s HI Hm Hb; [lia|].
  simpl. apply returns_bind with (1 := Hb s HI).
  intros [s'|x] H; [|exact H].
  destruct H as [HI' Hm']. apply IH; [exact HI'|lia|exact Hb].
Qed.

(** One turn of a loop. *)
Lemma loop_S {S R} (body : S -> outcome (S + R)) n s :
  loop (Datatypes.S n) body s =
    (r ← body s; match r with inl s' => loop n body s' | inr x => Ret x end).
Proof. reflexivity. Qed.

Lemma loop_inl {S R} (body : S -> outcome (S + R)) n s s' :
  body s = Ret (inl s') -> loop (Datatypes.S n) body s = loop n body s'.
Proof. intros E. simpl. by rewrite E. Qed.

Lemma loop_inr {S R} (body : S -> outcome (S + R)) n s x :
  body s = Ret (inr x) -> loop (Datatypes.S n) body s = Ret x.
Proof. intros E. simpl. by rewrite E. Qed.

(** More fuel does not change a returned result. *)
Lemma loop_ext {S R} (body body' : S -> outcome (S + R)) n s :
  (forall s, body s = body' s) -> loop n body s = loop n body' s.
Proof.
  intros H. revert s. induction n as [|n IH]; intros s; [done|]. simpl. rewrite H.
  destruct (body' s) as [[s'|x]| | |]; simpl; [apply IH|done..].
Qed.

Lemma loop_fuel_mono {S R} (body : S -> outcome (S + R)) n m s x :
  loop n body s = Ret x -> (n <= m)%nat -> loop m body s = Ret x.
Proof.
  revert m s. induction n as [|n IH]; intros m s H Hle; [discriminate|].
  destruct m as [|m]; [lia|]. simpl in *.
  destruct (body s) as [[s'|y]| | |]; simpl in *; try discriminate; auto.
  apply IH; [exact H|lia].
Qed.

#[global] Arguments loop : simpl never.

(** ** Array lemmas *)

Lemma rd_lookup {A} (l : list A) i x :
  0 <= i -> l !! Z.to_nat i = Some x -> rd l i = Ret x.
Proof. intros Hi Hl. unfold rd. rewrite decide_True by lia. by rewrite Hl. Qed.

Lemma rd_Ret {A} (l : list A) i x :
  rd l i = Ret x -> 0 <= i /\ l !! Z.to_nat i = Some x.
Proof.
  unfold rd. destruct (decide (0 <= i)); [|done].
  destruct (l !! Z.to_nat i) eqn:E; intros; simplify_eq; done.
Qed.

Lemma rd_in_range {A} (l : list A) i :
  0 <= i < Z.of_nat (length l) ->
  exists x, rd l i = Ret x /\ l !! Z.to_nat i = Some x.
Proof.
  intros Hi. destruct (lookup_lt_is_Some_2 l (Z.to_nat i)) as [x Hx]; [lia|].
  exists x. split; [|exact Hx]. apply rd_lookup; [lia|exact Hx].
Qed.

Lemma wr_in_range {A} (l : list A) i x :
  0 <= i < Z.of_nat (length l) -> wr l i x = Ret (<[Z.to_nat i := x]> l).
Proof. intros Hi. unfold wr. by rewrite decide_True. Qed.

Lemma memmove_in_range {A} (l : list A) dst src n :
  0 <= n -> 0 <= dst -> 0 <= src ->
  dst + n <= Z.of_nat (length l) -> src + n <= Z.of_nat (length l) ->
  memmove l dst src n =
    Ret (take (Z.to_nat dst) l ++ take (Z.to_nat n) (drop (Z.to_nat src) l) ++
         drop (Z.to_nat (dst + n)) l).
Proof. intros. unfold memmove. by rewrite decide_True. Qed.

Lemma app_snoc {A} (P : list A) r Q : P ++ r :: Q = (P ++ [r]) ++ Q.
Proof. by rewrite <- app_assoc. Qed.

(** Closing a hole by one slot, and opening one. *)
Lemma memmove_shift_down {A} (P Q tl : list A) x i k m :
  i = Z.of_nat (length P) -> k = i + 1 -> m = Z.of_nat (length Q) ->
  exists tl', memmove (P ++ x :: Q ++ tl) i k m = Ret (P ++ Q ++ tl') /\
    length tl' = S (length tl).
Proof.
  intros -> -> ->. unfold memmove.
  rewrite decide_True by (rewrite !length_app; simpl; rewrite length_app; lia).
  replace (Z.to_nat (Z.of_nat (length P) + 1)) with (length P + 1)%nat by lia.
  replace (Z.to_nat (Z.of_nat (length P) + Z.of_nat (length Q)))
    with (length P + length Q)%nat by lia.
  rewrite !Nat2Z.id, take_app_length, !drop_app_add. simpl.
  rewrite drop_0, take_app_length. eexists. split; [reflexivity|].
  rewrite length_drop. simpl. rewrite length_app. lia.
Qed.

Lemma memmove_shift_up {A} (P Q tl : list A) x i k m :
  i = Z.of_nat (length P) -> k = i + 1 -> m = Z.of_nat (length Q) ->
  exists y, memmove (P ++ Q ++ x :: tl) k i m = Ret (P ++ y :: Q ++ tl).
Proof.
  intros -> -> ->. unfold memmove.
  rewrite decide_True by (rewrite !length_app; simpl; lia).
  replace (Z.to_nat (Z.of_nat (length P) + 1)) with (length P + 1)%nat by lia.
  replace (Z.to_nat (Z.of_nat (length P) + 1 + Z.of_nat (length Q)))
    with (length P + (length Q + 1))%nat by lia.
  rewrite !Nat2Z.id, take_app_add, drop_app_length, take_app_length, !drop_app_add.
  simpl. destruct Q as [|y Q]; simpl; rewrite ?drop_0.
  - exists x. by rewrite <- app_assoc.
  - exists y. by rewrite take_0, <- app_assoc.
Qed.

(** ** Word lemmas *)

Lemma u64_small z : 0 <= z < 2 ^ 64 -> u64 z = z.
Proof. apply Z.mod_small. Qed.
Lemma u64_range z : 0 <= u64 z < 2 ^ 64.
Proof. apply Z.mod_pos_bound. lia. Qed.
Lemma u32_small z : 0 <= z < 2 ^ 32 -> u32 z = z.
Proof. apply Z.mod_small. Qed.
Lemma u32_range z : 0 <= u32 z < 2 ^ 32.
Proof. apply Z.mod_pos_bound. lia. Qed.
Lemma u8_small z : 0 <= z < 2 ^ 8 -> u8 z = z.
Proof. apply Z.mod_small. Qed.
Lemma u8_range z : 0 <= u8 z < 2 ^ 8.
Proof. apply Z.mod_pos_bound. lia. Qed.
Lemma s32_small z : - 2 ^ 31 <= z < 2 ^ 31 -> s32 z = z.
Proof. intros. unfold s32. rewrite Z.mod_small; lia. Qed.
Lemma s32_range z : - 2 ^ 31 <= s32 z < 2 ^ 31.
Proof. unfold s32. pose proof (Z.mod_pos_bound (z + 2 ^ 31) (2 ^ 32)). lia. Qed.
Lemma s64_small z : - 2 ^ 63 <= z < 2 ^ 63 -> s64 z = z.
Proof. intros. unfold s64. rewrite Z.mod_small; lia. Qed.

Lemma u64_add_l a b : u64 (u64 a + b) = u64 (a + b).
Proof. unfold u64. apply Zplus_mod_idemp_l. Qed.
Lemma u64_add_r a b : u64 (a + u64 b) = u64 (a + b).
Proof. unfold u64. apply Zplus_mod_idemp_r. Qed.
Lemma u64_sub_l a b : u64 (u64 a - b) = u64 (a - b).
Proof. unfold u64. apply Zminus_mod_idemp_l. Qed.
Lemma u64_idem a : u64 (u64 a) = u64 a.
Proof. unfold u64. by rewrite Zmod_mod. Qed.

(** ** Bit lemmas *)

Lemma testbit_above a n i : 0 <= a < 2 ^ n -> n <= i -> Z.testbit a i = false.
Proof.
  intros Ha Hi. destruct (Z.lt_ge_cases n 0) as [Hn|Hn].
  { rewrite Z.pow_neg_r in Ha by lia. lia. }
  rewrite <- (Z.mod_small a (2 ^ n)) by lia. apply Z.mod_pow2_bits_high. lia.
Qed.

(** A low part and a shifted high part do not overlap. *)
Lemma land_shiftl_disjoint a b n : 0 <= n -> 0 <= a < 2 ^ n -> Z.land a (Z.shiftl b n) = 0.
Proof.
  intros Hn Ha. apply Z.bits_inj'. intros i Hi. rewrite Z.land_spec, Z.bits_0.
  destruct (Z.lt_ge_cases i n).
  - rewrite (Z.shiftl_spec_low b n i) by lia. apply andb_false_r.
  - rewrite (testbit_above a n i) by lia. done.
Qed.

Lemma lor_shiftl_add a b n : 0 <= n -> 0 <= a < 2 ^ n -> Z.lor a (Z.shiftl b n) = a + b * 2 ^ n.
Proof.
  intros Hn Ha. pose proof (Z.add_lor_land a (Z.shiftl b n)) as H.
  rewrite land_shiftl_disjoint in H by lia. rewrite Z.shiftl_mul_pow2 in * by lia. lia.
Qed.

Lemma shiftr_add_mul a b n : 0 <= n -> 0 <= a < 2 ^ n -> Z.shiftr (a + b * 2 ^ n) n = b.
Proof.
  intros Hn Ha. rewrite Z.shiftr_div_pow2 by lia. rewrite Z.div_add by lia.
  rewrite Z.div_small by lia. lia.
Qed.

Lemma land_ones_add_mul a b n : 0 <= n -> 0 <= a < 2 ^ n -> Z.land (a + b * 2 ^ n) (Z.ones n) = a.
Proof.
  intros Hn Ha. rewrite Z.land_ones by lia. rewrite Z.mod_add by lia. by apply Z.mod_small.
Qed.

Lemma land_high_mask x k :
  0 <= k <= 64 -> 0 <= x < 2 ^ 64 ->
  Z.land x (ULLONG_MAX - (2 ^ k - 1)) = x / 2 ^ k * 2 ^ k.
Proof.
  intros Hk Hx. rewrite <- Z.shiftr_div_pow2, <- Z.shiftl_mul_pow2 by lia.
  rewrite <- Z.ldiff_ones_r by lia.
  assert (E : ULLONG_MAX - (2 ^ k - 1) = Z.shiftl (Z.ones (64 - k)) k).
  { rewrite Z.shiftl_mul_pow2, Z.ones_equiv by lia. unfold ULLONG_MAX.
    rewrite <- Z.sub_1_r, Z.mul_sub_distr_r, <- Z.pow_add_r by lia.
    replace (64 - k + k) with 64 by lia. lia. }
  rewrite E. apply Z.bits_inj'. intros i Hi.
  rewrite Z.land_spec, Z.ldiff_spec, Z.shiftl_spec by lia.
  destruct (Z.lt_ge_cases i k).
  - rewrite (Z.testbit_neg_r _ (i - k)), Z.ones_spec_low by lia. by rewrite !andb_false_r.
  - rewrite (Z.ones_spec_high k i) by lia. destruct (Z.lt_ge_cases i 64).
    + rewrite Z.ones_spec_low by lia. by rewrite !andb_true_r.
    + rewrite (testbit_above x 64 i) by lia. done.
Qed.

Lemma lor_ones_div a k : 0 <= k -> Z.lor a (Z.ones k) = a / 2 ^ k * 2 ^ k + (2 ^ k - 1).
Proof.
  intros Hk. assert (Hp : 0 < 2 ^ k) by (apply Z.pow_pos_nonneg; lia).
  assert (E : Z.lor a (Z.ones k) = Z.lor (Z.ones k) (Z.shiftl (Z.shiftr a k) k)).
  { apply Z.bits_inj'. intros i Hi. rewrite !Z.lor_spec, Z.shiftl_spec by lia.
    destruct (Z.lt_ge_cases i k).
    - rewrite Z.ones_spec_low by lia. by rewrite orb_true_r.
    - rewrite Z.ones_spec_high, Z.shiftr_spec by lia. rewrite orb_false_r.
      simpl. f_equal. lia. }
  rewrite E, lor_shiftl_add by (rewrite ?Z.ones_equiv; lia).
  rewrite Z.ones_equiv, Z.shiftr_div_pow2 by lia. lia.
Qed.

Lemma round_mask_pow2 k : 0 <= k < 64 -> round_mask (2 ^ k) = 2 ^ k - 1.
Proof.
  intros Hk. unfold round_mask. assert (0 < 2 ^ k) by (apply Z.pow_pos_nonneg; lia).
  assert (2 ^ k < 2 ^ 64) by (apply Z.pow_lt_mono_r; lia). apply u64_small. lia.
Qed.

(** [round_down] is the largest multiple below; [round_up] the smallest one
    above, unless it wraps to 0. *)
Lemma round_down_pow2 x k : 0 <= k < 64 -> 0 <= x < 2 ^ 64 -> round_down x (2 ^ k) = x / 2 ^ k * 2 ^ k.
Proof. intros. unfold round_down. rewrite round_mask_pow2, land_high_mask; lia. Qed.

Lemma round_up_pow2 x k :
  0 <= k < 64 -> 0 <= x < 2 ^ 64 ->
  round_up x (2 ^ k) = u64 ((x + 2 ^ k - 1) / 2 ^ k * 2 ^ k).
Proof.
  intros Hk Hx. unfold round_up. rewrite round_mask_pow2 by lia.
  assert (Hp : 0 < 2 ^ k) by (apply Z.pow_pos_nonneg; lia).
  replace (2 ^ k - 1) with (Z.ones k) at 1 by (rewrite Z.ones_equiv; lia).
  rewrite lor_ones_div by lia.
  replace (x + 2 ^ k - 1) with (x - 1 + 1 * 2 ^ k) by lia. rewrite Z.div_add by lia.
  destruct (Z.eq_dec x 0) as [->|Hne].
  - replace (0 - 1) with (-1) by lia. replace (-1 / 2 ^ k) with (-1).
    2:{ apply Z.div_unique with (2 ^ k - 1); lia. }
    change (u64 (-1)) with (2 ^ 64 - 1).
    assert (E : (2 ^ 64 - 1) / 2 ^ k = 2 ^ (64 - k) - 1).
    { symmetry. apply Z.div_unique with (2 ^ k - 1); [lia|].
      assert (2 ^ 64 = 2 ^ k * 2 ^ (64 - k)) by (rewrite <- Z.pow_add_r by lia; f_equal; lia).
      lia. }
    rewrite E. replace ((2 ^ (64 - k) - 1) * 2 ^ k + (2 ^ k - 1) + 1) with (2 ^ 64).
    2:{ assert (2 ^ 64 = 2 ^ (64 - k) * 2 ^ k) by (rewrite <- Z.pow_add_r by lia; f_equal; lia).
        lia. }
    replace ((-1 + 1) * 2 ^ k) with 0 by lia. reflexivity.
  - rewrite (u64_small (x - 1)) by lia. f_equal. lia.
Qed.

(** Decide an integer comparison of the goal that linear arithmetic settles. *)
Ltac zdec :=
  repeat match goal with
  | |- context [?a <? ?b] =>
      first [ rewrite (proj2 (Z.ltb_lt a b)) by lia
            | rewrite (proj2 (Z.ltb_ge a b)) by lia ]
  | |- context [?a <=? ?b] =>
      first [ rewrite (proj2 (Z.leb_le a b)) by lia
            | rewrite (proj2 (Z.leb_gt a b)) by lia ]
  | |- context [?a =? ?b] =>
      first [ rewrite (proj2 (Z.eqb_eq a b)) by lia
            | rewrite (proj2 (Z.eqb_neq a b)) by lia ]
  end.

Create HintDb words.
Create Rewrite HintDb words.
#[export] Hint Rewrite u64_small u32_small u8_small s32_small s64_small
  using lia : words.
#[export] Hint Resolve u64_range u32_range u8_range s32_range : words.
