(* ===== verification/Bitmap.v ===== *)
(** * Bitmaps

    An executable model of lib/base/src/find_bit.c, of the part of
    lib/base/src/bitmap.c that works on words, and of the non-atomic bit
    operations.  A bitmap is the list of its 64-bit words.

    The second half has copies, logical operations, comparisons, weight, shifts,
    aligned regions, the ordinal maps and the operations built on them.  A source
    that is the destination itself (the callers pass the same pointer twice) is
    [Self]. *)
From stdpp Require Import base numbers list option.
From Stdlib Require Import ZArith Lia.
From S2P Require Import Prelude.

Definition BITS_PER_LONG : Z := 64.
Abbreviation bitmap := (list Z).

Definition BITS_TO_LONGS (nr : Z) : Z := (nr + BITS_PER_LONG - 1) / BITS_PER_LONG.
Definition BIT_MASK (nr : Z) : Z := u64 (Z.shiftl 1 (nr mod BITS_PER_LONG)).
Definition BIT_WORD (nr : Z) : Z := nr / BITS_PER_LONG.
Definition not64 (w : Z) : Z := ULLONG_MAX - w.      (* ~w *)

Definition BITMAP_FIRST_WORD_MASK (start : Z) : Z :=
  u64 (Z.shiftl ULLONG_MAX (Z.land start (BITS_PER_LONG - 1))).
Definition BITMAP_LAST_WORD_MASK (nbits : Z) : Z :=
  Z.shiftr ULLONG_MAX (Z.land (- nbits) (BITS_PER_LONG - 1)).

(** ** Single words *)

Fixpoint ctz (p : positive) : Z :=
  match p with
  | xO p => 1 + ctz p
  | _ => 0
  end.
(** [__builtin_ctzl], undefined on zero. *)
Definition __ffs (word : Z) : outcome Z :=
  match word with
  | Zpos p => Ret (ctz p)
  | _ => Fault
  end.
(** [BITS_PER_LONG - 1 - __builtin_clzl(word)], undefined on zero. *)
Definition __fls (word : Z) : outcome Z := if 0 <? word then Ret (Z.log2 word) else Fault.

Definition fls_long (l : Z) : Z := if l =? 0 then 0 else Z.log2 l + 1.

(** ** Non-atomic bit operations *)

Definition modify (map : bitmap) (k : Z) (f : Z -> Z) : outcome bitmap :=
  w ← rd map k; wr map k (f w).

Definition __set_bit (nr : Z) (addr : bitmap) : outcome bitmap :=
  modify addr (BIT_WORD nr) (fun w => Z.lor w (BIT_MASK nr)).
Definition __clear_bit (nr : Z) (addr : bitmap) : outcome bitmap :=
  modify addr (BIT_WORD nr) (fun w => Z.land w (not64 (BIT_MASK nr))).
Definition __test_and_set_bit (nr : Z) (addr : bitmap) : outcome (bool * bitmap) :=
  old ← rd addr (BIT_WORD nr);
  addr ← wr addr (BIT_WORD nr) (Z.lor old (BIT_MASK nr));
  Ret (negb (Z.land old (BIT_MASK nr) =? 0), addr).
Definition test_bit (nr : Z) (addr : bitmap) : outcome bool :=
  w ← rd addr (BIT_WORD nr);
  Ret (negb (Z.land 1 (Z.shiftr w (Z.land nr (BITS_PER_LONG - 1))) =? 0)).

(** ** Searching *)

Definition fetch (addr1 : bitmap) (addr2 : option bitmap) (start invert : Z) : outcome Z :=
  tmp ← rd addr1 (start / BITS_PER_LONG);
  tmp ← match addr2 with
        | Some addr2 => w ← rd addr2 (start / BITS_PER_LONG); Ret (Z.land tmp w)
        | None => Ret tmp
        end;
  Ret (Z.lxor tmp invert).

Definition find_next_turn (addr1 : bitmap) (addr2 : option bitmap) (nbits invert : Z)
    (st : Z * Z) : outcome (Z * Z + Z) :=
  let '(start, tmp) := st in
  if tmp =? 0 then
    let start := u64 (start + BITS_PER_LONG) in
    if nbits <=? start then Ret (inr nbits)
    else tmp ← fetch addr1 addr2 start invert; Ret (inl (start, tmp))
  else b ← __ffs tmp; Ret (inr (Z.min (u64 (start + b)) nbits)).

Definition _find_next_bit (addr1 : bitmap) (addr2 : option bitmap) (nbits start invert : Z) : outcome Z :=
  if nbits <=? start then Ret nbits
  else
    tmp ← fetch addr1 addr2 start invert;
    let tmp := Z.land tmp (BITMAP_FIRST_WORD_MASK start) in
    let start := round_down start BITS_PER_LONG in
    loop (Z.to_nat (BITS_TO_LONGS nbits) + 2) (find_next_turn addr1 addr2 nbits invert) (start, tmp).

Definition find_next_bit (addr : bitmap) (size offset : Z) : outcome Z :=
  _find_next_bit addr None size offset 0.
Definition find_next_zero_bit (addr : bitmap) (size offset : Z) : outcome Z :=
  _find_next_bit addr None size offset ULLONG_MAX.
Definition find_next_and_bit (addr1 addr2 : bitmap) (size offset : Z) : outcome Z :=
  _find_next_bit addr1 (Some addr2) size offset 0.

Definition find_first_turn (addr : bitmap) (size : Z) (idx : Z) : outcome (Z + Z) :=
  if idx * BITS_PER_LONG <? size then
    w ← rd addr idx;
    if negb (w =? 0) then b ← __ffs w; Ret (inr (Z.min (idx * BITS_PER_LONG + b) size))
    else Ret (inl (idx + 1))
  else Ret (inr size).
Definition find_first_bit (addr : bitmap) (size : Z) : outcome Z :=
  loop (Z.to_nat (BITS_TO_LONGS size) + 1) (find_first_turn addr size) 0.

(** [ffz(w)] is [__ffs(~w)]. *)
Definition find_first_zero_turn (addr : bitmap) (size : Z) (idx : Z) : outcome (Z + Z) :=
  if idx * BITS_PER_LONG <? size then
    w ← rd addr idx;
    if negb (w =? ULLONG_MAX) then b ← __ffs (not64 w); Ret (inr (Z.min (idx * BITS_PER_LONG + b) size))
    else Ret (inl (idx + 1))
  else Ret (inr size).
Definition find_first_zero_bit (addr : bitmap) (size : Z) : outcome Z :=
  loop (Z.to_nat (BITS_TO_LONGS size) + 1) (find_first_zero_turn addr size) 0.

Definition find_last_turn (addr : bitmap) (size : Z) (st : Z * Z) : outcome (Z * Z + Z) :=
  let '(idx, val) := st in
  w ← rd addr idx;
  let val := Z.land val w in
  if negb (val =? 0) then b ← __fls val; Ret (inr (idx * BITS_PER_LONG + b))
  else if idx =? 0 then Ret (inr size) else Ret (inl (idx - 1, ULLONG_MAX)).
Definition find_last_bit (addr : bitmap) (size : Z) : outcome Z :=
  if negb (size =? 0) then
    loop (Z.to_nat (BITS_TO_LONGS size) + 1) (find_last_turn addr size)
      ((size - 1) / BITS_PER_LONG, BITMAP_LAST_WORD_MASK size)
  else Ret size.

(** ** Setting and clearing runs *)

(** The loop of [__bitmap_set] and [__bitmap_clear]; [op w mask] is the update
    of one word. *)
Definition run_turn (op : Z -> Z -> Z) (st : bitmap * Z * Z * Z * Z)
  : outcome (bitmap * Z * Z * Z * Z + bitmap * Z * Z * Z) :=
  let '(map, p, len, bits, mask) := st in
  if 0 <=? len - bits then
    map ← modify map p (fun w => op w mask);
    Ret (inl (map, p + 1, len - bits, BITS_PER_LONG, ULLONG_MAX))
  else Ret (inr (map, p, len, mask)).

Definition bitmap_run (op : Z -> Z -> Z) (map : bitmap) (start len : Z) : outcome bitmap :=
  let size := u32 (start + len) in
  '(map, p, len, mask) ←
    loop (Z.to_nat (len / BITS_PER_LONG) + 2) (run_turn op)
      (map, BIT_WORD start, len, BITS_PER_LONG - start mod BITS_PER_LONG, BITMAP_FIRST_WORD_MASK start);
  if negb (len =? 0) then
    let mask := Z.land mask (BITMAP_LAST_WORD_MASK size) in
    modify map p (fun w => op w mask)
  else Ret map.

Definition __bitmap_set (map : bitmap) (start len : Z) : outcome bitmap :=
  bitmap_run (fun w mask => Z.lor w mask) map start len.
Definition __bitmap_clear (map : bitmap) (start len : Z) : outcome bitmap :=
  bitmap_run (fun w mask => Z.land w (not64 mask)) map start len.

(** [bitmap_set] and [bitmap_clear]; the memset variants for constant arguments
    are optimisations of the same effect. *)
Definition bitmap_set := __bitmap_set.
Definition bitmap_clear := __bitmap_clear.

(** ** Aligned zero areas *)

Definition __ALIGN_MASK (x mask : Z) : Z := Z.land (u64 (x + mask)) (not64 mask).

Definition zero_area_turn (map : bitmap) (size nr align_mask align_offset start : Z)
  : outcome (Z + Z) :=
  index ← find_next_zero_bit map size start;
  let index := u64 (__ALIGN_MASK (u64 (index + align_offset)) align_mask - align_offset) in
  let end_ := u64 (index + nr) in
  if size <? end_ then Ret (inr end_)
  else
    i ← find_next_bit map end_ index;
    if i <? end_ then Ret (inl (u64 (i + 1))) else Ret (inr index).
Definition bitmap_find_next_zero_area_off (map : bitmap) (size start nr align_mask align_offset : Z)
  : outcome Z :=
  loop (Z.to_nat size + 2) (zero_area_turn map size nr align_mask align_offset) start.
Definition bitmap_find_next_zero_area (map : bitmap) (size start nr align_mask : Z) : outcome Z :=
  bitmap_find_next_zero_area_off map size start nr align_mask 0.

Inductive operand := Self | Buf (m : bitmap).
Definition source (dst : bitmap) (o : operand) : bitmap := match o with Self => dst | Buf m => m end.
Definition load (dst : bitmap) (o : operand) (k : Z) : outcome Z := rd (source dst o) k.

(** [memset] of [n] words from [start]. *)
Definition fill (map : bitmap) (start n v : Z) : outcome bitmap :=
  if decide (0 <= start /\ 0 <= n /\ start + n <= Z.of_nat (length map))
  then Ret (take (Z.to_nat start) map ++ replicate (Z.to_nat n) v ++ drop (Z.to_nat (start + n)) map)
  else Fault.

Definition bitmap_zero (dst : bitmap) (nbits : Z) : outcome bitmap := fill dst 0 (BITS_TO_LONGS nbits) 0.
Definition bitmap_fill (dst : bitmap) (nbits : Z) : outcome bitmap := fill dst 0 (BITS_TO_LONGS nbits) ULLONG_MAX.

(** ** Logical operations *)

Definition logic_turn (f : Z -> Z -> Z) (lim : Z) (b1 b2 : operand) (st : bitmap * Z * Z)
  : outcome (bitmap * Z * Z + bitmap * Z * Z) :=
  let '(dst, k, result) := st in
  if k <? lim then
    w1 ← load dst b1 k; w2 ← load dst b2 k;
    dst ← wr dst k (f w1 w2);
    Ret (inl (dst, k + 1, Z.lor result (f w1 w2)))
  else Ret (inr (dst, k, result)).

(** The operations that trim the last word and say whether a bit is left. *)
Definition logic_trim (f : Z -> Z -> Z) (dst : bitmap) (b1 b2 : operand) (bits : Z) : outcome (bool * bitmap) :=
  let lim := bits / BITS_PER_LONG in
  '(dst, k, result) ← loop (Z.to_nat lim + 1) (logic_turn f lim b1 b2) (dst, 0, 0);
  if negb (bits mod BITS_PER_LONG =? 0) then
    w1 ← load dst b1 k; w2 ← load dst b2 k;
    let w := Z.land (f w1 w2) (BITMAP_LAST_WORD_MASK bits) in
    dst ← wr dst k w;
    Ret (negb (Z.lor result w =? 0), dst)
  else Ret (negb (result =? 0), dst).

(** The operations on whole words. *)
Definition logic_words (f : Z -> Z -> Z) (dst : bitmap) (b1 b2 : operand) (bits : Z) : outcome bitmap :=
  let nr := BITS_TO_LONGS bits in
  '(dst, _, _) ← loop (Z.to_nat nr + 1) (logic_turn f nr b1 b2) (dst, 0, 0); Ret dst.

Definition andnot (w1 w2 : Z) : Z := Z.land w1 (not64 w2).
Definition __bitmap_and := logic_trim Z.land.
Definition __bitmap_andnot := logic_trim andnot.
Definition __bitmap_or := logic_words Z.lor.
Definition __bitmap_xor := logic_words Z.lxor.
Definition __bitmap_complement (dst : bitmap) (src : operand) (bits : Z) : outcome bitmap :=
  logic_words (fun w _ => not64 w) dst src src bits.

(** ** Comparisons: is there a bit of [f] of the words? *)

Definition hit_turn (f : Z -> Z -> Z) (lim : Z) (b1 b2 : bitmap) (k : Z) : outcome (Z + (bool * Z)) :=
  if k <? lim then
    w1 ← rd b1 k; w2 ← rd b2 k;
    if negb (f w1 w2 =? 0) then Ret (inr (true, k)) else Ret (inl (k + 1))
  else Ret (inr (false, k)).
Definition bitmap_hits (f : Z -> Z -> Z) (b1 b2 : bitmap) (bits : Z) : outcome bool :=
  let lim := bits / BITS_PER_LONG in
  '(hit, k) ← loop (Z.to_nat lim + 1) (hit_turn f lim b1 b2) 0;
  if (hit : bool) then Ret true
  else if negb (bits mod BITS_PER_LONG =? 0) then
    w1 ← rd b1 k; w2 ← rd b2 k;
    Ret (negb (Z.land (f w1 w2) (BITMAP_LAST_WORD_MASK bits) =? 0))
  else Ret false.

Definition __bitmap_intersects := bitmap_hits Z.land.
Definition __bitmap_equal (b1 b2 : bitmap) (bits : Z) : outcome bool :=
  hit ← bitmap_hits Z.lxor b1 b2 bits; Ret (negb hit).
Definition __bitmap_subset (b1 b2 : bitmap) (bits : Z) : outcome bool :=
  hit ← bitmap_hits andnot b1 b2 bits; Ret (negb hit).

Definition bitmap_empty (src : bitmap) (nbits : Z) : outcome bool :=
  i ← find_first_bit src nbits; Ret (i =? nbits).
Definition bitmap_full (src : bitmap) (nbits : Z) : outcome bool :=
  i ← find_first_zero_bit src nbits; Ret (i =? nbits).

(** ** Weight *)

(** The multiply variant, for CONFIG_ARCH_HAS_FAST_MULTIPLIER (arm64). *)
Definition __sw_hweight64 (w : Z) : Z :=
  let w := u64 (w - Z.land (Z.shiftr w 1) 0x5555555555555555) in
  let w := u64 (Z.land w 0x3333333333333333 + Z.land (Z.shiftr w 2) 0x3333333333333333) in
  let w := Z.land (u64 (w + Z.shiftr w 4)) 0x0f0f0f0f0f0f0f0f in
  Z.shiftr (u64 (w * 0x0101010101010101)) 56.
Definition hweight_long := __sw_hweight64.

Definition weight_turn (map : bitmap) (lim : Z) (st : Z * Z) : outcome (Z * Z + Z * Z) :=
  let '(k, w) := st in
  if k <? lim then x ← rd map k; Ret (inl (k + 1, s32 (w + hweight_long x))) else Ret (inr (k, w)).
Definition __bitmap_weight (map : bitmap) (bits : Z) : outcome Z :=
  let lim := bits / BITS_PER_LONG in
  '(k, w) ← loop (Z.to_nat lim + 1) (weight_turn map lim) (0, 0);
  if negb (bits mod BITS_PER_LONG =? 0) then
    x ← rd map k; Ret (s32 (w + hweight_long (Z.land x (BITMAP_LAST_WORD_MASK bits))))
  else Ret w.
Definition bitmap_weight := __bitmap_weight.

(** ** Shifts *)

Definition shift_right_turn (src : operand) (lim off rem mask : Z) (st : bitmap * Z) : outcome (bitmap * Z + bitmap) :=
  let '(dst, k) := st in
  if off + k <? lim then
    upper ← (if (rem =? 0) || (lim <=? off + k + 1) then Ret 0
             else
               upper ← load dst src (off + k + 1);
               let upper := if off + k + 1 =? lim - 1 then Z.land upper mask else upper in
               Ret (u64 (Z.shiftl upper (BITS_PER_LONG - rem))));
    lower ← load dst src (off + k);
    let lower := if off + k =? lim - 1 then Z.land lower mask else lower in
    let lower := Z.shiftr lower rem in
    dst ← wr dst k (Z.lor lower upper);
    Ret (inl (dst, k + 1))
  else Ret (inr dst).
Definition __bitmap_shift_right (dst : bitmap) (src : operand) (shift nbits : Z) : outcome bitmap :=
  let lim := BITS_TO_LONGS nbits in
  let off := shift / BITS_PER_LONG in
  let rem := shift mod BITS_PER_LONG in
  let mask := BITMAP_LAST_WORD_MASK nbits in
  dst ← loop (Z.to_nat lim + 1) (shift_right_turn src lim off rem mask) (dst, 0);
  if negb (off =? 0) then fill dst (lim - off) off 0 else Ret dst.

Definition shift_left_turn (src : operand) (off rem : Z) (st : bitmap * Z) : outcome (bitmap * Z + bitmap) :=
  let '(dst, k) := st in
  if 0 <=? k then
    lower ← (if negb (rem =? 0) && (0 <? k) then
               w ← load dst src (k - 1); Ret (Z.shiftr w (BITS_PER_LONG - rem))
             else Ret 0);
    w ← load dst src k;
    let upper := u64 (Z.shiftl w rem) in
    dst ← wr dst (k + off) (Z.lor lower upper);
    Ret (inl (dst, k - 1))
  else Ret (inr dst).
Definition __bitmap_shift_left (dst : bitmap) (src : operand) (shift nbits : Z) : outcome bitmap :=
  let lim := BITS_TO_LONGS nbits in
  let off := shift / BITS_PER_LONG in
  let rem := shift mod BITS_PER_LONG in
  dst ← loop (Z.to_nat lim + 1) (shift_left_turn src off rem) (dst, lim - off - 1);
  if negb (off =? 0) then fill dst 0 off 0 else Ret dst.

(** ** Aligned regions of 2^order bits *)

Inductive reg_op := REG_OP_ISFREE | REG_OP_ALLOC | REG_OP_RELEASE.

(** [-ENOMEM] and [-EBUSY] are the failures. *)
Definition EBUSY : Z := 16.

Definition reg_turn (op : reg_op) (index nlongs mask : Z) (st : bitmap * Z) : outcome (bitmap * Z + Z * bitmap) :=
  let '(map, i) := st in
  if i <? nlongs then
    match op with
    | REG_OP_ISFREE =>
        w ← rd map (index + i);
        if negb (Z.land w mask =? 0) then Ret (inr (0, map)) else Ret (inl (map, i + 1))
    | REG_OP_ALLOC => map ← modify map (index + i) (fun w => Z.lor w mask); Ret (inl (map, i + 1))
    | REG_OP_RELEASE => map ← modify map (index + i) (fun w => Z.land w (not64 mask)); Ret (inl (map, i + 1))
    end
  else Ret (inr (match op with REG_OP_ISFREE => 1 | _ => 0 end, map)).

Definition __reg_op (map : bitmap) (pos order : Z) (op : reg_op) : outcome (Z * bitmap) :=
  let nbits_reg := Z.shiftl 1 order in
  let index := pos / BITS_PER_LONG in
  let offset := pos - index * BITS_PER_LONG in
  let nlongs_reg := BITS_TO_LONGS nbits_reg in
  let nbitsinlong := Z.min nbits_reg BITS_PER_LONG in
  let mask := u64 (Z.shiftl 1 (nbitsinlong - 1)) in
  let mask := u64 (mask + u64 (mask - 1)) in
  let mask := u64 (Z.shiftl mask offset) in
  loop (Z.to_nat nlongs_reg + 1) (reg_turn op index nlongs_reg mask) (map, 0).

Definition find_region_turn (map : bitmap) (bits order : Z) (pos : Z) : outcome (Z + Z * bitmap) :=
  let end_ := u32 (pos + u32 (Z.shiftl 1 order)) in
  if end_ <=? bits then
    '(free, _) ← __reg_op map pos order REG_OP_ISFREE;
    if free =? 0 then Ret (inl end_)
    else '(_, map) ← __reg_op map pos order REG_OP_ALLOC; Ret (inr (pos, map))
  else Ret (inr (- ENOMEM, map)).
Definition bitmap_find_free_region (map : bitmap) (bits order : Z) : outcome (Z * bitmap) :=
  loop (Z.to_nat (bits / Z.shiftl 1 order) + 1) (find_region_turn map bits order) 0.
Definition bitmap_release_region (map : bitmap) (pos order : Z) : outcome bitmap :=
  '(_, map) ← __reg_op map pos order REG_OP_RELEASE; Ret map.
Definition bitmap_allocate_region (map : bitmap) (pos order : Z) : outcome (Z * bitmap) :=
  '(free, map) ← __reg_op map pos order REG_OP_ISFREE;
  if free =? 0 then Ret (- EBUSY, map) else __reg_op map pos order REG_OP_ALLOC.

(** ** Ordinals and the maps they define *)

Definition bitmap_pos_to_ord (buf : bitmap) (pos nbits : Z) : outcome Z :=
  if nbits <=? pos then Ret (-1)
  else
    b ← test_bit pos buf;
    if negb b then Ret (-1) else __bitmap_weight buf pos.

Definition ord_turn (buf : bitmap) (nbits : Z) (st : Z * Z) : outcome (Z * Z + Z) :=
  let '(pos, ord) := st in
  if (pos <? nbits) && negb (ord =? 0) then
    let ord := ord - 1 in
    pos ← find_next_bit buf nbits (pos + 1);
    Ret (inl (pos, ord))
  else Ret (inr pos).
Definition bitmap_ord_to_pos (buf : bitmap) (ord nbits : Z) : outcome Z :=
  pos ← find_first_bit buf nbits;
  loop (Z.to_nat nbits + 1) (ord_turn buf nbits) (pos, ord).

Definition bitmap_bitremap (oldbit : Z) (old new : bitmap) (bits : Z) : outcome Z :=
  w ← bitmap_weight new bits;
  n ← bitmap_pos_to_ord old oldbit bits;
  if (n <? 0) || (w =? 0) then Ret oldbit else bitmap_ord_to_pos new (Z.rem n w) bits.

(** [for_each_set_bit]: the body runs at each set bit of [addr], in increasing
    order. *)
Definition set_bit_turn {S} (addr : bitmap) (size : Z) (body : Z -> S -> outcome S) (st : Z * S)
  : outcome (Z * S + S) :=
  let '(bit, s) := st in
  if bit <? size then
    s ← body bit s;
    bit ← find_next_bit addr size (bit + 1);
    Ret (inl (bit, s))
  else Ret (inr s).
Definition for_each_set_bit {S} (addr : bitmap) (size : Z) (body : Z -> S -> outcome S) (s : S) : outcome S :=
  bit ← find_first_bit addr size;
  loop (Z.to_nat size + 1) (set_bit_turn addr size body) (bit, s).

(** The atomic [set_bit], taken alone. *)
Definition set_bit (nr : Z) (p : bitmap) : outcome bitmap := modify p (BIT_WORD nr) (fun w => Z.lor w (BIT_MASK nr)).

Definition remap_body (old new : bitmap) (w nbits oldbit : Z) (dst : bitmap) : outcome bitmap :=
  n ← bitmap_pos_to_ord old oldbit nbits;
  if (n <? 0) || (w =? 0) then set_bit oldbit dst
  else pos ← bitmap_ord_to_pos new (Z.rem n w) nbits; set_bit pos dst.
(** The call with [dst == src] returns at once and is not this definition. *)
Definition bitmap_remap (dst src old new : bitmap) (nbits : Z) : outcome bitmap :=
  dst ← bitmap_zero dst nbits;
  w ← bitmap_weight new nbits;
  for_each_set_bit src nbits (remap_body old new w nbits) dst.

Definition onto_body (orig : bitmap) (n : Z) (st : bitmap * Z) : outcome (bitmap * Z) :=
  let '(dst, m) := st in
  b ← test_bit m orig;
  dst ← (if (b : bool) then set_bit n dst else Ret dst);
  Ret (dst, m + 1).
Definition bitmap_onto (dst orig relmap : bitmap) (bits : Z) : outcome bitmap :=
  dst ← bitmap_zero dst bits;
  '(dst, _) ← for_each_set_bit relmap bits (onto_body orig) (dst, 0);
  Ret dst.

Definition bitmap_fold (dst orig : bitmap) (sz nbits : Z) : outcome bitmap :=
  dst ← bitmap_zero dst nbits;
  for_each_set_bit orig nbits (fun oldbit dst => if sz =? 0 then Fault else set_bit (oldbit mod sz) dst) dst.
