(* ===== verification/BitmapFacts.v ===== *)
(** * Properties of bitmaps

    A bitmap is read as the predicate [bit_of]; the searches find exactly the
    least (or greatest) bit, and the updates change exactly the bits of their
    range. *)

From stdpp Require Import base numbers list option.
From Stdlib Require Import ZArith Lia.
From S2P Require Import Prelude Bitmap.

(** ** The bits of a bitmap *)

Definition bit_of (map : bitmap) (i : Z) : bool :=
  match map !! Z.to_nat (i / 64) with
  | Some w => Z.testbit w (i mod 64)
  | None => false
  end.

Definition word (w : Z) : Prop := 0 <= w < 2 ^ 64.
Definition wf (map : bitmap) : Prop := Forall word map.

(** The map has room for [n] bits. *)
Definition room (map : bitmap) (n : Z) : Prop := wf map /\ n <= 64 * Z.of_nat (length map).

#[export] Instance word_dec w : Decision (word w).
Proof. unfold word. apply _. Defined.
#[export] Instance room_dec map n : Decision (room map n).
Proof. unfold room, wf. apply _. Defined.

Lemma word_bits_above w j : word w -> 64 <= j -> Z.testbit w j = false.
Proof. intros Hw Hj. by apply (testbit_above w 64). Qed.

Lemma word_of_bits w : 0 <= w -> (forall j, 64 <= j -> Z.testbit w j = false) -> word w.
Proof.
  intros H0 Hb. split; [done|]. destruct (Z.eq_dec w 0) as [->|Hne]; [lia|].
  apply Z.log2_lt_pow2; [lia|]. destruct (Z.lt_ge_cases (Z.log2 w) 64) as [|Hge]; [done|].
  specialize (Hb (Z.log2 w) Hge). rewrite Z.bit_log2 in Hb by lia. done.
Qed.

Lemma word_land w x : word w -> 0 <= x -> word (Z.land w x).
Proof.
  intros Hw Hx. apply word_of_bits; [apply Z.land_nonneg; left; apply Hw|].
  intros j Hj. by rewrite Z.land_spec, (word_bits_above w).
Qed.
Lemma word_lor w x : word w -> word x -> word (Z.lor w x).
Proof.
  intros Hw Hx. apply word_of_bits; [apply Z.lor_nonneg; split; [apply Hw|apply Hx]|].
  intros j Hj. by rewrite Z.lor_spec, !word_bits_above.
Qed.
Lemma word_lxor w x : word w -> word x -> word (Z.lxor w x).
Proof.
  intros Hw Hx. apply word_of_bits; [apply Z.lxor_nonneg; split; intros; [apply Hx|apply Hw]|].
  intros j Hj. by rewrite Z.lxor_spec, !word_bits_above.
Qed.

Lemma ULLONG_MAX_ones : ULLONG_MAX = Z.ones 64.
Proof. reflexivity. Qed.
Lemma word_max : word ULLONG_MAX.
Proof. unfold word, ULLONG_MAX. lia. Qed.
Lemma max_bits j : 0 <= j < 64 -> Z.testbit ULLONG_MAX j = true.
Proof. intros Hj. rewrite ULLONG_MAX_ones. by apply Z.ones_spec_low. Qed.

Lemma u64_bits z j : 0 <= j < 64 -> Z.testbit (u64 z) j = Z.testbit z j.
Proof. intros Hj. unfold u64. by rewrite Z.mod_pow2_bits_low by lia. Qed.
Lemma not64_bits w j : word w -> 0 <= j < 64 -> Z.testbit (not64 w) j = negb (Z.testbit w j).
Proof.
  intros Hw Hj. assert (E : not64 w = u64 (Z.lnot w)).
  { unfold not64, ULLONG_MAX, Z.lnot, u64, word in *. apply Z.mod_unique with (-1); lia. }
  rewrite E, u64_bits, Z.lnot_spec by lia. done.
Qed.

Lemma word_not64 w : word w -> word (not64 w).
Proof. unfold word, not64, ULLONG_MAX. lia. Qed.

Lemma word_u64 z : word (u64 z).
Proof. apply u64_range. Qed.

Lemma land_63 x : Z.land x (BITS_PER_LONG - 1) = x mod 64.
Proof. unfold BITS_PER_LONG. change (64 - 1) with (Z.ones 6). by rewrite Z.land_ones by lia. Qed.

Lemma bit_mask_bits nr j : 0 <= j < 64 -> Z.testbit (BIT_MASK nr) j = (j =? nr mod 64).
Proof.
  intros Hj. unfold BIT_MASK, BITS_PER_LONG. pose proof (Z.mod_pos_bound nr 64 ltac:(lia)) as Hr.
  rewrite u64_bits, Z.shiftl_1_l by lia. destruct (Z.eqb_spec j (nr mod 64)) as [->|Hne].
  - apply Z.pow2_bits_true. lia.
  - apply Z.pow2_bits_false. lia.
Qed.
Lemma word_bit_mask nr : word (BIT_MASK nr).
Proof. apply word_u64. Qed.

Lemma first_mask_bits s j : 0 <= j < 64 -> Z.testbit (BITMAP_FIRST_WORD_MASK s) j = (s mod 64 <=? j).
Proof.
  intros Hj. unfold BITMAP_FIRST_WORD_MASK. rewrite land_63, u64_bits, Z.shiftl_spec by lia.
  pose proof (Z.mod_pos_bound s 64 ltac:(lia)). destruct (Z.leb_spec (s mod 64) j).
  - apply max_bits. lia.
  - apply Z.testbit_neg_r. lia.
Qed.
Lemma word_first_mask s : word (BITMAP_FIRST_WORD_MASK s).
Proof. apply word_u64. Qed.

Lemma last_mask_bits n j : 0 <= j < 64 -> Z.testbit (BITMAP_LAST_WORD_MASK n) j = (j + (- n) mod 64 <? 64).
Proof.
  intros Hj. unfold BITMAP_LAST_WORD_MASK. rewrite land_63. pose proof (Z.mod_pos_bound (- n) 64 ltac:(lia)).
  rewrite Z.shiftr_spec by lia. destruct (Z.ltb_spec (j + - n mod 64) 64).
  - apply max_bits. lia.
  - apply word_bits_above; [apply word_max|lia].
Qed.
Lemma word_last_mask n : word (BITMAP_LAST_WORD_MASK n).
Proof.
  unfold BITMAP_LAST_WORD_MASK. rewrite land_63. pose proof (Z.mod_pos_bound (- n) 64 ltac:(lia)).
  rewrite Z.shiftr_div_pow2 by lia. unfold word, ULLONG_MAX.
  pose proof (Z.pow_pos_nonneg 2 (- n mod 64) ltac:(lia) ltac:(lia)).
  split; [apply Z.div_pos; lia|]. apply Z.div_lt_upper_bound; nia.
Qed.

Lemma word_zero_bits w : word w -> (forall j, 0 <= j < 64 -> Z.testbit w j = false) -> w = 0.
Proof.
  intros Hw Hb. apply Z.bits_inj'. intros j Hj. rewrite Z.bits_0.
  destruct (Z.lt_ge_cases j 64); [by apply Hb|by apply word_bits_above].
Qed.

(** ** First and last bit of a word *)

Lemma ctz_spec p :
  0 <= ctz p /\ Z.testbit (Zpos p) (ctz p) = true /\ forall j, 0 <= j < ctz p -> Z.testbit (Zpos p) j = false.
Proof.
  induction p as [p IH|p IH|]; simpl ctz; try (split_and!; [lia|done|intros; lia]).
  destruct IH as (IH1 & IH2 & IH3). rewrite Pos2Z.inj_xO. split_and!; [lia| |].
  - replace (1 + ctz p) with (Z.succ (ctz p)) by lia. by rewrite Z.double_bits_succ.
  - intros j Hj. destruct (Z.eq_dec j 0) as [->|Hne]; [by rewrite Z.testbit_even_0|].
    replace j with (Z.succ (j - 1)) by lia. rewrite Z.double_bits_succ. apply IH3. lia.
Qed.

Lemma ctz_divide p : 0 <= ctz p /\ (2 ^ ctz p | Zpos p).
Proof.
  induction p as [p IH|p IH|]; simpl; try (split; [lia|apply Z.divide_1_l]).
  destruct IH as [IH1 [k Hk]]. split; [lia|]. rewrite Z.pow_add_r by lia. exists k.
  rewrite Pos2Z.inj_xO, Hk. lia.
Qed.

Lemma ffs_ok x : 0 < x -> exists n, __ffs x = Ret n /\ 0 <= n /\ (2 ^ n | x).
Proof. intros Hx. destruct x; try lia. eexists. split; [done|]. apply ctz_divide. Qed.

Lemma ffs_spec w :
  word w -> w <> 0 ->
  exists b, __ffs w = Ret b /\ 0 <= b < 64 /\ Z.testbit w b = true /\ forall j, 0 <= j < b -> Z.testbit w j = false.
Proof.
  intros Hw Hne. destruct w as [|p|p]; [done| |unfold word in Hw; lia].
  destruct (ctz_spec p) as (H1 & H2 & H3). exists (ctz p). split_and!; [done|done| |done|done].
  destruct (Z.lt_ge_cases (ctz p) 64); [done|]. by rewrite word_bits_above in H2.
Qed.

Lemma fls_spec w :
  word w -> w <> 0 ->
  exists b, __fls w = Ret b /\ 0 <= b < 64 /\ Z.testbit w b = true /\ forall j, b < j < 64 -> Z.testbit w j = false.
Proof.
  intros Hw Hne. unfold __fls, word in *. rewrite (proj2 (Z.ltb_lt 0 w)) by lia.
  exists (Z.log2 w). split_and!; [done|apply Z.log2_nonneg| |apply Z.bit_log2; lia|].
  - apply Z.log2_lt_pow2; lia.
  - intros j Hj. apply Z.bits_above_log2; lia.
Qed.

(** ** Words of a bitmap *)

Lemma div_mod_64 i : i = 64 * (i / 64) + i mod 64 /\ 0 <= i mod 64 < 64.
Proof. split; [apply Z.div_mod; lia|apply Z.mod_pos_bound; lia]. Qed.

Lemma bit_of_word map w k j :
  0 <= k -> 0 <= j < 64 -> map !! Z.to_nat k = Some w -> bit_of map (64 * k + j) = Z.testbit w j.
Proof.
  intros Hk Hj E. unfold bit_of. replace ((64 * k + j) / 64) with k.
  2:{ apply Z.div_unique with j; lia. }
  replace ((64 * k + j) mod 64) with j by (apply Z.mod_unique with k; lia). by rewrite E.
Qed.

Lemma wf_lookup map k w : wf map -> map !! k = Some w -> word w.
Proof. intros Hw E. by apply (proj1 (Forall_lookup _ _) Hw k w). Qed.

Lemma rd_bits map k :
  wf map -> 0 <= k < Z.of_nat (length map) ->
  exists w, rd map k = Ret w /\ word w /\ map !! Z.to_nat k = Some w /\
    forall j, 0 <= j < 64 -> bit_of map (64 * k + j) = Z.testbit w j.
Proof.
  intros Hw Hk. destruct (rd_in_range map k Hk) as (w & Hr & E). exists w.
  split_and!; [done|by apply (wf_lookup map (Z.to_nat k))|done|].
  intros j Hj. apply bit_of_word; [lia|done|done].
Qed.

(** One word of a map changes. *)
Lemma modify_bits map k f :
  wf map -> 0 <= k < Z.of_nat (length map) -> (forall w, word w -> word (f w)) ->
  exists map', modify map k f = Ret map' /\ wf map' /\ length map' = length map /\
    forall i, 0 <= i -> bit_of map' i =
      if i / 64 =? k then
        match map !! Z.to_nat k with Some w => Z.testbit (f w) (i mod 64) | None => false end
      else bit_of map i.
Proof.
  intros Hw Hk Hf. destruct (rd_bits map k Hw Hk) as (w & E & Hww & El & _).
  unfold modify. rewrite E, bind_ret, wr_in_range by done. eexists. split; [done|].
  split_and!; [by apply Forall_insert; auto|by rewrite length_insert|].
  intros i Hi. unfold bit_of. pose proof (Z.div_pos i 64 Hi ltac:(lia)) as Hq.
  destruct (Z.eqb_spec (i / 64) k) as [<-|Hne].
  - rewrite list_lookup_insert_eq by lia. by rewrite El.
  - by rewrite list_lookup_insert_ne by lia.
Qed.

Lemma bit_index i nr : 0 <= i -> 0 <= nr -> (i / 64 =? nr / 64) && (i mod 64 =? nr mod 64) = (i =? nr).
Proof.
  intros Hi Hn. destruct (div_mod_64 i), (div_mod_64 nr).
  destruct (Z.eqb_spec (i / 64) (nr / 64)), (Z.eqb_spec (i mod 64) (nr mod 64)), (Z.eqb_spec i nr); lia || done.
Qed.

Lemma word_index nr (map : bitmap) : 0 <= nr < 64 * Z.of_nat (length map) -> 0 <= nr / 64 < Z.of_nat (length map).
Proof. intros H. destruct (div_mod_64 nr). lia. Qed.

(** [__set_bit] and [__clear_bit]. *)
Lemma set_bit_ok map nr :
  wf map -> 0 <= nr < 64 * Z.of_nat (length map) ->
  exists map', __set_bit nr map = Ret map' /\ wf map' /\ length map' = length map /\
    forall i, 0 <= i -> bit_of map' i = (i =? nr) || bit_of map i.
Proof.
  intros Hw Hn. pose proof (word_index _ _ Hn) as Hk.
  destruct (modify_bits map (BIT_WORD nr) (fun w => Z.lor w (BIT_MASK nr)) Hw Hk) as (map' & E & Hw' & Hl & Hb).
  { intros w Hww. apply word_lor; [done|apply word_bit_mask]. }
  exists map'. split_and!; [done..|]. intros i Hi. rewrite Hb by done. unfold BIT_WORD, BITS_PER_LONG.
  destruct (div_mod_64 i) as [Ei Hm]. rewrite <- (bit_index i nr) by lia.
  destruct (Z.eqb_spec (i / 64) (nr / 64)) as [Eq|]; [|done].
  destruct (rd_bits map (nr / 64) Hw Hk) as (w & _ & _ & -> & Hbw).
  rewrite Z.lor_spec, bit_mask_bits, Ei, Eq, Hbw by done. simpl.
  rewrite Z.mul_comm, Z.add_comm, Z.mod_add, Z.mod_small by lia. apply orb_comm.
Qed.

Lemma test_and_set_ok map nr :
  wf map -> 0 <= nr < 64 * Z.of_nat (length map) ->
  exists map', __test_and_set_bit nr map = Ret (bit_of map nr, map') /\ wf map' /\ length map' = length map /\
    forall i, 0 <= i -> bit_of map' i = (i =? nr) || bit_of map i.
Proof.
  intros Hw Hn. destruct (set_bit_ok map nr Hw Hn) as (map' & E & Hrest). exists map'.
  split; [|done]. unfold __set_bit, modify in E. unfold __test_and_set_bit.
  destruct (rd_bits map (BIT_WORD nr) Hw (word_index _ _ Hn)) as (w & Er & Hww & El & Hb).
  rewrite Er in E |- *. rewrite bind_ret in E. destruct (div_mod_64 nr) as [Hnr Hm].
  assert (Hbn : bit_of map nr = Z.testbit w (nr mod 64)).
  { rewrite <- Hb by done. f_equal. unfold BIT_WORD, BITS_PER_LONG. lia. }
  rewrite bind_ret, Hbn, E, bind_ret. do 2 f_equal.
  destruct (Z.testbit w (nr mod 64)) eqn:Et.
  - apply negb_true_iff, Z.eqb_neq. intros E0. assert (Hx : Z.testbit (Z.land w (BIT_MASK nr)) (nr mod 64) = true).
    { by rewrite Z.land_spec, bit_mask_bits, Z.eqb_refl, Et. }
    by rewrite E0, Z.bits_0 in Hx.
  - apply negb_false_iff, Z.eqb_eq. apply word_zero_bits; [apply word_land; [done|apply word_bit_mask]|].
    intros j Hj. rewrite Z.land_spec, bit_mask_bits by done.
    destruct (Z.eqb_spec j (nr mod 64)) as [->|]; [by rewrite Et|apply andb_false_r].
Qed.

(** ** Searching *)

(** What [_find_next_bit] looks for. *)
Definition wanted (a1 : bitmap) (a2 : option bitmap) (inv : bool) (i : Z) : bool :=
  xorb (bit_of a1 i && match a2 with Some a2 => bit_of a2 i | None => true end) inv.

(** [r] is the least wanted index from [start], or [nbits]. *)
Definition least (P : Z -> bool) (start nbits r : Z) : Prop :=
  start <= r <= nbits /\ (forall i, start <= i < r -> P i = false) /\ (r < nbits -> P r = true).

Lemma least_unique P start nbits r1 r2 : least P start nbits r1 -> least P start nbits r2 -> r1 = r2.
Proof.
  intros ([H1 H2] & H3 & H4) ([H5 H6] & H7 & H8).
  destruct (Z.lt_trichotomy r1 r2) as [Hlt|[?|Hlt]]; [|done|].
  - rewrite H7 in H4 by lia. lia.
  - rewrite H3 in H8 by lia. lia.
Qed.

Definition inv_word (inv : bool) : Z := if inv then ULLONG_MAX else 0.

Lemma fetch_ok a1 a2 inv n s :
  room a1 n -> match a2 with Some a2 => room a2 n | None => True end -> 0 <= s < n ->
  exists t, fetch a1 a2 s (inv_word inv) = Ret t /\ word t /\
    forall j, 0 <= j < 64 -> Z.testbit t j = wanted a1 a2 inv (64 * (s / 64) + j).
Proof.
  intros [Hw1 Hl1] H2 Hs. destruct (div_mod_64 s) as [Hd Hm]. unfold fetch, BITS_PER_LONG.
  destruct (rd_bits a1 (s / 64) Hw1) as (w1 & -> & Hww1 & _ & Hb1); [lia|]. rewrite bind_ret.
  assert (Hinv : word (inv_word inv) /\ forall j, 0 <= j < 64 -> Z.testbit (inv_word inv) j = inv).
  { destruct inv; simpl; [split; [apply word_max|apply max_bits]|]. split; [by unfold word|intros; apply Z.bits_0]. }
  destruct Hinv as [Hwi Hbi]. destruct a2 as [a2|].
  - destruct H2 as [Hw2 Hl2]. destruct (rd_bits a2 (s / 64) Hw2) as (w2 & -> & Hww2 & _ & Hb2); [lia|].
    rewrite !bind_ret. eexists. split; [done|].
    split; [apply word_lxor; [by apply word_land; [|apply Hww2]|done]|].
    intros j Hj. unfold wanted. by rewrite Z.lxor_spec, Z.land_spec, Hbi, Hb1, Hb2.
  - rewrite bind_ret. eexists. split; [done|]. split; [by apply word_lxor|].
    intros j Hj. unfold wanted. by rewrite Z.lxor_spec, Hbi, Hb1, andb_true_r.
Qed.

Lemma round_down_64 s : word s -> round_down s BITS_PER_LONG = 64 * (s / 64).
Proof. intros Hs. unfold BITS_PER_LONG. change (round_down s (2 ^ 6) = 64 * (s / 2 ^ 6)).
  rewrite round_down_pow2 by (unfold word in *; lia). apply Z.mul_comm.
Qed.

Lemma find_next_ok a1 a2 inv nbits start :
  room a1 nbits -> match a2 with Some a2 => room a2 nbits | None => True end ->
  0 <= start -> nbits < 2 ^ 63 ->
  exists r, _find_next_bit a1 a2 nbits start (inv_word inv) = Ret r /\
    (nbits <= start -> r = nbits) /\ (start <= nbits -> least (wanted a1 a2 inv) start nbits r).
Proof.
  intros H1 H2 Hs Hn. unfold _find_next_bit. destruct (Z.leb_spec nbits start) as [Hle|Hlt].
  { exists nbits. split; [done|]. split; [done|]. intros ?. split; [lia|]. split; [intros; lia|lia]. }
  destruct (div_mod_64 start) as [Hd Hm].
  destruct (fetch_ok a1 a2 inv nbits start H1 H2) as (t & -> & Hwt & Hbt); [lia|]. rewrite bind_ret.
  rewrite round_down_64 by (unfold word; lia).
  set (P := wanted a1 a2 inv) in *.
  assert (Hr : returns (loop (Z.to_nat (BITS_TO_LONGS nbits) + 2) (find_next_turn a1 a2 nbits (inv_word inv))
    (64 * (start / 64), Z.land t (BITMAP_FIRST_WORD_MASK start))) (least P start nbits)).
  { apply loop_returns with (m := fun '(s, _) => Z.to_nat (BITS_TO_LONGS nbits - s / 64))
      (I := fun '(s, t) => 0 <= s < nbits /\ s mod 64 = 0 /\ start < s + 64 /\ word t /\
        (forall j, 0 <= j < 64 -> Z.testbit t j = (start <=? s + j) && P (s + j)) /\
        forall i, start <= i < s -> P i = false).
    - split; [lia|]. split; [rewrite Z.mul_comm; apply Z.mod_mul; lia|]. split; [lia|].
      split; [apply word_land; [done|apply word_first_mask]|]. split; [|intros; lia].
      intros j Hj. rewrite Z.land_spec, first_mask_bits, Hbt by done.
      rewrite andb_comm. f_equal. destruct (Z.leb_spec (start mod 64) j), (Z.leb_spec start (64 * (start / 64) + j)); lia || done.
    - pose proof (Z.div_pos (64 * (start / 64)) 64 ltac:(lia) ltac:(lia)). lia.
    - intros [s tmp] (Hs1 & Hs2 & Hs3 & Hwt' & Hbits & Hbelow). destruct (div_mod_64 s) as [Hds _].
      unfold find_next_turn. destruct (Z.eqb_spec tmp 0) as [->|Hne].
      + assert (Hall : forall i, start <= i < s + 64 -> P i = false).
        { intros i Hi. destruct (Z.lt_ge_cases i s); [by apply Hbelow; lia|].
          specialize (Hbits (i - s) ltac:(lia)). rewrite Z.bits_0 in Hbits.
          replace (s + (i - s)) with i in Hbits by lia. by rewrite (proj2 (Z.leb_le start i)) in Hbits by lia. }
        unfold BITS_PER_LONG. rewrite u64_small by lia.
        destruct (Z.leb_spec nbits (s + 64)) as [Hge|Hlt2].
        { simpl. split; [lia|]. split; [intros; apply Hall; lia|lia]. }
        destruct (fetch_ok a1 a2 inv nbits (s + 64) H1 H2) as (t2 & -> & Hwt2 & Hbt2); [lia|].
        assert (Hdiv : (s + 64) / 64 = s / 64 + 1).
        { replace (s + 64) with (s + 1 * 64) by lia. apply Z.div_add. lia. }
        rewrite bind_ret. simpl. split.
        * split; [lia|]. split; [replace (s + 64) with (s + 1 * 64) by lia; by rewrite Z.mod_add|].
          split; [lia|]. split; [done|]. split; [|intros; apply Hall; lia].
          intros j Hj. rewrite Hbt2, Hdiv by done. rewrite (proj2 (Z.leb_le start _)) by lia. simpl. f_equal. lia.
        * rewrite Hdiv. assert (s / 64 + 1 < BITS_TO_LONGS nbits); [|lia].
          unfold BITS_TO_LONGS, BITS_PER_LONG. destruct (div_mod_64 (nbits + 64 - 1)). lia.
      + destruct (ffs_spec tmp Hwt' Hne) as (b & -> & Hb & Hset & Hlow). rewrite bind_ret.
        rewrite Hbits in Hset by done. apply andb_true_iff in Hset as [Hge Hset]. apply Z.leb_le in Hge.
        rewrite u64_small by lia. simpl. split; [lia|]. split.
        * intros i Hi. destruct (Z.lt_ge_cases i s); [apply Hbelow; lia|].
          specialize (Hlow (i - s) ltac:(lia)). rewrite Hbits in Hlow by lia.
          replace (s + (i - s)) with i in Hlow by lia. by rewrite (proj2 (Z.leb_le start i)) in Hlow by lia.
        * intros Hlt3. by rewrite Z.min_l by lia. }
  destruct (returns_inv _ _ Hr) as (r & -> & HP). exists r. split; [done|]. split; [lia|done].
Qed.

(** ** Setting and clearing runs *)

(** An update of a word that writes [v] under a mask. *)
Definition masked (op : Z -> Z -> Z) (v : bool) : Prop :=
  forall w m, word w -> word m ->
    word (op w m) /\ forall j, 0 <= j < 64 -> Z.testbit (op w m) j = if Z.testbit m j then v else Z.testbit w j.

Lemma masked_set : masked (fun w m => Z.lor w m) true.
Proof.
  intros w m Hw Hm. split; [by apply word_lor|]. intros j Hj. rewrite Z.lor_spec.
  destruct (Z.testbit m j); [apply orb_true_r|apply orb_false_r].
Qed.
Lemma masked_clear : masked (fun w m => Z.land w (not64 m)) false.
Proof.
  intros w m Hw Hm. split; [apply word_land; [done|apply word_not64, Hm]|]. intros j Hj.
  rewrite Z.land_spec, not64_bits by done. destruct (Z.testbit m j); [apply andb_false_r|apply andb_true_r].
Qed.

(** The word [k] of a map changes under a mask. *)
Lemma modify_masked op v map k m :
  masked op v -> wf map -> word m -> 0 <= k < Z.of_nat (length map) ->
  exists map', modify map k (fun w => op w m) = Ret map' /\ wf map' /\ length map' = length map /\
    forall i, 0 <= i -> bit_of map' i =
      if (i / 64 =? k) && Z.testbit m (i mod 64) then v else bit_of map i.
Proof.
  intros Hop Hw Hm Hk.
  destruct (modify_bits map k (fun w => op w m) Hw Hk) as (map' & E & Hw' & Hl & Hb).
  { intros w Hww. by apply Hop. }
  exists map'. split_and!; [done..|]. intros i Hi. rewrite Hb by done. destruct (div_mod_64 i) as [_ Hj].
  destruct (Z.eqb_spec (i / 64) k) as [<-|]; [|done].
  unfold bit_of. destruct (map !! Z.to_nat (i / 64)) as [w|] eqn:El.
  - apply Hop; [by apply (wf_lookup map (Z.to_nat (i / 64)))|done|done].
  - apply lookup_ge_None_1 in El. lia.
Qed.

(** [bits map' = bits map] outside [a, b), and [v] inside. *)
Definition run_set (v : bool) (map map' : bitmap) (a b : Z) : Prop :=
  forall i, 0 <= i -> bit_of map' i = if (a <=? i) && (i <? b) then v else bit_of map i.

Lemma run_set_ext v map m1 m2 a b c k m :
  a <= b -> b <= c ->
  run_set v map m1 a b ->
  (forall i, 0 <= i -> bit_of m2 i = if (i / 64 =? k) && Z.testbit m (i mod 64) then v else bit_of m1 i) ->
  (forall i, 0 <= i -> (i / 64 =? k) && Z.testbit m (i mod 64) = (b <=? i) && (i <? c)) ->
  run_set v map m2 a c.
Proof.
  intros Hab Hbc H1 H2 Hm i Hi. rewrite H2, Hm, H1 by done.
  destruct (Z.leb_spec a i), (Z.ltb_spec i b), (Z.leb_spec b i), (Z.ltb_spec i c); simpl; lia || done.
Qed.

(** A mask from bit [cur mod 64] covers the rest of the word of [cur]. *)
Lemma mask_rest cur i m :
  0 <= cur -> 0 <= i -> (forall j, 0 <= j < 64 -> Z.testbit m j = (cur mod 64 <=? j)) ->
  (i / 64 =? cur / 64) && Z.testbit m (i mod 64) = (cur <=? i) && (i <? cur + (64 - cur mod 64)).
Proof.
  intros Hc Hi Hm. destruct (div_mod_64 i) as [Ei Hj], (div_mod_64 cur) as [Ec Hjc]. rewrite Hm by done.
  destruct (Z.eqb_spec (i / 64) (cur / 64)), (Z.leb_spec (cur mod 64) (i mod 64)), (Z.leb_spec cur i),
    (Z.ltb_spec i (cur + (64 - cur mod 64))); lia || done.
Qed.

(** ... and with the mask of the last word of [cur + len], just [len] bits. *)
Lemma mask_last cur len i m :
  0 <= cur -> 0 <= i -> 0 < len < 64 - cur mod 64 ->
  (forall j, 0 <= j < 64 -> Z.testbit m j = (cur mod 64 <=? j)) ->
  (i / 64 =? cur / 64) && Z.testbit (Z.land m (BITMAP_LAST_WORD_MASK (cur + len))) (i mod 64) =
    (cur <=? i) && (i <? cur + len).
Proof.
  intros Hc Hi Hlen Hm. destruct (div_mod_64 i) as [Ei Hj], (div_mod_64 cur) as [Ec Hjc].
  rewrite Z.land_spec, last_mask_bits, Hm by done.
  assert (E : (- (cur + len)) mod 64 = 64 - (cur mod 64 + len)).
  { symmetry. apply Z.mod_unique with (- (cur / 64) - 1); lia. }
  rewrite E. destruct (Z.eqb_spec (i / 64) (cur / 64)), (Z.leb_spec (cur mod 64) (i mod 64)), (Z.leb_spec cur i),
    (Z.ltb_spec i (cur + len)), (Z.ltb_spec (i mod 64 + (64 - (cur mod 64 + len))) 64); simpl; lia || done.
Qed.

Lemma bitmap_run_ok op v map start len :
  masked op v -> 0 <= start -> 0 <= len -> room map (start + len) -> start + len < 2 ^ 31 ->
  returns (bitmap_run op map start len) (fun map' =>
    wf map' /\ length map' = length map /\ run_set v map map' start (start + len)).
Proof.
  intros Hop Hs Hlen [Hw Hroom] Hsmall. unfold bitmap_run. rewrite u32_small by lia. unfold BIT_WORD, BITS_PER_LONG.
  pose proof (div_mod_64 start) as [Ds Ms].
  apply returns_bind with (P := fun '(map', p, l, mask) => wf map' /\ length map' = length map /\
      exists cur, start <= cur /\ cur + l = start + len /\ p = cur / 64 /\ 0 <= l < 64 - cur mod 64 /\
      word mask /\ (forall j, 0 <= j < 64 -> Z.testbit mask j = (cur mod 64 <=? j)) /\
      run_set v map map' start cur).
  - apply loop_returns with (m := fun '(_, _, l, b, _) => Z.to_nat ((l - b) / 64 + 1))
      (I := fun '(map', p, l, b, mask) => wf map' /\ length map' = length map /\
        exists cur, start <= cur /\ cur + l = start + len /\ 0 <= l /\ p = cur / 64 /\ b = 64 - cur mod 64 /\
        word mask /\ (forall j, 0 <= j < 64 -> Z.testbit mask j = (cur mod 64 <=? j)) /\
        run_set v map map' start cur).
    + split_and!; [done..|]. exists start. split_and!; [lia..|done|done|apply word_first_mask| |].
      * intros j Hj. by apply first_mask_bits.
      * intros i Hi. destruct (Z.leb_spec start i), (Z.ltb_spec i start); simpl; lia || done.
    + assert ((len - (64 - start mod 64)) / 64 <= len / 64) by (apply Z.div_le_mono; lia). lia.
    + intros [[[[map' p] l] b] mask] (Hw' & Hl & cur & H1 & H2 & H3 & -> & -> & H4 & H5 & H6).
      unfold run_turn. destruct (div_mod_64 cur) as [Dc Mc]. destruct (Z.leb_spec 0 (l - (64 - cur mod 64))) as [Hge|Hlt].
      2:{ simpl. split_and!; [done..|]. exists cur. split_and!; done || lia. }
      destruct (modify_masked op v map' (cur / 64) mask Hop Hw' H4) as (m2 & -> & Hw2 & Hl2 & Hb2); [lia|].
      rewrite bind_ret. cbn [returns]. split.
      2:{ replace (l - (64 - cur mod 64) - BITS_PER_LONG) with (l - (64 - cur mod 64) + (-1) * 64) by (unfold BITS_PER_LONG; lia).
          rewrite Z.div_add by lia. pose proof (Z.div_pos (l - (64 - cur mod 64)) 64 Hge ltac:(lia)). lia. }
      split_and!; [done|lia|]. exists (64 * (cur / 64 + 1)).
      assert (E0 : (64 * (cur / 64 + 1)) mod 64 = 0) by (rewrite Z.mul_comm; apply Z.mod_mul; lia).
      rewrite E0. unfold BITS_PER_LONG. split_and!; [lia..| |lia|apply word_max| |].
      * rewrite (Z.mul_comm 64), Z.div_mul; lia.
      * intros j Hj. rewrite max_bits by done. symmetry. apply Z.leb_le. lia.
      * apply (run_set_ext v map map' m2 start cur _ (cur / 64) mask); [lia|lia|done|done|].
        intros i Hi. rewrite mask_rest by (done || lia). do 2 f_equal. lia.
  - intros [[[map' p] l] mask] (Hw' & Hl & cur & H1 & H2 & -> & H3 & H4 & H5 & H6).
    destruct (Z.eqb_spec l 0) as [->|Hne]; simpl.
    { split_and!; [done..|]. by replace (start + len) with cur by lia. }
    destruct (div_mod_64 cur) as [Dc Mc].
    destruct (modify_masked op v map' (cur / 64) (Z.land mask (BITMAP_LAST_WORD_MASK (start + len))) Hop Hw')
      as (m2 & -> & Hw2 & Hl2 & Hb2).
    { apply word_land; [done|apply word_last_mask]. }
    { split; [apply Z.div_pos; lia|lia]. }
    simpl. split_and!; [done|lia|].
    eapply (run_set_ext v map map' m2 start cur); [lia|lia|done|exact Hb2|].
    intros i Hi. replace (start + len) with (cur + l) by lia. apply mask_last; done || lia.
Qed.

(** ** The searches *)

Lemma least_ext P Q s n r : (forall i, P i = Q i) -> least P s n r -> least Q s n r.
Proof. intros E (H1 & H2 & H3). split; [done|]. split; intros; rewrite <- E; auto. Qed.

Lemma find_next_bit_ok map size offset :
  room map size -> 0 <= offset -> size < 2 ^ 63 ->
  exists r, find_next_bit map size offset = Ret r /\
    (size <= offset -> r = size) /\ (offset <= size -> least (bit_of map) offset size r).
Proof.
  intros Hr Ho Hs. destruct (find_next_ok map None false size offset Hr I Ho Hs) as (r & E & H1 & H2).
  exists r. split_and!; [done..|]. intros Hle. apply (least_ext (wanted map None false)); [|by apply H2].
  intros i. unfold wanted. by rewrite andb_true_r, xorb_false_r.
Qed.

Lemma find_next_zero_bit_ok map size offset :
  room map size -> 0 <= offset -> size < 2 ^ 63 ->
  exists r, find_next_zero_bit map size offset = Ret r /\
    (size <= offset -> r = size) /\ (offset <= size -> least (fun i => negb (bit_of map i)) offset size r).
Proof.
  intros Hr Ho Hs. destruct (find_next_ok map None true size offset Hr I Ho Hs) as (r & E & H1 & H2).
  exists r. split_and!; [done..|]. intros Hle. apply (least_ext (wanted map None true)); [|by apply H2].
  intros i. unfold wanted. by rewrite andb_true_r, xorb_true_r.
Qed.

Lemma find_next_and_bit_ok m1 m2 size offset :
  room m1 size -> room m2 size -> 0 <= offset -> size < 2 ^ 63 ->
  exists r, find_next_and_bit m1 m2 size offset = Ret r /\
    (size <= offset -> r = size) /\ (offset <= size -> least (fun i => bit_of m1 i && bit_of m2 i) offset size r).
Proof.
  intros Hr Hr2 Ho Hs. destruct (find_next_ok m1 (Some m2) false size offset Hr Hr2 Ho Hs) as (r & E & H1 & H2).
  exists r. split_and!; [done..|]. intros Hle. apply (least_ext (wanted m1 (Some m2) false)); [|by apply H2].
  intros i. unfold wanted. by rewrite xorb_false_r.
Qed.

(** The forward word scans of [find_first_bit] and [find_first_zero_bit]. *)
Lemma first_scan_ok (P : Z -> bool) map size (turn : Z -> outcome (Z + Z)) :
  room map size -> 0 <= size ->
  (forall idx w, 0 <= idx -> 64 * idx < size -> rd map idx = Ret w -> word w ->
     (forall j, 0 <= j < 64 -> bit_of map (64 * idx + j) = Z.testbit w j) ->
     (turn idx = Ret (inl (idx + 1)) /\ forall j, 0 <= j < 64 -> P (64 * idx + j) = false) \/
     exists b, turn idx = Ret (inr (Z.min (64 * idx + b) size)) /\ 0 <= b < 64 /\ P (64 * idx + b) = true /\
       forall j, 0 <= j < b -> P (64 * idx + j) = false) ->
  (forall idx, size <= 64 * idx -> turn idx = Ret (inr size)) ->
  returns (loop (Z.to_nat (BITS_TO_LONGS size) + 1) turn 0) (least P 0 size).
Proof.
  intros [Hw Hl] Hsz Hin Hout.
  apply loop_returns with (m := fun idx => Z.to_nat (BITS_TO_LONGS size - idx))
    (I := fun idx => 0 <= idx /\ (idx = 0 \/ 64 * (idx - 1) < size) /\ forall i, 0 <= i < 64 * idx -> P i = false).
  - split_and!; [lia|by left|lia].
  - lia.
  - intros idx (H0 & Hb & Hlow). destruct (Z.lt_ge_cases (64 * idx) size) as [Hlt|Hge].
    2:{ rewrite Hout by done. simpl. split; [lia|]. split; [|lia].
        intros i Hi. apply Hlow. lia. }
    destruct (rd_bits map idx Hw) as (w & Er & Hww & _ & Hbits); [lia|].
    destruct (Hin idx w H0 Hlt Er Hww Hbits) as [[-> Hz]|(b & -> & Hb1 & Hb2 & Hb3)]; simpl.
    + split.
      * split_and!; [lia|right; lia|]. intros i Hi. destruct (Z.lt_ge_cases i (64 * idx)); [apply Hlow; lia|].
        replace i with (64 * idx + (i - 64 * idx)) by lia. apply Hz. lia.
      * assert (idx < BITS_TO_LONGS size); [|lia].
        unfold BITS_TO_LONGS, BITS_PER_LONG. destruct (div_mod_64 (size + 64 - 1)). lia.
    + split; [lia|]. split.
      * intros i Hi. destruct (Z.lt_ge_cases i (64 * idx)); [apply Hlow; lia|].
        replace i with (64 * idx + (i - 64 * idx)) by lia. apply Hb3. lia.
      * intros Hlt2. by rewrite Z.min_l by lia.
Qed.

Lemma find_first_bit_ok map size :
  room map size -> 0 <= size -> returns (find_first_bit map size) (least (bit_of map) 0 size).
Proof.
  intros Hr Hs. apply first_scan_ok with map; [done..| |].
  - intros idx w H0 Hlt Er Hww Hb. unfold find_first_turn, BITS_PER_LONG.
    rewrite (Z.mul_comm idx), (proj2 (Z.ltb_lt _ _) Hlt), Er, bind_ret.
    destruct (Z.eqb_spec w 0) as [->|Hne]; simpl.
    + left. split; [done|]. intros j Hj. by rewrite Hb, Z.bits_0.
    + right. destruct (ffs_spec w Hww Hne) as (b & -> & Hb1 & Hb2 & Hb3). exists b. simpl.
      rewrite Hb by done. split_and!; [done|lia|lia|done|]. intros j Hj. rewrite Hb by lia. by apply Hb3.
  - intros idx Hge. unfold find_first_turn, BITS_PER_LONG.
    by rewrite (Z.mul_comm idx), (proj2 (Z.ltb_ge _ _) Hge).
Qed.

Lemma find_first_zero_bit_ok map size :
  room map size -> 0 <= size ->
  returns (find_first_zero_bit map size) (least (fun i => negb (bit_of map i)) 0 size).
Proof.
  intros Hr Hs. apply first_scan_ok with map; [done..| |].
  - intros idx w H0 Hlt Er Hww Hb. unfold find_first_zero_turn, BITS_PER_LONG.
    rewrite (Z.mul_comm idx), (proj2 (Z.ltb_lt _ _) Hlt), Er, bind_ret.
    destruct (Z.eqb_spec w ULLONG_MAX) as [->|Hne]; simpl.
    + left. split; [done|]. intros j Hj. by rewrite Hb, max_bits.
    + right. destruct (ffs_spec (not64 w) (word_not64 w Hww)) as (b & -> & Hb1 & Hb2 & Hb3).
      { unfold not64. lia. }
      exists b. simpl. rewrite Hb, <- not64_bits by done. split_and!; [done|lia|lia|done|].
      intros j Hj. rewrite Hb, <- not64_bits by (done || lia). by apply Hb3.
  - intros idx Hge. unfold find_first_zero_turn, BITS_PER_LONG.
    by rewrite (Z.mul_comm idx), (proj2 (Z.ltb_ge _ _) Hge).
Qed.

(** [r] is the greatest set index below [size], or [size]. *)
Definition greatest (P : Z -> bool) (size r : Z) : Prop :=
  (r = size /\ forall i, 0 <= i < size -> P i = false) \/
  (0 <= r < size /\ P r = true /\ forall i, r < i < size -> P i = false).

Lemma find_last_bit_ok map size :
  room map size -> 0 <= size -> returns (find_last_bit map size) (greatest (bit_of map) size).
Proof.
  intros [Hw Hl] Hs. unfold find_last_bit. destruct (Z.eqb_spec size 0) as [->|Hne]; simpl.
  { left. split; [done|intros; lia]. }
  unfold BITS_PER_LONG. destruct (div_mod_64 (size - 1)) as [Ds Ms].
  apply loop_returns with (m := fun '(idx, _) => Z.to_nat idx)
    (I := fun '(idx, val) => 0 <= idx <= (size - 1) / 64 /\ word val /\
      (forall j, 0 <= j < 64 -> Z.testbit val j = (64 * idx + j <? size)) /\
      forall i, 64 * (idx + 1) <= i < size -> bit_of map i = false).
  - split; [lia|]. split; [apply word_last_mask|]. split; [|lia].
    intros j Hj. rewrite last_mask_bits by done.
    assert (E : (- size) mod 64 = 63 - (size - 1) mod 64) by (symmetry; apply Z.mod_unique with (- ((size - 1) / 64) - 1); lia).
    rewrite E. destruct (Z.ltb_spec (j + (63 - (size - 1) mod 64)) 64), (Z.ltb_spec (64 * ((size - 1) / 64) + j) size); lia || done.
  - assert ((size - 1) / 64 < BITS_TO_LONGS size); [|lia].
    unfold BITS_TO_LONGS, BITS_PER_LONG. replace (size + 64 - 1) with (size - 1 + 1 * 64) by lia.
    rewrite Z.div_add by lia. lia.
  - intros [idx val] (H0 & Hwv & Hv & Hhigh). unfold find_last_turn.
    destruct (rd_bits map idx Hw) as (w & -> & Hww & _ & Hb); [lia|]. rewrite bind_ret.
    destruct (Z.eqb_spec (Z.land val w) 0) as [E0|Hne0]; cbn [negb].
    + assert (Hz : forall i, 64 * idx <= i < size -> bit_of map i = false).
      { intros i Hi. destruct (Z.lt_ge_cases i (64 * (idx + 1))); [|apply Hhigh; lia].
        pose proof (f_equal (fun x => Z.testbit x (i - 64 * idx)) E0) as E. simpl in E.
        rewrite Z.land_spec, Z.bits_0, Hv, <- Hb in E by lia. replace (64 * idx + (i - 64 * idx)) with i in E by lia.
        by rewrite (proj2 (Z.ltb_lt i size)) in E by lia. }
      destruct (Z.eqb_spec idx 0) as [->|Hne1]; simpl.
      * left. split; [done|]. intros i Hi. apply Hz. lia.
      * split; [|lia]. split; [lia|]. split; [apply word_max|]. split.
        -- intros j Hj. rewrite max_bits by done. symmetry. apply Z.ltb_lt. lia.
        -- intros i Hi. apply Hz. lia.
    + destruct (fls_spec (Z.land val w)) as (b & -> & Hb1 & Hb2 & Hb3); [apply word_land; [done|apply Hww]|done|].
      simpl. unfold BITS_PER_LONG. rewrite (Z.mul_comm idx).
      rewrite Z.land_spec, Hv, <- Hb in Hb2 by done. apply andb_true_iff in Hb2 as [Hlt Hset].
      apply Z.ltb_lt in Hlt. right. split_and!; [lia..|done|].
      intros i Hi. destruct (Z.lt_ge_cases i (64 * (idx + 1))); [|apply Hhigh; lia].
      specialize (Hb3 (i - 64 * idx) ltac:(lia)). rewrite Z.land_spec, Hv, <- Hb in Hb3 by lia.
      replace (64 * idx + (i - 64 * idx)) with i in Hb3 by lia. by rewrite (proj2 (Z.ltb_lt i size)) in Hb3 by lia.
Qed.

(** ** Aligned zero areas *)

(** [nr] clear bits from [a], inside [start, size), with [a + off] aligned. *)
Definition zero_area (map : bitmap) (start size nr align off a : Z) : Prop :=
  start <= a /\ a + nr <= size /\ (a + off) mod align = 0 /\ forall i, a <= i < a + nr -> bit_of map i = false.

(** The result of the search: the least area, or an index whose area would end
    past the map when there is none. *)
Definition zero_area_result (map : bitmap) (start size nr align off r : Z) : Prop :=
  (r + nr <= size /\ zero_area map start size nr align off r /\
   forall a, zero_area map start size nr align off a -> r <= a) \/
  (size < r /\ forall a, ~ zero_area map start size nr align off a).

Lemma align_up_least x k :
  0 <= k < 64 -> 0 <= x -> x + 2 ^ k < 2 ^ 64 ->
  let r := __ALIGN_MASK x (2 ^ k - 1) in
  x <= r < x + 2 ^ k /\ r mod 2 ^ k = 0 /\ forall y, x <= y -> y mod 2 ^ k = 0 -> r <= y.
Proof.
  intros Hk Hx Hsmall. simpl. unfold __ALIGN_MASK, not64. assert (Hp : 0 < 2 ^ k) by (apply Z.pow_pos_nonneg; lia).
  rewrite u64_small, land_high_mask by lia. set (p := 2 ^ k) in *.
  pose proof (Z.div_mod (x + (p - 1)) p ltac:(lia)) as E. pose proof (Z.mod_pos_bound (x + (p - 1)) p Hp) as Hm.
  split; [lia|]. split; [apply Z.mod_mul; lia|]. intros y Hy Hym.
  apply Z.div_exact in Hym; [|lia]. rewrite Hym, (Z.mul_comm p). apply Z.mul_le_mono_nonneg_r; [lia|].
  rewrite Hym in Hy. destruct (Z.le_gt_cases ((x + (p - 1)) / p) (y / p)); [done|].
  assert (p * (y / p) <= p * ((x + (p - 1)) / p - 1)) by (apply Z.mul_le_mono_nonneg_l; lia). lia.
Qed.

Lemma zero_area_ok map size start nr k off :
  room map size -> 0 <= size -> 0 <= start -> 0 < nr -> 0 <= off -> 0 <= k < 64 ->
  size < 2 ^ 63 -> size + off + 2 ^ k + nr < 2 ^ 64 ->
  returns (bitmap_find_next_zero_area_off map size start nr (2 ^ k - 1) off)
    (zero_area_result map start size nr (2 ^ k) off).
Proof.
  intros Hr Hsz Hst Hnr Hoff Hk H63 Hov. assert (Hp : 0 < 2 ^ k) by (apply Z.pow_pos_nonneg; lia).
  apply loop_returns with (m := fun s => Z.to_nat (size + 1 - s))
    (I := fun s => start <= s /\ forall a, zero_area map start size nr (2 ^ k) off a -> s <= a).
  - split; [lia|]. by intros a [? _].
  - lia.
  - intros s [Hs Hall]. unfold zero_area_turn.
    destruct (find_next_zero_bit_ok map size s Hr) as (i0 & -> & Hi1 & Hi2); [lia|lia|]. rewrite bind_ret.
    assert (Hi0 : 0 <= i0 <= size /\ forall a, zero_area map start size nr (2 ^ k) off a -> i0 <= a).
    { destruct (Z.le_gt_cases s size) as [Hle|Hgt].
      - destruct (Hi2 Hle) as (H1 & H2 & H3). split; [lia|]. intros a Ha. specialize (Hall a Ha).
        destruct Ha as (Ha1 & Ha2 & Ha3 & Ha4). destruct (Z.le_gt_cases i0 a); [done|].
        specialize (H2 a ltac:(lia)). rewrite Ha4 in H2 by lia. done.
      - rewrite Hi1 by lia. split; [lia|]. intros a Ha. specialize (Hall a Ha). destruct Ha. lia. }
    destruct Hi0 as [Hi0 Hlow]. rewrite (u64_small (i0 + off)) by lia.
    destruct (align_up_least (i0 + off) k Hk ltac:(lia) ltac:(lia)) as (Hal1 & Hal2 & Hal3).
    set (al := __ALIGN_MASK (i0 + off) (2 ^ k - 1)) in *. rewrite (u64_small (al - off)), (u64_small (al - off + nr)) by lia.
    assert (Hge : forall a, zero_area map start size nr (2 ^ k) off a -> al - off <= a).
    { intros a Ha. specialize (Hlow a Ha). destruct Ha as (_ & _ & Ha3 & _). specialize (Hal3 (a + off) ltac:(lia) Ha3). lia. }
    destruct (Z.ltb_spec size (al - off + nr)) as [Hout|Hin].
    { simpl. right. split; [done|]. intros a Ha. specialize (Hge a Ha). destruct Ha as (_ & Ha2 & _). lia. }
    assert (Hs' : s <= i0).
    { destruct (Z.le_gt_cases s size) as [Hle|Hgt]; [destruct (Hi2 Hle) as [[? _] _]; lia|]. rewrite Hi1 in * by lia. lia. }
    destruct (find_next_bit_ok map (al - off + nr) (al - off)) as (i & -> & _ & Hi3); [|lia|lia|].
    { destruct Hr as [? ?]. split; [done|lia]. }
    destruct (Hi3 ltac:(lia)) as (Hi4 & Hi5 & Hi6). rewrite bind_ret.
    destruct (Z.ltb_spec i (al - off + nr)) as [Hhit|Hfree]; cbn [returns].
    + rewrite u64_small by lia. split; [|lia]. split; [lia|]. intros a Ha. specialize (Hge a Ha).
      destruct Ha as (_ & _ & _ & Ha4). destruct (Z.le_gt_cases (i + 1) a); [done|].
      rewrite Ha4 in Hi6 by lia. by specialize (Hi6 Hhit).
    + left. split; [done|]. split; [|done]. split; [lia|]. split; [done|].
      replace (al - off + off) with al by lia. split; [done|]. intros j Hj. apply Hi5. lia.
Qed.
