(* ===== verification/BitmapOpsFacts.v ===== *)
(** * Properties of the operations on whole bitmaps *)
From stdpp Require Import base numbers list option.
From Stdlib Require Import ZArith Lia.
From S2P Require Import Prelude Bitmap BitmapFacts.

(** ** Maps as total functions on word indices *)

Definition wd (m : bitmap) (k : Z) : Z := default 0 (m !! Z.to_nat k).
Abbreviation len m := (Z.of_nat (length m)).

Lemma bit_wd m i : bit_of m i = Z.testbit (wd m (i / 64)) (i mod 64).
Proof. unfold bit_of, wd. destruct (m !! Z.to_nat (i / 64)); simpl; [done|by rewrite Z.bits_0]. Qed.

Lemma word_0 : word 0.
Proof. by unfold word. Qed.

Lemma wd_word m k : wf m -> word (wd m k).
Proof.
  intros Hw. unfold wd. destruct (m !! Z.to_nat k) as [w|] eqn:E; simpl; [by apply (wf_lookup m (Z.to_nat k))|apply word_0].
Qed.

Lemma rd_wd m k : 0 <= k < len m -> rd m k = Ret (wd m k).
Proof. intros Hk. destruct (rd_in_range m k Hk) as (w & -> & E). unfold wd. by rewrite E. Qed.

Lemma wr_wd m k v :
  wf m -> word v -> 0 <= k < len m ->
  exists m', wr m k v = Ret m' /\ wf m' /\ length m' = length m /\
    forall j, 0 <= j -> wd m' j = if j =? k then v else wd m j.
Proof.
  intros Hw Hv Hk. eexists. split; [by apply wr_in_range|]. split; [by apply Forall_insert|].
  split; [by rewrite length_insert|]. intros j Hj. unfold wd. destruct (Z.eqb_spec j k) as [->|Hne].
  - by rewrite list_lookup_insert_eq by lia.
  - by rewrite list_lookup_insert_ne by lia.
Qed.

Lemma modify_wd m k f :
  wf m -> (forall w, word w -> word (f w)) -> 0 <= k < len m ->
  exists m', modify m k f = Ret m' /\ wf m' /\ length m' = length m /\
    forall j, 0 <= j -> wd m' j = if j =? k then f (wd m k) else wd m j.
Proof.
  intros Hw Hf Hk. unfold modify. rewrite rd_wd, bind_ret by done. apply wr_wd; [done|by apply Hf, wd_word|done].
Qed.

Lemma fill_wd m s n v :
  wf m -> word v -> 0 <= s -> 0 <= n -> s + n <= len m ->
  exists m', fill m s n v = Ret m' /\ wf m' /\ length m' = length m /\
    forall j, 0 <= j -> wd m' j = if (s <=? j) && (j <? s + n) then v else wd m j.
Proof.
  intros Hw Hv Hs Hn Hl. unfold fill. rewrite decide_True by done. eexists. split; [done|]. split.
  { repeat apply Forall_app_2; [by apply Forall_take|by apply Forall_replicate|by apply Forall_drop]. }
  split; [rewrite !length_app, length_take, length_replicate, length_drop; lia|].
  intros j Hj. unfold wd. destruct (Z.leb_spec s j) as [H1|H1]; simpl.
  - rewrite lookup_app_r by (rewrite length_take; lia). rewrite length_take_le by lia.
    destruct (Z.ltb_spec j (s + n)).
    + rewrite lookup_app_l by (rewrite length_replicate; lia). by rewrite lookup_replicate_2 by lia.
    + rewrite lookup_app_r by (rewrite length_replicate; lia). rewrite length_replicate, lookup_drop.
      do 2 f_equal. lia.
  - rewrite lookup_app_l by (rewrite length_take; lia). by rewrite lookup_take_lt by lia.
Qed.

Lemma bits_to_longs_bounds n : 0 <= n -> n <= 64 * BITS_TO_LONGS n < n + 64 /\ 0 <= BITS_TO_LONGS n.
Proof. intros Hn. unfold BITS_TO_LONGS, BITS_PER_LONG. destruct (div_mod_64 (n + 64 - 1)). lia. Qed.

Lemma bits_to_longs_div n : 0 <= n ->
  BITS_TO_LONGS n = n / 64 + (if n mod 64 =? 0 then 0 else 1).
Proof.
  intros Hn. pose proof (bits_to_longs_bounds n Hn). destruct (div_mod_64 n). destruct (Z.eqb_spec (n mod 64) 0); lia.
Qed.

Lemma room_longs m n : room m n -> 0 <= n -> BITS_TO_LONGS n <= len m.
Proof. intros [_ H] Hn. pose proof (bits_to_longs_bounds n Hn). lia. Qed.

Lemma last_mask_tail n j : 0 <= n -> n mod 64 <> 0 -> 0 <= j < 64 -> Z.testbit (BITMAP_LAST_WORD_MASK n) j = (j <? n mod 64).
Proof.
  intros Hn Hne Hj. rewrite last_mask_bits by done. destruct (div_mod_64 n).
  assert (E : (- n) mod 64 = 64 - n mod 64) by (symmetry; apply Z.mod_unique with (- (n / 64) - 1); lia).
  rewrite E. destruct (Z.ltb_spec (j + (64 - n mod 64)) 64), (Z.ltb_spec j (n mod 64)); lia || done.
Qed.

Lemma word_nonzero w : word w -> w <> 0 -> exists j, 0 <= j < 64 /\ Z.testbit w j = true.
Proof. intros Hw H0. destruct (ffs_spec w Hw H0) as (b & _ & Hb & Ht & _). by exists b. Qed.

Lemma not64_andb w j : word w -> 0 <= j < 64 -> Z.testbit (not64 w) j = negb (Z.testbit w j).
Proof. apply not64_bits. Qed.

(** ** Logical operations *)

(** A word operation computes [fb] bit by bit. *)
Definition bitwise (f : Z -> Z -> Z) (fb : bool -> bool -> bool) : Prop :=
  forall w1 w2, word w1 -> word w2 ->
    word (f w1 w2) /\ forall j, 0 <= j < 64 -> Z.testbit (f w1 w2) j = fb (Z.testbit w1 j) (Z.testbit w2 j).

Lemma bitwise_and : bitwise Z.land andb.
Proof. intros w1 w2 H1 H2. split; [apply word_land; [done|apply H2]|]. intros. apply Z.land_spec. Qed.
Lemma bitwise_or : bitwise Z.lor orb.
Proof. intros w1 w2 H1 H2. split; [by apply word_lor|]. intros. apply Z.lor_spec. Qed.
Lemma bitwise_xor : bitwise Z.lxor xorb.
Proof. intros w1 w2 H1 H2. split; [by apply word_lxor|]. intros. apply Z.lxor_spec. Qed.
Lemma bitwise_andnot : bitwise andnot (fun a b => a && negb b).
Proof.
  intros w1 w2 H1 H2. pose proof (word_not64 w2 H2) as Hn. split; [apply word_land; [done|apply Hn]|].
  intros j Hj. unfold andnot. by rewrite Z.land_spec, not64_bits.
Qed.
Lemma bitwise_not : bitwise (fun w _ => not64 w) (fun a _ => negb a).
Proof. intros w1 w2 H1 H2. split; [by apply word_not64|]. intros. by apply not64_bits. Qed.

Lemma source_room dst o n : room dst n -> match o with Self => True | Buf m => room m n end -> room (source dst o) n.
Proof. by destruct o. Qed.

Abbreviation roomy o n := (match o with Self => True | Buf m => room m n end).

Section logic.
Context (f : Z -> Z -> Z) (fb : bool -> bool -> bool) (dst : bitmap) (b1 b2 : operand) (bits : Z).
Context (Hf : bitwise f fb) (Hbits : 0 <= bits) (Hd : room dst bits) (H1 : roomy b1 bits) (H2 : roomy b2 bits).

Abbreviation s1 := (source dst b1).
Abbreviation s2 := (source dst b2).
Abbreviation new k := (f (wd s1 k) (wd s2 k)).

(** The words below [k] are done. *)
Definition done_to (dst' : bitmap) (k : Z) : Prop :=
  wf dst' /\ length dst' = length dst /\ forall j, 0 <= j -> wd dst' j = if j <? k then new j else wd dst j.

Lemma new_word k : word (new k).
Proof. apply Hf; apply wd_word; by apply (source_room _ _ bits). Qed.

Lemma load_ok dst' o k :
  done_to dst' k -> roomy o bits -> 0 <= k < BITS_TO_LONGS bits -> load dst' o k = Ret (wd (source dst o) k).
Proof.
  intros (Hw & Hl & Hd') Ho Hk. pose proof (room_longs _ _ (source_room dst o bits Hd Ho) Hbits) as Hr.
  pose proof (room_longs _ _ Hd Hbits). unfold load. destruct o as [|m]; simpl in *.
  - rewrite rd_wd by lia. by rewrite Hd', (proj2 (Z.ltb_ge k k)) by lia.
  - by rewrite rd_wd by lia.
Qed.

Lemma store_ok dst' k v :
  done_to dst' k -> word v -> 0 <= k < BITS_TO_LONGS bits ->
  exists dst'', wr dst' k v = Ret dst'' /\ wf dst'' /\ length dst'' = length dst /\
    forall j, 0 <= j -> wd dst'' j = if j =? k then v else if j <? k then new j else wd dst j.
Proof.
  intros (Hw & Hl & Hd') Hv Hk. pose proof (room_longs _ _ Hd Hbits).
  destruct (wr_wd dst' k v Hw Hv) as (d & E & Hw' & Hl' & Hj); [lia|]. exists d. split_and!; [done|done|lia|].
  intros j Hj0. rewrite Hj by done. destruct (j =? k); [done|]. by apply Hd'.
Qed.

Lemma logic_loop_ok lim :
  0 <= lim <= BITS_TO_LONGS bits ->
  exists dst' r, loop (Z.to_nat lim + 1) (logic_turn f lim b1 b2) (dst, 0, 0) = Ret (dst', lim, r) /\
    done_to dst' lim /\ word r /\ (r = 0 <-> forall k, 0 <= k < lim -> new k = 0).
Proof.
  intros Hlim.
  assert (Hr : returns (loop (Z.to_nat lim + 1) (logic_turn f lim b1 b2) (dst, 0, 0)) (fun '(dst', k, r) =>
    k = lim /\ done_to dst' lim /\ word r /\ (r = 0 <-> forall k, 0 <= k < lim -> new k = 0))).
  { apply loop_returns with (m := fun '(_, k, _) => Z.to_nat (lim - k))
      (I := fun '(dst', k, r) => 0 <= k <= lim /\ done_to dst' k /\ word r /\ (r = 0 <-> forall j, 0 <= j < k -> new j = 0)).
    - split; [lia|]. split; [|split; [apply word_0|split; [intros; lia|done]]]. split; [apply Hd|]. split; [done|].
      intros j Hj. by rewrite (proj2 (Z.ltb_ge j 0)) by lia.
    - lia.
    - intros [[dst' k] r] (Hk & Hdone & Hwr & Hr). unfold logic_turn. destruct (Z.ltb_spec k lim) as [Hlt|Hge].
      2:{ simpl. replace k with lim in * by lia. done. }
      rewrite (load_ok dst' b1 k), (load_ok dst' b2 k), !bind_ret by (done || lia).
      destruct (store_ok dst' k (new k) Hdone (new_word k)) as (d & -> & Hw' & Hl' & Hj); [lia|]. rewrite bind_ret. simpl.
      split; [|lia]. split; [lia|]. split; [split; [done|]; split; [done|]|split; [by apply word_lor; [|apply new_word]|]].
      + intros j Hj0. rewrite Hj by done. destruct (Z.eqb_spec j k) as [->|].
        * by rewrite (proj2 (Z.ltb_lt k (k + 1))) by lia.
        * destruct (Z.ltb_spec j k), (Z.ltb_spec j (k + 1)); lia || done.
      + rewrite Z.lor_eq_0_iff, Hr. split.
        * intros [H0 Hk0] j Hj0. destruct (Z.eq_dec j k) as [->|]; [done|]. apply H0. lia.
        * intros H0. split; [|apply H0; lia]. intros j Hj0. apply H0. lia. }
  destruct (returns_inv _ _ Hr) as ([[dst' k] r] & E & -> & Hrest). by exists dst', r.
Qed.

Lemma new_bit i : 0 <= i -> Z.testbit (new (i / 64)) (i mod 64) = fb (bit_of s1 i) (bit_of s2 i).
Proof.
  intros Hi. rewrite !bit_wd. destruct (div_mod_64 i). apply Hf; [| |done]; apply wd_word; by apply (source_room _ _ bits).
Qed.

Lemma logic_words_ok :
  returns (logic_words f dst b1 b2 bits) (fun dst' => wf dst' /\ length dst' = length dst /\
    forall i, 0 <= i -> bit_of dst' i =
      if i <? 64 * BITS_TO_LONGS bits then fb (bit_of s1 i) (bit_of s2 i) else bit_of dst i).
Proof.
  unfold logic_words. pose proof (bits_to_longs_bounds bits Hbits).
  destruct (logic_loop_ok (BITS_TO_LONGS bits)) as (d & r & -> & (Hw & Hl & Hj) & _); [lia|]. simpl.
  split; [done|]. split; [done|]. intros i Hi. destruct (div_mod_64 i).
  rewrite bit_wd, Hj by lia. destruct (Z.ltb_spec (i / 64) (BITS_TO_LONGS bits)), (Z.ltb_spec i (64 * BITS_TO_LONGS bits)); try lia.
  - by apply new_bit.
  - by rewrite bit_wd.
Qed.

(** Whole words and a tail are zero exactly when no bit below [bits] is wanted. *)
Lemma zero_words_iff (g : Z -> Z) (P : Z -> bool) :
  (forall k, word (g k)) -> (forall i, 0 <= i < bits -> Z.testbit (g (i / 64)) (i mod 64) = P i) ->
  (forall k, 0 <= k < bits / 64 -> g k = 0) /\
    (bits mod 64 <> 0 -> Z.land (g (bits / 64)) (BITMAP_LAST_WORD_MASK bits) = 0) <->
  (forall i, 0 <= i < bits -> P i = false).
Proof.
  intros Hg HP. destruct (div_mod_64 bits) as [Db Mb]. split.
  - intros [Hz Ht] i Hi. destruct (div_mod_64 i) as [Di Mi]. rewrite <- HP by done.
    destruct (Z.lt_ge_cases (i / 64) (bits / 64)) as [Hlt|Hge]; [rewrite Hz by lia; apply Z.bits_0|].
    assert (E : i / 64 = bits / 64) by lia. assert (Hne : bits mod 64 <> 0) by lia.
    pose proof (f_equal (fun w => Z.testbit w (i mod 64)) (Ht Hne)) as Et. simpl in Et.
    rewrite Z.land_spec, Z.bits_0, last_mask_tail, (proj2 (Z.ltb_lt _ _)), andb_true_r in Et by lia. by rewrite E.
  - intros Hi. split.
    + intros k Hk. apply word_zero_bits; [apply Hg|]. intros j Hj.
      assert (Ek : (64 * k + j) / 64 = k) by (symmetry; apply Z.div_unique with j; lia).
      assert (Ej : (64 * k + j) mod 64 = j) by (symmetry; apply Z.mod_unique with k; lia).
      rewrite <- (Hi (64 * k + j)), <- HP, Ek, Ej by lia. done.
    + intros Hne. apply word_zero_bits; [apply word_land; [apply Hg|apply word_last_mask]|]. intros j Hj.
      rewrite Z.land_spec, last_mask_tail by lia. destruct (Z.ltb_spec j (bits mod 64)); [|apply andb_false_r].
      assert (Ek : (64 * (bits / 64) + j) / 64 = bits / 64) by (symmetry; apply Z.div_unique with j; lia).
      assert (Ej : (64 * (bits / 64) + j) mod 64 = j) by (symmetry; apply Z.mod_unique with (bits / 64); lia).
      rewrite andb_true_r, <- (Hi (64 * (bits / 64) + j)), <- HP, Ek, Ej by lia. done.
Qed.

(** The verdict of a trimmed operation or of a comparison: false when no bit below
    [bits] is wanted. *)
Definition some_bit (r : bool) (P : Z -> bool) : Prop := r = false <-> forall i, 0 <= i < bits -> P i = false.

Lemma negb_eqb_0 w : negb (w =? 0) = false <-> w = 0.
Proof. rewrite negb_false_iff. apply Z.eqb_eq. Qed.

Lemma logic_trim_ok :
  returns (logic_trim f dst b1 b2 bits) (fun '(r, dst') => wf dst' /\ length dst' = length dst /\
    some_bit r (fun i => fb (bit_of s1 i) (bit_of s2 i)) /\
    forall i, 0 <= i -> bit_of dst' i =
      if i <? bits then fb (bit_of s1 i) (bit_of s2 i)
      else if i <? 64 * BITS_TO_LONGS bits then false else bit_of dst i).
Proof.
  unfold logic_trim. pose proof (bits_to_longs_div bits Hbits) as EL. destruct (div_mod_64 bits) as [Db Mb].
  unfold BITS_PER_LONG. destruct (logic_loop_ok (bits / 64)) as (d & r & -> & Hdone & Hwr & Hr); [destruct (_ =? 0); lia|].
  rewrite bind_ret. pose proof (zero_words_iff (fun k => new k) (fun i => fb (bit_of s1 i) (bit_of s2 i))
    new_word (fun i Hi => new_bit i (proj1 Hi))) as Hz.
  destruct (Z.eqb_spec (bits mod 64) 0) as [E0|Hne]; cbn [negb].
  - destruct Hdone as (Hw & Hl & Hj). simpl. split; [done|]. split; [done|]. split.
    + unfold some_bit. rewrite negb_eqb_0, Hr, <- Hz. tauto.
    + intros i Hi. destruct (div_mod_64 i). rewrite bit_wd, Hj, EL by lia.
      destruct (Z.ltb_spec (i / 64) (bits / 64)), (Z.ltb_spec i bits); try lia; [by apply new_bit|].
      rewrite (proj2 (Z.ltb_ge _ _)) by lia. by rewrite bit_wd.
  - rewrite (load_ok d b1 (bits / 64)), (load_ok d b2 (bits / 64)), !bind_ret by (done || lia).
    set (w := Z.land (new (bits / 64)) (BITMAP_LAST_WORD_MASK bits)).
    assert (Hww : word w) by (apply word_land; [apply new_word|apply word_last_mask]).
    destruct (store_ok d (bits / 64) w Hdone Hww) as (d' & -> & Hw' & Hl' & Hj); [lia|]. simpl.
    split; [done|]. split; [done|]. split.
    + unfold some_bit. rewrite negb_eqb_0, Z.lor_eq_0_iff, Hr, <- Hz. unfold w. tauto.
    + intros i Hi. destruct (div_mod_64 i) as [Di Mi]. rewrite bit_wd, Hj, EL by lia.
      destruct (Z.eqb_spec (i / 64) (bits / 64)) as [E|Hne'].
      * unfold w. rewrite Z.land_spec, last_mask_tail, <- E, new_bit by lia.
        destruct (Z.ltb_spec (i mod 64) (bits mod 64)), (Z.ltb_spec i bits); try lia; [apply andb_true_r|].
        rewrite (proj2 (Z.ltb_lt i _)) by lia. apply andb_false_r.
      * destruct (Z.ltb_spec (i / 64) (bits / 64)), (Z.ltb_spec i bits); try lia; [by apply new_bit|].
        rewrite (proj2 (Z.ltb_ge i _)) by lia. by rewrite bit_wd.
Qed.
End logic.

(** ** Comparisons *)

Section hits.
Context (f : Z -> Z -> Z) (fb : bool -> bool -> bool) (b1 b2 : bitmap) (bits : Z).
Context (Hf : bitwise f fb) (Hbits : 0 <= bits) (H1 : room b1 bits) (H2 : room b2 bits).

Lemma hits_ok :
  returns (bitmap_hits f b1 b2 bits) (fun r => some_bit bits r (fun i => fb (bit_of b1 i) (bit_of b2 i))).
Proof.
  unfold bitmap_hits, BITS_PER_LONG. pose proof (bits_to_longs_div bits Hbits) as EL. destruct (div_mod_64 bits) as [Db Mb].
  pose proof (room_longs _ _ H1 Hbits) as R1. pose proof (room_longs _ _ H2 Hbits) as R2.
  set (new k := f (wd b1 k) (wd b2 k)).
  assert (Hz := zero_words_iff bits Hbits new (fun i => fb (bit_of b1 i) (bit_of b2 i))
    (fun k => proj1 (Hf _ _ (wd_word b1 k (proj1 H1)) (wd_word b2 k (proj1 H2))))
    (fun i Hi => new_bit f fb b1 Self (Buf b2) bits Hf H1 I H2 i (proj1 Hi))).
  apply returns_bind with (P := fun '(hit, k) => if (hit : bool) then exists j, 0 <= j < bits / 64 /\ new j <> 0
    else k = bits / 64 /\ forall j, 0 <= j < bits / 64 -> new j = 0).
  - apply loop_returns with (m := fun k => Z.to_nat (bits / 64 - k))
      (I := fun k => 0 <= k <= bits / 64 /\ forall j, 0 <= j < k -> new j = 0).
    + split; lia.
    + lia.
    + intros k [Hk H0]. unfold hit_turn. destruct (Z.ltb_spec k (bits / 64)) as [Hlt|Hge].
      2:{ simpl. split; [lia|]. intros j Hj. apply H0. lia. }
      rewrite !rd_wd, !bind_ret by (destruct (_ =? 0) in EL; lia). fold (new k).
      destruct (Z.eqb_spec (new k) 0) as [E|E]; simpl.
      * split; [|lia]. split; [lia|]. intros j Hj. destruct (Z.eq_dec j k) as [->|]; [done|]. apply H0. lia.
      * exists k. split; [lia|done].
  - intros [[|] k].
    + intros (j & Hj & Hne). simpl. split; [done|]. intros Hall. exfalso. apply Hne. by apply Hz.
    + intros [-> H0]. destruct (Z.eqb_spec (bits mod 64) 0) as [E0|Hne]; simpl negb; cbn iota.
      * simpl. split; [|done]. intros _. by apply Hz.
      * rewrite !rd_wd, !bind_ret by lia. simpl. unfold some_bit. rewrite negb_eqb_0, <- Hz. tauto.
Qed.
End hits.

(** ** The weight of a word and of a bitmap

    [__sw_hweight64] adds the bits of a word in parallel.  Its steps act on each
    byte separately, so the 256 byte values decide the bytes, and the final
    multiplication adds them. *)

(** ** Counting *)

(** The number of [i < n] with [P i]. *)
Fixpoint countn (P : Z -> bool) (n : nat) : Z :=
  match n with O => 0 | S n => countn P n + Z.b2z (P (Z.of_nat n)) end.
Definition count (P : Z -> bool) (n : Z) : Z := countn P (Z.to_nat n).

Lemma countn_ext P Q n : (forall i, 0 <= i < Z.of_nat n -> P i = Q i) -> countn P n = countn Q n.
Proof. induction n as [|n IH]; intros H; simpl; [done|]. rewrite IH, H by (intros; apply H || idtac; lia). done. Qed.

Lemma count_ext P Q n : (forall i, 0 <= i < n -> P i = Q i) -> count P n = count Q n.
Proof. intros H. apply countn_ext. intros i Hi. apply H. lia. Qed.

Lemma countn_add P n m : countn P (n + m) = countn P n + countn (fun i => P (Z.of_nat n + i)) m.
Proof.
  induction m as [|m IH]; simpl; [by rewrite Nat.add_0_r, Z.add_0_r|].
  rewrite Nat.add_succ_r. simpl. rewrite IH, Nat2Z.inj_add. lia.
Qed.

Lemma count_add P n m : 0 <= n -> 0 <= m -> count P (n + m) = count P n + count (fun i => P (n + i)) m.
Proof.
  intros Hn Hm. unfold count. rewrite Z2Nat.inj_add, countn_add by done. f_equal. apply countn_ext.
  intros i Hi. f_equal. lia.
Qed.

Lemma count_false P n : (forall i, 0 <= i < n -> P i = false) -> count P n = 0.
Proof.
  intros H. rewrite (count_ext P (fun _ => false)) by done. unfold count. clear H. induction (Z.to_nat n); simpl; lia.
Qed.

Lemma count_bounds P n : 0 <= n -> 0 <= count P n <= n.
Proof.
  intros Hn. unfold count. assert (H : forall k, 0 <= countn P k <= Z.of_nat k).
  { induction k as [|k IH]; simpl countn; [lia|]. destruct (P (Z.of_nat k)); simpl Z.b2z; lia. }
  specialize (H (Z.to_nat n)). lia.
Qed.

Lemma count_mono P n m : 0 <= n <= m -> count P n <= count P m.
Proof.
  intros Hn. replace m with (n + (m - n)) by lia. rewrite count_add by lia.
  pose proof (count_bounds (fun i => P (n + i)) (m - n) ltac:(lia)). lia.
Qed.

Lemma count_S P n : 0 <= n -> count P (n + 1) = count P n + Z.b2z (P n).
Proof. intros Hn. rewrite count_add by lia. unfold count at 2. simpl. by rewrite Z.add_0_r. Qed.

Lemma count_gap P a b : 0 <= a <= b -> (forall i, a <= i < b -> P i = false) -> count P b = count P a.
Proof.
  intros Hab H. replace b with (a + (b - a)) by lia. rewrite count_add by lia.
  rewrite (count_false (fun i => P (a + i))); [lia|]. intros i Hi. apply H. lia.
Qed.

(** ** Bytes *)

Fixpoint rep (m : Z) (n : nat) : Z := match n with O => 0 | S n => m + 256 * rep m n end.

Lemma rep_nonneg m n : 0 <= m -> 0 <= rep m n.
Proof. intros. induction n; simpl; lia. Qed.

Lemma split_byte a b : 0 <= a < 256 -> a + 256 * b = Z.lor a (Z.shiftl b 8).
Proof. intros Ha. rewrite lor_shiftl_add by lia. lia. Qed.

(** A mask whose bytes have their top [k] bits clear keeps the bytes of a right
    shift apart. *)
Lemma land_byte lo hi m n k :
  0 <= lo < 256 -> 0 <= hi -> 0 <= k <= 8 -> 0 <= m < 2 ^ (8 - k) ->
  Z.land (Z.shiftr (lo + 256 * hi) k) (rep m (S n)) =
    Z.land (Z.shiftr lo k) m + 256 * Z.land (Z.shiftr hi k) (rep m n).
Proof.
  intros Hlo Hhi Hk Hm. assert (Hm8 : m < 2 ^ 8) by (pose proof (Z.pow_le_mono_r 2 (8 - k) 8 ltac:(lia) ltac:(lia)); lia).
  simpl rep. pose proof (rep_nonneg m n ltac:(lia)) as Hrep.
  assert (Hl : 0 <= Z.land (Z.shiftr lo k) m < 256).
  { rewrite Z.land_comm. split; [apply Z.land_nonneg; left; lia|].
    destruct (Z.eq_dec (Z.land m (Z.shiftr lo k)) 0) as [->|]; [lia|].
    assert (0 < Z.land m (Z.shiftr lo k)) by (assert (0 <= Z.land m (Z.shiftr lo k)) by (apply Z.land_nonneg; left; lia); lia).
    change 256 with (2 ^ 8). apply Z.log2_lt_pow2; [done|]. pose proof (Z.log2_land m (Z.shiftr lo k) ltac:(lia) ltac:(apply Z.shiftr_nonneg; lia)).
    destruct (Z.eq_dec m 0) as [->|]; [by rewrite Z.land_0_l in *|]. pose proof (proj1 (Z.log2_lt_pow2 m 8 ltac:(lia)) Hm8). lia. }
  rewrite (split_byte m), (split_byte lo), (split_byte (Z.land (Z.shiftr lo k) m)) by lia.
  apply Z.bits_inj'. intros j Hj.
  rewrite Z.land_spec, Z.shiftr_spec, !Z.lor_spec, !Z.shiftl_spec, !Z.land_spec, !Z.shiftr_spec by lia.
  destruct (Z.lt_ge_cases j 8) as [Hlt|Hge].
  - assert (Hneg : forall z, Z.testbit z (j - 8) = false) by (intros z; apply Z.testbit_neg_r; lia).
    rewrite !Hneg, ?andb_false_r, !orb_false_r.
    destruct (Z.lt_ge_cases (j + k) 8).
    + rewrite (Z.testbit_neg_r hi) by lia. by rewrite ?orb_false_r.
    + rewrite (testbit_above m (8 - k) j) by lia. by rewrite ?andb_false_r.
  - rewrite Z.shiftr_spec, (testbit_above lo 8 (j + k)), (testbit_above m 8 j) by lia. simpl.
    do 2 f_equal. lia.
Qed.

(** ** The three steps of the parallel sum *)

Definition sum2 (n : nat) (w : Z) : Z := w - Z.land (Z.shiftr w 1) (rep 0x55 n).
Definition sum4 (n : nat) (w : Z) : Z := Z.land w (rep 0x33 n) + Z.land (Z.shiftr w 2) (rep 0x33 n).
Definition sum8 (n : nat) (w : Z) : Z := Z.land (w + Z.shiftr w 4) (rep 0x0f n).

Definition byte_ok (b : Z) : bool :=
  let b2 := sum2 1 b in let b4 := sum4 1 b2 in
  (0 <=? b2) && (b2 <? 256) && (0 <=? b4) && (b4 <=? 0x44) && (b4 mod 16 <=? 4) && (sum8 1 b4 =? count (Z.testbit b) 8).

Lemma bytes_ok b : 0 <= b < 256 -> byte_ok b = true.
Proof.
  intros Hb. assert (H : forallb byte_ok (Z.of_nat <$> seq 0 256) = true) by by vm_compute.
  rewrite forallb_forall in H. apply H. apply in_map_iff. exists (Z.to_nat b). split; [lia|]. apply in_seq. lia.
Qed.

Lemma byte_facts b : 0 <= b < 256 ->
  0 <= sum2 1 b < 256 /\ 0 <= sum4 1 (sum2 1 b) <= 0x44 /\ sum4 1 (sum2 1 b) mod 16 <= 4 /\ sum8 1 (sum4 1 (sum2 1 b)) = count (Z.testbit b) 8.
Proof.
  intros Hb%bytes_ok. unfold byte_ok in Hb. repeat (apply andb_true_iff in Hb as [Hb ?]).
  repeat match goal with H : (_ <=? _) = true |- _ => apply Z.leb_le in H | H : (_ <? _) = true |- _ => apply Z.ltb_lt in H
    | H : (_ =? _) = true |- _ => apply Z.eqb_eq in H end. lia.
Qed.

Lemma rep_1 m : rep m 1 = m.
Proof. simpl. lia. Qed.

Lemma sum2_byte n lo hi : 0 <= lo < 256 -> 0 <= hi -> sum2 (S n) (lo + 256 * hi) = sum2 1 lo + 256 * sum2 n hi.
Proof. intros Hlo Hhi. unfold sum2. rewrite land_byte, rep_1 by lia. lia. Qed.

Lemma sum4_byte n lo hi : 0 <= lo < 256 -> 0 <= hi -> sum4 (S n) (lo + 256 * hi) = sum4 1 lo + 256 * sum4 n hi.
Proof.
  intros Hlo Hhi. unfold sum4. rewrite (land_byte lo hi 0x33 n 2), !rep_1 by lia.
  pose proof (land_byte lo hi 0x33 n 0 Hlo Hhi ltac:(lia) ltac:(lia)) as H. rewrite !Z.shiftr_0_r in H. rewrite H. lia.
Qed.

Lemma sum8_byte n lo hi : 0 <= lo <= 0x44 -> 0 <= hi -> hi mod 16 <= 4 -> sum8 (S n) (lo + 256 * hi) = sum8 1 lo + 256 * sum8 n hi.
Proof.
  intros Hlo Hhi H4. unfold sum8. rewrite !Z.shiftr_div_pow2 by lia. change (2 ^ 4) with 16.
  replace (lo + 256 * hi) with (lo + 16 * hi * 16) at 2 by lia. rewrite Z.div_add by lia.
  pose proof (Z.div_mod hi 16 ltac:(lia)) as E. pose proof (Z.mod_pos_bound hi 16 ltac:(lia)).
  assert (Hd : 0 <= lo / 16 <= 4) by (split; [apply Z.div_pos; lia|]; assert (lo / 16 < 5) by (apply Z.div_lt_upper_bound; lia); lia).
  replace (lo + 256 * hi + (lo / 16 + 16 * hi)) with ((lo + lo / 16 + 16 * (hi mod 16)) + 256 * (hi + hi / 16)) by lia.
  pose proof (land_byte (lo + lo / 16 + 16 * (hi mod 16)) (hi + hi / 16) 0x0f n 0 ltac:(lia)
    ltac:(apply Z.add_nonneg_nonneg; [lia|apply Z.div_pos; lia]) ltac:(lia) ltac:(lia)) as H1.
  rewrite !Z.shiftr_0_r in H1. rewrite H1, rep_1. f_equal.
  change 0x0f with (Z.ones 4). rewrite !Z.land_ones by lia. change (2 ^ 4) with 16.
  rewrite (Z.mul_comm 16), Z.mod_add by lia. done.
Qed.

(** The bytes of [w] after the three steps are their bit counts. *)
Fixpoint byte_counts (n : nat) (w : Z) : Z :=
  match n with O => 0 | S n => count (Z.testbit (w mod 256)) 8 + 256 * byte_counts n (w / 256) end.

Lemma steps_ok n w :
  0 <= w < 256 ^ Z.of_nat n ->
  0 <= sum2 n w < 256 ^ Z.of_nat n /\ 0 <= sum4 n (sum2 n w) < 256 ^ Z.of_nat n /\ sum4 n (sum2 n w) mod 16 <= 4 /\
  sum8 n (sum4 n (sum2 n w)) = byte_counts n w.
Proof.
  revert w. induction n as [|n IH]; intros w Hw; [change (256 ^ Z.of_nat 0) with 1 in Hw; replace w with 0 by lia; vm_compute; split_and!; done|].
  rewrite Nat2Z.inj_succ, Z.pow_succ_r in * by lia.
  pose proof (Z.div_mod w 256 ltac:(lia)) as E. pose proof (Z.mod_pos_bound w 256 ltac:(lia)) as Hm.
  set (lo := w mod 256) in *. set (hi := w / 256) in *.
  assert (Hhi : 0 <= hi < 256 ^ Z.of_nat n) by lia.
  destruct (IH hi Hhi) as (I1 & I2 & I4 & I3). destruct (byte_facts lo Hm) as (B1 & B2 & B4 & B3).
  rewrite E, Z.add_comm, sum2_byte, sum4_byte, sum8_byte by lia.
  simpl byte_counts. rewrite (Z.add_comm lo), <- E. fold lo hi. rewrite I3, B3. split; [lia|]. split; [lia|]. split; [|done].
  replace (256 * sum4 n (sum2 n hi)) with (16 * sum4 n (sum2 n hi) * 16) by lia. by rewrite Z.mod_add by lia.
Qed.

(** ** The weight of a word *)

Fixpoint byte_sum (n : nat) (w : Z) : Z :=
  match n with O => 0 | S n => count (Z.testbit (w mod 256)) 8 + byte_sum n (w / 256) end.

Lemma byte_sum_count n w : 0 <= w -> byte_sum n w = count (Z.testbit w) (8 * Z.of_nat n).
Proof.
  revert w. induction n as [|n IH]; intros w Hw; [done|]. simpl byte_sum. rewrite IH by (apply Z.div_pos; lia).
  replace (8 * Z.of_nat (S n)) with (8 + 8 * Z.of_nat n) by lia. rewrite count_add by lia. f_equal; apply count_ext.
  - intros i Hi. change 256 with (2 ^ 8). apply Z.mod_pow2_bits_low. lia.
  - intros i Hi. change 256 with (2 ^ 8). rewrite Z.div_pow2_bits by lia. f_equal. lia.
Qed.

(** The multiplication by 0x01..01 adds the bytes into the top one. *)
Lemma mul_sum c0 c1 c2 c3 c4 c5 c6 c7 :
  0 <= c0 <= 8 -> 0 <= c1 <= 8 -> 0 <= c2 <= 8 -> 0 <= c3 <= 8 -> 0 <= c4 <= 8 -> 0 <= c5 <= 8 -> 0 <= c6 <= 8 -> 0 <= c7 <= 8 ->
  Z.shiftr (u64 ((c0 + 256 * (c1 + 256 * (c2 + 256 * (c3 + 256 * (c4 + 256 * (c5 + 256 * (c6 + 256 * (c7 + 256 * 0)))))))) * 0x0101010101010101)) 56 = c0 + c1 + c2 + c3 + c4 + c5 + c6 + c7.
Proof.
  intros. assert (E : u64 ((c0 + 256 * (c1 + 256 * (c2 + 256 * (c3 + 256 * (c4 + 256 * (c5 + 256 * (c6 + 256 * (c7 + 256 * 0)))))))) * 0x0101010101010101) =
    ((c0) * 256 ^ 0 + (c0 + c1) * 256 ^ 1 + (c0 + c1 + c2) * 256 ^ 2 + (c0 + c1 + c2 + c3) * 256 ^ 3 + (c0 + c1 + c2 + c3 + c4) * 256 ^ 4 + (c0 + c1 + c2 + c3 + c4 + c5) * 256 ^ 5 + (c0 + c1 + c2 + c3 + c4 + c5 + c6) * 256 ^ 6) + (c0 + c1 + c2 + c3 + c4 + c5 + c6 + c7) * 2 ^ 56).
  { symmetry. apply Z.mod_unique with ((c1 + c2 + c3 + c4 + c5 + c6 + c7) * 256 ^ 0 + (c2 + c3 + c4 + c5 + c6 + c7) * 256 ^ 1 + (c3 + c4 + c5 + c6 + c7) * 256 ^ 2 + (c4 + c5 + c6 + c7) * 256 ^ 3 + (c5 + c6 + c7) * 256 ^ 4 + (c6 + c7) * 256 ^ 5 + (c7) * 256 ^ 6); lia. }
  rewrite E, shiftr_add_mul by lia. done.
Qed.

Lemma byte_count_range w : 0 <= count (Z.testbit w) 8 <= 8.
Proof. by apply count_bounds. Qed.

Lemma byte_counts_8 w : Z.shiftr (u64 (byte_counts 8 w * 0x0101010101010101)) 56 = byte_sum 8 w.
Proof. cbn [byte_counts byte_sum]. rewrite mul_sum by apply byte_count_range. lia. Qed.

(** [__sw_hweight64] is the number of set bits. *)
Lemma hweight64_ok w : word w -> __sw_hweight64 w = count (Z.testbit w) 64.
Proof.
  intros Hw. destruct (steps_ok 8 w Hw) as (H1 & H2 & _ & H3). unfold __sw_hweight64.
  change 0x5555555555555555 with (rep 0x55 8). change 0x3333333333333333 with (rep 0x33 8). change 0x0f0f0f0f0f0f0f0f with (rep 0x0f 8).
  fold (sum2 8 w). rewrite (u64_small (sum2 8 w)) by exact H1. fold (sum4 8 (sum2 8 w)).
  rewrite (u64_small (sum4 8 (sum2 8 w))) by exact H2. set (v := sum4 8 (sum2 8 w)) in *.
  assert (E : Z.land (u64 (v + Z.shiftr v 4)) (rep 0x0f 8) = sum8 8 v).
  { unfold sum8. apply Z.bits_inj'. intros j Hj. rewrite !Z.land_spec. destruct (Z.lt_ge_cases j 64).
    - by rewrite u64_bits by lia.
    - assert (Hr : Z.testbit (rep 0x0f 8) j = false) by (apply (testbit_above _ 64); [by vm_compute|done]).
      by rewrite Hr, !andb_false_r. }
  rewrite E, H3, byte_counts_8, byte_sum_count by apply Hw. done.
Qed.

(** ** The weight of a bitmap *)

Lemma count_word (map : bitmap) k n :
  0 <= k -> 0 <= n <= 64 -> count (bit_of map) (64 * k + n) = count (bit_of map) (64 * k) + count (Z.testbit (wd map k)) n.
Proof.
  intros Hk Hn. rewrite count_add by lia. f_equal. apply count_ext. intros i Hi. rewrite bit_wd.
  replace ((64 * k + i) / 64) with k by (apply Z.div_unique with i; lia).
  by replace ((64 * k + i) mod 64) with i by (apply Z.mod_unique with k; lia).
Qed.

Lemma hweight_tail (map : bitmap) bits :
  0 <= bits -> wf map -> bits mod 64 <> 0 ->
  hweight_long (Z.land (wd map (bits / 64)) (BITMAP_LAST_WORD_MASK bits)) = count (Z.testbit (wd map (bits / 64))) (bits mod 64).
Proof.
  intros Hb Hw Hne. destruct (div_mod_64 bits) as [Db Mb]. unfold hweight_long.
  rewrite hweight64_ok by (apply word_land; [by apply wd_word|apply word_last_mask]).
  rewrite (count_gap _ (bits mod 64) 64) by (lia || (intros i Hi; rewrite Z.land_spec, last_mask_tail, (proj2 (Z.ltb_ge _ _)) by lia; apply andb_false_r)).
  apply count_ext. intros i Hi. rewrite Z.land_spec, last_mask_tail by lia.
  by rewrite (proj2 (Z.ltb_lt _ _)), andb_true_r by lia.
Qed.

Lemma weight_ok (map : bitmap) bits :
  0 <= bits < 2 ^ 31 -> room map bits -> __bitmap_weight map bits = Ret (count (bit_of map) bits).
Proof.
  intros Hb Hr. pose proof (bits_to_longs_div bits (proj1 Hb)) as EL. pose proof (room_longs _ _ Hr (proj1 Hb)) as Hlen.
  destruct (div_mod_64 bits) as [Db Mb]. unfold __bitmap_weight, BITS_PER_LONG.
  assert (Hc : forall n, 0 <= n <= bits -> 0 <= count (bit_of map) n < 2 ^ 31).
  { intros n Hn. pose proof (count_bounds (bit_of map) n (proj1 Hn)). lia. }
  assert (Hl : returns (loop (Z.to_nat (bits / 64) + 1) (weight_turn map (bits / 64)) (0, 0)) (fun '(k, w) =>
    k = bits / 64 /\ w = count (bit_of map) (64 * (bits / 64)))).
  { apply loop_returns with (m := fun '(k, _) => Z.to_nat (bits / 64 - k))
      (I := fun '(k, w) => 0 <= k <= bits / 64 /\ w = count (bit_of map) (64 * k)).
    - split; [lia|done].
    - lia.
    - intros [k w] [Hk ->]. unfold weight_turn. destruct (Z.ltb_spec k (bits / 64)) as [Hlt|Hge].
      + rewrite rd_wd, bind_ret by (destruct (bits mod 64 =? 0); lia). simpl. split; [|lia]. split; [lia|].
        unfold hweight_long. rewrite hweight64_ok, <- count_word by (lia || apply wd_word, Hr).
        replace (64 * k + 64) with (64 * (k + 1)) by lia. rewrite s32_small; [done|]. pose proof (Hc (64 * (k + 1)) ltac:(lia)). lia.
      + simpl. replace k with (bits / 64) by lia. done. }
  destruct (returns_inv _ _ Hl) as ([k w] & -> & -> & ->). rewrite bind_ret.
  destruct (Z.eqb_spec (bits mod 64) 0) as [E0|Hne]; cbn [negb].
  - do 2 f_equal. lia.
  - rewrite rd_wd, bind_ret by lia. rewrite hweight_tail, <- count_word by (lia || apply Hr || done).
    rewrite <- Db, s32_small; [done|]. specialize (Hc bits ltac:(lia)). lia.
Qed.

(** ** Ordinals *)

Lemma test_bit_ok (map : bitmap) nr :
  wf map -> 0 <= nr < 64 * len map -> test_bit nr map = Ret (bit_of map nr).
Proof.
  intros Hw Hn. unfold test_bit, BIT_WORD, BITS_PER_LONG. rewrite rd_wd, bind_ret by (by apply word_index).
  do 2 f_equal. rewrite bit_wd. change (64 - 1) with (BITS_PER_LONG - 1). rewrite land_63. destruct (div_mod_64 nr) as [_ Hm].
  set (w := wd map (nr / 64)). set (j := nr mod 64) in *.
  destruct (Z.testbit w j) eqn:E.
  - apply negb_true_iff, Z.eqb_neq. intros H0. pose proof (f_equal (fun x => Z.testbit x 0) H0) as H1. cbv beta in H1.
    rewrite Z.land_spec, Z.shiftr_spec, Z.add_0_l, E in H1 by lia. done.
  - apply negb_false_iff, Z.eqb_eq. change 1 with (Z.ones 1). rewrite Z.land_comm, Z.land_ones by lia. change (2 ^ 1) with 2.
    rewrite Zmod_odd, <- Z.bit0_odd, Z.shiftr_spec, Z.add_0_l, E by lia. done.
Qed.

Lemma pos_to_ord_ok (buf : bitmap) pos nbits :
  room buf nbits -> 0 <= pos -> 0 <= nbits < 2 ^ 31 ->
  bitmap_pos_to_ord buf pos nbits =
    Ret (if (pos <? nbits) && bit_of buf pos then count (bit_of buf) pos else -1).
Proof.
  intros [Hw Hl] Hp Hn. unfold bitmap_pos_to_ord. destruct (Z.leb_spec nbits pos) as [Hge|Hlt].
  { by rewrite (proj2 (Z.ltb_ge _ _)) by lia. }
  rewrite (proj2 (Z.ltb_lt _ _)) by lia. rewrite test_bit_ok, bind_ret by (done || lia). simpl.
  destruct (bit_of buf pos); simpl; [|done]. apply weight_ok; [lia|]. split; [done|lia].
Qed.

(** [r] is the position of the [ord]-th set bit below [nbits], or [nbits]. *)
Definition nth_bit (P : Z -> bool) (ord nbits r : Z) : Prop :=
  (0 <= r < nbits /\ P r = true /\ count P r = ord) \/ (r = nbits /\ count P nbits <= ord).

Lemma ord_to_pos_ok (buf : bitmap) ord nbits :
  room buf nbits -> 0 <= ord -> 0 <= nbits < 2 ^ 31 ->
  returns (bitmap_ord_to_pos buf ord nbits) (nth_bit (bit_of buf) ord nbits).
Proof.
  intros Hr Ho Hn. unfold bitmap_ord_to_pos.
  apply returns_bind with (P := least (bit_of buf) 0 nbits); [apply find_first_bit_ok; done || lia|].
  intros p0 (Hp & Hlow & Hset).
  apply loop_returns with (m := fun '(p, _) => Z.to_nat (nbits - p))
    (I := fun '(p, o) => 0 <= p <= nbits /\ 0 <= o /\ (p < nbits -> bit_of buf p = true) /\ count (bit_of buf) p = ord - o).
  - split; [lia|]. split; [done|]. split; [done|]. rewrite (count_gap _ 0 p0) by (done || lia).
    change (count (bit_of buf) 0) with 0. lia.
  - lia.
  - intros [p o] (H1 & H2 & H3 & H4). unfold ord_turn.
    destruct (Z.ltb_spec p nbits) as [Hlt|Hge]; simpl andb.
    + destruct (Z.eqb_spec o 0) as [->|Hne]; simpl negb; cbn iota.
      * simpl. left. split; [lia|]. split; [by apply H3|lia].
      * destruct (find_next_bit_ok buf nbits (p + 1) Hr) as (q & -> & _ & Hq); [lia|lia|].
        destruct (Hq ltac:(lia)) as (Q1 & Q2 & Q3). rewrite bind_ret. simpl. split; [|lia].
        split; [lia|]. split; [lia|]. split; [done|].
        rewrite (count_gap _ (p + 1) q), count_S, H3, H4 by (done || lia). simpl. lia.
    + simpl. right. replace p with nbits in * by lia. split; [done|lia].
Qed.

Lemma nth_bit_unique P ord nbits r r' : nth_bit P ord nbits r -> nth_bit P ord nbits r' -> r = r'.
Proof.
  assert (Hlt : forall a b, 0 <= a < b -> P a = true -> count P a < count P b).
  { intros a b Hab Ha. pose proof (count_mono P (a + 1) b ltac:(lia)) as H. rewrite count_S, Ha in H by lia. simpl in H. lia. }
  intros [(H1 & H2 & H3)|[-> H1]] [(H4 & H5 & H6)|[-> H4]].
  - destruct (Z.lt_trichotomy r r') as [H|[H|H]]; [|done|].
    + pose proof (Hlt r r' ltac:(lia) H2). lia.
    + pose proof (Hlt r' r ltac:(lia) H5). lia.
  - pose proof (Hlt r nbits ltac:(lia) H2). lia.
  - pose proof (Hlt r' nbits ltac:(lia) H5). lia.
  - done.
Qed.
