(* ===== verification/BitmapMaps.v ===== *)
(** * Iteration over the set bits, and the maps between bitmaps

    [bitmap_remap], [bitmap_onto] and [bitmap_fold] as images of sets of bit
    numbers. *)
From stdpp Require Import base numbers list option.
From Stdlib Require Import ZArith Lia.
From S2P Require Import Prelude Bitmap BitmapFacts BitmapOpsFacts.

(** The invariant [I i] holds when the set bits below [i] have been visited. *)
Lemma for_each_set_bit_rule {S} (addr : bitmap) size (body : Z -> S -> outcome S) (I : Z -> S -> Prop) s :
  room addr size -> 0 <= size < 2 ^ 63 -> I 0 s ->
  (forall i j s, 0 <= i <= j -> j <= size -> (forall l, i <= l < j -> bit_of addr l = false) -> I i s -> I j s) ->
  (forall i s, 0 <= i < size -> bit_of addr i = true -> I i s -> returns (body i s) (I (i + 1))) ->
  returns (for_each_set_bit addr size body s) (I size).
Proof.
  intros Hr Hs H0 Hskip Hbody. unfold for_each_set_bit.
  apply returns_bind with (P := least (bit_of addr) 0 size); [apply find_first_bit_ok; done || lia|].
  intros b (Hb & Hlow & Hset).
  apply loop_returns with (m := fun '(i, _) => Z.to_nat (size - i))
    (I := fun '(i, s) => 0 <= i <= size /\ (i < size -> bit_of addr i = true) /\ I i s).
  - split; [lia|]. split; [done|]. apply (Hskip 0 b); done || lia.
  - lia.
  - intros [i s'] (Hi & Hset' & HI). unfold set_bit_turn. destruct (Z.ltb_spec i size) as [Hlt|Hge].
    + apply returns_bind with (1 := Hbody i s' ltac:(lia) (Hset' Hlt) HI). intros s'' HI'.
      destruct (find_next_bit_ok addr size (i + 1) Hr) as (q & -> & _ & Hq); [lia|lia|].
      destruct (Hq ltac:(lia)) as (Q1 & Q2 & Q3). rewrite bind_ret. simpl. split; [|lia].
      split; [lia|]. split; [done|]. apply (Hskip (i + 1) q); done || lia.
    + simpl. by replace size with i by lia.
Qed.

Lemma zero_bits_ok (dst : bitmap) nbits :
  room dst nbits -> 0 <= nbits ->
  exists dst', bitmap_zero dst nbits = Ret dst' /\ room dst' nbits /\ length dst' = length dst /\
    forall i, 0 <= i < nbits -> bit_of dst' i = false.
Proof.
  intros Hr Hn. pose proof (room_longs _ _ Hr Hn). pose proof (bits_to_longs_bounds nbits Hn).
  destruct (fill_wd dst 0 (BITS_TO_LONGS nbits) 0) as (d & E & Hw & Hl & Hj); [apply Hr|apply word_0|lia..|].
  exists d. split; [done|]. split; [split; [done|rewrite Hl; apply Hr]|]. split; [done|].
  intros i Hi. destruct (div_mod_64 i). rewrite bit_wd, Hj by lia.
  rewrite (proj2 (Z.leb_le 0 _)), (proj2 (Z.ltb_lt _ _)) by lia. apply Z.bits_0.
Qed.

Lemma set_bit_room (map : bitmap) nr n :
  room map n -> 0 <= nr < n ->
  exists map', set_bit nr map = Ret map' /\ room map' n /\ forall i, 0 <= i -> bit_of map' i = (i =? nr) || bit_of map i.
Proof.
  intros [Hw Hl] Hn. destruct (set_bit_ok map nr Hw) as (map' & E & Hw' & Hl' & Hb); [lia|].
  exists map'. split; [done|]. split; [split; [done|lia]|done].
Qed.

(** The bits of [dst] below [n] are the image under [g] of the [i < k] with [P i]. *)
Definition image (g : Z -> Z) (P : Z -> bool) (k n : Z) (dst : bitmap) : Prop :=
  forall j, 0 <= j < n -> bit_of dst j = true <-> exists i, 0 <= i < k /\ P i = true /\ g i = j.

Lemma image_skip g P n i j dst :
  0 <= i <= j -> (forall l, i <= l < j -> P l = false) -> image g P i n dst -> image g P j n dst.
Proof.
  intros Hij Hl Him k Hk. rewrite (Him k Hk). split; intros (l & H1 & H2 & H3); exists l; (split; [|done]); [lia|].
  destruct (Z.lt_ge_cases l i); [lia|]. rewrite Hl in H2 by lia. done.
Qed.

Lemma image_add g P n i dst dst' :
  0 <= i -> P i = true -> image g P i n dst ->
  (forall j, 0 <= j < n -> bit_of dst' j = (j =? g i) || bit_of dst j) -> image g P (i + 1) n dst'.
Proof.
  intros Hi HP Him Hd j Hj. rewrite Hd, orb_true_iff, Z.eqb_eq, (Him j Hj) by done. split.
  - intros [->|(l & H1 & H2)]; [exists i|exists l]; split; done || lia.
  - intros (l & H1 & H2 & H3). destruct (Z.eq_dec l i) as [->|]; [by left|]. right. exists l. split; [lia|done].
Qed.

(** [bitmap_fold]. *)
Lemma fold_ok (dst orig : bitmap) sz nbits :
  room dst nbits -> room orig nbits -> 0 <= nbits < 2 ^ 31 -> 0 < sz <= nbits ->
  returns (bitmap_fold dst orig sz nbits) (fun dst' =>
    room dst' nbits /\ image (fun i => i mod sz) (bit_of orig) nbits nbits dst').
Proof.
  intros Hd Ho Hn Hsz. unfold bitmap_fold. destruct (zero_bits_ok dst nbits Hd (proj1 Hn)) as (d & -> & Hr & _ & Hz).
  rewrite bind_ret.
  apply (for_each_set_bit_rule _ _ _ (fun k d => room d nbits /\ image (fun i => i mod sz) (bit_of orig) k nbits d)); [done|lia| | |].
  - split; [done|]. intros j Hj. rewrite Hz by done. split; [done|]. intros (i & ? & _). lia.
  - intros i j d' Hij _ Hl [Hr' Him]. split; [done|]. by apply (image_skip _ _ _ i).
  - intros i d' Hi Hb [Hr' Him]. rewrite (proj2 (Z.eqb_neq sz 0)) by lia.
    pose proof (Z.mod_pos_bound i sz ltac:(lia)). destruct (set_bit_room d' (i mod sz) nbits Hr') as (d2 & -> & Hr2 & Hb2); [lia|].
    simpl. split; [done|]. apply (image_add _ _ _ _ d'); [lia|done|done|]. intros j Hj. apply Hb2. lia.
Qed.

(** [bitmap_onto]: bit [n] is set when it is the [m]-th bit of [relmap] and bit [m]
    of [orig] is set. *)
Lemma onto_ok (dst orig relmap : bitmap) bits :
  room dst bits -> room orig bits -> room relmap bits -> 0 <= bits < 2 ^ 31 ->
  returns (bitmap_onto dst orig relmap bits) (fun dst' => room dst' bits /\
    forall n, 0 <= n < bits -> bit_of dst' n = bit_of relmap n && bit_of orig (count (bit_of relmap) n)).
Proof.
  intros Hd Ho Hm Hn. unfold bitmap_onto. destruct (zero_bits_ok dst bits Hd (proj1 Hn)) as (d & -> & Hr & _ & Hz).
  rewrite bind_ret. set (F := fun n => bit_of relmap n && bit_of orig (count (bit_of relmap) n)).
  apply returns_bind with (P := fun '(d, m) => room d bits /\ m = count (bit_of relmap) bits /\
    forall n, 0 <= n < bits -> bit_of d n = (n <? bits) && F n).
  - apply (for_each_set_bit_rule _ _ _ (fun k '(d, m) => room d bits /\ m = count (bit_of relmap) k /\
      forall n, 0 <= n < bits -> bit_of d n = (n <? k) && F n)); [done|lia| | |].
    + split; [done|]. split; [done|]. intros n Hn'. rewrite Hz by done. by rewrite (proj2 (Z.ltb_ge _ _)) by lia.
    + intros i j [d' m] Hij Hj Hl (Hr' & -> & Hb). split; [done|]. split; [symmetry; apply count_gap; done || lia|].
      intros n Hn'. rewrite Hb by done. destruct (Z.ltb_spec n i), (Z.ltb_spec n j); try lia; [done|].
      unfold F. by rewrite Hl by lia.
    + intros i [d' m] Hi Hset (Hr' & -> & Hb). unfold onto_body.
      pose proof (count_bounds (bit_of relmap) i ltac:(lia)) as Hc.
      rewrite test_bit_ok, bind_ret by (apply Ho || (destruct Ho; lia)).
      assert (Hstep : forall d2, (forall n, 0 <= n -> bit_of d2 n = (n =? i) && F i || bit_of d' n) ->
        forall n, 0 <= n < bits -> bit_of d2 n = (n <? i + 1) && F n).
      { intros d2 Hd2 n Hn'. rewrite Hd2, Hb by lia. destruct (Z.eqb_spec n i), (Z.ltb_spec n i), (Z.ltb_spec n (i + 1));
          try lia; subst; simpl; rewrite ?orb_false_r; done. }
      assert (EF : F i = bit_of orig (count (bit_of relmap) i)) by (unfold F; by rewrite Hset).
      rewrite <- EF. assert (Ec : count (bit_of relmap) i + 1 = count (bit_of relmap) (i + 1)) by (rewrite count_S, Hset by lia; done).
      destruct (F i) eqn:E.
      * destruct (set_bit_room d' i bits Hr' Hi) as (d2 & -> & Hr2 & Hb2). rewrite bind_ret. simpl.
        split; [done|]. split; [done|]. apply Hstep. intros n Hn'. by rewrite Hb2, andb_true_r.
      * rewrite bind_ret. simpl. split; [done|]. split; [done|]. apply Hstep. intros n Hn'. by rewrite andb_false_r.
  - intros [d' m] (Hr' & _ & Hb). simpl. split; [done|]. intros n Hn'. rewrite Hb by done.
    by rewrite (proj2 (Z.ltb_lt n bits)) by lia.
Qed.

(** The map of [bitmap_remap] and [bitmap_bitremap]: the [n]-th bit of [old] goes to
    the bit number [n mod w] of [new], other bits to themselves. *)
Definition remapped (old new : bitmap) (nbits i r : Z) : Prop :=
  let w := count (bit_of new) nbits in
  if bit_of old i && (0 <? w) && (i <? nbits) then nth_bit (bit_of new) (count (bit_of old) i mod w) nbits r /\ r < nbits else r = i.

Lemma nth_exists P ord n r : nth_bit P ord n r -> ord < count P n -> r < n.
Proof. intros [[? _]|[-> ?]]; lia. Qed.

Lemma remapped_unique old new nbits i r r' : remapped old new nbits i r -> remapped old new nbits i r' -> r = r'.
Proof.
  unfold remapped. destruct (bit_of old i && _ && _); [|by intros -> ->].
  intros [H1 _] [H2 _]. by apply (nth_bit_unique _ _ _ _ _ H1).
Qed.
Lemma remapped_range old new nbits i r : remapped old new nbits i r -> 0 <= i < nbits -> 0 <= r < nbits.
Proof.
  unfold remapped. destruct (bit_of old i && _ && _); [|by intros ->].
  intros [[[? _]|[-> _]] ?] _; lia.
Qed.

Lemma bitremap_ok (old new : bitmap) oldbit bits :
  room old bits -> room new bits -> 0 <= bits < 2 ^ 31 -> 0 <= oldbit ->
  returns (bitmap_bitremap oldbit old new bits) (remapped old new bits oldbit).
Proof.
  intros Ho Hw Hn Hi. unfold bitmap_bitremap, bitmap_weight. rewrite weight_ok, bind_ret by done.
  rewrite pos_to_ord_ok, bind_ret by done. set (w := count (bit_of new) bits).
  pose proof (count_bounds (bit_of new) bits (proj1 Hn)) as Hwb. fold w in Hwb. unfold remapped. fold w.
  destruct (Z.ltb_spec oldbit bits) as [Hlt|Hge]; simpl; [|by rewrite andb_false_r].
  rewrite andb_true_r. pose proof (count_bounds (bit_of old) oldbit Hi) as Hc.
  destruct (bit_of old oldbit); simpl; [|done]. rewrite (proj2 (Z.ltb_ge _ 0)) by lia. simpl.
  destruct (Z.eqb_spec w 0) as [E|E].
  - rewrite E. simpl. done.
  - rewrite (proj2 (Z.ltb_lt 0 w)) by lia. rewrite Z.rem_mod_nonneg by lia.
    pose proof (Z.mod_pos_bound (count (bit_of old) oldbit) w ltac:(lia)) as Hm.
    apply (returns_mono _ _ _ (ord_to_pos_ok new _ bits Hw (proj1 Hm) Hn)).
    intros r Hr. split; [done|]. apply (nth_exists _ _ _ _ Hr). fold w. lia.
Qed.

Lemma remap_ok (dst src old new : bitmap) nbits :
  room dst nbits -> room src nbits -> room old nbits -> room new nbits -> 0 <= nbits < 2 ^ 31 ->
  returns (bitmap_remap dst src old new nbits) (fun dst' => room dst' nbits /\
    forall j, 0 <= j < nbits -> bit_of dst' j = true <->
      exists i, 0 <= i < nbits /\ bit_of src i = true /\ remapped old new nbits i j).
Proof.
  intros Hd Hs Ho Hw Hn. unfold bitmap_remap. destruct (zero_bits_ok dst nbits Hd (proj1 Hn)) as (d & -> & Hr & _ & Hz).
  rewrite bind_ret. unfold bitmap_weight. rewrite weight_ok, bind_ret by done.
  apply (for_each_set_bit_rule _ _ _ (fun k d => room d nbits /\ forall j, 0 <= j < nbits -> bit_of d j = true <->
    exists i, 0 <= i < k /\ bit_of src i = true /\ remapped old new nbits i j)); [done|lia| | |].
  - split; [done|]. intros j Hj. rewrite Hz by done. split; [done|]. intros (i & ? & _). lia.
  - intros i j d' Hij _ Hl [Hr' Him]. split; [done|]. intros k Hk. rewrite (Him k Hk).
    split; intros (l & H1 & H2 & H3); exists l; (split; [|done]); [lia|].
    destruct (Z.lt_ge_cases l i); [lia|]. rewrite Hl in H2 by lia. done.
  - intros i d' Hi Hb [Hr' Him].
    assert (Hstep : forall r, remapped old new nbits i r ->
      returns (set_bit r d') (fun d2 => room d2 nbits /\ forall j, 0 <= j < nbits -> bit_of d2 j = true <->
        exists l, 0 <= l < i + 1 /\ bit_of src l = true /\ remapped old new nbits l j)).
    { intros r Hrem. destruct (set_bit_room d' r nbits Hr' (remapped_range _ _ _ _ _ Hrem Hi)) as (d2 & -> & Hr2 & Hb2).
      simpl. split; [done|]. intros j Hj. rewrite Hb2, orb_true_iff, Z.eqb_eq, (Him j Hj) by lia. split.
      - intros [->|(l & H1 & H2)]; [exists i|exists l]; split; done || lia.
      - intros (l & H1 & H2 & H3). destruct (Z.eq_dec l i) as [->|]; [left; by apply (remapped_unique old new nbits i)|].
        right. exists l. split; [lia|done]. }
    pose proof (bitremap_ok old new i nbits Ho Hw Hn (proj1 Hi)) as Hmap.
    unfold bitmap_bitremap, bitmap_weight in Hmap. rewrite weight_ok, bind_ret in Hmap by done.
    unfold remap_body. destruct (bitmap_pos_to_ord old i nbits) as [n| | |]; simpl in Hmap |- *; try done.
    destruct ((n <? 0) || (count (bit_of new) nbits =? 0)); [by apply Hstep|].
    destruct (returns_inv _ _ Hmap) as (r & -> & Hrem). by apply Hstep.
Qed.

(** ** Shifts of bitmaps and aligned regions *)

Section shift.
Context (dst : bitmap) (src : operand) (shift nbits : Z).
Context (Hn : 0 <= nbits) (Hs : 0 <= shift <= nbits) (Hd : room dst nbits) (Ho : roomy src nbits).

Abbreviation lim := (BITS_TO_LONGS nbits).
Abbreviation off := (shift / 64).
Abbreviation rem := (shift mod 64).
Abbreviation s := (source dst src).

Lemma shift_bounds : off <= lim /\ nbits <= 64 * lim < nbits + 64 /\ 0 <= off /\ 0 <= rem < 64 /\ shift = 64 * off + rem /\
  lim <= len dst /\ lim <= len s /\ wf dst /\ wf s.
Proof.
  pose proof (bits_to_longs_bounds nbits Hn). destruct (div_mod_64 shift), (div_mod_64 nbits).
  pose proof (source_room dst src nbits Hd Ho) as Hr. pose proof (room_longs _ _ Hd Hn). pose proof (room_longs _ _ Hr Hn).
  split_and!; try lia; [apply Hd|apply Hr].
Qed.

(** Words of [a, b) have been written with [g]. *)
Definition written (g : Z -> Z) (a b : Z) (dst' : bitmap) : Prop :=
  wf dst' /\ length dst' = length dst /\
  forall j, 0 <= j -> wd dst' j = if (a <=? j) && (j <? b) then g j else wd dst j.

Lemma written_load g a b dst' k :
  written g a b dst' -> 0 <= k < lim -> ~ (a <= k < b) -> load dst' src k = Ret (wd s k).
Proof.
  intros (Hw & Hl & Hj) Hk Hout. pose proof shift_bounds as (_ & _ & _ & _ & _ & Hld & Hls & _ & _).
  unfold load. destruct src as [|m]; simpl in *.
  - rewrite rd_wd, Hj by lia. destruct (Z.leb_spec a k), (Z.ltb_spec k b); simpl; lia || done.
  - by rewrite rd_wd by lia.
Qed.

Lemma written_store g a b a' b' dst' k :
  written g a b dst' -> word (g k) -> 0 <= k < lim -> (forall j, a' <= j < b' <-> a <= j < b \/ j = k) ->
  exists d, wr dst' k (g k) = Ret d /\ written g a' b' d.
Proof.
  intros (Hw & Hl & Hj) Hg Hk Hab. pose proof shift_bounds as (_ & _ & _ & _ & _ & Hld & _).
  destruct (wr_wd dst' k (g k) Hw Hg) as (d & E & Hw' & Hl' & Hj'); [lia|]. exists d. split; [done|].
  split; [done|]. split; [lia|]. intros j Hj0. rewrite Hj', Hj by done. specialize (Hab j).
  destruct (Z.eqb_spec j k), (Z.leb_spec a j), (Z.ltb_spec j b), (Z.leb_spec a' j), (Z.ltb_spec j b'); simpl; try lia; try done; by subst.
Qed.

(** *** Right *)

(** The source cut at [nbits]. *)
Definition cut (k : Z) : Z :=
  if k <? lim then if k =? lim - 1 then Z.land (wd s k) (BITMAP_LAST_WORD_MASK nbits) else wd s k else 0.
Definition right_word (k : Z) : Z :=
  Z.lor (Z.shiftr (cut (off + k)) rem) (if rem =? 0 then 0 else u64 (Z.shiftl (cut (off + k + 1)) (64 - rem))).

Lemma cut_word k : word (cut k).
Proof.
  pose proof shift_bounds as (_ & _ & _ & _ & _ & _ & _ & _ & Hw). unfold cut.
  destruct (k <? lim); [|apply word_0]. destruct (k =? lim - 1); [|by apply wd_word].
  apply word_land; [by apply wd_word|apply word_last_mask].
Qed.

Lemma cut_bit i : 0 <= i -> Z.testbit (cut (i / 64)) (i mod 64) = (i <? nbits) && bit_of s i.
Proof.
  intros Hi. pose proof shift_bounds as (_ & Hl & _). destruct (div_mod_64 i) as [Di Mi], (div_mod_64 nbits) as [Dn Mn].
  unfold cut. pose proof (bits_to_longs_div nbits Hn) as EL.
  destruct (Z.ltb_spec (i / 64) lim) as [Hlt|Hge].
  2:{ rewrite Z.bits_0, (proj2 (Z.ltb_ge _ _)) by lia. done. }
  rewrite bit_wd. destruct (Z.eqb_spec (i / 64) (lim - 1)) as [E|Hne].
  - rewrite Z.land_spec. destruct (Z.eqb_spec (nbits mod 64) 0) as [E0|Hne0].
    + rewrite last_mask_bits, Z.mod_opp_l_z by (lia || done). rewrite (proj2 (Z.ltb_lt _ 64)), (proj2 (Z.ltb_lt i _)) by lia.
      by rewrite andb_true_r.
    + rewrite last_mask_tail by lia. rewrite andb_comm. f_equal.
      destruct (Z.ltb_spec (i mod 64) (nbits mod 64)), (Z.ltb_spec i nbits); lia || done.
  - rewrite (proj2 (Z.ltb_lt i nbits)) by lia. done.
Qed.

Lemma word_shiftr w n : word w -> 0 <= n -> word (Z.shiftr w n).
Proof.
  intros Hw Hn0. apply word_of_bits; [apply Z.shiftr_nonneg; apply Hw|]. intros j Hj.
  rewrite Z.shiftr_spec by lia. apply word_bits_above; [done|lia].
Qed.

Lemma right_word_word k : word (right_word k).
Proof.
  pose proof shift_bounds as (_ & _ & _ & Hr & _). apply word_lor; [apply word_shiftr; [apply cut_word|lia]|].
  destruct (rem =? 0); [apply word_0|apply word_u64].
Qed.

Lemma right_word_bit i : 0 <= i -> Z.testbit (right_word (i / 64)) (i mod 64) = (i + shift <? nbits) && bit_of s (i + shift).
Proof.
  intros Hi. pose proof shift_bounds as (_ & _ & Hoff & Hr & Es & _). destruct (div_mod_64 i) as [Di Mi].
  rewrite <- cut_bit by lia. unfold right_word. rewrite Z.lor_spec, Z.shiftr_spec by lia.
  destruct (Z.lt_ge_cases (i mod 64 + rem) 64) as [Hlo|Hhi].
  - assert (E1 : (i + shift) / 64 = off + i / 64) by (symmetry; apply Z.div_unique with (i mod 64 + rem); lia).
    assert (E2 : (i + shift) mod 64 = i mod 64 + rem) by (symmetry; apply Z.mod_unique with (off + i / 64); lia).
    rewrite E1, E2. destruct (Z.eqb_spec rem 0) as [E0|E0]; [by rewrite Z.bits_0, orb_false_r|].
    rewrite u64_bits, Z.shiftl_spec, (Z.testbit_neg_r _ (_ - _)) by lia. apply orb_false_r.
  - assert (E1 : (i + shift) / 64 = off + i / 64 + 1) by (symmetry; apply Z.div_unique with (i mod 64 + rem - 64); lia).
    assert (E2 : (i + shift) mod 64 = i mod 64 + rem - 64) by (symmetry; apply Z.mod_unique with (off + i / 64 + 1); lia).
    rewrite E1, E2, (word_bits_above (cut (off + i / 64))) by (apply cut_word || lia). rewrite (proj2 (Z.eqb_neq rem 0)) by lia.
    rewrite u64_bits, Z.shiftl_spec by lia. simpl. f_equal. lia.
Qed.

Lemma shift_right_ok :
  returns (__bitmap_shift_right dst src shift nbits) (fun dst' => wf dst' /\ length dst' = length dst /\
    forall i, 0 <= i -> bit_of dst' i =
      if i <? 64 * lim then (i + shift <? nbits) && bit_of s (i + shift) else bit_of dst i).
Proof.
  pose proof shift_bounds as (Hol & Hl & Hoff & Hr & Es & Hld & Hls & Hwd & Hws).
  unfold __bitmap_shift_right, BITS_PER_LONG.
  apply returns_bind with (P := written right_word 0 (lim - off)).
  - apply loop_returns with (m := fun '(_, k) => Z.to_nat (lim - off - k))
      (I := fun '(d, k) => 0 <= k <= lim - off /\ written right_word 0 k d).
    + split; [lia|]. split; [done|]. split; [done|]. intros j Hj. by rewrite (proj2 (Z.ltb_ge j 0)), andb_false_r by lia.
    + lia.
    + intros [d k] [Hk Hw]. unfold shift_right_turn. destruct (Z.ltb_spec (off + k) lim) as [Hlt|Hge].
      2:{ simpl. by replace (lim - off) with k by lia. }
      set (up := if rem =? 0 then 0 else u64 (Z.shiftl (cut (off + k + 1)) (64 - rem))).
      assert (Eup : (if (rem =? 0) || (lim <=? off + k + 1) then Ret 0
        else upper ← load d src (off + k + 1);
             Ret (u64 (Z.shiftl (if off + k + 1 =? lim - 1 then Z.land upper (BITMAP_LAST_WORD_MASK nbits) else upper) (BITS_PER_LONG - rem))))
        = Ret up).
      { unfold up. destruct (Z.eqb_spec rem 0) as [->|E0]; simpl; [done|]. destruct (Z.leb_spec lim (off + k + 1)) as [Hle|Hgt].
        - unfold cut. rewrite (proj2 (Z.ltb_ge _ _)), Z.shiftl_0_l by lia. done.
        - rewrite (written_load right_word 0 k), bind_ret by (done || lia). unfold cut.
          by rewrite (proj2 (Z.ltb_lt _ _)) by lia. }
      cbn zeta. rewrite Eup, bind_ret. rewrite (written_load right_word 0 k), bind_ret by (done || lia).
      assert (Elo : Z.lor (Z.shiftr (if off + k =? lim - 1 then Z.land (wd s (off + k)) (BITMAP_LAST_WORD_MASK nbits) else wd s (off + k)) rem) up
        = right_word k).
      { unfold right_word, up, cut at 2. by rewrite (proj2 (Z.ltb_lt (off + k) lim)) by lia. }
      rewrite Elo. destruct (written_store right_word 0 k 0 (k + 1) d k Hw (right_word_word k)) as (d' & -> & Hw'); [lia|lia|].
      simpl. split; [|lia]. split; [lia|done].
  - intros d (Hw & Hlen & Hj).
    assert (Hbits : forall d', wf d' -> length d' = length dst -> (forall j, 0 <= j -> wd d' j =
        if j <? lim - off then right_word j else if j <? lim then 0 else wd dst j) ->
      wf d' /\ length d' = length dst /\ forall i, 0 <= i -> bit_of d' i =
        if i <? 64 * lim then (i + shift <? nbits) && bit_of s (i + shift) else bit_of dst i).
    { intros d' Hw' Hl' Hj'. split; [done|]. split; [done|]. intros i Hi. destruct (div_mod_64 i). rewrite bit_wd, Hj' by lia.
      destruct (Z.ltb_spec (i / 64) (lim - off)), (Z.ltb_spec i (64 * lim)), (Z.ltb_spec (i / 64) lim); try lia.
      - by apply right_word_bit.
      - rewrite Z.bits_0, (proj2 (Z.ltb_ge _ _)) by lia. done.
      - by rewrite bit_wd. }
    destruct (Z.eqb_spec off 0) as [E0|E0]; cbn [negb].
    + apply Hbits; [done|done|]. intros j Hj0. rewrite Hj, E0, Z.sub_0_r by done. rewrite (proj2 (Z.leb_le 0 j)) by done. simpl.
      destruct (Z.ltb_spec j lim); [done|done].
    + destruct (fill_wd d (lim - off) off 0 Hw word_0) as (d' & -> & Hw' & Hl' & Hj'); [lia..|]. simpl.
      apply Hbits; [done|lia|]. intros j Hj0. rewrite Hj', Hj by done. rewrite (proj2 (Z.leb_le 0 j)) by done. simpl.
      destruct (Z.leb_spec (lim - off) j), (Z.ltb_spec j (lim - off)), (Z.ltb_spec j (lim - off + off)), (Z.ltb_spec j lim); simpl; lia || done.
Qed.
(** *** Left *)

Definition left_word (j : Z) : Z :=
  Z.lor (if negb (rem =? 0) && (0 <? j - off) then Z.shiftr (wd s (j - off - 1)) (64 - rem) else 0)
    (u64 (Z.shiftl (wd s (j - off)) rem)).

Lemma left_word_word j : word (left_word j).
Proof.
  pose proof shift_bounds as (_ & _ & _ & Hr & _ & _ & _ & _ & Hw). apply word_lor; [|apply word_u64].
  destruct (negb (rem =? 0) && (0 <? j - off)); [|apply word_0]. apply word_shiftr; [by apply wd_word|lia].
Qed.

Lemma left_word_bit i : 64 * off <= i ->
  Z.testbit (left_word (i / 64)) (i mod 64) = (shift <=? i) && bit_of s (i - shift).
Proof.
  intros Hi. pose proof shift_bounds as (_ & _ & Hoff & Hr & Es & _ & _ & _ & Hw). destruct (div_mod_64 i) as [Di Mi].
  unfold left_word. rewrite Z.lor_spec, u64_bits, Z.shiftl_spec by lia.
  destruct (Z.lt_ge_cases (i mod 64) rem) as [Hlo|Hhi].
  - rewrite (Z.testbit_neg_r (wd _ _)), orb_false_r, (proj2 (Z.eqb_neq rem 0)) by lia. cbn [negb andb].
    destruct (Z.ltb_spec 0 (i / 64 - off)), (Z.leb_spec shift i); try lia; [|apply Z.bits_0].
    assert (E1 : (i - shift) / 64 = i / 64 - off - 1) by (symmetry; apply Z.div_unique with (i mod 64 + 64 - rem); lia).
    assert (E2 : (i - shift) mod 64 = i mod 64 + 64 - rem) by (symmetry; apply Z.mod_unique with (i / 64 - off - 1); lia).
    rewrite bit_wd, E1, E2, Z.shiftr_spec by lia. cbn [andb]. f_equal. lia.
  - assert (E1 : (i - shift) / 64 = i / 64 - off) by (symmetry; apply Z.div_unique with (i mod 64 - rem); lia).
    assert (E2 : (i - shift) mod 64 = i mod 64 - rem) by (symmetry; apply Z.mod_unique with (i / 64 - off); lia).
    rewrite bit_wd, E1, E2, (proj2 (Z.leb_le shift i)) by lia.
    destruct (negb (rem =? 0) && (0 <? i / 64 - off)); [|by rewrite Z.bits_0].
    rewrite Z.shiftr_spec, (word_bits_above _ (i mod 64 + (64 - rem))) by (lia || by apply wd_word). done.
Qed.

Lemma left_loop_ok :
  returns (loop (Z.to_nat lim + 1) (shift_left_turn src off rem) (dst, lim - off - 1)) (written left_word off lim).
Proof.
  pose proof shift_bounds as (Hol & Hl & Hoff & Hr & Es & Hld & Hls & Hwd & Hws).
  apply loop_returns with (m := fun '(_, k) => Z.to_nat (k + 1))
    (I := fun '(d, k) => -1 <= k <= lim - off - 1 /\ written left_word (k + off + 1) lim d).
  - split; [lia|]. split; [done|]. split; [done|]. intros j Hj.
    destruct (Z.leb_spec (lim - off - 1 + off + 1) j), (Z.ltb_spec j lim); simpl; lia || done.
  - lia.
  - intros [d k] [Hk Hw]. unfold shift_left_turn. destruct (Z.leb_spec 0 k) as [H0|H0].
    2:{ simpl. by replace off with (k + off + 1) at 1 by lia. }
    assert (Elo : (if negb (rem =? 0) && (0 <? k)
        then w ← load d src (k - 1); Ret (Z.shiftr w (BITS_PER_LONG - rem)) else Ret 0)
      = Ret (if negb (rem =? 0) && (0 <? k) then Z.shiftr (wd s (k - 1)) (64 - rem) else 0)).
    { destruct (negb (rem =? 0)); [|done]. destruct (Z.ltb_spec 0 k); [|done]. simpl andb. cbn iota.
      by rewrite (written_load left_word (k + off + 1) lim) by (done || lia). }
    rewrite Elo, bind_ret. rewrite (written_load left_word (k + off + 1) lim), bind_ret by (done || lia).
    assert (E : Z.lor (if negb (rem =? 0) && (0 <? k) then Z.shiftr (wd s (k - 1)) (64 - rem) else 0)
        (u64 (Z.shiftl (wd s k) rem)) = left_word (k + off)).
    { unfold left_word. by rewrite Z.add_simpl_r. }
    cbn zeta. rewrite E.
    destruct (written_store left_word (k + off + 1) lim (k - 1 + off + 1) lim d (k + off) Hw (left_word_word _))
      as (d' & -> & Hw'); [lia|lia|]. simpl. split; [|lia]. split; [lia|done].
Qed.

Lemma shift_left_ok :
  returns (__bitmap_shift_left dst src shift nbits) (fun dst' => wf dst' /\ length dst' = length dst /\
    forall i, 0 <= i -> bit_of dst' i =
      if i <? 64 * lim then (shift <=? i) && bit_of s (i - shift) else bit_of dst i).
Proof.
  pose proof shift_bounds as (Hol & Hl & Hoff & Hr & Es & Hld & Hls & Hwd & Hws).
  unfold __bitmap_shift_left, BITS_PER_LONG. apply returns_bind with (1 := left_loop_ok).
  intros d (Hw & Hlen & Hj).
  assert (Hbits : forall d', wf d' -> length d' = length dst -> (forall j, 0 <= j -> wd d' j =
      if j <? off then 0 else if j <? lim then left_word j else wd dst j) ->
    wf d' /\ length d' = length dst /\ forall i, 0 <= i -> bit_of d' i =
      if i <? 64 * lim then (shift <=? i) && bit_of s (i - shift) else bit_of dst i).
  { intros d' Hw' Hl' Hj'. split; [done|]. split; [done|]. intros i Hi. destruct (div_mod_64 i). rewrite bit_wd, Hj' by lia.
    destruct (Z.ltb_spec (i / 64) off), (Z.ltb_spec i (64 * lim)), (Z.ltb_spec (i / 64) lim); try lia.
    - by rewrite Z.bits_0, (proj2 (Z.leb_gt _ _)) by lia.
    - apply left_word_bit. lia.
    - by rewrite bit_wd. }
  destruct (Z.eqb_spec off 0) as [E0|E0]; cbn [negb].
  - apply Hbits; [done|done|]. intros j Hj0. rewrite Hj by done.
    destruct (Z.ltb_spec j off), (Z.leb_spec off j), (Z.ltb_spec j lim); simpl; lia || done.
  - destruct (fill_wd d 0 off 0 Hw word_0) as (d' & -> & Hw' & Hl' & Hj'); [lia..|]. simpl.
    apply Hbits; [done|lia|]. intros j Hj0. rewrite Hj', Hj, Z.add_0_l by done. rewrite (proj2 (Z.leb_le 0 j)) by done.
    destruct (Z.ltb_spec j off), (Z.leb_spec off j), (Z.ltb_spec j lim); simpl; lia || done.
Qed.
End shift.

(** ** Aligned regions of a bitmap

    [__reg_op] works on a region of 2^order bits at a multiple of 2^order: below
    order 6 the region is inside one word, from order 6 on it is whole words. *)

(** All the bits of [a, b) are clear. *)
Definition clear_run (m : bitmap) (a b : Z) : Prop := forall i, a <= i < b -> bit_of m i = false.

Lemma wd_ext m1 m2 : length m1 = length m2 -> (forall k, 0 <= k < len m1 -> wd m1 k = wd m2 k) -> m1 = m2.
Proof.
  intros Hl Hk. apply list_eq_same_length with (length m1); [done|done|]. intros i x y Hi E1 E2.
  specialize (Hk (Z.of_nat i) ltac:(lia)). unfold wd in Hk. rewrite Nat2Z.id, E1, E2 in Hk. exact Hk.
Qed.

Lemma bit_ext m1 m2 : wf m1 -> wf m2 -> length m1 = length m2 -> (forall i, 0 <= i -> bit_of m1 i = bit_of m2 i) -> m1 = m2.
Proof.
  intros H1 H2 Hl Hb. apply wd_ext; [done|]. intros k Hk. apply Z.bits_inj'. intros j Hj0.
  destruct (Z.lt_ge_cases j 64); [assert (Hj : 0 <= j < 64) by lia|by rewrite !word_bits_above by (done || by apply wd_word)].
  specialize (Hb (64 * k + j) ltac:(lia)). rewrite !bit_wd in Hb.
  assert (Ek : (64 * k + j) / 64 = k) by (symmetry; apply Z.div_unique with j; lia).
  assert (Ej : (64 * k + j) mod 64 = j) by (symmetry; apply Z.mod_unique with k; lia).
  by rewrite Ek, Ej in Hb.
Qed.

Definition reg_mask (pos order : Z) : Z :=
  let mask := u64 (Z.shiftl 1 (Z.min (Z.shiftl 1 order) BITS_PER_LONG - 1)) in
  u64 (Z.shiftl (u64 (mask + u64 (mask - 1))) (pos - pos / BITS_PER_LONG * BITS_PER_LONG)).

Section region.
Context (map : bitmap) (pos order : Z).
Context (Ho : 0 <= order <= 30) (Hp : 0 <= pos) (Ha : (2 ^ order | pos)) (Hroom : room map (pos + 2 ^ order)).

Abbreviation nlongs := (BITS_TO_LONGS (Z.shiftl 1 order)).
Abbreviation index := (pos / 64).
Abbreviation mask := (reg_mask pos order).

Lemma mask_of_order : let m := u64 (Z.shiftl 1 (Z.min (Z.shiftl 1 order) BITS_PER_LONG - 1)) in
  u64 (m + u64 (m - 1)) = Z.ones (Z.min (2 ^ order) 64).
Proof.
  cbn zeta. rewrite (Z.shiftl_1_l order). assert (Hc : order = 0 \/ order = 1 \/ order = 2 \/ order = 3 \/ order = 4 \/ order = 5 \/ 6 <= order) by lia.
  destruct Hc as [E|[E|[E|[E|[E|[E|E]]]]]]; [rewrite E; done..|].
  pose proof (Z.pow_le_mono_r 2 6 order ltac:(lia) E) as Hle. change (2 ^ 6) with 64 in Hle. unfold BITS_PER_LONG. by rewrite Z.min_r by lia.
Qed.

Lemma reg_mask_bits j : 0 <= j < 64 -> Z.testbit mask j = (pos mod 64 <=? j) && (j <? pos mod 64 + Z.min (2 ^ order) 64).
Proof.
  intros Hj. unfold reg_mask. pose proof mask_of_order as E. cbn zeta in E |- *. rewrite E. clear E. pose proof (Z.pow_pos_nonneg 2 order ltac:(lia) ltac:(lia)).
  unfold BITS_PER_LONG. destruct (div_mod_64 pos) as [D M]. replace (pos - index * 64) with (pos mod 64) by lia.
  rewrite u64_bits, Z.shiftl_spec by lia. destruct (Z.leb_spec (pos mod 64) j).
  - rewrite Z.testbit_ones_nonneg by lia. simpl. destruct (Z.ltb_spec (j - pos mod 64) (Z.min (2 ^ order) 64)), (Z.ltb_spec j (pos mod 64 + Z.min (2 ^ order) 64)); lia || done.
  - by rewrite Z.testbit_neg_r by lia.
Qed.

(** The words and the mask are the region. *)
Lemma reg_shape i : 0 <= i ->
  (index <=? i / 64) && (i / 64 <? index + nlongs) && Z.testbit mask (i mod 64) = (pos <=? i) && (i <? pos + 2 ^ order).
Proof.
  intros Hi. destruct (div_mod_64 pos) as [D M], (div_mod_64 i) as [Di Mi]. rewrite reg_mask_bits by done. rewrite Z.shiftl_1_l.
  pose proof (bits_to_longs_bounds (2 ^ order) ltac:(apply Z.pow_nonneg; lia)) as Hl. destruct Ha as [q Hq].
  assert (Hc : order = 0 \/ order = 1 \/ order = 2 \/ order = 3 \/ order = 4 \/ order = 5 \/ 6 <= order) by lia.
  assert (Hcase : pos mod 64 + 2 ^ order <= 64 /\ 0 < 2 ^ order <= 64 /\ BITS_TO_LONGS (2 ^ order) = 1
    \/ pos mod 64 = 0 /\ 2 ^ order = 64 * BITS_TO_LONGS (2 ^ order)).
  { destruct Hc as [E|[E|[E|[E|[E|[E|E]]]]]]; [left; rewrite E in *; simpl in *; lia..|right].
    replace order with (6 + (order - 6)) in * by lia. rewrite Z.pow_add_r in * by lia. change (2 ^ 6) with 64 in *.
    set (N := 2 ^ (order - 6)) in *. assert (Hq' : pos = 64 * (q * N)) by lia. set (t := q * N) in *. lia. }
  destruct (Z.leb_spec index (i / 64)), (Z.ltb_spec (i / 64) (index + BITS_TO_LONGS (2 ^ order))), (Z.leb_spec (pos mod 64) (i mod 64)),
    (Z.ltb_spec (i mod 64) (pos mod 64 + Z.min (2 ^ order) 64)), (Z.leb_spec pos i), (Z.ltb_spec i (pos + 2 ^ order)); simpl; lia || done.
Qed.

Lemma word_reg_mask : word mask.
Proof. apply word_u64. Qed.

Lemma reg_bounds : 0 < nlongs /\ index + nlongs <= len map /\ 0 <= index.
Proof.
  destruct Hroom as [_ Hr]. rewrite Z.shiftl_1_l in *. pose proof (Z.pow_pos_nonneg 2 order ltac:(lia) ltac:(lia)).
  pose proof (bits_to_longs_bounds (2 ^ order) ltac:(lia)) as Hl. destruct (div_mod_64 pos) as [D M].
  pose proof (reg_shape (64 * (index + BITS_TO_LONGS (2 ^ order) - 1) + pos mod 64) ltac:(lia)) as Hs.
  assert (Ek : (64 * (index + BITS_TO_LONGS (2 ^ order) - 1) + pos mod 64) / 64 = index + BITS_TO_LONGS (2 ^ order) - 1)
    by (symmetry; apply Z.div_unique with (pos mod 64); lia).
  assert (Ej : (64 * (index + BITS_TO_LONGS (2 ^ order) - 1) + pos mod 64) mod 64 = pos mod 64)
    by (symmetry; apply Z.mod_unique with (index + BITS_TO_LONGS (2 ^ order) - 1); lia).
  rewrite Ek, Ej, reg_mask_bits, Z.shiftl_1_l in Hs by lia.
  rewrite (proj2 (Z.leb_le index _)), (proj2 (Z.ltb_lt _ (index + _))), (proj2 (Z.leb_le (pos mod 64) _)), (proj2 (Z.ltb_lt (pos mod 64) _)) in Hs by lia.
  symmetry in Hs. simpl in Hs. apply andb_true_iff in Hs as [_ Hs%Z.ltb_lt]. lia.
Qed.

Lemma reg_write_ok op f v :
  masked f v -> (op = REG_OP_ALLOC /\ f = Z.lor \/ op = REG_OP_RELEASE /\ f = andnot) ->
  returns (__reg_op map pos order op) (fun '(r, map') => r = 0 /\ wf map' /\ length map' = length map /\
    run_set v map map' pos (pos + 2 ^ order)).
Proof.
  intros Hf Hop. destruct reg_bounds as (Hn & Hlen & Hidx). unfold __reg_op. fold (reg_mask pos order). unfold BITS_PER_LONG.
  apply loop_returns with (m := fun '(_, i) => Z.to_nat (nlongs - i))
    (I := fun '(m, i) => 0 <= i <= nlongs /\ wf m /\ length m = length map /\
       forall j, 0 <= j -> wd m j = if (index <=? j) && (j <? index + i) then f (wd map j) mask else wd map j).
  - split; [lia|]. split; [apply Hroom|]. split; [done|]. intros j Hj.
    destruct (Z.leb_spec index j), (Z.ltb_spec j (index + 0)); simpl; lia || done.
  - lia.
  - intros [m i] (Hi & Hw & Hl & Hj). unfold reg_turn. destruct (Z.ltb_spec i nlongs) as [Hlt|Hge].
    + assert (Hm : exists m', modify m (index + i) (fun w => f w mask) = Ret m' /\ wf m' /\ length m' = length m /\
        forall j, 0 <= j -> wd m' j = if j =? index + i then f (wd m (index + i)) mask else wd m j).
      { apply modify_wd; [done| |lia]. intros w Hww. by apply Hf, word_reg_mask. }
      destruct Hm as (m' & E & Hw' & Hl' & Hj').
      assert (Hn' : forall j, 0 <= j -> wd m' j = if (index <=? j) && (j <? index + (i + 1)) then f (wd map j) mask else wd map j).
      { intros j Hj0. rewrite Hj', (Hj j), (Hj (index + i)) by lia. rewrite (proj2 (Z.ltb_ge (index + i) _)), andb_false_r by lia.
        destruct (Z.eqb_spec j (index + i)), (Z.leb_spec index j), (Z.ltb_spec j (index + i)), (Z.ltb_spec j (index + (i + 1))); simpl; try lia; try done; by subst. }
      destruct Hop as [[-> ->]|[-> ->]]; unfold andnot in E; rewrite E; simpl; (split; [|lia]); split_and!; (lia || done).
    + assert (E : i = nlongs) by lia. subst i. assert (Hres : 0 = 0 /\ wf m /\ length m = length map /\ run_set v map m pos (pos + 2 ^ order)).
      { split; [done|]. split; [done|]. split; [done|]. intros i Hi0. destruct (div_mod_64 i) as [Di Mi].
        rewrite <- reg_shape, bit_wd, Hj by lia. destruct ((index <=? i / 64) && (i / 64 <? index + nlongs)); simpl; [|by rewrite bit_wd].
        destruct (Hf (wd map (i / 64)) mask (wd_word _ _ (proj1 Hroom)) word_reg_mask) as [_ Hb]. rewrite Hb, bit_wd by done. done. }
      destruct Hop as [[-> _]|[-> _]]; exact Hres.
Qed.

Lemma reg_free_ok :
  returns (__reg_op map pos order REG_OP_ISFREE) (fun '(r, map') => map' = map /\
    (r = 1 /\ clear_run map pos (pos + 2 ^ order) \/ r = 0 /\ ~ clear_run map pos (pos + 2 ^ order))).
Proof.
  destruct reg_bounds as (Hn & Hlen & Hidx). unfold __reg_op. fold (reg_mask pos order). unfold BITS_PER_LONG.
  apply loop_returns with (m := fun '(_, i) => Z.to_nat (nlongs - i))
    (I := fun '(m, i) => 0 <= i <= nlongs /\ m = map /\ forall k, index <= k < index + i -> Z.land (wd map k) mask = 0).
  - split; [lia|]. split; [done|]. intros k Hk. lia.
  - lia.
  - intros [m i] (Hi & -> & Hk). unfold reg_turn. destruct (Z.ltb_spec i nlongs) as [Hlt|Hge].
    + rewrite rd_wd, bind_ret by lia. destruct (Z.eqb_spec (Z.land (wd map (index + i)) mask) 0) as [E|E]; cbn [negb]; simpl.
      * split; [|lia]. split; [lia|]. split; [done|]. intros k Hk'. destruct (Z.eq_dec k (index + i)) as [->|]; [done|]. apply Hk. lia.
      * split; [done|]. right. split; [done|]. intros Hclear. apply E.
        apply word_zero_bits; [apply word_land; [apply wd_word, Hroom|apply word_reg_mask]|]. intros j Hj.
        assert (Ek : (64 * (index + i) + j) / 64 = index + i) by (symmetry; apply Z.div_unique with j; lia).
        assert (Ej : (64 * (index + i) + j) mod 64 = j) by (symmetry; apply Z.mod_unique with (index + i); lia).
        pose proof (reg_shape (64 * (index + i) + j) ltac:(lia)) as Hs. rewrite Ek, Ej in Hs.
        rewrite (proj2 (Z.leb_le index _)), (proj2 (Z.ltb_lt _ (index + _))) in Hs by lia. simpl in Hs.
        rewrite Z.land_spec, Hs. destruct (Z.leb_spec pos (64 * (index + i) + j)), (Z.ltb_spec (64 * (index + i) + j) (pos + 2 ^ order)); simpl; rewrite ?andb_false_r, ?andb_true_r; try done.
        pose proof (Hclear (64 * (index + i) + j) ltac:(lia)) as Hb. by rewrite bit_wd, Ek, Ej in Hb.
    + simpl. split; [done|]. left. split; [done|]. intros j Hj. destruct (div_mod_64 j) as [Dj Mj].
      pose proof (reg_shape j ltac:(lia)) as Hs. rewrite (proj2 (Z.leb_le pos j)), (proj2 (Z.ltb_lt j _)) in Hs by lia.
      apply andb_true_iff in Hs as [[H1%Z.leb_le H2%Z.ltb_lt]%andb_true_iff H3].
      pose proof (f_equal (fun w => Z.testbit w (j mod 64)) (Hk (j / 64) ltac:(lia))) as E. simpl in E.
      by rewrite Z.land_spec, H3, andb_true_r, Z.bits_0, <- bit_wd in E.
Qed.
End region.

(** ** The search *)

(** [pos] is the place of a free aligned region of the first [bits] bits. *)
Definition free_region (map : bitmap) (bits order pos : Z) : Prop :=
  0 <= pos /\ (2 ^ order | pos) /\ pos + 2 ^ order <= bits /\ clear_run map pos (pos + 2 ^ order).

Definition found_region (map : bitmap) (bits order r : Z) (map' : bitmap) : Prop :=
  if r <? 0 then r = - ENOMEM /\ map' = map /\ forall p, ~ free_region map bits order p
  else free_region map bits order r /\ (forall p, free_region map bits order p -> r <= p) /\
    wf map' /\ length map' = length map /\ run_set true map map' r (r + 2 ^ order).

Lemma room_le m a b : room m b -> a <= b -> room m a.
Proof. intros [Hw Hl] Hab. split; [done|lia]. Qed.

Lemma find_region_ok map bits order :
  0 <= order <= 30 -> 0 <= bits < 2 ^ 31 -> room map bits ->
  returns (bitmap_find_free_region map bits order) (fun '(r, map') => found_region map bits order r map').
Proof.
  intros Ho Hb Hr. unfold bitmap_find_free_region. rewrite Z.shiftl_1_l.
  pose proof (Z.pow_pos_nonneg 2 order ltac:(lia) ltac:(lia)) as Hpos.
  assert (Hsm : 2 ^ order <= 2 ^ 30) by (apply Z.pow_le_mono_r; lia).
  pose proof (Z.div_mod bits (2 ^ order) ltac:(lia)) as Db. pose proof (Z.mod_pos_bound bits (2 ^ order) ltac:(lia)) as Mb.
  apply loop_returns with (m := fun pos => Z.to_nat (bits / 2 ^ order - pos / 2 ^ order))
    (I := fun pos => 0 <= pos <= bits /\ (2 ^ order | pos) /\ forall p, free_region map bits order p -> pos <= p).
  - split; [lia|]. split; [apply Z.divide_0_r|]. by intros p [? _].
  - rewrite Z.div_0_l by lia. lia.
  - intros pos (Hp & Hd & Hleast). unfold find_region_turn. rewrite Z.shiftl_1_l, !(u32_small (2 ^ order)), u32_small by lia.
    destruct (Z.leb_spec (pos + 2 ^ order) bits) as [Hle|Hgt].
    2:{ simpl. split; [done|]. split; [done|]. intros p Hf. specialize (Hleast p Hf). destruct Hf as (? & ? & ? & _). lia. }
    pose proof (room_le map _ _ Hr Hle) as Hroom.
    apply returns_bind with (1 := reg_free_ok map pos order Ho (proj1 Hp) Hd Hroom).
    intros [r map'] [-> [[-> Hc]|[-> Hc]]]; simpl.
    + apply returns_bind with (1 := reg_write_ok map pos order Ho (proj1 Hp) Hd Hroom REG_OP_ALLOC Z.lor true masked_set (or_introl (conj eq_refl eq_refl))).
      intros [r map'] (_ & Hw & Hl & Hs). simpl. unfold found_region. rewrite (proj2 (Z.ltb_ge pos 0)) by lia. split; [by split_and!; [lia|..]|by split_and!].
    + destruct Hd as [q ->]. split; [split; [lia|split]|].
      * exists (q + 1). lia.
      * intros p Hf. pose proof (Hleast p Hf). destruct Hf as (? & [q' ->] & ? & Hc').
        assert (q <= q') by nia. destruct (Z.eq_dec q q') as [->|]; [done|]. nia.
      * replace (q * 2 ^ order + 2 ^ order) with ((q + 1) * 2 ^ order) by lia. rewrite !Z.div_mul by lia. nia.
Qed.

Lemma allocate_region_ok map pos order :
  0 <= order <= 30 -> 0 <= pos -> (2 ^ order | pos) -> room map (pos + 2 ^ order) ->
  returns (bitmap_allocate_region map pos order) (fun '(r, map') =>
    r = 0 /\ clear_run map pos (pos + 2 ^ order) /\ wf map' /\ length map' = length map /\ run_set true map map' pos (pos + 2 ^ order)
    \/ r = - EBUSY /\ ~ clear_run map pos (pos + 2 ^ order) /\ map' = map).
Proof.
  intros Ho Hp Hd Hr. unfold bitmap_allocate_region. apply returns_bind with (1 := reg_free_ok map pos order Ho Hp Hd Hr).
  intros [r map'] [-> [[-> Hc]|[-> Hc]]]; simpl; [|by right].
  apply returns_mono with (1 := reg_write_ok map pos order Ho Hp Hd Hr REG_OP_ALLOC Z.lor true masked_set (or_introl (conj eq_refl eq_refl))).
  intros [r map'] (-> & Hw & Hl & Hs). left. by split_and!.
Qed.

Lemma release_region_ok map pos order :
  0 <= order <= 30 -> 0 <= pos -> (2 ^ order | pos) -> room map (pos + 2 ^ order) ->
  returns (bitmap_release_region map pos order) (fun map' =>
    wf map' /\ length map' = length map /\ run_set false map map' pos (pos + 2 ^ order)).
Proof.
  intros Ho Hp Hd Hr. unfold bitmap_release_region.
  apply returns_bind with (1 := reg_write_ok map pos order Ho Hp Hd Hr REG_OP_RELEASE andnot false masked_clear (or_intror (conj eq_refl eq_refl))).
  intros [r map'] (_ & H). exact H.
Qed.

(** A release undoes the write of the region, word for word. *)
Lemma release_undoes map map' pos order :
  0 <= order <= 30 -> 0 <= pos -> (2 ^ order | pos) -> room map (pos + 2 ^ order) -> clear_run map pos (pos + 2 ^ order) ->
  wf map' -> length map' = length map -> run_set true map map' pos (pos + 2 ^ order) ->
  bitmap_release_region map' pos order = Ret map.
Proof.
  intros Ho Hp Hd Hr Hc Hw Hl Hs. assert (Hr' : room map' (pos + 2 ^ order)) by (split; [done|rewrite Hl; apply Hr]).
  destruct (returns_inv _ _ (release_region_ok map' pos order Ho Hp Hd Hr')) as (m & -> & Hwm & Hlm & Hsm).
  f_equal. apply bit_ext; [done|apply Hr|lia|]. intros i Hi. rewrite Hsm, Hs by done.
  destruct (Z.leb_spec pos i), (Z.ltb_spec i (pos + 2 ^ order)); simpl; try done. symmetry. apply Hc. lia.
Qed.
