(* ===== verification/BitmapSpec.v ===== *)
(** * What the bitmap operations promise *)
From stdpp Require Import base numbers list option.
From Stdlib Require Import ZArith Lia.
From S2P Require Import Prelude Bitmap BitmapFacts BitmapOpsFacts BitmapMaps.

Lemma searches_ok (map map2 : bitmap) (size offset : Z)
  (Hmap : room map size) (Hmap2 : room map2 size) (Hoff : 0 <= offset <= size) (Hsize : size < 2 ^ 63) :
  returns (find_next_bit map size offset) (least (bit_of map) offset size) /\
  returns (find_next_zero_bit map size offset) (least (fun i => negb (bit_of map i)) offset size) /\
  returns (find_next_and_bit map map2 size offset) (least (fun i => bit_of map i && bit_of map2 i) offset size) /\
  returns (find_first_bit map size) (least (bit_of map) 0 size) /\
  returns (find_first_zero_bit map size) (least (fun i => negb (bit_of map i)) 0 size) /\
  returns (find_last_bit map size) (greatest (bit_of map) size).
Proof.
  destruct (find_next_bit_ok map size offset Hmap ltac:(lia) Hsize) as (r1 & -> & _ & H1).
  destruct (find_next_zero_bit_ok map size offset Hmap ltac:(lia) Hsize) as (r2 & -> & _ & H2).
  destruct (find_next_and_bit_ok map map2 size offset Hmap Hmap2 ltac:(lia) Hsize) as (r3 & -> & _ & H3).
  split; [apply H1; lia|]. split; [apply H2; lia|]. split; [apply H3; lia|].
  split; [apply find_first_bit_ok; done || lia|]. split; [apply find_first_zero_bit_ok; done || lia|].
  apply find_last_bit_ok; done || lia.
Qed.

(** C7: the searches of find_bit.c read only words of the maps they are given and
    return the least set (clear, common) bit at or after the offset, or the size
    when there is none; [find_last_bit] returns the greatest set bit below the
    size, or the size.  [__bitmap_set] and [__bitmap_clear] write exactly the bits
    of their range: every bit of the range gets the value, every other bit of the
    map keeps its own, and no word outside the map is touched. *)
Theorem find_bit_spec :
  (forall map map2 size offset,
    room map size -> room map2 size -> 0 <= offset <= size -> size < 2 ^ 63 ->
    returns (find_next_bit map size offset) (least (bit_of map) offset size) /\
    returns (find_next_zero_bit map size offset) (least (fun i => negb (bit_of map i)) offset size) /\
    returns (find_next_and_bit map map2 size offset) (least (fun i => bit_of map i && bit_of map2 i) offset size) /\
    returns (find_first_bit map size) (least (bit_of map) 0 size) /\
    returns (find_first_zero_bit map size) (least (fun i => negb (bit_of map i)) 0 size) /\
    returns (find_last_bit map size) (greatest (bit_of map) size)) /\
  (forall map start len,
    0 <= start -> 0 <= len -> room map (start + len) -> start + len < 2 ^ 31 ->
    returns (__bitmap_set map start len) (fun map' =>
      wf map' /\ length map' = length map /\ run_set true map map' start (start + len)) /\
    returns (__bitmap_clear map start len) (fun map' =>
      wf map' /\ length map' = length map /\ run_set false map map' start (start + len))).
Proof.
  split; [exact searches_ok|]. intros. split; apply bitmap_run_ok; auto using masked_set, masked_clear.
Qed.

Lemma find_bit_spec_witness :
  returns (find_next_bit [0; 2 ^ 63] 128 3) (least (bit_of [0; 2 ^ 63]) 3 128) /\
  find_next_bit [0; 2 ^ 63] 127 3 = Ret 127 /\
  __bitmap_set [0; 0; 1] 60 72 = Ret [Z.shiftl 15 60; ULLONG_MAX; 15] /\
  returns (__bitmap_set [0; 0; 1] 60 72) (fun map' => length map' = 3%nat).
Proof.
  split; [|split; [reflexivity|split; [reflexivity|]]].
  - assert (Hr : room [0; 2 ^ 63] 128) by (by apply (bool_decide_unpack _); vm_compute).
    exact (proj1 (proj1 find_bit_spec [0; 2 ^ 63] [0; 2 ^ 63] 128 3 Hr Hr ltac:(lia) ltac:(lia))).
  - apply (returns_mono _ _ _ (proj1 (proj2 find_bit_spec [0; 0; 1] 60 72 ltac:(lia) ltac:(lia)
      ltac:(by apply (bool_decide_unpack _); vm_compute) ltac:(lia)))).
    intros map' (_ & E & _). exact E.
Defined.

(** C8: [bitmap_find_next_zero_area_off] is sound and complete: the index it
    returns starts the least run of [nr] clear bits at or after [start], inside
    the map and aligned after the offset is added; when it returns an index whose
    run would end past the size there is no such run. *)
Theorem zero_area_spec (map : bitmap) (size start nr k off : Z)
  (Hmap : room map size) (Hsize : 0 <= size < 2 ^ 63) (Hstart : 0 <= start) (Hnr : 0 < nr) (Hoff : 0 <= off)
  (Hk : 0 <= k < 64) (Hov : size + off + 2 ^ k + nr < 2 ^ 64) :
  returns (bitmap_find_next_zero_area_off map size start nr (2 ^ k - 1) off)
    (zero_area_result map start size nr (2 ^ k) off).
Proof. apply zero_area_ok; done || lia. Qed.

Lemma zero_area_spec_witness :
  bitmap_find_next_zero_area_off [Z.shiftl 31 2; 0] 128 1 5 3 1 = Ret 7 /\
  returns (bitmap_find_next_zero_area_off [Z.shiftl 31 2; 0] 128 1 5 (2 ^ 2 - 1) 1)
    (zero_area_result [Z.shiftl 31 2; 0] 1 128 5 (2 ^ 2) 1).
Proof.
  split; [reflexivity|].
  apply zero_area_spec; [by apply (bool_decide_unpack _); vm_compute|lia..].
Defined.

(** Two maps agree below [n] when no bit differs. *)
Lemma some_bit_negb bits r P : some_bit bits r P -> (negb r = true <-> forall i, 0 <= i < bits -> P i = false).
Proof. unfold some_bit. rewrite negb_true_iff. tauto. Qed.

Lemma some_bit_true bits r P : some_bit bits r P -> r = true <-> exists i, 0 <= i < bits /\ P i = true.
Proof.
  intros H. unfold some_bit in H. split.
  - intros ->. assert (Hn : forall n : nat, (forall i, 0 <= i < Z.of_nat n -> P i = false) \/ exists i, 0 <= i < Z.of_nat n /\ P i = true).
    { induction n as [|n [IH|(i & ? & ?)]]; [left; lia| |right; exists i; split; [lia|done]].
      destruct (P (Z.of_nat n)) eqn:E; [right; exists (Z.of_nat n); split; [lia|done]|left].
      intros i Hi. destruct (Z.eq_dec i (Z.of_nat n)) as [->|]; [done|]. apply IH. lia. }
    destruct (Hn (Z.to_nat bits)) as [Hall|(i & Hi & Hp)]; [|exists i; split; [lia|done]].
    assert (true = false); [|done]. apply H. intros i Hi. apply Hall. lia.
  - intros (i & Hi & Hp). destruct r; [done|]. rewrite (proj1 H eq_refl i Hi) in Hp. done.
Qed.

Lemma least_all_false P n r : least P 0 n r -> (r =? n) = true <-> forall i, 0 <= i < n -> P i = false.
Proof.
  intros (Hr & Hlow & Hset). rewrite Z.eqb_eq. split; [intros ->; done|]. intros Hall.
  destruct (Z.eq_dec r n); [done|]. rewrite Hall in Hset by lia. by discriminate Hset; lia.
Qed.

(** The result of a logical operation that trims the last word. *)
Definition trimmed (dst dst' : bitmap) (P : Z -> bool) (bits : Z) : Prop :=
  wf dst' /\ length dst' = length dst /\ forall i, 0 <= i -> bit_of dst' i =
    if i <? bits then P i else if i <? 64 * BITS_TO_LONGS bits then false else bit_of dst i.
(** ... and of one that works on whole words. *)
Definition whole (dst dst' : bitmap) (P : Z -> bool) (bits : Z) : Prop :=
  wf dst' /\ length dst' = length dst /\ forall i, 0 <= i -> bit_of dst' i =
    if i <? 64 * BITS_TO_LONGS bits then P i else bit_of dst i.

(** C9: the logical operations compute the pointwise operation of their sources,
    also when a source is the destination itself: [__bitmap_and] and
    [__bitmap_andnot] clear the unused bits of the last word and say whether a bit
    is left, [__bitmap_or], [__bitmap_xor] and [__bitmap_complement] act on whole
    words, no other word changes; the comparisons decide intersection, equality,
    inclusion, emptiness and fullness of the first [bits] bits. *)
Theorem bitmap_logic_spec (dst : bitmap) (b1 b2 : operand) (bits : Z)
  (Hbits : 0 <= bits) (Hdst : room dst bits) (H1 : room (source dst b1) bits) (H2 : room (source dst b2) bits) :
  let x i := bit_of (source dst b1) i in let y i := bit_of (source dst b2) i in
  returns (__bitmap_and dst b1 b2 bits) (fun '(r, dst') =>
    trimmed dst dst' (fun i => x i && y i) bits /\ (r = true <-> exists i, 0 <= i < bits /\ x i && y i = true)) /\
  returns (__bitmap_andnot dst b1 b2 bits) (fun '(r, dst') =>
    trimmed dst dst' (fun i => x i && negb (y i)) bits /\ (r = true <-> exists i, 0 <= i < bits /\ x i && negb (y i) = true)) /\
  returns (__bitmap_or dst b1 b2 bits) (fun dst' => whole dst dst' (fun i => x i || y i) bits) /\
  returns (__bitmap_xor dst b1 b2 bits) (fun dst' => whole dst dst' (fun i => xorb (x i) (y i)) bits) /\
  returns (__bitmap_complement dst b1 bits) (fun dst' => whole dst dst' (fun i => negb (x i)) bits) /\
  returns (__bitmap_intersects (source dst b1) (source dst b2) bits) (fun r => r = true <-> exists i, 0 <= i < bits /\ x i && y i = true) /\
  returns (__bitmap_equal (source dst b1) (source dst b2) bits) (fun r => r = true <-> forall i, 0 <= i < bits -> x i = y i) /\
  returns (__bitmap_subset (source dst b1) (source dst b2) bits) (fun r => r = true <-> forall i, 0 <= i < bits -> x i = true -> y i = true) /\
  returns (bitmap_empty (source dst b1) bits) (fun r => r = true <-> forall i, 0 <= i < bits -> x i = false) /\
  returns (bitmap_full (source dst b1) bits) (fun r => r = true <-> forall i, 0 <= i < bits -> x i = true).
Proof.
  intros x y. assert (R1 : roomy b1 bits) by by destruct b1. assert (R2 : roomy b2 bits) by by destruct b2.
  split_and!.
  - apply (returns_mono _ _ _ (logic_trim_ok _ _ dst b1 b2 bits bitwise_and Hbits Hdst R1 R2)). intros [r d] (? & ? & Hb & ?).
    split; [done|]. by apply some_bit_true.
  - apply (returns_mono _ _ _ (logic_trim_ok _ _ dst b1 b2 bits bitwise_andnot Hbits Hdst R1 R2)). intros [r d] (? & ? & Hb & ?).
    split; [done|]. by apply some_bit_true in Hb.
  - exact (logic_words_ok _ _ dst b1 b2 bits bitwise_or Hbits Hdst R1 R2).
  - exact (logic_words_ok _ _ dst b1 b2 bits bitwise_xor Hbits Hdst R1 R2).
  - exact (logic_words_ok _ _ dst b1 b1 bits bitwise_not Hbits Hdst R1 R1).
  - apply (returns_mono _ _ _ (hits_ok _ _ _ _ bits bitwise_and Hbits H1 H2)). intros r Hb. by apply some_bit_true.
  - apply returns_bind with (1 := hits_ok _ _ _ _ bits bitwise_xor Hbits H1 H2). intros r Hb. simpl.
    rewrite (some_bit_negb _ _ _ Hb). split; intros H i Hi; specialize (H i Hi); unfold x, y in *;
      destruct (bit_of (source dst b1) i), (bit_of (source dst b2) i); done.
  - apply returns_bind with (1 := hits_ok _ _ _ _ bits bitwise_andnot Hbits H1 H2). intros r Hb. simpl.
    rewrite (some_bit_negb _ _ _ Hb). split; intros H i Hi; specialize (H i Hi); unfold x, y in *;
      destruct (bit_of (source dst b1) i), (bit_of (source dst b2) i); done || (by specialize (H eq_refl)) || by intros.
  - apply returns_bind with (1 := find_first_bit_ok _ bits H1 Hbits). intros r Hr. simpl. by apply least_all_false.
  - apply returns_bind with (1 := find_first_zero_bit_ok _ bits H1 Hbits). intros r Hr. simpl. rewrite (least_all_false _ _ _ Hr).
    unfold x. split; intros H i Hi; specialize (H i Hi); destruct (bit_of (source dst b1) i); done.
Qed.

Lemma bitmap_logic_spec_witness :
  __bitmap_andnot [ULLONG_MAX; ULLONG_MAX; 9] Self (Buf [255; 1]) 70 = Ret (true, [ULLONG_MAX - 255; 62; 9]) /\
  returns (__bitmap_andnot [ULLONG_MAX; ULLONG_MAX; 9] Self (Buf [255; 1]) 70) (fun '(r, _) => r = true <->
    exists i, 0 <= i < 70 /\ bit_of [ULLONG_MAX; ULLONG_MAX; 9] i && negb (bit_of [255; 1] i) = true).
Proof.
  split; [reflexivity|].
  apply (returns_mono _ _ _ (proj1 (proj2 (bitmap_logic_spec [ULLONG_MAX; ULLONG_MAX; 9] Self (Buf [255; 1]) 70 ltac:(lia)
    ltac:(by apply (bool_decide_unpack _); vm_compute) ltac:(by apply (bool_decide_unpack _); vm_compute)
    ltac:(by apply (bool_decide_unpack _); vm_compute))))).
  intros [r d] [_ H]. exact H.
Defined.

(** C10: the shifts move the first [nbits] bits, in place too: bit [i] of a right
    shift is bit [i + shift] of the source or clear when that is past [nbits],
    bit [i] of a left shift is bit [i - shift] or clear below the shift; exactly
    the words of [nbits] bits are written. *)
Theorem bitmap_shift_spec (dst : bitmap) (src : operand) (shift nbits : Z)
  (Hn : 0 <= nbits) (Hs : 0 <= shift <= nbits) (Hdst : room dst nbits) (Hsrc : room (source dst src) nbits) :
  returns (__bitmap_shift_right dst src shift nbits) (fun dst' =>
    whole dst dst' (fun i => (i + shift <? nbits) && bit_of (source dst src) (i + shift)) nbits) /\
  returns (__bitmap_shift_left dst src shift nbits) (fun dst' =>
    whole dst dst' (fun i => (shift <=? i) && bit_of (source dst src) (i - shift)) nbits).
Proof.
  assert (R : roomy src nbits) by by destruct src.
  split; [by apply shift_right_ok|by apply shift_left_ok].
Qed.

Lemma bitmap_shift_spec_witness :
  __bitmap_shift_right [0; 0; 0xff00] Self 72 160 = Ret [0; 0xff; 0] /\
  returns (__bitmap_shift_right [0; 0; 0xff00] Self 72 160) (fun dst' =>
    whole [0; 0; 0xff00] dst' (fun i => (i + 72 <? 160) && bit_of [0; 0; 0xff00] (i + 72)) 160).
Proof.
  split; [reflexivity|].
  exact (proj1 (bitmap_shift_spec [0; 0; 0xff00] Self 72 160 ltac:(lia) ltac:(lia)
    ltac:(by apply (bool_decide_unpack _); vm_compute) ltac:(by apply (bool_decide_unpack _); vm_compute))).
Defined.

Lemma weight_ord_ok (map : bitmap) (nbits w : Z)
  (Hmap : room map nbits) (Hn : 0 <= nbits < 2 ^ 31) (Hw : word w) :
  __sw_hweight64 w = count (Z.testbit w) 64 /\
  __bitmap_weight map nbits = Ret (count (bit_of map) nbits) /\
  (forall pos, 0 <= pos < nbits -> bit_of map pos = true ->
     exists ord, bitmap_pos_to_ord map pos nbits = Ret ord /\ 0 <= ord < count (bit_of map) nbits /\
       bitmap_ord_to_pos map ord nbits = Ret pos) /\
  (forall ord, 0 <= ord < count (bit_of map) nbits ->
     exists pos, bitmap_ord_to_pos map ord nbits = Ret pos /\ 0 <= pos < nbits /\ bit_of map pos = true /\
       bitmap_pos_to_ord map pos nbits = Ret ord).
Proof.
  split; [by apply hweight64_ok|]. split; [by apply weight_ok|]. split.
  - intros pos Hp Hset. exists (count (bit_of map) pos). rewrite pos_to_ord_ok, Hset, (proj2 (Z.ltb_lt _ _)) by (done || lia).
    split; [done|]. pose proof (count_mono (bit_of map) (pos + 1) nbits ltac:(lia)) as Hm. rewrite count_S, Hset in Hm by lia.
    pose proof (count_bounds (bit_of map) pos ltac:(lia)). simpl in Hm. split; [lia|].
    destruct (returns_inv _ _ (ord_to_pos_ok map (count (bit_of map) pos) nbits Hmap ltac:(lia) Hn)) as (r & -> & Hr).
    f_equal. apply (nth_bit_unique _ _ _ _ _ Hr). by left.
  - intros ord Ho. destruct (returns_inv _ _ (ord_to_pos_ok map ord nbits Hmap ltac:(lia) Hn)) as (r & -> & [(H1 & H2 & H3)|[-> H]]); [|lia].
    exists r. split; [done|]. split; [done|]. split; [done|]. rewrite pos_to_ord_ok, H2, (proj2 (Z.ltb_lt _ _)) by (done || lia). by rewrite H3.
Qed.

Lemma relative_ok (dst src old new : bitmap) (nbits oldbit sz : Z)
  (Hdst : room dst nbits) (Hsrc : room src nbits) (Hold : room old nbits) (Hnew : room new nbits)
  (Hn : 0 <= nbits < 2 ^ 31) (Hbit : 0 <= oldbit) (Hsz : 0 < sz <= nbits) :
  returns (bitmap_bitremap oldbit old new nbits) (remapped old new nbits oldbit) /\
  returns (bitmap_remap dst src old new nbits) (fun dst' => forall j, 0 <= j < nbits ->
    bit_of dst' j = true <-> exists i, 0 <= i < nbits /\ bit_of src i = true /\ bitmap_bitremap i old new nbits = Ret j) /\
  returns (bitmap_onto dst old new nbits) (fun dst' => forall n, 0 <= n < nbits ->
    bit_of dst' n = bit_of new n && bit_of old (count (bit_of new) n)) /\
  returns (bitmap_fold dst src sz nbits) (fun dst' => forall j, 0 <= j < nbits ->
    bit_of dst' j = true <-> exists i, 0 <= i < nbits /\ bit_of src i = true /\ i mod sz = j).
Proof.
  split; [by apply bitremap_ok|]. split; [|split].
  - apply (returns_mono _ _ _ (remap_ok dst src old new nbits Hdst Hsrc Hold Hnew Hn)). intros d [_ Hd] j Hj. rewrite (Hd j Hj).
    split; intros (i & Hi & Hs & Hr); exists i; (split; [done|]; split; [done|]);
      destruct (returns_inv _ _ (bitremap_ok old new i nbits Hold Hnew Hn ltac:(lia))) as (r & E & Hr').
    + rewrite E. f_equal. by apply (remapped_unique old new nbits i).
    + rewrite E in Hr. by injection Hr as <-.
  - apply (returns_mono _ _ _ (onto_ok dst old new nbits Hdst Hold Hnew Hn)). by intros d [_ Hd].
  - apply (returns_mono _ _ _ (fold_ok dst src sz nbits Hdst Hsrc Hn Hsz)). by intros d [_ Hd].
Qed.

(** C11: the parallel sum of [__sw_hweight64] is the number of set bits of a word
    and [__bitmap_weight] the number of set bits of a map; [bitmap_pos_to_ord]
    gives a set bit its rank, [bitmap_ord_to_pos] finds the bit of a rank, and
    they are inverse to each other on the set bits and the ranks of the map.
    [bitmap_bitremap] sends the n-th set bit of [old] to the set bit of [new] of
    rank n modulo its weight and every other bit to itself, [bitmap_remap] gives
    exactly the images of the bits of [src], [bitmap_onto] keeps the bits of
    [relmap] whose rank is set in [orig], and [bitmap_fold] gives the remainders
    of the bits of [orig]. *)
Theorem bitmap_weight_ord_spec :
  (forall map nbits w, room map nbits -> 0 <= nbits < 2 ^ 31 -> word w ->
    __sw_hweight64 w = count (Z.testbit w) 64 /\
    __bitmap_weight map nbits = Ret (count (bit_of map) nbits) /\
    (forall pos, 0 <= pos < nbits -> bit_of map pos = true ->
       exists ord, bitmap_pos_to_ord map pos nbits = Ret ord /\ 0 <= ord < count (bit_of map) nbits /\
         bitmap_ord_to_pos map ord nbits = Ret pos) /\
    (forall ord, 0 <= ord < count (bit_of map) nbits ->
       exists pos, bitmap_ord_to_pos map ord nbits = Ret pos /\ 0 <= pos < nbits /\ bit_of map pos = true /\
         bitmap_pos_to_ord map pos nbits = Ret ord)) /\
  (forall dst src old new nbits oldbit sz,
    room dst nbits -> room src nbits -> room old nbits -> room new nbits ->
    0 <= nbits < 2 ^ 31 -> 0 <= oldbit -> 0 < sz <= nbits ->
    returns (bitmap_bitremap oldbit old new nbits) (remapped old new nbits oldbit) /\
    returns (bitmap_remap dst src old new nbits) (fun dst' => forall j, 0 <= j < nbits ->
      bit_of dst' j = true <-> exists i, 0 <= i < nbits /\ bit_of src i = true /\ bitmap_bitremap i old new nbits = Ret j) /\
    returns (bitmap_onto dst old new nbits) (fun dst' => forall n, 0 <= n < nbits ->
      bit_of dst' n = bit_of new n && bit_of old (count (bit_of new) n)) /\
    returns (bitmap_fold dst src sz nbits) (fun dst' => forall j, 0 <= j < nbits ->
      bit_of dst' j = true <-> exists i, 0 <= i < nbits /\ bit_of src i = true /\ i mod sz = j)).
Proof. split; [exact weight_ord_ok|exact relative_ok]. Qed.

Lemma bitmap_weight_ord_spec_witness :
  __bitmap_weight [0xf0f0; 7] 66 = Ret 10 /\ bitmap_ord_to_pos [0xf0f0; 7] 9 66 = Ret 65 /\
  (exists ord, bitmap_pos_to_ord [0xf0f0; 7] 65 66 = Ret ord /\ 0 <= ord < count (bit_of [0xf0f0; 7]) 66 /\
    bitmap_ord_to_pos [0xf0f0; 7] ord 66 = Ret 65) /\
  bitmap_remap [7; 7] [0x70; 0] [0xf0; 0] [0xf000; 1] 70 = Ret [0x7000; 0] /\
  bitmap_bitremap 7 [0xf0; 0] [0xf000; 1] 70 = Ret 15 /\
  returns (bitmap_bitremap 7 [0xf0; 0] [0xf000; 1] 70) (remapped [0xf0; 0] [0xf000; 1] 70 7).
Proof.
  split; [reflexivity|split; [reflexivity|split; [|split; [reflexivity|split; [reflexivity|]]]]].
  - exact (proj1 (proj2 (proj2 (proj1 bitmap_weight_ord_spec [0xf0f0; 7] 66 0 ltac:(by apply (bool_decide_unpack _); vm_compute)
      ltac:(lia) word_0))) 65 ltac:(lia) eq_refl).
  - exact (proj1 (proj2 bitmap_weight_ord_spec [7; 7] [0x70; 0] [0xf0; 0] [0xf000; 1] 70 7 1
      ltac:(by apply (bool_decide_unpack _); vm_compute) ltac:(by apply (bool_decide_unpack _); vm_compute)
      ltac:(by apply (bool_decide_unpack _); vm_compute) ltac:(by apply (bool_decide_unpack _); vm_compute) ltac:(lia) ltac:(lia) ltac:(lia))).
Defined.

(** C12: [bitmap_find_free_region] allocates the least free aligned region of
    2^order bits inside the map, or fails with -ENOMEM and leaves the map alone
    when there is none; [bitmap_allocate_region] fails with -EBUSY exactly when a
    bit of the region is taken; a region given back leaves the map as it was. *)
Theorem bitmap_region_spec (map : bitmap) (bits order : Z)
  (Horder : 0 <= order <= 30) (Hbits : 0 <= bits < 2 ^ 31) (Hmap : room map bits) :
  returns (bitmap_find_free_region map bits order) (fun '(r, map') => found_region map bits order r map' /\
    (0 <= r -> bitmap_release_region map' r order = Ret map)) /\
  (forall pos, 0 <= pos -> (2 ^ order | pos) -> pos + 2 ^ order <= bits ->
    returns (bitmap_allocate_region map pos order) (fun '(r, map') =>
      r = 0 /\ free_region map bits order pos /\ run_set true map map' pos (pos + 2 ^ order) /\
        bitmap_release_region map' pos order = Ret map
      \/ r = - EBUSY /\ ~ free_region map bits order pos /\ map' = map)).
Proof.
  split.
  - apply (returns_mono _ _ _ (find_region_ok map bits order Horder Hbits Hmap)). intros [r map'] Hf. split; [done|].
    intros Hr. unfold found_region in Hf. rewrite (proj2 (Z.ltb_ge r 0)) in Hf by done.
    destruct Hf as ((H1 & H2 & H3 & H4) & _ & Hw & Hl & Hs).
    by apply release_undoes; [..|exact Hs]; try done; apply (room_le map _ bits).
  - intros pos Hp Hd Hle. pose proof (room_le map _ _ Hmap Hle) as Hr.
    apply (returns_mono _ _ _ (allocate_region_ok map pos order Horder Hp Hd Hr)).
    intros [r map'] [(-> & Hc & Hw & Hl & Hs)|(-> & Hc & ->)]; [left|right].
    + split; [done|]. split; [by split_and!|]. split; [done|]. by apply release_undoes.
    + split; [done|]. split; [|done]. by intros (_ & _ & _ & ?).
Qed.

Lemma bitmap_region_spec_witness :
  bitmap_find_free_region [0x10f; 1; 0; 0] 256 7 = Ret (128, [0x10f; 1; ULLONG_MAX; ULLONG_MAX]) /\
  bitmap_find_free_region [0x10f; 1; 0; 0] 256 2 = Ret (4, [0x1ff; 1; 0; 0]) /\
  returns (bitmap_find_free_region [0x10f; 1; 0; 0] 256 2) (fun '(r, map') => found_region [0x10f; 1; 0; 0] 256 2 r map' /\
    (0 <= r -> bitmap_release_region map' r 2 = Ret [0x10f; 1; 0; 0])).
Proof.
  split; [reflexivity|]. split; [reflexivity|].
  exact (proj1 (bitmap_region_spec [0x10f; 1; 0; 0] 256 2 ltac:(lia) ltac:(lia) ltac:(by apply (bool_decide_unpack _); vm_compute))).
Defined.
