(* ===== verification/Memblock.v ===== *)
(** * The boot memory allocator (lib/base/src/memblock.c)

    A [memblock_type] is a fixed array of regions of which the first [cnt] are
    live; [repr t l] says which list of regions a type holds.  The file models
    the array operations, the interval operations built on them (add, isolate,
    remove, flag changes, merging), the free-range iterators, the allocator and
    the address queries. *)

From stdpp Require Import base numbers list option.
From Stdlib Require Import ZArith Lia.
From S2P Require Import Prelude.

(** ** Data *)

Definition MEMBLOCK_NONE : Z := 0.
Definition MEMBLOCK_NOMAP : Z := 1.
Definition MEMBLOCK_DMA : Z := 2.
Definition MEMBLOCK_MOVABLE : Z := 4.
Definition PHYS_ADDR_MAX : Z := 2 ^ 64 - 1.
Definition MEMBLOCK_ALLOC_ANYWHERE : Z := 2 ^ 64 - 1.
Definition MEMBLOCK_ALLOC_ACCESSIBLE : Z := 0.

Record memblock_region : Type := mk_region {
  base : Z;
  rsize : Z;
  flags : Z;
}.

Record memblock_type : Type := mk_type {
  cnt : Z;
  max : Z;
  total_size : Z;
  regions : list memblock_region;
}.

Record memblock : Type := mk_memblock {
  bottom_up : bool;
  current_limit : Z;
  memory : memblock_type;
  reserved : memblock_type;
}.

Definition zero_region : memblock_region := mk_region 0 0 0.

Definition set_memory (mb : memblock) (t : memblock_type) : memblock :=
  mk_memblock (bottom_up mb) (current_limit mb) t (reserved mb).
Definition set_reserved (mb : memblock) (t : memblock_type) : memblock :=
  mk_memblock (bottom_up mb) (current_limit mb) (memory mb) t.

(** ** Initialisation and region flags *)

(** [INIT_MEMBLOCK_REGIONS] is the Kconfig constant
    CONFIG_MEMBLOCK_REGIONS_NUM (default 128).  [total_size] is not written. *)
Definition INIT_MEMBLOCK_REGIONS : Z := 128.

Definition memblock_init (mb : memblock) : memblock :=
  let init t :=
    mk_type 1 INIT_MEMBLOCK_REGIONS (total_size t)
            (replicate (Z.to_nat INIT_MEMBLOCK_REGIONS) zero_region) in
  mk_memblock false MEMBLOCK_ALLOC_ANYWHERE (init (memory mb)) (init (reserved mb)).

Definition choose_memblock_flags : Z := MEMBLOCK_NONE.

Definition memblock_is_nomap (m : memblock_region) : bool :=
  negb (Z.land (flags m) MEMBLOCK_NOMAP =? 0).
Definition memblock_set_region_flags (r : memblock_region) (f : Z) : memblock_region :=
  mk_region (base r) (rsize r) (Z.lor (flags r) f).
Definition memblock_clear_region_flags (r : memblock_region) (f : Z) : memblock_region :=
  mk_region (base r) (rsize r) (Z.land (flags r) (Z.lnot f)).

(** Adjusts the size so that [base + size] does not overflow. *)
Definition memblock_cap_size (b size : Z) : Z := Z.min size (u64 (PHYS_ADDR_MAX - b)).

Definition memblock_addrs_overlap (base1 size1 base2 size2 : Z) : bool :=
  (base1 <? u64 (base2 + size2)) && (base2 <? u64 (base1 + size1)).

Definition overlaps_step (t : memblock_type) (b size i : Z) : outcome (Z + Z) :=
  if i <? cnt t then
    r ← rd (regions t) i;
    if memblock_addrs_overlap b size (base r) (rsize r)
    then Ret (inr i) else Ret (inl (i + 1))
  else Ret (inr i).

Definition memblock_overlaps_region (t : memblock_type) (b size : Z) : outcome bool :=
  i ← loop (Z.to_nat (cnt t) + 1) (overlaps_step t b size) 0;
  Ret (i <? cnt t).

(** ** Array operations *)

Definition memblock_remove_region (t : memblock_type) (r : Z) : outcome memblock_type :=
  rgn ← rd (regions t) r;
  let total := u64 (total_size t - rsize rgn) in
  rs ← memmove (regions t) r (r + 1) (u64 (cnt t - (r + 1)));
  let cnt' := u64 (cnt t - 1) in
  if cnt' =? 0 then
    rs' ← wr rs 0 zero_region;
    Ret (mk_type 1 (max t) total rs')
  else Ret (mk_type cnt' (max t) total rs).

Definition memblock_insert_region (t : memblock_type) (idx b size f : Z)
  : outcome memblock_type :=
  BUG_ON (max t <=? cnt t);;
  rs ← memmove (regions t) (idx + 1) idx (u64 (cnt t - idx));
  rs' ← wr rs idx (mk_region b size f);
  Ret (mk_type (u64 (cnt t + 1)) (max t) (u64 (total_size t + size)) rs').

Definition merge_step (st : memblock_type * Z)
  : outcome (memblock_type * Z + memblock_type) :=
  let '(t, i) := st in
  if i <? u64 (cnt t - 1) then
    this ← rd (regions t) i;
    next ← rd (regions t) (i + 1);
    if negb (u64 (base this + rsize this) =? base next)
       || negb (flags this =? flags next) then
      BUG_ON (base next <? u64 (base this + rsize this));;
      Ret (inl (t, i + 1))
    else
      rs ← wr (regions t) i
             (mk_region (base this) (u64 (rsize this + rsize next)) (flags this));
      rs' ← memmove rs (i + 1) (i + 2) (u64 (cnt t - (i + 2)));
      Ret (inl (mk_type (u64 (cnt t - 1)) (max t) (total_size t) rs', i))
  else Ret (inr t).

Definition memblock_merge_regions (t : memblock_type) : outcome memblock_type :=
  loop (Z.to_nat (cnt t) + 1) merge_step (t, 0).

(** ** Adding a range *)

(** One pass over the regions; [insert] tells the counting pass from the
    inserting pass.  The state is (type, idx, base, nr_new). *)
Definition add_range_step (f end_ : Z) (insert : bool)
    (st : memblock_type * Z * Z * Z)
  : outcome (memblock_type * Z * Z * Z + memblock_type * Z * Z * Z) :=
  let '(t, idx, b, nr_new) := st in
  if idx <? cnt t then
    rgn ← rd (regions t) idx;
    let rbase := base rgn in
    let rend := u64 (rbase + rsize rgn) in
    if end_ <=? rbase then Ret (inr (t, idx, b, nr_new))
    else if rend <=? b then Ret (inl (t, idx + 1, b, nr_new))
    else
      '(t', idx', nr') ←
        (if b <? rbase then
           if insert then
             t' ← memblock_insert_region t idx b (u64 (rbase - b)) f;
             Ret (t', idx + 1, nr_new + 1)
           else Ret (t, idx, nr_new + 1)
         else Ret (t, idx, nr_new));
      Ret (inl (t', idx' + 1, Z.min rend end_, nr'))
  else Ret (inr (t, idx, b, nr_new)).

(** The pass and the insertion of the remaining portion. *)
Definition add_range_pass (f end_ : Z) (insert : bool)
    (t : memblock_type) (b : Z) : outcome (memblock_type * Z) :=
  '(t, idx, b, nr_new) ←
    loop (Z.to_nat (cnt t) + 1) (add_range_step f end_ insert) (t, 0, b, 0);
  if b <? end_ then
    if insert then
      t' ← memblock_insert_region t idx b (u64 (end_ - b)) f;
      Ret (t', nr_new + 1)
    else Ret (t, nr_new + 1)
  else Ret (t, nr_new).

Definition memblock_add_range (t : memblock_type) (b size f : Z)
  : outcome (Z * memblock_type) :=
  let size := memblock_cap_size b size in
  let end_ := u64 (b + size) in
  if size =? 0 then Ret (0, t)
  else
    r0 ← rd (regions t) 0;
    if rsize r0 =? 0 then
      rs ← wr (regions t) 0 (mk_region b size f);
      Ret (0, mk_type (cnt t) (max t) size rs)
    else
      '(t, nr_new) ← add_range_pass f end_ false t b;
      if nr_new =? 0 then Ret (0, t)
      else if max t <? u64 (cnt t + nr_new) then Ret (- ENOMEM, t)
      else
        '(t, nr_new) ← add_range_pass f end_ true t b;
        if nr_new =? 0 then Ret (0, t)
        else t ← memblock_merge_regions t; Ret (0, t).

Definition memblock_add (mb : memblock) (b size : Z) : outcome (Z * memblock) :=
  '(rc, t) ← memblock_add_range (memory mb) b size 0;
  Ret (rc, set_memory mb t).

Definition memblock_reserve (mb : memblock) (b size : Z) : outcome (Z * memblock) :=
  '(rc, t) ← memblock_add_range (reserved mb) b size 0;
  Ret (rc, set_reserved mb t).

(** ** Isolating and removing a range *)

(** The loop body; the state is (type, idx, start_rgn, end_rgn). *)
Definition isolate_step (b end_ : Z) (st : memblock_type * Z * Z * Z)
  : outcome (memblock_type * Z * Z * Z + memblock_type * Z * Z) :=
  let '(t, idx, s, e) := st in
  if idx <? cnt t then
    rgn ← rd (regions t) idx;
    let rbase := base rgn in
    let rend := u64 (rbase + rsize rgn) in
    if end_ <=? rbase then Ret (inr (t, s, e))
    else if rend <=? b then Ret (inl (t, idx + 1, s, e))
    else if rbase <? b then
      rs ← wr (regions t) idx
             (mk_region b (u64 (rsize rgn - u64 (b - rbase))) (flags rgn));
      t' ← memblock_insert_region
             (mk_type (cnt t) (max t) (u64 (total_size t - u64 (b - rbase))) rs)
             idx rbase (u64 (b - rbase)) (flags rgn);
      Ret (inl (t', idx + 1, s, e))
    else if end_ <? rend then
      rs ← wr (regions t) idx
             (mk_region end_ (u64 (rsize rgn - u64 (end_ - rbase))) (flags rgn));
      t' ← memblock_insert_region
             (mk_type (cnt t) (max t) (u64 (total_size t - u64 (end_ - rbase))) rs)
             idx rbase (u64 (end_ - rbase)) (flags rgn);
      Ret (inl (t', idx - 1 + 1, s, e))
    else
      Ret (inl (t, idx + 1, (if e =? 0 then idx else s), idx + 1))
  else Ret (inr (t, s, e)).

Definition memblock_isolate_range (t : memblock_type) (b size : Z)
  : outcome (Z * memblock_type * Z * Z) :=
  let size := memblock_cap_size b size in
  let end_ := u64 (b + size) in
  if size =? 0 then Ret (0, t, 0, 0)
  else if max t <? u64 (cnt t + 2) then Ret (- ENOMEM, t, 0, 0)
  else
    '(t, s, e) ← loop (Z.to_nat (cnt t) + 5) (isolate_step b end_) (t, 0, 0, 0);
    Ret (0, t, s, e).

(** [for (i = hi - 1; i >= lo; i--) if (keep) continue; else remove]. *)
Definition remove_down_step (keep : memblock_region -> bool) (lo : Z)
    (st : memblock_type * Z) : outcome (memblock_type * Z + memblock_type) :=
  let '(t, i) := st in
  if lo <=? i then
    r ← rd (regions t) i;
    t' ← (if keep r then Ret t else memblock_remove_region t i);
    Ret (inl (t', i - 1))
  else Ret (inr t).

Definition remove_regions_down (keep : memblock_region -> bool)
    (t : memblock_type) (lo hi : Z) : outcome memblock_type :=
  loop (Z.to_nat (hi - lo) + 1) (remove_down_step keep lo) (t, hi - 1).

Definition memblock_remove_range (t : memblock_type) (b size : Z)
  : outcome (Z * memblock_type) :=
  '(ret, t, start_rgn, end_rgn) ← memblock_isolate_range t b size;
  if negb (ret =? 0) then Ret (ret, t)
  else
    t ← remove_regions_down (fun _ => false) t start_rgn end_rgn;
    Ret (0, t).

Definition memblock_remove (mb : memblock) (b size : Z) : outcome (Z * memblock) :=
  '(rc, t) ← memblock_remove_range (memory mb) b size;
  Ret (rc, set_memory mb t).

Definition memblock_free (mb : memblock) (b size : Z) : outcome (Z * memblock) :=
  '(rc, t) ← memblock_remove_range (reserved mb) b size;
  Ret (rc, set_reserved mb t).

(** ** Region flags over a range *)

Definition setclr_step (set : bool) (flag end_rgn : Z) (st : memblock_type * Z)
  : outcome (memblock_type * Z + memblock_type) :=
  let '(t, i) := st in
  if i <? end_rgn then
    r ← rd (regions t) i;
    rs ← wr (regions t) i
           (if set then memblock_set_region_flags r flag
            else memblock_clear_region_flags r flag);
    Ret (inl (mk_type (cnt t) (max t) (total_size t) rs, i + 1))
  else Ret (inr t).

Definition memblock_setclr_flag (mb : memblock) (b size : Z) (set : bool) (flag : Z)
  : outcome (Z * memblock) :=
  '(ret, t, start_rgn, end_rgn) ← memblock_isolate_range (memory mb) b size;
  if negb (ret =? 0) then Ret (ret, set_memory mb t)
  else
    t ← loop (Z.to_nat (end_rgn - start_rgn) + 1) (setclr_step set flag end_rgn)
           (t, start_rgn);
    t ← memblock_merge_regions t;
    Ret (0, set_memory mb t).

Definition memblock_mark_nomap mb b size := memblock_setclr_flag mb b size true MEMBLOCK_NOMAP.
Definition memblock_clear_nomap mb b size := memblock_setclr_flag mb b size false MEMBLOCK_NOMAP.
Definition memblock_mark_dma mb b size := memblock_setclr_flag mb b size true MEMBLOCK_DMA.
Definition memblock_clear_dma mb b size := memblock_setclr_flag mb b size false MEMBLOCK_DMA.
Definition memblock_mark_movable mb b size := memblock_setclr_flag mb b size true MEMBLOCK_MOVABLE.
Definition memblock_clear_movable mb b size := memblock_setclr_flag mb b size false MEMBLOCK_MOVABLE.

(** ** Iterators

    An iterator returns the new value of [*idx] and, unless the iteration
    ended ([*idx = ULLONG_MAX]), the range written to the out parameters. *)

Definition __next_reserved_mem_region (mb : memblock) (idx : Z)
  : outcome (Z * option (Z * Z)) :=
  let t := reserved mb in
  if idx <? cnt t then
    r ← rd (regions t) idx;
    Ret (u64 (idx + 1), Some (base r, u64 (u64 (base r + rsize r) - 1)))
  else Ret (ULLONG_MAX, None).

(** [*idx] packs the two indices: [(u32)idx_a | (u64)idx_b << 32]. *)
Definition pack_idx (idx_a idx_b : Z) : Z :=
  Z.lor (u32 idx_a) (u64 (Z.shiftl (u64 idx_b) 32)).
Definition unpack_a (idx : Z) : Z := s32 (Z.land idx 4294967295).
Definition unpack_b (idx : Z) : Z := s32 (Z.shiftr idx 32).

(** The gap before region [idx_b] of [type_b] (the last one runs to
    PHYS_ADDR_MAX). *)
Definition gap_bounds (tb : memblock_type) (idx_b : Z) : outcome (Z * Z) :=
  r_start ← (if idx_b =? 0 then Ret 0
             else r ← rd (regions tb) (idx_b - 1); Ret (u64 (base r + rsize r)));
  r_end ← (if idx_b <? cnt tb then r ← rd (regions tb) idx_b; Ret (base r)
           else Ret PHYS_ADDR_MAX);
  Ret (r_start, r_end).

(** The inner loop over [idx_b]: [inl idx_b] when it is left without a range,
    [inr] with the new indices and the range otherwise. *)
Definition next_range_step (tb : memblock_type) (idx_a m_start m_end : Z) (idx_b : Z)
  : outcome (Z + (Z + (Z * Z * (Z * Z)))) :=
  if idx_b <? u64 (cnt tb + 1) then
    '(r_start, r_end) ← gap_bounds tb idx_b;
    if m_end <=? r_start then Ret (inr (inl idx_b))
    else if m_start <? r_end then
      let range := (Z.max m_start r_start, Z.min m_end r_end) in
      if m_end <=? r_end then Ret (inr (inr (idx_a + 1, idx_b, range)))
      else Ret (inr (inr (idx_a, idx_b + 1, range)))
    else Ret (inl (idx_b + 1))
  else Ret (inr (inl idx_b)).

Definition next_range_inner (tb : memblock_type) (idx_a m_start m_end : Z) (idx_b : Z)
  : outcome (Z + (Z * Z * (Z * Z))) :=
  loop (Z.to_nat (cnt tb + 1 - idx_b) + 1) (next_range_step tb idx_a m_start m_end) idx_b.

Definition next_mem_step (f : Z) (ta : memblock_type) (tb : option memblock_type)
    (st : Z * Z) : outcome (Z * Z + Z * option (Z * Z)) :=
  let '(idx_a, idx_b) := st in
  if idx_a <? cnt ta then
    m ← rd (regions ta) idx_a;
    let m_start := base m in
    let m_end := u64 (base m + rsize m) in
    if negb (f =? flags m) then Ret (inl (idx_a + 1, idx_b))
    else
      match tb with
      | None => Ret (inr (pack_idx (idx_a + 1) idx_b, Some (m_start, m_end)))
      | Some tb =>
          r ← next_range_inner tb idx_a m_start m_end idx_b;
          match r with
          | inr (ia, ib, range) => Ret (inr (pack_idx ia ib, Some range))
          | inl idx_b => Ret (inl (idx_a + 1, idx_b))
          end
      end
  else Ret (inr (ULLONG_MAX, None)).

Definition __next_mem_range (idx : Z) (f : Z) (ta : memblock_type)
    (tb : option memblock_type) : outcome (Z * option (Z * Z)) :=
  loop (Z.to_nat (cnt ta - unpack_a idx) + 1) (next_mem_step f ta tb)
    (unpack_a idx, unpack_b idx).

Definition next_range_step_rev (tb : memblock_type) (idx_a m_start m_end : Z) (idx_b : Z)
  : outcome (Z + (Z + (Z * Z * (Z * Z)))) :=
  if 0 <=? idx_b then
    '(r_start, r_end) ← gap_bounds tb idx_b;
    if r_end <=? m_start then Ret (inr (inl idx_b))
    else if r_start <? m_end then
      let range := (Z.max m_start r_start, Z.min m_end r_end) in
      if r_start <=? m_start then Ret (inr (inr (idx_a - 1, idx_b, range)))
      else Ret (inr (inr (idx_a, idx_b - 1, range)))
    else Ret (inl (idx_b - 1))
  else Ret (inr (inl idx_b)).

Definition next_range_inner_rev (tb : memblock_type) (idx_a m_start m_end : Z) (idx_b : Z)
  : outcome (Z + (Z * Z * (Z * Z))) :=
  loop (Z.to_nat (idx_b + 1) + 1) (next_range_step_rev tb idx_a m_start m_end) idx_b.

Definition next_mem_step_rev (f : Z) (ta : memblock_type) (tb : option memblock_type)
    (st : Z * Z) : outcome (Z * Z + Z * option (Z * Z)) :=
  let '(idx_a, idx_b) := st in
  if 0 <=? idx_a then
    m ← rd (regions ta) idx_a;
    let m_start := base m in
    let m_end := u64 (base m + rsize m) in
    if negb (f =? flags m) then Ret (inl (idx_a - 1, idx_b))
    else
      match tb with
      | None => Ret (inr (pack_idx (idx_a - 1) idx_b, Some (m_start, m_end)))
      | Some tb =>
          r ← next_range_inner_rev tb idx_a m_start m_end idx_b;
          match r with
          | inr (ia, ib, range) => Ret (inr (pack_idx ia ib, Some range))
          | inl idx_b => Ret (inl (idx_a - 1, idx_b))
          end
      end
  else Ret (inr (ULLONG_MAX, None)).

Definition __next_mem_range_rev (idx : Z) (f : Z) (ta : memblock_type)
    (tb : option memblock_type) : outcome (Z * option (Z * Z)) :=
  let '(idx_a, idx_b) :=
    if idx =? ULLONG_MAX then
      (s32 (u64 (cnt ta - 1)), match tb with Some tb => s32 (cnt tb) | None => 0 end)
    else (unpack_a idx, unpack_b idx) in
  loop (Z.to_nat (idx_a + 1) + 1) (next_mem_step_rev f ta tb) (idx_a, idx_b).

(** [for_each_mem_range(i, a, b, flags, &start, &end) body]: the body sees each
    range and may leave the enclosing function with a value. *)
Definition for_each_step {R S} (f : Z) (ta : memblock_type)
    (tb : option memblock_type) (body : S -> Z -> Z -> outcome (S + R))
    (st : Z * S) : outcome (Z * S + (S + R)) :=
  let '(i, s) := st in
  '(i, range) ← __next_mem_range i f ta tb;
  if i =? ULLONG_MAX then Ret (inr (inl s))
  else match range with
       | None => Fault
       | Some (a, e) =>
           r ← body s a e;
           match r with
           | inl s' => Ret (inl (i, s'))
           | inr x => Ret (inr (inr x))
           end
       end.

Definition for_each_mem_range {R S} (f : Z) (ta : memblock_type)
    (tb : option memblock_type) (fuel : nat)
    (body : S -> Z -> Z -> outcome (S + R)) (s0 : S) : outcome (S + R) :=
  loop fuel (for_each_step f ta tb body) (0, s0).

Definition for_each_step_rev {R S} (f : Z) (ta : memblock_type)
    (tb : option memblock_type) (body : S -> Z -> Z -> outcome (S + R))
    (st : Z * S) : outcome (Z * S + (S + R)) :=
  let '(i, s) := st in
  '(i, range) ← __next_mem_range_rev i f ta tb;
  if i =? ULLONG_MAX then Ret (inr (inl s))
  else match range with
       | None => Fault
       | Some (a, e) =>
           r ← body s a e;
           match r with
           | inl s' => Ret (inl (i, s'))
           | inr x => Ret (inr (inr x))
           end
       end.

Definition for_each_mem_range_rev {R S} (f : Z) (ta : memblock_type)
    (tb : option memblock_type) (fuel : nat)
    (body : S -> Z -> Z -> outcome (S + R)) (s0 : S) : outcome (S + R) :=
  loop fuel (for_each_step_rev f ta tb body) (ULLONG_MAX, s0).

(** Each step of a free-range walk advances one of the two indices. *)
Definition free_range_fuel (mb : memblock) : nat :=
  Z.to_nat (cnt (memory mb) + cnt (reserved mb) + 3).

Definition for_each_free_mem_range {R S} (mb : memblock) (f : Z)
    (body : S -> Z -> Z -> outcome (S + R)) (s0 : S) : outcome (S + R) :=
  for_each_mem_range f (memory mb) (Some (reserved mb)) (free_range_fuel mb) body s0.

Definition for_each_free_mem_range_reverse {R S} (mb : memblock) (f : Z)
    (body : S -> Z -> Z -> outcome (S + R)) (s0 : S) : outcome (S + R) :=
  for_each_mem_range_rev f (memory mb) (Some (reserved mb)) (free_range_fuel mb) body s0.

Definition for_each_reserved_mem_region {S} (mb : memblock)
    (body : S -> Z -> Z -> outcome S) (s0 : S) : outcome S :=
  loop (Z.to_nat (cnt (reserved mb)) + 2) (fun '(i, s) =>
    '(i, range) ← __next_reserved_mem_region mb i;
    if i =? ULLONG_MAX then Ret (inr s)
    else match range with
         | None => Fault
         | Some (a, e) => s' ← body s a e; Ret (inl (i, s'))
         end) (0, s0).

Definition __next_mem_pfn_range (mb : memblock) (idx : Z)
  : outcome (Z * option (Z * Z)) :=
  let t := memory mb in
  loop (Z.to_nat (cnt t - idx) + 1) (fun idx =>
    let idx := idx + 1 in
    if idx <? cnt t then
      r ← rd (regions t) idx;
      let p := PFN_UP (base r) in
      let q := PFN_DOWN (u64 (base r + rsize r)) in
      if q <=? p then Ret (inl idx)
      else Ret (inr (idx, Some (p, q)))
    else Ret (inr (-1, None))) idx.

(** ** Finding and allocating free ranges *)

Definition __memblock_find_range_bottom_up (mb : memblock)
    (start end_ size align f : Z) : outcome Z :=
  r ← for_each_free_mem_range mb f (fun (_ : unit) this_start this_end =>
        let this_start := clamp this_start start end_ in
        let this_end := clamp this_end start end_ in
        let cand := round_up this_start align in
        if (cand <? this_end) && (size <=? u64 (this_end - cand))
        then Ret (inr cand) else Ret (inl tt)) tt;
  match r with inr cand => Ret cand | inl _ => Ret 0 end.

Definition __memblock_find_range_top_down (mb : memblock)
    (start end_ size align f : Z) : outcome Z :=
  r ← for_each_free_mem_range_reverse mb f (fun (_ : unit) this_start this_end =>
        let this_start := clamp this_start start end_ in
        let this_end := clamp this_end start end_ in
        if this_end <? size then Ret (inl tt)
        else
          let cand := round_down (u64 (this_end - size)) align in
          if this_start <=? cand then Ret (inr cand) else Ret (inl tt)) tt;
  match r with inr cand => Ret cand | inl _ => Ret 0 end.

Definition __memblock_find_in_range (mb : memblock) (size align start end_ f : Z)
  : outcome Z :=
  let end_ := if end_ =? MEMBLOCK_ALLOC_ACCESSIBLE then current_limit mb else end_ in
  let start := Z.max start PAGE_SIZE in
  let end_ := Z.max start end_ in
  ret ← (if bottom_up mb
         then __memblock_find_range_bottom_up mb start end_ size align f
         else Ret 0);
  if negb (ret =? 0) then Ret ret
  else __memblock_find_range_top_down mb start end_ size align f.

Definition memblock_find_in_range (mb : memblock) (start end_ size align : Z) : outcome Z :=
  __memblock_find_in_range mb size align start end_ choose_memblock_flags.

Definition __memblock_alloc_range (mb : memblock) (size align start end_ f : Z)
  : outcome (Z * memblock) :=
  if align =? 0 then Ret (0, mb)
  else
    found ← __memblock_find_in_range mb size align start end_ f;
    if negb (found =? 0) then
      '(rc, mb') ← memblock_reserve mb found size;
      if rc =? 0 then Ret (found, mb') else Ret (0, mb')
    else Ret (0, mb).

Definition memblock_alloc_range := __memblock_alloc_range.

Definition memblock_alloc_base (mb : memblock) (size align max_addr f : Z) :=
  __memblock_alloc_range mb size align 0 max_addr f.

Definition memblock_phys_alloc (mb : memblock) (size align : Z) :=
  memblock_alloc_base mb size align MEMBLOCK_ALLOC_ACCESSIBLE choose_memblock_flags.

(** One turn of the code between [again:] and [done:]. *)
Definition alloc_again (size align max_addr f : Z) (st : memblock * Z)
  : outcome ((memblock * Z) + (Z * memblock)) :=
  let '(mb, min_addr) := st in
  alloc ← __memblock_find_in_range mb size align min_addr max_addr f;
  '(ok, mb) ←
    (if negb (alloc =? 0) then
       '(rc, mb') ← memblock_reserve mb alloc size; Ret (rc =? 0, mb')
     else Ret (false, mb));
  if (ok : bool) then Ret (inr (alloc, mb))
  else if negb (min_addr =? 0) then Ret (inl (mb, 0))
  else Ret (inr (0, mb)).

(** The [again:] label is taken at most once, with [min_addr = 0]. *)
Definition memblock_alloc_internal (mb : memblock) (size align min_addr max_addr : Z)
  : outcome (Z * memblock) :=
  let f := choose_memblock_flags in
  if align =? 0 then Ret (0, mb)
  else
    let max_addr := if current_limit mb <? max_addr then current_limit mb else max_addr in
    loop 3 (alloc_again size align max_addr f) (mb, min_addr).

Definition memblock_alloc_try_raw := memblock_alloc_internal.

(** ** Sizes, limits and queries *)

Definition memblock_phys_mem_size (mb : memblock) : Z := total_size (memory mb).
Definition memblock_reserved_size (mb : memblock) : Z := total_size (reserved mb).

Definition memblock_region_memory_base_pfn (r : memblock_region) : Z := PFN_UP (base r).
Definition memblock_region_memory_end_pfn (r : memblock_region) : Z :=
  PFN_DOWN (u64 (base r + rsize r)).

Definition memblock_mem_size (mb : memblock) (limit_pfn : Z) : outcome Z :=
  let t := memory mb in
  pages ← loop (Z.to_nat (cnt t) + 1) (fun '(i, pages) =>
    if i <? cnt t then
      r ← rd (regions t) i;
      let start_pfn := Z.min (memblock_region_memory_base_pfn r) limit_pfn in
      let end_pfn := Z.min (memblock_region_memory_end_pfn r) limit_pfn in
      Ret (inl (i + 1, u64 (pages + u64 (end_pfn - start_pfn))))
    else Ret (inr pages)) (0, 0);
  Ret (PFN_PHYS pages).

Definition memblock_start_of_DRAM (mb : memblock) : outcome Z :=
  r ← rd (regions (memory mb)) 0; Ret (base r).

Definition memblock_end_of_DRAM (mb : memblock) : outcome Z :=
  r ← rd (regions (memory mb)) (s32 (u64 (cnt (memory mb) - 1)));
  Ret (u64 (base r + rsize r)).

Definition find_max_step (t : memblock_type) (st : Z * Z) : outcome ((Z * Z) + Z) :=
  let '(i, limit) := st in
  if i <? cnt t then
    r ← rd (regions t) i;
    if limit <=? rsize r then Ret (inr (u64 (base r + limit)))
    else Ret (inl (i + 1, u64 (limit - rsize r)))
  else Ret (inr PHYS_ADDR_MAX).

Definition __find_max_addr (mb : memblock) (limit : Z) : outcome Z :=
  let t := memory mb in
  loop (Z.to_nat (cnt t) + 1) (find_max_step t) (0, limit).

Definition memblock_enforce_memory_limit (mb : memblock) (limit : Z) : outcome memblock :=
  if limit =? 0 then Ret mb
  else
    max_addr ← __find_max_addr mb limit;
    if max_addr =? PHYS_ADDR_MAX then Ret mb
    else
      '(_, m) ← memblock_remove_range (memory mb) max_addr PHYS_ADDR_MAX;
      '(_, r) ← memblock_remove_range (reserved mb) max_addr PHYS_ADDR_MAX;
      Ret (set_reserved (set_memory mb m) r).

Definition memblock_cap_memory_range (mb : memblock) (b size : Z) : outcome memblock :=
  if size =? 0 then Ret mb
  else
    '(ret, t, start_rgn, end_rgn) ← memblock_isolate_range (memory mb) b size;
    if negb (ret =? 0) then Ret (set_memory mb t)
    else
      t ← remove_regions_down memblock_is_nomap t end_rgn (cnt t);
      t ← remove_regions_down memblock_is_nomap t 0 start_rgn;
      '(_, r) ← memblock_remove_range (reserved mb) 0 b;
      '(_, r) ← memblock_remove_range r (u64 (b + size)) PHYS_ADDR_MAX;
      Ret (set_reserved (set_memory mb t) r).

Definition memblock_mem_limit_remove_map (mb : memblock) (limit : Z) : outcome memblock :=
  if limit =? 0 then Ret mb
  else
    max_addr ← __find_max_addr mb limit;
    if max_addr =? PHYS_ADDR_MAX then Ret mb
    else memblock_cap_memory_range mb 0 max_addr.

(** Binary search; the interval [left, right) shrinks at each turn. *)
Definition search_next (lr : Z * Z) : outcome ((Z * Z) + Z) :=
  if lr.1 <? lr.2 then Ret (inl lr) else Ret (inr (-1)).

Definition search_step (t : memblock_type) (addr : Z) (lr : Z * Z) : outcome ((Z * Z) + Z) :=
  let '(left_, right_) := lr in
  let mid := u32 (right_ + left_) / 2 in
  r ← rd (regions t) mid;
  if addr <? base r then search_next (left_, mid)
  else if u64 (base r + rsize r) <=? addr then search_next (u32 (mid + 1), right_)
  else Ret (inr mid).

Definition memblock_search (t : memblock_type) (addr : Z) : outcome Z :=
  loop (Z.to_nat (u32 (cnt t)) + 1) (search_step t addr) (0, u32 (cnt t)).

Definition memblock_is_reserved (mb : memblock) (addr : Z) : outcome bool :=
  i ← memblock_search (reserved mb) addr; Ret (negb (i =? -1)).

Definition memblock_is_memory (mb : memblock) (addr : Z) : outcome bool :=
  i ← memblock_search (memory mb) addr; Ret (negb (i =? -1)).

Definition memblock_is_map_memory (mb : memblock) (addr : Z) : outcome bool :=
  i ← memblock_search (memory mb) addr;
  if i =? -1 then Ret false
  else r ← rd (regions (memory mb)) i; Ret (negb (memblock_is_nomap r)).

Definition memblock_is_region_memory (mb : memblock) (b size : Z) : outcome bool :=
  idx ← memblock_search (memory mb) b;
  let end_ := u64 (b + memblock_cap_size b size) in
  if idx =? -1 then Ret false
  else r ← rd (regions (memory mb)) idx; Ret (end_ <=? u64 (base r + rsize r)).

Definition memblock_is_region_reserved (mb : memblock) (b size : Z) : outcome bool :=
  memblock_overlaps_region (reserved mb) b (memblock_cap_size b size).

(** [r--] after a removal and [r++] of the loop cancel out. *)
Definition memblock_trim_memory (mb : memblock) (align : Z) : outcome memblock :=
  t ← loop (Z.to_nat (2 * cnt (memory mb)) + 2) (fun '(t, i) =>
    if i <? cnt t then
      r ← rd (regions t) i;
      let orig_start := base r in
      let orig_end := u64 (base r + rsize r) in
      let start := round_up orig_start align in
      let end_ := round_down orig_end align in
      if (start =? orig_start) && (end_ =? orig_end) then Ret (inl (t, i + 1))
      else if start <? end_ then
        rs ← wr (regions t) i (mk_region start (u64 (end_ - start)) (flags r));
        Ret (inl (mk_type (cnt t) (max t) (total_size t) rs, i + 1))
      else
        t' ← memblock_remove_region t i;
        Ret (inl (t', i - 1 + 1))
    else Ret (inr t)) (memory mb, 0);
  Ret (set_memory mb t).

Definition memblock_set_current_limit (mb : memblock) (limit : Z) : memblock :=
  mk_memblock (bottom_up mb) limit (memory mb) (reserved mb).
Definition memblock_get_current_limit (mb : memblock) : Z := current_limit mb.
Definition memblock_set_bottom_up (mb : memblock) (enable : bool) : memblock :=
  mk_memblock enable (current_limit mb) (memory mb) (reserved mb).
