(* ===== verification/MemblockFacts.v ===== *)
(** * Properties of the boot memory allocator

    The array operations are first related to lists of live regions
    ([holds]); the interval operations are then shown to compute pure list
    functions ([fill], [split_list], [merge_list]), whose effect on the address
    space is read off by [flags_at]. *)

From stdpp Require Import base numbers list option.
From Stdlib Require Import ZArith Lia.
From S2P Require Import Prelude Memblock.

(** ** The list a type holds *)

Record holds (t : memblock_type) (l : list memblock_region) (n tot : Z) : Prop := {
  h_live : take (length l) (regions t) = l;
  h_cnt : cnt t = Z.of_nat (length l);
  h_len : Z.of_nat (length (regions t)) = n;
  h_max : max t = n;
  h_bound : n < 2 ^ 30;
  h_tot : total_size t = tot;
}.

Lemma take_eq_split {A} (l rs : list A) :
  take (length l) rs = l -> exists tl, rs = l ++ tl.
Proof.
  intros H. exists (drop (length l) rs). rewrite <- H at 1.
  by rewrite take_drop.
Qed.

Lemma holds_split t l n tot :
  holds t l n tot -> exists tl, regions t = l ++ tl.
Proof. intros [H ? ? ? ? ?]. by apply take_eq_split. Qed.

Lemma holds_cnt_le t l n tot : holds t l n tot -> Z.of_nat (length l) <= n.
Proof.
  intros H. destruct (holds_split _ _ _ _ H) as [tl E].
  pose proof (h_len _ _ _ _ H) as L. rewrite E, length_app in L. lia.
Qed.

Lemma mk_holds t l tl n tot :
  regions t = l ++ tl -> cnt t = Z.of_nat (length l) ->
  Z.of_nat (length (regions t)) = n -> max t = n -> n < 2 ^ 30 ->
  total_size t = tot -> holds t l n tot.
Proof.
  intros E ? ? ? ? ?. split; auto.
  by rewrite E, take_app_length.
Qed.

Lemma holds_lookup t P r Q n tot i :
  holds t (P ++ r :: Q) n tot -> i = Z.of_nat (length P) ->
  rd (regions t) i = Ret r.
Proof.
  intros H ->. destruct (holds_split _ _ _ _ H) as [tl E].
  apply rd_lookup; [lia|]. rewrite E, <- app_assoc, Nat2Z.id.
  simpl. by rewrite list_lookup_middle.
Qed.

Lemma holds_write t P r r' Q n tot i :
  holds t (P ++ r :: Q) n tot -> i = Z.of_nat (length P) ->
  exists rs, wr (regions t) i r' = Ret rs /\
    forall tot', holds (mk_type (cnt t) (max t) tot' rs) (P ++ r' :: Q) n tot'.
Proof.
  intros H ->. destruct (holds_split _ _ _ _ H) as [tl E].
  pose proof (h_len _ _ _ _ H) as L.
  assert (Hl : length (regions t) = (length P + S (length Q) + length tl)%nat).
  { rewrite E, !length_app. simpl. lia. }
  rewrite wr_in_range by lia. eexists. split; [reflexivity|].
  intros tot'. apply mk_holds with (tl := tl); simpl.
  - rewrite Nat2Z.id, E, <- !app_assoc. simpl.
    rewrite insert_app_r_alt by lia. by rewrite Nat.sub_diag.
  - rewrite (h_cnt _ _ _ _ H), !length_app. simpl. lia.
  - by rewrite length_insert.
  - apply (h_max _ _ _ _ H).
  - apply (h_bound _ _ _ _ H).
  - reflexivity.
Qed.

Lemma holds_insert t P Q n tot i b s f :
  holds t (P ++ Q) n tot -> i = Z.of_nat (length P) ->
  Z.of_nat (length (P ++ Q)) < n ->
  exists t', memblock_insert_region t i b s f = Ret t' /\
    holds t' (P ++ mk_region b s f :: Q) n (u64 (tot + s)).
Proof.
  intros H -> Hlt. destruct (holds_split _ _ _ _ H) as [tl E].
  pose proof (h_len _ _ _ _ H) as L. pose proof (h_cnt _ _ _ _ H) as C.
  pose proof (h_max _ _ _ _ H) as M. pose proof (h_bound _ _ _ _ H) as B.
  pose proof (h_tot _ _ _ _ H) as T.
  rewrite E, !length_app in L. rewrite length_app in *.
  unfold memblock_insert_region. rewrite M, C.
  rewrite BUG_ON_false by (apply Z.leb_gt; lia).
  rewrite (u64_small (_ - _)) by lia.
  destruct tl as [|x tl]; [simpl in L; lia|]. rewrite E, <- app_assoc.
  destruct (memmove_shift_up P Q tl x (Z.of_nat (length P)) (Z.of_nat (length P) + 1)
    (Z.of_nat (length P + length Q) - Z.of_nat (length P))) as [y ->]; try lia.
  rewrite bind_ret.
  rewrite wr_in_range by (rewrite length_app; simpl; lia).
  rewrite bind_ret. eexists. split; [reflexivity|].
  apply mk_holds with (tl := tl); simpl.
  - rewrite Nat2Z.id, insert_app_r_alt by lia. rewrite Nat.sub_diag.
    by rewrite <- app_assoc.
  - rewrite u64_small by lia. rewrite length_app. simpl. lia.
  - rewrite length_insert, !length_app. simpl in *. rewrite length_app. lia.
  - reflexivity.
  - lia.
  - by rewrite T.
Qed.

(** An empty type is represented by one zero region. *)
Definition norm (l : list memblock_region) : list memblock_region :=
  match l with [] => [zero_region] | _ => l end.

Lemma norm_nonempty l : l <> [] -> norm l = l.
Proof. by destruct l. Qed.

Lemma holds_remove t P r Q n tot i :
  holds t (P ++ r :: Q) n tot -> i = Z.of_nat (length P) ->
  exists t', memblock_remove_region t i = Ret t' /\
    holds t' (norm (P ++ Q)) n (u64 (tot - rsize r)).
Proof.
  intros H ->. destruct (holds_split _ _ _ _ H) as [tl E].
  pose proof (h_len _ _ _ _ H) as L. pose proof (h_cnt _ _ _ _ H) as C.
  pose proof (h_max _ _ _ _ H) as M. pose proof (h_bound _ _ _ _ H) as B.
  pose proof (h_tot _ _ _ _ H) as T.
  assert (Hl : length (regions t) = (length P + S (length Q) + length tl)%nat).
  { rewrite E, !length_app. simpl. lia. }
  rewrite length_app in C. simpl in C.
  unfold memblock_remove_region.
  rewrite (holds_lookup _ _ _ _ _ _ _ H eq_refl), bind_ret, C, T.
  rewrite (u64_small (_ - (_ + 1))) by lia.
  rewrite E, <- app_assoc. simpl.
  destruct (memmove_shift_down P Q tl r (Z.of_nat (length P)) (Z.of_nat (length P) + 1)
    (Z.of_nat (length P + S (length Q)) - (Z.of_nat (length P) + 1))) as (tl' & -> & Htl'); try lia.
  rewrite bind_ret, (u64_small (_ - 1)) by lia.
  destruct (Z.eqb_spec (Z.of_nat (length P + S (length Q)) - 1) 0) as [E0|E0].
  - assert (P = []) as -> by (apply nil_length_inv; lia).
    assert (Q = []) as -> by (apply nil_length_inv; lia). simpl in *.
    rewrite wr_in_range by lia. rewrite bind_ret.
    eexists. split; [reflexivity|]. destruct tl' as [|y tl']; [simpl in *; lia|].
    apply mk_holds with (tl := tl'); simpl; try done; simpl in *; lia.
  - eexists. split; [reflexivity|].
    assert (norm (P ++ Q) = P ++ Q) as ->.
    { destruct (P ++ Q) eqn:EPQ; [|done].
      apply (f_equal length) in EPQ. rewrite length_app in EPQ. simpl in EPQ. lia. }
    apply mk_holds with (tl := tl'); simpl; try done; rewrite ?app_assoc; try done;
      rewrite ?length_app in *; lia.
Qed.

(** ** Sorted region lists and what they say of an address *)

(** [ok lo l]: the regions are non-empty, ascending, disjoint, above [lo], and
    end before PHYS_ADDR_MAX. *)
Fixpoint ok (lo : Z) (l : list memblock_region) : Prop :=
  match l with
  | [] => True
  | r :: l' => lo <= base r /\ 0 < rsize r /\
               base r + rsize r <= PHYS_ADDR_MAX /\ ok (base r + rsize r) l'
  end.

Definition contains (r : memblock_region) (a : Z) : bool :=
  (base r <=? a) && (a <? base r + rsize r).

(** The flags of the region that holds address [a], if any. *)
Fixpoint flags_at (l : list memblock_region) (a : Z) : option Z :=
  match l with
  | [] => None
  | r :: l' => if contains r a then Some (flags r) else flags_at l' a
  end.

Fixpoint sum_size (l : list memblock_region) : Z :=
  match l with [] => 0 | r :: l' => rsize r + sum_size l' end.

Lemma contains_spec r a : contains r a = true <-> base r <= a < base r + rsize r.
Proof. unfold contains. rewrite andb_true_iff, Z.leb_le, Z.ltb_lt. lia. Qed.

Lemma contains_false r a : contains r a = false <-> ~ (base r <= a < base r + rsize r).
Proof. rewrite <- contains_spec. destruct (contains r a); split; congruence. Qed.

Lemma ok_weaken lo lo' l : ok lo l -> lo' <= lo -> ok lo' l.
Proof. destruct l; simpl; [done|]. intuition lia. Qed.

Lemma ok_app lo l1 l2 :
  ok lo (l1 ++ l2) <->
  ok lo l1 /\ ok lo l2 /\
  (forall r s, r ∈ l1 -> s ∈ l2 -> base r + rsize r <= base s).
Proof.
  revert lo. induction l1 as [|r l1 IH]; intros lo; simpl.
  - split; [intros; repeat split; auto; intros ? ? Hin; inversion Hin|tauto].
  - rewrite IH. split.
    + intros (? & ? & ? & ? & Hk2 & Hc). repeat split; auto.
      { eapply ok_weaken; [exact Hk2|lia]. }
      intros r' s Hr Hs. apply elem_of_cons in Hr as [->|Hr]; [|by apply Hc].
      clear - Hk2 Hs. revert Hk2 Hs. generalize (base r + rsize r).
      induction l2 as [|x l2 IH]; intros z; [intros _ Hs; inversion Hs|].
      simpl. intros (?&?&?&Hk) Hs. apply elem_of_cons in Hs as [->|Hs]; [lia|].
      apply IH; [|done]. eapply ok_weaken; [exact Hk|lia].
    + intros ((?&?&?&?) & Hk2 & Hc). repeat split; auto.
      * destruct l2 as [|s l2]; [done|]. simpl in *. destruct Hk2 as (?&?&?&?).
        repeat split; auto. apply Hc; [left|left].
      * intros r' s Hr Hs. apply Hc; [by right|done].
Qed.

Lemma ok_elem lo l r :
  ok lo l -> r ∈ l -> lo <= base r /\ 0 < rsize r /\ base r + rsize r <= PHYS_ADDR_MAX.
Proof.
  revert lo. induction l as [|x l IH]; intros lo; [intros _ H; inversion H|].
  simpl. intros (?&?&?&Hk) Hr. apply elem_of_cons in Hr as [->|Hr]; [done|].
  specialize (IH _ Hk Hr). lia.
Qed.

Lemma ok_sum lo l : ok lo l -> 0 <= sum_size l /\ (l <> [] -> lo + sum_size l <= PHYS_ADDR_MAX).
Proof.
  revert lo. induction l as [|r l IH]; intros lo; simpl; [done|].
  intros (?&?&?&Hk). destruct (IH _ Hk) as [Hs Hb]. split; [lia|].
  intros _. destruct l; simpl in *; [lia|]. specialize (Hb ltac:(done)). lia.
Qed.

Lemma ok_sum_u64 l : ok 0 l -> u64 (sum_size l) = sum_size l.
Proof.
  intros H. destruct (ok_sum _ _ H) as [? H2]. apply u64_small.
  destruct l; [simpl in *; lia|]. specialize (H2 ltac:(done)). unfold PHYS_ADDR_MAX in *. lia.
Qed.

Lemma sum_size_app l1 l2 : sum_size (l1 ++ l2) = sum_size l1 + sum_size l2.
Proof. induction l1; simpl; lia. Qed.

Lemma flags_at_app l1 l2 a :
  flags_at (l1 ++ l2) a = match flags_at l1 a with Some f => Some f | None => flags_at l2 a end.
Proof. induction l1 as [|r l1 IH]; simpl; [done|]. by destruct (contains r a). Qed.

Lemma flags_at_below lo l a : ok lo l -> a < lo -> flags_at l a = None.
Proof.
  revert lo. induction l as [|r l IH]; intros lo; simpl; [done|].
  intros (?&?&?&Hk) Ha. replace (contains r a) with false.
  - apply (IH _ Hk). lia.
  - symmetry. apply contains_false. lia.
Qed.

Lemma flags_at_in l a f : flags_at l a = Some f -> exists r, r ∈ l /\ contains r a = true /\ flags r = f.
Proof.
  induction l as [|r l IH]; simpl; [done|]. destruct (contains r a) eqn:E.
  - intros [= <-]. exists r. repeat split; auto. left.
  - intros H. destruct (IH H) as (r' & ? & ? & ?). exists r'. repeat split; auto. by right.
Qed.

Lemma flags_at_elem lo l r a :
  ok lo l -> r ∈ l -> contains r a = true -> flags_at l a = Some (flags r).
Proof.
  revert lo. induction l as [|x l IH]; intros lo Hk Hr Hc; [inversion Hr|].
  simpl in *. destruct Hk as (?&?&?&Hk). apply elem_of_cons in Hr as [->|Hr].
  - by rewrite Hc.
  - pose proof (ok_elem _ _ _ Hk Hr). apply contains_spec in Hc as Hc'.
    replace (contains x a) with false; [by eapply IH|].
    symmetry. apply contains_false. lia.
Qed.

(** ** Merging *)

Definition mergeable (r s : memblock_region) : bool :=
  (base r + rsize r =? base s) && (flags r =? flags s).

Fixpoint merge_aux (cur : memblock_region) (l : list memblock_region) :=
  match l with
  | [] => [cur]
  | s :: l' =>
      if mergeable cur s
      then merge_aux (mk_region (base cur) (rsize cur + rsize s) (flags cur)) l'
      else cur :: merge_aux s l'
  end.

Definition merge_list (l : list memblock_region) :=
  match l with [] => [] | r :: l' => merge_aux r l' end.

(** No two neighbours could be merged. *)
Fixpoint minimal (l : list memblock_region) : Prop :=
  match l with
  | r :: (s :: _) as l' => mergeable r s = false /\ minimal l'
  | _ => True
  end.

Lemma merge_aux_head cur l :
  exists s f l', merge_aux cur l = mk_region (base cur) s f :: l' /\ f = flags cur.
Proof.
  revert cur. induction l as [|s l IH]; intros cur; simpl.
  - exists (rsize cur), (flags cur), []. by destruct cur.
  - destruct (mergeable cur s).
    + destruct (IH (mk_region (base cur) (rsize cur + rsize s) (flags cur)))
        as (z & f & l' & H & Hf). eauto.
    + exists (rsize cur), (flags cur), (merge_aux s l). by destruct cur.
Qed.

Lemma merge_aux_ok lo cur l :
  ok lo (cur :: l) ->
  ok lo (merge_aux cur l) /\ sum_size (merge_aux cur l) = sum_size (cur :: l) /\
  forall a, flags_at (merge_aux cur l) a = flags_at (cur :: l) a.
Proof.
  revert lo cur. induction l as [|s l IH]; intros lo cur Hk; [done|].
  simpl in Hk. destruct Hk as (H1 & H2 & H3 & H4 & H5 & H6 & H7). simpl.
  destruct (mergeable cur s) eqn:E.
  - unfold mergeable in E. apply andb_true_iff in E as [E1 E2].
    apply Z.eqb_eq in E1, E2.
    destruct (IH lo (mk_region (base cur) (rsize cur + rsize s) (flags cur))) as (K1 & K2 & K3).
    { simpl. replace (base cur + (rsize cur + rsize s)) with (base s + rsize s) by lia.
      repeat split; auto; lia. }
    repeat split; auto; [simpl in K2; lia|]. intros a. rewrite K3. simpl.
    unfold contains. simpl. rewrite <- E1, <- E2.
    destruct (Z.leb_spec (base cur) a), (Z.ltb_spec a (base cur + rsize cur)),
      (Z.leb_spec (base cur + rsize cur) a),
      (Z.ltb_spec a (base cur + (rsize cur + rsize s))),
      (Z.ltb_spec a (base cur + rsize cur + rsize s)); simpl; try reflexivity; lia.
  - destruct (IH (base cur + rsize cur) s) as (K1 & K2 & K3).
    { simpl. repeat split; auto. }
    simpl. repeat split; auto; [simpl in K2; lia|].
    intros a. rewrite K3. reflexivity.
Qed.

Lemma merge_aux_minimal cur l : minimal (merge_aux cur l).
Proof.
  revert cur. induction l as [|s l IH]; intros cur; simpl; [done|].
  destruct (mergeable cur s) eqn:E; [apply IH|].
  destruct (merge_aux_head s l) as (z & f & l' & H & Hf).
  specialize (IH s). rewrite H in *. split; [|exact IH].
  unfold mergeable in *. subst f. exact E.
Qed.

Lemma minimal_merge cur l : minimal (cur :: l) -> merge_aux cur l = cur :: l.
Proof.
  revert cur. induction l as [|s l IH]; intros cur; [done|].
  intros [H1 H2]. simpl. rewrite H1. by rewrite IH.
Qed.

Lemma merge_aux_length cur l : (length (merge_aux cur l) <= S (length l))%nat.
Proof.
  revert cur. induction l as [|s l IH]; intros cur; simpl; [lia|].
  destruct (mergeable cur s); simpl; [specialize (IH (mk_region (base cur) (rsize cur + rsize s) (flags cur)))|specialize (IH s)]; lia.
Qed.

Lemma merge_step_skip t P cur s l n tot :
  holds t (P ++ cur :: s :: l) n tot -> ok 0 (cur :: s :: l) ->
  mergeable cur s = false ->
  merge_step (t, Z.of_nat (length P)) = Ret (inl (t, Z.of_nat (length P) + 1)).
Proof.
  intros H (K1 & K2 & K3 & K4 & K5 & K6 & K7) E. unfold merge_step, PHYS_ADDR_MAX in *.
  pose proof (h_cnt _ _ _ _ H) as C. pose proof (holds_cnt_le _ _ _ _ H) as CL.
  pose proof (h_bound _ _ _ _ H) as B. rewrite length_app in C, CL. simpl in C, CL.
  rewrite u64_small by lia. rewrite (proj2 (Z.ltb_lt _ _)) by lia.
  rewrite (holds_lookup _ _ _ _ _ _ _ H eq_refl), bind_ret.
  assert (H' : holds t ((P ++ [cur]) ++ s :: l) n tot) by (by rewrite <- app_assoc).
  rewrite (holds_lookup _ _ _ _ _ _ (Z.of_nat (length P) + 1) H')
    by (rewrite length_app; simpl; lia).
  rewrite bind_ret, !(u64_small (base cur + rsize cur)) by lia.
  rewrite <- negb_andb. fold (mergeable cur s). rewrite E. simpl negb. cbv iota.
  rewrite BUG_ON_false by (apply Z.ltb_ge; lia). reflexivity.
Qed.

Lemma merge_step_merge t P cur s l n tot :
  holds t (P ++ cur :: s :: l) n tot -> ok 0 (cur :: s :: l) ->
  mergeable cur s = true ->
  exists t', merge_step (t, Z.of_nat (length P)) = Ret (inl (t', Z.of_nat (length P))) /\
    holds t' (P ++ mk_region (base cur) (rsize cur + rsize s) (flags cur) :: l) n tot.
Proof.
  intros H (K1 & K2 & K3 & K4 & K5 & K6 & K7) E. unfold merge_step, PHYS_ADDR_MAX in *.
  assert (E1 : base cur + rsize cur = base s).
  { unfold mergeable in E. apply andb_true_iff in E as [E _]. by apply Z.eqb_eq in E. }
  pose proof (h_cnt _ _ _ _ H) as C. pose proof (holds_cnt_le _ _ _ _ H) as CL.
  pose proof (h_bound _ _ _ _ H) as B. rewrite length_app in C, CL. simpl in C, CL.
  rewrite u64_small by lia. rewrite (proj2 (Z.ltb_lt _ _)) by lia.
  rewrite (holds_lookup _ _ _ _ _ _ _ H eq_refl), bind_ret.
  assert (H' : holds t ((P ++ [cur]) ++ s :: l) n tot) by (by rewrite <- app_assoc).
  rewrite (holds_lookup _ _ _ _ _ _ (Z.of_nat (length P) + 1) H')
    by (rewrite length_app; simpl; lia).
  rewrite bind_ret, !u64_small by lia.
  rewrite <- negb_andb. fold (mergeable cur s). rewrite E. simpl negb. cbv iota.
  set (nw := mk_region (base cur) (rsize cur + rsize s) (flags cur)).
  destruct (holds_write _ _ _ nw _ _ _ _ H eq_refl) as (rs & -> & Hw).
  rewrite bind_ret. specialize (Hw tot).
  destruct (holds_split _ _ _ _ Hw) as [tl Etl]. pose proof (h_len _ _ _ _ Hw) as L.
  simpl in Etl, L.
  assert (Etl' : rs = (P ++ [nw]) ++ s :: l ++ tl) by (by rewrite Etl, <- !app_assoc).
  rewrite Etl' in L |- *.
  destruct (memmove_shift_down (P ++ [nw]) l tl s (Z.of_nat (length P) + 1)
    (Z.of_nat (length P) + 2) (cnt t - (Z.of_nat (length P) + 2)))
    as (tl' & -> & Htl'); try (rewrite ?length_app; simpl; lia).
  rewrite bind_ret. eexists. split; [reflexivity|].
  rewrite !length_app in L. simpl in L. rewrite length_app in L.
  apply mk_holds with (tl := tl'); simpl.
  - by rewrite <- !app_assoc.
  - rewrite length_app. simpl. lia.
  - rewrite !length_app. simpl. lia.
  - apply (h_max _ _ _ _ H).
  - apply B.
  - apply (h_tot _ _ _ _ H).
Qed.

Lemma merge_loop l : forall cur P t fuel n tot,
  holds t (P ++ cur :: l) n tot -> (l <> [] -> ok 0 (cur :: l)) ->
  (length l < fuel)%nat ->
  exists t', loop fuel merge_step (t, Z.of_nat (length P)) = Ret t' /\
    holds t' (P ++ merge_aux cur l) n tot.
Proof.
  induction l as [|s l IH]; intros cur P t fuel n tot H Hk Hf;
    (destruct fuel as [|fuel]; [simpl in Hf; lia|]); rewrite loop_S.
  - pose proof (h_cnt _ _ _ _ H) as C. pose proof (holds_cnt_le _ _ _ _ H) as CL.
    pose proof (h_bound _ _ _ _ H) as B. rewrite length_app in C, CL. simpl in C, CL.
    unfold merge_step. rewrite u64_small by lia.
    rewrite (proj2 (Z.ltb_ge _ _)) by lia. simpl. eauto.
  - specialize (Hk ltac:(done)). simpl merge_aux. destruct (mergeable cur s) eqn:E.
    + destruct (merge_step_merge _ _ _ _ _ _ _ H Hk E) as (t' & -> & H').
      rewrite bind_ret. apply IH; [exact H'| |simpl in Hf; lia]. intros _.
      destruct Hk as (K1 & K2 & K3 & K4 & K5 & K6 & K7).
      unfold mergeable in E. apply andb_true_iff in E as [E1 _]. apply Z.eqb_eq in E1.
      simpl. replace (base cur + (rsize cur + rsize s)) with (base s + rsize s) by lia.
      repeat split; auto; lia.
    + rewrite (merge_step_skip _ _ _ _ _ _ _ H Hk E), bind_ret.
      replace (Z.of_nat (length P) + 1) with (Z.of_nat (length (P ++ [cur])))
        by (rewrite length_app; simpl; lia).
      replace (P ++ cur :: merge_aux s l) with ((P ++ [cur]) ++ merge_aux s l)
        by (by rewrite <- app_assoc).
      apply IH; [by rewrite <- app_assoc| |simpl in Hf; lia].
      intros _. destruct Hk as (K1 & K2 & K3 & K4 & K5 & K6 & K7).
      simpl. repeat split; auto; lia.
Qed.

Lemma merge_regions_holds t cur l n tot :
  holds t (cur :: l) n tot -> (l <> [] -> ok 0 (cur :: l)) ->
  exists t', memblock_merge_regions t = Ret t' /\ holds t' (merge_aux cur l) n tot.
Proof.
  intros H Hk. unfold memblock_merge_regions.
  apply (merge_loop l cur []); auto. rewrite (h_cnt _ _ _ _ H). simpl. lia.
Qed.

(** ** Filling the holes of a range *)

Definition piece (f b e : Z) : list memblock_region :=
  if b <? e then [mk_region b (e - b) f] else [].

Fixpoint fill (f e b : Z) (l : list memblock_region) : list memblock_region :=
  match l with
  | [] => piece f b e
  | r :: l' =>
      if e <=? base r then piece f b e ++ l
      else if base r + rsize r <=? b then r :: fill f e b l'
      else piece f b (base r) ++ r :: fill f e (Z.min (base r + rsize r) e) l'
  end.

Lemma fill_done f e l : fill f e e l = l.
Proof.
  induction l as [|r l IH]; simpl; unfold piece; zdec; simpl; [done|].
  destruct (Z.leb_spec e (base r)); [done|].
  destruct (Z.leb_spec (base r + rsize r) e); [by rewrite IH|].
  zdec. simpl. rewrite Z.min_r by lia. by rewrite IH.
Qed.

Lemma piece_ok lo f b e l :
  lo <= b -> b <= e -> e <= PHYS_ADDR_MAX -> ok e l -> ok lo (piece f b e ++ l).
Proof.
  intros. unfold piece. destruct (Z.ltb_spec b e); simpl.
  - replace (b + (e - b)) with e by lia. repeat split; auto; lia.
  - eapply ok_weaken; [eassumption|lia].
Qed.

Lemma fill_ok lo f e b l :
  ok lo l -> lo <= b -> b <= e -> e <= PHYS_ADDR_MAX -> ok lo (fill f e b l).
Proof.
  revert lo b. induction l as [|r l IH]; intros lo b Hk Hlo Hb He; simpl.
  - rewrite <- (app_nil_r (piece f b e)). by apply piece_ok.
  - simpl in Hk. destruct Hk as (K1 & K2 & K3 & K4).
    destruct (Z.leb_spec e (base r)).
    { apply piece_ok; auto. simpl. repeat split; auto. }
    destruct (Z.leb_spec (base r + rsize r) b).
    { simpl. repeat split; auto. }
    assert (Hk' : ok (base r) (r :: fill f e (Z.min (base r + rsize r) e) l)).
    { simpl. repeat split; auto; [lia|].
      destruct (Z.le_gt_cases (base r + rsize r) e).
      - rewrite Z.min_l by lia. apply IH; auto; lia.
      - rewrite Z.min_r by lia. by rewrite fill_done. }
    destruct (Z.le_gt_cases b (base r)).
    + apply piece_ok; auto; lia.
    + unfold piece. zdec. simpl app. eapply ok_weaken; [|exact K1]. exact Hk'.
Qed.

Lemma flags_at_piece f b e a :
  flags_at (piece f b e) a = if (b <=? a) && (a <? e) then Some f else None.
Proof.
  unfold piece. destruct (Z.ltb_spec b e); simpl; unfold contains; simpl.
  - replace (b + (e - b)) with e by lia. done.
  - destruct (Z.leb_spec b a), (Z.ltb_spec a e); simpl; try done; lia.
Qed.

Lemma fill_flags_at lo f e b l a :
  ok lo l -> lo <= b -> b <= e -> e <= PHYS_ADDR_MAX ->
  flags_at (fill f e b l) a =
    match flags_at l a with
    | Some x => Some x
    | None => if (b <=? a) && (a <? e) then Some f else None
    end.
Proof.
  revert lo b. induction l as [|r l IH]; intros lo b Hk Hlo Hb He; simpl.
  { apply flags_at_piece. }
  simpl in Hk. destruct Hk as (K1 & K2 & K3 & K4).
  destruct (Z.leb_spec e (base r)).
  - rewrite flags_at_app, flags_at_piece. simpl.
    destruct (Z.leb_spec b a), (Z.ltb_spec a e); simpl; try (by repeat case_match).
    rewrite (proj2 (contains_false r a)) by lia.
    rewrite (flags_at_below _ _ _ K4) by lia. done.
  - destruct (Z.leb_spec (base r + rsize r) b); simpl.
    + destruct (contains r a) eqn:E; [done|]. eapply IH; eauto.
    + rewrite flags_at_app, flags_at_piece. simpl.
      destruct (contains r a) eqn:E.
      * apply contains_spec in E. zdec. rewrite andb_false_r. done.
      * apply contains_false in E.
        assert (HF : flags_at (fill f e (Z.min (base r + rsize r) e) l) a =
          match flags_at l a with
          | Some x => Some x
          | None => if (Z.min (base r + rsize r) e <=? a) && (a <? e) then Some f else None
          end).
        { destruct (Z.le_gt_cases (base r + rsize r) e).
          - rewrite Z.min_l by lia. apply (IH (base r + rsize r)); auto; lia.
          - rewrite Z.min_r, fill_done by lia.
            destruct (Z.leb_spec e a), (Z.ltb_spec a e); simpl; try lia; by case_match. }
        rewrite HF. destruct (Z.leb_spec b a), (Z.ltb_spec a (base r)); simpl.
        -- rewrite (flags_at_below _ _ _ K4) by lia. zdec. done.
        -- destruct (flags_at l a); [done|].
           destruct (Z.ltb_spec a e); rewrite ?andb_false_r; [|done]. zdec. done.
        -- rewrite (flags_at_below _ _ _ K4) by lia. zdec. done.
        -- lia.
Qed.

Lemma fill_length f e b l : (length l <= length (fill f e b l))%nat.
Proof.
  revert b. induction l as [|r l IH]; intros b; simpl; [lia|].
  repeat case_match; rewrite ?length_app; simpl; try lia.
  - specialize (IH b). lia.
  - specialize (IH (Z.min (base r + rsize r) e)). lia.
Qed.

Lemma fill_length_le f e b l : (length (fill f e b l) <= 2 * length l + 1)%nat.
Proof.
  revert b. induction l as [|r l IH]; intros b; simpl; unfold piece in *.
  { case_match; simpl; lia. }
  repeat case_match; rewrite ?length_app; simpl; try lia; try (specialize (IH b); lia);
    specialize (IH (Z.min (base r + rsize r) e)); lia.
Qed.

Lemma fill_same_length f e b l :
  Z.of_nat (length (fill f e b l)) - Z.of_nat (length l) = 0 -> fill f e b l = l.
Proof.
  revert b. induction l as [|r l IH]; intros b; simpl; unfold piece in *;
    repeat case_match; rewrite ?length_app; simpl; intros Hl; try done; try lia;
    try (f_equal; apply IH; lia).
  pose proof (fill_length f e (Z.min (base r + rsize r) e) l). lia.
Qed.

Lemma fill_head_size lo f e b r l :
  ok lo (r :: l) -> lo <= b -> exists x l', fill f e b (r :: l) = x :: l' /\ 0 < rsize x.
Proof.
  intros (K1 & K2 & K3 & K4) Hb. simpl. unfold piece.
  repeat case_match; simpl; eauto;
    try (match goal with H : (_ <? _) = true |- _ => apply Z.ltb_lt in H end;
         eexists _, _; split; [reflexivity|]; simpl; lia).
Qed.

(** ** The scan of [memblock_add_range] computes [fill] *)

Lemma holds_at_end t P n tot (i : Z) :
  holds t P n tot -> i = Z.of_nat (length P) -> (i <? cnt t) = false.
Proof. intros H ->. rewrite (h_cnt _ _ _ _ H). apply Z.ltb_ge. lia. Qed.

Lemma holds_not_end t P r Q n tot (i : Z) :
  holds t (P ++ r :: Q) n tot -> i = Z.of_nat (length P) -> (i <? cnt t) = true.
Proof.
  intros H ->. rewrite (h_cnt _ _ _ _ H), length_app. simpl. apply Z.ltb_lt. lia.
Qed.

Lemma holds_shift t P r Q n tot :
  holds t (P ++ r :: Q) n tot -> holds t ((P ++ [r]) ++ Q) n tot.
Proof. by rewrite <- app_assoc. Qed.

Lemma length_snoc {A} (P : list A) r : Z.of_nat (length (P ++ [r])) = Z.of_nat (length P) + 1.
Proof. rewrite length_app. simpl. lia. Qed.

(** What a scan leaves behind: the type, the index, the lower end of what
    remains of the range, and the number of holes seen. *)
Definition scan_result (insert : bool) (f e b nr : Z) (t : memblock_type)
    (P Q : list memblock_region) (n tot : Z)
    (x : memblock_type * Z * Z * Z) : Prop :=
  let '(t', idx', b', nr') := x in
  nr' + Z.of_nat (length (piece f b' e)) =
    nr + (Z.of_nat (length (fill f e b Q)) - Z.of_nat (length Q)) /\
  if insert then
    exists P' Q', idx' = Z.of_nat (length P') /\
      holds t' (P' ++ Q') n (u64 (tot + sum_size (P' ++ Q') - sum_size (P ++ Q))) /\
      P' ++ piece f b' e ++ Q' = P ++ fill f e b Q
  else t' = t.

Lemma scan_result_skip insert f e b nr t P r Q n tot x :
  base r + rsize r <= b -> base r < e ->
  scan_result insert f e b nr t (P ++ [r]) Q n tot x ->
  scan_result insert f e b nr t P (r :: Q) n tot x.
Proof.
  intros H1 H2. unfold scan_result. destruct x as [[[t' idx'] b'] nr'].
  intros [Hn Hr]. simpl. zdec. simpl. split; [lia|].
  destruct insert; [|done]. destruct Hr as (P' & Q' & ? & Hh & Hp).
  exists P', Q'. rewrite <- app_assoc in *. auto.
Qed.

Lemma add_range_step_end f e insert t P b nr n tot :
  holds t P n tot ->
  add_range_step f e insert (t, Z.of_nat (length P), b, nr) =
    Ret (inr (t, Z.of_nat (length P), b, nr)).
Proof.
  intros H. unfold add_range_step. by rewrite (holds_at_end _ _ _ _ _ H eq_refl).
Qed.

Lemma add_range_step_break f e insert t P r Q b nr n tot :
  holds t (P ++ r :: Q) n tot -> e <= base r ->
  add_range_step f e insert (t, Z.of_nat (length P), b, nr) =
    Ret (inr (t, Z.of_nat (length P), b, nr)).
Proof.
  intros H He. unfold add_range_step.
  rewrite (holds_not_end _ _ _ _ _ _ _ H eq_refl).
  rewrite (holds_lookup _ _ _ _ _ _ _ H eq_refl), bind_ret. by zdec.
Qed.

Lemma add_range_step_skip f e insert t P r Q b nr n tot :
  holds t (P ++ r :: Q) n tot -> ok 0 (r :: Q) ->
  base r < e -> base r + rsize r <= b ->
  add_range_step f e insert (t, Z.of_nat (length P), b, nr) =
    Ret (inl (t, Z.of_nat (length (P ++ [r])), b, nr)).
Proof.
  intros H (K1 & K2 & K3 & K4) He Hb. unfold add_range_step, PHYS_ADDR_MAX in *.
  rewrite (holds_not_end _ _ _ _ _ _ _ H eq_refl).
  rewrite (holds_lookup _ _ _ _ _ _ _ H eq_refl), bind_ret.
  rewrite (u64_small (base r + rsize r)) by lia. zdec. by rewrite length_snoc.
Qed.

Lemma add_range_step_body f e insert t P r Q b nr n tot :
  holds t (P ++ r :: Q) n tot -> ok 0 (r :: Q) -> e <= PHYS_ADDR_MAX ->
  0 <= b <= e -> base r < e -> b < base r + rsize r ->
  let b' := Z.min (base r + rsize r) e in
  add_range_step f e insert (t, Z.of_nat (length P), b, nr) =
    if b <? base r then
      if insert then
        t' ← memblock_insert_region t (Z.of_nat (length P)) b (base r - b) f;
        Ret (inl (t', Z.of_nat (length P) + 1 + 1, b', nr + 1))
      else Ret (inl (t, Z.of_nat (length P) + 1, b', nr + 1))
    else Ret (inl (t, Z.of_nat (length P) + 1, b', nr)).
Proof.
  intros H (K1 & K2 & K3 & K4) He Hb H1 H2 b'. unfold add_range_step, PHYS_ADDR_MAX in *.
  rewrite (holds_not_end _ _ _ _ _ _ _ H eq_refl).
  rewrite (holds_lookup _ _ _ _ _ _ _ H eq_refl), bind_ret.
  rewrite (u64_small (base r + rsize r)) by lia. zdec.
  destruct (Z.ltb_spec b (base r)); [|reflexivity].
  destruct insert; [|reflexivity]. rewrite u64_small by lia.
  destruct (memblock_insert_region _ _ _ _ _); reflexivity.
Qed.

Lemma fill_enough f e b r Q :
  base r < e -> b < base r + rsize r ->
  fill f e b (r :: Q) =
    piece f b (base r) ++ r :: fill f e (Z.min (base r + rsize r) e) Q.
Proof. intros. simpl. by zdec. Qed.

Lemma scan_loop f e insert Q : forall P t b nr fuel n tot,
  holds t (P ++ Q) n tot -> ok 0 Q -> e <= PHYS_ADDR_MAX -> 0 <= b <= e ->
  tot = u64 tot ->
  (insert = true -> Z.of_nat (length (P ++ fill f e b Q)) <= n) ->
  (length Q < fuel)%nat ->
  exists x, loop fuel (add_range_step f e insert) (t, Z.of_nat (length P), b, nr) = Ret x /\
    scan_result insert f e b nr t P Q n tot x.
Proof.
  induction Q as [|r Q IH]; intros P t b nr fuel n tot H Hk He Hb Ht Hn Hf;
    (destruct fuel as [|fuel]; [simpl in Hf; lia|]); rewrite loop_S.
  { rewrite app_nil_r in H. rewrite (add_range_step_end _ _ _ _ _ _ _ _ _ H). simpl.
    eexists. split; [reflexivity|]. simpl. split; [lia|].
    destruct insert; [|done]. exists P, []. rewrite !app_nil_r.
    replace (tot + _ - _) with tot by lia. by rewrite <- Ht. }
  pose proof Hk as (K1 & K2 & K3 & K4).
  destruct (Z.le_gt_cases e (base r)) as [C1|C1].
  { rewrite (add_range_step_break _ _ _ _ _ _ _ _ _ _ _ H) by lia. simpl.
    eexists. split; [reflexivity|]. unfold scan_result. simpl. zdec.
    rewrite length_app. simpl. split; [lia|].
    destruct insert; [|done]. exists P, (r :: Q).
    replace (tot + _ - _) with tot by lia. by rewrite <- Ht. }
  pose proof (holds_shift _ _ _ _ _ _ H) as H'.
  destruct (Z.le_gt_cases (base r + rsize r) b) as [C2|C2].
  { rewrite (add_range_step_skip _ _ _ _ _ _ _ _ _ _ _ H Hk) by lia. rewrite bind_ret.
    simpl in Hn. rewrite !(proj2 (Z.leb_gt _ _)) in Hn by lia.
    rewrite (proj2 (Z.leb_le (base r + rsize r) b)) in Hn by lia.
    destruct (IH (P ++ [r]) t b nr fuel n tot) as (x & Hx & Hr); auto.
    - eapply ok_weaken; [exact K4|lia].
    - intros Hi. rewrite <- app_assoc. exact (Hn Hi).
    - simpl in Hf. lia.
    - exists x. split; [exact Hx|]. apply scan_result_skip; [lia|lia|exact Hr]. }
  rewrite fill_enough in Hn by lia.
  pose proof (fill_length f e (Z.min (base r + rsize r) e) Q) as HL.
  rewrite (add_range_step_body _ _ _ _ _ _ _ _ _ _ _ H Hk He Hb C1 C2).
  assert (Hk' : ok 0 Q) by (eapply ok_weaken; [exact K4|lia]).
  unfold piece in Hn.
  destruct (Z.ltb_spec b (base r)) as [C3|C3]; [destruct insert|].
  - specialize (Hn eq_refl). destruct (holds_insert t P (r :: Q) n tot (Z.of_nat (length P)) b (base r - b) f H)
      as (t' & -> & Ht'); auto.
    { rewrite !length_app in *. simpl in *. lia. }
    rewrite !bind_ret.
    set (P2 := P ++ [mk_region b (base r - b) f; r]).
    replace (Z.of_nat (length P) + 1 + 1) with (Z.of_nat (length P2))
      by (unfold P2; rewrite length_app; simpl; lia).
    destruct (IH P2 t' (Z.min (base r + rsize r) e) (nr + 1) fuel n (u64 (tot + (base r - b))))
      as ([[[t2 i2] b2] nr2] & Hx & Hn2 & P' & Q' & Hi & Hh & Hp); auto.
    { unfold P2. by rewrite <- app_assoc. }
    { lia. }
    { by rewrite u64_idem. }
    { unfold P2. rewrite <- app_assoc. intros _; exact Hn. }
    { simpl in Hf. lia. }
    eexists. split; [exact Hx|]. unfold scan_result. rewrite fill_enough by lia.
    unfold piece at 2. zdec. simpl. split; [lia|].
    exists P', Q'. split; [done|]. split.
    + rewrite <- Z.add_sub_assoc, u64_add_l in Hh. unfold P2 in Hh.
      rewrite <- app_assoc, (sum_size_app P) in Hh. simpl in Hh.
      rewrite (sum_size_app P). simpl.
      replace (tot + sum_size (P' ++ Q') - (sum_size P + (rsize r + sum_size Q))) with
        (tot + (base r - b) + (sum_size (P' ++ Q') -
          (sum_size P + (base r - b + (rsize r + sum_size Q))))) by lia.
      exact Hh.
    + rewrite Hp. unfold P2, piece. zdec. by rewrite <- app_assoc.
  - rewrite bind_ret, <- (length_snoc _ r).
    destruct (IH (P ++ [r]) t (Z.min (base r + rsize r) e) (nr + 1) fuel n tot)
      as ([[[t2 i2] b2] nr2] & Hx & Hn2 & Hr); auto.
    { lia. }
    { done. }
    { simpl in Hf. lia. }
    eexists. split; [exact Hx|]. unfold scan_result. rewrite fill_enough by lia.
    unfold piece at 2. zdec. simpl. split; [lia|done].
  - rewrite bind_ret, <- (length_snoc _ r).
    destruct (IH (P ++ [r]) t (Z.min (base r + rsize r) e) nr fuel n tot)
      as ([[[t2 i2] b2] nr2] & Hx & Hn2 & Hr); auto.
    { lia. }
    { intros Hi. rewrite <- app_assoc. exact (Hn Hi). }
    { simpl in Hf. lia. }
    eexists. split; [exact Hx|]. unfold scan_result. rewrite fill_enough by lia.
    unfold piece at 2. zdec. simpl. split; [lia|].
    destruct insert; [|done]. destruct Hr as (P' & Q' & Hi & Hh & Hp).
    exists P', Q'. rewrite Hp, <- !app_assoc in *. unfold piece. zdec. auto.
Qed.

Lemma add_range_pass_count f e t l b n tot :
  holds t l n tot -> ok 0 l -> e <= PHYS_ADDR_MAX -> 0 <= b <= e -> tot = u64 tot ->
  add_range_pass f e false t b =
    Ret (t, Z.of_nat (length (fill f e b l)) - Z.of_nat (length l)).
Proof.
  intros H Hk He Hb Ht. unfold add_range_pass.
  destruct (scan_loop f e false l [] t b 0 (Z.to_nat (cnt t) + 1) n tot)
    as ([[[t' i'] b'] nr'] & Hx & Hn & ->); auto.
  { done. }
  { rewrite (h_cnt _ _ _ _ H). lia. }
  change (Z.of_nat (length [])) with 0 in Hx. rewrite Hx, bind_ret. unfold piece in Hn.
  destruct (b' <? e); simpl in Hn; do 2 f_equal; lia.
Qed.

Lemma add_range_pass_insert f e t l b n tot :
  holds t l n tot -> ok 0 l -> e <= PHYS_ADDR_MAX -> 0 <= b <= e -> tot = u64 tot ->
  Z.of_nat (length (fill f e b l)) <= n ->
  exists t', add_range_pass f e true t b =
      Ret (t', Z.of_nat (length (fill f e b l)) - Z.of_nat (length l)) /\
    holds t' (fill f e b l) n (u64 (tot + sum_size (fill f e b l) - sum_size l)).
Proof.
  intros H Hk He Hb Ht Hle. unfold add_range_pass.
  destruct (scan_loop f e true l [] t b 0 (Z.to_nat (cnt t) + 1) n tot)
    as ([[[t' i'] b'] nr'] & Hx & Hn & P' & Q' & Hi & Hh & Hp); auto.
  { rewrite (h_cnt _ _ _ _ H). lia. }
  change (Z.of_nat (length [])) with 0 in Hx. simpl in Hp. rewrite Hx, bind_ret. rewrite <- Hp in *. unfold piece in *.
  destruct (Z.ltb_spec b' e); simpl in Hn, Hle, Hp |- *.
  - assert (Hl : ok 0 (fill f e b l)) by (apply fill_ok; auto; lia).
    rewrite <- Hp in Hl. apply ok_app in Hl as (_ & Hl & _).
    destruct Hl as (? & ? & ? & _). simpl in *. unfold PHYS_ADDR_MAX in *.
    rewrite (u64_small (e - b')) by lia.
    destruct (holds_insert t' P' Q' n _ i' b' (e - b') f Hh Hi) as (t2 & -> & Ht2).
    { rewrite !length_app in *. simpl in *. lia. }
    rewrite bind_ret. eexists. split; [do 2 f_equal; lia|].
    rewrite u64_add_l in Ht2. rewrite !sum_size_app in *. simpl in *.
    match goal with |- holds _ _ _ (u64 ?x) =>
      match type of Ht2 with holds _ _ _ (u64 ?y) => replace x with y by lia end end.
    exact Ht2.
  - eexists. split; [do 2 f_equal; lia|]. exact Hh.
Qed.

(** ** Representation *)

(** [repr t l n]: the type [t], of capacity [n], holds exactly the sorted,
    disjoint regions [l], and its total is their total size. *)
Definition repr (t : memblock_type) (l : list memblock_region) (n : Z) : Prop :=
  holds t (norm l) n (sum_size l) /\ ok 0 l.

Lemma repr_intro t l n tot :
  holds t l n tot -> l <> [] -> ok 0 l -> u64 tot = u64 (sum_size l) -> tot = u64 tot ->
  repr t l n.
Proof.
  intros H Hl Hk Hs Ht. split; [|done]. rewrite (ok_sum_u64 _ Hk) in Hs.
  destruct l; [done|]. simpl norm. by rewrite <- Hs, <- Ht.
Qed.

Definition union_flags (o : option Z) (f b e a : Z) : option Z :=
  match o with
  | Some x => Some x
  | None => if (b <=? a) && (a <? e) then Some f else None
  end.

Lemma add_range_empty t n b size f :
  repr t [] n -> 0 <= b < 2 ^ 64 -> 0 < size -> b + size <= PHYS_ADDR_MAX ->
  memblock_add_range t b size f = 
    Ret (0, mk_type (cnt t) (max t) size (<[0%nat := mk_region b size f]> (regions t))) /\
  repr (mk_type (cnt t) (max t) size (<[0%nat := mk_region b size f]> (regions t)))
    [mk_region b size f] n.
Proof.
  intros [H _] Hb Hs He. simpl in H. unfold PHYS_ADDR_MAX in *.
  assert (Hr : rd (regions t) 0 = Ret zero_region).
  { apply (holds_lookup t [] zero_region [] n 0 0 H eq_refl). }
  destruct (holds_write t [] zero_region (mk_region b size f) [] n 0 0 H eq_refl)
    as (rs & Hw & Hh).
  assert (Hrs : rs = <[0%nat := mk_region b size f]> (regions t)).
  { unfold wr in Hw. case_decide; [|done]. by injection Hw as <-. }
  subst rs. split.
  - unfold memblock_add_range, memblock_cap_size, PHYS_ADDR_MAX.
    rewrite (u64_small (_ - b)) by lia. rewrite Z.min_l by lia. zdec.
    rewrite Hr, bind_ret. simpl (rsize zero_region). zdec.
    simpl in Hw. by rewrite Hw, bind_ret.
  - split; [|simpl; unfold PHYS_ADDR_MAX; lia]. simpl. rewrite Z.add_0_r. apply (Hh size).
Qed.

(** The result of adding a range to regions [l], and when it fits. *)
Lemma add_range_nonempty t r l n b size f :
  repr t (r :: l) n -> 0 <= b < 2 ^ 64 -> 0 <= size < 2 ^ 64 ->
  let e := b + memblock_cap_size b size in
  let new := fill f e b (r :: l) in
  if n <? Z.of_nat (length new)
  then memblock_add_range t b size f = Ret (- ENOMEM, t)
  else exists t' l', memblock_add_range t b size f = Ret (0, t') /\
    repr t' l' n /\ (minimal (r :: l) -> minimal l') /\
    forall a, flags_at l' a = flags_at new a.
Proof.
  intros [H Hk] Hb Hs e new. simpl norm in H.
  pose proof (holds_cnt_le _ _ _ _ H) as Hn. pose proof (h_bound _ _ _ _ H) as Hbd.
  pose proof (h_max _ _ _ _ H) as M. pose proof (h_cnt _ _ _ _ H) as C.
  assert (He : e <= PHYS_ADDR_MAX /\ b <= e).
  { unfold e, memblock_cap_size, PHYS_ADDR_MAX. rewrite u64_small by lia. lia. }
  assert (Ht : sum_size (r :: l) = u64 (sum_size (r :: l))) by (by rewrite ok_sum_u64).
  assert (HF : ok 0 new) by (apply fill_ok; auto; lia).
  pose proof (fill_length f e b (r :: l)) as HL. fold new in HL.
  pose proof (fill_length_le f e b (r :: l)) as HL2. fold new in HL2.
  unfold memblock_add_range. fold e.
  destruct (Z.eqb_spec (memblock_cap_size b size) 0) as [E0|E0].
  { assert (b = e) as Eb by (unfold e; lia). unfold new. rewrite <- Eb, fill_done. zdec.
    exists t, (r :: l). split_and!; [done|by split|done|done]. }
  rewrite (holds_lookup t [] r l n _ 0 H eq_refl), bind_ret.
  pose proof Hk as (K1 & K2 & K3 & K4). zdec.
  rewrite (u64_small e) by (unfold PHYS_ADDR_MAX in *; lia).
  rewrite (add_range_pass_count f e t (r :: l) b n _ H Hk) by (auto; lia).
  rewrite bind_ret, M, C. fold new.
  destruct (Z.ltb_spec n (Z.of_nat (length new))) as [Hfull|Hfit].
  { zdec. rewrite u64_small by lia. by zdec. }
  assert (Hu : u64 (Z.of_nat (length (r :: l)) + (Z.of_nat (length new) - Z.of_nat (length (r :: l)))) = Z.of_nat (length new)).
  { rewrite u64_small by lia. lia. }
  destruct (Z.eqb_spec (Z.of_nat (length new) - Z.of_nat (length (r :: l))) 0) as [E1|E1].
  { exists t, (r :: l). split_and!; [done|by split|done|].
    intros a. assert (new = r :: l) as ->; [|done].
    by apply fill_same_length. }
  rewrite Hu. zdec.
  destruct (add_range_pass_insert f e t (r :: l) b n _ H Hk) as (t1 & -> & H1); [lia|lia|exact Ht|exact Hfit|].
  fold new in H1 |- *. rewrite bind_ret. zdec.
  destruct (fill_head_size 0 f e b r l Hk) as (x & l2 & El2 & _); [lia|].
  fold new in El2. rewrite El2 in *.
  destruct (merge_regions_holds t1 x l2 n _ H1) as (t2 & -> & H2); [done|].
  rewrite bind_ret. exists t2, (merge_aux x l2).
  destruct (merge_aux_ok 0 x l2 HF) as (K & S & F).
  split; [done|]. split; [|split; [intros _; apply merge_aux_minimal|exact F]].
  apply repr_intro with (1 := H2).
  - by destruct (merge_aux_head x l2) as (? & ? & ? & -> & _).
  - done.
  - rewrite u64_idem, S. f_equal. lia.
  - by rewrite u64_idem.
Qed.

(** Adding a range, on every type: failure leaves the type unchanged and
    happens only when the filled region list exceeds the capacity; success
    adds exactly the addresses of the range that had no region. *)
Lemma add_range_total t l n b size f :
  repr t l n -> 0 <= b < 2 ^ 64 -> 0 <= size < 2 ^ 64 ->
  let e := b + memblock_cap_size b size in
  (memblock_add_range t b size f = Ret (- ENOMEM, t) /\
   n < Z.of_nat (length (fill f e b l))) \/
  (exists t' l', memblock_add_range t b size f = Ret (0, t') /\
   repr t' l' n /\ (minimal l -> minimal l') /\
   forall a, flags_at l' a = union_flags (flags_at l a) f b e a).
Proof.
  intros H Hb Hs e.
  assert (He : e <= PHYS_ADDR_MAX /\ b <= e).
  { unfold e, memblock_cap_size, PHYS_ADDR_MAX. rewrite u64_small by lia. lia. }
  destruct l as [|r l].
  - right. unfold e in *. destruct (Z.eq_dec (memblock_cap_size b size) 0) as [E0|E0].
    + exists t, []. rewrite E0 in *. split_and!; try done.
      * unfold memblock_add_range. by rewrite E0.
      * intros a. simpl. destruct (Z.leb_spec b a), (Z.ltb_spec a (b + 0)); simpl; try done; lia.
    + set (sz := memblock_cap_size b size) in *.
      assert (Hcap : memblock_cap_size b sz = sz).
      { unfold sz, memblock_cap_size. lia. }
      destruct (add_range_empty t n b sz f H Hb) as [He1 Hr]; [lia|lia|].
      eexists _, _. split; [|split; [exact Hr|split; [done|]]].
      * rewrite <- He1. unfold memblock_add_range. by rewrite Hcap.
      * intros a. simpl. unfold contains. simpl. done.
  - pose proof (add_range_nonempty t r l n b size f H Hb Hs) as Hspec.
    fold e in Hspec. cbv zeta in Hspec. case_match eqn:E.
    + left. split; [exact Hspec|]. by apply Z.ltb_lt.
    + right. destruct Hspec as (t' & l' & H1 & H2 & H3 & H4).
      exists t', l'. split_and!; auto. intros a. rewrite H4. destruct H as [_ Hk].
      apply fill_flags_at with (lo := 0); auto; lia.
Qed.

(** ** Splitting regions at the ends of a range *)

Definition split_region (b e : Z) (r : memblock_region) : list memblock_region :=
  let rend := base r + rsize r in
  piece (flags r) (base r) (Z.min rend b) ++
  piece (flags r) (Z.max (base r) b) (Z.min rend e) ++
  piece (flags r) (Z.max (base r) e) rend.

Fixpoint split_list (b e : Z) (l : list memblock_region) : list memblock_region :=
  match l with [] => [] | r :: l' => split_region b e r ++ split_list b e l' end.

Definition below (b : Z) (r : memblock_region) : Prop := base r + rsize r <= b.
Definition inside (b e : Z) (r : memblock_region) : Prop :=
  b <= base r /\ base r + rsize r <= e.
Definition above (e : Z) (r : memblock_region) : Prop := e <= base r.

Lemma region_eta r s f z : base r = z -> rsize r = s -> flags r = f -> r = mk_region z s f.
Proof. destruct r; simpl; congruence. Qed.

Lemma split_atomic b e r :
  b <= e -> 0 < rsize r -> below b r \/ inside b e r \/ above e r ->
  split_region b e r = [r].
Proof.
  unfold below, inside, above, split_region, piece. intros Hbe Hs [H|[H|H]];
    repeat (match goal with |- context [?x <? ?y] =>
      destruct (Z.ltb_spec x y); [try lia|try lia] end); simpl; try lia; f_equal;
    symmetry; apply region_eta; lia.
Qed.

Lemma split_low b e r :
  b <= e -> base r < b < base r + rsize r ->
  split_region b e r =
    mk_region (base r) (b - base r) (flags r) ::
    split_region b e (mk_region b (base r + rsize r - b) (flags r)).
Proof.
  intros Hbe H. unfold split_region, piece. simpl.
  replace (b + (base r + rsize r - b)) with (base r + rsize r) by lia.
  rewrite !(Z.min_r (base r + rsize r) b) by lia.
  rewrite !(Z.max_r (base r) b), Z.max_id by lia.
  rewrite (Z.max_r (base r) e), (Z.max_r b e) by lia.
  zdec. done.
Qed.

Lemma split_high b e r :
  b <= base r -> base r < e < base r + rsize r ->
  split_region b e r =
    [mk_region (base r) (e - base r) (flags r);
     mk_region e (base r + rsize r - e) (flags r)].
Proof.
  intros Hb H. unfold split_region, piece.
  rewrite Z.min_r, Z.max_l, (Z.min_r _ e), Z.max_r by lia. by zdec.
Qed.

Lemma split_app b e l1 l2 : split_list b e (l1 ++ l2) = split_list b e l1 ++ split_list b e l2.
Proof. induction l1 as [|r l1 IH]; simpl; [done|]. by rewrite IH, app_assoc. Qed.

Lemma split_above lo b e l : b <= e -> e <= lo -> ok lo l -> split_list b e l = l.
Proof.
  intros Hbe. revert lo. induction l as [|r l IH]; intros lo He Hk; simpl; [done|].
  destruct Hk as (K1 & K2 & K3 & K4).
  rewrite split_atomic by (auto; unfold above; lia).
  rewrite (IH (base r + rsize r)) by (auto; lia). done.
Qed.

Lemma split_region_sum b e r :
  b <= e -> 0 < rsize r -> sum_size (split_region b e r) = rsize r.
Proof.
  intros Hbe Hs. unfold split_region, piece. rewrite !sum_size_app.
  repeat (match goal with |- context [?x <? ?y] => destruct (Z.ltb_spec x y) end);
    simpl; lia.
Qed.

Lemma split_sum lo b e l : b <= e -> ok lo l -> sum_size (split_list b e l) = sum_size l.
Proof.
  intros Hbe. revert lo. induction l as [|r l IH]; intros lo Hk; simpl; [done|].
  destruct Hk as (K1 & K2 & K3 & K4).
  rewrite sum_size_app, split_region_sum, (IH _ K4) by lia. done.
Qed.

Lemma split_region_nonempty b e r :
  b <= e -> 0 < rsize r -> (1 <= length (split_region b e r))%nat.
Proof.
  intros Hbe Hs. unfold split_region, piece. rewrite !length_app.
  repeat (match goal with |- context [?x <? ?y] => destruct (Z.ltb_spec x y) end);
    simpl; lia.
Qed.

Lemma split_length lo b e l :
  b <= e -> ok lo l ->
  Z.of_nat (length l) <= Z.of_nat (length (split_list b e l)) <=
    Z.of_nat (length l) + (if lo <? b then 1 else 0) + (if lo <? e then 1 else 0).
Proof.
  intros Hbe. revert lo. induction l as [|r l IH]; intros lo Hk; simpl.
  { repeat case_match; lia. }
  destruct Hk as (K1 & K2 & K3 & K4). specialize (IH _ K4).
  rewrite length_app. revert IH. unfold split_region, piece. rewrite !length_app.
  repeat (match goal with |- context [?x <? ?y] => destruct (Z.ltb_spec x y) end);
    simpl; lia.
Qed.

Lemma split_region_ok lo b e r l :
  b <= e -> lo <= base r -> 0 < rsize r -> base r + rsize r <= PHYS_ADDR_MAX ->
  ok (base r + rsize r) l -> ok lo (split_region b e r ++ l).
Proof.
  intros Hbe Hlo Hs He Hk. unfold split_region, piece.
  repeat (match goal with |- context [?x <? ?y] => destruct (Z.ltb_spec x y) end);
    simpl; repeat match goal with |- _ /\ _ => split end;
    try (eapply ok_weaken; [exact Hk|lia]); lia.
Qed.

Lemma split_ok lo b e l : b <= e -> ok lo l -> ok lo (split_list b e l).
Proof.
  intros Hbe. revert lo. induction l as [|r l IH]; intros lo Hk; simpl; [done|].
  destruct Hk as (K1 & K2 & K3 & K4). apply split_region_ok; auto.
Qed.

Lemma split_flags_at b e l a :
  b <= e -> flags_at (split_list b e l) a = flags_at l a.
Proof.
  intros Hbe. induction l as [|r l IH]; simpl; [done|]. rewrite flags_at_app, IH.
  unfold split_region. rewrite !flags_at_app, !flags_at_piece.
  destruct (contains r a) eqn:E.
  - apply contains_spec in E.
    repeat (match goal with
      | |- context [?x <=? ?y] => destruct (Z.leb_spec x y)
      | |- context [?x <? ?y] => destruct (Z.ltb_spec x y) end; simpl); try done; lia.
  - apply contains_false in E.
    repeat (match goal with
      | |- context [?x <=? ?y] => destruct (Z.leb_spec x y)
      | |- context [?x <? ?y] => destruct (Z.ltb_spec x y) end; simpl); try done; lia.
Qed.
