(* ===== verification/MemblockRanges.v ===== *)
(** * Isolating, removing and flagging ranges

    [memblock_isolate_range] computes [split_list]; removal and flag changes
    then act on a contiguous block of whole regions. *)

From stdpp Require Import base numbers list option.
From Stdlib Require Import ZArith Lia.
From S2P Require Import Prelude Memblock MemblockFacts.

Section isolate.
Context (b e : Z) (Hbe : 0 <= b <= e) (He : e <= PHYS_ADDR_MAX).

(** The processed prefix: regions below the range, then regions inside it,
    the latter being the index interval [s, s'). *)
Definition processed (P : list memblock_region) (s s' : Z) : Prop :=
  exists A M, P = A ++ M /\ Forall (below b) A /\ Forall (inside b e) M /\
    ((M = [] /\ s = 0 /\ s' = 0) \/
     (M <> [] /\ s = Z.of_nat (length A) /\ s' = Z.of_nat (length P))).

Definition isolated (T : list memblock_region) (s s' : Z) : Prop :=
  exists A M B, T = A ++ M ++ B /\ Forall (below b) A /\ Forall (inside b e) M /\
    Forall (above e) B /\
    ((M = [] /\ s = 0 /\ s' = 0) \/
     (M <> [] /\ s = Z.of_nat (length A) /\ s' = Z.of_nat (length (A ++ M)))).

Lemma ok_above lo l : e <= lo -> ok lo l -> Forall (above e) l.
Proof.
  revert lo. induction l as [|r l IH]; intros lo Hlo Hk; [done|].
  destruct Hk as (K1 & K2 & K3 & K4). constructor; [unfold above; lia|].
  apply (IH (base r + rsize r)); [lia|exact K4].
Qed.

Lemma processed_isolated P Q s s' :
  processed P s s' -> Forall (above e) Q -> isolated (P ++ Q) s s'.
Proof.
  intros (A & M & -> & HA & HM & H) HQ. exists A, M, Q. by rewrite <- app_assoc.
Qed.

Lemma processed_below P r Q s s' :
  processed P s s' -> ok 0 (P ++ r :: Q) -> below b r -> processed (P ++ [r]) s s'.
Proof.
  intros (A & M & -> & HA & HM & [(-> & -> & ->)|(Hne & Hs & Hs')]) Hk Hr.
  - exists (A ++ [r]), []. rewrite !app_nil_r. split_and!; auto.
    apply Forall_app. auto.
  - exfalso. destruct M as [|m M]; [done|].
    apply ok_app in Hk as (K1 & K2 & K3). simpl in K2.
    inversion HM as [|? ? [Hm1 Hm2] _]; subst.
    specialize (K3 m r). rewrite !elem_of_app, !elem_of_cons in K3.
    specialize (K3 ltac:(tauto) ltac:(tauto)). unfold below in Hr.
    apply ok_app in K1 as (_ & (? & ? & _) & _). lia.
Qed.

Lemma processed_inside P r s s' :
  processed P s s' -> inside b e r ->
  processed (P ++ [r]) (if s' =? 0 then Z.of_nat (length P) else s)
    (Z.of_nat (length P) + 1).
Proof.
  intros (A & M & -> & HA & HM & H) Hr. exists A, (M ++ [r]).
  rewrite app_assoc. split_and!; auto. { apply Forall_app. auto. }
  right. rewrite length_snoc. split_and!; [by destruct M| |done].
  destruct H as [(-> & -> & ->)|(Hne & Hs & Hs')].
  - simpl. by rewrite app_nil_r.
  - destruct M; [done|]. rewrite Hs', length_app. simpl. zdec. exact Hs.
Qed.

Lemma isolate_step_end t P n tot s s' :
  holds t P n tot ->
  isolate_step b e (t, Z.of_nat (length P), s, s') = Ret (inr (t, s, s')).
Proof. intros H. unfold isolate_step. by rewrite (holds_at_end _ _ _ _ _ H eq_refl). Qed.

Lemma isolate_step_break t P r Q n tot s s' :
  holds t (P ++ r :: Q) n tot -> e <= base r ->
  isolate_step b e (t, Z.of_nat (length P), s, s') = Ret (inr (t, s, s')).
Proof.
  intros H Hr. unfold isolate_step.
  rewrite (holds_not_end _ _ _ _ _ _ _ H eq_refl).
  rewrite (holds_lookup _ _ _ _ _ _ _ H eq_refl), bind_ret. by zdec.
Qed.

Lemma isolate_step_below t P r Q n tot s s' :
  holds t (P ++ r :: Q) n tot -> ok 0 (r :: Q) -> base r < e -> below b r ->
  isolate_step b e (t, Z.of_nat (length P), s, s') =
    Ret (inl (t, Z.of_nat (length (P ++ [r])), s, s')).
Proof.
  intros H (K1 & K2 & K3 & K4) Hr Hb. unfold isolate_step, below, PHYS_ADDR_MAX in *.
  rewrite (holds_not_end _ _ _ _ _ _ _ H eq_refl).
  rewrite (holds_lookup _ _ _ _ _ _ _ H eq_refl), bind_ret.
  rewrite (u64_small (base r + rsize r)) by lia. zdec. by rewrite length_snoc.
Qed.

Lemma isolate_step_inside t P r Q n tot s s' :
  holds t (P ++ r :: Q) n tot -> ok 0 (r :: Q) -> inside b e r ->
  isolate_step b e (t, Z.of_nat (length P), s, s') =
    Ret (inl (t, Z.of_nat (length (P ++ [r])),
      (if s' =? 0 then Z.of_nat (length P) else s), Z.of_nat (length P) + 1)).
Proof.
  intros H (K1 & K2 & K3 & K4) [Hr1 Hr2]. unfold isolate_step, PHYS_ADDR_MAX in *.
  rewrite (holds_not_end _ _ _ _ _ _ _ H eq_refl).
  rewrite (holds_lookup _ _ _ _ _ _ _ H eq_refl), bind_ret.
  rewrite (u64_small (base r + rsize r)) by lia. rewrite length_snoc. 
  destruct (s' =? 0); by zdec.
Qed.

(** Both splits replace region [r] by a lower part that ends at [z] and an
    upper part that starts there. *)
Lemma split_at t P r Q n tot z :
  holds t (P ++ r :: Q) n tot -> ok 0 (r :: Q) -> base r < z < base r + rsize r ->
  Z.of_nat (length (P ++ r :: Q)) < n -> tot = u64 tot ->
  exists rs t', wr (regions t) (Z.of_nat (length P))
      (mk_region z (u64 (rsize r - u64 (z - base r))) (flags r)) = Ret rs /\
    memblock_insert_region
      (mk_type (cnt t) (max t) (u64 (total_size t - u64 (z - base r))) rs)
      (Z.of_nat (length P)) (base r) (u64 (z - base r)) (flags r) = Ret t' /\
    holds t' (P ++ mk_region (base r) (z - base r) (flags r) ::
              mk_region z (base r + rsize r - z) (flags r) :: Q) n tot.
Proof.
  intros H (K1 & K2 & K3 & K4) Hz Hn Ht. unfold PHYS_ADDR_MAX in *.
  rewrite (u64_small (z - base r)), (u64_small (rsize r - _)) by lia.
  replace (rsize r - (z - base r)) with (base r + rsize r - z) by lia.
  destruct (holds_write _ _ _ (mk_region z (base r + rsize r - z) (flags r)) _ _ _ _ H eq_refl)
    as (rs & -> & Hw). exists rs.
  rewrite (h_tot _ _ _ _ H).
  destruct (holds_insert _ P _ n _ (Z.of_nat (length P)) (base r) (z - base r) (flags r)
    (Hw (u64 (tot - (z - base r)))) eq_refl) as (t' & -> & H').
  { rewrite length_app in *. simpl in *. lia. }
  exists t'. split_and!; [done..|]. rewrite u64_add_l in H'.
  replace (tot - (z - base r) + (z - base r)) with tot in H' by lia. by rewrite <- Ht in H'.
Qed.

Lemma isolate_step_low t P r Q n tot s s' :
  holds t (P ++ r :: Q) n tot -> ok 0 (r :: Q) -> base r < b < base r + rsize r ->
  base r < e -> Z.of_nat (length (P ++ r :: Q)) < n -> tot = u64 tot ->
  let lower := mk_region (base r) (b - base r) (flags r) in
  exists t', isolate_step b e (t, Z.of_nat (length P), s, s') =
      Ret (inl (t', Z.of_nat (length (P ++ [lower])), s, s')) /\
    holds t' (P ++ lower :: mk_region b (base r + rsize r - b) (flags r) :: Q) n tot.
Proof.
  intros H Hk Hr Hre Hn Ht lower.
  destruct (split_at t P r Q n tot b H Hk Hr Hn Ht) as (rs & t' & Hw & Hi & H').
  exists t'. split; [|exact H']. unfold isolate_step.
  rewrite (holds_not_end _ _ _ _ _ _ _ H eq_refl).
  rewrite (holds_lookup _ _ _ _ _ _ _ H eq_refl), bind_ret.
  destruct Hk as (K1 & K2 & K3 & K4). unfold PHYS_ADDR_MAX in *.
  rewrite (u64_small (base r + rsize r)) by lia.
  zdec. rewrite Hw, bind_ret, Hi, bind_ret. by rewrite length_snoc.
Qed.

Lemma isolate_step_high t P r Q n tot s s' :
  holds t (P ++ r :: Q) n tot -> ok 0 (r :: Q) -> b <= base r ->
  base r < e < base r + rsize r -> Z.of_nat (length (P ++ r :: Q)) < n -> tot = u64 tot ->
  exists t', isolate_step b e (t, Z.of_nat (length P), s, s') =
      Ret (inl (t', Z.of_nat (length P), s, s')) /\
    holds t' (P ++ mk_region (base r) (e - base r) (flags r) ::
              mk_region e (base r + rsize r - e) (flags r) :: Q) n tot.
Proof.
  intros H Hk Hb Hr Hn Ht.
  destruct (split_at t P r Q n tot e H Hk Hr Hn Ht) as (rs & t' & Hw & Hi & H').
  exists t'. split; [|exact H']. unfold isolate_step.
  rewrite (holds_not_end _ _ _ _ _ _ _ H eq_refl).
  rewrite (holds_lookup _ _ _ _ _ _ _ H eq_refl), bind_ret.
  destruct Hk as (K1 & K2 & K3 & K4). unfold PHYS_ADDR_MAX in *.
  rewrite (u64_small (base r + rsize r)) by lia.
  zdec. rewrite Hw, bind_ret, Hi, bind_ret. do 5 f_equal. lia.
Qed.

Lemma isolate_loop fuel : forall Q P t s s' n tot,
  holds t (P ++ Q) n tot -> ok 0 (P ++ Q) -> processed P s s' ->
  Z.of_nat (length (P ++ split_list b e Q)) <= n -> tot = u64 tot ->
  (2 * length (split_list b e Q) < fuel + length Q)%nat ->
  exists t' s2 s2', loop fuel (isolate_step b e) (t, Z.of_nat (length P), s, s') =
      Ret (t', s2, s2') /\
    holds t' (P ++ split_list b e Q) n tot /\ isolated (P ++ split_list b e Q) s2 s2'.
Proof.
  induction fuel as [|fuel IH]; intros Q P t s s' n tot H Hk HP Hn Ht Hf.
  { pose proof (proj1 (proj2 (proj1 (ok_app _ _ _) Hk))) as HkQ.
    pose proof (split_length _ b e Q ltac:(lia) HkQ). lia. }
  rewrite loop_S. pose proof (proj1 (proj2 (proj1 (ok_app _ _ _) Hk))) as HkQ.
  destruct Q as [|r Q].
  { rewrite app_nil_r in H. rewrite (isolate_step_end _ _ _ _ _ _ H), bind_ret.
    simpl. rewrite app_nil_r. eexists _, _, _. split_and!; [reflexivity|exact H|].
    rewrite <- (app_nil_r P). by apply processed_isolated. }
  pose proof HkQ as (K1 & K2 & K3 & K4).
  pose proof (split_length _ b e Q ltac:(lia) K4) as HL.
  pose proof (split_region_nonempty b e r ltac:(lia) K2) as HN.
  assert (HkP : ok 0 ((P ++ [r]) ++ Q)) by (by rewrite <- app_assoc).
  destruct (Z.le_gt_cases e (base r)) as [C1|C1].
  { rewrite (isolate_step_break _ _ _ _ _ _ _ _ H C1), bind_ret.
    assert (HQ : ok e (r :: Q)) by (simpl; split_and!; auto).
    rewrite (split_above e) by (auto; lia).
    eexists _, _, _. split_and!; [reflexivity|exact H|].
    apply processed_isolated; [done|]. apply (ok_above e); [lia|exact HQ]. }
  destruct (Z.le_gt_cases (base r + rsize r) b) as [C2|C2].
  { assert (E : split_list b e (r :: Q) = r :: split_list b e Q)
      by (simpl; rewrite split_atomic; auto; lia).
    rewrite (isolate_step_below _ _ _ _ _ _ _ _ H HkQ C1 C2), bind_ret.
    rewrite E in *. rewrite (app_snoc P r (split_list b e Q)) in *.
    apply (IH Q (P ++ [r])); auto; [by apply holds_shift|eapply processed_below; eauto|].
    simpl in Hf. lia. }
  destruct (Z.lt_ge_cases (base r) b) as [C3|C3].
  { assert (E := split_low b e r ltac:(lia) ltac:(lia)).
    set (lower := mk_region (base r) (b - base r) (flags r)) in *.
    set (upper := mk_region b (base r + rsize r - b) (flags r)) in *.
    assert (E' : split_list b e (r :: Q) = lower :: split_list b e (upper :: Q))
      by (simpl; rewrite E; done).
    assert (HNu := split_region_nonempty b e upper ltac:(lia) ltac:(simpl; lia)).
    rewrite E' in *. rewrite (app_snoc P lower (split_list b e (upper :: Q))) in *.
    assert (HkL : ok 0 (P ++ lower :: upper :: Q)).
    { apply ok_app in Hk as (L1 & L2 & L3). apply ok_app. split_and!; auto.
      - simpl. replace (base r + (b - base r)) with b by lia.
        replace (b + (base r + rsize r - b)) with (base r + rsize r) by lia.
        split_and!; auto; lia.
      - intros x y Hx Hy. specialize (L3 x r Hx ltac:(left)) as L4.
        rewrite !elem_of_cons in Hy. destruct Hy as [->|[->|Hy]]; simpl; [lia|lia|].
        apply L3; [done|by right]. }
    destruct (isolate_step_low t P r Q n tot s s' H HkQ) as (t' & -> & H'); [lia|lia| |exact Ht|].
    { rewrite !length_app in *. simpl in *. rewrite length_app in *. lia. }
    rewrite bind_ret. fold lower.
    apply (IH (upper :: Q) (P ++ [lower])); auto.
    - by apply holds_shift.
    - by rewrite <- app_assoc.
    - eapply processed_below; [exact HP|exact HkL|]. unfold below. simpl. lia.
    - simpl in *. lia. }
  destruct (Z.lt_ge_cases e (base r + rsize r)) as [C4|C4].
  { assert (E := split_high b e r ltac:(lia) ltac:(lia)).
    set (lower := mk_region (base r) (e - base r) (flags r)) in *.
    set (upper := mk_region e (base r + rsize r - e) (flags r)) in *.
    assert (E' : split_list b e (r :: Q) = split_list b e (lower :: upper :: Q)).
    { simpl. rewrite E, (split_atomic b e lower), (split_atomic b e upper);
        unfold below, inside, above; simpl; auto; lia. }
    assert (E2 : split_list b e (lower :: upper :: Q) = lower :: upper :: split_list b e Q).
    { rewrite <- E'. simpl. by rewrite E. }
    assert (HkL : ok 0 (P ++ lower :: upper :: Q)).
    { apply ok_app in Hk as (L1 & L2 & L3). apply ok_app. split_and!; auto.
      - simpl. replace (base r + (e - base r)) with e by lia.
        replace (e + (base r + rsize r - e)) with (base r + rsize r) by lia.
        split_and!; auto; lia.
      - intros x y Hx Hy. specialize (L3 x r Hx ltac:(left)) as L4.
        rewrite !elem_of_cons in Hy. destruct Hy as [->|[->|Hy]]; simpl; [lia|lia|].
        apply L3; [done|by right]. }
    destruct (isolate_step_high t P r Q n tot s s' H HkQ C3) as (t' & -> & H'); [lia| |exact Ht|].
    { rewrite E', E2 in Hn. rewrite !length_app in *. simpl in *. lia. }
    rewrite bind_ret. rewrite E' in *.
    apply (IH (lower :: upper :: Q) P); auto. rewrite E2 in *. simpl in *. lia. }
  assert (Hin : inside b e r) by (unfold inside; lia).
  assert (E : split_list b e (r :: Q) = r :: split_list b e Q)
    by (simpl; rewrite split_atomic; auto; lia).
  rewrite (isolate_step_inside _ _ _ _ _ _ _ _ H HkQ Hin), bind_ret.
  rewrite E in *. rewrite (app_snoc P r (split_list b e Q)) in *.
  apply (IH Q (P ++ [r])); auto; [by apply holds_shift|by apply processed_inside|].
  simpl in Hf. lia.
Qed.

End isolate.

(** ** [memblock_isolate_range] *)

Lemma cap_end b size :
  0 <= b < 2 ^ 64 -> 0 <= size < 2 ^ 64 ->
  0 <= b <= b + memblock_cap_size b size /\
  b + memblock_cap_size b size <= PHYS_ADDR_MAX /\
  u64 (b + memblock_cap_size b size) = b + memblock_cap_size b size.
Proof.
  intros. unfold memblock_cap_size, PHYS_ADDR_MAX.
  rewrite (u64_small (_ - b)), u64_small by lia. lia.
Qed.

Lemma repr_total t l n : repr t l n -> sum_size l = u64 (sum_size l).
Proof. intros [_ Hk]. by rewrite ok_sum_u64. Qed.

Lemma repr_room t l n : repr t l n -> Z.of_nat (length (norm l)) <= n.
Proof. intros [H _]. by apply holds_cnt_le in H. Qed.

Lemma isolate_empty t n b e :
  holds t [zero_region] n 0 -> 0 <= b < e ->
  loop (Z.to_nat (cnt t) + 5) (isolate_step b e) (t, 0, 0, 0) = Ret (t, 0, 0).
Proof.
  intros H Hb. rewrite (h_cnt _ _ _ _ H).
  change (Z.to_nat (Z.of_nat (length [zero_region])) + 5)%nat with 6%nat.
  rewrite (loop_inl _ _ _ (t, 1, 0, 0)), (loop_inr _ _ _ (t, 0, 0)); [done| |].
  - apply (isolate_step_end b e t [zero_region] n 0 0 0 H).
  - unfold isolate_step. rewrite (holds_not_end t [] _ _ _ _ 0 H eq_refl).
    rewrite (holds_lookup t [] _ _ _ _ 0 H eq_refl), bind_ret. simpl (base zero_region).
    simpl (rsize zero_region). change (u64 (0 + 0)) with 0. by zdec.
Qed.

Lemma isolate_range_ok t l n b size :
  repr t l n -> 0 <= b < 2 ^ 64 -> 0 < memblock_cap_size b size -> 0 <= size < 2 ^ 64 ->
  Z.of_nat (length (norm l)) + 2 <= n ->
  let e := b + memblock_cap_size b size in
  exists t' s s', memblock_isolate_range t b size = Ret (0, t', s, s') /\
    holds t' (norm (split_list b e l)) n (sum_size l) /\
    isolated b e (split_list b e l) s s'.
Proof.
  intros Hr Hb Hc Hs Hn e. destruct (cap_end b size Hb Hs) as (E1 & E2 & E3).
  fold e in E1, E2, E3. pose proof (repr_total _ _ _ Hr) as Ht. destruct Hr as [H Hk].
  unfold memblock_isolate_range. fold e. rewrite E3. pose proof (h_bound _ _ _ _ H).
  rewrite (h_max _ _ _ _ H), (h_cnt _ _ _ _ H), u64_small by lia. zdec.
  rewrite <- (h_cnt _ _ _ _ H). destruct l as [|r l].
  - simpl in H. rewrite (isolate_empty _ _ _ _ H) by (unfold e; lia). rewrite bind_ret.
    exists t, 0, 0. split_and!; [done|done|]. exists [], [], []. split_and!; auto.
  - pose proof (split_length 0 b e (r :: l) ltac:(lia) Hk) as HL.
    assert (Hne : split_list b e (r :: l) <> []) by (intros E; rewrite E in HL; simpl in HL; lia).
    simpl norm in H, Hn |- *.
    destruct (isolate_loop b e E1 E2 (Z.to_nat (cnt t) + 5) (r :: l) [] t 0 0 n _ H Hk)
      as (t' & s & s' & Hl & H' & Hi); [| |exact Ht| |].
    + exists [], []. split_and!; auto.
    + rewrite app_nil_l. repeat case_match; lia.
    + rewrite (h_cnt _ _ _ _ H). repeat case_match; lia.
    + change (Z.of_nat (length [])) with 0 in Hl. rewrite Hl, bind_ret. exists t', s, s'.
      rewrite app_nil_l in H', Hi. split_and!; [done| |exact Hi].
      by rewrite norm_nonempty.
Qed.

Lemma isolate_range_full t l n b size :
  repr t l n -> 0 < memblock_cap_size b size -> n < Z.of_nat (length (norm l)) + 2 ->
  memblock_isolate_range t b size = Ret (- ENOMEM, t, 0, 0).
Proof.
  intros [H Hk] Hc Hn. pose proof (h_bound _ _ _ _ H). pose proof (holds_cnt_le _ _ _ _ H).
  unfold memblock_isolate_range.
  rewrite (h_max _ _ _ _ H), (h_cnt _ _ _ _ H), u64_small by lia. by zdec.
Qed.

Lemma isolate_range_nil t b size :
  memblock_cap_size b size = 0 -> memblock_isolate_range t b size = Ret (0, t, 0, 0).
Proof. intros Hc. unfold memblock_isolate_range. rewrite Hc. done. Qed.

(** ** Removing a block of regions from the top down *)

Lemma remove_down_loop keep M : forall A B t fuel n tot,
  holds t (A ++ M ++ B) n tot -> (length M < fuel)%nat ->
  A ++ M ++ B <> [] -> tot = u64 tot ->
  exists t', loop fuel (remove_down_step keep (Z.of_nat (length A)))
      (t, Z.of_nat (length (A ++ M)) - 1) = Ret t' /\
    holds t' (norm (A ++ List.filter keep M ++ B)) n
      (u64 (tot - (sum_size M - sum_size (List.filter keep M)))).
Proof.
  induction M as [|m M IH] using rev_ind; intros A B t fuel n tot H Hf Hne Ht;
    (destruct fuel as [|fuel]; [lia|]).
  { rewrite app_nil_r. exists t. split.
    - apply loop_inr. unfold remove_down_step. by zdec.
    - simpl in *. rewrite norm_nonempty by done.
      replace (tot - (0 - 0)) with tot by lia. by rewrite <- Ht. }
  rewrite length_app in Hf. simpl in Hf.
  rewrite <- app_assoc in H. simpl in H. rewrite app_assoc in H.
  replace (Z.of_nat (length (A ++ M ++ [m])) - 1) with (Z.of_nat (length (A ++ M)))
    by (rewrite !length_app; simpl; lia).
  assert (HA : Z.of_nat (length A) <= Z.of_nat (length (A ++ M)))
    by (rewrite length_app; lia).
  rewrite List.filter_app, !sum_size_app. simpl.
  destruct (keep m) eqn:Ek; simpl.
  - rewrite (loop_inl _ _ _ (t, Z.of_nat (length (A ++ M)) - 1)).
    2:{ unfold remove_down_step. zdec.
        by rewrite (holds_lookup _ _ _ _ _ _ _ H eq_refl), bind_ret, Ek, bind_ret. }
    rewrite <- app_assoc. simpl. rewrite <- app_assoc in H.
    destruct (IH A (m :: B) t fuel n tot H) as (t' & Hl & Ht'); [lia| |exact Ht|].
    { intros E. apply app_eq_nil in E as [_ E]. by apply app_eq_nil in E as [_ E]. }
    exists t'. split; [exact Hl|].
    replace (tot - _) with (tot - (sum_size M - sum_size (List.filter keep M))) by lia.
    exact Ht'.
  - destruct (holds_remove _ _ _ _ _ _ _ H eq_refl) as (t1 & Hrm & H1).
    rewrite (loop_inl _ _ _ (t1, Z.of_nat (length (A ++ M)) - 1)).
    2:{ unfold remove_down_step. zdec.
        by rewrite (holds_lookup _ _ _ _ _ _ _ H eq_refl), bind_ret, Ek, Hrm, bind_ret. }
    rewrite app_nil_r. destruct (decide ((A ++ M) ++ B = [])) as [E|E].
    + apply app_eq_nil in E as [E EB]. apply app_eq_nil in E as [EA EM]. subst A M B.
      destruct fuel as [|fuel]; [lia|]. exists t1. split.
      * apply loop_inr. unfold remove_down_step. simpl (Z.of_nat _). by zdec.
      * match goal with |- holds _ _ _ (u64 ?x) =>
          replace x with (tot - rsize m) by (simpl; lia) end. exact H1.
    + rewrite norm_nonempty in H1 by done. rewrite <- app_assoc in H1, E.
      destruct (IH A B t1 fuel n _ H1) as (t' & Hl & Ht'); [lia|done|by rewrite u64_idem|].
      exists t'. split; [exact Hl|]. rewrite u64_sub_l in Ht'.
      by replace (tot - (sum_size M + (rsize m + 0) - (sum_size (List.filter keep M) + 0))) with
        (tot - rsize m - (sum_size M - sum_size (List.filter keep M))) by lia.
Qed.

Lemma filter_none {A} (l : list A) : List.filter (fun _ => false) l = [].
Proof. by induction l. Qed.

Lemma elem_of_filter_In {A} (p : A -> bool) l x : x ∈ List.filter p l -> x ∈ l /\ p x = true.
Proof. rewrite !list_elem_of_In. apply filter_In. Qed.

Lemma ok_filter lo p l : ok lo l -> ok lo (List.filter p l).
Proof.
  revert lo. induction l as [|r l IH]; intros lo; simpl; [done|].
  intros (K1 & K2 & K3 & K4). specialize (IH _ K4). destruct (p r); simpl; [done|].
  eapply ok_weaken; [exact IH|lia].
Qed.

Lemma ok_drop_middle lo p A M B :
  ok lo (A ++ M ++ B) -> ok lo (A ++ List.filter p M ++ B).
Proof.
  intros H. apply ok_app in H as (HA & H & HAM). apply ok_app in H as (HM & HB & HMB).
  assert (HX : forall x, x ∈ List.filter p M ++ B -> x ∈ M ++ B).
  { intros x. rewrite !elem_of_app. intros [Hx|Hx]; [|by right].
    left. by apply elem_of_filter_In in Hx as [? _]. }
  apply ok_app. split_and!; auto.
  apply ok_app. split_and!; auto; [by apply ok_filter|].
  intros r s Hr. apply elem_of_filter_In in Hr as [Hr _]. auto.
Qed.

Lemma flags_at_none l a :
  Forall (fun r => contains r a = false) l -> flags_at l a = None.
Proof. induction 1 as [|r l H _ IH]; simpl; [done|]. by rewrite H. Qed.

(** In an isolated list the middle block owns exactly the range. *)
Lemma isolated_flags b e A M B a :
  b <= e -> ok 0 (A ++ M ++ B) ->
  Forall (below b) A -> Forall (inside b e) M -> Forall (above e) B ->
  flags_at (A ++ M ++ B) a =
    if (b <=? a) && (a <? e) then flags_at M a else flags_at (A ++ B) a.
Proof.
  intros Hbe Hk HA HM HB. rewrite !flags_at_app. unfold below, inside, above in *.
  destruct (Z.leb_spec b a), (Z.ltb_spec a e); simpl.
  - rewrite (flags_at_none A), (flags_at_none B).
    + by destruct (flags_at M a).
    + eapply Forall_impl; [|exact HB]. intros r Hr. apply contains_false. cbv beta in Hr. lia.
    + eapply Forall_impl; [|exact HA]. intros r Hr. apply contains_false. cbv beta in Hr. lia.
  - rewrite (flags_at_none M); [done|].
    eapply Forall_impl; [|exact HM]. intros r Hr. apply contains_false. cbv beta in Hr. lia.
  - rewrite (flags_at_none M); [done|].
    eapply Forall_impl; [|exact HM]. intros r Hr. apply contains_false. cbv beta in Hr. lia.
  - lia.
Qed.

Lemma isolated_flags_removed b e A B a :
  b <= e -> Forall (below b) A -> Forall (above e) B ->
  b <= a < e -> flags_at (A ++ B) a = None.
Proof.
  intros Hbe HA HB Ha. unfold below, above in *. apply flags_at_none, Forall_app. split.
  - eapply Forall_impl; [|exact HA]. intros r Hr. apply contains_false. cbv beta in Hr. lia.
  - eapply Forall_impl; [|exact HB]. intros r Hr. apply contains_false. cbv beta in Hr. lia.
Qed.

Lemma repr_of_norm t l n tot :
  holds t (norm l) n tot -> ok 0 l -> tot = sum_size l -> repr t l n.
Proof. intros H Hk ->. by split. Qed.

(** Removing a range: failure leaves the type unchanged; success removes
    exactly the addresses of the range. *)
Lemma remove_range_total t l n b size :
  repr t l n -> 0 <= b < 2 ^ 64 -> 0 <= size < 2 ^ 64 ->
  let e := b + memblock_cap_size b size in
  (memblock_remove_range t b size = Ret (- ENOMEM, t) /\
   n < Z.of_nat (length (norm l)) + 2) \/
  (exists t' l', memblock_remove_range t b size = Ret (0, t') /\ repr t' l' n /\
   forall a, flags_at l' a = if (b <=? a) && (a <? e) then None else flags_at l a).
Proof.
  intros Hr Hb Hs e. destruct (cap_end b size Hb Hs) as (E1 & E2 & E3).
  fold e in E1, E2, E3.
  destruct (Z.eq_dec (memblock_cap_size b size) 0) as [E0|E0].
  { right. exists t, l. unfold memblock_remove_range.
    rewrite isolate_range_nil, bind_ret by done. simpl. split_and!; [done..|].
    intros a. unfold e. rewrite E0.
    destruct (Z.leb_spec b a), (Z.ltb_spec a (b + 0)); simpl; try done; lia. }
  destruct (Z.lt_ge_cases n (Z.of_nat (length (norm l)) + 2)) as [Hn|Hn].
  { left. split; [|done]. unfold memblock_remove_range.
    by rewrite (isolate_range_full _ _ _ _ _ Hr) by (try lia). }
  right. destruct (isolate_range_ok t l n b size Hr Hb) as (t1 & s & s' & Hi & H1 & HI);
    [lia|lia|lia|]. fold e in HI, H1. pose proof (repr_total _ _ _ Hr) as Ht.
  destruct Hr as [_ Hk].
  pose proof (split_ok 0 b e l ltac:(lia) Hk) as Hk'.
  pose proof (split_sum 0 b e l ltac:(lia) Hk) as Hsum.
  pose proof (fun a => split_flags_at b e l a ltac:(lia)) as Hfl.
  unfold memblock_remove_range. rewrite Hi, bind_ret. simpl negb. cbv iota.
  destruct HI as (A & M & B & HT & HA & HM & HB & HX). rewrite HT in *.
  assert (Hk2 : ok 0 (A ++ B)).
  { pose proof (ok_drop_middle 0 (fun _ => false) A M B Hk') as H. by rewrite filter_none in H. }
  assert (Hsum2 : sum_size (A ++ B) = sum_size l - sum_size M).
  { rewrite <- Hsum, !sum_size_app. lia. }
  assert (HF : forall a, flags_at (A ++ B) a =
    if (b <=? a) && (a <? e) then None else flags_at l a).
  { intros a. rewrite <- Hfl, (isolated_flags b e A M B a) by (auto; lia).
    destruct ((b <=? a) && (a <? e)) eqn:E; [|done].
    apply andb_true_iff in E as [Ea Eb]. apply Z.leb_le in Ea. apply Z.ltb_lt in Eb.
    apply (isolated_flags_removed b e A B); auto; lia. }
  destruct HX as [(-> & -> & ->)|(Hne & -> & ->)].
  - exists t1, (A ++ B). change (A ++ [] ++ B) with (A ++ B) in *. simpl in Hsum2.
    assert (Hd : remove_regions_down (fun _ => false) t1 0 0 = Ret t1).
    { unfold remove_regions_down. by apply loop_inr. }
    rewrite Hd, bind_ret. split_and!; [done| |exact HF].
    apply repr_of_norm with (1 := H1); [exact Hk2|lia].
  - assert (Hne2 : A ++ M ++ B <> []).
    { intros E. apply app_eq_nil in E as [_ E]. by apply app_eq_nil in E as [E _]. }
    rewrite norm_nonempty in H1 by exact Hne2.
    destruct (remove_down_loop (fun _ => false) M A B t1
      (Z.to_nat (Z.of_nat (length (A ++ M)) - Z.of_nat (length A)) + 1) n _ H1)
      as (t2 & Hl & H2); [rewrite length_app; lia|done|exact Ht|].
    unfold remove_regions_down. rewrite Hl, bind_ret.
    exists t2, (A ++ B). split_and!; [done| |exact HF].
    rewrite filter_none in H2. simpl in H2.
    apply repr_of_norm with (1 := H2); [exact Hk2|].
    rewrite Hsum2, Z.sub_0_r, <- Hsum2. by apply ok_sum_u64.
Qed.

(** ** Changing flags over a range *)

Definition reflag (g : Z -> Z) (r : memblock_region) : memblock_region :=
  mk_region (base r) (rsize r) (g (flags r)).

Definition flag_fun (set : bool) (flag x : Z) : Z :=
  if set then Z.lor x flag else Z.land x (Z.lnot flag).

Lemma setclr_loop set flag M : forall A B t fuel n tot,
  holds t (A ++ M ++ B) n tot -> (length M < fuel)%nat ->
  exists t', loop fuel (setclr_step set flag (Z.of_nat (length (A ++ M))))
      (t, Z.of_nat (length A)) = Ret t' /\
    holds t' (A ++ map (reflag (flag_fun set flag)) M ++ B) n tot.
Proof.
  induction M as [|m M IH]; intros A B t fuel n tot H Hf;
    (destruct fuel as [|fuel]; [simpl in Hf; lia|]).
  { rewrite app_nil_r. exists t. split; [|exact H].
    apply loop_inr. unfold setclr_step. by zdec. }
  set (m' := reflag (flag_fun set flag) m).
  change ((m :: M) ++ B) with (m :: (M ++ B)) in H.
  destruct (holds_write _ _ _ m' _ _ _ _ H eq_refl) as (rs & Hw & H').
  specialize (H' (total_size t)).
  rewrite (loop_inl _ _ _ (mk_type (cnt t) (max t) (total_size t) rs, Z.of_nat (length (A ++ [m'])))).
  2:{ unfold setclr_step. rewrite length_app. simpl (length (m :: M)). zdec.
      rewrite (holds_lookup _ _ _ _ _ _ _ H eq_refl), bind_ret, length_snoc.
      assert (E : (if set then memblock_set_region_flags m flag
                   else memblock_clear_region_flags m flag) = m') by (by destruct set).
      by rewrite E, Hw. }
  rewrite (h_tot _ _ _ _ H) in H' |- *.
  replace (Z.of_nat (length (A ++ m :: M))) with (Z.of_nat (length ((A ++ [m']) ++ M)))
    by (rewrite !length_app; simpl; lia).
  rewrite (app_snoc A m' (M ++ B)) in H'. simpl map. fold m'.
  rewrite <- app_comm_cons, (app_snoc A m' (map (reflag (flag_fun set flag)) M ++ B)).
  apply (IH (A ++ [m'])); [exact H'|simpl in Hf; lia].
Qed.

Lemma reflag_ok lo g A M B :
  ok lo (A ++ M ++ B) -> ok lo (A ++ map (reflag g) M ++ B).
Proof.
  revert lo. induction A as [|r A IH]; intros lo; simpl.
  - revert lo. induction M as [|m M IH]; intros lo; simpl; [done|].
    intros (K1 & K2 & K3 & K4). split_and!; auto.
  - intros (K1 & K2 & K3 & K4). split_and!; auto.
Qed.

Lemma reflag_sum g M : sum_size (map (reflag g) M) = sum_size M.
Proof. induction M as [|m M IH]; simpl; [done|]. by rewrite IH. Qed.

Lemma reflag_flags_at g M a : flags_at (map (reflag g) M) a = g <$> flags_at M a.
Proof.
  induction M as [|m M IH]; simpl; [done|]. unfold contains at 1. simpl.
  fold (contains m a). by destruct (contains m a).
Qed.

Lemma reflag_inside b e g M : Forall (inside b e) M -> Forall (inside b e) (map (reflag g) M).
Proof. induction 1; simpl; constructor; auto. Qed.

Lemma merge_norm t l n tot :
  holds t (norm l) n tot -> ok 0 l -> tot = sum_size l ->
  exists t' l', memblock_merge_regions t = Ret t' /\ repr t' l' n /\ minimal l' /\
    forall a, flags_at l' a = flags_at l a.
Proof.
  intros H Hk ->. destruct l as [|r l].
  - destruct (merge_regions_holds t _ [] n _ H) as (t' & Hm & H'); [done|].
    exists t', []. split_and!; auto. by split.
  - destruct (merge_regions_holds t _ l n _ H) as (t' & Hm & H'); [done|].
    destruct (merge_aux_ok 0 r l Hk) as (K & S & F). exists t', (merge_aux r l).
    split_and!; auto; [|apply merge_aux_minimal].
    apply repr_of_norm with (tot := sum_size (r :: l)); auto.
    rewrite norm_nonempty; [exact H'|].
    by destruct (merge_aux_head r l) as (? & ? & ? & -> & _).
Qed.

(** The effect of [memblock_mark_*] and [memblock_clear_*]. *)
Lemma setclr_flag_total mb l n b size set flag :
  repr (memory mb) l n -> 0 <= b < 2 ^ 64 -> 0 <= size < 2 ^ 64 ->
  let e := b + memblock_cap_size b size in
  (memblock_setclr_flag mb b size set flag = Ret (- ENOMEM, set_memory mb (memory mb)) /\
   n < Z.of_nat (length (norm l)) + 2) \/
  (exists t' l', memblock_setclr_flag mb b size set flag = Ret (0, set_memory mb t') /\
   repr t' l' n /\ minimal l' /\
   forall a, flags_at l' a =
     if (b <=? a) && (a <? e) then flag_fun set flag <$> flags_at l a else flags_at l a).
Proof.
  intros Hr Hb Hs e. destruct (cap_end b size Hb Hs) as (E1 & E2 & E3).
  fold e in E1, E2, E3. unfold memblock_setclr_flag.
  destruct (Z.eq_dec (memblock_cap_size b size) 0) as [E0|E0].
  { right. rewrite isolate_range_nil, bind_ret by done. destruct Hr as [H Hk].
    destruct (merge_norm _ _ _ _ H Hk eq_refl) as (t' & l' & Hm & Hr' & Hmin & Hf).
    exists t', l'. split_and!; auto.
    - simpl negb. cbv iota. change (Z.to_nat (0 - 0) + 1)%nat with 1%nat.
      rewrite (loop_inr _ _ _ (memory mb)) by done. by rewrite bind_ret, Hm.
    - intros a. unfold e. rewrite E0, Hf.
      destruct (Z.leb_spec b a), (Z.ltb_spec a (b + 0)); simpl; try done; lia. }
  destruct (Z.lt_ge_cases n (Z.of_nat (length (norm l)) + 2)) as [Hn|Hn].
  { left. split; [|done]. by rewrite (isolate_range_full _ _ _ _ _ Hr) by (try lia). }
  right. destruct (isolate_range_ok _ l n b size Hr Hb) as (t1 & s & s' & Hi & H1 & HI);
    [lia|lia|lia|]. fold e in HI, H1.
  destruct Hr as [_ Hk]. set (g := flag_fun set flag).
  pose proof (split_ok 0 b e l ltac:(lia) Hk) as Hk'.
  pose proof (split_sum 0 b e l ltac:(lia) Hk) as Hsum.
  pose proof (fun a => split_flags_at b e l a ltac:(lia)) as Hfl.
  rewrite Hi, bind_ret. simpl negb. cbv iota.
  destruct HI as (A & M & B & HT & HA & HM & HB & HX). rewrite HT in *.
  assert (HF : forall a, flags_at (A ++ map (reflag g) M ++ B) a =
    if (b <=? a) && (a <? e) then g <$> flags_at l a else flags_at l a).
  { intros a. rewrite (isolated_flags b e A (map (reflag g) M) B a), reflag_flags_at, <- Hfl,
      (isolated_flags b e A M B a);
      auto using reflag_ok, reflag_inside; try lia. by destruct ((b <=? a) && (a <? e)). }
  assert (HL : exists t2, loop (Z.to_nat (s' - s) + 1) (setclr_step set flag s') (t1, s) = Ret t2 /\
    holds t2 (norm (A ++ map (reflag g) M ++ B)) n (sum_size l)).
  { destruct HX as [(-> & -> & ->)|(Hne & -> & ->)].
    - exists t1. split; [by apply loop_inr|exact H1].
    - assert (Hne2 : forall X, A ++ map X M ++ B <> []).
      { intros X E. apply app_eq_nil in E as [_ E]. apply app_eq_nil in E as [E _].
        by destruct M. }
      rewrite norm_nonempty by apply Hne2.
      rewrite norm_nonempty in H1
        by (specialize (Hne2 (fun x => x)); by rewrite map_id in Hne2).
      apply setclr_loop; [exact H1|]. rewrite length_app. lia. }
  destruct HL as (t2 & -> & H2). rewrite bind_ret.
  destruct (merge_norm t2 _ n _ H2) as (t3 & l3 & -> & Hr3 & Hmin & Hf3).
  { by apply reflag_ok. }
  { rewrite <- Hsum, !sum_size_app. by rewrite reflag_sum. }
  exists t3, l3. split_and!; auto. intros a. by rewrite Hf3.
Qed.
