(* ===== verification/MemblockIter.v ===== *)
(** * The free-range iterators of memblock

    [__next_mem_range] and [__next_mem_range_rev] walk two sorted arrays in
    lockstep.  They are shown to enumerate, in ascending and descending order,
    the list [free_ranges] of the intersections of the memory regions that
    carry the wanted flags with the gaps between the reserved regions. *)

From stdpp Require Import base numbers list option.
From Stdlib Require Import ZArith Lia.
From S2P Require Import Prelude Memblock MemblockFacts.

(** ** The enumerated list *)

(** Sorted regions, empty ones allowed (the region of an empty type). *)
Fixpoint wok (lo : Z) (l : list memblock_region) : Prop :=
  match l with
  | [] => True
  | r :: l' => lo <= base r /\ 0 <= rsize r /\
               base r + rsize r <= PHYS_ADDR_MAX /\ wok (base r + rsize r) l'
  end.

Lemma ok_wok lo l : ok lo l -> wok lo l.
Proof.
  revert lo. induction l as [|r l IH]; intros lo; simpl; [done|].
  intros (?&?&?&?). split_and!; auto; lia.
Qed.

Lemma wok_norm l : ok 0 l -> wok 0 (norm l).
Proof. destruct l; [simpl; unfold PHYS_ADDR_MAX; lia|]. apply ok_wok. Qed.

Definition ends (r : memblock_region) : Z * Z := (base r, base r + rsize r).

(** The gaps between the regions of a list, from [lo] to PHYS_ADDR_MAX. *)
Fixpoint gaps (lo : Z) (B : list memblock_region) : list (Z * Z) :=
  match B with
  | [] => [(lo, PHYS_ADDR_MAX)]
  | r :: B' => (lo, base r) :: gaps (base r + rsize r) B'
  end.

Definition inter (m : memblock_region) (g : Z * Z) : list (Z * Z) :=
  if (base m <? g.2) && (g.1 <? base m + rsize m)
  then [(Z.max (base m) g.1, Z.min (base m + rsize m) g.2)] else [].

Definition ranges1 (f : Z) (G : list (Z * Z)) (m : memblock_region) : list (Z * Z) :=
  if f =? flags m then flat_map (inter m) G else [].

Definition free_ranges (f : Z) (A : list memblock_region) (G : list (Z * Z)) :=
  flat_map (ranges1 f G) A.

Lemma flat_map_nil {A B} (h : A -> list B) l :
  (forall x, x ∈ l -> h x = []) -> flat_map h l = [].
Proof.
  induction l as [|x l IH]; intros H; simpl; [done|].
  rewrite H by left. apply IH. intros y Hy. apply H. by right.
Qed.

Lemma free_ranges_skip_region f m A G :
  (forall g, g ∈ G -> inter m g = []) -> free_ranges f (m :: A) G = free_ranges f A G.
Proof.
  intros H. unfold free_ranges. simpl. unfold ranges1 at 1.
  rewrite (flat_map_nil _ _ H). by destruct (f =? flags m).
Qed.

Lemma free_ranges_skip_flags f m A G :
  (f =? flags m) = false -> free_ranges f (m :: A) G = free_ranges f A G.
Proof. intros H. unfold free_ranges. simpl. unfold ranges1 at 1. by rewrite H. Qed.

Lemma free_ranges_skip_gap f A g G :
  (forall m, m ∈ A -> inter m g = []) -> free_ranges f A (g :: G) = free_ranges f A G.
Proof.
  intros H. unfold free_ranges. induction A as [|m A IH]; simpl; [done|].
  rewrite IH by (intros x Hx; apply H; by right). f_equal.
  unfold ranges1. simpl. by rewrite (H m) by left.
Qed.

Lemma free_ranges_no_gap f A : free_ranges f A [] = [].
Proof.
  apply flat_map_nil. intros m _. unfold ranges1. by destruct (f =? flags m).
Qed.

Lemma free_ranges_emit_region f m A g G x :
  (f =? flags m) = true -> inter m g = [x] -> (forall g', g' ∈ G -> inter m g' = []) ->
  free_ranges f (m :: A) (g :: G) = x :: free_ranges f A (g :: G).
Proof.
  intros Hf Hx H. unfold free_ranges. simpl. f_equal. unfold ranges1 at 1. rewrite Hf.
  simpl. by rewrite Hx, (flat_map_nil _ _ H).
Qed.

Lemma free_ranges_emit_gap f m A g G x :
  (f =? flags m) = true -> inter m g = [x] -> (forall m', m' ∈ A -> inter m' g = []) ->
  free_ranges f (m :: A) (g :: G) = x :: free_ranges f (m :: A) G.
Proof.
  intros Hf Hx H. pose proof (free_ranges_skip_gap f A g G H) as E.
  unfold free_ranges in *. simpl. rewrite E. unfold ranges1 at 1 3. rewrite Hf. simpl.
  by rewrite Hx.
Qed.

Lemma free_ranges_rev f A G :
  rev (free_ranges f A G) = free_ranges f (rev A) (rev G).
Proof.
  assert (Hr : forall {X Y} (h : X -> list Y) l, rev (flat_map h l) = flat_map (fun x => rev (h x)) (rev l)).
  { intros X Y h l. induction l as [|x l IH]; simpl; [done|].
    rewrite rev_app_distr, IH, flat_map_app. simpl. by rewrite app_nil_r. }
  unfold free_ranges. rewrite Hr. apply flat_map_ext. intros m. unfold ranges1.
  destruct (f =? flags m); [|done]. rewrite Hr. apply flat_map_ext. intros g.
  unfold inter. by case_match.
Qed.

#[local] Arguments free_ranges : simpl never.

(** ** Order facts *)

Lemma gaps_length lo B : length (gaps lo B) = S (length B).
Proof. revert lo. induction B as [|r B IH]; intros lo; simpl; [done|]. by rewrite IH. Qed.

Lemma wok_elem lo l r : wok lo l -> r ∈ l ->
  lo <= base r /\ 0 <= rsize r /\ base r + rsize r <= PHYS_ADDR_MAX.
Proof.
  revert lo. induction l as [|x l IH]; intros lo; [intros _ H; inversion H|].
  simpl. intros (?&?&?&Hk) Hr. apply elem_of_cons in Hr as [->|Hr]; [done|].
  specialize (IH _ Hk Hr). lia.
Qed.

Lemma wok_sorted lo l i j r s :
  wok lo l -> (i < j)%nat -> l !! i = Some r -> l !! j = Some s ->
  base r + rsize r <= base s.
Proof.
  revert lo i j. induction l as [|x l IH]; intros lo i j Hk Hij Hi Hj; [done|].
  destruct Hk as (?&?&?&Hk). destruct j as [|j]; [lia|]. simpl in Hj.
  destruct i as [|i]; simpl in Hi.
  - injection Hi as ->. assert (s ∈ l) by (apply list_elem_of_lookup; eauto).
    apply (wok_elem _ _ _ Hk H2).
  - apply (IH _ i j Hk); [lia|done|done].
Qed.

(** Gap [i] of a list: the bounds the C code computes. *)
Lemma gaps_lookup lo B i :
  (i <= length B)%nat ->
  exists g, gaps lo B !! i = Some g /\
    g.1 = (match i with O => lo | S k => match B !! k with Some r => base r + rsize r | None => 0 end end) /\
    g.2 = (match B !! i with Some r => base r | None => PHYS_ADDR_MAX end).
Proof.
  revert lo i. induction B as [|r B IH]; intros lo i Hi; simpl in *.
  - assert (i = O) as -> by lia. eexists. split; [reflexivity|]. done.
  - destruct i as [|i]; [eexists; split; [reflexivity|]; done|].
    destruct (IH (base r + rsize r) i) as (g & Hg & H1 & H2); [lia|].
    exists g. simpl. split; [done|]. split; [|done]. rewrite H1. by destruct i.
Qed.

Lemma gaps_order lo B i j g h :
  wok lo B -> (i < j)%nat -> gaps lo B !! i = Some g -> gaps lo B !! j = Some h ->
  g.2 <= h.1.
Proof.
  revert lo i j. induction B as [|r B IH]; intros lo i j Hk Hij Hi Hj; simpl in *.
  - destruct j as [|j]; [lia|]. by destruct j.
  - destruct Hk as (?&?&?&Hk). destruct j as [|j]; [lia|].
    destruct i as [|i]; simpl in *; [|apply (IH _ i j Hk); [lia|done|done]].
    injection Hi as <-. simpl.
    destruct (gaps_lookup (base r + rsize r) B j) as (h' & Hh & E1 & E2).
    { apply lookup_lt_Some in Hj. rewrite gaps_length in Hj. lia. }
    simplify_eq. rewrite E1. destruct j as [|j]; [lia|].
    destruct (B !! j) as [s|] eqn:Es.
    + assert (s ∈ B) by (apply list_elem_of_lookup; eauto).
      pose proof (wok_elem _ _ _ Hk H2). lia.
    + apply lookup_ge_None in Es. apply lookup_lt_Some in Hj. rewrite gaps_length in Hj. lia.
Qed.

Lemma gaps_bounds lo B i g :
  wok lo B -> lo <= PHYS_ADDR_MAX -> gaps lo B !! i = Some g -> lo <= g.1 <= g.2 /\ g.2 <= PHYS_ADDR_MAX.
Proof.
  revert lo i. induction B as [|r B IH]; intros lo i Hk Hlo Hi; simpl in *.
  - destruct i; [|done]. injection Hi as <-. simpl. lia.
  - destruct Hk as (?&?&?&Hk). destruct i as [|i]; simpl in Hi.
    + injection Hi as <-. simpl. lia.
    + pose proof (IH _ _ Hk ltac:(lia) Hi). lia.
Qed.

Lemma inter_nil_r m g : base m + rsize m <= g.1 -> inter m g = [].
Proof. intros. unfold inter. zdec. by rewrite andb_false_r. Qed.
Lemma inter_nil_l m g : g.2 <= base m -> inter m g = [].
Proof. intros. unfold inter. by zdec. Qed.
Lemma inter_some m g :
  base m < g.2 -> g.1 < base m + rsize m ->
  inter m g = [(Z.max (base m) g.1, Z.min (base m + rsize m) g.2)].
Proof. intros. unfold inter. by zdec. Qed.

Lemma elem_of_drop_S {A} (l : list A) k x :
  x ∈ drop k l -> exists j, (k <= j)%nat /\ l !! j = Some x.
Proof.
  intros Hx. apply list_elem_of_lookup in Hx as [j Hj]. rewrite lookup_drop in Hj.
  exists (k + j)%nat. split; [lia|done].
Qed.

Lemma elem_of_take_S {A} (l : list A) k x :
  x ∈ take k l -> exists j, (j < k)%nat /\ l !! j = Some x.
Proof.
  intros Hx. apply list_elem_of_lookup in Hx as [j Hj].
  rewrite lookup_take in Hj. case_decide; [|done]. eauto.
Qed.

Lemma drop_cons {A} (l : list A) k x : l !! k = Some x -> drop k l = x :: drop (S k) l.
Proof. apply drop_S. Qed.

Section walk.
Context (ta tb : memblock_type) (A B : list memblock_region) (na nb tota totb f : Z).
Context (HA : holds ta A na tota) (HB : holds tb B nb totb).
Context (HkA : wok 0 A) (HkB : wok 0 B).

Local Abbreviation G := (gaps 0 B).

Lemma cnt_a : cnt ta = Z.of_nat (length A) /\ Z.of_nat (length A) <= na /\ na < 2 ^ 30.
Proof.
  split_and!; [apply (h_cnt _ _ _ _ HA)|apply (holds_cnt_le _ _ _ _ HA)|apply (h_bound _ _ _ _ HA)].
Qed.

Lemma cnt_b : cnt tb = Z.of_nat (length B) /\ Z.of_nat (length B) <= nb /\ nb < 2 ^ 30.
Proof.
  split_and!; [apply (h_cnt _ _ _ _ HB)|apply (holds_cnt_le _ _ _ _ HB)|apply (h_bound _ _ _ _ HB)].
Qed.

Lemma rd_live t l n tot i r :
  holds t l n tot -> l !! i = Some r -> rd (regions t) (Z.of_nat i) = Ret r.
Proof.
  intros H Hi. destruct (holds_split _ _ _ _ H) as [tl E].
  apply rd_lookup; [lia|]. rewrite Nat2Z.id, E. by apply lookup_app_l_Some.
Qed.

Lemma live_bounds l r : wok 0 l -> r ∈ l -> u64 (base r + rsize r) = base r + rsize r.
Proof.
  intros Hk Hr. pose proof (wok_elem _ _ _ Hk Hr). unfold PHYS_ADDR_MAX in *.
  apply u64_small. lia.
Qed.

Lemma gap_bounds_ok i g : G !! i = Some g -> gap_bounds tb (Z.of_nat i) = Ret (g.1, g.2).
Proof.
  intros Hi. assert (Hl : (i <= length B)%nat).
  { apply lookup_lt_Some in Hi. rewrite gaps_length in Hi. lia. }
  destruct (gaps_lookup 0 B i Hl) as (g' & Hg & E1 & E2). rewrite Hi in Hg.
  injection Hg as <-. destruct cnt_b as (C & _ & _). unfold gap_bounds. rewrite C.
  assert (HS : (if Z.of_nat i =? 0 then Ret 0 else
    r ← rd (regions tb) (Z.of_nat i - 1); Ret (u64 (base r + rsize r))) = Ret (g.1)).
  { destruct i as [|i]; [by rewrite E1|]. zdec.
    replace (Z.of_nat (S i) - 1) with (Z.of_nat i) by lia.
    destruct (lookup_lt_is_Some_2 B i) as [r Hr]; [lia|].
    rewrite (rd_live _ _ _ _ _ _ HB Hr), bind_ret, E1, Hr.
    rewrite (live_bounds B r HkB); [done|]. apply list_elem_of_lookup; eauto. }
  rewrite HS, bind_ret. destruct (B !! i) as [r|] eqn:Er.
  - assert (i < length B)%nat by (by apply lookup_lt_Some in Er). zdec.
    rewrite (rd_live _ _ _ _ _ _ HB Er). simpl. by rewrite E2.
  - apply lookup_ge_None in Er. zdec. simpl. by rewrite E2.
Qed.

Lemma gap_after i j g h : G !! i = Some g -> G !! j = Some h -> (i < j)%nat -> g.2 <= h.1.
Proof. intros. by apply (gaps_order 0 B i j g h). Qed.

Lemma gap_range i g : G !! i = Some g -> 0 <= g.1 <= g.2 /\ g.2 <= PHYS_ADDR_MAX.
Proof. intros. apply (gaps_bounds 0 B i g); auto. unfold PHYS_ADDR_MAX. lia. Qed.

(** *** Ascending *)

Definition inner_post (A' : list memblock_region) (m : memblock_region) (ia : Z) (ib : nat)
    (r : Z + (Z * Z * (Z * Z))) : Prop :=
  match r with
  | inl ib' => exists k, ib' = Z.of_nat k /\ (ib <= k <= length G)%nat /\
      free_ranges f (m :: A') (drop ib G) = free_ranges f A' (drop k G)
  | inr (ia', ib', x) => exists k, ib' = Z.of_nat k /\ (ib <= k <= length G)%nat /\
      ((ia' = ia + 1 /\
        free_ranges f (m :: A') (drop ib G) = x :: free_ranges f A' (drop k G)) \/
       (ia' = ia /\ (ib < k)%nat /\
        free_ranges f (m :: A') (drop ib G) = x :: free_ranges f (m :: A') (drop k G)))
  end.

Lemma next_range_inner_ok A' m ia ib :
  (f =? flags m) = true -> (ib <= length G)%nat ->
  0 <= base m -> 0 <= rsize m ->
  (forall m', m' ∈ A' -> base m + rsize m <= base m' /\ 0 <= rsize m') ->
  returns (next_range_inner tb ia (base m) (base m + rsize m) (Z.of_nat ib))
    (inner_post A' m ia ib).
Proof.
  intros Hf Hib Hb Hs HA'. destruct cnt_b as (C & CL & CB). unfold next_range_inner. 
  rewrite C. rewrite gaps_length in Hib.
  apply loop_returns with
    (I := fun z => exists k, z = Z.of_nat k /\ (ib <= k <= length G)%nat /\
       free_ranges f (m :: A') (drop ib G) = free_ranges f (m :: A') (drop k G))
    (m := fun z => Z.to_nat (Z.of_nat (length B) + 1 - z)).
  { exists ib. rewrite gaps_length. split_and!; auto. }
  { lia. }
  intros z (k & -> & Hk & E). rewrite gaps_length in Hk.
  unfold next_range_step. rewrite C, u64_small by lia.
  destruct (Z.ltb_spec (Z.of_nat k) (Z.of_nat (length B) + 1)) as [Hlt|Hge].
  2:{ simpl. exists k. rewrite gaps_length. split_and!; try lia.
      rewrite E. rewrite (drop_ge G) by (rewrite gaps_length; lia).
      by rewrite !free_ranges_no_gap. }
  destruct (lookup_lt_is_Some_2 G k) as [g Hg]; [rewrite gaps_length; lia|].
  rewrite (gap_bounds_ok k g Hg), bind_ret. pose proof (gap_range _ _ Hg) as Hgr.
  rewrite (drop_cons _ _ _ Hg) in E.
  assert (Hlater : forall h, h ∈ drop (S k) G -> g.2 <= h.1).
  { intros h Hh. apply elem_of_drop_S in Hh as (j & Hj & Hh). by apply (gap_after k j g h). }
  destruct (Z.leb_spec (base m + rsize m) g.1) as [C1|C1]; simpl.
  { exists k. rewrite gaps_length. split_and!; try lia. rewrite E.
    rewrite (drop_cons _ _ _ Hg). apply free_ranges_skip_region. intros h Hh.
    apply inter_nil_r. apply elem_of_cons in Hh as [->|Hh]; [lia|].
    specialize (Hlater _ Hh). lia. }
  destruct (Z.ltb_spec (base m) g.2) as [C2|C2]; simpl.
  - pose proof (inter_some m g C2 C1) as Hx.
    destruct (Z.leb_spec (base m + rsize m) g.2) as [C3|C3]; simpl.
    + exists k. rewrite gaps_length. split_and!; try lia. left. split; [done|].
      rewrite E, (drop_cons _ _ _ Hg). apply free_ranges_emit_region; auto.
      intros h Hh. apply inter_nil_r. specialize (Hlater _ Hh). lia.
    + exists (S k). rewrite gaps_length. split_and!; try lia. right.
      split_and!; [done|lia|]. rewrite E. apply free_ranges_emit_gap; auto.
      intros m' Hm'. apply inter_nil_l. destruct (HA' _ Hm'). lia.
  - split; [|lia]. exists (S k). rewrite gaps_length. split_and!; try lia.
    rewrite E. apply free_ranges_skip_gap. intros m' Hm'. apply inter_nil_l.
    apply elem_of_cons in Hm' as [->|Hm']; [lia|]. destruct (HA' _ Hm'). lia.
Qed.

Lemma A_later i j m m' :
  A !! i = Some m -> A !! j = Some m' -> (i < j)%nat ->
  base m + rsize m <= base m' /\ 0 <= rsize m'.
Proof.
  intros Hi Hj Hij. split; [by apply (wok_sorted 0 A i j)|].
  assert (m' ∈ A) by (apply list_elem_of_lookup; eauto).
  pose proof (wok_elem _ _ _ HkA H). lia.
Qed.

Definition next_post (ia ib : nat) (r : Z * option (Z * Z)) : Prop :=
  match free_ranges f (drop ia A) (drop ib G) with
  | [] => r = (ULLONG_MAX, None)
  | x :: rest => exists ia' ib', r = (pack_idx (Z.of_nat ia') (Z.of_nat ib'), Some x) /\
      (ia + ib < ia' + ib')%nat /\ (ia' <= length A)%nat /\ (ib' <= length G)%nat /\
      rest = free_ranges f (drop ia' A) (drop ib' G)
  end.

Lemma next_mem_loop_ok ia0 ib0 fuel :
  (ia0 <= length A)%nat -> (ib0 <= length G)%nat -> (length A < ia0 + fuel)%nat ->
  returns (loop fuel (next_mem_step f ta (Some tb)) (Z.of_nat ia0, Z.of_nat ib0))
    (next_post ia0 ib0).
Proof.
  intros Hia Hib Hf. destruct cnt_a as (C & CL & CB).
  apply loop_returns with
    (I := fun '(z, w) => exists ia ib, z = Z.of_nat ia /\ w = Z.of_nat ib /\
       (ia0 <= ia <= length A)%nat /\ (ib0 <= ib <= length G)%nat /\
       free_ranges f (drop ia0 A) (drop ib0 G) = free_ranges f (drop ia A) (drop ib G))
    (m := fun '(z, w) => (length A - Z.to_nat z)%nat).
  { exists ia0, ib0. split_and!; auto. }
  { lia. }
  intros [z w] (ia & ib & -> & -> & Ha & Hb & E). unfold next_mem_step. rewrite C.
  destruct (Z.ltb_spec (Z.of_nat ia) (Z.of_nat (length A))) as [Hlt|Hge].
  2:{ simpl. unfold next_post. rewrite E, (drop_ge A) by lia. done. }
  destruct (lookup_lt_is_Some_2 A ia) as [m Hm]; [lia|].
  assert (Hin : m ∈ A) by (apply list_elem_of_lookup; eauto).
  rewrite (rd_live _ _ _ _ _ _ HA Hm), bind_ret, (live_bounds A m HkA Hin).
  pose proof (wok_elem _ _ _ HkA Hin) as Hmb. rewrite (drop_cons _ _ _ Hm) in E.
  destruct (f =? flags m) eqn:Ef; simpl negb; cbv iota.
  2:{ simpl. split; [|lia]. exists (S ia), ib. split_and!; try lia.
      rewrite E. by apply free_ranges_skip_flags. }
  eapply returns_bind.
  { apply (next_range_inner_ok (drop (S ia) A) m (Z.of_nat ia) ib Ef); [lia|lia|lia|].
    intros m' Hm'. apply elem_of_drop_S in Hm' as (j & Hj & Hm'). by apply (A_later ia j). }
  intros [ib'|[[ia' ib'] x]]; simpl.
  - intros (k & -> & Hk & E'). split; [|lia]. exists (S ia), k. split_and!; try lia.
    by rewrite E, E'.
  - intros (k & -> & Hk & [[-> E']|(-> & Hlt' & E')]); unfold next_post; rewrite E, E'.
    + exists (S ia), k. split_and!; try lia; try done.
      replace (Z.of_nat ia + 1) with (Z.of_nat (S ia)) by lia. done.
    + exists ia, k. split_and!; try lia; try done. by rewrite (drop_cons _ _ _ Hm).
Qed.

End walk.

(** ** Packed indices *)

Lemma pack_idx_add ia ib :
  0 <= ib < 2 ^ 32 -> pack_idx ia ib = u32 ia + ib * 2 ^ 32.
Proof.
  intros Hb. unfold pack_idx. rewrite (u64_small ib) by lia.
  rewrite (u64_small (Z.shiftl ib 32)) by (rewrite Z.shiftl_mul_pow2; lia).
  apply lor_shiftl_add; [lia|]. apply u32_range.
Qed.

Lemma unpack_pack ia ib :
  - 1 <= ia < 2 ^ 31 -> 0 <= ib < 2 ^ 31 ->
  unpack_a (pack_idx ia ib) = ia /\ unpack_b (pack_idx ia ib) = ib /\
  pack_idx ia ib <> ULLONG_MAX.
Proof.
  intros Ha Hb. rewrite pack_idx_add by lia. pose proof (u32_range ia) as Hr.
  unfold unpack_a, unpack_b. change 4294967295 with (Z.ones 32).
  rewrite land_ones_add_mul, shiftr_add_mul, (s32_small ib) by lia.
  split_and!; [|done|].
  - unfold s32, u32. rewrite Zplus_mod_idemp_l, Z.mod_small; lia.
  - unfold ULLONG_MAX. lia.
Qed.

(** ** Walks as folds *)

Fixpoint fold_ranges {R S} (body : S -> Z -> Z -> outcome (S + R)) (s : S)
    (l : list (Z * Z)) : outcome (S + R) :=
  match l with
  | [] => Ret (inl s)
  | (a, e) :: l' =>
      r ← body s a e;
      match r with
      | inl s' => fold_ranges body s' l'
      | inr x => Ret (inr x)
      end
  end.

Lemma for_each_step_eq {R S} f ta tb (body : S -> Z -> Z -> outcome (S + R)) idx s i r :
  __next_mem_range idx f ta tb = Ret (i, r) ->
  for_each_step f ta tb body (idx, s) =
    if i =? ULLONG_MAX then Ret (inr (inl s))
    else match r with
         | None => Fault
         | Some (a, e) =>
             x ← body s a e;
             match x with inl s' => Ret (inl (i, s')) | inr v => Ret (inr (inr v)) end
         end.
Proof. intros H. unfold for_each_step. by rewrite H. Qed.

Section walks.
Context (ta tb : memblock_type) (A B : list memblock_region) (na nb tota totb f : Z).
Context (HA : holds ta A na tota) (HB : holds tb B nb totb).
Context (HkA : wok 0 A) (HkB : wok 0 B).

Local Abbreviation G := (gaps 0 B).

Lemma next_mem_range_ok idx ia ib :
  unpack_a idx = Z.of_nat ia -> unpack_b idx = Z.of_nat ib ->
  (ia <= length A)%nat -> (ib <= length G)%nat ->
  returns (__next_mem_range idx f ta (Some tb)) (next_post A B f ia ib).
Proof.
  intros Ea Eb Ha Hb. unfold __next_mem_range. rewrite Ea, Eb.
  eapply next_mem_loop_ok; eauto. rewrite (h_cnt _ _ _ _ HA). lia.
Qed.

Lemma for_each_loop {R S} (body : S -> Z -> Z -> outcome (S + R)) fuel : forall idx ia ib s,
  unpack_a idx = Z.of_nat ia -> unpack_b idx = Z.of_nat ib ->
  (ia <= length A)%nat -> (ib <= length G)%nat ->
  (length A + length G + 1 <= ia + ib + fuel)%nat ->
  loop fuel (for_each_step f ta (Some tb) body) (idx, s) =
    fold_ranges body s (free_ranges f (drop ia A) (drop ib G)).
Proof.
  induction fuel as [|fuel IH]; intros idx ia ib s Ea Eb Ha Hb Hf; [lia|].
  rewrite loop_S.
  destruct (returns_inv _ _ (next_mem_range_ok idx ia ib Ea Eb Ha Hb)) as ([i r] & Hnx & Hp).
  rewrite (for_each_step_eq _ _ _ _ _ _ _ _ Hnx). unfold next_post in Hp.
  destruct (free_ranges f (drop ia A) (drop ib G)) as [|[a e] rest] eqn:E.
  - injection Hp as -> ->. done.
  - destruct Hp as (ia' & ib' & Hr & Hlt & Ha' & Hb' & ->). injection Hr as -> ->.
    pose proof (h_bound _ _ _ _ HA). pose proof (h_bound _ _ _ _ HB).
    pose proof (holds_cnt_le _ _ _ _ HA). pose proof (holds_cnt_le _ _ _ _ HB).
    rewrite gaps_length in *.
    destruct (unpack_pack (Z.of_nat ia') (Z.of_nat ib')) as (U1 & U2 & U3); [lia|lia|].
    rewrite (proj2 (Z.eqb_neq _ _) U3). simpl fold_ranges.
    destruct (body s a e) as [[s'|x]| | |]; [|done..]. rewrite !bind_ret.
    apply IH; rewrite ?gaps_length; auto; lia.
Qed.

End walks.

(** The whole ascending walk over free memory. *)
Lemma for_each_free_mem_range_eq {R S} mb lm lr nm nr f
    (body : S -> Z -> Z -> outcome (S + R)) s0 :
  repr (memory mb) lm nm -> repr (reserved mb) lr nr ->
  for_each_free_mem_range mb f body s0 =
    fold_ranges body s0 (free_ranges f (norm lm) (gaps 0 (norm lr))).
Proof.
  intros [HA HkA] [HB HkB]. unfold for_each_free_mem_range, for_each_mem_range.
  rewrite (for_each_loop _ _ _ _ _ _ _ _ f HA HB (wok_norm _ HkA) (wok_norm _ HkB) body _ 0 0 0);
    try done; [lia|lia|].
  rewrite gaps_length. unfold free_range_fuel.
  rewrite (h_cnt _ _ _ _ HA), (h_cnt _ _ _ _ HB). lia.
Qed.

(** ** Descending *)

(** The first [k] elements, last one first. *)
Definition rtake {A} (k : nat) (l : list A) : list A := rev (take k l).

Lemma rtake_S {A} (l : list A) k x : l !! k = Some x -> rtake (S k) l = x :: rtake k l.
Proof. intros H. unfold rtake. rewrite (take_S_r _ _ _ H). by rewrite rev_app_distr. Qed.

Lemma elem_of_rtake {A} (l : list A) k x :
  x ∈ rtake k l -> exists j, (j < k)%nat /\ l !! j = Some x.
Proof.
  intros H. apply elem_of_take_S. unfold rtake in H.
  rewrite list_elem_of_In in *. by rewrite <- in_rev in H.
Qed.

Section walk_rev.
Context (ta tb : memblock_type) (A B : list memblock_region) (na nb tota totb f : Z).
Context (HA : holds ta A na tota) (HB : holds tb B nb totb).
Context (HkA : wok 0 A) (HkB : wok 0 B).

Local Abbreviation G := (gaps 0 B).

(** Indices are one less than the number of elements that remain. *)
Definition inner_post_rev (A' : list memblock_region) (m : memblock_region) (ia : Z) (q : nat)
    (r : Z + (Z * Z * (Z * Z))) : Prop :=
  match r with
  | inl ib' => exists k, ib' = Z.of_nat k - 1 /\ (k <= q)%nat /\
      free_ranges f (m :: A') (rtake q G) = free_ranges f A' (rtake k G)
  | inr (ia', ib', x) => exists k, ib' = Z.of_nat k - 1 /\ (k <= q)%nat /\ (0 < k)%nat /\
      ((ia' = ia - 1 /\
        free_ranges f (m :: A') (rtake q G) = x :: free_ranges f A' (rtake k G)) \/
       (ia' = ia /\ (k < q)%nat /\
        free_ranges f (m :: A') (rtake q G) = x :: free_ranges f (m :: A') (rtake k G)))
  end.

Lemma next_range_inner_rev_ok A' m ia q :
  (f =? flags m) = true -> (q <= length G)%nat ->
  0 <= base m -> 0 <= rsize m ->
  (forall m', m' ∈ A' -> base m' + rsize m' <= base m /\ 0 <= rsize m') ->
  returns (next_range_inner_rev tb ia (base m) (base m + rsize m) (Z.of_nat q - 1))
    (inner_post_rev A' m ia q).
Proof.
  intros Hf Hq Hb Hs HA'. unfold next_range_inner_rev.
  apply loop_returns with
    (I := fun z => exists k, z = Z.of_nat k - 1 /\ (k <= q)%nat /\
       free_ranges f (m :: A') (rtake q G) = free_ranges f (m :: A') (rtake k G))
    (m := fun z => Z.to_nat (z + 1)).
  { exists q. split_and!; auto. }
  { lia. }
  intros z (k & -> & Hk & E). unfold next_range_step_rev.
  destruct k as [|k].
  { zdec. simpl. exists O. split_and!; auto. rewrite E. unfold rtake. simpl.
    by rewrite !free_ranges_no_gap. }
  zdec. replace (Z.of_nat (S k) - 1) with (Z.of_nat k) by lia.
  destruct (lookup_lt_is_Some_2 G k) as [g Hg]; [lia|].
  rewrite (gap_bounds_ok tb B nb totb HB HkB k g Hg), bind_ret.
  pose proof (gap_range B HkB _ _ Hg) as Hgr. rewrite (rtake_S _ _ _ Hg) in E.
  assert (Hlater : forall h, h ∈ rtake k G -> h.2 <= g.1).
  { intros h Hh. apply elem_of_rtake in Hh as (j & Hj & Hh). by apply (gaps_order 0 B j k h g). }
  destruct (Z.leb_spec g.2 (base m)) as [C1|C1]; simpl.
  { exists (S k). split_and!; try lia. rewrite E, (rtake_S _ _ _ Hg).
    apply free_ranges_skip_region. intros h Hh. apply inter_nil_l.
    apply elem_of_cons in Hh as [->|Hh]; [lia|]. specialize (Hlater _ Hh). lia. }
  destruct (Z.ltb_spec g.1 (base m + rsize m)) as [C2|C2]; simpl.
  - pose proof (inter_some m g C1 C2) as Hx.
    destruct (Z.leb_spec g.1 (base m)) as [C3|C3]; simpl.
    + exists (S k). split_and!; try lia. left. split; [done|].
      rewrite E, (rtake_S _ _ _ Hg). apply free_ranges_emit_region; auto.
      intros h Hh. apply inter_nil_l. specialize (Hlater _ Hh). lia.
    + exists k. split_and!; try lia.
      { destruct k; [|lia]. destruct (gaps_lookup 0 B 0) as (g' & Hg' & E1 & _); [lia|].
        simpl in *. simplify_eq. lia. }
      right. split_and!; [done|lia|]. rewrite E. apply free_ranges_emit_gap; auto.
      intros m' Hm'. apply inter_nil_r. destruct (HA' _ Hm'). lia.
  - split; [|lia]. exists k. split_and!; try lia.
    rewrite E. apply free_ranges_skip_gap. intros m' Hm'. apply inter_nil_r.
    apply elem_of_cons in Hm' as [->|Hm']; [lia|]. destruct (HA' _ Hm'). lia.
Qed.

Definition next_post_rev (p q : nat) (r : Z * option (Z * Z)) : Prop :=
  match free_ranges f (rtake p A) (rtake q G) with
  | [] => r = (ULLONG_MAX, None)
  | x :: rest => exists p' q', r = (pack_idx (Z.of_nat p' - 1) (Z.of_nat q' - 1), Some x) /\
      (p' + q' < p + q)%nat /\ (p' <= length A)%nat /\ (0 < q' <= length G)%nat /\
      rest = free_ranges f (rtake p' A) (rtake q' G)
  end.

Lemma next_mem_loop_rev_ok p0 q0 fuel :
  (p0 <= length A)%nat -> (q0 <= length G)%nat -> (p0 < fuel)%nat ->
  returns (loop fuel (next_mem_step_rev f ta (Some tb)) (Z.of_nat p0 - 1, Z.of_nat q0 - 1))
    (next_post_rev p0 q0).
Proof.
  intros Hp Hq Hf.
  apply loop_returns with
    (I := fun '(z, w) => exists p q, z = Z.of_nat p - 1 /\ w = Z.of_nat q - 1 /\
       (p <= p0)%nat /\ (q <= q0)%nat /\
       free_ranges f (rtake p0 A) (rtake q0 G) = free_ranges f (rtake p A) (rtake q G))
    (m := fun '(z, w) => Z.to_nat (z + 1)).
  { exists p0, q0. split_and!; auto. }
  { lia. }
  intros [z w] (p & q & -> & -> & Ha & Hb & E). unfold next_mem_step_rev.
  destruct p as [|p].
  { zdec. simpl. unfold next_post_rev. by rewrite E. }
  zdec. replace (Z.of_nat (S p) - 1) with (Z.of_nat p) by lia.
  destruct (lookup_lt_is_Some_2 A p) as [m Hm]; [lia|].
  assert (Hin : m ∈ A) by (apply list_elem_of_lookup; eauto).
  rewrite (rd_live _ _ _ _ _ _ HA Hm), bind_ret, (live_bounds A m HkA Hin).
  pose proof (wok_elem _ _ _ HkA Hin) as Hmb. rewrite (rtake_S _ _ _ Hm) in E.
  destruct (f =? flags m) eqn:Ef; simpl negb; cbv iota.
  2:{ simpl. split; [|lia]. exists p, q. split_and!; try lia.
      rewrite E. by apply free_ranges_skip_flags. }
  eapply returns_bind.
  { apply (next_range_inner_rev_ok (rtake p A) m (Z.of_nat p) q Ef); [lia|lia|lia|].
    intros m' Hm'. apply elem_of_rtake in Hm' as (j & Hj & Hm').
    split; [by apply (wok_sorted 0 A j p)|].
    assert (m' ∈ A) as Hin' by (apply list_elem_of_lookup; eauto).
    pose proof (wok_elem _ _ _ HkA Hin'). lia. }
  intros [ib'|[[ia' ib'] x]]; simpl.
  - intros (k & -> & Hk & E'). split; [|lia]. exists p, k. split_and!; try lia.
    by rewrite E, E'.
  - intros (k & -> & Hk & H0 & [[-> E']|(-> & Hlt' & E')]); unfold next_post_rev; rewrite E, E'.
    + exists p, k. split_and!; try lia; done.
    + exists (S p), k. split_and!; try lia.
      * by replace (Z.of_nat (S p) - 1) with (Z.of_nat p) by lia.
      * by rewrite (rtake_S _ _ _ Hm).
Qed.

Definition rev_indices (idx : Z) (p q : nat) : Prop :=
  (idx = ULLONG_MAX /\ p = length A /\ q = length G) \/
  (idx <> ULLONG_MAX /\ unpack_a idx = Z.of_nat p - 1 /\ unpack_b idx = Z.of_nat q - 1).

Lemma next_mem_range_rev_ok idx p q :
  rev_indices idx p q -> (p <= length A)%nat -> (q <= length G)%nat -> (1 <= length A)%nat ->
  returns (__next_mem_range_rev idx f ta (Some tb)) (next_post_rev p q).
Proof.
  intros Hi Hp Hq H1. unfold __next_mem_range_rev.
  pose proof (h_bound _ _ _ _ HA). pose proof (h_bound _ _ _ _ HB).
  pose proof (holds_cnt_le _ _ _ _ HA). pose proof (holds_cnt_le _ _ _ _ HB).
  destruct Hi as [(-> & -> & ->)|(Hne & Ea & Eb)].
  - rewrite Z.eqb_refl, (h_cnt _ _ _ _ HA), (h_cnt _ _ _ _ HB), u64_small, !s32_small by lia.
    replace (Z.of_nat (length B)) with (Z.of_nat (length G) - 1) by (rewrite gaps_length; lia).
    apply next_mem_loop_rev_ok; lia.
  - rewrite (proj2 (Z.eqb_neq _ _) Hne), Ea, Eb. apply next_mem_loop_rev_ok; lia.
Qed.

Lemma for_each_step_rev_eq {R S} (body : S -> Z -> Z -> outcome (S + R)) idx s i r :
  __next_mem_range_rev idx f ta (Some tb) = Ret (i, r) ->
  for_each_step_rev f ta (Some tb) body (idx, s) =
    if i =? ULLONG_MAX then Ret (inr (inl s))
    else match r with
         | None => Fault
         | Some (a, e) =>
             x ← body s a e;
             match x with inl s' => Ret (inl (i, s')) | inr v => Ret (inr (inr v)) end
         end.
Proof. intros H. unfold for_each_step_rev. by rewrite H. Qed.

Lemma for_each_loop_rev {R S} (body : S -> Z -> Z -> outcome (S + R)) fuel : forall idx p q s,
  rev_indices idx p q -> (p <= length A)%nat -> (q <= length G)%nat -> (1 <= length A)%nat ->
  (p + q < fuel)%nat ->
  loop fuel (for_each_step_rev f ta (Some tb) body) (idx, s) =
    fold_ranges body s (free_ranges f (rtake p A) (rtake q G)).
Proof.
  induction fuel as [|fuel IH]; intros idx p q s Hi Hp Hq H1 Hf; [lia|].
  rewrite loop_S.
  destruct (returns_inv _ _ (next_mem_range_rev_ok idx p q Hi Hp Hq H1)) as ([i r] & Hnx & Hr).
  rewrite (for_each_step_rev_eq _ _ _ _ _ Hnx). unfold next_post_rev in Hr.
  destruct (free_ranges f (rtake p A) (rtake q G)) as [|[a e] rest] eqn:E.
  - injection Hr as -> ->. done.
  - destruct Hr as (p' & q' & Hr & Hlt & Hp' & Hq' & ->). injection Hr as -> ->.
    pose proof (h_bound _ _ _ _ HA). pose proof (h_bound _ _ _ _ HB).
    pose proof (holds_cnt_le _ _ _ _ HA). pose proof (holds_cnt_le _ _ _ _ HB).
    rewrite gaps_length in *.
    destruct (unpack_pack (Z.of_nat p' - 1) (Z.of_nat q' - 1)) as (U1 & U2 & U3); [lia|lia|].
    rewrite (proj2 (Z.eqb_neq _ _) U3). simpl fold_ranges.
    destruct (body s a e) as [[s'|x]| | |]; [|done..]. rewrite !bind_ret.
    apply IH; rewrite ?gaps_length; auto; try lia. right. auto.
Qed.

End walk_rev.

(** The whole descending walk visits the same ranges, last one first. *)
Lemma for_each_free_mem_range_reverse_eq {R S} mb lm lr nm nr f
    (body : S -> Z -> Z -> outcome (S + R)) s0 :
  repr (memory mb) lm nm -> repr (reserved mb) lr nr ->
  for_each_free_mem_range_reverse mb f body s0 =
    fold_ranges body s0 (rev (free_ranges f (norm lm) (gaps 0 (norm lr)))).
Proof.
  intros [HA HkA] [HB HkB]. unfold for_each_free_mem_range_reverse, for_each_mem_range_rev.
  assert (Hlen : (1 <= length (norm lm))%nat) by (destruct lm; simpl; lia).
  rewrite (for_each_loop_rev _ _ _ _ _ _ _ _ f HA HB (wok_norm _ HkA) (wok_norm _ HkB) body _
    ULLONG_MAX (length (norm lm)) (length (gaps 0 (norm lr)))); auto.
  - unfold rtake. by rewrite !firstn_all, free_ranges_rev.
  - left. auto.
  - rewrite gaps_length. unfold free_range_fuel.
    rewrite (h_cnt _ _ _ _ HA), (h_cnt _ _ _ _ HB). lia.
Qed.
