(* ===== verification/MemblockOps.v ===== *)
(** * Finding and allocating boot memory

    The walks of MemblockIter cover exactly the free addresses; the search
    functions therefore return aligned, in-range, free blocks, and the
    allocator reserves them. *)
From stdpp Require Import base numbers list option.
From Stdlib Require Import ZArith Lia.
From S2P Require Import Prelude Memblock MemblockFacts MemblockRanges MemblockIter.

(** ** The walks cover the free addresses *)

(** Address [a] is in a memory region with flags [f] and in no reserved one. *)
Definition is_free (lm lr : list memblock_region) (f a : Z) : Prop :=
  flags_at lm a = Some f /\ flags_at lr a = None.

Lemma gaps_spec lo B a :
  wok lo B -> lo <= a < PHYS_ADDR_MAX ->
  (exists g, g ∈ gaps lo B /\ g.1 <= a < g.2) <-> Forall (fun r => contains r a = false) B.
Proof.
  revert lo. induction B as [|r B IH]; intros lo Hk Ha; simpl.
  - split; [done|]. intros _. exists (lo, PHYS_ADDR_MAX). split; [left|simpl; lia].
  - destruct Hk as (K1 & K2 & K3 & K4). split.
    + intros (g & Hg & Hb). apply elem_of_cons in Hg as [->|Hg]; simpl in Hb.
      * constructor; [apply contains_false; lia|].
        apply Forall_forall. intros s Hs. apply list_elem_of_In in Hs.
        apply contains_false.
        pose proof (wok_elem _ _ _ K4 Hs). lia.
      * apply list_elem_of_lookup in Hg as [i Hi].
        pose proof (gaps_bounds _ _ _ _ K4 ltac:(lia) Hi).
        constructor; [apply contains_false; lia|].
        apply (IH _ K4 ltac:(lia)). exists g. split; [|done].
        apply list_elem_of_lookup; eauto.
    + intros HF. inversion HF as [|? ? Hr HB]; subst. apply contains_false in Hr.
      destruct (Z.lt_ge_cases a (base r)).
      * exists (lo, base r). split; [left|simpl; lia].
      * destruct (proj2 (IH (base r + rsize r) K4 ltac:(lia)) HB) as (g & Hg & Hb).
        exists g. split; [by right|done].
Qed.

Lemma flags_at_none_iff l a : flags_at l a = None <-> Forall (fun r => contains r a = false) l.
Proof.
  split; [|apply flags_at_none]. induction l as [|r l IH]; simpl; [done|].
  destruct (contains r a) eqn:E; [done|]. constructor; auto.
Qed.

Lemma flags_at_norm l a : 
  Forall (fun r => contains r a = false) (norm l) <-> flags_at l a = None.
Proof.
  rewrite flags_at_none_iff. destruct l as [|r l]; [|done]. simpl. split; [done|].
  intros _. constructor; [|done]. unfold contains. simpl.
  destruct (Z.leb_spec 0 a), (Z.ltb_spec a (0 + 0)); simpl; try done; lia.
Qed.

Lemma in_free_ranges f A G x :
  In x (free_ranges f A G) <->
  exists m g, In m A /\ In g G /\ f = flags m /\
    base m < g.2 /\ g.1 < base m + rsize m /\
    x = (Z.max (base m) g.1, Z.min (base m + rsize m) g.2).
Proof.
  unfold free_ranges. rewrite in_flat_map. split.
  - intros (m & Hm & Hx). unfold ranges1 in Hx.
    destruct (Z.eqb_spec f (flags m)); [|done]. apply in_flat_map in Hx as (g & Hg & Hx).
    unfold inter in Hx. case_match eqn:E; [|done]. apply andb_true_iff in E as [E1 E2].
    apply Z.ltb_lt in E1, E2. destruct Hx as [<-|[]]. exists m, g. auto 10.
  - intros (m & g & Hm & Hg & -> & H1 & H2 & ->). exists m. split; [done|].
    unfold ranges1. rewrite Z.eqb_refl. apply in_flat_map. exists g. split; [done|].
    rewrite inter_some by lia. by left.
Qed.

(** Every range visited consists of free addresses ... *)
Lemma free_ranges_sound lm lr f s e a :
  ok 0 lm -> ok 0 lr ->
  In (s, e) (free_ranges f (norm lm) (gaps 0 (norm lr))) -> s <= a < e ->
  is_free lm lr f a.
Proof.
  intros Hm Hr H Ha. apply in_free_ranges in H as (m & g & Hin & Hg & Hf & H1 & H2 & [= -> ->]).
  apply list_elem_of_In in Hin, Hg.
  assert (Hc : contains m a = true) by (apply contains_spec; lia).
  destruct lm as [|r lm].
  { simpl in Hin. apply list_elem_of_singleton in Hin as ->. simpl in *. lia. }
  split.
  - subst f. by apply (flags_at_elem 0).
  - pose proof (wok_elem 0 (r :: lm) m (ok_wok _ _ Hm) Hin).
    apply flags_at_norm, (gaps_spec 0); [by apply wok_norm|unfold PHYS_ADDR_MAX in *; lia|].
    exists g. split; [done|lia].
Qed.

(** ... and a free block inside one memory region lies in one of them. *)
Lemma free_ranges_complete lm lr f r c size :
  ok 0 lm -> ok 0 lr -> r ∈ lm -> flags r = f -> 0 < size ->
  base r <= c -> c + size <= base r + rsize r ->
  (forall a, c <= a < c + size -> flags_at lr a = None) ->
  exists s e, In (s, e) (free_ranges f (norm lm) (gaps 0 (norm lr))) /\
    s <= c /\ c + size <= e.
Proof.
  intros Hm Hr Hin Hf Hs Hb He Hfree. pose proof (ok_elem _ _ _ Hm Hin) as Hbd.
  assert (Hgap : exists g, g ∈ gaps 0 (norm lr) /\ g.1 <= c < g.2).
  { apply gaps_spec; [by apply wok_norm|lia|]. apply flags_at_norm, Hfree. lia. }
  destruct Hgap as (g & Hg & Hgc).
  assert (Hend : c + size <= g.2).
  { destruct (Z.le_gt_cases (c + size) g.2) as [|Hlt]; [done|exfalso].
    apply list_elem_of_lookup in Hg as [i Hi].
    assert (Hi' : (i <= length (norm lr))%nat).
    { apply lookup_lt_Some in Hi. rewrite gaps_length in Hi. lia. }
    destruct (gaps_lookup 0 (norm lr) i Hi') as (g' & Hg' & _ & E2). simplify_eq.
    destruct (norm lr !! i) as [s|] eqn:Es; [|lia].
    specialize (Hfree g.2 ltac:(lia)). apply flags_at_norm in Hfree.
    rewrite Forall_forall in Hfree. specialize (Hfree s).
    rewrite <- list_elem_of_In in Hfree.
    specialize (Hfree ltac:(apply list_elem_of_lookup; eauto)).
    apply contains_false in Hfree. apply Hfree.
    destruct lr as [|s0 lr].
    { simpl in Es. destruct i; [|done]. injection Es as <-. simpl in *. lia. }
    assert (s ∈ s0 :: lr) as Hs' by (apply list_elem_of_lookup; eauto).
    pose proof (ok_elem _ _ _ Hr Hs'). lia. }
  exists (Z.max (base r) g.1), (Z.min (base r + rsize r) g.2). split; [|lia].
  apply in_free_ranges. exists r, g. split_and!; auto; try lia.
  - destruct lm; [inversion Hin|]. by apply list_elem_of_In.
  - by apply list_elem_of_In.
Qed.

(** ** The search functions *)

Definition first_hit (h : Z -> Z -> option Z) (a e : Z) : outcome (unit + Z) :=
  Ret (match h a e with Some c => inr c | None => inl tt end).

Lemma fold_first_hit (body : unit -> Z -> Z -> outcome (unit + Z)) h l :
  (forall a e, In (a, e) l -> body tt a e = first_hit h a e) ->
  (exists a e c, In (a, e) l /\ h a e = Some c /\ fold_ranges body tt l = Ret (inr c)) \/
  ((forall a e, In (a, e) l -> h a e = None) /\ fold_ranges body tt l = Ret (inl tt)).
Proof.
  induction l as [|[a e] l IH]; intros Hb; simpl.
  - right. split; [intros a e []|done].
  - rewrite Hb by (by left). unfold first_hit. rewrite bind_ret. destruct (h a e) as [c|] eqn:E.
    + left. exists a, e, c. auto.
    + destruct IH as [(a' & e' & c & Hin & Hh & ->)|[Hn ->]].
      * intros a' e' Hin. apply Hb. by right.
      * left. exists a', e', c. auto.
      * right. split; [|done]. intros a' e' [[= <- <-]|Hin]; auto.
Qed.

Section find.
Context (mb : memblock) (lm lr : list memblock_region) (nm nr : Z).
Context (Hm : repr (memory mb) lm nm) (Hr : repr (reserved mb) lr nr).
Context (k : Z) (Hk : 0 <= k < 64).

(** A block the caller may use: aligned, within bounds, and free. *)
Definition good_block (start end_ size f c : Z) : Prop :=
  (2 ^ k | c) /\ start <= c /\ c + size <= end_ /\
  forall a, c <= a < c + size -> is_free lm lr f a.

Lemma free_range_bounds f s e :
  In (s, e) (free_ranges f (norm lm) (gaps 0 (norm lr))) -> 0 <= s /\ e <= PHYS_ADDR_MAX.
Proof.
  intros H. apply in_free_ranges in H as (m & g & Hin & Hg & _ & _ & _ & [= -> ->]).
  apply list_elem_of_In in Hin. destruct Hm as [_ Hkm].
  pose proof (wok_elem _ _ _ (wok_norm _ Hkm) Hin). lia.
Qed.

Lemma good_block_clamped f s e start end_ size c :
  In (s, e) (free_ranges f (norm lm) (gaps 0 (norm lr))) ->
  start <= end_ -> 0 <= size -> (2 ^ k | c) ->
  clamp s start end_ <= c -> c + size <= clamp e start end_ ->
  good_block start end_ size f c.
Proof.
  unfold clamp. intros Hin Hse Hsz Hd H1 H2. split_and!; [done|lia|lia|].
  intros a Ha. destruct Hm as [_ Hkm], Hr as [_ Hkr].
  apply (free_ranges_sound lm lr f s e a); auto. lia.
Qed.

Lemma find_top_down_ok start end_ size f :
  0 < start -> start <= end_ <= PHYS_ADDR_MAX -> 0 <= size < 2 ^ 64 ->
  returns (__memblock_find_range_top_down mb start end_ size (2 ^ k) f) (fun c =>
    (c <> 0 -> good_block start end_ size f c) /\
    (c = 0 -> forall r c', 0 < size -> r ∈ lm -> flags r = f ->
       base r <= c' -> c' + size <= base r + rsize r ->
       ~ good_block start end_ size f c')).
Proof.
  intros H0 Hse Hsz. unfold PHYS_ADDR_MAX in *. unfold __memblock_find_range_top_down.
  assert (Hp : 0 < 2 ^ k) by (apply Z.pow_pos_nonneg; lia).
  rewrite (for_each_free_mem_range_reverse_eq _ _ _ _ _ _ _ _ Hm Hr).
  set (l := free_ranges f (norm lm) (gaps 0 (norm lr))).
  set (h := fun s e => let c := (clamp e start end_ - size) / 2 ^ k * 2 ^ k in
    if clamp e start end_ <? size then None else
    if clamp s start end_ <=? c then Some c else None).
  match goal with |- context [fold_ranges ?body _ _] =>
    destruct (fold_first_hit body h (rev l)) as [(s & e & c & Hin & Hh & ->)|[Hn ->]] end.
  - intros s e _. unfold first_hit, h, clamp.
    destruct (Z.ltb_spec (Z.min (Z.max e start) end_) size) as [|Hge]; [done|].
    rewrite (u64_small (_ - size)), round_down_pow2 by (rewrite ?u64_small; lia).
    by destruct (_ <=? _).
  - simpl. unfold h in Hh. apply in_rev in Hin.
    destruct (Z.ltb_spec (clamp e start end_) size) as [|Hge]; [done|].
    destruct (Z.leb_spec (clamp s start end_) ((clamp e start end_ - size) / 2 ^ k * 2 ^ k))
      as [Hc|]; [|done]. injection Hh as <-.
    assert (Hle : (clamp e start end_ - size) / 2 ^ k * 2 ^ k <= clamp e start end_ - size).
    { pose proof (Z.mul_div_le (clamp e start end_ - size) (2 ^ k) Hp). lia. }
    split.
    + intros _. apply (good_block_clamped f s e); auto; [lia|lia|by apply Z.divide_factor_r|lia].
    + intros E. exfalso. unfold clamp in *. lia.
  - simpl. split; [done|]. intros _ r c' Hs0 Hin Hf Hb He (Hd & Hst & Hen & Hfree).
    destruct Hm as [_ Hkm], Hr as [_ Hkr].
    destruct (free_ranges_complete lm lr f r c' size) as (s & e & Hse2 & H1 & H2); auto.
    { intros a Ha. apply Hfree, Ha. }
    specialize (Hn s e (proj1 (in_rev _ _) Hse2)). unfold h, clamp in Hn.
    destruct (Z.ltb_spec (Z.min (Z.max e start) end_) size); [lia|].
    destruct (Z.leb_spec (Z.min (Z.max s start) end_)
      ((Z.min (Z.max e start) end_ - size) / 2 ^ k * 2 ^ k)) as [|Hlt]; [done|].
    destruct Hd as [q ->].
    assert (q <= (Z.min (Z.max e start) end_ - size) / 2 ^ k).
    { apply Z.div_le_lower_bound; lia. }
    assert (q * 2 ^ k <= (Z.min (Z.max e start) end_ - size) / 2 ^ k * 2 ^ k).
    { apply Z.mul_le_mono_nonneg_r; lia. }
    lia.
Qed.

Lemma round_up_sound x : 0 <= x < 2 ^ 64 -> round_up x (2 ^ k) <> 0 ->
  x <= round_up x (2 ^ k) /\ (2 ^ k | round_up x (2 ^ k)).
Proof.
  intros Hx. assert (Hp : 0 < 2 ^ k) by (apply Z.pow_pos_nonneg; lia).
  rewrite round_up_pow2 by lia. set (q := (x + 2 ^ k - 1) / 2 ^ k).
  assert (Hq : x <= q * 2 ^ k < x + 2 ^ k).
  { unfold q. pose proof (Z.div_mod (x + 2 ^ k - 1) (2 ^ k) ltac:(lia)) as E.
    pose proof (Z.mod_pos_bound (x + 2 ^ k - 1) (2 ^ k) Hp). lia. }
  assert (E64 : 2 ^ 64 = 2 ^ (64 - k) * 2 ^ k) by (rewrite <- Z.pow_add_r by lia; f_equal; lia).
  destruct (Z.lt_ge_cases (q * 2 ^ k) (2 ^ 64)) as [Hlt|Hge].
  - rewrite u64_small by lia. intros _. split; [lia|apply Z.divide_factor_r].
  - intros Hne. exfalso. apply Hne.
    assert (q = 2 ^ (64 - k)) as ->.
    { assert (Hlt2 : q * 2 ^ k < 2 ^ (64 - k) * 2 ^ k + 1 * 2 ^ k) by lia.
      rewrite <- Z.mul_add_distr_r in Hlt2.
      apply Z.mul_lt_mono_pos_r in Hlt2; [|lia].
      rewrite E64 in Hge. apply Z.mul_le_mono_pos_r in Hge; lia. }
    rewrite <- E64. reflexivity.
Qed.

Lemma find_bottom_up_ok start end_ size f :
  0 < start -> start <= end_ <= PHYS_ADDR_MAX -> 0 <= size < 2 ^ 64 ->
  returns (__memblock_find_range_bottom_up mb start end_ size (2 ^ k) f) (fun c =>
    c <> 0 -> good_block start end_ size f c).
Proof.
  intros H0 Hse Hsz. unfold PHYS_ADDR_MAX in *. unfold __memblock_find_range_bottom_up.
  rewrite (for_each_free_mem_range_eq _ _ _ _ _ _ _ _ Hm Hr).
  set (l := free_ranges f (norm lm) (gaps 0 (norm lr))).
  set (h := fun s e => let c := round_up (clamp s start end_) (2 ^ k) in
    if (c <? clamp e start end_) && (size <=? u64 (clamp e start end_ - c))
    then Some c else None).
  match goal with |- context [fold_ranges ?body _ _] =>
    destruct (fold_first_hit body h l) as [(s & e & c & Hin & Hh & ->)|[Hn ->]] end.
  - intros s e _. unfold first_hit, h. by case_match.
  - simpl. unfold h in Hh. case_match eqn:E; [|done]. injection Hh as <-.
    apply andb_true_iff in E as [E1 E2]. apply Z.ltb_lt in E1. apply Z.leb_le in E2.
    intros Hne. destruct (round_up_sound (clamp s start end_)) as [Hge Hd]; auto.
    { unfold clamp. lia. }
    rewrite u64_small in E2 by (unfold clamp in *; lia).
    apply (good_block_clamped f s e); auto; lia.
  - simpl. done.
Qed.

(** [__memblock_find_in_range]: a non-zero result is a usable block; zero
    means that no memory region contains one. *)
Lemma find_in_range_ok size start end_ f :
  0 <= start <= PHYS_ADDR_MAX -> 0 <= end_ <= PHYS_ADDR_MAX ->
  0 <= current_limit mb <= PHYS_ADDR_MAX -> 0 <= size < 2 ^ 64 ->
  let start' := Z.max start PAGE_SIZE in
  let end' := Z.max start' (if end_ =? 0 then current_limit mb else end_) in
  returns (__memblock_find_in_range mb size (2 ^ k) start end_ f) (fun c =>
    (c <> 0 -> good_block start' end' size f c) /\
    (c = 0 -> forall r c', 0 < size -> r ∈ lm -> flags r = f ->
       base r <= c' -> c' + size <= base r + rsize r ->
       ~ good_block start' end' size f c')).
Proof.
  intros Hs He Hl Hsz start' end'. unfold __memblock_find_in_range.
  unfold MEMBLOCK_ALLOC_ACCESSIBLE. fold start'. fold end'.
  assert (HP : PAGE_SIZE = 4096) by reflexivity.
  assert (Hb : 0 < start' /\ start' <= end' <= PHYS_ADDR_MAX).
  { unfold start', end', PHYS_ADDR_MAX in *. case_match; lia. }
  destruct Hb as [Hb1 Hb2]. destruct (bottom_up mb).
  - eapply returns_bind; [by apply find_bottom_up_ok|]. intros c Hc. cbv beta in Hc.
    destruct (Z.eqb_spec c 0); simpl; [by apply find_top_down_ok|]. split; [auto|lia].
  - rewrite bind_ret. simpl. by apply find_top_down_ok.
Qed.

End find.

(** ** The memblock operations on a whole memblock

    [mb_holds] relates a memblock to the two region lists it holds; each
    operation is shown total on it, with its effect on the lists. *)

(** A memblock whose memory and reserved arrays hold [lm] and [lr]. *)
Record mb_holds (mb : memblock) (lm lr : list memblock_region) (n : Z) : Prop := {
  mb_memory : repr (memory mb) lm n;
  mb_reserved : repr (reserved mb) lr n;
  mb_limit : 0 <= current_limit mb <= PHYS_ADDR_MAX;
}.

Definition addr (a : Z) : Prop := 0 <= a < 2 ^ 64.

(** The end of a range after [memblock_cap_size]. *)
Definition range_end (b size : Z) : Z := b + memblock_cap_size b size.

Lemma set_memory_id mb : set_memory mb (memory mb) = mb.
Proof. by destruct mb. Qed.
Lemma set_reserved_id mb : set_reserved mb (reserved mb) = mb.
Proof. by destruct mb. Qed.

Lemma mb_holds_set_memory mb lm lr n t l' :
  mb_holds mb lm lr n -> repr t l' n -> mb_holds (set_memory mb t) l' lr n.
Proof. intros [? ? ?] ?. by split. Qed.
Lemma mb_holds_set_reserved mb lm lr n t l' :
  mb_holds mb lm lr n -> repr t l' n -> mb_holds (set_reserved mb t) lm l' n.
Proof. intros [? ? ?] ?. by split. Qed.

(** A concrete memblock: 1 MiB of memory at 4 MiB, its first page reserved. *)
Definition demo_type (l : list memblock_region) : memblock_type :=
  mk_type (Z.of_nat (length l)) INIT_MEMBLOCK_REGIONS (sum_size l)
    (l ++ replicate (Z.to_nat INIT_MEMBLOCK_REGIONS - length l) zero_region).
Definition demo_mem : list memblock_region := [mk_region 4194304 1048576 0].
Definition demo_res : list memblock_region := [mk_region 4194304 4096 0].
Definition demo : memblock :=
  mk_memblock false MEMBLOCK_ALLOC_ANYWHERE (demo_type demo_mem) (demo_type demo_res).

Lemma demo_holds : mb_holds demo demo_mem demo_res 128.
Proof.
  split.
  - split; [|vm_compute; intuition discriminate].
    apply mk_holds with (tl := replicate 127 zero_region); reflexivity.
  - split; [|vm_compute; intuition discriminate].
    apply mk_holds with (tl := replicate 127 zero_region); reflexivity.
  - vm_compute. intuition discriminate.
Defined.

(** ** Changing memory and reservations *)

Lemma memblock_add_total mb lm lr n b size :
  mb_holds mb lm lr n -> addr b -> addr size ->
  (memblock_add mb b size = Ret (- ENOMEM, mb) /\
   n < Z.of_nat (length (fill 0 (range_end b size) b lm))) \/
  (exists mb' lm', memblock_add mb b size = Ret (0, mb') /\
   mb_holds mb' lm' lr n /\ (minimal lm -> minimal lm') /\
   forall a, flags_at lm' a = union_flags (flags_at lm a) 0 b (range_end b size) a).
Proof.
  intros H Hb Hs. unfold memblock_add.
  destruct (add_range_total (memory mb) lm n b size 0 (mb_memory _ _ _ _ H) Hb Hs)
    as [[-> Hn]|(t' & l' & -> & Hr & Hmin & Hf)].
  - left. split; [|exact Hn]. simpl. by rewrite set_memory_id.
  - right. exists (set_memory mb t'), l'. split_and!; auto.
    by apply (mb_holds_set_memory _ lm).
Qed.

Lemma memblock_free_total mb lm lr n b size :
  mb_holds mb lm lr n -> addr b -> addr size ->
  (memblock_free mb b size = Ret (- ENOMEM, mb) /\
   n < Z.of_nat (length (norm lr)) + 2) \/
  (exists mb' lr', memblock_free mb b size = Ret (0, mb') /\
   mb_holds mb' lm lr' n /\
   forall a, flags_at lr' a =
     if (b <=? a) && (a <? range_end b size) then None else flags_at lr a).
Proof.
  intros H Hb Hs. unfold memblock_free.
  destruct (remove_range_total (reserved mb) lr n b size (mb_reserved _ _ _ _ H) Hb Hs)
    as [[-> Hn]|(t' & l' & -> & Hr & Hf)].
  - left. split; [|exact Hn]. simpl. by rewrite set_reserved_id.
  - right. exists (set_reserved mb t'), l'. split_and!; auto.
    by apply (mb_holds_set_reserved _ _ lr).
Qed.

Lemma setclr_total mb lm lr n b size set flag :
  mb_holds mb lm lr n -> addr b -> addr size ->
  memblock_setclr_flag mb b size set flag = Ret (- ENOMEM, mb) \/
  (exists mb' lm', memblock_setclr_flag mb b size set flag = Ret (0, mb') /\
   mb_holds mb' lm' lr n /\ minimal lm' /\
   forall a, flags_at lm' a =
     if (b <=? a) && (a <? range_end b size)
     then flag_fun set flag <$> flags_at lm a else flags_at lm a).
Proof.
  intros H Hb Hs.
  destruct (setclr_flag_total mb lm n b size set flag (mb_memory _ _ _ _ H) Hb Hs)
    as [[-> Hn]|(t' & l' & -> & Hr & Hmin & Hf)].
  - left. by rewrite set_memory_id.
  - right. exists (set_memory mb t'), l'. split_and!; auto.
    by apply (mb_holds_set_memory _ lm).
Qed.

Lemma memblock_remove_total mb lm lr n b size :
  mb_holds mb lm lr n -> addr b -> addr size ->
  memblock_remove mb b size = Ret (- ENOMEM, mb) \/
  exists mb' lm', memblock_remove mb b size = Ret (0, mb') /\
   mb_holds mb' lm' lr n /\
   forall a, flags_at lm' a =
     if (b <=? a) && (a <? range_end b size) then None else flags_at lm a.
Proof.
  intros H Hb Hs. unfold memblock_remove.
  destruct (remove_range_total (memory mb) lm n b size (mb_memory _ _ _ _ H) Hb Hs)
    as [[-> Hn]|(t' & l' & -> & Hr & Hf)].
  - left. simpl. by rewrite set_memory_id.
  - right. exists (set_memory mb t'), l'. split_and!; auto.
    by apply (mb_holds_set_memory _ lm).
Qed.

Lemma memblock_reserve_total mb lm lr n b size :
  mb_holds mb lm lr n -> addr b -> addr size ->
  (memblock_reserve mb b size = Ret (- ENOMEM, mb) /\
   n < Z.of_nat (length (fill 0 (range_end b size) b lr))) \/
  exists mb' lr', memblock_reserve mb b size = Ret (0, mb') /\
   mb_holds mb' lm lr' n /\
   forall a, flags_at lr' a = union_flags (flags_at lr a) 0 b (range_end b size) a.
Proof.
  intros H Hb Hs. unfold memblock_reserve.
  destruct (add_range_total (reserved mb) lr n b size 0 (mb_reserved _ _ _ _ H) Hb Hs)
    as [[-> Hn]|(t' & l' & -> & Hr & Hmin & Hf)].
  - left. simpl. by rewrite set_reserved_id.
  - right. exists (set_reserved mb t'), l'. split_and!; auto.
    by apply (mb_holds_set_reserved _ _ lr).
Qed.

(** ** Binary search *)

(** What [search_step] keeps: every region left of [lo] ends at or before the
    address, every region from [hi] on starts after it. *)
Definition search_inv (l : list memblock_region) (a : Z) (lh : Z * Z) : Prop :=
  0 <= lh.1 < lh.2 /\ lh.2 <= Z.of_nat (length l) /\
  (forall i r, l !! i = Some r -> Z.of_nat i < lh.1 -> base r + rsize r <= a) /\
  (forall i r, l !! i = Some r -> lh.2 <= Z.of_nat i -> a < base r).

Definition search_post (l : list memblock_region) (a i : Z) : Prop :=
  (i = -1 /\ Forall (fun r => contains r a = false) l) \/
  (exists r, 0 <= i /\ l !! Z.to_nat i = Some r /\ contains r a = true).

Lemma search_next_ok l a lo hi m :
  0 <= lo -> hi <= Z.of_nat (length l) -> 0 <= hi -> (Z.to_nat (hi - lo) < m)%nat ->
  (forall i r, l !! i = Some r -> Z.of_nat i < lo -> base r + rsize r <= a) ->
  (forall i r, l !! i = Some r -> hi <= Z.of_nat i -> a < base r) ->
  returns (search_next (lo, hi)) (fun r =>
    match r with
    | inl s => search_inv l a s /\ (Z.to_nat (s.2 - s.1) < m)%nat
    | inr x => search_post l a x
    end).
Proof.
  intros Hlo Hhi Hh0 Hm H1 H2. unfold search_next. simpl.
  destruct (Z.ltb_spec lo hi) as [Hlt|Hge]; simpl.
  - split; [|done]. by split_and!.
  - left. split; [done|]. apply Forall_lookup. intros i s Hs. apply contains_false.
    destruct (Z.lt_ge_cases (Z.of_nat i) lo) as [Hl|Hl];
      [specialize (H1 _ _ Hs Hl)|specialize (H2 i s Hs ltac:(lia))]; lia.
Qed.

Lemma search_step_ok t l n tot a s :
  holds t l n tot -> wok 0 l -> search_inv l a s ->
  returns (search_step t a s) (fun r =>
    match r with
    | inl s' => search_inv l a s' /\ (Z.to_nat (s'.2 - s'.1) < Z.to_nat (s.2 - s.1))%nat
    | inr x => search_post l a x
    end).
Proof.
  destruct s as [lo hi]. intros H Hw (Hlh & Hhi & Hlo & Hup). simpl in *.
  pose proof (holds_cnt_le _ _ _ _ H) as CL. pose proof (h_bound _ _ _ _ H) as CB.
  rewrite (u32_small (hi + lo)) by lia. set (mid := (hi + lo) / 2).
  assert (Hmid : lo <= mid < hi).
  { unfold mid. split; [apply Z.div_le_lower_bound|apply Z.div_lt_upper_bound]; lia. }
  destruct (lookup_lt_is_Some_2 l (Z.to_nat mid)) as [r Hr]; [lia|].
  assert (Hin : r ∈ l) by (apply list_elem_of_lookup; eauto).
  replace mid with (Z.of_nat (Z.to_nat mid)) at 1 by lia.
  rewrite (rd_live _ _ _ _ _ _ H Hr), bind_ret, (live_bounds _ r Hw Hin).
  pose proof (wok_elem _ _ _ Hw Hin) as Hb.
  assert (Hcase : forall i s, l !! i = Some s ->
    (Z.of_nat i < mid /\ base s + rsize s <= base r) \/ (Z.of_nat i = mid /\ s = r) \/
    (mid < Z.of_nat i /\ base r + rsize r <= base s)).
  { intros i s Hs. destruct (Z.lt_trichotomy (Z.of_nat i) mid) as [E|[E|E]].
    - left. split; [done|]. eapply wok_sorted; [exact Hw| |exact Hs|exact Hr]. lia.
    - right; left. split; [done|]. rewrite <- E, Nat2Z.id in Hr. congruence.
    - right; right. split; [done|]. eapply wok_sorted; [exact Hw| |exact Hr|exact Hs]. lia. }
  destruct (Z.ltb_spec a (base r)) as [C1|C1];
    [|destruct (Z.leb_spec (base r + rsize r) a) as [C2|C2]].
  - apply search_next_ok; auto; try lia. intros i s Hs Hi.
    destruct (Hcase i s Hs) as [[? ?]|[[? ->]|[? ?]]]; lia.
  - rewrite (u32_small (mid + 1)) by lia. apply search_next_ok; auto; try lia. intros i s Hs Hi.
    destruct (Hcase i s Hs) as [[? ?]|[[? ->]|[? ?]]]; lia.
  - right. exists r. split_and!; [lia|done|]. apply contains_spec. lia.
Qed.

Lemma flags_at_lookup l i r a :
  ok 0 l -> l !! i = Some r -> contains r a = true -> flags_at l a = Some (flags r).
Proof. intros Hk Hi Hc. apply (flags_at_elem 0); auto. apply list_elem_of_lookup. eauto. Qed.

Lemma search_total t l n a :
  repr t l n -> addr a ->
  returns (memblock_search t a) (fun i =>
    (i = -1 /\ flags_at l a = None) \/
    (exists r, 0 <= i /\ rd (regions t) i = Ret r /\ r ∈ l /\ contains r a = true /\
               flags_at l a = Some (flags r))).
Proof.
  intros [H Hk] Ha. pose proof (h_cnt _ _ _ _ H) as C.
  pose proof (holds_cnt_le _ _ _ _ H) as CL. pose proof (h_bound _ _ _ _ H) as CB.
  assert (Hlen : (1 <= length (norm l))%nat) by (destruct l; simpl; lia).
  apply returns_mono with (P := search_post (norm l) a).
  - unfold memblock_search. rewrite C, u32_small by lia.
    apply loop_returns with (I := search_inv (norm l) a) (m := fun s => Z.to_nat (s.2 - s.1)).
    + split_and!; simpl; try lia. intros i r Hi. apply lookup_lt_Some in Hi. lia.
    + simpl. lia.
    + intros s Hs. apply (search_step_ok _ _ n (sum_size l)); auto. by apply wok_norm.
  - intros i [[-> HF]|(r & Hi & Hl & Hc)]; [left|right].
    + split; [done|]. by apply flags_at_norm.
    + exists r. pose proof (rd_live _ _ _ _ _ _ H Hl) as Hrd. rewrite Z2Nat.id in Hrd by done.
      destruct l as [|r0 l].
      { simpl in Hl. destruct (Z.to_nat i); [|done]. injection Hl as <-.
        apply contains_spec in Hc. simpl in Hc. lia. }
      split_and!; auto; [apply list_elem_of_lookup; eauto|by apply (flags_at_lookup _ (Z.to_nat i))].
Qed.

(** ** Queries *)

Lemma overlaps_loop t l n tot b size :
  holds t l n tot -> wok 0 l -> addr (b + size) ->
  returns (memblock_overlaps_region t b size) (fun res =>
    res = existsb (fun r => (b <? base r + rsize r) && (base r <? b + size)) l).
Proof.
  intros H Hw Ha. pose proof (h_cnt _ _ _ _ H) as C. unfold memblock_overlaps_region.
  eapply returns_bind with (P := fun i => 
    (i <? cnt t) = existsb (fun r => (b <? base r + rsize r) && (base r <? b + size)) l);
    [|intros i <-; done].
  apply loop_returns with (m := fun i => Z.to_nat (cnt t - i)) (I := fun i =>
    0 <= i <= cnt t /\
    Forall (fun r => (b <? base r + rsize r) && (base r <? b + size) = false) (take (Z.to_nat i) l)).
  { split; [lia|by constructor]. }
  { lia. }
  intros i [Hi HF]. unfold overlaps_step. destruct (Z.ltb_spec i (cnt t)) as [Hlt|Hge].
  - destruct (lookup_lt_is_Some_2 l (Z.to_nat i)) as [r Hr]; [lia|].
    replace i with (Z.of_nat (Z.to_nat i)) at 1 by lia.
    rewrite (rd_live _ _ _ _ _ _ H Hr), bind_ret. unfold memblock_addrs_overlap.
    assert (Hin : r ∈ l) by (apply list_elem_of_lookup; eauto).
    rewrite (live_bounds _ r Hw Hin), (u64_small (b + size)) by (unfold addr in *; lia).
    destruct ((b <? base r + rsize r) && (base r <? b + size)) eqn:E; simpl.
    + zdec. symmetry. apply existsb_exists. exists r. split; [by apply list_elem_of_In|done].
    + split; [|lia]. split; [lia|]. replace (Z.to_nat (i + 1)) with (S (Z.to_nat i)) by lia.
      rewrite (take_S_r _ _ _ Hr). apply Forall_app. auto.
  - simpl. rewrite take_ge in HF by lia. zdec. symmetry.
    apply not_true_is_false. intros E. apply existsb_exists in E as (r & Hr & E).
    rewrite Forall_forall in HF. rewrite (HF r) in E; [done|]. done.
Qed.

Lemma flags_at_some l a f :
  flags_at l a = Some f -> exists r, r ∈ l /\ contains r a = true /\ flags r = f.
Proof.
  induction l as [|x l IH]; simpl; [done|]. destruct (contains x a) eqn:E.
  - intros [= <-]. exists x. split_and!; [left|done|done].
  - intros H. destruct (IH H) as (r & Hr & ? & ?). exists r. split_and!; [by right|done|done].
Qed.

(** A range meets a region exactly when it has an address in it. *)
Lemma overlap_flags l b e :
  ok 0 l -> b < e ->
  existsb (fun r => (b <? base r + rsize r) && (base r <? e)) l = true <->
  exists a, b <= a < e /\ flags_at l a <> None.
Proof.
  intros Hk Hbe. rewrite existsb_exists. split.
  - intros (r & Hr & E). apply andb_true_iff in E as [E1 E2].
    apply Z.ltb_lt in E1, E2. apply list_elem_of_In in Hr.
    pose proof (ok_elem _ _ _ Hk Hr). exists (Z.max b (base r)). split; [lia|].
    rewrite (flags_at_elem 0 l r); [done|done|done|]. apply contains_spec. lia.
  - intros (a & Ha & Hf). destruct (flags_at l a) eqn:E; [|done].
    apply flags_at_some in E as (r & Hr & Hc & _). exists r.
    split; [by apply list_elem_of_In|]. apply contains_spec in Hc.
    apply andb_true_iff. rewrite !Z.ltb_lt. lia.
Qed.

Lemma is_region_reserved_total mb lm lr n b size :
  mb_holds mb lm lr n -> addr b -> addr size -> b < range_end b size ->
  returns (memblock_is_region_reserved mb b size) (fun res =>
    res = true <-> exists a, b <= a < range_end b size /\ flags_at lr a <> None).
Proof.
  intros [_ [H Hk] _] Hb Hs Hlt. destruct (cap_end b size Hb Hs) as (E1 & E2 & E3).
  unfold memblock_is_region_reserved, range_end, PHYS_ADDR_MAX in *.
  eapply returns_mono.
  - apply (overlaps_loop _ _ _ _ _ _ H); [by apply wok_norm|unfold addr; lia].
  - intros res ->. destruct lr as [|r lr]; [|by apply overlap_flags].
    simpl. zdec. split; [done|]. by intros (a & _ & ?).
Qed.

Lemma is_map_memory_total mb lm lr n a :
  mb_holds mb lm lr n -> addr a ->
  returns (memblock_is_map_memory mb a) (fun res =>
    res = match flags_at lm a with
          | Some f => Z.land f MEMBLOCK_NOMAP =? 0
          | None => false
          end).
Proof.
  intros [Hm _ _] Ha. unfold memblock_is_map_memory.
  eapply returns_bind; [by apply (search_total _ lm n)|].
  intros i [[-> ->]|(r & Hi & Hrd & _ & _ & ->)]; [done|].
  replace (i =? -1) with false by (symmetry; apply Z.eqb_neq; lia).
  rewrite Hrd, bind_ret. simpl. unfold memblock_is_nomap. by rewrite negb_involutive.
Qed.

Lemma is_member_total t l n a :
  repr t l n -> addr a ->
  returns (i ← memblock_search t a; Ret (negb (i =? -1))) (fun res =>
    res = bool_decide (is_Some (flags_at l a))).
Proof.
  intros Hr Ha. eapply returns_bind; [by apply (search_total _ l n)|].
  intros i [[-> ->]|(r & Hi & _ & _ & _ & ->)]; simpl; [done|].
  destruct (Z.eqb_spec i (-1)); [lia|done].
Qed.

Lemma ok_unique lo l r s a :
  ok lo l -> r ∈ l -> s ∈ l -> contains r a = true -> contains s a = true -> r = s.
Proof.
  intros Hk Hr Hs Ca Cb. apply contains_spec in Ca, Cb.
  apply list_elem_of_lookup in Hr as [i Hi], Hs as [j Hj].
  destruct (Nat.lt_trichotomy i j) as [E|[->|E]]; [exfalso|congruence|exfalso].
  - pose proof (wok_sorted lo l i j r s (ok_wok _ _ Hk) E Hi Hj). lia.
  - pose proof (wok_sorted lo l j i s r (ok_wok _ _ Hk) E Hj Hi). lia.
Qed.

Lemma is_region_memory_total mb lm lr n b size :
  mb_holds mb lm lr n -> addr b -> addr size ->
  returns (memblock_is_region_memory mb b size) (fun res =>
    res = true <-> exists r, r ∈ lm /\ contains r b = true /\
                             range_end b size <= base r + rsize r).
Proof.
  intros [Hm _ _] Hb Hs. destruct (cap_end b size Hb Hs) as (E1 & E2 & E3).
  unfold memblock_is_region_memory. fold (range_end b size) in *. rewrite E3.
  eapply returns_bind; [by apply (search_total _ lm n)|].
  destruct Hm as [H Hk].
  intros i [[-> HF]|(r & Hi & Hrd & Hin & Hc & Hf)].
  - simpl. split; [done|]. intros (r & Hr & Hc & _).
    rewrite (flags_at_elem 0 lm r) in HF; auto. done.
  - replace (i =? -1) with false by (symmetry; apply Z.eqb_neq; lia).
    rewrite Hrd, bind_ret. simpl. pose proof (ok_elem _ _ _ Hk Hin).
    rewrite u64_small by (unfold PHYS_ADDR_MAX in *; lia). rewrite Z.leb_le. split.
    + intros Hle. exists r. auto.
    + intros (r' & Hr' & Hc' & Hle). destruct (ok_unique 0 lm r r' b); auto.
Qed.
