(* ===== verification/MemblockLimits.v ===== *)
(** * Allocation and the memory limits

    Totality and effect of the allocation entry points, of
    [memblock_enforce_memory_limit] and of [memblock_cap_memory_range]. *)

From stdpp Require Import base numbers list option.
From Stdlib Require Import ZArith Lia.
From S2P Require Import Prelude Memblock MemblockFacts MemblockRanges MemblockIter MemblockOps.

(** ** Allocation *)

(** The bounds that [__memblock_find_in_range] searches. *)
Definition eff_start (start : Z) : Z := Z.max start PAGE_SIZE.
Definition eff_end (mb : memblock) (start end_ : Z) : Z :=
  Z.max (eff_start start) (if end_ =? 0 then current_limit mb else end_).

(** [lr'] is [lr] with the block [c, c + size) added. *)
Definition reserves (lr lr' : list memblock_region) (c size : Z) : Prop :=
  forall a, flags_at lr' a = union_flags (flags_at lr a) 0 c (c + size) a.

(** A usable block exists inside one memory region. *)
Definition block_exists (lm lr : list memblock_region) (k start end_ size f : Z) : Prop :=
  exists r c, r ∈ lm /\ flags r = f /\ base r <= c /\ c + size <= base r + rsize r /\
    good_block lm lr k start end_ size f c.

(** The two ways an allocation attempt ends. *)
Inductive alloc_outcome (mb : memblock) (lm lr : list memblock_region) (n k s e size f : Z)
  : Z -> memblock -> Prop :=
  | alloc_done c mb' lr' :
      c <> 0 -> good_block lm lr k s e size f c ->
      mb_holds mb' lm lr' n -> reserves lr lr' c size ->
      alloc_outcome mb lm lr n k s e size f c mb'
  | alloc_failed :
      ~ block_exists lm lr k s e size f \/
      (exists c, good_block lm lr k s e size f c /\
         n < Z.of_nat (length (fill 0 (c + size) c lr))) ->
      alloc_outcome mb lm lr n k s e size f 0 mb.

Lemma good_range_end lm lr k s e size f c :
  0 <= s -> e <= PHYS_ADDR_MAX -> 0 < size -> good_block lm lr k s e size f c ->
  addr c /\ range_end c size = c + size.
Proof.
  intros Hs He Hsz (_ & H1 & H2 & _). unfold range_end, memblock_cap_size, addr, PHYS_ADDR_MAX in *.
  rewrite u64_small by lia. lia.
Qed.

Lemma eff_bounds mb start end_ :
  0 <= start <= PHYS_ADDR_MAX -> 0 <= end_ <= PHYS_ADDR_MAX ->
  0 <= current_limit mb <= PHYS_ADDR_MAX ->
  0 < eff_start start <= eff_end mb start end_ /\ eff_end mb start end_ <= PHYS_ADDR_MAX.
Proof.
  unfold eff_end, eff_start, PHYS_ADDR_MAX. change PAGE_SIZE with 4096.
  case_match; lia.
Qed.

(** Reserving a block that the search found. *)
Lemma reserve_block mb lm lr n k s e size f c :
  mb_holds mb lm lr n -> 0 <= s -> e <= PHYS_ADDR_MAX -> 0 < size < 2 ^ 64 ->
  good_block lm lr k s e size f c ->
  (memblock_reserve mb c size = Ret (- ENOMEM, mb) /\
   n < Z.of_nat (length (fill 0 (c + size) c lr))) \/
  (exists mb' lr', memblock_reserve mb c size = Ret (0, mb') /\ mb_holds mb' lm lr' n /\
   reserves lr lr' c size).
Proof.
  intros H Hs He Hsz Hg. destruct (good_range_end _ _ _ _ _ _ _ _ Hs He (proj1 Hsz) Hg) as [Ha Hre].
  destruct (memblock_reserve_total mb lm lr n c size H Ha) as [Hf|(mb' & lr' & Hf & H' & HF)];
    [unfold addr; lia| |]; rewrite Hre in *; [by left|right].
  exists mb', lr'. by split_and!.
Qed.

Section alloc.
Context (mb : memblock) (lm lr : list memblock_region) (n k size start end_ f : Z).
Context (H : mb_holds mb lm lr n) (Hk : 0 <= k < 64) (Hsz : 0 < size < 2 ^ 64).
Context (Hst : 0 <= start <= PHYS_ADDR_MAX) (Hen : 0 <= end_ <= PHYS_ADDR_MAX).

Lemma find_total :
  returns (__memblock_find_in_range mb size (2 ^ k) start end_ f) (fun c =>
    (c <> 0 -> good_block lm lr k (eff_start start) (eff_end mb start end_) size f c) /\
    (c = 0 -> ~ block_exists lm lr k (eff_start start) (eff_end mb start end_) size f)).
Proof.
  destruct H as [Hm Hr Hl]. pose proof Hsz as [Hsz0 Hsz1].
  eapply returns_mono; [apply (find_in_range_ok mb lm lr n n Hm Hr k Hk size start end_ f); auto; lia|].
  intros c [H1 H2]. split; [exact H1|]. intros -> (r & c' & Hr' & Hf & Hb & He & Hg).
  revert Hg. by apply (H2 eq_refl r c').
Qed.

Lemma alloc_range_total :
  returns (memblock_alloc_range mb size (2 ^ k) start end_ f) (fun '(c, mb') =>
    alloc_outcome mb lm lr n k (eff_start start) (eff_end mb start end_) size f c mb').
Proof.
  destruct (eff_bounds mb start end_ Hst Hen (mb_limit _ _ _ _ H)) as [Hb1 Hb2].
  unfold memblock_alloc_range, __memblock_alloc_range.
  assert (Hp : 0 < 2 ^ k) by (apply Z.pow_pos_nonneg; lia). zdec.
  eapply returns_bind; [apply find_total|]. intros c [Hgood Hnone].
  destruct (Z.eqb_spec c 0) as [->|Hc]; simpl.
  { apply alloc_failed. left. auto. }
  specialize (Hgood Hc).
  destruct (reserve_block _ _ _ _ _ _ _ _ _ _ H (Z.lt_le_incl _ _ (proj1 Hb1)) Hb2 Hsz Hgood)
    as [[-> Hn]|(mb' & lr' & -> & H' & HR)]; rewrite bind_ret; simpl.
  - apply alloc_failed. right. eauto.
  - by apply (alloc_done _ _ _ _ _ _ _ _ _ c mb' lr').
Qed.

End alloc.

(** [memblock_alloc_internal] tries the preferred lower bound, then zero. *)
Lemma alloc_again_ok mb lm lr n k size max_addr f min_addr :
  mb_holds mb lm lr n -> 0 <= k < 64 -> 0 < size < 2 ^ 64 ->
  0 <= max_addr <= PHYS_ADDR_MAX -> 0 <= min_addr <= PHYS_ADDR_MAX ->
  returns (alloc_again size (2 ^ k) max_addr f (mb, min_addr)) (fun r =>
    match r with
    | inl s => s = (mb, 0) /\ min_addr <> 0
    | inr (c, mb') =>
        alloc_outcome mb lm lr n k (eff_start min_addr) (eff_end mb min_addr max_addr) size f c mb'
    end).
Proof.
  intros H Hk Hsz Hmx Hmn.
  destruct (eff_bounds mb min_addr max_addr Hmn Hmx (mb_limit _ _ _ _ H)) as [Hb1 Hb2].
  eapply returns_bind; [by apply (find_total mb lm lr n)|]. intros c [Hgood Hnone].
  destruct (Z.eqb_spec c 0) as [->|Hc]; simpl.
  { destruct (Z.eqb_spec min_addr 0); simpl; [|done]. apply alloc_failed. left. auto. }
  specialize (Hgood Hc).
  destruct (reserve_block _ _ _ _ _ _ _ _ _ _ H (Z.lt_le_incl _ _ (proj1 Hb1)) Hb2 Hsz Hgood)
    as [[-> Hn]|(mb' & lr' & -> & H' & HR)]; rewrite !bind_ret; simpl.
  - destruct (Z.eqb_spec min_addr 0); simpl; [|done]. apply alloc_failed. right. eauto.
  - by apply (alloc_done _ _ _ _ _ _ _ _ _ c mb' lr').
Qed.

Lemma alloc_internal_total mb lm lr n k size min_addr max_addr :
  mb_holds mb lm lr n -> 0 <= k < 64 -> 0 < size < 2 ^ 64 ->
  0 <= min_addr <= PHYS_ADDR_MAX -> 0 <= max_addr <= PHYS_ADDR_MAX ->
  let e := Z.min max_addr (current_limit mb) in
  returns (memblock_alloc_internal mb size (2 ^ k) min_addr max_addr) (fun '(c, mb') =>
    exists m, (m = min_addr \/ m = 0) /\
      alloc_outcome mb lm lr n k (eff_start m) (eff_end mb m e) size 0 c mb').
Proof.
  intros H Hk Hsz Hmn Hmx e. pose proof (mb_limit _ _ _ _ H) as Hl.
  unfold memblock_alloc_internal.
  assert (Hp : 0 < 2 ^ k) by (apply Z.pow_pos_nonneg; lia). zdec.
  replace (if current_limit mb <? max_addr then current_limit mb else max_addr) with e
    by (unfold e; case_match eqn:E; [apply Z.ltb_lt in E|apply Z.ltb_ge in E]; lia).
  apply loop_returns with (m := fun s : memblock * Z => if s.2 =? 0 then 0%nat else 1%nat)
    (I := fun s => s.1 = mb /\ (s.2 = min_addr \/ s.2 = 0)).
  { auto. }
  { case_match; lia. }
  intros [mb1 m] [Hmb Hm]. simpl in Hmb, Hm. subst mb1.
  eapply returns_mono; [apply (alloc_again_ok mb lm lr n); auto; unfold e; lia|].
  intros [s|[c mb']]; simpl.
  - intros [-> Hne]. simpl. split; [auto|]. destruct (Z.eqb_spec m 0); [done|]. lia.
  - intros Ho. exists m. auto.
Qed.

(** ** Memory limits *)

(** Bytes of memory below an address. *)
Fixpoint size_below (l : list memblock_region) (x : Z) : Z :=
  match l with
  | [] => 0
  | r :: l' => Z.max 0 (Z.min (rsize r) (x - base r)) + size_below l' x
  end.

Lemma size_below_app l1 l2 x : size_below (l1 ++ l2) x = size_below l1 x + size_below l2 x.
Proof. induction l1 as [|r l1 IH]; simpl; [done|]. lia. Qed.

Lemma size_below_all l x :
  (forall r, r ∈ l -> base r + rsize r <= x /\ 0 <= rsize r) -> size_below l x = sum_size l.
Proof.
  induction l as [|r l IH]; intros H; simpl; [done|].
  rewrite IH by (intros s Hs; apply H; by right).
  destruct (H r ltac:(left)). lia.
Qed.

Lemma size_below_none l x : (forall r, r ∈ l -> x <= base r) -> size_below l x = 0.
Proof.
  induction l as [|r l IH]; intros H; simpl; [done|].
  rewrite IH by (intros s Hs; apply H; by right). specialize (H r ltac:(left)). lia.
Qed.

Lemma sum_size_take l i r :
  l !! i = Some r -> sum_size (take (S i) l) = sum_size (take i l) + rsize r.
Proof. intros H. rewrite (take_S_r _ _ _ H), sum_size_app. simpl. lia. Qed.

(** The address below which exactly [limit] bytes of memory lie. *)
Lemma size_below_at lo l i r y :
  ok lo l -> l !! i = Some r -> 0 <= y <= rsize r ->
  size_below l (base r + y) = sum_size (take i l) + y.
Proof.
  intros Hk Hi Hy. pose proof (take_drop_middle _ _ _ Hi) as E.
  rewrite <- E at 1. rewrite size_below_app. simpl.
  rewrite <- E in Hk. apply ok_app in Hk as (K1 & K2 & K3). simpl in K2.
  rewrite size_below_all, size_below_none; [lia| |].
  - intros s Hs. destruct K2 as (_ & ? & _ & K2). pose proof (ok_elem _ _ _ K2 Hs). lia.
  - intros s Hs. pose proof (ok_elem _ _ _ K1 Hs). specialize (K3 s r Hs ltac:(left)). lia.
Qed.

Definition max_addr_post (l : list memblock_region) (limit x : Z) : Prop :=
  addr x /\ ((x = PHYS_ADDR_MAX /\ sum_size l < limit) \/ size_below l x = limit).

Lemma find_max_step_ok t l n tot limit i lim :
  holds t l n tot -> ok 0 l -> 0 < limit <= PHYS_ADDR_MAX ->
  0 <= i <= cnt t -> lim = limit - sum_size (take (Z.to_nat i) l) -> 0 < lim ->
  returns (find_max_step t (i, lim)) (fun r =>
    match r with
    | inl s => s.1 = i + 1 /\ 0 <= s.1 <= cnt t /\
               s.2 = limit - sum_size (take (Z.to_nat s.1) l) /\ 0 < s.2
    | inr x => max_addr_post l limit x
    end).
Proof.
  intros H Hk Hlim Hi Hl Hl0. pose proof (h_cnt _ _ _ _ H) as C. unfold find_max_step.
  unfold PHYS_ADDR_MAX in *.
  destruct (Z.ltb_spec i (cnt t)) as [Hlt|Hge].
  - destruct (lookup_lt_is_Some_2 l (Z.to_nat i)) as [r Hr]; [lia|].
    replace i with (Z.of_nat (Z.to_nat i)) at 1 by lia.
    rewrite (rd_live _ _ _ _ _ _ H Hr), bind_ret.
    assert (Hin : r ∈ l) by (apply list_elem_of_lookup; eauto).
    pose proof (ok_elem _ _ _ Hk Hin) as Hb. unfold PHYS_ADDR_MAX in Hb.
    pose proof (sum_size_take _ _ _ Hr) as Es.
    destruct (Z.leb_spec lim (rsize r)); simpl.
    + rewrite u64_small by lia. split; [unfold addr; lia|]. right.
      rewrite (size_below_at 0 l (Z.to_nat i) r); auto; lia.
    + replace (Z.to_nat (i + 1)) with (S (Z.to_nat i)) by lia. rewrite Es.
      pose proof (ok_sum 0 (take (Z.to_nat i) l)) as Hs0.
      rewrite <- (take_drop (Z.to_nat i) l) in Hk. apply ok_app in Hk as (K1 & _ & _).
      specialize (Hs0 K1). rewrite u64_small by lia. lia.
  - simpl. split; [unfold addr, PHYS_ADDR_MAX; lia|]. left. split; [done|].
    rewrite take_ge in Hl by lia. lia.
Qed.

Lemma find_max_addr_total mb l n limit :
  repr (memory mb) l n -> 0 < limit <= PHYS_ADDR_MAX ->
  returns (__find_max_addr mb limit) (max_addr_post l limit).
Proof.
  intros [H Hk] Hlim. destruct l as [|r0 l].
  - (* the dummy region of an empty array *)
    unfold __find_max_addr. rewrite (h_cnt _ _ _ _ H). change (Z.to_nat _ + 1)%nat with 2%nat.
    assert (E1 : find_max_step (memory mb) (0, limit) = Ret (inl (1, limit))).
    { unfold find_max_step. rewrite (holds_not_end _ [] _ _ _ _ 0 H eq_refl).
      rewrite (holds_lookup _ [] _ _ _ _ 0 H eq_refl), bind_ret. simpl. zdec.
      by rewrite Z.sub_0_r, u64_small by (unfold PHYS_ADDR_MAX in *; lia). }
    assert (E2 : find_max_step (memory mb) (1, limit) = Ret (inr PHYS_ADDR_MAX)).
    { unfold find_max_step. by rewrite (holds_at_end _ _ _ _ 1 H eq_refl). }
    rewrite (loop_inl _ _ _ _ E1), (loop_inr _ _ _ _ E2).
    split; [unfold addr, PHYS_ADDR_MAX; lia|]. left. simpl. lia.
  - unfold __find_max_addr. pose proof (h_cnt _ _ _ _ H) as C. simpl norm in *.
    apply loop_returns with (m := fun s => Z.to_nat (cnt (memory mb) - s.1)) (I := fun s =>
      0 <= s.1 <= cnt (memory mb) /\
      s.2 = limit - sum_size (take (Z.to_nat s.1) (r0 :: l)) /\ 0 < s.2).
    + simpl. lia.
    + simpl. lia.
    + intros [i lim] (Hi & Hl & Hl0). simpl in *.
      eapply returns_mono; [by apply (find_max_step_ok _ _ _ _ limit _ _ H)|].
      intros [[i' lim']|x]; simpl; [|done]. intros (-> & ? & ? & ?). split_and!; auto; lia.
Qed.

Lemma flags_at_top l a : ok 0 l -> PHYS_ADDR_MAX <= a -> flags_at l a = None.
Proof.
  intros Hk Ha. apply flags_at_none, Forall_lookup. intros i r Hi. apply contains_false.
  assert (Hin : r ∈ l) by (apply list_elem_of_lookup; eauto).
  pose proof (ok_elem _ _ _ Hk Hin). lia.
Qed.

(** [l'] is [l] cut at [x], unless the array had no room to split a region. *)
Definition truncated (n : Z) (l l' : list memblock_region) (x : Z) : Prop :=
  (l' = l /\ n < Z.of_nat (length (norm l)) + 2) \/
  (forall a, flags_at l' a = if x <=? a then None else flags_at l a).

Lemma truncate_total t l n x :
  repr t l n -> addr x ->
  exists rc t' l', memblock_remove_range t x PHYS_ADDR_MAX = Ret (rc, t') /\
    repr t' l' n /\ truncated n l l' x.
Proof.
  intros H Hx.
  assert (E : x + memblock_cap_size x PHYS_ADDR_MAX = PHYS_ADDR_MAX).
  { unfold memblock_cap_size, PHYS_ADDR_MAX, addr in *. rewrite u64_small; lia. }
  destruct (remove_range_total t l n x PHYS_ADDR_MAX H Hx) as [[Hf Hn]|(t' & l' & Hf & H' & HF)].
  { unfold PHYS_ADDR_MAX. lia. }
  - exists (- ENOMEM), t, l. split_and!; auto. by left.
  - exists 0, t', l'. split_and!; auto. right. intros a. rewrite HF, E.
    destruct (Z.leb_spec x a); simpl; [|done]. destruct (Z.ltb_spec a PHYS_ADDR_MAX); [done|].
    destruct H as [_ Hk]. by apply flags_at_top.
Qed.

Lemma truncated_id n l x : ok 0 l -> PHYS_ADDR_MAX <= x -> truncated n l l x.
Proof.
  intros Hk Hx. right. intros a. destruct (Z.leb_spec x a); [|done].
  apply flags_at_top; [done|lia].
Qed.

Lemma enforce_memory_limit_total mb lm lr n limit :
  mb_holds mb lm lr n -> 0 < limit <= PHYS_ADDR_MAX ->
  exists mb' lm' lr', memblock_enforce_memory_limit mb limit = Ret mb' /\
    mb_holds mb' lm' lr' n /\
    ((mb' = mb /\ lm' = lm /\ lr' = lr /\ sum_size lm < limit) \/
     (exists x, size_below lm x = limit /\ truncated n lm lm' x /\ truncated n lr lr' x)).
Proof.
  intros H Hl. pose proof (mb_memory _ _ _ _ H) as Hm. pose proof (mb_reserved _ _ _ _ H) as Hr.
  unfold memblock_enforce_memory_limit. zdec.
  destruct (returns_inv _ _ (find_max_addr_total mb lm n limit Hm Hl)) as (x & -> & Hx & Hpost).
  rewrite bind_ret. destruct (Z.eqb_spec x PHYS_ADDR_MAX) as [->|Hne].
  - exists mb, lm, lr. split_and!; auto. destruct Hpost as [[_ ?]|Hs]; [by left|right].
    exists PHYS_ADDR_MAX. split_and!; [done| |]; apply truncated_id; try lia; [apply Hm|apply Hr].
  - destruct Hpost as [[? _]|Hs]; [done|].
    destruct (truncate_total _ _ _ x Hm Hx) as (rc1 & tm & lm' & -> & Hm' & T1).
    destruct (truncate_total _ _ _ x Hr Hx) as (rc2 & tr & lr' & -> & Hr' & T2).
    rewrite !bind_ret. exists (set_reserved (set_memory mb tm) tr), lm', lr'. split_and!; auto.
    + apply (mb_holds_set_reserved _ lm' lr); [|done]. by apply (mb_holds_set_memory _ lm).
    + right. exists x. auto.
Qed.

(** *** Capping memory to a range *)

(** NOMAP flags, on a region's flag word. *)
Definition nomap_flag (f : Z) : bool := negb (Z.land f MEMBLOCK_NOMAP =? 0).

Lemma flags_at_filter lo l a :
  ok lo l ->
  flags_at (List.filter memblock_is_nomap l) a =
    match flags_at l a with Some f => if nomap_flag f then Some f else None | None => None end.
Proof.
  revert lo. induction l as [|r l IH]; intros lo; simpl; [done|].
  intros (K1 & K2 & K3 & K4). specialize (IH _ K4).
  destruct (memblock_is_nomap r) eqn:E; simpl; rewrite IH; destruct (contains r a) eqn:C; try done.
  - unfold memblock_is_nomap in E. unfold nomap_flag. by rewrite E.
  - unfold memblock_is_nomap in E. unfold nomap_flag. rewrite E.
    destruct (flags_at l a) eqn:F; [|done]. exfalso.
    apply flags_at_some in F as (s & Hs & Cs & _). apply contains_spec in C, Cs.
    pose proof (ok_elem _ _ _ K4 Hs). lia.
Qed.

Lemma remove_regions_ok keep A M B t n :
  holds t (A ++ M ++ B) n (sum_size (A ++ M ++ B)) -> A ++ M ++ B <> [] -> ok 0 (A ++ M ++ B) ->
  let l' := A ++ List.filter keep M ++ B in
  exists t', remove_regions_down keep t (Z.of_nat (length A)) (Z.of_nat (length (A ++ M))) = Ret t' /\
    holds t' (norm l') n (sum_size l') /\ ok 0 l'.
Proof.
  intros H Hne Hk l'. pose proof (ok_drop_middle 0 keep A M B Hk) as Hk'. fold l' in Hk'.
  destruct (remove_down_loop keep M A B t
    (Z.to_nat (Z.of_nat (length (A ++ M)) - Z.of_nat (length A)) + 1) n _ H)
    as (t' & Hl & H'); [rewrite length_app; lia|done|by rewrite ok_sum_u64|].
  exists t'. split; [exact Hl|]. split; [|done].
  replace (sum_size l') with (u64 (sum_size (A ++ M ++ B) - (sum_size M - sum_size (List.filter keep M))));
    [exact H'|].
  rewrite <- (ok_sum_u64 l') by done. f_equal. unfold l'. rewrite !sum_size_app. lia.
Qed.

Lemma remove_regions_empty keep t lo hi : hi <= lo -> remove_regions_down keep t lo hi = Ret t.
Proof.
  intros H. unfold remove_regions_down. rewrite Nat.add_1_r. apply loop_inr.
  unfold remove_down_step. by zdec.
Qed.

(** What the two removal loops leave of an isolated list. *)
Definition capped (A M B : list memblock_region) : list memblock_region :=
  List.filter memblock_is_nomap A ++ M ++ List.filter memblock_is_nomap B.

Lemma capped_flags b e A M B a :
  b <= e -> ok 0 (A ++ M ++ B) ->
  Forall (below b) A -> Forall (inside b e) M -> Forall (above e) B ->
  flags_at (capped A M B) a =
    if (b <=? a) && (a <? e) then flags_at (A ++ M ++ B) a
    else match flags_at (A ++ M ++ B) a with
         | Some f => if nomap_flag f then Some f else None
         | None => None
         end.
Proof.
  intros Hbe Hk HA HM HB. unfold capped.
  assert (Hk1 : ok 0 (A ++ B)).
  { pose proof (ok_drop_middle 0 (fun _ => false) A M B Hk) as H. by rewrite filter_none in H. }
  assert (Hk2 : ok 0 (List.filter memblock_is_nomap A ++ M ++ List.filter memblock_is_nomap B)).
  { pose proof (ok_drop_middle 0 memblock_is_nomap [] A (M ++ B) Hk) as H1. simpl in H1.
    rewrite app_assoc in H1. rewrite <- (app_nil_r B) in H1.
    pose proof (ok_drop_middle 0 memblock_is_nomap _ B [] H1) as H2.
    by rewrite app_nil_r, <- app_assoc in H2. }
  assert (HF : forall P l, Forall P l -> Forall P (List.filter memblock_is_nomap l)).
  { intros P l HP. rewrite Forall_forall in *. intros x Hx. apply filter_In in Hx as [Hx _]. auto. }
  rewrite !(isolated_flags b e) by auto.
  destruct ((b <=? a) && (a <? e)) eqn:E; [done|].
  rewrite <- List.filter_app. by apply (flags_at_filter 0).
Qed.

Lemma cap_loops t T n b e s s' :
  holds t (norm T) n (sum_size T) -> ok 0 T -> b <= e -> isolated b e T s s' ->
  exists t' l', (t ← remove_regions_down memblock_is_nomap t s' (cnt t);
     remove_regions_down memblock_is_nomap t 0 s) = Ret t' /\ repr t' l' n /\
   forall a, flags_at l' a =
     if (b <=? a) && (a <? e) then flags_at T a
     else match flags_at T a with Some f => if nomap_flag f then Some f else None | None => None end.
Proof.
  intros H Hk Hbe (A & M & B & -> & HA & HM & HB & Hs).
  pose proof (fun a => capped_flags b e A M B a Hbe Hk HA HM HB) as HF.
  pose proof (h_cnt _ _ _ _ H) as C.
  destruct (decide (A ++ M ++ B = [])) as [E|Hne].
  { apply app_eq_nil in E as [-> E]. apply app_eq_nil in E as [-> ->].
    destruct Hs as [(_ & -> & ->)|[]]; [|done].
    destruct (remove_down_loop memblock_is_nomap [zero_region] [] [] t 2 n 0 H)
      as (t' & Hl & H'); [simpl; lia|done|done|].
    exists t', []. change (remove_regions_down memblock_is_nomap t 0 1 = Ret t') in Hl.
    change (Z.of_nat (length (norm ([] ++ [] ++ [])))) with 1 in C. rewrite C, Hl, bind_ret, remove_regions_empty by lia.
    split_and!; [done|by split|exact HF]. }
  rewrite norm_nonempty in H, C by done. rewrite C.
  destruct Hs as [(-> & -> & ->)|(HM0 & -> & ->)].
  - simpl app in *. destruct (remove_regions_ok memblock_is_nomap [] (A ++ B) [] t n)
      as (t' & Hl & H' & Hk'); [by rewrite app_nil_r..|].
    simpl app in *. rewrite app_nil_r in *. change (Z.of_nat (length [])) with 0 in Hl.
    rewrite Hl, bind_ret, remove_regions_empty by lia.
    exists t', (capped A [] B). unfold capped in *. simpl app in *. rewrite List.filter_app in *.
    split_and!; [done|by split|exact HF].
  - destruct (remove_regions_ok memblock_is_nomap (A ++ M) B [] t n)
      as (t1 & Hl & H1 & Hk1); [by rewrite app_nil_r, <- app_assoc..|].
    rewrite app_nil_r, <- !app_assoc in *. rewrite Hl, bind_ret.
    assert (Hne1 : A ++ M ++ List.filter memblock_is_nomap B <> []).
    { intros E. apply app_eq_nil in E as [_ E]. by apply app_eq_nil in E as [E _]. }
    rewrite norm_nonempty in H1 by done.
    destruct (remove_regions_ok memblock_is_nomap [] A _ t1 n H1 Hne1 Hk1) as (t2 & Hl2 & H2 & Hk2).
    exists t2, (capped A M B). split_and!; [exact Hl2|by split|exact HF].
Qed.

(** Memory capped to [b, e): outside, only NOMAP addresses stay. *)
Definition capped_at (lm lm' : list memblock_region) (b e : Z) : Prop :=
  forall a, flags_at lm' a =
    if (b <=? a) && (a <? e) then flags_at lm a
    else match flags_at lm a with
         | Some f => if nomap_flag f then Some f else None
         | None => None
         end.

(** [l'] is [l] without the addresses below [x], unless the array was full. *)
Definition beheaded (n : Z) (l l' : list memblock_region) (x : Z) : Prop :=
  (l' = l /\ n < Z.of_nat (length (norm l)) + 2) \/
  (forall a, flags_at l' a = if (0 <=? a) && (a <? x) then None else flags_at l a).

Lemma behead_total t l n x :
  repr t l n -> 0 <= x <= PHYS_ADDR_MAX ->
  exists rc t' l', memblock_remove_range t 0 x = Ret (rc, t') /\
    repr t' l' n /\ beheaded n l l' x.
Proof.
  intros H Hx. unfold PHYS_ADDR_MAX in Hx.
  assert (E : 0 + memblock_cap_size 0 x = x).
  { unfold memblock_cap_size, PHYS_ADDR_MAX. rewrite u64_small; lia. }
  destruct (remove_range_total t l n 0 x H) as [[Hf Hn]|(t' & l' & Hf & H' & HF)]; try lia.
  - exists (- ENOMEM), t, l. split_and!; auto. by left.
  - exists 0, t', l'. split_and!; auto. right. intros a. by rewrite HF, E.
Qed.

Lemma cap_memory_range_total mb lm lr n b size :
  mb_holds mb lm lr n -> 0 <= b -> 0 < size -> b + size <= PHYS_ADDR_MAX ->
  (memblock_cap_memory_range mb b size = Ret mb /\ n < Z.of_nat (length (norm lm)) + 2) \/
  exists mb' lm' lr1 lr', memblock_cap_memory_range mb b size = Ret mb' /\
    mb_holds mb' lm' lr' n /\ capped_at lm lm' b (b + size) /\
    beheaded n lr lr1 b /\ truncated n lr1 lr' (b + size).
Proof.
  intros H Hb Hs He. unfold PHYS_ADDR_MAX in He.
  pose proof (mb_memory _ _ _ _ H) as Hm. pose proof (mb_reserved _ _ _ _ H) as Hr.
  assert (Ec : memblock_cap_size b size = size).
  { unfold memblock_cap_size, PHYS_ADDR_MAX. rewrite u64_small; lia. }
  unfold memblock_cap_memory_range. zdec.
  destruct (Z.lt_ge_cases n (Z.of_nat (length (norm lm)) + 2)) as [Hn|Hn].
  { left. split; [|done]. rewrite (isolate_range_full _ _ _ _ _ Hm) by lia.
    rewrite bind_ret. simpl. by rewrite set_memory_id. }
  right. destruct (isolate_range_ok _ lm n b size Hm) as (t1 & s & s' & -> & H1 & HI); try lia.
  rewrite bind_ret. simpl negb. cbv iota. rewrite Ec in *.
  pose proof Hm as [_ Hk].
  pose proof (split_ok 0 b (b + size) lm ltac:(lia) Hk) as Hk'.
  rewrite <- (split_sum 0 b (b + size) lm ltac:(lia) Hk) in H1.
  destruct (cap_loops _ _ _ b (b + size) _ _ H1 Hk' ltac:(lia) HI) as (tm & lm' & Hl & Hm' & HF).
  apply bind_Ret_inv in Hl as (t2 & -> & Hl). rewrite bind_ret, Hl, bind_ret.
  destruct (behead_total _ _ _ b Hr) as (rc1 & tr1 & lr1 & -> & Hr1 & B1);
    [unfold PHYS_ADDR_MAX; lia|].
  rewrite bind_ret, u64_small by lia.
  destruct (truncate_total _ _ _ (b + size) Hr1) as (rc2 & tr & lr' & -> & Hr' & B2);
    [unfold addr; lia|].
  exists (set_reserved (set_memory mb tm) tr), lm', lr1, lr'. split_and!; auto.
  - apply (mb_holds_set_reserved _ lm' lr); [|done]. by apply (mb_holds_set_memory _ lm).
  - intros a. rewrite HF. by rewrite split_flags_at by lia.
Qed.

(** ** Sequences of operations *)

Inductive mb_op : Type :=
  | op_add (b size : Z)
  | op_remove (b size : Z)
  | op_reserve (b size : Z)
  | op_free (b size : Z)
  | op_setclr (b size : Z) (set : bool) (flag : Z)
  | op_alloc (size k start end_ f : Z)           (* memblock_alloc_range, align 2^k *)
  | op_alloc_try (size k min_addr max_addr : Z)  (* memblock_alloc_try_raw *)
  | op_set_limit (limit : Z)
  | op_set_bottom_up (enable : bool)
  | op_enforce (limit : Z)
  | op_cap (b size : Z).

Definition phys (a : Z) : Prop := 0 <= a <= PHYS_ADDR_MAX.

Definition valid_op (o : mb_op) : Prop :=
  match o with
  | op_add b size | op_remove b size | op_reserve b size | op_free b size
  | op_setclr b size _ _ => addr b /\ addr size
  | op_alloc size k start end_ _ => 0 <= k < 64 /\ 0 < size < 2 ^ 64 /\ phys start /\ phys end_
  | op_alloc_try size k mn mx => 0 <= k < 64 /\ 0 < size < 2 ^ 64 /\ phys mn /\ phys mx
  | op_set_limit limit => phys limit
  | op_set_bottom_up _ => True
  | op_enforce limit => 0 < limit <= PHYS_ADDR_MAX
  | op_cap b size => 0 <= b /\ 0 < size /\ b + size <= PHYS_ADDR_MAX
  end.

(** Operations that never make a reserved address unreserved. *)
Definition keeps_reserved (o : mb_op) : bool :=
  match o with op_free _ _ | op_enforce _ | op_cap _ _ => false | _ => true end.

(** One operation; the block it allocated, if any. *)
Definition exec_op (mb : memblock) (o : mb_op) : outcome (option (Z * Z) * memblock) :=
  let unit_op (m : outcome (Z * memblock)) := '(_, mb) ← m; Ret (None, mb) in
  let alloc_op size (m : outcome (Z * memblock)) :=
    '(c, mb) ← m; Ret (if c =? 0 then None else Some (c, size), mb) in
  match o with
  | op_add b size => unit_op (memblock_add mb b size)
  | op_remove b size => unit_op (memblock_remove mb b size)
  | op_reserve b size => unit_op (memblock_reserve mb b size)
  | op_free b size => unit_op (memblock_free mb b size)
  | op_setclr b size set flag => unit_op (memblock_setclr_flag mb b size set flag)
  | op_alloc size k start end_ f =>
      alloc_op size (memblock_alloc_range mb size (2 ^ k) start end_ f)
  | op_alloc_try size k mn mx =>
      alloc_op size (memblock_alloc_try_raw mb size (2 ^ k) mn mx)
  | op_set_limit limit => Ret (None, memblock_set_current_limit mb limit)
  | op_set_bottom_up e => Ret (None, memblock_set_bottom_up mb e)
  | op_enforce limit => mb ← memblock_enforce_memory_limit mb limit; Ret (None, mb)
  | op_cap b size => mb ← memblock_cap_memory_range mb b size; Ret (None, mb)
  end.

Fixpoint exec (mb : memblock) (ops : list mb_op) : outcome (list (Z * Z) * memblock) :=
  match ops with
  | [] => Ret ([], mb)
  | o :: ops' =>
      '(r, mb) ← exec_op mb o;
      '(log, mb) ← exec mb ops';
      Ret (option_list r ++ log, mb)
  end.

Definition reserved_in (lr : list memblock_region) (a : Z) : Prop := flags_at lr a <> None.
Definition in_block (blk : Z * Z) (a : Z) : Prop := blk.1 <= a < blk.1 + blk.2.

(** What one operation does to the reserved set. *)
Definition step_effect (lr lr' : list memblock_region) (r : option (Z * Z)) : Prop :=
  (forall a, reserved_in lr a -> reserved_in lr' a) /\
  (forall blk a, r = Some blk -> in_block blk a -> ~ reserved_in lr a /\ reserved_in lr' a).

Lemma step_effect_refl lr : step_effect lr lr None.
Proof. split; [done|]. by intros. Qed.

Lemma step_effect_union lr lr' b e :
  (forall a, flags_at lr' a = union_flags (flags_at lr a) 0 b e a) -> step_effect lr lr' None.
Proof.
  intros H. split; [|by intros]. intros a. unfold reserved_in. rewrite H.
  by destruct (flags_at lr a).
Qed.

Lemma step_effect_alloc lm lr lr' k s e size f c :
  good_block lm lr k s e size f c -> reserves lr lr' c size ->
  step_effect lr lr' (Some (c, size)).
Proof.
  intros (_ & _ & _ & Hfree) HR. split.
  - intros a. unfold reserved_in. rewrite HR. by destruct (flags_at lr a).
  - intros blk a [= <-] Ha. unfold in_block in Ha. simpl in Ha.
    destruct (Hfree a Ha) as [_ Hn]. unfold reserved_in. rewrite HR, Hn. split; [tauto|].
    simpl. destruct (Z.leb_spec c a), (Z.ltb_spec a (c + size)); simpl; try done; lia.
Qed.

Lemma alloc_outcome_step mb lm lr n k s e size f c mb' :
  mb_holds mb lm lr n -> alloc_outcome mb lm lr n k s e size f c mb' ->
  exists lr', mb_holds mb' lm lr' n /\
    step_effect lr lr' (if c =? 0 then None else Some (c, size)).
Proof.
  intros H [c' mb1 lr' Hc Hg H' HR|_].
  - exists lr'. split; [done|]. zdec. by apply (step_effect_alloc lm _ _ k s e size f).
  - exists lr. split; [done|]. apply step_effect_refl.
Qed.

#[local] Ltac by_op :=
  split_and!; [reflexivity|try done|intros; try done; try apply step_effect_refl].

Lemma exec_op_ok mb lm lr n o :
  mb_holds mb lm lr n -> valid_op o ->
  exists r mb' lm' lr', exec_op mb o = Ret (r, mb') /\ mb_holds mb' lm' lr' n /\
    (keeps_reserved o = true -> step_effect lr lr' r).
Proof.
  intros H. destruct o as [b s|b s|b s|b s|b s set fl|s k st en f|s k mn mx|l|e|l|b s];
    simpl; intros Hv.
  - destruct Hv as [Hb Hs].
    destruct (memblock_add_total mb lm lr n b s H Hb Hs) as [[-> _]|(mb' & lm' & -> & H' & _ & _)];
      [exists None, mb, lm, lr|exists None, mb', lm', lr]; by_op.
  - destruct Hv as [Hb Hs].
    destruct (memblock_remove_total mb lm lr n b s H Hb Hs) as [->|(mb' & lm' & -> & H' & _)];
      [exists None, mb, lm, lr|exists None, mb', lm', lr]; by_op.
  - destruct Hv as [Hb Hs].
    destruct (memblock_reserve_total mb lm lr n b s H Hb Hs) as [[-> _]|(mb' & lr' & -> & H' & HF)];
      [exists None, mb, lm, lr|exists None, mb', lm, lr']; by_op.
    by apply (step_effect_union _ _ b (range_end b s)).
  - destruct Hv as [Hb Hs].
    destruct (memblock_free_total mb lm lr n b s H Hb Hs) as [[-> _]|(mb' & lr' & -> & H' & HF)];
      [exists None, mb, lm, lr|exists None, mb', lm, lr']; by_op.
  - destruct Hv as [Hb Hs].
    destruct (setclr_total mb lm lr n b s set fl H Hb Hs) as [->|(mb' & lm' & -> & H' & _)];
      [exists None, mb, lm, lr|exists None, mb', lm', lr]; by_op.
  - destruct Hv as (Hk & Hsz & Hst & Hen).
    destruct (returns_inv _ _ (alloc_range_total mb lm lr n k s st en f H Hk Hsz Hst Hen))
      as ([c mb'] & -> & Ho). destruct (alloc_outcome_step _ _ _ _ _ _ _ _ _ _ _ H Ho) as (lr' & H' & He).
    eexists _, mb', lm, lr'. by_op.
  - destruct Hv as (Hk & Hsz & Hst & Hen).
    destruct (returns_inv _ _ (alloc_internal_total mb lm lr n k s mn mx H Hk Hsz Hst Hen))
      as ([c mb'] & Hx & (m & _ & Ho)). unfold memblock_alloc_try_raw. rewrite Hx.
    destruct (alloc_outcome_step _ _ _ _ _ _ _ _ _ _ _ H Ho) as (lr' & H' & He).
    eexists _, mb', lm, lr'. by_op.
  - exists None, (memblock_set_current_limit mb l), lm, lr. destruct H as [? ? ?]. by_op; by split.
  - exists None, (memblock_set_bottom_up mb e), lm, lr. destruct H as [? ? ?]. by_op; by split.
  - destruct (enforce_memory_limit_total mb lm lr n l H Hv) as (mb' & lm' & lr' & -> & H' & _).
    exists None, mb', lm', lr'. by_op.
  - destruct Hv as (Hb & Hs & He).
    destruct (cap_memory_range_total mb lm lr n b s H Hb Hs He)
      as [[-> _]|(mb' & lm' & lr1 & lr' & -> & H' & _)];
      [exists None, mb, lm, lr|exists None, mb', lm', lr']; by_op.
Qed.

Definition blocks_disjoint (x y : Z * Z) : Prop := forall a, ~ (in_block x a /\ in_block y a).

Lemma exec_ok ops : forall mb lm lr n,
  mb_holds mb lm lr n -> Forall valid_op ops ->
  exists log mb' lm' lr', exec mb ops = Ret (log, mb') /\ mb_holds mb' lm' lr' n /\
    (forallb keeps_reserved ops = true ->
     ForallOrdPairs blocks_disjoint log /\
     (forall a, reserved_in lr a -> reserved_in lr' a) /\
     Forall (fun blk => forall a, in_block blk a -> ~ reserved_in lr a /\ reserved_in lr' a) log).
Proof.
  induction ops as [|o ops IH]; intros mb lm lr n H HV.
  { exists [], mb, lm, lr. split_and!; auto. intros _. split_and!; auto; constructor. }
  inversion HV as [|? ? Hv HV']; subst.
  destruct (exec_op_ok mb lm lr n o H Hv) as (r & mb1 & lm1 & lr1 & E1 & H1 & S1).
  destruct (IH mb1 lm1 lr1 n H1 HV') as (log & mb2 & lm2 & lr2 & E2 & H2 & S2).
  exists (option_list r ++ log), mb2, lm2, lr2. simpl. rewrite E1, bind_ret, E2.
  split_and!; [done|done|]. intros HK. apply andb_true_iff in HK as [K1 K2].
  destruct (S1 K1) as [M1 B1]. destruct (S2 K2) as (D2 & M2 & B2).
  assert (Hlog : Forall (fun blk => forall a, in_block blk a -> ~ reserved_in lr a /\ reserved_in lr2 a) log).
  { eapply Forall_impl; [|exact B2]. intros blk Hb a Ha. destruct (Hb a Ha). auto. }
  split_and!; auto; destruct r as [blk|]; simpl; auto.
  - constructor; [|done]. eapply Forall_impl; [|exact B2].
    intros blk' Hb a [Ha1 Ha2]. destruct (Hb a Ha2) as [Hn _]. by apply Hn, (B1 blk a).
  - constructor; [|done]. intros a Ha. destruct (B1 blk a eq_refl Ha). auto.
Qed.
