(* ===== verification/MemblockSpec.v ===== *)
(** * What memblock promises

    The theorems a client of memblock relies on: the effect of each operation
    on the address space, soundness and completeness of allocation, the exact
    enumeration of free memory, and safety of every sequence of operations. *)

From stdpp Require Import base numbers list option.
From Stdlib Require Import ZArith Lia.
From S2P Require Import Prelude Memblock MemblockFacts MemblockRanges MemblockIter MemblockOps MemblockLimits.

(** ** Sequences of operations *)

(** C1: Any sequence of memblock operations (adding, removing, reserving,
    freeing, flag changes, both allocators, limits and capping) runs to the end
    without a BUG, an out-of-bounds access or an unbounded loop, and keeps both
    region arrays sorted, disjoint, within capacity and with exact totals.  While nothing is
    freed or cut, the blocks the allocators returned are pairwise disjoint,
    were not reserved before, and are reserved at the end. *)
Theorem memblock_ops_safe mb lm lr n ops :
  mb_holds mb lm lr n -> Forall valid_op ops ->
  exists log mb' lm' lr', exec mb ops = Ret (log, mb') /\ mb_holds mb' lm' lr' n /\
    (forallb keeps_reserved ops = true ->
     ForallOrdPairs blocks_disjoint log /\
     Forall (fun blk => forall a, in_block blk a -> ~ reserved_in lr a /\ reserved_in lr' a) log).
Proof.
  intros H HV. destruct (exec_ok ops mb lm lr n H HV) as (log & mb' & lm' & lr' & E & H' & HS).
  exists log, mb', lm', lr'. split_and!; auto. intros K. by destruct (HS K) as (? & _ & ?).
Qed.

Definition demo_ops : list mb_op :=
  [op_alloc 8192 12 0 0 0; op_setclr 4202496 4096 true MEMBLOCK_NOMAP; op_alloc_try 100 6 4198400 0].

Lemma demo_ops_valid : Forall valid_op demo_ops.
Proof. repeat constructor; discriminate. Defined.

Lemma memblock_ops_safe_witness :
  exists log mb' lm' lr', exec demo demo_ops = Ret (log, mb') /\ mb_holds mb' lm' lr' 128 /\
    (forallb keeps_reserved demo_ops = true ->
     ForallOrdPairs blocks_disjoint log /\
     Forall (fun blk => forall a, in_block blk a ->
       ~ reserved_in demo_res a /\ reserved_in lr' a) log).
Proof. exact (memblock_ops_safe demo demo_mem demo_res 128 demo_ops demo_holds demo_ops_valid). Defined.

(** ** Allocation *)

(** C2: [memblock_alloc_range] with a power-of-two alignment always returns.
    A non-zero result is an aligned block of free memory with the requested
    flags inside the effective bounds, and exactly that block becomes reserved;
    zero means that no memory region holds such a block, or that the reserved
    array had no room for it, and then nothing changed.  [memblock_alloc_internal]
    behaves as one such attempt from the preferred lower bound or, after the
    retry, from zero, with the upper bound lowered to [current_limit]. *)
Theorem memblock_alloc_range_spec mb lm lr n k size lo hi :
  mb_holds mb lm lr n -> 0 <= k < 64 -> 0 < size < 2 ^ 64 -> phys lo -> phys hi ->
  (forall f, returns (memblock_alloc_range mb size (2 ^ k) lo hi f) (fun '(c, mb') =>
    alloc_outcome mb lm lr n k (eff_start lo) (eff_end mb lo hi) size f c mb')) /\
  returns (memblock_alloc_internal mb size (2 ^ k) lo hi) (fun '(c, mb') =>
    exists m, (m = lo \/ m = 0) /\
      alloc_outcome mb lm lr n k (eff_start m) (eff_end mb m (Z.min hi (current_limit mb))) size 0 c mb').
Proof. intros. split; [intros f; by apply alloc_range_total|by apply alloc_internal_total]. Qed.

Lemma memblock_alloc_range_spec_witness :
  returns (memblock_alloc_range demo 8192 (2 ^ 12) 0 0 0) (fun '(c, mb') =>
    alloc_outcome demo demo_mem demo_res 128 12 (eff_start 0) (eff_end demo 0 0) 8192 0 c mb') /\
  returns (memblock_alloc_internal demo 8192 (2 ^ 12) 9000000 0) (fun '(c, mb') =>
    exists m, (m = 9000000 \/ m = 0) /\
      alloc_outcome demo demo_mem demo_res 128 12 (eff_start m)
        (eff_end demo m (Z.min 0 (current_limit demo))) 8192 0 c mb').
Proof.
  split.
  - refine (proj1 (memblock_alloc_range_spec demo demo_mem demo_res 128 12 8192 0 0 demo_holds _ _ _ _) 0);
      [lia|lia|unfold phys, PHYS_ADDR_MAX; lia|unfold phys, PHYS_ADDR_MAX; lia].
  - refine (proj2 (memblock_alloc_range_spec demo demo_mem demo_res 128 12 8192 9000000 0 demo_holds _ _ _ _));
      [lia|lia|unfold phys, PHYS_ADDR_MAX; lia|unfold phys, PHYS_ADDR_MAX; lia].
Defined.

(** ** Iterating over free memory *)

Definition collect (acc : list (Z * Z)) (s e : Z) : outcome (list (Z * Z) + Empty_set) :=
  Ret (inl (acc ++ [(s, e)])).

Lemma fold_collect l acc : fold_ranges collect acc l = Ret (inl (acc ++ l)).
Proof.
  revert acc. induction l as [|[s e] l IH]; intros acc; simpl; [by rewrite app_nil_r|].
  change (fold_ranges collect (acc ++ [(s, e)]) l = Ret (inl (acc ++ (s, e) :: l))).
  rewrite IH. by rewrite <- app_assoc.
Qed.

Lemma free_covered lm lr f a :
  ok 0 lm -> ok 0 lr ->
  (exists s e, In (s, e) (free_ranges f (norm lm) (gaps 0 (norm lr))) /\ s <= a < e) <->
  is_free lm lr f a.
Proof.
  intros Hm Hr. split.
  - intros (s & e & Hin & Ha). by apply (free_ranges_sound lm lr f s e).
  - intros [Hf Hn]. apply flags_at_some in Hf as (r & Hr' & Hc & Hfl). apply contains_spec in Hc.
    destruct (free_ranges_complete lm lr f r a 1) as (s & e & Hin & H1 & H2); auto; try lia.
    { intros a' Ha'. by replace a' with a by lia. }
    exists s, e. split; [done|lia].
Qed.

(** C3: [for_each_free_mem_range] visits a list of ranges that covers exactly
    the addresses that are memory with the requested flags and not reserved,
    and [for_each_free_mem_range_reverse] visits the same ranges in the
    opposite order. *)
Theorem free_mem_range_walks mb lm lr n f :
  mb_holds mb lm lr n ->
  exists l, for_each_free_mem_range mb f collect [] = Ret (inl l) /\
    for_each_free_mem_range_reverse mb f collect [] = Ret (inl (rev l)) /\
    forall a, (exists s e, In (s, e) l /\ s <= a < e) <-> is_free lm lr f a.
Proof.
  intros [Hm Hr _]. exists (free_ranges f (norm lm) (gaps 0 (norm lr))).
  rewrite (for_each_free_mem_range_eq _ _ _ _ _ _ _ _ Hm Hr).
  rewrite (for_each_free_mem_range_reverse_eq _ _ _ _ _ _ _ _ Hm Hr), !fold_collect.
  split_and!; [done..|]. intros a. apply free_covered; [apply Hm|apply Hr].
Qed.

Lemma free_mem_range_walks_witness :
  exists l, for_each_free_mem_range demo 0 collect [] = Ret (inl l) /\
    for_each_free_mem_range_reverse demo 0 collect [] = Ret (inl (rev l)) /\
    forall a, (exists s e, In (s, e) l /\ s <= a < e) <-> is_free demo_mem demo_res 0 a.
Proof. exact (free_mem_range_walks demo demo_mem demo_res 128 0 demo_holds). Defined.

(** ** Adding, freeing and marking ranges *)

(** What [memblock_add], [memblock_free] and [memblock_setclr_flag] do to the
    state that holds the regions [lm] and [lr]: the arrays stay well formed,
    and the flags of every address are as stated. *)
Definition adds_exactly (mb : memblock) lm lr n b size : Prop :=
  (memblock_add mb b size = Ret (- ENOMEM, mb) /\
   n < Z.of_nat (length (fill 0 (range_end b size) b lm))) \/
  (exists mb' lm', memblock_add mb b size = Ret (0, mb') /\
   mb_holds mb' lm' lr n /\ (minimal lm -> minimal lm') /\
   forall a, flags_at lm' a = union_flags (flags_at lm a) 0 b (range_end b size) a).

Definition frees_exactly (mb : memblock) lm lr n b size : Prop :=
  (memblock_free mb b size = Ret (- ENOMEM, mb) /\
   n < Z.of_nat (length (norm lr)) + 2) \/
  (exists mb' lr', memblock_free mb b size = Ret (0, mb') /\
   mb_holds mb' lm lr' n /\
   forall a, flags_at lr' a =
     if (b <=? a) && (a <? range_end b size) then None else flags_at lr a).

Definition marks_exactly (mb : memblock) lm lr n b size set flag : Prop :=
  memblock_setclr_flag mb b size set flag = Ret (- ENOMEM, mb) \/
  (exists mb' lm', memblock_setclr_flag mb b size set flag = Ret (0, mb') /\
   mb_holds mb' lm' lr n /\ minimal lm' /\
   forall a, flags_at lm' a =
     if (b <=? a) && (a <? range_end b size)
     then flag_fun set flag <$> flags_at lm a else flags_at lm a).

(** C4: adding, freeing and marking return 0 or -ENOMEM, and on -ENOMEM
    nothing has changed.  [memblock_add] fails only when the array cannot hold
    the result; on success every address of the range belongs to memory, those
    that already did keep their flags, no other address changes, and a minimal
    array stays minimal.  [memblock_free] ends the reservation of exactly the
    addresses of the range.  [memblock_setclr_flag], the worker of the six
    mark and clear entry points, sets (clears) the flag on exactly the memory
    addresses of the range, and no address enters or leaves memory. *)
Theorem memblock_updates_spec mb lm lr n b size set flag :
  mb_holds mb lm lr n -> addr b -> addr size ->
  adds_exactly mb lm lr n b size /\ frees_exactly mb lm lr n b size /\
  marks_exactly mb lm lr n b size set flag.
Proof.
  intros H Hb Hs. split; [by apply memblock_add_total|].
  split; [by apply memblock_free_total|by apply setclr_total].
Qed.

Lemma memblock_updates_spec_witness :
  adds_exactly demo demo_mem demo_res 128 4194304 2048 /\
  frees_exactly demo demo_mem demo_res 128 4194304 2048 /\
  marks_exactly demo demo_mem demo_res 128 4194304 2048 true MEMBLOCK_NOMAP.
Proof.
  apply (memblock_updates_spec demo demo_mem demo_res 128 4194304 2048 true MEMBLOCK_NOMAP);
    [exact demo_holds | unfold addr; lia | unfold addr; lia].
Defined.

(** ** Queries *)

(** C5: The binary-search queries are exact: [memblock_is_memory] and
    [memblock_is_reserved] decide membership, [memblock_is_map_memory] decides
    membership without NOMAP, and [memblock_is_region_memory] and
    [memblock_is_region_reserved] decide containment in one region and overlap. *)
Theorem memblock_queries_exact mb lm lr n b size :
  mb_holds mb lm lr n -> addr b -> addr size -> b < range_end b size ->
  returns (memblock_is_memory mb b) (fun res => res = bool_decide (is_Some (flags_at lm b))) /\
  returns (memblock_is_reserved mb b) (fun res => res = bool_decide (is_Some (flags_at lr b))) /\
  returns (memblock_is_map_memory mb b) (fun res =>
    res = match flags_at lm b with
          | Some f => Z.land f MEMBLOCK_NOMAP =? 0
          | None => false
          end) /\
  returns (memblock_is_region_memory mb b size) (fun res =>
    res = true <-> exists r, r ∈ lm /\ contains r b = true /\
                             range_end b size <= base r + rsize r) /\
  returns (memblock_is_region_reserved mb b size) (fun res =>
    res = true <-> exists a, b <= a < range_end b size /\ flags_at lr a <> None).
Proof.
  intros H Hb Hs Hlt. split_and!.
  - apply (is_member_total (memory mb) lm n); [apply (mb_memory _ _ _ _ H)|done].
  - apply (is_member_total (reserved mb) lr n); [apply (mb_reserved _ _ _ _ H)|done].
  - by apply (is_map_memory_total mb lm lr n).
  - by apply (is_region_memory_total mb lm lr n).
  - by apply (is_region_reserved_total mb lm lr n).
Qed.

Lemma memblock_queries_exact_witness :
  returns (memblock_is_memory demo 4200000)
    (fun res => res = bool_decide (is_Some (flags_at demo_mem 4200000))) /\
  returns (memblock_is_reserved demo 4200000)
    (fun res => res = bool_decide (is_Some (flags_at demo_res 4200000))) /\
  returns (memblock_is_map_memory demo 4200000) (fun res =>
    res = match flags_at demo_mem 4200000 with
          | Some f => Z.land f MEMBLOCK_NOMAP =? 0
          | None => false
          end) /\
  returns (memblock_is_region_memory demo 4200000 64) (fun res =>
    res = true <-> exists r, r ∈ demo_mem /\ contains r 4200000 = true /\
                             range_end 4200000 64 <= base r + rsize r) /\
  returns (memblock_is_region_reserved demo 4200000 64) (fun res =>
    res = true <-> exists a, 4200000 <= a < range_end 4200000 64 /\ flags_at demo_res a <> None).
Proof.
  apply (memblock_queries_exact demo demo_mem demo_res 128 4200000 64);
    [exact demo_holds|unfold addr; lia|unfold addr; lia|reflexivity].
Defined.

(** ** Limits *)

(** C6: the two ways to restrict memory.  [memblock_enforce_memory_limit]
    leaves memory alone when it holds less than the limit; otherwise it cuts
    memory and reserved at an address below which exactly [limit] bytes of
    memory lie (a cut that would need to split a region of a full array is
    skipped).  [memblock_cap_memory_range] keeps the memory inside the range
    untouched, keeps only NOMAP memory outside it, and drops the reservations
    outside it. *)
Theorem memory_limits_spec mb lm lr n limit b size :
  mb_holds mb lm lr n -> 0 < limit <= PHYS_ADDR_MAX ->
  0 <= b -> 0 < size -> b + size <= PHYS_ADDR_MAX ->
  (exists mb' lm' lr', memblock_enforce_memory_limit mb limit = Ret mb' /\
    mb_holds mb' lm' lr' n /\
    ((mb' = mb /\ lm' = lm /\ lr' = lr /\ sum_size lm < limit) \/
     (exists x, size_below lm x = limit /\ truncated n lm lm' x /\ truncated n lr lr' x))) /\
  ((memblock_cap_memory_range mb b size = Ret mb /\ n < Z.of_nat (length (norm lm)) + 2) \/
   exists mb' lm' lr1 lr', memblock_cap_memory_range mb b size = Ret mb' /\
     mb_holds mb' lm' lr' n /\ capped_at lm lm' b (b + size) /\
     beheaded n lr lr1 b /\ truncated n lr1 lr' (b + size)).
Proof.
  intros H Hl Hb Hs He. split; [by apply enforce_memory_limit_total|by apply cap_memory_range_total].
Qed.

Lemma memory_limits_spec_witness :
  (exists mb' lm' lr', memblock_enforce_memory_limit demo 65536 = Ret mb' /\
    mb_holds mb' lm' lr' 128 /\
    ((mb' = demo /\ lm' = demo_mem /\ lr' = demo_res /\ sum_size demo_mem < 65536) \/
     (exists x, size_below demo_mem x = 65536 /\ truncated 128 demo_mem lm' x /\
        truncated 128 demo_res lr' x))) /\
  ((memblock_cap_memory_range demo 4194304 65536 = Ret demo /\
    128 < Z.of_nat (length (norm demo_mem)) + 2) \/
   exists mb' lm' lr1 lr', memblock_cap_memory_range demo 4194304 65536 = Ret mb' /\
     mb_holds mb' lm' lr' 128 /\ capped_at demo_mem lm' 4194304 (4194304 + 65536) /\
     beheaded 128 demo_res lr1 4194304 /\ truncated 128 lr1 lr' (4194304 + 65536)).
Proof.
  apply (memory_limits_spec demo demo_mem demo_res 128 65536 4194304 65536);
    [exact demo_holds|unfold PHYS_ADDR_MAX; lia|lia|lia|unfold PHYS_ADDR_MAX; lia].
Defined.

(** ** Two deviations *)

(** [memblock_trim_memory] moves region bounds without adjusting
    [total_size], so [memblock_phys_mem_size] is wrong afterwards. *)
Definition ragged : memblock :=
  mk_memblock false MEMBLOCK_ALLOC_ANYWHERE
    (demo_type [mk_region 4194404 20000 0]) (demo_type demo_res).

Lemma trim_memory_stale_total :
  exists mb', memblock_trim_memory ragged 4096 = Ret mb' /\
    sum_size (take (Z.to_nat (cnt (memory mb'))) (regions (memory mb'))) = 12288 /\
    memblock_phys_mem_size mb' = 20000.
Proof. eexists. split; [vm_compute; reflexivity|]. split; vm_compute; reflexivity. Qed.

(** [memblock_init] on a memblock that was used before keeps both
    [total_size] fields although it empties the arrays. *)
Lemma init_keeps_total :
  memblock_phys_mem_size (memblock_init demo) = 1048576 /\
  sum_size (take 1 (regions (memory (memblock_init demo)))) = 0.
Proof. split; vm_compute; reflexivity. Qed.
