(* ===== verification/Page.v ===== *)
(** * Page descriptors

    [struct page], its flags, type word, reference count and compound-page
    links (kernel/include/rtochius/mm_types.h, page-flags.h, page_ref.h, mm.h).
    A [struct page *] is identified with its page frame number: the vmemmap is
    an array indexed by pfn, so pointer arithmetic on pages is pfn arithmetic. *)

From stdpp Require Import base numbers list option gmap.
From Stdlib Require Import ZArith Lia.
From S2P Require Import Prelude Memblock.

(** ** The descriptor *)

(** [page_type] is the word shared with [_mapcount].  [chead] is the tagged
    word [compound_head]: [Some h] when bit 0 is set (a tail page of [h]); the
    word is shared with [lru.next], whose values never have bit 0 set. *)
Record page : Type := mk_page {
  pflags : Z;            (* unsigned long *)
  page_type : Z;         (* unsigned int / atomic_t _mapcount *)
  refcount : Z;          (* atomic_t *)
  private : Z;           (* unsigned long *)
  chead : option Z;
  corder : Z;            (* unsigned char, of the first tail page *)
}.

Abbreviation mem_map := (gmap Z page).

Definition page_at (M : mem_map) (p : Z) : outcome page :=
  match M !! p with Some pg => Ret pg | None => Fault end.
Definition update (M : mem_map) (p : Z) (f : page -> page) : outcome mem_map :=
  pg ← page_at M p; Ret (<[p := f pg]> M).

Definition set_pflags (pg : page) (x : Z) : page :=
  mk_page x (page_type pg) (refcount pg) (private pg) (chead pg) (corder pg).
Definition set_page_type (pg : page) (x : Z) : page :=
  mk_page (pflags pg) x (refcount pg) (private pg) (chead pg) (corder pg).
Definition set_refcount (pg : page) (x : Z) : page :=
  mk_page (pflags pg) (page_type pg) x (private pg) (chead pg) (corder pg).
Definition set_private (pg : page) (x : Z) : page :=
  mk_page (pflags pg) (page_type pg) (refcount pg) x (chead pg) (corder pg).
Definition set_chead (pg : page) (x : option Z) : page :=
  mk_page (pflags pg) (page_type pg) (refcount pg) (private pg) x (corder pg).
Definition set_corder (pg : page) (x : Z) : page :=
  mk_page (pflags pg) (page_type pg) (refcount pg) (private pg) (chead pg) x.

(** ** Flags *)

Definition PG_locked : Z := 0.
Definition PG_reserved : Z := 1.
Definition PG_head : Z := 2.
Definition PG_slab : Z := 3.
Definition PG_active : Z := 4.
Definition NR_PAGEFLAGS : Z := 6.

Definition bit (n : Z) : Z := Z.shiftl 1 n.

Definition PAGE_FLAGS_CHECK_AT_FREE : Z :=
  Z.lor (Z.lor (bit PG_locked) (bit PG_reserved)) (Z.lor (bit PG_slab) (bit PG_active)).
Definition PAGE_FLAGS_CHECK_AT_PREP : Z := bit NR_PAGEFLAGS - 1.

Definition PageTail (pg : page) : bool :=
  match chead pg with Some _ => true | None => false end.
Definition compound_head (p : Z) (pg : page) : Z :=
  match chead pg with Some h => h | None => p end.
Definition PageCompound (pg : page) : bool := Z.testbit (pflags pg) PG_head || PageTail pg.

Definition PagePoisoned (pg : page) : bool := pflags pg =? ULLONG_MAX.

(** [PageHead]: policy PF_ANY. *)
Definition PageHead (pg : page) : outcome bool :=
  BUG_ON (PagePoisoned pg);; Ret (Z.testbit (pflags pg) PG_head).
Definition __SetPageHead (pg : page) : outcome page :=
  BUG_ON (PagePoisoned pg);; Ret (set_pflags pg (Z.lor (pflags pg) (bit PG_head))).

(** [PageReserved] operations: policy PF_NO_COMPOUND. *)
Definition __SetPageReserved (pg : page) : outcome page :=
  BUG_ON (PageCompound pg);; BUG_ON (PagePoisoned pg);;
  Ret (set_pflags pg (Z.lor (pflags pg) (bit PG_reserved))).
Definition __ClearPageReserved (pg : page) : outcome page :=
  BUG_ON (PageCompound pg);; BUG_ON (PagePoisoned pg);;
  Ret (set_pflags pg (Z.land (pflags pg) (Z.lnot (bit PG_reserved)))).

(** ** Page types *)

Definition PAGE_TYPE_BASE : Z := 4026531840.   (* 0xf0000000 *)
Definition PG_buddy : Z := 128.

Definition PageType (pg : page) (flag : Z) : bool :=
  Z.land (page_type pg) (Z.lor PAGE_TYPE_BASE flag) =? PAGE_TYPE_BASE.
Definition PageBuddy (pg : page) : bool := PageType pg PG_buddy.
Definition __SetPageBuddy (pg : page) : outcome page :=
  BUG_ON (negb (PageType pg 0));;
  Ret (set_page_type pg (Z.land (page_type pg) (u32 (Z.lnot PG_buddy)))).
Definition __ClearPageBuddy (pg : page) : outcome page :=
  BUG_ON (negb (PageBuddy pg));;
  Ret (set_page_type pg (Z.lor (page_type pg) PG_buddy)).

(** [_mapcount == -1], read through the shared word. *)
Definition MAPCOUNT_UNSET : Z := u32 (-1).
Definition page_mapcount_reset (pg : page) : page := set_page_type pg MAPCOUNT_UNSET.

(** ** Zones of pages *)

Definition ZONES_SHIFT : Z := 2.
Definition NODES_PGOFF : Z := 64 - ZONES_SHIFT.
Definition ZONEID_MASK : Z := Z.shiftl 1 ZONES_SHIFT - 1.

Definition page_zone_id (pg : page) : Z := Z.land (Z.shiftr (pflags pg) NODES_PGOFF) ZONEID_MASK.
Definition set_page_zone (pg : page) (zone : Z) : page :=
  let cleared := Z.land (pflags pg) (u64 (Z.lnot (u64 (Z.shiftl ZONEID_MASK NODES_PGOFF)))) in
  set_pflags pg (Z.lor cleared (u64 (Z.shiftl (Z.land zone ZONEID_MASK) NODES_PGOFF))).
Definition set_page_links (pg : page) (zone pfn : Z) : page := set_page_zone pg zone.

(** ** Reference counts and compound pages *)

Definition page_ref_count (pg : page) : Z := refcount pg.
Definition page_count (M : mem_map) (p : Z) : outcome Z :=
  pg ← page_at M p; hd ← page_at M (compound_head p pg); Ret (refcount hd).
Definition set_page_count (pg : page) (v : Z) : page := set_refcount pg v.
Definition init_page_count (pg : page) : page := set_page_count pg 1.

(** [set_page_refcounted]. *)
Definition set_page_refcounted (pg : page) : outcome page :=
  BUG_ON (PageTail pg);; BUG_ON (negb (page_ref_count pg =? 0));;
  Ret (set_page_count pg 1).

(** [put_page_testzero]: the new map and whether the count reached zero. *)
Definition put_page_testzero (M : mem_map) (p : Z) : outcome (mem_map * bool) :=
  pg ← page_at M p;
  BUG_ON (page_ref_count pg =? 0);;
  let v := s32 (refcount pg - 1) in
  Ret (<[p := set_refcount pg v]> M, v =? 0).

Definition compound_order (M : mem_map) (p : Z) : outcome Z :=
  pg ← page_at M p;
  head ← PageHead pg;
  if (head : bool) then pg1 ← page_at M (p + 1); Ret (corder pg1) else Ret 0.
Definition set_compound_order (M : mem_map) (p order : Z) : outcome mem_map :=
  update M (p + 1) (fun pg => set_corder pg (u8 order)).
Definition set_compound_head (pg : page) (head : Z) : page := set_chead pg (Some head).
Definition clear_compound_head (pg : page) : page := set_chead pg None.

(** ** Allocation masks and zones *)

Definition ZONE_DMA : Z := 0.
Definition ZONE_NORMAL : Z := 1.
Definition ZONE_MOVABLE : Z := 2.
Definition MAX_NR_ZONES : Z := 3.

Definition __GFP_DMA : Z := bit 0.
Definition __GFP_MOVABLE : Z := bit 2.
Definition __GFP_ZERO : Z := bit 3.

Definition gfp_zone (flags : Z) : Z :=
  if negb (Z.land __GFP_DMA flags =? 0) then ZONE_DMA
  else if negb (Z.land __GFP_MOVABLE flags =? 0) then ZONE_MOVABLE
  else ZONE_NORMAL.

(** ** Which frames have a descriptor in use

    The allocator asks the architecture whether a frame is RAM.  The arm64
    answer is memblock's. *)
Class PfnMap : Type := { pfn_valid : Z -> bool }.

Definition memblock_pfn_map (mb : memblock) : PfnMap := {|
  pfn_valid pfn :=
    let addr := u64 (Z.shiftl pfn PAGE_SHIFT) in
    if negb (Z.shiftr addr PAGE_SHIFT =? pfn) then false
    else match memblock_is_map_memory mb addr with Ret b => b | _ => false end
|}.
