(* ===== verification/PageAlloc.v ===== *)
(** * The zoned buddy allocator

    An executable model of kernel/mm/page_alloc.c.  A critical section under
    [zone->lock], or with interrupts disabled on one CPU, is one function here.
    A [struct zone *] argument is passed as the zone's value and returned
    updated, next to the page map. *)

From stdpp Require Import base numbers list option gmap.
From Stdlib Require Import ZArith Lia.
From S2P Require Import Prelude Memblock Page.

Definition MAX_ORDER : Z := 11.

(** ** Zones and per-CPU lists *)

Record free_area : Type := mk_area { free_list : list Z; nr_free : Z }.

Record per_cpu_pages : Type := mk_pcp {
  pcount : Z; phigh : Z; pbatch : Z; plist : list Z
}.

Record zone : Type := mk_zone {
  zone_start_pfn : Z;
  managed_pages : Z;
  initialized : bool;
  areas : list free_area;            (* free_area[MAX_ORDER] *)
  pageset : list per_cpu_pages;      (* one per possible CPU *)
}.

Definition set_areas (z : zone) (a : list free_area) : zone :=
  mk_zone (zone_start_pfn z) (managed_pages z) (initialized z) a (pageset z).
Definition set_pageset (z : zone) (p : list per_cpu_pages) : zone :=
  mk_zone (zone_start_pfn z) (managed_pages z) (initialized z) (areas z) p.
Definition set_managed (z : zone) (n : Z) : zone :=
  mk_zone (zone_start_pfn z) n (initialized z) (areas z) (pageset z).

(** Linked-list operations on the [lru] member.  Unlinking a page from a list
    it is not on would corrupt memory. *)
Definition list_del (l : list Z) (p : Z) : outcome (list Z) :=
  if decide (p ∈ l) then Ret (List.remove Z.eq_dec p l) else Fault.

(** [list_del(&page->lru); area->nr_free--]. *)
Definition area_del (z : zone) (order p : Z) : outcome zone :=
  a ← rd (areas z) order;
  l ← list_del (free_list a) p;
  a' ← wr (areas z) order (mk_area l (u64 (nr_free a - 1)));
  Ret (set_areas z a').
(** [list_add(&page->lru, ...); area->nr_free++]. *)
Definition area_add (z : zone) (order p : Z) : outcome zone :=
  a ← rd (areas z) order;
  a' ← wr (areas z) order (mk_area (p :: free_list a) (u64 (nr_free a + 1)));
  Ret (set_areas z a').
Definition area_add_tail (z : zone) (order p : Z) : outcome zone :=
  a ← rd (areas z) order;
  a' ← wr (areas z) order (mk_area (free_list a ++ [p]) (u64 (nr_free a + 1)));
  Ret (set_areas z a').

(** ** Merging freed blocks *)

Definition page_order (pg : page) : Z := private pg.

Definition set_page_order (M : mem_map) (p order : Z) : outcome mem_map :=
  pg ← page_at M p;
  pg ← __SetPageBuddy (set_private pg order);
  Ret (<[p := pg]> M).
Definition rmv_page_order (M : mem_map) (p : Z) : outcome mem_map :=
  pg ← page_at M p;
  pg ← __ClearPageBuddy pg;
  Ret (<[p := set_private pg 0]> M).

Definition __find_buddy_pfn (page_pfn order : Z) : Z := Z.lxor page_pfn (Z.shiftl 1 order).

Definition page_is_buddy (M : mem_map) (page buddy order : Z) : outcome bool :=
  bd ← page_at M buddy;
  if PageBuddy bd && (page_order bd =? order) then
    pg ← page_at M page;
    if negb (page_zone_id pg =? page_zone_id bd) then Ret false
    else
      c ← page_count M buddy;
      BUG_ON (negb (c =? 0));; Ret true
  else Ret false.

Section alloc.
Context `{PfnMap}.

(** One turn of the merge loop; the state is
    (map, zone, pfn, order, buddy_pfn). *)
Definition merge_turn (st : mem_map * zone * Z * Z * Z)
  : outcome (mem_map * zone * Z * Z * Z + mem_map * zone * Z * Z * Z) :=
  let '(M, z, pfn, order, buddy_pfn) := st in
  if order <? MAX_ORDER - 1 then
    let buddy_pfn := __find_buddy_pfn pfn order in
    if negb (pfn_valid buddy_pfn) then Ret (inr (M, z, pfn, order, buddy_pfn))
    else
      isb ← page_is_buddy M pfn buddy_pfn order;
      if negb isb then Ret (inr (M, z, pfn, order, buddy_pfn))
      else
        z ← area_del z order buddy_pfn;
        M ← rmv_page_order M buddy_pfn;
        Ret (inl (M, z, Z.land buddy_pfn pfn, order + 1, buddy_pfn))
  else Ret (inr (M, z, pfn, order, buddy_pfn)).

(** Whether the buddy of the next-highest order is free, so that the block
    goes to the tail of its list. *)
Definition goes_to_tail (M : mem_map) (pfn order buddy_pfn : Z) : outcome bool :=
  if (order <? MAX_ORDER - 2) && pfn_valid buddy_pfn then
    let combined_pfn := Z.land buddy_pfn pfn in
    let buddy_pfn := __find_buddy_pfn combined_pfn (order + 1) in
    if pfn_valid buddy_pfn then page_is_buddy M combined_pfn buddy_pfn (order + 1)
    else Ret false
  else Ret false.

Definition __free_one_page (M : mem_map) (z : zone) (page order : Z)
  : outcome (mem_map * zone) :=
  BUG_ON (negb (initialized z));;
  pg ← page_at M page;
  BUG_ON (negb (Z.land (pflags pg) PAGE_FLAGS_CHECK_AT_PREP =? 0));;
  BUG_ON (negb (Z.land page (Z.shiftl 1 order - 1) =? 0));;
  '(M, z, pfn, order, buddy_pfn) ←
    loop (Z.to_nat MAX_ORDER) merge_turn (M, z, page, order, 0);
  M ← set_page_order M pfn order;
  tail ← goes_to_tail M pfn order buddy_pfn;
  z ← (if (tail : bool) then area_add_tail z order pfn else area_add z order pfn);
  Ret (M, z).

(** ** Checks on the way in and out *)

Definition page_expected_state (pg : page) (check_flags : Z) : bool :=
  (page_type pg =? MAPCOUNT_UNSET) &&
  (page_ref_count pg =? 0) && (Z.land (pflags pg) check_flags =? 0).

(** The reporting of [bad_page] is dropped; it resets the map count. *)
Definition bad_page (pg : page) : page := page_mapcount_reset pg.

(** [free_pages_check]: whether the page was bad, and the page afterwards. *)
Definition free_pages_check (pg : page) : bool * page :=
  if page_expected_state pg PAGE_FLAGS_CHECK_AT_FREE then (false, pg)
  else (true, bad_page pg).

Definition free_tail_pages_check (head_page : Z) (p : Z) (pg : page) : bool * page :=
  let '(ret, pg) :=
    if negb (PageTail pg) then (true, bad_page pg)
    else if negb (compound_head p pg =? head_page) then (true, bad_page pg)
    else (false, pg) in
  (ret, clear_compound_head pg).

Definition clear_prep_flags (pg : page) : page :=
  set_pflags pg (Z.land (pflags pg) (Z.lnot PAGE_FLAGS_CHECK_AT_PREP)).

(** The body of the loop over the tail pages. *)
Definition tail_prepare (compound : bool) (head p : Z) (pg : page) : bool * page :=
  let '(bad1, pg) := if compound then free_tail_pages_check head p pg else (false, pg) in
  let '(bad2, pg) := free_pages_check pg in
  if bad2 then (true, pg) else (bad1, clear_prep_flags pg).

Definition tails_step (compound : bool) (head n : Z) (st : mem_map * Z * bool)
  : outcome (mem_map * Z * bool + mem_map * bool) :=
  let '(M, i, bad) := st in
  if i <? n then
    pg ← page_at M (head + i);
    let '(b, pg) := tail_prepare compound head (head + i) pg in
    Ret (inl (<[head + i := pg]> M, i + 1, bad || b))
  else Ret (inr (M, bad)).

(** [free_pages_prepare]: the map, and whether the block may be freed.  Every
    caller passes [check_free = true]. *)
Definition free_pages_prepare (M : mem_map) (head order : Z) (check_free : bool)
  : outcome (mem_map * bool) :=
  pg ← page_at M head;
  BUG_ON (PageTail pg);;
  '(M, bad) ←
    (if negb (order =? 0) then
       let compound := PageCompound pg in
       (if compound then
          o ← compound_order M head; BUG_ON (negb (o =? order))
        else Ret tt);;
       let n := Z.shiftl 1 order in
       loop (Z.to_nat n + 1) (tails_step compound head n) (M, 1, false)
     else Ret (M, false));
  pg ← page_at M head;
  let '(b, pg) := if check_free then free_pages_check pg else (false, pg) in
  if bad || b then Ret (<[head := pg]> M, false)
  else Ret (<[head := clear_prep_flags pg]> M, true).

Definition free_pcp_prepare (M : mem_map) (p : Z) := free_pages_prepare M p 0 true.

(** ** Draining per-CPU lists *)

(** One turn of the inner loop of [free_pcppages_bulk]; the state is
    (count, batch_free, pcp, head). *)
Definition bulk_turn (st : Z * Z * per_cpu_pages * list Z)
  : outcome (Z * Z * per_cpu_pages * list Z + Z * Z * per_cpu_pages * list Z) :=
  let '(count, batch_free, pcp, head) := st in
  match last (plist pcp) with
  | None => Fault            (* list_last_entry of an empty list *)
  | Some p =>
      l ← list_del (plist pcp) p;
      let pcp := mk_pcp (s32 (pcount pcp - 1)) (phigh pcp) (pbatch pcp) l in
      let head := head ++ [p] in
      let count := count - 1 in
      if count =? 0 then Ret (inr (count, batch_free, pcp, head))
      else
        let batch_free := batch_free - 1 in
        if batch_free =? 0 then Ret (inr (count, batch_free, pcp, head))
        else
          match l with
          | [] => Ret (inr (count, batch_free, pcp, head))
          | _ => Ret (inl (count, batch_free, pcp, head))
          end
  end.

Definition bulk_round (st : Z * Z * per_cpu_pages * list Z)
  : outcome (Z * Z * per_cpu_pages * list Z + per_cpu_pages * list Z) :=
  let '(count, batch_free, pcp, head) := st in
  if negb (count =? 0) then
    r ← loop (length (plist pcp) + 1) bulk_turn (count, batch_free + 1, pcp, head);
    Ret (inl r)
  else Ret (inr (pcp, head)).

Fixpoint free_each (M : mem_map) (z : zone) (l : list Z) : outcome (mem_map * zone) :=
  match l with
  | [] => Ret (M, z)
  | p :: l' => '(M, z) ← __free_one_page M z p 0; free_each M z l'
  end.

Definition free_pcppages_bulk (M : mem_map) (z : zone) (count : Z) (cpu : Z)
  : outcome (mem_map * zone) :=
  pcp ← rd (pageset z) cpu;
  '(pcp, head) ← loop (Z.to_nat count + 1) bulk_round (count, 0, pcp, []);
  ps ← wr (pageset z) cpu pcp;
  free_each M (set_pageset z ps) head.

Definition free_one_page := __free_one_page.

Definition free_unref_page_commit (M : mem_map) (z : zone) (cpu p : Z)
  : outcome (mem_map * zone) :=
  pcp ← rd (pageset z) cpu;
  let pcp := mk_pcp (s32 (pcount pcp + 1)) (phigh pcp) (pbatch pcp) (p :: plist pcp) in
  ps ← wr (pageset z) cpu pcp;
  let z := set_pageset z ps in
  if phigh pcp <=? pcount pcp then free_pcppages_bulk M z (pbatch pcp) cpu
  else Ret (M, z).

Definition drain_pages_zone (M : mem_map) (z : zone) (cpu : Z)
  : outcome (mem_map * zone * bool) :=
  pcp ← rd (pageset z) cpu;
  if negb (pcount pcp =? 0) then
    '(M, z) ← free_pcppages_bulk M z (pcount pcp) cpu; Ret (M, z, true)
  else Ret (M, z, false).

(** ** Splitting and removing blocks *)

(** State (map, zone, high, size); [area] is [&zone->free_area[high]]. *)
Definition expand_turn (page low : Z) (st : mem_map * zone * Z * Z)
  : outcome (mem_map * zone * Z * Z + mem_map * zone) :=
  let '(M, z, high, size) := st in
  if low <? high then
    let high := high - 1 in
    let size := Z.shiftr size 1 in
    z ← area_add z high (page + size);
    M ← set_page_order M (page + size) high;
    Ret (inl (M, z, high, size))
  else Ret (inr (M, z)).

Definition expand (M : mem_map) (z : zone) (page low high : Z) : outcome (mem_map * zone) :=
  loop (Z.to_nat (high - low) + 1) (expand_turn page low) (M, z, high, Z.shiftl 1 high).

Definition rmqueue_turn (M : mem_map) (z : zone) (order current_order : Z)
  : outcome (Z + option (mem_map * zone * Z)) :=
  if current_order <? MAX_ORDER then
    a ← rd (areas z) current_order;
    match free_list a with
    | [] => Ret (inl (current_order + 1))
    | p :: _ =>
        z ← area_del z current_order p;
        M ← rmv_page_order M p;
        '(M, z) ← expand M z p order current_order;
        Ret (inr (Some (M, z, p)))
    end
  else Ret (inr None).

(** [None] is the NULL result, which leaves map and zone unchanged. *)
Definition __rmqueue_smallest (M : mem_map) (z : zone) (order : Z)
  : outcome (option (mem_map * zone * Z)) :=
  loop (Z.to_nat (MAX_ORDER - order) + 1) (rmqueue_turn M z order) order.

Definition __rmqueue := __rmqueue_smallest.

(** [rmqueue_bulk] appends to the list and counts. *)
Definition bulk_fill_turn (order count : Z) (st : mem_map * zone * Z * list Z)
  : outcome (mem_map * zone * Z * list Z + mem_map * zone * Z * list Z) :=
  let '(M, z, i, l) := st in
  if i <? count then
    r ← __rmqueue M z order;
    match r with
    | None => Ret (inr (M, z, i, l))
    | Some (M, z, p) => Ret (inl (M, z, i + 1, l ++ [p]))
    end
  else Ret (inr (M, z, i, l)).

Definition rmqueue_bulk (M : mem_map) (z : zone) (order count : Z) (l : list Z)
  : outcome (mem_map * zone * Z * list Z) :=
  loop (Z.to_nat count + 1) (bulk_fill_turn order count) (M, z, 0, l).

(** ** Checking and preparing new pages *)

Definition __PG_HWPOISON : Z := 0.

(** [check_new_page]: whether the page is unusable, and the page afterwards.
    The HWPOISON branch of [check_new_page_bad] tests a zero mask. *)
Definition check_new_page (pg : page) : bool * page :=
  if page_expected_state pg (Z.lor PAGE_FLAGS_CHECK_AT_PREP __PG_HWPOISON) then (false, pg)
  else (true, bad_page pg).

Definition check_new_turn (p n : Z) (st : mem_map * Z)
  : outcome (mem_map * Z + mem_map * bool) :=
  let '(M, i) := st in
  if i <? n then
    pg ← page_at M (p + i);
    let '(bad, pg) := check_new_page pg in
    if bad then Ret (inr (<[p + i := pg]> M, true)) else Ret (inl (M, i + 1))
  else Ret (inr (M, false)).

Definition check_new_pages (M : mem_map) (p order : Z) : outcome (mem_map * bool) :=
  let n := Z.shiftl 1 order in
  loop (Z.to_nat n + 1) (check_new_turn p n) (M, 0).

Definition compound_turn (head n : Z) (st : mem_map * Z) : outcome (mem_map * Z + mem_map) :=
  let '(M, i) := st in
  if i <? n then
    M ← update M (head + i) (fun pg => set_compound_head (set_page_count pg 0) head);
    Ret (inl (M, i + 1))
  else Ret (inr M).

Definition prep_compound_page (M : mem_map) (head order : Z) : outcome mem_map :=
  M ← set_compound_order M head order;
  pg ← page_at M head;
  pg ← __SetPageHead pg;
  let n := Z.shiftl 1 order in
  loop (Z.to_nat n + 1) (compound_turn head n) (<[head := pg]> M, 1).

Definition post_alloc_hook (M : mem_map) (p : Z) : outcome mem_map :=
  pg ← page_at M p;
  pg ← set_page_refcounted (set_private pg 0);
  Ret (<[p := pg]> M).

(** Page contents are not modelled, so [__GFP_ZERO] has no effect here. *)
Definition prep_new_page (M : mem_map) (p order gfp_mask : Z) : outcome mem_map :=
  M ← post_alloc_hook M p;
  if negb (order =? 0) then prep_compound_page M p order else Ret M.

(** ** Allocation from one zone *)

(** One turn of [__rmqueue_pcplist]; [Some p] leaves the loop with a page. *)
Definition pcplist_turn (cpu : Z) (st : mem_map * zone)
  : outcome (mem_map * zone + mem_map * zone * option Z) :=
  let '(M, z) := st in
  pcp ← rd (pageset z) cpu;
  '(M, z, l, n) ←
    match plist pcp with
    | [] =>
        '(M, z, n, l) ← rmqueue_bulk M z 0 (pbatch pcp) [];
        Ret (M, z, l, n)
    | l => Ret (M, z, l, 0)
    end;
  let count := s32 (pcount pcp + n) in
  match l with
  | [] =>
      ps ← wr (pageset z) cpu (mk_pcp count (phigh pcp) (pbatch pcp) []);
      Ret (inr (M, set_pageset z ps, None))
  | p :: l' =>
      ps ← wr (pageset z) cpu (mk_pcp (s32 (count - 1)) (phigh pcp) (pbatch pcp) l');
      pg ← page_at M p;
      let '(bad, pg) := check_new_page pg in
      let M := <[p := pg]> M in
      let z := set_pageset z ps in
      if bad then Ret (inl (M, z)) else Ret (inr (M, z, Some p))
  end.

(** Every turn takes a page out of the pcp list or of the free lists. *)
Definition __rmqueue_pcplist (fuel : nat) (M : mem_map) (z : zone) (cpu : Z)
  : outcome (mem_map * zone * option Z) :=
  loop fuel (pcplist_turn cpu) (M, z).

Definition rmqueue_block_turn (order : Z) (st : mem_map * zone)
  : outcome (mem_map * zone + mem_map * zone * option Z) :=
  let '(M, z) := st in
  r ← __rmqueue_smallest M z order;
  match r with
  | None => Ret (inr (M, z, None))
  | Some (M, z, p) =>
      '(M, bad) ← check_new_pages M p order;
      if (bad : bool) then Ret (inl (M, z)) else Ret (inr (M, z, Some p))
  end.

Definition rmqueue (fuel : nat) (M : mem_map) (z : zone) (cpu order : Z)
  : outcome (mem_map * zone * option Z) :=
  if order =? 0 then __rmqueue_pcplist fuel M z cpu
  else loop fuel (rmqueue_block_turn order) (M, z).
End alloc.

(** ** The node *)

Record node : Type := mk_node {
  nd_map : mem_map;
  node_zones : list zone;
}.

(** The fuel of the retry loops: each turn takes pages that the map counts. *)
Definition alloc_fuel (M : mem_map) : nat := S (S (size M)).

Section node.
Context `{PfnMap}.

(** [for_each_online_cpu(cpu)] over the CPUs other than this one; [train]
    is assigned, not accumulated. *)
Fixpoint drain_others (M : mem_map) (z : zone) (this : Z) (online : list Z) (train : bool)
  : outcome (mem_map * zone * bool) :=
  match online with
  | [] => Ret (M, z, train)
  | cpu :: online' =>
      if cpu =? this then drain_others M z this online' train
      else
        '(M, z, train) ← drain_pages_zone M z cpu;
        drain_others M z this online' train
  end.

(** One turn from [retry]; the state is (map, zone, train). *)
Definition freelist_turn (cpu : Z) (online : list Z) (gfp_mask order : Z)
    (st : mem_map * zone * bool)
  : outcome (mem_map * zone * bool + mem_map * zone * option Z) :=
  let '(M, z, train) := st in
  '(M, z, r) ← rmqueue (alloc_fuel M) M z cpu order;
  match r with
  | Some p => M ← prep_new_page M p order gfp_mask; Ret (inr (M, z, Some p))
  | None =>
      '(M, z, train) ← drain_others M z cpu online train;
      if (train : bool) then Ret (inl (M, z, train)) else Ret (inr (M, z, None))
  end.

Definition get_page_from_freelist (cpu : Z) (online : list Z) (N : node)
    (gfp_mask order zoneidx : Z) : outcome (option Z * node) :=
  z ← rd (node_zones N) zoneidx;
  '(M, z, r) ←
    loop (alloc_fuel (nd_map N)) (freelist_turn cpu online gfp_mask order) (nd_map N, z, false);
  zs ← wr (node_zones N) zoneidx z;
  Ret (r, mk_node M zs).

(** [__alloc_pages]; [None] is NULL. *)
Definition __alloc_pages (cpu : Z) (online : list Z) (N : node) (gfp_mask order : Z)
  : outcome (option Z * node) :=
  if MAX_ORDER <=? order then Ret (None, N)
  else get_page_from_freelist cpu online N gfp_mask order (gfp_zone gfp_mask).

(** [page_zone(page)] as an index. *)
Definition page_zone (M : mem_map) (p : Z) : outcome Z :=
  pg ← page_at M p; Ret (page_zone_id pg).

Definition __free_pages_ok (N : node) (p order : Z) : outcome node :=
  '(M, good) ← free_pages_prepare (nd_map N) p order true;
  if negb good then Ret (mk_node M (node_zones N))
  else
    zid ← page_zone M p;
    z ← rd (node_zones N) zid;
    '(M, z) ← free_one_page M z p order;
    zs ← wr (node_zones N) zid z;
    Ret (mk_node M zs).

Definition free_unref_page (cpu : Z) (N : node) (p : Z) : outcome node :=
  '(M, good) ← free_pcp_prepare (nd_map N) p;
  if negb good then Ret (mk_node M (node_zones N))
  else
    zid ← page_zone M p;
    z ← rd (node_zones N) zid;
    '(M, z) ← free_unref_page_commit M z cpu p;
    zs ← wr (node_zones N) zid z;
    Ret (mk_node M zs).

Definition free_the_page (cpu : Z) (N : node) (p order : Z) : outcome node :=
  if order =? 0 then free_unref_page cpu N p else __free_pages_ok N p order.

Definition __free_pages (cpu : Z) (N : node) (p order : Z) : outcome node :=
  '(M, zero) ← put_page_testzero (nd_map N) p;
  let N := mk_node M (node_zones N) in
  if (zero : bool) then free_the_page cpu N p order else Ret N.

Definition free_compound_page (N : node) (p : Z) : outcome node :=
  o ← compound_order (nd_map N) p; __free_pages_ok N p o.

(** [get_page] and [put_page]. *)
Definition get_page (N : node) (p : Z) : outcome node :=
  pg ← page_at (nd_map N) p;
  let h := compound_head p pg in
  hd ← page_at (nd_map N) h;
  BUG_ON (page_ref_count hd <=? 0);;
  Ret (mk_node (<[h := set_refcount hd (s32 (refcount hd + 1))]> (nd_map N)) (node_zones N)).

Definition put_page (cpu : Z) (N : node) (p : Z) : outcome node :=
  pg ← page_at (nd_map N) p;
  let h := compound_head p pg in
  '(M, zero) ← put_page_testzero (nd_map N) h;
  let N := mk_node M (node_zones N) in
  if (zero : bool) then
    hd ← page_at M h;
    if PageCompound hd then free_compound_page N h else free_unref_page cpu N h
  else Ret N.

End node.

(** ** Counters *)

Definition nr_zone_free_pages (z : zone) : Z :=
  fold_left (fun n '(order, a) => u64 (n + u64 (nr_free a * Z.shiftl 1 order)))
    (zip (seqZ 0 (Z.of_nat (length (areas z)))) (areas z)) 0.

Definition nr_free_pages (N : node) : Z :=
  fold_left (fun n z => u64 (n + nr_zone_free_pages z)) (node_zones N) 0.

Definition nr_managed_pages (N : node) : Z :=
  fold_left (fun n z => u64 (n + managed_pages z)) (node_zones N) 0.

Definition nr_zone_percpu_cache_pages (z : zone) : Z :=
  fold_left (fun n p => u64 (n + pcount p)) (pageset z) 0.
