(* ===== verification/BuddyFacts.v ===== *)
(** * The buddy system of one zone

    The invariant that relates the free lists of a zone to the page
    descriptors, and its preservation by the two primitive moves: taking a block
    off its list and putting one on. *)

From stdpp Require Import base numbers list option gmap.
From Stdlib Require Import ZArith Lia.
From S2P Require Import Prelude Memblock Page PageAlloc.

(** ** Buddies *)

Lemma lxor_1_even m : Z.lxor (2 * m) 1 = 2 * m + 1.
Proof.
  symmetry. apply Z.add_nocarry_lxor.
  change 1 with (Z.ones 1). rewrite Z.land_ones by lia. by rewrite Z.mul_comm, Z.mod_mul.
Qed.

Lemma lxor_1_odd m : Z.lxor (2 * m + 1) 1 = 2 * m.
Proof. by rewrite <- lxor_1_even, Z.lxor_assoc, Z.lxor_nilpotent, Z.lxor_0_r. Qed.

Lemma land_succ_even m : Z.land (2 * m + 1) (2 * m) = 2 * m.
Proof.
  assert (H : Z.land (2 * m) 1 = 0).
  { change 1 with (Z.ones 1). rewrite Z.land_ones by lia. by rewrite Z.mul_comm, Z.mod_mul. }
  rewrite <- lxor_1_even, Z.lxor_lor by done.
  rewrite Z.land_lor_distr_l, Z.land_diag, (Z.land_comm 1), H. apply Z.lor_0_r.
Qed.

(** A block and its buddy are the two halves of the combined block. *)
Lemma buddy_halves o p :
  0 <= o -> (2 ^ o | p) ->
  let b := __find_buddy_pfn p o in
  let c := Z.land b p in
  (2 ^ (o + 1) | c) /\ ((p = c /\ b = c + 2 ^ o) \/ (p = c + 2 ^ o /\ b = c)).
Proof.
  intros Ho [k ->]. unfold __find_buddy_pfn. cbv zeta.
  rewrite <- (Z.shiftl_mul_pow2 k o), <- Z.shiftl_lxor, <- Z.shiftl_land by lia.
  rewrite !Z.shiftl_mul_pow2, Z.pow_add_r, Z.pow_1_r by lia.
  destruct (Z.Even_or_Odd k) as [[m ->]|[m ->]].
  - rewrite lxor_1_even, land_succ_even. split; [exists m; lia|left; lia].
  - rewrite lxor_1_odd, Z.land_comm, land_succ_even. split; [exists m; lia|right; lia].
Qed.

Lemma buddy_involutive p o : __find_buddy_pfn (__find_buddy_pfn p o) o = p.
Proof. unfold __find_buddy_pfn. by rewrite Z.lxor_assoc, Z.lxor_nilpotent, Z.lxor_0_r. Qed.

Lemma buddy_neq p o : 0 <= o -> (2 ^ o | p) -> __find_buddy_pfn p o <> p.
Proof.
  intros Ho Hd. pose proof (buddy_halves o p Ho Hd) as [_ H].
  assert (0 < 2 ^ o) by (apply Z.pow_pos_nonneg; lia). lia.
Qed.

(** ** Page states *)

Definition zone_flags (zid : Z) : Z := Z.shiftl zid NODES_PGOFF.
Definition BUDDY_TYPE : Z := MAPCOUNT_UNSET - PG_buddy.

(** A page of a free block that is not its first page, or a page that is on
    its way between the lists and a user. *)
Record idle (zid : Z) (pg : page) : Prop := {
  idle_flags : pflags pg = zone_flags zid;
  idle_type : page_type pg = MAPCOUNT_UNSET;
  idle_ref : refcount pg = 0;
  idle_chead : chead pg = None;
}.

(** The first page of a free block of order [o]. *)
Record head_of (zid o : Z) (pg : page) : Prop := {
  head_flags : pflags pg = zone_flags zid;
  head_type : page_type pg = BUDDY_TYPE;
  head_ref : refcount pg = 0;
  head_chead : chead pg = None;
  head_private : private pg = o;
}.

Definition valid_zid (zid : Z) : Prop := 0 <= zid < MAX_NR_ZONES.

Lemma zone_id_of_flags zid pg :
  valid_zid zid -> pflags pg = zone_flags zid -> page_zone_id pg = zid.
Proof.
  intros H E. unfold page_zone_id. rewrite E. unfold valid_zid, MAX_NR_ZONES in H.
  assert (zid = 0 \/ zid = 1 \/ zid = 2) as [->|[->| ->]] by lia; reflexivity.
Qed.

Lemma flags_prep_clear zid pg :
  valid_zid zid -> pflags pg = zone_flags zid -> Z.land (pflags pg) PAGE_FLAGS_CHECK_AT_PREP = 0.
Proof.
  intros H ->. unfold valid_zid, MAX_NR_ZONES in H.
  assert (zid = 0 \/ zid = 1 \/ zid = 2) as [->|[->| ->]] by lia; reflexivity.
Qed.

Lemma head_PageBuddy zid o pg : head_of zid o pg -> PageBuddy pg = true.
Proof. intros [_ H _ _ _]. unfold PageBuddy, PageType. by rewrite H. Qed.
Lemma idle_not_buddy zid pg : idle zid pg -> PageBuddy pg = false.
Proof. intros [_ H _ _]. unfold PageBuddy, PageType. by rewrite H. Qed.

Lemma set_buddy zid o pg :
  idle zid pg ->
  exists pg', __SetPageBuddy (set_private pg o) = Ret pg' /\ head_of zid o pg'.
Proof.
  intros [H1 H2 H3 H4]. unfold __SetPageBuddy, PageType. simpl. rewrite H2. simpl.
  eexists. split; [reflexivity|]. by split.
Qed.

Lemma clear_buddy zid o pg :
  head_of zid o pg ->
  exists pg', __ClearPageBuddy pg = Ret pg' /\ idle zid (set_private pg' 0).
Proof.
  intros H. pose proof (head_PageBuddy _ _ _ H) as Hb. destruct H as [H1 H2 H3 H4 H5].
  unfold __ClearPageBuddy. rewrite Hb. simpl. eexists. split; [reflexivity|].
  split; simpl; auto. by rewrite H2.
Qed.

(** ** Free lists *)

Definition fl (z : zone) (o : Z) : list Z :=
  match areas z !! Z.to_nat o with Some a => free_list a | None => [] end.

Definition is_block (z : zone) (o p : Z) : Prop := 0 <= o < MAX_ORDER /\ p ∈ fl z o.

Definition in_blk (p o q : Z) : Prop := p <= q < p + 2 ^ o.

(** Page [q] belongs to a free block. *)
Definition is_free_page (z : zone) (q : Z) : Prop := exists o p, is_block z o p /\ in_blk p o q.

(** The descriptor of page [q] satisfies [P]. *)
Definition page_sat (M : mem_map) (q : Z) (P : page -> Prop) : Prop :=
  exists pg, M !! q = Some pg /\ P pg.

Record buddy_inv (M : mem_map) (zid : Z) (z : zone) : Prop := {
  bi_zid : valid_zid zid;
  bi_len : Z.of_nat (length (areas z)) = MAX_ORDER;
  bi_lists : forall i a, areas z !! i = Some a ->
    nr_free a = u64 (Z.of_nat (length (free_list a))) /\ NoDup (free_list a);
  bi_block : forall o p, is_block z o p ->
    (2 ^ o | p) /\ page_sat M p (head_of zid o) /\
    forall q, p < q < p + 2 ^ o -> page_sat M q (idle zid);
  bi_head : forall p pg, M !! p = Some pg -> PageBuddy pg = true -> page_zone_id pg = zid ->
    exists o, is_block z o p;
  bi_coalesced : forall o p, o < MAX_ORDER - 1 -> is_block z o p ->
    ~ is_block z o (__find_buddy_pfn p o);
  bi_sane : forall p pg, M !! p = Some pg -> PageBuddy pg = true -> refcount pg = 0 /\ chead pg = None;
}.

(** An aligned run of idle pages outside the free lists. *)
Record held (M : mem_map) (zid : Z) (z : zone) (o p : Z) : Prop := {
  held_order : 0 <= o < MAX_ORDER;
  held_align : (2 ^ o | p);
  held_pages : forall q, in_blk p o q -> page_sat M q (idle zid);
  held_apart : forall q, in_blk p o q -> ~ is_free_page z q;
}.

Lemma pow2_pos o : 0 <= o -> 0 < 2 ^ o.
Proof. intros. apply Z.pow_pos_nonneg; lia. Qed.

Lemma in_blk_head p o : 0 <= o -> in_blk p o p.
Proof. intros H. pose proof (pow2_pos o H). unfold in_blk. lia. Qed.

Lemma block_page M zid z o p q :
  buddy_inv M zid z -> is_block z o p -> in_blk p o q ->
  (q = p /\ page_sat M q (head_of zid o)) \/ (q <> p /\ page_sat M q (idle zid)).
Proof.
  intros H Hb Hq. destruct (bi_block _ _ _ H o p Hb) as (_ & Hh & Hi). unfold in_blk in Hq.
  destruct (Z.eq_dec q p) as [->|Hne]; [by left|right]. split; [done|]. apply Hi. lia.
Qed.

(** Two free blocks that share a page are the same block. *)
Lemma block_unique M zid z o1 p1 o2 p2 q :
  buddy_inv M zid z -> is_block z o1 p1 -> is_block z o2 p2 ->
  in_blk p1 o1 q -> in_blk p2 o2 q -> o1 = o2 /\ p1 = p2.
Proof.
  intros H.
  assert (W : forall o1 p1 o2 p2, is_block z o1 p1 -> is_block z o2 p2 ->
    in_blk p1 o1 q -> in_blk p2 o2 q -> p1 <= p2 -> o1 = o2 /\ p1 = p2).
  { clear o1 p1 o2 p2. intros o1 p1 o2 p2 B1 B2 I1 I2 Hle.
    destruct (bi_block _ _ _ H o2 p2 B2) as (_ & (pg2 & E2 & H2) & _).
    assert (I12 : in_blk p1 o1 p2) by (unfold in_blk in *; lia).
    destruct (block_page _ _ _ _ _ _ H B1 I12) as [[-> (pg1 & E1 & H1)]|[_ (pg1 & E1 & H1)]].
    - simplify_eq. by rewrite <- (head_private _ _ _ H1), <- (head_private _ _ _ H2).
    - simplify_eq. apply idle_not_buddy in H1. apply head_PageBuddy in H2. congruence. }
  intros B1 B2 I1 I2. destruct (Z.le_ge_cases p1 p2).
  - by apply W.
  - destruct (W o2 p2 o1 p1); auto.
Qed.

(** ** Moving blocks on and off the lists *)

Lemma elem_remove (p x : Z) l : x ∈ List.remove Z.eq_dec p l <-> x ∈ l /\ x <> p.
Proof.
  rewrite !list_elem_of_In. split.
  - intros H. by apply in_remove in H.
  - intros [H Hn]. by apply in_in_remove.
Qed.

Lemma remove_notin (p : Z) l : p ∉ l -> List.remove Z.eq_dec p l = l.
Proof. rewrite list_elem_of_In. apply notin_remove. Qed.

Lemma remove_nodup (p : Z) l :
  NoDup l -> p ∈ l ->
  NoDup (List.remove Z.eq_dec p l) /\ S (length (List.remove Z.eq_dec p l)) = length l.
Proof.
  induction l as [|x l IH]; intros Hn Hp; [by apply not_elem_of_nil in Hp|].
  apply NoDup_cons in Hn as [Hx Hn]. simpl. destruct (Z.eq_dec p x) as [->|Hne].
  - by rewrite remove_notin.
  - apply elem_of_cons in Hp as [->|Hp]; [done|]. destruct (IH Hn Hp) as [H1 H2].
    split; [|simpl; lia]. apply NoDup_cons. split; [|done]. by intros [? _]%elem_remove.
Qed.

(** The free lists are well formed: one per order, exact counters, no page
    linked twice. *)
Record lists_ok (z : zone) : Prop := {
  lo_len : Z.of_nat (length (areas z)) = MAX_ORDER;
  lo_lists : forall i a, areas z !! i = Some a ->
    nr_free a = u64 (Z.of_nat (length (free_list a))) /\ NoDup (free_list a);
}.

Lemma buddy_lists M zid z : buddy_inv M zid z -> lists_ok z.
Proof. intros H. split; [apply (bi_len _ _ _ H)|apply (bi_lists _ _ _ H)]. Qed.

(** [z'] is [z] with other free areas. *)
Definition same_zone (z z' : zone) : Prop := z' = set_areas z (areas z').

Lemma same_zone_refl z : same_zone z z.
Proof. by destruct z. Qed.
Lemma same_zone_trans z1 z2 z3 : same_zone z1 z2 -> same_zone z2 z3 -> same_zone z1 z3.
Proof. unfold same_zone. intros -> H. rewrite H. by destruct z1. Qed.

Lemma area_lookup z o :
  lists_ok z -> 0 <= o < MAX_ORDER ->
  exists a, areas z !! Z.to_nat o = Some a /\ rd (areas z) o = Ret a /\ fl z o = free_list a /\
    forall l n, exists as', wr (areas z) o (mk_area l n) = Ret as' /\
      as' = <[Z.to_nat o := mk_area l n]> (areas z).
Proof.
  intros [Hl _] Ho. destruct (lookup_lt_is_Some_2 (areas z) (Z.to_nat o)) as [a Ha]; [lia|].
  exists a. unfold fl. rewrite Ha. split_and!; auto.
  - apply rd_lookup; [lia|done].
  - intros l n. rewrite wr_in_range by lia. eauto.
Qed.

(** Replacing the list of one order. *)
Lemma fl_insert z o l n o' :
  lists_ok z -> 0 <= o < MAX_ORDER -> 0 <= o' ->
  fl (set_areas z (<[Z.to_nat o := mk_area l n]> (areas z))) o' =
    if o' =? o then l else fl z o'.
Proof.
  intros [Hl _] Ho Ho'. unfold fl. simpl. destruct (Z.eqb_spec o' o) as [->|Hne].
  - by rewrite list_lookup_insert_eq by lia.
  - by rewrite list_lookup_insert_ne by lia.
Qed.

Lemma lists_ok_insert z o l n :
  lists_ok z -> 0 <= o < MAX_ORDER -> n = u64 (Z.of_nat (length l)) -> NoDup l ->
  lists_ok (set_areas z (<[Z.to_nat o := mk_area l n]> (areas z))).
Proof.
  intros [Hl Hi] Ho -> Hn. split; simpl; [by rewrite length_insert|].
  intros i a Ha. apply list_lookup_insert_Some in Ha as [(_ & <- & _)|[_ Ha]]; [done|eauto].
Qed.

Lemma area_del_ok z o p :
  lists_ok z -> is_block z o p ->
  exists z', area_del z o p = Ret z' /\ lists_ok z' /\ same_zone z z' /\
    forall o' p', is_block z' o' p' <-> is_block z o' p' /\ ~ (o' = o /\ p' = p).
Proof.
  intros H [Ho Hp]. destruct (area_lookup z o H Ho) as (a & Ha & Hrd & Hfl & Hwr).
  destruct (lo_lists _ H _ _ Ha) as [Hnr Hnd]. rewrite Hfl in Hp.
  destruct (remove_nodup _ _ Hnd Hp) as [Hnd' Hlen].
  destruct (Hwr (List.remove Z.eq_dec p (free_list a)) (u64 (nr_free a - 1))) as (as' & Hw & ->).
  eexists. unfold area_del, list_del. rewrite Hrd, bind_ret, decide_True by done.
  rewrite bind_ret, Hw, bind_ret. split_and!; [reflexivity| |by destruct z|].
  - apply lists_ok_insert; auto. rewrite Hnr, u64_sub_l. f_equal. lia.
  - intros o' p'. unfold is_block. split.
    + intros [Ho' Hp']. rewrite fl_insert in Hp' by (auto; lia).
      destruct (Z.eqb_spec o' o) as [->|Hne].
      * apply elem_remove in Hp' as [Hp' Hne]. rewrite Hfl. split; [done|]. by intros [_ ?].
      * split; [done|]. by intros [? _].
    + intros [[Ho' Hp'] Hn]. split; [done|]. rewrite fl_insert by (auto; lia).
      destruct (Z.eqb_spec o' o) as [->|Hne]; [|done].
      apply elem_remove. rewrite <- Hfl. split; [done|]. intros ->. by apply Hn.
Qed.

Lemma area_add_gen z o p l :
  lists_ok z -> 0 <= o < MAX_ORDER -> p ∉ fl z o ->
  (l = p :: fl z o \/ l = fl z o ++ [p]) ->
  exists z', (a ← rd (areas z) o;
      a' ← wr (areas z) o (mk_area l (u64 (nr_free a + 1))); Ret (set_areas z a')) = Ret z' /\
    lists_ok z' /\ same_zone z z' /\
    forall o' p', is_block z' o' p' <-> is_block z o' p' \/ (o' = o /\ p' = p).
Proof.
  intros H Ho Hp Hl. destruct (area_lookup z o H Ho) as (a & Ha & Hrd & Hfl & Hwr).
  destruct (lo_lists _ H _ _ Ha) as [Hnr Hnd].
  destruct (Hwr l (u64 (nr_free a + 1))) as (as' & Hw & ->).
  eexists. rewrite Hrd, bind_ret, Hw, bind_ret.
  assert (Hin : forall x, x ∈ l <-> x ∈ fl z o \/ x = p) by (intros x; destruct Hl; subst l; rewrite ?elem_of_app, ?elem_of_cons, ?elem_of_nil; tauto).
  split_and!; [reflexivity| |by destruct z|].
  - apply lists_ok_insert; auto.
    + rewrite Hnr, u64_add_l. f_equal. rewrite <- Hfl in *.
      destruct Hl; subst l; rewrite ?length_app; simpl; lia.
    + rewrite <- Hfl in Hnd. destruct Hl; subst l; [by apply NoDup_cons|].
      apply NoDup_app. split_and!; auto; [|apply NoDup_singleton].
      intros x Hx. rewrite list_elem_of_singleton. by intros ->.
  - intros o' p'. unfold is_block. split.
    + intros [Ho' Hp']. rewrite fl_insert in Hp' by (auto; lia).
      destruct (Z.eqb_spec o' o) as [->|Hne]; [|auto]. apply Hin in Hp' as [?| ->]; auto.
    + intros [[Ho' Hp']|[-> ->]]; (split; [done|]); rewrite fl_insert by (auto; lia).
      * destruct (Z.eqb_spec o' o) as [->|Hne]; [|done]. apply Hin. auto.
      * rewrite Z.eqb_refl. apply Hin. auto.
Qed.

Lemma area_add_ok z o p (tail : bool) :
  lists_ok z -> 0 <= o < MAX_ORDER -> ~ is_block z o p ->
  exists z', (if tail then area_add_tail z o p else area_add z o p) = Ret z' /\
    lists_ok z' /\ same_zone z z' /\
    forall o' p', is_block z' o' p' <-> is_block z o' p' \/ (o' = o /\ p' = p).
Proof.
  intros H Ho Hp. assert (Hn : p ∉ fl z o) by (intros ?; by apply Hp).
  destruct (area_lookup z o H Ho) as (a & _ & Hrd & Hfl & _).
  destruct tail.
  - destruct (area_add_gen z o p (fl z o ++ [p]) H Ho Hn) as (z' & E & R); [auto|].
    exists z'. split; [|done]. unfold area_add_tail. by rewrite <- E, Hrd, Hfl.
  - destruct (area_add_gen z o p (p :: fl z o) H Ho Hn) as (z' & E & R); [auto|].
    exists z'. split; [|done]. unfold area_add. by rewrite <- E, Hrd, Hfl.
Qed.

Lemma page_sat_insert_ne M p pg q P : q <> p -> page_sat M q P -> page_sat (<[p := pg]> M) q P.
Proof. intros Hne (x & E & Hx). exists x. by rewrite lookup_insert_ne. Qed.

Lemma page_sat_insert_eq M p pg (P : page -> Prop) : P pg -> page_sat (<[p := pg]> M) p P.
Proof. intros H. exists pg. by rewrite lookup_insert_eq. Qed.

Lemma not_free_block z o p q : ~ is_free_page z q -> is_block z o p -> ~ in_blk p o q.
Proof. intros Hn Hb Hi. apply Hn. by exists o, p. Qed.

Lemma remove_block M zid z o p :
  buddy_inv M zid z -> is_block z o p ->
  exists z' pg, area_del z o p = Ret z' /\ rmv_page_order M p = Ret (<[p := pg]> M) /\
    buddy_inv (<[p := pg]> M) zid z' /\ held (<[p := pg]> M) zid z' o p /\ same_zone z z' /\
    forall o' p', is_block z' o' p' <-> is_block z o' p' /\ ~ (o' = o /\ p' = p).
Proof.
  intros H Hb. pose proof (bi_block _ _ _ H o p Hb) as (Hal & (pg0 & E0 & Hh) & Hi).
  destruct (area_del_ok z o p (buddy_lists _ _ _ H) Hb) as (z' & Hd & Hlo & Hsz & HB).
  destruct (clear_buddy _ _ _ Hh) as (pg1 & Hc & Hidle).
  exists z', (set_private pg1 0). split; [done|].
  assert (Hu : forall o' p' q, is_block z' o' p' -> in_blk p' o' q -> ~ in_blk p o q).
  { intros o' p' q Hb' Hq Hp. apply HB in Hb' as [Hb' Hne]. apply Hne.
    by apply (block_unique _ _ _ _ _ _ _ _ H Hb' Hb Hq Hp). }
  pose proof (in_blk_head p o (proj1 (proj1 Hb))) as Hpp.
  split_and!; [|split|split|done|done].
  - unfold rmv_page_order, page_at. by rewrite E0, bind_ret, Hc, bind_ret.
  - apply (bi_zid _ _ _ H).
  - apply (lo_len _ Hlo).
  - apply (lo_lists _ Hlo).
  - intros o' p' Hb'. pose proof (Hu o' p' p Hb') as Hn.
    pose proof (in_blk_head p' o' (proj1 (proj1 Hb'))) as Hpp'.
    assert (Hp' : p' <> p) by (intros ->; by apply Hn).
    apply HB in Hb' as [Hb' _]. destruct (bi_block _ _ _ H o' p' Hb') as (A1 & A2 & A3).
    split_and!; [done|by apply page_sat_insert_ne|].
    intros q Hq. apply page_sat_insert_ne; [|by apply A3].
    intros ->. apply Hn; [|done]. unfold in_blk. lia.
  - intros q pg Hq Hbud Hz. destruct (Z.eq_dec q p) as [->|Hne].
    + rewrite lookup_insert_eq in Hq. injection Hq as <-.
      by rewrite (idle_not_buddy _ _ Hidle) in Hbud.
    + rewrite lookup_insert_ne in Hq by done. destruct (bi_head _ _ _ H q pg Hq Hbud Hz) as [o' Hb'].
      exists o'. apply HB. split; [done|]. by intros [_ ?].
  - intros o' p' Ho' Hb' Hbb. apply HB in Hb' as [Hb' _], Hbb as [Hbb _].
    by apply (bi_coalesced _ _ _ H o' p').
  - intros q pg Hq Hbud. destruct (Z.eq_dec q p) as [->|Hne].
    + rewrite lookup_insert_eq in Hq. injection Hq as <-.
      by rewrite (idle_not_buddy _ _ Hidle) in Hbud.
    + rewrite lookup_insert_ne in Hq by done. by apply (bi_sane _ _ _ H q).
  - apply Hb.
  - done.
  - intros q Hq. destruct (Z.eq_dec q p) as [->|Hne]; [by apply page_sat_insert_eq|].
    apply page_sat_insert_ne; [done|]. apply Hi. unfold in_blk in Hq. lia.
  - intros q Hq (o' & p' & Hb' & Hq'). by apply (Hu o' p' q).
Qed.

Lemma add_block M zid z o p (tail : bool) :
  buddy_inv M zid z -> held M zid z o p ->
  (o < MAX_ORDER - 1 -> ~ is_block z o (__find_buddy_pfn p o)) ->
  exists z' pg, (if tail then area_add_tail z o p else area_add z o p) = Ret z' /\
    set_page_order M p o = Ret (<[p := pg]> M) /\
    buddy_inv (<[p := pg]> M) zid z' /\ same_zone z z' /\
    forall o' p', is_block z' o' p' <-> is_block z o' p' \/ (o' = o /\ p' = p).
Proof.
  intros H Hh Hnb. pose proof (held_order _ _ _ _ _ Hh) as Ho.
  pose proof (in_blk_head p o (proj1 Ho)) as Hpp.
  assert (Hp : ~ is_block z o p).
  { intros Hb. by apply (held_apart _ _ _ _ _ Hh p Hpp); exists o, p. }
  destruct (area_add_ok z o p tail (buddy_lists _ _ _ H) Ho Hp) as (z' & Hd & Hlo & Hsz & HB).
  destruct (held_pages _ _ _ _ _ Hh p Hpp) as (pg0 & E0 & Hidle).
  destruct (set_buddy zid o pg0 Hidle) as (pg1 & Hs & Hhead).
  exists z', pg1. split; [done|].
  split_and!; [|split|done|done].
  - unfold set_page_order, page_at. by rewrite E0, bind_ret, Hs, bind_ret.
  - apply (bi_zid _ _ _ H).
  - apply (lo_len _ Hlo).
  - apply (lo_lists _ Hlo).
  - intros o' p' Hb'. apply HB in Hb' as [Hb'|[-> ->]].
    + destruct (bi_block _ _ _ H o' p' Hb') as (A1 & A2 & A3).
      pose proof (not_free_block z o' p' p (held_apart _ _ _ _ _ Hh p Hpp) Hb') as Hn.
      pose proof (in_blk_head p' o' (proj1 (proj1 Hb'))) as Hpp'.
      split_and!; [done| |].
      * apply page_sat_insert_ne; [|done]. intros ->. by apply Hn.
      * intros q Hq. apply page_sat_insert_ne; [|by apply A3].
        intros ->. apply Hn. unfold in_blk. lia.
    + split_and!; [apply (held_align _ _ _ _ _ Hh)|by apply page_sat_insert_eq|].
      intros q Hq. apply page_sat_insert_ne; [lia|]. apply (held_pages _ _ _ _ _ Hh).
      unfold in_blk. lia.
  - intros q pg Hq Hbud Hz. destruct (Z.eq_dec q p) as [->|Hne]; [exists o; apply HB; auto|].
    rewrite lookup_insert_ne in Hq by done. destruct (bi_head _ _ _ H q pg Hq Hbud Hz) as [o' Hb'].
    exists o'. apply HB. by left.
  - intros o' p' Ho' Hb' Hbb. apply HB in Hb' as [Hb'|[-> ->]], Hbb as [Hbb|[E1 E2]].
    + by apply (bi_coalesced _ _ _ H o' p').
    + subst o'. apply Hnb; [done|]. by rewrite <- E2, buddy_involutive.
    + by apply Hnb.
    + revert E2. apply buddy_neq; [lia|]. apply (held_align _ _ _ _ _ Hh).
  - intros q pg Hq Hbud. destruct (Z.eq_dec q p) as [->|Hne].
    + rewrite lookup_insert_eq in Hq. injection Hq as <-.
      split; [apply (head_ref _ _ _ Hhead)|apply (head_chead _ _ _ Hhead)].
    + rewrite lookup_insert_ne in Hq by done. by apply (bi_sane _ _ _ H q).
Qed.
