(* ===== verification/BuddyOps.v ===== *)
(** * Freeing and taking blocks

    [__free_one_page] and [__rmqueue_smallest] on a zone that satisfies
    [buddy_inv]: both are total, preserve the invariant, and change the set of
    free pages by exactly the block concerned. *)

From stdpp Require Import base numbers list option gmap.
From Stdlib Require Import ZArith Lia.
From S2P Require Import Prelude Memblock Page PageAlloc BuddyFacts.

(** Page maps that differ only on pages of [S], with the same domain. *)
Definition agree_off (S : Z -> Prop) (M M' : mem_map) : Prop :=
  (forall q, ~ S q -> M' !! q = M !! q) /\ (forall q, is_Some (M' !! q) <-> is_Some (M !! q)).

Lemma agree_refl S M : agree_off S M M.
Proof. done. Qed.

Lemma agree_trans (S1 S2 S : Z -> Prop) M1 M2 M3 :
  agree_off S1 M1 M2 -> agree_off S2 M2 M3 ->
  (forall q, S1 q \/ S2 q -> S q) -> agree_off S M1 M3.
Proof.
  intros [A1 D1] [A2 D2] HS. split.
  - intros q Hq. rewrite A2, A1; [done| |]; intros ?; apply Hq, HS; auto.
  - intros q. by rewrite D2.
Qed.

Lemma agree_insert (S : Z -> Prop) M p pg :
  is_Some (M !! p) -> S p -> agree_off S M (<[p := pg]> M).
Proof.
  intros Hs Hp. split.
  - intros q Hq. apply lookup_insert_ne. by intros ->.
  - intros q. destruct (Z.eq_dec q p) as [->|Hne].
    + rewrite lookup_insert_eq. split; eauto.
    + by rewrite lookup_insert_ne.
Qed.

Lemma page_sat_some M q P : page_sat M q P -> is_Some (M !! q).
Proof. intros (pg & -> & _). eauto. Qed.

Lemma held_some M zid z o p : held M zid z o p -> is_Some (M !! p).
Proof.
  intros H. apply (page_sat_some _ _ (idle zid)), (held_pages _ _ _ _ _ H), in_blk_head.
  apply (held_order _ _ _ _ _ H).
Qed.

(** ** The combined block *)

Lemma in_blk_halves p o q :
  0 <= o -> in_blk p (o + 1) q <-> in_blk p o q \/ in_blk (p + 2 ^ o) o q.
Proof. intros Ho. unfold in_blk. rewrite Z.pow_add_r, Z.pow_1_r by lia. lia. Qed.

Lemma combined_blk p o q :
  0 <= o -> (2 ^ o | p) ->
  in_blk (Z.land (__find_buddy_pfn p o) p) (o + 1) q <->
  in_blk p o q \/ in_blk (__find_buddy_pfn p o) o q.
Proof.
  intros Ho Hd. destruct (buddy_halves o p Ho Hd) as [_ Hc]. rewrite in_blk_halves by done.
  revert Hc. generalize (Z.land (__find_buddy_pfn p o) p). generalize (__find_buddy_pfn p o).
  intros b c [[-> ->]|[-> ->]]; tauto.
Qed.

Lemma held_combine M zid z o p :
  held M zid z o p -> held M zid z o (__find_buddy_pfn p o) -> o < MAX_ORDER - 1 ->
  held M zid z (o + 1) (Z.land (__find_buddy_pfn p o) p).
Proof.
  intros H1 H2 Ho. pose proof (held_order _ _ _ _ _ H1). pose proof (held_align _ _ _ _ _ H1) as Hd.
  split.
  - lia.
  - by destruct (buddy_halves o p) as [? _]; [lia|done|].
  - intros q Hq. apply combined_blk in Hq as [Hq|Hq]; [| |lia|done].
    + by apply (held_pages _ _ _ _ _ H1).
    + by apply (held_pages _ _ _ _ _ H2).
  - intros q Hq. apply combined_blk in Hq as [Hq|Hq]; [| |lia|done].
    + by apply (held_apart _ _ _ _ _ H1).
    + by apply (held_apart _ _ _ _ _ H2).
Qed.

(** The descriptor of a page outside the touched block is untouched, so a run
    held apart from it stays held. *)
Lemma held_insert M zid z z' o p x pg :
  held M zid z o p -> ~ in_blk p o x ->
  (forall q, in_blk p o q -> is_free_page z' q -> is_free_page z q) ->
  held (<[x := pg]> M) zid z' o p.
Proof.
  intros [H1 H2 H3 H4] Hx Hf. split; auto.
  - intros q Hq. apply page_sat_insert_ne; [|by apply H3]. by intros ->.
  - intros q Hq Hfree. by apply (H4 q Hq), Hf.
Qed.

(** ** Freeing *)

Lemma page_is_buddy_spec M zid z p b o :
  buddy_inv M zid z -> page_sat M p (idle zid) -> is_Some (M !! b) ->
  exists r, page_is_buddy M p b o = Ret r /\ (r = true <-> is_block z o b).
Proof.
  intros H (pg & Ep & Hp) [bd Eb]. pose proof (bi_zid _ _ _ H) as Hz.
  unfold page_is_buddy, page_at. rewrite Eb, bind_ret.
  assert (Hblk : is_block z o b -> head_of zid o bd).
  { intros Hb. destruct (bi_block _ _ _ H o b Hb) as (_ & (bd' & E & Hh) & _).
    rewrite Eb in E. by injection E as <-. }
  destruct (PageBuddy bd && (page_order bd =? o)) eqn:E.
  - apply andb_true_iff in E as [E1 E2]. apply Z.eqb_eq in E2.
    rewrite Ep, bind_ret, (zone_id_of_flags zid pg Hz (idle_flags _ _ Hp)).
    destruct (Z.eqb_spec zid (page_zone_id bd)) as [Ez|Ez]; simpl.
    + destruct (bi_head _ _ _ H b bd Eb E1 (eq_sym Ez)) as [o' Hb'].
      destruct (bi_block _ _ _ H o' b Hb') as (_ & (bd' & E & Hh) & _).
      rewrite Eb in E. injection E as <-. pose proof (head_private _ _ _ Hh) as Eo.
      unfold page_order in E2. rewrite <- Eo, E2 in Hb'.
      unfold page_count, page_at, compound_head. rewrite Eb, bind_ret, (head_chead _ _ _ Hh).
      rewrite Eb, bind_ret, (head_ref _ _ _ Hh). simpl. by exists true.
    + exists false. split; [done|]. split; [done|]. intros Hb. exfalso. apply Ez.
      by rewrite (zone_id_of_flags zid bd Hz (head_flags _ _ _ (Hblk Hb))).
  - exists false. split; [done|]. split; [done|]. intros Hb. exfalso.
    specialize (Hblk Hb). rewrite (head_PageBuddy _ _ _ Hblk) in E. simpl in E.
    apply Z.eqb_neq in E. by apply E, (head_private _ _ _ Hblk).
Qed.

Section free.
Context `{PfnMap}.

(** The architecture knows exactly the frames that have a descriptor. *)
Definition mapped (M : mem_map) : Prop := forall p, pfn_valid p = true <-> is_Some (M !! p).

Lemma mapped_agree S M M' : mapped M -> agree_off S M M' -> mapped M'.
Proof. intros Hm [_ Hd] p. rewrite (Hm p). symmetry. apply Hd. Qed.

(** What [__free_one_page] promises. *)
Definition free_effect (zid : Z) (M : mem_map) (z : zone) (p o : Z) (M' : mem_map) (z' : zone) : Prop :=
  buddy_inv M' zid z' /\ same_zone z z' /\
  (forall q, is_free_page z' q <-> is_free_page z q \/ in_blk p o q) /\
  agree_off (is_free_page z') M M'.

(** The state of the merge loop: the block [pfn, pfn + 2^order) is held, and
    together with the free pages it makes up the final free set. *)
Record merge_inv (zid : Z) (M0 : mem_map) (z0 : zone) (p0 o0 : Z)
    (st : mem_map * zone * Z * Z * Z) : Prop := {
  mi_buddy : buddy_inv st.1.1.1.1 zid st.1.1.1.2;
  mi_same : same_zone z0 st.1.1.1.2;
  mi_held : held st.1.1.1.1 zid st.1.1.1.2 st.1.2 st.1.1.2;
  mi_free : forall q, (is_free_page st.1.1.1.2 q \/ in_blk st.1.1.2 st.1.2 q) <->
                      (is_free_page z0 q \/ in_blk p0 o0 q);
  mi_agree : agree_off (fun q => is_free_page z0 q \/ in_blk p0 o0 q) M0 st.1.1.1.1;
}.

(** How the merge loop ends: the block cannot be merged further. *)
Definition merge_done (st : mem_map * zone * Z * Z * Z) : Prop :=
  st.1.2 < MAX_ORDER - 1 ->
  ~ is_block st.1.1.1.2 st.1.2 (__find_buddy_pfn st.1.1.2 st.1.2) /\
  st.2 = __find_buddy_pfn st.1.1.2 st.1.2.

Lemma is_free_del z z' o p q :
  (forall o' p', is_block z' o' p' <-> is_block z o' p' /\ ~ (o' = o /\ p' = p)) ->
  is_free_page z' q -> is_free_page z q.
Proof. intros HB (o' & p' & Hb & Hq). exists o', p'. split; [|done]. by apply HB in Hb as [? _]. Qed.

(** Taking a block off the lists frees its pages and no others. *)
Lemma is_free_del_iff M zid z z' o p q :
  buddy_inv M zid z -> is_block z o p ->
  (forall o' p', is_block z' o' p' <-> is_block z o' p' /\ ~ (o' = o /\ p' = p)) ->
  is_free_page z' q <-> is_free_page z q /\ ~ in_blk p o q.
Proof.
  intros Hi Hb HB. split.
  - intros Hf. split; [by apply (is_free_del z z' o p)|]. intros Hq.
    destruct Hf as (o' & p' & Hb' & Hq'). apply HB in Hb' as [Hb' Hn]. apply Hn.
    by apply (block_unique _ _ _ _ _ _ _ q Hi).
  - intros [(o' & p' & Hb' & Hq') Hn]. exists o', p'. split; [|done]. apply HB. split; [done|].
    by intros [-> ->].
Qed.

Lemma is_free_add_iff z z' o p q :
  (forall o' p', is_block z' o' p' <-> is_block z o' p' \/ (o' = o /\ p' = p)) ->
  is_free_page z' q <-> is_free_page z q \/ in_blk p o q.
Proof.
  intros HB. split.
  - intros (o' & p' & Hb & Hq). apply HB in Hb as [Hb|[-> ->]]; [left|by right]. by exists o', p'.
  - intros [(o' & p' & Hb & Hq)|Hq]; [exists o', p'|exists o, p]; (split; [|done]); apply HB; auto.
Qed.

Lemma merge_turn_ok zid M0 z0 p0 o0 st :
  mapped M0 -> merge_inv zid M0 z0 p0 o0 st ->
  returns (merge_turn st) (fun r =>
    match r with
    | inl st' => merge_inv zid M0 z0 p0 o0 st' /\ st'.1.2 = st.1.2 + 1
    | inr st' => merge_inv zid M0 z0 p0 o0 st' /\ merge_done st'
    end).
Proof.
  destruct st as [[[[M z] p] o] b0]. intros Hmap [Hi Hs Hh Hf Ha]. simpl in *.
  pose proof (held_order _ _ _ _ _ Hh) as Ho. pose proof (held_align _ _ _ _ _ Hh) as Hd.
  assert (Hstay : merge_inv zid M0 z0 p0 o0 (M, z, p, o, b0)) by (by split).
  destruct (Z.ltb_spec o (MAX_ORDER - 1)) as [Hlt|Hge].
  2:{ simpl. split; [by split|]. intros ?. simpl in *. lia. }
  set (b := __find_buddy_pfn p o). pose proof (mapped_agree _ _ _ Hmap Ha) as Hm.
  destruct (pfn_valid b) eqn:Ev; simpl.
  2:{ split; [by split|]. intros _. simpl. split; [|done]. intros Hb.
      destruct (bi_block _ _ _ Hi o b Hb) as (_ & Hp & _). apply page_sat_some, Hm in Hp. congruence. }
  apply Hm in Ev as Eb.
  destruct (page_is_buddy_spec M zid z p b o Hi) as (r & -> & Hr); [|done|].
  { apply (held_pages _ _ _ _ _ Hh). apply in_blk_head; lia. }
  rewrite bind_ret. destruct r; simpl.
  2:{ split; [by split|]. intros _. simpl. split; [|done]. intros Hb. by apply Hr in Hb. }
  destruct (remove_block M zid z o b Hi (proj1 Hr eq_refl))
    as (z' & pg & -> & -> & Hi' & Hh' & Hs' & HB).
  rewrite !bind_ret. simpl.
  assert (Hfd : forall q, is_free_page z' q <-> is_free_page z q /\ ~ in_blk b o q).
  { intros q. apply (is_free_del_iff M zid z z' o b q Hi); [by apply Hr|done]. }
  assert (Hpb : ~ in_blk p o b).
  { intros Hq. apply (held_apart _ _ _ _ _ Hh b Hq). exists o, b.
    split; [by apply Hr|]. apply in_blk_head; lia. }
  assert (Hfb : is_free_page z b).
  { exists o, b. split; [by apply Hr|]. apply in_blk_head; lia. }
  split; [|done]. split; simpl.
  - done.
  - by apply (same_zone_trans _ z).
  - apply held_combine; [|done|done]. apply (held_insert M zid z); [done|done|].
    intros q _ Hq. by apply Hfd in Hq as [? _].
  - intros q. unfold b in *. rewrite (combined_blk p o q (proj1 Ho) Hd), Hfd, <- Hf.
    destruct (decide (in_blk b o q)) as [Hq|Hq]; [|tauto]. split; [|tauto].
    intros _. left. exists o, b. split; [by apply Hr|done].
  - eapply agree_trans; [exact Ha|by apply (agree_insert (eq b))|]. simpl.
    intros q [?|<-]; [done|]. apply Hf. by left.
Qed.

Lemma page_is_buddy_total M zid z p b o :
  buddy_inv M zid z -> is_Some (M !! p) -> is_Some (M !! b) ->
  exists r, page_is_buddy M p b o = Ret r.
Proof.
  intros Hi [pg Ep] [bd Eb]. unfold page_is_buddy, page_at. rewrite Eb, bind_ret.
  destruct (PageBuddy bd && (page_order bd =? o)) eqn:E; [|by exists false].
  apply andb_true_iff in E as [E _]. destruct (bi_sane _ _ _ Hi b bd Eb E) as [Hr Hc].
  rewrite Ep, bind_ret. case_match; [by exists false|].
  unfold page_count, page_at, compound_head. rewrite Eb, bind_ret, Hc, Eb, bind_ret, Hr.
  by exists true.
Qed.

(** The test for the tail of the list reads valid descriptors only. *)
Lemma goes_to_tail_ok M zid z p o b :
  mapped M -> buddy_inv M zid z -> 0 <= o < MAX_ORDER -> (2 ^ o | p) ->
  is_Some (M !! p) -> (o < MAX_ORDER - 1 -> b = __find_buddy_pfn p o) ->
  exists r, goes_to_tail M p o b = Ret r.
Proof.
  intros Hm Hi Ho Hd Hp Hb. unfold goes_to_tail.
  destruct (Z.ltb_spec o (MAX_ORDER - 2)) as [Hlt|]; simpl; [|by exists false].
  rewrite Hb by lia. clear Hb. destruct (pfn_valid (__find_buddy_pfn p o)) eqn:Eb; [|by exists false].
  case_match eqn:Ec; [|by exists false]. apply Hm in Eb, Ec.
  apply (page_is_buddy_total M zid z); [done| |done].
  destruct (buddy_halves o p (proj1 Ho) Hd) as [_ [[E _]|[_ E]]]; by rewrite <- E.
Qed.

Lemma loop_merge zid M0 z0 p0 o0 :
  mapped M0 -> buddy_inv M0 zid z0 -> held M0 zid z0 o0 p0 ->
  returns (loop (Z.to_nat MAX_ORDER) merge_turn (M0, z0, p0, o0, 0)) (fun st =>
    merge_inv zid M0 z0 p0 o0 st /\ merge_done st).
Proof.
  intros Hm Hi Hh. pose proof (held_order _ _ _ _ _ Hh) as Ho.
  apply loop_returns with (I := merge_inv zid M0 z0 p0 o0)
    (m := fun st => Z.to_nat (MAX_ORDER - 1 - st.1.2)).
  - split; simpl; [done|apply same_zone_refl|done|done|apply agree_refl].
  - simpl. unfold MAX_ORDER in *. lia.
  - intros st Hst. eapply returns_mono; [by apply (merge_turn_ok zid M0 z0 p0 o0)|].
    intros [st'|st']; [|done]. intros [Hst' E]. split; [done|].
    pose proof (held_order _ _ _ _ _ (mi_held _ _ _ _ _ _ Hst)).
    pose proof (held_order _ _ _ _ _ (mi_held _ _ _ _ _ _ Hst')). 
    unfold MAX_ORDER in *. lia.
Qed.

(** Freeing a held block puts exactly its pages into the free set. *)
Lemma free_one_page_ok M zid z p o :
  mapped M -> buddy_inv M zid z -> initialized z = true -> held M zid z o p ->
  exists M' z', __free_one_page M z p o = Ret (M', z') /\ free_effect zid M z p o M' z'.
Proof.
  intros Hm Hi Hinit Hh. pose proof (held_order _ _ _ _ _ Hh) as Ho.
  destruct (held_pages _ _ _ _ _ Hh p (in_blk_head p o (proj1 Ho))) as (pg & Ep & Hpg).
  assert (Ez : Z.land p (Z.shiftl 1 o - 1) = 0).
  { replace (Z.shiftl 1 o - 1) with (Z.ones o) by (rewrite Z.ones_equiv, Z.shiftl_1_l; lia).
    rewrite Z.land_ones by lia. apply Z.mod_divide, (held_align _ _ _ _ _ Hh).
    pose proof (pow2_pos o (proj1 Ho)). lia. }
  unfold __free_one_page, page_at. rewrite BUG_ON_false by (by rewrite Hinit). rewrite Ep, bind_ret.
  rewrite BUG_ON_false
    by (by rewrite (flags_prep_clear zid pg (bi_zid _ _ _ Hi) (idle_flags _ _ Hpg))).
  rewrite BUG_ON_false by (by rewrite Ez).
  destruct (returns_inv _ _ (loop_merge zid M z p o Hm Hi Hh))
    as ([[[[M1 z1] p1] o1] b1] & -> & [Hi1 Hs1 Hh1 Hf1 Ha1] & Hdone).
  rewrite bind_ret. unfold merge_done in Hdone. simpl in *.
  pose proof (held_order _ _ _ _ _ Hh1) as Ho1.
  assert (Hnb : o1 < MAX_ORDER - 1 -> ~ is_block z1 o1 (__find_buddy_pfn p1 o1)) by (intros; by apply Hdone).
  destruct (add_block M1 zid z1 o1 p1 false Hi1 Hh1 Hnb) as (z2 & pg' & _ & Hset & Hi2 & _).
  rewrite Hset, bind_ret. set (M2 := <[p1 := pg']> M1) in *.
  assert (Hag : agree_off (eq p1) M1 M2) by (by apply agree_insert; [apply (held_some _ _ _ _ _ Hh1)|]).
  destruct (goes_to_tail_ok M2 zid z2 p1 o1 b1) as (tl & ->); [| | | | |by intros ?; apply Hdone|].
  { apply (mapped_agree _ M1 M2 (mapped_agree _ M M1 Hm Ha1) Hag). }
  { done. }
  { done. }
  { apply (held_align _ _ _ _ _ Hh1). }
  { apply Hag, (held_some _ _ _ _ _ Hh1). }
  rewrite bind_ret.
  destruct (add_block M1 zid z1 o1 p1 tl Hi1 Hh1 Hnb) as (z3 & pg3 & Hadd & Hset3 & Hi3 & Hs3 & HB3).
  rewrite Hset in Hset3. injection Hset3 as E3. fold M2 in E3. rewrite <- E3 in Hi3.
  rewrite Hadd, bind_ret. exists M2, z3. split; [done|].
  assert (Hfree : forall q, is_free_page z3 q <-> is_free_page z q \/ in_blk p o q).
  { intros q. by rewrite (is_free_add_iff z1 z3 o1 p1 q HB3), Hf1. }
  split_and!; [done|by apply (same_zone_trans _ z1)|done|].
  apply (agree_trans _ _ _ _ _ _ Ha1 Hag). intros q [Hq|<-]; apply Hfree; [done|].
  apply Hf1. right. apply in_blk_head. lia.
Qed.
End free.

(** ** Taking a block *)

(** The state of [expand]: the block [page, page + 2^high) is held. *)
Record expand_inv (zid : Z) (M0 : mem_map) (z0 : zone) (p h0 : Z)
    (st : mem_map * zone * Z * Z) : Prop := {
  ei_buddy : buddy_inv st.1.1.1 zid st.1.1.2;
  ei_same : same_zone z0 st.1.1.2;
  ei_held : held st.1.1.1 zid st.1.1.2 st.1.2 p;
  ei_size : st.2 = 2 ^ st.1.2;
  ei_free : forall q, (is_free_page st.1.1.2 q \/ in_blk p st.1.2 q) <->
                      (is_free_page z0 q \/ in_blk p h0 q);
  ei_agree : agree_off (in_blk p h0) M0 st.1.1.1;
  ei_le : st.1.2 <= h0;
}.

(** A held block of order [o + 1] is two held blocks of order [o]. *)
Lemma held_halves M zid z o p :
  held M zid z (o + 1) p -> 0 <= o ->
  held M zid z o p /\ held M zid z o (p + 2 ^ o) /\ __find_buddy_pfn (p + 2 ^ o) o = p.
Proof.
  intros [Ho Hd Hp Ha] H0. pose proof (pow2_pos o H0).
  assert (Hd1 : (2 ^ o | p)).
  { destruct Hd as [k ->]. exists (2 * k). rewrite Z.pow_add_r, Z.pow_1_r by lia. lia. }
  assert (Hd2 : (2 ^ o | p + 2 ^ o)) by (apply Z.divide_add_r; [done|apply Z.divide_refl]).
  split_and!.
  - split; [lia|done| |]; intros q Hq; [apply Hp|apply Ha]; apply in_blk_halves; auto.
  - split; [lia|done| |]; intros q Hq; [apply Hp|apply Ha]; apply in_blk_halves; auto.
  - destruct (buddy_halves o (p + 2 ^ o) H0 Hd2) as [Hc [[E1 E2]|[E1 E2]]]; [|lia].
    exfalso. rewrite <- E1 in Hc. destruct Hd as [k Ek], Hc as [j Ej].
    rewrite Z.pow_add_r, Z.pow_1_r in Ek, Ej by lia. subst p.
    assert ((2 * k + 1) * 2 ^ o = 2 * j * 2 ^ o) by lia.
    assert (2 * k + 1 = 2 * j) by (apply (Z.mul_reg_r _ _ (2 ^ o)); lia). lia.
Qed.

Lemma expand_turn_ok zid M0 z0 p h0 low st :
  0 <= low -> expand_inv zid M0 z0 p h0 st -> low <= st.1.2 ->
  returns (expand_turn p low st) (fun r =>
    match r with
    | inl st' => expand_inv zid M0 z0 p h0 st' /\ st'.1.2 = st.1.2 - 1 /\ low <= st'.1.2
    | inr (M, z) => expand_inv zid M0 z0 p h0 (M, z, low, 2 ^ low)
    end).
Proof.
  destruct st as [[[M z] h] sz]. intros Hlow Hst Hle. pose proof Hst as [Hi Hs Hh Hsz Hf Ha Hhle].
  simpl in *. subst sz. destruct (Z.ltb_spec low h) as [Hlt|Hge].
  2:{ assert (h = low) as -> by lia. done. }
  pose proof (held_order _ _ _ _ _ Hh) as Ho.
  assert (E2 : Z.shiftr (2 ^ h) 1 = 2 ^ (h - 1)).
  { rewrite Z.shiftr_div_pow2, <- Z.pow_sub_r by lia. done. }
  rewrite E2. replace h with (h - 1 + 1) in Hh by lia.
  destruct (held_halves M zid z (h - 1) p Hh ltac:(lia)) as (H1 & H2 & Hb).
  assert (Hp : ~ is_block z (h - 1) p).
  { intros Hblk. apply (held_apart _ _ _ _ _ H1 p); [apply in_blk_head; lia|].
    exists (h - 1), p. split; [done|]. apply in_blk_head. lia. }
  destruct (add_block M zid z (h - 1) (p + 2 ^ (h - 1)) false Hi H2) as
    (z' & pg & Hadd & Hset & Hi' & Hs' & HB); [by rewrite Hb|].
  rewrite Hadd, bind_ret, Hset, bind_ret. simpl. split; [|lia].
  assert (Hout : forall q, in_blk p (h - 1) q -> ~ in_blk (p + 2 ^ (h - 1)) (h - 1) q)
    by (intros q; unfold in_blk; lia).
  assert (Hin : in_blk (p + 2 ^ (h - 1)) (h - 1) (p + 2 ^ (h - 1))) by (apply in_blk_head; lia).
  assert (Hhalf : forall q, in_blk p h q <-> in_blk p (h - 1) q \/ in_blk (p + 2 ^ (h - 1)) (h - 1) q).
  { intros q. replace h with (h - 1 + 1) at 1 by lia. apply in_blk_halves. lia. }
  assert (Hfree : forall q, is_free_page z' q <-> is_free_page z q \/ in_blk (p + 2 ^ (h - 1)) (h - 1) q)
    by (intros q; by apply is_free_add_iff).
  split; simpl; [done|by apply (same_zone_trans _ z)| |done| | |lia].
  - apply (held_insert M zid z); [done|intros Hq; by apply (Hout _ Hq)|].
    intros q Hq Hf'. apply Hfree in Hf' as [?|Hf']; [done|]. by apply Hout in Hq.
  - intros q. rewrite Hfree, <- Hf, Hhalf. tauto.
  - apply (agree_trans (in_blk p h0) (eq (p + 2 ^ (h - 1))) _ _ M); [exact Ha| |].
    + apply agree_insert; [by apply (held_some _ _ _ _ _ H2)|done].
    + intros q [?|<-]; [done|]. unfold in_blk in *. 
      pose proof (Z.pow_le_mono_r 2 h h0 ltac:(lia) Hhle). specialize (Hhalf (p + 2 ^ (h - 1))). lia.
Qed.

Lemma expand_ok M zid z p low high :
  buddy_inv M zid z -> held M zid z high p -> 0 <= low <= high ->
  exists M' z', expand M z p low high = Ret (M', z') /\
    expand_inv zid M z p high (M', z', low, 2 ^ low).
Proof.
  intros Hi Hh Hl. unfold expand.
  assert (Hr : returns (loop (Z.to_nat (high - low) + 1) (expand_turn p low) (M, z, high, Z.shiftl 1 high))
    (fun '(M', z') => expand_inv zid M z p high (M', z', low, 2 ^ low))).
  { apply loop_returns with (m := fun st => Z.to_nat (st.1.2 - low))
      (I := fun st => expand_inv zid M z p high st /\ low <= st.1.2).
    - split; [|simpl; lia]. split; simpl; [done|apply same_zone_refl|done| |done|apply agree_refl|lia].
      apply Z.shiftl_1_l.
    - simpl. lia.
    - intros st [Hst Hle]. eapply returns_mono; [apply (expand_turn_ok zid M z p high low); [lia|done|done]|].
      intros [st'|[M' z']]; [|done]. intros (? & E & ?). split; [done|]. lia. }
  destruct (returns_inv _ _ Hr) as ([M' z'] & -> & H'). eauto.
Qed.

(** What taking the block [p] of order [o] out of the zone means. *)
Record take_effect (zid : Z) (M : mem_map) (z : zone) (p o : Z) (M' : mem_map) (z' : zone) : Prop := {
  te_buddy : buddy_inv M' zid z';
  te_same : same_zone z z';
  te_held : held M' zid z' o p;
  te_free : forall q, is_free_page z q <-> is_free_page z' q \/ in_blk p o q;
  te_agree : agree_off (is_free_page z) M M';
}.

(** No free block of order at least [o]. *)
Definition exhausted (z : zone) (o : Z) : Prop := forall o' p, o <= o' -> ~ is_block z o' p.

Lemma rmqueue_turn_ok M zid z o c :
  buddy_inv M zid z -> 0 <= o <= c -> c <= MAX_ORDER ->
  (forall o' p, o <= o' < c -> ~ is_block z o' p) ->
  returns (rmqueue_turn M z o c) (fun r =>
    match r with
    | inl c' => c' = c + 1 /\ c < MAX_ORDER /\ (forall o' p, o <= o' < c' -> ~ is_block z o' p)
    | inr None => exhausted z o
    | inr (Some (M', z', p)) => take_effect zid M z p o M' z' /\ is_block z c p
    end).
Proof.
  intros Hi Ho Hc Hnone. unfold rmqueue_turn. destruct (Z.ltb_spec c MAX_ORDER) as [Hlt|Hge].
  2:{ simpl. intros o' p Ho' Hb. destruct (Z.lt_ge_cases o' c); [by apply (Hnone o' p)|].
      destruct Hb as [Hb _]. lia. }
  destruct (area_lookup z c (buddy_lists _ _ _ Hi) ltac:(lia)) as (a & _ & -> & Hfl & _).
  rewrite bind_ret. destruct (free_list a) as [|p l] eqn:El.
  { simpl. split_and!; [done|done|]. intros o' p Ho' Hb.
    destruct (Z.eq_dec o' c) as [->|]; [|apply (Hnone o' p); [lia|done]].
    destruct Hb as [_ Hb]. rewrite Hfl in Hb. by apply not_elem_of_nil in Hb. }
  assert (Hb : is_block z c p) by (split; [lia|]; rewrite Hfl; left).
  destruct (remove_block M zid z c p Hi Hb) as (z1 & pg & -> & -> & Hi1 & Hh1 & Hs1 & HB1).
  rewrite !bind_ret.
  destruct (expand_ok _ zid z1 p o c Hi1 Hh1 Ho) as (M' & z' & -> & [Hi' Hs' Hh' _ Hf' Ha' _]).
  simpl in *. split; [|done].
  pose proof (fun q => is_free_del_iff M zid z z1 c p q Hi Hb HB1) as Hd.
  assert (Hin : forall q, in_blk p c q -> is_free_page z q) by (intros q Hq; by exists c, p).
  split; [done|by apply (same_zone_trans _ z1)|done| |].
  - intros q. rewrite Hf', Hd. destruct (decide (in_blk p c q)) as [Hq|Hq]; [|tauto].
    split; [by right|]. intros _. by apply Hin.
  - apply (agree_trans (eq p) (in_blk p c) _ _ (<[p := pg]> M)); [|done|].
    + apply agree_insert; [|done]. destruct (bi_block _ _ _ Hi c p Hb) as (_ & Hp & _).
      by apply page_sat_some in Hp.
    + intros q [<-|Hq]; apply Hin; [apply in_blk_head; lia|done].
Qed.

(** [__rmqueue_smallest] finds a block whenever one exists, splits off the
    requested order from a smallest sufficient block, and returns the rest. *)
Lemma rmqueue_smallest_ok M zid z o :
  buddy_inv M zid z -> 0 <= o < MAX_ORDER ->
  (__rmqueue_smallest M z o = Ret None /\ exhausted z o) \/
  (exists M' z' p c, __rmqueue_smallest M z o = Ret (Some (M', z', p)) /\
     take_effect zid M z p o M' z' /\ is_block z c p /\ o <= c /\
     forall o' p', o <= o' < c -> ~ is_block z o' p').
Proof.
  intros Hi Ho.
  assert (Hr : returns (__rmqueue_smallest M z o) (fun r =>
    match r with
    | None => exhausted z o
    | Some (M', z', p) => take_effect zid M z p o M' z' /\ exists c, is_block z c p /\ o <= c /\
        forall o' p', o <= o' < c -> ~ is_block z o' p'
    end)).
  { unfold __rmqueue_smallest. apply loop_returns with (m := fun c => Z.to_nat (MAX_ORDER - c))
      (I := fun c => o <= c <= MAX_ORDER /\ forall o' p, o <= o' < c -> ~ is_block z o' p).
    - split; [lia|]. intros; lia.
    - lia.
    - intros c [Hc Hn]. eapply returns_mono; [by apply (rmqueue_turn_ok M zid z o c); [|lia|lia|]|].
      intros [c'|[[[M' z'] p]|]]; simpl; [|intros [? ?]; eauto 10 with lia|done].
      intros (-> & ? & ?). split; [split; [lia|done]|lia]. }
  destruct (returns_inv _ _ Hr) as ([[[M' z'] p]|] & -> & HP); [right|by left].
  destruct HP as (? & c & ? & ? & ?). exists M', z', p, c. auto.
Qed.
