(* ===== verification/PagePcp.v ===== *)
(** * Per-CPU page lists over the buddy system

    Canonical form of a coalesced zone, the zone invariant that adds the per-CPU
    lists to [buddy_inv], and its preservation by bulk freeing and filling. *)

From stdpp Require Import base numbers list option gmap.
From Stdlib Require Import ZArith Lia.
From S2P Require Import Prelude Memblock Page PageAlloc BuddyFacts BuddyOps.

(** ** Coalesced zones are canonical *)

Lemma aligned_nested o p o' p' x q :
  0 <= o <= o' -> (2 ^ o | p) -> (2 ^ o' | p') ->
  in_blk p o x -> in_blk p' o' x -> in_blk p o q -> in_blk p' o' q.
Proof.
  intros Ho [a ->] [b ->] Hx Hx' Hq. unfold in_blk in *.
  assert (E : 2 ^ o' = 2 ^ (o' - o) * 2 ^ o) by (rewrite <- Z.pow_add_r by lia; f_equal; lia).
  rewrite E in *. set (d := 2 ^ o) in *. set (f := 2 ^ (o' - o)) in *.
  assert (0 < d) by (apply pow2_pos; lia). rewrite Z.mul_assoc in *. set (e := b * f) in *.
  assert (e < a + 1) by (apply (Z.mul_lt_mono_pos_r d); lia).
  assert (a < e + f) by (apply (Z.mul_lt_mono_pos_r d); lia).
  assert (e * d <= a * d) by (apply Z.mul_le_mono_nonneg_r; lia).
  assert ((a + 1) * d <= (e + f) * d) by (apply Z.mul_le_mono_nonneg_r; lia). lia.
Qed.

(** A free aligned region of a coalesced zone lies in one free block. *)
Lemma region_in_block M zid z : buddy_inv M zid z ->
  forall o, 0 <= o -> o < MAX_ORDER -> forall p, (2 ^ o | p) ->
  (forall q, in_blk p o q -> is_free_page z q) ->
  exists o' p', is_block z o' p' /\ o <= o' /\ in_blk p' o' p.
Proof.
  intros Hi o Ho. pattern o. apply natlike_ind; [| |exact Ho]; clear o Ho.
  { intros _ p _ Hf. destruct (Hf p) as (o' & p' & Hb & Hq); [by apply in_blk_head|].
    exists o', p'. split_and!; [done|apply Hb|done]. }
  intros o Ho IH Hlt p Hd Hf. rewrite <- Z.add_1_r in *.
  assert (Hd1 : (2 ^ o | p)) by (etransitivity; [|exact Hd]; rewrite Z.pow_add_r by lia; apply Z.divide_factor_l).
  assert (Hd2 : (2 ^ o | p + 2 ^ o)) by (apply Z.divide_add_r; [done|apply Z.divide_refl]).
  destruct (IH ltac:(lia) p Hd1) as (o1 & p1 & B1 & L1 & I1).
  { intros q Hq. apply Hf, in_blk_halves; auto. }
  destruct (IH ltac:(lia) (p + 2 ^ o) Hd2) as (o2 & p2 & B2 & L2 & I2).
  { intros q Hq. apply Hf, in_blk_halves; auto. }
  destruct (Z.eq_dec o1 o) as [->|]; [|exists o1, p1; split_and!; [done|lia|done]].
  destruct (bi_block _ _ _ Hi _ _ B1) as (A1 & _). destruct (bi_block _ _ _ Hi _ _ B2) as (A2 & _).
  assert (p1 = p) as ->.
  { pose proof (in_blk_head p o Ho) as X.
    pose proof (aligned_nested o p1 o p p p1 ltac:(lia) A1 Hd1 I1 X (in_blk_head p1 o Ho)).
    pose proof (aligned_nested o p o p1 p p ltac:(lia) Hd1 A1 X I1 X). unfold in_blk in *. lia. }
  destruct (Z.eq_dec o2 o) as [->|].
  - exfalso. assert (p2 = p + 2 ^ o) as ->.
    { pose proof (in_blk_head (p + 2 ^ o) o Ho) as X.
      pose proof (aligned_nested o p2 o _ _ p2 ltac:(lia) A2 Hd2 I2 X (in_blk_head p2 o Ho)).
      pose proof (aligned_nested o _ o p2 _ _ ltac:(lia) Hd2 A2 X I2 X). unfold in_blk in *. lia. }
    apply (bi_coalesced _ _ _ Hi o (p + 2 ^ o)); [lia|done|].
    destruct (buddy_halves o (p + 2 ^ o) Ho Hd2) as [Hc [[E1 E2]|[E1 E2]]].
    + exfalso. rewrite <- E1 in Hc. pose proof (Z.divide_add_cancel_r _ _ _ Hd Hc) as [k Hk].
      rewrite Z.pow_add_r, Z.pow_1_r in Hk by lia. pose proof (pow2_pos o Ho).
      assert (1 * 2 ^ o = k * 2 * 2 ^ o) by lia.
      assert (1 = k * 2) by (apply (Z.mul_reg_r _ _ (2 ^ o)); lia). lia.
    + by replace (__find_buddy_pfn (p + 2 ^ o) o) with p by lia.
  - exists o2, p2. split_and!; [done|lia|].
    apply (aligned_nested (o + 1) p o2 p2 (p + 2 ^ o)); auto; [lia| |apply in_blk_head; lia].
    apply in_blk_halves; [done|]. right. by apply in_blk_head.
Qed.

(** The free pages determine the free lists, up to order. *)
Lemma blocks_determined M zid z M' zid' z' :
  buddy_inv M zid z -> buddy_inv M' zid' z' ->
  (forall q, is_free_page z q <-> is_free_page z' q) ->
  forall o p, is_block z o p -> is_block z' o p.
Proof.
  intros Hi Hi' Hf o p Hb. pose proof (proj1 Hb) as Ho.
  destruct (bi_block _ _ _ Hi o p Hb) as (Hd & _).
  destruct (region_in_block M' zid' z' Hi' o ltac:(lia) ltac:(lia) p Hd) as (o1 & p1 & B1 & L1 & I1).
  { intros q Hq. apply Hf. by exists o, p. }
  destruct (bi_block _ _ _ Hi' o1 p1 B1) as (Hd1 & _). pose proof (proj1 B1) as Ho1.
  destruct (region_in_block M zid z Hi o1 ltac:(lia) ltac:(lia) p1 Hd1) as (o2 & p2 & B2 & L2 & I2).
  { intros q Hq. apply Hf. by exists o1, p1. }
  destruct (bi_block _ _ _ Hi o2 p2 B2) as (Hd2 & _). pose proof (proj1 B2) as Ho2.
  assert (I3 : in_blk p2 o2 p).
  { apply (aligned_nested o1 p1 o2 p2 p1); auto; [lia|apply in_blk_head; lia]. }
  destruct (block_unique _ _ _ _ _ _ _ p Hi Hb B2) as [-> ->]; [apply in_blk_head; lia|done|].
  assert (o1 = o2) as -> by lia.
  assert (p1 = p2) as ->; [|done].
  pose proof (aligned_nested o2 p2 o2 p1 p2 p2 ltac:(lia) Hd2 Hd1) as X.
  pose proof (in_blk_head p1 o2 ltac:(lia)). unfold in_blk in *. lia.
Qed.

(** ** The zone invariant *)

Definition pcp_pages (z : zone) : list Z := concat (plist <$> pageset z).

(** [pcp->count] is exact and a batch never exceeds what [high] guarantees. *)
Record pcp_ok (pcp : per_cpu_pages) : Prop := {
  po_count : pcount pcp = Z.of_nat (length (plist pcp));
  po_batch : 1 <= pbatch pcp;
  po_high : pbatch pcp <= phigh pcp \/ pbatch pcp = 1;
}.

Record zone_inv (M : mem_map) (zid : Z) (z : zone) : Prop := {
  zi_buddy : buddy_inv M zid z;
  zi_init : initialized z = true;
  zi_pcp : Forall pcp_ok (pageset z);
  zi_nodup : NoDup (pcp_pages z);
  zi_idle : forall p, p ∈ pcp_pages z -> page_sat M p (idle zid) /\ ~ is_free_page z p;
}.

(** The pages the zone can still hand out. *)
Definition zone_has (z : zone) (q : Z) : Prop := is_free_page z q \/ q ∈ pcp_pages z.

Lemma pcp_split z cpu pcp :
  pageset z !! cpu = Some pcp ->
  exists A B, pcp_pages z = A ++ plist pcp ++ B /\
    forall pcp', concat (plist <$> <[cpu := pcp']> (pageset z)) = A ++ plist pcp' ++ B.
Proof.
  intros H. exists (concat (plist <$> take cpu (pageset z))), (concat (plist <$> drop (S cpu) (pageset z))).
  split.
  - unfold pcp_pages. rewrite <- (take_drop_middle _ _ _ H) at 1.
    by rewrite fmap_app, concat_app, fmap_cons.
  - intros pcp'. rewrite insert_take_drop by (by apply lookup_lt_Some in H).
    by rewrite fmap_app, concat_app, fmap_cons.
Qed.

(** ** Moving pages from a per-CPU list to the buddy system *)

Lemma list_del_last (l : list Z) p : NoDup (l ++ [p]) -> list_del (l ++ [p]) p = Ret l.
Proof.
  intros H. unfold list_del. rewrite decide_True by (apply elem_of_app; right; left).
  apply NoDup_app in H as (_ & H & _). f_equal. rewrite remove_app. simpl.
  destruct (Z.eq_dec p p); [|done]. rewrite app_nil_r. apply remove_notin.
  intros Hp. apply (H p Hp). by left.
Qed.

Lemma bulk_turn_one pcp l p k :
  plist pcp = l ++ [p] -> NoDup (l ++ [p]) -> 0 < k < 2 ^ 31 -> 0 < pcount pcp < 2 ^ 31 ->
  forall hd fuel, loop (S fuel) bulk_turn (k, 1, pcp, hd) =
    Ret (k - 1, (if k =? 1 then 1 else 0),
         mk_pcp (pcount pcp - 1) (phigh pcp) (pbatch pcp) l, hd ++ [p]).
Proof.
  intros Hl Hn Hk Hc hd fuel. apply loop_inr. unfold bulk_turn.
  rewrite Hl, last_snoc, (list_del_last l p Hn), bind_ret, s32_small by lia.
  destruct (Z.eqb_spec k 1) as [->|Hne]; [done|].
  destruct (Z.eqb_spec (k - 1) 0); [lia|]. done.
Qed.

(** [free_pcppages_bulk] takes the last [count] pages of the list, last first. *)
Lemma bulk_rounds s : forall l pcp hd fuel,
  plist pcp = l ++ s -> NoDup (l ++ s) -> pcount pcp = Z.of_nat (length (l ++ s)) ->
  pcount pcp < 2 ^ 31 -> (length s < fuel)%nat ->
  loop fuel bulk_round (Z.of_nat (length s), 0, pcp, hd) =
    Ret (mk_pcp (Z.of_nat (length l)) (phigh pcp) (pbatch pcp) l, hd ++ rev s).
Proof.
  induction s as [|p s IH] using rev_ind; intros l pcp hd fuel Hl Hn Hc Hb Hf;
    (destruct fuel as [|fuel]; [lia|]).
  - rewrite app_nil_r in *. apply loop_inr. simpl. by destruct pcp; simpl in *; subst.
  - rewrite app_assoc in Hl, Hn, Hc. rewrite length_app in Hf. simpl in Hf.
    assert (Hlen : length ((l ++ s) ++ [p]) = S (length l + length s)) by (rewrite !length_app; simpl; lia).
    rewrite (loop_inl _ _ _ (Z.of_nat (length s), (if Z.of_nat (length (s ++ [p])) =? 1 then 1 else 0),
       mk_pcp (pcount pcp - 1) (phigh pcp) (pbatch pcp) (l ++ s), hd ++ [p])).
    2:{ unfold bulk_round. rewrite length_app. simpl length. zdec. rewrite Nat.add_1_r.
        rewrite (bulk_turn_one pcp (l ++ s) p) by (auto; lia). simpl.
        repeat f_equal; lia. }
    rewrite rev_app_distr. simpl rev. rewrite app_assoc.
    assert (E : pcount pcp - 1 = Z.of_nat (length (l ++ s))) by (rewrite Hc, Hlen, length_app; lia).
    rewrite E. destruct s as [|x s].
    + destruct fuel as [|fuel]; [simpl in Hf; lia|]. apply loop_inr. simpl. by rewrite !app_nil_r.
    + replace (Z.of_nat (length ((x :: s) ++ [p])) =? 1) with false
        by (symmetry; apply Z.eqb_neq; rewrite length_app; simpl; lia).
      rewrite (IH l) by (simpl; try done; try (rewrite ?length_app in *; simpl in *; lia);
        by apply NoDup_app in Hn as [? _]). done.
Qed.

(** ** Counting pages *)

Definition small (M : mem_map) : Prop := Z.of_nat (size M) < 2 ^ 31.

Lemma pages_bounded (M : mem_map) (l : list Z) :
  NoDup l -> (forall p, p ∈ l -> is_Some (M !! p)) -> (length l <= size M)%nat.
Proof.
  intros Hn Hs. rewrite <- (size_list_to_set (C := gset Z) l) by done.
  rewrite <- (size_dom (D := gset Z) M). apply subseteq_size. intros p Hp.
  apply elem_of_list_to_set in Hp. by apply elem_of_dom, Hs.
Qed.

Lemma size_agree S M M' : agree_off S M M' -> size M' = size M.
Proof.
  intros [_ Hd]. rewrite <- !(size_dom (D := gset Z)). f_equal. apply set_eq. intros p.
  rewrite !elem_of_dom. apply Hd.
Qed.

Lemma in_blk_0 p q : in_blk p 0 q <-> q = p.
Proof. unfold in_blk. lia. Qed.

Lemma held_page M zid z p :
  page_sat M p (idle zid) -> ~ is_free_page z p -> held M zid z 0 p.
Proof.
  intros Hp Hf. split; [unfold MAX_ORDER; lia|apply Z.divide_1_l| |]; intros q ->%in_blk_0; done.
Qed.

Section pcp.
Context `{PfnMap}.

Lemma free_each_ok zid l : forall M z,
  mapped M -> buddy_inv M zid z -> initialized z = true -> NoDup l ->
  (forall p, p ∈ l -> page_sat M p (idle zid) /\ ~ is_free_page z p) ->
  exists M' z', free_each M z l = Ret (M', z') /\ buddy_inv M' zid z' /\ same_zone z z' /\
    (forall q, is_free_page z' q <-> is_free_page z q \/ q ∈ l) /\
    agree_off (is_free_page z') M M'.
Proof.
  induction l as [|p l IH]; intros M z Hm Hi Hinit Hn Hl.
  { exists M, z. split_and!; [done|done|apply same_zone_refl| |apply agree_refl].
    intros q. rewrite elem_of_nil. tauto. }
  apply NoDup_cons in Hn as [Hp Hn]. destruct (Hl p ltac:(left)) as [Hpg Hpf].
  destruct (free_one_page_ok M zid z p 0 Hm Hi Hinit (held_page _ _ _ _ Hpg Hpf))
    as (M1 & z1 & E1 & Hi1 & Hs1 & Hf1 & Ha1).
  destruct (IH M1 z1) as (M2 & z2 & E2 & Hi2 & Hs2 & Hf2 & Ha2).
  - by apply (mapped_agree _ M M1 Hm Ha1).
  - done.
  - by rewrite Hs1.
  - done.
  - intros q Hq. destruct (Hl q ltac:(by right)) as [(pg & Eq & Hqg) Hqf].
    assert (Hnf : ~ is_free_page z1 q).
    { rewrite Hf1, in_blk_0. intros [?| ->]; done. }
    split; [|done]. exists pg. by rewrite (proj1 Ha1).
  - exists M2, z2. simpl. rewrite E1, bind_ret. split_and!; [done|done|by apply (same_zone_trans _ z1)| |].
    + intros q. rewrite Hf2, Hf1, in_blk_0, elem_of_cons. tauto.
    + apply (agree_trans _ _ _ _ _ _ Ha1 Ha2). intros q [Hq|Hq]; [|done]. apply Hf2. by left.
Qed.

Lemma pcp_bounded M zid z cpu pcp :
  zone_inv M zid z -> small M -> pageset z !! cpu = Some pcp ->
  pcp_ok pcp /\ pcount pcp < 2 ^ 31 /\ NoDup (plist pcp).
Proof.
  intros Hz Hsm Hc. assert (Hok : pcp_ok pcp).
  { eapply Forall_lookup_1; [apply (zi_pcp _ _ _ Hz)|exact Hc]. }
  destruct (pcp_split z cpu pcp Hc) as (A & B & E & _).
  pose proof (zi_nodup _ _ _ Hz) as Hn. rewrite E in Hn.
  apply NoDup_app in Hn as (_ & _ & Hn). apply NoDup_app in Hn as (Hn & _ & _).
  split_and!; [done| |done]. rewrite (po_count _ Hok). unfold small in Hsm.
  assert (length (plist pcp) <= size M)%nat; [|lia]. apply pages_bounded; [done|].
  intros p Hp. destruct (zi_idle _ _ _ Hz p) as [Hi _].
  - rewrite E, !elem_of_app. auto.
  - by apply page_sat_some in Hi.
Qed.

Lemma NoDup_drop_middle (A l s B : list Z) :
  NoDup (A ++ (l ++ s) ++ B) -> NoDup (A ++ l ++ B) /\ forall q, q ∈ A ++ l ++ B -> q ∉ s.
Proof.
  rewrite <- app_assoc, (Permutation_app_swap_app l s), (Permutation_app_swap_app A s).
  intros (_ & HN & ?)%NoDup_app. split; [done|]. intros q Hq Hs. by apply (HN q).
Qed.

(** What a move between the lists of one zone keeps. *)
Record moved (M : mem_map) (zid : Z) (z : zone) (M' : mem_map) (z' : zone) : Prop := {
  mv_inv : zone_inv M' zid z';
  mv_has : forall q, zone_has z' q <-> zone_has z q;
  mv_agree : agree_off (zone_has z) M M';
  mv_managed : managed_pages z' = managed_pages z;
  mv_cpus : length (pageset z') = length (pageset z);
}.

Lemma bulk_ok M zid z cpu pcp l s :
  zone_inv M zid z -> mapped M -> small M -> 0 <= cpu ->
  pageset z !! Z.to_nat cpu = Some pcp -> plist pcp = l ++ s ->
  exists M' z', free_pcppages_bulk M z (Z.of_nat (length s)) cpu = Ret (M', z') /\
    moved M zid z M' z' /\
    (forall q, is_free_page z' q <-> is_free_page z q \/ q ∈ s) /\
    pageset z' = <[Z.to_nat cpu := mk_pcp (Z.of_nat (length l)) (phigh pcp) (pbatch pcp) l]> (pageset z).
Proof.
  intros Hz Hm Hsm Hcpu Hc Hl. destruct (pcp_bounded M zid z _ _ Hz Hsm Hc) as ([Hcnt Hb1 Hb2] & Hlt & Hn).
  set (pcp' := mk_pcp (Z.of_nat (length l)) (phigh pcp) (pbatch pcp) l).
  destruct (pcp_split z _ pcp Hc) as (A & B & EA & EB).
  pose proof (zi_nodup _ _ _ Hz) as HN. rewrite EA, Hl in HN. rewrite Hl in Hn.
  apply NoDup_drop_middle in HN as [HN1 HN2].
  assert (Hlen : (Z.to_nat cpu < length (pageset z))%nat) by (by apply lookup_lt_Some in Hc).
  unfold free_pcppages_bulk. rewrite (rd_lookup _ _ pcp) by (done || lia). rewrite bind_ret, Nat2Z.id.
  rewrite (bulk_rounds s l pcp []) by (rewrite ?Hcnt, ?Hl in *; auto; lia). fold pcp'.
  rewrite bind_ret, wr_in_range, bind_ret by lia. simpl.
  set (z1 := set_pageset z _).
  assert (Hfz : forall q, is_free_page z1 q <-> is_free_page z q) by done.
  assert (Hs : forall q, q ∈ s -> q ∈ pcp_pages z).
  { intros q Hq. rewrite EA, Hl, !elem_of_app. auto. }
  destruct (free_each_ok zid (rev s) M z1) as (M' & z' & E & Hi' & Hs' & Hf' & Ha').
  - done.
  - destruct (zi_buddy _ _ _ Hz). by split.
  - apply (zi_init _ _ _ Hz).
  - apply NoDup_app in Hn as (_ & _ & Hn). by rewrite <- Permutation_rev.
  - intros p Hp. rewrite list_elem_of_In, <- in_rev, <- list_elem_of_In in Hp.
    apply (zi_idle _ _ _ Hz), Hs, Hp.
  - assert (Hps : pageset z' = <[Z.to_nat cpu := pcp']> (pageset z)) by (by rewrite Hs').
    assert (Hin : forall q, q ∈ rev s <-> q ∈ s).
    { intros q. by rewrite list_elem_of_In, <- in_rev, <- list_elem_of_In. }
    assert (Hpp : pcp_pages z' = A ++ l ++ B) by (unfold pcp_pages; by rewrite Hps, EB).
    assert (Hfree : forall q, is_free_page z' q <-> is_free_page z q \/ q ∈ s).
    { intros q. by rewrite Hf', Hfz, Hin. }
    assert (Hsub : forall q, q ∈ pcp_pages z' -> q ∈ pcp_pages z).
    { intros q. rewrite Hpp, EA, Hl, !elem_of_app. tauto. }
    exists M', z'. split_and!; [done| |done|done]. split.
    + split; [done|by rewrite Hs'; apply (zi_init _ _ _ Hz)| | |].
      * rewrite Hps. apply Forall_insert; [apply (zi_pcp _ _ _ Hz)|]. by split.
      * by rewrite Hpp.
      * intros q Hq. destruct (zi_idle _ _ _ Hz q (Hsub q Hq)) as [(pg & Eq & Hpg) Hnf].
        assert (Hns : q ∉ s) by (apply HN2; by rewrite <- Hpp).
        assert (Hnf' : ~ is_free_page z' q) by (rewrite Hfree; tauto).
        split; [|done]. exists pg. by rewrite (proj1 Ha' q Hnf').
    + intros q. unfold zone_has. rewrite Hfree, Hpp, EA, Hl, !elem_of_app. tauto.
    + apply (agree_trans _ _ _ _ _ _ Ha' (agree_refl (fun _ => False) M')).
      intros q [Hq|[]]. apply Hfree in Hq as [?|?]; [by left|right]. by apply Hs.
    + by rewrite Hs'.
    + by rewrite Hps, length_insert.
Qed.

Lemma moved_refl M zid z : zone_inv M zid z -> moved M zid z M z.
Proof. intros Hz. by split. Qed.

Lemma moved_trans M zid z M1 z1 M2 z2 :
  moved M zid z M1 z1 -> moved M1 zid z1 M2 z2 -> moved M zid z M2 z2.
Proof.
  intros [I1 H1 A1 G1 C1] [I2 H2 A2 G2 C2]. split.
  - done.
  - intros q. by rewrite H2.
  - apply (agree_trans _ _ _ _ _ _ A1 A2). intros q [?|?]; [done|]. by apply H1.
  - by rewrite G2.
  - by rewrite C2.
Qed.

(** [drain_pages_zone] empties the list of one CPU into the free lists. *)
Lemma drain_ok M zid z cpu :
  zone_inv M zid z -> mapped M -> small M -> 0 <= cpu < Z.of_nat (length (pageset z)) ->
  exists M' z' b, drain_pages_zone M z cpu = Ret (M', z', b) /\ moved M zid z M' z' /\
    (b = true -> (length (pcp_pages z') < length (pcp_pages z))%nat) /\
    (b = false -> M' = M /\ z' = z) /\
    (forall q, is_free_page z q -> is_free_page z' q).
Proof.
  intros Hz Hm Hsm Hcpu.
  destruct (lookup_lt_is_Some_2 (pageset z) (Z.to_nat cpu)) as [pcp Hc]; [lia|].
  destruct (pcp_bounded M zid z _ _ Hz Hsm Hc) as ([Hcnt Hb1 Hb2] & Hlt & Hn).
  unfold drain_pages_zone. rewrite (rd_lookup _ _ pcp) by (done || lia). rewrite bind_ret.
  destruct (Z.eqb_spec (pcount pcp) 0) as [E0|E0]; simpl.
  - exists M, z, false. split_and!; [done|by apply moved_refl|done|done|done].
  - destruct (bulk_ok M zid z cpu pcp [] (plist pcp) Hz Hm Hsm) as (M' & z' & E & Hmv & Hf & Hps);
      [lia|done|done|].
    rewrite Hcnt, E, bind_ret. exists M', z', true. split_and!; [done|done| |done|].
    + intros _. destruct (pcp_split z _ pcp Hc) as (A & B & EA & EB).
      unfold pcp_pages at 1. rewrite Hps, EB, EA, !length_app. simpl. lia.
    + intros q Hq. apply Hf. by left.
Qed.

(** Pages that the zone no longer offers. *)
Definition zone_lacks (M : mem_map) (zid : Z) (z : zone) (p : Z) : Prop :=
  page_sat M p (idle zid) /\ ~ zone_has z p.

(** Putting an idle page on the list of this CPU, spilling a batch when the
    list is long. *)
Lemma commit_ok M zid z cpu p :
  zone_inv M zid z -> mapped M -> small M -> 0 <= cpu < Z.of_nat (length (pageset z)) ->
  zone_lacks M zid z p ->
  exists M' z', free_unref_page_commit M z cpu p = Ret (M', z') /\ zone_inv M' zid z' /\
    (forall q, zone_has z' q <-> zone_has z q \/ q = p) /\
    agree_off (fun q => zone_has z q \/ q = p) M M' /\
    managed_pages z' = managed_pages z /\ length (pageset z') = length (pageset z).
Proof.
  intros Hz Hm Hsm Hcpu [Hp Hnp].
  destruct (lookup_lt_is_Some_2 (pageset z) (Z.to_nat cpu)) as [pcp Hc]; [lia|].
  destruct (pcp_bounded M zid z _ _ Hz Hsm Hc) as ([Hcnt Hb1 Hb2] & Hlt & Hn).
  destruct (pcp_split z _ pcp Hc) as (A & B & EA & EB).
  set (pcp1 := mk_pcp (Z.of_nat (length (p :: plist pcp))) (phigh pcp) (pbatch pcp) (p :: plist pcp)).
  set (z1 := set_pageset z (<[Z.to_nat cpu := pcp1]> (pageset z))).
  assert (Epp : pcp_pages z1 ≡ₚ p :: pcp_pages z).
  { unfold pcp_pages at 1. simpl. rewrite EB, EA. simpl. by rewrite <- Permutation_middle. }
  assert (Hok1 : pcp_ok pcp1) by (by split).
  assert (Hz1 : zone_inv M zid z1).
  { split.
    - destruct (zi_buddy _ _ _ Hz). by split.
    - apply (zi_init _ _ _ Hz).
    - apply Forall_insert; [apply (zi_pcp _ _ _ Hz)|done].
    - rewrite Epp. apply NoDup_cons. split; [|apply (zi_nodup _ _ _ Hz)].
      intros ?. apply Hnp. by right.
    - intros q. rewrite Epp, elem_of_cons. intros [->|Hq]; [|by apply (zi_idle _ _ _ Hz)].
      split; [done|]. intros ?. apply Hnp. by left. }
  assert (Hhas : forall q, zone_has z1 q <-> zone_has z q \/ q = p).
  { intros q. unfold zone_has. rewrite Epp, elem_of_cons. change (is_free_page z1 q) with (is_free_page z q). tauto. }
  assert (Hlk : pageset z1 !! Z.to_nat cpu = Some pcp1).
  { simpl. apply list_lookup_insert_eq. lia. }
  destruct (pcp_bounded M zid z1 _ _ Hz1 Hsm Hlk) as ([Hcnt1 _ _] & Hlt1 & _).
  unfold free_unref_page_commit. rewrite (rd_lookup _ _ pcp) by (done || lia). rewrite bind_ret.
  replace (s32 (pcount pcp + 1)) with (pcount pcp1) by (rewrite s32_small; simpl in *; lia).
  change (mk_pcp (pcount pcp1) (phigh pcp) (pbatch pcp) (p :: plist pcp)) with pcp1.
  rewrite wr_in_range, bind_ret by lia. fold z1. simpl phigh. simpl pbatch.
  destruct (Z.leb_spec (phigh pcp) (pcount pcp1)) as [Hle|Hgt].
  - set (k := Z.to_nat (pcount pcp1 - pbatch pcp)).
    destruct (bulk_ok M zid z1 cpu pcp1 (take k (plist pcp1)) (drop k (plist pcp1)) Hz1 Hm Hsm)
      as (M' & z' & E & Hmv & _); [lia|done|by rewrite take_drop|].
    rewrite length_drop in E.
    replace (Z.of_nat (length (plist pcp1) - k)) with (pbatch pcp) in E
      by (unfold k; rewrite Hcnt1 in *; simpl in *; lia).
    exists M', z'. split; [done|]. split_and!.
    + apply (mv_inv _ _ _ _ _ Hmv).
    + intros q. by rewrite (mv_has _ _ _ _ _ Hmv), Hhas.
    + pose proof (mv_agree _ _ _ _ _ Hmv) as Ha.
      apply (agree_trans _ _ _ _ _ _ (agree_refl (fun _ => False) M) Ha). intros q [[]|Hq]. by apply Hhas.
    + by rewrite (mv_managed _ _ _ _ _ Hmv).
    + rewrite (mv_cpus _ _ _ _ _ Hmv). simpl. by rewrite length_insert.
  - exists M, z1. split_and!; [done|done|done|apply agree_refl|done|]. simpl. by rewrite length_insert.
Qed.

(** ** Filling a per-CPU list from the buddy system *)

Record fill_inv (zid : Z) (M0 : mem_map) (z0 : zone) (count : Z)
    (st : mem_map * zone * Z * list Z) : Prop := {
  fi_buddy : buddy_inv st.1.1.1 zid st.1.1.2;
  fi_same : same_zone z0 st.1.1.2;
  fi_nodup : NoDup st.2;
  fi_idle : forall p, p ∈ st.2 -> page_sat st.1.1.1 p (idle zid) /\ ~ is_free_page st.1.1.2 p;
  fi_free : forall q, is_free_page z0 q <-> is_free_page st.1.1.2 q \/ q ∈ st.2;
  fi_agree : agree_off (is_free_page z0) M0 st.1.1.1;
  fi_count : st.1.2 = Z.of_nat (length st.2);
  fi_le : st.1.2 <= Z.max 0 count;
}.

Lemma fill_turn_ok zid M0 z0 count st :
  fill_inv zid M0 z0 count st ->
  returns (bulk_fill_turn 0 count st) (fun r =>
    match r with
    | inl st' => fill_inv zid M0 z0 count st' /\ st'.1.2 = st.1.2 + 1
    | inr st' => fill_inv zid M0 z0 count st' /\ (st'.2 = [] -> 0 < count -> exhausted z0 0 /\ st' = st)
    end).
Proof.
  destruct st as [[[M z] i] l]. intros Hst. pose proof Hst as [Hi Hs Hn Hid Hf Ha Hc Hle]. simpl in *.
  destruct (Z.ltb_spec i count) as [Hlt|Hge].
  2:{ simpl. split; [done|]. simpl. intros -> ?. simpl in Hc. lia. }
  destruct (rmqueue_smallest_ok M zid z 0 Hi) as [[E Hex]|(M' & z' & p & c & E & [Hi' Hs' Hh' Hf' Ha'] & _)];
    [unfold MAX_ORDER; lia| |].
  - unfold __rmqueue. rewrite E, bind_ret. simpl. split; [done|]. simpl. intros -> _. split; [|done].
    intros o' q Ho' Hb. destruct (proj1 (Hf q)) as [(o1 & p1 & Hb1 & _)|Hq].
    + exists o', q. split; [done|]. apply in_blk_head. lia.
    + apply (Hex o1 p1); [apply Hb1|done].
    + by apply not_elem_of_nil in Hq.
  - unfold __rmqueue. rewrite E, bind_ret. simpl. split; [|done].
    assert (Hp : is_free_page z p) by (apply Hf'; right; by apply in_blk_0).
    assert (Hpl : p ∉ l) by (intros Hq; by apply (Hid p)).
    split; simpl.
    + done.
    + by apply (same_zone_trans _ z).
    + apply NoDup_app. split_and!; [done| |apply NoDup_singleton].
      intros q Hq. rewrite list_elem_of_singleton. by intros ->.
    + intros q Hq. apply elem_of_app in Hq as [Hq|Hq].
      * destruct (Hid q Hq) as [(pg & Eq & Hpg) Hnf].
        split; [exists pg; by rewrite (proj1 Ha' q Hnf)|].
        intros Hq'. apply Hnf, Hf'. by left.
      * apply list_elem_of_singleton in Hq as ->. pose proof (proj2 (in_blk_0 p p) eq_refl) as Hb.
        split; [apply (held_pages _ _ _ _ _ Hh' p Hb)|apply (held_apart _ _ _ _ _ Hh' p Hb)].
    + intros q. rewrite Hf, Hf', in_blk_0, elem_of_app, list_elem_of_singleton. tauto.
    + apply (agree_trans _ _ _ _ _ _ Ha Ha'). intros q [?|Hq]; [done|]. apply Hf. by left.
    + rewrite length_app. simpl. lia.
    + lia.
Qed.

Lemma rmqueue_bulk_ok M zid z count :
  buddy_inv M zid z ->
  exists st, rmqueue_bulk M z 0 count [] = Ret st /\ fill_inv zid M z count st /\
    (st.2 = [] -> 0 < count -> exhausted z 0 /\ st = (M, z, 0, [])).
Proof.
  intros Hi. unfold rmqueue_bulk.
  assert (Hr : returns (loop (Z.to_nat count + 1) (bulk_fill_turn 0 count) (M, z, 0, [])) (fun st =>
    fill_inv zid M z count st /\ (st.2 = [] -> 0 < count -> exhausted z 0 /\ st = (M, z, 0, [])))).
  { apply loop_returns with (m := fun st => Z.to_nat (count - st.1.2))
      (I := fun st => fill_inv zid M z count st /\ (st.2 = [] -> st = (M, z, 0, []))).
    - split; [|done]. split; simpl; [done|apply same_zone_refl|constructor| | |apply agree_refl|done|lia].
      + intros p Hp. by apply not_elem_of_nil in Hp.
      + intros q. rewrite elem_of_nil. tauto.
    - simpl. lia.
    - intros st [Hst Hnil]. eapply returns_mono; [by apply (fill_turn_ok zid M z count)|].
      intros [st'|st']; simpl.
      + intros [Hst' E]. pose proof (fi_count _ _ _ _ _ Hst). pose proof (fi_count _ _ _ _ _ Hst').
        pose proof (fi_le _ _ _ _ _ Hst'). split; [|lia]. split; [done|].
        intros E'. rewrite E' in *. simpl in *. lia.
      + intros [Hst' He]. split; [done|]. intros E Hc. destruct (He E Hc) as [? ->]. auto. }
  destruct (returns_inv _ _ Hr) as (st & -> & Hst & He). eauto.
Qed.
End pcp.
