(* ===== verification/PageZone.v ===== *)
(** * Allocation and freeing in one zone

    [rmqueue] on both its paths: through the per-CPU list for single pages, and
    straight from the buddy system for larger blocks. *)
From stdpp Require Import base numbers list option gmap.
From Stdlib Require Import ZArith Lia.
From S2P Require Import Prelude Memblock Page PageAlloc BuddyFacts BuddyOps PagePcp.

(** ** Checks on idle pages *)

Lemma expected_idle zid pg f :
  valid_zid zid -> idle zid pg -> (f = PAGE_FLAGS_CHECK_AT_FREE \/ f = PAGE_FLAGS_CHECK_AT_PREP) ->
  page_expected_state pg f = true.
Proof.
  intros Hz [Hf Ht Hr _] Hm. unfold page_expected_state, page_ref_count. rewrite Ht, Hr, Hf.
  unfold valid_zid, MAX_NR_ZONES in Hz.
  assert (zid = 0 \/ zid = 1 \/ zid = 2) as [->|[->| ->]] by lia; destruct Hm as [->| ->]; reflexivity.
Qed.

Lemma check_new_idle zid pg : valid_zid zid -> idle zid pg -> check_new_page pg = (false, pg).
Proof.
  intros Hz Hi. unfold check_new_page. unfold __PG_HWPOISON. rewrite Z.lor_0_r.
  by rewrite (expected_idle zid pg) by auto.
Qed.

Lemma check_new_pages_ok M zid p o :
  valid_zid zid -> 0 <= o -> (forall q, in_blk p o q -> page_sat M q (idle zid)) ->
  check_new_pages M p o = Ret (M, false).
Proof.
  intros Hz Ho Hp. unfold check_new_pages. rewrite Z.shiftl_1_l.
  assert (Hr : returns (loop (Z.to_nat (2 ^ o) + 1) (check_new_turn p (2 ^ o)) (M, 0)) (eq (M, false))).
  { apply loop_returns with (m := fun st => Z.to_nat (2 ^ o - st.2))
      (I := fun st => st.1 = M /\ 0 <= st.2).
    - done.
    - simpl. lia.
    - intros [M1 i] [HM Hi]. simpl in HM, Hi. subst M1. unfold check_new_turn.
      destruct (Z.ltb_spec i (2 ^ o)) as [Hlt|]; [|done].
      destruct (Hp (p + i)) as (pg & E & Hpg); [unfold in_blk; lia|].
      unfold page_at. rewrite E, bind_ret, (check_new_idle zid pg Hz Hpg). simpl.
      split; [split; [done|lia]|lia]. }
  destruct (returns_inv _ _ Hr) as (x & -> & <-). done.
Qed.

(** ** The zone after an allocation *)

Record took (M : mem_map) (zid : Z) (z : zone) (p o : Z) (M' : mem_map) (z' : zone) : Prop := {
  tk_inv : zone_inv M' zid z';
  tk_align : (2 ^ o | p);
  tk_idle : forall q, in_blk p o q -> page_sat M' q (idle zid) /\ ~ zone_has z' q;
  tk_has : forall q, zone_has z q <-> zone_has z' q \/ in_blk p o q;
  tk_agree : agree_off (zone_has z) M M';
  tk_managed : managed_pages z' = managed_pages z;
  tk_cpus : length (pageset z') = length (pageset z);
}.

Section zone_alloc.
Context `{PfnMap}.

Lemma took_block M zid z p o M' z' :
  zone_inv M zid z -> 0 <= o -> take_effect zid M z p o M' z' -> took M zid z p o M' z'.
Proof.
  intros Hz Ho [Hi Hs Hh Hf Ha].
  assert (Hpp : pcp_pages z' = pcp_pages z) by (by rewrite Hs).
  assert (Hno : forall q, q ∈ pcp_pages z -> ~ in_blk p o q).
  { intros q Hq Hb. apply (zi_idle _ _ _ Hz q Hq). apply Hf. by right. }
  split.
  - split; [done|by rewrite Hs; apply (zi_init _ _ _ Hz)|by rewrite Hs; apply (zi_pcp _ _ _ Hz)| |].
    + rewrite Hpp. apply (zi_nodup _ _ _ Hz).
    + intros q. rewrite Hpp. intros Hq. destruct (zi_idle _ _ _ Hz q Hq) as [(pg & E & Hpg) Hn].
      split; [exists pg; by rewrite (proj1 Ha q Hn)|]. intros Hq'. apply Hn, Hf. by left.
  - apply (held_align _ _ _ _ _ Hh).
  - intros q Hq. split; [by apply (held_pages _ _ _ _ _ Hh)|]. intros [Hb|Hb].
    + by apply (held_apart _ _ _ _ _ Hh q Hq).
    + rewrite Hpp in Hb. by apply (Hno q).
  - intros q. unfold zone_has. rewrite Hf, Hpp. tauto.
  - apply (agree_trans _ _ _ _ _ _ Ha (agree_refl (fun _ => False) M')). intros q [?|[]]. by left.
  - by rewrite Hs.
  - by rewrite Hs.
Qed.

(** Replacing the list of one CPU. *)
Lemma set_list_inv M zid z cpu pcp l A B :
  buddy_inv M zid z -> initialized z = true -> Forall pcp_ok (pageset z) ->
  pageset z !! cpu = Some pcp ->
  (forall pcp', concat (plist <$> <[cpu := pcp']> (pageset z)) = A ++ plist pcp' ++ B) ->
  NoDup (A ++ l ++ B) ->
  (forall p, p ∈ A ++ l ++ B -> page_sat M p (idle zid) /\ ~ is_free_page z p) ->
  let z' := set_pageset z (<[cpu := mk_pcp (Z.of_nat (length l)) (phigh pcp) (pbatch pcp) l]> (pageset z)) in
  zone_inv M zid z' /\ pcp_pages z' = A ++ l ++ B.
Proof.
  intros Hi Hinit Hok Hc HB Hn Hid z'.
  assert (E : pcp_pages z' = A ++ l ++ B) by (unfold pcp_pages, z'; simpl; by rewrite HB).
  split; [|done]. split.
  - destruct Hi. by split.
  - done.
  - unfold z'. simpl. apply Forall_insert; [done|].
    destruct (Forall_lookup_1 _ _ _ _ Hok Hc) as [? ? ?]. by split.
  - by rewrite E.
  - intros q Hq. rewrite E in Hq. by apply Hid.
Qed.

(** What the list holds when a turn of [__rmqueue_pcplist] looks at it. *)
Definition refilled (M : mem_map) (zid : Z) (z : zone) (pcp : per_cpu_pages)
    (M' : mem_map) (z' : zone) (l : list Z) : Prop :=
  buddy_inv M' zid z' /\ same_zone z z' /\ agree_off (is_free_page z) M M' /\
  exists s, l = plist pcp ++ s /\ NoDup s /\
    (forall p, p ∈ s -> page_sat M' p (idle zid) /\ ~ is_free_page z' p) /\
    (forall q, is_free_page z q <-> is_free_page z' q \/ q ∈ s).

Lemma refill_ok M zid z pcp :
  zone_inv M zid z -> pcp_ok pcp ->
  exists M' z' l n,
    match plist pcp with
    | [] => '(M, z, n, l) ← rmqueue_bulk M z 0 (pbatch pcp) []; Ret (M, z, l, n)
    | l => Ret (M, z, l, 0)
    end = Ret (M', z', l, n) /\
    refilled M zid z pcp M' z' l /\ pcount pcp + n = Z.of_nat (length l) /\
    (l = [] -> exhausted z 0 /\ M' = M /\ z' = z).
Proof.
  intros Hz [Hc Hb _]. destruct (plist pcp) as [|p l] eqn:E.
  - destruct (rmqueue_bulk_ok M zid z (pbatch pcp) (zi_buddy _ _ _ Hz)) as ([[[M' z'] n] l] & -> & Hf & He).
    destruct Hf as [Hi Hs Hn Hid Hfr Ha Hcnt _]. simpl in *. exists M', z', l, n.
    split_and!; [done| |lia|].
    + unfold refilled. rewrite E. split_and!; auto. exists l. auto.
    + intros ->. destruct (He eq_refl) as [? [= -> -> _]]; [lia|]. auto.
  - exists M, z, (p :: l), 0. split_and!; [done| |simpl in *; lia|done].
    split_and!; [apply (zi_buddy _ _ _ Hz)|apply same_zone_refl|apply agree_refl|].
    exists []. rewrite E, app_nil_r. split_and!; [done|constructor| |].
    + intros q Hq. by apply not_elem_of_nil in Hq.
    + intros q. rewrite elem_of_nil. tauto.
Qed.

(** The list after the refill, seen from the zone. *)
Lemma refilled_lists M zid z pcp M' z' l A B :
  zone_inv M zid z -> refilled M zid z pcp M' z' l -> pcp_pages z = A ++ plist pcp ++ B ->
  NoDup (A ++ l ++ B) /\
  (forall p, p ∈ A ++ l ++ B -> page_sat M' p (idle zid) /\ ~ is_free_page z' p) /\
  (forall q, zone_has z q <-> is_free_page z' q \/ q ∈ A ++ l ++ B).
Proof.
  intros Hz (Hi & Hs & Ha & s & -> & Hn & Hid & Hf) EA.
  assert (Hperm : A ++ (plist pcp ++ s) ++ B ≡ₚ s ++ pcp_pages z).
  { by rewrite EA, <- app_assoc, (Permutation_app_swap_app (plist pcp) s), (Permutation_app_swap_app A s). }
  split_and!.
  - rewrite Hperm. apply NoDup_app. split_and!; [done| |apply (zi_nodup _ _ _ Hz)].
    intros q Hq Hq'. apply (zi_idle _ _ _ Hz q Hq'), Hf. by right.
  - intros q. rewrite Hperm, elem_of_app. intros [Hq|Hq]; [by apply Hid|].
    destruct (zi_idle _ _ _ Hz q Hq) as [(pg & E & Hpg) Hnf].
    split; [exists pg; by rewrite (proj1 Ha q Hnf)|]. intros Hq'. apply Hnf, Hf. by left.
  - intros q. rewrite Hperm, elem_of_app. unfold zone_has. rewrite Hf. tauto.
Qed.

(** One turn of [__rmqueue_pcplist] succeeds, or finds both the list and the
    free lists empty. *)
Lemma pcplist_turn_ok M zid z cpu :
  zone_inv M zid z -> small M -> 0 <= cpu < Z.of_nat (length (pageset z)) ->
  exists M' z' r, pcplist_turn cpu (M, z) = Ret (inr (M', z', r)) /\
    match r with
    | Some p => took M zid z p 0 M' z'
    | None => M' = M /\ moved M zid z M z' /\ pcp_pages z' = pcp_pages z /\
              areas z' = areas z /\ exhausted z 0
    end.
Proof.
  intros Hz Hsm Hcpu.
  destruct (lookup_lt_is_Some_2 (pageset z) (Z.to_nat cpu)) as [pcp Hc]; [lia|].
  destruct (pcp_bounded M zid z _ _ Hz Hsm Hc) as (Hok & Hlt & Hn).
  destruct (pcp_split z _ pcp Hc) as (A & B & EA & EB).
  destruct (refill_ok M zid z pcp Hz Hok) as (M1 & z1 & l & n & E & Hrf & Hcnt & Hnil).
  destruct (refilled_lists M zid z pcp M1 z1 l A B Hz Hrf EA) as (HN & Hid & Hhas).
  pose proof Hrf as (Hi1 & Hs1 & Ha1 & _).
  assert (Hps : pageset z1 = pageset z) by (by rewrite Hs1).
  assert (Hb : Z.of_nat (length l) < 2 ^ 31).
  { unfold small in Hsm. rewrite <- (size_agree _ _ _ Ha1) in Hsm.
    assert (length l <= size M1)%nat; [|lia]. apply NoDup_app in HN as (_ & _ & HN).
    apply NoDup_app in HN as (HN & _). apply pages_bounded; [done|].
    intros p Hp. destruct (Hid p) as [Hp1 _]; [rewrite !elem_of_app; auto|]. by apply page_sat_some in Hp1. }
  unfold pcplist_turn. rewrite (rd_lookup _ _ pcp) by (done || lia). rewrite bind_ret, E, bind_ret.
  rewrite Hcnt, (s32_small (Z.of_nat (length l))), Hps by lia. clear E.
  assert (Hinit1 : initialized z1 = true) by (rewrite Hs1; apply (zi_init _ _ _ Hz)).
  assert (Hok1 : Forall pcp_ok (pageset z1)) by (rewrite Hps; apply (zi_pcp _ _ _ Hz)).
  assert (Hc1 : pageset z1 !! Z.to_nat cpu = Some pcp) by (by rewrite Hps).
  assert (HB1 : forall pcp', concat (plist <$> <[Z.to_nat cpu := pcp']> (pageset z1)) = A ++ plist pcp' ++ B)
    by (by rewrite Hps).
  destruct l as [|p l].
  - destruct (Hnil eq_refl) as (Hex & -> & ->). rewrite wr_in_range, bind_ret by lia.
    destruct (set_list_inv M zid z _ pcp [] A B Hi1 Hinit1 Hok1 Hc1 HB1 HN Hid) as [Hz' Epp].
    eexists M, _, None. split; [reflexivity|].
    destruct Hrf as (_ & _ & _ & s & Es & _). symmetry in Es. apply app_eq_nil in Es as [Ep _].
    split_and!; [done| |by rewrite Epp, EA, Ep|done|done].
    split; [exact Hz'| |apply agree_refl|done|simpl; by rewrite length_insert].
    intros q. unfold zone_has at 1. by rewrite Epp, Hhas.
  - rewrite wr_in_range, bind_ret by lia.
    assert (Hpin : p ∈ A ++ (p :: l) ++ B) by (rewrite elem_of_app; right; left).
    destruct (Hid p Hpin) as [(pg & Ep & Hpg) Hpf].
    unfold page_at. rewrite Ep, bind_ret.
    rewrite (check_new_idle zid pg (bi_zid _ _ _ Hi1) Hpg), (insert_id M1 p pg Ep).
    replace (s32 (Z.of_nat (length (p :: l)) - 1)) with (Z.of_nat (length l))
      by (rewrite s32_small; simpl in *; lia).
    assert (Hperm : A ++ (p :: l) ++ B ≡ₚ p :: A ++ l ++ B) by (simpl; by rewrite <- Permutation_middle).
    rewrite Hperm in HN. apply NoDup_cons in HN as [Hpn HN].
    destruct (set_list_inv M1 zid z1 _ pcp l A B Hi1 Hinit1 Hok1 Hc1 HB1 HN) as [Hz' Epp].
    { intros q Hq. apply Hid. rewrite Hperm. by right. }
    rewrite Hps in Hz', Epp. eexists M1, _, (Some p). split; [reflexivity|]. split.
    + exact Hz'.
    + apply Z.divide_1_l.
    + intros q ->%in_blk_0. split; [by exists pg|]. unfold zone_has. rewrite Epp. by intros [?|?].
    + intros q. rewrite Hhas, Hperm, elem_of_cons, in_blk_0. unfold zone_has. rewrite Epp.
      change (is_free_page (set_pageset z1 _) q) with (is_free_page z1 q). tauto.
    + apply (agree_trans _ _ _ _ _ _ Ha1 (agree_refl (fun _ => False) M1)). intros q [?|[]]. by left.
    + simpl. by rewrite Hs1.
    + simpl. by rewrite length_insert.
Qed.

(** [rmqueue] on either path. *)
Lemma rmqueue_ok M zid z cpu o fuel :
  zone_inv M zid z -> small M -> 0 <= cpu < Z.of_nat (length (pageset z)) -> 0 <= o < MAX_ORDER ->
  exists M' z' r, rmqueue (S fuel) M z cpu o = Ret (M', z', r) /\
    match r with
    | Some p => took M zid z p o M' z'
    | None => M' = M /\ moved M zid z M z' /\ pcp_pages z' = pcp_pages z /\
              areas z' = areas z /\ exhausted z o
    end.
Proof.
  intros Hz Hsm Hcpu Ho. unfold rmqueue. destruct (Z.eqb_spec o 0) as [->|Hne].
  - destruct (pcplist_turn_ok M zid z cpu Hz Hsm Hcpu) as (M' & z' & r & E & Hr).
    exists M', z', r. split; [|done]. unfold __rmqueue_pcplist. by apply loop_inr.
  - destruct (rmqueue_smallest_ok M zid z o (zi_buddy _ _ _ Hz) Ho)
      as [[E Hex]|(M' & z' & p & c & E & Ht & _)].
    + exists M, z, None. split; [|by split_and!; [|apply moved_refl|..]].
      apply loop_inr. unfold rmqueue_block_turn. by rewrite E.
    + exists M', z', (Some p). split; [|apply took_block; [done|lia|done]].
      apply loop_inr. unfold rmqueue_block_turn. rewrite E, bind_ret.
      rewrite (check_new_pages_ok M' zid p o); [done|apply (zi_buddy _ _ _ Hz)|lia|].
      intros q Hq. by apply (held_pages _ _ _ _ _ (te_held _ _ _ _ _ _ _ Ht)).
Qed.
End zone_alloc.

(** ** Blocks in use

    The descriptors of an allocated block, how [prep_new_page] builds them from
    idle pages, and how [free_pages_prepare] takes them apart. *)

Definition head_flags_of (zid o : Z) : Z :=
  if o =? 0 then zone_flags zid else Z.lor (zone_flags zid) (bit PG_head).

Definition is_head (zid o : Z) (n : Z) (pg : page) : Prop :=
  pflags pg = head_flags_of zid o /\ page_type pg = MAPCOUNT_UNSET /\ refcount pg = n /\ chead pg = None.
Definition is_tail (zid p : Z) (pg : page) : Prop :=
  pflags pg = zone_flags zid /\ page_type pg = MAPCOUNT_UNSET /\ refcount pg = 0 /\ chead pg = Some p.

(** A block of order [o] at [p] whose reference count is [n]. *)
Record block_in_use (M : mem_map) (zid o p n : Z) : Prop := {
  us_order : 0 <= o < MAX_ORDER;
  us_align : (2 ^ o | p);
  us_head : page_sat M p (is_head zid o n);
  us_corder : o <> 0 -> page_sat M (p + 1) (fun pg => corder pg = o);
  us_tail : forall q, p < q < p + 2 ^ o -> page_sat M q (is_tail zid p);
}.

Definition used (M : mem_map) (zid o p : Z) : Prop := block_in_use M zid o p 1.

Lemma page_sat_agree S M M' q P : agree_off S M M' -> ~ S q -> page_sat M q P -> page_sat M' q P.
Proof. intros [A _] Hq (pg & E & Hp). exists pg. by rewrite A. Qed.

Lemma used_agree S M M' zid o p n :
  agree_off S M M' -> (forall q, in_blk p o q -> ~ S q) ->
  block_in_use M zid o p n -> block_in_use M' zid o p n.
Proof.
  intros Ha HS [H1 H2 H3 H4 H5]. pose proof (pow2_pos o (proj1 H1)) as Hp.
  split; auto.
  - apply (page_sat_agree S M M'); auto. apply HS, in_blk_head. lia.
  - intros Ho. apply (page_sat_agree S M M'); auto. apply HS. unfold in_blk.
    pose proof (Z.pow_le_mono_r 2 1 o ltac:(lia) ltac:(lia)). lia.
  - intros q Hq. apply (page_sat_agree S M M'); auto. apply HS. unfold in_blk. lia.
Qed.

(** Pages of a block in use are not idle, so no free list holds them. *)
Lemma used_not_idle M zid o p n zid' q :
  block_in_use M zid o p n -> n <> 0 -> in_blk p o q -> ~ page_sat M q (idle zid').
Proof.
  intros H Hn Hq (pg & E & Hi). destruct (Z.eq_dec q p) as [->|Hne].
  - destruct (us_head _ _ _ _ _ H) as (pg' & E' & _ & _ & Hr & _). simplify_eq.
    by rewrite (idle_ref _ _ Hi) in Hn.
  - destruct (us_tail _ _ _ _ _ H q) as (pg' & E' & _ & _ & _ & Hc); [unfold in_blk in Hq; lia|].
    simplify_eq. by rewrite (idle_chead _ _ Hi) in Hc.
Qed.

Lemma used_not_head M zid o p n zid' o' q :
  block_in_use M zid o p n -> in_blk p o q -> ~ page_sat M q (head_of zid' o').
Proof.
  intros H Hq (pg & E & Hi).
  assert (Ht : page_type pg = MAPCOUNT_UNSET).
  { destruct (Z.eq_dec q p) as [->|Hne].
    - destruct (us_head _ _ _ _ _ H) as (pg' & E' & _ & ? & _). by simplify_eq.
    - destruct (us_tail _ _ _ _ _ H q) as (pg' & E' & _ & ? & _); [unfold in_blk in Hq; lia|].
      by simplify_eq. }
  rewrite (head_type _ _ _ Hi) in Ht. discriminate.
Qed.

Lemma zone_has_page M zid z q :
  zone_inv M zid z -> zone_has z q ->
  page_sat M q (idle zid) \/ exists o, page_sat M q (head_of zid o).
Proof.
  intros Hz [(o & p & Hb & Hq)|Hq].
  - destruct (block_page _ _ _ _ _ _ (zi_buddy _ _ _ Hz) Hb Hq) as [[_ ?]|[_ ?]]; eauto.
  - left. by apply (zi_idle _ _ _ Hz).
Qed.

Lemma used_apart M zid o p n zid' z q :
  zone_inv M zid' z -> block_in_use M zid o p n -> n <> 0 -> in_blk p o q -> ~ zone_has z q.
Proof.
  intros Hz Hu Hn Hq Hh. destruct (zone_has_page _ _ _ _ Hz Hh) as [?|[o' ?]].
  - by apply (used_not_idle M zid o p n zid' q).
  - by apply (used_not_head M zid o p n zid' o' q).
Qed.

(** Every page of a block leads to its first page. *)
Lemma used_compound_head M zid o p n q :
  block_in_use M zid o p n -> in_blk p o q -> page_sat M q (fun pg => compound_head q pg = p).
Proof.
  intros H I. unfold in_blk in I. destruct (Z.eq_dec q p) as [->|Hne].
  - destruct (us_head _ _ _ _ _ H) as (pg & E & _ & _ & _ & Hc). exists pg. split; [done|].
    unfold compound_head. by rewrite Hc.
  - destruct (us_tail _ _ _ _ _ H q) as (pg & E & _ & _ & _ & Hc); [lia|]. exists pg. split; [done|].
    unfold compound_head. by rewrite Hc.
Qed.

(** Two blocks in use that share a page start at the same page. *)
Lemma used_same_head M z1 o1 p1 n1 z2 o2 p2 n2 q :
  block_in_use M z1 o1 p1 n1 -> block_in_use M z2 o2 p2 n2 ->
  in_blk p1 o1 q -> in_blk p2 o2 q -> p1 = p2.
Proof.
  intros H1 H2 I1 I2. destruct (used_compound_head _ _ _ _ _ _ H1 I1) as (pg1 & E1 & <-).
  destruct (used_compound_head _ _ _ _ _ _ H2 I2) as (pg2 & E2 & <-). by simplify_eq.
Qed.

(** ** Preparing a new block *)

Lemma zone_flags_not_poison zid pg :
  valid_zid zid -> pflags pg = zone_flags zid -> PagePoisoned pg = false.
Proof.
  intros H E. unfold PagePoisoned. rewrite E. unfold valid_zid, MAX_NR_ZONES in H.
  assert (zid = 0 \/ zid = 1 \/ zid = 2) as [->|[->| ->]] by lia; reflexivity.
Qed.

(** The state of the loop of [prep_compound_page] after the first [i] pages. *)
Record compound_inv (M0 : mem_map) (zid o p : Z) (st : mem_map * Z) : Prop := {
  ci_range : 1 <= st.2 <= 2 ^ o;
  ci_head : page_sat st.1 p (is_head zid o 1);
  ci_corder : page_sat st.1 (p + 1) (fun pg => corder pg = o);
  ci_done : forall q, p < q < p + st.2 -> page_sat st.1 q (is_tail zid p);
  ci_todo : forall q, p + st.2 <= q < p + 2 ^ o -> page_sat st.1 q (idle zid);
  ci_agree : agree_off (in_blk p o) M0 st.1;
}.

Lemma compound_turn_ok M0 zid o p st :
  compound_inv M0 zid o p st ->
  returns (compound_turn p (2 ^ o) st) (fun r =>
    match r with
    | inl st' => compound_inv M0 zid o p st' /\ st'.2 = st.2 + 1
    | inr M => compound_inv M0 zid o p (M, 2 ^ o)
    end).
Proof.
  destruct st as [M i]. intros Hst. pose proof Hst as [Hr Hh Hc Hd Ht Ha]. simpl in *.
  destruct (Z.ltb_spec i (2 ^ o)) as [Hlt|Hge]; [|assert (i = 2 ^ o) as <- by lia; done].
  destruct (Ht (p + i)) as (pg & E & Hpg); [lia|].
  unfold update, page_at. rewrite E, !bind_ret. simpl. split; [|done].
  set (pg' := set_compound_head (set_page_count pg 0) p).
  assert (Hs : forall q P, page_sat M q P -> (q = p + i -> P pg') -> page_sat (<[p + i := pg']> M) q P).
  { intros q P HP Hq. destruct (Z.eq_dec q (p + i)) as [->|Hne].
    - by apply page_sat_insert_eq, Hq.
    - by apply page_sat_insert_ne. }
  split; simpl; [lia| | | | |].
  - apply Hs; [done|lia].
  - apply Hs; [done|]. intros E1. destruct Hc as (pg2 & E2 & Hc). rewrite E1 in E2. by simplify_eq.
  - intros q Hq. destruct (Z.eq_dec q (p + i)) as [->|Hne].
    + apply page_sat_insert_eq. destruct Hpg as [? ? ? ?]. by split_and!.
    + apply page_sat_insert_ne; [done|]. apply Hd. lia.
  - intros q Hq. apply page_sat_insert_ne; [lia|]. apply Ht. lia.
  - apply (agree_trans (in_blk p o) (in_blk p o) _ _ M); [done| |tauto].
    apply agree_insert; [eauto|]. unfold in_blk. lia.
Qed.

Lemma prep_new_page_ok M zid o p gfp :
  valid_zid zid -> 0 <= o < MAX_ORDER -> (2 ^ o | p) ->
  (forall q, in_blk p o q -> page_sat M q (idle zid)) ->
  exists M', prep_new_page M p o gfp = Ret M' /\ used M' zid o p /\ agree_off (in_blk p o) M M'.
Proof.
  intros Hz Ho Hd Hp. pose proof (in_blk_head p o (proj1 Ho)) as Hpp.
  destruct (Hp p Hpp) as (pg & E & [Hf Ht Hr Hc]).
  unfold prep_new_page, post_alloc_hook, page_at. rewrite E, bind_ret.
  unfold set_page_refcounted, PageTail, page_ref_count. simpl. rewrite Hc, Hr. simpl.
  set (pg1 := set_page_count (set_private pg 0) 1). set (M1 := <[p := pg1]> M).
  assert (Ha1 : agree_off (in_blk p o) M M1) by (by apply agree_insert; eauto).
  destruct (Z.eqb_spec o 0) as [->|Hne]; simpl.
  { exists M1. split_and!; [done| |done]. split; [done|done| |done|].
    - by apply page_sat_insert_eq.
    - intros q. rewrite Z.pow_0_r. lia. }
  pose proof (Z.pow_le_mono_r 2 1 o ltac:(lia) ltac:(lia)) as Hp2. rewrite Z.pow_1_r in Hp2.
  destruct (Hp (p + 1)) as (pgt & Et & Hit); [unfold in_blk; lia|].
  unfold prep_compound_page, set_compound_order, update, page_at.
  assert (Et1 : M1 !! (p + 1) = Some pgt) by (unfold M1; rewrite lookup_insert_ne by lia; done).
  rewrite Et1, !bind_ret. set (pgt1 := set_corder pgt (u8 o)). set (M2 := <[p + 1 := pgt1]> M1).
  assert (E2 : M2 !! p = Some pg1).
  { unfold M2, M1. rewrite lookup_insert_ne, lookup_insert_eq by lia. done. }
  rewrite E2, bind_ret. unfold __SetPageHead. rewrite BUG_ON_false, bind_ret.
  2:{ by apply (zone_flags_not_poison zid). }
  set (pg2 := set_pflags pg1 (Z.lor (pflags pg1) (bit PG_head))). set (M3 := <[p := pg2]> M2).
  rewrite Z.shiftl_1_l.
  assert (Ha3 : agree_off (in_blk p o) M M3).
  { apply (agree_trans (in_blk p o) (in_blk p o) _ _ M1); [done| |tauto].
    apply (agree_trans (in_blk p o) (in_blk p o) _ _ M2); [| |tauto].
    - apply agree_insert; [eauto|]. unfold in_blk. lia.
    - apply agree_insert; [eauto|done]. }
  assert (H0 : compound_inv M zid o p (M3, 1)).
  { split; simpl; [lia| | | | |done].
    - apply page_sat_insert_eq. unfold is_head, head_flags_of. zdec. simpl. by rewrite Hf.
    - apply page_sat_insert_ne; [lia|]. apply page_sat_insert_eq. simpl. apply u8_small.
      unfold MAX_ORDER in Ho. lia.
    - intros; lia.
    - intros q Hq. unfold M3. apply page_sat_insert_ne; [lia|]. unfold M2.
      destruct (Z.eq_dec q (p + 1)) as [->|Hq1].
      + apply page_sat_insert_eq. destruct Hit as [? ? ? ?]. by split.
      + apply page_sat_insert_ne; [done|]. apply page_sat_insert_ne; [lia|]. apply Hp. unfold in_blk. lia. }
  assert (Hl : returns (loop (Z.to_nat (2 ^ o) + 1) (compound_turn p (2 ^ o)) (M3, 1))
    (fun M' => compound_inv M zid o p (M', 2 ^ o))).
  { apply loop_returns with (m := fun st => Z.to_nat (2 ^ o - st.2)) (I := compound_inv M zid o p).
    - done.
    - simpl. lia.
    - intros st Hst. eapply returns_mono; [by apply (compound_turn_ok M zid o p)|].
      intros [st'|M']; [|done]. intros [Hst' E']. split; [done|].
      pose proof (ci_range _ _ _ _ _ Hst'). lia. }
  destruct (returns_inv _ _ Hl) as (M' & -> & [_ Hh' Hc' Hd' _ Ha']). simpl in *.
  exists M'. split_and!; [done| |done]. by split.
Qed.

(** ** Taking a block apart *)

Lemma page_at_some M p pg : M !! p = Some pg -> page_at M p = Ret pg.
Proof. unfold page_at. by intros ->. Qed.

Lemma zone_flags_cases zid (P : Z -> Prop) :
  valid_zid zid -> P (zone_flags 0) -> P (zone_flags 1) -> P (zone_flags 2) -> P (zone_flags zid).
Proof.
  unfold valid_zid, MAX_NR_ZONES. intros H ???.
  by assert (zid = 0 \/ zid = 1 \/ zid = 2) as [->|[->| ->]] by lia.
Qed.

Lemma flags_clear_prep zid : valid_zid zid ->
  Z.land (zone_flags zid) (Z.lnot PAGE_FLAGS_CHECK_AT_PREP) = zone_flags zid.
Proof.
  intros H. apply (zone_flags_cases zid (fun f => Z.land f (Z.lnot PAGE_FLAGS_CHECK_AT_PREP) = f)); done.
Qed.

Lemma head_flags_facts zid o : valid_zid zid ->
  Z.land (head_flags_of zid o) PAGE_FLAGS_CHECK_AT_FREE = 0 /\
  Z.land (head_flags_of zid o) (Z.lnot PAGE_FLAGS_CHECK_AT_PREP) = zone_flags zid /\
  Z.testbit (head_flags_of zid o) PG_head = negb (o =? 0) /\
  (head_flags_of zid o =? ULLONG_MAX) = false.
Proof.
  intros H. unfold head_flags_of. destruct (o =? 0).
  - apply (zone_flags_cases zid (fun f => _ f _ = 0 /\ _ f _ = f /\ _ f _ = _ /\ (f =? _) = false)); done.
  - apply (zone_flags_cases zid (fun f => Z.land (Z.lor f (bit PG_head)) PAGE_FLAGS_CHECK_AT_FREE = 0 /\
      Z.land (Z.lor f (bit PG_head)) (Z.lnot PAGE_FLAGS_CHECK_AT_PREP) = f /\
      Z.testbit (Z.lor f (bit PG_head)) PG_head = true /\ (Z.lor f (bit PG_head) =? ULLONG_MAX) = false)); done.
Qed.

Lemma tail_prepare_ok zid p q pg :
  valid_zid zid -> is_tail zid p pg ->
  exists pg', tail_prepare true p q pg = (false, pg') /\ idle zid pg'.
Proof.
  intros Hz (Hf & Ht & Hr & Hc). unfold tail_prepare, free_tail_pages_check, PageTail, compound_head.
  rewrite Hc. simpl. rewrite Z.eqb_refl. simpl.
  unfold free_pages_check. set (pg1 := clear_compound_head pg).
  assert (Hi : idle zid pg1) by (by split).
  rewrite (expected_idle zid pg1) by auto. eexists. split; [reflexivity|].
  split; simpl; auto. rewrite Hf. by apply flags_clear_prep.
Qed.

(** The state of the loop over the tail pages, after the first [i] pages. *)
Record tails_inv (M0 : mem_map) (zid o p : Z) (st : mem_map * Z * bool) : Prop := {
  ti_range : 1 <= st.1.2 <= 2 ^ o;
  ti_good : st.2 = false;
  ti_head : page_sat st.1.1 p (is_head zid o 0);
  ti_done : forall q, p < q < p + st.1.2 -> page_sat st.1.1 q (idle zid);
  ti_todo : forall q, p + st.1.2 <= q < p + 2 ^ o -> page_sat st.1.1 q (is_tail zid p);
  ti_agree : agree_off (in_blk p o) M0 st.1.1;
}.

Definition tails_taken (M0 : mem_map) (zid o p : Z) (M : mem_map) : Prop :=
  page_sat M p (is_head zid o 0) /\ (forall q, p < q < p + 2 ^ o -> page_sat M q (idle zid)) /\
  agree_off (in_blk p o) M0 M.

Lemma tails_step_ok M0 zid o p st :
  valid_zid zid -> tails_inv M0 zid o p st ->
  returns (tails_step true p (2 ^ o) st) (fun r =>
    match r with
    | inl st' => tails_inv M0 zid o p st' /\ st'.1.2 = st.1.2 + 1
    | inr (M, bad) => bad = false /\ tails_taken M0 zid o p M
    end).
Proof.
  destruct st as [[M i] bad]. intros Hz [Hr Hb Hh Hd Ht Ha]. simpl in *. subst bad.
  destruct (Z.ltb_spec i (2 ^ o)) as [Hlt|Hge].
  2:{ simpl. assert (i = 2 ^ o) as -> by lia. by split_and!. }
  destruct (Ht (p + i)) as (pg & E & Hpg); [lia|].
  destruct (tail_prepare_ok zid p (p + i) pg Hz Hpg) as (pg' & Ep & Hi).
  unfold page_at. rewrite E, bind_ret, Ep. simpl. split; [|done]. split; simpl; [lia|done| | | |].
  - apply page_sat_insert_ne; [lia|done].
  - intros q Hq. destruct (Z.eq_dec q (p + i)) as [->|Hne]; [by apply page_sat_insert_eq|].
    apply page_sat_insert_ne; [done|]. apply Hd. lia.
  - intros q Hq. apply page_sat_insert_ne; [lia|]. apply Ht. lia.
  - apply (agree_trans (in_blk p o) (in_blk p o) _ _ M); [done| |tauto].
    apply agree_insert; [eauto|]. unfold in_blk. lia.
Qed.

Lemma head_compound_order M zid o p pg :
  valid_zid zid -> o <> 0 -> M !! p = Some pg -> pflags pg = head_flags_of zid o ->
  page_sat M (p + 1) (fun pg => corder pg = o) ->
  PageCompound pg = true /\ compound_order M p = Ret o.
Proof.
  intros Hz Hne E Hf (pg1 & E1 & Hc1).
  destruct (head_flags_facts zid o Hz) as (_ & _ & HF3 & HF4).
  split; [unfold PageCompound; rewrite Hf, HF3; by zdec|].
  unfold compound_order, PageHead, PagePoisoned. rewrite (page_at_some M p pg E), bind_ret, Hf, HF4.
  rewrite BUG_ON_false, bind_ret, HF3 by done. zdec. simpl negb. cbv iota.
  by rewrite (page_at_some _ _ _ E1), bind_ret, Hc1.
Qed.

(** The loop over the tail pages. *)
Lemma tails_loop_ok M zid o p :
  valid_zid zid -> 0 < o -> block_in_use M zid o p 0 ->
  exists M', loop (Z.to_nat (2 ^ o) + 1) (tails_step true p (2 ^ o)) (M, 1, false) = Ret (M', false) /\
    tails_taken M zid o p M'.
Proof.
  intros Hz Ho [_ _ Hh _ Htl].
  pose proof (Z.pow_le_mono_r 2 1 o ltac:(lia) ltac:(lia)) as Hp2. rewrite Z.pow_1_r in Hp2.
  assert (Hl : returns (loop (Z.to_nat (2 ^ o) + 1) (tails_step true p (2 ^ o)) (M, 1, false))
    (fun '(M1, bad) => bad = false /\ tails_taken M zid o p M1)).
  { apply loop_returns with (m := fun st => Z.to_nat (2 ^ o - st.1.2)) (I := tails_inv M zid o p).
    - split; simpl; [lia|done|done|intros; lia|intros q Hq; apply Htl; lia|apply agree_refl].
    - simpl. lia.
    - intros st Hst. eapply returns_mono; [by apply (tails_step_ok M zid o p st Hz)|].
      intros [st'|[M1 b]]; [|done]. intros [Hst' E]. split; [done|].
      pose proof (ti_range _ _ _ _ _ Hst'). lia. }
  destruct (returns_inv _ _ Hl) as ([M1 b] & -> & -> & H1). eauto.
Qed.

(** [free_pages_prepare] on a block whose count has dropped to zero. *)
Lemma free_pages_prepare_ok M zid o p :
  valid_zid zid -> block_in_use M zid o p 0 ->
  exists M', free_pages_prepare M p o true = Ret (M', true) /\
    (forall q, in_blk p o q -> page_sat M' q (idle zid)) /\ agree_off (in_blk p o) M M'.
Proof.
  intros Hz Hu. pose proof Hu as [Ho Hd (pg & E & Hpg) Hco Htl]. pose proof Hpg as (Hf & _ & _ & Hc).
  destruct (head_flags_facts zid o Hz) as (HF1 & HF2 & _).
  assert (Htails : exists M1, (if negb (o =? 0) then
       (if PageCompound pg then o' ← compound_order M p; BUG_ON (negb (o' =? o)) else Ret tt);;
       loop (Z.to_nat (Z.shiftl 1 o) + 1) (tails_step (PageCompound pg) p (Z.shiftl 1 o)) (M, 1, false)
     else Ret (M, false)) = Ret (M1, false) /\ tails_taken M zid o p M1).
  { destruct (Z.eqb_spec o 0) as [->|Hne]; simpl negb; cbv iota.
    { exists M. unfold tails_taken. split_and!; [done|by exists pg|intros q; rewrite Z.pow_0_r; lia|apply agree_refl]. }
    destruct (head_compound_order M zid o p pg Hz Hne E Hf (Hco Hne)) as [-> ->].
    rewrite bind_ret, BUG_ON_false, Z.shiftl_1_l by (by rewrite Z.eqb_refl).
    apply tails_loop_ok; [done|lia|done]. }
  unfold free_pages_prepare. rewrite (page_at_some M p pg E), bind_ret.
  rewrite BUG_ON_false by (unfold PageTail; by rewrite Hc).
  destruct Htails as (M1 & -> & (pg1 & E1 & Hf1 & Ht1 & Hr1 & Hc1) & Hidle & Ha).
  rewrite bind_ret, (page_at_some _ _ _ E1), bind_ret. unfold free_pages_check.
  assert (Hexp : page_expected_state pg1 PAGE_FLAGS_CHECK_AT_FREE = true).
  { unfold page_expected_state, page_ref_count. by rewrite Ht1, Hr1, Hf1, HF1. }
  rewrite Hexp. simpl. eexists. split; [reflexivity|]. split.
  - intros q Hq. destruct (Z.eq_dec q p) as [->|Hne].
    + apply page_sat_insert_eq. split; simpl; auto. by rewrite Hf1.
    + apply page_sat_insert_ne; [done|]. apply Hidle. unfold in_blk in Hq. lia.
  - apply (agree_trans (in_blk p o) (in_blk p o) _ _ M1); [done| |tauto].
    apply agree_insert; [eauto|]. apply in_blk_head. lia.
Qed.

(** ** Reference counts *)

Lemma set_refs_ok M zid o p n n' pg :
  block_in_use M zid o p n -> M !! p = Some pg ->
  block_in_use (<[p := set_refcount pg n']> M) zid o p n' /\
  agree_off (eq p) M (<[p := set_refcount pg n']> M).
Proof.
  intros [Ho Hd (pg' & E' & Hf & Ht & Hr & Hc) Hco Htl] E. simplify_eq.
  split; [|by apply agree_insert; eauto]. split; auto.
  - by apply page_sat_insert_eq.
  - intros Hne. apply page_sat_insert_ne; [lia|]. by apply Hco.
  - intros q Hq. apply page_sat_insert_ne; [lia|]. by apply Htl.
Qed.

(** Dropping a reference. *)
Lemma put_ref_ok M zid o p n :
  block_in_use M zid o p n -> 0 < n < 2 ^ 31 ->
  exists M', put_page_testzero M p = Ret (M', n =? 1) /\ block_in_use M' zid o p (n - 1) /\
    agree_off (eq p) M M'.
Proof.
  intros Hu Hn. destruct (us_head _ _ _ _ _ Hu) as (pg & E & _ & _ & Hr & _).
  unfold put_page_testzero, page_ref_count. rewrite (page_at_some _ _ _ E), bind_ret, Hr.
  rewrite BUG_ON_false by lia. rewrite s32_small by lia.
  replace (n - 1 =? 0) with (n =? 1) by lia.
  eexists. split; [reflexivity|]. by apply (set_refs_ok M zid o p n).
Qed.
