(* ===== verification/PageNode.v ===== *)
(** * The node: allocation and freeing through the public entry points

    [__alloc_pages] and [__free_pages] on a node whose zones satisfy
    [zone_inv]: both are total; an allocated block is aligned, fresh and in use
    afterwards, and freeing a block in use returns its pages. *)

From stdpp Require Import base numbers list option gmap.
From Stdlib Require Import ZArith Lia.
From S2P Require Import Prelude Memblock Page PageAlloc BuddyFacts BuddyOps PagePcp PageZone.

(** ** Zones sharing the page map *)

Definition page_in (M : mem_map) (zid q : Z) : Prop := page_sat M q (fun pg => page_zone_id pg = zid).

Lemma idle_in M zid q : valid_zid zid -> page_sat M q (idle zid) -> page_in M zid q.
Proof.
  intros Hz (pg & E & Hi). exists pg. split; [done|]. by apply zone_id_of_flags, (idle_flags _ _ Hi).
Qed.

Lemma head_in M zid o q : valid_zid zid -> page_sat M q (head_of zid o) -> page_in M zid q.
Proof.
  intros Hz (pg & E & Hi). exists pg. split; [done|]. by apply zone_id_of_flags, (head_flags _ _ _ Hi).
Qed.

Lemma page_in_unique M z1 z2 q : page_in M z1 q -> page_in M z2 q -> z1 = z2.
Proof. intros (pg & E & <-) (pg' & E' & <-). by simplify_eq. Qed.

Lemma has_in M zid z q : zone_inv M zid z -> zone_has z q -> page_in M zid q.
Proof.
  intros Hz Hq. pose proof (bi_zid _ _ _ (zi_buddy _ _ _ Hz)) as Hv.
  destruct (zone_has_page _ _ _ _ Hz Hq) as [?|[o ?]]; [by apply idle_in|by apply (head_in M zid o)].
Qed.

(** A change confined to pages of zone [zid] leaves the other zones alone. *)
Lemma zone_inv_other M M' S zid zid2 z' z2 :
  agree_off S M M' -> (forall q, S q -> page_in M zid q /\ page_in M' zid q) ->
  zone_inv M' zid z' -> zid <> zid2 -> zone_inv M zid2 z2 -> zone_inv M' zid2 z2.
Proof.
  intros Ha HS Hz' Hne Hz. pose proof (zi_buddy _ _ _ Hz) as Hb.
  pose proof (bi_zid _ _ _ Hb) as Hv.
  assert (Hout : forall q, page_in M zid2 q -> ~ S q).
  { intros q Hq Hs. apply Hne. destruct (HS q Hs) as [Hq' _]. by apply (page_in_unique M _ _ q). }
  split; [|apply (zi_init _ _ _ Hz)|apply (zi_pcp _ _ _ Hz)|apply (zi_nodup _ _ _ Hz)|].
  - split; [done|apply (bi_len _ _ _ Hb)|apply (bi_lists _ _ _ Hb)| | |apply (bi_coalesced _ _ _ Hb)|
      apply (bi_sane _ _ _ (zi_buddy _ _ _ Hz'))].
    + intros o p Hp. destruct (bi_block _ _ _ Hb o p Hp) as (A1 & A2 & A3). split_and!; [done| |].
      * apply (page_sat_agree S M M'); [done| |done]. by apply Hout, (head_in M zid2 o).
      * intros q Hq. apply (page_sat_agree S M M'); [done| |by apply A3].
        by apply Hout, idle_in, A3.
    + intros p pg E Hbud Hzid. apply (bi_head _ _ _ Hb p pg); [|done|done].
      rewrite <- (proj1 Ha p); [done|]. intros Hs. apply Hne.
      apply (page_in_unique M' _ _ p); [by apply HS|by exists pg].
  - intros p Hp. destruct (zi_idle _ _ _ Hz p Hp) as [H1 H2]. split; [|done].
    apply (page_sat_agree S M M'); [done| |done]. by apply Hout, idle_in.
Qed.

(** A change confined to pages the zone does not hold, none of which enters the
    buddy system, keeps the zone. *)
Lemma zone_inv_frame M M' S zid z :
  zone_inv M zid z -> agree_off S M M' -> (forall q, S q -> ~ zone_has z q) ->
  (forall q, S q -> page_sat M' q (fun pg => PageBuddy pg = false)) -> zone_inv M' zid z.
Proof.
  intros Hz Ha HS Hnb. pose proof (zi_buddy _ _ _ Hz) as Hb.
  assert (Hold : forall p pg, M' !! p = Some pg -> PageBuddy pg = true -> M !! p = Some pg).
  { intros p pg E Hbud. rewrite <- (proj1 Ha p); [done|]. intros Hs.
    destruct (Hnb p Hs) as (pg' & E' & Hn). congruence. }
  split; [|apply (zi_init _ _ _ Hz)|apply (zi_pcp _ _ _ Hz)|apply (zi_nodup _ _ _ Hz)|].
  - split; [apply (bi_zid _ _ _ Hb)|apply (bi_len _ _ _ Hb)|apply (bi_lists _ _ _ Hb)| | |
      apply (bi_coalesced _ _ _ Hb)|].
    + intros o p Hp. destruct (bi_block _ _ _ Hb o p Hp) as (A1 & A2 & A3).
      assert (Hfree : forall q, in_blk p o q -> ~ S q).
      { intros q Hq Hs. apply (HS q Hs). left. by exists o, p. }
      split_and!; [done| |].
      * apply (page_sat_agree S M M'); [done| |done]. apply Hfree, in_blk_head, Hp.
      * intros q Hq. apply (page_sat_agree S M M'); [done| |by apply A3]. apply Hfree. unfold in_blk. lia.
    + intros p pg E Hbud Hzid. by apply (bi_head _ _ _ Hb p pg); [apply Hold| |].
    + intros p pg E Hbud. by apply (bi_sane _ _ _ Hb p pg); [apply Hold|].
  - intros p Hp. destruct (zi_idle _ _ _ Hz p Hp) as [H1 H2]. split; [|done].
    apply (page_sat_agree S M M'); [done| |done]. intros Hs. apply (HS p Hs). by right.
Qed.

Lemma head_zone_id zid o pg :
  valid_zid zid -> pflags pg = head_flags_of zid o -> page_zone_id pg = zid.
Proof.
  unfold head_flags_of. destruct (o =? 0); [apply zone_id_of_flags|]. intros H E.
  unfold page_zone_id. rewrite E. unfold valid_zid, MAX_NR_ZONES in H.
  assert (zid = 0 \/ zid = 1 \/ zid = 2) as [->|[->| ->]] by lia; reflexivity.
Qed.

Lemma used_page M zid o p n q :
  valid_zid zid -> block_in_use M zid o p n -> in_blk p o q ->
  page_in M zid q /\ page_sat M q (fun pg => PageBuddy pg = false).
Proof.
  intros Hv Hu Hq. unfold PageBuddy, PageType. destruct (Z.eq_dec q p) as [->|Hne].
  - destruct (us_head _ _ _ _ _ Hu) as (pg & E & Hf & Ht & _).
    split; exists pg; (split; [done|]); [by apply (head_zone_id zid o)|by rewrite Ht].
  - destruct (us_tail _ _ _ _ _ Hu q) as (pg & E & Hf & Ht & _); [unfold in_blk in Hq; lia|].
    split; exists pg; (split; [done|]); [by apply zone_id_of_flags|by rewrite Ht].
Qed.

Section node.
Context `{PfnMap}.
Context (ncpu : nat).

Record node_inv (N : node) : Prop := {
  ni_mapped : mapped (nd_map N);
  ni_small : small (nd_map N);
  ni_len : Z.of_nat (length (node_zones N)) = MAX_NR_ZONES;
  ni_zones : forall i z, node_zones N !! i = Some z ->
    zone_inv (nd_map N) (Z.of_nat i) z /\ length (pageset z) = ncpu;
}.

(** Page [q] can be handed out by some zone of the node. *)
Definition node_has (N : node) (q : Z) : Prop :=
  exists i z, node_zones N !! i = Some z /\ zone_has z q.

Lemma zone_lookup N zid :
  node_inv N -> valid_zid zid ->
  exists z, node_zones N !! Z.to_nat zid = Some z /\ rd (node_zones N) zid = Ret z /\
    zone_inv (nd_map N) zid z /\ length (pageset z) = ncpu.
Proof.
  intros HN Hv. pose proof (ni_len _ HN) as Hl. unfold valid_zid in Hv.
  destruct (lookup_lt_is_Some_2 (node_zones N) (Z.to_nat zid)) as [z Hz]; [lia|].
  exists z. destruct (ni_zones _ HN _ _ Hz) as [H1 H2]. rewrite Z2Nat.id in H1 by lia.
  split_and!; auto. apply rd_lookup; [lia|done].
Qed.

(** Writing back the zone after an operation on it. *)
Lemma node_update N zid z M' z' S :
  node_inv N -> valid_zid zid -> node_zones N !! Z.to_nat zid = Some z ->
  zone_inv M' zid z' -> length (pageset z') = length (pageset z) ->
  agree_off S (nd_map N) M' -> (forall q, S q -> page_in (nd_map N) zid q /\ page_in M' zid q) ->
  exists zs, wr (node_zones N) zid z' = Ret zs /\ node_inv (mk_node M' zs) /\
    zs = <[Z.to_nat zid := z']> (node_zones N).
Proof.
  intros HN Hv Hz Hz' Hcpu Ha HS. pose proof (ni_len _ HN) as Hl. pose proof (ni_small _ HN) as Hsm.
  unfold valid_zid in Hv. rewrite wr_in_range by lia. eexists. split; [reflexivity|]. split; [|done].
  split; simpl.
  - by apply (mapped_agree S _ _ (ni_mapped _ HN)).
  - unfold small in *. by rewrite (size_agree _ _ _ Ha).
  - by rewrite length_insert.
  - intros i z2 Hi. apply list_lookup_insert_Some in Hi as [(<- & <- & _)|[Hne Hi]].
    + rewrite Z2Nat.id by lia. split; [done|]. rewrite Hcpu. by apply (ni_zones _ HN _ _ Hz).
    + destruct (ni_zones _ HN _ _ Hi) as [H1 H2]. split; [|done].
      apply (zone_inv_other (nd_map N) M' S zid _ z' z2); auto. lia.
Qed.

Lemma node_has_update N zid z M' z' q :
  node_zones N !! Z.to_nat zid = Some z ->
  node_has (mk_node M' (<[Z.to_nat zid := z']> (node_zones N))) q <->
  zone_has z' q \/ (exists i z2, i <> Z.to_nat zid /\ node_zones N !! i = Some z2 /\ zone_has z2 q).
Proof.
  intros Hz. unfold node_has. simpl. split.
  - intros (i & z2 & Hi & Hq). apply list_lookup_insert_Some in Hi as [(<- & <- & _)|[Hne Hi]]; [by left|].
    right. exists i, z2. by split_and!.
  - intros [Hq|(i & z2 & Hne & Hi & Hq)].
    + exists (Z.to_nat zid), z'. split; [|done]. apply list_lookup_insert_eq. by apply lookup_lt_Some in Hz.
    + exists i, z2. split; [|done]. by rewrite list_lookup_insert_ne.
Qed.

(** Pages of another zone are not those of this one. *)
Lemma node_has_split N zid z q :
  node_inv N -> valid_zid zid -> node_zones N !! Z.to_nat zid = Some z ->
  node_has N q <->
  zone_has z q \/ (exists i z2, i <> Z.to_nat zid /\ node_zones N !! i = Some z2 /\ zone_has z2 q).
Proof.
  intros HN Hv Hz. unfold node_has. split.
  - intros (i & z2 & Hi & Hq). destruct (decide (i = Z.to_nat zid)) as [->|Hne].
    + simplify_eq. by left.
    + right. exists i, z2. by split_and!.
  - intros [Hq|(i & z2 & _ & Hi & Hq)]; eauto.
Qed.

(** ** Draining the other CPUs *)

(** The online CPUs other than [this]. *)
Definition others (this : Z) (online : list Z) : list Z :=
  List.filter (fun c => negb (c =? this)) online.

Lemma drain_alone this online : forall M z t,
  others this online = [] -> drain_others M z this online t = Ret (M, z, t).
Proof.
  induction online as [|c online IH]; intros M z t; simpl; [done|].
  destruct (c =? this); simpl; [apply IH|done].
Qed.

Lemma drain_others_ok zid this online : forall M z t,
  zone_inv M zid z -> mapped M -> small M ->
  Forall (fun cpu => 0 <= cpu < Z.of_nat (length (pageset z))) online ->
  exists M' z' t', drain_others M z this online t = Ret (M', z', t') /\ moved M zid z M' z' /\
    (length (pcp_pages z') <= length (pcp_pages z))%nat /\
    (t = false \/ others this online <> [] -> t' = true ->
       others this online <> [] /\ (length (pcp_pages z') < length (pcp_pages z))%nat) /\
    ((length (others this online) <= 1)%nat -> t' = false -> M' = M /\ z' = z).
Proof.
  induction online as [|cpu online IH]; intros M z t Hz Hm Hsm Hon; simpl.
  { exists M, z, t. split_and!; [done|by apply moved_refl|done|by intros [->|?]|done]. }
  inversion Hon as [|? ? Hcpu Hon']; subst. destruct (cpu =? this); simpl; [by apply IH|].
  destruct (drain_ok M zid z cpu Hz Hm Hsm Hcpu) as (M1 & z1 & b & -> & Hmv & Hlt & Heq & _).
  rewrite bind_ret. pose proof (mv_agree _ _ _ _ _ Hmv) as Ha.
  assert (Hle : (length (pcp_pages z1) <= length (pcp_pages z))%nat).
  { destruct b; [specialize (Hlt eq_refl); lia|]. by destruct (Heq eq_refl) as [_ ->]. }
  destruct (IH M1 z1 b (mv_inv _ _ _ _ _ Hmv)) as (M2 & z2 & t' & E & Hmv2 & Hle2 & Hlt2 & _).
  { by apply (mapped_agree _ M M1 Hm Ha). }
  { unfold small in *. by rewrite (size_agree _ _ _ Ha). }
  { by rewrite (mv_cpus _ _ _ _ _ Hmv). }
  exists M2, z2, t'. split_and!; [done|by apply (moved_trans _ _ _ M1 z1)|lia| |].
  - intros _ ->. split; [done|]. destruct b; [specialize (Hlt eq_refl); lia|].
    destruct (Hlt2 (or_introl eq_refl) eq_refl). lia.
  - intros Hn ->. rewrite drain_alone in E by (destruct (others this online); simpl in *; [done|lia]).
    simplify_eq. by apply Heq.
Qed.

(** ** Allocation *)

(** At most one other CPU is online, so that the [train] flag of the last drain
    speaks for all of them. *)
Definition lone_cpu (cpu : Z) (online : list Z) : Prop := (length (others cpu online) <= 1)%nat.

(** How [get_page_from_freelist] leaves its zone.  Where a failure is known to
    be justified, [lone], no block is large enough. *)
Definition got (lone : Prop) (M : mem_map) (zid : Z) (z : zone) (o : Z) (M' : mem_map) (z' : zone) (r : option Z) : Prop :=
  zone_inv M' zid z' /\ agree_off (zone_has z) M M' /\ length (pageset z') = length (pageset z) /\
  match r with
  | Some p => used M' zid o p /\ (forall q, zone_has z q <-> zone_has z' q \/ in_blk p o q)
  | None => (forall q, zone_has z' q <-> zone_has z q) /\ (lone -> exhausted z' o)
  end.

Lemma prep_got lone M zid z p o gfp M1 z1 :
  valid_zid zid -> 0 <= o < MAX_ORDER -> took M zid z p o M1 z1 ->
  exists M2, prep_new_page M1 p o gfp = Ret M2 /\ got lone M zid z o M2 z1 (Some p).
Proof.
  intros Hv Ho [Hz1 Hd Hid Hhas Ha _ Hcpu].
  destruct (prep_new_page_ok M1 zid o p gfp Hv Ho Hd) as (M2 & E & Hu & Ha2); [by apply Hid|].
  exists M2. split; [done|]. split_and!; [| |done|done|done].
  - apply (zone_inv_frame M1 M2 (in_blk p o)); [done|done|by apply Hid|].
    intros q Hq. by apply (used_page M2 zid o p 1 q).
  - apply (agree_trans _ _ _ _ _ _ Ha Ha2). intros q [?|?]; [done|]. apply Hhas. by right.
Qed.

Lemma got_moved lone M0 zid z0 M z o M' z' r :
  moved M0 zid z0 M z -> got lone M zid z o M' z' r -> got lone M0 zid z0 o M' z' r.
Proof.
  intros Hmv (Hz & Ha & Hc & Hr). split_and!; [done| | |].
  - apply (agree_trans _ _ _ _ _ _ (mv_agree _ _ _ _ _ Hmv) Ha).
    intros q [?|?]; [done|]. by apply (mv_has _ _ _ _ _ Hmv).
  - by rewrite Hc, (mv_cpus _ _ _ _ _ Hmv).
  - destruct r as [p|].
    + destruct Hr as [Hu Hf]. split; [done|]. intros q. by rewrite <- Hf, (mv_has _ _ _ _ _ Hmv).
    + destruct Hr as [Hf Hx]. split; [|done]. intros q. by rewrite Hf, (mv_has _ _ _ _ _ Hmv).
Qed.

Lemma moved_got (lone : Prop) M zid z o M' z' :
  moved M zid z M' z' -> (lone -> exhausted z' o) -> got lone M zid z o M' z' None.
Proof. intros [? ? ? ? ?] ?. by split_and!. Qed.

(** The flag of an earlier turn matters only while there is a CPU to drain. *)
Definition train_ok (cpu : Z) (online : list Z) (t : bool) : Prop := t = false \/ others cpu online <> [].

Lemma freelist_turn_ok M zid z t cpu online gfp o :
  zone_inv M zid z -> mapped M -> small M -> 0 <= o < MAX_ORDER ->
  0 <= cpu < Z.of_nat (length (pageset z)) ->
  Forall (fun c => 0 <= c < Z.of_nat (length (pageset z))) online ->
  train_ok cpu online t ->
  returns (freelist_turn cpu online gfp o (M, z, t)) (fun x =>
    match x with
    | inl (M', z', t') => train_ok cpu online t' /\ moved M zid z M' z' /\ (length (pcp_pages z') < length (pcp_pages z))%nat
    | inr (M', z', r) => got (lone_cpu cpu online) M zid z o M' z' r
    end).
Proof.
  intros Hz Hm Hsm Ho Hcpu Hon Ht. pose proof (bi_zid _ _ _ (zi_buddy _ _ _ Hz)) as Hv.
  unfold freelist_turn, alloc_fuel.
  destruct (rmqueue_ok M zid z cpu o (S (size M)) Hz Hsm Hcpu Ho) as (M1 & z1 & r & -> & Hr).
  rewrite bind_ret. destruct r as [p|].
  - destruct (prep_got (lone_cpu cpu online) M zid z p o gfp M1 z1 Hv Ho Hr) as (M2 & -> & Hg). by rewrite bind_ret.
  - destruct Hr as (-> & Hmv & Hpp & Har & Hx).
    destruct (drain_others_ok zid cpu online M z1 t (mv_inv _ _ _ _ _ Hmv) Hm Hsm)
      as (M2 & z2 & t2 & -> & Hmv2 & _ & Hlt & Hno); [by rewrite (mv_cpus _ _ _ _ _ Hmv)|].
    rewrite bind_ret. pose proof (moved_trans _ _ _ _ _ _ _ Hmv Hmv2) as Hmv3. destruct t2; simpl.
    + destruct (Hlt Ht eq_refl) as [Hne ?]. split_and!; [by right|done|]. by rewrite <- Hpp.
    + apply moved_got; [done|]. intros Hl. destruct (Hno Hl eq_refl) as [-> ->].
      intros o' p Ho' [? Hb]. apply (Hx o' p Ho'). split; [done|]. unfold fl in *. by rewrite <- Har.
Qed.

Lemma pcp_pages_bound M zid z : zone_inv M zid z -> (length (pcp_pages z) <= size M)%nat.
Proof.
  intros Hz. apply pages_bounded; [apply (zi_nodup _ _ _ Hz)|].
  intros p Hp. destruct (zi_idle _ _ _ Hz p Hp) as [Hi _]. by apply page_sat_some in Hi.
Qed.

Lemma freelist_loop M zid z cpu online gfp o :
  zone_inv M zid z -> mapped M -> small M -> 0 <= o < MAX_ORDER ->
  0 <= cpu < Z.of_nat (length (pageset z)) ->
  Forall (fun c => 0 <= c < Z.of_nat (length (pageset z))) online ->
  returns (loop (alloc_fuel M) (freelist_turn cpu online gfp o) (M, z, false)) (fun '(M', z', r) =>
    got (lone_cpu cpu online) M zid z o M' z' r).
Proof.
  intros Hz Hm Hsm Ho Hcpu Hon.
  apply loop_returns with (I := fun '(M1, z1, t) => train_ok cpu online t /\ moved M zid z M1 z1)
    (m := fun '(M1, z1, _) => length (pcp_pages z1)).
  - split; [by left|by apply moved_refl].
  - pose proof (pcp_pages_bound _ _ _ Hz). unfold alloc_fuel. lia.
  - intros [[M1 z1] t] [Ht Hmv]. pose proof (mv_agree _ _ _ _ _ Hmv) as Ha.
    pose proof (mv_cpus _ _ _ _ _ Hmv) as Hc.
    eapply returns_mono; [apply (freelist_turn_ok M1 zid z1 t cpu online gfp o)|].
    + apply (mv_inv _ _ _ _ _ Hmv).
    + by apply (mapped_agree _ M M1 Hm Ha).
    + unfold small in *. by rewrite (size_agree _ _ _ Ha).
    + done.
    + by rewrite Hc.
    + by rewrite Hc.
    + done.
    + intros [[[M2 z2] t2]|[[M2 z2] r]]; simpl.
      * intros (Ht2 & Hmv2 & ?). split_and!; [done|by apply (moved_trans _ _ _ M1 z1)|done].
      * by apply got_moved.
Qed.

(** What [__alloc_pages] promises for an order below MAX_ORDER. *)
Definition alloc_post (lone : Prop) (N : node) (zid o : Z) (N' : node) (r : option Z) : Prop :=
  node_inv N' /\ agree_off (node_has N) (nd_map N) (nd_map N') /\
  match r with
  | Some p => used (nd_map N') zid o p /\ (forall q, in_blk p o q -> ~ node_has N' q) /\
              forall q, node_has N q <-> node_has N' q \/ in_blk p o q
  | None => (forall q, node_has N' q <-> node_has N q) /\
            (lone -> forall z, node_zones N' !! Z.to_nat zid = Some z -> exhausted z o)
  end.

Lemma got_page_in lone M zid z o M' z' r q :
  zone_inv M zid z -> got lone M zid z o M' z' r -> zone_has z q -> page_in M zid q /\ page_in M' zid q.
Proof.
  intros Hz (Hz' & Ha & _ & Hr) Hq. split; [by apply (has_in M zid z)|].
  pose proof (bi_zid _ _ _ (zi_buddy _ _ _ Hz)) as Hv. destruct r as [p|].
  - destruct Hr as [Hu Hf]. apply Hf in Hq as [Hq|Hq]; [by apply (has_in M' zid z')|].
    by apply (used_page M' zid o p 1 q).
  - apply (has_in M' zid z'); [done|]. by apply Hr.
Qed.

Lemma get_page_ok N zid cpu online gfp o :
  node_inv N -> valid_zid zid -> 0 <= o < MAX_ORDER ->
  0 <= cpu < Z.of_nat ncpu -> Forall (fun c => 0 <= c < Z.of_nat ncpu) online ->
  returns (get_page_from_freelist cpu online N gfp o zid) (fun '(r, N') => alloc_post (lone_cpu cpu online) N zid o N' r).
Proof.
  intros HN Hv Ho Hcpu Hon. destruct (zone_lookup N zid HN Hv) as (z & Hz & Hrd & Hzi & Hl).
  unfold get_page_from_freelist. rewrite Hrd, bind_ret. rewrite <- Hl in Hcpu, Hon.
  destruct (returns_inv _ _ (freelist_loop (nd_map N) zid z cpu online gfp o Hzi
    (ni_mapped _ HN) (ni_small _ HN) Ho Hcpu Hon)) as ([[M' z'] r] & -> & Hg).
  rewrite bind_ret. pose proof Hg as (Hz' & Ha & Hc & Hr).
  destruct (node_update N zid z M' z' (zone_has z) HN Hv Hz Hz' Hc Ha) as (zs & -> & HN' & ->).
  { intros q Hq. by apply (got_page_in (lone_cpu cpu online) (nd_map N) zid z o M' z' r). }
  rewrite bind_ret. simpl. split_and!; [done| |].
  - apply (agree_trans _ _ _ _ _ _ Ha (agree_refl (fun _ => False) M')).
    intros q [?|[]]. exists (Z.to_nat zid), z. done.
  - destruct r as [p|].
    + destruct Hr as [Hu Hf].
      assert (Hno : forall q, in_blk p o q -> ~ node_has (mk_node M' (<[Z.to_nat zid:=z']> (node_zones N))) q).
      { intros q Hq (i & z2 & Hi & Hq2). destruct (ni_zones _ HN' i z2 Hi) as [Hz2 _].
        by apply (used_apart M' zid o p 1 _ z2 q Hz2 Hu). }
      split_and!; [done|done|]. intros q.
      rewrite (node_has_update N zid z M' z' q Hz), (node_has_split N zid z q HN Hv Hz), Hf. tauto.
    + destruct Hr as [Hf Hx]. split.
      * intros q. rewrite (node_has_update N zid z M' z' q Hz), (node_has_split N zid z q HN Hv Hz), Hf. tauto.
      * intros Hlo z2 Hz2. apply lookup_lt_Some in Hz. simpl in Hz2.
        rewrite list_lookup_insert_eq in Hz2 by done. simplify_eq. auto.
Qed.

Lemma gfp_zone_valid gfp : valid_zid (gfp_zone gfp).
Proof. unfold gfp_zone, valid_zid. repeat case_match; done. Qed.

Lemma alloc_pages_ok N cpu online gfp o :
  node_inv N -> 0 <= o -> 0 <= cpu < Z.of_nat ncpu ->
  Forall (fun c => 0 <= c < Z.of_nat ncpu) online ->
  returns (__alloc_pages cpu online N gfp o) (fun '(r, N') =>
    (o < MAX_ORDER /\ alloc_post (lone_cpu cpu online) N (gfp_zone gfp) o N' r) \/ (MAX_ORDER <= o /\ r = None /\ N' = N)).
Proof.
  intros HN Ho Hcpu Hon. unfold __alloc_pages. destruct (Z.leb_spec MAX_ORDER o) as [Hge|Hlt]; [by right|].
  eapply returns_mono; [by apply (get_page_ok N (gfp_zone gfp)); [|apply gfp_zone_valid| | |]|].
  intros [r N'] Hp. left. auto.
Qed.

(** ** Freeing *)

(** How a zone looks after a block has been given back to it. *)
Record gave (M : mem_map) (zid : Z) (z : zone) (p o : Z) (M' : mem_map) (z' : zone) : Prop := {
  gv_inv : zone_inv M' zid z';
  gv_has : forall q, zone_has z' q <-> zone_has z q \/ in_blk p o q;
  gv_agree : agree_off (zone_has z') M M';
  gv_cpus : length (pageset z') = length (pageset z);
}.

Lemma gave_block M zid z p o :
  zone_inv M zid z -> mapped M -> 0 <= o < MAX_ORDER -> (2 ^ o | p) ->
  (forall q, in_blk p o q -> page_sat M q (idle zid) /\ ~ zone_has z q) ->
  exists M' z', free_one_page M z p o = Ret (M', z') /\ gave M zid z p o M' z'.
Proof.
  intros Hz Hm Ho Hd Hp.
  assert (Hh : held M zid z o p).
  { split; [done|done|by intros q Hq; apply Hp|]. intros q Hq Hf. apply (Hp q Hq). by left. }
  destruct (free_one_page_ok M zid z p o Hm (zi_buddy _ _ _ Hz) (zi_init _ _ _ Hz) Hh)
    as (M' & z' & E & Hi & Hs & Hf & Ha).
  exists M', z'. split; [done|].
  assert (Hpp : pcp_pages z' = pcp_pages z) by (by rewrite Hs).
  assert (Hno : forall q, q ∈ pcp_pages z -> ~ is_free_page z' q).
  { intros q Hq. rewrite Hf. intros [Hq'|Hq']; [by apply (zi_idle _ _ _ Hz q Hq)|].
    apply (Hp q Hq'). by right. }
  split.
  - split; [done|by rewrite Hs; apply (zi_init _ _ _ Hz)|by rewrite Hs; apply (zi_pcp _ _ _ Hz)| |].
    + rewrite Hpp. apply (zi_nodup _ _ _ Hz).
    + intros q. rewrite Hpp. intros Hq. split; [|by apply Hno].
      destruct (zi_idle _ _ _ Hz q Hq) as [(pg & Eq & Hpg) _]. exists pg.
      by rewrite (proj1 Ha q (Hno q Hq)).
  - intros q. unfold zone_has. rewrite Hf, Hpp. tauto.
  - apply (agree_trans _ _ _ _ _ _ Ha (agree_refl (fun _ => False) M')). intros q [?|[]]. by left.
  - by rewrite Hs.
Qed.

Lemma gave_page M zid z cpu p :
  zone_inv M zid z -> mapped M -> small M -> 0 <= cpu < Z.of_nat (length (pageset z)) ->
  page_sat M p (idle zid) /\ ~ zone_has z p ->
  exists M' z', free_unref_page_commit M z cpu p = Ret (M', z') /\ gave M zid z p 0 M' z'.
Proof.
  intros Hz Hm Hsm Hcpu Hp.
  destruct (commit_ok M zid z cpu p Hz Hm Hsm Hcpu Hp) as (M' & z' & E & Hz' & Hh & Ha & _ & Hc).
  exists M', z'. split; [done|]. split; [done| | |done].
  - intros q. by rewrite Hh, in_blk_0.
  - apply (agree_trans _ _ _ _ _ _ Ha (agree_refl (fun _ => False) M')). intros q [?|[]]. by apply Hh.
Qed.

(** After the last reference is gone and the block is prepared, its pages are
    idle and every zone is intact. *)
Lemma release_ok N zid o p :
  node_inv N -> valid_zid zid -> used (nd_map N) zid o p ->
  exists M1 M2, put_page_testzero (nd_map N) p = Ret (M1, true) /\
    free_pages_prepare M1 p o true = Ret (M2, true) /\
    node_inv (mk_node M2 (node_zones N)) /\ agree_off (in_blk p o) (nd_map N) M2 /\
    (forall q, in_blk p o q -> page_sat M2 q (idle zid)) /\
    (forall q, in_blk p o q -> ~ node_has N q).
Proof.
  intros HN Hv Hu. destruct (put_ref_ok _ _ _ _ 1 Hu ltac:(lia)) as (M1 & E1 & Hu1 & Ha1).
  destruct (free_pages_prepare_ok M1 zid o p Hv Hu1) as (M2 & E2 & Hid & Ha2).
  exists M1, M2. split; [done|]. split; [done|].
  assert (Ha : agree_off (in_blk p o) (nd_map N) M2).
  { apply (agree_trans _ _ _ _ _ _ Ha1 Ha2). intros q [<-|?]; [|done].
    apply in_blk_head, (us_order _ _ _ _ _ Hu). }
  assert (Hno : forall q, in_blk p o q -> ~ node_has N q).
  { intros q Hq (i & z & Hi & Hh). destruct (ni_zones _ HN i z Hi) as [Hz _].
    by apply (used_apart (nd_map N) zid o p 1 _ z q Hz Hu). }
  split_and!; [|done|done|done]. split; simpl.
  - by apply (mapped_agree _ _ _ (ni_mapped _ HN) Ha).
  - pose proof (ni_small _ HN) as Hsm. unfold small in *. by rewrite (size_agree _ _ _ Ha).
  - apply (ni_len _ HN).
  - intros i z Hi. destruct (ni_zones _ HN i z Hi) as [Hz Hl]. split; [|done].
    apply (zone_inv_frame (nd_map N) M2 (in_blk p o)); [done|done| |].
    + intros q Hq Hh. apply (Hno q Hq). by exists i, z.
    + intros q Hq. destruct (Hid q Hq) as (pg & E & Hpg). exists pg. split; [done|].
      by apply idle_not_buddy in Hpg.
Qed.

(** The zone part of both ways to free, between the page checks and the
    write-back. *)
Lemma give_back N M2 zid o p (f : mem_map -> zone -> outcome (mem_map * zone)) :
  let N2 := mk_node M2 (node_zones N) in
  node_inv N2 -> valid_zid zid -> 0 <= o ->
  (forall q, in_blk p o q -> page_sat M2 q (idle zid)) ->
  (forall z, node_zones N !! Z.to_nat zid = Some z ->
     exists M' z', f M2 z = Ret (M', z') /\ gave M2 zid z p o M' z') ->
  exists N', (zid ← page_zone M2 p; z ← rd (node_zones N) zid; '(M, z) ← f M2 z;
      zs ← wr (node_zones N) zid z; Ret (mk_node M zs)) = Ret N' /\
    node_inv N' /\ agree_off (node_has N') M2 (nd_map N') /\
    (forall q, node_has N' q <-> node_has N2 q \/ in_blk p o q).
Proof.
  intros N2 HN2 Hv Ho Hid Hf.
  assert (Ez : page_zone M2 p = Ret zid).
  { destruct (Hid p (in_blk_head p o Ho)) as (pg & E & Hpg).
    unfold page_zone. rewrite (page_at_some _ _ _ E), bind_ret. f_equal.
    by apply zone_id_of_flags, (idle_flags _ _ Hpg). }
  destruct (zone_lookup N2 zid HN2 Hv) as (z & Hz & Hrd & Hzi & Hl). simpl in Hz, Hrd, Hzi.
  rewrite Ez, bind_ret, Hrd, bind_ret.
  destruct (Hf z Hz) as (M' & z' & -> & [Hz' Hh Ha Hc]). rewrite bind_ret.
  destruct (node_update N2 zid z M' z' (zone_has z') HN2 Hv Hz Hz' Hc Ha) as (zs & Hw & HN' & ->).
  { intros q Hq. split; [|by apply (has_in M' zid z')]. apply Hh in Hq as [Hq|Hq].
    - by apply (has_in M2 zid z).
    - by apply idle_in, Hid. }
  simpl in Hw. rewrite Hw, bind_ret. eexists. split; [reflexivity|].
  assert (Hhas : forall q, node_has (mk_node M' (<[Z.to_nat zid:=z']> (node_zones N2))) q <->
    node_has N2 q \/ in_blk p o q).
  { intros q. rewrite (node_has_update N2 zid z M' z' q Hz), (node_has_split N2 zid z q HN2 Hv Hz), Hh. tauto. }
  split_and!; [done| |done].
  apply (agree_trans _ _ _ _ _ _ Ha (agree_refl (fun _ => False) M')). intros q [Hq|[]].
  exists (Z.to_nat zid), z'. split; [|done]. simpl. apply list_lookup_insert_eq.
  by apply lookup_lt_Some in Hz.
Qed.

(** The rest of freeing once [free_pages_prepare] has left idle pages. *)
Lemma free_prepared_ok N M2 cpu zid o p :
  let N2 := mk_node M2 (node_zones N) in
  free_pages_prepare (nd_map N) p o true = Ret (M2, true) ->
  node_inv N2 -> valid_zid zid -> 0 <= cpu < Z.of_nat ncpu -> 0 <= o < MAX_ORDER -> (2 ^ o | p) ->
  (forall q, in_blk p o q -> page_sat M2 q (idle zid)) ->
  (forall q, in_blk p o q -> ~ node_has N q) ->
  exists N', free_the_page cpu N p o = Ret N' /\ node_inv N' /\ agree_off (node_has N') M2 (nd_map N') /\
    (forall q, node_has N' q <-> node_has N2 q \/ in_blk p o q).
Proof.
  intros N2 E HN2 Hv Hcpu Ho Hd Hid Hno.
  assert (Hidle : forall z q, node_zones N !! Z.to_nat zid = Some z -> in_blk p o q ->
    page_sat M2 q (idle zid) /\ ~ zone_has z q).
  { intros z q Hz Hq. split; [by apply Hid|]. intros Hh. apply (Hno q Hq). by exists (Z.to_nat zid), z. }
  assert (Hzi : forall z, node_zones N !! Z.to_nat zid = Some z ->
    zone_inv M2 zid z /\ length (pageset z) = ncpu).
  { intros z Hz. destruct (zone_lookup _ zid HN2 Hv) as (z2 & Hz2 & _ & Hi & Hl). simpl in *. by simplify_eq. }
  unfold free_the_page. destruct (Z.eqb_spec o 0) as [->|Hne].
  - unfold free_unref_page, free_pcp_prepare. rewrite E, bind_ret. simpl negb. cbv iota.
    apply (give_back N M2 zid 0 p (fun M z => free_unref_page_commit M z cpu p)); [done|done|lia|done|].
    intros z Hz. destruct (Hzi z Hz) as [Hi Hl].
    apply (gave_page M2 zid z cpu p Hi (ni_mapped _ HN2) (ni_small _ HN2)); [by rewrite Hl|].
    apply (Hidle z p Hz). by apply in_blk_0.
  - unfold __free_pages_ok. rewrite E, bind_ret. simpl negb. cbv iota.
    apply (give_back N M2 zid o p (fun M z => free_one_page M z p o)); [done|done|lia|done|].
    intros z Hz. destruct (Hzi z Hz) as [Hi Hl].
    apply (gave_block M2 zid z p o Hi (ni_mapped _ HN2)); [done|done|]. intros q Hq. by apply (Hidle z q).
Qed.

Definition free_post (N : node) (o p : Z) (N' : node) : Prop :=
  node_inv N' /\ agree_off (node_has N') (nd_map N) (nd_map N') /\
  (forall q, node_has N' q <-> node_has N q \/ in_blk p o q) /\
  (forall q, in_blk p o q -> ~ node_has N q).

Lemma free_pages_ok N cpu zid o p :
  node_inv N -> valid_zid zid -> 0 <= cpu < Z.of_nat ncpu -> used (nd_map N) zid o p ->
  exists N', __free_pages cpu N p o = Ret N' /\ free_post N o p N'.
Proof.
  intros HN Hv Hcpu Hu.
  destruct (release_ok N zid o p HN Hv Hu) as (M1 & M2 & E1 & E2 & HN2 & Ha & Hid & Hno).
  unfold __free_pages. rewrite E1, bind_ret.
  destruct (free_prepared_ok (mk_node M1 (node_zones N)) M2 cpu zid o p E2 HN2 Hv Hcpu
    (us_order _ _ _ _ _ Hu) (us_align _ _ _ _ _ Hu) Hid Hno) as (N' & E & HN' & Ha' & Hh').
  exists N'. split; [done|]. split_and!; [done| |done|done].
  apply (agree_trans _ _ _ _ _ _ Ha Ha'). intros q [Hq|Hq]; [|done]. apply Hh'. by right.
Qed.
End node.

(** ** Empty zones *)

(** A zone as [free_area_init_node] leaves it: nothing on any list. *)
Record fresh_zone (z : zone) : Prop := {
  fz_init : initialized z = true;
  fz_areas : areas z = replicate (Z.to_nat MAX_ORDER) (mk_area [] 0);
  fz_pcp : Forall (fun p => pcp_ok p /\ plist p = []) (pageset z);
}.

Lemma fresh_no_block z o p : fresh_zone z -> ~ is_block z o p.
Proof.
  intros Hz [Ho Hp]. unfold fl in Hp. rewrite (fz_areas _ Hz) in Hp.
  rewrite lookup_replicate_2 in Hp by (unfold MAX_ORDER in *; lia). by apply not_elem_of_nil in Hp.
Qed.

Lemma fresh_pcp z : fresh_zone z -> pcp_pages z = [].
Proof.
  intros Hz. unfold pcp_pages. pose proof (fz_pcp _ Hz) as Hp.
  induction Hp as [|pcp l [_ Hl] _ IH]; [done|]. simpl. by rewrite Hl.
Qed.

Definition no_buddy (M : mem_map) : Prop := forall p pg, M !! p = Some pg -> PageBuddy pg = false.

Lemma fresh_zone_inv M zid z : valid_zid zid -> no_buddy M -> fresh_zone z -> zone_inv M zid z.
Proof.
  intros Hv HM Hz. split.
  - split; [done| | | | | |].
    + by rewrite (fz_areas _ Hz).
    + intros i a Hi. rewrite (fz_areas _ Hz) in Hi. apply lookup_replicate in Hi as [-> _].
      split; [done|constructor].
    + intros o p Hb. by apply (fresh_no_block z o p) in Hb.
    + intros p pg E Hb. by rewrite (HM p pg E) in Hb.
    + intros o p _ Hb. by apply (fresh_no_block z o p) in Hb.
    + intros p pg E Hb. by rewrite (HM p pg E) in Hb.
  - apply (fz_init _ Hz).
  - eapply Forall_impl; [apply (fz_pcp _ Hz)|]. by intros pcp [? _].
  - rewrite fresh_pcp by done. constructor.
  - intros p. rewrite fresh_pcp by done. by intros ?%not_elem_of_nil.
Qed.

(** A node of empty zones. *)
Lemma fresh_node_inv `{PfnMap} ncpu N :
  mapped (nd_map N) -> small (nd_map N) -> no_buddy (nd_map N) ->
  Z.of_nat (length (node_zones N)) = MAX_NR_ZONES ->
  Forall (fun z => fresh_zone z /\ length (pageset z) = ncpu) (node_zones N) ->
  node_inv ncpu N /\ forall q, ~ node_has N q.
Proof.
  intros Hm Hs Hb Hl Hz. split.
  - split; auto. intros i z Hi. destruct (proj1 (Forall_lookup _ _) Hz i z Hi) as [Hf ?]. split; [|done].
    apply fresh_zone_inv; [|done..]. apply lookup_lt_Some in Hi. unfold valid_zid. lia.
  - intros q (i & z & Hi & Hh). destruct (proj1 (Forall_lookup _ _) Hz i z Hi) as [Hf _].
    destruct Hh as [(o & p & Hp & _)|Hq]; [by apply (fresh_no_block z o p)|].
    rewrite fresh_pcp in Hq by done. by apply not_elem_of_nil in Hq.
Qed.
