(* ===== verification/PageClient.v ===== *)
(** * Users of the page allocator

    Reference counts on blocks in use, and the behaviour of a user that
    allocates blocks, takes and drops references to any of their pages, and
    frees them, in any order and from any CPU. *)

From stdpp Require Import base numbers list option gmap.
From Stdlib Require Import ZArith Lia.
From S2P Require Import Prelude Memblock Page PageAlloc BuddyFacts BuddyOps PagePcp PageZone PageNode.

Section client.
Context `{PfnMap}.
Context (ncpu : nat).

Definition cpu_ok (cpu : Z) : Prop := 0 <= cpu < Z.of_nat ncpu.

(** ** References *)

(** A change of the reference count of a block in use keeps the node. *)
Lemma refs_node N zid o p n n' pg :
  node_inv ncpu N -> valid_zid zid -> block_in_use (nd_map N) zid o p n -> n <> 0 ->
  nd_map N !! p = Some pg ->
  node_inv ncpu (mk_node (<[p := set_refcount pg n']> (nd_map N)) (node_zones N)).
Proof.
  intros HN Hv Hu Hn E. destruct (set_refs_ok _ _ _ _ _ n' _ Hu E) as [Hu' Ha].
  pose proof (in_blk_head p o ltac:(apply Hu)) as Hp. split; simpl.
  - by apply (mapped_agree _ _ _ (ni_mapped _ _ HN) Ha).
  - pose proof (ni_small _ _ HN) as Hsm. unfold small in *. by rewrite (size_agree _ _ _ Ha).
  - apply (ni_len _ _ HN).
  - intros i z Hi. destruct (ni_zones _ _ HN i z Hi) as [Hz Hl]. split; [|done].
    apply (zone_inv_frame (nd_map N) _ (eq p)); [done|done| |]; intros q <-.
    + by apply (used_apart (nd_map N) zid o p n (Z.of_nat i) z p).
    + by apply (used_page _ zid o p n' p).
Qed.

Lemma free_shared_ok N cpu zid o p n :
  node_inv ncpu N -> valid_zid zid -> block_in_use (nd_map N) zid o p n -> 1 < n < 2 ^ 31 ->
  exists N', __free_pages cpu N p o = Ret N' /\ node_inv ncpu N' /\ node_zones N' = node_zones N /\
    block_in_use (nd_map N') zid o p (n - 1) /\ agree_off (eq p) (nd_map N) (nd_map N').
Proof.
  intros HN Hv Hu Hn. destruct (us_head _ _ _ _ _ Hu) as (pg & E & _ & _ & Hr & _).
  unfold __free_pages, put_page_testzero, page_ref_count. rewrite (page_at_some _ _ _ E), !bind_ret, Hr.
  rewrite BUG_ON_false by lia. rewrite s32_small by lia.
  replace (n - 1 =? 0) with false by lia. eexists. split; [reflexivity|].
  destruct (set_refs_ok _ _ _ _ _ (n - 1) _ Hu E). split_and!; [|done..].
  apply (refs_node N zid o p n); auto; lia.
Qed.

(** [get_page] on any page of the block adds one reference to it. *)
Lemma get_ref_ok N zid o p n q :
  node_inv ncpu N -> valid_zid zid -> block_in_use (nd_map N) zid o p n -> 1 <= n < 2 ^ 31 - 1 ->
  in_blk p o q ->
  exists N', get_page N q = Ret N' /\ node_inv ncpu N' /\ node_zones N' = node_zones N /\
    block_in_use (nd_map N') zid o p (n + 1) /\ agree_off (eq p) (nd_map N) (nd_map N').
Proof.
  intros HN Hv Hu Hn Hq. destruct (us_head _ _ _ _ _ Hu) as (pg & E & _ & _ & Hr & _).
  destruct (used_compound_head _ _ _ _ _ _ Hu Hq) as (pq & Eq & Hh).
  unfold get_page, page_ref_count. rewrite (page_at_some _ _ _ Eq), bind_ret, Hh.
  rewrite (page_at_some _ _ _ E), bind_ret, Hr. rewrite BUG_ON_false by lia. rewrite s32_small by lia.
  eexists. split; [reflexivity|].
  destruct (set_refs_ok _ _ _ _ _ (n + 1) _ Hu E). split_and!; [|done..].
  apply (refs_node N zid o p n); auto; lia.
Qed.

(** [put_page] on any page of a block is [__free_pages] on the block. *)
Lemma put_page_free N cpu zid o p n q :
  valid_zid zid -> block_in_use (nd_map N) zid o p n -> 0 < n < 2 ^ 31 -> in_blk p o q ->
  put_page cpu N q = __free_pages cpu N p o.
Proof.
  intros Hv Hu Hn Hq. destruct (used_compound_head _ _ _ _ _ _ Hu Hq) as (pq & Eq & Hh).
  unfold put_page, __free_pages. rewrite (page_at_some _ _ _ Eq), bind_ret, Hh.
  destruct (put_ref_ok _ _ _ _ _ Hu Hn) as (M' & -> & Hu' & _). rewrite !bind_ret.
  destruct (n =? 1); [|done]. destruct (us_head _ _ _ _ _ Hu') as (pg & E & Hf & _ & _ & Hc).
  simpl. rewrite (page_at_some _ _ _ E), bind_ret. unfold free_the_page.
  destruct (Z.eqb_spec o 0) as [->|Hne].
  - unfold PageCompound, PageTail. rewrite Hc, Hf.
    destruct (head_flags_facts zid 0 Hv) as (_ & _ & -> & _). done.
  - destruct (head_compound_order M' zid o p pg Hv Hne E Hf) as [-> Ho]; [by apply Hu'|].
    unfold free_compound_page. simpl. by rewrite Ho, bind_ret.
Qed.

(** ** A user *)

(** The blocks a user holds: first page to order and references. *)
Abbreviation holding := (gmap Z (Z * Z)).

Definition drop_ref (out : holding) (p : Z) : holding :=
  match out !! p with
  | Some (o, n) => if n =? 1 then delete p out else <[p := (o, n - 1)]> out
  | None => out
  end.

Inductive pg_op : Type :=
  | op_alloc (cpu gfp order : Z)
  | op_get (p off : Z)          (* get_page on page [p + off] of a held block *)
  | op_put (cpu p off : Z)      (* put_page likewise *)
  | op_free (cpu p : Z).        (* __free_pages *)

Definition within (o off : Z) : bool := (0 <=? off) && (off <? 2 ^ o).

(** A request that names no held block does nothing: the user is correct. *)
Definition client_step (online : list Z) (st : node * holding) (op : pg_op)
  : outcome (node * holding) :=
  let '(N, out) := st in
  match op with
  | op_alloc cpu gfp order =>
      '(r, N) ← __alloc_pages cpu online N gfp order;
      Ret (N, match r with Some p => <[p := (order, 1)]> out | None => out end)
  | op_get p off =>
      match out !! p with
      | Some (o, n) =>
          if within o off && (n <? 2 ^ 31 - 1)
          then N ← get_page N (p + off); Ret (N, <[p := (o, n + 1)]> out)
          else Ret (N, out)
      | None => Ret (N, out)
      end
  | op_put cpu p off =>
      match out !! p with
      | Some (o, n) =>
          if within o off then N ← put_page cpu N (p + off); Ret (N, drop_ref out p)
          else Ret (N, out)
      | None => Ret (N, out)
      end
  | op_free cpu p =>
      match out !! p with
      | Some (o, n) => N ← __free_pages cpu N p o; Ret (N, drop_ref out p)
      | None => Ret (N, out)
      end
  end.

Fixpoint client_run (online : list Z) (st : node * holding) (ops : list pg_op)
  : outcome (node * holding) :=
  match ops with
  | [] => Ret st
  | op :: ops => st ← client_step online st op; client_run online st ops
  end.

Definition valid_op (op : pg_op) : Prop :=
  match op with
  | op_alloc cpu _ order => cpu_ok cpu /\ 0 <= order
  | op_get _ _ => True
  | op_put cpu _ _ | op_free cpu _ => cpu_ok cpu
  end.

Definition holds (out : holding) (q : Z) : Prop :=
  exists p o n, out !! p = Some (o, n) /\ in_blk p o q.

(** Every page the node or the user has. *)
Definition owned (st : node * holding) (q : Z) : Prop := node_has st.1 q \/ holds st.2 q.

Record client_inv (st : node * holding) : Prop := {
  cl_node : node_inv ncpu st.1;
  cl_used : forall p o n, st.2 !! p = Some (o, n) ->
    1 <= n < 2 ^ 31 /\ exists zid, valid_zid zid /\ block_in_use (nd_map st.1) zid o p n;
}.

(** Two held blocks never overlap, and no held page is free. *)
Lemma client_disjoint st p1 o1 n1 p2 o2 n2 q :
  client_inv st -> st.2 !! p1 = Some (o1, n1) -> st.2 !! p2 = Some (o2, n2) -> p1 <> p2 ->
  in_blk p1 o1 q -> ~ in_blk p2 o2 q.
Proof.
  intros HC E1 E2 Hne I1 I2. destruct (cl_used _ HC _ _ _ E1) as [_ (z1 & _ & U1)].
  destruct (cl_used _ HC _ _ _ E2) as [_ (z2 & _ & U2)].
  by apply Hne, (used_same_head _ _ _ _ _ _ _ _ _ _ U1 U2 I1 I2).
Qed.

Lemma client_apart st q : client_inv st -> holds st.2 q -> ~ node_has st.1 q.
Proof.
  intros HC (p & o & n & E & Hq) (i & z & Hi & Hh).
  destruct (cl_used _ HC _ _ _ E) as [Hn (zid & _ & Hu)].
  destruct (ni_zones _ _ (cl_node _ HC) i z Hi) as [Hz _].
  apply (used_apart _ zid o p n _ z q Hz Hu); [lia|done..].
Qed.
(** ** Every step is safe *)

Lemma holding_insert (out : holding) p o n q :
  holds (<[p := (o, n)]> out) q <-> in_blk p o q \/ holds (delete p out) q.
Proof.
  split.
  - intros (p' & o' & n' & E & Hq). destruct (Z.eq_dec p' p) as [->|Hne].
    + rewrite lookup_insert_eq in E. simplify_eq. by left.
    + rewrite lookup_insert_ne in E by done. right. exists p', o', n'.
      by rewrite lookup_delete_ne.
  - intros [Hq|(p' & o' & n' & E & Hq)].
    + exists p, o, n. by rewrite lookup_insert_eq.
    + apply lookup_delete_Some in E as [Hne E]. exists p', o', n'. by rewrite lookup_insert_ne.
Qed.

Lemma holding_delete (out : holding) p o n q :
  out !! p = Some (o, n) -> holds out q <-> in_blk p o q \/ holds (delete p out) q.
Proof. intros E. rewrite <- (holding_insert out p o n). by rewrite insert_id. Qed.

Lemma holding_drop (out : holding) p o n q :
  out !! p = Some (o, n) ->
  holds (drop_ref out p) q <-> (n <> 1 /\ in_blk p o q) \/ holds (delete p out) q.
Proof.
  intros E. unfold drop_ref. rewrite E. destruct (Z.eqb_spec n 1); [tauto|].
  rewrite holding_insert. tauto.
Qed.

(** The blocks a step does not concern keep their descriptors. *)
Lemma others_used st N' (S : Z -> Prop) p p' o' n' :
  client_inv st -> agree_off S (nd_map st.1) (nd_map N') ->
  (forall q, S q -> node_has st.1 q \/ exists o n, st.2 !! p = Some (o, n) /\ in_blk p o q) ->
  delete p st.2 !! p' = Some (o', n') ->
  1 <= n' < 2 ^ 31 /\ exists zid, valid_zid zid /\ block_in_use (nd_map N') zid o' p' n'.
Proof.
  intros HC Ha HS E. apply lookup_delete_Some in E as [Hne E].
  destruct (cl_used _ HC _ _ _ E) as [Hn (zid & Hv & Hu)]. split; [done|]. exists zid. split; [done|].
  apply (used_agree S (nd_map st.1)); [done| |done]. intros q Hq HSq.
  apply HS in HSq as [Hh|(o & n & Ep & Hp)].
  - apply (client_apart st q HC); [|done]. by exists p', o', n'.
  - by apply (client_disjoint st p o n p' o' n' q HC).
Qed.

Definition good_step (st : node * holding) (st' : node * holding) : Prop :=
  client_inv st' /\ forall q, owned st' q <-> owned st q.

Lemma good_refl st : client_inv st -> good_step st st.
Proof. by split. Qed.

(** A step that leaves block [p] in use with [n'] references. *)
Lemma good_refs N out p o n n' N' zid :
  client_inv (N, out) -> out !! p = Some (o, n) -> 1 <= n' < 2 ^ 31 -> valid_zid zid ->
  node_inv ncpu N' -> node_zones N' = node_zones N ->
  block_in_use (nd_map N') zid o p n' -> agree_off (eq p) (nd_map N) (nd_map N') ->
  good_step (N, out) (N', <[p := (o, n')]> out).
Proof.
  intros HC E Hn' Hv HN' Hz Hu Ha. pose proof (in_blk_head p o ltac:(apply Hu)) as Hp. split; [split|]; simpl.
  - done.
  - intros p' o' k E'. destruct (Z.eq_dec p' p) as [->|Hne].
    + rewrite lookup_insert_eq in E'. simplify_eq. eauto.
    + rewrite lookup_insert_ne in E' by done.
      apply (others_used (N, out) N' (eq p) p); [done|done| |by rewrite lookup_delete_ne].
      intros q <-. right. eauto.
  - intros q. unfold owned, node_has. simpl. rewrite Hz, holding_insert, <- (holding_delete out p o n); done.
Qed.

Lemma drop_ok N out cpu p o n :
  client_inv (N, out) -> cpu_ok cpu -> out !! p = Some (o, n) ->
  exists N', __free_pages cpu N p o = Ret N' /\ good_step (N, out) (N', drop_ref out p).
Proof.
  intros HC Hcpu E. destruct (cl_used _ HC _ _ _ E) as [Hn (zid & Hv & Hu)]. simpl in Hu.
  destruct (Z.eq_dec n 1) as [->|Hne].
  - destruct (free_pages_ok ncpu N cpu zid o p (cl_node _ HC) Hv Hcpu Hu) as (N' & E' & HN' & Ha & Hh & Hno).
    exists N'. split; [done|]. unfold drop_ref. rewrite E. simpl. split; [split|]; simpl; [done| |].
    + intros p' o' k Ek. apply (others_used (N, out) N' (node_has N') p); [done|done| |done].
      intros q Hq. apply Hh in Hq as [?|?]; [by left|right; eauto].
    + intros q. unfold owned. simpl. rewrite Hh, (holding_delete out p o 1 q E). tauto.
  - destruct (free_shared_ok N cpu zid o p n (cl_node _ HC) Hv Hu) as (N' & E' & HN' & Hz & Hu' & Ha); [lia|].
    exists N'. split; [done|]. unfold drop_ref. rewrite E. replace (n =? 1) with false by lia.
    apply (good_refs N out p o n (n - 1) N' zid); auto; lia.
Qed.

Lemma alloc_step_ok N out cpu online gfp o :
  client_inv (N, out) -> cpu_ok cpu -> Forall cpu_ok online -> 0 <= o ->
  returns (client_step online (N, out) (op_alloc cpu gfp o)) (good_step (N, out)).
Proof.
  intros HC Hcpu Hon Ho. simpl.
  destruct (returns_inv _ _ (alloc_pages_ok ncpu N cpu online gfp o (cl_node _ HC) Ho Hcpu Hon))
    as ([r N'] & -> & [[Hlt (HN' & Ha & Hr)]|(_ & -> & ->)]); rewrite bind_ret; simpl; [|by apply good_refl].
  destruct r as [p|].
  - destruct Hr as (Hu & Hno & Hh).
    assert (E : out !! p = None).
    { destruct (out !! p) as [[o' n']|] eqn:E; [|done]. exfalso.
      assert (Hp : in_blk p o p) by (by apply in_blk_head).
      apply (client_apart (N, out) p HC); [|apply Hh; by right].
      destruct (cl_used _ HC _ _ _ E) as [_ (? & _ & Hu')].
      exists p, o', n'. split; [done|]. apply in_blk_head, Hu'. }
    split; [split|]; simpl; [done| |].
    + intros p' o' k Ek. destruct (Z.eq_dec p' p) as [->|Hne].
      * rewrite lookup_insert_eq in Ek. simplify_eq. split; [lia|].
        exists (gfp_zone gfp). split; [apply gfp_zone_valid|done].
      * rewrite lookup_insert_ne in Ek by done.
        apply (others_used (N, out) N' (node_has N) p); [done|done|by left|by rewrite lookup_delete_ne].
    + intros q. unfold owned. simpl. rewrite holding_insert, delete_id, Hh by done. tauto.
  - destruct Hr as [Hh _]. split; [split|]; simpl; [done| |].
    + intros p' o' k Ek.
      apply (others_used (N, out) N' (node_has N) (p' + 1)); [done|done|by left|].
      rewrite lookup_delete_ne; [done|lia].
    + intros q. unfold owned. simpl. by rewrite Hh.
Qed.

Lemma client_step_ok st online op :
  client_inv st -> Forall cpu_ok online -> valid_op op ->
  returns (client_step online st op) (good_step st).
Proof.
  destruct st as [N out]. intros HC Hon Hop. pose proof (good_refl _ HC) as Hsame.
  destruct op as [cpu gfp o|p off|cpu p off|cpu p]; [by apply alloc_step_ok; try apply Hop|simpl..];
    (destruct (out !! p) as [[o n]|] eqn:E; [|exact Hsame]);
    destruct (cl_used _ HC _ _ _ E) as [Hn (zid & Hv & Hu)]; simpl in Hu.
  - destruct (within o off && (n <? 2 ^ 31 - 1)) eqn:Hw; [|exact Hsame].
    destruct (get_ref_ok N zid o p n (p + off) (cl_node _ HC) Hv Hu) as (N' & -> & HN' & Hz & Hu' & Ha);
      [lia|unfold within, in_blk in *; lia|].
    rewrite bind_ret. apply (good_refs N out p o n (n + 1) N' zid); auto; lia.
  - destruct (within o off) eqn:Hw; [|exact Hsame].
    rewrite (put_page_free N cpu zid o p n) by (auto; unfold within, in_blk in *; lia).
    destruct (drop_ok N out cpu p o n HC Hop E) as (N' & -> & HG). by rewrite bind_ret.
  - destruct (drop_ok N out cpu p o n HC Hop E) as (N' & -> & HG). by rewrite bind_ret.
Qed.

Lemma client_run_ok online ops : forall st,
  client_inv st -> Forall cpu_ok online -> Forall valid_op ops ->
  returns (client_run online st ops) (good_step st).
Proof.
  induction ops as [|op ops IH]; intros st HC Hon Hops; simpl; [by apply good_refl|].
  inversion Hops as [|? ? Hop Hops']; subst.
  destruct (returns_inv _ _ (client_step_ok st online op HC Hon Hop)) as (st1 & -> & HC1 & Ho1).
  rewrite bind_ret. eapply returns_mono; [by apply IH|]. intros st2 [HC2 Ho2].
  split; [done|]. intros q. by rewrite Ho2.
Qed.
End client.
