(* ===== verification/PageSpec.v ===== *)
(** * What the page allocator promises

    The theorems a user of kernel/mm/page_alloc.c relies on: safety of every
    sequence of requests, the contracts of allocation and freeing, and the
    behaviour of the buddy system underneath. *)

From stdpp Require Import base numbers list option gmap.
From Stdlib Require Import ZArith Lia.
From S2P Require Import Prelude Memblock Page PageAlloc BuddyFacts BuddyOps PagePcp PageZone PageNode PageClient.

(** ** Contracts *)

Section contracts.
Context `{PfnMap}.

(** C13: Any user that allocates blocks, takes and drops references to any of
    their pages and frees them, on any CPUs and in any order, never runs into a
    BUG, an invalid access or an unbounded loop.  All the while every block it
    holds is intact and no two of them overlap, none of their pages is free,
    and pages are neither lost nor made up. *)
Theorem page_allocator_safe ncpu online st ops :
  client_inv ncpu st -> Forall (cpu_ok ncpu) online -> Forall (valid_op ncpu) ops ->
  exists st', client_run online st ops = Ret st' /\ client_inv ncpu st' /\
    (forall q, owned st' q <-> owned st q) /\
    (forall q, holds st'.2 q -> ~ node_has st'.1 q) /\
    (forall p1 o1 n1 p2 o2 n2 q, st'.2 !! p1 = Some (o1, n1) -> st'.2 !! p2 = Some (o2, n2) ->
       p1 <> p2 -> in_blk p1 o1 q -> ~ in_blk p2 o2 q).
Proof.
  intros HC Hon Hops.
  destruct (returns_inv _ _ (client_run_ok ncpu online ops st HC Hon Hops)) as (st' & E & HC' & Ho).
  exists st'. split_and!; [done..| |].
  - intros q. by apply (client_apart ncpu).
  - intros p1 o1 n1 p2 o2 n2 q. by apply (client_disjoint ncpu).
Qed.

(** C14: [__alloc_pages] always returns and keeps the node.  An order below
    MAX_ORDER yields either a naturally aligned block of the requested zone
    that was on the node's lists and is now in use, all of it and nothing else
    having left the lists, or NULL without losing a page; with at most one
    other CPU online, NULL means that no free block of the zone is large enough.
    A larger order yields NULL at once. *)
Theorem alloc_pages_spec ncpu N cpu online gfp o :
  node_inv ncpu N -> 0 <= o -> cpu_ok ncpu cpu -> Forall (cpu_ok ncpu) online ->
  (MAX_ORDER <= o /\ __alloc_pages cpu online N gfp o = Ret (None, N)) \/
  (exists p N', __alloc_pages cpu online N gfp o = Ret (Some p, N') /\ node_inv ncpu N' /\
     used (nd_map N') (gfp_zone gfp) o p /\ (forall q, in_blk p o q -> ~ node_has N' q) /\
     (forall q, node_has N q <-> node_has N' q \/ in_blk p o q) /\
     agree_off (node_has N) (nd_map N) (nd_map N')) \/
  (exists N', __alloc_pages cpu online N gfp o = Ret (None, N') /\ node_inv ncpu N' /\
     (forall q, node_has N' q <-> node_has N q) /\
     agree_off (node_has N) (nd_map N) (nd_map N') /\
     (lone_cpu cpu online -> forall z, node_zones N' !! Z.to_nat (gfp_zone gfp) = Some z ->
        exhausted z o)).
Proof.
  intros HN Ho Hcpu Hon.
  destruct (returns_inv _ _ (alloc_pages_ok ncpu N cpu online gfp o HN Ho Hcpu Hon))
    as ([[p|] N'] & -> & [[_ (HN' & Ha & Hr)]|(Hge & Hx & HN')]); simplify_eq; [| |by left].
  - right. left. exists p, N'. by destruct Hr as (? & ? & ?).
  - right. right. exists N'. by destruct Hr as (? & ?).
Qed.

Lemma get_put_page N cpu zid o p n q1 q2 :
  valid_zid zid -> block_in_use (nd_map N) zid o p n -> 1 <= n < 2 ^ 31 - 1 ->
  in_blk p o q1 -> in_blk p o q2 ->
  exists N', get_page N q1 = Ret N' /\ block_in_use (nd_map N') zid o p (n + 1) /\
    put_page cpu N' q2 = Ret N.
Proof.
  intros Hv Hu Hn H1 H2. destruct (us_head _ _ _ _ _ Hu) as (pg & E & _ & _ & Hr & _).
  destruct (used_compound_head _ _ _ _ _ _ Hu H1) as (pq & Eq & Hh).
  unfold get_page, page_ref_count. rewrite (page_at_some _ _ _ Eq), bind_ret, Hh.
  rewrite (page_at_some _ _ _ E), bind_ret, Hr. rewrite BUG_ON_false by lia. rewrite s32_small by lia.
  destruct (set_refs_ok _ _ _ _ _ (n + 1) _ Hu E) as [Hu' _].
  eexists. split; [reflexivity|]. split; [done|].
  rewrite (put_page_free _ cpu zid o p (n + 1)) by (auto; lia).
  unfold __free_pages, put_page_testzero, page_ref_count. simpl.
  rewrite (page_at_some _ p _ (lookup_insert_eq _ _ _)), !bind_ret. simpl.
  rewrite BUG_ON_false by lia. rewrite s32_small by lia. replace (n + 1 - 1 =? 0) with false by lia.
  rewrite insert_insert_eq. unfold set_refcount. simpl. replace (n + 1 - 1) with (refcount pg) by lia.
  destruct N as [M zs], pg. simpl in *. by rewrite insert_id.
Qed.

(** [__free_pages] on a block in use whose last reference is dropped
    returns exactly its pages to the lists; no other page changes hands, and no
    descriptor outside the lists changes.  A reference taken with [get_page] and
    dropped with [put_page], through any two pages of the same block, leaves the
    node as it was. *)
Lemma free_pages_exact ncpu N cpu zid o p :
  valid_zid zid ->
  (node_inv ncpu N -> cpu_ok ncpu cpu -> used (nd_map N) zid o p ->
    exists N', __free_pages cpu N p o = Ret N' /\ node_inv ncpu N' /\
      (forall q, node_has N' q <-> node_has N q \/ in_blk p o q) /\
      (forall q, in_blk p o q -> ~ node_has N q) /\
      agree_off (node_has N') (nd_map N) (nd_map N')) /\
  (forall n q1 q2, block_in_use (nd_map N) zid o p n -> 1 <= n < 2 ^ 31 - 1 -> in_blk p o q1 -> in_blk p o q2 ->
    exists N', get_page N q1 = Ret N' /\ block_in_use (nd_map N') zid o p (n + 1) /\
      put_page cpu N' q2 = Ret N).
Proof.
  intros Hv. split.
  - intros HN Hcpu Hu. destruct (free_pages_ok ncpu N cpu zid o p HN Hv Hcpu Hu) as (N' & E & ? & ? & ? & ?).
    by exists N'.
  - intros n q1 q2 Hu Hn H1 H2. by apply (get_put_page N cpu zid o p n q1 q2).
Qed.

(** ** The buddy system *)

(** A run held next to the freed one is still held afterwards. *)
Lemma held_after_free M zid z p1 o1 M' z' p2 o2 :
  free_effect zid M z p1 o1 M' z' -> held M zid z o2 p2 ->
  (forall q, in_blk p1 o1 q -> ~ in_blk p2 o2 q) -> held M' zid z' o2 p2.
Proof.
  intros (_ & _ & Hf & Ha) [Ho Hd Hid Hap] Hdis.
  assert (Hno : forall q, in_blk p2 o2 q -> ~ is_free_page z' q).
  { intros q Hq Hff. apply Hf in Hff as [?|?]; [by apply (Hap q)|by apply (Hdis q)]. }
  split; [done|done| |done]. intros q Hq. apply (page_sat_agree _ M M' q _ Ha); auto.
Qed.

Lemma free_commutes M zid z p1 o1 p2 o2 :
  mapped M -> buddy_inv M zid z -> initialized z = true ->
  held M zid z o1 p1 -> held M zid z o2 p2 -> (forall q, in_blk p1 o1 q -> ~ in_blk p2 o2 q) ->
  exists Ma za Mb zb,
    ('(M, z) ← __free_one_page M z p1 o1; __free_one_page M z p2 o2) = Ret (Ma, za) /\
    ('(M, z) ← __free_one_page M z p2 o2; __free_one_page M z p1 o1) = Ret (Mb, zb) /\
    forall o p, is_block za o p <-> is_block zb o p.
Proof.
  assert (Hone : forall p1 o1 p2 o2, mapped M -> buddy_inv M zid z -> initialized z = true ->
    held M zid z o1 p1 -> held M zid z o2 p2 -> (forall q, in_blk p1 o1 q -> ~ in_blk p2 o2 q) ->
    exists Ma za, ('(M, z) ← __free_one_page M z p1 o1; __free_one_page M z p2 o2) = Ret (Ma, za) /\
      buddy_inv Ma zid za /\
      forall q, is_free_page za q <-> is_free_page z q \/ in_blk p1 o1 q \/ in_blk p2 o2 q).
  { clear. intros p1 o1 p2 o2 Hm Hi Hz H1 H2 Hdis.
    destruct (free_one_page_ok M zid z p1 o1 Hm Hi Hz H1) as (M1 & z1 & -> & He).
    pose proof He as (Hi1 & Hs1 & Hf1 & Ha1). rewrite bind_ret.
    destruct (free_one_page_ok M1 zid z1 p2 o2) as (M2 & z2 & E & Hi2 & _ & Hf2 & _);
      [by apply (mapped_agree _ M _ Hm Ha1)|done|by rewrite Hs1|by apply (held_after_free M zid z p1 o1)|].
    exists M2, z2. split_and!; [done..|]. intros q. rewrite Hf2, Hf1. tauto. }
  intros Hm Hi Hz H1 H2 Hdis.
  destruct (Hone p1 o1 p2 o2 Hm Hi Hz H1 H2 Hdis) as (Ma & za & Ea & Hia & Hfa).
  destruct (Hone p2 o2 p1 o1 Hm Hi Hz H2 H1) as (Mb & zb & Eb & Hib & Hfb).
  { intros q Hq2 Hq1. by apply (Hdis q). }
  exists Ma, za, Mb, zb. split_and!; [done..|]. intros o p.
  split; [apply (blocks_determined Ma zid za Mb zid zb Hia Hib)|apply (blocks_determined Mb zid zb Ma zid za Hib Hia)];
    intros x; rewrite Hfa, Hfb; tauto.
Qed.

(** C15: [__free_one_page] on a run of idle pages outside the lists ends in a
    fully coalesced buddy system whose free pages are the old ones and the run;
    the order in which two runs are freed does not matter: the free lists end
    up holding the same blocks. *)
Theorem free_one_page_spec M zid z p o :
  mapped M -> buddy_inv M zid z -> initialized z = true -> held M zid z o p ->
  (exists M' z', __free_one_page M z p o = Ret (M', z') /\ buddy_inv M' zid z' /\
    (forall q, is_free_page z' q <-> is_free_page z q \/ in_blk p o q) /\
    z' = set_areas z (areas z') /\ agree_off (is_free_page z') M M') /\
  (forall p2 o2, held M zid z o2 p2 -> (forall q, in_blk p o q -> ~ in_blk p2 o2 q) ->
    exists Ma za Mb zb,
      ('(M, z) ← __free_one_page M z p o; __free_one_page M z p2 o2) = Ret (Ma, za) /\
      ('(M, z) ← __free_one_page M z p2 o2; __free_one_page M z p o) = Ret (Mb, zb) /\
      forall o' p', is_block za o' p' <-> is_block zb o' p').
Proof.
  intros Hm Hi Hz Hh. split.
  - destruct (free_one_page_ok M zid z p o Hm Hi Hz Hh) as (M' & z' & E & ? & ? & ? & ?). by exists M', z'.
  - intros p2 o2 H2 Hd. by apply (free_commutes M zid z p o p2 o2).
Qed.

Lemma rmqueue_free M zid z o M1 z1 p :
  mapped M -> buddy_inv M zid z -> initialized z = true -> 0 <= o < MAX_ORDER ->
  __rmqueue_smallest M z o = Ret (Some (M1, z1, p)) ->
  exists M2 z2, __free_one_page M1 z1 p o = Ret (M2, z2) /\ buddy_inv M2 zid z2 /\
    forall o' p', is_block z2 o' p' <-> is_block z o' p'.
Proof.
  intros Hm Hi Hz Ho E.
  destruct (rmqueue_smallest_ok M zid z o Hi Ho) as [[E' _]|(M' & z' & p' & c & E' & [Hi1 Hs Hh Hf Ha] & _)];
    [congruence|]. assert (M' = M1 /\ z' = z1 /\ p' = p) as (-> & -> & ->) by (split_and!; congruence).
  destruct (free_one_page_ok M1 zid z1 p o) as (M2 & z2 & E2 & Hi2 & _ & Hf2 & _);
    [by apply (mapped_agree _ M _ Hm Ha)|done|by rewrite Hs|done|].
  exists M2, z2. split_and!; [done..|]. intros o' q.
  split; [apply (blocks_determined M2 zid z2 M zid z Hi2 Hi)|apply (blocks_determined M zid z M2 zid z2 Hi Hi2)];
    intros x; rewrite Hf2, Hf; tauto.
Qed.

(** C16: [__rmqueue_smallest] fails exactly when no aligned run of that order
    is entirely free.  Otherwise it returns such a run, taken from a block of
    the smallest order that is large enough; the rest stays free; and giving the
    run back with [__free_one_page] undoes every split: the free lists hold the
    same blocks as before. *)
Theorem rmqueue_smallest_spec M zid z o :
  buddy_inv M zid z -> 0 <= o < MAX_ORDER ->
  (__rmqueue_smallest M z o = Ret None /\
   forall p, (2 ^ o | p) -> ~ (forall q, in_blk p o q -> is_free_page z q)) \/
  (exists M' z' p c r, __rmqueue_smallest M z o = Ret (Some (M', z', p)) /\
     buddy_inv M' zid z' /\ held M' zid z' o p /\ is_block z c r /\ in_blk r c p /\
     (forall o' p', o <= o' < c -> ~ is_block z o' p') /\
     (forall q, is_free_page z q <-> is_free_page z' q \/ in_blk p o q) /\
     agree_off (is_free_page z) M M' /\
     (mapped M -> initialized z = true ->
        exists M2 z2, __free_one_page M' z' p o = Ret (M2, z2) /\ buddy_inv M2 zid z2 /\
          forall o' p', is_block z2 o' p' <-> is_block z o' p')).
Proof.
  intros Hi Ho.
  destruct (rmqueue_smallest_ok M zid z o Hi Ho) as [[E Hx]|(M' & z' & p & c & E & Ht & Hb & Hc & Hmin)].
  - left. split; [done|]. intros p Hd Hf.
    destruct (region_in_block M zid z Hi o (proj1 Ho) (proj2 Ho) p Hd Hf) as (o' & p' & Hb & Hle & _).
    by apply (Hx o' p').
  - right. destruct Ht. exists M', z', p, c, p. split_and!; try done; [apply in_blk_head; lia|].
    intros Hm Hz. by apply (rmqueue_free M zid z o M' z' p).
Qed.

(** [free_pcppages_bulk] moves exactly the [count] oldest pages of a
    per-CPU list into the buddy system and keeps the zone; nothing else moves. *)
Lemma free_pcppages_bulk_spec M zid z cpu pcp count :
  zone_inv M zid z -> mapped M -> small M -> 0 <= cpu ->
  pageset z !! Z.to_nat cpu = Some pcp -> 0 <= count <= pcount pcp ->
  exists M' z' kept moved, free_pcppages_bulk M z count cpu = Ret (M', z') /\
    plist pcp = kept ++ moved /\ Z.of_nat (length moved) = count /\ zone_inv M' zid z' /\
    (forall q, is_free_page z' q <-> is_free_page z q \/ q ∈ moved) /\
    pageset z' = <[Z.to_nat cpu := mk_pcp (pcount pcp - count) (phigh pcp) (pbatch pcp) kept]> (pageset z).
Proof.
  intros Hz Hm Hsm Hcpu E Hc. destruct (pcp_bounded M zid z _ pcp Hz Hsm E) as ([Hn _ _] & _ & _).
  set (k := Z.to_nat (pcount pcp - count)).
  destruct (bulk_ok M zid z cpu pcp (take k (plist pcp)) (drop k (plist pcp)) Hz Hm Hsm Hcpu E)
    as (M' & z' & Eb & Hmv & Hf & Hp); [by rewrite take_drop|].
  assert (Hd : Z.of_nat (length (drop k (plist pcp))) = count) by (rewrite length_drop; lia).
  rewrite Hd in Eb. exists M', z', (take k (plist pcp)), (drop k (plist pcp)).
  split_and!; [done|by rewrite take_drop|done|apply (mv_inv _ _ _ _ _ Hmv)|done|].
  rewrite Hp. do 2 f_equal. rewrite length_take. lia.
Qed.
End contracts.

(** ** A small node *)

(** Eight page frames, 8 to 15. *)
#[export] Instance demo_map : PfnMap := {| pfn_valid := fun p => (8 <=? p) && (p <? 16) |}.

Definition idle_page : page := mk_page (zone_flags ZONE_NORMAL) MAPCOUNT_UNSET 0 0 None 0.
Definition idle_map : mem_map := list_to_map ((fun p => (p, idle_page)) <$> seqZ 8 8).
Definition demo_zone : zone :=
  mk_zone 0 8 true (replicate (Z.to_nat MAX_ORDER) (mk_area [] 0)) (replicate 3 (mk_pcp 0 2 2 [])).
Definition demo_zones : list zone := replicate 3 demo_zone.

(** The eight pages are one block in use; freeing it makes up the demo node. *)
Definition demo_used : node :=
  match prep_new_page idle_map 8 3 0 with Ret M => mk_node M demo_zones | _ => mk_node ∅ [] end.
Definition demo_node : node :=
  match __free_pages 0 demo_used 8 3 with Ret N => N | _ => demo_used end.

Lemma idle_lookup p pg : idle_map !! p = Some pg <-> 8 <= p < 16 /\ pg = idle_page.
Proof.
  split.
  - intros E. apply elem_of_list_to_map_2, list_elem_of_fmap in E as (q & E & Hq). simplify_eq.
    apply elem_of_seqZ in Hq. split; [lia|done].
  - intros [Hp ->]. assert (p = 8 \/ p = 9 \/ p = 10 \/ p = 11 \/ p = 12 \/ p = 13 \/ p = 14 \/ p = 15)
      as Hc by lia. by destruct Hc as [->|[->|[->|[->|[->|[->|[->| ->]]]]]]].
Qed.

Lemma idle_pages q : in_blk 8 3 q -> page_sat idle_map q (idle ZONE_NORMAL).
Proof. intros Hq. exists idle_page. split; [by apply idle_lookup|done]. Qed.

Lemma demo_zone_fresh : fresh_zone demo_zone.
Proof. split; [done..|]. repeat constructor; simpl; lia. Qed.

Lemma normal_zid : valid_zid ZONE_NORMAL.
Proof. by unfold valid_zid. Qed.
Lemma eight_aligned : (2 ^ 3 | 8).
Proof. by exists 1. Qed.

Lemma demo_used_ok :
  node_inv 3 demo_used /\ used (nd_map demo_used) ZONE_NORMAL 3 8 /\ forall q, ~ node_has demo_used q.
Proof.
  destruct (prep_new_page_ok idle_map ZONE_NORMAL 3 8 0 normal_zid ltac:(done) eight_aligned idle_pages)
    as (M & E & Hu & Ha).
  unfold demo_used. rewrite E.
  cut (node_inv 3 (mk_node M demo_zones) /\ forall q, ~ node_has (mk_node M demo_zones) q); [by intros [? ?]|].
  assert (HD : forall q, is_Some (M !! q) <-> 8 <= q < 16).
  { intros q. rewrite (proj2 Ha q). unfold is_Some. setoid_rewrite idle_lookup.
    split; [by intros (? & ? & _)|eauto]. }
  assert (Hb : no_buddy M).
  { intros p pg Ep. assert (Hp : in_blk 8 3 p) by (apply HD; eauto).
    destruct (used_page M ZONE_NORMAL 3 8 1 p normal_zid Hu Hp) as [_ (pg' & ? & ?)]. by simplify_eq. }
  apply fresh_node_inv; simpl; [intros p; rewrite HD; simpl; lia| |done|done|].
  - unfold small. rewrite (size_agree _ _ _ Ha). by vm_compute.
  - apply Forall_replicate. split; [apply demo_zone_fresh|done].
Qed.

Lemma demo_ok : node_inv 3 demo_node /\ forall q, node_has demo_node q <-> 8 <= q < 16.
Proof.
  destruct demo_used_ok as (HN & Hu & _).
  destruct (free_pages_ok 3 demo_used 0 ZONE_NORMAL 3 8 HN normal_zid ltac:(done) Hu)
    as (N' & E & HN' & _ & Hh & _).
  unfold demo_node. rewrite E. split; [done|]. intros q. rewrite Hh.
  destruct demo_used_ok as (_ & _ & Hno). specialize (Hno q). unfold in_blk. split; [tauto|auto].
Qed.

Lemma idle_mapped : mapped idle_map.
Proof.
  intros p. simpl. unfold is_Some. setoid_rewrite idle_lookup.
  split; [intros ?; exists idle_page; split; [lia|done]|intros (? & ? & _); lia].
Qed.

Lemma idle_no_buddy : no_buddy idle_map.
Proof. by intros p pg [_ ->]%idle_lookup. Qed.

Lemma idle_zone_inv : zone_inv idle_map ZONE_NORMAL demo_zone.
Proof. apply fresh_zone_inv; [apply normal_zid|apply idle_no_buddy|apply demo_zone_fresh]. Qed.

Lemma idle_held o p :
  0 <= o < MAX_ORDER -> (2 ^ o | p) -> 8 <= p -> p + 2 ^ o <= 16 -> held idle_map ZONE_NORMAL demo_zone o p.
Proof.
  intros Ho Hd H1 H2. split; [done|done| |].
  - intros q Hq. apply idle_pages. unfold in_blk in *. lia.
  - intros q _ (o' & p' & Hb & _). by apply (fresh_no_block _ o' p' demo_zone_fresh) in Hb.
Qed.

(** The demo zone once its pages are one free block. *)
Definition demo_free : mem_map * zone :=
  match __free_one_page idle_map demo_zone 8 3 with Ret r => r | _ => (∅, demo_zone) end.

Lemma demo_free_ok :
  buddy_inv demo_free.1 ZONE_NORMAL demo_free.2 /\ mapped demo_free.1 /\ initialized demo_free.2 = true.
Proof.
  destruct (free_one_page_ok idle_map ZONE_NORMAL demo_zone 8 3 idle_mapped (zi_buddy _ _ _ idle_zone_inv) eq_refl
    (idle_held 3 8 ltac:(done) eight_aligned ltac:(done) ltac:(done))) as (M & z & E & Hi & Hs & _ & Ha).
  unfold demo_free. rewrite E. split_and!; [done|by apply (mapped_agree _ _ _ idle_mapped Ha)|by rewrite Hs].
Qed.

(** ** The contracts on the demo node *)

Definition demo_ops : list pg_op :=
  [op_alloc 0 0 1; op_alloc 1 0 0; op_get 8 1; op_put 2 8 0; op_alloc 0 0 2; op_free 1 10; op_put 0 8 1;
   op_alloc 2 __GFP_DMA 0; op_alloc 2 0 11].

Lemma demo_client : client_inv 3 (demo_node, ∅).
Proof. split; [apply demo_ok|]. intros p o n E. by apply (lookup_empty_Some (M:=gmap Z) p (o, n)) in E. Qed.

Lemma demo_cpus : Forall (cpu_ok 3) [0; 1; 2].
Proof. repeat constructor; simpl; lia. Qed.

Lemma demo_ops_ok : Forall (valid_op 3) demo_ops.
Proof. repeat constructor; simpl; unfold cpu_ok; lia. Qed.

Lemma page_allocator_safe_witness :
  exists st', client_run [0; 1; 2] (demo_node, ∅) demo_ops = Ret st' /\ client_inv 3 st' /\
    (forall q, owned st' q <-> owned (demo_node, ∅) q) /\
    (forall q, holds st'.2 q -> ~ node_has st'.1 q) /\
    (forall p1 o1 n1 p2 o2 n2 q, st'.2 !! p1 = Some (o1, n1) -> st'.2 !! p2 = Some (o2, n2) ->
       p1 <> p2 -> in_blk p1 o1 q -> ~ in_blk p2 o2 q).
Proof.
  exact (page_allocator_safe 3 [0; 1; 2] (demo_node, ∅) demo_ops demo_client demo_cpus demo_ops_ok).
Defined.

Lemma alloc_pages_spec_witness :
  (MAX_ORDER <= 1 /\ __alloc_pages 0 [0; 1; 2] demo_node 0 1 = Ret (None, demo_node)) \/
  (exists p N', __alloc_pages 0 [0; 1; 2] demo_node 0 1 = Ret (Some p, N') /\ node_inv 3 N' /\
     used (nd_map N') (gfp_zone 0) 1 p /\ (forall q, in_blk p 1 q -> ~ node_has N' q) /\
     (forall q, node_has demo_node q <-> node_has N' q \/ in_blk p 1 q) /\
     agree_off (node_has demo_node) (nd_map demo_node) (nd_map N')) \/
  (exists N', __alloc_pages 0 [0; 1; 2] demo_node 0 1 = Ret (None, N') /\ node_inv 3 N' /\
     (forall q, node_has N' q <-> node_has demo_node q) /\
     agree_off (node_has demo_node) (nd_map demo_node) (nd_map N') /\
     (lone_cpu 0 [0; 1; 2] -> forall z, node_zones N' !! Z.to_nat (gfp_zone 0) = Some z ->
        exhausted z 1)).
Proof.
  apply (alloc_pages_spec 3 demo_node 0 [0; 1; 2] 0 1);
    [apply demo_ok|lia|unfold cpu_ok; lia|exact demo_cpus].
Defined.


Lemma free_one_page_spec_witness :
  (exists M' z', __free_one_page idle_map demo_zone 8 2 = Ret (M', z') /\ buddy_inv M' ZONE_NORMAL z' /\
    (forall q, is_free_page z' q <-> is_free_page demo_zone q \/ in_blk 8 2 q) /\
    z' = set_areas demo_zone (areas z') /\ agree_off (is_free_page z') idle_map M') /\
  exists Ma za Mb zb,
    ('(M, z) ← __free_one_page idle_map demo_zone 8 2; __free_one_page M z 12 1) = Ret (Ma, za) /\
    ('(M, z) ← __free_one_page idle_map demo_zone 12 1; __free_one_page M z 8 2) = Ret (Mb, zb) /\
    forall o p, is_block za o p <-> is_block zb o p.
Proof.
  destruct (free_one_page_spec idle_map ZONE_NORMAL demo_zone 8 2) as [H1 H2];
    [exact idle_mapped|apply idle_zone_inv|reflexivity|
     apply idle_held; [by unfold MAX_ORDER|by exists 2|lia|lia]|].
  split; [exact H1|]. apply (H2 12 1).
  - apply idle_held; [by unfold MAX_ORDER|by exists 6|lia|lia].
  - unfold in_blk. lia.
Defined.

(** The first page of the only free block is taken and given back. *)
Lemma rmqueue_smallest_spec_witness :
  exists M' z' p c r, __rmqueue_smallest demo_free.1 demo_free.2 0 = Ret (Some (M', z', p)) /\
    buddy_inv M' ZONE_NORMAL z' /\ held M' ZONE_NORMAL z' 0 p /\ is_block demo_free.2 c r /\ in_blk r c p /\
    exists M2 z2, __free_one_page M' z' p 0 = Ret (M2, z2) /\ buddy_inv M2 ZONE_NORMAL z2 /\
      forall o' p', is_block z2 o' p' <-> is_block demo_free.2 o' p'.
Proof.
  destruct (rmqueue_smallest_spec demo_free.1 ZONE_NORMAL demo_free.2 0) as
    [[E _]|(M' & z' & p & c & r & E & H1 & H2 & H3 & H4 & _ & _ & _ & H)];
    [apply demo_free_ok|by unfold MAX_ORDER|exfalso; revert E; by vm_compute|].
  exists M', z', p, c, r. split; [exact E|]. split; [exact H1|]. split; [exact H2|]. split; [exact H3|].
  split; [exact H4|]. apply H; apply demo_free_ok.
Defined.

(** The demo zone with a page on the list of CPU 0. *)
Definition demo_listed : mem_map * zone :=
  match free_unref_page_commit idle_map demo_zone 0 13 with Ret r => r | _ => (∅, demo_zone) end.

Lemma demo_listed_ok :
  zone_inv demo_listed.1 ZONE_NORMAL demo_listed.2 /\ mapped demo_listed.1 /\ small demo_listed.1.
Proof.
  destruct (commit_ok idle_map ZONE_NORMAL demo_zone 0 13 idle_zone_inv idle_mapped eq_refl ltac:(done))
    as (M & z & E & Hz & _ & Ha & _).
  - split; [by apply idle_pages|]. intros [(o & p & Hb & _)|Hp].
    + by apply (fresh_no_block _ o p demo_zone_fresh) in Hb.
    + rewrite (fresh_pcp _ demo_zone_fresh) in Hp. by apply not_elem_of_nil in Hp.
  - unfold demo_listed. rewrite E. split_and!; [done|by apply (mapped_agree _ _ _ idle_mapped Ha)|].
    unfold small. simpl. by rewrite (size_agree _ _ _ Ha).
Qed.

Lemma free_pcppages_bulk_spec_witness :
  exists M' z' kept moved, free_pcppages_bulk demo_listed.1 demo_listed.2 1 0 = Ret (M', z') /\
    plist (mk_pcp 1 2 2 [13]) = kept ++ moved /\ Z.of_nat (length moved) = 1 /\ zone_inv M' ZONE_NORMAL z' /\
    (forall q, is_free_page z' q <-> is_free_page demo_listed.2 q \/ q ∈ moved) /\
    pageset z' = <[Z.to_nat 0 := mk_pcp (1 - 1) 2 2 kept]> (pageset demo_listed.2).
Proof.
  apply (free_pcppages_bulk_spec demo_listed.1 ZONE_NORMAL demo_listed.2 0 (mk_pcp 1 2 2 [13]) 1);
    [apply demo_listed_ok|apply demo_listed_ok|apply demo_listed_ok|lia|by vm_compute|simpl; lia].
Defined.

(** ** A spurious failure

    With more than one other CPU online, [get_page_from_freelist] overwrites
    [train] on every CPU it drains: here draining CPU 1 frees page 9, CPU 2 has
    nothing to drain, and the allocation fails although page 9 is free. *)
Definition starved : outcome (node * gmap Z (Z * Z)) :=
  client_run [0; 1; 2] (demo_node, ∅) [op_alloc 1 0 0; op_alloc 0 0 2; op_alloc 0 0 1].

Lemma train_overwritten :
  exists N out N' z, starved = Ret (N, out) /\ __alloc_pages 0 [0; 1; 2] N 0 0 = Ret (None, N') /\
    node_zones N' !! 1%nat = Some z /\ is_block z 0 9.
Proof.
  do 4 eexists. split; [vm_compute; reflexivity|]. split; [vm_compute; reflexivity|].
  split; [reflexivity|]. split; [by vm_compute|]. vm_compute. left.
Qed.
