(* ===== verification/PageBoot.v ===== *)
(** * Bringing up the page allocator

    The boot half of kernel/mm/page_alloc.c: the descriptors and zones are set
    up from memblock ([free_area_init_node]), and memblock's free memory is
    handed to the buddy system ([memblock_free_all]). *)

From stdpp Require Import base numbers list option gmap.
From Stdlib Require Import ZArith Lia.
From S2P Require Import Prelude Bitmap Memblock Page PageAlloc.

(** ** Powers of two *)

Definition __rounddown_pow_of_two (n : Z) : Z := u64 (Z.shiftl 1 (fls_long n - 1)).

(** ** Page descriptors *)

Definition zero_page : page := mk_page 0 0 0 0 None 0.

(** [INIT_LIST_HEAD(&page->lru)] overwrites the tagged word with an aligned
    address. *)
Definition init_lru (pg : page) : page := set_chead pg None.

Definition __init_single_page (M : mem_map) (p zone : Z) : outcome mem_map :=
  update M p (fun _ =>
    init_lru (page_mapcount_reset (init_page_count (set_page_links zero_page zone p)))).

(** [for (pfn = start_pfn; pfn < end_pfn; pfn++) __init_single_page(...)]. *)
Definition init_turn (end_pfn zone : Z) (st : mem_map * Z) : outcome (mem_map * Z + mem_map) :=
  let '(M, pfn) := st in
  if pfn <? end_pfn then M ← __init_single_page M pfn zone; Ret (inl (M, pfn + 1))
  else Ret (inr M).
Definition init_pages (M : mem_map) (start_pfn end_pfn zone : Z) : outcome mem_map :=
  loop (Z.to_nat (end_pfn - start_pfn) + 1) (init_turn end_pfn zone) (M, start_pfn).

(** ** Zones *)

Definition zone_init_free_lists (z : zone) : zone :=
  set_areas z ((fun _ => mk_area [] 0) <$> areas z).

Definition pageset_init : per_cpu_pages := mk_pcp 0 0 0 [].
(** The intermediate store of the fail-safe batch is not visible here. *)
Definition pageset_update (pcp : per_cpu_pages) (high batch : Z) : per_cpu_pages :=
  mk_pcp (pcount pcp) (s32 high) (s32 batch) (plist pcp).
Definition pageset_set_batch (pcp : per_cpu_pages) (batch : Z) : per_cpu_pages :=
  pageset_update pcp (u64 (6 * batch)) (Z.max 1 (u64 (1 * batch))).

Definition zone_batchsize (z : zone) : Z :=
  let batch := s32 (managed_pages z / 1024) in
  let batch := if 1024 * 1024 <? u64 (batch * PAGE_SIZE) then 1024 * 1024 / PAGE_SIZE else batch in
  let batch := Z.quot batch 4 in
  let batch := if batch <? 1 then 1 else batch in
  s32 (u64 (__rounddown_pow_of_two (batch + Z.quot batch 2) - 1)).

(** [pageset_set_batch] takes an [unsigned long]. *)
Definition pageset_set_high_and_batch (z : zone) (pcp : per_cpu_pages) : per_cpu_pages :=
  pageset_set_batch pcp (u64 (zone_batchsize z)).
Definition zone_pageset_init (z : zone) : per_cpu_pages :=
  pageset_set_high_and_batch z pageset_init.

(** The loop over [j] in [free_area_init_node], for one zone: the per-CPU lists
    are sized by the old [managed_pages], which is then cleared. *)
Definition reset_zone (ncpu : nat) (z : zone) : zone :=
  let ps := replicate ncpu (zone_pageset_init z) in
  zone_init_free_lists (mk_zone 0 0 (initialized z) (areas z) ps).

Definition ULONG_MAX : Z := ULLONG_MAX.

(** The end of a walk whose body never leaves the function. *)
Definition walk_end {S} (r : S + Empty_set) : outcome S :=
  match r with inl s => Ret s | inr x => match x with end end.

(** One of the three walks of [free_area_init_node] over free memory. *)
Definition init_zone_pages (mb : memblock) (M : mem_map) (f zid : Z) : outcome (mem_map * Z) :=
  r ← for_each_free_mem_range mb f (fun '(M, min_pfn) s e =>
        let start_pfn := PFN_UP s in
        let end_pfn := PFN_DOWN e in
        M ← init_pages M start_pfn end_pfn zid;
        Ret (inl (M, Z.min min_pfn start_pfn))) (M, ULONG_MAX);
  walk_end r.

Definition start_zone (z : zone) (min_pfn : Z) : zone :=
  mk_zone (if min_pfn =? ULONG_MAX then zone_start_pfn z else min_pfn)
    (managed_pages z) true (areas z) (pageset z).

(** The node with the globals that boot code sets. *)
Record pglist : Type := mk_pglist {
  pg_node : node;
  node_start_pfn : Z;
  totalreserve_pages : Z;
  total_physpages : Z;
}.

Definition start_zone_at (zs : list zone) (zid min_pfn : Z) : outcome (list zone) :=
  z ← rd zs zid; wr zs zid (start_zone z min_pfn).

Definition free_area_init_node (ncpu : nat) (mb : memblock) (N : node) (start_pfn : Z)
  : outcome (node * Z) :=
  total ← for_each_reserved_mem_region mb (fun t s e =>
            Ret (u64 (t + u64 (PFN_UP e - PFN_DOWN s)))) 0;
  let zs := reset_zone ncpu <$> node_zones N in
  '(M, min_pfn) ← init_zone_pages mb (nd_map N) MEMBLOCK_DMA ZONE_DMA;
  zs ← start_zone_at zs ZONE_DMA min_pfn;
  '(M, min_pfn) ← init_zone_pages mb M MEMBLOCK_MOVABLE ZONE_MOVABLE;
  zs ← start_zone_at zs ZONE_MOVABLE min_pfn;
  '(M, min_pfn) ← init_zone_pages mb M MEMBLOCK_NONE ZONE_NORMAL;
  zs ← start_zone_at zs ZONE_NORMAL min_pfn;
  M ← for_each_reserved_mem_region mb (fun M s e =>
        init_pages M (PFN_UP s) (PFN_DOWN e) ZONE_NORMAL) M;
  Ret (mk_node M zs, total).

Section boot.
Context `{PfnMap}.

(** ** Handing memory over *)

Definition reserve_turn (end_pfn : Z) (st : mem_map * Z) : outcome (mem_map * Z + mem_map) :=
  let '(M, pfn) := st in
  if pfn <? end_pfn then
    if pfn_valid pfn then
      pg ← page_at M pfn;
      pg ← __SetPageReserved (init_lru pg);
      Ret (inl (<[pfn := pg]> M, pfn + 1))
    else Ret (inl (M, pfn + 1))
  else Ret (inr M).
Definition reserve_bootmem_region (M : mem_map) (start end_ : Z) : outcome mem_map :=
  let start_pfn := PFN_DOWN start in
  let end_pfn := PFN_UP end_ in
  loop (Z.to_nat (end_pfn - start_pfn) + 1) (reserve_turn end_pfn) (M, start_pfn).

Definition boot_clear (M : mem_map) (p : Z) : outcome mem_map :=
  pg ← page_at M p;
  pg ← __ClearPageReserved pg;
  Ret (<[p := set_page_count pg 0]> M).
Definition boot_core_turn (nr_pages : Z) (st : mem_map * Z * Z)
  : outcome (mem_map * Z * Z + mem_map * Z) :=
  let '(M, i, p) := st in
  if i <? nr_pages - 1 then M ← boot_clear M p; Ret (inl (M, i + 1, p + 1))
  else Ret (inr (M, p)).

(** [atomic_long_add(n, &page_zone(page)->managed_pages)]. *)
Definition add_managed (N : node) (p n : Z) : outcome node :=
  zid ← page_zone (nd_map N) p;
  z ← rd (node_zones N) zid;
  zs ← wr (node_zones N) zid (set_managed z (u64 (managed_pages z + n)));
  Ret (mk_node (nd_map N) zs).

Definition __free_pages_boot_core (cpu : Z) (N : node) (p order : Z) : outcome node :=
  let nr_pages := Z.shiftl 1 order in
  '(M, q) ← loop (Z.to_nat nr_pages) (boot_core_turn nr_pages) (nd_map N, 0, p);
  M ← boot_clear M q;
  N ← add_managed (mk_node M (node_zones N)) p nr_pages;
  pg ← page_at (nd_map N) p;
  pg ← set_page_refcounted pg;
  __free_pages cpu (mk_node (<[p := pg]> (nd_map N)) (node_zones N)) p order.

Definition memblock_free_pages := __free_pages_boot_core.

(** [while (start + (1UL << order) > end) order--]. *)
Definition order_turn (start end_ order : Z) : outcome (Z + Z) :=
  if end_ <? start + Z.shiftl 1 order then Ret (inl (order - 1)) else Ret (inr order).

Definition free_memory_turn (cpu end_ : Z) (st : node * Z) : outcome (node * Z + node) :=
  let '(N, start) := st in
  if start <? end_ then
    n ← __ffs start;
    order ← loop (Z.to_nat MAX_ORDER) (order_turn start end_) (Z.min (MAX_ORDER - 1) n);
    N ← memblock_free_pages cpu N start order;
    Ret (inl (N, start + Z.shiftl 1 order))
  else Ret (inr N).
Definition __free_pages_memory (cpu : Z) (N : node) (start end_ : Z) : outcome node :=
  loop (Z.to_nat (end_ - start) + 1) (free_memory_turn cpu end_) (N, start).

(** One of the three walks of [memblock_free_all]. *)
Definition free_range_pages (cpu : Z) (st : node * Z) (s e : Z)
  : outcome (node * Z + Empty_set) :=
  let '(N, pages) := st in
  let start_pfn := PFN_UP s in
  let end_pfn := PFN_DOWN e in
  if end_pfn <=? start_pfn then Ret (inl (N, pages))
  else
    N ← __free_pages_memory cpu N start_pfn end_pfn;
    Ret (inl (N, u64 (pages + u64 (end_pfn - start_pfn)))).
Definition free_walk (cpu : Z) (mb : memblock) (f : Z) (st : node * Z) : outcome (node * Z) :=
  r ← for_each_free_mem_range mb f (free_range_pages cpu) st;
  walk_end r.

Definition memblock_free_all (cpu : Z) (mb : memblock) (N : node) : outcome (Z * node) :=
  M ← for_each_reserved_mem_region mb reserve_bootmem_region (nd_map N);
  st ← free_walk cpu mb MEMBLOCK_NONE (mk_node M (node_zones N), 0);
  st ← free_walk cpu mb MEMBLOCK_DMA st;
  '(N, pages) ← free_walk cpu mb MEMBLOCK_MOVABLE st;
  Ret (pages, N).

(** ** The whole bring-up *)

(** [for_each_mem_pfn_range(mb, i, p_start, p_end)]. *)
Definition for_each_mem_pfn_range {S} (mb : memblock) (body : S -> Z -> Z -> S) (s0 : S) : outcome S :=
  loop (Z.to_nat (cnt (memory mb)) + 2) (fun '(i, s) =>
    '(i, range) ← __next_mem_pfn_range mb i;
    if 0 <=? i then
      match range with
      | None => Fault
      | Some (p, q) => Ret (inl (i, body s p q))
      end
    else Ret (inr s)) (-1, s0).

Definition find_min_pfn_for_mem (mb : memblock) : outcome Z :=
  min_pfn ← for_each_mem_pfn_range mb (fun m p _ => Z.min m p) ULONG_MAX;
  Ret (if min_pfn =? ULONG_MAX then 0 else min_pfn).

(** The page count that sizes the per-CPU lists of a zone. *)
Definition count_managed (mb : memblock) (f : Z) (zs : list zone) (zid : Z) : outcome (list zone) :=
  z ← rd zs zid;
  r ← for_each_free_mem_range mb f (fun n s e =>
        Ret (inl (u64 (n + (PFN_DOWN e - PFN_UP s))))) 0;
  n ← walk_end r;
  wr zs zid (set_managed z n).

Definition free_area_init_nodes (ncpu : nat) (cpu : Z) (mb : memblock) (P : pglist) : outcome pglist :=
  physpages ← for_each_mem_pfn_range mb (fun t p q => u64 (t + (q - p))) 0;
  zs ← count_managed mb MEMBLOCK_NONE (node_zones (pg_node P)) ZONE_NORMAL;
  zs ← count_managed mb MEMBLOCK_DMA zs ZONE_DMA;
  zs ← count_managed mb MEMBLOCK_MOVABLE zs ZONE_MOVABLE;
  start ← find_min_pfn_for_mem mb;
  '(N, total) ← free_area_init_node ncpu mb (mk_node (nd_map (pg_node P)) zs) start;
  '(_, N) ← memblock_free_all cpu mb N;
  Ret (mk_pglist N start total physpages).

(** ** Giving reserved pages back *)

Definition free_reserved_page (cpu : Z) (N : node) (p : Z) : outcome node :=
  pg ← page_at (nd_map N) p;
  pg ← __ClearPageReserved pg;
  let N := mk_node (<[p := init_page_count pg]> (nd_map N)) (node_zones N) in
  N ← add_managed N p 1;
  __free_pages cpu N p 0.

End boot.
