(* ===== verification/PageBootFacts.v ===== *)
(** * Correctness of the bring-up

    Setting up descriptors and zones, handing blocks to the buddy system, and
    the walks over memblock that do both for all of memory. *)
From stdpp Require Import base numbers list option gmap.
From Stdlib Require Import ZArith Lia.
From S2P Require Import Prelude Bitmap BitmapFacts Memblock MemblockFacts MemblockRanges MemblockIter MemblockOps Page PageAlloc BuddyFacts BuddyOps PagePcp PageZone PageNode PageBoot.

(** ** States of a descriptor during boot *)

(** Initialised, not yet given to the allocator. *)
Record born (zid : Z) (pg : page) : Prop := {
  born_flags : pflags pg = zone_flags zid;
  born_type : page_type pg = MAPCOUNT_UNSET;
  born_ref : refcount pg = 1;
  born_chead : chead pg = None;
}.

(** Untouched, initialised or reserved. *)
Record raw (pg : page) : Prop := {
  raw_chead : chead pg = None;
  raw_head : Z.testbit (pflags pg) PG_head = false;
  raw_buddy : PageBuddy pg = false;
}.

Lemma raw_zero : raw zero_page.
Proof. by split. Qed.

Lemma zone_flags_head zid : valid_zid zid -> Z.testbit (zone_flags zid) PG_head = false.
Proof. intros H. by apply (zone_flags_cases zid (fun f => Z.testbit f PG_head = false) H). Qed.

Lemma born_raw zid pg : valid_zid zid -> born zid pg -> raw pg.
Proof.
  intros Hv [Hf Ht _ Hc]. split; [done|by rewrite Hf, zone_flags_head|].
  unfold PageBuddy, PageType. by rewrite Ht.
Qed.

Lemma raw_checks pg : raw pg -> PageCompound pg = false /\ PagePoisoned pg = false.
Proof.
  intros [Hc Hh _]. unfold PageCompound, PageTail, PagePoisoned. rewrite Hc, Hh. split; [done|].
  destruct (Z.eqb_spec (pflags pg) ULLONG_MAX) as [E|]; [|done]. by rewrite E in Hh.
Qed.

(** A page still counted is on no list. *)
Lemma born_not_has M zid zid' z q : zone_inv M zid' z -> page_sat M q (born zid) -> ~ zone_has z q.
Proof.
  intros Hz (pg & E & Hb) Hh. pose proof (born_ref _ _ Hb) as Hr.
  destruct (zone_has_page _ _ _ _ Hz Hh) as [(pg' & E' & Hi)|[o (pg' & E' & Hi)]]; simplify_eq.
  - by rewrite (idle_ref _ _ Hi) in Hr.
  - by rewrite (head_ref _ _ _ Hi) in Hr.
Qed.

Lemma init_single_ok M p zid :
  valid_zid zid -> is_Some (M !! p) ->
  exists pg, __init_single_page M p zid = Ret (<[p := pg]> M) /\ born zid pg.
Proof.
  intros Hv [pg0 E]. unfold __init_single_page, update. rewrite (page_at_some _ _ _ E), bind_ret.
  eexists. split; [reflexivity|]. split; [|done..]. simpl. unfold set_page_links, set_page_zone. simpl.
  unfold valid_zid, MAX_NR_ZONES in Hv.
  assert (zid = 0 \/ zid = 1 \/ zid = 2) as [->|[->| ->]] by lia; reflexivity.
Qed.

Lemma reserve_one pg : raw pg -> exists pg', __SetPageReserved (init_lru pg) = Ret pg' /\ raw pg'.
Proof.
  intros Hr. assert (Hr' : raw (init_lru pg)) by (split; [done|apply Hr..]).
  destruct (raw_checks _ Hr') as [Hc Hp]. unfold __SetPageReserved. rewrite Hc, Hp.
  eexists. split; [reflexivity|]. split; [done| |apply Hr].
  change (Z.testbit (Z.lor (pflags pg) (bit PG_reserved)) PG_head = false).
  by rewrite Z.lor_spec, (raw_head _ Hr).
Qed.

(** The flag is not set on the pages that are given away. *)
Lemma clear_one M p zid :
  valid_zid zid -> page_sat M p (born zid) ->
  exists pg, boot_clear M p = Ret (<[p := pg]> M) /\ idle zid pg.
Proof.
  intros Hv (pg & E & Hb). destruct (raw_checks _ (born_raw zid pg Hv Hb)) as [Hc Hp].
  unfold boot_clear, __ClearPageReserved. rewrite (page_at_some _ _ _ E), bind_ret, Hc, Hp.
  eexists. split; [reflexivity|]. destruct Hb as [Hf Ht _ Hch]. split; simpl; [|done..].
  rewrite Hf. by apply (zone_flags_cases zid (fun f => Z.land f (Z.lnot (bit PG_reserved)) = f) Hv).
Qed.

(** ** Loops over page frames *)

Definition between (a b q : Z) : Prop := a <= q < b.

(** Pages of [S] satisfy [P], and nothing outside [S] has changed. *)
Definition made (S : Z -> Prop) (P : page -> Prop) (M M' : mem_map) : Prop :=
  agree_off S M M' /\ forall q, S q -> page_sat M' q P.

Lemma made_none P M : made (fun _ => False) P M M.
Proof. split; [apply agree_refl|done]. Qed.

Lemma made_mono (S S' : Z -> Prop) P M M' :
  made S P M M' -> (forall q, S q <-> S' q) -> made S' P M M'.
Proof.
  intros [Ha Hp] HS. split; [|intros q Hq; by apply Hp, HS].
  apply (agree_trans _ _ _ _ _ _ Ha (agree_refl (fun _ => False) M')). intros q [?|[]]. by apply HS.
Qed.

Lemma made_trans (S1 S2 : Z -> Prop) P M1 M2 M3 :
  made S1 P M1 M2 -> made S2 P M2 M3 -> (forall q, {S2 q} + {~ S2 q}) ->
  made (fun q => S1 q \/ S2 q) P M1 M3.
Proof.
  intros [Ha1 H1] [Ha2 H2] Hdec. split; [by apply (agree_trans _ _ _ _ _ _ Ha1 Ha2)|].
  intros q Hq. destruct (Hdec q) as [|Hn]; [by apply H2|].
  destruct Hq as [Hq|]; [|done]. by apply (page_sat_agree S2 M2); auto.
Qed.

Lemma made_step a b (P : page -> Prop) M M1 pg :
  made (between a b) P M M1 -> a <= b -> is_Some (M !! b) -> P pg ->
  made (between a (b + 1)) P M (<[b := pg]> M1).
Proof.
  intros [Ha Hp] Hab Hs HP. split.
  - apply (agree_trans _ _ _ _ _ _ Ha (agree_insert (eq b) M1 b pg ltac:(by apply Ha) eq_refl)).
    unfold between. intros q. lia.
  - intros q Hq. destruct (Z.eq_dec q b) as [->|Hne]; [by apply page_sat_insert_eq|].
    apply page_sat_insert_ne; [done|]. apply Hp. unfold between in *. lia.
Qed.

Lemma init_pages_ok M s e zid :
  valid_zid zid -> (forall q, between s e q -> is_Some (M !! q)) ->
  exists M', init_pages M s e zid = Ret M' /\ made (between s e) (born zid) M M'.
Proof.
  intros Hv Hs. apply (returns_inv (init_pages M s e zid)). unfold init_pages.
  apply loop_returns with (m := fun '(_, p) => Z.to_nat (e - p))
    (I := fun '(M1, p) => s <= p /\ (p <= e \/ p = s) /\ made (between s p) (born zid) M M1).
  - split; [lia|split; [lia|]]. apply (made_mono (fun _ => False)); [apply made_none|].
    unfold between. lia.
  - lia.
  - intros [M1 p] (H1 & H2 & Hm). unfold init_turn. destruct (Z.ltb_spec p e).
    + destruct (init_single_ok M1 p zid Hv) as (pg & -> & Hb); [apply Hm, Hs; unfold between; lia|].
      rewrite bind_ret. simpl. split; [|lia]. split; [lia|split; [lia|]].
      apply made_step; [done|lia|apply Hs; unfold between; lia|done].
    + simpl. apply (made_mono (between s p)); [done|]. unfold between. lia.
Qed.

(** Clearing the pages of a block. *)
Lemma boot_clear_step M M1 zid p i :
  valid_zid zid -> 0 <= i -> page_sat M (p + i) (born zid) ->
  made (between p (p + i)) (idle zid) M M1 ->
  exists M2, boot_clear M1 (p + i) = Ret M2 /\ made (between p (p + i + 1)) (idle zid) M M2.
Proof.
  intros Hv Hi Hb Hm.
  destruct (clear_one M1 (p + i) zid Hv) as (pg & E & Hpg).
  { apply (page_sat_agree (between p (p + i)) M); [apply Hm|unfold between; lia|done]. }
  exists (<[p + i := pg]> M1). split; [done|]. apply made_step; [done|lia| |done].
  by apply page_sat_some in Hb.
Qed.

Lemma boot_core_loop M zid o p :
  valid_zid zid -> 0 <= o -> (forall q, in_blk p o q -> page_sat M q (born zid)) ->
  exists M1 M2, loop (Z.to_nat (2 ^ o)) (boot_core_turn (2 ^ o)) (M, 0, p) = Ret (M1, p + 2 ^ o - 1) /\
    boot_clear M1 (p + 2 ^ o - 1) = Ret M2 /\ made (in_blk p o) (idle zid) M M2.
Proof.
  intros Hv Ho Hb. pose proof (pow2_pos o Ho) as Hp.
  assert (Hl : returns (loop (Z.to_nat (2 ^ o)) (boot_core_turn (2 ^ o)) (M, 0, p)) (fun '(M1, q) =>
    q = p + (2 ^ o - 1) /\ made (between p (p + (2 ^ o - 1))) (idle zid) M M1)).
  { apply loop_returns with (m := fun '(_, i, _) => Z.to_nat (2 ^ o - 1 - i))
      (I := fun '(M1, i, q) => q = p + i /\ 0 <= i <= 2 ^ o - 1 /\ made (between p (p + i)) (idle zid) M M1).
    - split; [lia|split; [lia|]]. apply (made_mono (fun _ => False)); [apply made_none|]. unfold between. lia.
    - lia.
    - intros [[M1 i] q] (-> & Hi & Hm). unfold boot_core_turn. destruct (Z.ltb_spec i (2 ^ o - 1)).
      + destruct (boot_clear_step M M1 zid p i Hv) as (M2 & -> & Hm2);
          [lia|apply Hb; unfold in_blk; lia|done|].
        rewrite bind_ret. simpl. split; [|lia]. split; [lia|split; [lia|]].
        by rewrite Z.add_assoc.
      + simpl. replace i with (2 ^ o - 1) in * by lia. done. }
  destruct (returns_inv _ _ Hl) as ([M1 q] & E & -> & Hm).
  destruct (boot_clear_step M M1 zid p (2 ^ o - 1) Hv) as (M2 & E2 & Hm2);
    [lia|apply Hb; unfold in_blk; lia|done|].
  exists M1, M2. rewrite E. rewrite Z.add_sub_assoc in E2 |- *. split_and!; [done|done|].
  apply (made_mono _ _ _ _ _ Hm2). intros q. unfold between, in_blk. lia.
Qed.

(** ** Giving a block to the allocator *)

Lemma idle_prep zid pg :
  valid_zid zid -> idle zid pg ->
  free_pages_check pg = (false, pg) /\ idle zid (clear_prep_flags pg).
Proof.
  intros Hv Hi. unfold free_pages_check. rewrite (expected_idle zid) by auto. split; [done|].
  destruct Hi. split; [|done..]. simpl. rewrite idle_flags. by apply flags_clear_prep.
Qed.

(** Idle pages, all in the same state before and after. *)
Definition idle_run (zid o p : Z) (M0 M : mem_map) : Prop :=
  (forall q, in_blk p o q -> page_sat M q (idle zid)) /\ agree_off (in_blk p o) M0 M.

Lemma idle_run_insert zid o p M0 M q pg :
  idle_run zid o p M0 M -> in_blk p o q -> idle zid pg -> idle_run zid o p M0 (<[q := pg]> M).
Proof.
  intros [Hid Ha] Hq Hpg. split.
  - intros x Hx. destruct (Z.eq_dec x q) as [->|Hne]; [by apply page_sat_insert_eq|].
    apply page_sat_insert_ne; auto.
  - apply (agree_trans _ _ _ _ _ _ Ha (agree_insert (eq q) M q pg (page_sat_some _ _ _ (Hid q Hq)) eq_refl)).
    by intros x [?|<-].
Qed.

(** [free_pages_prepare] on a block that is not a compound page. *)
Lemma plain_prepare_ok M zid o p :
  valid_zid zid -> 0 <= o -> (forall q, in_blk p o q -> page_sat M q (idle zid)) ->
  exists M', free_pages_prepare M p o true = Ret (M', true) /\ idle_run zid o p M M'.
Proof.
  intros Hv Ho Hid. pose proof (in_blk_head p o Ho) as Hp. pose proof (pow2_pos o Ho) as Hpow.
  assert (Hend : forall M1, idle_run zid o p M M1 -> exists M', (pg ← page_at M1 p;
    let '(b, pg) := free_pages_check pg in
    if false || b then Ret (<[p := pg]> M1, false) else Ret (<[p := clear_prep_flags pg]> M1, true)) = Ret (M', true) /\
    idle_run zid o p M M').
  { intros M1 Hr. destruct (proj1 Hr p Hp) as (pg & E & Hi). destruct (idle_prep zid pg Hv Hi) as [Hck Hcl].
    rewrite (page_at_some _ _ _ E), bind_ret, Hck. simpl. eexists. split; [done|]. by apply idle_run_insert. }
  assert (Hr0 : idle_run zid o p M M) by (split; [done|apply agree_refl]).
  destruct (Hid p Hp) as (pg & E & Hi). unfold free_pages_prepare.
  rewrite (page_at_some _ _ _ E), bind_ret. unfold PageTail at 1. rewrite (idle_chead _ _ Hi).
  rewrite BUG_ON_false by done. destruct (Z.eqb_spec o 0) as [->|Hne].
  { by apply (Hend M Hr0). }
  simpl negb. cbv iota. unfold PageCompound, PageTail. rewrite (idle_chead _ _ Hi), (idle_flags _ _ Hi).
  rewrite zone_flags_head by done. simpl orb. cbv iota. rewrite bind_ret, Z.shiftl_1_l.
  assert (Hl : returns (loop (Z.to_nat (2 ^ o) + 1) (tails_step false p (2 ^ o)) (M, 1, false)) (fun '(M1, bad) =>
    bad = false /\ idle_run zid o p M M1)).
  { apply loop_returns with (m := fun '(_, i, _) => Z.to_nat (2 ^ o - i))
      (I := fun '(M1, i, bad) => 1 <= i /\ bad = false /\ idle_run zid o p M M1); [done|lia|].
    intros [[M1 i] bad] (Hi1 & -> & Hr). unfold tails_step. destruct (Z.ltb_spec i (2 ^ o)); [|done].
    assert (Hq : in_blk p o (p + i)) by (unfold in_blk; lia).
    destruct (proj1 Hr _ Hq) as (pq & Eq & Hiq). destruct (idle_prep zid pq Hv Hiq) as [Hck Hcl].
    rewrite (page_at_some _ _ _ Eq), bind_ret. unfold tail_prepare. rewrite Hck. simpl.
    split; [|lia]. split; [lia|split; [done|]]. by apply idle_run_insert. }
  destruct (returns_inv _ _ Hl) as ([M1 bad] & -> & -> & Hr). rewrite bind_ret. by apply Hend.
Qed.

Lemma zone_inv_managed M zid z n : zone_inv M zid z -> zone_inv M zid (set_managed z n).
Proof. intros [[] ? ? ? ?]. split; [split|..]; done. Qed.

Section boot.
Context `{PfnMap}.
Context (ncpu : nat).

Lemma add_managed_ok N p zid n :
  node_inv ncpu N -> valid_zid zid -> page_sat (nd_map N) p (idle zid) ->
  exists zs, add_managed N p n = Ret (mk_node (nd_map N) zs) /\ node_inv ncpu (mk_node (nd_map N) zs) /\
    forall q, node_has (mk_node (nd_map N) zs) q <-> node_has N q.
Proof.
  intros HN Hv (pg & E & Hi). unfold add_managed, page_zone.
  rewrite (page_at_some _ _ _ E), !bind_ret, (zone_id_of_flags zid) by (auto; apply Hi).
  destruct (zone_lookup ncpu N zid HN Hv) as (z & Hz & -> & Hzi & Hl). rewrite bind_ret.
  set (z' := set_managed z (u64 (managed_pages z + n))).
  destruct (node_update ncpu N zid z (nd_map N) z' (fun _ => False) HN Hv Hz) as (zs & -> & HN' & ->);
    [by apply zone_inv_managed|done|apply agree_refl|done|].
  eexists. split; [done|]. split; [done|]. intros q.
  rewrite (node_has_update N zid z (nd_map N) z' q Hz), (node_has_split ncpu N zid z q HN Hv Hz). done.
Qed.

(** A change confined to pages that no list holds. *)
Lemma node_frame N M' (S : Z -> Prop) :
  node_inv ncpu N -> agree_off S (nd_map N) M' -> (forall q, S q -> ~ node_has N q) ->
  (forall q, S q -> page_sat M' q (fun pg => PageBuddy pg = false)) ->
  node_inv ncpu (mk_node M' (node_zones N)).
Proof.
  intros HN Ha Hno Hb. split; simpl.
  - by apply (mapped_agree _ _ _ (ni_mapped _ _ HN) Ha).
  - pose proof (ni_small _ _ HN) as Hsm. unfold small in *. by rewrite (size_agree _ _ _ Ha).
  - apply (ni_len _ _ HN).
  - intros i z Hi. destruct (ni_zones _ _ HN i z Hi) as [Hz Hl]. split; [|done].
    apply (zone_inv_frame (nd_map N) M' S); [done|done| |done].
    intros q Hq Hh. apply (Hno q Hq). by exists i, z.
Qed.

Lemma born_not_in N zid q :
  node_inv ncpu N -> page_sat (nd_map N) q (born zid) -> ~ node_has N q.
Proof.
  intros HN Hb (i & z & Hi & Hh). destruct (ni_zones _ _ HN i z Hi) as [Hz _].
  by apply (born_not_has (nd_map N) zid _ z q Hz Hb).
Qed.

(** How a run of initialised pages ends up on the lists. *)
Definition handed (S : Z -> Prop) (N N' : node) : Prop :=
  node_inv ncpu N' /\ (forall q, node_has N' q <-> node_has N q \/ S q) /\
  agree_off (node_has N') (nd_map N) (nd_map N').

Lemma idle_buddy_false M zid q :
  page_sat M q (idle zid) -> page_sat M q (fun pg => PageBuddy pg = false).
Proof. intros (pg & E & Hi). exists pg. split; [done|]. by apply (idle_not_buddy zid). Qed.

Lemma boot_core_ok N cpu zid o p :
  node_inv ncpu N -> valid_zid zid -> 0 <= cpu < Z.of_nat ncpu -> 0 <= o < MAX_ORDER -> (2 ^ o | p) ->
  (forall q, in_blk p o q -> page_sat (nd_map N) q (born zid)) ->
  exists N', __free_pages_boot_core cpu N p o = Ret N' /\ handed (in_blk p o) N N'.
Proof.
  intros HN Hv Hcpu Ho Hd Hb. pose proof (in_blk_head p o (proj1 Ho)) as Hp.
  assert (Hno : forall q, in_blk p o q -> ~ node_has N q) by (intros q Hq; by apply (born_not_in N zid); auto).
  destruct (boot_core_loop (nd_map N) zid o p Hv (proj1 Ho) Hb) as (M0 & M1 & E0 & E1 & Ha1 & Hid1).
  unfold __free_pages_boot_core. rewrite Z.shiftl_1_l, E0, bind_ret, E1, bind_ret.
  assert (HN1 : node_inv ncpu (mk_node M1 (node_zones N))).
  { apply (node_frame N M1 (in_blk p o)); auto. intros q Hq. by apply (idle_buddy_false M1 zid), Hid1. }
  destruct (add_managed_ok _ p zid (2 ^ o) HN1 Hv (Hid1 p Hp)) as (zs & -> & HN2 & Hh2).
  rewrite bind_ret. simpl nd_map. simpl node_zones. destruct (Hid1 p Hp) as (pg & E & Hi).
  rewrite (page_at_some _ _ _ E), bind_ret. unfold set_page_refcounted, PageTail, page_ref_count.
  rewrite (idle_chead _ _ Hi), (idle_ref _ _ Hi). rewrite !BUG_ON_false by done. rewrite bind_ret.
  unfold __free_pages, put_page_testzero, page_ref_count. simpl nd_map. simpl node_zones.
  rewrite (page_at_some _ p _ (lookup_insert_eq _ _ _)), bind_ret. simpl refcount.
  rewrite BUG_ON_false by done. rewrite bind_ret. simpl (_ =? 0). cbv iota.
  rewrite insert_insert_eq. set (pg2 := set_refcount _ _).
  assert (Hi2 : idle zid pg2) by (destruct Hi; by split).
  assert (Hr2 : idle_run zid o p M1 (<[p := pg2]> M1)) by (apply idle_run_insert; [split; [done|apply agree_refl]|done|done]).
  destruct (plain_prepare_ok _ zid o p Hv (proj1 Ho) (proj1 Hr2)) as (M3 & E3 & Hid3 & Ha3).
  assert (Ha13 : agree_off (in_blk p o) M1 M3) by (apply (agree_trans _ _ _ _ _ _ (proj2 Hr2) Ha3); tauto).
  assert (HN3 : node_inv ncpu (mk_node M3 zs)).
  { apply (node_frame (mk_node M1 zs) M3 (in_blk p o)); auto.
    - intros q Hq. rewrite Hh2. by apply Hno.
    - intros q Hq. by apply (idle_buddy_false M3 zid), Hid3. }
  destruct (free_prepared_ok ncpu (mk_node (<[p := pg2]> M1) zs) M3 cpu zid o p E3 HN3 Hv Hcpu Ho Hd Hid3)
    as (N' & -> & HN' & Ha' & Hh'); [intros q Hq Hh; by apply (Hno q Hq), Hh2|].
  exists N'. split; [done|]. split_and!; [done| |].
  - intros q. rewrite Hh'. f_equiv. apply (Hh2 q).
  - apply (agree_trans _ _ _ _ _ _ (agree_trans _ _ (in_blk p o) _ _ _ Ha1 Ha13 ltac:(tauto)) Ha').
    intros q [Hq|Hq]; [|done]. apply Hh'. by right.
Qed.

Lemma handed_none N : node_inv ncpu N -> handed (fun _ => False) N N.
Proof. intros HN. split_and!; [done|tauto|apply agree_refl]. Qed.

Lemma handed_mono (S S' : Z -> Prop) N N' :
  handed S N N' -> (forall q, S q <-> S' q) -> handed S' N N'.
Proof. intros (HN & Hh & Ha) HS. split_and!; [done| |done]. intros q. by rewrite Hh, HS. Qed.

Lemma handed_trans S1 S2 N1 N2 N3 :
  handed S1 N1 N2 -> handed S2 N2 N3 -> handed (fun q => S1 q \/ S2 q) N1 N3.
Proof.
  intros (_ & Hh1 & Ha1) (HN & Hh2 & Ha2). split_and!; [done| |].
  - intros q. rewrite Hh2, Hh1. tauto.
  - apply (agree_trans _ _ _ _ _ _ Ha1 Ha2). intros q [?|?]; [|done]. apply Hh2. by left.
Qed.

(** Pages that are not handed over wait unchanged. *)
Lemma handed_born S N N' zid q :
  node_inv ncpu N -> handed S N N' -> page_sat (nd_map N) q (born zid) -> ~ S q ->
  page_sat (nd_map N') q (born zid).
Proof.
  intros HN (_ & Hh & Ha) Hb HS. apply (page_sat_agree (node_has N') (nd_map N)); [done| |done].
  rewrite Hh. intros [?|?]; [|done]. by apply (born_not_in N zid q).
Qed.

Lemma order_loop s e n :
  s < e -> 0 <= n <= MAX_ORDER - 1 ->
  returns (loop (Z.to_nat MAX_ORDER) (order_turn s e) n) (fun o => 0 <= o <= n /\ s + 2 ^ o <= e).
Proof.
  intros Hse Hn. apply loop_returns with (m := Z.to_nat) (I := fun o => 0 <= o <= n); [lia|unfold MAX_ORDER in *; lia|].
  intros o Ho. unfold order_turn. rewrite Z.shiftl_1_l.
  destruct (Z.ltb_spec e (s + 2 ^ o)) as [Hlt|Hge]; simpl; [|lia].
  destruct (Z.eq_dec o 0) as [->|]; [simpl in Hlt|]; lia.
Qed.

(** [__free_pages_memory] covers the range exactly. *)
Lemma free_memory_ok N cpu zid s e :
  node_inv ncpu N -> valid_zid zid -> 0 <= cpu < Z.of_nat ncpu -> 0 < s ->
  (forall q, between s e q -> page_sat (nd_map N) q (born zid)) ->
  exists N', __free_pages_memory cpu N s e = Ret N' /\ handed (between s e) N N'.
Proof.
  intros HN Hv Hcpu Hs Hb. apply (returns_inv (__free_pages_memory cpu N s e)).
  unfold __free_pages_memory.
  apply loop_returns with (m := fun '(_, x) => Z.to_nat (e - x))
    (I := fun '(N1, x) => s <= x /\ (x <= e \/ x = s) /\ handed (between s x) N N1).
  - split; [lia|split; [lia|]]. apply (handed_mono (fun _ => False)); [by apply handed_none|]. unfold between. lia.
  - lia.
  - intros [N1 x] (H1 & H2 & Hh). unfold free_memory_turn. destruct (Z.ltb_spec x e) as [Hlt|Hge].
    2:{ simpl. apply (handed_mono (between s x)); [done|]. unfold between. lia. }
    destruct (ffs_ok x) as (n & -> & Hn & Hd); [lia|]. rewrite bind_ret.
    destruct (returns_inv _ _ (order_loop x e (Z.min (MAX_ORDER - 1) n) Hlt ltac:(unfold MAX_ORDER; lia)))
      as (o & -> & Ho & Hle). rewrite bind_ret.
    destruct (boot_core_ok N1 cpu zid o x) as (N2 & E & Hh2); [apply Hh|done|done|unfold MAX_ORDER in *; lia| | |].
    + apply (Z.divide_trans _ (2 ^ n)); [|done]. exists (2 ^ (n - o)). rewrite <- Z.pow_add_r by lia. f_equal. lia.
    + intros q Hq. unfold in_blk in Hq. apply (handed_born _ _ _ _ _ HN Hh); [apply Hb|]; unfold between; lia.
    + unfold memblock_free_pages. rewrite E, bind_ret. simpl. rewrite Z.shiftl_1_l.
      pose proof (pow2_pos o ltac:(lia)). split; [|lia]. split; [lia|split; [lia|]].
      apply (handed_mono (fun q => between s x q \/ in_blk x o q)); [by apply (handed_trans _ _ _ N1)|].
      intros q. unfold between, in_blk. lia.
Qed.
End boot.

(** ** Boot-time walks over memblock

    The ranges that memblock enumerates, seen as sets of page frames, and the
    loops of the bring-up over all of them. *)

(** ** Ranges in ascending order *)

Fixpoint incr (lo hi : Z) (l : list (Z * Z)) : Prop :=
  match l with
  | [] => True
  | (s, e) :: l' => lo <= s /\ s <= e /\ e <= hi /\ incr e hi l'
  end.

Lemma incr_weaken lo lo' hi hi' l : incr lo hi l -> lo' <= lo -> hi <= hi' -> incr lo' hi' l.
Proof.
  revert lo lo'. induction l as [|[s e] l IH]; simpl; [done|]. intros lo lo' (?&?&?&?) ? ?.
  split_and!; [lia|lia|lia|]. by apply (IH e).
Qed.

Lemma incr_app lo mid hi l1 l2 :
  incr lo mid l1 -> incr mid hi l2 -> lo <= mid <= hi -> incr lo hi (l1 ++ l2).
Proof.
  revert lo. induction l1 as [|[s e] l1 IH]; simpl; intros lo H1 H2 Hl.
  - apply (incr_weaken mid lo hi hi); [done|lia|lia].
  - destruct H1 as (?&?&?&?). split_and!; [lia|lia|lia|]. apply IH; [done|done|lia].
Qed.

Lemma incr_suffix lo hi l1 l2 : incr lo hi (l1 ++ l2) -> 0 <= lo -> exists lo', 0 <= lo' /\ incr lo' hi l2.
Proof.
  revert lo. induction l1 as [|[s e] l1 IH]; simpl; intros lo H Hlo; [by exists lo|].
  destruct H as (?&?&?&?). apply (IH e); [done|lia].
Qed.

Lemma incr_top lo hi hi' l : incr lo hi l -> (forall s e, In (s, e) l -> e <= hi') -> incr lo hi' l.
Proof.
  revert lo. induction l as [|[s e] l IH]; simpl; [done|]. intros lo (?&?&?&?) Hb.
  split_and!; [done|done|apply (Hb s); auto|]. apply IH; [done|]. intros s' e' ?. apply (Hb s'). auto.
Qed.

Lemma inter_incr m B lo :
  wok lo B -> lo <= PHYS_ADDR_MAX -> 0 <= rsize m ->
  incr (Z.max (base m) lo) (base m + rsize m) (flat_map (inter m) (gaps lo B)).
Proof.
  intros HB Hlo Hm. revert lo HB Hlo. induction B as [|r B IH]; intros lo HB Hlo.
  - simpl. unfold inter. simpl. destruct (Z.ltb_spec (base m) PHYS_ADDR_MAX); simpl; [|done].
    destruct (Z.ltb_spec lo (base m + rsize m)); simpl; [|done]. split_and!; lia || done.
  - simpl in *. destruct HB as (H1 & H2 & H3 & HB). specialize (IH _ HB H3). unfold inter at 1. simpl.
    destruct (Z.ltb_spec (base m) (base r)); simpl.
    + destruct (Z.ltb_spec lo (base m + rsize m)); simpl.
      * split_and!; [lia|lia|lia|]. eapply incr_weaken; [apply IH|lia|lia].
      * eapply incr_weaken; [apply IH|lia|lia].
    + eapply incr_weaken; [apply IH|lia|lia].
Qed.

Lemma free_ranges_incr f A B lo :
  wok lo A -> wok 0 B -> 0 <= lo <= PHYS_ADDR_MAX -> incr lo PHYS_ADDR_MAX (free_ranges f A (gaps 0 B)).
Proof.
  intros HA HB. revert lo HA. induction A as [|m A IH]; intros lo HA Hlo; [done|].
  simpl in HA. destruct HA as (H1 & H2 & H3 & HA).
  change (incr lo PHYS_ADDR_MAX (ranges1 f (gaps 0 B) m ++ free_ranges f A (gaps 0 B))).
  apply (incr_app lo (base m + rsize m)); [|apply IH; [done|lia]|lia].
  unfold ranges1. destruct (f =? flags m); [|done].
  eapply incr_weaken; [apply inter_incr; [done|unfold PHYS_ADDR_MAX; lia|done]|lia|lia].
Qed.

(** ** Page frames of a range *)

(** The frames that lie inside one of the ranges. *)
Definition in_pages (l : list (Z * Z)) (q : Z) : Prop :=
  exists s e, In (s, e) l /\ between (PFN_UP s) (PFN_DOWN e) q.

Lemma in_pages_cons s e l q : in_pages ((s, e) :: l) q <-> between (PFN_UP s) (PFN_DOWN e) q \/ in_pages l q.
Proof.
  split.
  - intros (s' & e' & [E|Hin] & Hq); [simplify_eq; by left|right; by exists s', e'].
  - intros [Hq|(s' & e' & Hin & Hq)]; [exists s, e; simpl; auto|exists s', e'; simpl; auto].
Qed.

Lemma between_dec a b q : {between a b q} + {~ between a b q}.
Proof. unfold between. destruct (Z_le_dec a q), (Z_lt_dec q b); [left|right..]; lia. Qed.

Lemma in_pages_dec l q : {in_pages l q} + {~ in_pages l q}.
Proof.
  induction l as [|[s e] l IH]; [right; by intros (? & ? & [] & _)|].
  destruct (between_dec (PFN_UP s) (PFN_DOWN e) q); [left; apply in_pages_cons; by left|].
  destruct IH; [left|right]; rewrite in_pages_cons; tauto.
Qed.

Lemma pfn_up_eq s : 0 <= s <= 2 ^ 63 -> PFN_UP s = (s + 4095) / 4096.
Proof.
  intros Hs. unfold PFN_UP. change PAGE_SIZE with 4096. rewrite (u64_small (s + 4096)) by lia.
  rewrite u64_small by lia. rewrite Z.shiftr_div_pow2 by done. f_equal. lia.
Qed.

Lemma pfn_down_eq e : PFN_DOWN e = e / 4096.
Proof. unfold PFN_DOWN. by rewrite Z.shiftr_div_pow2. Qed.

(** A frame between the rounded bounds lies inside the range. *)
Lemma frame_inside s e q :
  0 <= s <= 2 ^ 63 -> between (PFN_UP s) (PFN_DOWN e) q <-> s <= q * 4096 /\ (q + 1) * 4096 <= e.
Proof.
  intros Hs. rewrite pfn_up_eq, pfn_down_eq by done. unfold between.
  pose proof (Z.div_mod (s + 4095) 4096 ltac:(lia)). pose proof (Z.mod_pos_bound (s + 4095) 4096 ltac:(lia)).
  pose proof (Z.div_mod e 4096 ltac:(lia)). pose proof (Z.mod_pos_bound e 4096 ltac:(lia)). lia.
Qed.

Lemma in_pages_disjoint lo hi s e l q :
  0 <= lo -> hi <= 2 ^ 63 -> incr lo hi ((s, e) :: l) ->
  between (PFN_UP s) (PFN_DOWN e) q -> ~ in_pages l q.
Proof.
  simpl. intros Hlo Hhi (H1 & H2 & H3 & Hl) Hq (s' & e' & Hin & Hq').
  assert (Hs' : e <= s' <= 2 ^ 63).
  { assert (G : forall l lo, incr lo hi l -> In (s', e') l -> lo <= s' /\ s' <= hi).
    { clear. induction l as [|[a b] l IH]; simpl; [done|]. intros lo (?&?&?&?) [E|Hin]; [simplify_eq; lia|].
      specialize (IH b). destruct IH; [done|done|lia]. }
    destruct (G l e Hl Hin). lia. }
  apply frame_inside in Hq; [|lia]. apply frame_inside in Hq'; lia.
Qed.

(** ** Walk rules *)

(** The fold of a body that never leaves the enclosing function. *)
Lemma fold_ranges_ok {S} (I : list (Z * Z) -> S -> Prop) (body : S -> Z -> Z -> outcome (S + Empty_set)) l s0 :
  (forall s a e l0 l', l = l0 ++ (a, e) :: l' -> I ((a, e) :: l') s ->
     returns (body s a e) (fun r => match r with inl s' => I l' s' | inr _ => False end)) ->
  I l s0 -> exists s', fold_ranges body s0 l = Ret (inl s') /\ I [] s'.
Proof.
  intros Hb. assert (G : forall l' l0, l = l0 ++ l' -> forall s, I l' s ->
    exists s', fold_ranges body s l' = Ret (inl s') /\ I [] s'); [|by apply (G l [])].
  induction l' as [|[a e] l' IH]; intros l0 El s HI; [by exists s|].
  destruct (returns_inv _ _ (Hb s a e l0 l' El HI)) as ([s1|x] & E & H1); [|done].
  simpl. rewrite E, bind_ret. apply (IH (l0 ++ [(a, e)])); [|done]. by rewrite <- app_assoc.
Qed.

Lemma holds_rd t l n tot i r :
  holds t l n tot -> l !! i = Some r -> rd (regions t) (Z.of_nat i) = Ret r.
Proof.
  intros Hh Hi. destruct (list_elem_of_split_length _ _ _ Hi) as (P & Q & -> & ->).
  by apply (holds_lookup t P r Q n tot).
Qed.

(** [for_each_reserved_mem_region], when something is reserved. *)
Lemma reserved_walk {S} mb lr n (I : list memblock_region -> S -> Prop)
    (body : S -> Z -> Z -> outcome S) s0 :
  repr (reserved mb) lr n -> lr <> [] ->
  (forall r l s, r ∈ lr -> I (r :: l) s -> returns (body s (base r) (base r + rsize r - 1)) (I l)) ->
  I lr s0 -> exists s, for_each_reserved_mem_region mb body s0 = Ret s /\ I [] s.
Proof.
  intros [Hh Hk] Hne Hb HI. rewrite norm_nonempty in Hh by done.
  apply (returns_inv (for_each_reserved_mem_region mb body s0)). unfold for_each_reserved_mem_region.
  pose proof (h_bound _ _ _ _ Hh) as Hn. pose proof (holds_cnt_le _ _ _ _ Hh) as Hle.
  pose proof (h_cnt _ _ _ _ Hh) as Hc.
  apply loop_returns with (m := fun '(i, _) => (length lr - Z.to_nat i)%nat)
    (I := fun '(i, s) => 0 <= i <= Z.of_nat (length lr) /\ I (drop (Z.to_nat i) lr) s).
  - split; [lia|done].
  - lia.
  - intros [i s] [Hi HIs]. unfold __next_reserved_mem_region. rewrite Hc.
    destruct (Z.ltb_spec i (Z.of_nat (length lr))) as [Hlt|Hge].
    2:{ rewrite bind_ret. simpl. replace (Z.to_nat i) with (length lr) in HIs by lia.
        by rewrite drop_all in HIs. }
    destruct (lookup_lt_is_Some_2 lr (Z.to_nat i)) as [r Hr]; [lia|].
    pose proof (holds_rd _ _ _ _ _ _ Hh Hr) as Hrd. rewrite Z2Nat.id in Hrd by lia.
    rewrite Hrd, !bind_ret, u64_small by lia.
    rewrite (proj2 (Z.eqb_neq (i + 1) ULLONG_MAX)) by (unfold ULLONG_MAX; lia).
    assert (Hin : r ∈ lr) by (by apply list_elem_of_lookup_2 in Hr).
    pose proof (ok_elem _ _ _ Hk Hin) as Hbd. unfold PHYS_ADDR_MAX in Hbd.
    rewrite (u64_small (base r + rsize r)), u64_small by lia.
    rewrite (drop_S _ _ _ Hr) in HIs.
    eapply returns_bind; [by apply (Hb r _ s Hin HIs)|]. intros s' HI'. simpl.
    rewrite Z2Nat.inj_add, Nat.add_1_r by lia. split; [split; [lia|done]|lia].
Qed.

Lemma norm_elem m l : m ∈ norm l -> m ∈ l \/ m = zero_region.
Proof. destruct l; [|by left]. by intros ->%list_elem_of_singleton; right. Qed.

(** ** Frames of free memory *)

Section frames.
Context (mb : memblock) (lm lr : list memblock_region) (n : Z).
Context (HM : mb_holds mb lm lr n).
(** Addresses stay below 2^63: page arithmetic does not wrap. *)
Definition low_regions (l : list memblock_region) : Prop :=
  forall r, r ∈ l -> base r + rsize r <= 2 ^ 63.
Context (Hlm : low_regions lm) (Hlr : low_regions lr).

Definition ranges_of (f : Z) : list (Z * Z) := free_ranges f (norm lm) (gaps 0 (norm lr)).
(** The frames of free memory with flags [f]. *)
Definition free_frame (f q : Z) : Prop := in_pages (ranges_of f) q.

Lemma ranges_low f : incr 0 (2 ^ 63) (ranges_of f).
Proof.
  destruct HM as [[_ Hm] [_ Hr] _].
  apply (incr_top 0 PHYS_ADDR_MAX); [apply free_ranges_incr; [by apply wok_norm..|unfold PHYS_ADDR_MAX; lia]|].
  intros s e Hin. apply in_free_ranges in Hin as (m & g & Hin & _ & _ & _ & _ & E). simplify_eq.
  apply list_elem_of_In in Hin. enough (base m + rsize m <= 2 ^ 63) by lia.
  apply norm_elem in Hin as [Hin| ->]; [|simpl; lia].
  by apply Hlm.
Qed.

Lemma suffix_disjoint f l0 s e l q :
  ranges_of f = l0 ++ (s, e) :: l -> between (PFN_UP s) (PFN_DOWN e) q -> ~ in_pages l q.
Proof.
  intros E Hq. pose proof (ranges_low f) as Hi. rewrite E in Hi.
  destruct (incr_suffix _ _ _ _ Hi) as (lo & Hlo & Hi'); [lia|].
  by apply (in_pages_disjoint lo (2 ^ 63) s e l q).
Qed.

Lemma free_frame_addrs f q :
  free_frame f q -> 0 <= q /\ forall a, q * 4096 <= a < (q + 1) * 4096 -> is_free lm lr f a.
Proof.
  intros (s & e & Hin & Hq).
  assert (Hs : 0 <= s <= 2 ^ 63).
  { apply list_elem_of_In, list_elem_of_split in Hin as (l0 & l & E). pose proof (ranges_low f) as Hi.
    rewrite E in Hi. destruct (incr_suffix _ _ _ _ Hi) as (lo & Hlo & Hi'); [lia|].
    simpl in Hi'. lia. }
  apply frame_inside in Hq; [|done]. split; [lia|]. intros a Ha.
  destruct HM as [[_ Hm] [_ Hr] _]. apply (free_ranges_sound lm lr f s e); auto; lia.
Qed.

Lemma free_frame_flags f f' q : free_frame f q -> free_frame f' q -> f = f'.
Proof.
  intros [_ H1]%free_frame_addrs [_ H2]%free_frame_addrs.
  destruct (H1 (q * 4096)) as [E1 _]; [lia|]. destruct (H2 (q * 4096)) as [E2 _]; [lia|]. congruence.
Qed.

(** A frame that touches a reserved region is not free. *)
Lemma reserved_not_free f r q a :
  r ∈ lr -> contains r a = true -> q * 4096 <= a < (q + 1) * 4096 -> ~ free_frame f q.
Proof.
  intros Hr Hc Ha [_ Hf]%free_frame_addrs. destruct (Hf a Ha) as [_ Hno].
  destruct HM as [_ [_ Hok] _]. by rewrite (flags_at_elem 0 lr r a Hok Hr Hc) in Hno.
Qed.

Lemma reserved_inner f r q :
  r ∈ lr -> between (PFN_UP (base r)) (PFN_DOWN (base r + rsize r - 1)) q -> ~ free_frame f q.
Proof.
  intros Hr Hq. destruct HM as [_ [_ Hok] _]. pose proof (ok_elem _ _ _ Hok Hr) as Hb.
  pose proof (Hlr r Hr) as Hl.
  apply frame_inside in Hq; [|lia]. apply (reserved_not_free f r q (q * 4096) Hr); [apply contains_spec|]; lia.
Qed.

Lemma reserved_outer f r q :
  r ∈ lr -> between (PFN_DOWN (base r)) (PFN_UP (base r + rsize r - 1)) q -> ~ free_frame f q.
Proof.
  intros Hr Hq. destruct HM as [_ [_ Hok] _]. pose proof (ok_elem _ _ _ Hok Hr) as Hb.
  pose proof (Hlr r Hr) as Hl.
  unfold between in Hq. rewrite pfn_down_eq, pfn_up_eq in Hq by lia.
  assert (base r < (q + 1) * 4096 /\ q * 4096 < base r + rsize r).
  { pose proof (Z.div_mod (base r) 4096 ltac:(lia)). pose proof (Z.mod_pos_bound (base r) 4096 ltac:(lia)).
    pose proof (Z.div_mod (base r + rsize r - 1 + 4095) 4096 ltac:(lia)).
    pose proof (Z.mod_pos_bound (base r + rsize r - 1 + 4095) 4096 ltac:(lia)). lia. }
  apply (reserved_not_free f r q (Z.max (base r) (q * 4096)) Hr); [apply contains_spec|]; lia.
Qed.

(** ** The walk that sets up descriptors *)

Lemma init_zone_pages_ok M f zid :
  valid_zid zid -> (forall q, free_frame f q -> is_Some (M !! q)) ->
  exists M' m, init_zone_pages mb M f zid = Ret (M', m) /\ made (free_frame f) (born zid) M M'.
Proof.
  intros Hv Hs. unfold init_zone_pages. destruct HM as [Hm Hr _].
  rewrite (for_each_free_mem_range_eq _ _ _ _ _ _ _ _ Hm Hr).
  match goal with |- context [fold_ranges ?b _ _] =>
    destruct (fold_ranges_ok (fun l '(M1, _) => made (fun q => free_frame f q /\ ~ in_pages l q) (born zid) M M1)
      b (ranges_of f) (M, ULONG_MAX)) as ([M' m] & E & Hmd) end.
  - intros [M1 m] s e l0 l El Hmd.
    assert (Hin : forall q, between (PFN_UP s) (PFN_DOWN e) q -> free_frame f q).
    { intros q Hq. exists s, e. split; [|done]. rewrite El. apply in_or_app. right. by left. }
    destruct (init_pages_ok M1 (PFN_UP s) (PFN_DOWN e) zid Hv) as (M2 & -> & Hm2).
    { intros q Hq. by apply (proj2 (proj1 Hmd)), Hs, Hin. }
    rewrite bind_ret. simpl. apply (made_mono _ _ _ _ _ (made_trans _ _ _ _ _ _ Hmd Hm2 (between_dec _ _))).
    intros q. rewrite in_pages_cons. split.
    + intros [[? ?]|Hq]; [tauto|]. split; [by apply Hin|]. by apply (suffix_disjoint f l0 s e l q El).
    + intros [Hf Hn]. destruct (between_dec (PFN_UP s) (PFN_DOWN e) q); tauto.
  - apply (made_mono (fun _ => False)); [apply made_none|]. intros q. split; [done|]. by intros [? []].
  - change (free_ranges f (norm lm) (gaps 0 (norm lr))) with (ranges_of f). rewrite E.
    exists M', m. split; [done|]. apply (made_mono _ _ _ _ _ Hmd).
    intros q. split; [tauto|]. intros ?. split; [done|]. by intros (? & ? & [] & _).
Qed.
End frames.
