(* ===== verification/PageBootInit.v ===== *)
(** * The whole bring-up

    [free_area_init_node], [memblock_free_all] and [free_area_init_nodes] on a
    memblock that satisfies its invariant: the node ends up well formed, and
    offers exactly the free frames of memblock. *)

From stdpp Require Import base numbers list option gmap.
From Stdlib Require Import ZArith Lia.
From S2P Require Import Prelude Bitmap Memblock MemblockFacts MemblockRanges MemblockIter MemblockOps.
From S2P Require Import Page PageAlloc BuddyFacts BuddyOps PagePcp PageZone PageNode PageBoot PageBootFacts.

(** ** Sizing the per-CPU lists *)

Lemma rounddown_range n : 1 <= n < 128 -> 1 <= __rounddown_pow_of_two n <= 64.
Proof.
  intros Hn. unfold __rounddown_pow_of_two, fls_long.
  rewrite (proj2 (Z.eqb_neq n 0)) by lia. replace (Z.log2 n + 1 - 1) with (Z.log2 n) by lia.
  rewrite Z.shiftl_1_l. assert (Hl : 0 <= Z.log2 n <= 6).
  { split; [apply Z.log2_nonneg|]. change 6 with (Z.log2 127). apply Z.log2_le_mono. lia. }
  pose proof (Z.pow_le_mono_r 2 (Z.log2 n) 6 ltac:(lia) ltac:(lia)).
  pose proof (pow2_pos (Z.log2 n) ltac:(lia)). rewrite u64_small by lia. lia.
Qed.

Lemma zone_batchsize_range z : 0 <= zone_batchsize z <= 63.
Proof.
  unfold zone_batchsize. pose proof (s32_range (managed_pages z / 1024)) as Hb.
  set (b := s32 (managed_pages z / 1024)) in *. change PAGE_SIZE with 4096.
  set (b1 := if _ <? _ then _ else b).
  assert (H1 : 0 <= b1 <= 256).
  { unfold b1. destruct (Z.ltb_spec (1024 * 1024) (u64 (b * 4096))) as [|Hle]; [by compute|].
    destruct (Z.lt_ge_cases b 0).
    - assert (E : u64 (b * 4096) = b * 4096 + 2 ^ 64).
      { unfold u64. symmetry. apply Z.mod_unique with (-1); lia. }
      lia.
    - rewrite u64_small in Hle by lia. lia. }
  set (b2 := if Z.quot b1 4 <? 1 then 1 else Z.quot b1 4).
  assert (H2 : 1 <= b2 <= 64).
  { unfold b2. rewrite Z.quot_div_nonneg by lia.
    pose proof (Z.div_le_upper_bound b1 4 64 ltac:(lia) ltac:(lia)).
    destruct (Z.ltb_spec (b1 / 4) 1); lia. }
  rewrite Z.quot_div_nonneg by lia.
  pose proof (Z.div_pos b2 2 ltac:(lia) ltac:(lia)).
  pose proof (Z.div_le_upper_bound b2 2 32 ltac:(lia) ltac:(lia)).
  pose proof (rounddown_range (b2 + b2 / 2) ltac:(lia)).
  rewrite u64_small, s32_small by (rewrite ?u64_small by lia; lia). lia.
Qed.

Lemma zone_pageset_ok z : pcp_ok (zone_pageset_init z) /\ plist (zone_pageset_init z) = [].
Proof.
  split; [|done]. pose proof (zone_batchsize_range z) as Hb.
  unfold zone_pageset_init, pageset_set_high_and_batch, pageset_set_batch, pageset_update.
  rewrite (u64_small (zone_batchsize z)) by lia. rewrite !u64_small by lia. rewrite !s32_small by lia.
  split; simpl; [done|lia|lia].
Qed.

(** ** Zones *)

(** The zones are the three entries of [node_zones], each with all its areas. *)
Definition shaped (zs : list zone) : Prop :=
  Z.of_nat (length zs) = MAX_NR_ZONES /\
  Forall (fun z => Z.of_nat (length (areas z)) = MAX_ORDER) zs.

Lemma reset_areas z : Z.of_nat (length (areas z)) = MAX_ORDER ->
  (fun _ : free_area => mk_area [] 0) <$> areas z = replicate (Z.to_nat MAX_ORDER) (mk_area [] 0).
Proof.
  intros Hl. replace (Z.to_nat MAX_ORDER) with (length (areas z)) by (rewrite <- Hl; lia).
  clear Hl. induction (areas z) as [|a l IH]; [done|]. simpl. by f_equal.
Qed.

Lemma started_fresh ncpu z m :
  Z.of_nat (length (areas z)) = MAX_ORDER ->
  fresh_zone (start_zone (reset_zone ncpu z) m) /\ length (pageset (start_zone (reset_zone ncpu z) m)) = ncpu.
Proof.
  intros Hl. split.
  - split; [done|by apply reset_areas|]. simpl. apply Forall_replicate. apply zone_pageset_ok.
  - simpl. by rewrite length_replicate.
Qed.

(** Starting all three zones of a list of three. *)
Lemma start_all ncpu zs m0 m1 m2 :
  shaped zs ->
  exists z1 z2 z3, start_zone_at (reset_zone ncpu <$> zs) ZONE_DMA m0 = Ret z1 /\
    start_zone_at z1 ZONE_MOVABLE m1 = Ret z2 /\ start_zone_at z2 ZONE_NORMAL m2 = Ret z3 /\
    Z.of_nat (length z3) = MAX_NR_ZONES /\
    Forall (fun z => fresh_zone z /\ length (pageset z) = ncpu) z3.
Proof.
  intros [Hlen Ha]. unfold MAX_NR_ZONES in *.
  destruct zs as [|a [|b [|c [|d zs]]]]; try (exfalso; simpl length in Hlen; lia).
  rewrite !Forall_cons in Ha. destruct Ha as (Ha & Hb & Hc & _).
  do 3 eexists. split_and!; [reflexivity|reflexivity|reflexivity|done|].
  do 3 (apply Forall_cons; split; [by apply started_fresh|]). constructor.
Qed.

Section counts.
Context (mb : memblock) (lm lr : list memblock_region) (n : Z) (HM : mb_holds mb lm lr n).

Lemma count_managed_ok f zs zid :
  shaped zs -> valid_zid zid -> exists zs', count_managed mb f zs zid = Ret zs' /\ shaped zs'.
Proof.
  intros [Hl Ha] Hv. unfold count_managed, valid_zid in *.
  destruct (rd_in_range zs zid) as (z & -> & Hz); [lia|]. rewrite bind_ret. destruct HM as [Hm Hr _].
  rewrite (for_each_free_mem_range_eq _ _ _ _ _ _ _ _ Hm Hr).
  match goal with |- context [fold_ranges ?b ?s ?l] =>
    destruct (fold_ranges_ok (fun _ _ => True) b l s) as (k & -> & _); [done|done|] end.
  rewrite !bind_ret. simpl. rewrite wr_in_range by lia. eexists. split; [done|]. split.
  - by rewrite length_insert.
  - apply Forall_insert; [done|]. simpl. by apply (proj1 (Forall_lookup _ _) Ha (Z.to_nat zid)).
Qed.

(** The pfn walk visits at most one entry per region. *)
Lemma next_pfn_ok idx :
  -1 <= idx -> returns (__next_mem_pfn_range mb idx) (fun '(i, r) =>
    (i = -1 \/ (idx < i < cnt (memory mb) /\ is_Some r))).
Proof.
  intros Hi. destruct HM as [[Hh _] _ _]. unfold __next_mem_pfn_range.
  pose proof (h_cnt _ _ _ _ Hh) as Hc. pose proof (holds_cnt_le _ _ _ _ Hh) as Hle.
  pose proof (h_len _ _ _ _ Hh) as Hlen.
  apply loop_returns with (I := fun i => idx <= i) (m := fun i => Z.to_nat (cnt (memory mb) - i)); [lia|lia|].
  intros i Hii. destruct (Z.ltb_spec (i + 1) (cnt (memory mb))) as [Hlt|]; [|by left].
  destruct (rd_in_range (regions (memory mb)) (i + 1)) as (r & -> & _); [lia|]. rewrite bind_ret.
  destruct (_ <=? _); simpl; [lia|]. right. split; [lia|eauto].
Qed.

Lemma pfn_walk_total {S} (body : S -> Z -> Z -> S) s0 :
  exists s, for_each_mem_pfn_range mb body s0 = Ret s.
Proof.
  destruct (returns_inv (for_each_mem_pfn_range mb body s0) (fun _ => True)) as (s & ? & _); [|by exists s].
  unfold for_each_mem_pfn_range.
  apply loop_returns with (I := fun '(i, _) => -1 <= i) (m := fun '(i, _) => Z.to_nat (cnt (memory mb) - i)).
  - lia.
  - destruct HM as [[Hh _] _ _]. rewrite (h_cnt _ _ _ _ Hh). lia.
  - intros [i s] Hi. destruct (returns_inv _ _ (next_pfn_ok i Hi)) as ([j r] & -> & Hj). rewrite bind_ret.
    destruct Hj as [->|[Hj [[p q] ->]]]; [done|]. rewrite (proj2 (Z.leb_le 0 j)) by lia. simpl. lia.
Qed.
End counts.

(** ** Passes over reserved regions *)

Definition all_raw (M : mem_map) : Prop := forall p pg, M !! p = Some pg -> raw pg.

Lemma raw_no_buddy M : all_raw M -> no_buddy M.
Proof. intros HM p pg E. apply (raw_buddy _ (HM p pg E)). Qed.

Lemma all_raw_made (S : Z -> Prop) (P : page -> Prop) M M' :
  all_raw M -> made S P M M' -> (forall pg, P pg -> raw pg) -> (forall q, {S q} + {~ S q}) -> all_raw M'.
Proof.
  intros HM [[Ha _] Hp] HP Hdec p pg E. destruct (Hdec p) as [Hs|Hn].
  - destruct (Hp p Hs) as (pg' & E' & ?). simplify_eq. auto.
  - rewrite Ha in E by done. by apply (HM p).
Qed.

Section node_boot.
Context `{PfnMap}.
Context (ncpu : nat) (mb : memblock) (lm lr : list memblock_region) (n : Z).
Context (HM : mb_holds mb lm lr n) (Hlm : low_regions lm) (Hlr : low_regions lr) (Hne : lr <> []).

Local Abbreviation frame := (free_frame lm lr).

(** [M'] differs from [M] on frames that are not free, and only in ways that
    leave every descriptor raw. *)
Definition tidied (M M' : mem_map) : Prop :=
  agree_off (fun q => forall f, ~ frame f q) M M' /\ all_raw M'.

Lemma tidied_trans (S : Z -> Prop) M M1 M2 :
  tidied M M1 -> agree_off S M1 M2 -> all_raw M2 -> (forall q f, S q -> ~ frame f q) -> tidied M M2.
Proof.
  intros [Ha _] Ha2 HR HS. split; [|done]. apply (agree_trans _ _ _ _ _ _ Ha Ha2).
  intros q [?|Hq] f; [auto|by apply HS].
Qed.

Lemma tidied_born M M' f zid q : tidied M M' -> frame f q -> page_sat M q (born zid) -> page_sat M' q (born zid).
Proof. intros [Ha _] Hf. apply (page_sat_agree _ M M' q _ Ha). intros Hn. by apply (Hn f). Qed.

(** The last pass of [free_area_init_node]. *)
Lemma reserved_init_ok M :
  all_raw M ->
  (forall r q, r ∈ lr -> between (PFN_UP (base r)) (PFN_DOWN (base r + rsize r - 1)) q -> is_Some (M !! q)) ->
  exists M', for_each_reserved_mem_region mb (fun M s e => init_pages M (PFN_UP s) (PFN_DOWN e) ZONE_NORMAL) M = Ret M' /\
    tidied M M'.
Proof.
  intros HR Hb.
  apply (reserved_walk mb lr n (fun _ M1 => tidied M M1)); [apply HM|done| |split; [apply agree_refl|done]].
  intros r l M1 Hr Ht.
  destruct (init_pages_ok M1 (PFN_UP (base r)) (PFN_DOWN (base r + rsize r - 1)) ZONE_NORMAL) as (M2 & -> & Hm2);
    [done|intros q Hq; by apply (proj1 Ht), (Hb r)|]. simpl.
  apply (tidied_trans (between (PFN_UP (base r)) (PFN_DOWN (base r + rsize r - 1))) M M1); [done|apply Hm2| |].
  - apply (all_raw_made _ _ M1 M2 (proj2 Ht) Hm2); [|apply between_dec]. intros pg. by apply born_raw.
  - intros q f. by apply (reserved_inner mb lm lr n HM Hlm Hlr).
Qed.

Lemma reserve_region_ok M s e :
  mapped M -> all_raw M ->
  exists M', reserve_bootmem_region M s e = Ret M' /\ agree_off (between (PFN_DOWN s) (PFN_UP e)) M M' /\ all_raw M'.
Proof.
  intros Hm HR. apply (returns_inv (reserve_bootmem_region M s e)). unfold reserve_bootmem_region.
  apply loop_returns with (m := fun '(_, p) => Z.to_nat (PFN_UP e - p))
    (I := fun '(M1, p) => PFN_DOWN s <= p /\ agree_off (between (PFN_DOWN s) (PFN_UP e)) M M1 /\ all_raw M1).
  - split; [lia|]. split; [apply agree_refl|done].
  - lia.
  - intros [M1 p] (Hp & Ha & HR1). unfold reserve_turn. destruct (Z.ltb_spec p (PFN_UP e)) as [Hlt|]; [|done].
    destruct (pfn_valid p) eqn:Hv; [|simpl; split; [split; [lia|done]|lia]].
    assert (Hs : is_Some (M1 !! p)) by (by apply Ha, Hm). destruct Hs as [pg E].
    rewrite (page_at_some _ _ _ E), bind_ret. destruct (reserve_one pg (HR1 p pg E)) as (pg' & -> & Hr').
    rewrite bind_ret. simpl. split; [|lia]. split; [lia|]. split.
    + apply (agree_trans _ _ _ _ _ _ Ha (agree_insert (eq p) M1 p pg' ltac:(eauto) eq_refl)).
      intros q [?|<-]; [done|]. unfold between. lia.
    + intros q pq Eq. destruct (Z.eq_dec q p) as [->|Hnq].
      * rewrite lookup_insert_eq in Eq. by simplify_eq.
      * rewrite lookup_insert_ne in Eq by done. by apply (HR1 q).
Qed.

(** The first pass of [memblock_free_all]. *)
Lemma reserve_all_ok M :
  mapped M -> all_raw M ->
  exists M', for_each_reserved_mem_region mb reserve_bootmem_region M = Ret M' /\ tidied M M'.
Proof.
  intros Hm HR.
  apply (reserved_walk mb lr n (fun _ M1 => tidied M M1)); [apply HM|done| |split; [apply agree_refl|done]].
  intros r l M1 Hr Ht.
  destruct (reserve_region_ok M1 (base r) (base r + rsize r - 1)) as (M2 & -> & Ha2 & HR2);
    [by apply (mapped_agree _ M M1 Hm (proj1 Ht))|apply Ht|]. simpl.
  apply (tidied_trans _ M M1 M2 Ht Ha2 HR2).
  intros q f. by apply (reserved_outer mb lm lr n HM Hlm Hlr).
Qed.

(** ** Handing over the free frames *)

Lemma free_walk_ok N cpu f zid c :
  node_inv ncpu N -> valid_zid zid -> 0 <= cpu < Z.of_nat ncpu ->
  (forall q, frame f q -> 0 < q /\ page_sat (nd_map N) q (born zid)) ->
  exists N' k, free_walk cpu mb f (N, c) = Ret (N', k) /\ handed ncpu (frame f) N N'.
Proof.
  intros HN Hv Hcpu Hb. unfold free_walk. destruct HM as [Hm Hr _].
  rewrite (for_each_free_mem_range_eq _ _ _ _ _ _ _ _ Hm Hr).
  destruct (fold_ranges_ok (fun l '(N1, _) => handed ncpu (fun q => frame f q /\ ~ in_pages l q) N N1)
    (free_range_pages cpu) (ranges_of lm lr f) (N, c)) as ([N' k] & E & Hh).
  - intros [N1 k] s e l0 l El Hh. unfold free_range_pages.
    assert (Hin : forall q, between (PFN_UP s) (PFN_DOWN e) q -> frame f q).
    { intros q Hq. exists s, e. split; [|done]. rewrite El. apply in_or_app. right. by left. }
    destruct (Z.leb_spec (PFN_DOWN e) (PFN_UP s)) as [Hle|Hlt].
    { simpl. apply (handed_mono _ _ _ _ _ Hh). intros q. rewrite in_pages_cons. unfold between.
      assert (~ (PFN_UP s <= q < PFN_DOWN e)) by lia. tauto. }
    destruct (free_memory_ok ncpu N1 cpu zid (PFN_UP s) (PFN_DOWN e)) as (N2 & E2 & Hh2);
      [apply Hh|done|done|apply (Hb (PFN_UP s)), Hin; unfold between; lia| |].
    { intros q Hq. apply (handed_born _ _ _ _ _ _ HN Hh); [by apply Hb, Hin|].
      rewrite in_pages_cons. tauto. }
    rewrite E2, bind_ret. simpl. apply (handed_mono _ _ _ _ _ (handed_trans _ _ _ _ _ _ Hh Hh2)).
    intros q. rewrite in_pages_cons. split.
    + intros [[? ?]|Hq]; [tauto|]. split; [by apply Hin|].
      by apply (suffix_disjoint mb lm lr n HM Hlm f l0 s e l q El).
    + intros [Hf Hn]. destruct (between_dec (PFN_UP s) (PFN_DOWN e) q); tauto.
  - apply (handed_mono _ (fun _ => False)); [by apply handed_none|]. intros q. split; [done|]. by intros [? []].
  - change (free_ranges f (norm lm) (gaps 0 (norm lr))) with (ranges_of lm lr f). rewrite E.
    exists N', k. split; [done|]. apply (handed_mono _ _ _ _ _ Hh).
    intros q. split; [tauto|]. intros ?. split; [done|]. by intros (? & ? & [] & _).
Qed.

(** The zone each kind of memory goes to. *)
Definition zone_of (f zid : Z) : Prop :=
  (f = MEMBLOCK_NONE /\ zid = ZONE_NORMAL) \/ (f = MEMBLOCK_DMA /\ zid = ZONE_DMA) \/
  (f = MEMBLOCK_MOVABLE /\ zid = ZONE_MOVABLE).

Definition usable (q : Z) : Prop := exists f zid, zone_of f zid /\ frame f q.

Lemma free_all_ok N cpu :
  node_inv ncpu N -> 0 <= cpu < Z.of_nat ncpu -> all_raw (nd_map N) ->
  (forall f zid q, zone_of f zid -> frame f q -> 0 < q /\ page_sat (nd_map N) q (born zid)) ->
  (forall q, ~ node_has N q) ->
  exists k N', memblock_free_all cpu mb N = Ret (k, N') /\ node_inv ncpu N' /\
    (forall q, node_has N' q <-> usable q) /\ (forall q, is_Some (nd_map N' !! q) <-> is_Some (nd_map N !! q)).
Proof.
  intros HN Hcpu HR Hb Hno. unfold memblock_free_all.
  destruct (reserve_all_ok (nd_map N) (ni_mapped _ _ HN) HR) as (M1 & -> & Ht). rewrite bind_ret.
  set (N0 := mk_node M1 (node_zones N)).
  assert (HN0 : node_inv ncpu N0).
  { apply (node_frame ncpu N M1 (fun q => is_Some (M1 !! q) /\ forall f, ~ frame f q)); [done| |by intros q _; apply Hno|].
    - split; [|apply Ht]. intros q Hq. destruct (M1 !! q) as [pg|] eqn:E.
      + rewrite <- E. destruct Ht as [[Ha Hd] _]. apply Ha. intros Hf. apply Hq. split; [done|].
        auto.
      + symmetry. apply eq_None_not_Some. intros Hs. apply (proj2 (proj1 Ht)) in Hs as [? ?]. congruence.
    - intros q [[pg E] _]. exists pg. split; [done|]. by apply raw_buddy, (proj2 Ht q). }
  assert (Hb0 : forall f zid q, zone_of f zid -> frame f q -> 0 < q /\ page_sat M1 q (born zid)).
  { intros f zid q Hz Hf. destruct (Hb f zid q Hz Hf) as [? ?]. split; [done|]. by apply (tidied_born (nd_map N) M1 f). }
  assert (Hnot : forall f f' q, frame f q -> f <> f' -> ~ frame f' q).
  { intros f f' q Hf Hn Hf'. by apply Hn, (free_frame_flags mb lm lr n HM Hlm f f' q). }
  destruct (free_walk_ok N0 cpu MEMBLOCK_NONE ZONE_NORMAL 0 HN0) as (N1 & k1 & -> & H1);
    [done|done|intros q Hq; apply (Hb0 _ _ q ltac:(left; done) Hq)|]. rewrite bind_ret.
  destruct (free_walk_ok N1 cpu MEMBLOCK_DMA ZONE_DMA k1) as (N2 & k2 & -> & H2); [apply H1|done|done| |].
  { intros q Hq. destruct (Hb0 MEMBLOCK_DMA ZONE_DMA q) as [? ?]; [right; by left|done|]. split; [done|].
    apply (handed_born _ _ _ _ _ _ HN0 H1); [done|]. by apply (Hnot MEMBLOCK_DMA). }
  rewrite bind_ret. pose proof (handed_trans _ _ _ _ _ _ H1 H2) as H12.
  destruct (free_walk_ok N2 cpu MEMBLOCK_MOVABLE ZONE_MOVABLE k2) as (N3 & k3 & -> & H3); [apply H2|done|done| |].
  { intros q Hq. destruct (Hb0 MEMBLOCK_MOVABLE ZONE_MOVABLE q) as [? ?]; [right; by right|done|]. split; [done|].
    apply (handed_born _ _ _ _ _ _ HN0 H12); [done|]. intros [Hf|Hf]; revert Hf;
      [by apply (Hnot MEMBLOCK_MOVABLE MEMBLOCK_NONE)|by apply (Hnot MEMBLOCK_MOVABLE MEMBLOCK_DMA)]. }
  rewrite bind_ret. pose proof (handed_trans _ _ _ _ _ _ H12 H3) as (HN3 & Hh & Ha).
  exists k3, N3. split_and!; [done|done| |].
  - intros q. rewrite Hh. assert (H0 : ~ node_has N0 q) by apply Hno. unfold usable, zone_of. split.
    + intros [?|[[?|?]|?]]; [done|..]; eauto 10.
    + intros (f & zid & [[-> _]|[[-> _]|[-> _]]] & Hf); auto.
  - intros q. rewrite (proj2 Ha q). apply (proj2 (proj1 Ht) q).
Qed.
(** ** Setting up the node *)

Lemma free_area_init_node_ok M zs start :
  mapped M -> small M -> all_raw M -> shaped zs ->
  (forall r q, r ∈ lr -> between (PFN_UP (base r)) (PFN_DOWN (base r + rsize r - 1)) q -> is_Some (M !! q)) ->
  (forall f zid q, zone_of f zid -> frame f q -> is_Some (M !! q)) ->
  exists N' t, free_area_init_node ncpu mb (mk_node M zs) start = Ret (N', t) /\
    node_inv ncpu N' /\ (forall q, ~ node_has N' q) /\ all_raw (nd_map N') /\
    (forall f zid q, zone_of f zid -> frame f q -> page_sat (nd_map N') q (born zid)) /\
    (forall q, is_Some (nd_map N' !! q) <-> is_Some (M !! q)).
Proof.
  intros Hm Hs HR Hsh Hbk Hfr. unfold free_area_init_node. simpl nd_map. simpl node_zones.
  destruct (reserved_walk mb lr n (fun _ _ => True) (fun t s e => Ret (u64 (t + u64 (PFN_UP e - PFN_DOWN s)))) 0)
    as (t & -> & _); [apply HM|done|done|done|]. rewrite bind_ret.
  destruct (init_zone_pages_ok mb lm lr n HM Hlm M MEMBLOCK_DMA ZONE_DMA) as (M1 & m1 & -> & H1);
    [done|intros q; apply (Hfr _ ZONE_DMA); right; by left|]. rewrite bind_ret.
  destruct (init_zone_pages_ok mb lm lr n HM Hlm M1 MEMBLOCK_MOVABLE ZONE_MOVABLE) as (M2 & m2 & E2 & H2);
    [done|intros q Hq; apply (proj2 (proj1 H1)), (Hfr MEMBLOCK_MOVABLE ZONE_MOVABLE); [right; by right|done]|].
  destruct (init_zone_pages_ok mb lm lr n HM Hlm M2 MEMBLOCK_NONE ZONE_NORMAL) as (M3 & m3 & E3 & H3);
    [done|intros q Hq; apply (proj2 (proj1 H2)), (proj2 (proj1 H1)), (Hfr MEMBLOCK_NONE ZONE_NORMAL); [by left|done]|].
  destruct (start_all ncpu zs m1 m2 m3 Hsh) as (z1 & z2 & z3 & -> & Es2 & Es3 & Hl3 & Hf3). rewrite bind_ret.
  rewrite E2, bind_ret, Es2, bind_ret, E3, bind_ret, Es3, bind_ret.
  assert (Hdec : forall f q, {frame f q} + {~ frame f q}) by (intros f; apply in_pages_dec).
  assert (HR3 : all_raw M3).
  { apply (all_raw_made _ _ M2 M3 (all_raw_made _ _ M1 M2 (all_raw_made _ _ M M1 HR H1 ltac:(by intros ?; apply born_raw)
      (Hdec _)) H2 ltac:(by intros ?; apply born_raw) (Hdec _)) H3 ltac:(by intros ?; apply born_raw) (Hdec _)). }
  assert (Hdom : forall q, is_Some (M3 !! q) <-> is_Some (M !! q)).
  { intros q. by rewrite (proj2 (proj1 H3) q), (proj2 (proj1 H2) q), (proj2 (proj1 H1) q). }
  destruct (reserved_init_ok M3 HR3) as (M4 & -> & Ht).
  { intros r q Hr Hq. by apply Hdom, (Hbk r). }
  rewrite bind_ret. eexists _, _. split; [reflexivity|].
  assert (Hdom4 : forall q, is_Some (M4 !! q) <-> is_Some (M !! q)).
  { intros q. by rewrite (proj2 (proj1 Ht) q), Hdom. }
  assert (Ha4 : agree_off (fun _ => True) M M4) by (split; [by intros q []|done]).
  destruct (fresh_node_inv ncpu (mk_node M4 z3)) as [HN Hno]; simpl;
    [by apply (mapped_agree _ M M4 Hm Ha4)|by unfold small in *; rewrite (size_agree _ _ _ Ha4)
    |by apply raw_no_buddy, (proj2 Ht)|done|done|].
  split_and!; [done|done|apply Ht| |done].
  intros f zid q Hz Hf. apply (tidied_born M3 M4 f zid q Ht Hf).
  assert (Hnot : forall f', f <> f' -> ~ frame f' q).
  { intros f' Hn Hf'. by apply Hn, (free_frame_flags mb lm lr n HM Hlm f f' q). }
  destruct Hz as [[-> ->]|[[-> ->]|[-> ->]]]; [by apply (proj2 H3)|..].
  - apply (page_sat_agree (frame MEMBLOCK_NONE) M2 M3); [apply H3|by apply Hnot|].
    apply (page_sat_agree (frame MEMBLOCK_MOVABLE) M1 M2); [apply H2|by apply Hnot|by apply (proj2 H1)].
  - apply (page_sat_agree (frame MEMBLOCK_NONE) M2 M3); [apply H3|by apply Hnot|by apply (proj2 H2)].
Qed.

(** What boot code may assume: a descriptor for every valid frame, none of them
    in use yet, and zones with all their areas; reserved and free frames are
    backed by descriptors, and frame 0 is not free. *)
Record boot_ready (P : pglist) : Prop := {
  br_mapped : mapped (nd_map (pg_node P));
  br_small : small (nd_map (pg_node P));
  br_raw : all_raw (nd_map (pg_node P));
  br_shape : shaped (node_zones (pg_node P));
  br_backed : forall r q, r ∈ lr ->
    between (PFN_UP (base r)) (PFN_DOWN (base r + rsize r - 1)) q -> is_Some (nd_map (pg_node P) !! q);
  br_frames : forall q, usable q -> 0 < q /\ is_Some (nd_map (pg_node P) !! q);
}.

Lemma init_nodes_ok P cpu :
  boot_ready P -> 0 <= cpu < Z.of_nat ncpu ->
  exists P', free_area_init_nodes ncpu cpu mb P = Ret P' /\ node_inv ncpu (pg_node P') /\
    (forall q, node_has (pg_node P') q <-> usable q) /\
    (forall q, is_Some (nd_map (pg_node P') !! q) <-> is_Some (nd_map (pg_node P) !! q)).
Proof.
  intros HP Hcpu. unfold free_area_init_nodes.
  destruct (pfn_walk_total mb lm lr n HM (fun t p q => u64 (t + (q - p))) 0) as (phys & ->). rewrite bind_ret.
  destruct (count_managed_ok mb lm lr n HM MEMBLOCK_NONE _ ZONE_NORMAL (br_shape _ HP)) as (z1 & -> & S1); [done|].
  destruct (count_managed_ok mb lm lr n HM MEMBLOCK_DMA z1 ZONE_DMA S1) as (z2 & E2 & S2); [done|].
  destruct (count_managed_ok mb lm lr n HM MEMBLOCK_MOVABLE z2 ZONE_MOVABLE S2) as (z3 & E3 & S3); [done|].
  rewrite bind_ret, E2, bind_ret, E3, bind_ret. unfold find_min_pfn_for_mem.
  destruct (pfn_walk_total mb lm lr n HM (fun m p _ => Z.min m p) ULONG_MAX) as (min & ->). rewrite !bind_ret.
  assert (Hfr : forall f zid q, zone_of f zid -> frame f q -> 0 < q /\ is_Some (nd_map (pg_node P) !! q)).
  { intros f zid q Hz Hf. apply (br_frames _ HP). by exists f, zid. }
  destruct (free_area_init_node_ok (nd_map (pg_node P)) z3 (if min =? ULONG_MAX then 0 else min)
    (br_mapped _ HP) (br_small _ HP) (br_raw _ HP) S3 (br_backed _ HP)) as (N1 & t & -> & HN1 & Hno & HR1 & Hb1 & Hd1).
  { intros f zid q Hz Hf. by apply (Hfr f zid). }
  rewrite bind_ret.
  destruct (free_all_ok N1 cpu HN1 Hcpu HR1) as (k & N2 & -> & HN2 & Hh2 & Hd2); [|done|].
  { intros f zid q Hz Hf. split; [by apply (Hfr f zid)|by apply (Hb1 f zid)]. }
  rewrite bind_ret. eexists. split; [reflexivity|]. simpl. split_and!; [done|done|].
  intros q. by rewrite Hd2, Hd1.
Qed.
End node_boot.
