(* ===== verification/PageBootSpec.v ===== *)
(** * What the bring-up promises

    The page allocator as [free_area_init_nodes] leaves it, with the arm64
    frame map over memblock; a worked example; and a gap of the descriptor
    initialisation. *)

From stdpp Require Import base numbers list option gmap.
From Stdlib Require Import ZArith Lia.
From S2P Require Import Prelude Memblock MemblockFacts MemblockRanges MemblockIter MemblockOps.
From S2P Require Import Page PageAlloc BuddyFacts BuddyOps PagePcp PageZone PageNode PageClient PageBoot PageBootFacts PageBootInit.

(** ** The arm64 frame map *)

Lemma frame_map_spec mb lm lr n p :
  mb_holds mb lm lr n ->
  @pfn_valid (memblock_pfn_map mb) p = true <->
  0 <= p < 2 ^ 52 /\ exists f, flags_at lm (p * 4096) = Some f /\ Z.land f MEMBLOCK_NOMAP = 0.
Proof.
  intros HM. unfold pfn_valid, memblock_pfn_map. cbv zeta. rewrite Z.shiftl_mul_pow2 by done. change (2 ^ PAGE_SHIFT) with 4096.
  rewrite Z.shiftr_div_pow2 by done. change (2 ^ PAGE_SHIFT) with 4096.
  destruct (Z.eqb_spec (u64 (p * 4096) / 4096) p) as [E|Hne]; simpl.
  - pose proof (u64_range (p * 4096)) as Hr.
    assert (Hp : 0 <= p < 2 ^ 52).
    { rewrite <- E. split; [by apply Z.div_pos; lia|]. apply Z.div_lt_upper_bound; lia. }
    rewrite u64_small by lia.
    destruct (returns_inv _ _ (is_map_memory_total mb lm lr n (p * 4096) HM ltac:(unfold addr; lia))) as (b & -> & ->).
    destruct (flags_at lm (p * 4096)) as [f|]; [|split; [done|by intros (_ & ? & ? & _)]].
    rewrite Z.eqb_eq. split; [eauto|]. intros (_ & f' & ? & ?). by simplify_eq.
  - split; [done|]. intros [Hp _]. rewrite u64_small in Hne by lia. by rewrite Z.div_mul in Hne.
Qed.

Lemma usable_valid mb lm lr n q :
  mb_holds mb lm lr n -> low_regions lm -> usable lm lr q -> @pfn_valid (memblock_pfn_map mb) q = true.
Proof.
  intros HM Hlm (f & zid & Hz & Hf).
  destruct (free_frame_addrs mb lm lr n HM Hlm f q Hf) as [Hq Ha].
  destruct (Ha (q * 4096)) as [Hfl _]; [lia|]. apply (frame_map_spec mb lm lr n q HM). split.
  - apply flags_at_in in Hfl as (r & Hr & Hc & _). apply contains_spec in Hc. pose proof (Hlm r Hr). lia.
  - exists f. split; [done|]. by destruct Hz as [[-> _]|[[-> _]|[-> _]]].
Qed.

(** What boot code may assume of the node and of memblock. *)
Record cold_boot (mb : memblock) (lm lr : list memblock_region) (n : Z) (P : pglist) : Prop := {
  cb_mb : mb_holds mb lm lr n;
  cb_reserved : lr <> [];                                (* the kernel image *)
  cb_low : low_regions lm /\ low_regions lr;
  cb_mapped : @mapped (memblock_pfn_map mb) (nd_map (pg_node P));
  cb_small : small (nd_map (pg_node P));
  cb_zero : forall p pg, nd_map (pg_node P) !! p = Some pg -> pg = zero_page;
  cb_zones : shaped (node_zones (pg_node P));
  cb_backed : forall r q, r ∈ lr ->
    between (PFN_UP (base r)) (PFN_DOWN (base r + rsize r - 1)) q -> is_Some (nd_map (pg_node P) !! q);
  cb_frame0 : ~ usable lm lr 0;                          (* __ffs(0) is undefined *)
}.

Lemma cold_boot_ready mb lm lr n P :
  cold_boot mb lm lr n P -> @boot_ready (memblock_pfn_map mb) lm lr P.
Proof.
  intros [HM _ [Hlm _] Hm Hs Hz Hsh Hbk H0]. split; [done|done| |done|done|].
  - intros p pg E. rewrite (Hz p pg E). apply raw_zero.
  - intros q Hq. split; [|by apply Hm, (usable_valid mb lm lr n)].
    assert (Hq0 : 0 <= q) by (destruct Hq as (f & zid & _ & Hf); by apply (free_frame_addrs mb lm lr n HM Hlm f q Hf)).
    destruct (Z.eq_dec q 0) as [->|]; [done|lia].
Qed.

(** C17: From zeroed descriptors, [free_area_init_nodes] runs to the end and
    leaves a node on which the allocator is safe: its lists offer exactly the
    frames that lie in one of memblock's free ranges of plain, DMA or movable
    memory, every byte of such a frame is memory and not reserved, and the set
    of descriptors is unchanged. *)
Theorem free_area_init_nodes_spec ncpu cpu mb lm lr n P :
  cold_boot mb lm lr n P -> 0 <= cpu < Z.of_nat ncpu ->
  exists P', @free_area_init_nodes (memblock_pfn_map mb) ncpu cpu mb P = Ret P' /\
    @client_inv (memblock_pfn_map mb) ncpu (pg_node P', ∅) /\
    (forall q, node_has (pg_node P') q <-> usable lm lr q) /\
    (forall q a, node_has (pg_node P') q -> q * 4096 <= a < (q + 1) * 4096 -> exists f, is_free lm lr f a) /\
    (forall q, is_Some (nd_map (pg_node P') !! q) <-> is_Some (nd_map (pg_node P) !! q)).
Proof.
  intros HP Hcpu. pose proof HP as [HM Hne [Hlm Hlr] _ _ _ _ _ _].
  destruct (@init_nodes_ok (memblock_pfn_map mb) ncpu mb lm lr n HM Hlm Hlr Hne P cpu (cold_boot_ready _ _ _ _ _ HP) Hcpu)
    as (P' & E & HN & Hh & Hd).
  exists P'. split_and!; [done| |done| |done].
  - split; [done|]. intros p o k Ek. by apply (lookup_empty_Some (M:=gmap Z) p (o, k)) in Ek.
  - intros q a Hq Ha. apply Hh in Hq as (f & zid & _ & Hf). exists f.
    by apply (free_frame_addrs mb lm lr n HM Hlm f q Hf).
Qed.

(** [__free_pages_memory] hands over exactly the frames of the range, cut
    into naturally aligned blocks, and disturbs no other frame. *)
Lemma free_pages_memory_spec `{PfnMap} ncpu N cpu zid s e :
  node_inv ncpu N -> valid_zid zid -> 0 <= cpu < Z.of_nat ncpu -> 0 < s ->
  (forall q, between s e q -> page_sat (nd_map N) q (born zid)) ->
  exists N', __free_pages_memory cpu N s e = Ret N' /\ node_inv ncpu N' /\
    (forall q, node_has N' q <-> node_has N q \/ between s e q) /\
    agree_off (node_has N') (nd_map N) (nd_map N').
Proof.
  intros HN Hv Hcpu Hs Hb.
  destruct (free_memory_ok ncpu N cpu zid s e HN Hv Hcpu Hs Hb) as (N' & E & ? & ? & ?). by exists N'.
Qed.

(** ** A worked example: the demo memblock of 256 frames, the first reserved *)

Definition boot_map : mem_map := list_to_map ((fun p => (p, zero_page)) <$> seqZ 1024 256).
Definition bss_zone : zone := mk_zone 0 0 false (replicate (Z.to_nat MAX_ORDER) (mk_area [] 0)) [].
Definition boot_pg : pglist := mk_pglist (mk_node boot_map (replicate 3 bss_zone)) 0 0 0.

Lemma boot_lookup p pg : boot_map !! p = Some pg <-> 1024 <= p < 1280 /\ pg = zero_page.
Proof.
  unfold boot_map. rewrite <- elem_of_list_to_map.
  - rewrite list_elem_of_fmap. split.
    + intros (q & E & Hq). simplify_eq. apply elem_of_seqZ in Hq. split; [lia|done].
    + intros [Hp ->]. exists p. split; [done|]. apply elem_of_seqZ. lia.
  - rewrite <- list_fmap_compose, list_fmap_id. apply NoDup_seqZ.
Qed.

Lemma demo_flags q :
  (exists f, flags_at demo_mem (q * 4096) = Some f /\ Z.land f MEMBLOCK_NOMAP = 0) <-> 1024 <= q < 1280.
Proof.
  unfold demo_mem, flags_at. destruct (contains _ _) eqn:E.
  - apply contains_spec in E. simpl in E. split; [lia|]. intros _. by exists 0.
  - split; [by intros (? & ? & _)|]. intros Hq. exfalso. apply not_true_iff_false in E. apply E.
    apply contains_spec. simpl. lia.
Qed.

Lemma boot_pg_cold : cold_boot demo demo_mem demo_res 128 boot_pg.
Proof.
  split.
  - exact demo_holds.
  - done.
  - split; intros r ->%list_elem_of_singleton; simpl; lia.
  - intros p. rewrite (frame_map_spec demo demo_mem demo_res 128 p demo_holds), demo_flags.
    unfold is_Some. simpl nd_map. setoid_rewrite boot_lookup.
    split; [intros [_ ?]; eauto|]. intros (? & ? & _). split; [lia|done].
  - by vm_compute.
  - intros p pg E. by apply boot_lookup in E as [_ ->].
  - split; [done|]. by apply Forall_replicate.
  - intros r q ->%list_elem_of_singleton Hq. change (between 1024 1024 q) in Hq. unfold between in Hq. lia.
  - intros (f & zid & _ & Hf).
    destruct (free_frame_addrs demo demo_mem demo_res 128 demo_holds) with (f := f) (q := 0) as [_ Ha]; [|done|].
    + intros r ->%list_elem_of_singleton. simpl. lia.
    + destruct (Ha 0 ltac:(lia)) as [Hfl _]. by vm_compute in Hfl.
Qed.

Lemma free_area_init_nodes_spec_witness :
  exists P', @free_area_init_nodes (memblock_pfn_map demo) 2 0 demo boot_pg = Ret P' /\
    @client_inv (memblock_pfn_map demo) 2 (pg_node P', ∅) /\
    (forall q, node_has (pg_node P') q <-> usable demo_mem demo_res q) /\
    (forall q a, node_has (pg_node P') q -> q * 4096 <= a < (q + 1) * 4096 ->
       exists f, is_free demo_mem demo_res f a) /\
    (forall q, is_Some (nd_map (pg_node P') !! q) <-> is_Some (nd_map (pg_node boot_pg) !! q)).
Proof. exact (free_area_init_nodes_spec 2 0 demo demo_mem demo_res 128 boot_pg boot_pg_cold ltac:(lia)). Defined.

(** The node between the two halves of the bring-up. *)
Definition boot_node : node :=
  match free_area_init_node 2 demo (pg_node boot_pg) 1024 with Ret (N, _) => N | _ => mk_node ∅ [] end.

Lemma demo_frames q : free_frame demo_mem demo_res MEMBLOCK_NONE q <-> between 1025 1280 q.
Proof.
  unfold free_frame. replace (ranges_of demo_mem demo_res MEMBLOCK_NONE) with [(4198400, 5242880)] by reflexivity.
  rewrite in_pages_cons. change (PFN_UP 4198400) with 1025. change (PFN_DOWN 5242880) with 1280.
  split; [|tauto]. intros [?|(? & ? & [] & _)]. done.
Qed.

Lemma boot_node_ok :
  @node_inv (memblock_pfn_map demo) 2 boot_node /\
  forall q, between 1025 1280 q -> page_sat (nd_map boot_node) q (born ZONE_NORMAL).
Proof.
  pose proof boot_pg_cold as [HM Hne [Hlm Hlr] Hm Hs _ Hsh Hbk _].
  pose proof (cold_boot_ready _ _ _ _ _ boot_pg_cold) as HR.
  destruct (@free_area_init_node_ok (memblock_pfn_map demo) 2 demo demo_mem demo_res 128 HM Hlm Hlr Hne
    _ (node_zones (pg_node boot_pg)) 1024 Hm Hs (@br_raw _ _ _ _ HR) Hsh Hbk) as (N & t & E & HN & _ & _ & Hb & _).
  - intros f zid q Hz Hf. apply (@br_frames _ _ _ _ HR q). exists f, zid. split; assumption.
  - unfold boot_node. change (pg_node boot_pg) with (mk_node (nd_map (pg_node boot_pg)) (node_zones (pg_node boot_pg))).
    rewrite E. split; [exact HN|]. intros q Hq.
    exact (Hb MEMBLOCK_NONE ZONE_NORMAL q (or_introl (conj eq_refl eq_refl)) (proj2 (demo_frames q) Hq)).
Qed.

Lemma free_pages_memory_spec_witness :
  exists N', @__free_pages_memory (memblock_pfn_map demo) 1 boot_node 1025 1280 = Ret N' /\
    @node_inv (memblock_pfn_map demo) 2 N' /\
    (forall q, node_has N' q <-> node_has boot_node q \/ between 1025 1280 q) /\
    agree_off (node_has N') (nd_map boot_node) (nd_map N').
Proof.
  apply (@free_pages_memory_spec (memblock_pfn_map demo) 2 boot_node 1 ZONE_NORMAL 1025 1280);
    [apply boot_node_ok|by unfold valid_zid|lia|lia|apply boot_node_ok].
Defined.

(** ** The last frame of a reserved region

    [free_area_init_node] rounds the inclusive end of a reserved region down, so
    the last frame of a page-aligned region is never initialised: its map count
    and zone are wrong, and when the frame is given back with
    [free_reserved_page] it fails the checks and is lost. *)
Definition booted : outcome pglist := @free_area_init_nodes (memblock_pfn_map demo) 2 0 demo boot_pg.

Lemma reserved_tail_frame_lost :
  match booted with
  | Ret P =>
      match nd_map (pg_node P) !! 1024, @free_reserved_page (memblock_pfn_map demo) 0 (pg_node P) 1024 with
      | Some pg, Ret N =>
          refcount pg = 0 /\ page_type pg = 0 /\ page_zone_id pg = ZONE_DMA /\
          areas <$> node_zones N = areas <$> node_zones (pg_node P) /\
          pageset <$> node_zones N = pageset <$> node_zones (pg_node P)
      | _, _ => False
      end
  | _ => False
  end.
Proof. vm_compute. repeat split. Qed.
