(* ===== verification/Asid.v ===== *)
(** * The ASID allocator

    A model of arch/arm64/mm/context.c.  The functions of the file are given as
    sequential definitions, and the whole as a step relation in which the CPUs
    interleave at every access to the words they share: the fast path of
    [check_and_switch_context] is four steps, and the slow path of one CPU runs
    under [cpu_asid_lock] while the others may take their fast paths between any
    two of its visible writes.

    An [mm_struct] is a number; its [context.id] is 0 until it first runs
    ([init_new_context]).  Per-CPU variables are functions of the CPU.  The
    possible CPUs are a list. *)

From stdpp Require Import base numbers list option functions relations.
From Stdlib Require Import ZArith Lia.
From S2P Require Import Prelude Bitmap.

Definition GENMASK (h l : Z) : Z :=
  Z.land (u64 (ULLONG_MAX - u64 (Z.shiftl 1 l) + 1)) (Z.shiftr ULLONG_MAX (BITS_PER_LONG - 1 - h)).

(** [fld] is the ASIDBits field of ID_AA64MMFR0_EL1. *)
Definition get_cpu_asid_bits (fld : Z) : Z := if fld =? 2 then 16 else 8.

(** A CPU with fewer ASID bits than the boot CPU stops the kernel. *)
Definition verify_cpu_asid_bits (asid_bits fld : Z) : outcome unit :=
  let asid := get_cpu_asid_bits fld in if asid <? asid_bits then Bug else Ret tt.

Section Asid.
Context (asid_bits : Z).             (* set by asids_init, then constant *)
Context (possible_cpus : list Z).    (* cpu_possible_mask *)

Definition ASID_MASK : Z := not64 (GENMASK (asid_bits - 1) 0).
Definition ASID_FIRST_VERSION : Z := u64 (Z.shiftl 1 asid_bits).
Definition NUM_USER_ASIDS : Z := ASID_FIRST_VERSION.
Definition asid2idx (asid : Z) : Z := Z.land asid (not64 ASID_MASK).
Definition idx2asid (idx : Z) : Z := asid2idx idx.

(** The state of the allocator. *)
Record asids := mk_asids {
  asid_generation : Z;
  asid_map : bitmap;
  cur_idx : Z;
  active_asids : Z -> Z;            (* per CPU *)
  reserved_asids : Z -> Z;          (* per CPU *)
  tlb_flush_pending : Z -> bool;    (* a cpumask *)
  context_id : Z -> Z               (* mm->context.id *)
}.

Definition set_generation g A := mk_asids g (asid_map A) (cur_idx A) (active_asids A) (reserved_asids A) (tlb_flush_pending A) (context_id A).
Definition set_map m A := mk_asids (asid_generation A) m (cur_idx A) (active_asids A) (reserved_asids A) (tlb_flush_pending A) (context_id A).
Definition set_cur_idx i A := mk_asids (asid_generation A) (asid_map A) i (active_asids A) (reserved_asids A) (tlb_flush_pending A) (context_id A).
Definition set_active a A := mk_asids (asid_generation A) (asid_map A) (cur_idx A) a (reserved_asids A) (tlb_flush_pending A) (context_id A).
Definition set_reserved r A := mk_asids (asid_generation A) (asid_map A) (cur_idx A) (active_asids A) r (tlb_flush_pending A) (context_id A).
Definition set_pending p A := mk_asids (asid_generation A) (asid_map A) (cur_idx A) (active_asids A) (reserved_asids A) p (context_id A).
Definition set_context c A := mk_asids (asid_generation A) (asid_map A) (cur_idx A) (active_asids A) (reserved_asids A) (tlb_flush_pending A) c.

(** [asids_init], with the bitmap zeroed by [kcalloc] and the static variables
    at their initial values. *)
Definition asids_init : asids :=
  mk_asids ASID_FIRST_VERSION (replicate (Z.to_nat (BITS_TO_LONGS NUM_USER_ASIDS)) 0) 1
    (fun _ => 0) (fun _ => 0) (fun _ => false) (fun _ => 0).

(** ** The functions of the file *)

(** One turn of the loop of [flush_context]. *)
Definition flush_turn (A : asids) (i : Z) : outcome asids :=
  let asid := active_asids A i in                                  (* xchg(.., 0) *)
  let A := set_active (<[i := 0]> (active_asids A)) A in
  let asid := if asid =? 0 then reserved_asids A i else asid in
  map ← __set_bit (asid2idx asid) (asid_map A);
  Ret (set_reserved (<[i := asid]> (reserved_asids A)) (set_map map A)).

Fixpoint flush_turns (A : asids) (cpus : list Z) : outcome asids :=
  match cpus with
  | [] => Ret A
  | i :: cpus => A ← flush_turn A i; flush_turns A cpus
  end.

Definition clear_map (A : asids) : outcome asids :=
  map ← bitmap_clear (asid_map A) 0 NUM_USER_ASIDS; Ret (set_map map A).
Definition pend_all (A : asids) : asids := set_pending (fun _ => true) A.   (* cpumask_setall *)

Definition flush_context (A : asids) : outcome asids :=
  A ← clear_map A;
  A ← flush_turns A possible_cpus;
  Ret (pend_all A).

Fixpoint update_reserved (cpus : list Z) (asid newasid : Z) (hit : bool) (reserved : Z -> Z) : bool * (Z -> Z) :=
  match cpus with
  | [] => (hit, reserved)
  | cpu :: cpus =>
      if reserved cpu =? asid then update_reserved cpus asid newasid true (<[cpu := newasid]> reserved)
      else update_reserved cpus asid newasid hit reserved
  end.
Definition check_update_reserved_asid (asid newasid : Z) (A : asids) : bool * asids :=
  let '(hit, reserved) := update_reserved possible_cpus asid newasid false (reserved_asids A) in
  (hit, set_reserved reserved A).

(** The block at [set_asid]. *)
Definition set_asid (asid generation : Z) (A : asids) : outcome (Z * asids) :=
  map ← __set_bit asid (asid_map A);
  Ret (Z.lor (idx2asid asid) generation, set_cur_idx (u32 asid) (set_map map A)).

(** [new_context] up to the point where the generation is exhausted. *)
Definition reuse_asid (mm : Z) (A : asids) : outcome (option Z * asids) :=
  let asid := context_id A mm in
  let generation := asid_generation A in
  if negb (asid =? 0) then
    let newasid := Z.lor generation (Z.land asid (not64 ASID_MASK)) in
    let '(hit, A) := check_update_reserved_asid asid newasid A in
    if hit then Ret (Some newasid, A)
    else
      '(old, map) ← __test_and_set_bit (asid2idx asid) (asid_map A);
      Ret (if (old : bool) then None else Some newasid, set_map map A)
  else Ret (None, A).

Definition find_asid (A : asids) : outcome (option Z * asids) :=
  asid ← find_next_zero_bit (asid_map A) NUM_USER_ASIDS (cur_idx A);
  if negb (asid =? NUM_USER_ASIDS) then
    '(newasid, A) ← set_asid asid (asid_generation A) A; Ret (Some newasid, A)
  else Ret (None, A).

Definition try_context (mm : Z) (A : asids) : outcome (option Z * asids) :=
  '(r, A) ← reuse_asid mm A;
  match r with
  | Some newasid => Ret (Some newasid, A)
  | None => find_asid A
  end.

(** [atomic64_add_return_relaxed(ASID_FIRST_VERSION, &asid_generation)]. *)
Definition next_generation (A : asids) : asids :=
  set_generation (u64 (asid_generation A + ASID_FIRST_VERSION)) A.

Definition first_asid (A : asids) : outcome (Z * asids) :=
  asid ← find_next_zero_bit (asid_map A) NUM_USER_ASIDS 1;
  set_asid asid (asid_generation A) A.

Definition new_context (mm : Z) (A : asids) : outcome (Z * asids) :=
  '(r, A) ← try_context mm A;
  match r with
  | Some newasid => Ret (newasid, A)
  | None =>
      A ← flush_context (next_generation A);
      first_asid A
  end.

(** [(asid ^ generation) >> asid_bits]. *)
Definition stale (asid generation : Z) : bool := negb (Z.shiftr (Z.lxor asid generation) asid_bits =? 0).

(** The end of the critical section: the flag says that the local TLB is
    flushed. *)
Definition set_active_asid (cpu asid : Z) (A : asids) : bool * asids :=
  let flush := tlb_flush_pending A cpu in
  let A := set_pending (<[cpu := false]> (tlb_flush_pending A)) A in
  (flush, set_active (<[cpu := asid]> (active_asids A)) A).

(** The fast path, tried without the lock. *)
Definition switch_fast (mm cpu : Z) (A : asids) : option asids :=
  let asid := context_id A mm in
  let old_active_asid := active_asids A cpu in
  if negb (old_active_asid =? 0) && negb (stale asid (asid_generation A)) then
    Some (set_active (<[cpu := asid]> (active_asids A)) A)
  else None.

(** [check_and_switch_context] when no other CPU interferes; the flag says that
    the local TLB was flushed. *)
Definition check_and_switch_context (mm cpu : Z) (A : asids) : outcome (bool * asids) :=
  match switch_fast mm cpu A with
  | Some A => Ret (false, A)
  | None =>
      let asid := context_id A mm in
      '(asid, A) ← (if stale asid (asid_generation A) then
                      '(asid, A) ← new_context mm A;
                      Ret (asid, set_context (<[mm := asid]> (context_id A)) A)
                    else Ret (asid, A));
      Ret (set_active_asid cpu asid A)
  end.

(** ** The interleaved system *)

(** Where a CPU is in [check_and_switch_context(mm, cpu)]. *)
Inductive pc :=
  | Running                                   (* outside *)
  | Read_active (mm asid : Z)                 (* context.id has been read *)
  | Read_generation (mm asid old : Z)         (* active_asids has been read *)
  | Cmpxchg (mm asid old : Z)                 (* the generations agreed *)
  | Locking (mm : Z)                          (* before the lock is taken *)
  | Rollover (mm : Z)                         (* out of ASIDs, before the generation moves *)
  | Flushing (mm : Z) (todo : list Z)         (* in flush_context, CPUs left *)
  | Set_context (mm asid : Z)                 (* new_context has returned *)
  | Set_active (mm asid : Z)                  (* before cpumask_test_and_clear_cpu *)
  | Switching (mm : Z)                        (* at switch_mm_fastpath *)
  | Set_ttbr (mm : Z).                        (* the reserved TTBR0 is in place *)

(** The machine: the allocator, the lock, and for each CPU its program point, the
    mm and ASID its translation registers hold, the mm it last activated (a ghost)
    and the contents of its TLB, pairs of an ASID and the mm whose page tables
    were walked. *)
Record machine := mk_machine {
  alloc : asids;
  cpu_asid_lock : option Z;
  cpu_pc : Z -> pc;
  cpu_mm : Z -> option Z;
  cpu_ttbr : Z -> option (Z * Z);
  cpu_tlb : Z -> list (Z * Z)
}.

Definition machine_init : machine :=
  mk_machine asids_init None (fun _ => Running) (fun _ => None) (fun _ => None) (fun _ => []).

Definition goto (M : machine) (cpu : Z) (p : pc) : machine :=
  mk_machine (alloc M) (cpu_asid_lock M) (<[cpu := p]> (cpu_pc M)) (cpu_mm M) (cpu_ttbr M) (cpu_tlb M).
Definition set_alloc (M : machine) (A : asids) : machine :=
  mk_machine A (cpu_asid_lock M) (cpu_pc M) (cpu_mm M) (cpu_ttbr M) (cpu_tlb M).
Definition set_lock (M : machine) (l : option Z) : machine :=
  mk_machine (alloc M) l (cpu_pc M) (cpu_mm M) (cpu_ttbr M) (cpu_tlb M).
Definition set_mm (M : machine) (cpu mm : Z) : machine :=
  mk_machine (alloc M) (cpu_asid_lock M) (cpu_pc M) (<[cpu := Some mm]> (cpu_mm M)) (cpu_ttbr M) (cpu_tlb M).
Definition set_ttbr (M : machine) (cpu : Z) (t : option (Z * Z)) : machine :=
  mk_machine (alloc M) (cpu_asid_lock M) (cpu_pc M) (cpu_mm M) (<[cpu := t]> (cpu_ttbr M)) (cpu_tlb M).
Definition set_tlb (M : machine) (cpu : Z) (t : list (Z * Z)) : machine :=
  mk_machine (alloc M) (cpu_asid_lock M) (cpu_pc M) (cpu_mm M) (cpu_ttbr M) (<[cpu := t]> (cpu_tlb M)).

(** The next access of a CPU; [None] when it waits for the lock or has nothing to
    do. *)
Definition cpu_step (cpu : Z) (M : machine) : outcome (option machine) :=
  let A := alloc M in
  match cpu_pc M cpu with
  | Running => Ret None
  | Read_active mm asid =>
      let old := active_asids A cpu in
      Ret (Some (goto M cpu (if old =? 0 then Locking mm else Read_generation mm asid old)))
  | Read_generation mm asid old =>
      Ret (Some (goto M cpu (if stale asid (asid_generation A) then Locking mm else Cmpxchg mm asid old)))
  | Cmpxchg mm asid old =>
      let cur := active_asids A cpu in
      let M := if cur =? old then set_alloc M (set_active (<[cpu := asid]> (active_asids A)) A) else M in
      Ret (Some (if cur =? 0 then goto M cpu (Locking mm) else goto (set_mm M cpu mm) cpu (Switching mm)))
  | Locking mm =>
      match cpu_asid_lock M with
      | Some _ => Ret None
      | None =>
          let asid := context_id A mm in
          let M := set_lock M (Some cpu) in
          if stale asid (asid_generation A) then
            '(r, A) ← try_context mm A;
            Ret (Some (goto (set_alloc M A) cpu
              (match (r : option Z) with Some newasid => Set_context mm newasid | None => Rollover mm end)))
          else Ret (Some (goto M cpu (Set_active mm asid)))
      end
  | Rollover mm =>
      A ← clear_map (next_generation A);
      Ret (Some (goto (set_alloc M A) cpu (Flushing mm possible_cpus)))
  | Flushing mm (i :: todo) =>
      A ← flush_turn A i;
      Ret (Some (goto (set_alloc M A) cpu (Flushing mm todo)))
  | Flushing mm [] =>
      '(asid, A) ← first_asid (pend_all A);
      Ret (Some (goto (set_alloc M A) cpu (Set_context mm asid)))
  | Set_context mm asid =>
      Ret (Some (goto (set_alloc M (set_context (<[mm := asid]> (context_id A)) A)) cpu (Set_active mm asid)))
  | Set_active mm asid =>
      let '(flush, A) := set_active_asid cpu asid A in
      let M := if (flush : bool) then set_tlb M cpu [] else M in
      Ret (Some (goto (set_mm (set_lock (set_alloc M A) None) cpu mm) cpu (Switching mm)))
  | Switching mm => Ret (Some (goto (set_ttbr M cpu None) cpu (Set_ttbr mm)))     (* cpu_set_reserved_ttbr0 *)
  | Set_ttbr mm =>                                                                (* cpu_do_switch_mm *)
      Ret (Some (goto (set_ttbr M cpu (Some (mm, asid2idx (context_id A mm)))) cpu Running))
  end.

(** One step of the machine: a CPU takes its next access, enters
    [check_and_switch_context], switches to [init_mm] ([__switch_mm]), or its
    hardware walks the page tables of the address space its registers hold. *)
Inductive step : machine -> machine -> Prop :=
  | step_cpu cpu M M' :
      cpu ∈ possible_cpus -> cpu_step cpu M = Ret (Some M') -> step M M'
  | step_switch_mm cpu mm M :
      cpu ∈ possible_cpus -> cpu_pc M cpu = Running ->
      step M (goto M cpu (Read_active mm (context_id (alloc M) mm)))
  | step_init_mm cpu M :
      cpu ∈ possible_cpus -> cpu_pc M cpu = Running -> step M (set_ttbr M cpu None)
  | step_walk cpu t M :
      cpu ∈ possible_cpus -> cpu_ttbr M cpu = Some t -> step M (set_tlb M cpu (t :: cpu_tlb M cpu)).

(** The runs in which the 64-bit generation does not wrap to 0. *)
Definition run : machine -> machine -> Prop :=
  rtc (fun M M' => step M M' /\ asid_generation (alloc M') <> 0).

End Asid.
