(* ===== verification/AsidInv.v ===== *)
(** * The words and the operations of the ASID allocator

    An ASID value is [gen * N + idx] for [N] user ASIDs; the masks and shifts of
    the source are division by [N].  Each operation of the allocator is described
    by what it does to the bitmap and to the per-CPU words. *)
From stdpp Require Import base numbers list option functions sets.
From Stdlib Require Import ZArith Lia.
From stdpp Require Import base numbers list list_numbers option functions sets relations.
From S2P Require Import Prelude Bitmap BitmapFacts Asid.

(** ** The update of the reserved ASIDs *)

Lemma update_reserved_ok l asid newasid hit res :
  asid <> newasid ->
  let '(hit', res') := update_reserved l asid newasid hit res in
  (hit' = true <-> hit = true \/ exists c, c ∈ l /\ res c = asid) /\
  forall c, res' c = if decide (c ∈ l /\ res c = asid) then newasid else res c.
Proof.
  intros Hne. revert hit res. induction l as [|c l IH]; intros hit res; cbn [update_reserved].
  - split; [set_solver|]. intros c. by rewrite decide_False by set_solver.
  - destruct (Z.eqb_spec (res c) asid) as [E|E].
    + specialize (IH true (<[c:=newasid]> res)). destruct (update_reserved l asid newasid true _) as [hit' res'].
      destruct IH as [H1 H2]. split; [set_solver|]. intros c'. rewrite H2. destruct (decide (c' = c)) as [->|Hc].
      * rewrite fn_lookup_insert, (decide_False (P := c ∈ l /\ newasid = asid)) by naive_solver.
        by rewrite decide_True by set_solver.
      * rewrite fn_lookup_insert_ne by done. apply decide_ext. set_solver.
    + specialize (IH hit res). destruct (update_reserved l asid newasid hit res) as [hit' res'].
      destruct IH as [H1 H2]. split; [set_solver|]. intros c'. rewrite H2. apply decide_ext. set_solver.
Qed.

Section AsidFacts.
Context (asid_bits : Z) (cpus : list Z) (Hbits : asid_bits = 8 \/ asid_bits = 16).

Abbreviation N := (2 ^ asid_bits).

Definition idx (a : Z) : Z := a mod N.
Definition gen (a : Z) : Z := a / N.
Definition id (a : Z) : Prop := 0 <= a < 2 ^ 64.

Lemma N_bounds : 256 <= N <= 65536.
Proof. destruct Hbits as [-> | ->]; simpl; lia. Qed.
Lemma N_divides : 2 ^ 64 = N * 2 ^ (64 - asid_bits).
Proof. destruct Hbits as [-> | ->]; reflexivity. Qed.

Lemma first_version : ASID_FIRST_VERSION asid_bits = N.
Proof. by destruct Hbits as [-> | ->]. Qed.
Lemma num_user_asids : NUM_USER_ASIDS asid_bits = N.
Proof. apply first_version. Qed.

Lemma not_mask : not64 (ASID_MASK asid_bits) = Z.ones asid_bits.
Proof. by destruct Hbits as [-> | ->]. Qed.

Lemma asid2idx_mod a : asid2idx asid_bits a = idx a.
Proof. unfold asid2idx. rewrite not_mask. apply Z.land_ones. destruct Hbits; lia. Qed.
Lemma land_mask_mod a : Z.land a (not64 (ASID_MASK asid_bits)) = idx a.
Proof. apply asid2idx_mod. Qed.
Lemma idx_small i : 0 <= i < N -> idx i = i.
Proof. apply Z.mod_small. Qed.

Lemma idx_range a : 0 <= idx a < N.
Proof. apply Z.mod_pos_bound. pose proof N_bounds. lia. Qed.

Lemma gen_idx a : a = gen a * N + idx a.
Proof. unfold gen, idx. rewrite Z.mul_comm. apply Z.div_mod. pose proof N_bounds. lia. Qed.

(** A generation is a multiple of [N]. *)
Lemma lor_generation g a : idx g = 0 -> Z.lor g (idx a) = g + idx a.
Proof.
  intros Hg. rewrite (gen_idx g) at 1. rewrite Hg, Z.add_0_r, Z.lor_comm, <- Z.shiftl_mul_pow2 by (destruct Hbits; lia).
  rewrite lor_shiftl_add by (destruct Hbits; lia || apply idx_range).
  pose proof (gen_idx g). lia.
Qed.

Lemma gen_new g i : idx g = 0 -> 0 <= i < N -> gen (g + i) = gen g.
Proof.
  intros Hg Hi. symmetry. apply Z.div_unique with i; [lia|]. pose proof (gen_idx g). lia.
Qed.
Lemma idx_new g i : idx g = 0 -> 0 <= i < N -> idx (g + i) = i.
Proof.
  intros Hg Hi. symmetry. apply Z.mod_unique with (gen g); [lia|]. pose proof (gen_idx g). lia.
Qed.
Lemma id_new g i : id g -> idx g = 0 -> 0 <= i < N -> id (g + i).
Proof.
  unfold id. intros [H0 H1] Hg Hi. split; [lia|]. pose proof (gen_idx g). rewrite N_divides in *.
  assert (gen g < 2 ^ (64 - asid_bits)) by (apply Z.div_lt_upper_bound; pose proof N_bounds; lia). nia.
Qed.

Lemma gen_nonneg a : 0 <= a -> 0 <= gen a.
Proof. intros. apply Z.div_pos; [done|]. pose proof N_bounds. lia. Qed.

Lemma gen_0 : gen 0 = 0.
Proof. apply Z.div_0_l. pose proof N_bounds. lia. Qed.

(** The comparison [(asid ^ generation) >> asid_bits]. *)
Lemma stale_spec a g : stale asid_bits a g = negb (gen a =? gen g).
Proof.
  unfold stale, gen. assert (Hb : 0 <= asid_bits) by (destruct Hbits; lia). f_equal.
  rewrite Z.shiftr_lxor, !Z.shiftr_div_pow2 by done.
  destruct (Z.eqb_spec (a / N) (g / N)) as [->|Hne].
  - by rewrite Z.lxor_nilpotent.
  - apply Z.eqb_neq. intros E. by apply Z.lxor_eq in E.
Qed.

(** The next generation, while the counter does not wrap. *)
Lemma next_gen g :
  id g -> idx g = 0 -> u64 (g + N) <> 0 ->
  u64 (g + N) = g + N /\ id (g + N) /\ idx (g + N) = 0 /\ gen (g + N) = gen g + 1.
Proof.
  unfold id. intros [H0 H1] Hg Hne. pose proof (gen_idx g) as E. pose proof N_bounds.
  assert (Hlt : g + N < 2 ^ 64 \/ g + N = 2 ^ 64).
  { rewrite N_divides in *. assert (gen g < 2 ^ (64 - asid_bits)) by (apply Z.div_lt_upper_bound; lia). nia. }
  destruct Hlt as [Hlt|Heq].
  - rewrite u64_small by lia. split; [done|]. split; [lia|]. unfold idx, gen.
    replace (g + N) with (g + 1 * N) by lia. rewrite Z.mod_add, Z.div_add by lia. done.
  - exfalso. apply Hne. by rewrite Heq.
Qed.

(** ** The bitmap *)

Lemma map_len_ok (map : bitmap) i : room map N -> 0 <= i < N -> 0 <= i < 64 * Z.of_nat (length map).
Proof. intros [_ H] Hi. lia. Qed.

Lemma set_ok (map : bitmap) i :
  room map N -> 0 <= i < N ->
  exists map', __set_bit i map = Ret map' /\ room map' N /\
    forall j, 0 <= j -> bit_of map' j = (j =? i) || bit_of map j.
Proof.
  intros Hr Hi. destruct (set_bit_ok map i) as (map' & E & Hw & Hl & Hb); [apply Hr|by apply map_len_ok|].
  exists map'. split; [done|]. split; [|done]. split; [done|]. rewrite Hl. apply Hr.
Qed.

Lemma clear_ok (A : asids) :
  room (asid_map A) N ->
  exists map', clear_map asid_bits A = Ret (set_map map' A) /\ room map' N /\
    forall j, 0 <= j < N -> bit_of map' j = false.
Proof.
  intros [Hw Hl]. pose proof N_bounds. unfold clear_map. rewrite num_user_asids.
  pose proof (bitmap_run_ok (fun w m => Z.land w (not64 m)) false (asid_map A) 0 N masked_clear
    ltac:(lia) ltac:(lia) ltac:(split; [done|lia]) ltac:(lia)) as Hr.
  destruct (returns_inv _ _ Hr) as (map' & E & Hw' & Hl' & Hs). exists map'.
  unfold bitmap_clear, __bitmap_clear. rewrite E. split; [done|]. split; [split; [done|lia]|].
  intros j Hj. rewrite Hs by lia. by rewrite (proj2 (Z.leb_le 0 j)), (proj2 (Z.ltb_lt j (0 + N))) by lia.
Qed.

(** The search for a free ASID. *)
Lemma find_free_ok (map : bitmap) s :
  room map N -> 1 <= s < N ->
  exists i, find_next_zero_bit map N s = Ret i /\ s <= i <= N /\ (i < N -> bit_of map i = false) /\
    (i = N -> forall j, s <= j < N -> bit_of map j = true).
Proof.
  intros Hr Hs. pose proof N_bounds. destruct (find_next_zero_bit_ok map N s Hr) as (i & E & _ & Hl); [lia|lia|].
  destruct (Hl ltac:(lia)) as (H1 & H2 & H3). exists i. split; [done|]. split; [lia|]. split.
  - intros Hi. specialize (H3 Hi). by apply negb_true_iff in H3.
  - intros -> j Hj. specialize (H2 j Hj). by apply negb_false_iff in H2.
Qed.

(** [set_asid] with a free index. *)
Lemma set_asid_ok i g A :
  room (asid_map A) N -> 1 <= i < N -> idx g = 0 ->
  exists map', set_asid asid_bits i g A = Ret (g + i, set_cur_idx i (set_map map' A)) /\ room map' N /\
    forall j, 0 <= j -> bit_of map' j = (j =? i) || bit_of (asid_map A) j.
Proof.
  intros Hr Hi Hg. pose proof N_bounds. destruct (set_ok (asid_map A) i Hr) as (map' & E & Hr' & Hb); [lia|].
  exists map'. unfold set_asid. rewrite E, bind_ret, u32_small by lia. split; [|done]. do 2 f_equal.
  unfold idx2asid. rewrite asid2idx_mod, Z.lor_comm, lor_generation by done. by rewrite idx_small by lia.
Qed.

End AsidFacts.

(** ** The invariant of the ASID allocator

    The invariant speaks of an epoch (the generation whose ASIDs may be active)
    and of an assignment of ASIDs to address spaces.  Both are the ones in memory,
    except while the owner of the lock is in [flush_context], when the epoch is
    the previous generation, or holds a new ASID it has not yet stored in
    [mm->context.id]. *)

Section AsidInv.
Context (asid_bits : Z) (cpus : list Z).
Context (Hbits : asid_bits = 8 \/ asid_bits = 16).
Context (Hcpus : Z.of_nat (length cpus) < 2 ^ asid_bits - 1) (Hnodup : NoDup cpus).

Abbreviation N := (2 ^ asid_bits).
Abbreviation idx := (idx asid_bits).
Abbreviation gen := (gen asid_bits).

(** The ASID a CPU holds: the active one, or the one reserved at a rollover. *)
Definition own (A : asids) (c : Z) : Z := if active_asids A c =? 0 then reserved_asids A c else active_asids A c.

(** The ASID of [m] may be in use or in a TLB: it is of the epoch, or reserved. *)
Definition live (A : asids) (e : Z) (x : Z -> Z) (m : Z) : Prop :=
  x m <> 0 /\ (gen (x m) = e \/ exists c, c ∈ cpus /\ reserved_asids A c = x m).

Record core (A : asids) (e : Z) (x : Z -> Z) : Prop := {
  c_gen : id (asid_generation A) /\ idx (asid_generation A) = 0;
  c_epoch : 1 <= e <= gen (asid_generation A);
  c_ids : forall m, x m = 0 \/ (id (x m) /\ idx (x m) <> 0 /\ 1 <= gen (x m) <= e);
  c_inj : forall m m', live A e x m -> live A e x m' -> idx (x m) = idx (x m') -> m = m';
  c_act : forall c, c ∈ cpus -> active_asids A c <> 0 -> gen (active_asids A c) = e /\ exists m, x m = active_asids A c;
  c_res : forall c, c ∈ cpus -> reserved_asids A c <> 0 -> exists m, x m = reserved_asids A c;
  c_idx : 1 <= cur_idx A < N;
  c_room : room (asid_map A) N
}.

(** Every live index is marked in the bitmap. *)
Definition marked (A : asids) (e : Z) (x : Z -> Z) : Prop :=
  forall m, live A e x m -> bit_of (asid_map A) (idx (x m)) = true.

(** [m] needs a new ASID. *)
Definition unowned (A : asids) (x : Z -> Z) (m : Z) : Prop :=
  x m <> 0 -> forall c, c ∈ cpus -> reserved_asids A c <> x m.

(** What a change of the allocator keeps for the CPUs that do not make it. *)
Record keeps (A A' : asids) (e : Z) (x x' : Z -> Z) : Prop := {
  k_gen : asid_generation A' = asid_generation A;
  k_act : active_asids A' = active_asids A;
  k_pend : tlb_flush_pending A' = tlb_flush_pending A;
  k_ctx : context_id A' = context_id A;
  k_own : forall c m, c ∈ cpus -> x m <> 0 -> own A c = x m -> x' m <> 0 /\ own A' c = x' m /\ idx (x' m) = idx (x m);
  k_live : forall m, live A e x m -> live A' e x' m /\ idx (x' m) = idx (x m)
}.

Lemma own_live A e x c m : core A e x -> c ∈ cpus -> x m <> 0 -> own A c = x m -> live A e x m.
Proof.
  intros C Hc Hm. unfold own. destruct (Z.eqb_spec (active_asids A c) 0) as [E|E]; intros Ho; split; try done.
  - right. by exists c.
  - left. rewrite <- Ho. by apply (c_act A e x C c Hc E).
Qed.

(** An id of the epoch is determined by its index. *)
Lemma id_eq a b : gen a = gen b -> idx a = idx b -> a = b.
Proof. intros. rewrite (gen_idx asid_bits Hbits a), (gen_idx asid_bits Hbits b). congruence. Qed.

(** ** A new index for an unowned address space *)

Section fresh.
Context (A A' : asids) (x : Z -> Z) (mm i : Z).
Abbreviation e := (gen (asid_generation A)).
Abbreviation a := (asid_generation A + i).
Abbreviation x' := (<[mm := a]> x).
Context (C : core A e x) (Hmark : marked A e x) (Hmm : gen (x mm) < e) (Hun : unowned A x mm)
  (Hi : 1 <= i < N) (Hfree : bit_of (asid_map A) i = false)
  (Hgen : asid_generation A' = asid_generation A) (Hact : active_asids A' = active_asids A)
  (Hres : forall c, reserved_asids A' c = reserved_asids A c) (Hpend : tlb_flush_pending A' = tlb_flush_pending A)
  (Hctx : context_id A' = context_id A) (Hcur : 1 <= cur_idx A' < N) (Hroom : room (asid_map A') N)
  (Hbit : forall j, 0 <= j -> bit_of (asid_map A') j = (j =? i) || bit_of (asid_map A) j).

Lemma fresh_gen : gen a = e /\ idx a = i /\ id a /\ a <> 0.
Proof.
  destruct (c_gen _ _ _ C) as [Hid H0]. split; [apply gen_new; done || lia|].
  split; [apply idx_new; done || lia|]. split; [apply (id_new asid_bits Hbits); done || lia|].
  unfold id in Hid. lia.
Qed.

Lemma fresh_not_live : ~ live A e x mm.
Proof. intros [H0 [H|(c & Hc & H)]]; [lia|]. by apply (Hun H0 c Hc). Qed.

Lemma fresh_live m : live A' e x' m <-> m = mm \/ live A e x m.
Proof.
  destruct fresh_gen as (G1 & G2 & G3 & G4). unfold live. setoid_rewrite Hres.
  destruct (decide (m = mm)) as [->|Hne].
  - rewrite fn_lookup_insert. split; [by left|]. intros _. split; [done|by left].
  - rewrite fn_lookup_insert_ne by done. split; [by right|]. by intros [?|?].
Qed.

Lemma fresh_idx_ne m : live A e x m -> idx (x m) <> i.
Proof. intros Hm E. apply Hmark in Hm. rewrite E in Hm. congruence. Qed.

Lemma fresh_core : core A' e x'.
Proof.
  destruct fresh_gen as (G1 & G2 & G3 & G4). split.
  - rewrite Hgen. apply (c_gen _ _ _ C).
  - rewrite Hgen. apply (c_epoch _ _ _ C).
  - intros m. destruct (decide (m = mm)) as [->|Hne].
    + rewrite fn_lookup_insert. right. rewrite G1, G2. pose proof (c_epoch _ _ _ C). split; [done|lia].
    + rewrite fn_lookup_insert_ne by done. apply (c_ids _ _ _ C).
  - intros m m' H1%fresh_live H2%fresh_live.
    destruct (decide (m = mm)) as [->|Hne], (decide (m' = mm)) as [->|Hne'];
      rewrite ?fn_lookup_insert, ?fn_lookup_insert_ne by done; rewrite ?G2; intros E; [done| | |].
    + destruct H2 as [?|H2]; [done|]. by destruct (fresh_idx_ne m' H2).
    + destruct H1 as [?|H1]; [done|]. by destruct (fresh_idx_ne m H1).
    + destruct H1 as [?|H1], H2 as [?|H2]; try done. by apply (c_inj _ _ _ C).
  - intros c Hc. rewrite Hact. intros H0. destruct (c_act _ _ _ C c Hc H0) as [Hg [m Hm]]. split; [done|].
    exists m. rewrite fn_lookup_insert_ne; [done|]. intros <-. rewrite Hm in Hmm. lia.
  - intros c Hc. rewrite Hres. intros H0. destruct (c_res _ _ _ C c Hc H0) as [m Hm].
    exists m. rewrite fn_lookup_insert_ne; [done|]. intros <-. apply (Hun ltac:(congruence) c Hc). done.
  - done.
  - done.
Qed.

Lemma fresh_marked : marked A' e x'.
Proof.
  destruct fresh_gen as (G1 & G2 & G3 & G4). intros m Hm%fresh_live. rewrite Hbit by (pose proof (idx_range asid_bits Hbits (x' m)); lia).
  destruct (decide (m = mm)) as [->|Hne].
  - by rewrite fn_lookup_insert, G2, Z.eqb_refl.
  - rewrite fn_lookup_insert_ne by done. destruct Hm as [?|Hm]; [done|]. by rewrite (Hmark m Hm), orb_true_r.
Qed.

Lemma fresh_keeps : keeps A A' e x x'.
Proof.
  split; [done..| |].
  - intros c m Hc H0 Ho. rewrite fn_lookup_insert_ne.
    + unfold own in *. by rewrite Hact, Hres.
    + intros <-. apply fresh_not_live. by apply (own_live A e x c).
  - intros m Hm. split; [apply fresh_live; by right|]. rewrite fn_lookup_insert_ne; [done|].
    intros <-. by apply fresh_not_live.
Qed.
End fresh.

(** ** An address space found among the reserved ASIDs *)

Section hit.
Context (A : asids) (mm : Z) (res' : Z -> Z).
Abbreviation x := (context_id A).
Abbreviation e := (gen (asid_generation A)).
Abbreviation a := (asid_generation A + idx (x mm)).
Abbreviation x' := (<[mm := a]> x).
Abbreviation A' := (set_reserved res' A).
Context (C : core A e x) (Hmark : marked A e x) (Hmm : gen (x mm) < e) (H0 : x mm <> 0)
  (Hhit : exists c, c ∈ cpus /\ reserved_asids A c = x mm)
  (Hres : forall c, res' c = if decide (c ∈ cpus /\ reserved_asids A c = x mm) then a else reserved_asids A c).

Lemma hit_gen : gen a = e /\ idx a = idx (x mm) /\ id a /\ a <> 0.
Proof.
  destruct (c_gen _ _ _ C) as [Hid Hz]. pose proof (idx_range asid_bits Hbits (x mm)).
  split; [by apply gen_new|]. split; [by apply idx_new|]. split; [by apply (id_new asid_bits Hbits)|].
  destruct (c_ids _ _ _ C mm) as [?|(_ & Hi & _)]; [done|]. unfold id in Hid. lia.
Qed.

Lemma hit_live : live A e x mm.
Proof. split; [done|]. by right. Qed.

Lemma hit_res c : c ∈ cpus -> reserved_asids A c = x mm -> res' c = a.
Proof. intros Hc E. by rewrite Hres, decide_True. Qed.
Lemma hit_res_ne c : reserved_asids A c <> x mm -> res' c = reserved_asids A c.
Proof. intros E. rewrite Hres, decide_False; [done|]. by intros [_ ?]. Qed.

(** A live address space other than [mm] has another ASID. *)
Lemma hit_ne m : live A e x m -> m <> mm -> x m <> x mm.
Proof. intros Hm Hne E. apply Hne, (c_inj _ _ _ C); [done|apply hit_live|congruence]. Qed.

Lemma hit_idx m : idx (x' m) = idx (x m).
Proof.
  destruct (decide (m = mm)) as [->|Hne]; [rewrite fn_lookup_insert; apply hit_gen|by rewrite fn_lookup_insert_ne].
Qed.

Lemma hit_live_iff m : live A' e x' m <-> live A e x m.
Proof.
  destruct hit_gen as (G1 & G2 & G3 & G4). destruct (decide (m = mm)) as [->|Hne].
  { split; intros _; [apply hit_live|]. split; rewrite fn_lookup_insert; [done|by left]. }
  unfold live. simpl. rewrite fn_lookup_insert_ne by done. split; intros [Hm Hl]; (split; [done|]).
  - destruct Hl as [?|(c & Hc & E)]; [by left|]. destruct (decide (reserved_asids A c = x mm)) as [Er|Er].
    + rewrite (hit_res c Hc Er) in E. left. by rewrite <- E.
    + rewrite (hit_res_ne c Er) in E. right. by exists c.
  - destruct Hl as [?|(c & Hc & E)]; [by left|]. right. exists c. split; [done|]. rewrite hit_res_ne; [done|].
    intros Er. apply (hit_ne m); [|done|congruence]. split; [done|]. right. by exists c.
Qed.

Lemma hit_core : core A' e x'.
Proof.
  destruct hit_gen as (G1 & G2 & G3 & G4). split; try apply C.
  - intros m. destruct (decide (m = mm)) as [->|Hne].
    + rewrite fn_lookup_insert. right. rewrite G1, G2. pose proof (c_epoch _ _ _ C).
      destruct (c_ids _ _ _ C mm) as [?|(_ & Hi & _)]; [done|]. split; [done|lia].
    + rewrite fn_lookup_insert_ne by done. apply (c_ids _ _ _ C).
  - intros m m' H1%hit_live_iff H2%hit_live_iff. rewrite !hit_idx. by apply (c_inj _ _ _ C).
  - intros c Hc. simpl. intros Ha. destruct (c_act _ _ _ C c Hc Ha) as [Hg [m Hm]]. split; [done|].
    exists m. rewrite fn_lookup_insert_ne; [done|]. intros <-. rewrite Hm in Hmm. lia.
  - intros c Hc. simpl. intros Hr. destruct (decide (reserved_asids A c = x mm)) as [Er|Er].
    + exists mm. by rewrite fn_lookup_insert, (hit_res c Hc Er).
    + rewrite (hit_res_ne c Er) in Hr |- *. destruct (c_res _ _ _ C c Hc Hr) as [m Hm]. exists m.
      rewrite fn_lookup_insert_ne; [done|]. intros <-. by rewrite Hm in Er.
Qed.

Lemma hit_marked : marked A' e x'.
Proof. intros m Hm%hit_live_iff. rewrite hit_idx. by apply Hmark. Qed.

Lemma hit_keeps : keeps A A' e x x'.
Proof.
  destruct hit_gen as (G1 & G2 & G3 & G4). split; try done.
  - intros c m Hc Hm Ho. rewrite hit_idx. split; [|split; [|done]].
    + destruct (decide (m = mm)) as [->|Hne]; [by rewrite fn_lookup_insert|by rewrite fn_lookup_insert_ne].
    + pose proof (own_live A e x c m C Hc Hm Ho) as Hl. unfold own in *. simpl.
      destruct (Z.eqb_spec (active_asids A c) 0) as [Ea|Ea].
      * destruct (decide (m = mm)) as [->|Hne]; [by rewrite fn_lookup_insert, (hit_res c)|].
        rewrite fn_lookup_insert_ne, hit_res_ne by (try rewrite Ho; try done; by apply hit_ne). done.
      * rewrite fn_lookup_insert_ne; [done|]. intros <-. destruct (c_act _ _ _ C c Hc Ea) as [Hg _]. rewrite Ho in Hg. lia.
  - intros m Hm. split; [by apply hit_live_iff|apply hit_idx].
Qed.
End hit.

(** ** [new_context] before a rollover *)

Lemma keeps_bits A A' e x :
  asid_generation A' = asid_generation A -> active_asids A' = active_asids A ->
  (forall c, reserved_asids A' c = reserved_asids A c) -> tlb_flush_pending A' = tlb_flush_pending A -> context_id A' = context_id A ->
  keeps A A' e x x.
Proof.
  intros E1 E2 E3 E4 E5. split; try done.
  - intros c m Hc Hm Ho. unfold own in *. by rewrite E2, E3.
  - intros m. unfold live. by setoid_rewrite E3.
Qed.

Lemma keeps_trans A A' A'' e x x' x'' : keeps A A' e x x' -> keeps A' A'' e x' x'' -> keeps A A'' e x x''.
Proof.
  intros K K'. split.
  - by rewrite (k_gen _ _ _ _ _ K'), (k_gen _ _ _ _ _ K).
  - by rewrite (k_act _ _ _ _ _ K'), (k_act _ _ _ _ _ K).
  - by rewrite (k_pend _ _ _ _ _ K'), (k_pend _ _ _ _ _ K).
  - by rewrite (k_ctx _ _ _ _ _ K'), (k_ctx _ _ _ _ _ K).
  - intros c m Hc Hm Ho. destruct (k_own _ _ _ _ _ K c m Hc Hm Ho) as (H1 & H2 & H3).
    destruct (k_own _ _ _ _ _ K' c m Hc H1 H2) as (H4 & H5 & H6). split_and!; [done|done|congruence].
  - intros m Hm. destruct (k_live _ _ _ _ _ K m Hm) as [H1 H2]. destruct (k_live _ _ _ _ _ K' m H1) as [H3 H4].
    split; [done|congruence].
Qed.

(** What [try_context] promises. *)
Definition try_post (A : asids) (mm : Z) (r : option Z) (A' : asids) : Prop :=
  let e := gen (asid_generation A) in
  match r with
  | Some a =>
      let x' := <[mm := a]> (context_id A) in
      gen a = e /\ a <> 0 /\ core A' e x' /\ marked A' e x' /\ keeps A A' e (context_id A) x'
  | None =>
      core A' e (context_id A) /\ marked A' e (context_id A) /\ keeps A A' e (context_id A) (context_id A) /\
      unowned A' (context_id A) mm
  end.

(** Only the bitmap changes. *)
Lemma core_map A A' e x :
  core A e x -> asid_generation A' = asid_generation A -> active_asids A' = active_asids A ->
  (forall c, reserved_asids A' c = reserved_asids A c) -> cur_idx A' = cur_idx A -> room (asid_map A') N -> core A' e x.
Proof.
  intros C E1 E2 E3 E4 Hr. assert (Hl : forall m, live A' e x m <-> live A e x m) by (intros m; unfold live; by setoid_rewrite E3).
  split; rewrite ?E1, ?E2, ?E4; try apply C; try done.
  - intros m m' H1%Hl H2%Hl. by apply (c_inj _ _ _ C).
  - intros c Hc. rewrite E3. by apply (c_res _ _ _ C).
Qed.

Lemma fresh_try A A' mm i :
  let e := gen (asid_generation A) in
  core A e (context_id A) -> marked A e (context_id A) -> gen (context_id A mm) < e -> unowned A (context_id A) mm ->
  1 <= i < N -> bit_of (asid_map A) i = false ->
  asid_generation A' = asid_generation A -> active_asids A' = active_asids A ->
  (forall c, reserved_asids A' c = reserved_asids A c) -> tlb_flush_pending A' = tlb_flush_pending A -> context_id A' = context_id A ->
  1 <= cur_idx A' < N -> room (asid_map A') N ->
  (forall j, 0 <= j -> bit_of (asid_map A') j = (j =? i) || bit_of (asid_map A) j) ->
  try_post A mm (Some (asid_generation A + i)) A'.
Proof.
  intros e C Hmark Hmm Hun Hi Hfree E1 E2 E3 E4 E5 Hcur Hroom Hbit.
  destruct (fresh_gen A (context_id A) i C Hi) as (G1 & G2 & G3 & G4). split; [done|]. split; [done|].
  split; [by apply fresh_core|]. split; [by eapply fresh_marked|by apply fresh_keeps].
Qed.

Lemma find_asid_ok A mm :
  let e := gen (asid_generation A) in
  core A e (context_id A) -> marked A e (context_id A) -> gen (context_id A mm) < e -> unowned A (context_id A) mm ->
  exists r A', find_asid asid_bits A = Ret (r, A') /\ try_post A mm r A'.
Proof.
  intros e C Hmark Hmm Hun. unfold find_asid. rewrite (num_user_asids asid_bits Hbits).
  destruct (find_free_ok asid_bits Hbits (asid_map A) (cur_idx A) (c_room _ _ _ C) (c_idx _ _ _ C)) as (i & -> & Hi & Hfree & _).
  rewrite bind_ret. destruct (Z.eqb_spec i N) as [->|Hne]; simpl negb; cbn iota.
  - exists None, A. split; [done|]. split; [done|]. split; [done|]. split; [by apply keeps_bits|done].
  - pose proof (c_idx _ _ _ C).
    destruct (set_asid_ok asid_bits Hbits i (asid_generation A) A (c_room _ _ _ C)) as (map' & -> & Hr & Hb); [lia|apply (c_gen _ _ _ C)|].
    rewrite bind_ret. do 2 eexists. split; [done|].
    apply (fresh_try A _ mm i); try done; simpl; [lia|apply Hfree; lia|lia].
Qed.

(** Setting a bit that is set already. *)
Lemma marked_map A A' e x :
  marked A e x -> (forall c, reserved_asids A' c = reserved_asids A c) ->
  (forall j, 0 <= j -> bit_of (asid_map A') j = bit_of (asid_map A) j) -> marked A' e x.
Proof.
  intros Hm E3 Hb m. unfold live. setoid_rewrite E3. intros Hl. rewrite Hb by apply idx_range, Hbits. by apply Hm.
Qed.

Lemma stale_ne A e x m : core A e x -> gen (x m) < gen (asid_generation A) -> x m <> asid_generation A + idx (x m).
Proof.
  intros C Hm E. destruct (c_gen _ _ _ C) as [_ H0]. pose proof (idx_range asid_bits Hbits (x m)) as Hi.
  pose proof (gen_new asid_bits Hbits _ _ H0 Hi) as G. rewrite <- E in G. lia.
Qed.

Lemma reuse_asid_ok A mm :
  let e := gen (asid_generation A) in
  core A e (context_id A) -> marked A e (context_id A) -> gen (context_id A mm) < e ->
  exists r A', reuse_asid asid_bits cpus mm A = Ret (r, A') /\ try_post A mm r A'.
Proof.
  intros e C Hmark Hmm. unfold reuse_asid. destruct (Z.eqb_spec (context_id A mm) 0) as [E0|H0]; simpl negb; cbn iota.
  { exists None, A. split; [done|]. split; [done|]. split; [done|]. split; [by apply keeps_bits|by intros ?]. }
  rewrite (land_mask_mod asid_bits Hbits), (lor_generation asid_bits Hbits) by apply (c_gen _ _ _ C).
  unfold check_update_reserved_asid.
  pose proof (update_reserved_ok cpus (context_id A mm) (asid_generation A + idx (context_id A mm)) false
    (reserved_asids A) (stale_ne A e _ mm C Hmm)) as Hu.
  destruct (update_reserved _ _ _ _ _) as [hit res']. destruct Hu as [Hhit Hres]. destruct hit.
  { destruct (proj1 Hhit eq_refl) as [?|Hex]; [done|]. do 2 eexists. split; [done|].
    destruct (hit_gen A mm C H0) as (G1 & G2 & G3 & G4). split; [done|]. split; [done|].
    split; [by apply hit_core|]. split; [by apply hit_marked|by apply hit_keeps]. }
  assert (Hun : unowned A (context_id A) mm).
  { intros _ c Hc E. assert (false = true); [|done]. apply Hhit. right. by exists c. }
  assert (Er : forall c, res' c = reserved_asids A c).
  { intros c. rewrite Hres, decide_False; [done|]. intros [Hc E]. by apply (Hun H0 c Hc). }
  rewrite (asid2idx_mod asid_bits Hbits). cbn [asid_map set_reserved].
  destruct (c_ids _ _ _ C mm) as [?|(Hid & Hnz & Hge)]; [done|].
  pose proof (idx_range asid_bits Hbits (context_id A mm)) as Hir.
  destruct (test_and_set_ok (asid_map A) (idx (context_id A mm))) as (map' & -> & Hw & Hl & Hb);
    [apply (c_room _ _ _ C)|apply (map_len_ok asid_bits Hbits); [apply (c_room _ _ _ C)|done]|].
  rewrite bind_ret. assert (Hr' : room map' N) by (split; [done|]; rewrite Hl; apply (c_room _ _ _ C)).
  do 2 eexists. split; [done|]. destruct (bit_of (asid_map A) (idx (context_id A mm))) eqn:Eb.
  - assert (Hb' : forall j, 0 <= j -> bit_of map' j = bit_of (asid_map A) j).
    { intros j Hj. rewrite Hb by done. destruct (Z.eqb_spec j (idx (context_id A mm))) as [->|]; [by rewrite Eb|done]. }
    split; [by apply (core_map A)|]. split; [by apply (marked_map A)|]. split; [by apply keeps_bits|].
    intros _ c Hc. simpl. rewrite Er. by apply Hun.
  - apply (fresh_try A); try done; [lia|apply (c_idx _ _ _ C)].
Qed.

Lemma try_context_ok A mm :
  let e := gen (asid_generation A) in
  core A e (context_id A) -> marked A e (context_id A) -> gen (context_id A mm) < e ->
  exists r A', try_context asid_bits cpus mm A = Ret (r, A') /\ try_post A mm r A'.
Proof.
  intros e C Hmark Hmm. unfold try_context. destruct (reuse_asid_ok A mm C Hmark Hmm) as (r & A' & -> & HA). rewrite bind_ret.
  destruct r as [a|]; [by eexists _, _|]. destruct HA as (C' & Hmark' & K & Hun). pose proof (k_gen _ _ _ _ _ K) as Eg.
  destruct (find_asid_ok A' mm) as (r & A'' & -> & HA''); try (rewrite ?Eg, ?(k_ctx _ _ _ _ _ K); done).
  do 2 eexists. split; [done|]. unfold try_post in *. rewrite Eg, (k_ctx _ _ _ _ _ K) in HA''. destruct r as [a|].
  - destruct HA'' as (G1 & G2 & C'' & Hm'' & K''). split_and!; try done. by eapply (keeps_trans A A').
  - destruct HA'' as (C'' & Hm'' & K'' & Hun''). split; [done|]. split; [done|]. split; [by eapply (keeps_trans A A')|done].
Qed.


(** ** The rollover *)

(** [flush_context] has still to visit the CPUs [todo]: the others hold their
    ASID as a reserved one, and the bitmap has exactly their indices. *)
Record flushing (A : asids) (todo : list Z) : Prop := {
  f_active : forall c, c ∈ cpus -> c ∉ todo -> active_asids A c = 0;
  f_todo : forall c, c ∈ todo -> c ∈ cpus;
  f_nodup : NoDup todo;
  f_map : forall i, 0 <= i < N ->
    (bit_of (asid_map A) i = true <-> (exists c, c ∈ cpus /\ (c ∉ todo) /\ idx (reserved_asids A c) = i))
}.

Lemma rollover_ok A :
  core A (gen (asid_generation A)) (context_id A) ->
  asid_generation (next_generation asid_bits A) <> 0 ->
  exists A', clear_map asid_bits (next_generation asid_bits A) = Ret A' /\
    gen (asid_generation A') = gen (asid_generation A) + 1 /\
    core A' (gen (asid_generation A)) (context_id A) /\ flushing A' cpus /\
    active_asids A' = active_asids A /\ reserved_asids A' = reserved_asids A /\
    tlb_flush_pending A' = tlb_flush_pending A /\ context_id A' = context_id A.
Proof.
  intros C Hne. destruct (c_gen _ _ _ C) as [Hid H0]. simpl in Hne. rewrite (first_version asid_bits Hbits) in Hne.
  destruct (next_gen asid_bits Hbits _ Hid H0 Hne) as (E & Hid' & H0' & Hg').
  destruct (clear_ok asid_bits Hbits (next_generation asid_bits A) (c_room _ _ _ C)) as (map' & -> & Hr & Hb).
  eexists. split; [done|]. cbn [asid_generation set_map next_generation set_generation].
  rewrite (first_version asid_bits Hbits), E. split; [done|]. split; [|split; [|done]].
  - split; try apply C; simpl; rewrite ?(first_version asid_bits Hbits), ?E; try done.
    pose proof (c_epoch _ _ _ C). lia.
  - split; simpl; try done. intros i Hi. rewrite Hb by done. split; [done|]. intros (c & Hc & Hn & _). by destruct Hn.
Qed.

Lemma flush_turn_eq A c :
  flush_turn asid_bits A c =
    (map ← __set_bit (asid2idx asid_bits (own A c)) (asid_map A);
     Ret (set_reserved (<[c := own A c]> (reserved_asids A)) (set_map map (set_active (<[c := 0]> (active_asids A)) A)))).
Proof. reflexivity. Qed.

Lemma flush_turn_ok A c todo e x :
  core A e x -> flushing A (c :: todo) ->
  exists A', flush_turn asid_bits A c = Ret A' /\ core A' e x /\ flushing A' todo /\
    asid_generation A' = asid_generation A /\ tlb_flush_pending A' = tlb_flush_pending A /\
    context_id A' = context_id A /\ active_asids A' = <[c := 0]> (active_asids A) /\
    (forall c', own A' c' = own A c') /\
    reserved_asids A' = <[c := own A c]> (reserved_asids A).
Proof.
  intros C F. assert (Hc : c ∈ cpus) by (apply (f_todo _ _ F); left).
  rewrite flush_turn_eq, (asid2idx_mod asid_bits Hbits).
  destruct (set_ok asid_bits Hbits (asid_map A) (idx (own A c)) (c_room _ _ _ C) (idx_range asid_bits Hbits _)) as (map' & E & Hr & Hb).
  rewrite E, bind_ret. eexists. split; [done|].
  assert (Hown : forall c', own (set_reserved (<[c:=own A c]> (reserved_asids A)) (set_map map' (set_active (<[c:=0]> (active_asids A)) A))) c' = own A c').
  { intros c'. unfold own at 1. simpl. destruct (decide (c' = c)) as [->|Hne].
    - by rewrite !fn_lookup_insert.
    - by rewrite !fn_lookup_insert_ne. }
  destruct (proj1 (NoDup_cons _ _) (f_nodup _ _ F)) as [Hnin Hnd].
  split; [|split; [|done]].
  - assert (Hl : forall m, live (set_reserved (<[c:=own A c]> (reserved_asids A)) (set_map map' (set_active (<[c:=0]> (active_asids A)) A))) e x m -> live A e x m).
    { intros m [Hm [?|(c' & Hc' & Er)]]; [by split; [|left]|]. simpl in Er. destruct (decide (c' = c)) as [->|Hne].
      - rewrite fn_lookup_insert in Er. by apply (own_live A e x c).
      - rewrite fn_lookup_insert_ne in Er by done. split; [done|]. right. by exists c'. }
    split; try apply C; try done.
    + intros m m' H1%Hl H2%Hl. by apply (c_inj _ _ _ C).
    + intros c' Hc'. simpl. destruct (decide (c' = c)) as [->|Hne]; [by rewrite fn_lookup_insert|].
      rewrite fn_lookup_insert_ne by done. by apply (c_act _ _ _ C).
    + intros c' Hc'. simpl. destruct (decide (c' = c)) as [->|Hne]; [|rewrite fn_lookup_insert_ne by done; by apply (c_res _ _ _ C)].
      rewrite fn_lookup_insert. unfold own. destruct (Z.eqb_spec (active_asids A c) 0) as [Ea|Ea]; intros Hz.
      * by apply (c_res _ _ _ C).
      * by apply (c_act _ _ _ C).
  - split; try done.
    + intros c' Hc' Hn. simpl. destruct (decide (c' = c)) as [->|Hne]; [by rewrite fn_lookup_insert|].
      rewrite fn_lookup_insert_ne by done. apply (f_active _ _ F); [done|]. set_solver.
    + intros c' Hc'. apply (f_todo _ _ F). by right.
    + intros i Hi. simpl. rewrite Hb, orb_true_iff, Z.eqb_eq, (f_map _ _ F) by lia. split.
      * intros [->|(c' & Hc' & Hn & <-)]; [exists c; by rewrite fn_lookup_insert|].
        exists c'. rewrite fn_lookup_insert_ne by set_solver. set_solver.
      * intros (c' & Hc' & Hn & <-). destruct (decide (c' = c)) as [->|Hne]; [left; by rewrite fn_lookup_insert|].
        right. exists c'. rewrite fn_lookup_insert_ne by done. set_solver.
Qed.

(** With fewer CPUs than ASIDs some index is free after a rollover. *)
Lemma some_index_free (A : asids) :
  flushing A [] -> ~ forall i, 1 <= i < N -> bit_of (asid_map A) i = true.
Proof.
  intros F Hall. pose proof (N_bounds asid_bits Hbits).
  assert (Hsub : seqZ 1 (N - 1) ⊆+ ((fun c => idx (reserved_asids A c)) <$> cpus)).
  { apply NoDup_submseteq; [apply NoDup_seqZ|]. intros i Hi%elem_of_seqZ.
    destruct (proj1 (f_map _ _ F i ltac:(lia)) (Hall i ltac:(lia))) as (c & Hc & _ & <-).
    apply list_elem_of_fmap. by exists c. }
  apply submseteq_length in Hsub. rewrite length_fmap, length_seqZ in Hsub. lia.
Qed.

(** At the end of the rollover only the reserved ASIDs are live. *)
Lemma end_flush_ok A x :
  core A (gen (asid_generation A) - 1) x -> flushing A [] ->
  core (pend_all A) (gen (asid_generation A)) x /\ marked (pend_all A) (gen (asid_generation A)) x.
Proof.
  intros C F. pose proof (c_epoch _ _ _ C) as He.
  assert (Hle : forall m, x m <> 0 -> gen (x m) <> gen (asid_generation A)).
  { intros m Hm. destruct (c_ids _ _ _ C m) as [?|(_ & _ & ?)]; [done|lia]. }
  assert (Hl : forall m, live (pend_all A) (gen (asid_generation A)) x m -> exists c, c ∈ cpus /\ reserved_asids A c = x m /\ x m <> 0).
  { intros m [Hm [Hg|(c & Hc & E)]]; [by destruct (Hle m)|]. by exists c. }
  assert (Hl' : forall m, live (pend_all A) (gen (asid_generation A)) x m -> live A (gen (asid_generation A) - 1) x m).
  { intros m (c & Hc & E & Hm)%Hl. split; [done|]. right. by exists c. }
  split.
  - split; try apply C; simpl.
    + lia.
    + intros m. destruct (c_ids _ _ _ C m) as [?|(? & ? & ?)]; [by left|]. right. split_and!; done || lia.
    + intros m m' H1%Hl' H2%Hl'. by apply (c_inj _ _ _ C).
    + intros c Hc Ha. destruct Ha. apply (f_active _ _ F c Hc). set_solver.
  - intros m (c & Hc & E & Hm)%Hl. simpl. apply (f_map _ _ F); [apply idx_range, Hbits|].
    exists c. split; [done|]. split; [set_solver|]. by rewrite E.
Qed.

Lemma first_asid_ok A mm :
  core A (gen (asid_generation A) - 1) (context_id A) -> flushing A [] -> unowned A (context_id A) mm ->
  exists a A', first_asid asid_bits (pend_all A) = Ret (a, A') /\ try_post (pend_all A) mm (Some a) A'.
Proof.
  intros C F Hun. pose proof (N_bounds asid_bits Hbits). destruct (end_flush_ok A _ C F) as [C' Hm'].
  unfold first_asid. rewrite (num_user_asids asid_bits Hbits).
  destruct (find_free_ok asid_bits Hbits (asid_map (pend_all A)) 1 (c_room _ _ _ C)) as (i & -> & Hi & Hfree & Hfull); [lia|].
  rewrite bind_ret. assert (Hlt : i < N).
  { destruct (Z.eq_dec i N) as [->|]; [|lia]. destruct (some_index_free A F). by apply Hfull. }
  destruct (set_asid_ok asid_bits Hbits i (asid_generation (pend_all A)) (pend_all A) (c_room _ _ _ C)) as (map' & E & Hr & Hb);
    [lia|apply (c_gen _ _ _ C)|].
  exists (asid_generation A + i). rewrite E. eexists. split; [done|].
  assert (Hmm : gen (context_id A mm) < gen (asid_generation A)).
  { pose proof (c_epoch _ _ _ C). destruct (c_ids _ _ _ C mm) as [E0|(_ & _ & ?)]; [|lia].
    rewrite E0, (gen_0 asid_bits Hbits). lia. }
  apply (fresh_try (pend_all A) _ mm i); try done; simpl; [lia|apply Hfree; lia|lia].
Qed.

End AsidInv.
