(* ===== verification/AsidSteps.v ===== *)
(** * The invariant of the interleaved ASID allocator

    What holds of the allocator, of each CPU and of the owner of the lock in every
    reachable state, and that every step keeps it. *)

From stdpp Require Import base numbers list option functions sets relations.
From Stdlib Require Import ZArith Lia.
From S2P Require Import Prelude Bitmap BitmapFacts Asid AsidInv.

Section AsidSteps.
Context (asid_bits : Z) (cpus : list Z).
Context (Hbits : asid_bits = 8 \/ asid_bits = 16).
Context (Hcpus : Z.of_nat (length cpus) < 2 ^ asid_bits - 1) (Hnodup : NoDup cpus).

Abbreviation N := (2 ^ asid_bits).
Abbreviation idx := (idx asid_bits).
Abbreviation gen := (gen asid_bits).
Abbreviation live := (live asid_bits cpus).
Abbreviation core := (core asid_bits cpus).
Abbreviation marked := (marked asid_bits cpus).
Abbreviation keeps := (keeps asid_bits cpus).
Abbreviation flushing := (flushing asid_bits cpus).
Abbreviation unowned := (unowned cpus).
Abbreviation cpu_step := (cpu_step asid_bits cpus).
Abbreviation step := (step asid_bits cpus).

(** ** One CPU *)

(** What a CPU has of its own. *)
Record locals := mk_locals {
  l_pc : pc; l_mm : option Z; l_ttbr : option (Z * Z); l_tlb : list (Z * Z)
}.
Definition locals_of (M : machine) (c : Z) : locals :=
  mk_locals (cpu_pc M c) (cpu_mm M c) (cpu_ttbr M c) (cpu_tlb M c).

(** The translations the hardware may hold or make. *)
Definition entries (l : locals) : list (Z * Z) :=
  match l_ttbr l with Some t => t :: l_tlb l | None => l_tlb l end.

(** The values read on the fast path stay good as long as the CPU's active ASID
    is not taken from it. *)
Definition pc_ok (A : asids) (e : Z) (c : Z) (l : locals) : Prop :=
  match l_pc l with
  | Read_active m a => active_asids A c <> 0 -> a = context_id A m \/ gen a < e
  | Read_generation m a old =>
      old <> 0 /\ (active_asids A c = old \/ active_asids A c = 0) /\
      (active_asids A c <> 0 -> a = context_id A m \/ gen a < e)
  | Cmpxchg m a old =>
      old <> 0 /\ (active_asids A c = old \/ active_asids A c = 0) /\
      (active_asids A c <> 0 -> a = context_id A m /\ gen a = e)
  | Switching m => l_mm l = Some m
  | Set_ttbr m => l_mm l = Some m /\ l_ttbr l = None
  | _ => True
  end.

Definition is_switching (p : pc) : bool := match p with Switching _ => true | _ => false end.

Record cpu_ok (A : asids) (e : Z) (x : Z -> Z) (fl : bool) (c : Z) (l : locals) : Prop := {
  ok_own : forall m, l_mm l = Some m -> x m <> 0 /\ own A c = x m;
  ok_pend : tlb_flush_pending A c = true -> active_asids A c = 0;
  ok_ttbr : is_switching (l_pc l) = false -> forall m i, l_ttbr l = Some (m, i) -> l_mm l = Some m /\ i = idx (x m);
  ok_pc : pc_ok A e c l;
  (* the registers of the CPU cannot hit an entry of another address space *)
  ok_hw : forall m m' i, l_ttbr l = Some (m, i) -> (m', i) ∈ l_tlb l -> m' = m;
  (* the address space of the CPU shares its index with no other entry *)
  ok_mine : forall m m' i, l_mm l = Some m -> (m', i) ∈ entries l -> i = idx (x m) -> m' = m;
  (* a CPU with no flush pending has no entry another live address space could hit *)
  ok_clean : tlb_flush_pending A c = false ->
    forall m m' i, (m', i) ∈ entries l -> live A e x m -> idx (x m) = i -> m' = m;
  ok_live : fl = false -> tlb_flush_pending A c = false ->
    forall m i, (m, i) ∈ entries l -> live A e x m /\ idx (x m) = i
}.

(** ** The owner of the lock *)

Definition in_lock (p : pc) : bool :=
  match p with Rollover _ | Flushing _ _ | Set_context _ _ | Set_active _ _ => true | _ => false end.

Definition owner (M : machine) : pc :=
  match cpu_asid_lock M with Some d => cpu_pc M d | None => Running end.

Record lock_ok (M : machine) : Prop := {
  lk_owner : forall d, cpu_asid_lock M = Some d -> d ∈ cpus /\ in_lock (cpu_pc M d) = true;
  lk_in : forall c, c ∈ cpus -> in_lock (cpu_pc M c) = true -> cpu_asid_lock M = Some c
}.

Definition owner_ok (A : asids) (e : Z) (x : Z -> Z) (fl : bool) (mms : Z -> option Z) (p : pc) : Prop :=
  match p with
  | Rollover m =>
      fl = false /\ e = gen (asid_generation A) /\ x = context_id A /\ gen (x m) < e /\ unowned A x m
  | Flushing m todo =>
      fl = true /\ e = gen (asid_generation A) - 1 /\ x = context_id A /\ gen (x m) < e /\ unowned A x m /\ flushing A todo
  | Set_context m a =>
      fl = false /\ e = gen (asid_generation A) /\ x = <[m := a]> (context_id A) /\ gen (context_id A m) < e /\
      gen a = e /\ a <> 0 /\ forall c, c ∈ cpus -> mms c = Some m -> idx a = idx (context_id A m)
  | Set_active m a =>
      fl = false /\ e = gen (asid_generation A) /\ x = context_id A /\ a = x m /\ gen a = e /\ a <> 0
  | _ => fl = false /\ e = gen (asid_generation A) /\ x = context_id A
  end.

Record inv_at (e : Z) (x : Z -> Z) (fl : bool) (M : machine) : Prop := {
  i_core : core (alloc M) e x;
  i_marked : fl = false -> marked (alloc M) e x;
  i_cpu : forall c, c ∈ cpus -> cpu_ok (alloc M) e x fl c (locals_of M c);
  i_lock : lock_ok M;
  i_owner : owner_ok (alloc M) e x fl (cpu_mm M) (owner M)
}.

Definition inv (M : machine) : Prop := exists e x fl, inv_at e x fl M.

(** ** Changes of the allocator seen from a CPU that does not make them *)

(** The words of the CPU are the same. *)
Lemma frame_same A A' e x fl fl' c l :
  cpu_ok A e x fl c l ->
  active_asids A' c = active_asids A c -> (forall c', reserved_asids A' c' = reserved_asids A c') ->
  tlb_flush_pending A' c = tlb_flush_pending A c -> context_id A' = context_id A -> (fl' = false -> fl = false) ->
  cpu_ok A' e x fl' c l.
Proof.
  intros O E1 E2 E3 E4 Hfl.
  assert (Hl : forall m, live A' e x m <-> live A e x m) by (intros m; unfold AsidInv.live; by setoid_rewrite E2).
  assert (Eo : own A' c = own A c) by (unfold own; by rewrite E1, E2). split.
  - rewrite Eo. apply O.
  - rewrite E3, E1. apply O.
  - apply O.
  - pose proof (ok_pc _ _ _ _ _ _ O) as Hp. unfold pc_ok in *. by rewrite E1, E4.
  - apply O.
  - apply O.
  - rewrite E3. intros Hp m m' i Hin Hm%Hl. by apply (ok_clean _ _ _ _ _ _ O).
  - rewrite E3. intros Hf Hp m i Hin. rewrite Hl. by apply (ok_live _ _ _ _ _ _ O (Hfl Hf) Hp).
Qed.

(** Another address space gets a new ASID. *)
Lemma frame_keeps A A' e x x' c l :
  c ∈ cpus -> cpu_ok A e x false c l -> keeps A A' e x x' -> core A' e x' -> cpu_ok A' e x' false c l.
Proof.
  intros Hc O K C'. assert (Hlive : tlb_flush_pending A' c = false ->
    forall m i, (m, i) ∈ entries l -> live A' e x' m /\ idx (x' m) = i).
  { rewrite (k_pend _ _ _ _ _ _ _ K). intros Hp m i Hin. destruct (ok_live _ _ _ _ _ _ O eq_refl Hp m i Hin) as [Hl <-].
    by apply (k_live _ _ _ _ _ _ _ K). }
  split.
  - intros m Hm. destruct (ok_own _ _ _ _ _ _ O m Hm) as [H0 Ho]. by destruct (k_own _ _ _ _ _ _ _ K c m Hc H0 Ho) as (? & ? & _).
  - rewrite (k_pend _ _ _ _ _ _ _ K), (k_act _ _ _ _ _ _ _ K). apply O.
  - intros Hs m i Ht. destruct (ok_ttbr _ _ _ _ _ _ O Hs m i Ht) as [Hm ->]. split; [done|].
    destruct (ok_own _ _ _ _ _ _ O m Hm) as [H0 Ho]. by destruct (k_own _ _ _ _ _ _ _ K c m Hc H0 Ho) as (_ & _ & ->).
  - pose proof (ok_pc _ _ _ _ _ _ O) as Hp. unfold pc_ok in *. by rewrite (k_act _ _ _ _ _ _ _ K), (k_ctx _ _ _ _ _ _ _ K).
  - apply O.
  - intros m m' i Hm Hin E. destruct (ok_own _ _ _ _ _ _ O m Hm) as [H0 Ho].
    destruct (k_own _ _ _ _ _ _ _ K c m Hc H0 Ho) as (_ & _ & E'). rewrite E' in E. by apply (ok_mine _ _ _ _ _ _ O m m' i).
  - intros Hp m m' i Hin Hm E. destruct (Hlive Hp m' i Hin) as [Hm' E']. apply (c_inj _ _ _ _ _ C'); [done|done|congruence].
  - intros _. apply Hlive.
Qed.

(** The rollover visits a CPU, this one or another. *)
Lemma frame_visit A A' e x c l :
  cpu_ok A e x true c l -> own A' c = own A c ->
  (active_asids A' c = active_asids A c \/ active_asids A' c = 0) ->
  tlb_flush_pending A' = tlb_flush_pending A -> context_id A' = context_id A ->
  (forall m, live A' e x m -> live A e x m) -> cpu_ok A' e x true c l.
Proof.
  intros O Eo Ha Ep Ec Hl. split.
  - rewrite Eo. apply O.
  - rewrite Ep. intros Hp. pose proof (ok_pend _ _ _ _ _ _ O Hp). by destruct Ha as [->|].
  - apply O.
  - pose proof (ok_pc _ _ _ _ _ _ O) as Hp. unfold pc_ok in *. rewrite Ec. destruct Ha as [-> | ->]; [done|].
    destruct (l_pc l); try done; split_and?; naive_solver.
  - apply O.
  - apply O.
  - rewrite Ep. intros Hp m m' i Hin Hm%Hl. by apply (ok_clean _ _ _ _ _ _ O).
  - done.
Qed.

(** The rollover ends: no CPU has an active ASID, and all must flush. *)
Lemma frame_pend A e e' x c l :
  cpu_ok A e x true c l -> active_asids A c = 0 -> cpu_ok (pend_all A) e' x false c l.
Proof.
  intros O Ha. split; try done.
  - apply O.
  - apply O.
  - pose proof (ok_pc _ _ _ _ _ _ O) as Hp. unfold pc_ok in *. simpl. destruct (l_pc l); try done; naive_solver.
  - apply O.
  - apply O.
Qed.

(** The owner of the lock stores the ASID in [mm->context.id]. *)
Lemma frame_context A e x c l mm a :
  cpu_ok A e x false c l -> x = <[mm := a]> (context_id A) -> gen (context_id A mm) < e ->
  cpu_ok (set_context x A) e x false c l.
Proof.
  intros O Ex Hmm. split; try apply O.
  pose proof (ok_pc _ _ _ _ _ _ O) as Hp. unfold pc_ok in *. simpl.
  assert (Hx : forall m b, b = context_id A m \/ gen b < e -> b = x m \/ gen b < e).
  { intros m b [->|?]; [|by right]. rewrite Ex. destruct (decide (m = mm)) as [->|Hne]; [by right|].
    rewrite fn_lookup_insert_ne by done. by left. }
  destruct (l_pc l); try done; split_and?; try naive_solver.
  intros Ha. destruct Hp as (_ & _ & Hp). destruct (Hp Ha) as [-> Hg]. split; [|done].
  rewrite Ex, fn_lookup_insert_ne; [done|]. intros <-. lia.
Qed.

(** ** Steps *)

Lemma locals_pc M M' c : locals_of M' c = locals_of M c -> cpu_pc M' c = cpu_pc M c.
Proof. intros E. by injection E. Qed.

(** The lock and the program points of the other CPUs stay. *)
Lemma lock_local M M' c :
  lock_ok M -> cpu_asid_lock M' = cpu_asid_lock M -> (forall c', c' <> c -> locals_of M' c' = locals_of M c') ->
  (cpu_pc M' c = cpu_pc M c \/ in_lock (cpu_pc M c) = false /\ in_lock (cpu_pc M' c) = false) ->
  lock_ok M' /\ owner M' = owner M.
Proof.
  intros L El Eo Hp. assert (Hin : forall c', in_lock (cpu_pc M' c') = in_lock (cpu_pc M c')).
  { intros c'. destruct (decide (c' = c)) as [->|Hne]; [|by rewrite (locals_pc M M' c' (Eo c' Hne))].
    destruct Hp as [->|[-> ->]]; done. }
  split.
  - split; [|intros c'; rewrite El, Hin; by apply L]. intros d. rewrite El, Hin. apply L.
  - unfold owner. rewrite El. destruct (cpu_asid_lock M) as [d|] eqn:Ed; [|done].
    destruct (decide (d = c)) as [->|Hne]; [|by apply locals_pc, Eo].
    destruct Hp as [?|[Hf _]]; [done|]. destruct (lk_owner _ L c Ed) as [_ Ht]. congruence.
Qed.

(** A step that changes no shared word. *)
Lemma inv_local e x fl M M' c :
  inv_at e x fl M -> alloc M' = alloc M -> cpu_asid_lock M' = cpu_asid_lock M ->
  (forall c', c' <> c -> locals_of M' c' = locals_of M c') -> cpu_mm M' = cpu_mm M ->
  (cpu_pc M' c = cpu_pc M c \/ in_lock (cpu_pc M c) = false /\ in_lock (cpu_pc M' c) = false) ->
  (c ∈ cpus -> cpu_ok (alloc M) e x fl c (locals_of M' c)) -> inv_at e x fl M'.
Proof.
  intros I Ea El Eo Em Hp Hok. destruct (lock_local M M' c (i_lock _ _ _ _ I) El Eo Hp) as [L' Ow]. split; rewrite ?Ea.
  - apply I.
  - apply I.
  - intros c' Hc'. destruct (decide (c' = c)) as [->|Hne]; [by apply Hok|]. rewrite Eo by done. by apply I.
  - done.
  - rewrite Em, Ow. apply I.
Qed.

Ltac lsimp :=
  repeat match goal with |- context [locals_of] => unfold locals_of end; cbn [goto set_alloc set_lock set_mm set_ttbr set_tlb
    alloc cpu_asid_lock cpu_pc cpu_mm cpu_ttbr cpu_tlb]; rewrite ?fn_lookup_insert;
  rewrite ?fn_lookup_insert_ne by done.

(** A CPU only moves to a program point outside the lock. *)
Lemma inv_goto e x fl M c p :
  inv_at e x fl M -> in_lock (cpu_pc M c) = false -> in_lock p = false -> is_switching p = false ->
  is_switching (cpu_pc M c) = false ->
  (c ∈ cpus -> cpu_ok (alloc M) e x fl c (locals_of M c) ->
    pc_ok (alloc M) e c (mk_locals p (cpu_mm M c) (cpu_ttbr M c) (cpu_tlb M c))) ->
  inv_at e x fl (goto M c p).
Proof.
  intros I H1 H2 H3 H4 Hp. apply (inv_local e x fl M _ c); try done.
  - intros c' Hne. by lsimp.
  - right. by lsimp.
  - intros Hc. pose proof (i_cpu _ _ _ _ I c Hc) as O. lsimp. split; try apply O; [|by apply Hp].
    intros _. by apply (ok_ttbr _ _ _ _ _ _ O).
Qed.

Lemma begin_ok M c m :
  inv M -> cpu_pc M c = Running -> inv (goto M c (Read_active m (context_id (alloc M) m))).
Proof.
  intros (e & x & fl & I) Hp. exists e, x, fl. apply inv_goto; rewrite ?Hp; try done. by left.
Qed.

Lemma init_mm_ok M c : inv M -> cpu_pc M c = Running -> inv (set_ttbr M c None).
Proof.
  intros (e & x & fl & I) Hp. exists e, x, fl. apply (inv_local e x fl M _ c); try done.
  - intros c' Hne. by lsimp.
  - by left.
  - intros Hc. pose proof (i_cpu _ _ _ _ I c Hc) as O. lsimp.
    assert (Hin : forall t, t ∈ cpu_tlb M c -> t ∈ entries (locals_of M c)).
    { intros t Ht. unfold entries. simpl. destruct (cpu_ttbr M c); [by right|done]. }
    split; try apply O; simpl; try done.
    + by rewrite Hp.
    + intros m m' i Hm Ht%Hin. by apply (ok_mine _ _ _ _ _ _ O m).
    + intros Hpend m m' i Ht%Hin. by apply (ok_clean _ _ _ _ _ _ O).
    + intros Hf Hpend m i Ht%Hin. by apply (ok_live _ _ _ _ _ _ O).
Qed.

Lemma walk_ok M c t : inv M -> cpu_ttbr M c = Some t -> inv (set_tlb M c (t :: cpu_tlb M c)).
Proof.
  intros (e & x & fl & I) Ht. exists e, x, fl. apply (inv_local e x fl M _ c); try done.
  - intros c' Hne. by lsimp.
  - by left.
  - intros Hc. pose proof (i_cpu _ _ _ _ I c Hc) as O. lsimp.
    assert (Hin : forall u, u ∈ entries (mk_locals (cpu_pc M c) (cpu_mm M c) (cpu_ttbr M c) (t :: cpu_tlb M c)) ->
      u ∈ entries (locals_of M c)).
    { unfold entries. simpl. rewrite Ht. intros u. rewrite !elem_of_cons. tauto. }
    split; try apply O.
    + simpl. intros m m' i Et. rewrite Ht in Et. injection Et as ->. intros [E|Hu]%elem_of_cons; [by injection E|].
      by apply (ok_hw _ _ _ _ _ _ O m m' i).
    + intros m m' i Hm Hu%Hin. by apply (ok_mine _ _ _ _ _ _ O m).
    + intros Hpend m m' i Hu%Hin. by apply (ok_clean _ _ _ _ _ _ O).
    + intros Hf Hpend m i Hu%Hin. by apply (ok_live _ _ _ _ _ _ O).
Qed.

Lemma read_active_ok M c m a :
  inv M -> cpu_pc M c = Read_active m a ->
  inv (goto M c (if active_asids (alloc M) c =? 0 then Locking m else Read_generation m a (active_asids (alloc M) c))).
Proof.
  intros (e & x & fl & I) Hp. exists e, x, fl.
  apply inv_goto; rewrite ?Hp; try done; try by destruct (_ =? _).
  intros Hc O. destruct (Z.eqb_spec (active_asids (alloc M) c) 0) as [?|Hne]; [done|].
  pose proof (ok_pc _ _ _ _ _ _ O) as Hok. unfold pc_ok in *. simpl in *. rewrite Hp in Hok.
  split; [done|]. split; [by left|done].
Qed.

(** An id in memory is of the epoch or older, unless the epoch is the current
    generation already. *)
Lemma ids_bound e x fl M m :
  inv_at e x fl M -> gen (context_id (alloc M) m) = gen (asid_generation (alloc M)) -> fl = false /\ e = gen (asid_generation (alloc M)).
Proof.
  intros I Hg. pose proof (i_owner _ _ _ _ I) as Ow. destruct (owner M); simpl in Ow; try (by destruct Ow as (? & ? & _)).
  destruct Ow as (_ & Ee & -> & _). pose proof (c_epoch _ _ _ _ _ (i_core _ _ _ _ I)).
  destruct (c_ids _ _ _ _ _ (i_core _ _ _ _ I) m) as [E0|(_ & _ & ?)]; [|lia].
  rewrite E0, (gen_0 asid_bits Hbits) in Hg. lia.
Qed.

Lemma epoch_le e x fl M : inv_at e x fl M -> e <= gen (asid_generation (alloc M)).
Proof. intros I. apply (c_epoch _ _ _ _ _ (i_core _ _ _ _ I)). Qed.

Lemma read_generation_ok M c m a old :
  inv M -> cpu_pc M c = Read_generation m a old ->
  inv (goto M c (if stale asid_bits a (asid_generation (alloc M)) then Locking m else Cmpxchg m a old)).
Proof.
  intros (e & x & fl & I) Hp. exists e, x, fl. rewrite (stale_spec asid_bits Hbits).
  destruct (Z.eqb_spec (gen a) (gen (asid_generation (alloc M)))) as [Hg|Hg]; simpl negb; cbn iota;
    apply inv_goto; rewrite ?Hp; try done.
  intros Hc O. pose proof (ok_pc _ _ _ _ _ _ O) as Hok. unfold pc_ok in *. simpl in *. rewrite Hp in Hok.
  destruct Hok as (H1 & H2 & H3). split; [done|]. split; [done|]. intros Ha.
  pose proof (epoch_le _ _ _ _ I). destruct (H3 Ha) as [E|?]; [|lia]. split; [done|].
  rewrite E in Hg. destruct (ids_bound _ _ _ _ m I Hg) as [_ ->]. by rewrite E.
Qed.

(** *** Activating an ASID *)

(** An id of the epoch is not the one the owner of the lock is replacing. *)
Lemma epoch_context e x fl M m :
  inv_at e x fl M -> gen (context_id (alloc M) m) = e -> x m = context_id (alloc M) m.
Proof.
  intros I Hg. pose proof (i_owner _ _ _ _ I) as Ow. destruct (owner M); simpl in Ow; try (destruct Ow as (_ & _ & Ow));
    try (by rewrite Ow); try (by destruct Ow as [-> _]).
  destruct Ow as (-> & Hlt & _). rewrite fn_lookup_insert_ne; [done|]. intros <-. lia.
Qed.

Lemma epoch_nonzero a e A x : core A e x -> gen a = e -> a <> 0.
Proof. intros C Hg ->. rewrite (gen_0 asid_bits Hbits) in Hg. pose proof (c_epoch _ _ _ _ _ C). lia. Qed.

Lemma core_activate A A' e x c m :
  core A e x -> x m <> 0 -> gen (x m) = e ->
  asid_generation A' = asid_generation A -> asid_map A' = asid_map A -> cur_idx A' = cur_idx A ->
  reserved_asids A' = reserved_asids A -> active_asids A' = <[c := x m]> (active_asids A) -> core A' e x.
Proof.
  intros C H0 Hg E1 E2 E3 E4 E5. split; rewrite ?E1, ?E2, ?E3, ?E4, ?E5; try apply C.
  - intros m1 m2. unfold AsidInv.live. rewrite E4. by apply (c_inj _ _ _ _ _ C).
  - intros c' Hc'. destruct (decide (c' = c)) as [->|Hne].
    + rewrite fn_lookup_insert. intros _. split; [done|]. by exists m.
    + rewrite fn_lookup_insert_ne by done. by apply (c_act _ _ _ _ _ C).
Qed.

Lemma marked_activate A A' e x :
  marked A e x -> asid_map A' = asid_map A -> reserved_asids A' = reserved_asids A -> marked A' e x.
Proof. intros Hm E1 E2 m. unfold AsidInv.live. rewrite E1, E2. apply Hm. Qed.

(** The state of a CPU that has just activated [m]. *)
Lemma activated_ok A A' e x fl c m l :
  core A e x -> x m <> 0 -> gen (x m) = e -> c ∈ cpus -> l_pc l = Switching m -> l_mm l = Some m ->
  reserved_asids A' = reserved_asids A -> active_asids A' c = x m -> tlb_flush_pending A' c = false ->
  (forall m1 m2 i, (m2, i) ∈ entries l -> live A e x m1 -> idx (x m1) = i -> m2 = m1) ->
  (fl = false -> forall m2 i, (m2, i) ∈ entries l -> live A e x m2 /\ idx (x m2) = i) ->
  (forall m1 m2 i, l_ttbr l = Some (m1, i) -> (m2, i) ∈ l_tlb l -> m2 = m1) ->
  cpu_ok A' e x fl c l.
Proof.
  intros C H0 Hg Hc Hp Hm E2 Ea Ep Hclean Hlive Hhw.
  assert (Hl : forall m', live A' e x m' <-> live A e x m') by (intros m'; unfold AsidInv.live; by rewrite E2).
  split.
  - intros m' Hm'. rewrite Hm in Hm'. injection Hm' as <-. split; [done|]. unfold own. rewrite Ea.
    by rewrite (proj2 (Z.eqb_neq _ _) H0).
  - by rewrite Ep.
  - by rewrite Hp.
  - unfold pc_ok. by rewrite Hp.
  - exact Hhw.
  - intros m1 m2 i Hm1 Hin E. rewrite Hm in Hm1. injection Hm1 as <-. apply (Hclean m m2 i); [done| |done].
    split; [done|by left].
  - intros _ m1 m2 i Hin Hm1%Hl. by apply Hclean.
  - intros Hf _ m1 i Hin. rewrite Hl. by apply Hlive.
Qed.

Lemma owner_activate A e x fl mms c m a p :
  owner_ok A e x fl mms p -> active_asids A c <> 0 -> c ∈ cpus -> gen (context_id A m) = e ->
  owner_ok (set_active (<[c := a]> (active_asids A)) A) e x fl (<[c := Some m]> mms) p.
Proof.
  intros Ow Ha Hc Hg. destruct p; simpl in *; try done.
  - destruct Ow as (H1 & H2 & H3 & H4 & H5 & F). split_and!; try done. split; try apply F.
    intros c' Hc' Hn. simpl. rewrite fn_lookup_insert_ne; [by apply (f_active _ _ _ _ F)|].
    intros <-. by apply Ha, (f_active _ _ _ _ F).
  - destruct Ow as (H1 & H2 & H3 & H4 & H5 & H6 & H7). split_and!; try done.
    intros c' Hc'. destruct (decide (c' = c)) as [->|Hne].
    + rewrite fn_lookup_insert. intros E. injection E as <-. lia.
    + rewrite fn_lookup_insert_ne by done. by apply H7.
Qed.

Lemma cmpxchg_ok M c m a old :
  inv M -> c ∈ cpus -> cpu_pc M c = Cmpxchg m a old ->
  returns (cpu_step c M) (fun r => match r with Some M' => inv M' | None => True end).
Proof.
  intros (e & x & fl & I) Hc Hp. unfold cpu_step. rewrite Hp. cbn zeta.
  pose proof (i_cpu _ _ _ _ I c Hc) as O. pose proof (ok_pc _ _ _ _ _ _ O) as Hok. unfold pc_ok in Hok. simpl in Hok.
  rewrite Hp in Hok. destruct Hok as (H1 & H2 & H3).
  destruct (Z.eqb_spec (active_asids (alloc M) c) 0) as [E0|Hne]; cbn [returns].
  { rewrite E0. rewrite (proj2 (Z.eqb_neq 0 old)) by done. exists e, x, fl. apply inv_goto; by rewrite ?Hp. }
  destruct H2 as [E|?]; [|done]. rewrite E, Z.eqb_refl. destruct (H3 Hne) as [Ea Hg].
  assert (Ex : x m = a). { rewrite Ea. apply (epoch_context e x fl M m I). by rewrite <- Ea. }
  assert (Hx0 : x m <> 0). { rewrite Ex. by apply (epoch_nonzero a e (alloc M) x (i_core _ _ _ _ I)). }
  assert (Hxg : gen (x m) = e) by by rewrite Ex.
  assert (Hpend : tlb_flush_pending (alloc M) c = false).
  { destruct (tlb_flush_pending (alloc M) c) eqn:Ep; [|done]. by destruct Hne; apply (ok_pend _ _ _ _ _ _ O). }
  set (M' := goto _ _ _). exists e, x, fl.
  destruct (lock_local M M' c (i_lock _ _ _ _ I)) as [L' Ow]; [done| |right; unfold M'; by lsimp; rewrite Hp|].
  { intros c' Hne'. unfold M'. by lsimp. }
  split.
  - apply (core_activate (alloc M) _ e x c m (i_core _ _ _ _ I) Hx0 Hxg); try done. simpl. by rewrite Ex.
  - intros Hf. by apply (marked_activate (alloc M)); [apply I|..].
  - intros c' Hc'. destruct (decide (c' = c)) as [->|Hn].
    + apply (activated_ok (alloc M) _ e x fl c m _ (i_core _ _ _ _ I) Hx0 Hxg Hc); unfold M'; lsimp; try done.
      * simpl. by rewrite fn_lookup_insert.
      * intros m1 m2 i Hin. apply (ok_clean _ _ _ _ _ _ O Hpend m1 m2 i Hin).
      * intros Hf m2 i. by apply (ok_live _ _ _ _ _ _ O Hf Hpend).
      * apply (ok_hw _ _ _ _ _ _ O).
    + replace (locals_of M' c') with (locals_of M c') by (unfold M'; by lsimp).
      apply (frame_same (alloc M) _ e x fl fl); [by apply I| |done..]. simpl. by rewrite fn_lookup_insert_ne.
  - done.
  - rewrite Ow. apply owner_activate; [apply I|done|done|by rewrite <- Ea].
Qed.

(** *** The critical section *)

Lemma lock_acquire M M' c :
  lock_ok M -> cpu_asid_lock M = None -> c ∈ cpus -> cpu_asid_lock M' = Some c -> in_lock (cpu_pc M' c) = true ->
  (forall c', c' <> c -> locals_of M' c' = locals_of M c') -> lock_ok M' /\ owner M' = cpu_pc M' c.
Proof.
  intros L El Hc El' Hp Eo. split; [|by unfold owner; rewrite El'].
  split; [intros d; rewrite El'; intros E; by injection E as <-|].
  intros c' Hc' Hin. destruct (decide (c' = c)) as [->|Hne]; [done|].
  rewrite (locals_pc M M' c' (Eo c' Hne)) in Hin. pose proof (lk_in _ L c' Hc' Hin). congruence.
Qed.

Lemma lock_stay M M' c :
  lock_ok M -> c ∈ cpus -> in_lock (cpu_pc M c) = true -> cpu_asid_lock M' = cpu_asid_lock M ->
  in_lock (cpu_pc M' c) = true -> (forall c', c' <> c -> locals_of M' c' = locals_of M c') ->
  lock_ok M' /\ owner M' = cpu_pc M' c /\ owner M = cpu_pc M c.
Proof.
  intros L Hc Hin El Hp Eo. pose proof (lk_in _ L c Hc Hin) as E. rewrite E in El.
  split; [|by unfold owner; rewrite El, E]. split.
  - intros d. rewrite El. intros Ed. injection Ed as <-. done.
  - intros c' Hc' Hin'. rewrite El, <- E. destruct (decide (c' = c)) as [->|Hne]; [by rewrite E|].
    rewrite (locals_pc M M' c' (Eo c' Hne)) in Hin'. by apply (lk_in _ L).
Qed.

Lemma lock_release M M' c :
  lock_ok M -> c ∈ cpus -> in_lock (cpu_pc M c) = true -> cpu_asid_lock M' = None -> in_lock (cpu_pc M' c) = false ->
  (forall c', c' <> c -> locals_of M' c' = locals_of M c') -> lock_ok M' /\ owner M' = Running /\ owner M = cpu_pc M c.
Proof.
  intros L Hc Hin El Hp Eo. pose proof (lk_in _ L c Hc Hin) as E.
  split; [|by unfold owner; rewrite El, E]. split; [by rewrite El|].
  intros c' Hc' Hin'. destruct (decide (c' = c)) as [->|Hne]; [congruence|].
  rewrite (locals_pc M M' c' (Eo c' Hne)) in Hin'. pose proof (lk_in _ L c' Hc' Hin'). congruence.
Qed.

(** A CPU inside the lock only moves on. *)
Lemma move_ok A e x fl M c p :
  is_switching (cpu_pc M c) = false -> is_switching p = false ->
  pc_ok A e c (mk_locals p (cpu_mm M c) (cpu_ttbr M c) (cpu_tlb M c)) ->
  cpu_ok A e x fl c (locals_of M c) -> cpu_ok A e x fl c (mk_locals p (cpu_mm M c) (cpu_ttbr M c) (cpu_tlb M c)).
Proof.
  intros Hs Hs' Hp O. split; try apply O; [|done]. intros _. by apply (ok_ttbr _ _ _ _ _ _ O).
Qed.

Lemma gen_stale A e x m : core A e x -> e = gen (asid_generation A) -> gen (x m) <> e -> gen (x m) < e.
Proof.
  intros C He Hne. pose proof (c_epoch _ _ _ _ _ C). destruct (c_ids _ _ _ _ _ C m) as [E|(_ & _ & ?)]; [|lia].
  rewrite E, (gen_0 asid_bits Hbits). lia.
Qed.

(** The address space a CPU runs keeps its index. *)
Lemma keeps_index A A' e x a m c l :
  keeps A A' e x (<[m := a]> x) -> c ∈ cpus -> cpu_ok A e x false c l -> l_mm l = Some m -> idx a = idx (x m).
Proof.
  intros K Hc O Hm. destruct (ok_own _ _ _ _ _ _ O m Hm) as [H0 Ho].
  destruct (k_own _ _ _ _ _ _ _ K c m Hc H0 Ho) as (_ & _ & E). by rewrite fn_lookup_insert in E.
Qed.

Ltac other_locals := let c' := fresh in let H := fresh in intros c' H; by lsimp.

(** The owner [c] of the lock reaches the program point [p] with the allocator
    [A'], in a state good for the other CPUs. *)
Lemma advance M c p l A' e x fl :
  lock_ok M -> c ∈ cpus -> l = Some c -> (cpu_asid_lock M = None \/ in_lock (cpu_pc M c) = true) ->
  is_switching (cpu_pc M c) = false -> in_lock p = true ->
  core A' e x -> (fl = false -> marked A' e x) -> (forall c', c' ∈ cpus -> cpu_ok A' e x fl c' (locals_of M c')) ->
  owner_ok A' e x fl (cpu_mm M) p -> inv (goto (set_alloc (set_lock M l) A') c p).
Proof.
  intros L Hc -> Hl Hs Hin C Hm Hcpu Ow. exists e, x, fl. set (M' := goto _ _ _).
  assert (Hpc : cpu_pc M' c = p) by (unfold M'; by lsimp).
  assert (Ho : forall c', c' <> c -> locals_of M' c' = locals_of M c') by (unfold M'; other_locals).
  assert (HL : lock_ok M' /\ owner M' = p).
  { destruct Hl as [El|Hin0].
    - destruct (lock_acquire M M' c L El Hc) as [L' E]; rewrite ?Hpc in *; done.
    - destruct (lock_stay M M' c L Hc Hin0) as (L' & E & _); rewrite ?Hpc in *; try done.
      by rewrite (lk_in _ L c Hc Hin0). }
  destruct HL as [L' E]. split; try done.
  - intros c' Hc'. destruct (decide (c' = c)) as [->|Hne]; [|rewrite Ho by done; by apply Hcpu].
    unfold M'. lsimp. apply move_ok; try done; [by destruct p|unfold pc_ok; simpl; by destruct p|by apply Hcpu].
  - by rewrite E.
Qed.

(** ... with a new ASID for [m], or without one. *)
Lemma advance_new M c m a A A' l :
  let e := gen (asid_generation A) in
  lock_ok M -> c ∈ cpus -> l = Some c -> (cpu_asid_lock M = None \/ in_lock (cpu_pc M c) = true) ->
  is_switching (cpu_pc M c) = false ->
  (forall c', c' ∈ cpus -> cpu_ok A e (context_id A) false c' (locals_of M c')) ->
  gen (context_id A m) < e -> try_post asid_bits cpus A m (Some a) A' ->
  inv (goto (set_alloc (set_lock M l) A') c (Set_context m a)).
Proof.
  intros e L Hc Hl Hl' Hs Hcpu Hlt (Ga & Ha & C' & Hm' & K).
  apply (advance _ _ _ _ _ e (<[m := a]> (context_id A)) false); try done.
  - intros c' Hc'. by apply (frame_keeps A _ _ (context_id A)); [|apply Hcpu|..].
  - simpl. rewrite (k_gen _ _ _ _ _ _ _ K), (k_ctx _ _ _ _ _ _ _ K). split_and!; try done.
    intros c' Hc' Hmm. by apply (keeps_index _ _ _ _ _ _ c' _ K Hc' (Hcpu c' Hc')).
Qed.

Lemma advance_none M c m A A' l :
  let e := gen (asid_generation A) in
  lock_ok M -> c ∈ cpus -> l = Some c -> (cpu_asid_lock M = None \/ in_lock (cpu_pc M c) = true) ->
  is_switching (cpu_pc M c) = false ->
  (forall c', c' ∈ cpus -> cpu_ok A e (context_id A) false c' (locals_of M c')) ->
  gen (context_id A m) < e -> try_post asid_bits cpus A m None A' ->
  inv (goto (set_alloc (set_lock M l) A') c (Rollover m)).
Proof.
  intros e L Hc Hl Hl' Hs Hcpu Hlt (C' & Hm' & K & Hun).
  apply (advance _ _ _ _ _ e (context_id A) false); try done.
  - intros c' Hc'. by apply (frame_keeps A _ _ (context_id A)); [|apply Hcpu|..].
  - simpl. by rewrite (k_gen _ _ _ _ _ _ _ K), (k_ctx _ _ _ _ _ _ _ K).
Qed.

Abbreviation good r := (match (r : option machine) with Some M' => inv M' | None => True end).

Lemma locking_ok M c m :
  inv M -> c ∈ cpus -> cpu_pc M c = Locking m -> returns (cpu_step c M) (fun r => good r).
Proof.
  intros (e & x & fl & I) Hc Hp. unfold cpu_step. rewrite Hp. cbn zeta.
  destruct (cpu_asid_lock M) as [d|] eqn:El; [done|].
  pose proof (i_owner _ _ _ _ I) as Ow. unfold owner in Ow. rewrite El in Ow. destruct Ow as (-> & -> & ->).
  pose proof (i_core _ _ _ _ I) as C. pose proof (i_marked _ _ _ _ I eq_refl) as Hm.
  assert (Hs : is_switching (cpu_pc M c) = false) by by rewrite Hp.
  rewrite (stale_spec asid_bits Hbits).
  destruct (Z.eqb_spec (gen (context_id (alloc M) m)) (gen (asid_generation (alloc M)))) as [Hg|Hg]; simpl negb; cbn iota.
  - apply (advance M c (Set_active m (context_id (alloc M) m)) (Some c) (alloc M) _ _ false
      (i_lock _ _ _ _ I) Hc eq_refl (or_introl El) Hs eq_refl C (fun _ => Hm) (i_cpu _ _ _ _ I)).
    simpl. split_and!; try done. by apply (epoch_nonzero _ _ _ _ C).
  - pose proof (gen_stale _ _ _ m C eq_refl Hg) as Hlt.
    destruct (try_context_ok asid_bits cpus Hbits (alloc M) m C Hm Hlt) as (r & A' & -> & Hpost).
    rewrite bind_ret. cbn [returns]. destruct r as [a|].
    + exact (advance_new M c m a (alloc M) A' (Some c) (i_lock _ _ _ _ I) Hc eq_refl (or_introl El) Hs (i_cpu _ _ _ _ I) Hlt Hpost).
    + exact (advance_none M c m (alloc M) A' (Some c) (i_lock _ _ _ _ I) Hc eq_refl (or_introl El) Hs (i_cpu _ _ _ _ I) Hlt Hpost).
Qed.

Lemma rollover_step_ok M c m :
  inv M -> c ∈ cpus -> cpu_pc M c = Rollover m -> asid_generation (next_generation asid_bits (alloc M)) <> 0 ->
  returns (cpu_step c M) (fun r => good r).
Proof.
  intros (e & x & fl & I) Hc Hp Hw. unfold cpu_step. rewrite Hp. cbn zeta.
  assert (Hin : in_lock (cpu_pc M c) = true) by by rewrite Hp.
  pose proof (lk_in _ (i_lock _ _ _ _ I) c Hc Hin) as El.
  pose proof (i_owner _ _ _ _ I) as Ow. unfold owner in Ow. rewrite El, Hp in Ow. destruct Ow as (-> & -> & -> & Hlt & Hun).
  destruct (rollover_ok asid_bits cpus Hbits Hnodup (alloc M) (i_core _ _ _ _ I) Hw) as (A' & -> & Hg & C' & F & E1 & E2 & E3 & E4).
  rewrite bind_ret. cbn [returns].
  apply (advance M c (Flushing m cpus) (cpu_asid_lock M) A' (gen (asid_generation (alloc M))) (context_id (alloc M)) true
    (i_lock _ _ _ _ I) Hc El (or_intror Hin)); try done; [by rewrite Hp| |].
  - intros c' Hc'. apply (frame_same (alloc M) _ _ _ false); [by apply I|by rewrite E1|by rewrite E2|by rewrite E3|done|done].
  - simpl. rewrite Hg, E4. split_and!; try done; [lia|]. intros H0 c' Hc'. rewrite E2. by apply Hun.
Qed.

Lemma visit_ok M c m i todo :
  inv M -> c ∈ cpus -> cpu_pc M c = Flushing m (i :: todo) -> returns (cpu_step c M) (fun r => good r).
Proof.
  intros (e & x & fl & I) Hc Hp. unfold cpu_step. rewrite Hp. cbn zeta.
  assert (Hin : in_lock (cpu_pc M c) = true) by by rewrite Hp.
  pose proof (lk_in _ (i_lock _ _ _ _ I) c Hc Hin) as El.
  pose proof (i_owner _ _ _ _ I) as Ow. unfold owner in Ow. rewrite El, Hp in Ow.
  destruct Ow as (-> & -> & -> & Hlt & Hun & F). pose proof (i_core _ _ _ _ I) as C.
  assert (Hi : i ∈ cpus) by (apply (f_todo _ _ _ _ F); left).
  destruct (flush_turn_ok asid_bits cpus Hbits Hcpus Hnodup (alloc M) i todo _ _ C F) as (A' & -> & C' & F' & E1 & E2 & E3 & E4 & E5 & E6).
  rewrite bind_ret. cbn [returns].
  apply (advance M c (Flushing m todo) (cpu_asid_lock M) A' (gen (asid_generation (alloc M)) - 1) (context_id (alloc M)) true
    (i_lock _ _ _ _ I) Hc El (or_intror Hin)); try done; [by rewrite Hp| |].
  - intros c' Hc'. apply (frame_visit (alloc M)); try done; [by apply I| |].
    + rewrite E4. destruct (decide (c' = i)) as [->|Hne]; [right; by rewrite fn_lookup_insert|left; by rewrite fn_lookup_insert_ne].
    + intros m' [H0 [?|(c0 & Hc0 & Er)]]; [by split; [|left]|]. rewrite E6 in Er. destruct (decide (c0 = i)) as [->|Hne].
      * rewrite fn_lookup_insert in Er. by apply (own_live asid_bits cpus _ _ _ i).
      * rewrite fn_lookup_insert_ne in Er by done. split; [done|]. right. by exists c0.
  - simpl. rewrite E1, E3. split_and!; try done. intros H0 c' Hc'. rewrite E6. destruct (decide (c' = i)) as [->|Hne].
    + rewrite fn_lookup_insert. unfold own. destruct (Z.eqb_spec (active_asids (alloc M) i) 0) as [Ea|Ea]; [by apply Hun|].
      intros Ex. destruct (c_act _ _ _ _ _ C i Hi Ea) as [Hg _]. rewrite Ex in Hg. lia.
    + rewrite fn_lookup_insert_ne by done. by apply Hun.
Qed.

Lemma end_flush_step_ok M c m :
  inv M -> c ∈ cpus -> cpu_pc M c = Flushing m [] -> returns (cpu_step c M) (fun r => good r).
Proof.
  intros (e & x & fl & I) Hc Hp. unfold cpu_step. rewrite Hp. cbn zeta.
  assert (Hin : in_lock (cpu_pc M c) = true) by by rewrite Hp.
  pose proof (lk_in _ (i_lock _ _ _ _ I) c Hc Hin) as El.
  pose proof (i_owner _ _ _ _ I) as Ow. unfold owner in Ow. rewrite El, Hp in Ow.
  destruct Ow as (-> & -> & -> & Hlt & Hun & F). pose proof (i_core _ _ _ _ I) as C.
  destruct (first_asid_ok asid_bits cpus Hbits Hcpus Hnodup (alloc M) m C F Hun) as (a & A' & -> & Hpost).
  rewrite bind_ret. cbn [returns].
  apply (advance_new M c m a (pend_all (alloc M)) A' (cpu_asid_lock M)); try done; [apply I|by right|by rewrite Hp| |].
  - intros c' Hc'. apply (frame_pend (alloc M) (gen (asid_generation (alloc M)) - 1)); [by apply I|].
    apply (f_active _ _ _ _ F c' Hc'). set_solver.
  - simpl. lia.
Qed.

Lemma set_context_ok M c m a :
  inv M -> c ∈ cpus -> cpu_pc M c = Set_context m a -> returns (cpu_step c M) (fun r => good r).
Proof.
  intros (e & x & fl & I) Hc Hp. unfold cpu_step. rewrite Hp. cbn zeta. cbn [returns].
  assert (Hin : in_lock (cpu_pc M c) = true) by by rewrite Hp.
  pose proof (lk_in _ (i_lock _ _ _ _ I) c Hc Hin) as El.
  pose proof (i_owner _ _ _ _ I) as Ow. unfold owner in Ow. rewrite El, Hp in Ow.
  destruct Ow as (-> & -> & Ex & Hlt & Hg & H0 & _). rewrite <- Ex.
  apply (advance M c (Set_active m a) (cpu_asid_lock M) (set_context x (alloc M)) (gen (asid_generation (alloc M))) x false
    (i_lock _ _ _ _ I) Hc El (or_intror Hin)); try done; [by rewrite Hp| | | |].
  - destruct (i_core _ _ _ _ I). by split.
  - apply (i_marked _ _ _ _ I).
  - intros c' Hc'. by apply (frame_context _ _ _ _ _ m a); [apply I|..].
  - simpl. split_and!; try done. by rewrite Ex, fn_lookup_insert.
Qed.

(** The entries left after the flush that was pending, if any, are of live address
    spaces. *)
Lemma entries_after_flush A e x c l tlb :
  cpu_ok A e x false c l -> core A e x -> c ∈ cpus -> is_switching (l_pc l) = false ->
  tlb = (if tlb_flush_pending A c then [] else l_tlb l) ->
  forall p m i, (m, i) ∈ entries (mk_locals p (l_mm l) (l_ttbr l) tlb) -> live A e x m /\ idx (x m) = i.
Proof.
  intros O C Hc Hs -> p m i Hin. destruct (tlb_flush_pending A c) eqn:Ep.
  - unfold entries in Hin. simpl in Hin. destruct (l_ttbr l) as [t|] eqn:Et; [|by apply not_elem_of_nil in Hin].
    apply list_elem_of_singleton in Hin. subst t. destruct (ok_ttbr _ _ _ _ _ _ O Hs m i Et) as [Hm ->].
    split; [|done]. destruct (ok_own _ _ _ _ _ _ O m Hm) as [H0 Ho]. by apply (own_live asid_bits cpus _ _ _ c).
  - by apply (ok_live _ _ _ _ _ _ O eq_refl Ep).
Qed.

Lemma set_active_ok M c m a :
  inv M -> c ∈ cpus -> cpu_pc M c = Set_active m a -> returns (cpu_step c M) (fun r => good r).
Proof.
  intros (e & x & fl & I) Hc Hp. unfold cpu_step. rewrite Hp. cbn zeta. cbn [set_active_asid returns].
  assert (Hin : in_lock (cpu_pc M c) = true) by by rewrite Hp.
  pose proof (lk_in _ (i_lock _ _ _ _ I) c Hc Hin) as El.
  pose proof (i_owner _ _ _ _ I) as Ow. unfold owner in Ow. rewrite El, Hp in Ow.
  destruct Ow as (-> & -> & -> & -> & Hg & H0). pose proof (i_core _ _ _ _ I) as C.
  pose proof (i_cpu _ _ _ _ I c Hc) as O. set (M' := goto _ _ _).
  assert (Hl : locals_of M' c = mk_locals (Switching m) (Some m) (cpu_ttbr M c)
    (if tlb_flush_pending (alloc M) c then [] else cpu_tlb M c)).
  { unfold M'. destruct (tlb_flush_pending (alloc M) c); by lsimp. }
  assert (Ho : forall c', c' <> c -> locals_of M' c' = locals_of M c').
  { intros c' Hne. unfold M'. destruct (tlb_flush_pending (alloc M) c); by lsimp. }
  assert (Hlive := entries_after_flush _ _ _ _ _ _ O C Hc ltac:(simpl; by rewrite Hp) eq_refl (Switching m)).
  exists (gen (asid_generation (alloc M))), (context_id (alloc M)), false.
  destruct (lock_release M M' c (i_lock _ _ _ _ I) Hc Hin) as (L' & E & _); [done| |done|].
  { pose proof (f_equal l_pc Hl) as Hpc. simpl in Hpc. unfold M'. lsimp. done. }
  split; try done.
  - by apply (core_activate (alloc M) _ _ _ c m C H0 Hg).
  - intros _. by apply (marked_activate (alloc M)); [apply I|..].
  - intros c' Hc'. destruct (decide (c' = c)) as [->|Hn].
    + rewrite Hl. apply (activated_ok (alloc M) _ _ _ _ c m _ C H0 Hg Hc); try done; simpl; rewrite ?fn_lookup_insert; try done.
      * intros m1 m2 i Hi Hm1 E1. destruct (Hlive m2 i Hi) as [Hm2 E2]. apply (c_inj _ _ _ _ _ C); [done|done|congruence].
      * intros m1 m2 i. destruct (tlb_flush_pending (alloc M) c); [by intros _ ?%not_elem_of_nil|]. apply (ok_hw _ _ _ _ _ _ O).
    + rewrite Ho by done. apply (frame_same (alloc M) _ _ _ false); simpl; rewrite ?fn_lookup_insert_ne by done; try done.
      by apply I.
Qed.

Lemma switching_ok M c m :
  inv M -> cpu_pc M c = Switching m -> inv (goto (set_ttbr M c None) c (Set_ttbr m)).
Proof.
  intros (e & x & fl & I) Hp. exists e, x, fl. apply (inv_local e x fl M _ c); try done.
  - other_locals.
  - right. lsimp. by rewrite Hp.
  - intros Hc. pose proof (i_cpu _ _ _ _ I c Hc) as O. lsimp.
    assert (Hin : forall t, t ∈ cpu_tlb M c -> t ∈ entries (locals_of M c)).
    { intros t Ht. unfold entries. simpl. destruct (cpu_ttbr M c); [by right|done]. }
    pose proof (ok_pc _ _ _ _ _ _ O) as Hok. unfold pc_ok in Hok. simpl in Hok. rewrite Hp in Hok.
    split; try apply O; simpl; try done.
    + intros m1 m' i Hm1 Ht%Hin. by apply (ok_mine _ _ _ _ _ _ O m1).
    + intros Hpend m1 m' i Ht%Hin. by apply (ok_clean _ _ _ _ _ _ O).
    + intros Hf Hpend m1 i Ht%Hin. by apply (ok_live _ _ _ _ _ _ O).
Qed.

(** The ASID that [cpu_do_switch_mm] reads back has the index the CPU holds. *)
Lemma context_index e x fl M c m :
  inv_at e x fl M -> c ∈ cpus -> cpu_mm M c = Some m -> idx (context_id (alloc M) m) = idx (x m).
Proof.
  intros I Hc Hm. pose proof (i_owner _ _ _ _ I) as Ow. destruct (owner M) as [| | | | | | |mm a| | |]; simpl in Ow;
    try (destruct Ow as (_ & _ & Ow)); try (by rewrite Ow); try (by destruct Ow as [-> _]).
  destruct Ow as (-> & _ & _ & _ & Hi). destruct (decide (m = mm)) as [->|Hne].
  - rewrite fn_lookup_insert. symmetry. by apply (Hi c).
  - by rewrite fn_lookup_insert_ne.
Qed.

Lemma set_ttbr_ok M c m :
  inv M -> cpu_pc M c = Set_ttbr m ->
  inv (goto (set_ttbr M c (Some (m, asid2idx asid_bits (context_id (alloc M) m)))) c Running).
Proof.
  intros (e & x & fl & I) Hp. exists e, x, fl. apply (inv_local e x fl M _ c); try done.
  - other_locals.
  - right. lsimp. by rewrite Hp.
  - intros Hc. pose proof (i_cpu _ _ _ _ I c Hc) as O. lsimp. rewrite (asid2idx_mod asid_bits Hbits).
    pose proof (ok_pc _ _ _ _ _ _ O) as Hok. unfold pc_ok in Hok. simpl in Hok. rewrite Hp in Hok. destruct Hok as [Hm Ht].
    rewrite (context_index e x fl M c m I Hc Hm). destruct (ok_own _ _ _ _ _ _ O m Hm) as [H0 Ho].
    pose proof (own_live asid_bits cpus _ _ _ c m (i_core _ _ _ _ I) Hc H0 Ho) as Hlm.
    assert (Hin : forall t, t ∈ cpu_tlb M c -> t ∈ entries (locals_of M c)).
    { intros t Hin. unfold entries. simpl. by rewrite Ht. }
    split; try apply O; simpl.
    + intros _ m1 i E. injection E as <- <-. done.
    + done.
    + intros m1 m' i E Hi%Hin. injection E as <- <-. by apply (ok_mine _ _ _ _ _ _ O m m' _ Hm Hi).
    + intros m1 m' i Hm1 [E|Hi%Hin]%elem_of_cons Ei; [|by apply (ok_mine _ _ _ _ _ _ O m1 m' i)].
      injection E as -> ->. rewrite Hm in Hm1. by injection Hm1.
    + intros Hpend m1 m' i [E|Hi%Hin]%elem_of_cons Hm1 Ei; [|by apply (ok_clean _ _ _ _ _ _ O Hpend m1 m' i)].
      injection E as -> ->. by apply (c_inj _ _ _ _ _ (i_core _ _ _ _ I)).
    + intros Hf Hpend m1 i [E|Hi%Hin]%elem_of_cons; [|by apply (ok_live _ _ _ _ _ _ O)].
      injection E as -> ->. done.
Qed.

(** ** Every step keeps the invariant, and no access faults *)

Lemma cpu_step_ok M c :
  inv M -> c ∈ cpus ->
  ((exists m, cpu_pc M c = Rollover m) -> asid_generation (next_generation asid_bits (alloc M)) <> 0) ->
  returns (cpu_step c M) (fun r => good r).
Proof.
  intros I Hc Hw. destruct (cpu_pc M c) as [|m a|m a old|m a old|m|m|m [|i todo]|m a|m a|m|m] eqn:Hp.
  - unfold cpu_step. by rewrite Hp.
  - unfold cpu_step. rewrite Hp. by apply read_active_ok.
  - unfold cpu_step. rewrite Hp. by apply read_generation_ok.
  - by apply (cmpxchg_ok M c m a old).
  - by apply (locking_ok M c m).
  - apply (rollover_step_ok M c m); eauto.
  - by apply (end_flush_step_ok M c m).
  - by apply (visit_ok M c m i todo).
  - by apply (set_context_ok M c m a).
  - by apply (set_active_ok M c m a).
  - unfold cpu_step. rewrite Hp. by apply switching_ok.
  - unfold cpu_step. rewrite Hp. by apply set_ttbr_ok.
Qed.

Lemma step_ok M M' : inv M -> step M M' -> asid_generation (alloc M') <> 0 -> inv M'.
Proof.
  intros I Hs Hg. destruct Hs as [c M M' Hc E|c m M Hc Hp|c M Hc Hp|c t M Hc Ht].
  - assert (Hw : (exists m, cpu_pc M c = Rollover m) -> asid_generation (next_generation asid_bits (alloc M)) <> 0).
    { intros [m Hp]. unfold Asid.cpu_step in E. rewrite Hp in E. cbn zeta in E.
      destruct (clear_map asid_bits (next_generation asid_bits (alloc M))) as [A'| | |] eqn:Ec; try done.
      rewrite bind_ret in E. injection E as <-. simpl in Hg. unfold clear_map in Ec.
      apply bind_Ret_inv in Ec as (map & _ & Ec). injection Ec as <-. done. }
    pose proof (cpu_step_ok M c I Hc Hw) as Hr. by rewrite E in Hr.
  - by apply begin_ok.
  - by apply init_mm_ok.
  - by apply walk_ok.
Qed.

(** ** The initial state *)

Lemma init_map_room : room (asid_map (asids_init asid_bits)) N.
Proof.
  unfold asids_init. cbn [asid_map]. rewrite (num_user_asids asid_bits Hbits). pose proof (N_bounds asid_bits Hbits).
  split.
  - apply Forall_replicate. unfold word. lia.
  - rewrite length_replicate. unfold BITS_TO_LONGS, BITS_PER_LONG. destruct (div_mod_64 (N + 64 - 1)). lia.
Qed.

Lemma inv_init : inv (machine_init asid_bits).
Proof.
  exists 1, (fun _ => 0), false. pose proof (N_bounds asid_bits Hbits) as HN.
  assert (Hg : asid_generation (asids_init asid_bits) = N) by apply (first_version asid_bits Hbits).
  assert (Hnl : forall m, ~ live (asids_init asid_bits) 1 (fun _ => 0) m) by (intros m [? _]; done).
  assert (HgN : gen N = 1) by (apply Z.div_same; lia).
  split; cbn [alloc machine_init].
  - split; try done; rewrite ?Hg, ?HgN; try done.
    + split; [unfold id; lia|]. apply Z.mod_same. lia.
    + by left.
    + intros m m' Hm. by destruct (Hnl m).
    + unfold asids_init. cbn [cur_idx]. lia.
    + apply init_map_room.
  - intros _ m Hm. by destruct (Hnl m).
  - intros c Hc. split; try done; simpl; set_solver.
  - by split.
  - simpl. rewrite first_version, HgN by done. done.
Qed.

Lemma run_inv M : run asid_bits cpus (machine_init asid_bits) M -> inv M.
Proof.
  intros Hr. remember (machine_init asid_bits) as M0 eqn:E0. assert (H0 : inv M0) by (subst; apply inv_init). clear E0.
  induction Hr as [M|M0 M1 M [Hs Hg] _ IH]; [done|]. apply IH. by apply (step_ok M0).
Qed.

End AsidSteps.
