(* ===== verification/AsidRun.v ===== *)
(** * [check_and_switch_context] as a run of the machine

    The sequential definition is what the steps of one CPU do when no other CPU
    moves. *)

From stdpp Require Import base numbers list option functions sets relations.
From Stdlib Require Import ZArith Lia.
From S2P Require Import Prelude Bitmap BitmapFacts Asid AsidInv AsidSteps.

Section AsidRun.
Context (asid_bits : Z) (cpus : list Z).

Abbreviation cpu_step := (cpu_step asid_bits cpus).
Abbreviation step := (step asid_bits cpus).
Abbreviation run := (run asid_bits cpus).

(** The machine [M] but for the allocator, the lock and what the CPU [c] has. *)
Record at_point (M : machine) (c : Z) (M' : machine) (A : asids) (l : option Z) (p : pc) (tlb : list (Z * Z)) : Prop := {
  p_alloc : alloc M' = A;
  p_lock : cpu_asid_lock M' = l;
  p_pc : cpu_pc M' c = p;
  p_tlb : cpu_tlb M' c = tlb;
  p_other : forall c', c' <> c -> locals_of M' c' = locals_of M c'
}.

(** One step of [c] followed by a run. *)
Lemma run_cpu M M1 M2 c :
  c ∈ cpus -> cpu_step c M = Ret (Some M1) -> asid_generation (alloc M1) <> 0 -> run M1 M2 -> run M M2.
Proof. intros Hc E Hg Hr. apply rtc_l with M1; [|done]. split; [|done]. by apply (step_cpu _ _ c). Qed.

(** What the call promises at its end. *)
Definition switched (M : machine) (c m : Z) (A : asids) (tlb : list (Z * Z)) (M' : machine) : Prop :=
  at_point M c M' A None Running tlb /\ cpu_mm M' c = Some m /\
  cpu_ttbr M' c = Some (m, asid2idx asid_bits (context_id A m)).

Ltac at_pt P := destruct P as [Ea El Ep Et Eo]; subst.
Ltac others Eo := intros c' Hne; rewrite <- (Eo c' Hne); unfold locals_of; simpl; by rewrite ?fn_lookup_insert_ne by done.

Lemma run_switching M c m M0 A tlb :
  c ∈ cpus -> asid_generation A <> 0 -> at_point M0 c M A None (Switching m) tlb -> cpu_mm M c = Some m ->
  exists M', run M M' /\ switched M0 c m A tlb M'.
Proof.
  intros Hc Hg P Hm. at_pt P. eexists. split.
  - eapply run_cpu; [exact Hc|unfold Asid.cpu_step; by rewrite Ep|done|].
    eapply run_cpu; [exact Hc|unfold Asid.cpu_step; simpl; by rewrite fn_lookup_insert|done|]. apply rtc_refl.
  - split; [|simpl; rewrite !fn_lookup_insert; by rewrite ?Hm]. split; simpl; rewrite ?fn_lookup_insert; try done. others Eo.
Qed.

Lemma run_set_active M c m a M0 A l tlb :
  c ∈ cpus -> asid_generation A <> 0 -> at_point M0 c M A l (Set_active m a) tlb ->
  let '(flush, A') := set_active_asid c a A in
  exists M', run M M' /\ switched M0 c m A' (if (flush : bool) then [] else tlb) M'.
Proof.
  intros Hc Hg P. at_pt P. unfold set_active_asid. set (A' := set_active _ _).
  edestruct (run_switching (goto (set_mm (set_lock (set_alloc
    (if tlb_flush_pending (alloc M) c then set_tlb M c [] else M) A') None) c m) c (Switching m)) c m M0 A'
    (if tlb_flush_pending (alloc M) c then [] else cpu_tlb M c) Hc Hg) as (M' & Hr & Hs).
  - split; try done; simpl; try by rewrite fn_lookup_insert.
    + destruct (tlb_flush_pending (alloc M) c); simpl; by rewrite ?fn_lookup_insert.
    + intros c' Hne. rewrite <- (Eo c' Hne). unfold locals_of. simpl. rewrite !fn_lookup_insert_ne by done.
      destruct (tlb_flush_pending (alloc M) c); simpl; by rewrite ?fn_lookup_insert_ne by done.
  - simpl. by rewrite fn_lookup_insert.
  - exists M'. split; [|done]. eapply run_cpu; [exact Hc| | |exact Hr]; [|done]. unfold Asid.cpu_step. by rewrite Ep.
Qed.

Lemma run_set_context M c m a M0 A l tlb :
  c ∈ cpus -> asid_generation A <> 0 -> at_point M0 c M A l (Set_context m a) tlb ->
  let '(flush, A') := set_active_asid c a (set_context (<[m := a]> (context_id A)) A) in
  exists M', run M M' /\ switched M0 c m A' (if (flush : bool) then [] else tlb) M'.
Proof.
  intros Hc Hg P. at_pt P. set (A1 := set_context _ _).
  assert (P1 : at_point M0 c (goto (set_alloc M A1) c (Set_active m a)) A1 (cpu_asid_lock M) (Set_active m a) (cpu_tlb M c)).
  { split; simpl; rewrite ?fn_lookup_insert; try done. others Eo. }
  pose proof (run_set_active _ c m a M0 A1 (cpu_asid_lock M) (cpu_tlb M c) Hc Hg P1) as H.
  destruct (set_active_asid c a A1) as [flush A']. destruct H as (M' & Hr & Hs). exists M'. split; [|done].
  eapply run_cpu; [exact Hc| | |exact Hr]; [|done]. unfold Asid.cpu_step. by rewrite Ep.
Qed.

Lemma flush_turn_gen A c A' : flush_turn asid_bits A c = Ret A' -> asid_generation A' = asid_generation A.
Proof. unfold flush_turn. intros (map & _ & E)%bind_Ret_inv. by injection E as <-. Qed.

Lemma run_flush m c M0 tlb l todo :
  c ∈ cpus -> forall M A A', asid_generation A <> 0 -> at_point M0 c M A l (Flushing m todo) tlb ->
  flush_turns asid_bits A todo = Ret A' ->
  asid_generation A' = asid_generation A /\
  exists M', run M M' /\ at_point M0 c M' A' l (Flushing m []) tlb.
Proof.
  intros Hc. induction todo as [|i todo IH]; intros M A A' Hg P E; simpl in E.
  - injection E as <-. split; [done|]. exists M. split; [apply rtc_refl|done].
  - apply bind_Ret_inv in E as (A1 & E1 & E). pose proof (flush_turn_gen _ _ _ E1) as Eg. at_pt P.
    destruct (IH (goto (set_alloc M A1) c (Flushing m todo)) A1 A') as (Eg' & M' & Hr & P'); [by rewrite Eg| |done|].
    { split; simpl; rewrite ?fn_lookup_insert; try done. others Eo. }
    split; [congruence|]. exists M'. split; [|done].
    eapply run_cpu; [exact Hc| | |exact Hr]; [unfold Asid.cpu_step; rewrite Ep; by rewrite E1|simpl; by rewrite Eg].
Qed.

Lemma set_asid_gen i g A a A' : set_asid asid_bits i g A = Ret (a, A') -> asid_generation A' = asid_generation A.
Proof. unfold set_asid. intros (map & _ & E)%bind_Ret_inv. by injection E as <- <-. Qed.
Lemma clear_map_gen A A' : clear_map asid_bits A = Ret A' -> asid_generation A' = asid_generation A.
Proof. unfold clear_map. intros (map & _ & E)%bind_Ret_inv. by injection E as <-. Qed.
Lemma try_context_gen m A r A' :
  try_context asid_bits cpus m A = Ret (r, A') -> asid_generation A' = asid_generation A.
Proof.
  unfold try_context. intros ([r1 A1] & E1 & E)%bind_Ret_inv.
  assert (Eg : asid_generation A1 = asid_generation A).
  { unfold reuse_asid, check_update_reserved_asid in E1. destruct (negb (context_id A m =? 0)); [|by injection E1 as <- <-].
    destruct (update_reserved _ _ _ _ _) as [[|] res]; [by injection E1 as <- <-|].
    apply bind_Ret_inv in E1 as ([old map] & _ & E1). by injection E1 as <- <-. }
  destruct r1 as [a|]; [by injection E as <- <-|]. rewrite <- Eg. unfold find_asid in E.
  apply bind_Ret_inv in E as (i & _ & E). destruct (negb _); [|by injection E as <- <-].
  apply bind_Ret_inv in E as ([a A2] & E2 & E). injection E as <- <-. by apply set_asid_gen in E2.
Qed.

Lemma run_new_context M c m M0 A l tlb a A' :
  c ∈ cpus -> cpu_asid_lock M = None -> l = Some c ->
  stale asid_bits (context_id A m) (asid_generation A) = true -> asid_generation A <> 0 ->
  asid_generation (next_generation asid_bits A) <> 0 ->
  at_point M0 c M A None (Locking m) tlb -> new_context asid_bits cpus m A = Ret (a, A') ->
  asid_generation A' <> 0 /\ exists M', run M M' /\ at_point M0 c M' A' l (Set_context m a) tlb.
Proof.
  intros Hc Hl -> Hst Hg Hg' P E. at_pt P. unfold new_context in E.
  apply bind_Ret_inv in E as ([r A1] & E1 & E). pose proof (try_context_gen _ _ _ _ E1) as Eg1.
  set (p := match r with Some newasid => Set_context m newasid | None => Rollover m end).
  set (M1 := goto (set_alloc (set_lock M (Some c)) A1) c p).
  assert (S1 : cpu_step c M = Ret (Some M1)) by (unfold Asid.cpu_step; by rewrite Ep, Hl, Hst, E1).
  assert (P1 : at_point M0 c M1 A1 (Some c) p (cpu_tlb M c)).
  { split; unfold M1; simpl; rewrite ?fn_lookup_insert; try done. others Eo. }
  assert (G1 : asid_generation A1 <> 0) by by rewrite Eg1.
  destruct r as [a1|].
  { injection E as <- <-. split; [done|]. exists M1. split; [|done]. eapply run_cpu; [done|exact S1|done|apply rtc_refl]. }
  unfold flush_context in E. apply bind_Ret_inv in E as (A2 & E2 & E). apply bind_Ret_inv in E2 as (A3 & E3 & E2).
  apply bind_Ret_inv in E2 as (A4 & E4 & E2). injection E2 as <-.
  assert (G3 : asid_generation A3 <> 0). { rewrite (clear_map_gen _ _ E3). unfold next_generation in *. simpl in *. by rewrite Eg1. }
  set (M3 := goto (set_alloc M1 A3) c (Flushing m cpus)).
  assert (S2 : cpu_step c M1 = Ret (Some M3)).
  { unfold Asid.cpu_step, M1 at 1. simpl. rewrite fn_lookup_insert. by rewrite E3. }
  assert (P3 : at_point M0 c M3 A3 (Some c) (Flushing m cpus) (cpu_tlb M c)).
  { split; unfold M3; simpl; rewrite ?fn_lookup_insert; try done. others Eo. }
  destruct (run_flush m c M0 _ _ cpus Hc M3 A3 A4 G3 P3 E4) as (Eg4 & M4 & Hr & P4).
  assert (G4 : asid_generation A' <> 0).
  { unfold first_asid in E. apply bind_Ret_inv in E as (i & _ & E). apply set_asid_gen in E. rewrite E. simpl. by rewrite Eg4. }
  split; [done|]. exists (goto (set_alloc M4 A') c (Set_context m a)). destruct P4 as [Ea4 El4 Ep4 Et4 Eo4]. split.
  - eapply run_cpu; [done|exact S1|done|]. eapply run_cpu; [done|exact S2|done|]. etrans; [exact Hr|].
    apply (run_cpu _ (goto (set_alloc M4 A') c (Set_context m a)) _ c); [done| |exact G4|apply rtc_refl]. unfold Asid.cpu_step. rewrite Ep4, Ea4. by rewrite E.
  - split; simpl; rewrite ?fn_lookup_insert; try done. others Eo4.
Qed.

Lemma Ret_inj {B} (u v : B) : Ret u = Ret v -> u = v.
Proof. congruence. Qed.

(** The slow path. *)
Lemma run_slow M c m M0 A tlb flush A' :
  c ∈ cpus -> asid_generation A <> 0 -> asid_generation (next_generation asid_bits A) <> 0 ->
  at_point M0 c M A None (Locking m) tlb ->
  ('(asid, A) ← (if stale asid_bits (context_id A m) (asid_generation A) then
                   '(asid, A) ← new_context asid_bits cpus m A;
                   Ret (asid, set_context (<[m := asid]> (context_id A)) A)
                 else Ret (context_id A m, A));
   Ret (set_active_asid c asid A)) = Ret (flush, A') ->
  exists M', run M M' /\ switched M0 c m A' (if (flush : bool) then [] else tlb) M'.
Proof.
  intros Hc Hg Hg' P E. pose proof (p_lock _ _ _ _ _ _ _ P) as Hl.
  destruct (stale asid_bits (context_id A m) (asid_generation A)) eqn:Hst.
  - apply bind_Ret_inv in E as ([a A2] & E & E2). apply bind_Ret_inv in E as ([a1 A1] & E1 & E). injection E as -> <-.
    destruct (run_new_context M c m M0 A (Some c) tlb a A1 Hc Hl eq_refl Hst Hg Hg' P E1) as (G1 & M1 & Hr & P1).
    pose proof (run_set_context M1 c m a M0 A1 (Some c) tlb Hc G1 P1) as H. apply Ret_inj in E2. rewrite E2 in H.
    destruct H as (M' & Hr' & Hs). exists M'. split; [by etrans|done].
  - rewrite bind_ret in E. apply Ret_inj in E. at_pt P.
    set (M1 := goto (set_lock M (Some c)) c (Set_active m (context_id (alloc M) m))).
    assert (S1 : cpu_step c M = Ret (Some M1)) by (unfold Asid.cpu_step; by rewrite Ep, El, Hst).
    assert (P1 : at_point M0 c M1 (alloc M) (Some c) (Set_active m (context_id (alloc M) m)) (cpu_tlb M c)).
    { split; unfold M1; simpl; rewrite ?fn_lookup_insert; try done. others Eo. }
    pose proof (run_set_active M1 c m _ M0 _ _ _ Hc Hg P1) as H. rewrite E in H. destruct H as (M' & Hr & Hs).
    exists M'. split; [|done]. by eapply run_cpu.
Qed.

(** The whole call. *)
Lemma run_check_and_switch M c m flush A' :
  c ∈ cpus -> cpu_asid_lock M = None -> cpu_pc M c = Running ->
  asid_generation (alloc M) <> 0 -> asid_generation (next_generation asid_bits (alloc M)) <> 0 ->
  check_and_switch_context asid_bits cpus m c (alloc M) = Ret (flush, A') ->
  exists M', run M M' /\ switched M c m A' (if (flush : bool) then [] else cpu_tlb M c) M'.
Proof.
  intros Hc Hl Hp Hg Hg' E. set (a := context_id (alloc M) m). set (old := active_asids (alloc M) c).
  set (M1 := goto M c (Read_active m a)).
  assert (R1 : forall M', run M1 M' -> run M M').
  { intros M' Hr. apply rtc_l with M1; [|done]. split; [|done]. by apply step_switch_mm. }
  assert (S1 : cpu_step c M1 = Ret (Some (goto M1 c (if old =? 0 then Locking m else Read_generation m a old)))).
  { unfold Asid.cpu_step, M1 at 1. simpl. by rewrite fn_lookup_insert. }
  assert (Pl : forall M2, alloc M2 = alloc M -> cpu_asid_lock M2 = None -> cpu_tlb M2 = cpu_tlb M ->
    (forall c', c' <> c -> locals_of M2 c' = locals_of M c') ->
    at_point M c (goto M2 c (Locking m)) (alloc M) None (Locking m) (cpu_tlb M c)).
  { intros M2 Ea El Et Eo. split; simpl; rewrite ?fn_lookup_insert, ?Et; try done. others Eo. }
  assert (Ho1 : forall c', c' <> c -> locals_of M1 c' = locals_of M c').
  { intros c' Hne. unfold M1, locals_of. simpl. by rewrite fn_lookup_insert_ne. }
  unfold check_and_switch_context, switch_fast in E. fold a old in E.
  destruct (Z.eqb_spec old 0) as [E0|E0]; simpl in E.
  { destruct (run_slow _ c m M _ _ flush A' Hc Hg Hg' (Pl M1 eq_refl Hl eq_refl Ho1) E) as (M' & Hr & Hs).
    exists M'. split; [|done]. apply R1. by eapply run_cpu. }
  set (M2 := goto M1 c (Read_generation m a old)) in *.
  set (p := if stale asid_bits a (asid_generation (alloc M)) then Locking m else Cmpxchg m a old).
  assert (S2 : cpu_step c M2 = Ret (Some (goto M2 c p))).
  { unfold Asid.cpu_step, M2 at 1. simpl. by rewrite fn_lookup_insert. }
  assert (Ho2 : forall c', c' <> c -> locals_of M2 c' = locals_of M c').
  { intros c' Hne. rewrite <- (Ho1 c' Hne). unfold M2, locals_of. simpl. by rewrite fn_lookup_insert_ne. }
  unfold p in S2. destruct (stale asid_bits a (asid_generation (alloc M))) eqn:Hst; simpl in E.
  { destruct (run_slow _ c m M _ _ flush A' Hc Hg Hg' (Pl M2 eq_refl Hl eq_refl Ho2)) as (M' & Hr & Hs).
    { fold a. rewrite Hst. exact E. }
    exists M'. split; [|done]. apply R1. eapply run_cpu; [done|exact S1|done|]. by eapply run_cpu. }
  injection E as <- <-. set (A1 := set_active (<[c := a]> (active_asids (alloc M))) (alloc M)).
  set (M3 := goto M2 c (Cmpxchg m a old)) in *.
  set (M4 := goto (set_mm (set_alloc M3 A1) c m) c (Switching m)).
  assert (S3 : cpu_step c M3 = Ret (Some M4)).
  { unfold Asid.cpu_step, M3 at 1. simpl. rewrite fn_lookup_insert. fold old.
    by rewrite Z.eqb_refl, (proj2 (Z.eqb_neq old 0) E0). }
  destruct (run_switching M4 c m M A1 (cpu_tlb M c) Hc Hg) as (M' & Hr & Hs).
  - split; try done; unfold M4; simpl; [by rewrite fn_lookup_insert|].
    intros c' Hne. rewrite <- (Ho2 c' Hne). unfold locals_of. simpl. by rewrite !fn_lookup_insert_ne.
  - unfold M4. simpl. by rewrite fn_lookup_insert.
  - exists M'. split; [|done]. apply R1. eapply run_cpu; [done|exact S1|done|].
    eapply run_cpu; [done|exact S2|done|]. by eapply run_cpu.
Qed.

End AsidRun.
