(* ===== verification/AsidSpec.v ===== *)
(** * What the ASID allocator promises *)

From stdpp Require Import base numbers list option functions sets relations.
From Stdlib Require Import ZArith Lia.
From S2P Require Import Prelude Bitmap BitmapFacts Asid AsidInv AsidSteps AsidRun.

(** ** [new_context] returns *)

Section returns.
Context (asid_bits : Z) (cpus : list Z).
Context (Hbits : asid_bits = 8 \/ asid_bits = 16).
Context (Hcpus : Z.of_nat (length cpus) < 2 ^ asid_bits - 1) (Hnodup : NoDup cpus).

Lemma flush_turns_ok todo : forall A e,
  core asid_bits cpus A e (context_id A) -> flushing asid_bits cpus A todo ->
  exists A', flush_turns asid_bits A todo = Ret A' /\ core asid_bits cpus A' e (context_id A) /\
    flushing asid_bits cpus A' [] /\ asid_generation A' = asid_generation A /\ context_id A' = context_id A /\
    forall m, gen asid_bits (context_id A m) < e -> unowned cpus A (context_id A) m -> unowned cpus A' (context_id A) m.
Proof.
  induction todo as [|i todo IH]; intros A e C F.
  { exists A. split; [done|]. split; [done|]. split; [done|]. done. }
  destruct (flush_turn_ok asid_bits cpus Hbits Hcpus Hnodup A i todo _ _ C F) as (A1 & E1 & C1 & F1 & Eg & _ & Ec & _ & _ & Er).
  destruct (IH A1 e) as (A' & E & C' & F' & Eg' & Ec' & Hun); rewrite ?Ec; try done.
  exists A'. simpl. rewrite E1, bind_ret. rewrite Ec in *. split; [done|]. split; [done|]. split; [done|].
  split; [congruence|]. split; [done|]. intros m Hg Hm. apply Hun; [done|]. intros H0 c Hc. rewrite Er.
  assert (Hi : i ∈ cpus) by (apply (f_todo _ _ _ _ F); left).
  destruct (decide (c = i)) as [->|Hne]; [|rewrite fn_lookup_insert_ne by done; by apply Hm].
  rewrite fn_lookup_insert. unfold own. destruct (Z.eqb_spec (active_asids A i) 0) as [Ea|Ea]; [by apply Hm|].
  intros Ex. destruct (c_act _ _ _ _ _ C i Hi Ea) as [Hga _]. rewrite Ex in Hga. lia.
Qed.

Lemma new_context_returns A m :
  let e := gen asid_bits (asid_generation A) in
  core asid_bits cpus A e (context_id A) -> marked asid_bits cpus A e (context_id A) ->
  gen asid_bits (context_id A m) < e -> asid_generation (next_generation asid_bits A) <> 0 ->
  exists r, new_context asid_bits cpus m A = Ret r.
Proof.
  intros e C Hm Hlt Hw. unfold new_context. destruct (try_context_ok asid_bits cpus Hbits A m C Hm Hlt) as (r & A1 & -> & Hp).
  rewrite bind_ret. destruct r as [a|]; [by eexists|]. destruct Hp as (C1 & Hm1 & K & Hun).
  pose proof (k_gen _ _ _ _ _ _ _ K) as Eg. pose proof (k_ctx _ _ _ _ _ _ _ K) as Ec. unfold e in *. rewrite <- Eg, <- Ec in *.
  destruct (rollover_ok asid_bits cpus Hbits Hnodup A1 C1) as (A2 & E2 & Hg2 & C2 & F2 & E3 & E4 & E5 & E6).
  { unfold next_generation in *. simpl in *. by rewrite Eg. }
  destruct (flush_turns_ok cpus A2 (gen asid_bits (asid_generation A1))) as (A3 & E7 & C3 & F3 & Eg3 & Ec3 & Hun3);
    [by rewrite E6|done|].
  unfold flush_context. rewrite E2, bind_ret, E7, !bind_ret.
  destruct (first_asid_ok asid_bits cpus Hbits Hcpus Hnodup A3 m) as (a & A' & -> & _); [|done| |by eexists].
  - rewrite Eg3, Ec3. replace (gen asid_bits (asid_generation A2) - 1) with (gen asid_bits (asid_generation A1)) by lia. done.
  - rewrite Ec3. apply Hun3; rewrite E6; [done|]. intros H0 c Hc. rewrite E4. by apply Hun.
Qed.
End returns.

Section claims.
Context (asid_bits : Z) (cpus : list Z).
Context (Hbits : asid_bits = 8 \/ asid_bits = 16).
Context (Hcpus : Z.of_nat (length cpus) < NUM_USER_ASIDS asid_bits - 1) (Hnodup : NoDup cpus).

Abbreviation reachable := (run asid_bits cpus (machine_init asid_bits)).

Lemma enough_asids : Z.of_nat (length cpus) < 2 ^ asid_bits - 1.
Proof. by rewrite <- (num_user_asids asid_bits Hbits). Qed.

Lemma reachable_inv M : reachable M -> inv asid_bits cpus M.
Proof. apply run_inv; [done|apply enough_asids|done]. Qed.

Lemma exclusive (M : machine) (c c' m m' i i' : Z)
  (Hreach : reachable M) (Hc : c ∈ cpus) (Hc' : c' ∈ cpus)
  (Hr : cpu_pc M c = Running) (Hr' : cpu_pc M c' = Running)
  (Ht : cpu_ttbr M c = Some (m, i)) (Ht' : cpu_ttbr M c' = Some (m', i')) :
  cpu_mm M c = Some m /\ 1 <= i < NUM_USER_ASIDS asid_bits /\ (i = i' <-> m = m').
Proof.
  destruct (reachable_inv M Hreach) as (e & x & fl & I). pose proof (i_core _ _ _ _ _ _ I) as C.
  assert (H : forall c m i, c ∈ cpus -> cpu_pc M c = Running -> cpu_ttbr M c = Some (m, i) ->
    cpu_mm M c = Some m /\ i = idx asid_bits (x m) /\ live asid_bits cpus (alloc M) e x m).
  { intros c0 m0 i0 Hc0 Hp Et. pose proof (i_cpu _ _ _ _ _ _ I c0 Hc0) as O.
    destruct (ok_ttbr _ _ _ _ _ _ _ _ O) with m0 i0 as [Hm ->]; [simpl; by rewrite Hp|done|].
    destruct (ok_own _ _ _ _ _ _ _ _ O m0 Hm) as [H0 Ho]. split; [done|]. split; [done|].
    by apply (own_live asid_bits cpus _ _ _ c0). }
  destruct (H c m i Hc Hr Ht) as (Hm & -> & Hl), (H c' m' i' Hc' Hr' Ht') as (Hm' & -> & Hl').
  split; [done|]. split.
  - pose proof (idx_range asid_bits Hbits (x m)). rewrite (num_user_asids asid_bits Hbits).
    destruct (c_ids _ _ _ _ _ C m) as [?|(_ & ? & _)]; [by destruct Hl|lia].
  - split; [by apply (c_inj _ _ _ _ _ C)|by intros ->].
Qed.

(** No access faults, and a CPU that cannot go on waits for one that can. *)
Lemma asid_progress (M : machine) (c : Z)
  (Hreach : reachable M) (Hc : c ∈ cpus) (Hwrap : asid_generation (next_generation asid_bits (alloc M)) <> 0) :
  exists r, cpu_step asid_bits cpus c M = Ret r /\
    (r = None -> cpu_pc M c = Running \/ exists d M', d ∈ cpus /\ cpu_step asid_bits cpus d M = Ret (Some M')).
Proof.
  pose proof (reachable_inv M Hreach) as I.
  assert (H : forall d, d ∈ cpus -> exists r, cpu_step asid_bits cpus d M = Ret r).
  { intros d Hd. destruct (returns_inv _ _ (cpu_step_ok asid_bits cpus Hbits enough_asids Hnodup M d I Hd (fun _ => Hwrap))) as (r & E & _).
    by exists r. }
  destruct (H c Hc) as [r E]. exists r. split; [done|]. intros ->.
  destruct (cpu_pc M c) as [|m a|m a old|m a old|m|m|m [|i todo]|m a|m a|m|m] eqn:Hp; try (by left);
    unfold cpu_step in E; rewrite Hp in E; try (by cbn in E).
  - destruct (cpu_asid_lock M) as [d|] eqn:El.
    + right. destruct I as (e & x & fl & I). destruct (lk_owner _ _ (i_lock _ _ _ _ _ _ I) d El) as [Hd Hin].
      destruct (H d Hd) as [[M'|] Ed]; [by exists d, M'|]. exfalso. clear E. unfold cpu_step in Ed.
      destruct (cpu_pc M d) as [| | | | |m0|m0 [|i0 todo0]|m0 a0|m0 a0| |]; try done;
        repeat (apply bind_Ret_inv in Ed as (? & _ & Ed)); try (by cbn in Ed); by case_match.
    + case_match; [|done]. apply bind_Ret_inv in E as ([r A'] & _ & E). done.
  - by apply bind_Ret_inv in E as (? & _ & E).
  - by apply bind_Ret_inv in E as ([? ?] & _ & E).
  - by apply bind_Ret_inv in E as (? & _ & E).
Qed.

(** C18: in every reachable state, and whatever its speculative walks have left in
    its TLB, the entries a CPU can hit under the ASID in its registers were walked
    for the address space in its registers: no rollover, race on the fast path or
    re-use of an index ever lets a CPU run one process with the translations of
    another.  Outside the switch itself that ASID is a non-zero index of the
    address space the CPU last activated, and two CPUs hold the same index only
    when they run the same address space.  No access of
    [check_and_switch_context] faults: the bitmap is never indexed out of range,
    because a free ASID remains after every rollover when there are fewer CPUs
    than user ASIDs; and the system does not deadlock: a CPU that cannot take its
    next access is outside the function or waits for a CPU that can. *)
Theorem asid_tlb_safe (M : machine) (c : Z) (Hreach : reachable M) (Hc : c ∈ cpus) :
  (forall m i, cpu_ttbr M c = Some (m, i) ->
    (forall m', (m', i) ∈ cpu_tlb M c -> m' = m) /\
    (cpu_pc M c = Running -> forall c' m' i', c' ∈ cpus -> cpu_pc M c' = Running -> cpu_ttbr M c' = Some (m', i') ->
      cpu_mm M c = Some m /\ 1 <= i < NUM_USER_ASIDS asid_bits /\ (i = i' <-> m = m'))) /\
  (asid_generation (next_generation asid_bits (alloc M)) <> 0 ->
    exists r, cpu_step asid_bits cpus c M = Ret r /\
      (r = None -> cpu_pc M c = Running \/ exists d M', d ∈ cpus /\ cpu_step asid_bits cpus d M = Ret (Some M'))).
Proof.
  split; [|by apply asid_progress]. intros m i Httbr. split.
  - intros m' Htlb. destruct (reachable_inv M Hreach) as (e & x & fl & I).
    by apply (ok_hw _ _ _ _ _ _ _ _ (i_cpu _ _ _ _ _ _ I c Hc) m m' i).
  - intros Hr c' m' i' Hc' Hr' Ht'. by apply (exclusive M c c').
Qed.

(** C19: the sequential [check_and_switch_context] returns, and it is a run of the
    interleaved machine: taken alone from a reachable state with the lock free, the
    steps of the CPU end outside the function with exactly the allocator state of
    the sequential definition, the new address space and its ASID in the registers,
    the TLB emptied if the definition says so, and no other CPU touched. *)
Theorem check_and_switch_context_spec (M : machine) (c m : Z)
  (Hreach : reachable M) (Hc : c ∈ cpus) (Hlock : cpu_asid_lock M = None) (Hpc : cpu_pc M c = Running)
  (Hgen : asid_generation (alloc M) <> 0)
  (Hwrap : asid_generation (next_generation asid_bits (alloc M)) <> 0) :
  returns (check_and_switch_context asid_bits cpus m c (alloc M)) (fun '(flush, A') =>
    exists M', run asid_bits cpus M M' /\
      switched asid_bits M c m A' (if (flush : bool) then [] else cpu_tlb M c) M').
Proof.
  assert (Hret : exists r, check_and_switch_context asid_bits cpus m c (alloc M) = Ret r).
  { unfold check_and_switch_context. destruct (switch_fast asid_bits m c (alloc M)); [by eexists|].
    destruct (stale asid_bits _ _) eqn:Hst; [|by eexists].
    destruct (reachable_inv M Hreach) as (e & x & fl & I).
    pose proof (i_owner _ _ _ _ _ _ I) as Ow. unfold owner in Ow. rewrite Hlock in Ow. destruct Ow as (-> & -> & ->).
    rewrite (stale_spec asid_bits Hbits) in Hst. apply negb_true_iff, Z.eqb_neq in Hst.
    destruct (new_context_returns asid_bits cpus Hbits enough_asids Hnodup (alloc M) m) as [[a A'] ->]; try done.
    - apply (i_core _ _ _ _ _ _ I).
    - apply (i_marked _ _ _ _ _ _ I eq_refl).
    - apply (gen_stale asid_bits cpus Hbits _ _ _ m (i_core _ _ _ _ _ _ I) eq_refl Hst).
    - rewrite !bind_ret. by eexists. }
  destruct Hret as [[flush A'] E]. rewrite E. by apply run_check_and_switch.
Qed.
End claims.

(** ** Two CPUs *)

Definition demo_cpus : list Z := [0; 1].
Definition demo_asids : asids :=
  match check_and_switch_context 8 demo_cpus 5 0 (asids_init 8) with Ret (_, A) => A | _ => asids_init 8 end.

Lemma demo_bits : 8 = 8 \/ 8 = 16.
Proof. by left. Qed.
Lemma demo_few : Z.of_nat (length demo_cpus) < NUM_USER_ASIDS 8 - 1.
Proof. reflexivity. Qed.
Lemma demo_nodup : NoDup demo_cpus.
Proof. apply (bool_decide_unpack _). by vm_compute. Qed.
Lemma demo_in c : c = 0 \/ c = 1 -> c ∈ demo_cpus.
Proof. unfold demo_cpus. set_solver. Qed.

(** The CPU [c] switches to [m] from a state of the run with the lock free. *)
Lemma demo_switch M c m flush A' :
  run 8 demo_cpus (machine_init 8) M -> c ∈ demo_cpus -> cpu_asid_lock M = None -> cpu_pc M c = Running ->
  asid_generation (alloc M) <> 0 -> asid_generation (next_generation 8 (alloc M)) <> 0 ->
  check_and_switch_context 8 demo_cpus m c (alloc M) = Ret (flush, A') ->
  exists M', run 8 demo_cpus (machine_init 8) M' /\ switched 8 M c m A' (if (flush : bool) then [] else cpu_tlb M c) M'.
Proof.
  intros Hr Hc Hl Hp Hg Hw E. destruct (run_check_and_switch 8 demo_cpus M c m flush A' Hc Hl Hp Hg Hw E) as (M' & Hr' & Hs).
  exists M'. split; [|done]. etrans; done.
Qed.

Lemma demo_asids_eq : check_and_switch_context 8 demo_cpus 5 0 (asids_init 8) = Ret (false, demo_asids).
Proof. vm_compute. reflexivity. Qed.

Lemma demo_one : exists M, run 8 demo_cpus (machine_init 8) M /\ switched 8 (machine_init 8) 0 5 demo_asids [] M.
Proof.
  apply (demo_switch (machine_init 8) 0 5 false); [apply rtc_refl|apply demo_in; lia|done|done|done|by vm_compute|apply demo_asids_eq].
Qed.

Lemma demo_ttbr (m : Z) : (m, asid2idx 8 (context_id demo_asids 5)) = (m, 1).
Proof. reflexivity. Qed.

Lemma demo_walked : exists M, run 8 demo_cpus (machine_init 8) M /\ cpu_ttbr M 0 = Some (5, 1) /\ (5, 1) ∈ cpu_tlb M 0.
Proof.
  destruct demo_one as (M & Hr & [Hp _ _ _ _] & _ & Ht). exists (set_tlb M 0 ((5, 1) :: cpu_tlb M 0)).
  rewrite demo_ttbr in Ht. split; [|split].
  - eapply rtc_r; [exact Hr|]. split; [apply step_walk; [apply demo_in; lia|done]|]. simpl. by rewrite Hp.
  - done.
  - simpl. rewrite fn_lookup_insert. by left.
Qed.

Definition demo_asids2 : asids :=
  match check_and_switch_context 8 demo_cpus 6 1 demo_asids with Ret (_, A) => A | _ => asids_init 8 end.

Lemma demo_asids2_eq : check_and_switch_context 8 demo_cpus 6 1 demo_asids = Ret (false, demo_asids2).
Proof. vm_compute. reflexivity. Qed.

Lemma demo_two : exists M, run 8 demo_cpus (machine_init 8) M /\ cpu_pc M 0 = Running /\ cpu_pc M 1 = Running /\
  cpu_ttbr M 0 = Some (5, 1) /\ cpu_ttbr M 1 = Some (6, 2).
Proof.
  destruct demo_one as (M & Hr & [Hp Hl Hpc Htl Ho] & Hm & Ht). rewrite demo_ttbr in Ht.
  destruct (demo_switch M 1 6 false demo_asids2) as (M' & Hr' & [Hp' Hl' Hpc' Htl' Ho'] & Hm' & Ht'); rewrite ?Hp;
    [done|apply demo_in; lia|done|by rewrite (locals_pc _ _ 1 (Ho 1 ltac:(done)))|by vm_compute|by vm_compute|apply demo_asids2_eq|].
  - exists M'. split; [done|]. specialize (Ho' 0 ltac:(done)). split; [by rewrite (locals_pc _ _ 0 Ho')|].
    split; [done|]. split; [|by rewrite Ht'].
    pose proof (f_equal l_ttbr Ho') as E. simpl in E. by rewrite E.
Qed.

Lemma asid_tlb_safe_witness :
  (exists M, cpu_ttbr M 0 = Some (5, 1) /\ (5, 1) ∈ cpu_tlb M 0 /\ forall m', (m', 1) ∈ cpu_tlb M 0 -> m' = 5) /\
  (exists M, cpu_ttbr M 0 = Some (5, 1) /\ cpu_ttbr M 1 = Some (6, 2) /\ (1 = 2 <-> 5 = 6)) /\
  (exists r, cpu_step 8 demo_cpus 0 (machine_init 8) = Ret r).
Proof.
  split; [|split].
  - destruct demo_walked as (M & Hr & Ht & Hin). exists M. split; [exact Ht|]. split; [exact Hin|].
    destruct (asid_tlb_safe 8 demo_cpus demo_bits demo_few demo_nodup M 0 Hr (demo_in 0 (or_introl eq_refl))) as [H _].
    exact (proj1 (H 5 1 Ht)).
  - destruct demo_two as (M & Hr & Hp0 & Hp1 & H0 & H1). exists M. split; [exact H0|]. split; [exact H1|].
    destruct (asid_tlb_safe 8 demo_cpus demo_bits demo_few demo_nodup M 0 Hr (demo_in 0 (or_introl eq_refl))) as [H _].
    exact (proj2 (proj2 (proj2 (H 5 1 H0) Hp0 1 6 2 (demo_in 1 (or_intror eq_refl)) Hp1 H1))).
  - destruct (asid_tlb_safe 8 demo_cpus demo_bits demo_few demo_nodup (machine_init 8) 0 (rtc_refl _ _)
      (demo_in 0 (or_introl eq_refl))) as [_ H].
    destruct (H ltac:(vm_compute; discriminate)) as (r & E & _). exists r. exact E.
Defined.


Lemma check_and_switch_context_spec_witness :
  returns (check_and_switch_context 8 demo_cpus 5 0 (asids_init 8)) (fun '(flush, A') =>
    exists M', run 8 demo_cpus (machine_init 8) M' /\
      switched 8 (machine_init 8) 0 5 A' (if (flush : bool) then [] else []) M').
Proof.
  exact (check_and_switch_context_spec 8 demo_cpus demo_bits demo_few demo_nodup (machine_init 8) 0 5 (rtc_refl _ _)
    (demo_in 0 (or_introl eq_refl)) eq_refl eq_refl ltac:(vm_compute; discriminate) ltac:(vm_compute; discriminate)).
Defined.
