(* ===== verification/Mmu.v ===== *)
(** * Kernel page tables

    The mapping functions of arch/arm64/mm/mmu.c for 4K pages and 48-bit
    addresses (four levels), over a memory of 64-bit words at physical addresses.
    A pointer to a descriptor is its physical address: the fixmap slots and the
    linear map through which the code reaches a table are not modelled, nor are the
    barriers and the TLB.  The allocator of table pages is a parameter. *)

From stdpp Require Import base numbers list option gmap.
From Stdlib Require Import ZArith Lia.
From S2P Require Import Prelude.

(** ** Descriptors *)

Definition PTE_VALID : Z := 1.
Definition PTE_TABLE_BIT : Z := 2.
Definition PMD_TABLE_BIT : Z := 2.
Definition PUD_TABLE_BIT : Z := 2.
Definition PMD_TYPE_MASK : Z := 3.
Definition PUD_TYPE_MASK : Z := 3.
Definition PMD_TYPE_TABLE : Z := 3.
Definition PUD_TYPE_TABLE : Z := 3.
Definition PMD_TYPE_SECT : Z := 1.
Definition PUD_TYPE_SECT : Z := 1.
Definition PTE_TYPE_PAGE : Z := 3.
Definition PTE_RDONLY : Z := Z.shiftl 1 7.
Definition PTE_SHARED : Z := Z.shiftl 3 8.
Definition PTE_AF : Z := Z.shiftl 1 10.
Definition PTE_NG : Z := Z.shiftl 1 11.
Definition PTE_DBM : Z := Z.shiftl 1 51.
Definition PTE_WRITE : Z := PTE_DBM.
Definition PTE_CONT : Z := Z.shiftl 1 52.
Definition PTE_PXN : Z := Z.shiftl 1 53.
Definition PTE_UXN : Z := Z.shiftl 1 54.
Definition PTE_DIRTY : Z := Z.shiftl 1 55.
Definition PTE_ADDR_MASK : Z := Z.shiftl (Z.shiftl 1 (48 - PAGE_SHIFT) - 1) PAGE_SHIFT.

Definition PMD_SHIFT : Z := (PAGE_SHIFT - 3) * (4 - 2) + 3.
Definition PUD_SHIFT : Z := (PAGE_SHIFT - 3) * (4 - 1) + 3.
Definition PGDIR_SHIFT : Z := (PAGE_SHIFT - 3) * (4 - 0) + 3.
Definition PMD_SIZE : Z := Z.shiftl 1 PMD_SHIFT.
Definition PUD_SIZE : Z := Z.shiftl 1 PUD_SHIFT.
Definition PGDIR_SIZE : Z := Z.shiftl 1 PGDIR_SHIFT.
Definition CONT_PTE_SIZE : Z := Z.shiftl 1 4 * PAGE_SIZE.
Definition CONT_PMD_SIZE : Z := Z.shiftl 1 4 * PMD_SIZE.
Definition PTRS_PER_PTE : Z := Z.shiftl 1 (PAGE_SHIFT - 3).
Definition PTRS_PER_PGD : Z := Z.shiftl 1 (48 - PGDIR_SHIFT).

Definition inv64 (w : Z) : Z := ULLONG_MAX - w.      (* ~w *)

Definition pgd_none (pgd : Z) : bool := pgd =? 0.
Definition pgd_bad (pgd : Z) : bool := Z.land pgd 2 =? 0.
Definition pud_none (pud : Z) : bool := pud =? 0.
Definition pud_bad (pud : Z) : bool := Z.land pud PUD_TABLE_BIT =? 0.
Definition pud_sect (pud : Z) : bool := Z.land pud PUD_TYPE_MASK =? PUD_TYPE_SECT.
Definition pmd_none (pmd : Z) : bool := pmd =? 0.
Definition pmd_bad (pmd : Z) : bool := Z.land pmd PMD_TABLE_BIT =? 0.
Definition pmd_sect (pmd : Z) : bool := Z.land pmd PMD_TYPE_MASK =? PMD_TYPE_SECT.
Definition pte_none (pte : Z) : bool := pte =? 0.

Definition __pte_to_phys (pte : Z) : Z := Z.land pte PTE_ADDR_MASK.
Definition pte_pfn (pte : Z) : Z := Z.shiftr (__pte_to_phys pte) PAGE_SHIFT.
Definition pmd_pfn (pmd : Z) : Z := Z.shiftr (Z.land (__pte_to_phys pmd) (inv64 (PMD_SIZE - 1))) PAGE_SHIFT.
Definition pud_pfn (pud : Z) : Z := Z.shiftr (Z.land (__pte_to_phys pud) (inv64 (PUD_SIZE - 1))) PAGE_SHIFT.
Definition pfn_pte (pfn prot : Z) : Z := Z.lor (u64 (Z.shiftl pfn PAGE_SHIFT)) prot.
Definition __phys_to_pfn (phys : Z) : Z := Z.shiftr phys PAGE_SHIFT.
Definition mk_sect_prot (prot : Z) : Z := Z.land prot (inv64 PTE_TABLE_BIT).

Definition pte_index (addr : Z) : Z := Z.land (Z.shiftr addr PAGE_SHIFT) (PTRS_PER_PTE - 1).
Definition pmd_index (addr : Z) : Z := Z.land (Z.shiftr addr PMD_SHIFT) (PTRS_PER_PTE - 1).
Definition pud_index (addr : Z) : Z := Z.land (Z.shiftr addr PUD_SHIFT) (PTRS_PER_PTE - 1).
Definition pgd_index (addr : Z) : Z := Z.land (Z.shiftr addr PGDIR_SHIFT) (PTRS_PER_PGD - 1).
Definition pgd_offset_raw (pgd addr : Z) : Z := pgd + pgd_index addr * 8.

Definition MT_NORMAL : Z := 4.
Definition PTE_ATTRINDX (t : Z) : Z := Z.shiftl t 2.
Definition PROT_DEFAULT : Z := Z.lor (Z.lor PTE_TYPE_PAGE PTE_AF) PTE_SHARED.
Definition PROT_NORMAL : Z :=
  Z.lor (Z.lor (Z.lor (Z.lor (Z.lor PROT_DEFAULT PTE_PXN) PTE_UXN) PTE_DIRTY) PTE_WRITE) (PTE_ATTRINDX MT_NORMAL).
Definition PAGE_KERNEL : Z := PROT_NORMAL.
Definition PAGE_KERNEL_RO : Z := Z.lor (Z.land PROT_NORMAL (inv64 PTE_WRITE)) PTE_RDONLY.
Definition PAGE_KERNEL_ROX : Z := Z.lor (Z.land PROT_NORMAL (inv64 (Z.lor PTE_WRITE PTE_PXN))) PTE_RDONLY.
Definition PAGE_KERNEL_EXEC : Z := Z.land PROT_NORMAL (inv64 PTE_PXN).

(** [p?d_addr_end] and the [cont] variants: the end of the slot of [addr], or [end_]. *)
Definition addr_end (size addr end_ : Z) : Z :=
  let __boundary := Z.land (u64 (addr + size)) (inv64 (size - 1)) in
  if u64 (__boundary - 1) <? u64 (end_ - 1) then __boundary else end_.
Definition pgd_addr_end := addr_end PGDIR_SIZE.
Definition pud_addr_end := addr_end PUD_SIZE.
Definition pmd_addr_end := addr_end PMD_SIZE.
Definition pte_cont_addr_end := addr_end CONT_PTE_SIZE.
Definition pmd_cont_addr_end := addr_end CONT_PMD_SIZE.

Definition NO_BLOCK_MAPPINGS : Z := 1.
Definition NO_CONT_MAPPINGS : Z := 2.

Definition pgattr_change_is_safe (old new : Z) : bool :=
  let mask := Z.lor (Z.lor (Z.lor PTE_PXN PTE_RDONLY) PTE_WRITE) PTE_NG in
  if (old =? 0) || (new =? 0) then true
  else if negb (Z.land (Z.lor old new) PTE_CONT =? 0) then false
  else if negb (Z.land (Z.land old (inv64 new)) PTE_NG =? 0) then false
  else Z.land (Z.lxor old new) (inv64 mask) =? 0.

(** [((addr | next | phys) & ~MASK) == 0]. *)
Definition aligned3 (size addr next phys : Z) : bool := Z.land (Z.lor (Z.lor addr next) phys) (size - 1) =? 0.
Definition use_1G_block (addr next phys : Z) : bool :=
  if negb (PAGE_SHIFT =? 12) then false else aligned3 PUD_SIZE addr next phys.

(** ** Memory *)

Abbreviation mem := (gmap Z Z).
Definition ld (m : mem) (p : Z) : outcome Z := match m !! p with Some w => Ret w | None => Fault end.
Definition st (m : mem) (p v : Z) : outcome mem := match m !! p with Some _ => Ret (<[p := v]> m) | None => Fault end.

Definition pte_offset_phys (m : mem) (dir addr : Z) : outcome Z :=
  pmd ← ld m dir; Ret (__pte_to_phys pmd + pte_index addr * 8).
Definition pmd_offset_phys (m : mem) (dir addr : Z) : outcome Z :=
  pud ← ld m dir; Ret (__pte_to_phys pud + pmd_index addr * 8).
Definition pud_offset_phys (m : mem) (dir addr : Z) : outcome Z :=
  pgd ← ld m dir; Ret (__pte_to_phys pgd + pud_index addr * 8).

(** [memset] of a page to zero. *)
Fixpoint clear_words (m : mem) (p : Z) (n : nat) : mem :=
  match n with
  | O => m
  | S n => <[p + 8 * Z.of_nat n := 0]> (clear_words m p n)
  end.
Definition clear_page (m : mem) (p : Z) : mem := clear_words m p 512.
Arguments clear_page m p : simpl never.

(** ** Mapping *)

Section mapping.
(** The allocator of table pages and its state; [None] is a null pointer. *)
Context {A : Type}.
Abbreviation state := (A * mem)%type.
Context (pgtable_alloc : option (state -> outcome (Z * state))).

Definition alloc_table (s : state) : outcome (Z * state) :=
  match pgtable_alloc with None => Bug | Some f => f s end.
Definition put (s : state) (p v : Z) : outcome state := m ← st s.2 p v; Ret (s.1, m).

Definition init_pte_turn (end_ prot : Z) (x : state * Z * Z * Z) : outcome (state * Z * Z * Z + state) :=
  let '(s, ptep, addr, phys) := x in
  old_pte ← ld s.2 ptep;
  s ← put s ptep (pfn_pte (__phys_to_pfn phys) prot);
  new_pte ← ld s.2 ptep;
  _ ← BUG_ON (negb (pgattr_change_is_safe old_pte new_pte));
  let phys := u64 (phys + PAGE_SIZE) in
  let addr := u64 (addr + PAGE_SIZE) in
  if negb (addr =? end_) then Ret (inl (s, ptep + 8, addr, phys)) else Ret (inr s).
Definition init_pte (s : state) (pmdp addr end_ phys prot : Z) : outcome state :=
  ptep ← pte_offset_phys s.2 pmdp addr;
  loop (Z.to_nat (u64 (end_ - addr) / PAGE_SIZE) + 1) (init_pte_turn end_ prot) (s, ptep, addr, phys).

Definition cont_pte_turn (pmdp end_ prot flags : Z) (x : state * Z * Z) : outcome (state * Z * Z + state) :=
  let '(s, addr, phys) := x in
  let next := pte_cont_addr_end addr end_ in
  let __prot := if aligned3 CONT_PTE_SIZE addr next phys && (Z.land flags NO_CONT_MAPPINGS =? 0)
                then Z.lor prot PTE_CONT else prot in
  s ← init_pte s pmdp addr next phys __prot;
  let phys := u64 (phys + u64 (next - addr)) in
  if negb (next =? end_) then Ret (inl (s, next, phys)) else Ret (inr s).
Definition alloc_init_cont_pte (s : state) (pmdp addr end_ phys prot flags : Z) : outcome state :=
  pmd ← ld s.2 pmdp;
  _ ← BUG_ON (pmd_sect pmd);
  '(s, pmd) ←
    (if pmd_none pmd then
       '(pte_phys, s) ← alloc_table s;
       s ← put s pmdp (Z.lor pte_phys PMD_TYPE_TABLE);
       pmd ← ld s.2 pmdp; Ret (s, pmd)
     else Ret (s, pmd));
  _ ← BUG_ON (pmd_bad pmd);
  loop (Z.to_nat (u64 (end_ - addr) / CONT_PTE_SIZE) + 2) (cont_pte_turn pmdp end_ prot flags) (s, addr, phys).

(** The block is not put down, and 0 returned, when the entry may not change so. *)
Definition pmd_set_huge (s : state) (pmdp phys prot : Z) : outcome (Z * state) :=
  let new_pmd := pfn_pte (__phys_to_pfn phys) (Z.lor PMD_TYPE_SECT (mk_sect_prot prot)) in
  pmd ← ld s.2 pmdp;
  if negb (pgattr_change_is_safe pmd new_pmd) then Ret (0, s)
  else
    _ ← BUG_ON (negb (Z.land phys (PMD_SIZE - 1) =? 0));
    s ← put s pmdp new_pmd; Ret (1, s).
Definition pud_set_huge (s : state) (pudp phys prot : Z) : outcome (Z * state) :=
  let new_pud := pfn_pte (__phys_to_pfn phys) (Z.lor PUD_TYPE_SECT (mk_sect_prot prot)) in
  pud ← ld s.2 pudp;
  if negb (pgattr_change_is_safe pud new_pud) then Ret (0, s)
  else
    _ ← BUG_ON (negb (Z.land phys (PUD_SIZE - 1) =? 0));
    s ← put s pudp new_pud; Ret (1, s).

Definition init_pmd_turn (end_ prot flags : Z) (x : state * Z * Z * Z) : outcome (state * Z * Z * Z + state) :=
  let '(s, pmdp, addr, phys) := x in
  old_pmd ← ld s.2 pmdp;
  let next := pmd_addr_end addr end_ in
  s ← (if aligned3 PMD_SIZE addr next phys && (Z.land flags NO_BLOCK_MAPPINGS =? 0) then
         '(_, s) ← pmd_set_huge s pmdp phys prot;
         new_pmd ← ld s.2 pmdp;
         _ ← BUG_ON (negb (pgattr_change_is_safe old_pmd new_pmd)); Ret s
       else
         s ← alloc_init_cont_pte s pmdp addr next phys prot flags;
         new_pmd ← ld s.2 pmdp;
         _ ← BUG_ON (negb (old_pmd =? 0) && negb (old_pmd =? new_pmd)); Ret s);
  let phys := u64 (phys + u64 (next - addr)) in
  if negb (next =? end_) then Ret (inl (s, pmdp + 8, next, phys)) else Ret (inr s).
Definition init_pmd (s : state) (pudp addr end_ phys prot flags : Z) : outcome state :=
  pmdp ← pmd_offset_phys s.2 pudp addr;
  loop (Z.to_nat (u64 (end_ - addr) / PMD_SIZE) + 2) (init_pmd_turn end_ prot flags) (s, pmdp, addr, phys).

Definition cont_pmd_turn (pudp end_ prot flags : Z) (x : state * Z * Z) : outcome (state * Z * Z + state) :=
  let '(s, addr, phys) := x in
  let next := pmd_cont_addr_end addr end_ in
  let __prot := if aligned3 CONT_PMD_SIZE addr next phys && (Z.land flags NO_CONT_MAPPINGS =? 0)
                then Z.lor prot PTE_CONT else prot in
  s ← init_pmd s pudp addr next phys __prot flags;
  let phys := u64 (phys + u64 (next - addr)) in
  if negb (next =? end_) then Ret (inl (s, next, phys)) else Ret (inr s).
Definition alloc_init_cont_pmd (s : state) (pudp addr end_ phys prot flags : Z) : outcome state :=
  pud ← ld s.2 pudp;
  _ ← BUG_ON (pud_sect pud);
  '(s, pud) ←
    (if pud_none pud then
       '(pmd_phys, s) ← alloc_table s;
       s ← put s pudp (Z.lor pmd_phys PUD_TYPE_TABLE);
       pud ← ld s.2 pudp; Ret (s, pud)
     else Ret (s, pud));
  _ ← BUG_ON (pud_bad pud);
  loop (Z.to_nat (u64 (end_ - addr) / CONT_PMD_SIZE) + 2) (cont_pmd_turn pudp end_ prot flags) (s, addr, phys).

Definition alloc_init_pud_turn (end_ prot flags : Z) (x : state * Z * Z * Z) : outcome (state * Z * Z * Z + state) :=
  let '(s, pudp, addr, phys) := x in
  old_pud ← ld s.2 pudp;
  let next := pud_addr_end addr end_ in
  s ← (if use_1G_block addr next phys && (Z.land flags NO_BLOCK_MAPPINGS =? 0) then
         '(_, s) ← pud_set_huge s pudp phys prot;
         new_pud ← ld s.2 pudp;
         _ ← BUG_ON (negb (pgattr_change_is_safe old_pud new_pud)); Ret s
       else
         s ← alloc_init_cont_pmd s pudp addr next phys prot flags;
         new_pud ← ld s.2 pudp;
         _ ← BUG_ON (negb (old_pud =? 0) && negb (old_pud =? new_pud)); Ret s);
  let phys := u64 (phys + u64 (next - addr)) in
  if negb (next =? end_) then Ret (inl (s, pudp + 8, next, phys)) else Ret (inr s).
Definition alloc_init_pud (s : state) (pgdp addr end_ phys prot flags : Z) : outcome state :=
  pgd ← ld s.2 pgdp;
  '(s, pgd) ←
    (if pgd_none pgd then
       '(pud_phys, s) ← alloc_table s;
       s ← put s pgdp (Z.lor pud_phys PUD_TYPE_TABLE);
       pgd ← ld s.2 pgdp; Ret (s, pgd)
     else Ret (s, pgd));
  _ ← BUG_ON (pgd_bad pgd);
  pudp ← pud_offset_phys s.2 pgdp addr;
  loop (Z.to_nat (u64 (end_ - addr) / PUD_SIZE) + 2) (alloc_init_pud_turn end_ prot flags) (s, pudp, addr, phys).

Definition pgd_turn (end_ prot flags : Z) (x : state * Z * Z * Z) : outcome (state * Z * Z * Z + state) :=
  let '(s, pgdp, addr, phys) := x in
  let next := pgd_addr_end addr end_ in
  s ← alloc_init_pud s pgdp addr next phys prot flags;
  let phys := u64 (phys + u64 (next - addr)) in
  if negb (next =? end_) then Ret (inl (s, pgdp + 8, next, phys)) else Ret (inr s).
Definition __create_pgd_mapping (s : state) (pgdir phys virt size prot flags : Z) : outcome state :=
  let pgdp := pgd_offset_raw pgdir virt in
  if negb (Z.land (Z.lxor phys virt) (PAGE_SIZE - 1) =? 0) then Ret s
  else
    let phys := Z.land phys (inv64 (PAGE_SIZE - 1)) in
    let addr := Z.land virt (inv64 (PAGE_SIZE - 1)) in
    let length := Z.land (u64 (u64 (size + Z.land virt (PAGE_SIZE - 1)) + (PAGE_SIZE - 1))) (inv64 (PAGE_SIZE - 1)) in
    let end_ := u64 (addr + length) in
    loop (Z.to_nat (u64 (end_ - addr) / PGDIR_SIZE) + 2) (pgd_turn end_ prot flags) (s, pgdp, addr, phys).
End mapping.
