(* ===== verification/MmuTables.v ===== *)
(** * Page tables as a tree

    The table of each level that the translation of an address goes through, the
    descriptor at which it ends, and what writing one descriptor changes. *)
From stdpp Require Import base numbers list option gmap.
From Stdlib Require Import ZArith Lia.
From S2P Require Import Prelude Mmu.

(** ** Positions *)

(** Level 0 is the pgd, level 3 the pte; a descriptor of level [l] covers
    2^shift l bytes and a table of level [l] 2^(shift l + 9). *)
Definition shift (l : nat) : Z := 39 - 9 * Z.of_nat l.
Definition slot_of (l : nat) (va : Z) : Z := va / 2 ^ shift l.
Definition pos (l : nat) (va : Z) : Z := va / 2 ^ (shift l + 9).
Definition idx (l : nat) (va : Z) : Z := slot_of l va mod 512.

Lemma shift_S l : shift (S l) + 9 = shift l.
Proof. unfold shift. lia. Qed.

Lemma pos_S l va : pos (S l) va = slot_of l va.
Proof. unfold pos, slot_of. by rewrite shift_S. Qed.

Lemma idx_bound l va : 0 <= idx l va < 512.
Proof. apply Z.mod_pos_bound. lia. Qed.

Lemma pow_pos n : 0 <= n -> 0 < 2 ^ n.
Proof. intros. by apply Z.pow_pos_nonneg. Qed.

Lemma pos_slot l va : (l <= 3)%nat -> pos l va = slot_of l va / 512.
Proof.
  intros Hl. unfold pos, slot_of, shift. pose proof (pow_pos (39 - 9 * Z.of_nat l) ltac:(lia)).
  rewrite Z.pow_add_r, <- Z.div_div by lia. done.
Qed.

Lemma slot_split l va : (l <= 3)%nat -> slot_of l va = 512 * pos l va + idx l va.
Proof. intros Hl. rewrite pos_slot by done. unfold idx. pose proof (Z.div_mod (slot_of l va) 512). lia. Qed.

Lemma slot_coarser l k va va' : (k <= l)%nat -> (l <= 3)%nat -> slot_of l va = slot_of l va' -> slot_of k va = slot_of k va'.
Proof.
  intros Hk Hl. induction Hk as [|l Hk IH]; [done|]. intros E. apply IH; [lia|].
  rewrite <- !pos_S, !pos_slot by lia. by rewrite E.
Qed.

Lemma pos_coarser l k va va' : (k < l)%nat -> (l <= 3)%nat -> pos l va = pos l va' -> slot_of k va = slot_of k va'.
Proof. intros Hk Hl. destruct l as [|l]; [lia|]. rewrite !pos_S. apply slot_coarser; lia. Qed.

Lemma pos_of_slot l va va' : (l <= 3)%nat -> slot_of l va = slot_of l va' -> pos l va = pos l va'.
Proof. intros Hl E. rewrite !pos_slot, E by done. done. Qed.

(** ** Descriptors and tables *)

Definition is_table (l : nat) (d : Z) : bool := (l <? 3)%nat && (Z.land d 3 =? 3).
Definition next_table (d : Z) : Z := __pte_to_phys d.

Definition page (p : Z) : Prop := 0 <= p < 2 ^ 48 /\ p mod 4096 = 0.
#[export] Instance page_dec p : Decision (page p).
Proof. unfold page. apply _. Defined.

Lemma entry_inj p q i j : page p -> page q -> 0 <= i < 512 -> 0 <= j < 512 -> p + 8 * i = q + 8 * j -> p = q /\ i = j.
Proof.
  intros [Hp Mp] [Hq Mq] Hi Hj E. pose proof (Z.div_mod p 4096 ltac:(lia)). pose proof (Z.div_mod q 4096 ltac:(lia)). lia.
Qed.

Section tables.
Context (root hi : Z).

(** The addresses considered: one half of the address space. *)
Definition inhi (va : Z) : Prop := va / 2 ^ 48 = hi.

Lemma pos_0 va va' : inhi va -> inhi va' -> pos 0 va = pos 0 va'.
Proof. unfold inhi, pos, shift. change (39 - 9 * Z.of_nat 0 + 9) with 48. congruence. Qed.

(** The table of level [l] for [va]. *)
Fixpoint tab (m : mem) (l : nat) (va : Z) : option Z :=
  match l with
  | O => Some root
  | S k => p ← tab m k va; d ← m !! (p + 8 * idx k va); if is_table k d then Some (next_table d) else None
  end.
Definition slot (m : mem) (l : nat) (va : Z) : option Z := p ← tab m l va; m !! (p + 8 * idx l va).

(** The walk for [va] ends with the descriptor [d] of level [l]. *)
Definition term (m : mem) (va : Z) (l : nat) (d : Z) : Prop := (l <= 3)%nat /\ slot m l va = Some d /\ is_table l d = false.

Record wf (m : mem) : Prop := {
  wf_page l va p : (l <= 3)%nat -> inhi va -> tab m l va = Some p ->
    page p /\ forall i, 0 <= i < 512 -> is_Some (m !! (p + 8 * i));
  wf_inj l l' va va' p : (l <= 3)%nat -> (l' <= 3)%nat -> inhi va -> inhi va' -> tab m l va = Some p -> tab m l' va' = Some p ->
    l = l' /\ pos l va = pos l' va' }.

Lemma tab_S m l va : tab m (S l) va = d ← slot m l va; if is_table l d then Some (next_table d) else None.
Proof. simpl. unfold slot. by destruct (tab m l va). Qed.

Lemma tab_S_inv m l va p : tab m (S l) va = Some p -> exists d, slot m l va = Some d /\ is_table l d = true /\ p = next_table d.
Proof.
  rewrite tab_S. destruct (slot m l va) as [d|]; simpl; [|done]. destruct (is_table l d) eqn:E; [|done].
  intros [= <-]. by exists d.
Qed.

Lemma tab_down m l k va p : tab m l va = Some p -> (k <= l)%nat -> exists q, tab m k va = Some q.
Proof.
  intros Ht Hk. revert p Ht. induction Hk as [|l Hk IH]; intros p Ht; [eauto|].
  apply tab_S_inv in Ht as (d & Hs & _). unfold slot in Hs. destruct (tab m l va) as [q|] eqn:E; [|done]. by apply (IH q).
Qed.

Lemma slot_tab m l va d : slot m l va = Some d -> exists p, tab m l va = Some p /\ m !! (p + 8 * idx l va) = Some d.
Proof. unfold slot. destruct (tab m l va) as [p|]; [|done]. intros E. by exists p. Qed.

Lemma idx_slot l va va' : slot_of l va = slot_of l va' -> idx l va = idx l va'.
Proof. unfold idx. by intros ->. Qed.

Lemma tab_same m l va va' : (l <= 3)%nat -> inhi va -> inhi va' -> pos l va = pos l va' -> tab m l va = tab m l va'.
Proof.
  intros Hl H1 H2. induction l as [|l IH]; [done|]. rewrite !pos_S. intros E. simpl.
  rewrite IH by (lia || by apply pos_of_slot; [lia|]). by rewrite (idx_slot l va va').
Qed.

Lemma slot_same m l va va' : (l <= 3)%nat -> inhi va -> inhi va' -> slot_of l va = slot_of l va' -> slot m l va = slot m l va'.
Proof.
  intros Hl H1 H2 E. unfold slot. rewrite (tab_same m l va va'), (idx_slot l va va') by (done || by apply pos_of_slot). done.
Qed.

Lemma term_same m va va' l d : inhi va -> inhi va' -> slot_of l va = slot_of l va' -> term m va l d -> term m va' l d.
Proof. intros H1 H2 E (Hl & Hs & Ht). split; [done|]. by rewrite (slot_same m l va' va). Qed.

Lemma term_no_tab m va l d k : term m va l d -> (l < k)%nat -> tab m k va = None.
Proof.
  intros (_ & Hs & Ht) Hk. destruct (tab m k va) as [p|] eqn:E; [|done].
  destruct (tab_down m k (S l) va p E Hk) as [q Hq]. apply tab_S_inv in Hq as (d' & Hs' & Ht' & _). congruence.
Qed.

Lemma term_unique m va l l' d d' : term m va l d -> term m va l' d' -> l = l' /\ d = d'.
Proof.
  intros H H'. assert (Hle : forall l l' d d', term m va l d -> term m va l' d' -> (l < l')%nat -> False).
  { intros k k' e e' Hk (_ & Hs & _) Hlt. apply slot_tab in Hs as (p & Hp & _). by rewrite (term_no_tab m va k e k' Hk Hlt) in Hp. }
  destruct (lt_eq_lt_dec l l') as [[Hlt|E]|Hlt]; [by destruct (Hle _ _ _ _ H H' Hlt)|subst l'|by destruct (Hle _ _ _ _ H' H Hlt)].
  split; [done|]. destruct H as (_ & Hs & _), H' as (_ & Hs' & _). congruence.
Qed.

Lemma term_exists m va : wf m -> inhi va -> exists l d, term m va l d.
Proof.
  intros Hwf Hva. assert (Hs : forall k, (k <= 3)%nat -> (exists l d, term m va l d) \/ exists p, tab m k va = Some p).
  { induction k as [|k IH]; intros Hk; [right; by exists root|]. destruct IH as [?|[p Hp]]; [lia|by left|].
    destruct (wf_page m Hwf k va p ltac:(lia) Hva Hp) as [_ Hi]. destruct (Hi (idx k va) (idx_bound k va)) as [d Hd].
    assert (Es : slot m k va = Some d) by (unfold slot; by rewrite Hp).
    destruct (is_table k d) eqn:Et; [right; rewrite tab_S, Es; simpl; rewrite Et; eauto|left; exists k, d; split; [lia|done]]. }
  destruct (Hs 3%nat ltac:(lia)) as [?|[p Hp]]; [done|].
  destruct (wf_page m Hwf 3 va p ltac:(lia) Hva Hp) as [_ Hi]. destruct (Hi (idx 3 va) (idx_bound 3 va)) as [d Hd].
  exists 3%nat, d. split; [lia|]. split; [unfold slot; by rewrite Hp|done].
Qed.

(** A walk that ends at [l] goes through a table of level [l]. *)
Lemma term_tab m va l d k : term m va l d -> (k <= l)%nat -> exists p, tab m k va = Some p.
Proof. intros (_ & Hs & _) Hk. apply slot_tab in Hs as (p & Hp & _). by apply (tab_down m l k va p). Qed.

(** ** Memories that agree on the tables *)

(** Changing words outside the tables of [m] changes no walk. *)
Lemma agree_tab m m' :
  (forall l va p i, (l <= 3)%nat -> inhi va -> tab m l va = Some p -> 0 <= i < 512 -> m' !! (p + 8 * i) = m !! (p + 8 * i)) ->
  forall l va, (l <= 3)%nat -> inhi va -> tab m' l va = tab m l va.
Proof.
  intros H l va Hl Hva. induction l as [|l IH]; [done|]. simpl. rewrite IH by lia. destruct (tab m l va) as [p|] eqn:E; [|done].
  simpl. by rewrite (H l va p) by (lia || done || apply idx_bound).
Qed.

Lemma agree_slot m m' :
  (forall l va p i, (l <= 3)%nat -> inhi va -> tab m l va = Some p -> 0 <= i < 512 -> m' !! (p + 8 * i) = m !! (p + 8 * i)) ->
  forall l va, (l <= 3)%nat -> inhi va -> slot m' l va = slot m l va.
Proof.
  intros H l va Hl Hva. unfold slot. rewrite (agree_tab m m') by done. destruct (tab m l va) as [p|] eqn:E; [|done].
  simpl. by rewrite (H l va p) by (done || apply idx_bound).
Qed.

Lemma agree_wf m m' :
  (forall l va p i, (l <= 3)%nat -> inhi va -> tab m l va = Some p -> 0 <= i < 512 -> m' !! (p + 8 * i) = m !! (p + 8 * i)) ->
  wf m -> wf m'.
Proof.
  intros H [Hp Hi]. split.
  - intros l va p Hl Hva Ht. rewrite (agree_tab m m') in Ht by done. destruct (Hp l va p Hl Hva Ht) as [Hpg Hs]. split; [done|].
    intros i Hi'. rewrite (H l va p) by done. by apply Hs.
  - intros l l' va va' p Hl Hl' Hva Hva' Ht Ht'. rewrite (agree_tab m m') in Ht, Ht' by done. by apply (Hi l l' va va' p).
Qed.

(** ** Writing a descriptor *)

Section write.
Context (m : mem) (l : nat) (a p d : Z).
Context (Hwf : wf m) (Hl : (l <= 3)%nat) (Ha : inhi a) (Hp : tab m l a = Some p).

Abbreviation m' := (<[p + 8 * idx l a := d]> m).

Lemma write_other k va q i :
  (k <= 3)%nat -> inhi va -> tab m k va = Some q -> 0 <= i < 512 -> k <> l \/ pos k va <> pos l a \/ i <> idx l a ->
  m' !! (q + 8 * i) = m !! (q + 8 * i).
Proof.
  intros Hk Hva Hq Hi Hne. apply lookup_insert_ne. intros E.
  destruct (wf_page m Hwf l a p Hl Ha Hp) as [Pp _], (wf_page m Hwf k va q Hk Hva Hq) as [Pq _].
  destruct (entry_inj p q (idx l a) i Pp Pq (idx_bound l a) Hi E) as [-> Ei].
  destruct (wf_inj m Hwf l k a va q Hl Hk Ha Hva Hp Hq) as [-> Epos]. destruct Hne as [?|[?|?]]; congruence.
Qed.

Lemma write_hit va : inhi va -> slot_of l va = slot_of l a -> tab m l va = Some p /\ m' !! (p + 8 * idx l va) = Some d.
Proof.
  intros Hva E. rewrite (tab_same m l va a) by (done || by apply pos_of_slot). split; [done|].
  rewrite (idx_slot l va a) by done. by rewrite lookup_insert_eq.
Qed.

Lemma write_tab_up k va : (k <= l)%nat -> inhi va -> tab m' k va = tab m k va.
Proof.
  intros Hk Hva. induction k as [|k IH]; [done|]. simpl. rewrite IH by lia. destruct (tab m k va) as [q|] eqn:E; [|done]. simpl.
  rewrite (write_other k va q) by (lia || done || apply idx_bound). done.
Qed.

Lemma write_tab_other k va : (k <= 3)%nat -> inhi va -> slot_of l va <> slot_of l a -> tab m' k va = tab m k va.
Proof.
  intros Hk Hva Hne. induction k as [|k IH]; [done|]. simpl. rewrite IH by lia. destruct (tab m k va) as [q|] eqn:E; [|done]. simpl.
  rewrite (write_other k va q); [done|lia|done|done|apply idx_bound|].
  destruct (Nat.eq_dec k l) as [->|]; [|by left]. right.
  destruct (Z.eq_dec (pos l va) (pos l a)) as [Epos|]; [|by left]. right. intros Ei. apply Hne. rewrite !slot_split by done. congruence.
Qed.

Lemma write_slot_other k va : (k <= 3)%nat -> inhi va -> slot_of l va <> slot_of l a -> slot m' k va = slot m k va.
Proof.
  intros Hk Hva Hne. unfold slot. rewrite write_tab_other by done. destruct (tab m k va) as [q|] eqn:E; [|done]. simpl.
  apply (write_other k va q); [done..|apply idx_bound|].
  destruct (Nat.eq_dec k l) as [->|]; [|by left]. right.
  destruct (Z.eq_dec (pos l va) (pos l a)) as [Epos|]; [|by left]. right. intros Ei. apply Hne. rewrite !slot_split by done. congruence.
Qed.

Lemma write_slot_here va : inhi va -> slot_of l va = slot_of l a -> slot m' l va = Some d.
Proof. intros Hva E. unfold slot. rewrite write_tab_up by done. destruct (write_hit va Hva E) as [-> Hd]. exact Hd. Qed.

(** *** A leaf over a leaf *)

Section leaf.
Context (old : Z) (Hold : slot m l a = Some old) (Hot : is_table l old = false) (Hdt : is_table l d = false).

Lemma leaf_tab k va : (k <= 3)%nat -> inhi va -> tab m' k va = tab m k va.
Proof.
  intros Hk Hva. destruct (Z.eq_dec (slot_of l va) (slot_of l a)) as [E|Hne]; [|by apply write_tab_other].
  destruct (le_lt_dec k l) as [Hle|Hlt]; [by apply write_tab_up|].
  assert (Hn : tab m k va = None).
  { apply (term_no_tab m va l old); [|done]. split; [done|]. rewrite (slot_same m l va a) by done. done. }
  rewrite Hn. apply (term_no_tab m' va l d); [|done]. split; [done|]. by rewrite write_slot_here.
Qed.

Lemma leaf_wf : wf m'.
Proof.
  split.
  - intros k va q Hk Hva Hq. rewrite leaf_tab in Hq by done. destruct (wf_page m Hwf k va q Hk Hva Hq) as [Pq Hi]. split; [done|].
    intros i Hi'. rewrite lookup_insert_is_Some'. right. by apply Hi.
  - intros k k' va va' q Hk Hk' Hva Hva' Hq Hq'. rewrite leaf_tab in Hq, Hq' by done. by apply (wf_inj m Hwf k k' va va' q).
Qed.

Lemma leaf_term_here va : inhi va -> slot_of l va = slot_of l a -> term m' va l d.
Proof. intros Hva E. split; [done|]. by rewrite write_slot_here. Qed.

Lemma leaf_term_other va k e : inhi va -> slot_of l va <> slot_of l a -> term m va k e -> term m' va k e.
Proof. intros Hva Hne (Hk & Hs & Ht). split; [done|]. by rewrite write_slot_other. Qed.
End leaf.
End write.

(** ** A new table *)


Lemma clear_words_in m p n i : 0 <= i < Z.of_nat n -> clear_words m p n !! (p + 8 * i) = Some 0.
Proof.
  induction n as [|n IH]; intros Hi; [lia|]. simpl. destruct (Z.eq_dec i (Z.of_nat n)) as [->|].
  - by rewrite lookup_insert_eq.
  - rewrite lookup_insert_ne by lia. apply IH. lia.
Qed.

Lemma clear_words_out m p n a : (forall i, 0 <= i < Z.of_nat n -> a <> p + 8 * i) -> clear_words m p n !! a = m !! a.
Proof.
  induction n as [|n IH]; intros H; [done|]. simpl. rewrite lookup_insert_ne.
  - apply IH. intros i Hi. apply H. lia.
  - intros E. apply (H (Z.of_nat n)); lia.
Qed.

Section populate.
Context (m : mem) (l : nat) (a p q d : Z).
Context (Hwf : wf m) (Hl : (l < 3)%nat) (Ha : inhi a) (Hp : tab m l a = Some p) (H0 : slot m l a = Some 0).
Context (Hq : page q) (Hfresh : forall k va, (k <= 3)%nat -> inhi va -> tab m k va <> Some q).
Context (Hd : is_table l d = true) (Hdq : next_table d = q).

Abbreviation m1 := (clear_page m q).
Abbreviation m' := (<[p + 8 * idx l a := d]> m1).

Lemma fresh_agree k va r i : (k <= 3)%nat -> inhi va -> tab m k va = Some r -> 0 <= i < 512 -> m1 !! (r + 8 * i) = m !! (r + 8 * i).
Proof.
  intros Hk Hva Hr Hi. apply clear_words_out. intros j Hj E. destruct (wf_page m Hwf k va r Hk Hva Hr) as [Pr _].
  destruct (entry_inj r q i j Pr Hq Hi ltac:(lia) E) as [-> _]. by apply (Hfresh k va).
Qed.

Lemma m1_wf : wf m1.
Proof. apply (agree_wf m m1 fresh_agree Hwf). Qed.
Lemma m1_tab k va : (k <= 3)%nat -> inhi va -> tab m1 k va = tab m k va.
Proof. apply (agree_tab m m1 fresh_agree). Qed.
Lemma m1_slot k va : (k <= 3)%nat -> inhi va -> slot m1 k va = slot m k va.
Proof. apply (agree_slot m m1 fresh_agree). Qed.
Lemma m1_tab_a : tab m1 l a = Some p.
Proof. rewrite m1_tab by (lia || done). done. Qed.

Lemma populate_tab_up k va : (k <= l)%nat -> inhi va -> tab m' k va = tab m k va.
Proof. intros Hk Hva. rewrite (write_tab_up m1 l a p d m1_wf) by (lia || done || apply m1_tab_a). apply m1_tab; [lia|done]. Qed.
Lemma populate_tab_other k va : (k <= 3)%nat -> inhi va -> slot_of l va <> slot_of l a -> tab m' k va = tab m k va.
Proof. intros Hk Hva Hne. rewrite (write_tab_other m1 l a p d m1_wf) by (lia || done || apply m1_tab_a). by apply m1_tab. Qed.
Lemma populate_tab_here va : inhi va -> slot_of l va = slot_of l a -> tab m' (S l) va = Some q.
Proof.
  intros Hva E. rewrite tab_S. rewrite (write_slot_here m1 l a p d m1_wf) by (lia || done || apply m1_tab_a). simpl. by rewrite Hd, Hdq.
Qed.

Lemma populate_zero i : 0 <= i < 512 -> m' !! (q + 8 * i) = Some 0.
Proof.
  intros Hi. rewrite lookup_insert_ne.
  - apply clear_words_in. lia.
  - intros E. destruct (wf_page m Hwf l a p ltac:(lia) Ha Hp) as [Pp _].
    destruct (entry_inj p q (idx l a) i Pp Hq (idx_bound l a) Hi E) as [-> _]. apply (Hfresh l a); [lia|done|done].
Qed.

Lemma zero_not_table k : is_table k 0 = false.
Proof. unfold is_table. by rewrite andb_false_r. Qed.

Lemma populate_term_here va : inhi va -> slot_of l va = slot_of l a -> term m' va (S l) 0.
Proof.
  intros Hva E. split; [lia|]. split; [|apply zero_not_table]. unfold slot. rewrite populate_tab_here by done. simpl.
  apply populate_zero, idx_bound.
Qed.

Lemma populate_term_other va k e : inhi va -> slot_of l va <> slot_of l a -> term m va k e -> term m' va k e.
Proof.
  intros Hva Hne (Hk & Hs & Ht). split; [done|]. rewrite (write_slot_other m1 l a p d m1_wf) by (lia || done || apply m1_tab_a).
  by rewrite m1_slot.
Qed.

Lemma none_below va k : inhi va -> slot_of l va = slot_of l a -> (l < k)%nat -> tab m k va = None.
Proof.
  intros Hva E Hk. apply (term_no_tab m va l 0); [|done]. split; [lia|]. rewrite (slot_same m l va a) by (lia || done).
  split; [done|apply zero_not_table].
Qed.

(** The tables of the new memory: the old ones and [q]. *)
Lemma populate_tab_inv k va r : (k <= 3)%nat -> inhi va -> tab m' k va = Some r ->
  tab m k va = Some r \/ k = S l /\ slot_of l va = slot_of l a /\ r = q.
Proof.
  intros Hk Hva Hr. destruct (Z.eq_dec (slot_of l va) (slot_of l a)) as [E|Hne]; [|left; by rewrite populate_tab_other in Hr].
  destruct (le_lt_dec k l) as [Hle|Hlt]; [left; by rewrite populate_tab_up in Hr|].
  destruct (Nat.eq_dec k (S l)) as [->|Hne].
  - right. rewrite populate_tab_here in Hr by done. split; [done|]. split; [done|]. congruence.
  - rewrite (term_no_tab m' va (S l) 0 k) in Hr; [done|by apply populate_term_here|lia].
Qed.

Lemma populate_wf : wf m'.
Proof.
  split.
  - intros k va r Hk Hva Hr. destruct (populate_tab_inv k va r Hk Hva Hr) as [Hr'|(-> & E & ->)].
    + destruct (wf_page m Hwf k va r Hk Hva Hr') as [Pr Hi]. split; [done|]. intros i Hi'. rewrite lookup_insert_is_Some'. right.
      rewrite (fresh_agree k va r) by done. by apply Hi.
    + split; [done|]. intros i Hi. rewrite populate_zero by done. eauto.
  - intros k k' va va' r Hk Hk' Hva Hva' Hr Hr'.
    destruct (populate_tab_inv k va r Hk Hva Hr) as [H1|(E1 & E2 & E3)].
    + destruct (populate_tab_inv k' va' r Hk' Hva' Hr') as [H2|(_ & _ & ->)]; [by apply (wf_inj m Hwf k k' va va' r)|by destruct (Hfresh k va)].
    + destruct (populate_tab_inv k' va' r Hk' Hva' Hr') as [H2|(E1' & E2' & _)]; [subst r; by destruct (Hfresh k' va')|].
      subst k k'. split; [done|]. rewrite !pos_S. congruence.
Qed.
End populate.
End tables.

(** ** Mapping a range

    What each of the mapping functions does to the walks of the addresses of its
    range, and that it leaves the other walks alone. *)

(** ** Words *)

Lemma inv64_mask k : 0 <= k -> inv64 (2 ^ k - 1) = ULLONG_MAX - (2 ^ k - 1).
Proof. done. Qed.

Lemma pow2_shiftl k : 0 <= k -> Z.shiftl 1 k = 2 ^ k.
Proof. intros. by rewrite Z.shiftl_1_l. Qed.

Lemma land_low x k : 0 <= k -> Z.land x (2 ^ k - 1) = x mod 2 ^ k.
Proof. intros Hk. replace (2 ^ k - 1) with (Z.ones k) by (rewrite Z.ones_equiv; lia). by apply Z.land_ones. Qed.

Lemma sub_ones k : 2 ^ k - 1 = Z.ones k.
Proof. rewrite Z.ones_equiv. lia. Qed.

Lemma mod_0_bits x k j : 0 <= j < k -> x mod 2 ^ k = 0 -> Z.testbit x j = false.
Proof. intros Hj Hm. rewrite <- (Z.mod_pow2_bits_low x k) by lia. rewrite Hm. apply Z.bits_0. Qed.

Lemma addr_mask_bits j : 0 <= j -> Z.testbit PTE_ADDR_MASK j = (12 <=? j) && (j <? 48).
Proof.
  intros Hj. change PTE_ADDR_MASK with (Z.shiftl (Z.ones 36) 12). destruct (Z.leb_spec 12 j); simpl.
  - rewrite Z.shiftl_spec, Z.testbit_ones_nonneg by lia. destruct (Z.ltb_spec (j - 12) 36), (Z.ltb_spec j 48); lia || done.
  - rewrite Z.shiftl_spec by lia. apply Z.testbit_neg_r. lia.
Qed.

Lemma page_mask p : page p -> Z.land p PTE_ADDR_MASK = p.
Proof.
  intros [Hp Hm]. apply Z.bits_inj'. intros j Hj. rewrite Z.land_spec, addr_mask_bits by done.
  destruct (Z.leb_spec 12 j); simpl.
  - destruct (Z.ltb_spec j 48); [apply andb_true_r|]. by rewrite (testbit_above p 48 j) by lia.
  - rewrite (mod_0_bits p 12 j) by (lia || done). done.
Qed.

Lemma page_lor_mask p b : page p -> Z.land b PTE_ADDR_MASK = 0 -> Z.land (Z.lor p b) PTE_ADDR_MASK = p.
Proof. intros Hp Hb. by rewrite Z.land_lor_distr_l, page_mask, Hb, Z.lor_0_r. Qed.

Lemma page_land_3 p : page p -> Z.land p 3 = 0.
Proof.
  intros [_ Hm]. change 3 with (2 ^ 2 - 1). rewrite land_low by lia. change (2 ^ 2) with 4.
  pose proof (Z.div_mod p 4096 ltac:(lia)). symmetry. apply Z.mod_unique with (1024 * (p / 4096)); lia.
Qed.

Lemma page_lor_3 p b : page p -> Z.land (Z.lor p b) 3 = Z.land b 3.
Proof. intros Hp. by rewrite Z.land_lor_distr_l, page_land_3, Z.lor_0_l. Qed.

(** A descriptor for a table. *)
Lemma table_desc l q : (l < 3)%nat -> page q -> is_table l (Z.lor q 3) = true /\ next_table (Z.lor q 3) = q.
Proof.
  intros Hl Hq. unfold is_table, next_table, __pte_to_phys. rewrite page_lor_3, page_lor_mask by done.
  split; [|done]. apply andb_true_iff. split; [by apply Nat.ltb_lt|done].
Qed.

Lemma pfn_pte_page phys prot : page phys -> pfn_pte (__phys_to_pfn phys) prot = Z.lor phys prot.
Proof.
  intros [Hp Hm]. unfold pfn_pte, __phys_to_pfn, PAGE_SHIFT. rewrite Z.shiftr_div_pow2, Z.shiftl_mul_pow2 by lia.
  change (2 ^ 12) with 4096. pose proof (Z.div_mod phys 4096 ltac:(lia)). rewrite u64_small by lia. f_equal. lia.
Qed.

Lemma shift_range l : (l <= 3)%nat -> 12 <= shift l <= 39.
Proof. unfold shift. lia. Qed.

Lemma index_idx l addr : (l <= 3)%nat -> Z.land (Z.shiftr addr (shift l)) 511 = idx l addr.
Proof.
  intros Hl. pose proof (shift_range l Hl). change 511 with (2 ^ 9 - 1). rewrite land_low, Z.shiftr_div_pow2 by lia. done.
Qed.

Lemma pte_index_ok addr : pte_index addr = idx 3 addr.
Proof. exact (index_idx 3 addr ltac:(lia)). Qed.
Lemma pmd_index_ok addr : pmd_index addr = idx 2 addr.
Proof. exact (index_idx 2 addr ltac:(lia)). Qed.
Lemma pud_index_ok addr : pud_index addr = idx 1 addr.
Proof. exact (index_idx 1 addr ltac:(lia)). Qed.
Lemma pgd_index_ok addr : pgd_index addr = idx 0 addr.
Proof. exact (index_idx 0 addr ltac:(lia)). Qed.

(** ** Slots *)

(** The end of the slot of [a] of 2^k bytes. *)
Definition slot_end (k a : Z) : Z := a / 2 ^ k * 2 ^ k + 2 ^ k.

Lemma slot_end_bounds k a : 0 <= k -> a < slot_end k a <= a + 2 ^ k /\ slot_end k a mod 2 ^ k = 0 /\ slot_end k a / 2 ^ k = a / 2 ^ k + 1.
Proof.
  intros Hk. unfold slot_end. pose proof (pow_pos k Hk) as Hp. pose proof (Z.div_mod a (2 ^ k) ltac:(lia)). pose proof (Z.mod_pos_bound a (2 ^ k) ltac:(lia)).
  replace (a / 2 ^ k * 2 ^ k + 2 ^ k) with ((a / 2 ^ k + 1) * 2 ^ k) by lia. rewrite Z.mod_mul, Z.div_mul by lia. lia.
Qed.

Lemma addr_end_ok k addr end_ : 0 <= k < 64 -> 0 <= addr < end_ -> end_ < 2 ^ 64 ->
  addr_end (2 ^ k) addr end_ = Z.min (slot_end k addr) end_.
Proof.
  intros Hk Ha He. unfold addr_end, inv64. rewrite land_high_mask by (lia || apply u64_range).
  destruct (slot_end_bounds k addr ltac:(lia)) as (Hb & Hm & _). set (b := slot_end k addr) in *.
  assert (E : u64 (addr + 2 ^ k) / 2 ^ k * 2 ^ k = u64 b).
  { assert (Hpk : 2 ^ 64 = 2 ^ k * 2 ^ (64 - k)) by (rewrite <- Z.pow_add_r by lia; f_equal; lia).
    pose proof (pow_pos k ltac:(lia)) as P1. pose proof (pow_pos (64 - k) ltac:(lia)) as P2.
    assert (Eb : b = (addr / 2 ^ k + 1) * 2 ^ k) by (unfold b, slot_end; lia).
    assert (Ea : addr + 2 ^ k = addr mod 2 ^ k + (addr / 2 ^ k + 1) * 2 ^ k) by (pose proof (Z.div_mod addr (2 ^ k) ltac:(lia)); lia).
    unfold u64. rewrite Hpk, Eb, Ea. set (n := addr / 2 ^ k + 1). set (r := addr mod 2 ^ k).
    assert (Hr : 0 <= r < 2 ^ k) by (apply Z.mod_pos_bound; lia).
    rewrite (Z.mul_comm n), Z.mul_mod_distr_l by lia. rewrite (Z.rem_mul_r _ (2 ^ k)) by lia.
    rewrite (Z.mul_comm (2 ^ k) n), Z.mod_add, Z.div_add, (Z.mod_small r), (Z.div_small r), Z.add_0_l by lia.
    rewrite (Z.mul_comm (2 ^ k) (n mod _)), Z.div_add, Z.div_small, Z.add_0_l by lia. lia. }
  rewrite E. destruct (Z.le_gt_cases (2 ^ 64) b) as [Hge|Hlt].
  - assert (Eb : b = 2 ^ 64).
    { unfold b, slot_end in *. assert (addr / 2 ^ k + 1 <= 2 ^ (64 - k)).
      { assert (addr / 2 ^ k < 2 ^ (64 - k)); [|lia]. apply Z.div_lt_upper_bound; [apply pow_pos; lia|].
        rewrite <- Z.pow_add_r by lia. replace (k + (64 - k)) with 64 by lia. lia. }
      assert ((addr / 2 ^ k + 1) * 2 ^ k <= 2 ^ (64 - k) * 2 ^ k) by (apply Z.mul_le_mono_nonneg_r; [apply Z.lt_le_incl, pow_pos; lia|done]).
      rewrite <- Z.pow_add_r in * by lia. replace (64 - k + k) with 64 in * by lia. lia. }
    rewrite Eb. change (u64 (u64 (2 ^ 64) - 1)) with (2 ^ 64 - 1). rewrite (proj2 (Z.ltb_ge _ _)) by (pose proof (u64_range (end_ - 1)); lia). lia.
  - rewrite (u64_small b), !u64_small by lia. destruct (Z.ltb_spec (b - 1) (end_ - 1)); lia.
Qed.

Lemma aligned3_ok k a b c : 0 <= k -> aligned3 (2 ^ k) a b c = (a mod 2 ^ k =? 0) && (b mod 2 ^ k =? 0) && (c mod 2 ^ k =? 0).
Proof.
  intros Hk. unfold aligned3. rewrite sub_ones, !Z.land_lor_distr_l, !Z.land_ones by done.
  destruct (Z.eqb_spec (a mod 2 ^ k) 0) as [->|Ha], (Z.eqb_spec (b mod 2 ^ k) 0) as [->|Hb], (Z.eqb_spec (c mod 2 ^ k) 0) as [->|Hc]; simpl; try done;
    apply Z.eqb_neq; rewrite ?Z.lor_0_l, ?Z.lor_0_r; rewrite ?Z.lor_eq_0_iff; tauto.
Qed.

Lemma phys_aligned k phys : 0 <= k -> (Z.land phys (2 ^ k - 1) =? 0) = (phys mod 2 ^ k =? 0).
Proof. intros. by rewrite land_low. Qed.

(** The number of slots of 2^k bytes that [x, y) meets. *)
Definition slots (k x y : Z) : Z := (y - 1) / 2 ^ k - x / 2 ^ k + 1.

Lemma slots_pos k x y : 0 <= k -> x < y -> 1 <= slots k x y.
Proof. intros Hk Hxy. unfold slots. pose proof (Z.div_le_mono x (y - 1) (2 ^ k) (pow_pos k Hk) ltac:(lia)). lia. Qed.

Lemma slots_split k x b y : 0 <= k -> b mod 2 ^ k = 0 -> slots k x b + slots k b y = slots k x y.
Proof.
  intros Hk Hb. unfold slots. pose proof (pow_pos k Hk). pose proof (Z.div_mod b (2 ^ k) ltac:(lia)) as D.
  assert (E : (b - 1) / 2 ^ k = b / 2 ^ k - 1) by (symmetry; apply Z.div_unique with (2 ^ k - 1); lia). lia.
Qed.

Lemma mod_finer a k k' : 0 <= k' <= k -> a mod 2 ^ k = 0 -> a mod 2 ^ k' = 0.
Proof.
  intros Hk Hm. apply Z.mod_divide in Hm as [q ->]; [|apply Z.pow_nonzero; lia].
  apply Z.mod_divide; [apply Z.pow_nonzero; lia|]. exists (q * 2 ^ (k - k')). rewrite <- Z.mul_assoc, <- Z.pow_add_r by lia.
  do 2 f_equal. lia.
Qed.

(** A loop over the slots of 2^k bytes of [x, y). *)
Lemma chunk_loop {T R} (turn : T -> outcome (T + R)) (cur : T -> Z) (J : T -> Prop) (Q : R -> Prop) k y fuel t :
  0 <= k -> J t -> 0 < fuel -> (y - 1) / 2 ^ k - cur t / 2 ^ k < fuel ->
  (forall t, J t -> cur t < y /\ returns (turn t) (fun r => match r with
     | inl t' => J t' /\ cur t' = slot_end k (cur t) | inr s => Q s end)) ->
  returns (loop (Z.to_nat fuel) turn t) Q.
Proof.
  intros Hk Hj H0 Hf Hstep.
  apply loop_returns with (I := J) (m := fun t => Z.to_nat ((y - 1) / 2 ^ k - cur t / 2 ^ k)); [done|lia|].
  intros u Hu. destruct (Hstep u Hu) as [Hlt Hr]. apply (returns_mono _ _ _ Hr). intros [u'|r] Hu'; [|done].
  destruct Hu' as [Hj' Hc]. split; [done|]. destruct (slot_end_bounds k (cur u) Hk) as (_ & _ & E).
  destruct (Hstep u' Hj') as [Hlt' _]. rewrite Hc in *. rewrite E.
  assert (slot_end k (cur u) / 2 ^ k <= (y - 1) / 2 ^ k) by (apply Z.div_le_mono; [by apply pow_pos|lia]). lia.
Qed.
