(* ===== verification/MmuStep.v ===== *)
(** * The plan of a mapping, and steps towards it

    For every address of the range the flags and the alignment decide the level
    and the descriptor of its mapping.  A step brings the walks of a part of the
    range to the plan, and keeps what was mapped elsewhere. *)
From stdpp Require Import base numbers list option gmap.
From Stdlib Require Import ZArith Lia.
From S2P Require Import Prelude Mmu MmuTables.

(** ** What an allocator of table pages promises *)

Record table_allocator (A : Type) := {
  ta_alloc : A * mem -> outcome (Z * (A * mem));
  (** The pages handed out, and the number of calls that succeed for sure. *)
  ta_taken : A -> Z -> Prop;
  ta_room : A -> nat -> Prop;
  ta_room_le a n k : (k <= n)%nat -> ta_room a n -> ta_room a k;
  ta_ok a m n : ta_room a (S n) -> returns (ta_alloc (a, m)) (fun '(q, s) =>
    page q /\ ~ ta_taken a q /\ s.2 = clear_page m q /\ ta_room s.1 n /\ forall r, ta_taken a r \/ r = q -> ta_taken s.1 r) }.
Arguments ta_alloc {A} t s : rename.
Arguments ta_taken {A} t a p : rename.
Arguments ta_room {A} t a n : rename.

(** ** The plan *)

(** The slot of 2^k bytes of [va] is inside [A0, E0) and its physical address is
    aligned too. *)
Definition fits (A0 E0 delta k va : Z) : bool :=
  let base := va / 2 ^ k * 2 ^ k in
  (A0 <=? base) && (base + 2 ^ k <=? E0) && ((base + delta) mod 2 ^ k =? 0).
Definition plan_level (A0 E0 delta flags va : Z) : nat :=
  let blocks := Z.land flags NO_BLOCK_MAPPINGS =? 0 in
  if fits A0 E0 delta 30 va && blocks then 1 else if fits A0 E0 delta 21 va && blocks then 2 else 3.
(** The contiguous hint, for runs of 16 blocks and of 16 pages. *)
Definition prot_25 (A0 E0 delta prot flags va : Z) : Z :=
  if fits A0 E0 delta 25 va && (Z.land flags NO_CONT_MAPPINGS =? 0) then Z.lor prot PTE_CONT else prot.
Definition prot_16 (A0 E0 delta prot flags va : Z) : Z :=
  if fits A0 E0 delta 16 va && (Z.land flags NO_CONT_MAPPINGS =? 0) then Z.lor (prot_25 A0 E0 delta prot flags va) PTE_CONT
  else prot_25 A0 E0 delta prot flags va.
Definition block_desc (k delta prot va : Z) : Z := Z.lor (va / 2 ^ k * 2 ^ k + delta) (Z.lor 1 (mk_sect_prot prot)).
Definition page_desc (delta prot va : Z) : Z := Z.lor (va / 2 ^ 12 * 2 ^ 12 + delta) prot.
Definition plan_desc (A0 E0 delta prot flags va : Z) : Z :=
  match plan_level A0 E0 delta flags va with
  | 1%nat => block_desc 30 delta prot va
  | 2%nat => block_desc 21 delta (prot_25 A0 E0 delta prot flags va) va
  | _ => page_desc delta (prot_16 A0 E0 delta prot flags va) va
  end.

(** Protections that describe pages. *)
Definition page_prot (prot : Z) : Prop := Z.land prot 3 = 3 /\ Z.land prot PTE_ADDR_MASK = 0.

Lemma page_prot_cont prot : page_prot prot -> page_prot (Z.lor prot PTE_CONT).
Proof. intros [H1 H2]. split; by rewrite Z.land_lor_distr_l, ?H1, ?H2. Qed.

Lemma sect_bits prot : page_prot prot -> Z.land (Z.lor 1 (mk_sect_prot prot)) 3 = 1 /\ Z.land (Z.lor 1 (mk_sect_prot prot)) PTE_ADDR_MASK = 0.
Proof.
  intros [H1 H2]. unfold mk_sect_prot. split; rewrite Z.land_lor_distr_l, <- Z.land_assoc, (Z.land_comm (inv64 _)), Z.land_assoc.
  - by rewrite H1.
  - by rewrite H2.
Qed.

(** The virtual range [A0, E0) of one half of the address space, mapped at the
    physical distance [delta]. *)
Record range_ok (hi A0 E0 delta prot : Z) : Prop := {
  ro_range : 0 <= A0 < E0 /\ E0 < 2 ^ 64;
  ro_lo : inhi hi A0;
  ro_hi : inhi hi (E0 - 1);
  ro_align : A0 mod 4096 = 0 /\ E0 mod 4096 = 0 /\ delta mod 4096 = 0;
  ro_phys : 0 <= A0 + delta /\ E0 + delta <= 2 ^ 48;
  ro_prot : page_prot prot }.

Section plan.
Context (root hi A0 E0 delta prot flags : Z).
Context (J : range_ok hi A0 E0 delta prot).

Abbreviation fit := (fits A0 E0 delta).
Abbreviation lv := (plan_level A0 E0 delta flags).
Abbreviation newd := (plan_desc A0 E0 delta prot flags).
Abbreviation p25 := (prot_25 A0 E0 delta prot flags).
Abbreviation p16 := (prot_16 A0 E0 delta prot flags).

Lemma range_inhi va : A0 <= va < E0 -> inhi hi va.
Proof. pose proof J as [Hrange Hlo Hhi Halign Hphys Hprot].
  intros Hva. unfold inhi in *. pose proof (Z.div_le_mono A0 va (2 ^ 48) ltac:(lia) ltac:(lia)).
  pose proof (Z.div_le_mono va (E0 - 1) (2 ^ 48) ltac:(lia) ltac:(lia)). lia.
Qed.

Lemma lv_range va : (1 <= lv va <= 3)%nat.
Proof. unfold plan_level. destruct (fit 30 va && _); [lia|]. destruct (fit 21 va && _); lia. Qed.

Lemma fits_mate k va va' : va / 2 ^ k = va' / 2 ^ k -> fit k va = fit k va'.
Proof. unfold fits. by intros ->. Qed.

(** Addresses of one slot that is not mapped as a whole agree on that. *)
Lemma lv_mate l va va' : (l < 3)%nat -> slot_of l va = slot_of l va' -> (l < lv va)%nat -> (l < lv va')%nat.
Proof.
  intros Hl E. assert (Hc : l = 0%nat \/ l = 1%nat \/ l = 2%nat) by lia. pose proof (lv_range va'). unfold plan_level in *.
  destruct Hc as [->|[->| ->]]; [lia|..].
  - rewrite (fits_mate 30 va va' E). destruct (fit 30 va' && _); [lia|]. destruct (fit 21 va' && _); lia.
  - rewrite (fits_mate 21 va va' E), (fits_mate 30 va va'); [done|].
    exact (slot_coarser 2 1 va va' ltac:(lia) ltac:(lia) E).
Qed.

Lemma p25_prot va : page_prot (p25 va).
Proof. pose proof J as [Hrange Hlo Hhi Halign Hphys Hprot]. unfold prot_25. destruct (fit 25 va && _); [by apply page_prot_cont|done]. Qed.
Lemma p16_prot va : page_prot (p16 va).
Proof. unfold prot_16. destruct (fit 16 va && _); [apply page_prot_cont|]; apply p25_prot. Qed.

Lemma base_page k va : 12 <= k <= 39 -> A0 <= va / 2 ^ k * 2 ^ k < E0 -> (va / 2 ^ k * 2 ^ k) mod 4096 = 0 ->
  page (va / 2 ^ k * 2 ^ k + delta).
Proof. pose proof J as [Hrange Hlo Hhi Halign Hphys Hprot].
  intros Hk Hb Hm. set (b := va / 2 ^ k * 2 ^ k) in *. destruct Halign as (H1 & H2 & H3). split; [lia|].
  rewrite Z.add_mod, Hm, H3 by lia. done.
Qed.

Lemma base_low k va : 12 <= k -> (va / 2 ^ k * 2 ^ k) mod 4096 = 0.
Proof. intros Hk. change 4096 with (2 ^ 12). apply mod_finer with k; [lia|]. apply Z.mod_mul, Z.pow_nonzero; lia. Qed.

Lemma page_base va : A0 <= va < E0 -> A0 <= va / 2 ^ 12 * 2 ^ 12 /\ va / 2 ^ 12 * 2 ^ 12 + 4096 <= E0.
Proof. pose proof J as [Hrange Hlo Hhi Halign Hphys Hprot].
  intros Hva. destruct Halign as (H1 & H2 & _). change (2 ^ 12) with 4096.
  pose proof (Z.div_mod va 4096 ltac:(lia)). pose proof (Z.mod_pos_bound va 4096 ltac:(lia)).
  pose proof (Z.div_mod A0 4096 ltac:(lia)). pose proof (Z.div_mod E0 4096 ltac:(lia)). lia.
Qed.

Lemma fits_base k va : fit k va = true -> A0 <= va / 2 ^ k * 2 ^ k /\ va / 2 ^ k * 2 ^ k + 2 ^ k <= E0 /\ (va / 2 ^ k * 2 ^ k + delta) mod 2 ^ k = 0.
Proof.
  unfold fits. intros [[H1%Z.leb_le H2%Z.leb_le]%andb_true_iff H3%Z.eqb_eq]%andb_true_iff. done.
Qed.

(** The planned descriptor is a leaf and not zero. *)
Lemma newd_leaf va : A0 <= va < E0 -> is_table (lv va) (newd va) = false /\ newd va <> 0 /\ Z.land (newd va) 1 = 1.
Proof. pose proof J as [Hrange Hlo Hhi Halign Hphys Hprot].
  intros Hva. unfold plan_desc.
  assert (Hblk : forall k p, 12 <= k <= 39 -> fit k va = true -> page_prot p -> Z.land (block_desc k delta p va) 3 = 1).
  { intros k p Hk Hf Hpp. destruct (fits_base k va Hf) as (H1 & H2 & _). pose proof (pow_pos k ltac:(lia)).
    unfold block_desc. rewrite page_lor_3 by (apply base_page; [done|lia|apply base_low; lia]). by apply sect_bits. }
  assert (Hlow : forall d, Z.land d 1 = Z.land (Z.land d 3) 1) by (intros d; by rewrite <- Z.land_assoc).
  assert (Hone : forall d, Z.land d 3 = 1 -> forall l, is_table l d = false /\ d <> 0 /\ Z.land d 1 = 1).
  { intros d Hd l. unfold is_table. rewrite Hlow, Hd. split; [by rewrite andb_false_r|]. split; [|done]. by intros ->. }
  unfold plan_level. destruct (fit 30 va) eqn:E30; simpl.
  1: destruct (Z.land flags NO_BLOCK_MAPPINGS =? 0); simpl; [by apply Hone, Hblk|].
  all: destruct (fit 21 va) eqn:E21; simpl.
  all: try (destruct (Z.land flags NO_BLOCK_MAPPINGS =? 0); simpl; [by apply Hone, Hblk; [|..|apply p25_prot]|]).
  all: pose proof (page_base va Hva); assert (E : Z.land (page_desc delta (p16 va) va) 3 = 3)
    by (unfold page_desc; rewrite page_lor_3 by (apply base_page; [lia|lia|by apply base_low]); apply p16_prot).
  all: split; [done|]; rewrite Hlow, E; split; [|done]; intros E0'; by rewrite E0' in E.
Qed.

(** ** Steps *)

Context {A : Type} (ta : option (table_allocator A)).
Abbreviation state := (A * mem)%type.
Abbreviation alloc := (ta_alloc <$> ta).
Definition taken (a : A) (p : Z) : Prop := match ta with Some t => ta_taken t a p | None => True end.
Definition room (a : A) (n : Z) : Prop := 0 <= n /\ match ta with Some t => ta_room t a (Z.to_nat n) | None => True end.

Abbreviation inh := (inhi hi).
Abbreviation tm := (term root).

Record good (s : state) : Prop := {
  good_wf : wf root hi s.2;
  good_taken l va p : (l <= 3)%nat -> inh va -> tab root s.2 l va = Some p -> taken s.1 p }.

(** The walk of [va] can be brought to the plan: it ends at an absent descriptor
    not below the planned level, or at the planned level with a descriptor that
    may be changed into the planned one. *)
Definition fillable (s : state) (va : Z) : Prop :=
  (exists l, tm s.2 va l 0 /\ (l <= lv va)%nat /\ (ta = None -> l = lv va)) \/
  (exists d, tm s.2 va (lv va) d /\ pgattr_change_is_safe d (newd va) = true).

(** A table of level [l'] for [va] is also one for an address of the range. *)
Definition shared (va : Z) (l' : nat) : Prop :=
  exists b, A0 <= b < E0 /\ slot_of (pred l') b = slot_of (pred l') va /\ (l' <= lv b)%nat.

Lemma shared_lv va l' : (0 < l' <= 3)%nat -> shared va l' -> (l' <= lv va)%nat.
Proof. intros Hl (b & _ & E & Hb). pose proof (lv_mate (pred l') b va ltac:(lia) E ltac:(lia)). lia. Qed.

Record step (x y : Z) (s s' : state) : Prop := {
  st_good : good s';
  st_slot l va d : (l <= 3)%nat -> inh va -> slot root s.2 l va = Some d -> is_table l d = true -> slot root s'.2 l va = Some d;
  st_in va : x <= va < y -> tm s'.2 va (lv va) (newd va);
  st_out va l d : inh va -> ~ (x <= va < y) -> tm s.2 va l d ->
    tm s'.2 va l d \/ d = 0 /\ exists l', (l < l')%nat /\ tm s'.2 va l' 0 /\ shared va l' }.

Lemma step_tab x y s s' l va p : step x y s s' -> (l <= 3)%nat -> inh va -> tab root s.2 l va = Some p -> tab root s'.2 l va = Some p.
Proof.
  intros Hs Hl Hva. destruct l as [|l]; [done|]. intros Ht. apply tab_S_inv in Ht as (d & Hd & Ht & ->).
  rewrite tab_S, (st_slot x y s s' Hs l va d) by (lia || done). simpl. by rewrite Ht.
Qed.

Lemma step_fillable x y s s' va : step x y s s' -> A0 <= va < E0 -> ~ (x <= va < y) -> fillable s va -> fillable s' va.
Proof.
  intros Hs Hva Hout [(l & Ht & Hl & Hn)|(d & Ht & Hd)]; pose proof (range_inhi va Hva) as Hin.
  - destruct (st_out x y s s' Hs va l 0 Hin Hout Ht) as [Ht'|(_ & l' & Hl' & Ht' & Hle)]; left; [by exists l|].
    exists l'. apply shared_lv in Hle; [|destruct Ht'; lia]. split; [done|]. split; [done|]. intros E. specialize (Hn E). lia.
  - destruct (st_out x y s s' Hs va _ d Hin Hout Ht) as [Ht'|(-> & l' & Hl' & Ht' & Hle)]; [right; by exists d|].
    apply shared_lv in Hle; [lia|destruct Ht'; lia].
Qed.

Lemma step_refl x s : good s -> step x x s s.
Proof. intros Hg. split; [done|done|lia|]. intros va l d _ _ Ht. by left. Qed.

Lemma step_trans x y z s1 s2 s3 : A0 <= x -> x <= y -> y <= z -> z <= E0 -> step x y s1 s2 -> step y z s2 s3 -> step x z s1 s3.
Proof.
  intros Hx Hxy Hyz Hz H12 H23. split; [apply H23| | |].
  - intros l va d Hl Hva Hd Ht. apply (st_slot y z s2 s3 H23); [done..| |done]. by apply (st_slot x y s1 s2 H12).
  - intros va Hva. destruct (Z.lt_ge_cases va y) as [Hlt|Hge]; [|apply (st_in y z s2 s3 H23); lia].
    pose proof (range_inhi va ltac:(lia)) as Hin.
    destruct (st_out y z s2 s3 H23 va _ _ Hin ltac:(lia) (st_in x y s1 s2 H12 va ltac:(lia))) as [?|(E & _)]; [done|].
    by destruct (newd_leaf va ltac:(lia)) as (_ & ? & _).
  - intros va l d Hin Hout Ht. destruct (st_out x y s1 s2 H12 va l d Hin ltac:(lia) Ht) as [Ht2|(-> & l2 & Hl2 & Ht2 & Hle2)].
    + destruct (st_out y z s2 s3 H23 va l d Hin ltac:(lia) Ht2) as [?|?]; [by left|by right].
    + right. split; [done|]. destruct (st_out y z s2 s3 H23 va l2 0 Hin ltac:(lia) Ht2) as [Ht3|(_ & l3 & Hl3 & Ht3 & Hle3)].
      * exists l2. done.
      * exists l3. split; [lia|done].
Qed.


(** *** Writing the planned leaf of a slot *)

Lemma leaf_step s l p a : good s -> (l <= 3)%nat -> A0 <= a < E0 -> tab root s.2 l a = Some p ->
  (forall va, slot_of l va = slot_of l a -> A0 <= va < E0 /\ lv va = l /\ newd va = newd a) -> fillable s a ->
  exists old, s.2 !! (p + 8 * idx l a) = Some old /\ pgattr_change_is_safe old (newd a) = true /\
    step (slot_of l a * 2 ^ shift l) (slot_of l a * 2 ^ shift l + 2 ^ shift l) s (s.1, <[p + 8 * idx l a := newd a]> s.2).
Proof.
  intros [Hwf Htk] Hl Ha Hp Hslot Hf. pose proof (range_inhi a Ha) as Hin. destruct (Hslot a eq_refl) as (_ & Hlv & _).
  assert (Hold : exists old, tm s.2 a l old /\ pgattr_change_is_safe old (newd a) = true).
  { destruct Hf as [(l' & Ht & Hle & _)|(d & Ht & Hd)]; [|rewrite Hlv in Ht; eauto]. exists 0.
    assert (~ (l' < l)%nat) by (intros Hlt; by rewrite (term_no_tab root s.2 a l' 0 l Ht Hlt) in Hp).
    replace l with l' by lia. done. }
  destruct Hold as (old & (_ & Hs & Hot) & Hsafe). exists old.
  assert (Hlk : s.2 !! (p + 8 * idx l a) = Some old) by (unfold slot in Hs; by rewrite Hp in Hs).
  split; [done|]. split; [done|].
  assert (Hdt : is_table l (newd a) = false) by (rewrite <- Hlv; by apply newd_leaf).
  assert (Hmem : forall va, slot_of l a * 2 ^ shift l <= va < slot_of l a * 2 ^ shift l + 2 ^ shift l <-> slot_of l va = slot_of l a).
  { intros va. unfold slot_of. pose proof (pow_pos (shift l) ltac:(pose proof (shift_range l Hl); lia)).
    pose proof (Z.div_mod va (2 ^ shift l) ltac:(lia)). pose proof (Z.mod_pos_bound va (2 ^ shift l) ltac:(lia)). split; intros; nia. }
  split.
  - split; simpl.
    + by apply (leaf_wf root hi s.2 l a p (newd a) Hwf Hl Hin Hp old).
    + intros k va q Hk Hva Hq. rewrite (leaf_tab root hi s.2 l a p (newd a) Hwf Hl Hin Hp old) in Hq by done. by apply (Htk k va).
  - intros k va d Hk Hva Hd Ht. simpl. destruct (Nat.eq_dec k l) as [->|Hne].
    + rewrite (write_slot_other root hi s.2 l a p (newd a) Hwf Hl Hin Hp); [done..|]. intros E.
      rewrite (slot_same root hi s.2 l va a) in Hd by done. congruence.
    + unfold slot. rewrite (leaf_tab root hi s.2 l a p (newd a) Hwf Hl Hin Hp old) by done.
      apply slot_tab in Hd as (q & Hq & Hd). rewrite Hq. simpl.
      rewrite (write_other root hi s.2 l a p (newd a) Hwf Hl Hin Hp k va q) by (done || apply idx_bound || by left). done.
  - intros va Hva. apply Hmem in Hva. destruct (Hslot va Hva) as (Hr & Hlv' & ->). rewrite Hlv'. simpl.
    by apply (leaf_term_here root hi s.2 l a p (newd a) Hwf Hl Hin Hp); [|apply range_inhi|].
  - intros va k d Hva Hout Ht. left. simpl. apply (leaf_term_other root hi s.2 l a p (newd a) Hwf Hl Hin Hp); [done| |done].
    intros E. by apply Hout, Hmem.
Qed.

(** *** Hanging a new table under an absent descriptor *)

Lemma populate_step s s1 l p q a x : good s -> (l < 3)%nat -> A0 <= a < E0 -> tab root s.2 l a = Some p -> slot root s.2 l a = Some 0 ->
  (l < lv a)%nat -> page q -> ~ taken s.1 q -> (forall r, taken s.1 r \/ r = q -> taken s1 r) ->
  step x x s (s1, <[p + 8 * idx l a := Z.lor q 3]> (clear_page s.2 q)).
Proof.
  intros [Hwf Htk] Hl Ha Hp H0 Hlv Hq Hfr Hs1. pose proof (range_inhi a Ha) as Hin. destruct (table_desc l q Hl Hq) as [Hd Hdq].
  assert (Hfresh : forall k va, (k <= 3)%nat -> inhi hi va -> tab root s.2 k va <> Some q).
  { intros k va Hk Hva Hq'. by apply Hfr, (Htk k va). }
  split.
  - split; simpl.
    + by apply (populate_wf root hi s.2 l a p q).
    + intros k va r Hk Hva Hr. apply Hs1. destruct (populate_tab_inv root hi s.2 l a p q (Z.lor q 3) Hwf Hl Hin Hp Hq Hfresh Hd Hdq k va r Hk Hva Hr)
        as [Hr'|(_ & _ & ->)]; [left; by apply (Htk k va)|by right].
  - intros k va d Hk Hva Hs Ht. simpl. destruct (Z.eq_dec (slot_of l va) (slot_of l a)) as [E|Hne].
    + pose proof (slot_tab root s.2 k va d Hs) as (r & Hr & Hd').
      assert (Hkl : (k < l)%nat).
      { destruct (lt_eq_lt_dec k l) as [[?| ->]|Hlt]; [done| |].
        - rewrite (slot_same root hi s.2 l va a) in Hs by (lia || done). rewrite H0 in Hs. injection Hs as <-. by rewrite zero_not_table in Ht.
        - by rewrite (none_below root hi s.2 l a Hl Hin H0 va k) in Hr by done. }
      unfold slot. rewrite (populate_tab_up root hi s.2 l a p q) by (lia || done). rewrite Hr. simpl.
      assert (Hp1 : tab root (clear_page s.2 q) l a = Some p) by (rewrite (m1_tab root hi s.2 l q Hwf Hl Hq Hfresh) by (lia || done); done).
      rewrite (write_other root hi (clear_page s.2 q) l a p _ (m1_wf root hi s.2 l q Hwf Hl Hq Hfresh) ltac:(lia) Hin Hp1 k va r (idx k va));
        [|done|done| |apply idx_bound|left; lia].
      * rewrite (fresh_agree root hi s.2 l q Hwf Hl Hq Hfresh k va r) by (done || apply idx_bound). done.
      * rewrite (m1_tab root hi s.2 l q Hwf Hl Hq Hfresh) by (lia || done). done.
    + rewrite (write_slot_other root hi (clear_page s.2 q) l a p _ (m1_wf root hi s.2 l q Hwf Hl Hq Hfresh)); [|lia|done| |lia|done|done].
      * by rewrite (m1_slot root hi s.2 l q Hwf Hl Hq Hfresh).
      * rewrite (m1_tab root hi s.2 l q Hwf Hl Hq Hfresh) by (lia || done). done.
  - lia.
  - intros va k d Hva _ Ht. simpl. destruct (Z.eq_dec (slot_of l va) (slot_of l a)) as [E|Hne].
    + assert (H0' : tm s.2 va l 0).
      { split; [lia|]. rewrite (slot_same root hi s.2 l va a) by (lia || done). split; [done|apply zero_not_table]. }
      destruct (term_unique root s.2 va k l d 0 Ht H0') as [-> ->]. right. split; [done|]. exists (S l). split; [lia|]. split.
      * by apply (populate_term_here root hi s.2 l a p q).
      * exists a. split; [done|]. split; [exact (eq_sym E)|lia].
    + left. by apply (populate_term_other root hi s.2 l a p q).
Qed.
End plan.

(** ** The mapping functions follow the plan *)

Lemma ld_some m p w : m !! p = Some w -> ld m p = Ret w.
Proof. unfold ld. by intros ->. Qed.

Lemma put_some {A} (s : A * mem) p w v : s.2 !! p = Some w -> put s p v = Ret (s.1, <[p := v]> s.2).
Proof. unfold put, st. intros E. rewrite E. done. Qed.

Section range.
Context (root hi A0 E0 delta prot flags : Z).
Context (J : range_ok hi A0 E0 delta prot).
Context {A : Type} (ta : option (table_allocator A)).

Abbreviation fit := (fits A0 E0 delta).
Abbreviation lv := (plan_level A0 E0 delta flags).
Abbreviation newd := (plan_desc A0 E0 delta prot flags).
Abbreviation p25 := (prot_25 A0 E0 delta prot flags).
Abbreviation p16 := (prot_16 A0 E0 delta prot flags).
Abbreviation alloc := (ta_alloc <$> ta).
Abbreviation good_s := (good root hi ta).
Abbreviation fill := (fillable root A0 E0 delta prot flags ta).
Abbreviation stp := (step root hi A0 E0 delta prot flags ta).
Abbreviation rm := (room ta).
Abbreviation inh := (range_inhi hi A0 E0 delta prot J).

Lemma room_weaken a n k : rm a n -> 0 <= k <= n -> rm a k.
Proof. intros [Hn H] Hk. split; [lia|]. destruct ta as [t|]; [|done]. by apply (ta_room_le A t a (Z.to_nat n)); [lia|]. Qed.

(** *** Positions in the range *)

Definition cut (k a : Z) : Prop := a = A0 \/ a = E0 \/ a mod 2 ^ k = 0.

Lemma cut_finer k k' a : 0 <= k' <= k -> cut k a -> cut k' a.
Proof. intros Hk [?|[?|Hm]]; [by left|by right; left|right; right]. by apply mod_finer with k. Qed.

Lemma same_between k x y a : 0 <= k -> x / 2 ^ k = (y - 1) / 2 ^ k -> x <= a < y -> a / 2 ^ k = x / 2 ^ k.
Proof.
  intros Hk E Ha. pose proof (pow_pos k Hk). pose proof (Z.div_le_mono x a (2 ^ k) ltac:(lia) ltac:(lia)).
  pose proof (Z.div_le_mono a (y - 1) (2 ^ k) ltac:(lia) ltac:(lia)). lia.
Qed.

Lemma aligned_fits k x y : 12 <= k <= 39 -> A0 <= x -> x < y -> y <= E0 -> x / 2 ^ k = (y - 1) / 2 ^ k -> cut k x -> cut k y ->
  aligned3 (2 ^ k) x y (x + delta) = fit k x /\ (fit k x = true -> x = x / 2 ^ k * 2 ^ k /\ y = x + 2 ^ k).
Proof. pose proof J as [Hrange Hlo Hhi Halign Hphys Hprot].
  intros Hk Hx Hxy Hy Es Cx Cy. pose proof (pow_pos k ltac:(lia)) as Hp. rewrite aligned3_ok by lia.
  pose proof (Z.div_mod x (2 ^ k) ltac:(lia)) as Dx. pose proof (Z.mod_pos_bound x (2 ^ k) Hp) as Mx.
  pose proof (Z.div_mod (y - 1) (2 ^ k) ltac:(lia)) as Dy. pose proof (Z.mod_pos_bound (y - 1) (2 ^ k) Hp) as My.
  pose proof (Z.div_mod y (2 ^ k) ltac:(lia)) as Dy'. pose proof (Z.mod_pos_bound y (2 ^ k) Hp) as My'.
  set (b := x / 2 ^ k) in *. rewrite <- Es in Dy. unfold fits. fold b.
  assert (Hfull : x mod 2 ^ k = 0 -> y mod 2 ^ k = 0 -> x = b * 2 ^ k /\ y = x + 2 ^ k).
  { intros Ex Ey. rewrite Ex in Dx. rewrite Ey in Dy'. split; [lia|]. assert (y / 2 ^ k = b + 1) by nia. nia. }
  assert (Hfit : A0 <= b * 2 ^ k -> b * 2 ^ k + 2 ^ k <= E0 -> x = b * 2 ^ k /\ y = x + 2 ^ k).
  { intros H1 H2. assert (Ex : x = b * 2 ^ k) by (destruct Cx as [?|[?|E]]; [lia|lia|rewrite E in Dx; lia]).
    split; [done|]. destruct Cy as [?|[?|E]]; [lia|lia|]. rewrite E in Dy'. assert (y / 2 ^ k = b + 1) by nia. nia. }
  split.
  - destruct (Z.leb_spec A0 (b * 2 ^ k)) as [H1|H1], (Z.leb_spec (b * 2 ^ k + 2 ^ k) E0) as [H2|H2]; simpl.
    1: { destruct (Hfit H1 H2) as [Ex Ey]. rewrite Ey, Ex, Z.add_mod, Z.mod_mul, Z.mod_same by lia. done. }
    all: destruct (Z.eqb_spec (x mod 2 ^ k) 0) as [E1|], (Z.eqb_spec (y mod 2 ^ k) 0) as [E2|]; simpl; try done.
    all: destruct (Hfull E1 E2); lia.
  - intros [[H1%Z.leb_le H2%Z.leb_le]%andb_true_iff _]%andb_true_iff. by apply Hfit.
Qed.

Lemma idx_next l a b : (l <= 3)%nat -> slot_of l b = slot_of l a + 1 -> pos l b = pos l a -> idx l b = idx l a + 1.
Proof. intros Hl E1 E2. pose proof (slot_split l a Hl). pose proof (slot_split l b Hl). lia. Qed.

(** The next part of a range cut into slots of 2^k bytes. *)
Lemma next_part k a y : 12 <= k <= 39 -> A0 <= a < y -> y <= E0 -> cut k a -> cut k y ->
  let next := addr_end (2 ^ k) a y in
  a < next <= y /\ a / 2 ^ k = (next - 1) / 2 ^ k /\ cut k next /\
  (next <> y -> next = slot_end k a /\ next mod 2 ^ k = 0 /\ next / 2 ^ k = a / 2 ^ k + 1).
Proof. pose proof J as [Hrange Hlo Hhi Halign Hphys Hprot].
  intros Hk Ha Hy Ca Cy next. unfold next. rewrite addr_end_ok by lia. destruct (slot_end_bounds k a ltac:(lia)) as (Hb & Hm & Hd).
  assert (E : a / 2 ^ k = (Z.min (slot_end k a) y - 1) / 2 ^ k).
  { pose proof (pow_pos k ltac:(lia)). unfold slot_end in *. pose proof (Z.div_le_mono a (Z.min (a / 2 ^ k * 2 ^ k + 2 ^ k) y - 1) (2 ^ k) ltac:(lia) ltac:(lia)).
    assert ((Z.min (a / 2 ^ k * 2 ^ k + 2 ^ k) y - 1) / 2 ^ k < a / 2 ^ k + 1); [|lia]. apply Z.div_lt_upper_bound; lia. }
  split; [lia|]. split; [done|]. destruct (Z.min_spec (slot_end k a) y) as [[H1 ->]|[H1 ->]].
  - split; [by right; right|]. done.
  - split; [done|]. done.
Qed.

Lemma fuel_add n k : 0 <= n -> (Z.to_nat n + k)%nat = Z.to_nat (n + Z.of_nat k).
Proof. lia. Qed.

Lemma span_div k x y : 0 <= k -> x <= y -> (y - 1) / 2 ^ k - x / 2 ^ k <= (y - x) / 2 ^ k + 1.
Proof.
  intros Hk Hxy. pose proof (pow_pos k Hk). pose proof (Z.div_mod x (2 ^ k) ltac:(lia)). pose proof (Z.mod_pos_bound x (2 ^ k) ltac:(lia)).
  assert ((y - 1) / 2 ^ k < x / 2 ^ k + (y - x) / 2 ^ k + 2); [|lia]. apply Z.div_lt_upper_bound; [done|].
  pose proof (Z.div_mod (y - x) (2 ^ k) ltac:(lia)). pose proof (Z.mod_pos_bound (y - x) (2 ^ k) ltac:(lia)). nia.
Qed.

(** *** The table under a descriptor *)

Lemma lookup_slot s l va p : tab root s l va = Some p -> slot root s l va = s !! (p + 8 * idx l va).
Proof. intros H. unfold slot. by rewrite H. Qed.

Lemma is_table_bits l d : is_table l d = true -> Z.land d 3 = 3.
Proof. unfold is_table. intros [_ H%Z.eqb_eq]%andb_true_iff. done. Qed.

(** Under an address to be mapped below level [l] there is a table, or nothing. *)
Lemma table_or_empty s l x p : (l < 3)%nat -> good_s s -> A0 <= x < E0 -> tab root s.2 l x = Some p -> fill s x -> (l < lv x)%nat ->
  exists e, s.2 !! (p + 8 * idx l x) = Some e /\ slot root s.2 l x = Some e /\
    (e = 0 /\ ta <> None \/ is_table l e = true).
Proof.
  intros Hl Hg Hx Hp Hf Hlv. destruct (wf_page root hi s.2 (good_wf root hi ta s Hg) l x p ltac:(lia) (inh x Hx) Hp) as [_ Hi].
  destruct (Hi (idx l x) (idx_bound l x)) as [e He]. exists e. assert (Hs : slot root s.2 l x = Some e) by (by rewrite (lookup_slot s.2 l x p)).
  split; [done|]. split; [done|]. destruct (is_table l e) eqn:Et; [by right|left].
  assert (Ht : term root s.2 x l e) by (split; [lia|done]).
  destruct Hf as [(l' & Ht' & Hle & Hn)|(d & Ht' & _)]; destruct (term_unique root s.2 x _ _ _ _ Ht Ht') as [E1 E2]; [|lia].
  split; [done|]. intros E. specialize (Hn E). lia.
Qed.

(** The prologue of the three allocating functions. *)
Abbreviation ensure ptr d s :=
  (if (d =? 0)%Z then '(q, s1) ← alloc_table alloc s; s1 ← put s1 ptr (Z.lor q 3); d1 ← ld s1.2 ptr; Ret (s1, d1) else Ret (s, d%Z)).

Lemma ensure_table s l x p n : (l < 3)%nat -> good_s s -> A0 <= x < E0 -> tab root s.2 l x = Some p -> fill s x -> (l < lv x)%nat ->
  rm s.1 (1 + n) -> 0 <= n ->
  exists e, ld s.2 (p + 8 * idx l x) = Ret e /\ (e = 0 \/ Z.land e 3 = 3) /\
  returns (ensure (p + 8 * idx l x) e s) (fun '(s1, d) => stp x x s s1 /\ rm s1.1 n /\ Z.land d 3 = 3 /\
    ld s1.2 (p + 8 * idx l x) = Ret d /\ exists q, tab root s1.2 (S l) x = Some q /\ __pte_to_phys d = q).
Proof.
  intros Hl Hg Hx Hp Hf Hlv Hrm Hn. destruct (table_or_empty s l x p Hl Hg Hx Hp Hf Hlv) as (e & He & Hs & Hc).
  exists e. unfold ld at 1. rewrite He. split; [done|]. destruct Hc as [[-> Hta]|Ht].
  - split; [by left|]. simpl. destruct ta as [t|] eqn:Eta; [|done]. simpl in *. destruct Hrm as [_ Hroom].
    replace (Z.to_nat (1 + n)) with (S (Z.to_nat n)) in Hroom by lia. destruct s as [a m]. simpl in *.
    apply returns_bind with (1 := ta_ok A t a m _ Hroom). intros [q [a1 m1]] (Hq & Hfr & Em & Hr1 & Htk). cbn [fst snd] in *. subst m1.
    assert (Hz : clear_page m q !! (p + 8 * idx l x) = Some 0).
    { rewrite (fresh_agree root hi m l q (good_wf root hi ta (a, m) ltac:(rewrite Eta; exact Hg)) Hl Hq) with (k := l) (va := x); [done| |lia|by apply inh|done|apply idx_bound].
      intros k va Hk Hva Hq'. apply Hfr. exact (good_taken root hi _ (a, m) Hg k va q Hk Hva Hq'). }
    unfold put, st. cbn [fst snd]. rewrite Hz, !bind_ret. cbn [fst snd]. unfold ld. rewrite lookup_insert_eq, bind_ret. cbn [returns fst snd].
    pose proof (populate_step root hi A0 E0 delta prot flags J (Some t) (a, m) a1 l p q x x Hg Hl Hx Hp Hs Hlv Hq Hfr Htk) as Hstep.
    destruct (table_desc l q Hl Hq) as [Hd Hdq]. split; [done|]. split; [by split|]. split; [by apply (is_table_bits l)|].
    split; [by rewrite lookup_insert_eq|]. exists q. split; [|done].
    assert (Hp' : tab root (<[p + 8 * idx l x:=Z.lor q 3]> (clear_page m q)) l x = Some p).
    { apply (step_tab root hi A0 E0 delta prot flags (Some t) x x (a, m) _ l x p Hstep); [lia|by apply inh|done]. }
    rewrite Hp'. cbn [mbind option_bind]. rewrite lookup_insert_eq. cbn [mbind option_bind]. by rewrite Hd, Hdq.
  - pose proof (is_table_bits l e Ht) as Hb. split; [by right|]. destruct (Z.eqb_spec e 0) as [E|]; [by rewrite E in Hb|]. simpl.
    split; [by apply step_refl|]. split; [apply (room_weaken _ (1 + n)); [done|lia]|]. split; [done|]. unfold ld. rewrite He. split; [done|].
    exists (next_table e). split; [|done]. change (tab root s.2 (S l) x = Some (next_table e)). rewrite tab_S, Hs. cbn [mbind option_bind]. by rewrite Ht.
Qed.

Lemma bits_3 d : Z.land d 3 = 3 -> (Z.land d 2 =? 0) = false /\ (d =? 0) = false.
Proof.
  intros H. split; apply Z.eqb_neq.
  - intros E. assert (E2 : Z.land (Z.land d 3) 2 = 0) by (rewrite <- Z.land_assoc; exact E). by rewrite H in E2.
  - by intros ->.
Qed.

Lemma not_sect e : e = 0 \/ Z.land e 3 = 3 -> (Z.land e 3 =? 1) = false.
Proof. intros [->| ->]; done. Qed.

(** *** Pages *)

Lemma init_pte_ok s x y prot' p2 p3 :
  good_s s -> A0 <= x -> x < y -> y <= E0 -> x mod 4096 = 0 -> y mod 4096 = 0 -> x / 2 ^ 21 = (y - 1) / 2 ^ 21 ->
  tab root s.2 2 x = Some p2 -> tab root s.2 3 x = Some p3 ->
  (forall va, x <= va < y -> lv va = 3%nat /\ newd va = page_desc delta prot' va /\ fill s va) ->
  returns (init_pte s (p2 + 8 * idx 2 x) x y (x + delta) prot') (fun s' => stp x y s s' /\ s'.1 = s.1).
Proof. pose proof J as [Hrange Hlo Hhi Halign Hphys Hprot].
  intros Hg Hx Hxy Hy Mx My Es Hp2 Hp3 Hplan. unfold init_pte, pte_offset_phys.
  destruct (tab_S_inv root s.2 2 x p3 Hp3) as (e & He & _ & Ep3). rewrite (lookup_slot s.2 2 x p2 Hp2) in He.
  rewrite (ld_some _ _ _ He), !bind_ret. fold (next_table e). rewrite <- Ep3, pte_index_ok, (Z.mul_comm (idx 3 x)).
  unfold PAGE_SIZE at 1. change (Z.shiftl 1 PAGE_SHIFT) with (2 ^ 12). rewrite u64_small, fuel_add by (lia || apply Z.div_pos; lia).
  apply chunk_loop with (k := 12) (y := y) (cur := fun '(_, _, addr, _) => addr)
    (J := fun '(s1, ptep, addr, phys) => x <= addr < y /\ addr mod 4096 = 0 /\ phys = addr + delta /\ ptep = p3 + 8 * idx 3 addr /\
       stp x addr s s1 /\ s1.1 = s.1).
  - lia.
  - split; [lia|]. split; [done|]. split; [done|]. split; [done|]. split; [by apply step_refl|done].
  - pose proof (Z.div_pos (y - x) (2 ^ 12) ltac:(lia) ltac:(lia)). lia.
  - change (2 ^ 12) with 4096. pose proof (Z.div_mod x 4096 ltac:(lia)). pose proof (Z.div_mod y 4096 ltac:(lia)).
    assert ((y - 1) / 4096 = y / 4096 - 1) by (symmetry; apply Z.div_unique with 4095; lia).
    assert ((y - x) / 4096 = y / 4096 - x / 4096) by (symmetry; apply Z.div_unique with 0; lia). lia.
  - intros [[[s1 ptep] addr] phys] (Ha & Ma & -> & -> & Hst & Es1). split; [lia|]. unfold init_pte_turn.
    pose proof (st_good _ _ _ _ _ _ _ _ x addr s s1 Hst) as Hg1.
    assert (Hp3' : tab root s1.2 3 addr = Some p3).
    { assert (E : slot_of 2 x = slot_of 2 addr) by (symmetry; apply (same_between 21 x y addr); [lia|done|lia]).
      rewrite (tab_same root hi s1.2 3 addr x) by (lia || (apply inh; lia) || (rewrite !pos_S; done)).
      apply (step_tab root hi A0 E0 delta prot flags ta x addr s s1 3 x p3 Hst); [lia|apply inh; lia|done]. }
    destruct (Hplan addr ltac:(lia)) as (Hlv & Hnew & Hf).
    pose proof (step_fillable root hi A0 E0 delta prot flags J ta x addr s s1 addr Hst ltac:(lia) ltac:(lia) Hf) as Hf1.
    assert (Hmate : forall va, slot_of 3 va = slot_of 3 addr -> addr <= va < addr + 4096).
    { intros va E. unfold slot_of, shift in E. change (2 ^ (39 - 9 * Z.of_nat 3)) with 4096 in E.
      pose proof (Z.div_mod va 4096 ltac:(lia)). pose proof (Z.mod_pos_bound va 4096 ltac:(lia)). pose proof (Z.div_mod addr 4096 ltac:(lia)). lia. }
    assert (Hle : addr + 4096 <= y).
    { pose proof (Z.div_mod addr 4096 ltac:(lia)). pose proof (Z.div_mod y 4096 ltac:(lia)). lia. }
    destruct (leaf_step root hi A0 E0 delta prot flags J ta s1 3 p3 addr Hg1 ltac:(lia) ltac:(lia) Hp3') as (old & Hold & Hsafe & Hstep).
    { intros va E. pose proof (Hmate va E). destruct (Hplan va ltac:(lia)) as (-> & -> & _). split; [lia|]. split; [done|].
      rewrite Hnew. unfold page_desc. unfold slot_of, shift in E. change (39 - 9 * Z.of_nat 3) with 12 in E. by rewrite E. }
    { done. }
    assert (Enew : pfn_pte (__phys_to_pfn (addr + delta)) prot' = newd addr).
    { rewrite Hnew. unfold page_desc. change (2 ^ 12) with 4096. replace (addr / 4096 * 4096) with addr by (pose proof (Z.div_mod addr 4096 ltac:(lia)); lia).
      apply pfn_pte_page. split; [lia|]. destruct Halign as (_ & _ & Md). rewrite Z.add_mod, Ma, Md by lia. done. }
    rewrite (ld_some _ _ _ Hold), bind_ret, (put_some s1 _ _ _ Hold), bind_ret, Enew. cbn [snd fst].
    rewrite (ld_some _ _ (newd addr)) by apply lookup_insert_eq. rewrite bind_ret.
    rewrite BUG_ON_false by (by rewrite Hsafe).
    assert (Eslot : slot_of 3 addr * 2 ^ shift 3 = addr /\ 2 ^ shift 3 = 4096).
    { unfold slot_of, shift. change (2 ^ (39 - 9 * Z.of_nat 3)) with 4096. pose proof (Z.div_mod addr 4096 ltac:(lia)). lia. }
    destruct Eslot as [Es3 E3]. rewrite Es3, E3 in Hstep.
    pose proof (step_trans root hi A0 E0 delta prot flags J ta x addr (addr + 4096) s s1 _ ltac:(lia) ltac:(lia) ltac:(lia) ltac:(lia) Hst Hstep) as Hst'.
    change PAGE_SIZE with 4096. rewrite !u64_small by lia.
    destruct (Z.eqb_spec (addr + 4096) y) as [E|Hne]; cbn [negb]; simpl.
    + rewrite E in Hst'. split; done.
    + assert (Ese : addr + 4096 = slot_end 12 addr) by (unfold slot_end; change (2 ^ 12) with 4096; pose proof (Z.div_mod addr 4096 ltac:(lia)); lia).
      split; [|done]. split; [lia|]. split; [rewrite Z.add_mod, Ma by lia; done|]. split; [lia|]. split; [|split; done].
      rewrite (idx_next 3 addr (addr + 4096)); [lia|lia| |].
      * unfold slot_of, shift. change (2 ^ (39 - 9 * Z.of_nat 3)) with (1 * 4096). rewrite Z.mul_1_l.
        replace (addr + 4096) with (addr + 1 * 4096) by lia. rewrite Z.div_add by lia. done.
      * rewrite !pos_S. unfold slot_of, shift. change (39 - 9 * Z.of_nat 2) with 21.
        rewrite (same_between 21 x y addr), (same_between 21 x y (addr + 4096)) by (lia || done). done.
Qed.
End range.
