(* ===== verification/MmuCreate.v ===== *)
(** * The mapping functions, level by level *)
From stdpp Require Import base numbers list option gmap.
From Stdlib Require Import ZArith Lia.
From S2P Require Import Prelude Mmu MmuTables MmuStep.

Section create.
Context (root hi A0 E0 delta prot flags : Z).
Context (J : range_ok hi A0 E0 delta prot).
Context {A : Type} (ta : option (table_allocator A)).

Abbreviation fit := (fits A0 E0 delta).
Abbreviation lv := (plan_level A0 E0 delta flags).
Abbreviation newd := (plan_desc A0 E0 delta prot flags).
Abbreviation p25 := (prot_25 A0 E0 delta prot flags).
Abbreviation p16 := (prot_16 A0 E0 delta prot flags).
Abbreviation alloc := (ta_alloc <$> ta).
Abbreviation good_s := (good root hi ta).
Abbreviation fill := (fillable root A0 E0 delta prot flags ta).
Abbreviation stp := (step root hi A0 E0 delta prot flags ta).
Abbreviation rm := (room ta).
Abbreviation inh := (range_inhi hi A0 E0 delta prot J).
Abbreviation cutp := (cut A0 E0).

Lemma stp_tab x y s s' l a va p : stp x y s s' -> (l <= 3)%nat -> A0 <= a < E0 -> A0 <= va < E0 -> pos l a = pos l va ->
  tab root s.2 l va = Some p -> tab root s'.2 l a = Some p.
Proof.
  intros Hst Hl Ha Hva E Hp. rewrite (tab_same root hi s'.2 l a va) by (done || by apply inh).
  apply (step_tab root hi A0 E0 delta prot flags ta x y s s' l va p Hst); [done|by apply inh|done].
Qed.

Lemma stp_fill x y s s' va : stp x y s s' -> A0 <= va < E0 -> y <= va -> fill s va -> fill s' va.
Proof. intros Hst Hva Hle. apply (step_fillable root hi A0 E0 delta prot flags J ta x y s s' va Hst Hva). lia. Qed.

Lemma stp_trans x y z s1 s2 s3 : A0 <= x -> x <= y -> y <= z -> z <= E0 -> stp x y s1 s2 -> stp y z s2 s3 -> stp x z s1 s3.
Proof. apply step_trans, J. Qed.

(** The invariant of a loop over the parts of [x, y): what is before [addr] is done. *)
Definition part_inv (k x y : Z) (s s1 : A * mem) (addr phys : Z) : Prop :=
  x <= addr < y /\ cutp k addr /\ phys = addr + delta /\ stp x addr s s1.

Lemma part_first k x y s : good_s s -> A0 <= x -> x < y -> cutp k x -> part_inv k x y s s x (x + delta).
Proof. intros Hg Hx Hxy Hc. split; [lia|]. split; [done|]. split; [done|]. by apply step_refl. Qed.

(** The end of a turn: [next] ends the part of [addr]. *)
Lemma part_next k x y s s1 s2 addr : 12 <= k <= 39 -> A0 <= x -> y <= E0 -> cutp k y ->
  part_inv k x y s s1 addr (addr + delta) ->
  let next := addr_end (2 ^ k) addr y in
  stp addr next s1 s2 -> u64 (addr + delta + u64 (next - addr)) = next + delta /\
    (next = y -> stp x y s s2) /\
    (next <> y -> part_inv k x y s s2 next (next + delta) /\ next = slot_end k addr /\ next mod 2 ^ k = 0 /\ next / 2 ^ k = addr / 2 ^ k + 1).
Proof.
  intros Hk Hx Hy Cy (Ha & Ca & _ & Hst) next Hst2. pose proof J as [Hrange _ _ _ Hphys _].
  destruct (next_part hi A0 E0 delta prot J k addr y Hk ltac:(lia) Hy Ca Cy) as (Hn & _ & Cn & Hne). fold next in Hn, Cn, Hne.
  pose proof (stp_trans x addr next s s1 s2 Hx ltac:(lia) ltac:(lia) ltac:(lia) Hst Hst2) as Hst'.
  split; [rewrite (u64_small (next - addr)), u64_small by lia; lia|]. split; [intros E; by rewrite E in Hst'|].
  intros H. destruct (Hne H) as (E1 & E2 & E3). split; [|done]. split; [lia|]. done.
Qed.

Lemma loop_fuel k x y : 0 <= k -> 0 <= x -> x < y -> y < 2 ^ 64 ->
  (Z.to_nat (u64 (y - x) / 2 ^ k) + 2)%nat = Z.to_nat ((y - x) / 2 ^ k + 2) /\ 0 < (y - x) / 2 ^ k + 2 /\
  (y - 1) / 2 ^ k - x / 2 ^ k < (y - x) / 2 ^ k + 2.
Proof.
  intros Hk Hx Hxy Hy. pose proof (pow_pos k Hk). pose proof (Z.div_pos (y - x) (2 ^ k) ltac:(lia) ltac:(lia)).
  rewrite u64_small by lia. split; [lia|]. split; [lia|]. pose proof (span_div k x y Hk ltac:(lia)). lia.
Qed.

(** The table pages still needed after [a]. *)
Definition rest (cost : Z -> Z -> Z) (y a n : Z) : Z := if a =? y then n else cost a y + n.

Lemma rest_split cost k y a b n :
  (forall a b, a < b -> 0 <= cost a b) -> (forall a b c, b mod 2 ^ k = 0 -> cost a b + cost b c = cost a c) ->
  a < b -> b <= y -> (b <> y -> b mod 2 ^ k = 0) -> 0 <= n ->
  rest cost y a n = cost a b + rest cost y b n /\ 0 <= rest cost y b n.
Proof.
  intros Hcost Hsplit Hb Hby Hm Hn. unfold rest. rewrite (proj2 (Z.eqb_neq a y)) by lia. destruct (Z.eqb_spec b y) as [->|E]; [lia|].
  pose proof (Hsplit a b y (Hm E)). pose proof (Hcost b y ltac:(lia)). lia.
Qed.

(** *** Runs of contiguous descriptors

    [alloc_init_cont_pte] and [alloc_init_cont_pmd] end in the same loop, over
    runs of 2^k bytes. *)

Section conts.
Context (k : Z) (Hk : 12 <= k <= 39) (sub : A * mem -> Z -> Z -> Z -> Z -> outcome (A * mem)).

Definition cont_turn (end_ prot flags : Z) (t : (A * mem) * Z * Z) : outcome ((A * mem) * Z * Z + A * mem) :=
  let '(s, addr, phys) := t in
  let next := addr_end (2 ^ k) addr end_ in
  let __prot := if aligned3 (2 ^ k) addr next phys && (Z.land flags NO_CONT_MAPPINGS =? 0) then Z.lor prot PTE_CONT else prot in
  s ← sub s addr next phys __prot;
  let phys := u64 (phys + u64 (next - addr)) in
  if negb (next =? end_) then Ret (inl (s, next, phys)) else Ret (inr s).

Context (x y prot' : Z) (cost : Z -> Z -> Z).
Context (Hx : A0 <= x) (Hxy : x < y) (Hy : y <= E0) (Cx : cutp k x) (Cy : cutp k y).
Context (Hcost : forall a b, a < b -> 0 <= cost a b) (Hsplit : forall a b c, b mod 2 ^ k = 0 -> cost a b + cost b c = cost a c).
Context (s : A * mem) (Hg : good_s s) (Hfill : forall va, x <= va < y -> fill s va).
Context (Hsub : forall s1 a b n, stp x a s s1 -> x <= a -> a < b -> b <= y -> cutp k a -> cutp k b -> a / 2 ^ k = (b - 1) / 2 ^ k ->
  (forall va, a <= va < b -> fill s1 va) -> rm s1.1 (cost a b + n) -> 0 <= n ->
  returns (sub s1 a b (a + delta) (if fit k a && (Z.land flags NO_CONT_MAPPINGS =? 0) then Z.lor prot' PTE_CONT else prot'))
    (fun s' => stp a b s1 s' /\ rm s'.1 n)).

Lemma conts_ok n : rm s.1 (cost x y + n) -> 0 <= n ->
  returns (loop (Z.to_nat (u64 (y - x) / 2 ^ k) + 2) (cont_turn y prot' flags) (s, x, x + delta)) (fun s' => stp x y s s' /\ rm s'.1 n).
Proof.
  intros Hrm Hn. pose proof J as [Hrange _ _ _ _ _]. destruct (loop_fuel k x y ltac:(lia) ltac:(lia) Hxy ltac:(lia)) as (-> & Hf0 & Hf).
  apply chunk_loop with (k := k) (y := y) (cur := fun '(_, addr, _) => addr)
    (J := fun '(s1, addr, phys) => part_inv k x y s s1 addr phys /\ rm s1.1 (rest cost y addr n)); [lia| |done|done|].
  { split; [by apply part_first|]. unfold rest. by rewrite (proj2 (Z.eqb_neq x y)) by lia. }
  intros [[s1 addr] phys] [Hinv Hrm1]. pose proof Hinv as (Ha & Ca & -> & Hst). split; [lia|].
  destruct (next_part hi A0 E0 delta prot J k addr y Hk ltac:(lia) Hy Ca Cy) as (Hnx & En & Cn & Hne).
  unfold cont_turn. set (next := addr_end (2 ^ k) addr y) in *.
  destruct (aligned_fits hi A0 E0 delta prot J k addr next Hk ltac:(lia) ltac:(lia) ltac:(lia) En Ca Cn) as [Eal _]. rewrite Eal.
  destruct (rest_split cost k y addr next n Hcost Hsplit ltac:(lia) ltac:(lia)) as [Er Hr0]; [intros E; by apply Hne|done|]. rewrite Er in Hrm1.
  apply returns_bind with (1 := Hsub s1 addr next (rest cost y next n) Hst ltac:(lia) ltac:(lia) ltac:(lia) Ca Cn En
    ltac:(intros va Hva; apply (stp_fill x addr s s1 va Hst); [lia|lia|apply Hfill; lia]) Hrm1 Hr0).
  intros s2 [Hst2 Hrm2]. destruct (part_next k x y s s1 s2 addr Hk Hx Hy Cy Hinv Hst2) as (Eph & Hend & Hmore). fold next in Eph, Hend, Hmore.
  rewrite Eph. unfold rest in Hrm2. destruct (Z.eqb_spec next y) as [E|E]; cbn [negb returns]; [split; [by apply Hend|done]|].
  destruct (Hmore E) as (Hinv' & E' & _). split; [|done]. split; [done|]. unfold rest. by rewrite (proj2 (Z.eqb_neq next y)).
Qed.
End conts.

Lemma slot_2 a b : a / 2 ^ 21 = b / 2 ^ 21 -> slot_of 2 a = slot_of 2 b.
Proof. done. Qed.

Lemma cont_pte_ok s x y prot' p2 p3 n :
  good_s s -> A0 <= x -> x < y -> y <= E0 -> cutp 16 x -> cutp 16 y -> x / 2 ^ 21 = (y - 1) / 2 ^ 21 ->
  tab root s.2 2 x = Some p2 -> tab root s.2 3 x = Some p3 ->
  (forall va, x <= va < y -> lv va = 3%nat /\ p25 va = prot' /\ fill s va) -> rm s.1 n ->
  returns (loop (Z.to_nat (u64 (y - x) / CONT_PTE_SIZE) + 2) (cont_pte_turn (p2 + 8 * idx 2 x) y prot' flags) (s, x, x + delta))
    (fun s' => stp x y s s' /\ rm s'.1 n).
Proof.
  intros Hg Hx Hxy Hy Cx Cy Es Hp2 Hp3 Hplan Hrm. pose proof J as [_ _ _ Halign _ _].
  assert (E21 : forall a, x <= a < y -> slot_of 2 a = slot_of 2 x) by (intros a Ha'; apply slot_2, (same_between 21 x y a); [lia|done|lia]).
  assert (Hpage : forall a, cutp 16 a -> a mod 4096 = 0) by (intros a [-> | [-> | Hm]]; [lia|lia|by apply (mod_finer a 16 12)]).
  apply (conts_ok 16 ltac:(lia) (fun s a b phys q => init_pte s (p2 + 8 * idx 2 x) a b phys q) x y prot' (fun _ _ => 0));
    [done..|lia|lia|done|intros va Hva; by apply Hplan| |done|destruct Hrm; lia].
  intros s1 a b m Hst Ha Hab Hb Ca Cb Eab Hf Hm Hm0. rewrite <- (idx_slot 2 a x) by (apply E21; lia).
  apply returns_mono with (P := fun s' => stp a b s1 s' /\ s'.1 = s1.1); [|intros s' [Hst' Es']; split; [done|by rewrite Es']].
  apply (init_pte_ok root hi A0 E0 delta prot flags J ta s1 a b _ p2 p3); [apply Hst|lia..|by apply Hpage|by apply Hpage| | | |].
  - assert (H1 := E21 a ltac:(lia)). assert (H2 := E21 (b - 1) ltac:(lia)). change (slot_of 2 a = slot_of 2 (b - 1)). congruence.
  - apply (stp_tab x a s s1 2 a x p2 Hst); [lia|lia|lia| |done]. apply pos_of_slot; [lia|]. apply E21. lia.
  - apply (stp_tab x a s s1 3 a x p3 Hst); [lia|lia|lia| |done]. rewrite !pos_S. apply E21. lia.
  - intros va Hva. destruct (Hplan va ltac:(lia)) as (Hlv & Hp & _). split; [done|]. split; [|by apply Hf].
    unfold plan_desc. rewrite Hlv. unfold page_desc, prot_16. rewrite Hp.
    rewrite (fits_mate A0 E0 delta 16 va a); [done|]. by apply (same_between 16 a b va).
Qed.

Lemma alloc_init_cont_pte_ok s x y prot' p2 n :
  good_s s -> A0 <= x -> x < y -> y <= E0 -> cutp 21 x -> cutp 21 y -> x / 2 ^ 21 = (y - 1) / 2 ^ 21 ->
  tab root s.2 2 x = Some p2 -> (forall va, x <= va < y -> lv va = 3%nat /\ p25 va = prot' /\ fill s va) ->
  rm s.1 (1 + n) -> 0 <= n ->
  returns (alloc_init_cont_pte alloc s (p2 + 8 * idx 2 x) x y (x + delta) prot' flags) (fun s' => stp x y s s' /\ rm s'.1 n).
Proof.
  intros Hg Hx Hxy Hy Cx Cy Es Hp2 Hplan Hrm Hn. destruct (Hplan x ltac:(lia)) as (Hlv & _ & Hf).
  destruct (ensure_table root hi A0 E0 delta prot flags J ta s 2 x p2 n ltac:(lia) Hg ltac:(lia) Hp2 Hf ltac:(lia) Hrm Hn) as (e & He & Hbits & Hens).
  unfold alloc_init_cont_pte. rewrite He, bind_ret. rewrite BUG_ON_false by (by apply not_sect).
  apply returns_bind with (1 := Hens). intros [s1 d] (Hst & Hrm1 & Hd & Hld & p3 & Hp3 & _).
  rewrite BUG_ON_false by exact (proj1 (bits_3 d Hd)).
  assert (Hr : returns (loop (Z.to_nat (u64 (y - x) / CONT_PTE_SIZE) + 2) (cont_pte_turn (p2 + 8 * idx 2 x) y prot' flags) (s1, x, x + delta))
    (fun s' => stp x y s1 s' /\ rm s'.1 n)).
  { apply cont_pte_ok with (p3 := p3); [apply Hst|lia..|apply (cut_finer A0 E0 21); [lia|done]|apply (cut_finer A0 E0 21); [lia|done]|done| |done| |done].
    - apply (stp_tab x x s s1 2 x x p2 Hst); [lia|lia|lia|done|done].
    - intros va Hva. destruct (Hplan va Hva) as (? & ? & Hfv). split; [done|]. split; [done|]. apply (stp_fill x x s s1); [done|lia|lia|done]. }
  apply (returns_mono _ _ _ Hr). intros s' [Hst' Hrm']. split; [by apply (stp_trans x x y s s1 s'); [lia..| |]|done].
Qed.
(** *** Blocks *)

Lemma lv_block l va a : (l = 1%nat \/ l = 2%nat) -> slot_of l va = slot_of l a -> lv a = l -> lv va = l.
Proof.
  intros Hl E Ha. unfold plan_level in *. destruct Hl as [-> | ->].
  - by rewrite (fits_mate A0 E0 delta 30 va a E), (proj2 (andb_true_iff _ _)) by (destruct (fit 30 a), (_ =? 0); simpl in *; try done; destruct (fit 21 a); done).
  - assert (E30 : slot_of 1 va = slot_of 1 a) by (apply (slot_coarser 2); [lia|lia|done]).
    rewrite (fits_mate A0 E0 delta 21 va a E), (fits_mate A0 E0 delta 30 va a E30). done.
Qed.

Lemma block_step s k l a p prot' :
  (l = 1%nat /\ k = 30 \/ l = 2%nat /\ k = 21) -> good_s s -> A0 <= a < E0 -> tab root s.2 l a = Some p -> lv a = l -> fit k a = true ->
  a = a / 2 ^ k * 2 ^ k -> (forall va, slot_of l va = slot_of l a -> newd va = block_desc k delta prot' va) -> fill s a ->
  exists old, s.2 !! (p + 8 * idx l a) = Some old /\
    pgattr_change_is_safe old (newd a) = true /\
    pfn_pte (__phys_to_pfn (a + delta)) (Z.lor 1 (mk_sect_prot prot')) = newd a /\ (Z.land (a + delta) (2 ^ k - 1) =? 0) = true /\
    stp a (a + 2 ^ k) s (s.1, <[p + 8 * idx l a := newd a]> s.2).
Proof.
  intros Hlk Hg Ha Hp Hlv Hf Hbase Hnew Hfl. assert (Hk : shift l = k /\ (l <= 3)%nat /\ 12 <= k <= 39) by (destruct Hlk as [[-> ->]|[-> ->]]; split; done || lia).
  destruct Hk as (Hk & Hl & Hk12). destruct (fits_base A0 E0 delta k a Hf) as (H1 & H2 & H3). pose proof (pow_pos k ltac:(lia)) as Hp2.
  assert (Hin : forall va, slot_of l va = slot_of l a -> A0 <= va < E0).
  { intros va E. unfold slot_of in E. rewrite Hk in E. pose proof (Z.div_mod va (2 ^ k) ltac:(lia)). pose proof (Z.mod_pos_bound va (2 ^ k) Hp2). rewrite E in *. lia. }
  destruct (leaf_step root hi A0 E0 delta prot flags J ta s l p a Hg Hl Ha Hp) as (old & Hold & Hsafe & Hst); [|done|].
  { intros va E. split; [by apply Hin|]. split; [apply (lv_block l va a); [tauto|done|done]|].
    rewrite (Hnew va E), (Hnew a eq_refl). unfold block_desc. unfold slot_of in E. rewrite Hk in E. by rewrite E. }
  exists old. split; [done|]. split; [done|]. rewrite (Hnew a eq_refl) in *.
  assert (Hpg : page (a / 2 ^ k * 2 ^ k + delta)) by (apply (base_page hi A0 E0 delta prot J); [done|lia|apply base_low; lia]).
  split; [|split].
  - rewrite Hbase at 1. by rewrite pfn_pte_page.
  - rewrite phys_aligned by lia. rewrite Hbase at 1. by rewrite H3.
  - unfold slot_of in Hst. rewrite Hk, <- Hbase in Hst. exact Hst.
Qed.

(** *** A loop that puts down blocks, or goes one level down

    [init_pmd] and [alloc_init_pud] are the same loop, over slots of 2^k bytes. *)

Section blocks.
Context (k : Z) (l : nat) (Hlk : l = 1%nat /\ k = 30 \/ l = 2%nat /\ k = 21).
Context (sub : A * mem -> Z -> Z -> Z -> Z -> Z -> Z -> outcome (A * mem)).

Definition set_huge (s : A * mem) (p phys prot : Z) : outcome (Z * (A * mem)) :=
  let new := pfn_pte (__phys_to_pfn phys) (Z.lor 1 (mk_sect_prot prot)) in
  d ← ld s.2 p;
  if negb (pgattr_change_is_safe d new) then Ret (0, s)
  else _ ← BUG_ON (negb (Z.land phys (2 ^ k - 1) =? 0)); s ← put s p new; Ret (1, s).
Definition block_turn (end_ prot flags : Z) (x : (A * mem) * Z * Z * Z) : outcome ((A * mem) * Z * Z * Z + A * mem) :=
  let '(s, p, addr, phys) := x in
  old ← ld s.2 p;
  let next := addr_end (2 ^ k) addr end_ in
  s ← (if aligned3 (2 ^ k) addr next phys && (Z.land flags NO_BLOCK_MAPPINGS =? 0) then
         '(_, s) ← set_huge s p phys prot;
         new ← ld s.2 p; _ ← BUG_ON (negb (pgattr_change_is_safe old new)); Ret s
       else
         s ← sub s p addr next phys prot flags;
         new ← ld s.2 p; _ ← BUG_ON (negb (old =? 0) && negb (old =? new)); Ret s);
  let phys := u64 (phys + u64 (next - addr)) in
  if negb (next =? end_) then Ret (inl (s, p + 8, next, phys)) else Ret (inr s).

Context (x y prot' p : Z) (cost : Z -> Z -> Z).
Context (Hx : A0 <= x) (Hxy : x < y) (Hy : y <= E0) (Cx : cutp k x) (Cy : cutp k y).
Context (Hpos : forall a, x <= a < y -> pos l a = pos l x).
Context (Hcost : forall a b, a < b -> 0 <= cost a b) (Hsplit : forall a b c, b mod 2 ^ k = 0 -> cost a b + cost b c = cost a c).
Context (Hblock : forall va, x <= va < y -> lv va = l -> newd va = block_desc k delta prot' va).
Context (Hsub : forall s a b n, good_s s -> x <= a -> a < b -> b <= y -> cutp k a -> cutp k b -> a / 2 ^ k = (b - 1) / 2 ^ k ->
  tab root s.2 l a = Some p -> (forall va, a <= va < b -> (l < lv va)%nat /\ fill s va) -> rm s.1 (cost a b + n) -> 0 <= n ->
  returns (sub s (p + 8 * idx l a) a b (a + delta) prot' flags) (fun s' => stp a b s s' /\ rm s'.1 n)).

Lemma blk_k : shift l = k /\ (l <= 3)%nat /\ 12 <= k <= 39.
Proof. destruct Hlk as [[-> ->]|[-> ->]]; split; done || lia. Qed.

(** What a turn leaves to the next one. *)
Definition block_inv (n : Z) (s : A * mem) (t : (A * mem) * Z * Z * Z) : Prop :=
  let '(s1, q, addr, phys) := t in part_inv k x y s s1 addr phys /\ q = p + 8 * idx l addr /\ rm s1.1 (rest cost y addr n).
Definition block_done (n : Z) (s : A * mem) (addr : Z) (r : (A * mem) * Z * Z * Z + A * mem) : Prop :=
  match r with
  | inl t' => block_inv n s t' /\ (let '(_, _, addr0, _) := t' in addr0) = slot_end k addr
  | inr s' => stp x y s s' /\ rm s'.1 n
  end.

Lemma block_next s s1 s2 addr n : 0 <= n -> part_inv k x y s s1 addr (addr + delta) ->
  let next := addr_end (2 ^ k) addr y in stp addr next s1 s2 -> rm s2.1 (rest cost y next n) ->
  returns (let phys := u64 (addr + delta + u64 (next - addr)) in
    if negb (next =? y) then Ret (inl (s2, p + 8 * idx l addr + 8, next, phys)) else Ret (inr s2)) (block_done n s addr).
Proof.
  intros Hn Hinv next Hst2 Hrm2. destruct blk_k as (Hk & Hl & Hk12).
  destruct (part_next k x y s s1 s2 addr Hk12 Hx Hy Cy Hinv Hst2) as (Eph & Hend & Hmore). fold next in Eph, Hend, Hmore.
  cbn zeta. rewrite Eph. unfold rest in Hrm2. destruct (Z.eqb_spec next y) as [E|E]; cbn [negb returns].
  - split; [by apply Hend|done].
  - destruct (Hmore E) as (Hinv' & E' & _ & Ed). split; [|done]. split; [done|]. split.
    + destruct Hinv as (? & _), Hinv' as (? & _).
      rewrite (idx_next l addr next); [lia|done|unfold slot_of; by rewrite Hk|]. by rewrite (Hpos next), (Hpos addr) by lia.
    + unfold rest. by rewrite (proj2 (Z.eqb_neq next y)).
Qed.

(** The turn that puts down a block. *)
Lemma block_put s s1 addr n : 0 <= n -> part_inv k x y s s1 addr (addr + delta) -> tab root s1.2 l addr = Some p -> rm s1.1 (rest cost y addr n) ->
  fill s1 addr -> (l <= lv addr)%nat -> fit k addr && (Z.land flags NO_BLOCK_MAPPINGS =? 0) = true ->
  returns (block_turn y prot' flags (s1, p + 8 * idx l addr, addr, addr + delta)) (block_done n s addr).
Proof.
  intros Hn Hinv Hp Hrm1 Hf Hlv Eblk. destruct blk_k as (Hk & Hl & Hk12). pose proof Hinv as (Ha & Ca & _ & Hst).
  destruct (next_part hi A0 E0 delta prot J k addr y Hk12 ltac:(lia) Hy Ca Cy) as (Hnx & En & Cn & Hne).
  unfold block_turn. set (next := addr_end (2 ^ k) addr y) in *.
  destruct (aligned_fits hi A0 E0 delta prot J k addr next Hk12 ltac:(lia) ltac:(lia) ltac:(lia) En Ca Cn) as [Eal Hfull].
  pose proof Eblk as [Hfit Hfl]%andb_true_iff. destruct (Hfull Hfit) as [Hbase Hnext].
  assert (Hlve : lv addr = l).
  { unfold plan_level in Hlv |- *. destruct Hlk as [[-> ->]|[-> ->]]; [by rewrite Eblk|]. rewrite Eblk in *.
    destruct (fit 30 addr && _); [lia|done]. }
  destruct (block_step s1 k l addr p prot' Hlk (st_good _ _ _ _ _ _ _ _ _ _ _ _ Hst) ltac:(lia) Hp Hlve Hfit Hbase) as (old & Hold & Hsafe & Enew & Hal & Hst2); [|done|].
  { intros va E. assert (E' : va / 2 ^ k = addr / 2 ^ k) by (rewrite <- Hk; exact E). apply Hblock.
    - pose proof (pow_pos k ltac:(lia)). pose proof (Z.div_mod va (2 ^ k) ltac:(lia)). pose proof (Z.mod_pos_bound va (2 ^ k) ltac:(lia)) as Hm. rewrite E' in *. lia.
    - apply (lv_block l va addr); [tauto|done|done]. }
  rewrite (ld_some _ _ _ Hold), bind_ret, Eal, Eblk. unfold set_huge. rewrite (ld_some _ _ _ Hold), bind_ret, Enew, Hsafe, Hal. cbn [negb].
  rewrite BUG_ON_false by done. rewrite (put_some s1 _ _ _ Hold), !bind_ret. cbn [fst snd].
  rewrite (ld_some _ _ (newd addr)) by apply lookup_insert_eq. rewrite bind_ret, Hsafe, BUG_ON_false, bind_ret by done.
  rewrite <- Hnext in Hst2. apply block_next with (s1 := s1); [done|done|done|]. cbn [fst]. fold next.
  destruct (rest_split cost k y addr next n Hcost Hsplit ltac:(lia) ltac:(lia)) as [Er Hr0]; [intros E; by apply Hne|done|].
  apply (room_weaken ta _ (rest cost y addr n)); [done|]. pose proof (Hcost addr next ltac:(lia)). lia.
Qed.

(** The turn that goes one level down. *)
Lemma block_descend s s1 addr n : 0 <= n -> part_inv k x y s s1 addr (addr + delta) -> tab root s1.2 l addr = Some p -> rm s1.1 (rest cost y addr n) ->
  (forall va, addr <= va < y -> (l <= lv va)%nat /\ fill s1 va) -> fit k addr && (Z.land flags NO_BLOCK_MAPPINGS =? 0) = false ->
  returns (block_turn y prot' flags (s1, p + 8 * idx l addr, addr, addr + delta)) (block_done n s addr).
Proof.
  intros Hn Hinv Hp Hrm1 Hplan Eblk. destruct blk_k as (Hk & Hl & Hk12). pose proof Hinv as (Ha & Ca & _ & Hst).
  destruct (next_part hi A0 E0 delta prot J k addr y Hk12 ltac:(lia) Hy Ca Cy) as (Hnx & En & Cn & Hne).
  unfold block_turn. set (next := addr_end (2 ^ k) addr y) in *.
  destruct (aligned_fits hi A0 E0 delta prot J k addr next Hk12 ltac:(lia) ltac:(lia) ltac:(lia) En Ca Cn) as [Eal _].
  pose proof (st_good _ _ _ _ _ _ _ _ _ _ _ _ Hst) as Hg1. destruct (Hplan addr ltac:(lia)) as [Hlv Hf].
  assert (Hlow : (l < lv addr)%nat).
  { unfold plan_level in Hlv |- *. destruct Hlk as [[-> ->]|[-> ->]]; rewrite Eblk in *; [destruct (fit 21 addr && _); lia|].
    destruct (fit 30 addr && _); lia. }
  assert (Hl3 : (l < 3)%nat) by lia.
  destruct (table_or_empty root hi A0 E0 delta prot flags J ta s1 l addr p Hl3 Hg1 ltac:(lia) Hp Hf Hlow) as (old & Hold & Hslot & Hc).
  destruct (rest_split cost k y addr next n Hcost Hsplit ltac:(lia) ltac:(lia)) as [Er Hr0]; [intros E; by apply Hne|done|]. rewrite Er in Hrm1.
  assert (Hr := Hsub s1 addr next (rest cost y next n) Hg1 ltac:(lia) ltac:(lia) ltac:(lia) Ca Cn En Hp).
  destruct (returns_inv _ _ (Hr ltac:(intros va Hva; split;
    [apply (lv_mate A0 E0 delta flags l addr va Hl3); [unfold slot_of; rewrite Hk; symmetry; apply (same_between k addr next va); [lia|done|done]|done]
    |apply Hplan; lia]) Hrm1 Hr0)) as (s2 & E2 & Hst2 & Hrm2). clear Hr.
  rewrite (ld_some _ _ _ Hold), bind_ret, Eal, Eblk, E2, bind_ret.
  assert (Hnew : exists w, s2.2 !! (p + 8 * idx l addr) = Some w /\ (old = 0 \/ w = old)).
  { assert (Hp2 : tab root s2.2 l addr = Some p) by (apply (stp_tab addr next s1 s2 l addr addr p Hst2); [done|lia|lia|done|done]).
    destruct Hc as [[-> _]|Ht].
    - destruct (wf_page root hi s2.2 (good_wf root hi ta s2 (st_good _ _ _ _ _ _ _ _ _ _ _ _ Hst2)) l addr p Hl (inh addr ltac:(lia)) Hp2) as [_ Hi].
      destruct (Hi (idx l addr) (idx_bound l addr)) as [w Hw]. exists w. split; [done|by left].
    - exists old. split; [|by right]. rewrite <- (lookup_slot root s2.2 l addr p Hp2).
      apply (st_slot root hi A0 E0 delta prot flags ta addr next s1 s2 Hst2); [done|apply inh; lia|done|done]. }
  destruct Hnew as (w & Hw & Hcase). rewrite (ld_some _ _ _ Hw), bind_ret.
  rewrite BUG_ON_false by (destruct Hcase as [-> | ->]; [done|]; rewrite Z.eqb_refl; apply andb_false_r).
  rewrite bind_ret. by apply block_next with (s1 := s1).
Qed.

Lemma blocks_ok s n : good_s s -> tab root s.2 l x = Some p -> (forall va, x <= va < y -> (l <= lv va)%nat /\ fill s va) ->
  rm s.1 (cost x y + n) -> 0 <= n ->
  returns (loop (Z.to_nat (u64 (y - x) / 2 ^ k) + 2) (block_turn y prot' flags) (s, p + 8 * idx l x, x, x + delta))
    (fun s' => stp x y s s' /\ rm s'.1 n).
Proof.
  intros Hg Hp Hplan Hrm Hn. pose proof J as [Hrange _ _ _ _ _]. destruct blk_k as (Hk & Hl & Hk12).
  destruct (loop_fuel k x y ltac:(lia) ltac:(lia) Hxy ltac:(lia)) as (-> & Hf0 & Hf).
  apply chunk_loop with (k := k) (y := y) (cur := fun '(_, _, addr, _) => addr) (J := block_inv n s); [lia| |done|done|].
  - split; [by apply part_first|]. split; [done|]. unfold rest. by rewrite (proj2 (Z.eqb_neq x y)) by lia.
  - intros [[[s1 q] addr] phys] (Hinv & -> & Hrm1). pose proof Hinv as (Ha & Ca & -> & Hst). split; [lia|].
    assert (Hp1 : tab root s1.2 l addr = Some p) by (apply (stp_tab x addr s s1 l addr x p Hst); [done|lia|lia|apply Hpos; lia|done]).
    assert (Hplan1 : forall va, addr <= va < y -> (l <= lv va)%nat /\ fill s1 va).
    { intros va Hva. destruct (Hplan va ltac:(lia)) as [? ?]. split; [done|]. apply (stp_fill x addr s s1); [done|lia|lia|done]. }
    destruct (fit k addr && (Z.land flags NO_BLOCK_MAPPINGS =? 0)) eqn:Eblk; [|by apply block_descend].
    destruct (Hplan1 addr ltac:(lia)). by apply block_put.
Qed.
End blocks.
End create.

(** ** [__create_pgd_mapping] as a whole *)

Section top.
Context (root hi A0 E0 delta prot flags : Z).
Context (J : range_ok hi A0 E0 delta prot).
Context {A : Type} (ta : option (table_allocator A)).

Abbreviation lv := (plan_level A0 E0 delta flags).
Abbreviation newd := (plan_desc A0 E0 delta prot flags).
Abbreviation p25 := (prot_25 A0 E0 delta prot flags).
Abbreviation alloc := (ta_alloc <$> ta).
Abbreviation good_s := (good root hi ta).
Abbreviation fill := (fillable root A0 E0 delta prot flags ta).
Abbreviation stp := (step root hi A0 E0 delta prot flags ta).
Abbreviation rm := (room ta).
Abbreviation inh := (range_inhi hi A0 E0 delta prot J).
Abbreviation cutp := (cut A0 E0).
Abbreviation goodp := (st_good root hi A0 E0 delta prot flags ta).

Lemma coarser k k' a b : 0 <= k <= k' -> a / 2 ^ k = b / 2 ^ k -> a / 2 ^ k' = b / 2 ^ k'.
Proof.
  intros Hk E. replace k' with (k + (k' - k)) by lia. pose proof (pow_pos k ltac:(lia)). pose proof (pow_pos (k' - k) ltac:(lia)).
  rewrite Z.pow_add_r, <- !Z.div_div by lia. by rewrite E.
Qed.

Lemma slots_split' k k' a b c : 0 <= k <= k' -> b mod 2 ^ k' = 0 -> slots k a b + slots k b c = slots k a c.
Proof. intros Hk Hm. apply slots_split; [lia|]. by apply mod_finer with k'. Qed.

Lemma slots_one k a b : a / 2 ^ k = (b - 1) / 2 ^ k -> slots k a b = 1.
Proof. unfold slots. lia. Qed.

(** The table pages [__create_pgd_mapping] needs at most: one for each level
    under each slot the range meets. *)
Definition cost1 (a b : Z) : Z := slots 21 a b.
Definition cost2 (a b : Z) : Z := slots 30 a b + slots 21 a b.
Definition cost3 (a b : Z) : Z := slots 39 a b + cost2 a b.

Lemma cost1_nonneg a b : a < b -> 0 <= cost1 a b.
Proof. intros. unfold cost1. pose proof (slots_pos 21 a b). lia. Qed.
Lemma cost2_nonneg a b : a < b -> 0 <= cost2 a b.
Proof. intros. unfold cost2. pose proof (slots_pos 30 a b). pose proof (slots_pos 21 a b). lia. Qed.
Lemma cost1_split k a b c : 21 <= k -> b mod 2 ^ k = 0 -> cost1 a b + cost1 b c = cost1 a c.
Proof. intros Hk Hm. apply (slots_split' 21 k); [lia|done]. Qed.
Lemma cost2_split k a b c : 30 <= k -> b mod 2 ^ k = 0 -> cost2 a b + cost2 b c = cost2 a c.
Proof.
  intros Hk Hm. unfold cost2. pose proof (slots_split' 21 k a b c ltac:(lia) Hm). pose proof (slots_split' 30 k a b c ltac:(lia) Hm). lia.
Qed.
Lemma cost3_split a b c : b mod 2 ^ 39 = 0 -> cost3 a b + cost3 b c = cost3 a c.
Proof.
  intros Hm. unfold cost3. pose proof (slots_split' 39 39 a b c ltac:(lia) Hm). pose proof (cost2_split 39 a b c ltac:(lia) Hm). lia.
Qed.

(** *** The pmd level *)

Lemma init_pmd_ok s x y prot' p1 p2 n :
  good_s s -> A0 <= x -> x < y -> y <= E0 -> cutp 21 x -> cutp 21 y -> x / 2 ^ 30 = (y - 1) / 2 ^ 30 ->
  tab root s.2 1 x = Some p1 -> tab root s.2 2 x = Some p2 ->
  (forall va, x <= va < y -> (2 <= lv va)%nat /\ p25 va = prot' /\ fill s va) -> rm s.1 (cost1 x y + n) -> 0 <= n ->
  returns (init_pmd alloc s (p1 + 8 * idx 1 x) x y (x + delta) prot' flags) (fun s' => stp x y s s' /\ rm s'.1 n).
Proof.
  intros Hg Hx Hxy Hy Cx Cy Es Hp1 Hp2 Hplan Hrm Hn.
  unfold init_pmd, pmd_offset_phys. destruct (tab_S_inv root s.2 1 x p2 Hp2) as (e & He & _ & Ep2). rewrite (lookup_slot root s.2 1 x p1 Hp1) in He.
  rewrite (ld_some _ _ _ He), !bind_ret. fold (next_table e). rewrite <- Ep2, pmd_index_ok, (Z.mul_comm (idx 2 x)).
  apply (blocks_ok root hi A0 E0 delta prot flags J ta 21 2 ltac:(right; done) (alloc_init_cont_pte alloc) x y prot' p2 cost1);
    [lia|done|done|done|done| |apply cost1_nonneg|intros a b c; apply cost1_split; lia| | |done|done| |done|done].
  - intros a Ha. rewrite !pos_S. exact (same_between 30 x y a ltac:(lia) Es Ha).
  - intros va Hva Hl. destruct (Hplan va Hva) as (_ & Hp & _). unfold plan_desc. by rewrite Hl, Hp.
  - intros s1 a b m Hg1 Ha Hab Hb Ca Cb Eab Hp Hpl Hm Hm0.
    apply alloc_init_cont_pte_ok; [done|done|lia|done|lia|done|done|done|done| | |done].
    + intros va Hva. destruct (Hpl va Hva) as [Hlow Hf]. destruct (Hplan va ltac:(lia)) as (_ & Hpv & _).
      pose proof (lv_range A0 E0 delta flags va). split; [lia|done].
    + unfold cost1 in Hm. by rewrite (slots_one 21 a b Eab) in Hm.
  - intros va Hva. destruct (Hplan va Hva) as (? & _ & ?). done.
Qed.

Lemma alloc_init_cont_pmd_ok s x y p1 n :
  good_s s -> A0 <= x -> x < y -> y <= E0 -> cutp 30 x -> cutp 30 y -> x / 2 ^ 30 = (y - 1) / 2 ^ 30 ->
  tab root s.2 1 x = Some p1 -> (forall va, x <= va < y -> (1 < lv va)%nat /\ fill s va) ->
  rm s.1 (cost2 x y + n) -> 0 <= n ->
  returns (alloc_init_cont_pmd alloc s (p1 + 8 * idx 1 x) x y (x + delta) prot flags) (fun s' => stp x y s s' /\ rm s'.1 n).
Proof.
  intros Hg Hx Hxy Hy Cx Cy Es Hp1 Hplan Hrm Hn. destruct (Hplan x ltac:(lia)) as [Hlv Hf].
  unfold cost2 in Hrm. rewrite (slots_one 30 x y Es), <- Z.add_assoc in Hrm. pose proof (slots_pos 21 x y ltac:(lia) Hxy) as Hs1.
  destruct (ensure_table root hi A0 E0 delta prot flags J ta s 1 x p1 (slots 21 x y + n) ltac:(lia) Hg ltac:(lia) Hp1 Hf ltac:(lia) Hrm ltac:(lia))
    as (e & He & Hbits & Hens).
  unfold alloc_init_cont_pmd. rewrite He, bind_ret. rewrite BUG_ON_false by (by apply not_sect).
  apply returns_bind with (1 := Hens). intros [s1 d] (Hst & Hrm1 & Hd & Hld & p2 & Hp2 & _).
  rewrite BUG_ON_false by exact (proj1 (bits_3 d Hd)).
  assert (Hfill : forall va, x <= va < y -> (2 <= lv va)%nat /\ fill s1 va).
  { intros va Hva. destruct (Hplan va Hva) as [? ?]. split; [lia|].
    apply (stp_fill root hi A0 E0 delta prot flags J ta x x s s1); [done|lia|lia|done]. }
  assert (E1 : forall a, x <= a < y -> slot_of 1 a = slot_of 1 x) by (intros a Ha; exact (same_between 30 x y a ltac:(lia) Es Ha)).
  assert (Hr : returns (loop (Z.to_nat (u64 (y - x) / 2 ^ 25) + 2) (cont_pmd_turn alloc (p1 + 8 * idx 1 x) y prot flags) (s1, x, x + delta))
    (fun s' => stp x y s1 s' /\ rm s'.1 n)).
  { apply (conts_ok root hi A0 E0 delta prot flags J ta 25 ltac:(lia)
      (fun s a b phys q => init_pmd alloc s (p1 + 8 * idx 1 x) a b phys q flags) x y prot cost1);
      [done|done|done|apply (cut_finer A0 E0 30); [lia|done]|apply (cut_finer A0 E0 30); [lia|done]|apply cost1_nonneg
      |intros a b c; apply cost1_split; lia|apply (goodp x x s s1 Hst)|intros va Hva; by apply Hfill| |done|done].
    intros s2 a b m Hst2 Ha Hab Hb Ca Cb Eab Hf2 Hm Hm0. rewrite <- (idx_slot 1 a x) by (apply E1; lia).
    assert (Htab : forall l p, (l = 1 \/ l = 2)%nat -> tab root s1.2 l x = Some p -> tab root s2.2 l a = Some p).
    { intros l p Hl. apply (stp_tab root hi A0 E0 delta prot flags J ta x a s1 s2 l a x p Hst2); [lia|lia|lia|].
      destruct Hl as [-> | ->]; [apply pos_of_slot; [lia|]|rewrite !pos_S]; apply E1; lia. }
    apply init_pmd_ok with (p2 := p2); [apply (goodp x a s1 s2 Hst2)|lia|lia|lia|apply (cut_finer A0 E0 25); [lia|done]
      |apply (cut_finer A0 E0 25); [lia|done]|by apply (coarser 25 30); [lia|]| | | |done|done].
    - apply Htab; [by left|]. apply (stp_tab root hi A0 E0 delta prot flags J ta x x s s1 1 x x p1 Hst); [lia|lia|lia|done|done].
    - apply Htab; [by right|done].
    - intros va Hva. split; [apply Hfill; lia|]. split; [|by apply Hf2]. unfold prot_25.
      rewrite (fits_mate A0 E0 delta 25 va a); [done|]. by apply (same_between 25 a b va); [lia| |]. }
  apply (returns_mono _ _ _ Hr). intros s' [Hst' Hrm']. split; [|done].
  by apply (stp_trans root hi A0 E0 delta prot flags J ta x x y s s1 s'); [lia..| |].
Qed.

(** *** The pud level *)

Lemma pud_turn_blocks end_ p f t : alloc_init_pud_turn alloc end_ p f t = block_turn 30 (alloc_init_cont_pmd alloc) end_ p f t.
Proof.
  destruct t as [[[s q] a] ph]. unfold alloc_init_pud_turn, block_turn. change pud_addr_end with (addr_end (2 ^ 30)).
  change (use_1G_block a (addr_end (2 ^ 30) a end_) ph) with (aligned3 (2 ^ 30) a (addr_end (2 ^ 30) a end_) ph).
  unfold pud_set_huge, set_huge. change PUD_TYPE_SECT with 1. change PUD_SIZE with (2 ^ 30). reflexivity.
Qed.

Lemma alloc_init_pud_ok s x y n :
  good_s s -> A0 <= x -> x < y -> y <= E0 -> cutp 39 x -> cutp 39 y -> x / 2 ^ 39 = (y - 1) / 2 ^ 39 ->
  (forall va, x <= va < y -> fill s va) -> rm s.1 (cost3 x y + n) -> 0 <= n ->
  returns (alloc_init_pud alloc s (root + 8 * idx 0 x) x y (x + delta) prot flags) (fun s' => stp x y s s' /\ rm s'.1 n).
Proof.
  intros Hg Hx Hxy Hy Cx Cy Es Hplan Hrm Hn. pose proof (lv_range A0 E0 delta flags) as Hlv.
  unfold cost3 in Hrm. rewrite (slots_one 39 x y Es), <- Z.add_assoc in Hrm. pose proof (cost2_nonneg x y Hxy) as Hs1.
  destruct (ensure_table root hi A0 E0 delta prot flags J ta s 0 x root (cost2 x y + n) ltac:(lia) Hg ltac:(lia) eq_refl
    (Hplan x ltac:(lia)) ltac:(specialize (Hlv x); lia) Hrm ltac:(lia)) as (e & He & Hbits & Hens).
  unfold alloc_init_pud. rewrite He, bind_ret.
  apply returns_bind with (1 := Hens). intros [s1 d] (Hst & Hrm1 & Hd & Hld & p1 & Hp1 & Ep1).
  rewrite BUG_ON_false by exact (proj1 (bits_3 d Hd)).
  unfold pud_offset_phys. rewrite Hld, !bind_ret, Ep1, pud_index_ok, (Z.mul_comm (idx 1 x)).
  assert (Hr : returns (loop (Z.to_nat (u64 (y - x) / 2 ^ 30) + 2) (alloc_init_pud_turn alloc y prot flags) (s1, p1 + 8 * idx 1 x, x, x + delta))
    (fun s' => stp x y s1 s' /\ rm s'.1 n)).
  { rewrite (loop_ext _ _ _ _ (pud_turn_blocks y prot flags)).
    apply (blocks_ok root hi A0 E0 delta prot flags J ta 30 1 ltac:(left; done) (alloc_init_cont_pmd alloc) x y prot p1 cost2);
      [lia|done|done|apply (cut_finer A0 E0 39); [lia|done]|apply (cut_finer A0 E0 39); [lia|done]| |apply cost2_nonneg
      |intros a b c; apply cost2_split; lia| | |apply (goodp x x s s1 Hst)|done| |done|done].
    - intros a Ha. rewrite !pos_S. exact (same_between 39 x y a ltac:(lia) Es Ha).
    - intros va Hva Hl. unfold plan_desc. by rewrite Hl.
    - intros s2 a b m Hg2 Ha Hab Hb Ca Cb Eab Hp Hpl Hm Hm0. apply alloc_init_cont_pmd_ok; [done|lia|done|lia|done|done|done|done|done|done|done].
    - intros va Hva. split; [apply Hlv|]. apply (stp_fill root hi A0 E0 delta prot flags J ta x x s s1); [done|lia|lia|by apply Hplan]. }
  apply (returns_mono _ _ _ Hr). intros s' [Hst' Hrm']. split; [|done].
  by apply (stp_trans root hi A0 E0 delta prot flags J ta x x y s s1 s'); [lia..| |].
Qed.

(** *** The whole range *)

Lemma pgd_loop_ok s n : good_s s -> (forall va, A0 <= va < E0 -> fill s va) -> rm s.1 (cost3 A0 E0 + n) -> 0 <= n ->
  returns (loop (Z.to_nat (u64 (E0 - A0) / PGDIR_SIZE) + 2) (pgd_turn alloc E0 prot flags) (s, root + 8 * idx 0 A0, A0, A0 + delta))
    (fun s' => stp A0 E0 s s' /\ rm s'.1 n).
Proof.
  intros Hg Hplan Hrm Hn. pose proof J as [Hrange Hlo Hhi _ _ _]. change PGDIR_SIZE with (2 ^ 39).
  assert (Hcost : forall a b, a < b -> 0 <= cost3 a b).
  { intros a b Hab. unfold cost3. pose proof (cost2_nonneg a b Hab). pose proof (slots_pos 39 a b). lia. }
  destruct (loop_fuel 39 A0 E0 ltac:(lia) ltac:(lia) ltac:(lia) ltac:(lia)) as (-> & Hf0 & Hf).
  apply chunk_loop with (k := 39) (y := E0) (cur := fun '(_, _, addr, _) => addr)
    (J := fun '(s1, p, addr, phys) => part_inv root hi A0 E0 delta prot flags ta 39 A0 E0 s s1 addr phys /\ p = root + 8 * idx 0 addr /\
       rm s1.1 (rest cost3 E0 addr n)); [lia| |done|done|].
  { split; [apply part_first; [done|lia|lia|by left]|]. split; [done|]. unfold rest. by rewrite (proj2 (Z.eqb_neq A0 E0)) by lia. }
  intros [[[s1 p] addr] phys] (Hinv & -> & Hrm1). pose proof Hinv as (Ha & Ca & -> & Hst). split; [lia|].
  destruct (next_part hi A0 E0 delta prot J 39 addr E0 ltac:(lia) ltac:(lia) ltac:(lia) Ca ltac:(by right; left)) as (Hnx & En & Cn & Hne).
  unfold pgd_turn. change (pgd_addr_end addr E0) with (addr_end (2 ^ 39) addr E0). set (next := addr_end (2 ^ 39) addr E0) in *.
  destruct (rest_split cost3 39 E0 addr next n Hcost cost3_split ltac:(lia) ltac:(lia)) as [Er Hr0]; [intros E; by apply Hne|done|]. rewrite Er in Hrm1.
  apply returns_bind with (1 := alloc_init_pud_ok s1 addr next (rest cost3 E0 next n) (goodp A0 addr s s1 Hst) ltac:(lia) ltac:(lia) ltac:(lia) Ca Cn En
    ltac:(intros va Hva; apply (stp_fill root hi A0 E0 delta prot flags J ta A0 addr s s1 va Hst); [lia|lia|apply Hplan; lia]) Hrm1 Hr0).
  intros s2 [Hst2 Hrm2].
  destruct (part_next root hi A0 E0 delta prot flags J ta 39 A0 E0 s s1 s2 addr ltac:(lia) ltac:(lia) ltac:(lia) ltac:(by right; left) Hinv Hst2) as (Eph & Hend & Hmore).
  fold next in Eph, Hend, Hmore. rewrite Eph. unfold rest in Hrm2.
  destruct (Z.eqb_spec next E0) as [E|E]; cbn [negb returns]; [split; [by apply Hend|done]|].
  destruct (Hmore E) as (Hinv' & E' & _ & Ed). split; [|done]. split; [done|]. split.
  - rewrite (idx_next 0 addr next); [lia|lia|exact Ed|]. apply (pos_0 hi); apply inh; lia.
  - unfold rest. by rewrite (proj2 (Z.eqb_neq next E0)).
Qed.

(** A request for the bytes [virt, virt + size) at [phys] covers the pages of the
    range. *)
Lemma create_pgd_mapping_ok s phys virt size n :
  0 <= virt < 2 ^ 64 -> 0 < size -> 0 <= phys < 2 ^ 64 -> phys mod 4096 = virt mod 4096 ->
  A0 = virt / 4096 * 4096 -> E0 = (virt + size + 4095) / 4096 * 4096 -> delta = phys - virt ->
  good_s s -> (forall va, A0 <= va < E0 -> fill s va) -> rm s.1 (cost3 A0 E0 + n) -> 0 <= n ->
  returns (__create_pgd_mapping alloc s root phys virt size prot flags) (fun s' => stp A0 E0 s s' /\ rm s'.1 n).
Proof.
  intros Hv Hsz Hph Hmod EA EE Ed Hg Hplan Hrm Hn. pose proof J as [Hrange Hlo Hhi Halign Hphys _].
  unfold __create_pgd_mapping. change (PAGE_SIZE - 1) with (2 ^ 12 - 1). rewrite !land_low by lia. unfold inv64. change (2 ^ 12) with 4096 in *.
  assert (Ex : Z.lxor phys virt mod 4096 = 0).
  { change 4096 with (2 ^ 12) in *. apply Z.bits_inj'. intros j Hj. rewrite Z.bits_0. destruct (Z.lt_ge_cases j 12).
    - rewrite Z.mod_pow2_bits_low, Z.lxor_spec, <- (Z.mod_pow2_bits_low phys 12 j), <- (Z.mod_pow2_bits_low virt 12 j), Hmod by lia. apply xorb_nilpotent.
    - by rewrite Z.mod_pow2_bits_high by lia. }
  rewrite Ex. cbn [Z.eqb negb]. change (ULLONG_MAX - (4096 - 1)) with (ULLONG_MAX - (2 ^ 12 - 1)).
  pose proof (Z.div_mod virt 4096 ltac:(lia)) as Dv. pose proof (Z.mod_pos_bound virt 4096 ltac:(lia)) as Mv.
  pose proof (Z.div_mod phys 4096 ltac:(lia)) as Dp. pose proof (Z.div_mod (virt + size + 4095) 4096 ltac:(lia)) as De.
  pose proof (Z.mod_pos_bound (virt + size + 4095) 4096 ltac:(lia)) as Me.
  assert (Elen : (size + virt mod 4096 + 4095) / 4096 = (virt + size + 4095) / 4096 - virt / 4096).
  { symmetry. apply Z.div_unique with ((virt + size + 4095) mod 4096); lia. }
  rewrite (u64_small (size + virt mod 4096)), (u64_small (size + virt mod 4096 + (4096 - 1))) by lia. rewrite !land_high_mask by lia. change (2 ^ 12) with 4096.
  change (4096 - 1) with 4095. rewrite Elen.
  replace (virt / 4096 * 4096 + ((virt + size + 4095) / 4096 - virt / 4096) * 4096) with E0 by lia. rewrite <- EA, (u64_small E0) by lia.
  unfold pgd_offset_raw. change (PTRS_PER_PGD) with 512. rewrite pgd_index_ok, (Z.mul_comm (idx 0 virt)).
  assert (Ei : idx 0 virt = idx 0 A0).
  { apply idx_slot. change (virt / 2 ^ 39 = A0 / 2 ^ 39). change (2 ^ 39) with (4096 * 2 ^ 27).
    rewrite <- !Z.div_div by lia. rewrite EA, Z.div_mul by lia. done. }
  rewrite Ei. replace (phys / 4096 * 4096) with (A0 + delta) by lia. by apply pgd_loop_ok.
Qed.
End top.
