(* ===== verification/MmuSpec.v ===== *)
(** * Translation, and several mappings one after another

    The walk of the hardware through four levels of 4K tables: what the tables
    are for.  The output address and the attributes (every bit of the leaf that is
    neither address, type nor contiguous hint) of an address are a function of
    where its walk ends.

    A request is one call of [__create_pgd_mapping] for whole pages.  Requests for
    disjoint ranges do not disturb each other: tables that one of them creates
    serve the others, and a walk that ended at an absent descriptor still does. *)
From stdpp Require Import base numbers list option gmap.
From Stdlib Require Import ZArith Lia.
From S2P Require Import Prelude Mmu MmuTables MmuStep MmuCreate.

Definition attrs (d : Z) : Z := Z.land d (inv64 (Z.lor (Z.lor PTE_ADDR_MASK 3) PTE_CONT)).
Definition out_addr (l : nat) (d va : Z) : Z := __pte_to_phys d / 2 ^ shift l * 2 ^ shift l + va mod 2 ^ shift l.

(** A descriptor that ends the walk: a page at level 3, a block at levels 1 and 2. *)
Definition leaf (l : nat) (d va : Z) : option (Z * Z) :=
  if Z.land d 3 =? (if (l =? 3)%nat then 3 else 1) then
    if (l =? 0)%nat then None else Some (out_addr l d va, attrs d)
  else None.

Fixpoint walk (m : mem) (n : nat) (p va : Z) : option (Z * Z) :=
  let l := (3 - n)%nat in
  d ← m !! (p + 8 * idx l va);
  match n with
  | O => leaf l d va
  | S n => if Z.land d 3 =? 3 then walk m n (__pte_to_phys d) va else leaf l d va
  end.
Definition translate (m : mem) (root va : Z) : option (Z * Z) := walk m 3 root va.

Section walk.
Context (root : Z).

Lemma walk_from m va l d k p : term root m va l d -> (k <= l)%nat -> tab root m k va = Some p -> walk m (3 - k) p va = leaf l d va.
Proof.
  intros Ht Hk. pose proof Ht as (Hl & Hs & Hn). remember (l - k)%nat as j eqn:Ej. revert k p Hk Ej.
  induction j as [|j IH]; intros k p Hk Ej Hp.
  - assert (k = l) by lia. subst k. unfold slot in Hs. rewrite Hp in Hs. cbn in Hs.
    destruct (3 - l)%nat as [|n] eqn:E3; cbn [walk].
    + assert (l = 3%nat) by lia. subst l. change (3 - 0)%nat with 3%nat. rewrite Hs. done.
    + replace (3 - S n)%nat with l by lia. rewrite Hs. cbn [mbind option_bind].
      unfold is_table in Hn. rewrite (proj2 (Nat.ltb_lt l 3)) in Hn by lia. simpl in Hn. by rewrite Hn.
  - destruct (tab_down root m l (S k) va) with (p := default 0 (tab root m l va)) as [q Hq]; [|lia|].
    { apply slot_tab in Hs as (r & -> & _). done. }
    destruct (tab_S_inv root m k va q Hq) as (e & He & Het & ->). unfold slot in He. rewrite Hp in He. cbn in He.
    destruct (3 - k)%nat as [|n] eqn:E3; [lia|]. cbn [walk]. replace (3 - S n)%nat with k by lia. rewrite He. cbn [mbind option_bind].
    rewrite (proj2 (Z.eqb_eq _ _) (is_table_bits k e Het)). cbn. replace n with (3 - S k)%nat by lia. apply IH; [lia|lia|exact Hq].
Qed.

Lemma translate_term m va l d : term root m va l d -> translate m root va = leaf l d va.
Proof. intros Ht. apply (walk_from m va l d 0 root Ht); [lia|done]. Qed.

Lemma leaf_zero l va : leaf l 0 va = None.
Proof. unfold leaf. by destruct (l =? 3)%nat. Qed.
End walk.

(** ** Attributes *)

Lemma attrs_lor a b : attrs (Z.lor a b) = Z.lor (attrs a) (attrs b).
Proof. apply Z.land_lor_distr_l. Qed.

Lemma attrs_page p : page p -> attrs p = 0.
Proof.
  intros Hp. unfold attrs. rewrite <- (page_mask p Hp), <- Z.land_assoc. by apply Z.land_0_r.
Qed.

Lemma attrs_sect prot : attrs (Z.lor 1 (mk_sect_prot prot)) = attrs prot.
Proof.
  rewrite attrs_lor. change (attrs 1) with 0. rewrite Z.lor_0_l. unfold attrs, mk_sect_prot. by rewrite <- Z.land_assoc.
Qed.

Lemma attrs_cont prot : attrs (Z.lor prot PTE_CONT) = attrs prot.
Proof. rewrite attrs_lor. change (attrs PTE_CONT) with 0. apply Z.lor_0_r. Qed.

Section plan_walk.
Context (hi A0 E0 delta prot flags : Z) (J : range_ok hi A0 E0 delta prot).

Lemma attrs_p25 va : attrs (prot_25 A0 E0 delta prot flags va) = attrs prot.
Proof. unfold prot_25. destruct (fits _ _ _ _ _ && _); [apply attrs_cont|done]. Qed.
Lemma attrs_p16 va : attrs (prot_16 A0 E0 delta prot flags va) = attrs prot.
Proof. unfold prot_16. destruct (fits _ _ _ _ _ && _); [rewrite attrs_cont|]; apply attrs_p25. Qed.

Lemma out_base k b va : 0 <= k -> page (va / 2 ^ k * 2 ^ k + delta) -> (va / 2 ^ k * 2 ^ k + delta) mod 2 ^ k = 0 -> Z.land b PTE_ADDR_MASK = 0 ->
  Z.land (Z.lor (va / 2 ^ k * 2 ^ k + delta) b) PTE_ADDR_MASK / 2 ^ k * 2 ^ k + va mod 2 ^ k = va + delta.
Proof.
  intros Hk Hp Hm Hb. rewrite page_lor_mask by done. pose proof (pow_pos k Hk).
  pose proof (Z.div_mod (va / 2 ^ k * 2 ^ k + delta) (2 ^ k) ltac:(lia)). pose proof (Z.div_mod va (2 ^ k) ltac:(lia)). lia.
Qed.

(** The planned descriptor translates its address to the requested place. *)
Lemma plan_translates va : A0 <= va < E0 ->
  leaf (plan_level A0 E0 delta flags va) (plan_desc A0 E0 delta prot flags va) va = Some (va + delta, attrs prot).
Proof.
  intros Hva. pose proof J as [_ _ _ Halign _ Hprot].
  assert (Hblk : forall k l p, (l = 1%nat /\ k = 30 \/ l = 2%nat /\ k = 21) -> fits A0 E0 delta k va = true -> page_prot p -> attrs p = attrs prot ->
    leaf l (block_desc k delta p va) va = Some (va + delta, attrs prot)).
  { intros k l p Hlk Hf Hpp Hat. destruct (fits_base A0 E0 delta k va Hf) as (H1 & H2 & H3).
    assert (Hk : shift l = k /\ 12 <= k <= 39 /\ (l =? 3)%nat = false /\ (l =? 0)%nat = false) by (destruct Hlk as [[-> ->]|[-> ->]]; done).
    destruct Hk as (Hk & Hk12 & El & E0l). pose proof (pow_pos k ltac:(lia)).
    assert (Hpg : page (va / 2 ^ k * 2 ^ k + delta)) by (apply (base_page hi A0 E0 delta prot J); [done|lia|apply base_low; lia]).
    destruct (sect_bits p Hpp) as [S1 S2]. unfold leaf, block_desc. rewrite El, E0l, page_lor_3, S1 by done. cbn [Z.eqb].
    unfold out_addr, __pte_to_phys. rewrite Hk, out_base, attrs_lor, attrs_page, attrs_sect, Hat by (done || lia). done. }
  unfold plan_desc, plan_level. destruct (fits A0 E0 delta 30 va) eqn:E30; simpl.
  1: destruct (Z.land flags NO_BLOCK_MAPPINGS =? 0); simpl; [by apply Hblk; [left|..]|].
  all: destruct (fits A0 E0 delta 21 va) eqn:E21; simpl.
  all: try (destruct (Z.land flags NO_BLOCK_MAPPINGS =? 0); simpl;
    [by apply Hblk; [right|..|apply (p25_prot hi A0 E0 delta prot flags J)|apply attrs_p25]|]).
  all: pose proof (page_base hi A0 E0 delta prot J va Hva); destruct (p16_prot hi A0 E0 delta prot flags J va) as [P1 P2].
  all: assert (Hpg : page (va / 2 ^ 12 * 2 ^ 12 + delta)) by (apply (base_page hi A0 E0 delta prot J); [lia|lia|by apply base_low]).
  all: unfold leaf, page_desc; rewrite page_lor_3, P1 by done; cbn [Z.eqb Nat.eqb].
  all: unfold out_addr, __pte_to_phys; change (shift 3) with 12; rewrite out_base, attrs_lor, attrs_page, attrs_p16 by (done || lia || apply Hpg); done.
Qed.
End plan_walk.

(** ** What the mapping functions promise *)

(** ** An empty root table *)

Lemma empty_term root va : page root -> term root (clear_page ∅ root) va 0 0.
Proof.
  intros Hr. split; [lia|]. split; [|done]. unfold slot. cbn [tab mbind option_bind]. apply clear_words_in.
  pose proof (idx_bound 0 va). lia.
Qed.

Lemma empty_tab root l va p : page root -> tab root (clear_page ∅ root) l va = Some p -> l = 0%nat /\ p = root.
Proof.
  intros Hr Ht. destruct l as [|l]; [split; [done|by injection Ht]|].
  by rewrite (term_no_tab root (clear_page ∅ root) va 0 0 (S l) (empty_term root va Hr) ltac:(lia)) in Ht.
Qed.

Lemma empty_good {A} root hi (ta : option (table_allocator A)) a : page root -> taken ta a root -> good root hi ta (a, clear_page ∅ root).
Proof.
  intros Hr Ht. split; simpl.
  - split.
    + intros l va p Hl _ Hp. destruct (empty_tab root l va p Hr Hp) as [-> ->]. split; [done|]. intros i Hi. exists 0. apply clear_words_in. lia.
    + intros l l' va va' p _ _ Hva Hva' Hp Hp'. destruct (empty_tab root l va p Hr Hp) as [-> _], (empty_tab root l' va' p Hr Hp') as [-> _].
      split; [done|]. by apply (pos_0 hi).
  - intros l va p _ _ Hp. by destruct (empty_tab root l va p Hr Hp) as [_ ->].
Qed.

(** ** Requests *)

Lemma request_range_ok hi phys virt size prot :
  let A0 := virt / 4096 * 4096 in let E0 := (virt + size + 4095) / 4096 * 4096 in let delta := phys - virt in
  0 <= virt -> 0 < size -> E0 < 2 ^ 64 -> A0 / 2 ^ 48 = hi /\ (E0 - 1) / 2 ^ 48 = hi -> 0 <= phys /\ E0 + delta <= 2 ^ 48 ->
  phys mod 4096 = virt mod 4096 -> page_prot prot -> range_ok hi A0 E0 delta prot.
Proof.
  intros A0 E0 delta Hv Hs He [Hl Hh] Hp Ho Hpr.
  pose proof (Z.div_mod virt 4096 ltac:(lia)). pose proof (Z.mod_pos_bound virt 4096 ltac:(lia)).
  pose proof (Z.div_mod phys 4096 ltac:(lia)). pose proof (Z.div_mod (virt + size + 4095) 4096 ltac:(lia)).
  pose proof (Z.mod_pos_bound (virt + size + 4095) 4096 ltac:(lia)).
  split; [unfold A0, E0 in *; lia|done|done| |unfold A0, E0, delta in *; lia|done].
  split; [by apply Z.mod_mul|]. split; [by apply Z.mod_mul|]. unfold delta.
  replace (phys - virt) with ((phys / 4096 - virt / 4096) * 4096) by lia. by apply Z.mod_mul.
Qed.

(** An allocator that hands out the pages from [a] on. *)
Definition bump_alloc (s : Z * mem) : outcome (Z * (Z * mem)) := Ret (s.1, (s.1 + 4096, clear_page s.2 s.1)).
Lemma bump_le a n k : (k <= n)%nat -> 0 <= a /\ a mod 4096 = 0 /\ a + 4096 * Z.of_nat n <= 2 ^ 48 ->
  0 <= a /\ a mod 4096 = 0 /\ a + 4096 * Z.of_nat k <= 2 ^ 48.
Proof. lia. Qed.
Lemma bump_ok a m n : 0 <= a /\ a mod 4096 = 0 /\ a + 4096 * Z.of_nat (S n) <= 2 ^ 48 ->
  returns (bump_alloc (a, m)) (fun '(q, s) => page q /\ ~ q < a /\ s.2 = clear_page m q /\
    (0 <= s.1 /\ s.1 mod 4096 = 0 /\ s.1 + 4096 * Z.of_nat n <= 2 ^ 48) /\ forall r, r < a \/ r = q -> r < s.1).
Proof.
  intros (H1 & H2 & H3). cbn -[clear_page Z.of_nat Z.pow Z.mul]. unfold page. split; [split; [lia|done]|]. split; [lia|]. split; [done|].
  split; [|lia]. split; [lia|]. split; [rewrite Z.add_mod, H2 by lia; done|lia].
Qed.
Definition bump : table_allocator Z := {|
  ta_alloc := bump_alloc; ta_taken a p := p < a;
  ta_room a n := 0 <= a /\ a mod 4096 = 0 /\ a + 4096 * Z.of_nat n <= 2 ^ 48;
  ta_room_le := bump_le; ta_ok := bump_ok |}.

(** C20: [__create_pgd_mapping] does not stop, does not touch memory outside the
    tables, and needs no more table pages than the slots its range meets.  When
    virtual and physical address have the same offset in a page, and every page of
    the range is absent or mapped in a way the architecture lets change into the
    planned mapping, then afterwards each address of the range translates to its
    place with the requested attributes, whatever mix of pages, 2M and 1G blocks
    and contiguous runs was chosen, and every other address of that half of the
    address space translates as before. *)
Theorem create_pgd_mapping_spec {A} (ta : option (table_allocator A)) (root hi phys virt size prot flags n : Z) (s : A * mem)
  (A0 := virt / 4096 * 4096) (E0 := (virt + size + 4095) / 4096 * 4096) (delta := phys - virt)
  (Hvirt : 0 <= virt) (Hsize : 0 < size) (Hend : E0 < 2 ^ 64) (Hhalf : A0 / 2 ^ 48 = hi /\ (E0 - 1) / 2 ^ 48 = hi)
  (Hphys : 0 <= phys /\ E0 + delta <= 2 ^ 48) (Hoff : phys mod 4096 = virt mod 4096) (Hprot : page_prot prot)
  (Hgood : good root hi ta s) (Hfill : forall va, A0 <= va < E0 -> fillable root A0 E0 delta prot flags ta s va)
  (Hroom : room ta s.1 (cost3 A0 E0 + n)) (Hn : 0 <= n) :
  returns (__create_pgd_mapping (ta_alloc <$> ta) s root phys virt size prot flags) (fun s' =>
    good root hi ta s' /\ room ta s'.1 n /\
    (forall va, A0 <= va < E0 -> translate s'.2 root va = Some (va + delta, attrs prot)) /\
    (forall va, va / 2 ^ 48 = hi -> ~ (A0 <= va < E0) -> translate s'.2 root va = translate s.2 root va)).
Proof.
  assert (J : range_ok hi A0 E0 delta prot) by by apply request_range_ok.
  apply (returns_mono _ _ _ (create_pgd_mapping_ok root hi A0 E0 delta prot flags J ta s phys virt size n
    ltac:(unfold E0 in Hend; pose proof (Z.div_mod (virt + size + 4095) 4096 ltac:(lia)); pose proof (Z.mod_pos_bound (virt + size + 4095) 4096 ltac:(lia)); lia)
    Hsize ltac:(unfold E0, delta in *; pose proof (Z.div_mod (virt + size + 4095) 4096 ltac:(lia)); pose proof (Z.mod_pos_bound (virt + size + 4095) 4096 ltac:(lia)); lia)
    Hoff eq_refl eq_refl eq_refl Hgood Hfill Hroom Hn)).
  intros s' [Hst Hrm]. split; [apply Hst|]. split; [done|]. split.
  - intros va Hva. rewrite (translate_term root s'.2 va _ _ (st_in root hi A0 E0 delta prot flags ta A0 E0 s s' Hst va Hva)).
    by apply (plan_translates hi).
  - intros va Hin Hout. destruct (term_exists root hi s.2 va (good_wf root hi ta s Hgood) Hin) as (l & d & Ht).
    rewrite (translate_term root s.2 va l d Ht).
    destruct (st_out root hi A0 E0 delta prot flags ta A0 E0 s s' Hst va l d Hin Hout Ht) as [Ht'|(-> & l' & _ & Ht' & _)];
      rewrite (translate_term root s'.2 va _ _ Ht'); [done|]. by rewrite !leaf_zero.
Qed.

(** Two megabytes and a page, the block aligned, in an empty root table. *)
Lemma create_pgd_mapping_spec_witness :
  let s := (0x2000, clear_page ∅ 0x1000) in
  returns (__create_pgd_mapping (Some bump_alloc) s 0x1000 0x40200000 0xffff800000200000 0x201000 PAGE_KERNEL 0) (fun s' =>
    good 0x1000 0xffff (Some bump) s' /\ room (Some bump) s'.1 0 /\
    (forall va, 0xffff800000200000 <= va < 0xffff800000401000 -> translate s'.2 0x1000 va = Some (va - 0xffff7fffc0000000, attrs PAGE_KERNEL)) /\
    (forall va, va / 2 ^ 48 = 0xffff -> ~ (0xffff800000200000 <= va < 0xffff800000401000) ->
      translate s'.2 0x1000 va = translate s.2 0x1000 va)).
Proof.
  intros s. assert (Hroot : page 0x1000) by done.
  assert (Hfill : forall va, 0xffff800000200000 <= va < 0xffff800000401000 ->
    fillable 0x1000 0xffff800000200000 0xffff800000401000 (-0xffff7fffc0000000) PAGE_KERNEL 0 (Some bump) s va).
  { intros va _. left. exists 0%nat. split; [by apply empty_term|]. split; [lia|done]. }
  exact (create_pgd_mapping_spec (Some bump) 0x1000 0xffff 0x40200000 0xffff800000200000 0x201000 PAGE_KERNEL 0 0 s
    ltac:(done) ltac:(done) ltac:(done) ltac:(done) ltac:(done) ltac:(done) ltac:(done)
    (empty_good 0x1000 0xffff (Some bump) 0x2000 Hroot ltac:(done)) Hfill ltac:(done) ltac:(done)).
Defined.

(** The virtual range [rq_from, rq_to) at a physical distance. *)
Record request := { rq_from : Z; rq_to : Z; rq_delta : Z; rq_prot : Z; rq_flags : Z }.

Definition in_rq (r : request) (va : Z) : Prop := rq_from r <= va < rq_to r.
Definition rq_level (r : request) (va : Z) : nat := plan_level (rq_from r) (rq_to r) (rq_delta r) (rq_flags r) va.
Definition rq_desc (r : request) (va : Z) : Z := plan_desc (rq_from r) (rq_to r) (rq_delta r) (rq_prot r) (rq_flags r) va.
Definition rq_cost (r : request) : Z := cost3 (rq_from r) (rq_to r).
Definition cost_all (rs : list request) : Z := foldr (fun r n => rq_cost r + n) 0 rs.
Definition apart (r r' : request) : Prop := rq_to r <= rq_from r' \/ rq_to r' <= rq_from r.

Section requests.
Context (root hi : Z).
Context {A : Type} (t : table_allocator A).
Abbreviation state := (A * mem)%type.
Abbreviation tm := (term root).
Abbreviation good_s := (good root hi (Some t)).
Abbreviation rm := (room (Some t)).

Definition rq_ok (r : request) : Prop := range_ok hi (rq_from r) (rq_to r) (rq_delta r) (rq_prot r).
Definition rq_fillable (s : state) (r : request) (va : Z) : Prop :=
  fillable root (rq_from r) (rq_to r) (rq_delta r) (rq_prot r) (rq_flags r) (Some t) s va.
Definition pending (s : state) (rs : list request) : Prop := Forall (fun r => forall va, in_rq r va -> rq_fillable s r va) rs.

(** Mapped as planned, and everything else as before. *)
Definition mapped (m : mem) (r : request) : Prop := forall va, in_rq r va -> tm m va (rq_level r va) (rq_desc r va).
Record maps (rs : list request) (s s' : state) : Prop := {
  mp_good : good_s s';
  mp_in : Forall (mapped s'.2) rs;
  mp_out va l d : inhi hi va -> Forall (fun r => ~ in_rq r va) rs -> tm s.2 va l d ->
    tm s'.2 va l d \/ d = 0 /\ exists l', tm s'.2 va l' 0 }.

Lemma rq_cost_nonneg r : rq_from r < rq_to r -> 0 <= rq_cost r.
Proof. intros H. unfold rq_cost, cost3. pose proof (cost2_nonneg _ _ H). pose proof (slots_pos 39 (rq_from r) (rq_to r)). lia. Qed.

Lemma rq_ok_lt r : rq_ok r -> rq_from r < rq_to r.
Proof. intros [? _ _ _ _ _]. lia. Qed.

Lemma cost_all_nonneg rs : Forall rq_ok rs -> 0 <= cost_all rs.
Proof.
  induction 1 as [|r rs Hr _ IH]; [done|]. pose proof (rq_cost_nonneg r (rq_ok_lt r Hr)). simpl. lia.
Qed.

Lemma apart_out r r' va : apart r r' -> in_rq r va -> ~ in_rq r' va.
Proof. unfold apart, in_rq. lia. Qed.

Lemma maps_nil s : good_s s -> maps [] s s.
Proof. intros Hg. split; [done|done|]. by left. Qed.

Lemma maps_trans rs1 rs2 s1 s2 s3 : Forall rq_ok rs1 -> Forall (fun r => Forall (apart r) rs2) rs1 ->
  maps rs1 s1 s2 -> maps rs2 s2 s3 -> maps (rs1 ++ rs2) s1 s3.
Proof.
  intros Hok Hap H12 H23. split; [apply H23| |].
  - apply Forall_app. split; [|apply H23]. pose proof (mp_in rs1 s1 s2 H12) as Hin. rewrite Forall_forall in Hok, Hap, Hin |- *.
    intros r Hr va Hva. specialize (Hok r Hr). pose proof (range_inhi _ _ _ _ _ Hok va Hva) as Hh.
    assert (Ho : Forall (fun r' => ~ in_rq r' va) rs2).
    { eapply Forall_impl; [exact (Hap r Hr)|]. intros r' Hr'. by apply (apart_out r r'). }
    destruct (mp_out rs2 s2 s3 H23 va _ _ Hh Ho (Hin r Hr va Hva)) as [?|[E _]]; [done|].
    by destruct (newd_leaf hi _ _ _ _ (rq_flags r) Hok va Hva) as (_ & ? & _).
  - intros va l d Hh [Ho1 Ho2]%Forall_app Ht.
    destruct (mp_out rs1 s1 s2 H12 va l d Hh Ho1 Ht) as [Ht2|(-> & l2 & Ht2)].
    + by apply (mp_out rs2 s2 s3 H23).
    + right. split; [done|]. destruct (mp_out rs2 s2 s3 H23 va l2 0 Hh Ho2 Ht2) as [?|(_ & l3 & ?)]; eauto.
Qed.

(** What the hardware sees of it. *)
Lemma maps_in_translate rs r s s' va : maps rs s s' -> r ∈ rs -> rq_ok r -> in_rq r va ->
  translate s'.2 root va = Some (va + rq_delta r, attrs (rq_prot r)).
Proof.
  intros Hm Hr Hok Hva. pose proof (mp_in rs s s' Hm) as Hin. rewrite Forall_forall in Hin.
  rewrite (translate_term root s'.2 va _ _ (Hin r Hr va Hva)). by apply (plan_translates hi).
Qed.
Lemma maps_out_translate rs s s' va : maps rs s s' -> good_s s -> inhi hi va -> Forall (fun r => ~ in_rq r va) rs ->
  translate s'.2 root va = translate s.2 root va.
Proof.
  intros Hm Hg Hh Ho. destruct (term_exists root hi s.2 va (good_wf root hi (Some t) s Hg) Hh) as (l & d & Ht).
  rewrite (translate_term root s.2 va l d Ht).
  destruct (mp_out rs s s' Hm va l d Hh Ho Ht) as [Ht'|(-> & l' & Ht')]; rewrite (translate_term root s'.2 va _ _ Ht'); [done|].
  by rewrite !leaf_zero.
Qed.

(** *** One request *)

Definition rq_step (r : request) := step root hi (rq_from r) (rq_to r) (rq_delta r) (rq_prot r) (rq_flags r) (Some t).

Lemma slot_of_between l a b c : (l <= 3)%nat -> slot_of l a = slot_of l c -> a <= b <= c -> slot_of l b = slot_of l a.
Proof.
  intros Hl E Hb. unfold slot_of in *. pose proof (pow_pos (shift l) ltac:(unfold shift; lia)).
  pose proof (Z.div_le_mono a b (2 ^ shift l) ltac:(lia) ltac:(lia)). pose proof (Z.div_le_mono b c (2 ^ shift l) ltac:(lia) ltac:(lia)). lia.
Qed.

(** A slot that holds an address outside the range is planned in smaller pieces. *)
Lemma lv_partial r va b l : (l < 3)%nat -> in_rq r va -> ~ in_rq r b -> slot_of l b = slot_of l va -> (l < rq_level r va)%nat.
Proof.
  intros Hl Hva Hb E. unfold rq_level. pose proof (lv_range (rq_from r) (rq_to r) (rq_delta r) (rq_flags r) va) as Hlv.
  destruct (Nat.lt_ge_cases l (plan_level (rq_from r) (rq_to r) (rq_delta r) (rq_flags r) va)) as [?|Hge]; [done|exfalso].
  set (k := shift l). assert (Hf : fits (rq_from r) (rq_to r) (rq_delta r) k va = true).
  { unfold k, plan_level in *. destruct (fits _ _ _ 30 va && _) eqn:E30.
    - apply andb_true_iff in E30 as [E30 _]. destruct l as [|[|[|l]]]; [lia|exact E30| |lia].
      (* the block of level 1 holds [b] *) exfalso. apply fits_base in E30. apply Hb.
      pose proof (slot_coarser 2 1 b va ltac:(lia) ltac:(lia) E) as E1. unfold slot_of in E1. change (shift 1) with 30 in E1.
      pose proof (Z.div_mod b (2 ^ 30)). pose proof (Z.mod_pos_bound b (2 ^ 30)). unfold in_rq. lia.
    - destruct (fits _ _ _ 21 va && _) eqn:E21; [|lia]. apply andb_true_iff in E21 as [E21 _].
      destruct l as [|[|[|l]]]; [lia|lia|exact E21|lia]. }
  apply fits_base in Hf. apply Hb. unfold slot_of in E. fold k in E. pose proof (pow_pos k ltac:(unfold k, shift; lia)).
  pose proof (Z.div_mod b (2 ^ k) ltac:(lia)). pose proof (Z.mod_pos_bound b (2 ^ k) ltac:(lia)). unfold in_rq. lia.
Qed.

Lemma step_pending r x y s s' r' va : rq_ok r' -> apart r r' -> rq_step r x y s s' -> rq_from r <= x -> y <= rq_to r -> in_rq r' va ->
  rq_fillable s r' va -> rq_fillable s' r' va.
Proof.
  intros Hok Hap Hst Hx Hy Hva Hf. pose proof (range_inhi _ _ _ _ _ Hok va Hva) as Hh.
  assert (Hout : ~ (x <= va < y)) by (unfold apart, in_rq in *; lia).
  assert (Hnew : forall l', (0 < l')%nat -> tm s'.2 va l' 0 -> shared (rq_from r) (rq_to r) (rq_delta r) (rq_flags r) va l' ->
    (l' <= rq_level r' va)%nat).
  { intros l' Hl (Hl3 & _) (b & Hb & E & _). enough (pred l' < rq_level r' va)%nat by lia.
    apply (lv_partial r' va b); [lia|done| |done]. by apply (apart_out r r'). }
  destruct Hf as [(l & Ht & Hl & _)|(d & Ht & Hd)].
  - left. destruct (st_out _ _ _ _ _ _ _ _ _ _ _ _ Hst va l 0 Hh Hout Ht) as [Ht'|(_ & l' & Hl' & Ht' & Hs)]; [by exists l|].
    exists l'. split; [done|]. split; [|done]. by apply Hnew; [lia|..].
  - destruct (st_out _ _ _ _ _ _ _ _ _ _ _ _ Hst va _ d Hh Hout Ht) as [Ht'|(-> & l' & Hl' & Ht' & Hs)]; [right; by exists d|].
    left. exists l'. split; [done|]. split; [|done]. by apply Hnew; [lia|..].
Qed.

Lemma request_ok r rs s phys virt size n : rq_ok r -> Forall rq_ok rs -> Forall (apart r) rs ->
  virt = rq_from r -> phys = virt + rq_delta r -> size = rq_to r - rq_from r ->
  good_s s -> pending s (r :: rs) -> rm s.1 (rq_cost r + n) -> 0 <= n ->
  returns (__create_pgd_mapping (Some (ta_alloc t)) s root phys virt size (rq_prot r) (rq_flags r)) (fun s' =>
    rm s'.1 n /\ maps [r] s s' /\ pending s' rs).
Proof.
  intros Hok Hoks Hap -> -> -> Hg [Hf Hfs]%Forall_cons Hr Hn. pose proof Hok as [Hrange _ _ (M1 & M2 & M3) Hphys _].
  assert (E1 : rq_from r = rq_from r / 4096 * 4096) by (apply Z.div_exact in M1; lia).
  assert (E2 : rq_to r = (rq_from r + (rq_to r - rq_from r) + 4095) / 4096 * 4096).
  { replace (rq_from r + (rq_to r - rq_from r) + 4095) with (4095 + rq_to r / 4096 * 4096) by (apply Z.div_exact in M2; lia).
    rewrite Z.div_add by lia. change (4095 / 4096) with 0. apply Z.div_exact in M2; lia. }
  apply (returns_mono _ _ _ (create_pgd_mapping_ok root hi _ _ _ _ (rq_flags r) Hok (Some t) s (rq_from r + rq_delta r) (rq_from r)
    (rq_to r - rq_from r) n ltac:(lia) ltac:(lia) ltac:(lia)
    ltac:(rewrite Z.add_mod, M1, M3 by lia; done) E1 E2 ltac:(lia) Hg Hf Hr Hn)).
  intros s' [Hst Hr']. split; [done|]. split.
  - split; [apply Hst| |].
    + constructor; [|done]. intros va Hva. by apply (st_in _ _ _ _ _ _ _ _ _ _ _ _ Hst).
    + intros va l d Hh [Ho _]%Forall_cons Ht.
      destruct (st_out _ _ _ _ _ _ _ _ _ _ _ _ Hst va l d Hh Ho Ht) as [?|(-> & l' & _ & ? & _)]; eauto.
  - unfold pending in *. rewrite Forall_forall in Hap, Hfs, Hoks |- *. intros r' Hr2 va Hva.
    apply (step_pending r (rq_from r) (rq_to r) s s' r' va); auto; lia.
Qed.
End requests.
