(* ===== verification/MmuBoot.v ===== *)
(** * Mapping the kernel and the memory at boot

    The callers of [__create_pgd_mapping] in arch/arm64/mm/mmu.c: the table
    allocator over memblock, the linear map of memory and the change of its text
    alias to read-only, the kernel segments.  The state is the boot allocator and
    the memory; the TLB flush after a change is not modelled, nor is the fixmap. *)

From stdpp Require Import base numbers list option gmap.
From Stdlib Require Import ZArith Lia.
From S2P Require Import Prelude Memblock Mmu.

Definition VA_BITS : Z := 48.
Definition VA_START : Z := ULLONG_MAX - Z.shiftl 1 VA_BITS + 1.
Definition PAGE_OFFSET : Z := ULLONG_MAX - Z.shiftl 1 (VA_BITS - 1) + 1.
Definition PAGE_ALIGNED (a : Z) : bool := Z.land a (PAGE_SIZE - 1) =? 0.

(** [vmemmap], and below it the window of I/O mappings. *)
Definition VMEMMAP_SIZE (struct_page_shift : Z) : Z := Z.shiftl 1 (VA_BITS - PAGE_SHIFT - 1 + struct_page_shift).
Definition VMEMMAP_START (struct_page_shift : Z) : Z := PAGE_OFFSET - VMEMMAP_SIZE struct_page_shift.
Definition VIOMAP_SIZE : Z := Z.shiftl 1 (VA_BITS - PAGE_SHIFT - 1).
Definition VIOMAP_START (struct_page_shift : Z) : Z := VMEMMAP_START struct_page_shift - VIOMAP_SIZE.

(** ** Table pages *)

Abbreviation boot := (memblock * mem)%type.

(** A zero from [memblock_phys_alloc] is not noticed. *)
Definition early_pgtable_alloc (s : boot) : outcome (Z * boot) :=
  '(phys, mb) ← memblock_phys_alloc s.1 PAGE_SIZE PAGE_SIZE;
  Ret (phys, (mb, clear_page s.2 phys)).

(** ** Changing mappings without new tables *)

Section noalloc.
Context {A : Type}.
Definition create_mapping_noalloc (s : A * mem) (pgd phys virt size prot : Z) : outcome (A * mem) :=
  if virt <? VA_START then Ret s else __create_pgd_mapping None s pgd phys virt size prot NO_CONT_MAPPINGS.
Definition update_mapping_prot (s : A * mem) (pgd phys virt size prot : Z) : outcome (A * mem) :=
  if virt <? VA_START then Ret s else __create_pgd_mapping None s pgd phys virt size prot NO_CONT_MAPPINGS.
End noalloc.

(** The page allocator that [pgd_pgtable_alloc] calls is a parameter here. *)
Definition __create_iomap_remap {A} (pgd_pgtable_alloc : A * mem -> outcome (Z * (A * mem))) (struct_page_shift : Z)
    (s : A * mem) (pgd phys_addr virt size prot flags : Z) : outcome (Z * (A * mem)) :=
  if (virt <? VIOMAP_START struct_page_shift) || (VIOMAP_START struct_page_shift + VIOMAP_SIZE <? u64 (virt + size))
  then Ret (- ENOMEM, s)
  else s ← __create_pgd_mapping (Some pgd_pgtable_alloc) s pgd phys_addr virt size prot flags; Ret (0, s).

Definition vmemmap_populate (s : boot) (pgd phys virt size : Z) : outcome boot :=
  _ ← BUG_ON (negb (PAGE_ALIGNED virt));
  _ ← BUG_ON (negb (PAGE_ALIGNED phys));
  _ ← BUG_ON (negb (PAGE_ALIGNED size));
  __create_pgd_mapping (Some early_pgtable_alloc) s pgd phys virt size PAGE_KERNEL 0.

(** ** The linear map *)

Section linear.
Context (memstart_addr kimage_voffset : Z).

Definition PHYS_OFFSET : outcome Z := _ ← BUG_ON (negb (Z.land memstart_addr 1 =? 0)); Ret (u64 memstart_addr).
Definition __phys_to_virt (x : Z) : outcome Z := po ← PHYS_OFFSET; Ret (Z.lor (u64 (x - po)) PAGE_OFFSET).
Definition __pa_symbol (x : Z) : Z := u64 (x - kimage_voffset).
Definition lm_alias (x : Z) : outcome Z := __phys_to_virt (__pa_symbol x).

Definition __map_memblock (s : boot) (pgdp start end_ prot flags : Z) : outcome boot :=
  virt ← __phys_to_virt start;
  __create_pgd_mapping (Some early_pgtable_alloc) s pgdp start virt (u64 (end_ - start)) prot flags.

Definition map_mem_turn (pgdp flags : Z) (x : boot * Z) : outcome (boot * Z + boot) :=
  let '(s, i) := x in
  if i <? cnt (memory s.1) then
    reg ← rd (regions (memory s.1)) i;
    let start := base reg in
    let end_ := u64 (start + rsize reg) in
    if end_ <=? start then Ret (inr s)
    else if memblock_is_nomap reg then Ret (inl (s, i + 1))
    else s ← __map_memblock s pgdp start end_ PAGE_KERNEL flags; Ret (inl (s, i + 1))
  else Ret (inr s).

Definition map_mem (rodata_full : bool) (_text __init_begin : Z) (s : boot) (pgdp : Z) : outcome boot :=
  let kernel_start := __pa_symbol _text in
  let kernel_end := __pa_symbol __init_begin in
  let flags := if rodata_full then Z.lor NO_BLOCK_MAPPINGS NO_CONT_MAPPINGS else 0 in
  '(_, mb) ← memblock_mark_nomap s.1 kernel_start (u64 (kernel_end - kernel_start));
  s ← loop (Z.to_nat (cnt (memory mb)) + 1) (map_mem_turn pgdp flags) ((mb, s.2), 0);
  s ← __map_memblock s pgdp kernel_start kernel_end PAGE_KERNEL NO_CONT_MAPPINGS;
  '(_, mb) ← memblock_clear_nomap s.1 kernel_start (u64 (kernel_end - kernel_start));
  Ret (mb, s.2).

Definition mark_linear_text_alias_ro (_text __init_begin : Z) (s : boot) (pgd : Z) : outcome boot :=
  virt ← lm_alias _text;
  update_mapping_prot s pgd (__pa_symbol _text) virt (u64 (__init_begin - _text)) PAGE_KERNEL_RO.

(** ** The kernel image *)

Definition map_kernel_segment (s : boot) (pgdp va_start va_end prot flags : Z) : outcome boot :=
  let pa_start := __pa_symbol va_start in
  let size := u64 (va_end - va_start) in
  _ ← BUG_ON (negb (PAGE_ALIGNED pa_start));
  _ ← BUG_ON (negb (PAGE_ALIGNED size));
  __create_pgd_mapping (Some early_pgtable_alloc) s pgdp pa_start va_start size prot flags.

Definition mark_rodata_ro (__start_rodata __init_begin : Z) (s : boot) (pgd : Z) : outcome boot :=
  update_mapping_prot s pgd (__pa_symbol __start_rodata) __start_rodata (u64 (__init_begin - __start_rodata)) PAGE_KERNEL_RO.
End linear.
