(* ===== verification/MmuLinear.v ===== *)
(** * The boot allocator as an allocator of table pages, and the regions it maps

    [early_pgtable_alloc] implements the interface of table allocators as long as
    memblock can hand out pages; the memory regions become requests. *)
From stdpp Require Import base numbers list option gmap.
From Stdlib Require Import ZArith Lia.
From S2P Require Import Prelude Memblock MemblockFacts MemblockRanges MemblockIter MemblockOps MemblockLimits PageBootFacts Mmu MmuTables MmuStep MmuBoot MmuCreate MmuSpec.

(** ** Table pages from memblock *)

Definition live (t : memblock_type) : list memblock_region := take (Z.to_nat (cnt t)) (regions t).

Lemma live_norm t l n tot : holds t l n tot -> live t = l.
Proof. intros H. unfold live. rewrite (h_cnt _ _ _ _ H), Nat2Z.id. apply H. Qed.

Lemma flags_at_norm_eq l a : flags_at (norm l) a = flags_at l a.
Proof. destruct l; [|done]. simpl. unfold contains. simpl. by destruct (Z.leb_spec 0 a), (Z.ltb_spec a (0 + 0)); simpl; try done; lia. Qed.

(** [n] pages can be allocated one after another, all below 2^48. *)
Fixpoint allocs (n : nat) (mb : memblock) : bool :=
  match n with
  | O => true
  | S n => match memblock_phys_alloc mb PAGE_SIZE PAGE_SIZE with
           | Ret (q, mb') => negb (q =? 0) && (q + 4096 <=? 2 ^ 48) && allocs n mb'
           | _ => false
           end
  end.

Section boot_tables.
Context (lm : list memblock_region) (n : Z).

Definition boot_taken (mb : memblock) (p : Z) : Prop := reserved_in (live (reserved mb)) p.
Definition boot_room (mb : memblock) (k : nat) : Prop := (exists lr, mb_holds mb lm lr n) /\ allocs k mb = true.

Lemma allocs_le k j mb : (j <= k)%nat -> allocs k mb = true -> allocs j mb = true.
Proof.
  revert j mb. induction k as [|k IH]; intros [|j] mb Hj; try done; [lia|]. simpl.
  destruct (memblock_phys_alloc mb PAGE_SIZE PAGE_SIZE) as [[q mb']| | |]; try done.
  intros [-> H]%andb_true_iff. simpl. apply IH; [lia|done].
Qed.

Lemma boot_room_le mb k j : (j <= k)%nat -> boot_room mb k -> boot_room mb j.
Proof. intros Hj [Hm Ha]. split; [done|by apply (allocs_le k)]. Qed.

Lemma boot_taken_holds mb lr a : mb_holds mb lm lr n -> boot_taken mb a <-> reserved_in lr a.
Proof.
  intros [_ [Hr _] _]. unfold boot_taken, reserved_in. by rewrite (live_norm _ _ _ _ Hr), flags_at_norm_eq.
Qed.

Lemma boot_alloc_ok mb m k : boot_room mb (S k) ->
  returns (early_pgtable_alloc (mb, m)) (fun '(q, s) =>
    page q /\ ~ boot_taken mb q /\ s.2 = clear_page m q /\ boot_room s.1 k /\ forall r, boot_taken mb r \/ r = q -> boot_taken s.1 r).
Proof.
  intros [[lr Hm] Ha]. unfold early_pgtable_alloc. cbn [fst snd]. simpl in Ha.
  pose proof (alloc_range_total mb lm lr n 12 4096 0 0 0 Hm ltac:(lia) ltac:(lia) ltac:(unfold PHYS_ADDR_MAX; lia) ltac:(unfold PHYS_ADDR_MAX; lia)) as Ht.
  change (memblock_alloc_range mb 4096 (2 ^ 12) 0 0 0) with (memblock_phys_alloc mb PAGE_SIZE PAGE_SIZE) in Ht.
  destruct (memblock_phys_alloc mb PAGE_SIZE PAGE_SIZE) as [[q mb']| | |]; try done. rewrite bind_ret. cbn [returns fst snd] in Ht |- *.
  apply andb_true_iff in Ha as [[Hq Hh]%andb_true_iff Ha]. apply negb_true_iff, Z.eqb_neq in Hq. apply Z.leb_le in Hh.
  inversion Ht as [c mb2 lr' Hc (Hal & Hlo & Hhi & Hfree) Hm' Hres|]; [subst|done].
  assert (Hq0 : 0 < q) by (unfold eff_start in Hlo; change PAGE_SIZE with 4096 in Hlo; lia).
  apply Z.mod_divide in Hal; [|lia]. change (2 ^ 12) with 4096 in Hal.
  split; [split; [lia|done]|]. split; [|split; [done|split; [by split; [exists lr'|]|]]].
  - rewrite (boot_taken_holds _ _ _ Hm). unfold reserved_in. destruct (Hfree q ltac:(lia)) as [_ ->]. by intros [].
  - intros r. rewrite (boot_taken_holds _ _ _ Hm), (boot_taken_holds _ _ _ Hm'). unfold reserved_in. rewrite Hres. unfold union_flags.
    intros [H| ->]; [by destruct (flags_at lr r)|]. destruct (flags_at lr q); [done|].
    by rewrite (proj2 (Z.leb_le q q)), (proj2 (Z.ltb_lt q (q + 4096))) by lia.
Qed.

Definition boot_tables : table_allocator memblock := {|
  ta_alloc := early_pgtable_alloc; ta_taken := boot_taken; ta_room := boot_room;
  ta_room_le := boot_room_le; ta_ok := boot_alloc_ok |}.
End boot_tables.

(** Without memory the page at address zero becomes a table. *)
Lemma early_pgtable_alloc_unchecked mb mb' m :
  memblock_phys_alloc mb PAGE_SIZE PAGE_SIZE = Ret (0, mb') -> early_pgtable_alloc (mb, m) = Ret (0, (mb', clear_page m 0)).
Proof. intros E. unfold early_pgtable_alloc. cbn [fst]. by rewrite E. Qed.

(** ** The linear map

    [map_mem] as a list of requests, one for each memory region that is mapped
    and one for the alias of the kernel text, and [mark_linear_text_alias_ro]. *)

(** ** Regions after marking *)

(** The flags change only at page boundaries. *)
Definition paged (l : list memblock_region) : Prop := forall a b, a / 4096 = b / 4096 -> flags_at l a = flags_at l b.

(** Where a region of a merged list begins or ends, the flags change. *)
Lemma minimal_base lo l r : ok lo l -> minimal l -> r ∈ l -> flags_at l (base r - 1) <> Some (flags r).
Proof.
  revert lo. induction l as [|x l IH]; intros lo Hok Hmin Hr; [by apply not_elem_of_nil in Hr|].
  destruct Hok as (H1 & H2 & H3 & Hok). simpl flags_at. destruct (contains x (base r - 1)) eqn:Ex.
  - apply contains_spec in Ex. apply elem_of_cons in Hr as [->|Hr]; [lia|]. destruct l as [|y l]; [by apply not_elem_of_nil in Hr|].
    destruct Hmin as [Hm _], Hok as (H4 & H5 & H6 & Hok). apply elem_of_cons in Hr as [->|Hr].
    + intros [= E]. unfold mergeable in Hm. rewrite E, Z.eqb_refl, andb_true_r in Hm. apply Z.eqb_neq in Hm. lia.
    + pose proof (ok_elem _ _ _ Hok Hr). lia.
  - apply elem_of_cons in Hr as [->|Hr]; [by rewrite (flags_at_below (base x + rsize x)) by (done || lia)|].
    apply (IH (base x + rsize x)); [done| |done]. by destruct l; [|apply Hmin].
Qed.

Lemma minimal_end lo l r : ok lo l -> minimal l -> r ∈ l -> flags_at l (base r + rsize r) <> Some (flags r).
Proof.
  revert lo. induction l as [|x l IH]; intros lo Hok Hmin Hr; [by apply not_elem_of_nil in Hr|].
  destruct Hok as (H1 & H2 & H3 & Hok). simpl flags_at.
  assert (Ex : contains x (base r + rsize r) = false).
  { apply contains_false. apply elem_of_cons in Hr as [->|Hr]; [lia|]. pose proof (ok_elem _ _ _ Hok Hr). lia. }
  rewrite Ex. apply elem_of_cons in Hr as [->|Hr].
  - destruct l as [|y l]; [done|]. destruct Hmin as [Hm _], Hok as (H4 & H5 & H6 & Hok). simpl.
    destruct (contains y (base x + rsize x)) eqn:Ey; [|by rewrite (flags_at_below (base y + rsize y)) by (done || lia)].
    apply contains_spec in Ey. intros [= E]. unfold mergeable in Hm. rewrite E, Z.eqb_refl, andb_true_r in Hm. apply Z.eqb_neq in Hm. lia.
  - apply (IH (base x + rsize x)); [done| |done]. by destruct l; [|apply Hmin].
Qed.

Lemma paged_region l r : paged l -> ok 0 l -> minimal l -> r ∈ l -> base r mod 4096 = 0 /\ (base r + rsize r) mod 4096 = 0.
Proof.
  intros Hp Hok Hmin Hr. pose proof (ok_elem _ _ _ Hok Hr) as Hb.
  assert (Hsame : forall a, a mod 4096 <> 0 -> (a - 1) / 4096 = a / 4096).
  { intros a Ha. pose proof (Z.div_mod a 4096 ltac:(lia)). pose proof (Z.mod_pos_bound a 4096 ltac:(lia)).
    symmetry. apply (Z.div_unique _ _ (a / 4096) (a mod 4096 - 1)); lia. }
  split; [destruct (Z.eq_dec (base r mod 4096) 0) as [|Hn]|destruct (Z.eq_dec ((base r + rsize r) mod 4096) 0) as [|Hn]]; try done; exfalso.
  - apply (minimal_base 0 l r Hok Hmin Hr). rewrite (Hp _ _ (Hsame _ Hn)). apply (flags_at_elem 0); [done..|]. apply contains_spec. lia.
  - apply (minimal_end 0 l r Hok Hmin Hr). rewrite <- (Hp _ _ (Hsame _ Hn)). apply (flags_at_elem 0); [done..|]. apply contains_spec. lia.
Qed.

(** ** Addresses *)

Section linear.
Context (memstart : Z).
Definition lin_delta : Z := memstart - PAGE_OFFSET.
Definition lin (a : Z) : Z := a - lin_delta.

(** The physical addresses the linear map has room for. *)
Definition linear (a b : Z) : Prop := memstart <= a < b /\ b < memstart + 2 ^ 47 /\ b <= 2 ^ 48 /\ a mod 4096 = 0 /\ b mod 4096 = 0.

Context (Hmem : 0 <= memstart < 2 ^ 48) (Hms : memstart mod 4096 = 0).

Lemma phys_to_virt_ok x : memstart <= x < memstart + 2 ^ 47 -> __phys_to_virt memstart x = Ret (lin x).
Proof.
  intros Hx. unfold __phys_to_virt, PHYS_OFFSET. rewrite BUG_ON_false.
  2:{ change 1 with (Z.ones 1). rewrite Z.land_ones by lia. apply negb_false_iff, Z.eqb_eq.
      apply Z.mod_divide in Hms as [k ->]; [|lia]. replace (k * 4096) with ((k * 2048) * 2) by lia. by apply Z.mod_mul. }
  rewrite bind_ret, (u64_small memstart), u64_small by lia.
  change PAGE_OFFSET with (Z.shiftl (2 ^ 17 - 1) 47) at 1. rewrite lor_shiftl_add by lia.
  unfold lin, lin_delta. change PAGE_OFFSET with ((2 ^ 17 - 1) * 2 ^ 47). f_equal. lia.
Qed.

Definition lin_request (a b prot flags : Z) : request :=
  {| rq_from := lin a; rq_to := lin b; rq_delta := lin_delta; rq_prot := prot; rq_flags := flags |}.

Lemma lin_ok a b prot flags : linear a b -> page_prot prot -> rq_ok 0xffff (lin_request a b prot flags).
Proof.
  intros (H1 & H2 & H3 & Ma & Mb) Hp. unfold rq_ok. cbn [rq_from rq_to rq_delta rq_prot lin_request].
  assert (Hd : lin_delta mod 4096 = 0) by (unfold lin_delta; by rewrite Zminus_mod, Hms).
  assert (Hlo : PAGE_OFFSET <= lin a /\ lin b < 2 ^ 64 /\ lin a < lin b) by (unfold lin, lin_delta; change PAGE_OFFSET with (2 ^ 64 - 2 ^ 47); lia).
  change PAGE_OFFSET with (2 ^ 64 - 2 ^ 47) in Hlo.
  assert (Hh : forall v, 2 ^ 64 - 2 ^ 47 <= v < 2 ^ 64 -> inhi 0xffff v).
  { intros v Hv. unfold inhi. symmetry. apply (Z.div_unique v (2 ^ 48) 0xffff (v - 0xffff * 2 ^ 48)); lia. }
  split; [lia|apply Hh; lia|apply Hh; lia| |unfold lin; lia|done].
  split; [|split; [|done]]; unfold lin; rewrite Zminus_mod, Hd, ?Ma, ?Mb; done.
Qed.

Lemma lin_in a b prot flags x : a <= x < b <-> in_rq (lin_request a b prot flags) (lin x).
Proof. unfold in_rq, lin. simpl. unfold lin. lia. Qed.

Lemma page_kernel_prot : page_prot PAGE_KERNEL.
Proof. done. Qed.

(** ** The regions as requests *)

Definition mappable (r : memblock_region) : bool := negb (memblock_is_nomap r).
Definition region_rq (flags : Z) (r : memblock_region) : request := lin_request (base r) (base r + rsize r) PAGE_KERNEL flags.
Definition region_rqs (flags : Z) (l : list memblock_region) : list request := map (region_rq flags) (List.filter mappable l).

Definition linear_region (r : memblock_region) : Prop := linear (base r) (base r + rsize r).

Lemma region_rqs_cons flags r l :
  region_rqs flags (r :: l) = if memblock_is_nomap r then region_rqs flags l else region_rq flags r :: region_rqs flags l.
Proof. unfold region_rqs, mappable. simpl. by destruct (memblock_is_nomap r). Qed.

Lemma region_rqs_in flags l q : q ∈ region_rqs flags l <-> exists r, q = region_rq flags r /\ r ∈ l /\ memblock_is_nomap r = false.
Proof.
  unfold region_rqs. rewrite list_elem_of_In, in_map_iff. split.
  - intros (r & <- & [Hr Hm%negb_true_iff]%filter_In). exists r. by rewrite list_elem_of_In.
  - intros (r & -> & Hr & Hm). exists r. split; [done|]. apply filter_In. split; [by apply list_elem_of_In|]. by apply negb_true_iff.
Qed.

Lemma region_rqs_ok flags l : Forall linear_region l -> Forall (rq_ok 0xffff) (region_rqs flags l).
Proof.
  rewrite !Forall_forall. intros H q (r & -> & Hr & _)%region_rqs_in. apply lin_ok; [by apply H|done].
Qed.

Lemma region_rqs_apart flags r l : ok (base r) (r :: l) -> Forall (apart (region_rq flags r)) (region_rqs flags l).
Proof.
  intros (_ & _ & _ & Hk). rewrite Forall_forall. intros q (x & -> & Hx & _)%region_rqs_in.
  pose proof (ok_elem _ _ _ Hk Hx). left. simpl. unfold lin. lia.
Qed.

(** ** Mapping them *)

Context (root n : Z) (lm : list memblock_region) (ks ke : Z).
Abbreviation bt := (boot_tables lm n).
Abbreviation rm := (room (Some bt)).
Abbreviation good_s := (good root 0xffff (Some bt)).
Abbreviation maps_s := (maps root 0xffff bt).
Abbreviation pending_s := (pending root bt).
Definition kernel_rq : request := lin_request ks ke PAGE_KERNEL NO_CONT_MAPPINGS.

Context (Hlm : lm <> []) (Hlin : Forall linear_region lm) (Hker : linear ks ke).
Context (Hsep : forall r, r ∈ lm -> memblock_is_nomap r = false -> base r + rsize r <= ks \/ ke <= base r).

Lemma map_memblock_ok s a b flags rs k : linear a b -> Forall (rq_ok 0xffff) rs -> Forall (apart (lin_request a b PAGE_KERNEL flags)) rs ->
  good_s s -> pending_s s (lin_request a b PAGE_KERNEL flags :: rs) -> rm s.1 (rq_cost (lin_request a b PAGE_KERNEL flags) + k) -> 0 <= k ->
  returns (__map_memblock memstart s root a b PAGE_KERNEL flags) (fun s' =>
    rm s'.1 k /\ maps_s [lin_request a b PAGE_KERNEL flags] s s' /\ pending_s s' rs).
Proof.
  intros Hl Hoks Hap Hg Hp Hr Hk. pose proof Hl as (H1 & H2 & H3 & _). unfold __map_memblock.
  rewrite phys_to_virt_ok, bind_ret by lia.
  refine (request_ok root 0xffff bt (lin_request a b PAGE_KERNEL flags) rs s a (lin a) (u64 (b - a)) k
    (lin_ok a b PAGE_KERNEL flags Hl page_kernel_prot) Hoks Hap _ _ _ Hg Hp Hr Hk); [done| |]; simpl; unfold lin; [lia|].
  rewrite u64_small by lia. lia.
Qed.

(** One turn of the loop over the regions. *)
Lemma map_mem_turn_eq flags P Q s : lm = P ++ Q -> (exists lr, mb_holds s.1 lm lr n) ->
  map_mem_turn memstart root flags (s, Z.of_nat (length P)) =
    match Q with
    | [] => Ret (inr s)
    | r :: _ => if memblock_is_nomap r then Ret (inl (s, Z.of_nat (length (P ++ [r]))))
                else s' ← __map_memblock memstart s root (base r) (base r + rsize r) PAGE_KERNEL flags; Ret (inl (s', Z.of_nat (length (P ++ [r]))))
    end.
Proof.
  intros HL [lr [[Hh Hok] _ _]]. unfold map_mem_turn. rewrite norm_nonempty in Hh by done. rewrite (h_cnt _ _ _ _ Hh).
  destruct Q as [|r Q]; [rewrite app_nil_r in HL; subst P; by rewrite Z.ltb_irrefl|].
  assert (Hin : lm !! length P = Some r) by (by rewrite HL, lookup_app_r, Nat.sub_diag by lia).
  rewrite HL at 1. rewrite !length_app. cbn [length]. rewrite (proj2 (Z.ltb_lt _ _)) by lia.
  rewrite (holds_rd _ _ _ _ _ _ Hh Hin), bind_ret. pose proof (list_elem_of_lookup_2 _ _ _ Hin) as Hel.
  rewrite Forall_forall in Hlin. pose proof (Hlin r Hel) as (H1 & H2 & H3 & _). rewrite (u64_small (base r + rsize r)) by lia.
  rewrite (proj2 (Z.leb_gt _ _)) by lia. by replace (Z.of_nat (length P) + 1) with (Z.of_nat (length P + 1)) by lia.
Qed.

Lemma map_mem_loop flags Q : forall P s fuel, lm = P ++ Q -> (length Q < fuel)%nat -> good_s s ->
  pending_s s (region_rqs flags Q ++ [kernel_rq]) -> rm s.1 (cost_all (region_rqs flags Q ++ [kernel_rq])) ->
  returns (loop fuel (map_mem_turn memstart root flags) (s, Z.of_nat (length P))) (fun s' =>
    rm s'.1 (rq_cost kernel_rq) /\ maps_s (region_rqs flags Q) s s' /\ pending_s s' [kernel_rq]).
Proof.
  induction Q as [|r Q IH]; intros P s [|fuel] HL Hf Hg Hp Hr; try (simpl in Hf; lia); rewrite loop_S; pose proof Hr as [_ [Hlr _]].
  - rewrite (map_mem_turn_eq flags P [] s HL Hlr), bind_ret. simpl in Hr |- *. rewrite Z.add_0_r in Hr. split; [done|].
    split; [by apply maps_nil|done].
  - rewrite (map_mem_turn_eq flags P (r :: Q) s HL Hlr). rewrite region_rqs_cons in Hp, Hr |- *.
    assert (HL' : lm = (P ++ [r]) ++ Q) by (by rewrite <- app_assoc).
    destruct (memblock_is_nomap r) eqn:En; [rewrite bind_ret; by apply IH; [|simpl in Hf; lia|..]|].
    destruct Hlr as [lr [[_ Hok] _ _]]. rewrite HL in Hok. apply ok_app in Hok as (_ & Hok & _).
    assert (Hel : r ∈ lm) by (rewrite HL; apply elem_of_app; right; by left). rewrite Forall_forall in Hlin.
    assert (HQ : Forall linear_region Q).
    { rewrite Forall_forall. intros x Hx. apply Hlin. rewrite HL. apply elem_of_app. right. by right. }
    assert (Hrest : Forall (rq_ok 0xffff) (region_rqs flags Q ++ [kernel_rq])).
    { apply Forall_app. split; [by apply region_rqs_ok|]. constructor; [by apply lin_ok|done]. }
    assert (Hap : Forall (apart (region_rq flags r)) (region_rqs flags Q)).
    { apply region_rqs_apart. destruct Hok as (? & ? & ? & ?). by split; [lia|]. }
    assert (Hak : apart (region_rq flags r) kernel_rq) by (unfold apart; simpl; unfold lin; destruct (Hsep r Hel En); lia).
    rewrite bind_assoc. eapply returns_bind.
    { apply (map_memblock_ok s _ _ flags (region_rqs flags Q ++ [kernel_rq]) (cost_all (region_rqs flags Q ++ [kernel_rq])));
        [by apply Hlin|done| |done|done|done|by apply (cost_all_nonneg 0xffff)].
      apply Forall_app. split; [done|]. by constructor. }
    intros s1 (Hr1 & Hm1 & Hp1). rewrite bind_ret. eapply returns_mono.
    { apply IH; [done|simpl in Hf; lia|by apply (mp_good _ _ _ _ _ _ Hm1)|done|done]. }
    intros s2 (Hr2 & Hm2 & Hp2). split; [done|]. split; [|done].
    apply (maps_trans root 0xffff bt [region_rq flags r] (region_rqs flags Q) s s1 s2); [|by constructor|done|done].
    constructor; [|done]. apply lin_ok; [by apply Hlin|done].
Qed.
End linear.
