(* ===== verification/MmuLinearSpec.v ===== *)
(** * What the boot mapping promises *)

From stdpp Require Import base numbers list option gmap.
From Stdlib Require Import ZArith Lia.
From S2P Require Import Prelude Memblock MemblockFacts MemblockRanges MemblockIter MemblockOps MemblockLimits.
From S2P Require Import Mmu MmuTables MmuStep MmuCreate MmuSpec MmuBoot MmuLinear.

(** ** A change to read-only is one the architecture allows *)

Definition live_change (x y : Z) : Prop :=
  Z.land x PTE_ADDR_MASK = 0 /\ Z.land y PTE_ADDR_MASK = 0 /\ Z.land (Z.lor x y) PTE_CONT = 0 /\ Z.land x PTE_NG = 0 /\
  Z.land (Z.lxor x y) (inv64 (Z.lor (Z.lor (Z.lor PTE_PXN PTE_RDONLY) PTE_WRITE) PTE_NG)) = 0.

Lemma page_land p c : page p -> Z.land PTE_ADDR_MASK c = 0 -> Z.land p c = 0.
Proof. intros Hp Hc. rewrite <- (page_mask p Hp), <- Z.land_assoc, Hc. apply Z.land_0_r. Qed.

Lemma page_lor_lxor p x : page p -> Z.land x PTE_ADDR_MASK = 0 -> Z.lor p x = Z.lxor p x.
Proof.
  intros Hp Hx. assert (E : Z.land p x = 0) by (apply page_land; [done|by rewrite Z.land_comm]).
  apply Z.bits_inj'. intros i Hi. apply (f_equal (fun w => Z.testbit w i)) in E.
  rewrite Z.land_spec, Z.bits_0 in E. rewrite Z.lor_spec, Z.lxor_spec. by destruct (Z.testbit p i), (Z.testbit x i).
Qed.

Lemma live_change_safe p x y : page p -> live_change x y -> pgattr_change_is_safe (Z.lor p x) (Z.lor p y) = true.
Proof.
  intros Hp (Hx & Hy & Hc & Hg & Hm). unfold pgattr_change_is_safe. destruct ((_ =? 0) || (_ =? 0)); [done|].
  assert (E1 : Z.land (Z.lor (Z.lor p x) (Z.lor p y)) PTE_CONT = 0).
  { rewrite Z.land_lor_distr_l in Hc. apply Z.lor_eq_0_iff in Hc as [Hc1 Hc2].
    rewrite !Z.land_lor_distr_l, Hc1, Hc2, (page_land p PTE_CONT) by done. done. }
  assert (E2 : Z.land (Z.land (Z.lor p x) (inv64 (Z.lor p y))) PTE_NG = 0).
  { rewrite <- Z.land_assoc, (Z.land_comm (inv64 _)), Z.land_assoc, Z.land_lor_distr_l, Hg, (page_land p PTE_NG) by done. by rewrite Z.lor_0_l, Z.land_0_l. }
  rewrite E1, E2. cbn [Z.eqb negb]. apply Z.eqb_eq. rewrite !page_lor_lxor by done.
  replace (Z.lxor (Z.lxor p x) (Z.lxor p y)) with (Z.lxor x y); [done|].
  rewrite (Z.lxor_comm p x), Z.lxor_assoc, <- (Z.lxor_assoc p p y), Z.lxor_nilpotent, Z.lxor_0_l. done.
Qed.

Lemma kernel_ro_page : live_change PAGE_KERNEL PAGE_KERNEL_RO.
Proof. done. Qed.
Lemma kernel_ro_sect : live_change (Z.lor 1 (mk_sect_prot PAGE_KERNEL)) (Z.lor 1 (mk_sect_prot PAGE_KERNEL_RO)).
Proof. done. Qed.

(** A range mapped without contiguous runs can be made read-only. *)
Lemma plan_ro_safe hi A0 E0 delta va : range_ok hi A0 E0 delta PAGE_KERNEL -> A0 <= va < E0 ->
  pgattr_change_is_safe (plan_desc A0 E0 delta PAGE_KERNEL NO_CONT_MAPPINGS va) (plan_desc A0 E0 delta PAGE_KERNEL_RO NO_CONT_MAPPINGS va) = true.
Proof.
  intros J Hva. unfold plan_desc, plan_level, prot_16, prot_25, block_desc, page_desc.
  change (Z.land NO_CONT_MAPPINGS NO_CONT_MAPPINGS =? 0) with false. change (Z.land NO_CONT_MAPPINGS NO_BLOCK_MAPPINGS =? 0) with true.
  rewrite !andb_true_r, !andb_false_r. pose proof (page_base hi A0 E0 delta _ J va Hva) as Hb.
  destruct (fits A0 E0 delta 30 va) eqn:E30; [|destruct (fits A0 E0 delta 21 va) eqn:E21]; apply live_change_safe;
    try exact kernel_ro_page; try exact kernel_ro_sect; apply (base_page hi A0 E0 delta _ J); try lia; try (apply base_low; lia).
  - apply fits_base in E30. lia.
  - apply fits_base in E21. lia.
Qed.

Section spec.
Context (memstart kimage_voffset _text __init_begin root n : Z) (rodata_full : bool).
Context (mb mb1 : memblock) (lm lr : list memblock_region) (m : mem).
Abbreviation ks := (__pa_symbol kimage_voffset _text).
Abbreviation ke := (__pa_symbol kimage_voffset __init_begin).
Abbreviation la := (lin memstart).
Definition map_flags : Z := if rodata_full then Z.lor NO_BLOCK_MAPPINGS NO_CONT_MAPPINGS else 0.

(** The memory [map_mem] is called with: whole pages that the linear map can
    hold, nothing mapped there yet. *)
Record boot_ok : Prop := {
  bo_start : 0 <= memstart < 2 ^ 48 /\ memstart mod 4096 = 0;
  bo_holds : mb_holds mb lm lr n;
  bo_some : exists a, flags_at lm a <> None;
  bo_paged : paged lm;
  bo_range a : flags_at lm a <> None -> memstart <= a < memstart + 2 ^ 47 - 4096 /\ a < 2 ^ 48;
  bo_kernel : linear memstart ks ke;
  bo_tables : good root 0xffff (Some (boot_tables lm n)) (mb, m);
  bo_empty a : flags_at lm a <> None \/ ks <= a < ke -> term root m (la a) 0 0 }.

(** Memory that is mapped: not NOMAP, and outside the kernel text. *)
Definition mapped_memory (a : Z) : Prop := (exists f, flags_at lm a = Some f /\ Z.land f MEMBLOCK_NOMAP = 0) /\ ~ (ks <= a < ke).

(** The table pages this takes at most. *)
Definition map_mem_pages : Z :=
  cost_all (region_rqs memstart map_flags (live (memory mb1)) ++ [kernel_rq memstart ks ke]).

Context (B : boot_ok).

(** The regions after the kernel text is marked. *)
Record marked (lm1 : list memblock_region) : Prop := {
  mk_mb : mb_holds mb1 lm1 lr n;
  mk_some : lm1 <> [];
  mk_min : minimal lm1;
  mk_flags a : flags_at lm1 a = if (ks <=? a) && (a <? ke) then flag_fun true MEMBLOCK_NOMAP <$> flags_at lm a else flags_at lm a }.

Lemma mark_ok : memblock_mark_nomap mb ks (u64 (ke - ks)) = Ret (0, mb1) -> exists lm1, marked lm1.
Proof.
  intros Hmark. destruct B as [_ Hh Hs _ _ (_ & _ & _ & _ & _) _ _]. pose proof (bo_kernel B) as (H1 & H2 & H3 & _).
  pose proof (proj1 (bo_start B)) as H0. unfold memblock_mark_nomap in Hmark. rewrite u64_small in Hmark by lia.
  destruct (setclr_total mb lm lr n ks (ke - ks) true MEMBLOCK_NOMAP Hh ltac:(unfold addr; lia) ltac:(unfold addr; lia))
    as [E|(mb' & lm1 & E & Hm & Hmin & Hf)]; rewrite E in Hmark; [by injection Hmark|]. injection Hmark as H. subst mb'.
  exists lm1. assert (Hend : range_end ks (ke - ks) = ke).
  { unfold range_end, memblock_cap_size, PHYS_ADDR_MAX. rewrite u64_small by lia. lia. }
  rewrite Hend in Hf. split; [done| |done|done]. destruct Hs as [a Ha]. intros ->. specialize (Hf a). simpl in Hf.
  destruct (_ && _); destruct (flags_at lm a); done.
Qed.

Section marked.
Context (lm1 : list memblock_region) (K : marked lm1).

Lemma marked_some a : flags_at lm1 a <> None <-> flags_at lm a <> None.
Proof. rewrite (mk_flags lm1 K). destruct (_ && _); [|done]. by destruct (flags_at lm a). Qed.

Lemma marked_paged : paged lm1.
Proof.
  pose proof (bo_kernel B) as (_ & _ & _ & M1 & M2). intros a b E. rewrite !(mk_flags lm1 K), (bo_paged B a b E).
  pose proof (Z.div_mod a 4096 ltac:(lia)). pose proof (Z.mod_pos_bound a 4096 ltac:(lia)).
  pose proof (Z.div_mod b 4096 ltac:(lia)). pose proof (Z.mod_pos_bound b 4096 ltac:(lia)).
  apply Z.div_exact in M1; [|lia]. apply Z.div_exact in M2; [|lia].
  replace (ks <=? a) with (ks <=? b) by (destruct (Z.leb_spec ks a), (Z.leb_spec ks b); lia).
  by replace (a <? ke) with (b <? ke) by (destruct (Z.ltb_spec a ke), (Z.ltb_spec b ke); lia).
Qed.

Lemma marked_ok : ok 0 lm1.
Proof. apply (mk_mb lm1 K). Qed.

Lemma marked_at r a : r ∈ lm1 -> base r <= a < base r + rsize r -> flags_at lm1 a = Some (flags r).
Proof. intros Hr Ha. apply (flags_at_elem 0); [apply marked_ok|done|]. by apply contains_spec. Qed.

Lemma marked_linear : Forall (linear_region memstart) lm1.
Proof.
  rewrite Forall_forall. intros r Hr. pose proof (ok_elem _ _ _ marked_ok Hr) as Hb.
  destruct (paged_region lm1 r marked_paged marked_ok (mk_min lm1 K) Hr) as [M1 M2].
  assert (Ha : forall a, base r <= a < base r + rsize r -> memstart <= a < memstart + 2 ^ 47 - 4096 /\ a < 2 ^ 48).
  { intros a Ha. apply (bo_range B), marked_some. by rewrite (marked_at r a Hr Ha). }
  pose proof (Ha (base r) ltac:(lia)). pose proof (Ha (base r + rsize r - 1) ltac:(lia)). by split; [lia|split; [lia|split; [lia|]]].
Qed.

Lemma marked_sep r : r ∈ lm1 -> memblock_is_nomap r = false -> base r + rsize r <= ks \/ ke <= base r.
Proof.
  intros Hr Hm. pose proof (ok_elem _ _ _ marked_ok Hr) as Hb. pose proof (bo_kernel B) as (H1 & _).
  destruct (Z.lt_ge_cases (base r) ke) as [Hlt|]; [|by right]. destruct (Z.lt_ge_cases ks (base r + rsize r)) as [Hlt2|]; [|by left]. exfalso.
  set (a := Z.max (base r) ks). pose proof (marked_at r a Hr ltac:(lia)) as E. rewrite (mk_flags lm1 K) in E.
  rewrite (proj2 (Z.leb_le ks a)), (proj2 (Z.ltb_lt a ke)) in E by lia. destruct (flags_at lm a) as [f|]; [|done]. injection E as E.
  unfold memblock_is_nomap in Hm. apply negb_false_iff, Z.eqb_eq in Hm. rewrite <- E in Hm. unfold flag_fun in Hm.
  rewrite Z.land_lor_distr_l in Hm. by apply Z.lor_eq_0_iff in Hm as [_ ?].
Qed.

(** Which requests hold the alias of an address. *)
Lemma region_in a : mapped_memory a -> exists q, q ∈ region_rqs memstart map_flags lm1 /\ in_rq q (la a) /\ rq_delta q = lin_delta memstart /\ rq_prot q = PAGE_KERNEL.
Proof.
  intros [(f & Hf & Hn) Hk]. assert (E : flags_at lm1 a = Some f).
  { rewrite (mk_flags lm1 K). destruct (Z.leb_spec ks a), (Z.ltb_spec a ke); simpl; try done. lia. }
  destruct (flags_at_in _ _ _ E) as (r & Hr & Hc%contains_spec & <-). exists (region_rq memstart map_flags r).
  split; [|split; [by apply lin_in|done]]. apply region_rqs_in. exists r. split; [done|]. split; [done|].
  unfold memblock_is_nomap. by apply negb_false_iff, Z.eqb_eq.
Qed.

Lemma region_out q va : q ∈ region_rqs memstart map_flags lm1 -> in_rq q va -> exists a, va = la a /\ mapped_memory a.
Proof.
  intros (r & -> & Hr & Hn)%region_rqs_in Hva. exists (va + lin_delta memstart). split; [unfold lin; lia|].
  unfold in_rq in Hva. simpl in Hva. unfold lin in Hva. pose proof (marked_at r (va + lin_delta memstart) Hr ltac:(lia)) as E.
  assert (Hk : ~ (ks <= va + lin_delta memstart < ke)) by (destruct (marked_sep r Hr Hn); lia). split; [|done].
  rewrite (mk_flags lm1 K) in E. unfold memblock_is_nomap in Hn. apply negb_false_iff, Z.eqb_eq in Hn.
  destruct (Z.leb_spec ks (va + lin_delta memstart)), (Z.ltb_spec (va + lin_delta memstart) ke); simpl in E; eauto. lia.
Qed.
End marked.

(** The requests of [map_mem], all pending at the start. *)
Lemma all_pending lm1 : marked lm1 ->
  pending root (boot_tables lm1 n) (mb1, m) (region_rqs memstart map_flags lm1 ++ [kernel_rq memstart ks ke]).
Proof.
  intros K. assert (He : forall A0 E0 prot flags a, flags_at lm a <> None \/ ks <= a < ke ->
    fillable root A0 E0 (lin_delta memstart) prot flags (Some (boot_tables lm1 n)) (mb1, m) (la a)).
  { intros A0 E0 prot flags a Ha. left. exists 0%nat. split; [by apply (bo_empty B)|]. split; [lia|done]. }
  apply Forall_app. split.
  - rewrite Forall_forall. intros q Hq va Hva. destruct (region_out lm1 K q va Hq Hva) as (a & -> & (f & Hf & _) & _).
    apply region_rqs_in in Hq as (r & -> & _). apply He. left. by rewrite Hf.
  - constructor; [|done]. intros va Hva. unfold rq_fillable. replace va with (la (va + lin_delta memstart)) by (unfold lin; lia).
    apply He. right. unfold in_rq in Hva. simpl in Hva. unfold lin in Hva. lia.
Qed.

(** [map_mem] carries them out; its last step changes flags of memory only. *)
Lemma map_mem_ok lm1 : marked lm1 -> memblock_mark_nomap mb ks (u64 (ke - ks)) = Ret (0, mb1) -> allocs (Z.to_nat map_mem_pages) mb1 = true ->
  returns (map_mem memstart kimage_voffset rodata_full _text __init_begin (mb, m) root) (fun s' =>
    exists a, maps root 0xffff (boot_tables lm1 n) (region_rqs memstart map_flags lm1 ++ [kernel_rq memstart ks ke]) (mb1, m) (a, s'.2)).
Proof.
  intros K Hmark Hroom. destruct (bo_start B) as [Hms Hma]. pose proof (bo_kernel B) as Hker. pose proof (mk_mb lm1 K) as Hmb1.
  pose proof (marked_linear lm1 K) as Hlin. pose proof (marked_ok lm1 K) as Hok. pose proof (lin_ok memstart Hms Hma ks ke PAGE_KERNEL NO_CONT_MAPPINGS Hker page_kernel_prot) as Hkok.
  pose proof (region_rqs_ok memstart Hms Hma map_flags lm1 Hlin) as Hrok.
  assert (Hg : good root 0xffff (Some (boot_tables lm1 n)) (mb1, m)).
  { destruct (bo_tables B) as [Hwf Htk]. split; [done|]. intros l va p Hl Hva Hp. specialize (Htk l va p Hl Hva Hp). cbn in Htk |- *.
    rewrite (boot_taken_holds _ _ _ _ _ (bo_holds B)) in Htk. by rewrite (boot_taken_holds _ _ _ _ _ Hmb1). }
  assert (Hlive : live (memory mb1) = lm1).
  { destruct Hmb1 as [[Hh _] _ _]. rewrite (live_norm _ _ _ _ Hh). by apply norm_nonempty, K. }
  assert (Hrm : room (Some (boot_tables lm1 n)) mb1 map_mem_pages).
  { split; [|by split; [exists lr|]]. unfold map_mem_pages. rewrite Hlive. apply (cost_all_nonneg 0xffff), Forall_app. by split; [|constructor]. }
  unfold map_mem_pages in Hrm. rewrite Hlive in Hrm. unfold map_mem. fold map_flags. cbn [fst snd]. rewrite Hmark, bind_ret.
  eapply returns_bind.
  { apply (map_mem_loop memstart Hms Hma root n lm1 ks ke (mk_some lm1 K) Hlin Hker (marked_sep lm1 K) map_flags lm1 [] (mb1, m)); [done| |done|by apply all_pending|done].
    destruct Hmb1 as [[Hh _] _ _]. rewrite norm_nonempty in Hh by apply K. simpl. rewrite (h_cnt _ _ _ _ Hh). lia. }
  intros s1 (Hr1 & Hm1 & Hp1). eapply returns_bind.
  { apply (map_memblock_ok memstart Hms Hma root n lm1 s1 ks ke NO_CONT_MAPPINGS [] 0 Hker); [done|done|exact (mp_good _ _ _ _ _ _ Hm1)|exact Hp1|by rewrite Z.add_0_r|lia]. }
  intros s2 (Hr2 & Hm2 & _). destruct Hr2 as [_ [[lr2 Hmb2] _]]. destruct Hker as (H1 & H2 & H3 & _).
  assert (Hmaps : maps root 0xffff (boot_tables lm1 n) (region_rqs memstart map_flags lm1 ++ [kernel_rq memstart ks ke]) (mb1, m) s2).
  { apply (maps_trans root 0xffff (boot_tables lm1 n) _ _ (mb1, m) s1 s2); [done| |done|done]. rewrite Forall_forall.
    intros q (r & -> & Hr & Hn)%region_rqs_in. constructor; [|done]. destruct (marked_sep lm1 K r Hr Hn); [left|right]; simpl; unfold lin; lia. }
  rewrite u64_small by lia. unfold memblock_clear_nomap.
  destruct (setclr_total s2.1 lm1 lr2 n ks (ke - ks) false MEMBLOCK_NOMAP Hmb2 ltac:(unfold addr; lia) ltac:(unfold addr; lia))
    as [->|(mb' & lm2 & -> & _)]; rewrite bind_ret; exists s2.1; cbn [snd]; by destruct s2.
Qed.

(** *** Making the alias of the text read-only *)

Lemma mark_ro_ok (s : boot) : wf root 0xffff s.2 -> mapped root s.2 (kernel_rq memstart ks ke) ->
  u64 (__init_begin - _text) = ke - ks ->
  returns (mark_linear_text_alias_ro memstart kimage_voffset _text __init_begin s root) (fun s' =>
    wf root 0xffff s'.2 /\ (forall a, ks <= a < ke -> translate s'.2 root (la a) = Some (a, attrs PAGE_KERNEL_RO)) /\
    (forall va, inhi 0xffff va -> ~ (la ks <= va < la ke) -> translate s'.2 root va = translate s.2 root va)).
Proof.
  intros Hwf Hmap Hsz. destruct (bo_start B) as [Hms Hma]. pose proof (bo_kernel B) as Hker.
  pose proof (lin_ok memstart Hms Hma ks ke PAGE_KERNEL NO_CONT_MAPPINGS Hker page_kernel_prot) as J1.
  pose proof (lin_ok memstart Hms Hma ks ke PAGE_KERNEL_RO NO_CONT_MAPPINGS Hker ltac:(done)) as J. unfold rq_ok in J, J1. simpl in J, J1.
  destruct Hker as (H1 & H2 & H3 & M1 & M2). unfold mark_linear_text_alias_ro, lm_alias. rewrite (phys_to_virt_ok memstart Hms Hma) by lia.
  rewrite bind_ret, Hsz. unfold update_mapping_prot. pose proof J as [Hrange _ _ (Ma & Mb & Md) Hphys _].
  assert (Hva : VA_START <= la ks) by (unfold lin, lin_delta; change PAGE_OFFSET with (2 ^ 64 - 2 ^ 47); change VA_START with (2 ^ 64 - 2 ^ 48); lia).
  rewrite (proj2 (Z.ltb_ge _ _)) by lia.
  assert (E1 : la ks = la ks / 4096 * 4096) by (apply Z.div_exact in Ma; lia).
  assert (E2 : la ke = (la ks + (ke - ks) + 4095) / 4096 * 4096).
  { replace (la ks + (ke - ks) + 4095) with (4095 + la ke / 4096 * 4096) by (apply Z.div_exact in Mb; unfold lin in *; lia).
    rewrite Z.div_add by lia. change (4095 / 4096) with 0. apply Z.div_exact in Mb; lia. }
  eapply returns_mono.
  { apply (create_pgd_mapping_ok root 0xffff (la ks) (la ke) (lin_delta memstart) PAGE_KERNEL_RO NO_CONT_MAPPINGS J None s ks (la ks) (ke - ks) 0);
      [lia|lia|lia| |done|done|unfold lin; lia|by split| | |lia].
    - replace ks with (la ks + lin_delta memstart) at 1 by (unfold lin; lia). rewrite Z.add_mod, Ma, Md by lia. done.
    - intros va Hva2. right. exists (plan_desc (la ks) (la ke) (lin_delta memstart) PAGE_KERNEL NO_CONT_MAPPINGS va).
      split; [by apply Hmap|]. exact (plan_ro_safe 0xffff _ _ _ va J1 Hva2).
    - split; [|done]. rewrite Z.add_0_r. apply (rq_cost_nonneg (kernel_rq memstart ks ke)). simpl. lia. }
  intros s' [Hst _]. split; [apply Hst|]. split.
  - intros a Ha. assert (Hin : la ks <= la a < la ke) by (unfold lin; lia).
    rewrite (translate_term root s'.2 (la a) _ _ (st_in _ _ _ _ _ _ _ _ _ _ _ _ Hst _ Hin)), (plan_translates 0xffff _ _ _ _ _ J _ Hin).
    do 2 f_equal. unfold lin. lia.
  - intros va Hh Hout. destruct (term_exists root 0xffff s.2 va Hwf Hh) as (l & d & Ht). rewrite (translate_term root s.2 va l d Ht).
    destruct (st_out _ _ _ _ _ _ _ _ _ _ _ _ Hst va l d Hh Hout Ht) as [Ht'|(-> & l' & _ & Ht' & _)]; rewrite (translate_term root s'.2 va _ _ Ht'); [done|].
    by rewrite !leaf_zero.
Qed.
End spec.

(** C21: The boot sequence [map_mem] and [mark_linear_text_alias_ro], with table
    pages from memblock: as long as memblock has the pages for the tables, it runs
    to the end, and afterwards every address of memory that is not NOMAP is
    readable and writable at its alias in the linear map, the alias of the kernel
    text and read-only data is read-only, and nothing else of that half of the
    address space has changed. *)
Theorem linear_map_spec memstart kimage_voffset _text __init_begin root n rodata_full mb mb1 lm lr m
  (ks := __pa_symbol kimage_voffset _text) (ke := __pa_symbol kimage_voffset __init_begin)
  (B : boot_ok memstart kimage_voffset _text __init_begin root n mb lm lr m)
  (Hmark : memblock_mark_nomap mb ks (u64 (ke - ks)) = Ret (0, mb1))
  (Hroom : allocs (Z.to_nat (map_mem_pages memstart kimage_voffset _text __init_begin rodata_full mb1)) mb1 = true) :
  returns (s1 ← map_mem memstart kimage_voffset rodata_full _text __init_begin (mb, m) root;
           mark_linear_text_alias_ro memstart kimage_voffset _text __init_begin s1 root) (fun s' =>
    (forall a, ks <= a < ke -> translate s'.2 root (lin memstart a) = Some (a, attrs PAGE_KERNEL_RO)) /\
    (forall a, mapped_memory kimage_voffset _text __init_begin lm a ->
      translate s'.2 root (lin memstart a) = Some (a, attrs PAGE_KERNEL)) /\
    (forall va, inhi 0xffff va -> (forall a, ks <= a < ke \/ mapped_memory kimage_voffset _text __init_begin lm a -> va <> lin memstart a) ->
      translate s'.2 root va = translate m root va)).
Proof.
  destruct (mark_ok memstart kimage_voffset _text __init_begin root n mb mb1 lm lr m B Hmark) as [lm1 K].
  pose proof (bo_kernel _ _ _ _ _ _ _ _ _ _ B) as Hker. destruct (bo_start _ _ _ _ _ _ _ _ _ _ B) as [Hms Hma].
  eapply returns_bind; [by apply (map_mem_ok memstart kimage_voffset _text __init_begin root n rodata_full mb mb1 lm lr m B lm1 K)|].
  intros s1 [a0 Hmaps]. pose proof (mp_good _ _ _ _ _ _ Hmaps) as [Hwf _]. cbn [snd] in Hwf. eapply returns_mono.
  { apply (mark_ro_ok memstart kimage_voffset _text __init_begin root n mb lm lr m B s1 Hwf).
    - pose proof (mp_in _ _ _ _ _ _ Hmaps) as Hin. apply Forall_app in Hin as [_ Hin]. by apply Forall_cons in Hin as [? _].
    - destruct Hker as (H1 & H2 & H3 & _). fold ks ke in H1, H2, H3 |- *. rewrite <- (u64_small (ke - ks)) by lia.
      unfold ks, ke, __pa_symbol, u64. rewrite <- Zminus_mod. f_equal. lia. }
  intros s' (Hwf' & Hro & Hout). fold ks ke in Hro, Hout, Hker.
  assert (Hk : forall a, lin memstart ks <= lin memstart a < lin memstart ke -> ks <= a < ke) by (unfold lin; lia).
  split; [done|]. split.
  - intros a Ha. destruct (region_in memstart kimage_voffset _text __init_begin n rodata_full mb1 lm lr lm1 K a Ha) as (q & Hq & Hin & Hd & Hp).
    assert (Hok : rq_ok 0xffff q).
    { pose proof (region_rqs_ok memstart Hms Hma (map_flags rodata_full) lm1 (marked_linear _ _ _ _ _ _ _ _ _ _ _ B lm1 K)) as Hall.
      rewrite Forall_forall in Hall. by apply Hall. }
    rewrite Hout; [|by apply (range_inhi _ _ _ _ _ Hok)|intros H%Hk; by apply (proj2 Ha)].
    pose proof (maps_in_translate root 0xffff _ _ q (mb1, m) (a0, s1.2) (lin memstart a) Hmaps ltac:(apply elem_of_app; by left) Hok Hin) as E.
    cbn [snd] in E. rewrite E, Hd, Hp. do 2 f_equal. unfold lin. lia.
  - intros va Hh Hne. rewrite Hout; [|done|].
    2:{ intros Hin. apply (Hne (va + lin_delta memstart)); [left; apply Hk|]; unfold lin in *; lia. }
    apply (maps_out_translate root 0xffff _ _ (mb1, m) (a0, s1.2) va Hmaps); [|done|].
    + destruct (bo_tables _ _ _ _ _ _ _ _ _ _ B) as [Hwf0 Htk]. split; [done|]. intros l v p Hl Hv Hp. specialize (Htk l v p Hl Hv Hp). cbn in Htk |- *.
      rewrite (boot_taken_holds _ _ _ _ _ (bo_holds _ _ _ _ _ _ _ _ _ _ B)) in Htk. by rewrite (boot_taken_holds _ _ _ _ _ (mk_mb _ _ _ _ _ _ _ _ K)).
    + apply Forall_app. split; [|constructor; [|done]].
      * rewrite Forall_forall. intros q Hq Hin. destruct (region_out _ _ _ _ _ _ _ _ _ _ _ _ B lm1 K q va Hq Hin) as (a & -> & Ha). by apply (Hne a); [right|].
      * intros Hin. apply (Hne (va + lin_delta memstart)); [left|unfold lin; lia]. unfold in_rq in Hin. simpl in Hin. unfold lin in Hin. fold ks ke in Hin. lia.
Qed.

(** One megabyte at 4 MiB: its first page holds the root table, the kernel text
    takes 64K further up. *)
Definition marked_demo : memblock :=
  match memblock_mark_nomap demo 0x410000 0x10000 with Ret (_, mb) => mb | _ => demo end.

Lemma demo_paged : paged demo_mem.
Proof.
  intros a b E. unfold demo_mem, flags_at, contains. cbn [base rsize flags].
  pose proof (Z.div_mod a 4096 ltac:(lia)). pose proof (Z.mod_pos_bound a 4096 ltac:(lia)).
  pose proof (Z.div_mod b 4096 ltac:(lia)). pose proof (Z.mod_pos_bound b 4096 ltac:(lia)).
  destruct (Z.leb_spec 4194304 a), (Z.ltb_spec a (4194304 + 1048576)), (Z.leb_spec 4194304 b), (Z.ltb_spec b (4194304 + 1048576)); simpl; try done; lia.
Qed.

Lemma demo_range a : flags_at demo_mem a <> None -> 4194304 <= a < 5242880.
Proof. intros H. unfold demo_mem, flags_at in H. destruct (contains _ a) eqn:E; [|done]. apply contains_spec in E. simpl in E. lia. Qed.

Lemma demo_boot_ok : boot_ok 0x400000 0xfffeffffffc70000 0xffff000000080000 0xffff000000090000 0x400000 128 demo demo_mem demo_res (clear_page ∅ 0x400000).
Proof.
  assert (Hr : page 0x400000) by done. split; [done|exact demo_holds|by exists 4194304|exact demo_paged| | | |].
  - intros a Ha%demo_range. lia.
  - by apply (bool_decide_unpack _); vm_compute.
  - apply empty_good; [done|]. cbn. apply (boot_taken_holds demo_mem 128 demo demo_res); [exact demo_holds|]. by vm_compute.
  - intros a _. by apply empty_term.
Qed.

Lemma linear_map_spec_witness :
  let kv := 0xfffeffffffc70000 in let text := 0xffff000000080000 in let init := 0xffff000000090000 in
  returns (s1 ← map_mem 0x400000 kv false text init (demo, clear_page ∅ 0x400000) 0x400000;
           mark_linear_text_alias_ro 0x400000 kv text init s1 0x400000) (fun s' =>
    (forall a, 0x410000 <= a < 0x420000 -> translate s'.2 0x400000 (lin 0x400000 a) = Some (a, attrs PAGE_KERNEL_RO)) /\
    (forall a, mapped_memory kv text init demo_mem a -> translate s'.2 0x400000 (lin 0x400000 a) = Some (a, attrs PAGE_KERNEL)) /\
    (forall va, inhi 0xffff va -> (forall a, 0x410000 <= a < 0x420000 \/ mapped_memory kv text init demo_mem a -> va <> lin 0x400000 a) ->
      translate s'.2 0x400000 va = translate (clear_page ∅ 0x400000) 0x400000 va)).
Proof.
  exact (linear_map_spec 0x400000 0xfffeffffffc70000 0xffff000000080000 0xffff000000090000 0x400000 128 false demo marked_demo demo_mem demo_res
    (clear_page ∅ 0x400000) demo_boot_ok ltac:(vm_compute; reflexivity) ltac:(vm_compute; reflexivity)).
Defined.
