(* ===== verification/Sort.v ===== *)
(** * Sorting and searching arrays and lists (lib/base/src/sort.c, bsearch.c, list_sort.c)

    An array is its bytes; a pointer into it is an offset from [base], and an
    element the [size] bytes at a multiple of [size].  The comparison function is a
    parameter on elements.  Offsets are the C [int]s of the code: the products and
    differences with [size_t] operands wrap at 64 bits and are then converted, and
    the doubling of an [int] faults when it overflows.

    The nodes of a linked list are addresses; the store has their [next] and
    [prev] pointers, 0 is NULL, and a pointer to something else faults.  The
    comparison function is a parameter on nodes.  [merge] builds its result
    behind a node of its own on the stack, here a variable beside the store. *)
From stdpp Require Import base numbers list option gmap sorting.
From Stdlib Require Import ZArith Lia.
From S2P Require Import Prelude.

(** A comparison function that orders all elements. *)
Class TotalCmp {A} (cmp : A -> A -> Z) : Prop := {
  cmp_trans x y z : cmp x y <= 0 -> cmp y z <= 0 -> cmp x z <= 0;
  cmp_total x y : 0 <= cmp x y -> cmp y x <= 0 }.

Abbreviation bytes := (list Z).

(** [n] bytes at an offset. *)
Definition load (buf : bytes) (off n : Z) : outcome bytes :=
  if decide (0 <= off /\ 0 <= n /\ off + n <= Z.of_nat (length buf)) then Ret (take (Z.to_nat n) (drop (Z.to_nat off) buf)) else Fault.
Definition store (buf : bytes) (off : Z) (x : bytes) : outcome bytes :=
  if decide (0 <= off /\ off + Z.of_nat (length x) <= Z.of_nat (length buf))
  then Ret (take (Z.to_nat off) buf ++ x ++ drop (Z.to_nat off + length x) buf) else Fault.

(** [2 * r] on [int]. *)
Definition twice (r : Z) : outcome Z := if decide (- 2 ^ 31 <= 2 * r < 2 ^ 31) then Ret (2 * r) else Fault.

(** ** Exchanging two elements *)

Definition swap_fun : Type := bytes -> Z -> Z -> Z -> outcome bytes.

Definition word_swap (width : Z) : swap_fun := fun buf a b _ =>
  t ← load buf a width;
  x ← load buf b width;
  buf ← store buf a x;
  store buf b t.
Definition u32_swap : swap_fun := word_swap 4.
Definition u64_swap : swap_fun := word_swap 8.

Definition generic_swap_turn (st : bytes * Z * Z * Z) : outcome (bytes * Z * Z * Z + bytes) :=
  let '(buf, a, b, size) := st in
  t ← rd buf a;
  x ← rd buf b;
  buf ← wr buf a x;
  buf ← wr buf b t;
  let size := size - 1 in
  if 0 <? size then Ret (inl (buf, a + 1, b + 1, size)) else Ret (inr buf).
Definition generic_swap : swap_fun := fun buf a b size => loop (Z.to_nat size + 1) generic_swap_turn (buf, a, b, size).

(** The configuration is a parameter: BASE_ARM64 selects
    [HAVE_EFFICIENT_UNALIGNED_ACCESS], other builds need not. *)
Definition alignment_ok (CONFIG_HAVE_EFFICIENT_UNALIGNED_ACCESS : bool) (base align : Z) : bool :=
  CONFIG_HAVE_EFFICIENT_UNALIGNED_ACCESS || (Z.land base (align - 1) =? 0).

(** ** Heap sort *)

Section sort.
Context (cmp_func : bytes -> bytes -> Z).

(** One turn of the inner loop, over the first [n] bytes. *)
Definition sift_turn (swap_func : swap_fun) (size n : Z) (st : bytes * Z) : outcome (bytes * Z + bytes) :=
  let '(buf, r) := st in
  r2 ← twice r;
  if u64 (u64 r2 + size) <? u64 n then
    let c := s32 (u64 (u64 r2 + size)) in
    right ← (if u64 c <? u64 (u64 n - size) then
               x ← load buf c size; y ← load buf (c + size) size; Ret (cmp_func x y <? 0)
             else Ret false);
    let c := if right : bool then s32 (u64 (u64 c + size)) else c in
    x ← load buf r size;
    y ← load buf c size;
    if 0 <=? cmp_func x y then Ret (inr buf)
    else buf ← swap_func buf r c (s32 size); Ret (inl (buf, c))
  else Ret (inr buf).
Definition sift (swap_func : swap_fun) (size n : Z) (buf : bytes) (r : Z) : outcome bytes :=
  loop (length buf + 1) (sift_turn swap_func size n) (buf, r).

Definition heapify_turn (swap_func : swap_fun) (size n : Z) (st : bytes * Z) : outcome (bytes * Z + bytes) :=
  let '(buf, i) := st in
  if 0 <=? i then buf ← sift swap_func size n buf i; Ret (inl (buf, s32 (u64 (u64 i - size))))
  else Ret (inr buf).
Definition extract_turn (swap_func : swap_fun) (size : Z) (st : bytes * Z) : outcome (bytes * Z + bytes) :=
  let '(buf, i) := st in
  if 0 <? i then
    buf ← swap_func buf 0 i (s32 size);
    buf ← sift swap_func size i buf 0;
    Ret (inl (buf, s32 (u64 (u64 i - size))))
  else Ret (inr buf).

(** [None] is a null [swap_func]. *)
Definition sort (unaligned_access : bool) (base : Z) (buf : bytes) (num size : Z) (swap_func : option swap_fun) : outcome bytes :=
  let i := s32 (u64 (u64 (num / 2 - 1) * size)) in
  let n := s32 (u64 (num * size)) in
  let swap_func := match swap_func with
                   | Some f => f
                   | None => if (size =? 4) && alignment_ok unaligned_access base 4 then u32_swap
                             else if (size =? 8) && alignment_ok unaligned_access base 8 then u64_swap
                             else generic_swap
                   end in
  buf ← loop (length buf + 2) (heapify_turn swap_func size n) (buf, i);
  loop (length buf + 2) (extract_turn swap_func size) (buf, s32 (u64 (u64 n - size))).
End sort.

(** ** Binary search *)

Section bsearch.
Context {K : Type} (cmp : K -> bytes -> Z).

Definition bsearch_turn (key : K) (buf : bytes) (size : Z) (st : Z * Z) : outcome (Z * Z + option Z) :=
  let '(base, num) := st in
  if 0 <? num then
    let pivot := base + Z.shiftr num 1 * size in
    elt ← load buf pivot size;
    let result := cmp key elt in
    if result =? 0 then Ret (inr (Some pivot))
    else
      let '(base, num) := if 0 <? result then (pivot + size, num - 1) else (base, num) in
      Ret (inl (base, Z.shiftr num 1))
  else Ret (inr None).
(** The offset of a match, or NULL. *)
Definition bsearch (key : K) (buf : bytes) (num size : Z) : outcome (option Z) :=
  loop (Z.to_nat num + 1) (bsearch_turn key buf size) (0, num).
End bsearch.

Example sort_ex : sort (fun a b => hd 0 a - hd 0 b) true 0 [3;1;4;1;5;9;2;6;5;3;5] 11 1 None = Ret [1;1;2;3;3;4;5;5;5;6;9].
Proof. vm_compute. reflexivity. Qed.
Example sort_ex4 : sort (fun a b => hd 0 a - hd 0 b) true 0x1001 [3;0;0;0;1;0;0;7;4;0;0;0;2;0;0;0] 4 4 None = Ret [1;0;0;7;2;0;0;0;3;0;0;0;4;0;0;0].
Proof. vm_compute. reflexivity. Qed.
Example sort_empty : sort (fun a b => hd 0 a - hd 0 b) false 0 [] 0 4 None = Ret [].
Proof. vm_compute. reflexivity. Qed.

Record links : Type := mk_links { nexts : gmap Z Z; prevs : gmap Z Z }.

Definition getp (m : gmap Z Z) (p : Z) : outcome Z := match m !! p with Some q => Ret q | None => Fault end.
Definition setp (m : gmap Z Z) (p v : Z) : outcome (gmap Z Z) := match m !! p with Some _ => Ret (<[p := v]> m) | None => Fault end.
Definition get_next (m : links) (p : Z) : outcome Z := getp (nexts m) p.
Definition set_next (m : links) (p v : Z) : outcome links := x ← setp (nexts m) p v; Ret (mk_links x (prevs m)).
Definition set_prev (m : links) (p v : Z) : outcome links := x ← setp (prevs m) p v; Ret (mk_links (nexts m) x).

Section list_sort.
Context (cmp : Z -> Z -> Z).

(** [tail->next = p], where [tail] is a node or, for [None], the local head. *)
Definition set_tail (m : links) (h : Z) (tail : option Z) (p : Z) : outcome (links * Z) :=
  match tail with None => Ret (m, p) | Some t => m ← set_next m t p; Ret (m, h) end.
Definition tail_next (m : links) (h : Z) (tail : option Z) : outcome Z :=
  match tail with None => Ret h | Some t => get_next m t end.

Definition merge_list_turn (st : links * Z * option Z * Z * Z) : outcome (links * Z * option Z * Z * Z + Z * links) :=
  let '(m, h, tail, a, b) := st in
  if negb (a =? 0) && negb (b =? 0) then
    '(m, h, a, b) ← (if cmp a b <=? 0 then
                       '(m, h) ← set_tail m h tail a; a ← get_next m a; Ret (m, h, a, b)
                     else
                       '(m, h) ← set_tail m h tail b; b ← get_next m b; Ret (m, h, a, b));
    t ← tail_next m h tail;
    Ret (inl (m, h, Some t, a, b))
  else
    '(m, h) ← set_tail m h tail (if negb (a =? 0) then a else b);
    Ret (inr (h, m)).
Definition merge (m : links) (a b : Z) : outcome (Z * links) :=
  loop (S (size (nexts m))) merge_list_turn (m, 0, None, a, b).

(** The calls of [cmp] with [count] are for their effect on the scheduler only. *)
Definition restore_merge_turn (st : links * Z * Z * Z) : outcome (links * Z * Z * Z + links * Z) :=
  let '(m, tail, a, b) := st in
  if negb (a =? 0) && negb (b =? 0) then
    '(m, a, b) ← (if cmp a b <=? 0 then
                    m ← set_next m tail a; m ← set_prev m a tail; a ← get_next m a; Ret (m, a, b)
                  else
                    m ← set_next m tail b; m ← set_prev m b tail; b ← get_next m b; Ret (m, a, b));
    tail ← get_next m tail;
    Ret (inl (m, tail, a, b))
  else m ← set_next m tail (if negb (a =? 0) then a else b); Ret (inr (m, tail)).
Definition restore_turn (st : links * Z) : outcome (links * Z + links * Z) :=
  let '(m, tail) := st in
  n ← get_next m tail;
  m ← set_prev m n tail;
  tail ← get_next m tail;
  n ← get_next m tail;
  if negb (n =? 0) then Ret (inl (m, tail)) else Ret (inr (m, tail)).
Definition merge_and_restore_back_links (m : links) (head a b : Z) : outcome links :=
  '(m, tail) ← loop (S (size (nexts m))) restore_merge_turn (m, head, a, b);
  '(m, tail) ← loop (S (size (nexts m))) restore_turn (m, tail);
  m ← set_next m tail head;
  set_prev m head tail.

Definition MAX_LIST_LENGTH_BITS : Z := 20.

(** [for (lev = 0; part[lev]; lev++)] *)
Definition collapse_turn (st : links * list Z * Z * Z) : outcome (links * list Z * Z * Z + links * list Z * Z * Z) :=
  let '(m, part, lev, cur) := st in
  p ← rd part lev;
  if negb (p =? 0) then
    '(cur, m) ← merge m p cur;
    part ← wr part lev 0;
    Ret (inl (m, part, lev + 1, cur))
  else Ret (inr (m, part, lev, cur)).

Definition insert_turn (st : links * list Z * Z * Z) : outcome (links * list Z * Z * Z + links * list Z * Z) :=
  let '(m, part, max_lev, list) := st in
  if negb (list =? 0) then
    let cur := list in
    list ← get_next m list;
    m ← set_next m cur 0;
    '(m, part, lev, cur) ← loop (length part + 1) collapse_turn (m, part, 0, cur);
    let '(lev, max_lev) :=
      if max_lev <? lev then
        let lev := if Z.of_nat (length part) - 1 <=? lev then lev - 1 else lev in (lev, lev)
      else (lev, max_lev) in
    part ← wr part lev cur;
    Ret (inl (m, part, max_lev, list))
  else Ret (inr (m, part, max_lev)).

Definition collect_turn (part : list Z) (max_lev : Z) (st : links * Z * Z) : outcome (links * Z * Z + links * Z) :=
  let '(m, lev, list) := st in
  if lev <? max_lev then
    p ← rd part lev;
    '(list, m) ← (if negb (p =? 0) then merge m p list else Ret (list, m));
    Ret (inl (m, lev + 1, list))
  else Ret (inr (m, list)).

Definition list_sort (m : links) (head : Z) : outcome links :=
  first ← get_next m head;
  if first =? head then Ret m
  else
    let part := replicate (Z.to_nat (MAX_LIST_LENGTH_BITS + 1)) 0 in
    last ← getp (prevs m) head;
    m ← set_next m last 0;
    list ← get_next m head;
    '(m, part, max_lev) ← loop (S (size (nexts m))) insert_turn (m, part, 0, list);
    '(m, list) ← loop (Z.to_nat max_lev + 1) (collect_turn part max_lev) (m, 0, 0);
    p ← rd part max_lev;
    merge_and_restore_back_links m head p list.
End list_sort.

(** Four nodes, sorted by their address modulo 100. *)
Example list_sort_ex :
  let ring := [10; 340; 120; 220; 430] in
  let nx := list_to_map (zip ring (tail ring ++ [10])) in let pv := list_to_map (zip (tail ring ++ [10]) ring) in
  (m ← list_sort (fun a b => a mod 100 - b mod 100) (mk_links nx pv) 10;
   Ret (map (fun p => (nexts m !! p, prevs m !! p)) [10; 120; 220; 430; 340])) =
  Ret [(Some 120, Some 340); (Some 220, Some 10); (Some 430, Some 120); (Some 340, Some 220); (Some 10, Some 430)].
Proof. vm_compute. reflexivity. Qed.
