(* ===== verification/SortHeap.v ===== *)
(** * Elements of an array, and heaps

    An array is the concatenation of its elements; reading, writing and exchanging
    elements.  The loop that lets an element sink restores the heap order. *)
From stdpp Require Import base numbers list option sorting.
From Stdlib Require Import ZArith Lia.
From S2P Require Import Prelude Sort.

Lemma returns_Ret {A} (m : outcome A) c : returns m (eq c) -> m = Ret c.
Proof. destruct m; [by intros <-|done..]. Qed.

(** ** Bytes and elements *)

Section elements.
Context (sz : nat).
Definition elements (els : list bytes) : Prop := Forall (fun e => length e = sz) els.
Abbreviation at_ i := (Z.of_nat sz * Z.of_nat i) (only parsing).

Lemma elements_lookup els i e : elements els -> els !! i = Some e -> length e = sz.
Proof. intros H Hi. by apply (Forall_lookup_1 _ _ _ _ H Hi). Qed.

Lemma elements_insert els i e : elements els -> length e = sz -> elements (<[i := e]> els).
Proof. intros H He. by apply Forall_insert. Qed.

Lemma concat_length els : elements els -> length (concat els) = (sz * length els)%nat.
Proof. induction 1 as [|e els He _ IH]; [simpl; lia|]. simpl. rewrite length_app, IH, He. lia. Qed.

(** An element and what surrounds it. *)
Lemma concat_split els i e : elements els -> els !! i = Some e ->
  concat els = concat (take i els) ++ e ++ concat (drop (S i) els) /\ length (concat (take i els)) = (sz * i)%nat.
Proof.
  intros H Hi. pose proof (lookup_lt_Some _ _ _ Hi). split.
  - rewrite <- (take_drop_middle els i e Hi) at 1. by rewrite concat_app.
  - rewrite concat_length by (by apply Forall_take). rewrite length_take. lia.
Qed.

Lemma concat_lookup els i e k : elements els -> els !! i = Some e -> (k < sz)%nat -> concat els !! (sz * i + k)%nat = e !! k.
Proof.
  intros H Hi Hk. destruct (concat_split els i e H Hi) as [-> Hl]. pose proof (elements_lookup els i e H Hi).
  rewrite lookup_app_r, Hl by lia. rewrite lookup_app_l by lia. f_equal. lia.
Qed.

Lemma concat_insert els i e e' : elements els -> els !! i = Some e ->
  concat (<[i := e']> els) = concat (take i els) ++ e' ++ concat (drop (S i) els).
Proof.
  intros H Hi. rewrite insert_take_drop by (by apply lookup_lt_Some in Hi). by rewrite concat_app.
Qed.

Lemma load_at els i e : elements els -> els !! i = Some e -> load (concat els) (at_ i) (Z.of_nat sz) = Ret e.
Proof.
  intros H Hi. pose proof (elements_lookup els i e H Hi) as He. pose proof (lookup_lt_Some _ _ _ Hi).
  unfold load. rewrite decide_True by (rewrite concat_length by done; nia).
  destruct (concat_split els i e H Hi) as [-> Hl]. rewrite <- Nat2Z.inj_mul, !Nat2Z.id.
  rewrite drop_app_length' by lia. by rewrite take_app_length' by lia.
Qed.

Lemma store_at els i e e' : elements els -> els !! i = Some e -> length e' = sz ->
  store (concat els) (at_ i) e' = Ret (concat (<[i := e']> els)).
Proof.
  intros H Hi He'. pose proof (elements_lookup els i e H Hi) as He. pose proof (lookup_lt_Some _ _ _ Hi).
  unfold store. rewrite decide_True by (rewrite concat_length by done; nia).
  destruct (concat_split els i e H Hi) as [E Hl]. rewrite (concat_insert els i e) by done. rewrite E, <- Nat2Z.inj_mul, !Nat2Z.id.
  rewrite take_app_length' by lia. rewrite drop_app_ge by lia. rewrite Hl. by replace (sz * i + length e' - sz * i)%nat with (length e') by lia;
    rewrite He', <- He, drop_app_length.
Qed.

Lemma wr_at els i e k x : elements els -> els !! i = Some e -> (k < sz)%nat ->
  wr (concat els) (at_ i + Z.of_nat k) x = Ret (concat (<[i := <[k := x]> e]> els)).
Proof.
  intros H Hi Hk. pose proof (elements_lookup els i e H Hi) as He. pose proof (lookup_lt_Some _ _ _ Hi).
  rewrite wr_in_range by (rewrite concat_length by done; nia). f_equal. rewrite (concat_insert els i e) by done.
  destruct (concat_split els i e H Hi) as [-> Hl]. replace (Z.to_nat (at_ i + Z.of_nat k)) with (length (concat (take i els)) + k)%nat by lia.
  rewrite insert_app_r. by rewrite insert_app_l by lia.
Qed.

Lemma rd_at els i e k x : elements els -> els !! i = Some e -> e !! k = Some x -> rd (concat els) (at_ i + Z.of_nat k) = Ret x.
Proof.
  intros H Hi Hk. pose proof (elements_lookup els i e H Hi) as He. pose proof (lookup_lt_Some _ _ _ Hk).
  replace (at_ i + Z.of_nat k) with (Z.of_nat (sz * i + k)) by lia. apply rd_lookup; [lia|]. rewrite Nat2Z.id. rewrite (concat_lookup els i e) by (done || lia). done.
Qed.

(** *** Exchanges *)

Definition exchange (els : list bytes) (i j : nat) : list bytes :=
  match els !! i, els !! j with Some a, Some b => <[j := a]> (<[i := b]> els) | _, _ => els end.

Lemma exchange_eq els i j a b : els !! i = Some a -> els !! j = Some b -> exchange els i j = <[j := a]> (<[i := b]> els).
Proof. intros Hi Hj. unfold exchange. by rewrite Hi, Hj. Qed.

Lemma exchange_perm els i j : exchange els i j ≡ₚ els.
Proof.
  unfold exchange. destruct (els !! i) eqn:Hi; [|done]. destruct (els !! j) eqn:Hj; [|done]. by apply Permutation_insert_swap.
Qed.

Lemma exchange_elements els i j : elements els -> elements (exchange els i j).
Proof. intros H. unfold elements. by rewrite exchange_perm. Qed.

Lemma exchange_length els i j : length (exchange els i j) = length els.
Proof. by rewrite exchange_perm. Qed.

Lemma exchange_lookup els i j k : (i < length els)%nat -> (j < length els)%nat ->
  exchange els i j !! k = if decide (k = j) then els !! i else if decide (k = i) then els !! j else els !! k.
Proof.
  intros [a Ha]%lookup_lt_is_Some_2 [b Hb]%lookup_lt_is_Some_2. rewrite (exchange_eq els i j a b Ha Hb).
  pose proof (lookup_lt_Some _ _ _ Ha). pose proof (lookup_lt_Some _ _ _ Hb).
  destruct (decide (k = j)) as [->|Hj]; [by rewrite list_lookup_insert_eq by (rewrite length_insert; lia)|].
  rewrite list_lookup_insert_ne by done. destruct (decide (k = i)) as [->|Hi]; [by rewrite list_lookup_insert_eq|].
  by rewrite list_lookup_insert_ne.
Qed.

(** What the code expects of a swap function. *)
Definition swaps (f : swap_fun) : Prop := forall els i j, elements els -> i <> j -> (i < length els)%nat -> (j < length els)%nat ->
  f (concat els) (at_ i) (at_ j) (Z.of_nat sz) = Ret (concat (exchange els i j)).

Lemma word_swap_ok : swaps (word_swap (Z.of_nat sz)).
Proof.
  intros els i j H Hij [a Ha]%lookup_lt_is_Some_2 [b Hb]%lookup_lt_is_Some_2. unfold word_swap.
  rewrite (load_at els i a H Ha), bind_ret, (load_at els j b H Hb), bind_ret. pose proof (elements_lookup els j b H Hb) as Lb.
  rewrite (store_at els i a b H Ha Lb), bind_ret. rewrite (exchange_eq els i j a b Ha Hb).
  apply (store_at _ j b a); [by apply elements_insert|by rewrite list_lookup_insert_ne|by apply (elements_lookup els i)].
Qed.

(** The first [k] bytes exchanged. *)
Definition swapped (els : list bytes) (i j : nat) (a b : bytes) (k : nat) : list bytes :=
  <[j := take k a ++ drop k b]> (<[i := take k b ++ drop k a]> els).

Lemma generic_swap_ok : (0 < sz)%nat -> swaps generic_swap.
Proof.
  intros Hsz els i j H Hij Hi Hj. apply lookup_lt_is_Some_2 in Hi as [a Ha]. apply lookup_lt_is_Some_2 in Hj as [b Hb].
  pose proof (elements_lookup els i a H Ha) as La. pose proof (elements_lookup els j b H Hb) as Lb.
  pose proof (lookup_lt_Some _ _ _ Ha) as Hi. pose proof (lookup_lt_Some _ _ _ Hb) as Hj.
  apply returns_Ret. unfold generic_swap.
  apply loop_returns with (m := fun '(_, _, _, s) => Z.to_nat s)
    (I := fun '(buf, p, q, s) => exists k, (k < sz)%nat /\ buf = concat (swapped els i j a b k) /\ p = at_ i + Z.of_nat k /\ q = at_ j + Z.of_nat k /\ s = Z.of_nat (sz - k)).
  - exists 0%nat. split; [done|]. split; [|lia]. unfold swapped. rewrite !take_0, !drop_0. simpl.
    rewrite (list_insert_id els i a Ha). by rewrite (list_insert_id els j b Hb).
  - lia.
  - intros [[[buf p] q] s] (k & Hk & -> & -> & -> & ->). unfold generic_swap_turn.
    set (x := take k b ++ drop k a). set (y := take k a ++ drop k b).
    assert (Hx : length x = sz) by (unfold x; rewrite length_app, length_take, length_drop; lia).
    assert (Hy : length y = sz) by (unfold y; rewrite length_app, length_take, length_drop; lia).
    destruct (lookup_lt_is_Some_2 a k ltac:(lia)) as [u Hu]. destruct (lookup_lt_is_Some_2 b k ltac:(lia)) as [v Hv].
    assert (Hxk : x !! k = Some u) by (unfold x; rewrite lookup_app_r, length_take, lookup_drop by (rewrite length_take; lia);
      rewrite <- Hu; f_equal; lia).
    assert (Hyk : y !! k = Some v) by (unfold y; rewrite lookup_app_r, length_take, lookup_drop by (rewrite length_take; lia);
      rewrite <- Hv; f_equal; lia).
    assert (Hnext : forall (c d : bytes) (w z : Z), c !! k = Some w -> d !! k = Some z -> <[k := z]> (take k d ++ drop k c) = take (S k) d ++ drop (S k) c).
    { intros c d w z Hc Hd. pose proof (lookup_lt_Some _ _ _ Hd). rewrite (take_S_r d k z Hd), <- app_assoc. simpl.
      rewrite insert_app_r_alt by (rewrite length_take; lia). f_equal. rewrite length_take, Nat.min_l, Nat.sub_diag by lia.
      rewrite (drop_S c w k Hc). done. }
    assert (Hel : elements (swapped els i j a b k)) by (unfold swapped; fold x y; by apply elements_insert; [apply elements_insert|]).
    assert (Hli : swapped els i j a b k !! i = Some x) by (unfold swapped; fold x y; by rewrite list_lookup_insert_ne, list_lookup_insert_eq).
    assert (Hlj : swapped els i j a b k !! j = Some y) by (unfold swapped; fold x y; rewrite list_lookup_insert_eq by (by rewrite length_insert); done).
    rewrite (rd_at _ i x k u), bind_ret, (rd_at _ j y k v), bind_ret, (wr_at _ i x k v), bind_ret by done.
    rewrite (wr_at _ j y k u); [|by apply elements_insert; [|rewrite length_insert]|by rewrite list_lookup_insert_ne|done]. rewrite bind_ret.
    assert (Es : <[j := <[k := u]> y]> (<[i := <[k := v]> x]> (swapped els i j a b k)) = swapped els i j a b (S k)).
    { unfold swapped. fold x y. rewrite (list_insert_insert_ne _ j i) by done. rewrite list_insert_insert_eq.
      rewrite (list_insert_insert_ne _ i j) by done. rewrite list_insert_insert_eq.
      unfold x, y. by rewrite (Hnext a b u v), (Hnext b a v u). }
    rewrite Es. destruct (Z.ltb_spec 0 (Z.of_nat (sz - k) - 1)); simpl.
    + split; [|lia]. exists (S k). split; [lia|]. split; [done|]. lia.
    + assert (S k = sz) as -> by lia. unfold swapped. rewrite (exchange_eq els i j a b Ha Hb), !take_ge, !drop_ge, !app_nil_r by lia. done.
Qed.
End elements.

(** ** Heap sort

    A heap is an array in which no element is below its children; [sift] repairs
    it below one position. *)

(** Conversions of offsets. *)
Lemma s32_u64 z : s32 (u64 z) = s32 z.
Proof.
  unfold s32, u64. f_equal. rewrite <- Zplus_mod_idemp_l. change (2 ^ 64) with (2 ^ 32 * 2 ^ 32).
  rewrite Z.rem_mul_r by lia. rewrite (Z.mul_comm (2 ^ 32)), Z.mod_add, Z.mod_mod, Zplus_mod_idemp_l by lia. done.
Qed.

Lemma u64_mul_l a b : u64 (u64 a * b) = u64 (a * b).
Proof. apply Zmult_mod_idemp_l. Qed.

Definition child (p c : nat) : Prop := c = (2 * p + 1)%nat \/ c = (2 * p + 2)%nat.

Section heap.
Context (cmp : bytes -> bytes -> Z) `{!TotalCmp cmp}.
Context (sz : nat) (Hsz : (0 < sz)%nat) (f : swap_fun) (Hf : swaps sz f).
Abbreviation at_ i := (Z.of_nat sz * Z.of_nat i) (only parsing).

(** The order between the positions from [k] on, below [n], but for the children
    of [r]. *)
Definition heap_but (els : list bytes) (n k : nat) (r : option nat) : Prop := forall p c x y,
  (k <= p)%nat -> Some p <> r -> child p c -> (c < n)%nat -> els !! p = Some x -> els !! c = Some y -> cmp y x <= 0.
(** The children of [r] are not above its parent. *)
Definition bridge (els : list bytes) (n k r : nat) : Prop := forall p c x y,
  (k <= p)%nat -> child p r -> child r c -> (c < n)%nat -> els !! p = Some x -> els !! c = Some y -> cmp y x <= 0.

Lemma cmp_refl x : cmp x x <= 0.
Proof. destruct (Z.le_gt_cases (cmp x x) 0); [done|]. apply cmp_total. lia. Qed.

(** Moving the larger child [c] up, its subtree is all there is left to repair. *)
Lemma heap_sink els n k r c x y : (k <= r)%nat -> child r c -> (c < n)%nat -> (n <= length els)%nat -> els !! r = Some x -> els !! c = Some y ->
  cmp x y <= 0 -> (forall c' z, child r c' -> (c' < n)%nat -> els !! c' = Some z -> cmp z y <= 0) ->
  heap_but els n k (Some r) -> bridge els n k r ->
  heap_but (exchange els r c) n k (Some c) /\ bridge (exchange els r c) n k c.
Proof.
  intros Hk Hc Hcn Hn Hx Hy Hxy Hmax Hh Hb. assert (Hrc : r <> c) by (destruct Hc; lia).
  pose proof (lookup_lt_Some _ _ _ Hx) as Lr. pose proof (lookup_lt_Some _ _ _ Hy) as Lc.
  split.
  - intros p d u v Hp Hpc Hd Hdn. rewrite !exchange_lookup by lia.
    destruct (decide (p = c)) as [->|Hpc']; [by destruct Hpc|]. destruct (decide (p = r)) as [->|Hpr].
    + rewrite Hy. intros [= <-]. destruct (decide (d = c)) as [->|Hdc]; [rewrite Hx; by intros [= <-]|].
      destruct (decide (d = r)) as [->|Hdr]; [destruct Hd; lia|]. intros Hv. by apply (Hmax d).
    + intros Hu. destruct (decide (d = c)) as [->|Hdc]; [destruct Hd, Hc; lia|].
      destruct (decide (d = r)) as [->|Hdr].
      * rewrite Hy. intros [= <-]. by apply (Hb p c).
      * intros Hv. apply (Hh p d); auto. congruence.
  - intros p d u v Hp Hpc Hd Hdn. rewrite !exchange_lookup by lia.
    assert (p = r) as -> by (destruct Hpc, Hc; lia).
    rewrite decide_False, decide_True by done. rewrite Hy. intros [= <-].
    rewrite decide_False by (destruct Hd; lia). rewrite decide_False by (destruct Hd, Hc; lia). intros Hv.
    apply (Hh c d); [destruct Hc; lia|congruence|done..].
Qed.

Lemma heap_done els n k r x : els !! r = Some x -> (forall c z, child r c -> (c < n)%nat -> els !! c = Some z -> cmp z x <= 0) ->
  heap_but els n k (Some r) -> heap_but els n k None.
Proof.
  intros Hx Hmax Hh p c u v Hp _ Hc Hcn Hu Hv. destruct (decide (p = r)) as [->|Hne].
  - rewrite Hx in Hu. injection Hu as <-. by apply (Hmax c).
  - apply (Hh p c); auto. congruence.
Qed.

(** ** The loop *)

Definition array_ok (els : list bytes) : Prop := elements sz els /\ Z.of_nat sz <= 2 ^ 30 /\ Z.of_nat sz * Z.of_nat (length els) <= 2 ^ 30.

Lemma offset_bound els i : array_ok els -> (i <= length els)%nat -> 0 <= at_ i <= 2 ^ 30.
Proof. intros (_ & _ & H) Hi. nia. Qed.

(** The larger of two children, chosen by the code. *)
Definition larger (els : list bytes) (n c : nat) : nat :=
  if decide (c + 1 < n)%nat then
    match els !! c, els !! (c + 1)%nat with Some x, Some y => if cmp x y <? 0 then c + 1 else c | _, _ => c end
  else c.

Lemma larger_lt els n c : (c < n)%nat -> (larger els n c < n)%nat.
Proof. intros Hc. unfold larger. repeat (case_match; try lia). Qed.

Lemma larger_ok els n r x : (2 * r + 1 < n)%nat -> (n <= length els)%nat -> els !! larger els n (2 * r + 1) = Some x ->
  child r (larger els n (2 * r + 1)) /\ (larger els n (2 * r + 1) < n)%nat /\
  forall c z, child r c -> (c < n)%nat -> els !! c = Some z -> cmp z x <= 0.
Proof.
  intros Hr Hn. unfold larger, child. destruct (lookup_lt_is_Some_2 els (2 * r + 1)) as [u Hu]; [lia|]. rewrite Hu.
  destruct (decide (2 * r + 1 + 1 < n)%nat) as [Hlt|Hge].
  - destruct (lookup_lt_is_Some_2 els (2 * r + 1 + 1)) as [v Hv]; [lia|]. rewrite Hv. destruct (Z.ltb_spec (cmp u v) 0) as [Huv|Huv].
    + rewrite Hv. intros [= <-]. split; [lia|]. split; [lia|]. intros c z Hc Hcn Hz.
      destruct Hc as [->| ->]; [rewrite Hu in Hz; injection Hz as <-; lia|].
      replace (2 * r + 2)%nat with (2 * r + 1 + 1)%nat in Hz by lia. rewrite Hv in Hz. injection Hz as <-. apply cmp_refl.
    + rewrite Hu. intros [= <-]. split; [lia|]. split; [lia|]. intros c z Hc Hcn Hz.
      destruct Hc as [->| ->]; [rewrite Hu in Hz; injection Hz as <-; apply cmp_refl|].
      replace (2 * r + 2)%nat with (2 * r + 1 + 1)%nat in Hz by lia. rewrite Hv in Hz. injection Hz as <-. by apply cmp_total.
  - rewrite Hu. intros [= <-]. split; [lia|]. split; [lia|]. intros c z Hc Hcn Hz.
    destruct Hc as [->| ->]; [rewrite Hu in Hz; injection Hz as <-; apply cmp_refl|lia].
Qed.

Lemma sift_turn_eq els n r x : array_ok els -> (r < n)%nat -> (n <= length els)%nat -> els !! r = Some x ->
  sift_turn cmp f (Z.of_nat sz) (at_ n) (concat els, at_ r) =
    if decide (2 * r + 1 < n)%nat then
      match els !! larger els n (2 * r + 1) with
      | Some y => if 0 <=? cmp x y then Ret (inr (concat els))
                  else Ret (inl (concat (exchange els r (larger els n (2 * r + 1))), at_ (larger els n (2 * r + 1))))
      | None => Fault
      end
    else Ret (inr (concat els)).
Proof.
  intros Ha Hr Hn Hx. pose proof Ha as (He & Hszb & Hb). unfold sift_turn, twice. pose proof (offset_bound els n Ha Hn) as Bn.
  pose proof (offset_bound els r Ha ltac:(lia)) as Br. assert (Hrn : at_ r + Z.of_nat sz <= at_ n) by nia.
  rewrite decide_True, bind_ret by lia.
  assert (Hmul : forall i, Z.of_nat sz * Z.of_nat (i + 1) = at_ i + Z.of_nat sz) by lia.
  rewrite (u64_small (2 * _)) by lia. rewrite !(u64_small (2 * _ + _)) by lia. rewrite (u64_small (at_ n)) by lia.
  replace (2 * at_ r + Z.of_nat sz) with (at_ (2 * r + 1)) by lia.
  destruct (decide (2 * r + 1 < n)%nat) as [Hc|Hc]; [|by rewrite (proj2 (Z.ltb_ge (at_ (2 * r + 1)) (at_ n))) by nia].
  rewrite (proj2 (Z.ltb_lt (at_ (2 * r + 1)) (at_ n))) by nia. set (c := (2 * r + 1)%nat) in *. pose proof (offset_bound els c Ha ltac:(lia)) as Bc.
  rewrite !(s32_small (at_ c)) by lia. rewrite !(u64_small (at_ c)) by lia. rewrite (u64_small (at_ n - _)) by nia.
  assert (Hend : forall i y, (i < n)%nat -> r <> i -> els !! i = Some y ->
    (x' ← load (concat els) (at_ r) (Z.of_nat sz); y' ← load (concat els) (at_ i) (Z.of_nat sz);
     if 0 <=? cmp x' y' then Ret (inr (concat els))
     else buf ← f (concat els) (at_ r) (at_ i) (s32 (Z.of_nat sz)); Ret (inl (buf, at_ i))) =
    if 0 <=? cmp x y then Ret (inr (concat els)) else Ret (inl (concat (exchange els r i), at_ i))).
  { intros i y Hi Hne Hy. rewrite (load_at sz els r x He Hx), bind_ret, (load_at sz els i y He Hy), bind_ret.
    destruct (0 <=? cmp x y); [done|]. rewrite s32_small, (Hf els r i) by (done || lia). done. }
  unfold larger. destruct (lookup_lt_is_Some_2 els c) as [u Hu]; [lia|]. rewrite Hu.
  replace (at_ c + Z.of_nat sz) with (at_ (c + 1)) by lia.
  destruct (decide (c + 1 < n)%nat) as [Hc1|Hc1].
  - rewrite (proj2 (Z.ltb_lt (at_ c) (at_ n - Z.of_nat sz))) by nia. destruct (lookup_lt_is_Some_2 els (c + 1)) as [v Hv]; [lia|]. rewrite Hv.
    pose proof (offset_bound els (c + 1) Ha ltac:(lia)) as Bc1.
    rewrite (load_at sz els c u He Hu), bind_ret, (load_at sz els (c + 1) v He Hv), !bind_ret.
    destruct (cmp u v <? 0); [rewrite Hv, u64_small, s32_small by lia; by apply Hend; [lia|unfold c; lia|]|].
    rewrite Hu. by apply Hend; [lia|unfold c; lia|].
  - rewrite (proj2 (Z.ltb_ge (at_ c) (at_ n - Z.of_nat sz))) by nia. rewrite bind_ret, Hu. by apply Hend; [lia|unfold c; lia|].
Qed.

(** The elements from [n] on and before [k] stay. *)
Definition sunk (els els' : list bytes) (n : nat) : Prop := els' ≡ₚ els /\ drop n els' = drop n els.

Lemma sunk_exchange els els' n r c : sunk els els' n -> (r < n)%nat -> (c < n)%nat -> (n <= length els')%nat -> sunk els (exchange els' r c) n.
Proof.
  intros [Hp Hd] Hr Hc Hn. split; [by rewrite exchange_perm|]. rewrite <- Hd. apply list_eq. intros i. rewrite !lookup_drop, exchange_lookup by lia.
  by rewrite !decide_False by lia.
Qed.

Lemma sunk_ok els els' n : array_ok els -> sunk els els' n -> array_ok els' /\ length els' = length els.
Proof.
  intros (He & Hz & Hb) [Hp _]. assert (E : length els' = length els) by by rewrite Hp. split; [|done]. split; [|by rewrite E].
  unfold elements. by rewrite Hp.
Qed.

Lemma sift_ok els n k r : array_ok els -> (k <= r)%nat -> (r < n)%nat -> (n <= length els)%nat ->
  heap_but els n k (Some r) -> bridge els n k r ->
  returns (sift cmp f (Z.of_nat sz) (at_ n) (concat els) (at_ r)) (fun buf => exists els',
    buf = concat els' /\ sunk els els' n /\ heap_but els' n k None).
Proof.
  intros Ha Hk Hr Hn Hh Hb. unfold sift.
  apply loop_returns with (m := fun '(_, o) => (sz * n - Z.to_nat o)%nat)
    (I := fun '(buf, o) => exists els' r', buf = concat els' /\ o = at_ r' /\ sunk els els' n /\ (k <= r')%nat /\ (r' < n)%nat /\
      heap_but els' n k (Some r') /\ bridge els' n k r').
  - by exists els, r.
  - rewrite (concat_length sz) by apply Ha. nia.
  - intros [buf o] (e & r' & -> & -> & Hs & Hk' & Hr' & Hh' & Hb'). destruct (sunk_ok els e n Ha Hs) as [Ha' El].
    destruct (lookup_lt_is_Some_2 e r') as [x Hx]; [lia|]. rewrite (sift_turn_eq e n r' x Ha' Hr' ltac:(lia) Hx).
    destruct (decide (2 * r' + 1 < n)%nat) as [Hc|Hc].
    2:{ simpl. exists e. split; [done|]. split; [done|]. apply (heap_done e n k r' x Hx); [|done]. intros c z Hch. destruct Hch; lia. }
    set (c := larger e n (2 * r' + 1)) in *.
    assert (Hcl : (c < length e)%nat) by (pose proof (larger_lt e n (2 * r' + 1) Hc); lia).
    destruct (lookup_lt_is_Some_2 e c Hcl) as [y Hy]. rewrite Hy.
    destruct (larger_ok e n r' y Hc ltac:(lia) Hy) as (Hch & Hcn & Hmax). fold c in Hch, Hcn.
    destruct (Z.leb_spec 0 (cmp x y)) as [Hxy|Hxy]; simpl.
    + exists e. split; [done|]. split; [done|]. apply (heap_done e n k r' x Hx); [|done].
      intros d z Hd Hdn Hz. apply cmp_trans with y; [by apply (Hmax d)|by apply cmp_total].
    + destruct (heap_sink e n k r' c x y Hk' Hch Hcn ltac:(lia) Hx Hy ltac:(lia) Hmax Hh' Hb') as [H1 H2].
      split; [|destruct Hch; nia]. exists (exchange e r' c), c. split; [done|]. split; [done|].
      split; [apply sunk_exchange; [done|lia..]|]. split; [destruct Hch; lia|]. done.
Qed.

(** ** Building the heap *)

(** [i -= size] *)
Lemma step_back i : -2 ^ 30 <= i - Z.of_nat sz -> i <= 2 ^ 30 -> s32 (u64 (u64 i - Z.of_nat sz)) = i - Z.of_nat sz.
Proof. intros H1 H2. rewrite u64_sub_l, s32_u64. apply s32_small. lia. Qed.

Lemma heapify_ok els n : array_ok els -> n = length els -> (0 < n)%nat ->
  returns (loop (length (concat els) + 2) (heapify_turn cmp f (Z.of_nat sz) (at_ n)) (concat els, at_ (n / 2) - Z.of_nat sz)) (fun buf =>
    exists els', buf = concat els' /\ els' ≡ₚ els /\ heap_but els' n 0 None).
Proof.
  intros Ha Hn Hn0. pose proof (Nat.div_mod n 2 ltac:(lia)) as Hd. pose proof (Nat.mod_upper_bound n 2 ltac:(lia)).
  pose proof Ha as (_ & Hszb & _).
  apply loop_returns with (m := fun '(_, i) => Z.to_nat (i + Z.of_nat sz))
    (I := fun '(buf, i) => exists els' k, buf = concat els' /\ i = at_ k - Z.of_nat sz /\ (k <= n / 2)%nat /\ els' ≡ₚ els /\ heap_but els' n k None).
  - exists els, (n / 2)%nat. split; [done|]. split; [done|]. split; [done|]. split; [done|].
    intros p c x y Hp _ Hc Hcn. destruct Hc; lia.
  - rewrite (concat_length sz) by apply Ha. nia.
  - intros [buf i] (e & k & -> & -> & Hk & Hp & Hh). destruct (sunk_ok els e n Ha) as [Ha' El].
    { split; [done|]. by rewrite !drop_ge by (rewrite ?Hp; lia). }
    unfold heapify_turn. destruct (Z.leb_spec 0 (at_ k - Z.of_nat sz)) as [Hi|Hi].
    2:{ assert (k = 0)%nat as -> by nia. simpl. by exists e. }
    assert (1 <= k)%nat by nia. destruct k as [|k]; [lia|]. replace (at_ (S k) - Z.of_nat sz) with (at_ k) by lia.
    pose proof (offset_bound e k Ha' ltac:(lia)) as Bk. eapply returns_bind.
    { apply (sift_ok e n k k Ha'); [lia|lia|lia| |].
      - intros p c x y Hp' Hne. apply Hh; [|done]. assert (p <> k) by congruence. lia.
      - intros p c x y Hp' Hc. destruct Hc; lia. }
    intros buf (e' & -> & [Hp' _] & Hh'). rewrite step_back by lia. cbn [returns]. split.
    + exists e', k. split; [done|]. split; [done|]. split; [lia|]. split; [by rewrite Hp'|done].
    + lia.
Qed.

(** ** Taking the largest away *)

Lemma heap_max els n x : heap_but els n 0 None -> els !! 0%nat = Some x -> (n <= length els)%nat ->
  forall i y, (i < n)%nat -> els !! i = Some y -> cmp y x <= 0.
Proof.
  intros Hh Hx Hn i. induction i as [i IH] using lt_wf_ind. intros y Hi Hy. destruct i as [|i].
  - rewrite Hx in Hy. injection Hy as <-. apply cmp_refl.
  - pose proof (Nat.div_mod i 2 ltac:(lia)). pose proof (Nat.mod_upper_bound i 2 ltac:(lia)).
    destruct (lookup_lt_is_Some_2 els (i / 2)) as [p Hp]; [lia|]. apply cmp_trans with p.
    + apply (Hh (i / 2)%nat (S i)); [lia|done| |done..]. unfold child. lia.
    + apply (IH (i / 2)%nat); [lia|lia|done].
Qed.

Abbreviation le := (fun x y => cmp x y <= 0).

Record extracting (els els' : list bytes) (k : nat) : Prop := {
  ex_perm : els' ≡ₚ els;
  ex_heap : heap_but els' k 0 None;
  ex_sorted : StronglySorted le (drop k els');
  ex_above x y : x ∈ take k els' -> y ∈ drop k els' -> cmp x y <= 0 }.

Lemma elem_take_lookup {A} (l : list A) k x : x ∈ take k l <-> exists i, (i < k)%nat /\ l !! i = Some x.
Proof.
  rewrite list_elem_of_lookup. split; intros (i & Hi).
  - apply lookup_take_Some in Hi as [? ?]. eauto.
  - destruct Hi as [? ?]. exists i. by apply lookup_take_Some.
Qed.

(** The last element of the heap in the place of the first, the first at the end. *)
Lemma extract_swap els e k : extracting els e (S k) -> (0 < k)%nat -> (S k <= length e)%nat ->
  heap_but (exchange e 0 k) k 0 (Some 0%nat) /\
  forall e', sunk (exchange e 0 k) e' k -> heap_but e' k 0 None -> extracting els e' k.
Proof.
  intros [Hp Hh Hs Hab] Hk Hl. split.
  - intros p c x y _ Hne Hc Hcn. rewrite !exchange_lookup by lia. assert (p <> 0%nat) by congruence.
    rewrite !decide_False by (destruct Hc; lia). apply Hh; [lia|done|done|lia].
  - intros e' [Hp' Hd'] Hh'. destruct (lookup_lt_is_Some_2 e 0) as [x Hx]; [lia|].
    assert (Hdrop : drop k e' = x :: drop (S k) e).
    { rewrite Hd'. assert (E : exchange e 0 k !! k = Some x) by (rewrite exchange_lookup, decide_True by (done || lia); done).
      rewrite (drop_S _ _ _ E). f_equal. apply list_eq. intros i. rewrite !lookup_drop, exchange_lookup by lia. by rewrite !decide_False by lia. }
    assert (Hin : forall z, z ∈ take k e' -> z ∈ take (S k) e).
    { intros z Hz. assert (Hz' : z ∈ take k (exchange e 0 k)).
      { assert (E : take k e' ≡ₚ take k (exchange e 0 k)).
        { apply (Permutation_app_inv_r (drop k (exchange e 0 k))). rewrite take_drop, <- Hd', take_drop. done. }
        by rewrite <- E. }
      apply elem_take_lookup in Hz' as (i & Hi & Hz'). rewrite exchange_lookup, decide_False in Hz' by lia. apply elem_take_lookup.
      destruct (decide (i = 0%nat)); [exists k|exists i]; (split; [lia|done]). }
    split; [by rewrite Hp', exchange_perm|done| |]; rewrite Hdrop.
    + constructor; [done|]. rewrite Forall_forall. intros y Hy. apply Hab; [|done]. apply elem_take_lookup. exists 0%nat. split; [lia|done].
    + intros z y Hz Hy. specialize (Hin z Hz). apply elem_of_cons in Hy as [->|Hy]; [|by apply Hab].
      apply elem_take_lookup in Hin as (i & Hi & Hz'). by apply (heap_max e (S k) x Hh Hx Hl i).
Qed.

Lemma extract_ok els e n : array_ok els -> n = length els -> (0 < n)%nat -> e ≡ₚ els -> heap_but e n 0 None ->
  returns (loop (length (concat e) + 2) (extract_turn cmp f (Z.of_nat sz)) (concat e, at_ n - Z.of_nat sz)) (fun buf =>
    exists els', buf = concat els' /\ els' ≡ₚ els /\ StronglySorted le els').
Proof.
  intros Ha Hn Hn0 Hp Hh. pose proof Ha as (_ & Hszb & _).
  assert (Hlen : forall e', e' ≡ₚ els -> length e' = n) by (intros e' He'; by rewrite He').
  assert (Hok : forall e', e' ≡ₚ els -> array_ok e').
  { intros e' He'. refine (proj1 (sunk_ok els e' n Ha _)). split; [done|]. rewrite !drop_ge; [done|lia|by rewrite Hlen]. }
  apply loop_returns with (m := fun '(_, i) => Z.to_nat (i + Z.of_nat sz))
    (I := fun '(buf, i) => exists e' k, buf = concat e' /\ i = at_ k - Z.of_nat sz /\ (0 < k <= n)%nat /\ extracting els e' k).
  - exists e, n. split; [done|]. split; [done|]. split; [lia|]. split; [done|done| |]; rewrite drop_ge by (by rewrite Hlen); [constructor|].
    intros x y _ Hy. by apply not_elem_of_nil in Hy.
  - rewrite (concat_length sz) by apply (Hok e Hp). rewrite Hlen by done. nia.
  - intros [buf i] (e' & k & -> & -> & Hk & He). unfold extract_turn. pose proof (ex_perm _ _ _ He) as Hpe.
    destruct (Z.ltb_spec 0 (at_ k - Z.of_nat sz)) as [Hi|Hi].
    2:{ assert (k = 1)%nat as -> by nia. simpl. exists e'. split; [done|]. split; [done|]. destruct He as [_ _ Hs Hab].
        destruct e' as [|x e']; [constructor|]. simpl in Hs, Hab. rewrite take_0, drop_0 in *. constructor; [done|].
        rewrite Forall_forall. intros y Hy. apply Hab; [by left|done]. }
    destruct k as [|k]; [lia|]. assert (0 < k)%nat by nia. replace (at_ (S k) - Z.of_nat sz) with (at_ k) by lia.
    rewrite (s32_small (Z.of_nat sz)) by lia. destruct (extract_swap els e' k He ltac:(lia) ltac:(rewrite Hlen by done; lia)) as [H1 H2].
    pose proof (Hf e' 0%nat k) as Hsw. change (Z.of_nat 0) with 0 in Hsw. rewrite Z.mul_0_r in Hsw. rewrite Hsw, bind_ret; [|apply (Hok e' Hpe)|lia|rewrite Hlen by done; lia|rewrite Hlen by done; lia].
    pose proof (Hok (exchange e' 0 k) ltac:(by rewrite exchange_perm)) as Hox.
    eapply returns_bind.
    { pose proof (sift_ok (exchange e' 0 k) k 0%nat 0%nat Hox) as HS. change (Z.of_nat 0) with 0 in HS. rewrite Z.mul_0_r in HS. apply HS; [lia|lia| |done|].
      - rewrite exchange_length, Hlen by done. lia.
      - intros p c x y _ Hc. destruct Hc; lia. }
    intros buf (e2 & -> & Hs2 & Hh2). pose proof (offset_bound e' k (Hok e' Hpe) ltac:(rewrite Hlen by done; lia)) as Bk. rewrite step_back by lia. simpl. split.
    + exists e2, k. split; [done|]. split; [done|]. split; [lia|]. by apply H2.
    + lia.
Qed.
End heap.

(** ** The whole sort *)

Section whole.
Context (cmp : bytes -> bytes -> Z) `{!TotalCmp cmp}.

Lemma sort_ok (sz : nat) els unaligned base swap_func : (0 < sz)%nat -> array_ok sz els -> (forall f, swap_func = Some f -> swaps sz f) ->
  returns (sort cmp unaligned base (concat els) (Z.of_nat (length els)) (Z.of_nat sz) swap_func) (fun buf =>
    exists els', buf = concat els' /\ els' ≡ₚ els /\ StronglySorted (fun x y => cmp x y <= 0) els').
Proof.
  intros Hsz Ha Hsw. unfold sort. set (f := match swap_func with Some f => f | None => _ end).
  assert (Hf : swaps sz f).
  { unfold f. destruct swap_func as [g|]; [by apply Hsw|].
    assert (Hw : forall w, Z.of_nat sz = w -> swaps sz (word_swap w)) by (intros w <-; exact (word_swap_ok sz)).
    destruct (Z.eqb_spec (Z.of_nat sz) 4), (Z.eqb_spec (Z.of_nat sz) 8); simpl; repeat case_match; try (by apply Hw); by apply generic_swap_ok. }
  clearbody f. set (n := length els). pose proof Ha as (He & Hz & Hb). fold n in Hb.
  assert (Hi0 : s32 (u64 (u64 (Z.of_nat n / 2 - 1) * Z.of_nat sz)) = Z.of_nat sz * Z.of_nat (n / 2) - Z.of_nat sz).
  { rewrite u64_mul_l, s32_u64, s32_small; rewrite ?Nat2Z.inj_div; change (Z.of_nat 2) with 2; pose proof (Z.div_mod (Z.of_nat n) 2); pose proof (Z.mod_pos_bound (Z.of_nat n) 2); nia. }
  assert (Hn : s32 (u64 (Z.of_nat n * Z.of_nat sz)) = Z.of_nat sz * Z.of_nat n) by (rewrite s32_u64, s32_small by lia; lia).
  rewrite Hi0, Hn, (step_back sz) by lia. destruct (Nat.eq_dec n 0) as [E0|E0].
  - (* nothing to do *) destruct els; [|done]. unfold n. change (length [] / 2)%nat with 0%nat. change (Z.of_nat (length [])) with 0. change (Z.of_nat 0) with 0.
    rewrite Z.mul_0_r. change (length (concat []) + 2)%nat with 2%nat.
    rewrite (loop_inr _ 1 _ []), bind_ret by (unfold heapify_turn; by rewrite (proj2 (Z.leb_gt _ _)) by lia).
    change (length [] + 2)%nat with 2%nat. rewrite (loop_inr _ _ _ []) by (unfold extract_turn; by rewrite (proj2 (Z.ltb_ge _ _)) by lia). exists []. repeat constructor.
  - eapply returns_bind; [by apply (heapify_ok cmp sz Hsz f Hf els n Ha); [|lia]|].
    intros buf (e & -> & Hp & Hh). apply (extract_ok cmp sz Hsz f Hf els e n Ha); [done|lia|done|done].
Qed.
End whole.
