(* ===== verification/ListSortFacts.v ===== *)
(** * Chains of nodes, and merging them *)
From stdpp Require Import base numbers list option gmap sorting.
From Stdlib Require Import ZArith Lia.
From S2P Require Import Prelude Sort SortHeap.

(** ** Stable sorting *)

Section stable.
Context {A : Type} (cmp : A -> A -> Z) `{!TotalCmp cmp}.
Definition cle (x y : A) : Prop := cmp x y <= 0.
#[export] Instance cle_dec x y : Decision (cle x y) := Z_le_dec _ _.
Definition equiv_to (z x : A) : Prop := cle x z /\ cle z x.
#[export] Instance equiv_to_dec z x : Decision (equiv_to z x) := and_dec _ _.

Lemma cle_total x y : ~ cle x y -> cle y x.
Proof. unfold cle. intros H. apply cmp_total. lia. Qed.
Lemma cle_trans x y z : cle x y -> cle y z -> cle x z.
Proof. apply cmp_trans. Qed.

Lemma cle_refl x : cle x x.
Proof. unfold cle. destruct (Z.le_gt_cases (cmp x x) 0); [done|]. apply cmp_total. lia. Qed.
Lemma filter_excluded (P : A -> Prop) `{!forall x, Decision (P x)} l : (forall x, x ∈ l -> ~ P x) -> filter P l = [].
Proof.
  intros Hno. induction l as [|x l IH]; [done|]. rewrite filter_cons_False by (apply Hno; by left). apply IH. intros y Hy. apply Hno. by right.
Qed.

(** [ys] is [xs] in order, equal elements as before. *)
Record sorts (xs ys : list A) : Prop := {
  so_perm : ys ≡ₚ xs;
  so_sorted : StronglySorted cle ys;
  so_stable z : filter (equiv_to z) ys = filter (equiv_to z) xs }.

Lemma sorts_nil : sorts [] [].
Proof. split; [done|constructor|done]. Qed.
Lemma sorts_one x : sorts [x] [x].
Proof. split; [done|repeat constructor|done]. Qed.

Abbreviation mrg := (list_merge cle).

Lemma mrg_perm l1 l2 : mrg l1 l2 ≡ₚ l1 ++ l2.
Proof. apply merge_Permutation. Qed.

Lemma mrg_sorted l1 l2 : StronglySorted cle l1 -> StronglySorted cle l2 -> StronglySorted cle (mrg l1 l2).
Proof.
  intros H1. revert l2. induction H1 as [|x l1 H1 IH1 F1]; intros l2 H2; [by destruct l2|].
  induction H2 as [|y l2 H2 IH2 F2]; [by constructor|]. rewrite list_merge_cons. case_decide as Hxy.
  - constructor; [apply IH1; by constructor|]. rewrite mrg_perm. apply Forall_app. split; [done|]. constructor; [done|].
    eapply Forall_impl; [exact F2|]. intros z Hz. by apply cle_trans with y.
  - constructor; [done|]. rewrite mrg_perm. apply cle_total in Hxy. apply Forall_app. split; [|done]. constructor; [done|].
    eapply Forall_impl; [exact F1|]. intros z Hz. by apply cle_trans with x.
Qed.

Lemma mrg_stable z l1 l2 : StronglySorted cle l1 -> StronglySorted cle l2 ->
  filter (equiv_to z) (mrg l1 l2) = filter (equiv_to z) l1 ++ filter (equiv_to z) l2.
Proof.
  intros H1. revert l2. induction H1 as [|x l1 H1 IH1 F1]; intros l2 H2; [by destruct l2|].
  induction H2 as [|y l2 H2 IH2 F2]; [by rewrite app_nil_r|]. rewrite list_merge_cons. case_decide as Hxy.
  - rewrite !(filter_cons _ x), IH1 by (by constructor). by case_decide.
  - rewrite (filter_cons _ y (mrg _ _)), IH2, (filter_cons _ y l2). case_decide as Hy; [|done].
    rewrite (filter_excluded _ (x :: l1)); [done|]. intros w Hw [Hwz Hzw]. apply Hxy. destruct Hy as [Hyz Hzy].
    apply cle_trans with w; [|by apply cle_trans with z]. apply elem_of_cons in Hw as [->|Hw]; [apply cle_refl|].
    rewrite Forall_forall in F1. by apply F1.
Qed.

Lemma sorts_merge x1 y1 x2 y2 : sorts x1 y1 -> sorts x2 y2 -> sorts (x1 ++ x2) (mrg y1 y2).
Proof.
  intros [P1 S1 E1] [P2 S2 E2]. split.
  - by rewrite mrg_perm, P1, P2.
  - by apply mrg_sorted.
  - intros z. by rewrite mrg_stable, filter_app, E1, E2.
Qed.
End stable.

(** ** Chains *)

(** From [p] along [xs] to [q]. *)
Fixpoint lseg (m : gmap Z Z) (p : Z) (xs : list Z) (q : Z) : Prop :=
  match xs with
  | [] => p = q
  | x :: xs => p = x /\ x <> 0 /\ exists r, m !! x = Some r /\ lseg m r xs q
  end.
Abbreviation chain m p xs := (lseg m p xs 0).

Lemma lseg_app m p xs ys q : lseg m p (xs ++ ys) q <-> exists r, lseg m p xs r /\ lseg m r ys q.
Proof.
  revert p. induction xs as [|x xs IH]; intros p; simpl; [naive_solver|].
  split; [intros (? & ? & r & ? & (s & ? & ?)%IH); eauto 10|]. intros (s & (? & ? & r & ? & ?) & ?). split; [done|]. split; [done|].
  exists r. split; [done|]. apply IH. eauto.
Qed.

Lemma lseg_same m m' p xs q : (forall x, x ∈ xs -> m' !! x = m !! x) -> lseg m p xs q -> lseg m' p xs q.
Proof.
  revert p. induction xs as [|x xs IH]; intros p Hm; [done|]. intros (? & ? & r & Hr & Hl). split; [done|]. split; [done|].
  exists r. split; [rewrite Hm by (by left); done|]. apply IH; [|done]. intros y Hy. apply Hm. by right.
Qed.

Lemma lseg_insert m p xs q k v : k ∉ xs -> lseg m p xs q -> lseg (<[k := v]> m) p xs q.
Proof. intros Hk. apply lseg_same. intros x Hx. apply lookup_insert_ne. by intros ->. Qed.

Lemma lseg_dom m p xs q x : lseg m p xs q -> x ∈ xs -> x <> 0 /\ is_Some (m !! x).
Proof.
  revert p. induction xs as [|y xs IH]; intros p Hl Hx; [by apply not_elem_of_nil in Hx|]. destruct Hl as (-> & Hy & r & Hr & Hl).
  apply elem_of_cons in Hx as [->|Hx]; [by split|by apply (IH r)].
Qed.

Lemma chain_null m p xs : chain m p xs -> p = 0 <-> xs = [].
Proof. destruct xs as [|x xs]; [by intros ->|]. intros (-> & Hx & _). split; [done|done]. Qed.

(** Distinct nodes are not more than the store has. *)
Lemma nodes_size (m : gmap Z Z) xs : NoDup xs -> (forall x, x ∈ xs -> is_Some (m !! x)) -> (length xs <= size m)%nat.
Proof.
  intros Hn Hd. rewrite <- (size_list_to_set (C := gset Z) xs Hn), <- size_dom. apply subseteq_size.
  intros x Hx%elem_of_list_to_set. by apply elem_of_dom, Hd.
Qed.

(** *** The part of a result already linked, up to the tail *)

Definition front (m : gmap Z Z) (h : Z) (P : list Z) (tail : option Z) : Prop :=
  match tail with
  | None => P = []
  | Some t => exists P0, P = P0 ++ [t] /\ t <> 0 /\ lseg m h P0 t /\ is_Some (m !! t)
  end.

Lemma set_tail_ok m h P tail p : front (nexts m) h P tail -> NoDup P ->
  exists m' h', set_tail m h tail p = Ret (m', h') /\ lseg (nexts m') h' P p /\ prevs m' = prevs m /\
    (forall x, x ∉ P -> nexts m' !! x = nexts m !! x) /\ size (nexts m') = size (nexts m) /\ (forall x, is_Some (nexts m !! x) -> is_Some (nexts m' !! x)) /\
    tail_next m' h' tail = Ret p.
Proof.
  intros Hf Hn. destruct tail as [t|]; [|simpl in Hf; subst P; by exists m, p].
  destruct Hf as (P0 & -> & Ht & Hl & [v Hv]). apply NoDup_app in Hn as (_ & Hd & _). unfold set_tail, set_next, setp. rewrite Hv, !bind_ret.
  eexists _, _. split; [done|]. cbn [nexts prevs]. split; [|split; [done|]].
  - apply lseg_app. exists t. split; [|by simpl; rewrite lookup_insert_eq; eauto].
    apply lseg_insert; [|done]. intros Hin. by apply (Hd t Hin), list_elem_of_singleton.
  - split; [intros x Hx; apply lookup_insert_ne; intros ->; apply Hx, elem_of_app; right; by left|]. split.
    + by apply map_size_insert_Some.
    + split; [|simpl; unfold get_next, getp; simpl; by rewrite lookup_insert_eq].
      intros x Hx. destruct (decide (t = x)) as [->|Hne]; [rewrite lookup_insert_eq; eauto|by rewrite lookup_insert_ne].
Qed.

(** What a change of the links of [ns] leaves as it was. *)
Record keeps (ns : list Z) (m m' : links) : Prop := {
  kp_prev : prevs m' = prevs m;
  kp_next x : x ∉ ns -> nexts m' !! x = nexts m !! x;
  kp_size : size (nexts m') = size (nexts m);
  kp_dom x : is_Some (nexts m !! x) -> is_Some (nexts m' !! x) }.

Lemma keeps_refl ns m : keeps ns m m.
Proof. by split. Qed.
Lemma keeps_links_trans ns m1 m2 m3 : keeps ns m1 m2 -> keeps ns m2 m3 -> keeps ns m1 m3.
Proof.
  intros [P1 N1 S1 D1] [P2 N2 S2 D2]. split; [congruence| |congruence|auto]. intros x Hx. rewrite N2 by done. by apply N1.
Qed.
Lemma keeps_more ns ns' m m' : keeps ns m m' -> ns ⊆ ns' -> keeps ns' m m'.
Proof. intros [P N S D] H. split; [done| |done|done]. intros x Hx. apply N. by intros ?%H. Qed.
Lemma keeps_chain ns m m' p xs q : keeps ns m m' -> xs ## ns -> lseg (nexts m) p xs q -> lseg (nexts m') p xs q.
Proof. intros H Hd. apply lseg_same. intros x Hx. apply (kp_next ns m m' H). intros Hin. by apply (Hd x). Qed.

(** One node moved behind the tail. *)
Lemma advance_tail m h P tail x xs : front (nexts m) h P tail -> chain (nexts m) x (x :: xs) -> NoDup (P ++ x :: xs) ->
  exists m' h' r, set_tail m h tail x = Ret (m', h') /\ get_next m' x = Ret r /\ tail_next m' h' tail = Ret x /\
    keeps P m m' /\ chain (nexts m') r xs /\ front (nexts m') h' (P ++ [x]) (Some x).
Proof.
  intros Hf Hc Hn. pose proof Hn as (Hn1 & Hd & Hn2)%NoDup_app. apply NoDup_cons in Hn2 as [Hx Hn2].
  destruct (set_tail_ok m h P tail x Hf Hn1) as (m' & h' & E & Hl & Hp & Hs & Hz & Hdm & Ht).
  assert (K : keeps P m m') by by split. destruct Hc as (_ & Hx0 & r & Hr & Hc).
  assert (HxP : x ∉ P) by (intros Hin; apply (Hd x Hin); by left).
  exists m', h', r. split; [done|]. split; [unfold get_next, getp; by rewrite Hs, Hr|]. split; [done|]. split; [done|]. split.
  - apply (keeps_chain P m m' r xs 0 K); [|done]. intros y Hy HyP. apply (Hd y HyP). by right.
  - exists P. split; [done|]. split; [done|]. split; [done|]. rewrite Hs by done. eauto.
Qed.

Section merge.
Context (cmp : Z -> Z -> Z).
Abbreviation mrg := (list_merge (cle cmp)).

(** The rest appended to the result. *)
Lemma finish m h P tail c R : front (nexts m) h P tail -> chain (nexts m) c R -> NoDup (P ++ R) ->
  exists m' h', set_tail m h tail c = Ret (m', h') /\ chain (nexts m') h' (P ++ R) /\ keeps P m m'.
Proof.
  intros Hf Hc (Hn1 & Hd & _)%NoDup_app. destruct (set_tail_ok m h P tail c Hf Hn1) as (m' & h' & E & Hl & Hp & Hs & Hz & Hdm & _).
  assert (K : keeps P m m') by by split. exists m', h'. split; [done|]. split; [|done]. apply lseg_app. exists c. split; [done|].
  apply (keeps_chain P m m' c R 0 K); [|done]. intros y Hy HyP. by apply (Hd y).
Qed.

Lemma merge_list_loop n : forall fuel m h P tail a b xs ys, (length xs + length ys = n)%nat -> (n < fuel)%nat ->
  front (nexts m) h P tail -> chain (nexts m) a xs -> chain (nexts m) b ys -> NoDup (P ++ xs ++ ys) ->
  returns (loop fuel (merge_list_turn cmp) (m, h, tail, a, b)) (fun '(p, m') =>
    chain (nexts m') p (P ++ mrg xs ys) /\ keeps (P ++ xs ++ ys) m m').
Proof.
  induction n as [|n IH]; intros [|fuel] m h P tail a b xs ys En Hfu Hf Ha Hb Hn; try lia; rewrite loop_S.
  all: pose proof (chain_null _ _ _ Ha) as Na; pose proof (chain_null _ _ _ Hb) as Nb.
  all: assert (Hend : xs = [] \/ ys = [] -> returns (r ← merge_list_turn cmp (m, h, tail, a, b);
         match r with inl s' => loop fuel (merge_list_turn cmp) s' | inr x => Ret x end) (fun '(p, m') =>
         chain (nexts m') p (P ++ mrg xs ys) /\ keeps (P ++ xs ++ ys) m m')).
  1,3: intros He; assert (E0 : negb (a =? 0) && negb (b =? 0) = false) by (destruct He as [He|He]; [apply Na in He|apply Nb in He]; subst; [done|by rewrite andb_false_r]);
    assert (Hc : chain (nexts m) (if negb (a =? 0) then a else b) (mrg xs ys) /\ mrg xs ys = xs ++ ys) by
      (destruct xs as [|x xs]; [rewrite (proj2 Na eq_refl); simpl; by destruct ys|destruct He as [He|He]; [done|]; subst ys; pose proof Ha as (-> & Hx0 & _);
       apply Z.eqb_neq in Hx0; rewrite Hx0; simpl; by rewrite app_nil_r]);
    destruct Hc as [Hc Em]; rewrite <- Em in Hn;
    destruct (finish m h P tail _ _ Hf Hc Hn) as (m' & h' & E & Hl & K);
    assert (Et : merge_list_turn cmp (m, h, tail, a, b) = Ret (inr (h', m'))) by (unfold merge_list_turn; rewrite E0, E; done);
    rewrite Et, bind_ret; simpl; split; [done|]; apply (keeps_more P); [done|set_solver].
  1: apply Hend; destruct xs; [by left|simpl in En; lia].
  destruct xs as [|x xs]; [apply Hend; by left|]. destruct ys as [|y ys]; [apply Hend; by right|]. clear Hend.
  pose proof Ha as (-> & Hx0 & _). pose proof Hb as (-> & Hy0 & _). apply Z.eqb_neq in Hx0 as Ex, Hy0 as Ey. rewrite list_merge_cons.
  case_decide as Hxy; unfold cle in Hxy.
  - assert (Hn' : NoDup (P ++ x :: xs)) by (rewrite app_assoc in Hn; apply NoDup_app in Hn as [? _]; done).
    destruct (advance_tail m h P tail x xs Hf Ha Hn') as (m' & h' & r & E1 & E2 & E3 & K & Hr & Hf').
    assert (Et : merge_list_turn cmp (m, h, tail, x, y) = Ret (inl (m', h', Some x, r, y))).
    { unfold merge_list_turn. rewrite Ex, Ey. cbn [negb andb]. rewrite (proj2 (Z.leb_le _ _) Hxy), E1, bind_ret, E2, !bind_ret, E3. done. }
    rewrite Et, bind_ret. assert (Ep : (P ++ [x]) ++ xs ++ y :: ys = P ++ (x :: xs) ++ y :: ys) by (by rewrite <- app_assoc).
    eapply returns_mono; [apply (IH fuel m' h' (P ++ [x]) (Some x) r y xs (y :: ys)); [simpl in En |- *; lia|lia|done|done| |by rewrite Ep]|].
    + apply (keeps_chain P m m' _ _ 0 K); [|done]. apply NoDup_app in Hn as (_ & Hd & _). intros w Hw HwP. apply (Hd w HwP). set_solver.
    + intros [p m2] [Hp K2]. rewrite <- app_assoc in Hp. split; [done|]. rewrite Ep in K2. apply (keeps_links_trans _ m m' m2); [|done].
      apply (keeps_more P); [done|set_solver].
  - assert (Hn' : NoDup (P ++ y :: ys)).
    { rewrite (Permutation_app_comm (x :: xs)), app_assoc in Hn. apply NoDup_app in Hn as [? _]. done. }
    destruct (advance_tail m h P tail y ys Hf Hb Hn') as (m' & h' & r & E1 & E2 & E3 & K & Hr & Hf').
    assert (Et : merge_list_turn cmp (m, h, tail, x, y) = Ret (inl (m', h', Some y, x, r))).
    { unfold merge_list_turn. rewrite Ex, Ey. cbn [negb andb]. rewrite (proj2 (Z.leb_gt _ _)) by lia. rewrite E1, bind_ret, E2, !bind_ret, E3. done. }
    rewrite Et, bind_ret. assert (Ep : (P ++ [y]) ++ (x :: xs) ++ ys ≡ₚ P ++ (x :: xs) ++ y :: ys).
    { rewrite <- app_assoc. f_equiv. rewrite (Permutation_app_comm [y]), <- app_assoc. f_equiv. by rewrite Permutation_app_comm. }
    eapply returns_mono; [apply (IH fuel m' h' (P ++ [y]) (Some y) x r (x :: xs) ys); [simpl in En |- *; lia|lia|done| |done|by rewrite Ep]|].
    + apply (keeps_chain P m m' _ _ 0 K); [|done]. apply NoDup_app in Hn as (_ & Hd & _). intros w Hw HwP. apply (Hd w HwP). set_solver.
    + intros [p m2] [Hp K2]. rewrite <- app_assoc in Hp. split; [done|]. apply (keeps_links_trans _ m m' m2).
      * apply (keeps_more P); [done|set_solver].
      * apply (keeps_more _ _ _ _ K2). by rewrite Ep.
Qed.

Lemma merge_ok m a b xs ys : chain (nexts m) a xs -> chain (nexts m) b ys -> NoDup (xs ++ ys) ->
  returns (merge cmp m a b) (fun '(p, m') => chain (nexts m') p (mrg xs ys) /\ keeps (xs ++ ys) m m').
Proof.
  intros Ha Hb Hn. apply (merge_list_loop (length xs + length ys) _ m 0 [] None a b xs ys); [done| |done|done|done|done].
  rewrite <- length_app. enough (length (xs ++ ys) <= size (nexts m))%nat by lia. apply nodes_size; [done|].
  intros x [Hx|Hx]%elem_of_app; [exact (proj2 (lseg_dom _ _ _ _ _ Ha Hx))|exact (proj2 (lseg_dom _ _ _ _ _ Hb Hx))].
Qed.
End merge.

(** ** The partial lists of [list_sort]

    [part] holds sorted lists of earlier and earlier nodes; each new node carries
    into it like a binary counter.  What the lists hold, in the order of the
    levels from the top, is always the part of the input that was read. *)

(** ** Lists of lists *)

Section lists.
Context {A : Type}.
Implicit Types Ls : list (list A).

Lemma concat_take_out Ls i l : Ls !! i = Some l -> concat Ls ≡ₚ l ++ concat (<[i := []]> Ls).
Proof.
  intros Hi. rewrite insert_take_drop by (by eapply lookup_lt_Some). rewrite <- (take_drop_middle Ls i l Hi) at 1.
  rewrite !concat_app. simpl. rewrite !(Permutation_app_comm (concat (take i Ls))). by rewrite <- app_assoc.
Qed.

Lemma concat_put_in Ls i l : Ls !! i = Some [] -> concat (<[i := l]> Ls) ≡ₚ l ++ concat Ls.
Proof.
  intros Hi. pose proof (lookup_lt_Some _ _ _ Hi). rewrite (concat_take_out (<[i := l]> Ls) i l) by (by rewrite list_lookup_insert_eq).
  by rewrite list_insert_insert_eq, list_insert_id.
Qed.

Lemma concat_rev_cons Ls l : concat (rev (l :: Ls)) = concat (rev Ls) ++ l.
Proof. simpl. by rewrite concat_app, concat_cons, app_nil_r. Qed.

Lemma concat_rev_nils Ls : (forall i l, Ls !! i = Some l -> l = []) -> concat (rev Ls) = [].
Proof.
  induction Ls as [|l Ls IH]; intros H; [done|]. rewrite concat_rev_cons, (H 0%nat l eq_refl), app_nil_r. apply IH. intros i. apply (H (S i)).
Qed.

(** The counter with its low digits empty: a list put there comes last. *)
Lemma concat_rev_put Ls lev k l : (k <= lev)%nat -> (lev < length Ls)%nat -> (forall i, (i <= lev)%nat -> Ls !! i = Some []) ->
  concat (rev (<[k := l]> Ls)) = concat (rev (drop lev Ls)) ++ l.
Proof.
  revert lev k. induction Ls as [|x Ls IH]; intros lev k Hk Hl H; [simpl in Hl; lia|].
  pose proof (H 0%nat ltac:(lia)) as [= ->]. destruct lev as [|lev].
  - assert (k = 0%nat) as -> by lia. simpl insert. by rewrite drop_0, !concat_rev_cons, app_nil_r.
  - destruct k as [|k]; simpl insert; simpl drop; rewrite !concat_rev_cons.
    + f_equal. assert (E := IH lev 0%nat). clear IH. rewrite <- (take_drop lev Ls) at 1. rewrite rev_app_distr, concat_app.
      rewrite (concat_rev_nils (take lev Ls)), app_nil_r; [done|]. intros i y Hy. apply lookup_take_Some in Hy as [Hy Hi].
      specialize (H (S i) ltac:(lia)). simpl in H. congruence.
    + rewrite app_nil_r. apply IH; [lia|simpl in Hl; lia|]. intros i Hi. apply (H (S i)). lia.
Qed.
End lists.

Lemma chains_keep m m' ns ps (Ls : list (list Z)) : keeps ns m m' -> concat Ls ## ns ->
  Forall2 (fun p L => chain (nexts m) p L) ps Ls -> Forall2 (fun p L => chain (nexts m') p L) ps Ls.
Proof.
  intros K Hd H. induction H as [|p L ps Ls Hc H IH]; [constructor|]. simpl in Hd. constructor; [|apply IH; set_solver].
  apply (keeps_chain ns m m' p L 0 K); [set_solver|done].
Qed.

Section loops.
Context (cmp : Z -> Z -> Z) `{!TotalCmp cmp}.
Abbreviation mrg := (list_merge (cle cmp)).
Abbreviation srt := (sorts cmp).

(** What [part] holds: sorted lists [PL] of the nodes [OL]. *)
Record parts (m : links) (part : list Z) (PL OL : list (list Z)) : Prop := {
  pa_chain : Forall2 (fun p L => chain (nexts m) p L) part PL;
  pa_sorts : Forall2 srt OL PL;
  pa_len : length part = 21%nat;
  pa_last : PL !! 20%nat = Some [] }.

Lemma parts_lens m part PL OL : parts m part PL OL -> length PL = 21%nat /\ length OL = 21%nat.
Proof. intros [H1 H2 H3 _]. apply Forall2_length in H1, H2. lia. Qed.

Lemma parts_at m part PL OL i : parts m part PL OL -> (i < 21)%nat ->
  exists p L O, part !! i = Some p /\ PL !! i = Some L /\ OL !! i = Some O /\ chain (nexts m) p L /\ srt O L /\ (L = [] -> O = []).
Proof.
  intros H Hi. destruct (parts_lens _ _ _ _ H) as [L1 L2]. destruct H as [H1 H2 H3 _].
  destruct (lookup_lt_is_Some_2 part i ltac:(lia)) as [p Hp]. destruct (Forall2_lookup_l _ _ _ _ _ H1 Hp) as (L & HL & Hc).
  destruct (Forall2_lookup_r _ _ _ _ _ H2 HL) as (O & HO & Hs). exists p, L, O. split; [done|]. split; [done|]. split; [done|]. split; [done|].
  split; [done|]. intros ->. destruct Hs as [Hs _ _]. by apply Permutation_nil.
Qed.

Lemma parts_put m part PL OL i p L O : parts m part PL OL -> (i < 20)%nat -> chain (nexts m) p L -> srt O L ->
  parts m (<[i := p]> part) (<[i := L]> PL) (<[i := O]> OL).
Proof.
  intros [H1 H2 H3 H4] Hi Hc Hs. split; [by apply Forall2_insert|by apply Forall2_insert|by rewrite length_insert|].
  by rewrite list_lookup_insert_ne by lia.
Qed.

Lemma parts_keep m m' ns part PL OL : keeps ns m m' -> concat PL ## ns -> parts m part PL OL -> parts m' part PL OL.
Proof. intros K Hd [H1 H2 H3 H4]. split; [by apply (chains_keep m m' ns)|done|done|done]. Qed.

(** *** The carry *)

(** Levels below [k] are empty; the node [x] and what they held are in [CL]. *)
Record carrying (m : links) (part : list Z) (k : nat) (cur : Z) (PL OL : list (list Z)) (CL CO : list Z) : Prop := {
  ca_parts : parts m part PL OL;
  ca_cur : chain (nexts m) cur CL;
  ca_sorts : srt CO CL;
  ca_low i : (i < k)%nat -> PL !! i = Some [] }.

Lemma carry_merge m part k cur PL OL CL CO p L RL : carrying m part k cur PL OL CL CO -> NoDup (concat PL ++ CL ++ RL) ->
  part !! k = Some p -> PL !! k = Some L -> L <> [] ->
  exists m' p' O, OL !! k = Some O /\ merge cmp m p cur = Ret (p', m') /\ keeps (L ++ CL) m m' /\
    carrying m' (<[k := 0]> part) (S k) p' (<[k := []]> PL) (<[k := []]> OL) (mrg L CL) (O ++ CO) /\ (k < 20)%nat.
Proof.
  intros [Hpa Hcu Hso Hlo] Hn Hp HL HLn. pose proof (lookup_lt_Some _ _ _ HL) as Hk. destruct (parts_lens _ _ _ _ Hpa) as [L1 L2].
  destruct (parts_at m part PL OL k Hpa ltac:(lia)) as (p1 & L' & O & Hp1 & HL1 & HO & Hc & Hs & _).
  assert (p1 = p) by congruence. assert (L' = L) by congruence. subst p1 L'.
  assert (Hk20 : (k < 20)%nat).
  { destruct (decide (k = 20%nat)) as [->|]; [|lia]. rewrite (pa_last _ _ _ _ Hpa) in HL. congruence. }
  rewrite (concat_take_out PL k L HL), <- app_assoc in Hn. assert (Hn1 : NoDup (L ++ CL)).
  { rewrite (Permutation_app_comm (concat _)), !app_assoc in Hn. apply NoDup_app in Hn as [Hn _]. by apply NoDup_app in Hn as [? _]. }
  destruct (returns_inv _ _ (merge_ok cmp m p cur L CL Hc Hcu Hn1)) as ([p' m'] & E & Hc' & K).
  exists m', p', O. split; [done|]. split; [done|]. split; [done|]. split; [|done].
  assert (Hpa' : parts m (<[k := 0]> part) (<[k := []]> PL) (<[k := []]> OL)) by by (apply parts_put; [| | |apply sorts_nil]).
  split.
  - apply (parts_keep m m' (L ++ CL)); [done| |done]. apply NoDup_app in Hn as (_ & Hd & Hn). apply NoDup_app in Hn as (_ & Hd2 & _).
    intros y Hy [HyL|HyC]%elem_of_app; [by apply (Hd y HyL), elem_of_app; left|by apply (Hd2 y Hy), elem_of_app; left].
  - done.
  - by apply sorts_merge.
  - intros i Hi. destruct (decide (i = k)) as [->|Hne]; [by rewrite list_lookup_insert_eq by lia|].
    rewrite list_lookup_insert_ne by done. apply Hlo. lia.
Qed.

Lemma collapse_ok m part PL OL cur x RL : parts m part PL OL -> chain (nexts m) cur [x] -> NoDup (concat PL ++ [x] ++ RL) ->
  returns (loop (length part + 1) (collapse_turn cmp) (m, part, 0, cur)) (fun '(m', part', lev, cur') => exists k PL' OL' CL CO,
    lev = Z.of_nat k /\ (k <= 20)%nat /\ carrying m' part' (S k) cur' PL' OL' CL CO /\ concat PL' ++ CL ≡ₚ concat PL ++ [x] /\
    drop k PL' = drop k PL /\ concat (rev (drop k OL')) ++ CO = concat (rev OL) ++ [x] /\ keeps (concat PL ++ [x]) m m').
Proof.
  intros Hpa Hcu Hn.
  apply loop_returns with (m := fun '(_, _, lev, _) => (21 - Z.to_nat lev)%nat)
    (I := fun '(m', part', lev, cur') => exists k PL' OL' CL CO,
      lev = Z.of_nat k /\ (k <= 20)%nat /\ carrying m' part' k cur' PL' OL' CL CO /\ concat PL' ++ CL ≡ₚ concat PL ++ [x] /\
      drop k PL' = drop k PL /\ concat (rev (drop k OL')) ++ CO = concat (rev OL) ++ [x] /\ keeps (concat PL ++ [x]) m m').
  - exists 0%nat, PL, OL, [x], [x]. split; [done|]. split; [lia|]. split; [split; [done|done|by apply sorts_one|lia]|].
    split; [done|]. split; [done|]. rewrite drop_0. split; [done|apply keeps_refl].
  - rewrite (pa_len _ _ _ _ Hpa). lia.
  - intros [[[m' part'] lev] cur'] (k & PL' & OL' & CL & CO & -> & Hk & Hca & Hperm & Hdr & Hcc & K).
    pose proof (ca_parts _ _ _ _ _ _ _ _ Hca) as Hpa'. destruct (parts_lens _ _ _ _ Hpa') as [L1 L2].
    destruct (parts_at m' part' PL' OL' k Hpa' ltac:(lia)) as (p & L & O & Hp & HL & HO & Hc & _ & HLO).
    unfold collapse_turn. rewrite (rd_lookup part' (Z.of_nat k) p), bind_ret by (rewrite ?Nat2Z.id; lia || done).
    pose proof (chain_null _ _ _ Hc) as Np. assert (Hn' : NoDup (concat PL' ++ CL ++ RL)) by (rewrite app_assoc, Hperm, <- app_assoc; done).
    destruct (Z.eqb_spec p 0) as [Ep|Ep]; simpl.
    + apply Np in Ep. subst L. rewrite (HLO eq_refl) in HO. exists k, PL', OL', CL, CO. split; [done|]. split; [done|]. split; [|done].
      destruct Hca as [? ? ? Hlo]. split; [done|done|done|]. intros i Hi. destruct (decide (i = k)) as [->|]; [done|]. apply Hlo. lia.
    + assert (HLn : L <> []) by (intros ->; by apply Ep, Np).
      destruct (carry_merge m' part' k cur' PL' OL' CL CO p L RL Hca Hn' Hp HL HLn) as (m2 & p2 & O' & HO' & Em & K2 & Hca2 & Hk20).
      assert (O' = O) by congruence. subst O'. rewrite Em, bind_ret. rewrite wr_in_range by (rewrite (pa_len _ _ _ _ Hpa'); lia). rewrite Nat2Z.id, bind_ret.
      cbn [returns]. split; [|lia]. exists (S k), (<[k := []]> PL'), (<[k := []]> OL'), (mrg L CL), (O ++ CO).
      split; [lia|]. split; [lia|]. split; [done|]. split; [|split; [|split]].
      * rewrite <- Hperm, (concat_take_out PL' k L HL), mrg_perm, <- app_assoc. rewrite !(Permutation_app_comm (concat _)). by rewrite <- app_assoc.
      * rewrite drop_insert_lt by lia. replace (S k) with (k + 1)%nat by lia. rewrite <- !drop_drop. by rewrite Hdr.
      * rewrite drop_insert_lt by lia. rewrite <- Hcc, (drop_S OL' O k HO), concat_rev_cons. by rewrite app_assoc.
      * apply (keeps_links_trans _ m m' m2); [done|]. apply (keeps_more _ _ _ _ K2). rewrite <- Hperm.
        rewrite (concat_take_out PL' k L HL). set_solver.
Qed.

(** *** All nodes *)

(** [in_ = read ++ rest], the read part in [part], nothing above [top]. *)
Record loaded (m : links) (part : list Z) (top : nat) (input rest : list Z) (PL OL : list (list Z)) : Prop := {
  ld_parts : parts m part PL OL;
  ld_nodup : NoDup (concat PL ++ rest);
  ld_perm : concat PL ++ rest ≡ₚ input;
  ld_order : concat (rev OL) ++ rest = input;
  ld_top : (top < 20)%nat /\ forall i, (top < i <= 20)%nat -> PL !! i = Some [] }.

Lemma loaded_put m part top input x RL PL OL k m' part' cur PL' OL' CL CO :
  loaded m part top input (x :: RL) PL OL -> (k <= 20)%nat -> carrying m' part' (S k) cur PL' OL' CL CO ->
  concat PL' ++ CL ≡ₚ concat PL ++ [x] -> drop k PL' = drop k PL -> concat (rev (drop k OL')) ++ CO = concat (rev OL) ++ [x] ->
  forall k', k' = (if decide (k = 20%nat) then 19%nat else k) ->
  loaded m' (<[k' := cur]> part') (if decide (top < k)%nat then k' else top) input RL (<[k' := CL]> PL') (<[k' := CO]> OL').
Proof.
  intros [Hpa Hn Hp Ho [Ht Htop]] Hk [Hpa' Hcu Hso Hlo] Hperm Hdr Hcc k' Ek'.
  assert (Hk' : (k' <= k)%nat /\ (k' < 20)%nat) by (case_decide; lia). destruct (parts_lens _ _ _ _ Hpa') as [L1 L2].
  assert (Hlo' : forall i, (i <= k)%nat -> OL' !! i = Some []).
  { intros i Hi. destruct (parts_at m' part' PL' OL' i Hpa' ltac:(lia)) as (? & L & O & _ & HL & HO & _ & _ & HLO).
    rewrite (Hlo i) in HL by lia. injection HL as <-. by rewrite (HLO eq_refl) in HO. }
  assert (Hcat : concat (<[k' := CL]> PL') ≡ₚ concat PL ++ [x]).
  { rewrite (concat_put_in PL' k' CL) by (apply Hlo; lia). by rewrite <- Hperm, Permutation_app_comm. }
  split.
  - apply parts_put; [done|lia|done|done].
  - rewrite Hcat, <- app_assoc. done.
  - rewrite Hcat, <- app_assoc. done.
  - rewrite (concat_rev_put OL' k k' CO) by (lia || done). rewrite Hcc, <- app_assoc. done.
  - assert (Hhi : forall i, (top < i)%nat -> (k' < i <= 20)%nat -> (k <= i)%nat -> <[k' := CL]> PL' !! i = Some []).
    { intros i Hi Hi2 Hik. rewrite list_lookup_insert_ne by lia. replace i with (k + (i - k))%nat by lia. rewrite <- lookup_drop, Hdr, lookup_drop.
      apply Htop. lia. }
    destruct (decide (top < k)%nat) as [Hlt|Hge].
    + split; [lia|]. intros i Hi. destruct (decide (i <= k)%nat); [rewrite list_lookup_insert_ne by lia; apply Hlo; lia|]. apply Hhi; lia.
    + split; [done|]. intros i Hi. apply Hhi; lia.
Qed.

Lemma insert_loop RL : forall fuel m part top input list PL OL, (length RL < fuel)%nat ->
  loaded m part top input RL PL OL -> chain (nexts m) list RL ->
  returns (loop fuel (insert_turn cmp) (m, part, Z.of_nat top, list)) (fun '(m', part', max_lev) => exists top' PL' OL',
    max_lev = Z.of_nat top' /\ loaded m' part' top' input [] PL' OL' /\ keeps input m m').
Proof.
  induction RL as [|x RL IH]; intros [|fuel] m part top input list PL OL Hf Hld Hc; try (simpl in Hf; lia); rewrite loop_S.
  - simpl in Hc. subst list. simpl. exists top, PL, OL. split; [done|]. split; [done|apply keeps_refl].
  - pose proof Hc as (-> & Hx0 & r & Hr & Hc'). pose proof Hld as [Hpa Hn Hp Ho Htop].
    pose proof Hn as (Hn1 & Hd & Hn2)%NoDup_app. apply NoDup_cons in Hn2 as [Hx Hn2].
    set (m1 := mk_links (<[x := 0]> (nexts m)) (prevs m)).
    assert (K1 : keeps [x] m m1).
    { split; [done| | |]; unfold m1; cbn [nexts].
      - intros y Hy. apply lookup_insert_ne. intros ->. by apply Hy; left.
      - apply map_size_insert_Some. eauto.
      - intros y Hy. destruct (decide (x = y)) as [->|]; [rewrite lookup_insert_eq; eauto|by rewrite lookup_insert_ne]. }
    assert (Hpa1 : parts m1 part PL OL).
    { apply (parts_keep m m1 [x]); [done| |done]. intros y Hy ->%list_elem_of_singleton. apply (Hd x Hy). by left. }
    assert (Hx1 : chain (nexts m1) x [x]) by (split; [done|]; split; [done|]; exists 0; split; [apply lookup_insert_eq|done]).
    assert (HR1 : chain (nexts m1) r RL) by (apply (keeps_chain [x] m m1); [done| |done]; intros y Hy ->%list_elem_of_singleton; done).
    assert (Hn' : NoDup (concat PL ++ [x] ++ RL)) by done.
    destruct (returns_inv _ _ (collapse_ok m1 part PL OL x x RL Hpa1 Hx1 Hn'))
      as ([[[m2 part2] lev] cur2] & E & k & PL2 & OL2 & CL & CO & -> & Hk & Hca & Hperm & Hdr & Hcc & K2).
    set (k' := if decide (k = 20%nat) then 19%nat else k).
    pose proof (pa_len _ _ _ _ (ca_parts _ _ _ _ _ _ _ _ Hca)) as Hlen2.
    pose proof (loaded_put m part top input x RL PL OL k m2 part2 cur2 PL2 OL2 CL CO Hld Hk Hca Hperm Hdr Hcc k' eq_refl) as Hld2.
    assert (Et : insert_turn cmp (m, part, Z.of_nat top, x) =
      Ret (inl (m2, <[k' := cur2]> part2, Z.of_nat (if decide (top < k)%nat then k' else top), r))).
    { unfold insert_turn. rewrite (proj2 (Z.eqb_neq x 0) Hx0). cbn [negb]. unfold get_next, set_next, getp, setp. rewrite Hr, !bind_ret. fold m1.
      rewrite E, bind_ret. rewrite Hlen2. destruct Htop as [Ht _].
      destruct (Z.ltb_spec (Z.of_nat top) (Z.of_nat k)) as [Hlt|Hge]; destruct (decide (top < k)%nat) as [Hd1|Hd1]; try lia.
      - unfold k' in *. destruct (Z.leb_spec (Z.of_nat 21 - 1) (Z.of_nat k)), (decide (k = 20%nat)); try lia;
          (rewrite wr_in_range by lia); rewrite bind_ret; repeat f_equal; lia.
      - rewrite wr_in_range by lia. rewrite bind_ret, Nat2Z.id. unfold k'. by rewrite decide_False by lia. }
    rewrite Et, bind_ret. eapply returns_mono; [apply (IH fuel m2 _ _ input r _ _ ltac:(simpl in Hf; lia) Hld2)|].
    + apply (keeps_chain (concat PL ++ [x]) m1 m2); [done| |done]. intros y Hy Hy2%elem_of_app. destruct Hy2 as [Hy2| ->%list_elem_of_singleton]; [|done].
      apply (Hd y Hy2). by right.
    + intros [[m3 part3] max_lev] (top3 & PL3 & OL3 & -> & Hld3 & K3). exists top3, PL3, OL3. split; [done|]. split; [done|].
      assert (Hsub : concat PL ++ [x] ⊆ input) by (rewrite <- Hp; set_solver).
      apply (keeps_links_trans _ m m1); [apply (keeps_more [x]); [done|]|apply (keeps_links_trans _ m1 m2); [by apply (keeps_more (concat PL ++ [x]))|done]].
      intros y Hy. apply Hsub, elem_of_app. by right.
Qed.

(** *** Collecting the lists *)

Lemma collect_ok m part top input PL OL : loaded m part top input [] PL OL ->
  returns (loop (top + 1) (collect_turn cmp part (Z.of_nat top)) (m, 0, 0)) (fun '(m', list) => exists LL LO P O p,
    part !! top = Some p /\ chain (nexts m') list LL /\ chain (nexts m') p P /\ NoDup (P ++ LL) /\ srt LO LL /\ srt O P /\ O ++ LO = input /\ keeps input m m').
Proof.
  intros [Hpa Hn Hp Ho [Ht Htop]]. rewrite app_nil_r in Hn, Hp, Ho. destruct (parts_lens _ _ _ _ Hpa) as [L1 L2].
  apply loop_returns with (m := fun '(_, lev, _) => (top - Z.to_nat lev)%nat)
    (I := fun '(m', lev, list) => exists k LL, lev = Z.of_nat k /\ (k <= top)%nat /\ chain (nexts m') list LL /\
      Forall2 (fun p L => chain (nexts m') p L) (drop k part) (drop k PL) /\ srt (concat (rev (take k OL))) LL /\
      NoDup (LL ++ concat (drop k PL)) /\ LL ++ concat (drop k PL) ≡ₚ input /\ keeps input m m').
  - exists 0%nat, []. rewrite !drop_0. split; [done|]. split; [lia|]. split; [done|]. split; [apply Hpa|]. split; [by apply sorts_nil|].
    split; [done|]. split; [done|apply keeps_refl].
  - lia.
  - intros [[m' lev] list] (k & LL & -> & Hk & Hc & Hcs & Hs & Hn' & Hp' & K). unfold collect_turn.
    destruct (parts_at m part PL OL k Hpa ltac:(lia)) as (p & L & O & Hpk & HL & HO & _ & HsO & HLO).
    rewrite (drop_S part p k Hpk), (drop_S PL L k HL) in Hcs. apply Forall2_cons in Hcs as [Hpc Hcs].
    rewrite (drop_S PL L k HL) in Hn', Hp'. simpl in Hn', Hp'.
    destruct (Z.ltb_spec (Z.of_nat k) (Z.of_nat top)) as [Hlt|Hge].
    + rewrite (rd_lookup part (Z.of_nat k) p), bind_ret by (rewrite ?Nat2Z.id; lia || done).
      assert (Etake : concat (rev (take (S k) OL)) = O ++ concat (rev (take k OL))) by (by rewrite (take_S_r OL k O HO), rev_app_distr).
      pose proof (chain_null _ _ _ Hpc) as Np. destruct (Z.eqb_spec p 0) as [Ep|Ep]; simpl.
      * apply Np in Ep. subst L. rewrite (HLO eq_refl) in Etake. split; [|lia]. exists (S k), LL. split; [lia|]. split; [lia|].
        split; [done|]. split; [done|]. by rewrite Etake.
      * rewrite app_assoc, (Permutation_app_comm LL L) in Hn'. pose proof Hn' as (Hn1 & Hd & _)%NoDup_app.
        destruct (returns_inv _ _ (merge_ok cmp m' p list L LL Hpc Hc Hn1)) as ([p2 m2] & E & Hc2 & K2). rewrite E, bind_ret. cbn [returns]. split; [|lia].
        exists (S k), (mrg L LL). split; [lia|]. split; [lia|]. split; [done|]. split; [|split; [|split; [|split]]].
        -- apply (chains_keep m' m2 (L ++ LL)); [done| |done]. intros y Hy Hy2. by apply (Hd y Hy2).
        -- rewrite Etake. by apply sorts_merge.
        -- by rewrite mrg_perm.
        -- rewrite mrg_perm, <- Hp', (Permutation_app_comm L LL). by rewrite <- app_assoc.
        -- apply (keeps_links_trans _ m m'); [done|]. apply (keeps_more _ _ _ _ K2). rewrite <- Hp'. set_solver.
    + assert (k = top) as -> by lia. simpl. exists LL, (concat (rev (take top OL))), L, O, p.
      split; [done|]. split; [done|]. split; [done|]. split.
      * rewrite app_assoc in Hn'. apply NoDup_app in Hn' as [Hn' _]. by rewrite Permutation_app_comm.
      * split; [done|]. split; [done|]. split; [|done]. rewrite <- Ho. rewrite <- (take_drop top OL) at 2. rewrite (drop_S OL O top HO), rev_app_distr, concat_app, concat_rev_cons.
        rewrite (concat_rev_nils (drop (S top) OL)); [done|]. intros i l Hl. rewrite lookup_drop in Hl. pose proof (lookup_lt_Some _ _ _ Hl).
        destruct (parts_at m part PL OL (S top + i) Hpa ltac:(lia)) as (? & L' & O' & _ & HL' & HO' & _ & _ & HLO').
        rewrite (Htop (S top + i)%nat) in HL' by lia. injection HL' as <-. rewrite (HLO' eq_refl) in HO'. congruence.
Qed.
End loops.

(** ** Closing the ring, and the whole of [list_sort] *)

(** A circular list with [head]: both directions. *)
Record ring (m : links) (head : Z) (l : list Z) : Prop := {
  ri_next : lseg (nexts m) head (head :: l) head;
  ri_prev : lseg (prevs m) head (head :: rev l) head;
  ri_nodup : NoDup (head :: l) }.

Section ring.
Context (cmp : Z -> Z -> Z) (head : Z).
Abbreviation mrg := (list_merge (cle cmp)).

Definition linkable (m : links) (ns : list Z) : Prop := forall x, x ∈ ns -> is_Some (prevs m !! x).

(** [head :: P] is linked both ways up to its last node [tail]. *)
Record linked (m : links) (P : list Z) (tail : Z) : Prop := {
  lk_front : front (nexts m) head (head :: P) (Some tail);
  lk_back : lseg (prevs m) tail (rev P) head }.

(** [tail->next = x; x->prev = tail] *)
Lemma link_node m P tail x xs ns : linked m P tail -> chain (nexts m) x (x :: xs) -> NoDup (head :: P ++ x :: xs) -> x ∈ ns -> linkable m ns ->
  exists m1 m2 r, set_next m tail x = Ret m1 /\ set_prev m1 x tail = Ret m2 /\ get_next m2 x = Ret r /\ get_next m2 tail = Ret x /\
    linked m2 (P ++ [x]) x /\ chain (nexts m2) r xs /\ linkable m2 ns /\ keeps (head :: P) m m1 /\ nexts m2 = nexts m1.
Proof.
  intros [Hf Hb] Hc Hn Hx Hl. destruct (advance_tail m head (head :: P) (Some tail) x xs Hf Hc Hn) as (m1 & h & r & E & E1 & E2 & K & Hr & Hf').
  unfold set_tail in E. destruct (set_next m tail x) as [m1'| | |] eqn:Es; try done. injection E as <- <-.
  destruct (Hl x Hx) as [v Hv]. pose proof (kp_prev _ _ _ K) as Kp. exists m1', (mk_links (nexts m1') (<[x := tail]> (prevs m1'))), r.
  split; [done|]. split; [unfold set_prev, setp; by rewrite Kp, Hv|]. split; [done|]. split; [done|]. split; [|split; [done|split; [|done]]].
  - split; [done|]. cbn [prevs]. rewrite rev_app_distr. simpl. destruct Hf' as (P0 & Eq & Ht & _).
    split; [done|]. split; [done|]. exists tail. split; [apply lookup_insert_eq|]. rewrite Kp. apply lseg_insert; [|done].
    rewrite <- Permutation_rev. apply NoDup_cons in Hn as [_ Hn]. apply NoDup_app in Hn as (_ & Hd & _). intros Hin. apply (Hd x Hin). by left.
  - intros y Hy. cbn [prevs]. rewrite Kp. destruct (decide (x = y)) as [->|]; [rewrite lookup_insert_eq; eauto|rewrite lookup_insert_ne by done; by apply Hl].
Qed.

(** The first loop ends with the rest [R] of one list behind the tail. *)
Lemma restore_merge_ok n : forall fuel m tail a b P xs ys ns, (length xs + length ys = n)%nat -> (n < fuel)%nat -> xs ++ ys <> [] ->
  linked m P tail -> chain (nexts m) a xs -> chain (nexts m) b ys -> NoDup (head :: P ++ xs ++ ys) -> P ++ xs ++ ys ⊆ ns -> linkable m ns ->
  returns (loop fuel (restore_merge_turn cmp) (m, tail, a, b)) (fun '(m', tail') => exists P' R c,
    P' ++ R = P ++ mrg xs ys /\ R <> [] /\ linked m' P' tail' /\ get_next m' tail' = Ret c /\ chain (nexts m') c R /\ linkable m' ns /\
    size (nexts m') = size (nexts m) /\ (forall x, is_Some (nexts m !! x) -> is_Some (nexts m' !! x))).
Proof.
  induction n as [|n IH]; intros [|fuel] m tail a b P xs ys ns En Hfu Hne Hlk Ha Hb Hn Hsub Hl; try lia; rewrite loop_S.
  { destruct xs, ys; simpl in En; try lia. done. }
  pose proof (chain_null _ _ _ Ha) as Na. pose proof (chain_null _ _ _ Hb) as Nb.
  destruct (decide (xs = [] \/ ys = [])) as [He|He].
  - clear IH. assert (E0 : negb (a =? 0) && negb (b =? 0) = false) by (destruct He as [He|He]; [apply Na in He|apply Nb in He]; subst; [done|by rewrite andb_false_r]).
    set (R := xs ++ ys). assert (Em : mrg xs ys = R) by (unfold R; destruct xs, ys; try done; [by rewrite app_nil_r|by destruct He]).
    assert (Hc : chain (nexts m) (if negb (a =? 0) then a else b) R).
    { unfold R. destruct xs as [|x xs]; [rewrite (proj2 Na eq_refl); done|]. destruct He as [He|He]; [done|]. subst ys. rewrite app_nil_r.
      pose proof Ha as (-> & Hx0 & _). apply Z.eqb_neq in Hx0. by rewrite Hx0. }
    destruct Hlk as [Hf Hbk]. assert (Hn' : NoDup ((head :: P) ++ R)) by done.
    destruct (finish m head (head :: P) (Some tail) _ R Hf Hc Hn') as (m' & h' & E & Hch & K).
    destruct (set_tail_ok m head (head :: P) (Some tail) (if negb (a =? 0) then a else b) Hf (proj1 (proj1 (NoDup_app _ _) Hn')))
      as (m2 & h2 & E' & _ & _ & _ & _ & _ & Et). rewrite E in E'. injection E' as <- <-.
    unfold set_tail in E. destruct (set_next m tail _) as [m1| | |] eqn:Es; try done. injection E as <- <-.
    assert (Etu : restore_merge_turn cmp (m, tail, a, b) = Ret (inr (m1, tail))) by (unfold restore_merge_turn; rewrite E0, Es; done).
    rewrite Etu, bind_ret. simpl. rewrite Em. exists P, R, (if negb (a =? 0) then a else b). split; [done|]. split; [done|]. split.
    { split; [|by rewrite (kp_prev _ _ _ K)]. destruct Hf as (P0 & Eq & Ht & Hl0 & Hs). exists P0. split; [done|]. split; [done|]. split; [|by apply (kp_dom _ _ _ K)].
      rewrite Eq in Hch. rewrite <- app_assoc in Hch. apply lseg_app in Hch as (q & Hq & Hq2). simpl in Hq2. destruct Hq2 as [-> _]. done. }
    split; [done|]. split.
    { apply (keeps_chain (head :: P) m m1 _ R 0 K); [|done]. apply NoDup_app in Hn' as (_ & Hd & _). intros y Hy HyP. by apply (Hd y). }
    split; [|by split; [apply (kp_size _ _ _ K)|apply (kp_dom _ _ _ K)]]. intros y Hy. rewrite (kp_prev _ _ _ K). by apply Hl.
  - destruct xs as [|x xs]; [by destruct He; left|]. destruct ys as [|y ys]; [by destruct He; right|]. clear He Hne.
    pose proof Ha as (-> & Hx0 & _). pose proof Hb as (-> & Hy0 & _). apply Z.eqb_neq in Hx0 as Ex, Hy0 as Ey. rewrite list_merge_cons.
    case_decide as Hxy; unfold cle in Hxy.
    + assert (Hn' : NoDup (head :: P ++ x :: xs)) by (rewrite app_assoc, app_comm_cons in Hn; apply NoDup_app in Hn as [? _]; done).
      destruct (link_node m P tail x xs ns Hlk Ha Hn' ltac:(set_solver) Hl) as (m1 & m2 & r & E1 & E2 & E3 & E4 & Hlk2 & Hr & Hl2 & K & En2).
      assert (Et : restore_merge_turn cmp (m, tail, x, y) = Ret (inl (m2, x, r, y))).
      { unfold restore_merge_turn. rewrite Ex, Ey. cbn [negb andb]. rewrite (proj2 (Z.leb_le _ _) Hxy), E1, bind_ret, E2, bind_ret, E3, !bind_ret, E4. done. }
      rewrite Et, bind_ret. assert (Ep : (P ++ [x]) ++ xs ++ y :: ys = P ++ (x :: xs) ++ y :: ys) by (by rewrite <- app_assoc).
      eapply returns_mono; [apply (IH fuel m2 x r y (P ++ [x]) xs (y :: ys) ns); [simpl in En |- *; lia|lia|by destruct xs|done|done| |by rewrite Ep|by rewrite Ep|done]|].
      * rewrite En2. apply (keeps_chain (head :: P) m m1 _ _ 0 K); [|done]. rewrite app_comm_cons in Hn. apply NoDup_app in Hn as (_ & Hd & _).
        intros w Hw HwP. apply (Hd w HwP). set_solver.
      * intros [m' t'] (P' & R & c & E & HR). rewrite <- app_assoc in E. exists P', R, c. split; [done|]. rewrite En2, (kp_size _ _ _ K) in HR.
        destruct HR as (H1 & H2 & H3 & H4 & H5 & H6 & H7). repeat (split; [done|]). intros w Hw. apply H7. by apply (kp_dom _ _ _ K).
    + assert (Hperm : P ++ (x :: xs) ++ y :: ys ≡ₚ (P ++ [y]) ++ (x :: xs) ++ ys).
      { rewrite <- app_assoc. f_equiv. rewrite (Permutation_app_comm [y]), <- app_assoc. f_equiv. by rewrite Permutation_app_comm. }
      assert (Hn' : NoDup (head :: P ++ y :: ys)).
      { rewrite (Permutation_app_comm (x :: xs)), app_assoc, app_comm_cons in Hn. apply NoDup_app in Hn as [? _]. done. }
      destruct (link_node m P tail y ys ns Hlk Hb Hn' ltac:(set_solver) Hl) as (m1 & m2 & r & E1 & E2 & E3 & E4 & Hlk2 & Hr & Hl2 & K & En2).
      assert (Et : restore_merge_turn cmp (m, tail, x, y) = Ret (inl (m2, y, x, r))).
      { unfold restore_merge_turn. rewrite Ex, Ey. cbn [negb andb]. rewrite (proj2 (Z.leb_gt _ _)) by lia. rewrite E1, bind_ret, E2, bind_ret, E3, !bind_ret, E4. done. }
      rewrite Et, bind_ret.
      eapply returns_mono; [apply (IH fuel m2 y x r (P ++ [y]) (x :: xs) ys ns); [simpl in En |- *; lia|lia|done|done| |done|by rewrite <- Hperm|by rewrite <- Hperm|done]|].
      * rewrite En2. apply (keeps_chain (head :: P) m m1 _ _ 0 K); [|done]. rewrite app_comm_cons in Hn. apply NoDup_app in Hn as (_ & Hd & _).
        intros w Hw HwP. apply (Hd w HwP). set_solver.
      * intros [m' t'] (P' & R & c & E & HR). rewrite <- app_assoc in E. exists P', R, c. split; [done|]. rewrite En2, (kp_size _ _ _ K) in HR.
        destruct HR as (H1 & H2 & H3 & H4 & H5 & H6 & H7). repeat (split; [done|]). intros w Hw. apply H7. by apply (kp_dom _ _ _ K).
Qed.

(** The second loop walks over the rest and sets its back links. *)
Lemma restore_ok R : forall fuel m tail P c ns, (length R <= fuel)%nat -> R <> [] -> linked m P tail -> get_next m tail = Ret c -> chain (nexts m) c R ->
  NoDup (head :: P ++ R) -> R ⊆ ns -> linkable m ns ->
  returns (loop fuel restore_turn (m, tail)) (fun '(m', tail') => linked m' (P ++ R) tail' /\ linkable m' ns /\ nexts m' = nexts m).
Proof.
  induction R as [|x R IH]; intros [|fuel] m tail P c ns Hf Hne Hlk Ht Hc Hn Hsub Hl; try done; [simpl in Hf; lia|]. rewrite loop_S.
  pose proof Hc as (-> & Hx0 & r & Hr & Hc'). destruct (Hl x ltac:(set_solver)) as [v Hv]. destruct Hlk as [Hfr Hbk].
  set (m1 := mk_links (nexts m) (<[x := tail]> (prevs m))).
  assert (Hl1 : linkable m1 ns).
  { intros y Hy. unfold m1. cbn [prevs]. destruct (decide (x = y)) as [->|]; [rewrite lookup_insert_eq; eauto|rewrite lookup_insert_ne by done; by apply Hl]. }
  assert (Hlk1 : linked m1 (P ++ [x]) x).
  { split; unfold m1; cbn [nexts prevs].
    - destruct Hfr as (P0 & Eq & Ht0 & Hl0 & Hs). exists (head :: P). split; [done|]. split; [done|]. split; [|eauto].
      rewrite Eq. apply lseg_app. exists tail. split; [done|]. simpl. split; [done|]. split; [done|]. exists x. split; [|done].
      unfold get_next, getp in Ht. destruct (nexts m !! tail); congruence.
    - rewrite rev_app_distr. simpl. split; [done|]. split; [done|]. exists tail. split; [apply lookup_insert_eq|]. apply lseg_insert; [|done].
      rewrite <- Permutation_rev. apply NoDup_cons in Hn as [_ Hn]. apply NoDup_app in Hn as (_ & Hd & _). intros Hin. apply (Hd x Hin). by left. }
  assert (Er : get_next m1 x = Ret r) by (unfold get_next, getp, m1; cbn [nexts]; by rewrite Hr).
  assert (Et : restore_turn (m, tail) = if negb (r =? 0) then Ret (inl (m1, x)) else Ret (inr (m1, x))).
  { unfold restore_turn. rewrite Ht, bind_ret. unfold set_prev, setp. rewrite Hv, !bind_ret. fold m1.
    replace (get_next m1 tail) with (get_next m tail) by done. by rewrite Ht, bind_ret, Er, bind_ret. }
  rewrite Et. pose proof (chain_null _ _ _ Hc') as Nr. destruct (Z.eqb_spec r 0) as [E0|E0]; simpl.
  - apply Nr in E0. subst R. done.
  - eapply returns_mono; [apply (IH fuel m1 x (P ++ [x]) r ns); [simpl in Hf; lia|by intros ->; apply E0, Nr|done|done|done|by rewrite <- app_assoc|set_solver|done]|].
    intros [m' t'] (H1 & H2 & H3). rewrite <- app_assoc in H1. done.
Qed.

Lemma merge_and_restore_ok m a b xs ys : head <> 0 -> xs ++ ys <> [] -> chain (nexts m) a xs -> chain (nexts m) b ys -> NoDup (head :: xs ++ ys) ->
  is_Some (nexts m !! head) -> linkable m (head :: xs ++ ys) ->
  returns (merge_and_restore_back_links cmp m head a b) (fun m' => ring m' head (mrg xs ys)).
Proof.
  intros Hh Hne Ha Hb Hn Hhd Hl. unfold merge_and_restore_back_links.
  assert (Hsize : (length (xs ++ ys) < size (nexts m))%nat).
  { apply (nodes_size (nexts m) (head :: xs ++ ys)); [done|]. intros x [->|[Hx|Hx]%elem_of_app]%elem_of_cons; [done|..].
    - exact (proj2 (lseg_dom _ _ _ _ _ Ha Hx)).
    - exact (proj2 (lseg_dom _ _ _ _ _ Hb Hx)). }
  rewrite length_app in Hsize. eapply returns_bind.
  { apply (restore_merge_ok (length xs + length ys) _ m head a b [] xs ys (head :: xs ++ ys)); [done|lia|done| |done|done|done|set_solver|done].
    split; [|done]. exists []. done. }
  intros [m1 tail] (P & R & c & E & HR & Hlk & Hc & Hch & Hl1 & Hs1 & Hd1). simpl in E.
  assert (Hn1 : NoDup (head :: P ++ R)) by (rewrite E, mrg_perm; done).
  assert (Hsub : P ++ R ⊆ head :: xs ++ ys) by (rewrite E, mrg_perm; set_solver). eapply returns_bind.
  { apply (restore_ok R _ m1 tail P c (head :: xs ++ ys)); [|done|done|done|done|done|set_solver|done].
    assert (length (P ++ R) = length (xs ++ ys)) by (by rewrite E, mrg_perm). rewrite !length_app in *. lia. }
  intros [m2 t2] ([Hfr Hbk] & Hl2 & En). rewrite E in Hfr, Hbk. rewrite E in Hn1.
  destruct (set_tail_ok m2 head (head :: mrg xs ys) (Some t2) head Hfr Hn1) as (m3 & h & Es & Hl3 & Hp3 & _).
  unfold set_tail in Es. destruct (set_next m2 t2 head) as [m3'| | |]; try done. injection Es as <- <-. rewrite bind_ret.
  unfold set_prev, setp. rewrite Hp3. destruct (Hl2 head ltac:(by left)) as [v Hv]. rewrite Hv, bind_ret. simpl. split; [done| |done].
  cbn [prevs]. split; [done|]. split; [done|]. exists t2. split; [apply lookup_insert_eq|]. apply lseg_insert; [|done].
  rewrite <- Permutation_rev. by apply NoDup_cons in Hn1 as [? _].
Qed.

(** ** [list_sort] *)

Context `{!TotalCmp cmp}.

Lemma loaded_none m l : NoDup l -> loaded cmp m (replicate 21 0) 0 l l (replicate 21 []) (replicate 21 []).
Proof.
  intros Hn. assert (Hc : concat (replicate 21 []) = @nil Z) by done. split; rewrite ?Hc; [|done|done|done|].
  - split; [by apply Forall2_replicate|apply Forall2_replicate, sorts_nil|done|done].
  - split; [lia|]. intros i Hi. apply lookup_replicate. split; [done|lia].
Qed.

(** The list cut from its ring. *)
Lemma cut_ring m l z : ring m head (l ++ [z]) ->
  exists m1 first, get_next m head = Ret first /\ first <> head /\ getp (prevs m) head = Ret z /\ set_next m z 0 = Ret m1 /\
    get_next m1 head = Ret first /\ chain (nexts m1) first (l ++ [z]) /\ prevs m1 = prevs m /\ is_Some (nexts m1 !! head) /\
    (length (l ++ [z]) < S (size (nexts m1)))%nat.
Proof.
  intros [Hn Hp Hd]. pose proof Hn as (_ & Hh & first & Hf & Hl). destruct Hp as (_ & _ & z' & Hz & Hlz).
  rewrite rev_app_distr in Hlz. simpl in Hlz. destruct Hlz as [-> _]. apply NoDup_cons in Hd as [Hnh Hd].
  assert (Hfin : first ∈ l ++ [z]) by (destruct (l ++ [z]) eqn:E; [by destruct l|destruct Hl as [-> _]; by left]).
  pose proof (lseg_dom _ _ _ _ z Hl ltac:(apply elem_of_app; right; by left)) as [Hz0 [w Hw]].
  assert (Hhz : head <> z) by (intros ->; apply Hnh, elem_of_app; right; by left).
  exists (mk_links (<[z := 0]> (nexts m)) (prevs m)), first. split; [unfold get_next, getp; by rewrite Hf|].
  split; [by intros ->|]. split; [unfold getp; by rewrite Hz|]. split; [unfold set_next, setp; by rewrite Hw|]. cbn [nexts prevs].
  split; [unfold get_next, getp; cbn [nexts]; by rewrite lookup_insert_ne, Hf|].
  assert (Hch : chain (<[z := 0]> (nexts m)) first (l ++ [z])).
  { apply lseg_app in Hl as (q & Hq & Hq2). simpl in Hq2. destruct Hq2 as [-> _]. apply lseg_app. exists z. split.
    - apply lseg_insert; [|done]. apply NoDup_app in Hd as (_ & Hd & _). intros Hin. apply (Hd z Hin). by left.
    - split; [done|]. split; [done|]. exists 0. split; [apply lookup_insert_eq|done]. }
  split; [done|]. split; [done|]. split; [rewrite lookup_insert_ne by done; eauto|]. apply Nat.lt_succ_r.
  apply nodes_size; [done|]. intros x Hx. exact (proj2 (lseg_dom _ _ _ _ _ Hch Hx)).
Qed.

Lemma list_sort_ok m l : ring m head l -> returns (list_sort cmp m head) (fun m' => exists l', ring m' head l' /\ sorts cmp l l').
Proof.
  intros Hr. unfold list_sort. pose proof Hr as [(_ & Hh & f0 & Hf0 & Hl0) Hpv Hnd]. destruct l as [|z l _] using rev_ind.
  { simpl in Hl0. unfold get_next, getp. rewrite Hf0, bind_ret, Hl0, Z.eqb_refl. simpl. exists []. split; [done|by apply sorts_nil]. }
  destruct (cut_ring m l z Hr) as (m1 & first & E1 & Hfh & E2 & E3 & E4 & Hc & Hp1 & Hh1 & Hsz).
  rewrite E1, bind_ret, (proj2 (Z.eqb_neq first head) Hfh), E2, bind_ret, E3, bind_ret, E4, bind_ret.
  change (replicate (Z.to_nat (MAX_LIST_LENGTH_BITS + 1)) 0) with (replicate 21 0). apply NoDup_cons in Hnd as [Hnh Hnd].
  eapply returns_bind; [exact (insert_loop cmp (l ++ [z]) _ m1 (replicate 21 0) 0 (l ++ [z]) first _ _ Hsz (loaded_none m1 (l ++ [z]) Hnd) Hc)|].
  intros [[m2 part2] max_lev] (top & PL & OL & -> & Hld & K2). rewrite Nat2Z.id. eapply returns_bind; [exact (collect_ok cmp m2 part2 top _ PL OL Hld)|].
  intros [m3 list] (LL & LO & P & O & p & Hpt & HcL & HcP & Hn3 & HsL & HsP & Ho & K3).
  rewrite (rd_lookup part2 (Z.of_nat top) p), bind_ret by (rewrite ?Nat2Z.id; lia || done).
  assert (Hperm : P ++ LL ≡ₚ l ++ [z]) by (rewrite (so_perm _ _ _ HsP), (so_perm _ _ _ HsL), Ho; done).
  eapply returns_mono; [apply (merge_and_restore_ok m3 p list P LL); [done| |done|done| | |]|].
  - intros E. rewrite E in Hperm. apply Permutation_nil in Hperm. by destruct l.
  - constructor; [by rewrite Hperm|done].
  - by apply (kp_dom _ _ _ K3), (kp_dom _ _ _ K2).
  - intros x Hx. rewrite (kp_prev _ _ _ K3), (kp_prev _ _ _ K2), Hp1. rewrite Hperm in Hx.
    apply (lseg_dom _ _ _ _ x Hpv). apply elem_of_cons in Hx as [->|Hx]; [by left|right]. by rewrite <- Permutation_rev.
  - intros m' Hm'. exists (mrg P LL). split; [done|]. rewrite <- Ho. by apply sorts_merge.
Qed.
End ring.
