(* ===== verification/SortSpec.v ===== *)
(** * What sorting and searching promise *)

From stdpp Require Import base numbers list option gmap sorting.
From Stdlib Require Import ZArith Lia.
From S2P Require Import Prelude Sort SortHeap ListSortFacts.

(** ** Binary search *)

Lemma half_nat n : Z.shiftr (Z.of_nat n) 1 = Z.of_nat (n / 2).
Proof. rewrite Z.shiftr_div_pow2 by lia. change (2 ^ 1) with (Z.of_nat 2). by rewrite <- Nat2Z.inj_div. Qed.

(** The elements of the array are in the order of the comparison with [key]. *)
Definition ordered_for {K} (cmp : K -> bytes -> Z) (key : K) (els : list bytes) : Prop := forall i j x y,
  (i < j)%nat -> els !! i = Some x -> els !! j = Some y -> (0 < cmp key y -> 0 < cmp key x) /\ (cmp key x < 0 -> cmp key y < 0).

(** On an array in order, [bsearch] terminates and finds an element equal to the
    key exactly when there is one. *)
Lemma bsearch_ok {K} (cmp : K -> bytes -> Z) (key : K) (sz : nat) (els : list bytes)
  (Hels : elements sz els) (Hord : ordered_for cmp key els) :
  returns (bsearch cmp key (concat els) (Z.of_nat (length els)) (Z.of_nat sz)) (fun r =>
    match r with
    | Some off => exists i x, off = Z.of_nat sz * Z.of_nat i /\ els !! i = Some x /\ cmp key x = 0
    | None => forall x, x ∈ els -> cmp key x <> 0
    end).
Proof.
  unfold bsearch. apply loop_returns with (m := fun '(_, num) => Z.to_nat num)
    (I := fun '(base, num) => exists lo n, base = Z.of_nat sz * Z.of_nat lo /\ num = Z.of_nat n /\ (lo + n <= length els)%nat /\
      (forall i x, els !! i = Some x -> (i < lo)%nat -> 0 < cmp key x) /\ (forall i x, els !! i = Some x -> (lo + n <= i)%nat -> cmp key x < 0)).
  - exists 0%nat, (length els). split; [lia|]. split; [done|]. split; [lia|]. split; [lia|].
    intros i x Hi Hlen. apply lookup_lt_Some in Hi. lia.
  - lia.
  - intros [base num] (lo & n & -> & -> & Hlen & Hlo & Hhi). unfold bsearch_turn. destruct (Z.ltb_spec 0 (Z.of_nat n)) as [Hn|Hn].
    2:{ simpl. intros x (i & Hi)%list_elem_of_lookup Hx. destruct (Nat.lt_ge_cases i lo) as [H|H]; [specialize (Hlo i x Hi H)|specialize (Hhi i x Hi ltac:(lia))]; lia. }
    rewrite half_nat. pose proof (Nat.div_mod n 2 ltac:(lia)) as Dn. pose proof (Nat.mod_upper_bound n 2 ltac:(lia)).
    set (h := (n / 2)%nat) in *. replace (Z.of_nat sz * Z.of_nat lo + Z.of_nat h * Z.of_nat sz) with (Z.of_nat sz * Z.of_nat (lo + h)) by lia.
    destruct (lookup_lt_is_Some_2 els (lo + h)) as [x Hx]; [lia|]. rewrite (load_at sz els (lo + h) x Hels Hx), bind_ret.
    destruct (Z.eqb_spec (cmp key x) 0) as [E|E]; [simpl; by exists (lo + h)%nat, x|]. destruct (Z.ltb_spec 0 (cmp key x)) as [Hp|Hp]; cbn [returns].
    + replace (Z.of_nat n - 1) with (Z.of_nat (n - 1)) by lia. rewrite half_nat.
      pose proof (Nat.div_mod (n - 1) 2 ltac:(lia)) as Dn1. pose proof (Nat.mod_upper_bound (n - 1) 2 ltac:(lia)). split; [|lia].
      exists (S (lo + h)), ((n - 1) / 2)%nat. split; [lia|]. split; [done|]. split; [lia|]. split.
      * intros i y Hi Hlt. destruct (decide (i = lo + h)%nat) as [->|Hne]; [congruence|]. apply (Hord i (lo + h)%nat y x); [lia|done..].
      * intros i y Hi Hge. apply (Hhi i y Hi). lia.
    + rewrite half_nat. split; [|lia]. exists lo, h. split; [done|].
      split; [done|]. split; [lia|]. split; [done|]. intros i y Hi Hge.
      destruct (decide (i = lo + h)%nat) as [->|Hne]; [assert (y = x) by congruence; subst; lia|]. apply (Hord (lo + h)%nat i x y); [lia|done..|lia].
Qed.

Lemma sorted_lookup {A} (R : A -> A -> Prop) l : StronglySorted R l -> forall i j x y, (i < j)%nat -> l !! i = Some x -> l !! j = Some y -> R x y.
Proof.
  induction 1 as [|a l Hl IH Ha]; intros [|i] [|j] x y Hij Hx Hy; simpl in *; simplify_eq; try lia.
  - rewrite List.Forall_forall in Ha. apply Ha. apply list_elem_of_In, list_elem_of_lookup. by exists j.
  - apply (IH i j); [lia|done..].
Qed.

Lemma sorted_ordered (cmp : bytes -> bytes -> Z) `{!TotalCmp cmp} (Hanti : forall x y, cmp x y < 0 -> 0 < cmp y x) key els :
  StronglySorted (fun x y => cmp x y <= 0) els -> ordered_for cmp key els.
Proof.
  intros Hs i j x y Hij Hx Hy. pose proof (sorted_lookup _ _ Hs i j x y Hij Hx Hy) as Hxy. simpl in Hxy. split.
  - intros Hk. destruct (Z.lt_ge_cases 0 (cmp key x)); [done|]. assert (cmp key x <= 0) as Hkx by lia. pose proof (cmp_trans key x y Hkx Hxy). lia.
  - intros Hk. destruct (Z.lt_ge_cases (cmp key y) 0) as [|Hy0]; [done|]. pose proof (cmp_trans x y key Hxy (cmp_total key y Hy0)).
    specialize (Hanti key x Hk). lia.
Qed.

(** C22: [sort] returns for every array of at most 2^30 bytes, whatever the size of
    its elements, wherever it starts, whether or not the configuration has cheap
    unaligned accesses, and whichever exchange function is given: the array is then a
    permutation of its elements, in ascending order, in which [bsearch] with the
    same comparison finds an element equal to the key exactly when there was one. *)
Theorem sort_spec (cmp : bytes -> bytes -> Z) `{!TotalCmp cmp} (sz : nat) (els : list bytes) (unaligned_access : bool) (base : Z) (swap_func : option swap_fun)
  (Hsz : (0 < sz)%nat) (Hels : array_ok sz els) (Hswap : forall f, swap_func = Some f -> swaps sz f) :
  returns (sort cmp unaligned_access base (concat els) (Z.of_nat (length els)) (Z.of_nat sz) swap_func) (fun buf =>
    exists els', buf = concat els' /\ els' ≡ₚ els /\ StronglySorted (fun x y => cmp x y <= 0) els' /\
    forall key, (forall x y, cmp x y < 0 -> 0 < cmp y x) ->
      returns (bsearch cmp key buf (Z.of_nat (length els)) (Z.of_nat sz)) (fun r =>
        match r with
        | Some off => exists i x, off = Z.of_nat sz * Z.of_nat i /\ els' !! i = Some x /\ cmp key x = 0
        | None => forall x, x ∈ els -> cmp key x <> 0
        end)).
Proof.
  eapply returns_mono; [by apply sort_ok|]. intros buf (els' & -> & Hp & Hs). exists els'. split; [done|]. split; [done|]. split; [done|].
  intros key Hanti. rewrite <- Hp. eapply returns_mono; [apply (bsearch_ok cmp key sz els'); [|by apply sorted_ordered]|].
  - destruct Hels as [He _]. unfold elements in *. by rewrite Hp.
  - intros [off|] H; [done|]. intros x Hx. apply H. by rewrite Hp.
Qed.

Definition cmp_first (a b : bytes) : Z := hd 0 a - hd 0 b.
#[export] Instance cmp_first_total : TotalCmp cmp_first.
Proof. split; unfold cmp_first; lia. Qed.

Definition demo_els : list bytes := [[3; 1]; [1; 2]; [2; 3]; [1; 4]].
Lemma demo_els_ok : array_ok 2 demo_els.
Proof. split; [by repeat constructor|]. vm_compute. split; discriminate. Qed.

Lemma sort_spec_witness :
  returns (sort cmp_first true 0x1001 (concat demo_els) (Z.of_nat (length demo_els)) (Z.of_nat 2) None) (fun buf =>
    exists els', buf = concat els' /\ els' ≡ₚ demo_els /\ StronglySorted (fun x y => cmp_first x y <= 0) els' /\
    returns (bsearch cmp_first [2; 0] buf (Z.of_nat (length demo_els)) (Z.of_nat 2)) (fun r => r <> None)).
Proof.
  pose proof (sort_spec cmp_first 2 demo_els true 0x1001 None ltac:(lia) demo_els_ok ltac:(done)) as H.
  eapply returns_mono; [exact H|]. intros buf (els' & E & Hp & Hs & Hb). exists els'. split; [exact E|]. split; [exact Hp|]. split; [exact Hs|].
  eapply returns_mono; [apply (Hb [2; 0]); unfold cmp_first; intros; lia|]. intros [off|] Hr; [discriminate|]. intros _.
  apply (Hr [2; 3]); [|reflexivity]. apply list_elem_of_In. simpl. auto.
Defined.

(** ** Linked lists *)

(** C23: [list_sort] of any well-formed circular list, of any length, terminates;
    afterwards the same nodes form a well-formed circular list with the same head,
    in ascending order, and nodes that compare equal are in the order they had. *)
Theorem list_sort_spec (cmp : Z -> Z -> Z) `{!TotalCmp cmp} (m : links) (head : Z) (l : list Z) (Hring : ring m head l) :
  returns (list_sort cmp m head) (fun m' => exists l', ring m' head l' /\
    l' ≡ₚ l /\ StronglySorted (fun x y => cmp x y <= 0) l' /\
    forall z, filter (fun x => cmp z x <= 0 /\ cmp x z <= 0) l' = filter (fun x => cmp z x <= 0 /\ cmp x z <= 0) l).
Proof.
  eapply returns_mono; [by apply (list_sort_ok cmp head)|]. intros m' (l' & Hr & [Hp Hs Hf]). exists l'. split; [done|]. split; [done|]. split; [done|].
  intros z. specialize (Hf z). unfold equiv_to, cle in Hf. etransitivity; [|etransitivity; [exact Hf|]]; apply list_filter_iff; naive_solver.
Qed.

Definition demo_ring : links :=
  mk_links (list_to_map [(10, 340); (340, 120); (120, 220); (220, 10)]) (list_to_map [(10, 220); (220, 120); (120, 340); (340, 10)]).
Definition cmp_mod (a b : Z) : Z := a mod 100 - b mod 100.
#[export] Instance cmp_mod_total : TotalCmp cmp_mod.
Proof. split; unfold cmp_mod; lia. Qed.
Lemma demo_ring_ok : ring demo_ring 10 [340; 120; 220].
Proof. split; [by repeat (split; [done|]; split; [done|]; eexists; split; [reflexivity|])..|by apply (bool_decide_unpack _)]. Qed.

Lemma list_sort_spec_witness :
  returns (list_sort cmp_mod demo_ring 10) (fun m' => exists l', ring m' 10 l' /\
    l' ≡ₚ [340; 120; 220] /\ StronglySorted (fun x y => cmp_mod x y <= 0) l' /\
    forall z, filter (fun x => cmp_mod z x <= 0 /\ cmp_mod x z <= 0) l' = filter (fun x => cmp_mod z x <= 0 /\ cmp_mod x z <= 0) [340; 120; 220]).
Proof. exact (list_sort_spec cmp_mod demo_ring 10 [340; 120; 220] demo_ring_ok). Defined.
