(* ===== verification/Ctype.v ===== *)
(** * Characters and C strings

    A C string is a run of bytes of a byte memory [m] that ends at the first
    NUL; a pointer is an index of [m] and every access goes through [rd], which
    faults outside the memory.  [char] is unsigned on arm64.  The character
    classes are those of lib/base/src/ctype.c and its header: a table of class
    masks, one per byte. *)
From Stdlib Require Import ZArith Lia Ascii.
From stdpp Require Import base numbers list option strings.
From S2P Require Import Prelude.

(** Character constants, ['a'] in C, and string literals, evaluated when they
    are read. *)
Abbreviation chr c :=
  (ltac:(let v := eval vm_compute in (Z.of_N (N_of_ascii c)) in exact v)) (only parsing).
Abbreviation bytes s :=
  (ltac:(let v := eval vm_compute in
     (map (fun c => Z.of_N (N_of_ascii c)) (String.list_ascii_of_string s)) in exact v))
  (only parsing).

(** ** Character classes (base/ctype.h) *)

Definition _U : Z := 0x01.   (* upper *)
Definition _L : Z := 0x02.   (* lower *)
Definition _D : Z := 0x04.   (* digit *)
Definition _C : Z := 0x08.   (* cntrl *)
Definition _P : Z := 0x10.   (* punct *)
Definition _S : Z := 0x20.   (* white space *)
Definition _X : Z := 0x40.   (* hex digit *)
Definition _SP : Z := 0x80.  (* hard space *)

Definition _ctype : list Z :=
  [_C; _C; _C; _C; _C; _C; _C; _C;
   _C; Z.lor _C _S; Z.lor _C _S; Z.lor _C _S; Z.lor _C _S; Z.lor _C _S; _C; _C;
   _C; _C; _C; _C; _C; _C; _C; _C;
   _C; _C; _C; _C; _C; _C; _C; _C;
   Z.lor _S _SP; _P; _P; _P; _P; _P; _P; _P;
   _P; _P; _P; _P; _P; _P; _P; _P;
   _D; _D; _D; _D; _D; _D; _D; _D;
   _D; _D; _P; _P; _P; _P; _P; _P;
   _P; Z.lor _U _X; Z.lor _U _X; Z.lor _U _X; Z.lor _U _X; Z.lor _U _X; Z.lor _U _X; _U;
   _U; _U; _U; _U; _U; _U; _U; _U;
   _U; _U; _U; _U; _U; _U; _U; _U;
   _U; _U; _U; _P; _P; _P; _P; _P;
   _P; Z.lor _L _X; Z.lor _L _X; Z.lor _L _X; Z.lor _L _X; Z.lor _L _X; Z.lor _L _X; _L;
   _L; _L; _L; _L; _L; _L; _L; _L;
   _L; _L; _L; _L; _L; _L; _L; _L;
   _L; _L; _L; _P; _P; _P; _P; _C;
   0; 0; 0; 0; 0; 0; 0; 0; 0; 0; 0; 0; 0; 0; 0; 0;
   0; 0; 0; 0; 0; 0; 0; 0; 0; 0; 0; 0; 0; 0; 0; 0;
   Z.lor _S _SP; _P; _P; _P; _P; _P; _P; _P; _P; _P; _P; _P; _P; _P; _P; _P;
   _P; _P; _P; _P; _P; _P; _P; _P; _P; _P; _P; _P; _P; _P; _P; _P;
   _U; _U; _U; _U; _U; _U; _U; _U; _U; _U; _U; _U; _U; _U; _U; _U;
   _U; _U; _U; _U; _U; _U; _U; _P; _U; _U; _U; _U; _U; _U; _U; _L;
   _L; _L; _L; _L; _L; _L; _L; _L; _L; _L; _L; _L; _L; _L; _L; _L;
   _L; _L; _L; _L; _L; _L; _L; _P; _L; _L; _L; _L; _L; _L; _L; _L].

Definition __ismask (c : Z) : Z := default 0 (_ctype !! Z.to_nat (u8 c)).

Definition isalnum (c : Z) : bool := negb (Z.land (__ismask c) (Z.lor _U (Z.lor _L _D)) =? 0).
Definition isspace (c : Z) : bool := negb (Z.land (__ismask c) _S =? 0).
Definition isupper (c : Z) : bool := negb (Z.land (__ismask c) _U =? 0).
Definition islower (c : Z) : bool := negb (Z.land (__ismask c) _L =? 0).
Definition isxdigit (c : Z) : bool := negb (Z.land (__ismask c) (Z.lor _D _X) =? 0).
Definition isdigit (c : Z) : bool := (chr "0"%char <=? c) && (c <=? chr "9"%char).

Definition __tolower (c : Z) : Z :=
  if isupper c then u8 (c - (chr "A"%char - chr "a"%char)) else c.
Definition __toupper (c : Z) : Z :=
  if islower c then u8 (c - (chr "a"%char - chr "A"%char)) else c.
Definition _tolower (c : Z) : Z := u8 (Z.lor c 0x20).

(** ** C strings in memory *)

Definition byte (c : Z) : Prop := 0 <= c < 256.

(** [cstr m p l]: at [p] the memory holds the bytes [l], none of them NUL, and
    then the terminator. *)
Fixpoint cstr (m : list Z) (p : Z) (l : list Z) : Prop :=
  match l with
  | [] => rd m p = Ret 0
  | c :: l => rd m p = Ret c /\ 0 < c < 256 /\ cstr m (p + 1) l
  end.

(** What a read at the front of a string yields. *)
Definition hd0 (l : list Z) : Z := default 0 (head l).

(** ** Lemmas on C strings *)

Lemma cstr_nonneg m p l : cstr m p l -> 0 <= p.
Proof. destruct l; simpl; [intros H|intros [H _]]; by apply rd_Ret in H as [? _]. Qed.

(** The terminator lies inside the memory. *)
Lemma cstr_length m p l : cstr m p l -> p + Z.of_nat (length l) < Z.of_nat (length m).
Proof.
  revert p. induction l as [|c l IH]; intros p H; simpl in H.
  - apply rd_Ret in H as [Hp H]. apply lookup_lt_Some in H. simpl. lia.
  - destruct H as (_ & _ & H). apply IH in H. simpl length. lia.
Qed.

Lemma cstr_hd m p l : cstr m p l -> rd m p = Ret (hd0 l).
Proof. destruct l; [done|]. by intros [? _]. Qed.

Lemma cstr_hd_byte m p l : cstr m p l -> byte (hd0 l).
Proof. destruct l; unfold byte, hd0; simpl; [lia|]. intros (_ & ? & _). lia. Qed.

Lemma cstr_hd_ne m p l : cstr m p l -> hd0 l <> 0 -> exists c l', l = c :: l' /\ cstr m (p + 1) l'.
Proof. destruct l as [|c l]; [done|]. intros (_ & _ & H) _. eauto. Qed.

Lemma cstr_hd_0 m p l : cstr m p l -> hd0 l = 0 -> l = [].
Proof. destruct l; [done|]. intros (_ & ? & _) E. unfold hd0 in E. simpl in E. lia. Qed.

Lemma cstr_drop m p l n :
  cstr m p l -> (n <= length l)%nat -> cstr m (p + Z.of_nat n) (drop n l).
Proof.
  revert p l. induction n as [|n IH]; intros p l H Hn.
  - rewrite drop_0. by replace (p + Z.of_nat 0) with p by lia.
  - destruct l as [|c l]; simpl in Hn; [lia|]. destruct H as (_ & _ & H).
    replace (p + Z.of_nat (S n)) with (p + 1 + Z.of_nat n) by lia. apply IH; [done|lia].
Qed.

(** The string in a memory is determined by where it starts. *)
Lemma cstr_unique m p l l' : cstr m p l -> cstr m p l' -> l = l'.
Proof.
  revert p l'. induction l as [|c l IH]; intros p [|c' l'] H H'; simpl in *; try done.
  - destruct H' as (H' & ? & _). rewrite H in H'. simplify_eq. lia.
  - destruct H as (H & ? & _). rewrite H in H'. simplify_eq. lia.
  - destruct H as (H & _ & Hl), H' as (H' & _ & Hl'). rewrite H in H'. simplify_eq.
    f_equal. by eapply IH.
Qed.

(** A property of bytes is decided by trying them all. *)
Lemma byte_forall (P : Z -> bool) :
  forallb P (map Z.of_nat (seq 0 256)) = true -> forall c, byte c -> P c = true.
Proof.
  intros H c Hc. rewrite forallb_forall in H. apply H. apply in_map_iff.
  exists (Z.to_nat c). unfold byte in Hc. rewrite in_seq. lia.
Qed.

Ltac all_bytes c H :=
  apply (bool_decide_eq_true_1 _); revert c H;
  match goal with
  | |- forall c, byte c -> @?P c = true => apply (byte_forall P)
  end; vm_compute; reflexivity.
