(* ===== verification/Kstrtox.v ===== *)
(** * Numbers from text

    lib/base/src/kstrtox.c and the [simple_strto*] functions of vsprintf.c.  A
    function with a result parameter takes the old contents of [*res] and
    returns them with the return code, so that "the result is not touched" is
    visible; a function with an [endp] returns the end pointer. *)
From stdpp Require Import base numbers list option.
From Stdlib Require Import ZArith Lia Ascii.
From S2P Require Import Prelude Ctype.

Definition KSTRTOX_OVERFLOW : Z := Z.shiftl 1 31.

(** Radix 0 is replaced by what the text says, and the prefix of radix 16 is
    skipped; [isxdigit (s[2])] is evaluated only behind an x. *)
Definition _parse_integer_fixup_radix (m : list Z) (s base : Z) : outcome (Z * Z) :=
  base ← (if base =? 0 then
            c0 ← rd m s;
            if c0 =? chr "0"%char then
              c1 ← rd m (s + 1);
              hex ← (if _tolower c1 =? chr "x"%char then
                       c2 ← rd m (s + 2); Ret (isxdigit c2)
                     else Ret false);
              Ret (if hex : bool then 16 else 8)
            else Ret 10
          else Ret base);
  if base =? 16 then
    c0 ← rd m s;
    if c0 =? chr "0"%char then
      c1 ← rd m (s + 1);
      Ret (if _tolower c1 =? chr "x"%char then s + 2 else s, base)
    else Ret (s, base)
  else Ret (s, base).

(** One digit: the pointer, the value and the count so far. *)
Definition parse_turn (m : list Z) (base : Z) (st : Z * Z * Z)
  : outcome (Z * Z * Z + Z * Z) :=
  let '(s, res, rv) := st in
  c ← rd m s;
  let lc := Z.lor c 0x20 in
  let val :=
    if (chr "0"%char <=? c) && (c <=? chr "9"%char) then Some (u32 (c - chr "0"%char))
    else if (chr "a"%char <=? lc) && (lc <=? chr "f"%char)
    then Some (u32 (lc - chr "a"%char + 10))
    else None in
  match val with
  | None => Ret (inr (rv, res))
  | Some val =>
      if base <=? val then Ret (inr (rv, res))
      else
        let rv :=
          if negb (Z.land res (u64 (Z.shiftl (2 ^ 64 - 1) 60)) =? 0) then
            if u64 (ULLONG_MAX - val) / base <? res then Z.lor rv KSTRTOX_OVERFLOW else rv
          else rv in
        Ret (inl (s + 1, u64 (u64 (res * base) + val), u32 (rv + 1)))
  end.

(** Returns the count, perhaps with the overflow bit, and the value. *)
Definition _parse_integer (m : list Z) (s base : Z) : outcome (Z * Z) :=
  loop (S (length m)) (parse_turn m base) (s, 0, 0).

Definition _kstrtoull (m : list Z) (s base res : Z) : outcome (Z * Z) :=
  '(s, base) ← _parse_integer_fixup_radix m s base;
  '(rv, _res) ← _parse_integer m s base;
  if negb (Z.land rv KSTRTOX_OVERFLOW =? 0) then Ret (- ERANGE, res)
  else if rv =? 0 then Ret (- EINVAL, res)
  else
    let s := s + rv in
    c ← rd m s;
    let s := if c =? 10 then s + 1 else s in
    c ← rd m s;
    if negb (c =? 0) then Ret (- EINVAL, res)
    else Ret (0, _res).

Definition kstrtoull (m : list Z) (s base res : Z) : outcome (Z * Z) :=
  c ← rd m s;
  let s := if c =? chr "+"%char then s + 1 else s in
  _kstrtoull m s base res.

(** [tmp] starts out indeterminate; it is read only after a return of 0, which
    set it, so the model starts it at 0. *)
Definition kstrtoll (m : list Z) (s base res : Z) : outcome (Z * Z) :=
  c ← rd m s;
  if c =? chr "-"%char then
    '(rv, tmp) ← _kstrtoull m (s + 1) base 0;
    if rv <? 0 then Ret (rv, res)
    else if 0 <? s64 (u64 (- tmp)) then Ret (- ERANGE, res)
    else Ret (0, s64 (u64 (- tmp)))
  else
    '(rv, tmp) ← kstrtoull m s base 0;
    if rv <? 0 then Ret (rv, res)
    else if s64 tmp <? 0 then Ret (- ERANGE, res)
    else Ret (0, s64 tmp).

(** Conversions to the narrow signed types. *)
Definition s16 (z : Z) : Z := (z + 2 ^ 15) mod 2 ^ 16 - 2 ^ 15.
Definition s8 (z : Z) : Z := (z + 2 ^ 7) mod 2 ^ 8 - 2 ^ 7.

(** The functions for the narrower types have one body, written out per type:
    parse as [unsigned long long] or [long long], and compare with the value
    cast to the type. *)
Definition _kstrtoul (m : list Z) (s base res : Z) : outcome (Z * Z) :=
  '(rv, tmp) ← kstrtoull m s base 0;
  if rv <? 0 then Ret (rv, res)
  else if negb (tmp =? u64 tmp) then Ret (- ERANGE, res) else Ret (0, u64 tmp).

Definition _kstrtol (m : list Z) (s base res : Z) : outcome (Z * Z) :=
  '(rv, tmp) ← kstrtoll m s base 0;
  if rv <? 0 then Ret (rv, res)
  else if negb (tmp =? s64 tmp) then Ret (- ERANGE, res) else Ret (0, s64 tmp).

Definition kstrtouint (m : list Z) (s base res : Z) : outcome (Z * Z) :=
  '(rv, tmp) ← kstrtoull m s base 0;
  if rv <? 0 then Ret (rv, res)
  else if negb (tmp =? u32 tmp) then Ret (- ERANGE, res) else Ret (0, u32 tmp).

Definition kstrtoint (m : list Z) (s base res : Z) : outcome (Z * Z) :=
  '(rv, tmp) ← kstrtoll m s base 0;
  if rv <? 0 then Ret (rv, res)
  else if negb (tmp =? s32 tmp) then Ret (- ERANGE, res) else Ret (0, s32 tmp).

Definition kstrtou16 (m : list Z) (s base res : Z) : outcome (Z * Z) :=
  '(rv, tmp) ← kstrtoull m s base 0;
  if rv <? 0 then Ret (rv, res)
  else if negb (tmp =? u16 tmp) then Ret (- ERANGE, res) else Ret (0, u16 tmp).

Definition kstrtos16 (m : list Z) (s base res : Z) : outcome (Z * Z) :=
  '(rv, tmp) ← kstrtoll m s base 0;
  if rv <? 0 then Ret (rv, res)
  else if negb (tmp =? s16 tmp) then Ret (- ERANGE, res) else Ret (0, s16 tmp).

Definition kstrtou8 (m : list Z) (s base res : Z) : outcome (Z * Z) :=
  '(rv, tmp) ← kstrtoull m s base 0;
  if rv <? 0 then Ret (rv, res)
  else if negb (tmp =? u8 tmp) then Ret (- ERANGE, res) else Ret (0, u8 tmp).

Definition kstrtos8 (m : list Z) (s base res : Z) : outcome (Z * Z) :=
  '(rv, tmp) ← kstrtoll m s base 0;
  if rv <? 0 then Ret (rv, res)
  else if negb (tmp =? s8 tmp) then Ret (- ERANGE, res) else Ret (0, s8 tmp).

(** [None] is a NULL [s]. *)
Definition kstrtobool (m : list Z) (s : option Z) (res : bool) : outcome (Z * bool) :=
  match s with
  | None => Ret (- EINVAL, res)
  | Some s =>
      c ← rd m s;
      if (c =? chr "y"%char) || (c =? chr "Y"%char) || (c =? chr "1"%char)
      then Ret (0, true)
      else if (c =? chr "n"%char) || (c =? chr "N"%char) || (c =? chr "0"%char)
      then Ret (0, false)
      else if (c =? chr "o"%char) || (c =? chr "O"%char) then
        d ← rd m (s + 1);
        if (d =? chr "n"%char) || (d =? chr "N"%char) then Ret (0, true)
        else if (d =? chr "f"%char) || (d =? chr "F"%char) then Ret (0, false)
        else Ret (- EINVAL, res)
      else Ret (- EINVAL, res)
  end.

(** ** The conversions without an error code (vsprintf.c)

    They return the value and the end pointer. *)

Definition simple_strtoull (m : list Z) (cp base : Z) : outcome (Z * Z) :=
  '(cp, base) ← _parse_integer_fixup_radix m cp base;
  '(rv, result) ← _parse_integer m cp base;
  Ret (result, cp + Z.land rv (u32 (Z.lnot KSTRTOX_OVERFLOW))).

Definition simple_strtoul (m : list Z) (cp base : Z) : outcome (Z * Z) :=
  simple_strtoull m cp base.

Definition simple_strtol (m : list Z) (cp base : Z) : outcome (Z * Z) :=
  c ← rd m cp;
  if c =? chr "-"%char then
    '(v, e) ← simple_strtoul m (cp + 1) base; Ret (s64 (u64 (- v)), e)
  else '(v, e) ← simple_strtoul m cp base; Ret (s64 v, e).

Definition simple_strtoll (m : list Z) (cp base : Z) : outcome (Z * Z) :=
  c ← rd m cp;
  if c =? chr "-"%char then
    '(v, e) ← simple_strtoull m (cp + 1) base; Ret (s64 (u64 (- v)), e)
  else '(v, e) ← simple_strtoull m cp base; Ret (s64 v, e).
