(* ===== verification/KstrtoxFacts.v ===== *)
(** * What the number parsers accept

    The grammar of a number in a text, as a relation, the function that reads
    a text the way kstrtox.c does, and their agreement; then the loop of
    [_parse_integer] against that function. *)
From stdpp Require Import base numbers list option.
From Stdlib Require Import ZArith Lia Ascii.
From S2P Require Import Prelude Ctype Kstrtox.

(** ** Digits and their value *)

Definition digit_val (c : Z) : option Z :=
  if (chr "0"%char <=? c) && (c <=? chr "9"%char) then Some (c - chr "0"%char)
  else if (chr "a"%char <=? c) && (c <=? chr "f"%char) then Some (c - chr "a"%char + 10)
  else if (chr "A"%char <=? c) && (c <=? chr "F"%char) then Some (c - chr "A"%char + 10)
  else None.

(** The values of the longest run of digits at the front. *)
Fixpoint digits (base : Z) (l : list Z) : list Z :=
  match l with
  | [] => []
  | c :: l =>
      match digit_val c with
      | Some d => if d <? base then d :: digits base l else []
      | None => []
      end
  end.

Definition numval (base : Z) (ds : list Z) : Z := foldl (fun a d => a * base + d) 0 ds.

(** The radix and the text behind the prefix. *)
Definition hex_prefixed (l : list Z) : bool :=
  match l with
  | z :: x :: _ => (z =? chr "0"%char) && ((x =? chr "x"%char) || (x =? chr "X"%char))
  | _ => false
  end.

Definition radix (base : Z) (l : list Z) : Z * list Z :=
  let b :=
    if base =? 0 then
      if hd0 l =? chr "0"%char then
        if hex_prefixed l && bool_decide (is_Some (digit_val (hd0 (drop 2 l)))) then 16 else 8
      else 10
    else base in
  (b, if (b =? 16) && hex_prefixed l then drop 2 l else l).

(** What is left behind the digits: nothing, or one newline. *)
Definition at_end (l : list Z) : Prop := l = [] \/ l = [10].
#[export] Instance at_end_dec l : Decision (at_end l).
Proof. unfold at_end. apply _. Defined.

(** The reading of an unsigned number: an error code, or the value. *)
Definition text_ull (base : Z) (l : list Z) : Z + Z :=
  let '(b, l) := radix base l in
  let ds := digits b l in
  if 2 ^ 64 <=? numval b ds then inl ERANGE
  else if decide (ds <> [] /\ at_end (drop (length ds) l)) then inr (numval b ds)
  else inl EINVAL.

(** With a sign in front; a minus only where the type is signed. *)
Definition text_value (signed : bool) (base : Z) (l : list Z) : Z + Z :=
  if signed && (hd0 l =? chr "-"%char) then
    match text_ull base (tail l) with inr v => inr (- v) | inl e => inl e end
  else text_ull base (if hd0 l =? chr "+"%char then tail l else l).

Definition in_range (lo hi : Z) (r : Z + Z) : Z + Z :=
  match r with
  | inr v => if (lo <=? v) && (v <=? hi) then inr v else inl ERANGE
  | inl e => inl e
  end.

(** The return code and the contents of [*res]. *)
Definition answer (r : Z + Z) (res : Z) : Z * Z :=
  match r with inr v => (0, v) | inl e => (- e, res) end.

(** ** The grammar *)

(** [prefix base b pre cs]: for the requested radix [base] the digits [cs] are
    read in radix [b] behind the prefix [pre]. *)
Inductive prefix : Z -> Z -> list Z -> list Z -> Prop :=
  | prefix_given base cs : base <> 0 -> prefix base base [] cs
  | prefix_hex base x cs :
      base = 0 \/ base = 16 -> x = chr "x"%char \/ x = chr "X"%char ->
      prefix base 16 [chr "0"%char; x] cs
  | prefix_octal cs : prefix 0 8 [] (chr "0"%char :: cs)
  | prefix_decimal c cs : c <> chr "0"%char -> prefix 0 10 [] (c :: cs).

(** [l] is a numeral of [v]. *)
Inductive numeral (base : Z) (l : list Z) (v : Z) : Prop :=
  | numeral_intro b pre cs ds tl :
      l = pre ++ cs ++ tl -> prefix base b pre cs ->
      Forall2 (fun c d => digit_val c = Some d /\ d < b) cs ds -> ds <> [] ->
      at_end tl -> v = numval b ds -> numeral base l v.

(** ** Digits *)

Lemma digit_val_range c d : digit_val c = Some d -> 0 <= d < 16.
Proof.
  unfold digit_val. repeat case_match; intros; simplify_eq;
    repeat match goal with H : _ && _ = true |- _ => apply andb_true_iff in H as [??] end; lia.
Qed.

(** The classification of [_parse_integer] and that of [isxdigit]. *)
Lemma digit_val_code c : byte c ->
  (if (chr "0"%char <=? c) && (c <=? chr "9"%char) then Some (u32 (c - chr "0"%char))
   else if (chr "a"%char <=? Z.lor c 0x20) && (Z.lor c 0x20 <=? chr "f"%char)
   then Some (u32 (Z.lor c 0x20 - chr "a"%char + 10))
   else None) = digit_val c.
Proof.
  intros Hc. all_bytes c Hc.
Qed.

Lemma isxdigit_digit_val c : byte c -> isxdigit c = bool_decide (is_Some (digit_val c)).
Proof.
  intros Hc. all_bytes c Hc.
Qed.

Lemma tolower_x c : byte c ->
  (_tolower c =? chr "x"%char) = (c =? chr "x"%char) || (c =? chr "X"%char).
Proof.
  intros Hc. all_bytes c Hc.
Qed.

Lemma digits_length base l : (length (digits base l) <= length l)%nat.
Proof. induction l as [|c l IH]; simpl; [lia|]. repeat case_match; simpl; lia. Qed.

Lemma digits_range base l : Forall (fun d => 0 <= d < base) (digits base l).
Proof.
  induction l as [|c l IH]; simpl; [done|]. repeat case_match; try done.
  constructor; [|done]. split; [eapply digit_val_range; eauto|lia].
Qed.

Lemma numval_snoc base ds d : numval base (ds ++ [d]) = numval base ds * base + d.
Proof. unfold numval. by rewrite foldl_app. Qed.

Lemma numval_nonneg base ds :
  0 <= base -> Forall (fun d => 0 <= d) ds -> 0 <= numval base ds.
Proof.
  intros Hb. induction ds as [|d ds IH] using rev_ind; intros H; [done|].
  rewrite numval_snoc. apply Forall_app in H as [H Hd].
  inversion_clear Hd. specialize (IH H).
  nia.
Qed.

Lemma numval_digits_nonneg b l : 0 <= numval b (digits b l).
Proof.
  pose proof (digits_range b l) as Hr. destruct (digits b l) as [|d ds]; [done|].
  apply numval_nonneg; [inversion Hr; lia|]. eapply Forall_impl; [|exact Hr]. simpl. lia.
Qed.

(** The digits of a run are what [digits] finds, when the run ends there. *)
Lemma digits_app b cs ds tl :
  Forall2 (fun c d => digit_val c = Some d /\ d < b) cs ds -> at_end tl ->
  digits b (cs ++ tl) = ds.
Proof.
  intros H Htl. induction H as [|c d cs ds [Hd Hlt] _ IH]; simpl.
  - by destruct Htl as [-> | ->].
  - rewrite Hd. zdec. by rewrite IH.
Qed.

Lemma digits_split b l :
  exists cs, l = cs ++ drop (length (digits b l)) l /\
    Forall2 (fun c d => digit_val c = Some d /\ d < b) cs (digits b l).
Proof.
  induction l as [|c l (cs & Hl & IH)]; simpl; [by exists []|].
  destruct (digit_val c) as [d|] eqn:E; [|by exists []].
  destruct (Z.ltb_spec d b); [|by exists []].
  exists (c :: cs). simpl. split; [by f_equal|]. by constructor.
Qed.

(** ** The loop of [_parse_integer] *)

(** The count word: the number of digits, and the overflow bit. *)
Definition count (k : Z) (o : bool) : Z := k + (if o then 2 ^ 31 else 0).

Lemma count_flag k o : 0 <= k < 2 ^ 31 -> (Z.land (count k o) KSTRTOX_OVERFLOW =? 0) = negb o.
Proof.
  intros Hk. unfold count. change KSTRTOX_OVERFLOW with (Z.shiftl 1 31). destruct o.
  - replace (2 ^ 31) with (1 * 2 ^ 31) by lia. rewrite <- (lor_shiftl_add k 1 31) by lia.
    rewrite Z.land_lor_distr_l, land_shiftl_disjoint, Z.land_diag by lia. done.
  - rewrite Z.add_0_r, land_shiftl_disjoint by lia. done.
Qed.

Lemma count_low k o : 0 <= k < 2 ^ 31 -> Z.land (count k o) (u32 (Z.lnot KSTRTOX_OVERFLOW)) = k.
Proof.
  intros Hk. change (u32 (Z.lnot KSTRTOX_OVERFLOW)) with (Z.ones 31). unfold count.
  replace (if o then 2 ^ 31 else 0) with (Z.b2z o * 2 ^ 31) by (by destruct o).
  by apply land_ones_add_mul.
Qed.

Lemma count_or k o : 0 <= k < 2 ^ 31 -> Z.lor (count k o) KSTRTOX_OVERFLOW = count k true.
Proof.
  intros Hk. change KSTRTOX_OVERFLOW with (Z.shiftl 1 31). unfold count.
  destruct o; rewrite ?Z.add_0_r; [|by rewrite lor_shiftl_add by lia].
  replace (2 ^ 31) with (1 * 2 ^ 31) by lia. rewrite <- (lor_shiftl_add k 1 31) by lia.
  by rewrite <- Z.lor_assoc, Z.lor_diag.
Qed.

(** The check fires exactly when the next value no longer fits, although it
    looks only at values from 2^60 on. *)
Lemma overflow_check base v d :
  0 <= d < base -> base <= 16 -> 0 <= v < 2 ^ 64 ->
  negb (Z.land v (u64 (Z.shiftl (2 ^ 64 - 1) 60)) =? 0) && (u64 (ULLONG_MAX - d) / base <? v)
    = (2 ^ 64 <=? v * base + d).
Proof.
  intros Hd Hb Hv. unfold ULLONG_MAX. rewrite (u64_small (2 ^ 64 - 1 - d)) by lia.
  change (u64 (Z.shiftl (2 ^ 64 - 1) 60)) with (ULLONG_MAX - (2 ^ 60 - 1)).
  rewrite land_high_mask by lia.
  assert (Hq : (2 ^ 64 - 1 - d) / base < v <-> 2 ^ 64 <= v * base + d).
  { split; intros.
    - pose proof (Z.mul_succ_div_gt (2 ^ 64 - 1 - d) base). nia.
    - apply Z.div_lt_upper_bound; nia. }
  destruct (Z.lt_ge_cases v (2 ^ 60)).
  - rewrite Z.div_small by lia. simpl. symmetry. apply Z.leb_gt. nia.
  - assert (1 <= v / 2 ^ 60) by (apply Z.div_le_lower_bound; lia).
    rewrite (proj2 (Z.eqb_neq _ 0)) by lia. simpl.
    apply eq_bool_prop_intro. rewrite !Is_true_true, Z.ltb_lt, Z.leb_le. done.
Qed.

(** The state of the loop in terms of the value [v] read so far. *)
Definition parse_state (s v k : Z) : Z * Z * Z := (s, u64 v, count k (2 ^ 64 <=? v)).

Lemma parse_turn_digit m base s l c d v k :
  cstr m s (c :: l) -> digit_val c = Some d -> d < base -> base <= 16 -> 0 <= v ->
  0 <= k < 2 ^ 31 - 1 ->
  parse_turn m base (parse_state s v k) =
    Ret (inl (parse_state (s + 1) (v * base + d) (k + 1))).
Proof.
  intros (Hc & Hb & _) Hd Hlt H16 Hv Hk. pose proof (digit_val_range _ _ Hd) as Hr.
  unfold parse_turn, parse_state. rewrite Hc, bind_ret. cbv zeta.
  rewrite (digit_val_code c) by (unfold byte; lia). rewrite Hd. zdec. do 2 f_equal.
  assert (Hval : u64 (u64 (u64 v * base) + d) = u64 (v * base + d)).
  { rewrite u64_add_l. unfold u64. by rewrite (Zplus_mod (v mod _ * _)), Zmult_mod_idemp_l, <- Zplus_mod. }
  rewrite Hval. do 2 f_equal.
  assert (Hc1 : forall o, u32 (count k o + 1) = count (k + 1) o).
  { intros o. unfold count. rewrite u32_small by (destruct o; lia). lia. }
  destruct (Z.leb_spec (2 ^ 64) v).
  - (* overflowed before *)
    rewrite (proj2 (Z.leb_le (2 ^ 64) (v * base + d))) by nia.
    repeat case_match; rewrite ?count_or by lia; apply Hc1.
  - rewrite (u64_small v) by lia. rewrite <- (overflow_check base v d) by lia.
    repeat case_match; rewrite ?count_or by lia; apply Hc1.
Qed.

Lemma parse_turn_stop m base s l v k :
  cstr m s l -> digits base l = [] ->
  parse_turn m base (parse_state s v k) = Ret (inr (count k (2 ^ 64 <=? v), u64 v)).
Proof.
  intros H E. unfold parse_turn, parse_state. rewrite (cstr_hd _ _ _ H), bind_ret. cbv zeta.
  rewrite (digit_val_code (hd0 l)) by (eapply cstr_hd_byte; eauto).
  destruct l as [|c l]; [done|]. change (hd0 (c :: l)) with c. simpl in E.
  destruct (digit_val c) as [d|]; [|done].
  destruct (Z.ltb_spec d base); [done|]. by zdec.
Qed.

Lemma parse_loop m base l : forall n s v k,
  cstr m s l -> base <= 16 -> 0 <= v -> 0 <= k -> k + Z.of_nat (length l) < 2 ^ 31 ->
  (length l < n)%nat ->
  loop n (parse_turn m base) (parse_state s v k) =
    Ret (let v' := foldl (fun a d => a * base + d) v (digits base l) in
         (count (k + Z.of_nat (length (digits base l))) (2 ^ 64 <=? v'), u64 v')).
Proof.
  induction l as [|c l IH]; intros n s v k Hs Hb Hv Hk Hlen Hn;
    (destruct n as [|n]; [lia|]); simpl length in Hlen, Hn.
  - rewrite (loop_inr _ _ _ _ (parse_turn_stop _ base _ _ _ _ Hs eq_refl)). simpl. by rewrite Z.add_0_r.
  - destruct (digits base (c :: l)) as [|d ds] eqn:E.
    { rewrite (loop_inr _ _ _ _ (parse_turn_stop _ _ _ _ _ _ Hs E)). simpl. by rewrite Z.add_0_r. }
    simpl in E. destruct (digit_val c) as [d'|] eqn:Ed; [|done].
    destruct (Z.ltb_spec d' base); [|done]. simplify_eq.
    pose proof (digit_val_range _ _ Ed).
    rewrite (loop_inl _ _ _ _ (parse_turn_digit _ base _ _ _ _ v k Hs Ed ltac:(lia) Hb Hv ltac:(lia))).
    destruct Hs as (_ & _ & Hs). rewrite (IH _ _ _ _ Hs) by nia.
    simpl. do 3 f_equal. lia.
Qed.

Lemma _parse_integer_ok m s base l :
  cstr m s l -> base <= 16 -> Z.of_nat (length l) < 2 ^ 31 ->
  _parse_integer m s base =
    Ret (count (Z.of_nat (length (digits base l))) (2 ^ 64 <=? numval base (digits base l)),
         u64 (numval base (digits base l))).
Proof.
  intros Hs Hb Hl. unfold _parse_integer.
  change (s, 0, 0) with (parse_state s 0 0).
  pose proof (cstr_length _ _ _ Hs). pose proof (cstr_nonneg _ _ _ Hs).
  rewrite (parse_loop m base l) by (done || lia). done.
Qed.

(** ** The functions *)

(** The reads behind a leading zero. *)
Lemma hex_prefix_reads m s l :
  cstr m s l -> hd0 l = chr "0"%char ->
  exists c1, rd m (s + 1) = Ret c1 /\ (_tolower c1 =? chr "x"%char) = hex_prefixed l /\
    (hex_prefixed l = true ->
     cstr m (s + 2) (drop 2 l) /\
     rd m (s + 2) = Ret (hd0 (drop 2 l)) /\
     isxdigit (hd0 (drop 2 l)) = bool_decide (is_Some (digit_val (hd0 (drop 2 l))))).
Proof.
  intros Hs E. destruct (cstr_hd_ne _ _ _ Hs) as (c & l1 & -> & H1); [lia|].
  change (hd0 (c :: l1)) with c in E. subst c.
  exists (hd0 l1). split; [by apply cstr_hd|]. split.
  { rewrite tolower_x by (by eapply cstr_hd_byte). by destruct l1. }
  intros Hp. destruct l1 as [|x l2]; [done|]. simpl.
  destruct H1 as (_ & _ & H2). replace (s + 1 + 1) with (s + 2) in H2 by lia.
  split; [done|]. split; [by apply cstr_hd|]. apply isxdigit_digit_val. by eapply cstr_hd_byte.
Qed.

Lemma hex_prefixed_hd l : hd0 l <> chr "0"%char -> hex_prefixed l = false.
Proof.
  destruct l as [|z [|x l]]; try done. change (hd0 (z :: x :: l)) with z. intros E. simpl.
  by rewrite (proj2 (Z.eqb_neq _ _) E).
Qed.

Lemma fixup_ok m s base l :
  cstr m s l ->
  exists s' l', _parse_integer_fixup_radix m s base = Ret (s', fst (radix base l)) /\
    snd (radix base l) = l' /\ cstr m s' l' /\ (length l' <= length l)%nat.
Proof.
  intros Hs. unfold _parse_integer_fixup_radix, radix. rewrite (cstr_hd _ _ _ Hs), !bind_ret.
  set (b := if base =? 0 then _ else base) at 2.
  assert (Hb : (if base =? 0 then
      if hd0 l =? chr "0"%char then
        c1 ← rd m (s + 1);
        hex ← (if _tolower c1 =? chr "x"%char then c2 ← rd m (s + 2); Ret (isxdigit c2) else Ret false);
        Ret (if hex : bool then 16 else 8)
      else Ret 10
    else Ret base) = Ret b).
  { subst b. destruct (base =? 0); [|done].
    destruct (Z.eqb_spec (hd0 l) (chr "0"%char)) as [E|E]; [|done].
    destruct (hex_prefix_reads _ _ _ Hs E) as (c1 & -> & Hx & Hp). rewrite bind_ret, Hx.
    destruct (hex_prefixed l); [|done]. destruct (Hp eq_refl) as (_ & -> & Hd).
    by rewrite bind_ret, Hd, bind_ret. }
  rewrite Hb, bind_ret. fold b. simpl. clearbody b.
  destruct (b =? 16); simpl; [|by exists s, l].
  destruct (Z.eqb_spec (hd0 l) (chr "0"%char)) as [E|E].
  - destruct (hex_prefix_reads _ _ _ Hs E) as (c1 & -> & Hx & Hp). rewrite bind_ret, Hx.
    destruct (hex_prefixed l); [|by exists s, l].
    destruct (Hp eq_refl) as [H _]. exists (s + 2), (drop 2 l). rewrite length_drop.
    repeat split; [done|lia].
  - rewrite (hex_prefixed_hd _ E). by exists s, l.
Qed.

Lemma radix_le base l : 0 <= base <= 16 -> fst (radix base l) <= 16.
Proof. intros. unfold radix. simpl. repeat case_match; lia. Qed.

Lemma _kstrtoull_ok m s base l res :
  cstr m s l -> 0 <= base <= 16 -> Z.of_nat (length l) < 2 ^ 31 ->
  _kstrtoull m s base res = Ret (answer (text_ull base l) res).
Proof.
  intros Hs Hb Hl. unfold _kstrtoull, text_ull.
  destruct (fixup_ok m s base l Hs) as (s' & l' & -> & E & Hs' & Hlen).
  pose proof (radix_le base l Hb) as H16. destruct (radix base l) as [b l1]. simpl in *. subst l1.
  pose proof (digits_length b l') as Hd.
  rewrite (_parse_integer_ok m s' b l') by (done || lia). simpl.
  set (ds := digits b l') in *.
  rewrite count_flag, negb_involutive by lia.
  destruct (Z.leb_spec (2 ^ 64) (numval b ds)) as [Hov|Hov]; [done|].
  unfold count. rewrite Z.add_0_r. destruct (decide (ds = [])) as [->|Hne].
  { rewrite decide_False by (by intros [? _]). done. }
  rewrite (proj2 (Z.eqb_neq _ _)) by (destruct ds; simpl; [done|lia]).
  pose proof (cstr_drop _ _ _ (length ds) Hs' Hd) as Ht.
  rewrite (cstr_hd _ _ _ Ht), bind_ret.
  assert (Hend : exists c, rd m (if hd0 (drop (length ds) l') =? 10
      then s' + Z.of_nat (length ds) + 1 else s' + Z.of_nat (length ds)) = Ret c /\
    (c = 0 <-> at_end (drop (length ds) l'))).
  { destruct (drop (length ds) l') as [|c t].
    - exists 0. simpl. split; [exact Ht|]. split; [by left|done].
    - destruct Ht as (Hc & Hcb & Ht). change (hd0 (c :: t)) with c.
      destruct (Z.eqb_spec c 10) as [->|Hnl].
      + exists (hd0 t). split; [by apply cstr_hd|]. split.
        * intros E. right. by rewrite (cstr_hd_0 _ _ _ Ht E).
        * intros [?|[= ->]]; done.
      + exists c. split; [done|]. split; [lia|]. intros [?|[= -> _]]; done. }
  destruct Hend as (c & -> & Hc). rewrite bind_ret.
  assert (0 <= numval b ds).
  { apply numval_digits_nonneg. }
  destruct (Z.eqb_spec c 0) as [Ec|Ec]; simpl.
  - rewrite decide_True by tauto. simpl. by rewrite u64_small by lia.
  - rewrite decide_False by tauto. done.
Qed.

Lemma text_ull_range base l :
  match text_ull base l with inr v => 0 <= v < 2 ^ 64 | inl e => e = EINVAL \/ e = ERANGE end.
Proof.
  unfold text_ull. destruct (radix base l) as [b l'].
  pose proof (numval_digits_nonneg b l'). repeat case_match; simplify_eq; auto with lia.
Qed.

Lemma _kstrtoull_cases m s base l res :
  cstr m s l -> 0 <= base <= 16 -> Z.of_nat (length l) < 2 ^ 31 ->
  (exists v, text_ull base l = inr v /\ 0 <= v < 2 ^ 64 /\ _kstrtoull m s base res = Ret (0, v)) \/
  (exists e, text_ull base l = inl e /\ 0 < e /\ _kstrtoull m s base res = Ret (- e, res)).
Proof.
  intros Hs Hb Hl. rewrite (_kstrtoull_ok _ _ _ l) by done.
  pose proof (text_ull_range base l). unfold EINVAL, ERANGE in *.
  destruct (text_ull base l) as [e|v]; simpl; [right|left]; eexists; (split; [done|split; [lia|done]]).
Qed.

Lemma kstrtoull_ok m s base l res :
  cstr m s l -> 0 <= base <= 16 -> Z.of_nat (length l) < 2 ^ 31 ->
  kstrtoull m s base res = Ret (answer (text_value false base l) res).
Proof.
  intros Hs Hb Hl. unfold kstrtoull, text_value. rewrite (cstr_hd _ _ _ Hs), bind_ret. simpl.
  destruct (Z.eqb_spec (hd0 l) (chr "+"%char)) as [E|E]; [|by apply _kstrtoull_ok].
  destruct (cstr_hd_ne _ _ _ Hs) as (c & l' & -> & Hs'); [lia|]. simpl length in Hl.
  apply _kstrtoull_ok; simpl; [done|done|lia].
Qed.

Lemma text_value_unsigned base l v : text_value false base l = inr v -> 0 <= v < 2 ^ 64.
Proof.
  unfold text_value. cbn [andb]. intros E.
  pose proof (text_ull_range base (if hd0 l =? chr "+"%char then tail l else l)) as H. by rewrite E in H.
Qed.

Lemma text_value_code signed base l e : text_value signed base l = inl e -> e = EINVAL \/ e = ERANGE.
Proof.
  unfold text_value. intros E. destruct (signed && _).
  - pose proof (text_ull_range base (tail l)) as H. destruct (text_ull base (tail l)); by simplify_eq.
  - pose proof (text_ull_range base (if hd0 l =? chr "+"%char then tail l else l)) as H. by rewrite E in H.
Qed.

Lemma kstrtoll_ok m s base l res :
  cstr m s l -> 0 <= base <= 16 -> Z.of_nat (length l) < 2 ^ 31 ->
  kstrtoll m s base res =
    Ret (answer (in_range (- 2 ^ 63) (2 ^ 63 - 1) (text_value true base l)) res).
Proof.
  intros Hs Hb Hl. unfold kstrtoll. rewrite (cstr_hd _ _ _ Hs), bind_ret.
  destruct (Z.eqb_spec (hd0 l) (chr "-"%char)) as [E|E].
  - unfold text_value. rewrite E. simpl.
    destruct (cstr_hd_ne _ _ _ Hs) as (c & l' & -> & Hs'); [lia|]. simpl length in Hl. simpl tail.
    destruct (_kstrtoull_cases m (s + 1) base l' 0 Hs' Hb ltac:(lia))
      as [(v & -> & Hv & ->)|(e & -> & He & ->)]; rewrite bind_ret; simpl; zdec; [|done].
    assert (Hneg : s64 (u64 (- v)) = if v <=? 2 ^ 63 then - v else 2 ^ 64 - v).
    { unfold s64, u64. rewrite Zplus_mod_idemp_l. destruct (Z.leb_spec v (2 ^ 63)).
      - rewrite Z.mod_small; lia.
      - rewrite <- (Z_mod_plus_full _ 1), Z.mod_small; lia. }
    rewrite Hneg. destruct (Z.leb_spec v (2 ^ 63)); zdec; done.
  - rewrite (kstrtoull_ok _ _ _ l) by done.
    assert (text_value true base l = text_value false base l) as ->.
    { unfold text_value. by rewrite (proj2 (Z.eqb_neq _ _) E). }
    destruct (text_value false base l) as [e|v] eqn:Ev; rewrite bind_ret; simpl.
    + apply text_value_code in Ev. rewrite (proj2 (Z.ltb_lt (- e) 0)); [done|].
      unfold EINVAL, ERANGE in Ev. lia.
    + apply text_value_unsigned in Ev.
      assert (Hv : s64 v = if v <? 2 ^ 63 then v else v - 2 ^ 64).
      { unfold s64. destruct (Z.ltb_spec v (2 ^ 63)).
        - rewrite Z.mod_small; lia.
        - rewrite <- (Z_mod_plus_full _ (-1)), Z.mod_small; lia. }
      rewrite Hv. destruct (Z.ltb_spec v (2 ^ 63)); zdec; done.
Qed.

(** ** The conversions by type *)

Inductive kint := KULL | KLL | KUL | KL | KUINT | KINT | KU16 | KS16 | KU8 | KS8.

Definition kstrto (t : kint) : list Z -> Z -> Z -> Z -> outcome (Z * Z) :=
  match t with
  | KULL => kstrtoull | KLL => kstrtoll | KUL => _kstrtoul | KL => _kstrtol
  | KUINT => kstrtouint | KINT => kstrtoint | KU16 => kstrtou16 | KS16 => kstrtos16
  | KU8 => kstrtou8 | KS8 => kstrtos8
  end.

Definition ksigned (t : kint) : bool :=
  match t with KLL | KL | KINT | KS16 | KS8 => true | _ => false end.

Definition kbits (t : kint) : Z :=
  match t with
  | KULL | KLL | KUL | KL => 64 | KUINT | KINT => 32 | KU16 | KS16 => 16 | KU8 | KS8 => 8
  end.

Definition kmin (t : kint) : Z := if ksigned t then - 2 ^ (kbits t - 1) else 0.
Definition kmax (t : kint) : Z := if ksigned t then 2 ^ (kbits t - 1) - 1 else 2 ^ kbits t - 1.

Lemma cast_unsigned w v : 0 <= w -> 0 <= v -> (v =? v mod 2 ^ w) = (v <=? 2 ^ w - 1).
Proof.
  intros Hw Hv. assert (0 < 2 ^ w) by (apply Z.pow_pos_nonneg; lia).
  pose proof (Z.mod_pos_bound v (2 ^ w)). destruct (Z.leb_spec v (2 ^ w - 1)).
  - rewrite Z.mod_small by lia. apply Z.eqb_refl.
  - apply Z.eqb_neq. lia.
Qed.

Lemma cast_signed w v :
  0 < w -> (v =? (v + 2 ^ (w - 1)) mod 2 ^ w - 2 ^ (w - 1)) =
    (- 2 ^ (w - 1) <=? v) && (v <=? 2 ^ (w - 1) - 1).
Proof.
  intros Hw. assert (E : 2 ^ w = 2 * 2 ^ (w - 1)).
  { rewrite <- (Z.pow_succ_r 2) by lia. f_equal. lia. }
  assert (0 < 2 ^ (w - 1)) by (apply Z.pow_pos_nonneg; lia).
  pose proof (Z.mod_pos_bound (v + 2 ^ (w - 1)) (2 ^ w)).
  destruct (Z.leb_spec (- 2 ^ (w - 1)) v), (Z.leb_spec v (2 ^ (w - 1) - 1)); simpl;
    [|apply Z.eqb_neq; lia..].
  rewrite Z.mod_small by lia. apply Z.eqb_eq. lia.
Qed.

Section narrow.
Context (m : list Z) (s base : Z) (l : list Z) (res : Z).
Context (Hs : cstr m s l) (Hb : 0 <= base <= 16) (Hl : Z.of_nat (length l) < 2 ^ 31).

(** The body the narrower functions share. *)
Lemma narrow_unsigned w cast :
  0 <= w -> cast = (fun z => z mod 2 ^ w) ->
  ('(rv, tmp) ← kstrtoull m s base 0;
   if rv <? 0 then Ret (rv, res)
   else if negb (tmp =? cast tmp) then Ret (- ERANGE, res) else Ret (0, cast tmp)) =
    Ret (answer (in_range 0 (2 ^ w - 1) (text_value false base l)) res).
Proof using Hs Hb Hl.
  intros Hw ->. rewrite (kstrtoull_ok _ _ _ l) by done. rewrite bind_ret.
  destruct (text_value false base l) as [e|v] eqn:Ev; simpl.
  - apply text_value_code in Ev. rewrite (proj2 (Z.ltb_lt (- e) 0)); [done|].
    unfold EINVAL, ERANGE in Ev. lia.
  - apply text_value_unsigned in Ev. rewrite (cast_unsigned w v) by lia. zdec. simpl.
    destruct (Z.leb_spec v (2 ^ w - 1)); simpl; [|done]. by rewrite Z.mod_small by lia.
Qed.

Lemma narrow_signed w cast :
  0 < w <= 64 -> cast = (fun z => (z + 2 ^ (w - 1)) mod 2 ^ w - 2 ^ (w - 1)) ->
  ('(rv, tmp) ← kstrtoll m s base 0;
   if rv <? 0 then Ret (rv, res)
   else if negb (tmp =? cast tmp) then Ret (- ERANGE, res) else Ret (0, cast tmp)) =
    Ret (answer (in_range (- 2 ^ (w - 1)) (2 ^ (w - 1) - 1) (text_value true base l)) res).
Proof using Hs Hb Hl.
  intros Hw ->. rewrite (kstrtoll_ok _ _ _ l) by done. rewrite bind_ret.
  assert (2 ^ (w - 1) <= 2 ^ 63) by (apply Z.pow_le_mono_r; lia).
  destruct (text_value true base l) as [e|v] eqn:Ev; simpl.
  - apply text_value_code in Ev. rewrite (proj2 (Z.ltb_lt (- e) 0)); [done|].
    unfold EINVAL, ERANGE in Ev. lia.
  - pose proof (cast_signed w v ltac:(lia)) as Hc.
    destruct (Z.leb_spec (- 2 ^ 63) v), (Z.leb_spec v (2 ^ 63 - 1)); simpl;
      (destruct (Z.leb_spec (- 2 ^ (w - 1)) v), (Z.leb_spec v (2 ^ (w - 1) - 1)); simpl in *; try lia);
      try done; rewrite Hc; try done.
    simpl. apply Z.eqb_eq in Hc. by rewrite <- Hc.
Qed.

Lemma kstrto_ok t :
  kstrto t m s base res = Ret (answer (in_range (kmin t) (kmax t) (text_value (ksigned t) base l)) res).
Proof using Hs Hb Hl.
  destruct t; simpl; unfold kmin, kmax; simpl ksigned; simpl kbits; cbv iota.
  - rewrite (kstrtoull_ok _ _ _ l) by done.
    destruct (text_value false base l) as [e|v] eqn:Ev; [done|]. simpl in *.
    apply text_value_unsigned in Ev. by zdec.
  - by apply kstrtoll_ok.
  - exact (narrow_unsigned 64 u64 ltac:(lia) eq_refl).
  - exact (narrow_signed 64 s64 ltac:(lia) eq_refl).
  - exact (narrow_unsigned 32 u32 ltac:(lia) eq_refl).
  - exact (narrow_signed 32 s32 ltac:(lia) eq_refl).
  - exact (narrow_unsigned 16 u16 ltac:(lia) eq_refl).
  - exact (narrow_signed 16 s16 ltac:(lia) eq_refl).
  - exact (narrow_unsigned 8 u8 ltac:(lia) eq_refl).
  - exact (narrow_signed 8 s8 ltac:(lia) eq_refl).
Qed.
End narrow.

(** ** The grammar and the reading agree *)

Lemma radix_prefix base b pre cs tl :
  prefix base b pre cs -> cs <> [] -> at_end tl ->
  Forall (fun c => is_Some (digit_val c)) cs ->
  radix base (pre ++ cs ++ tl) = (b, cs ++ tl).
Proof.
  intros Hp Hne Htl Hcs.
  assert (Hx : hex_prefixed (cs ++ tl) = false).
  { assert (Hd : forall x, is_Some (digit_val x) \/ x = 10 ->
      (x =? chr "x"%char) || (x =? chr "X"%char) = false).
    { intros x [[d Hx]| ->]; [|done]. apply orb_false_iff.
      split; apply Z.eqb_neq; intros ->; done. }
    destruct cs as [|c cs]; [done|]. apply Forall_cons_1 in Hcs as [_ Hcs]. simpl.
    destruct cs as [|c' cs]; simpl.
    - destruct Htl as [-> | ->]; [done|]. rewrite Hd by auto. apply andb_false_r.
    - apply Forall_cons_1 in Hcs as [Hc' _]. rewrite Hd by auto. apply andb_false_r. }
  destruct Hp as [base cs Hb|base x cs Hb Hx'|cs|c cs Hc]; unfold radix.
  - rewrite (proj2 (Z.eqb_neq _ _) Hb), app_nil_l. by rewrite Hx, andb_false_r.
  - destruct cs as [|c cs]; [done|]. apply Forall_cons_1 in Hcs as [[d Hd] _].
    assert (E : hex_prefixed ([chr "0"%char; x] ++ (c :: cs) ++ tl) = true).
    { destruct Hx' as [-> | ->]; done. }
    rewrite E. simpl. change (hd0 (chr "0"%char :: _)) with (chr "0"%char).
    change (hd0 (c :: _)) with c. rewrite Hd. simpl. by destruct Hb as [-> | ->].
  - rewrite app_nil_l, Hx. done.
  - rewrite app_nil_l, Hx. change (hd0 ((c :: cs) ++ tl)) with c.
    by rewrite (proj2 (Z.eqb_neq _ _) Hc).
Qed.

(** Every numeral is read as its value. *)
Lemma numeral_read base l v :
  numeral base l v -> text_ull base l = if 2 ^ 64 <=? v then inl ERANGE else inr v.
Proof.
  intros [b pre cs ds tl -> Hp Hds Hne Htl ->]. unfold text_ull.
  assert (Hcs : cs <> []) by (intros ->; by inversion Hds; subst).
  rewrite (radix_prefix _ _ _ _ _ Hp Hcs Htl).
  2:{ clear -Hds. induction Hds as [|c d cs ds [Hd _] _ IH]; constructor; eauto. }
  rewrite (digits_app _ _ _ _ Hds Htl).
  rewrite <- (Forall2_length Hds), drop_app_length.
  destruct (2 ^ 64 <=? numval b ds); [done|]. by rewrite decide_True.
Qed.

(** What is read as a value is a numeral of it. *)
Lemma read_numeral base l v : text_ull base l = inr v -> numeral base l v.
Proof.
  unfold text_ull. destruct (radix base l) as [b l'] eqn:E.
  destruct (Z.leb_spec (2 ^ 64) (numval b (digits b l'))); [done|].
  destruct (decide _) as [[Hne Hend]|]; [|done]. intros [= <-].
  destruct (digits_split b l') as (cs & Hl' & Hcs).
  set (tl := drop (length (digits b l')) l') in *.
  assert (Hne' : cs <> []) by (intros ->; inversion Hcs; congruence).
  assert (exists pre, l = pre ++ cs ++ tl /\ prefix base b pre cs) as (pre & Hl & Hp); [|by econstructor].
  clearbody tl. clear Hcs Hne. revert E. unfold radix. rewrite Hl'. intros [= Hb Hdrop].
  assert (Hhex : forall k, hex_prefixed l = true -> k = 0 \/ k = 16 ->
    drop 2 l = cs ++ tl -> exists pre, l = pre ++ cs ++ tl /\ prefix k 16 pre cs).
  { intros k Hh Hk Hd. destruct l as [|z [|x r]]; try done. simpl in Hh, Hd. rewrite ?drop_0 in Hd.
    apply andb_true_iff in Hh as [Hz Hx]. apply Z.eqb_eq in Hz. subst z r.
    exists [chr "0"%char; x]. split; [done|]. apply prefix_hex; [done|].
    apply orb_true_iff in Hx as [?|?]; [left|right]; lia. }
  destruct (Z.eqb_spec base 0) as [->|Hb0].
  - destruct (Z.eqb_spec (hd0 l) (chr "0"%char)) as [E0|E0].
    + destruct (hex_prefixed l) eqn:Eh; simpl in *.
      * destruct (bool_decide _); subst b; simpl in *; [by eauto|].
        exists []. split; [done|]. destruct cs as [|c cs]; [done|].
        rewrite Hdrop in E0. change (hd0 ((c :: cs) ++ tl)) with c in E0. subst c. constructor.
      * subst b. simpl in *. exists []. split; [done|]. destruct cs as [|c cs]; [done|].
        rewrite Hdrop in E0. change (hd0 ((c :: cs) ++ tl)) with c in E0. subst c. constructor.
    + subst b. simpl in *. exists []. split; [done|]. destruct cs as [|c cs]; [done|].
      rewrite Hdrop in E0. change (hd0 ((c :: cs) ++ tl)) with c in E0. by constructor.
  - subst b. destruct (Z.eqb_spec base 16) as [->|H16]; simpl in *.
    + destruct (hex_prefixed l) eqn:Eh; [by eauto|]. exists []. split; [done|]. by constructor.
    + exists []. split; [done|]. by constructor.
Qed.

(** A numeral in the text, behind a sign that type [t] admits; it may be out of
    the range of the type. *)
Definition reads (t : kint) (base : Z) (l : list Z) (v : Z) : Prop :=
  (ksigned t = true /\ exists l', l = chr "-"%char :: l' /\ numeral base l' (- v)) \/
  (exists l', l = chr "+"%char :: l' /\ numeral base l' v) \/
  numeral base l v.

(** A signed or unsigned number of type [t] in the text. *)
Definition denotes (t : kint) (base : Z) (l : list Z) (v : Z) : Prop :=
  kmin t <= v <= kmax t /\ reads t base l v.

(** The text behind the sign that type [t] admits. *)
Definition unsigned_part (t : kint) (l : list Z) : list Z :=
  if ksigned t && (hd0 l =? chr "-"%char) || (hd0 l =? chr "+"%char) then tail l else l.

(** The digits behind the sign and the prefix pass 64 bits, whatever follows. *)
Definition overflows (t : kint) (base : Z) (l : list Z) : Prop :=
  let '(b, cs) := radix base (unsigned_part t l) in 2 ^ 64 <= numval b (digits b cs).

Lemma numeral_hd base l v :
  numeral base l v -> exists c l', l = c :: l' /\ is_Some (digit_val c).
Proof.
  intros [b pre cs ds tl -> Hp Hds Hne _ _]. destruct Hds as [|c d cs ds [Hd _] _]; [done|].
  inversion Hp; subst; simpl; by eauto.
Qed.

Lemma numeral_nonneg base l v : numeral base l v -> 0 <= v.
Proof.
  intros H. assert (Hr := numeral_read _ _ _ H). pose proof (text_ull_range base l) as H'.
  rewrite Hr in H'. destruct (Z.leb_spec (2 ^ 64) v); [lia|]. tauto.
Qed.

Lemma text_value_numeral s base l v :
  text_value s base l = inr v <->
    (s = true /\ exists l', l = chr "-"%char :: l' /\ numeral base l' (- v) /\ - v < 2 ^ 64) \/
    (exists l', l = chr "+"%char :: l' /\ numeral base l' v /\ v < 2 ^ 64) \/
    numeral base l v /\ v < 2 ^ 64.
Proof.
  assert (Hread : forall l v, text_ull base l = inr v <-> numeral base l v /\ v < 2 ^ 64).
  { intros k w. split.
    - intros E. pose proof (text_ull_range base k) as H. rewrite E in H.
      split; [by apply read_numeral|lia].
    - intros [H ?]. rewrite (numeral_read _ _ _ H). by zdec. }
  assert (Hhd : forall k w c, numeral base (c :: k) w -> digit_val c <> None).
  { intros k w c H. destruct (numeral_hd _ _ _ H) as (? & ? & [= <- <-] & [d ->]). done. }
  unfold text_value. destruct l as [|c l].
  - change (hd0 []) with 0. rewrite andb_false_r. simpl. rewrite Hread. split; [by auto|].
    intros [[_ (? & ? & _)]|[(? & ? & _)|H]]; done.
  - change (hd0 (c :: l)) with c. change (tail (c :: l)) with l.
    destruct (Z.eqb_spec c (chr "-"%char)) as [->|Hm].
    + destruct s; cbn [andb].
      * split.
        -- destruct (text_ull base l) as [e|w] eqn:E; intros [= <-].
           apply Hread in E as [H ?]. left. split; [done|]. exists l.
           rewrite Z.opp_involutive. done.
        -- intros [[_ (l' & [= <-] & H & Hw)]|[(? & ? & _)|[H _]]]; [|done|by apply Hhd in H].
           rewrite (proj2 (Hread l (- v)) (conj H Hw)), Z.opp_involutive. done.
      * rewrite (proj2 (Z.eqb_neq _ _)), Hread by done.
        split; [by auto|]. by intros [[? _]|[(? & ? & _)|H]].
    + rewrite andb_false_r. destruct (Z.eqb_spec c (chr "+"%char)) as [->|Hp]; rewrite Hread.
      * split; [intros; right; left; eauto|].
        intros [[_ (? & [=] & _)]|[(l' & [= <-] & ?)|[H _]]]; [done|]. by apply Hhd in H.
      * split; [by auto|]. intros [[_ (? & [=] & _)]|[(? & [=] & _)|H]]; done.
Qed.

Lemma denotes_iff t base l v :
  in_range (kmin t) (kmax t) (text_value (ksigned t) base l) = inr v <-> denotes t base l v.
Proof.
  assert (Hb : - 2 ^ 63 <= kmin t /\ kmax t < 2 ^ 64) by (by destruct t).
  unfold denotes, reads. split.
  - destruct (text_value _ _ _) as [e|w] eqn:E; [done|]. simpl.
    destruct (Z.leb_spec (kmin t) w), (Z.leb_spec w (kmax t)); simpl; try done. intros [= ->].
    apply text_value_numeral in E. split; [lia|].
    destruct E as [(? & l' & ? & ? & _)|[(l' & ? & ? & _)|[? _]]]; eauto 10.
  - intros [Hv Hn]. assert (text_value (ksigned t) base l = inr v) as ->; [|simpl; by zdec].
    apply text_value_numeral.
    destruct Hn as [(? & l' & ? & ?)|[(l' & ? & ?)|?]];
      [left; split; [done|]; exists l'; repeat split; [done..|lia]
      |right; left; exists l'; repeat split; [done..|lia]|right; right; split; [done|lia]].
Qed.

(** Which error a text gets. *)
Lemma text_ull_overflow base l :
  text_ull base l = inl ERANGE <-> (let '(b, cs) := radix base l in 2 ^ 64 <= numval b (digits b cs)).
Proof.
  unfold text_ull. destruct (radix base l) as [b cs].
  destruct (Z.leb_spec (2 ^ 64) (numval b (digits b cs))); [done|]. split; [by case_decide|lia].
Qed.

Lemma text_value_part t base l :
  (text_value (ksigned t) base l = inl ERANGE <-> text_ull base (unsigned_part t l) = inl ERANGE).
Proof.
  unfold text_value, unsigned_part. destruct (ksigned t && _) eqn:E; simpl; [|done].
  by destruct (text_ull base (tail l)).
Qed.

Lemma overflows_iff t base l : text_value (ksigned t) base l = inl ERANGE <-> overflows t base l.
Proof. by rewrite text_value_part, text_ull_overflow. Qed.

Lemma value_reads t base l v : text_value (ksigned t) base l = inr v -> reads t base l v.
Proof.
  intros [(? & l' & ? & ? & _)|[(l' & ? & ? & _)|[? _]]]%text_value_numeral; unfold reads; eauto 10.
Qed.

Lemma reads_value t base l v :
  reads t base l v -> text_value (ksigned t) base l = inr v \/ text_value (ksigned t) base l = inl ERANGE.
Proof.
  intros Hr. rewrite text_value_part, text_value_numeral. unfold unsigned_part.
  destruct Hr as [(Es & l' & -> & H)|[(l' & -> & H)|H]].
  - rewrite Es. change (hd0 (chr "-"%char :: l')) with (chr "-"%char). simpl.
    rewrite (numeral_read _ _ _ H). destruct (Z.leb_spec (2 ^ 64) (- v)); [by right|left; left; eauto 10].
  - change (hd0 (chr "+"%char :: l')) with (chr "+"%char). rewrite orb_true_r. simpl.
    rewrite (numeral_read _ _ _ H). destruct (Z.leb_spec (2 ^ 64) v); [by right|left; right; left; eauto 10].
  - destruct (numeral_hd _ _ _ H) as (c & l' & -> & [d Hd]). change (hd0 (c :: l')) with c.
    destruct (Z.eqb_spec c (chr "-"%char)) as [->|_]; [done|]. destruct (Z.eqb_spec c (chr "+"%char)) as [->|_]; [done|].
    rewrite andb_false_r. simpl.
    rewrite (numeral_read _ _ _ H). destruct (Z.leb_spec (2 ^ 64) v); [by right|left; right; right; auto].
Qed.

Lemma range_error t base l :
  in_range (kmin t) (kmax t) (text_value (ksigned t) base l) = inl ERANGE <->
    overflows t base l \/ exists v, reads t base l v /\ ~ kmin t <= v <= kmax t.
Proof.
  rewrite <- overflows_iff. split.
  - destruct (text_value _ _ _) as [e|v] eqn:E; [by left|]. simpl. intros Hr. right. exists v.
    split; [by apply value_reads|]. case_match eqn:Hb; [done|]. lia.
  - intros [->|(v & Hv & Hn)]; [done|]. destruct (reads_value t base l v Hv) as [-> | ->]; [|done]. simpl.
    destruct (Z.leb_spec (kmin t) v), (Z.leb_spec v (kmax t)); simpl; try done. lia.
Qed.

Lemma invalid_error t base l :
  in_range (kmin t) (kmax t) (text_value (ksigned t) base l) = inl EINVAL <->
    ~ overflows t base l /\ forall v, ~ reads t base l v.
Proof.
  rewrite <- overflows_iff. pose proof (text_value_code (ksigned t) base l) as Hc. split.
  - destruct (text_value _ _ _) as [e|v] eqn:E; simpl; [|by case_match]. intros [= ->].
    split; [done|]. intros v [H|H]%reads_value; by rewrite E in H.
  - intros [Hn Hr]. destruct (text_value _ _ _) as [e|v] eqn:E.
    + destruct (Hc e eq_refl) as [-> | ->]; done.
    + exfalso. by apply (Hr v), value_reads.
Qed.

(** ** The conversions without an error code *)

Lemma simple_strtoull_ok m cp base l :
  cstr m cp l -> 0 <= base <= 16 -> Z.of_nat (length l) < 2 ^ 31 ->
  let '(b, l') := radix base l in
  exists e, simple_strtoull m cp base = Ret (u64 (numval b (digits b l')), e) /\
    cstr m e (drop (length (digits b l')) l').
Proof.
  intros Hs Hb Hl. unfold simple_strtoull.
  destruct (fixup_ok m cp base l Hs) as (s' & l' & -> & E & Hs' & Hlen).
  pose proof (radix_le base l Hb) as H16. destruct (radix base l) as [b l1]. simpl in *. subst l1.
  pose proof (digits_length b l') as Hd.
  rewrite (_parse_integer_ok m s' b l') by (done || lia). simpl.
  eexists. split; [reflexivity|]. rewrite count_low by lia. by apply cstr_drop.
Qed.
