(* ===== verification/Vsprintf.v ===== *)
(** * Error names and formatted printing

    lib/base/src/errname.c: the name of an error number.  The two tables are
    arrays with designated initialisers, where a later entry for the same index
    replaces the earlier one; the error numbers are those of the arm64
    configuration (asm-generic/base/errno.h).

    lib/base/src/vsprintf.c.  The output buffer is a byte list and the write
    position [str] an offset into it, so that [buf] is offset 0 and [end] the
    size; offsets are not reduced modulo 2^64.  A store outside the list
    faults.  The format is a byte list with its terminator, the arguments are
    64-bit words (the slots of the va_list), and [mem] gives, for an address
    passed as an argument, the bytes that can be read from there on. *)
From Stdlib Require Import ZArith Lia Ascii.
From stdpp Require Import base numbers list option strings.
From S2P Require Import Prelude Ctype.

(** An array built from designated initialisers; [None] is a NULL entry. *)
Definition designated (l : list (Z * list Z)) : list (option (list Z)) :=
  foldl (fun a '(i, s) => <[Z.to_nat i := Some s]> a)
        (replicate (S (Z.to_nat (foldr Z.max 0 l.*1))) None) l.

Definition names_0 : list (option (list Z)) := designated
  [(7, bytes "-E2BIG"%string); (13, bytes "-EACCES"%string); (98, bytes "-EADDRINUSE"%string);
   (99, bytes "-EADDRNOTAVAIL"%string); (68, bytes "-EADV"%string);
   (97, bytes "-EAFNOSUPPORT"%string); (114, bytes "-EALREADY"%string);
   (52, bytes "-EBADE"%string); (9, bytes "-EBADF"%string); (77, bytes "-EBADFD"%string);
   (74, bytes "-EBADMSG"%string); (53, bytes "-EBADR"%string); (56, bytes "-EBADRQC"%string);
   (57, bytes "-EBADSLT"%string); (59, bytes "-EBFONT"%string); (16, bytes "-EBUSY"%string);
   (10, bytes "-ECHILD"%string); (44, bytes "-ECHRNG"%string); (70, bytes "-ECOMM"%string);
   (103, bytes "-ECONNABORTED"%string); (104, bytes "-ECONNRESET"%string);
   (35, bytes "-EDEADLOCK"%string); (89, bytes "-EDESTADDRREQ"%string);
   (33, bytes "-EDOM"%string); (73, bytes "-EDOTDOT"%string); (122, bytes "-EDQUOT"%string);
   (17, bytes "-EEXIST"%string); (14, bytes "-EFAULT"%string); (27, bytes "-EFBIG"%string);
   (112, bytes "-EHOSTDOWN"%string); (113, bytes "-EHOSTUNREACH"%string);
   (133, bytes "-EHWPOISON"%string); (43, bytes "-EIDRM"%string);
   (84, bytes "-EILSEQ"%string); (115, bytes "-EINPROGRESS"%string);
   (4, bytes "-EINTR"%string); (22, bytes "-EINVAL"%string); (5, bytes "-EIO"%string);
   (106, bytes "-EISCONN"%string); (21, bytes "-EISDIR"%string);
   (120, bytes "-EISNAM"%string); (127, bytes "-EKEYEXPIRED"%string);
   (129, bytes "-EKEYREJECTED"%string); (128, bytes "-EKEYREVOKED"%string);
   (51, bytes "-EL2HLT"%string); (45, bytes "-EL2NSYNC"%string); (46, bytes "-EL3HLT"%string);
   (47, bytes "-EL3RST"%string); (79, bytes "-ELIBACC"%string); (80, bytes "-ELIBBAD"%string);
   (83, bytes "-ELIBEXEC"%string); (82, bytes "-ELIBMAX"%string);
   (81, bytes "-ELIBSCN"%string); (48, bytes "-ELNRNG"%string); (40, bytes "-ELOOP"%string);
   (124, bytes "-EMEDIUMTYPE"%string); (24, bytes "-EMFILE"%string);
   (31, bytes "-EMLINK"%string); (90, bytes "-EMSGSIZE"%string);
   (72, bytes "-EMULTIHOP"%string); (36, bytes "-ENAMETOOLONG"%string);
   (119, bytes "-ENAVAIL"%string); (100, bytes "-ENETDOWN"%string);
   (102, bytes "-ENETRESET"%string); (101, bytes "-ENETUNREACH"%string);
   (23, bytes "-ENFILE"%string); (55, bytes "-ENOANO"%string); (105, bytes "-ENOBUFS"%string);
   (50, bytes "-ENOCSI"%string); (61, bytes "-ENODATA"%string); (19, bytes "-ENODEV"%string);
   (2, bytes "-ENOENT"%string); (8, bytes "-ENOEXEC"%string); (126, bytes "-ENOKEY"%string);
   (37, bytes "-ENOLCK"%string); (67, bytes "-ENOLINK"%string);
   (123, bytes "-ENOMEDIUM"%string); (12, bytes "-ENOMEM"%string);
   (42, bytes "-ENOMSG"%string); (64, bytes "-ENONET"%string); (65, bytes "-ENOPKG"%string);
   (92, bytes "-ENOPROTOOPT"%string); (28, bytes "-ENOSPC"%string);
   (63, bytes "-ENOSR"%string); (60, bytes "-ENOSTR"%string); (38, bytes "-ENOSYS"%string);
   (15, bytes "-ENOTBLK"%string); (107, bytes "-ENOTCONN"%string);
   (20, bytes "-ENOTDIR"%string); (39, bytes "-ENOTEMPTY"%string);
   (118, bytes "-ENOTNAM"%string); (131, bytes "-ENOTRECOVERABLE"%string);
   (88, bytes "-ENOTSOCK"%string); (25, bytes "-ENOTTY"%string);
   (76, bytes "-ENOTUNIQ"%string); (6, bytes "-ENXIO"%string);
   (95, bytes "-EOPNOTSUPP"%string); (75, bytes "-EOVERFLOW"%string);
   (130, bytes "-EOWNERDEAD"%string); (1, bytes "-EPERM"%string);
   (96, bytes "-EPFNOSUPPORT"%string); (32, bytes "-EPIPE"%string);
   (71, bytes "-EPROTO"%string); (93, bytes "-EPROTONOSUPPORT"%string);
   (91, bytes "-EPROTOTYPE"%string); (34, bytes "-ERANGE"%string);
   (78, bytes "-EREMCHG"%string); (66, bytes "-EREMOTE"%string);
   (121, bytes "-EREMOTEIO"%string); (85, bytes "-ERESTART"%string);
   (132, bytes "-ERFKILL"%string); (30, bytes "-EROFS"%string);
   (108, bytes "-ESHUTDOWN"%string); (94, bytes "-ESOCKTNOSUPPORT"%string);
   (29, bytes "-ESPIPE"%string); (3, bytes "-ESRCH"%string); (69, bytes "-ESRMNT"%string);
   (116, bytes "-ESTALE"%string); (86, bytes "-ESTRPIPE"%string); (62, bytes "-ETIME"%string);
   (110, bytes "-ETIMEDOUT"%string); (109, bytes "-ETOOMANYREFS"%string);
   (26, bytes "-ETXTBSY"%string); (117, bytes "-EUCLEAN"%string);
   (49, bytes "-EUNATCH"%string); (87, bytes "-EUSERS"%string); (18, bytes "-EXDEV"%string);
   (54, bytes "-EXFULL"%string); (125, bytes "-ECANCELED"%string);
   (11, bytes "-EAGAIN"%string); (111, bytes "-ECONNREFUSED"%string);
   (35, bytes "-EDEADLK"%string)].

(** Indexed from 512. *)
Definition names_512 : list (option (list Z)) := designated
  [(0, bytes "-ERESTARTSYS"%string); (1, bytes "-ERESTARTNOINTR"%string);
   (2, bytes "-ERESTARTNOHAND"%string); (3, bytes "-ENOIOCTLCMD"%string);
   (4, bytes "-ERESTART_RESTARTBLOCK"%string); (5, bytes "-EPROBE_DEFER"%string);
   (6, bytes "-EOPENSTALE"%string); (7, bytes "-ENOPARAM"%string);
   (9, bytes "-EBADHANDLE"%string); (10, bytes "-ENOTSYNC"%string);
   (11, bytes "-EBADCOOKIE"%string); (12, bytes "-ENOTSUPP"%string);
   (13, bytes "-ETOOSMALL"%string); (14, bytes "-ESERVERFAULT"%string);
   (15, bytes "-EBADTYPE"%string); (16, bytes "-EJUKEBOX"%string);
   (17, bytes "-EIOCBQUEUED"%string); (18, bytes "-ERECALLCONFLICT"%string)].

(** The names without their terminator. *)
Definition __errname (err : Z) : option (list Z) :=
  if err <? Z.of_nat (length names_0) then default None (names_0 !! Z.to_nat err)
  else if (512 <=? err) && (err - 512 <? Z.of_nat (length names_512))
  then default None (names_512 !! Z.to_nat (err - 512))
  else None.

(** [symbolic] is CONFIG_SYMBOLIC_ERRNAME; without it the header's stub
    returns NULL.  [abs (INT_MIN)] stays INT_MIN, the unsigned 2^31. *)
Definition errname (symbolic : bool) (err : Z) : option (list Z) :=
  if symbolic then
    name ← __errname (u32 (Z.abs err));
    Some (if 0 <? err then tail name else name)
  else None.

(** ** Decimal conversion *)

Definition decpair : list Z :=
  map (fun x => u16 (Z.lor (Z.of_nat x mod 10) (Z.shiftl (Z.of_nat x / 10) 8) + 0x3030))
      (seq 0 100).

(** [*((u16 * )buf) = decpair[v]], little endian. *)
Definition put_pair (tmp : list Z) (buf v : Z) : outcome (list Z) :=
  x ← rd decpair v;
  tmp ← wr tmp buf (u8 x);
  wr tmp (buf + 1) (u8 (Z.shiftr x 8)).

Definition put_out_r (tmp : list Z) (buf r : Z) : outcome (list Z * Z) :=
  tmp ← put_pair tmp buf r;
  Ret (tmp, buf + (if r <? 10 then 1 else 2)).

Definition put_dec_trunc8 (tmp : list Z) (buf r : Z) : outcome (list Z * Z) :=
  if r <? 100 then put_out_r tmp buf r
  else
    let q := u32 (Z.shiftr (u64 (r * 0x28f5c29)) 32) in
    tmp ← put_pair tmp buf (u32 (r - u32 (100 * q)));
    let buf := buf + 2 in
    if q <? 100 then put_out_r tmp buf q
    else
      let r := u32 (Z.shiftr (u64 (q * 0x28f5c29)) 32) in
      tmp ← put_pair tmp buf (u32 (q - u32 (100 * r)));
      let buf := buf + 2 in
      if r <? 100 then put_out_r tmp buf r
      else
        let q := Z.shiftr (u32 (r * 0x147b)) 19 in
        tmp ← put_pair tmp buf (u32 (r - u32 (100 * q)));
        let buf := buf + 2 in
        put_out_r tmp buf q.

Definition put_dec_full8 (tmp : list Z) (buf r : Z) : outcome (list Z * Z) :=
  let q := u32 (Z.shiftr (u64 (r * 0x28f5c29)) 32) in
  tmp ← put_pair tmp buf (u32 (r - u32 (100 * q)));
  let buf := buf + 2 in
  let r := u32 (Z.shiftr (u64 (q * 0x28f5c29)) 32) in
  tmp ← put_pair tmp buf (u32 (q - u32 (100 * r)));
  let buf := buf + 2 in
  let q := Z.shiftr (u32 (r * 0x147b)) 19 in
  tmp ← put_pair tmp buf (u32 (r - u32 (100 * q)));
  let buf := buf + 2 in
  tmp ← put_pair tmp buf q;
  Ret (tmp, buf + 2).

(** [do_div(n, b)] leaves the quotient in [n] and is the remainder. *)
Definition do_div (n b : Z) : Z * Z := (n / b, n mod b).

Definition put_dec (tmp : list Z) (buf n : Z) : outcome (list Z * Z) :=
  '(tmp, buf, n) ← (if 100 * 1000 * 1000 <=? n then
                      let '(n, r) := do_div n (100 * 1000 * 1000) in
                      '(tmp, buf) ← put_dec_full8 tmp buf r; Ret (tmp, buf, n)
                    else Ret (tmp, buf, n));
  '(tmp, buf, n) ← (if 100 * 1000 * 1000 <=? n then
                      let '(n, r) := do_div n (100 * 1000 * 1000) in
                      '(tmp, buf) ← put_dec_full8 tmp buf r; Ret (tmp, buf, n)
                    else Ret (tmp, buf, n));
  put_dec_trunc8 tmp buf (u32 n).

(** [char tmp[3 * sizeof(num)]], indeterminate in C; no byte of it is read
    before it is written. *)
Definition tmp_init : list Z := replicate 24 0.

(** [for (idx = 0; idx < width; idx++) buf[idx] = ' '], and the copy of the
    digits in reverse. *)
Definition blank_turn (width : Z) (st : list Z * Z) : outcome (list Z * Z + list Z) :=
  let '(buf, idx) := st in
  if idx <? width then
    buf ← wr buf idx (chr " "%char); Ret (inl (buf, idx + 1))
  else Ret (inr buf).

Definition copy_turn (tmp : list Z) (len width : Z) (st : list Z * Z)
  : outcome (list Z * Z + list Z) :=
  let '(buf, idx) := st in
  if idx <? len then
    c ← rd tmp (len - idx - 1);
    buf ← wr buf (idx + width) c;
    Ret (inl (buf, idx + 1))
  else Ret (inr buf).

(** [size] is an [int] and [width] an [unsigned int]: [len > size] compares as
    [int], [width > size] as unsigned. *)
Definition num_to_str (buf : list Z) (size num width : Z) : outcome (list Z * Z) :=
  '(tmp, len) ← (if num <=? 9 then
                   tmp ← wr tmp_init 0 (chr "0"%char + num); Ret (tmp, 1)
                 else put_dec tmp_init 0 num);
  if (size <? len) || (u32 size <? width) then Ret (buf, 0)
  else
    '(buf, width) ← (if u32 len <? width then
                       let width := u32 (width - len) in
                       buf ← loop (S (Z.to_nat width)) (blank_turn width) (buf, 0);
                       Ret (buf, width)
                     else Ret (buf, 0));
    buf ← loop (S (Z.to_nat len)) (copy_turn tmp len width) (buf, 0);
    Ret (buf, s32 (len + width)).

(** ** Output through a bounded buffer *)

(** [if (buf < end) *buf = c; ++buf;] *)
Definition putc (end_ c : Z) (o : list Z * Z) : outcome (list Z * Z) :=
  let '(b, str) := o in
  b ← (if str <? end_ then wr b str c else Ret b);
  Ret (b, str + 1).

(** [while (--n >= 0) putc(c)] *)
Definition pad_turn (end_ c : Z) (st : Z * (list Z * Z))
  : outcome (Z * (list Z * Z) + list Z * Z) :=
  let '(n, o) := st in
  let n := n - 1 in
  if 0 <=? n then o ← putc end_ c o; Ret (inl (n, o)) else Ret (inr o).

Definition pad (end_ c n : Z) (o : list Z * Z) : outcome (list Z * Z) :=
  loop (S (Z.to_nat n)) (pad_turn end_ c) (n, o).

(** ** The printf specification *)

Definition SIGN : Z := 1.
Definition LEFT : Z := 2.
Definition PLUS : Z := 4.
Definition SPACE : Z := 8.
Definition ZEROPAD : Z := 16.
Definition SMALL : Z := 32.
Definition SPECIAL : Z := 64.

Definition FORMAT_TYPE_NONE : Z := 0.
Definition FORMAT_TYPE_WIDTH : Z := 1.
Definition FORMAT_TYPE_PRECISION : Z := 2.
Definition FORMAT_TYPE_CHAR : Z := 3.
Definition FORMAT_TYPE_STR : Z := 4.
Definition FORMAT_TYPE_PTR : Z := 5.
Definition FORMAT_TYPE_PERCENT_CHAR : Z := 6.
Definition FORMAT_TYPE_INVALID : Z := 7.
Definition FORMAT_TYPE_LONG_LONG : Z := 8.
Definition FORMAT_TYPE_ULONG : Z := 9.
Definition FORMAT_TYPE_LONG : Z := 10.
Definition FORMAT_TYPE_UBYTE : Z := 11.
Definition FORMAT_TYPE_BYTE : Z := 12.
Definition FORMAT_TYPE_USHORT : Z := 13.
Definition FORMAT_TYPE_SHORT : Z := 14.
Definition FORMAT_TYPE_UINT : Z := 15.
Definition FORMAT_TYPE_INT : Z := 16.
Definition FORMAT_TYPE_SIZE_T : Z := 17.
Definition FORMAT_TYPE_PTRDIFF : Z := 18.

(** The bit-fields: 8 bits of type, flags and base, a signed 24-bit width and
    a signed 16-bit precision.  The setters below convert to those widths. *)
Record printf_spec := mk_spec {
  sp_type : Z;
  sp_width : Z;
  sp_flags : Z;
  sp_base : Z;
  sp_prec : Z;
}.

Definition sx24 (z : Z) : Z := (z + 2 ^ 23) mod 2 ^ 24 - 2 ^ 23.
Definition sx16 (z : Z) : Z := (z + 2 ^ 15) mod 2 ^ 16 - 2 ^ 15.
Definition set_type (v : Z) (s : printf_spec) : printf_spec :=
  mk_spec (u8 v) (sp_width s) (sp_flags s) (sp_base s) (sp_prec s).
Definition set_width (v : Z) (s : printf_spec) : printf_spec :=
  mk_spec (sp_type s) (sx24 v) (sp_flags s) (sp_base s) (sp_prec s).
Definition set_flags (v : Z) (s : printf_spec) : printf_spec :=
  mk_spec (sp_type s) (sp_width s) (u8 v) (sp_base s) (sp_prec s).
Definition set_base (v : Z) (s : printf_spec) : printf_spec :=
  mk_spec (sp_type s) (sp_width s) (sp_flags s) (u8 v) (sp_prec s).
Definition set_prec (v : Z) (s : printf_spec) : printf_spec :=
  mk_spec (sp_type s) (sp_width s) (sp_flags s) (sp_base s) (sx16 v).

Definition flag (s : printf_spec) (f : Z) : bool := negb (Z.land (sp_flags s) f =? 0).
Definition add_flag (f : Z) (s : printf_spec) : printf_spec := set_flags (Z.lor (sp_flags s) f) s.

Definition FIELD_WIDTH_MAX : Z := Z.shiftl 1 23 - 1.
Definition PRECISION_MAX : Z := Z.shiftl 1 15 - 1.

(** The string constant of lib/base/src/hexdump.c. *)
Definition hex_asc_upper : list Z := bytes "0123456789ABCDEF"%string.

(** ** number *)

(** [do { ... } while (num)] of the radixes 8 and 16. *)
Definition oct_hex_turn (mask shift locase : Z) (st : list Z * Z * Z)
  : outcome (list Z * Z * Z + list Z * Z) :=
  let '(tmp, i, num) := st in
  c ← rd hex_asc_upper (Z.land (u8 num) mask);
  tmp ← wr tmp i (Z.lor c locase);
  let i := i + 1 in
  let num := Z.shiftr num shift in
  Ret (if num =? 0 then inr (tmp, i) else inl (tmp, i, num)).

(** [while (i <= --precision)] *)
Definition zeros_turn (end_ i : Z) (st : Z * (list Z * Z))
  : outcome (Z * (list Z * Z) + list Z * Z) :=
  let '(precision, o) := st in
  let precision := precision - 1 in
  if i <=? precision then o ← putc end_ (chr "0"%char) o; Ret (inl (precision, o))
  else Ret (inr o).

(** [while (--i >= 0)] *)
Definition digits_turn (end_ : Z) (tmp : list Z) (st : Z * (list Z * Z))
  : outcome (Z * (list Z * Z) + list Z * Z) :=
  let '(i, o) := st in
  let i := i - 1 in
  if 0 <=? i then c ← rd tmp i; o ← putc end_ c o; Ret (inl (i, o)) else Ret (inr o).

(** The widths and precisions are [int]s that start from 24 and 16 bits, and
    the subtractions leave them far inside the range of [int]. *)
Definition number (end_ : Z) (o : list Z * Z) (num : Z) (spec : printf_spec)
  : outcome (list Z * Z) :=
  let need_pfx := flag spec SPECIAL && negb (sp_base spec =? 10) in
  let is_zero := num =? 0 in
  let field_width := sp_width spec in
  let precision := sp_prec spec in
  let locase := Z.land (sp_flags spec) SMALL in
  let spec :=
    if flag spec LEFT then set_flags (Z.land (sp_flags spec) (Z.lnot ZEROPAD)) spec else spec in
  let '(sign, num, field_width) :=
    if flag spec SIGN then
      if s64 num <? 0 then (chr "-"%char, u64 (- s64 num), field_width - 1)
      else if flag spec PLUS then (chr "+"%char, num, field_width - 1)
      else if flag spec SPACE then (chr " "%char, num, field_width - 1)
      else (0, num, field_width)
    else (0, num, field_width) in
  let field_width :=
    if need_pfx then
      if sp_base spec =? 16 then field_width - 2
      else if negb is_zero then field_width - 1 else field_width
    else field_width in
  '(tmp, i) ← (if num <? sp_base spec then
                 c ← rd hex_asc_upper num;
                 tmp ← wr tmp_init 0 (Z.lor c locase);
                 Ret (tmp, 1)
               else if negb (sp_base spec =? 10) then
                 let mask := sp_base spec - 1 in
                 let shift := if sp_base spec =? 16 then 4 else 3 in
                 loop 64 (oct_hex_turn mask shift locase) (tmp_init, 0, num)
               else put_dec tmp_init 0 num);
  let precision := if precision <? i then i else precision in
  let field_width := field_width - precision in
  '(o, field_width) ← (if negb (flag spec (Z.lor ZEROPAD LEFT)) then
                         o ← pad end_ (chr " "%char) field_width o;
                         Ret (o, Z.min (field_width - 1) (-1))
                       else Ret (o, field_width));
  o ← (if negb (sign =? 0) then putc end_ sign o else Ret o);
  o ← (if need_pfx then
         o ← (if (sp_base spec =? 16) || negb is_zero then putc end_ (chr "0"%char) o else Ret o);
         if sp_base spec =? 16 then putc end_ (Z.lor (chr "X"%char) locase) o else Ret o
       else Ret o);
  '(o, field_width) ← (if negb (flag spec LEFT) then
                         o ← pad end_ (chr " "%char + Z.land (sp_flags spec) ZEROPAD) field_width o;
                         Ret (o, Z.min (field_width - 1) (-1))
                       else Ret (o, field_width));
  o ← loop (S (Z.to_nat (precision - i))) (zeros_turn end_ i) (precision, o);
  o ← loop (S (Z.to_nat i)) (digits_turn end_ tmp) (i, o);
  pad end_ (chr " "%char) field_width o.

Definition special_hex_number (end_ : Z) (o : list Z * Z) (num size : Z) : outcome (list Z * Z) :=
  number end_ o num
    (mk_spec FORMAT_TYPE_PTR (sx24 (2 + 2 * size)) (Z.lor SPECIAL (Z.lor SMALL ZEROPAD)) 16 (-1)).

(** ** Strings *)

(** [memset(l + p, c, n)] and [memcpy(l + p, src, n)]. *)
Definition memset (l : list Z) (p c n : Z) : outcome (list Z) :=
  if n =? 0 then Ret l
  else if decide (0 <= p /\ 0 <= n /\ p + n <= Z.of_nat (length l))
  then Ret (take (Z.to_nat p) l ++ replicate (Z.to_nat n) c ++ drop (Z.to_nat (p + n)) l)
  else Fault.

Definition memcpy (l : list Z) (p : Z) (src : list Z) (s n : Z) : outcome (list Z) :=
  if n =? 0 then Ret l
  else if decide (0 <= p /\ 0 <= s /\ 0 <= n /\
                  p + n <= Z.of_nat (length l) /\ s + n <= Z.of_nat (length src))
  then Ret (take (Z.to_nat p) l ++ take (Z.to_nat n) (drop (Z.to_nat s) src) ++
            drop (Z.to_nat (p + n)) l)
  else Fault.

Definition move_right (b : list Z) (buf end_ len spaces : Z) : outcome (list Z) :=
  if end_ <=? buf then Ret b
  else
    let size := end_ - buf in
    if size <=? spaces then memset b buf (chr " "%char) size
    else
      b ← (if negb (len =? 0) then
             let len := if size - spaces <? len then u32 (size - spaces) else len in
             memmove b (buf + spaces) buf len
           else Ret b);
      memset b buf (chr " "%char) spaces.

(** [while (spaces--)] *)
Definition spaces_turn (end_ : Z) (st : Z * (list Z * Z)) : outcome (Z * (list Z * Z) + list Z * Z) :=
  let '(spaces, o) := st in
  if spaces =? 0 then Ret (inr o)
  else o ← putc end_ (chr " "%char) o; Ret (inl (spaces - 1, o)).

Definition widen_string (o : list Z * Z) (n end_ : Z) (spec : printf_spec) : outcome (list Z * Z) :=
  if sp_width spec <=? n then Ret o
  else
    let spaces := u32 (sp_width spec - n) in
    if negb (flag spec LEFT) then
      let '(b, buf) := o in
      b ← move_right b (buf - n) end_ (u32 n) spaces;
      Ret (b, buf + spaces)
    else loop (S (Z.to_nat spaces)) (spaces_turn end_) (spaces, o).

(** [while (lim--)]: a negative limit never reaches 0 within the strings
    considered. *)
Definition str_turn (end_ : Z) (s : list Z) (st : Z * Z * (list Z * Z))
  : outcome (Z * Z * (list Z * Z) + Z * (list Z * Z)) :=
  let '(lim, len, o) := st in
  if lim =? 0 then Ret (inr (len, o))
  else
    let lim := s32 (lim - 1) in
    c ← rd s len;
    if c =? 0 then Ret (inr (len, o))
    else o ← putc end_ c o; Ret (inl (lim, len + 1, o)).

(** [s] is the memory from the string's first byte on; [len] counts the
    characters and is the offset of the pointer. *)
Definition string_nocheck (end_ : Z) (o : list Z * Z) (s : list Z) (spec : printf_spec)
  : outcome (list Z * Z) :=
  '(len, o) ← loop (S (S (length s))) (str_turn end_ s) (sp_prec spec, 0, o);
  widen_string o len end_ spec.

Definition err_ptr (symbolic : bool) (end_ : Z) (o : list Z * Z) (ptr : Z) (spec : printf_spec)
  : outcome (list Z * Z) :=
  let err := s32 ptr in
  match errname symbolic err with
  | Some sym => string_nocheck end_ o (sym ++ [0]) spec
  | None => number end_ o (u64 err) (set_base 10 (add_flag SIGN spec))
  end.

Definition error_string (end_ : Z) (o : list Z * Z) (s : list Z) (spec : printf_spec)
  : outcome (list Z * Z) :=
  let spec := if sp_prec spec =? -1 then set_prec (2 * 8) spec else spec in
  string_nocheck end_ o s spec.

Definition MAX_ERRNO : Z := 4095.
Definition IS_ERR_VALUE (x : Z) : bool := u64 (- MAX_ERRNO) <=? x.

Definition check_pointer_msg (ptr : Z) : option (list Z) :=
  if ptr =? 0 then Some (bytes "(null)"%string ++ [0])
  else if (ptr <? PAGE_SIZE) || IS_ERR_VALUE ptr then Some (bytes "(efault)"%string ++ [0])
  else None.

(** [Some o] is the error return, with the advanced position; [None] is 0. *)
Definition check_pointer (end_ : Z) (o : list Z * Z) (ptr : Z) (spec : printf_spec)
  : outcome (option (list Z * Z)) :=
  match check_pointer_msg ptr with
  | Some err_msg => o ← error_string end_ o err_msg spec; Ret (Some o)
  | None => Ret None
  end.

(** A little-endian 64-bit load; [dma_addr_t] and [phys_addr_t] are 64 bits. *)
Definition rd64 (s : list Z) : outcome Z :=
  b0 ← rd s 0; b1 ← rd s 1; b2 ← rd s 2; b3 ← rd s 3;
  b4 ← rd s 4; b5 ← rd s 5; b6 ← rd s 6; b7 ← rd s 7;
  Ret (b0 + b1 * 2 ^ 8 + b2 * 2 ^ 16 + b3 * 2 ^ 24 +
       b4 * 2 ^ 32 + b5 * 2 ^ 40 + b6 * 2 ^ 48 + b7 * 2 ^ 56).

Section arguments.
(** The memory the arguments point into, and CONFIG_SYMBOLIC_ERRNAME. *)
Variable mem : Z -> list Z.
Variable symbolic : bool.

(** Both cases of the switch on [fmt[1]] load 8 bytes. *)
Definition address_val (end_ : Z) (o : list Z * Z) (addr : Z) (spec : printf_spec)
    (fmt : list Z) (p : Z) : outcome (list Z * Z) :=
  r ← check_pointer end_ o addr spec;
  match r with
  | Some o => Ret o
  | None =>
      c ← rd fmt (p + 1);
      num ← rd64 (mem addr);
      special_hex_number end_ o num 8
  end.

Definition string (end_ : Z) (o : list Z * Z) (s : Z) (spec : printf_spec)
  : outcome (list Z * Z) :=
  r ← check_pointer end_ o s spec;
  match r with
  | Some o => Ret o
  | None => string_nocheck end_ o (mem s) spec
  end.

Definition pointer_string (end_ : Z) (o : list Z * Z) (ptr : Z) (spec : printf_spec)
  : outcome (list Z * Z) :=
  let spec := add_flag SMALL (set_base 16 spec) in
  let spec := if sp_width spec =? -1 then add_flag ZEROPAD (set_width (2 * 8) spec) else spec in
  number end_ o ptr spec.

Definition pointer (fmt : list Z) (p : Z) (end_ : Z) (o : list Z * Z) (ptr : Z)
    (spec : printf_spec) : outcome (list Z * Z) :=
  c ← rd fmt p;
  if c =? chr "a"%char then address_val end_ o ptr spec fmt p
  else if (c =? chr "e"%char) && IS_ERR_VALUE ptr then err_ptr symbolic end_ o ptr spec
  else pointer_string end_ o ptr spec.
End arguments.

(** ** format_decode *)

Definition skip_atoi_turn (fmt : list Z) (st : Z * Z) : outcome (Z * Z + Z * Z) :=
  let '(s, i) := st in
  c ← rd fmt s;
  let i := s32 (i * 10 + c - chr "0"%char) in
  let s := s + 1 in
  d ← rd fmt s;
  Ret (if isdigit d then inl (s, i) else inr (s, i)).

(** Returns the advanced pointer and the number. *)
Definition skip_atoi (fmt : list Z) (s : Z) : outcome (Z * Z) :=
  loop (S (length fmt)) (skip_atoi_turn fmt) (s, 0).

(** From the label [qualifier] on.  The result is the number of characters
    read since [start], and the specification. *)
Definition decode_qualifier (fmt : list Z) (start p : Z) (spec : printf_spec)
  : outcome (Z * printf_spec) :=
  c ← rd fmt p;
  '(p, qualifier) ← (if (c =? chr "h"%char) || (_tolower c =? chr "l"%char) ||
                        (c =? chr "z"%char) || (c =? chr "t"%char) then
                       let p := p + 1 in
                       d ← rd fmt p;
                       Ret (if c =? d then
                              if c =? chr "l"%char then (p + 1, chr "L"%char)
                              else if c =? chr "h"%char then (p + 1, chr "H"%char)
                              else (p, c)
                            else (p, c))
                     else Ret (p, 0));
  let spec := set_base 10 spec in
  c ← rd fmt p;
  let next := p + 1 - start in
  if c =? chr "c"%char then Ret (next, set_type FORMAT_TYPE_CHAR spec)
  else if c =? chr "s"%char then Ret (next, set_type FORMAT_TYPE_STR spec)
  else if c =? chr "p"%char then Ret (next, set_type FORMAT_TYPE_PTR spec)
  else if c =? chr "%"%char then Ret (next, set_type FORMAT_TYPE_PERCENT_CHAR spec)
  else
    let num :=
      if c =? chr "o"%char then Some (set_base 8 spec)
      else if c =? chr "x"%char then Some (set_base 16 (add_flag SMALL spec))
      else if c =? chr "X"%char then Some (set_base 16 spec)
      else if (c =? chr "d"%char) || (c =? chr "i"%char) then Some (add_flag SIGN spec)
      else if c =? chr "u"%char then Some spec
      else None in
    match num with
    | None => Ret (p - start, set_type FORMAT_TYPE_INVALID spec)
    | Some spec =>
        let sign := Z.land (sp_flags spec) SIGN in
        Ret (next,
             if qualifier =? chr "L"%char then set_type FORMAT_TYPE_LONG_LONG spec
             else if qualifier =? chr "l"%char then set_type (FORMAT_TYPE_ULONG + sign) spec
             else if qualifier =? chr "z"%char then set_type FORMAT_TYPE_SIZE_T spec
             else if qualifier =? chr "t"%char then set_type FORMAT_TYPE_PTRDIFF spec
             else if qualifier =? chr "H"%char then set_type (FORMAT_TYPE_UBYTE + sign) spec
             else if qualifier =? chr "h"%char then set_type (FORMAT_TYPE_USHORT + sign) spec
             else set_type (FORMAT_TYPE_UINT + sign) spec)
    end.

(** From the label [precision] on. *)
Definition decode_precision (fmt : list Z) (start p : Z) (spec : printf_spec)
  : outcome (Z * printf_spec) :=
  let spec := set_prec (-1) spec in
  c ← rd fmt p;
  if c =? chr "."%char then
    let p := p + 1 in
    d ← rd fmt p;
    if isdigit d then
      '(p, n) ← skip_atoi fmt p;
      let spec := set_prec n spec in
      let spec := if sp_prec spec <? 0 then set_prec 0 spec else spec in
      decode_qualifier fmt start p spec
    else if d =? chr "*"%char then Ret (p + 1 - start, set_type FORMAT_TYPE_PRECISION spec)
    else decode_qualifier fmt start p spec
  else decode_qualifier fmt start p spec.

(** The characters up to the next '%' or the end. *)
Definition literal_turn (fmt : list Z) (p : Z) : outcome (Z + Z * Z) :=
  c ← rd fmt p;
  Ret (if (c =? 0) || (c =? chr "%"%char) then inr (p, c) else inl (p + 1)).

(** The loop over the flags, which first skips the percent sign. *)
Definition flags_turn (fmt : list Z) (st : Z * printf_spec)
  : outcome (Z * printf_spec + Z * Z * printf_spec) :=
  let '(p, spec) := st in
  let p := p + 1 in
  c ← rd fmt p;
  Ret (if c =? chr "-"%char then inl (p, add_flag LEFT spec)
       else if c =? chr "+"%char then inl (p, add_flag PLUS spec)
       else if c =? chr " "%char then inl (p, add_flag SPACE spec)
       else if c =? chr "#"%char then inl (p, add_flag SPECIAL spec)
       else if c =? chr "0"%char then inl (p, add_flag ZEROPAD spec)
       else inr (p, c, spec)).

Definition format_decode (fmt : list Z) (start : Z) (spec : printf_spec)
  : outcome (Z * printf_spec) :=
  if sp_type spec =? FORMAT_TYPE_WIDTH then
    let spec :=
      if sp_width spec <? 0 then add_flag LEFT (set_width (- sp_width spec) spec) else spec in
    decode_precision fmt start start (set_type FORMAT_TYPE_NONE spec)
  else if sp_type spec =? FORMAT_TYPE_PRECISION then
    let spec := if sp_prec spec <? 0 then set_prec 0 spec else spec in
    decode_qualifier fmt start start (set_type FORMAT_TYPE_NONE spec)
  else
    let spec := set_type FORMAT_TYPE_NONE spec in
    '(p, c) ← loop (S (length fmt)) (literal_turn fmt) start;
    if negb (p =? start) || (c =? 0) then Ret (p - start, spec)
    else
      let spec := set_flags 0 spec in
      '(p, c, spec) ← loop (S (length fmt)) (flags_turn fmt) (p, spec);
      let spec := set_width (-1) spec in
      if isdigit c then
        '(p, n) ← skip_atoi fmt p;
        decode_precision fmt start p (set_width n spec)
      else if c =? chr "*"%char then Ret (p + 1 - start, set_type FORMAT_TYPE_WIDTH spec)
      else decode_precision fmt start p spec.

Definition set_field_width (spec : printf_spec) (width : Z) : printf_spec :=
  let spec := set_width width spec in
  if negb (sp_width spec =? width)
  then set_width (clamp width (- FIELD_WIDTH_MAX) FIELD_WIDTH_MAX) spec else spec.

Definition set_precision (spec : printf_spec) (prec : Z) : printf_spec :=
  let spec := set_prec prec spec in
  if negb (sp_prec spec =? prec) then set_prec (clamp prec 0 PRECISION_MAX) spec else spec.

(** ** vsnprintf *)

(** [va_arg]: the next slot. *)
Definition va_arg (args : list Z) : outcome (Z * list Z) :=
  match args with
  | a :: args => Ret (a, args)
  | [] => Fault
  end.

(** [while (--spec.field_width > 0) putc(' ')] on the 24-bit field. *)
Definition char_pad_turn (end_ : Z) (st : printf_spec * (list Z * Z))
  : outcome (printf_spec * (list Z * Z) + printf_spec * (list Z * Z)) :=
  let '(spec, o) := st in
  let spec := set_width (sp_width spec - 1) spec in
  if 0 <? sp_width spec then o ← putc end_ (chr " "%char) o; Ret (inl (spec, o))
  else Ret (inr (spec, o)).

Definition char_pad (end_ : Z) (spec : printf_spec) (o : list Z * Z)
  : outcome (printf_spec * (list Z * Z)) :=
  loop (S (Z.to_nat (sx24 (sp_width spec - 1)))) (char_pad_turn end_) (spec, o).

(** [while (isalnum( *fmt)) fmt++] *)
Definition alnum_turn (fmt : list Z) (p : Z) : outcome (Z + Z) :=
  c ← rd fmt p; Ret (if isalnum c then inl (p + 1) else inr p).

(** The inner switch: the argument as the type says, then extended to
    [unsigned long long]. *)
Definition integer_arg (ty flags a : Z) : Z :=
  if ty =? FORMAT_TYPE_LONG_LONG then a
  else if ty =? FORMAT_TYPE_ULONG then a
  else if ty =? FORMAT_TYPE_LONG then u64 (s64 a)
  else if ty =? FORMAT_TYPE_SIZE_T then
    if negb (Z.land flags SIGN =? 0) then u64 (s64 a) else a
  else if ty =? FORMAT_TYPE_PTRDIFF then u64 (s64 a)
  else if ty =? FORMAT_TYPE_UBYTE then u8 (s32 a)
  else if ty =? FORMAT_TYPE_BYTE then u64 ((s32 a + 2 ^ 7) mod 2 ^ 8 - 2 ^ 7)
  else if ty =? FORMAT_TYPE_USHORT then u16 (s32 a)
  else if ty =? FORMAT_TYPE_SHORT then u64 ((s32 a + 2 ^ 15) mod 2 ^ 16 - 2 ^ 15)
  else if ty =? FORMAT_TYPE_INT then u64 (s32 a)
  else u32 a.

Section vsnprintf.
Variable mem : Z -> list Z.
Variable symbolic : bool.

(** The cases of the switch that print a conversion: the format is already
    advanced to [p] behind the directive. *)
Definition convert (end_ : Z) (fmt : list Z) (p : Z) (spec : printf_spec) (args : list Z)
    (o : list Z * Z)
  : outcome (Z * printf_spec * list Z * (list Z * Z) + list Z * Z) :=
  let ty := sp_type spec in
  if ty =? FORMAT_TYPE_CHAR then
    '(spec, o) ← (if negb (flag spec LEFT) then char_pad end_ spec o else Ret (spec, o));
    '(a, args) ← va_arg args;
    o ← putc end_ (u8 (s32 a)) o;
    '(spec, o) ← char_pad end_ spec o;
    Ret (inl (p, spec, args, o))
  else if ty =? FORMAT_TYPE_STR then
    '(a, args) ← va_arg args;
    o ← string mem end_ o a spec;
    Ret (inl (p, spec, args, o))
  else if ty =? FORMAT_TYPE_PTR then
    '(a, args) ← va_arg args;
    o ← pointer mem symbolic fmt p end_ o a spec;
    p ← loop (S (length fmt)) (alnum_turn fmt) p;
    Ret (inl (p, spec, args, o))
  else if ty =? FORMAT_TYPE_PERCENT_CHAR then
    o ← putc end_ (chr "%"%char) o;
    Ret (inl (p, spec, args, o))
  else if ty =? FORMAT_TYPE_INVALID then Ret (inr o)
  else
    '(a, args) ← va_arg args;
    o ← number end_ o (integer_arg ty (sp_flags spec) a) spec;
    Ret (inl (p, spec, args, o)).

(** One turn of [while ( *fmt)]: the position in the format, the
    specification, the remaining arguments, and the output. *)
Definition vsnprintf_turn (end_ : Z) (fmt : list Z)
    (st : Z * printf_spec * list Z * (list Z * Z))
  : outcome (Z * printf_spec * list Z * (list Z * Z) + list Z * Z) :=
  let '(p, spec, args, o) := st in
  c ← rd fmt p;
  if c =? 0 then Ret (inr o)
  else
    let old_fmt := p in
    '(read, spec) ← format_decode fmt p spec;
    let p := p + read in
    let ty := sp_type spec in
    if ty =? FORMAT_TYPE_NONE then
      let '(b, str) := o in
      b ← (if str <? end_ then
             let copy := if end_ - str <? read then s32 (end_ - str) else read in
             memcpy b str fmt old_fmt copy
           else Ret b);
      Ret (inl (p, spec, args, (b, str + read)))
    else if ty =? FORMAT_TYPE_WIDTH then
      '(a, args) ← va_arg args;
      Ret (inl (p, set_field_width spec (s32 a), args, o))
    else if ty =? FORMAT_TYPE_PRECISION then
      '(a, args) ← va_arg args;
      Ret (inl (p, set_precision spec (s32 a), args, o))
    else convert end_ fmt p spec args o.

(** [addr] is the address of [buf], needed only for the check that
    [buf + size] does not wrap. *)
Definition vsnprintf (addr : Z) (buf : list Z) (size : Z) (fmt args : list Z)
  : outcome (list Z * Z) :=
  if 2 ^ 31 - 1 <? size then Ret (buf, 0)
  else
    let '(end_, size) :=
      if u64 (addr + size) <? addr then (2 ^ 64 - 1 - addr, 2 ^ 64 - 1 - addr) else (size, size) in
    '(b, str) ← loop (S (length fmt)) (vsnprintf_turn end_ fmt)
                  (0, mk_spec 0 0 0 0 0, args, (buf, 0));
    b ← (if 0 <? size then
           if str <? end_ then wr b str 0 else wr b (end_ - 1) 0
         else Ret b);
    Ret (b, s32 str).

(** The comparison [i < size] of an [int] with a [size_t]. *)
Definition vscnprintf (addr : Z) (buf : list Z) (size : Z) (fmt args : list Z)
  : outcome (list Z * Z) :=
  '(b, i) ← vsnprintf addr buf size fmt args;
  if u64 i <? size then Ret (b, i)
  else if negb (size =? 0) then Ret (b, s32 (size - 1))
  else Ret (b, 0).

Definition snprintf (addr : Z) (buf : list Z) (size : Z) (fmt args : list Z)
  : outcome (list Z * Z) := vsnprintf addr buf size fmt args.

Definition scnprintf (addr : Z) (buf : list Z) (size : Z) (fmt args : list Z)
  : outcome (list Z * Z) := vscnprintf addr buf size fmt args.

Definition vsprintf (addr : Z) (buf fmt args : list Z) : outcome (list Z * Z) :=
  vsnprintf addr buf (2 ^ 31 - 1) fmt args.

Definition sprintf (addr : Z) (buf fmt args : list Z) : outcome (list Z * Z) :=
  vsnprintf addr buf (2 ^ 31 - 1) fmt args.
End vsnprintf.
