(* ===== verification/PrintDigits.v ===== *)
(** * Digits of a number

    The digits of a number in any radix, least significant first, and the
    conversions of vsprintf.c against them: the decimal one by pairs, with its
    divisions by multiplication, and the shifts of the radixes 8 and 16. *)
From Stdlib Require Import ZArith Lia Ascii.
From stdpp Require Import base numbers list option strings.
From S2P Require Import Prelude SortHeap Ctype KstrtoxFacts Vsprintf.

(** ** Reference digits *)

Fixpoint le_digits_fuel (fuel : nat) (b n : Z) : list Z :=
  match fuel with
  | O => []
  | S fuel => if n <? b then [n] else n mod b :: le_digits_fuel fuel b (n / b)
  end.

(** The digits of [n], least significant first; 0 has the digit 0. *)
Definition le_digits (b n : Z) : list Z := le_digits_fuel (S (Z.to_nat (Z.log2 n))) b n.

Lemma le_digits_fuel_S f b n :
  le_digits_fuel (S f) b n = if n <? b then [n] else n mod b :: le_digits_fuel f b (n / b).
Proof. reflexivity. Qed.

Lemma le_digits_fuel_enough b f f' n :
  2 <= b -> 0 <= n < 2 ^ Z.of_nat f -> (0 < f)%nat -> (f <= f')%nat ->
  le_digits_fuel f b n = le_digits_fuel f' b n.
Proof.
  intros Hb. revert f' n. induction f as [|f IH]; intros f' n Hn Hf Hle; [lia|].
  destruct f' as [|f']; [lia|]. simpl. destruct (Z.ltb_spec n b); [done|]. f_equal.
  assert (n / b < 2 ^ Z.of_nat f).
  { apply Z.div_lt_upper_bound; [lia|].
    rewrite Nat2Z.inj_succ, Z.pow_succ_r in Hn by lia. nia. }
  assert (1 <= n / b) by (apply Z.div_le_lower_bound; lia).
  destruct f as [|f]; [simpl in *; lia|]. apply IH; lia.
Qed.

Lemma le_digits_any f b n :
  2 <= b -> 0 <= n < 2 ^ Z.of_nat f -> le_digits b n = le_digits_fuel (S f) b n.
Proof.
  intros Hb Hn. unfold le_digits. pose proof (Z.log2_nonneg n).
  destruct (Z.eq_dec n 0) as [->|Hne].
  { simpl. by rewrite (proj2 (Z.ltb_lt 0 b)) by lia. }
  pose proof (Z.log2_spec n ltac:(lia)) as Hl.
  assert (Z.log2 n < Z.of_nat f) by (apply Z.log2_lt_pow2; lia).
  apply le_digits_fuel_enough; [done| |lia|lia].
  rewrite Nat2Z.inj_succ, Z2Nat.id by lia. lia.
Qed.

Lemma le_digits_small b n : 0 <= n < b -> le_digits b n = [n].
Proof. intros. unfold le_digits. simpl. by zdec. Qed.

Lemma le_digits_cons b d q :
  2 <= b -> 0 <= d < b -> 0 < q -> le_digits b (d + b * q) = d :: le_digits b q.
Proof.
  intros Hb Hd Hq. pose proof (Z.log2_spec q Hq) as Hl. pose proof (Z.log2_nonneg q).
  set (f := Z.to_nat (Z.log2 q + 1)).
  assert (Hqf : q < 2 ^ Z.of_nat f) by (subst f; rewrite Z2Nat.id by lia; rewrite Z.add_1_r; lia).
  rewrite (le_digits_any f b q) by lia.
  set (f' := Z.to_nat (Z.log2 (d + b * q) + 1)).
  assert (Hn : 0 < d + b * q) by nia.
  pose proof (Z.log2_spec _ Hn). pose proof (Z.log2_nonneg (d + b * q)).
  assert (d + b * q < 2 ^ Z.of_nat f') by (subst f'; rewrite Z2Nat.id by lia; rewrite Z.add_1_r; lia).
  rewrite (le_digits_any (S (f + f')) b (d + b * q)).
  2:{ done. }
  2:{ split; [lia|]. eapply Z.lt_le_trans; [eassumption|]. apply Z.pow_le_mono_r; lia. }
  rewrite le_digits_fuel_S, (proj2 (Z.ltb_ge _ _)) by nia.
  assert (Hdiv : (d + b * q) / b = q) by (symmetry; apply Z.div_unique with d; lia).
  assert (Hmod : (d + b * q) mod b = d) by (symmetry; apply Z.mod_unique with q; lia).
  rewrite Hdiv, Hmod. f_equal. symmetry. apply le_digits_fuel_enough; [done| |lia|lia].
  rewrite Nat2Z.inj_succ, Z.pow_succ_r by lia. lia.
Qed.

Lemma le_digits_step b n :
  2 <= b -> b <= n -> le_digits b n = n mod b :: le_digits b (n / b).
Proof.
  intros Hb Hn. pose proof (Z.mod_pos_bound n b ltac:(lia)).
  assert (1 <= n / b) by (apply Z.div_le_lower_bound; lia).
  rewrite <- (le_digits_cons b (n mod b) (n / b)) by lia. f_equal.
  pose proof (Z.div_mod n b). lia.
Qed.

(** Induction on the digits. *)
Lemma digits_ind b (P : Z -> Prop) :
  2 <= b -> (forall n, 0 <= n < b -> P n) ->
  (forall n, b <= n -> P (n / b) -> P n) -> forall n, 0 <= n -> P n.
Proof.
  intros Hb Hs Hi n Hn. cut (0 <= n -> P n); [auto|].
  apply (Z_lt_induction (fun n => 0 <= n -> P n)); [|exact Hn].
  intros k IH Hk. destruct (Z.lt_ge_cases k b); [apply Hs; lia|].
  assert (0 <= k / b < k) by (split; [apply Z.div_pos|apply Z.div_lt]; lia).
  apply Hi; [done|]. apply IH; lia.
Qed.

Lemma le_digits_range b n : 2 <= b -> 0 <= n -> Forall (fun d => 0 <= d < b) (le_digits b n).
Proof.
  intros Hb Hn. pattern n. revert n Hn. apply (digits_ind b); [done|..].
  - intros n Hn. rewrite le_digits_small by lia. constructor; [lia|constructor].
  - intros n Hn IH. rewrite le_digits_step by lia. constructor; [|done]. apply Z.mod_pos_bound. lia.
Qed.

(** The value of the digits, most significant first, is the number. *)
Lemma numval_le_digits b n : 2 <= b -> 0 <= n -> numval b (rev (le_digits b n)) = n.
Proof.
  intros Hb Hn. pattern n. revert n Hn. apply (digits_ind b); [done|..].
  - intros n Hn. rewrite le_digits_small by lia. unfold numval. simpl. lia.
  - intros n Hn IH. rewrite le_digits_step by lia. simpl. rewrite numval_snoc, IH.
    pose proof (Z.div_mod n b). lia.
Qed.

(** No leading zero. *)
Lemma le_digits_last b n :
  2 <= b -> 0 < n -> exists ds d, le_digits b n = ds ++ [d] /\ 0 < d < b.
Proof.
  intros Hb Hn. assert (H : 0 <= n) by lia. revert Hn. pattern n. revert n H.
  apply (digits_ind b); [done|..].
  - intros n Hn H0. rewrite le_digits_small by lia. exists [], n. split; [done|lia].
  - intros n Hn IH _. rewrite le_digits_step by lia.
    destruct IH as (ds & d & E & Hd); [apply Z.div_str_pos; lia|].
    exists (n mod b :: ds), d. by rewrite E.
Qed.

Lemma le_digits_length b n k :
  2 <= b -> (0 < k)%nat -> 0 <= n < b ^ Z.of_nat k -> (length (le_digits b n) <= k)%nat.
Proof.
  intros Hb. revert n. induction k as [|k IH]; intros n Hk Hn; [lia|].
  destruct (Z.lt_ge_cases n b); [rewrite le_digits_small by lia; simpl; lia|].
  rewrite le_digits_step by lia. simpl. rewrite Nat2Z.inj_succ, Z.pow_succ_r in Hn by lia.
  assert (1 <= n / b) by (apply Z.div_le_lower_bound; lia).
  assert (n / b < b ^ Z.of_nat k) by (apply Z.div_lt_upper_bound; lia).
  destruct k as [|k]; [simpl in *; lia|]. specialize (IH (n / b)). lia.
Qed.

Lemma le_digits_pos b n : (0 < length (le_digits b n))%nat.
Proof. unfold le_digits. simpl. case_match; simpl; lia. Qed.

(** ** Division by multiplication *)

Lemma div100_32 r : 0 <= r < 10 ^ 8 -> Z.shiftr (u64 (r * 0x28f5c29)) 32 = r / 100.
Proof.
  intros Hr. rewrite u64_small, Z.shiftr_div_pow2 by lia.
  pose proof (Z.div_mod r 100). pose proof (Z.mod_pos_bound r 100).
  symmetry. apply Z.div_unique with (r * 0x28f5c29 - r / 100 * 2 ^ 32); lia.
Qed.

Lemma div100_19 r : 0 <= r < 10 ^ 4 -> Z.shiftr (u32 (r * 0x147b)) 19 = r / 100.
Proof.
  intros Hr. rewrite u32_small, Z.shiftr_div_pow2 by lia.
  pose proof (Z.div_mod r 100). pose proof (Z.mod_pos_bound r 100).
  symmetry. apply Z.div_unique with (r * 0x147b - r / 100 * 2 ^ 19); lia.
Qed.

(** The two digits of a pair. *)
Lemma decpair_digits v :
  0 <= v < 100 ->
  exists x, rd decpair v = Ret x /\ u8 x = 48 + v mod 10 /\ u8 (Z.shiftr x 8) = 48 + v / 10.
Proof.
  intros Hv. set (ok := fun k => let x := default 0 (decpair !! k) in
    bool_decide (decpair !! k = Some x) && (u8 x =? 48 + Z.of_nat k mod 10) &&
    (u8 (Z.shiftr x 8) =? 48 + Z.of_nat k / 10)).
  assert (Hall : forallb ok (seq 0 100) = true) by (vm_compute; reflexivity).
  rewrite forallb_forall in Hall. specialize (Hall (Z.to_nat v)).
  rewrite in_seq in Hall. specialize (Hall ltac:(lia)). subst ok. cbv beta zeta in Hall.
  rewrite Z2Nat.id in Hall by lia.
  apply andb_true_iff in Hall as [H H3]. apply andb_true_iff in H as [H1 H2].
  apply bool_decide_eq_true_1 in H1. eexists. split; [apply rd_lookup; [lia|exact H1]|]. lia.
Qed.

(** ** put_dec *)

(** The characters of digits, before the case bit is or-ed in. *)
Definition dec_chars (l : list Z) : list Z := map (fun d => 48 + d) l.

Lemma wr_app (ds rest : list Z) x y p :
  p = Z.of_nat (length ds) -> wr (ds ++ x :: rest) p y = Ret (ds ++ y :: rest).
Proof.
  intros ->. rewrite wr_in_range by (rewrite length_app; simpl; lia).
  rewrite Nat2Z.id. by rewrite insert_app_r_alt, Nat.sub_diag by lia.
Qed.

Lemma put_pair_ok ds x y rest p v :
  0 <= v < 100 -> p = Z.of_nat (length ds) ->
  put_pair (ds ++ x :: y :: rest) p v = Ret (ds ++ dec_chars [v mod 10; v / 10] ++ rest).
Proof.
  intros Hv Hp. unfold put_pair. destruct (decpair_digits v Hv) as (d & -> & H0 & H1).
  rewrite bind_ret, H0, H1, (wr_app ds) by done. rewrite bind_ret, (app_snoc ds).
  rewrite (wr_app (ds ++ [_])) by (rewrite length_app; simpl; lia). by rewrite <- app_assoc.
Qed.

(** Writing the digits [l] behind the [ds], within the same array. *)
Definition appended (ds rest : list Z) (l : list Z) (r : outcome (list Z * Z)) : Prop :=
  exists rest', r = Ret (ds ++ dec_chars l ++ rest', Z.of_nat (length ds + length l)) /\
    length rest = (length l + length rest')%nat.

Lemma le_digits_pair r :
  100 <= r ->
  le_digits 10 r = [r mod 100 mod 10; r mod 100 / 10] ++ le_digits 10 (r / 100).
Proof.
  intros Hr. rewrite (le_digits_step 10 r), (le_digits_step 10 (r / 10)) by
    (lia || (apply Z.div_le_lower_bound; lia)).
  rewrite Z.div_div by lia. simpl. f_equal; [|f_equal]; Z.to_euclidean_division_equations; lia.
Qed.

Lemma put_out_r_ok ds rest r p :
  0 <= r < 100 -> (2 <= length rest)%nat -> p = Z.of_nat (length ds) ->
  appended ds rest (le_digits 10 r) (put_out_r (ds ++ rest) p r).
Proof.
  intros Hr Hl Hp. destruct rest as [|x [|y rest]]; simpl in Hl; [lia..|].
  unfold put_out_r. rewrite put_pair_ok by done. rewrite bind_ret.
  destruct (Z.ltb_spec r 10).
  - exists (48 + r / 10 :: rest). rewrite le_digits_small by lia. simpl. split; [|lia].
    rewrite (Z.mod_small r 10) by lia. do 2 f_equal. lia.
  - exists rest. assert (1 <= r / 10 < 10) by (split; [apply Z.div_le_lower_bound|apply Z.div_lt_upper_bound]; lia).
    rewrite le_digits_step, le_digits_small by lia. simpl. split; [|lia]. do 2 f_equal. lia.
Qed.

(** Digits written after a pair. *)
Lemma appended_pair ds x y rest v l r :
  appended (ds ++ dec_chars [v mod 10; v / 10]) rest l r ->
  appended ds (x :: y :: rest) ([v mod 10; v / 10] ++ l) r.
Proof.
  intros (rest' & -> & Hl). exists rest'. split; [|simpl; lia].
  unfold dec_chars. rewrite map_app, <- !app_assoc, !length_app. simpl. do 2 f_equal. lia.
Qed.

Lemma dec_bounds r : 0 <= r -> 0 <= r mod 100 < 100 /\ r - 100 * (r / 100) = r mod 100.
Proof. intros. Z.to_euclidean_division_equations. lia. Qed.

(** One step of the conversions: a pair is stored and the rest follows. *)
Lemma put_dec_step ds rest p r k l :
  0 <= r < 10 ^ 8 -> p = Z.of_nat (length ds) -> (2 <= length rest)%nat ->
  (forall rest0 ds', length rest = S (S (length rest0)) -> length ds' = S (S (length ds)) ->
     appended ds' rest0 l (k (ds' ++ rest0))) ->
  appended ds rest ([r mod 100 mod 10; r mod 100 / 10] ++ l)
    (tmp ← put_pair (ds ++ rest) p (u32 (r - u32 (100 * (r / 100)))); k tmp).
Proof.
  intros Hr Hp Hl Hk. destruct rest as [|x [|y rest]]; simpl in Hl; [lia..|].
  destruct (dec_bounds r) as [Hb He]; [lia|].
  rewrite (u32_small (100 * _)), He, (u32_small (r mod 100)) by (Z.to_euclidean_division_equations; lia).
  rewrite put_pair_ok by done. rewrite bind_ret. apply appended_pair.
  rewrite app_assoc. apply Hk; [done|]. rewrite length_app. simpl. lia.
Qed.

Lemma put_dec_trunc8_ok ds rest r p :
  0 <= r < 10 ^ 8 -> (8 <= length rest)%nat -> p = Z.of_nat (length ds) ->
  appended ds rest (le_digits 10 r) (put_dec_trunc8 (ds ++ rest) p r).
Proof.
  intros Hr Hl Hp. unfold put_dec_trunc8. destruct (Z.ltb_spec r 100).
  { apply put_out_r_ok; lia. }
  rewrite le_digits_pair, div100_32, u32_small by (lia || Z.to_euclidean_division_equations; lia).
  apply put_dec_step; [lia|done|lia|]. intros rest1 ds1 Hl1 Hd1.
  assert (1 <= r / 100 < 10 ^ 6) by (Z.to_euclidean_division_equations; lia).
  destruct (Z.ltb_spec (r / 100) 100).
  { apply put_out_r_ok; lia. }
  rewrite le_digits_pair, div100_32, u32_small by (lia || Z.to_euclidean_division_equations; lia).
  apply put_dec_step; [lia|lia|lia|]. intros rest2 ds2 Hl2 Hd2.
  assert (1 <= r / 100 / 100 < 10 ^ 4) by (Z.to_euclidean_division_equations; lia).
  destruct (Z.ltb_spec (r / 100 / 100) 100).
  { apply put_out_r_ok; lia. }
  rewrite le_digits_pair, div100_19 by (lia || Z.to_euclidean_division_equations; lia).
  apply put_dec_step; [lia|lia|lia|]. intros rest3 ds3 Hl3 Hd3.
  apply put_out_r_ok; [Z.to_euclidean_division_equations; lia|lia|lia].
Qed.

(** The eight digits of a full group. *)
Definition full8 (r : Z) : list Z :=
  [r mod 100 mod 10; r mod 100 / 10] ++
  [r / 100 mod 100 mod 10; r / 100 mod 100 / 10] ++
  [r / 100 / 100 mod 100 mod 10; r / 100 / 100 mod 100 / 10] ++
  [r / 100 / 100 / 100 mod 10; r / 100 / 100 / 100 / 10].

Lemma put_dec_full8_ok ds rest r p :
  0 <= r < 10 ^ 8 -> (8 <= length rest)%nat -> p = Z.of_nat (length ds) ->
  appended ds rest (full8 r) (put_dec_full8 (ds ++ rest) p r).
Proof.
  intros Hr Hl Hp. unfold put_dec_full8, full8.
  assert (0 <= r / 100 < 10 ^ 6) by (Z.to_euclidean_division_equations; lia).
  assert (0 <= r / 100 / 100 < 10 ^ 4) by (Z.to_euclidean_division_equations; lia).
  rewrite (div100_32 r), (u32_small (r / 100)), (div100_32 (r / 100)), (u32_small (r / 100 / 100)),
    (div100_19 (r / 100 / 100)) by lia.
  apply put_dec_step; [lia|done|lia|]. intros rest1 ds1 Hl1 Hd1.
  apply put_dec_step; [lia|lia|lia|]. intros rest2 ds2 Hl2 Hd2.
  apply put_dec_step; [lia|lia|lia|]. intros rest3 ds3 Hl3 Hd3.
  assert (0 <= r / 100 / 100 / 100 < 100) by (Z.to_euclidean_division_equations; lia).
  destruct rest3 as [|x [|y rest3]]; simpl in *; [lia..|].
  rewrite put_pair_ok by lia. rewrite bind_ret. exists rest3. split; [|simpl; lia].
  do 2 f_equal. simpl. lia.
Qed.

Lemma le_digits_full8 n :
  10 ^ 8 <= n -> le_digits 10 n = full8 (n mod 10 ^ 8) ++ le_digits 10 (n / 10 ^ 8).
Proof.
  intros Hn. assert (H1 : 10 ^ 6 <= n / 100) by (apply Z.div_le_lower_bound; lia).
  assert (H2 : 10 ^ 4 <= n / 100 / 100) by (apply Z.div_le_lower_bound; lia).
  assert (H3 : 100 <= n / 100 / 100 / 100) by (apply Z.div_le_lower_bound; lia).
  rewrite (le_digits_pair n), (le_digits_pair (n / 100)), (le_digits_pair (n / 100 / 100)),
    (le_digits_pair (n / 100 / 100 / 100)) by lia.
  unfold full8. rewrite <- !app_assoc.
  assert (E0 : n mod 10 ^ 8 mod 100 = n mod 100) by (Z.to_euclidean_division_equations; lia).
  assert (E1 : n mod 10 ^ 8 / 100 mod 100 = n / 100 mod 100) by (Z.to_euclidean_division_equations; lia).
  assert (E2 : n mod 10 ^ 8 / 100 / 100 mod 100 = n / 100 / 100 mod 100)
    by (rewrite !Z.div_div by lia; Z.to_euclidean_division_equations; lia).
  assert (E3 : n mod 10 ^ 8 / 100 / 100 / 100 = n / 100 / 100 / 100 mod 100)
    by (rewrite !Z.div_div by lia; Z.to_euclidean_division_equations; lia).
  rewrite E0, E1, E2, E3. rewrite !Z.div_div by lia. done.
Qed.

Lemma appended_bind ds rest l1 l2 r k :
  appended ds rest l1 r ->
  (forall ds' rest' p, length rest = (length l1 + length rest')%nat ->
     p = Z.of_nat (length ds') -> length ds' = (length ds + length l1)%nat ->
     appended ds' rest' l2 (k (ds' ++ rest', p))) ->
  appended ds rest (l1 ++ l2) (r ≫= k).
Proof.
  intros (rest1 & -> & Hl) Hk. rewrite bind_ret, app_assoc.
  destruct (Hk (ds ++ dec_chars l1) rest1 (Z.of_nat (length ds + length l1)) Hl) as (rest2 & -> & Hl2).
  - unfold dec_chars. by rewrite length_app, length_map.
  - unfold dec_chars. by rewrite length_app, length_map.
  - exists rest2. unfold dec_chars. rewrite map_app, <- !app_assoc, !length_app, length_map.
    split; [do 2 f_equal; lia|lia].
Qed.

Lemma appended_ret ds rest p r :
  p = Z.of_nat (length ds) -> r = Ret (ds ++ rest, p) -> appended ds rest [] r.
Proof. intros -> ->. exists rest. simpl. by rewrite Nat.add_0_r. Qed.

Lemma put_dec_ok n :
  0 <= n < 2 ^ 64 -> appended [] tmp_init (le_digits 10 n) (put_dec tmp_init 0 n).
Proof.
  intros Hn. unfold put_dec, do_div. change (100 * 1000 * 1000) with (10 ^ 8).
  change tmp_init with ([] ++ tmp_init) at 2. generalize (length_replicate 24 (0 : Z)).
  fold tmp_init. generalize tmp_init. intros rest Hlen.
  pose proof (Z.mod_pos_bound n (10 ^ 8) ltac:(lia)).
  destruct (Z.leb_spec (10 ^ 8) n); rewrite ?bind_assoc.
  2:{ rewrite !bind_ret. destruct (Z.leb_spec (10 ^ 8) n); [lia|]. rewrite bind_ret.
      rewrite u32_small by lia. apply put_dec_trunc8_ok; simpl; lia. }
  rewrite le_digits_full8 by lia.
  eapply appended_bind; [apply put_dec_full8_ok; simpl; lia|].
  intros ds1 rest1 p1 Hl1 Hp1 Hd1. simpl in Hl1, Hd1. rewrite bind_ret.
  assert (1 <= n / 10 ^ 8 < 2 * 10 ^ 11) by (Z.to_euclidean_division_equations; lia).
  set (n1 := n / 10 ^ 8) in *. pose proof (Z.mod_pos_bound n1 (10 ^ 8) ltac:(lia)).
  destruct (Z.leb_spec (10 ^ 8) n1); rewrite ?bind_assoc.
  2:{ rewrite !bind_ret. rewrite u32_small by lia. apply put_dec_trunc8_ok; lia. }
  rewrite le_digits_full8 by lia.
  eapply appended_bind; [apply put_dec_full8_ok; lia|].
  intros ds2 rest2 p2 Hl2 Hp2 Hd2. simpl in Hl2, Hd2. rewrite bind_ret.
  assert (1 <= n1 / 10 ^ 8 < 2000) by (Z.to_euclidean_division_equations; lia).
  rewrite u32_small by lia. apply put_dec_trunc8_ok; lia.
Qed.

(** ** The digit characters of number *)

Definition digit_char (locase d : Z) : Z := Z.lor (nth (Z.to_nat d) hex_asc_upper 0) locase.

Lemma hex_asc_upper_rd d : 0 <= d < 16 -> rd hex_asc_upper d = Ret (nth (Z.to_nat d) hex_asc_upper 0).
Proof.
  intros Hd. apply rd_lookup; [lia|]. rewrite nth_lookup.
  destruct (lookup_lt_is_Some_2 hex_asc_upper (Z.to_nat d)) as [x ->]; [simpl; lia|]. done.
Qed.

Lemma dec_chars_digit_char locase l :
  locase = 0 \/ locase = 32 -> Forall (fun d => 0 <= d < 10) l ->
  dec_chars l = map (digit_char locase) l.
Proof.
  intros Hlc H. unfold dec_chars. induction H as [|d l Hd _ IH]; [done|]. simpl. rewrite IH.
  f_equal. assert (E : forall k, (k < 10)%nat -> 48 + Z.of_nat k = digit_char locase (Z.of_nat k)).
  { intros k Hk. do 10 (destruct k as [|k]; [by destruct Hlc as [-> | ->]|]). lia. }
  specialize (E (Z.to_nat d) ltac:(lia)). by rewrite Z2Nat.id in E by lia.
Qed.

(** The characters are read as the digits they stand for. *)
Lemma digit_val_digit_char locase d :
  locase = 0 \/ locase = 32 -> 0 <= d < 16 -> digit_val (digit_char locase d) = Some d.
Proof.
  intros Hlc Hd. assert (E : forall k, (k < 16)%nat ->
    digit_val (digit_char locase (Z.of_nat k)) = Some (Z.of_nat k)).
  { intros k Hk. do 16 (destruct k as [|k]; [by destruct Hlc as [-> | ->]|]). lia. }
  specialize (E (Z.to_nat d) ltac:(lia)). by rewrite Z2Nat.id in E by lia.
Qed.

Lemma oct_hex_turn_ok b shift locase ds x rest i n :
  (b = 8 /\ shift = 3) \/ (b = 16 /\ shift = 4) -> i = Z.of_nat (length ds) -> 0 <= n ->
  oct_hex_turn (b - 1) shift locase (ds ++ x :: rest, i, n) =
    let tmp := ds ++ digit_char locase (n mod b) :: rest in
    Ret (if n / b =? 0 then inr (tmp, i + 1) else inl (tmp, i + 1, n / b)).
Proof.
  intros Hb Hi Hn. assert (Hpow : b = 2 ^ shift) by (by destruct Hb as [[-> ->]|[-> ->]]).
  assert (Hs : 3 <= shift <= 4) by lia. unfold oct_hex_turn.
  assert (Hm : Z.land (u8 n) (b - 1) = n mod b).
  { rewrite Hpow. replace (2 ^ shift - 1) with (Z.ones shift) by (rewrite Z.ones_equiv; lia).
    rewrite Z.land_ones by lia. unfold u8. apply Z.mod_mod_divide.
    exists (2 ^ (8 - shift)). rewrite <- Z.pow_add_r by lia. f_equal. lia. }
  pose proof (Z.mod_pos_bound n b ltac:(lia)).
  rewrite Hm, hex_asc_upper_rd by lia. rewrite bind_ret, (wr_app ds) by done. rewrite bind_ret.
  by rewrite Z.shiftr_div_pow2, <- Hpow by lia.
Qed.

Lemma oct_hex_loop b shift locase :
  (b = 8 /\ shift = 3) \/ (b = 16 /\ shift = 4) ->
  forall n, 0 <= n -> forall fuel ds rest i,
  i = Z.of_nat (length ds) -> (length (le_digits b n) <= length rest)%nat ->
  (length (le_digits b n) <= fuel)%nat ->
  exists rest', loop fuel (oct_hex_turn (b - 1) shift locase) (ds ++ rest, i, n) =
    Ret (ds ++ map (digit_char locase) (le_digits b n) ++ rest',
         Z.of_nat (length ds + length (le_digits b n))).
Proof.
  intros Hb. assert (H2 : 2 <= b) by lia.
  intros n Hn. pattern n. revert n Hn. apply (digits_ind b); [done|..].
  - intros n Hn fuel ds rest i Hi Hr Hf. rewrite le_digits_small in * by lia. simpl in Hr, Hf.
    destruct fuel as [|fuel]; [lia|]. destruct rest as [|x rest]; simpl in Hr; [lia|].
    pose proof (oct_hex_turn_ok b shift locase ds x rest i n Hb Hi ltac:(lia)) as E. cbv zeta in E.
    rewrite Z.div_small, Z.mod_small in E by lia. rewrite (loop_inr _ _ _ _ E).
    exists rest. simpl. do 2 f_equal. lia.
  - intros n Hn IH fuel ds rest i Hi Hr Hf. rewrite le_digits_step in * by lia. simpl in Hr, Hf.
    destruct fuel as [|fuel]; [lia|]. destruct rest as [|x rest]; simpl in Hr; [lia|].
    assert (1 <= n / b) by (apply Z.div_le_lower_bound; lia).
    pose proof (oct_hex_turn_ok b shift locase ds x rest i n Hb Hi ltac:(lia)) as E. cbv zeta in E.
    rewrite (proj2 (Z.eqb_neq _ 0)), (app_snoc ds (digit_char locase (n mod b))) in E by lia.
    rewrite (loop_inl _ _ _ _ E).
    destruct (IH fuel (ds ++ [digit_char locase (n mod b)]) rest (i + 1)) as (rest' & ->);
      [rewrite length_app; simpl; lia|lia|lia|].
    exists rest'. rewrite <- app_assoc, length_app. simpl. do 2 f_equal. lia.
Qed.
