(* ===== verification/PrintBuffer.v ===== *)
(** * Output through a bounded buffer

    Every output function of vsprintf.c appends a text to what was printed so
    far: the position advances over the whole text, and the buffer receives
    the part of it that lies before [end].  Each function is shown to append
    the text its specification says. *)
From Stdlib Require Import ZArith Lia Ascii.
From stdpp Require Import base numbers list option strings.
From S2P Require Import Prelude SortHeap Ctype KstrtoxFacts Vsprintf PrintDigits.

#[global] Arguments putc : simpl never.
#[global] Arguments pad : simpl never.

(** ** Flags *)

Lemma clear_zeropad f g :
  byte f -> In g [SIGN; LEFT; PLUS; SPACE] ->
  (Z.land (u8 (Z.land f (Z.lnot ZEROPAD))) g =? 0) = (Z.land f g =? 0).
Proof. intros Hf Hg. repeat destruct Hg as [<-|Hg]; try done; all_bytes f Hf. Qed.

Lemma cleared_zeropad f : byte f -> Z.land (u8 (Z.land f (Z.lnot ZEROPAD))) ZEROPAD = 0.
Proof. intros Hf. all_bytes f Hf. Qed.

Lemma zeropad_or_left f :
  byte f -> (Z.land f (Z.lor ZEROPAD LEFT) =? 0) = (Z.land f ZEROPAD =? 0) && (Z.land f LEFT =? 0).
Proof. intros Hf. all_bytes f Hf. Qed.

Lemma zeropad_char f :
  byte f ->
  chr " "%char + Z.land f ZEROPAD = if negb (Z.land f ZEROPAD =? 0) then chr "0"%char else chr " "%char.
Proof. intros Hf. all_bytes f Hf. Qed.

Lemma locase_cases f : byte f -> Z.land f SMALL = 0 \/ Z.land f SMALL = 32.
Proof.
  intros Hf. assert (H : (Z.land f SMALL =? 0) || (Z.land f SMALL =? 32) = true) by all_bytes f Hf.
  apply orb_true_iff in H as [H|H]; apply Z.eqb_eq in H; auto.
Qed.

(** A specification of a number: the radix, and a byte of flags. *)
Definition number_spec (s : printf_spec) : Prop :=
  (sp_base s = 8 \/ sp_base s = 10 \/ sp_base s = 16) /\ byte (sp_flags s) /\ sp_prec s < 2 ^ 15.

(** ** The texts *)

Definition blanks (n : Z) : list Z := replicate (Z.to_nat n) (chr " "%char).

(** The magnitude, and whether a minus is printed. *)
Definition negative (s : printf_spec) (num : Z) : bool := flag s SIGN && (s64 num <? 0).
Definition magnitude (s : printf_spec) (num : Z) : Z :=
  if negative s num then u64 (- num) else num.

Definition sign_text (s : printf_spec) (num : Z) : list Z :=
  if flag s SIGN then
    if s64 num <? 0 then [chr "-"%char]
    else if flag s PLUS then [chr "+"%char]
    else if flag s SPACE then [chr " "%char] else []
  else [].

Definition prefix_text (s : printf_spec) (num : Z) : list Z :=
  if flag s SPECIAL && negb (sp_base s =? 10) then
    if sp_base s =? 16 then [chr "0"%char; Z.lor (chr "X"%char) (Z.land (sp_flags s) SMALL)]
    else if num =? 0 then [] else [chr "0"%char]
  else [].

(** The digits, most significant first, filled with zeros up to the
    precision. *)
Definition digits_text (s : printf_spec) (num : Z) : list Z :=
  let ds := map (digit_char (Z.land (sp_flags s) SMALL))
              (rev (le_digits (sp_base s) (magnitude s num))) in
  replicate (Z.to_nat (sp_prec s) - length ds) (chr "0"%char) ++ ds.

(** A formatted number: sign, prefix and digits, filled to the width by blanks
    on the left, by zeros behind the prefix, or by blanks on the right. *)
Definition number_text (s : printf_spec) (num : Z) : list Z :=
  let front := sign_text s num ++ prefix_text s num in
  let ds := digits_text s num in
  let fill := sp_width s - Z.of_nat (length front + length ds) in
  if flag s LEFT then front ++ ds ++ blanks fill
  else if flag s ZEROPAD then front ++ replicate (Z.to_nat fill) (chr "0"%char) ++ ds
  else blanks fill ++ front ++ ds.

(** The characters of a string, up to its terminator or the limit; [None] if
    neither is found in the readable memory. *)
Fixpoint str_prefix (lim : option nat) (s : list Z) : option (list Z) :=
  match lim with
  | Some O => Some []
  | _ =>
      match s with
      | [] => None
      | c :: s =>
          if c =? 0 then Some []
          else t ← str_prefix (pred <$> lim) s; Some (c :: t)
      end
  end.

Definition str_limit (s : printf_spec) : option nat :=
  if sp_prec s <? 0 then None else Some (Z.to_nat (sp_prec s)).

Definition padded (s : printf_spec) (t : list Z) : list Z :=
  let fill := blanks (sp_width s - Z.of_nat (length t)) in
  if flag s LEFT then t ++ fill else fill ++ t.

Definition string_text (s : printf_spec) (l : list Z) : option (list Z) :=
  padded s <$> str_prefix (str_limit s) l.

Section buffer.
(** The buffer before the call, and [end]. *)
Variable b0 : list Z.
Variable end_ : Z.
Hypothesis Hend : 0 <= end_.

(** The state after [out] has been printed. *)
Definition printed (out : list Z) : list Z * Z :=
  (take (Z.to_nat end_) out ++ drop (length (take (Z.to_nat end_) out)) b0,
   Z.of_nat (length out)).

(** The part of [out] before [end] lies in the buffer. *)
Definition room (out : list Z) : Prop :=
  Z.min (Z.of_nat (length out)) end_ <= Z.of_nat (length b0).

Lemma room_app_l out t : room (out ++ t) -> room out.
Proof using. clear Hend. unfold room. rewrite length_app. lia. Qed.

Lemma printed_nil : printed [] = (b0, 0).
Proof. unfold printed. rewrite take_nil. simpl. by rewrite drop_0. Qed.

Lemma printed_length out : room out -> length (fst (printed out)) = length b0.
Proof using Hend.
  unfold room, printed. intros H. simpl. rewrite length_app, length_drop, length_take. lia.
Qed.

Lemma putc_ok c out :
  room (out ++ [c]) -> putc end_ c (printed out) = Ret (printed (out ++ [c])).
Proof using Hend.
  unfold room. rewrite length_app. intros H. simpl in H. unfold putc, printed.
  destruct (Z.ltb_spec (Z.of_nat (length out)) end_).
  - rewrite !take_ge by (rewrite ?length_app; simpl; lia).
    destruct (lookup_lt_is_Some_2 b0 (length out)) as [x Hx]; [lia|].
    rewrite (drop_S _ _ _ Hx), (wr_app out) by done. rewrite bind_ret.
    rewrite length_app. simpl. rewrite <- app_assoc, Nat.add_1_r. simpl. do 2 f_equal. lia.
  - rewrite bind_ret. rewrite take_app_le by lia. do 2 f_equal. rewrite length_app. simpl. lia.
Qed.

(** The loops that print one character over and over: [mu] turns are left
    in the loop state [s], whose invariant is [P]. *)
Lemma fill_loop {St R} (P : St -> Prop) (mu : St -> nat) (fin : St -> list Z * Z -> R)
    (body : St * (list Z * Z) -> outcome (St * (list Z * Z) + R)) c :
  (forall s o, P s -> mu s = O -> body (s, printed o) = Ret (inr (fin s (printed o)))) ->
  (forall s o k, P s -> mu s = S k -> room (o ++ [c]) ->
    exists s', P s' /\ mu s' = k /\ body (s, printed o) = Ret (inl (s', printed (o ++ [c])))) ->
  forall s out, P s -> room (out ++ replicate (mu s) c) ->
  exists s', P s' /\ mu s' = O /\ (mu s = O -> s' = s) /\
    loop (S (mu s)) body (s, printed out) = Ret (fin s' (printed (out ++ replicate (mu s) c))).
Proof using Hend.
  intros Hstop Hstep s out HP Hr. remember (mu s) as k eqn:Hk. symmetry in Hk. revert s out HP Hk Hr.
  induction k as [|k IH]; intros s out HP Hk Hr.
  - exists s. repeat split; try done. simpl replicate. rewrite app_nil_r. apply loop_inr. by apply Hstop.
  - simpl replicate in *. rewrite app_snoc in Hr |- *.
    destruct (Hstep s out k HP Hk) as (s' & HP' & Hk' & E); [by eapply room_app_l|].
    destruct (IH s' (out ++ [c]) HP' Hk' Hr) as (s2 & HP2 & Hk2 & _ & E2).
    exists s2. repeat split; try done. by rewrite (loop_inl _ _ _ _ E).
Qed.

Lemma pad_ok c out n :
  room (out ++ replicate (Z.to_nat n) c) ->
  pad end_ c n (printed out) = Ret (printed (out ++ replicate (Z.to_nat n) c)).
Proof using Hend.
  intros Hr. unfold pad.
  destruct (fill_loop (fun _ => True) Z.to_nat (fun _ o => o) (pad_turn end_ c) c)
    with (s := n) (out := out) as (? & _ & _ & _ & ->); try done.
  - intros m o _ Hm. unfold pad_turn. by zdec.
  - intros m o k _ Hm Ho. exists (m - 1). split; [done|]. split; [lia|].
    unfold pad_turn. zdec. by rewrite putc_ok.
Qed.

Lemma zeros_ok i out p :
  room (out ++ replicate (Z.to_nat (p - i)) (chr "0"%char)) ->
  loop (S (Z.to_nat (p - i))) (zeros_turn end_ i) (p, printed out) =
    Ret (printed (out ++ replicate (Z.to_nat (p - i)) (chr "0"%char))).
Proof using Hend.
  intros Hr.
  destruct (fill_loop (fun _ => True) (fun p => Z.to_nat (p - i)) (fun _ o => o)
    (zeros_turn end_ i) (chr "0"%char)) with (s := p) (out := out) as (? & _ & _ & _ & ->); try done.
  - intros m o _ Hm. unfold zeros_turn. by zdec.
  - intros m o k _ Hm Ho. exists (m - 1). split; [done|]. split; [lia|].
    unfold zeros_turn. zdec. by rewrite putc_ok.
Qed.

Lemma spaces_ok out n :
  0 <= n -> room (out ++ blanks n) ->
  loop (S (Z.to_nat n)) (spaces_turn end_) (n, printed out) = Ret (printed (out ++ blanks n)).
Proof using Hend.
  intros Hn Hr.
  destruct (fill_loop (fun n => 0 <= n) Z.to_nat (fun _ o => o) (spaces_turn end_) (chr " "%char))
    with (s := n) (out := out) as (? & _ & _ & _ & ->); try done.
  - intros m o H0 Hm. unfold spaces_turn. by zdec.
  - intros m o k H0 Hm Ho. exists (m - 1). split; [lia|]. split; [lia|].
    unfold spaces_turn. zdec. by rewrite putc_ok.
Qed.

(** The same loop on the width field of the specification. *)
Lemma char_pad_ok spec out :
  let n := sx24 (sp_width spec - 1) in
  room (out ++ blanks n) ->
  char_pad end_ spec (printed out) =
    Ret (set_width (if 0 <? n then 0 else n) spec, printed (out ++ blanks n)).
Proof using Hend.
  intros n Hr. unfold char_pad.
  set (same := fun s => sp_type s = sp_type spec /\ sp_flags s = sp_flags spec /\
    sp_base s = sp_base spec /\ sp_prec s = sp_prec spec).
  destruct (fill_loop (fun s => same s /\ (s = spec \/ 0 < sp_width s < 2 ^ 23))
    (fun s => Z.to_nat (sx24 (sp_width s - 1)))
    (fun s o => (set_width (sp_width s - 1) s, o)) (char_pad_turn end_) (chr " "%char))
    with (s := spec) (out := out) as (s' & [Hs Hw] & Hmu & Heq & E).
  - intros s o _ Hm. unfold char_pad_turn. cbn [sp_width set_width]. by zdec.
  - intros s o k [Hs _] Hm Ho. exists (set_width (sp_width s - 1) s).
    assert (Hr24 : - 2 ^ 23 <= sx24 (sp_width s - 1) < 2 ^ 23).
    { unfold sx24. pose proof (Z.mod_pos_bound (sp_width s - 1 + 2 ^ 23) (2 ^ 24)). lia. }
    assert (Hid : sx24 (sx24 (sp_width s - 1) - 1) = sx24 (sp_width s - 1) - 1).
    { unfold sx24 at 1. rewrite Z.mod_small; lia. }
    split; [|split].
    + split; [exact Hs|]. right. simpl. lia.
    + simpl. rewrite Hid. lia.
    + unfold char_pad_turn. cbn [sp_width set_width]. zdec.
    by rewrite putc_ok.
  - split; [done|by left].
  - exact Hr.
  - cbv beta in E, Hmu, Heq. fold n in E, Heq. unfold blanks. fold n.
    rewrite E. do 2 f_equal.
    assert (Hset : forall w, sx24 w = sx24 (sp_width s' - 1) -> set_width (sp_width s' - 1) s' = set_width w spec).
    { intros w Hw'. unfold set_width. destruct Hs as (-> & -> & -> & ->). by rewrite Hw'. }
    apply Hset. destruct (Z.ltb_spec 0 n).
    + destruct Hw as [->|Hw]; [fold n in Hmu; lia|].
      assert (sx24 (sp_width s' - 1) = sp_width s' - 1) as Hid.
      { unfold sx24. rewrite Z.mod_small; lia. }
      rewrite Hid in Hmu |- *. assert (sp_width s' = 1) as -> by lia. done.
    + rewrite Heq by lia. subst n. unfold sx24 at 1.
      pose proof (Z.mod_pos_bound (sp_width spec - 1 + 2 ^ 23) (2 ^ 24)).
      unfold sx24. rewrite Z.mod_small; lia.
Qed.

(** The digits of the array, written from the last to the first. *)
Lemma digits_out_ok ds rest out :
  room (out ++ rev ds) ->
  loop (S (length ds)) (digits_turn end_ (ds ++ rest)) (Z.of_nat (length ds), printed out) =
    Ret (printed (out ++ rev ds)).
Proof using Hend.
  revert rest out. induction ds as [|d ds IH] using rev_ind; intros rest out Hr.
  - rewrite (loop_inr _ _ _ (printed out)); [by rewrite app_nil_r|done].
  - rewrite rev_unit in Hr |- *. rewrite (app_snoc out) in Hr |- *.
    rewrite length_app. simpl length. rewrite Nat.add_1_r.
    rewrite (loop_inl _ _ _ (Z.of_nat (length ds), printed (out ++ [d]))).
    + rewrite <- app_assoc. by apply IH.
    + unfold digits_turn. zdec. rewrite (rd_lookup _ _ d);
        [|lia|rewrite <- app_assoc; apply list_lookup_middle; lia].
      rewrite bind_ret, putc_ok by (by eapply room_app_l). rewrite bind_ret. do 3 f_equal. lia.
Qed.

Lemma room_mono out t : room t -> (length out <= length t)%nat -> room out.
Proof using. clear Hend. unfold room. lia. Qed.

(** *** number *)

Lemma magnitude_range s num : 0 <= num < 2 ^ 64 -> 0 <= magnitude s num < 2 ^ 64.
Proof.
  intros H. unfold magnitude. destruct (negative s num); [|done].
  pose proof (u64_range (- num)). lia.
Qed.

(** The digits of the magnitude in the array, in reverse. *)
Lemma number_digits_ok s n :
  number_spec s -> 0 <= n < 2 ^ 64 ->
  let ds := map (digit_char (Z.land (sp_flags s) SMALL)) (le_digits (sp_base s) n) in
  exists rest,
    (if n <? sp_base s then
       c ← rd hex_asc_upper n;
       tmp ← wr tmp_init 0 (Z.lor c (Z.land (sp_flags s) SMALL));
       Ret (tmp, 1)
     else if negb (sp_base s =? 10) then
       let mask := sp_base s - 1 in
       let shift := if sp_base s =? 16 then 4 else 3 in
       loop 64 (oct_hex_turn mask shift (Z.land (sp_flags s) SMALL)) (tmp_init, 0, n)
     else put_dec tmp_init 0 n) = Ret (ds ++ rest, Z.of_nat (length ds)).
Proof.
  intros (Hb & Hf & _) Hn ds. pose proof (locase_cases _ Hf) as Hlc.
  assert (H2 : 2 <= sp_base s <= 16) by lia.
  assert (Hlen : (length (le_digits (sp_base s) n) <= 22)%nat).
  { apply le_digits_length; [lia..|]. split; [lia|].
    assert (8 ^ Z.of_nat 22 <= sp_base s ^ Z.of_nat 22) by (apply Z.pow_le_mono_l; lia). lia. }
  destruct (Z.ltb_spec n (sp_base s)) as [Hlt|Hge].
  { subst ds. rewrite hex_asc_upper_rd, le_digits_small by lia. rewrite bind_ret.
    unfold tmp_init. simpl replicate. rewrite wr_in_range by (simpl; lia).
    eexists. rewrite bind_ret. reflexivity. }
  destruct (Z.eqb_spec (sp_base s) 10) as [E10|E10]; simpl negb; cbv iota zeta.
  - rewrite E10 in *. destruct (put_dec_ok n Hn) as (rest & -> & _). exists rest.
    subst ds. rewrite (dec_chars_digit_char _ _ Hlc) by (apply le_digits_range; lia).
    rewrite E10. by rewrite length_map.
  - destruct (oct_hex_loop (sp_base s) (if sp_base s =? 16 then 4 else 3)
      (Z.land (sp_flags s) SMALL)) with (n := n) (fuel := 64%nat) (ds := @nil Z)
      (rest := tmp_init) (i := 0) as (rest & E);
      [|lia|done|unfold tmp_init; rewrite length_replicate; lia|lia|].
    { destruct Hb as [E|[E|E]]; [left|done|right]; by rewrite E. }
    exists rest. rewrite app_nil_l in E. rewrite E. subst ds. by rewrite length_map.
Qed.

(** What the code computes for the sign: the character, the magnitude and
    the width that is left. *)
Definition sign_of (s : printf_spec) (num fw : Z) : Z * Z * Z :=
  (hd0 (sign_text s num), magnitude s num, fw - Z.of_nat (length (sign_text s num))).

Lemma sign_stage s num fw :
  (if flag s SIGN then
     if s64 num <? 0 then (chr "-"%char, u64 (- s64 num), fw - 1)
     else if flag s PLUS then (chr "+"%char, num, fw - 1)
     else if flag s SPACE then (chr " "%char, num, fw - 1)
     else (0, num, fw)
   else (0, num, fw)) = sign_of s num fw.
Proof.
  unfold sign_of, sign_text, magnitude, negative.
  assert (E : u64 (- s64 num) = u64 (- num)).
  { unfold s64, u64. rewrite <- Z.sub_0_l, <- (Z.sub_0_l num).
    replace (0 - ((num + 2 ^ 63) mod 2 ^ 64 - 2 ^ 63)) with (2 ^ 63 - (num + 2 ^ 63) mod 2 ^ 64) by lia.
    rewrite Zminus_mod_idemp_r. f_equal. lia. }
  rewrite E. repeat case_match; simpl; rewrite ?Z.sub_0_r; done.
Qed.

Lemma sign_out_ok s num out :
  room (out ++ sign_text s num) ->
  (if negb (hd0 (sign_text s num) =? 0) then putc end_ (hd0 (sign_text s num)) (printed out)
   else Ret (printed out)) = Ret (printed (out ++ sign_text s num)).
Proof using Hend.
  unfold sign_text. intros Hr.
  destruct (flag s SIGN), (s64 num <? 0), (flag s PLUS), (flag s SPACE); simpl in *;
    first [by apply putc_ok|by rewrite app_nil_r].
Qed.

Lemma prefix_out_ok s num out :
  room (out ++ prefix_text s num) ->
  (if flag s SPECIAL && negb (sp_base s =? 10) then
     o ← (if (sp_base s =? 16) || negb (num =? 0) then putc end_ (chr "0"%char) (printed out)
          else Ret (printed out));
     if sp_base s =? 16 then putc end_ (Z.lor (chr "X"%char) (Z.land (sp_flags s) SMALL)) o
     else Ret o
   else Ret (printed out)) = Ret (printed (out ++ prefix_text s num)).
Proof using Hend.
  unfold prefix_text. intros Hr. destruct (flag s SPECIAL && negb (sp_base s =? 10)).
  2:{ by rewrite app_nil_r. }
  destruct (sp_base s =? 16); cbn [orb].
  - rewrite putc_ok by (eapply room_mono; [exact Hr|rewrite !length_app; simpl; lia]).
    rewrite bind_ret, putc_ok; [by rewrite <- app_assoc|]. by rewrite <- app_assoc.
  - destruct (num =? 0); cbn [negb]; [by rewrite app_nil_r|]. by rewrite putc_ok.
Qed.

Lemma prefix_width s num fw :
  (if flag s SPECIAL && negb (sp_base s =? 10) then
     if sp_base s =? 16 then fw - 2 else if negb (num =? 0) then fw - 1 else fw
   else fw) = fw - Z.of_nat (length (prefix_text s num)).
Proof. unfold prefix_text. repeat case_match; simpl in *; try done; lia. Qed.

Lemma pad_neg_ok c out n :
  n <= 0 -> room out -> pad end_ c n (printed out) = Ret (printed out).
Proof using Hend.
  intros Hn Hr. assert (Z.to_nat n = O) as E by lia.
  rewrite pad_ok; rewrite E; simpl; by rewrite app_nil_r.
Qed.

Lemma digits_text_app s num :
  digits_text s num =
    replicate (Z.to_nat (sp_prec s) - length (le_digits (sp_base s) (magnitude s num))) (chr "0"%char) ++
    rev (map (digit_char (Z.land (sp_flags s) SMALL)) (le_digits (sp_base s) (magnitude s num))).
Proof. unfold digits_text. by rewrite map_rev, length_rev, length_map. Qed.

(** The order in which the code prints the parts, for each way to fill:
    [k1] prints the sign, [k2] the prefix, [rest] the digits and the filling
    on the right. *)
Lemma number_fill_ok s (f : Z) (sg px ds : list Z) w out
    (k1 k2 : list Z * Z -> outcome (list Z * Z)) (rest : list Z * Z -> Z -> outcome (list Z * Z)) :
  byte (sp_flags s) ->
  f = (if flag s LEFT then u8 (Z.land (sp_flags s) (Z.lnot ZEROPAD)) else sp_flags s) ->
  room (out ++ (if flag s LEFT then (sg ++ px) ++ ds ++ blanks w
                else if flag s ZEROPAD
                then (sg ++ px) ++ replicate (Z.to_nat w) (chr "0"%char) ++ ds
                else blanks w ++ (sg ++ px) ++ ds)) ->
  (forall out, room (out ++ sg) -> k1 (printed out) = Ret (printed (out ++ sg))) ->
  (forall out, room (out ++ px) -> k2 (printed out) = Ret (printed (out ++ px))) ->
  ('(o, w) ← (if negb (negb (Z.land f (Z.lor ZEROPAD LEFT) =? 0)) then
                o ← pad end_ (chr " "%char) w (printed out); Ret (o, Z.min (w - 1) (-1))
              else Ret (printed out, w));
   o ← k1 o;
   o ← k2 o;
   '(o, w) ← (if negb (flag s LEFT) then
                o ← pad end_ (chr " "%char + Z.land f ZEROPAD) w o; Ret (o, Z.min (w - 1) (-1))
              else Ret (o, w));
   rest o w) =
  (if flag s LEFT then rest (printed (out ++ sg ++ px)) w
   else if flag s ZEROPAD
   then rest (printed (out ++ (sg ++ px) ++ replicate (Z.to_nat w) (chr "0"%char))) (Z.min (w - 1) (-1))
   else rest (printed (out ++ blanks w ++ sg ++ px)) (Z.min (Z.min (w - 1) (-1) - 1) (-1))).
Proof using Hend.
  intros Hf -> Hr Hk1 Hk2. unfold flag in *.
  assert (Hroom : forall t, (length t <= length (out ++ sg ++ px ++ ds) + Z.to_nat w)%nat -> room t).
  { intros t Ht. eapply room_mono; [exact Hr|]. unfold blanks.
    repeat case_match; rewrite ?length_app, ?length_replicate in *; lia. }
  destruct (Z.land (sp_flags s) LEFT =? 0) eqn:EL; cbn [negb] in *.
  - rewrite zeropad_or_left, EL, andb_true_r, zeropad_char by done.
    destruct (Z.land (sp_flags s) ZEROPAD =? 0) eqn:EZ; cbn [negb] in *.
    + rewrite pad_ok, !bind_ret by (apply Hroom; rewrite !length_app, ?length_replicate; lia).
      fold (blanks w).
      rewrite Hk1, bind_ret by (apply Hroom; unfold blanks; rewrite !length_app, length_replicate; lia).
      rewrite Hk2, bind_ret by (apply Hroom; unfold blanks; rewrite !length_app, length_replicate; lia).
      rewrite pad_neg_ok; [by rewrite !bind_ret, <- !app_assoc|lia|].
      apply Hroom; unfold blanks; rewrite !length_app, length_replicate; lia.
    + rewrite bind_ret.
      rewrite Hk1, bind_ret by (apply Hroom; rewrite !length_app; lia).
      rewrite Hk2, bind_ret by (apply Hroom; rewrite !length_app; lia).
      rewrite pad_ok by (apply Hroom; rewrite !length_app, length_replicate; lia).
      by rewrite !bind_ret, <- !app_assoc.
  - assert (Hf' : byte (u8 (Z.land (sp_flags s) (Z.lnot ZEROPAD)))) by apply u8_range.
    rewrite zeropad_or_left, cleared_zeropad, (clear_zeropad _ LEFT), EL by (done || simpl; auto).
    rewrite andb_false_r. cbn [negb].
    rewrite bind_ret, Hk1, bind_ret by (apply Hroom; rewrite !length_app; lia).
    rewrite Hk2, !bind_ret by (apply Hroom; rewrite !length_app; lia).
    by rewrite <- app_assoc.
Qed.

(** What is printed behind the prefix: zeros up to the precision, the digits
    and the blanks of left adjustment. *)
Lemma number_tail_ok out dr rest zs p w :
  zs = replicate (Z.to_nat (p - Z.of_nat (length dr))) (chr "0"%char) ->
  room (out ++ (zs ++ rev dr) ++ blanks w) ->
  (o ← loop (S (Z.to_nat (p - Z.of_nat (length dr)))) (zeros_turn end_ (Z.of_nat (length dr)))
         (p, printed out);
   o ← loop (S (Z.to_nat (Z.of_nat (length dr)))) (digits_turn end_ (dr ++ rest))
         (Z.of_nat (length dr), o);
   pad end_ (chr " "%char) w o) = Ret (printed (out ++ (zs ++ rev dr) ++ blanks w)).
Proof using Hend.
  intros -> Hr. unfold blanks in *. rewrite Nat2Z.id.
  rewrite zeros_ok by (eapply room_mono; [exact Hr|rewrite !length_app; lia]).
  rewrite bind_ret, digits_out_ok by (eapply room_mono; [exact Hr|rewrite !length_app; lia]).
  rewrite bind_ret, pad_ok; rewrite <- !app_assoc in *; done.
Qed.

(** Clearing ZEROPAD under LEFT changes none of the other flags. *)
Definition unpadded (s : printf_spec) : printf_spec :=
  if flag s LEFT then set_flags (Z.land (sp_flags s) (Z.lnot ZEROPAD)) s else s.

Lemma unpadded_flag s g :
  byte (sp_flags s) -> In g [SIGN; LEFT; PLUS; SPACE] -> flag (unpadded s) g = flag s g.
Proof.
  intros Hf Hg. unfold unpadded. destruct (flag s LEFT); [|done].
  unfold flag. simpl sp_flags. by rewrite clear_zeropad.
Qed.

Lemma unpadded_flags s :
  sp_flags (unpadded s) =
    if flag s LEFT then u8 (Z.land (sp_flags s) (Z.lnot ZEROPAD)) else sp_flags s.
Proof. unfold unpadded. by destruct (flag s LEFT). Qed.

Lemma unpadded_base s : sp_base (unpadded s) = sp_base s.
Proof. unfold unpadded. by destruct (flag s LEFT). Qed.

Lemma number_ok s num out :
  number_spec s -> 0 <= num < 2 ^ 64 -> room (out ++ number_text s num) ->
  number end_ (printed out) num s = Ret (printed (out ++ number_text s num)).
Proof using Hend.
  intros Hs Hn Hr. pose proof Hs as (_ & Hf & Hp).
  unfold number. cbv zeta. fold (unpadded s). unfold number_text in *. cbv zeta in *.
  rewrite !unpadded_base, !(unpadded_flag s) by (done || simpl; auto).
  rewrite (sign_stage s num (sp_width s)). unfold sign_of.
  pose proof (magnitude_range s num Hn) as Hm.
  destruct (number_digits_ok s (magnitude s num) Hs Hm) as (rest & E). cbv zeta in E.
  rewrite E, bind_ret, prefix_width. clear E.
  rewrite digits_text_app in *.
  set (dr := map (digit_char (Z.land (sp_flags s) SMALL)) (le_digits (sp_base s) (magnitude s num))) in *.
  assert (Hlen : length (le_digits (sp_base s) (magnitude s num)) = length dr).
  { subst dr. by rewrite length_map. }
  rewrite Hlen in *. clear Hlen.
  assert (Hprec : (if sp_prec s <? Z.of_nat (length dr) then Z.of_nat (length dr) else sp_prec s) =
    Z.max (sp_prec s) (Z.of_nat (length dr))) by (destruct (Z.ltb_spec (sp_prec s) (Z.of_nat (length dr))); lia).
  rewrite Hprec. clear Hprec.
  set (zs := replicate (Z.to_nat (sp_prec s) - length dr) (chr "0"%char)) in *.
  assert (Hzs : Z.to_nat (Z.max (sp_prec s) (Z.of_nat (length dr)) - Z.of_nat (length dr)) = length zs).
  { subst zs. rewrite length_replicate. lia. }
  set (w := sp_width s - Z.of_nat (length (sign_text s num ++ prefix_text s num) + length (zs ++ rev dr))) in *.
  assert (Hw : sp_width s - Z.of_nat (length (sign_text s num)) - Z.of_nat (length (prefix_text s num)) -
    Z.max (sp_prec s) (Z.of_nat (length dr)) = w).
  { subst w. rewrite !length_app, length_rev. lia. }
  rewrite Hw. clear Hw.
  assert (Hrep : zs = replicate (Z.to_nat (Z.max (sp_prec s) (Z.of_nat (length dr)) - Z.of_nat (length dr)))
    (chr "0"%char)).
  { rewrite Hzs. subst zs. by rewrite length_replicate. }
  etransitivity.
  { apply (number_fill_ok s (sp_flags (unpadded s)) (sign_text s num) (prefix_text s num) (zs ++ rev dr) w out
      _ _ (fun o w => _) Hf (unpadded_flags s) Hr).
    - intros o Ho. by apply sign_out_ok.
    - intros o Ho. by apply prefix_out_ok. }
  assert (Hneg : forall n, n <= 0 -> blanks n = []).
  { intros n Hneg. unfold blanks. by rewrite Z2Nat.nonpos. }
  destruct (flag s LEFT); [|destruct (flag s ZEROPAD)].
  - rewrite (number_tail_ok _ _ _ zs) by (done || rewrite <- !app_assoc in *; done).
    by rewrite <- !app_assoc.
  - rewrite (number_tail_ok _ _ _ zs); rewrite ?(Hneg (Z.min _ _)), ?app_nil_r, <- ?app_assoc in * by lia; done.
  - rewrite (number_tail_ok _ _ _ zs); rewrite ?(Hneg (Z.min _ _)), ?app_nil_r, <- ?app_assoc in * by lia; done.
Qed.
End buffer.
