(* ===== verification/PrintFormat.v ===== *)
(** * Strings and pointers in the output

    The width of a string is applied after it was printed, by moving it to the
    right within the buffer; the result is as if the blanks had been printed
    first.  Then the conversions that choose between a string, an error text
    and a number. *)
From Stdlib Require Import ZArith Lia Ascii.
From stdpp Require Import base numbers list option strings.
From S2P Require Import Prelude SortHeap Ctype KstrtoxFacts Vsprintf PrintDigits PrintBuffer.

(** ** The copying functions behind a known front *)

Lemma memset_app (a c : list Z) p ch n :
  p = Z.of_nat (length a) -> 0 <= n <= Z.of_nat (length c) ->
  memset (a ++ c) p ch n = Ret (a ++ replicate (Z.to_nat n) ch ++ drop (Z.to_nat n) c).
Proof.
  intros -> Hn. unfold memset. destruct (Z.eqb_spec n 0) as [->|Hn0]; [done|].
  rewrite decide_True by (rewrite length_app; lia).
  rewrite Nat2Z.id, take_app_length. replace (Z.to_nat (Z.of_nat (length a) + n)) with (length a + Z.to_nat n)%nat by lia.
  by rewrite drop_app_add.
Qed.

Lemma memmove_app (a c : list Z) dst src k n :
  src = Z.of_nat (length a) -> dst = src + k -> 0 <= k -> 0 <= n -> k + n <= Z.of_nat (length c) ->
  memmove (a ++ c) dst src n =
    Ret (a ++ take (Z.to_nat k) c ++ take (Z.to_nat n) c ++ drop (Z.to_nat (k + n)) c).
Proof.
  intros -> -> Hk Hn Hl. rewrite memmove_in_range by (rewrite ?length_app; lia).
  replace (Z.to_nat (Z.of_nat (length a) + k)) with (length a + Z.to_nat k)%nat by lia.
  replace (Z.to_nat (Z.of_nat (length a) + k + n)) with (length a + Z.to_nat (k + n))%nat by lia.
  by rewrite Nat2Z.id, take_app_add, drop_app_length, drop_app_add, <- app_assoc.
Qed.

(** [memcpy] of a part of [src] to behind [a]. *)
Lemma memcpy_app (a c src : list Z) p q n :
  p = Z.of_nat (length a) -> 0 <= q -> 0 <= n <= Z.of_nat (length c) ->
  q + n <= Z.of_nat (length src) ->
  memcpy (a ++ c) p src q n =
    Ret (a ++ take (Z.to_nat n) (drop (Z.to_nat q) src) ++ drop (Z.to_nat n) c).
Proof.
  intros -> Hq Hn Hs. unfold memcpy. destruct (Z.eqb_spec n 0) as [->|Hn0]; [done|].
  rewrite decide_True by (rewrite length_app; lia). rewrite Nat2Z.id, take_app_length.
  replace (Z.to_nat (Z.of_nat (length a) + n)) with (length a + Z.to_nat n)%nat by lia.
  by rewrite drop_app_add.
Qed.

Section strings.
Variable b0 : list Z.
Variable end_ : Z.
Hypothesis Hend : 0 <= end_.
Local Abbreviation printed := (printed b0 end_).
Local Abbreviation room := (room b0 end_).

(** The buffer behind what was printed before. *)
Lemma printed_app out t :
  let m := (Z.to_nat end_ - length out)%nat in
  (length out <= Z.to_nat end_)%nat ->
  fst (printed (out ++ t)) = out ++ take m t ++ drop (length out + length (take m t)) b0.
Proof using Hend.
  intros m H. unfold PrintBuffer.printed. simpl.
  rewrite take_app, (take_ge out) by lia. fold m. by rewrite length_app, <- app_assoc.
Qed.

Lemma printed_snd out : snd (printed out) = Z.of_nat (length out).
Proof. done. Qed.

Lemma printed_full out t :
  (Z.to_nat end_ <= length out)%nat -> fst (printed (out ++ t)) = fst (printed out).
Proof using Hend. intros H. unfold PrintBuffer.printed. simpl. by rewrite take_app_le by lia. Qed.

Lemma move_right_ok out t k :
  0 < k < 2 ^ 32 -> Z.of_nat (length t) < 2 ^ 32 -> room (out ++ blanks k ++ t) ->
  move_right (fst (printed (out ++ t))) (Z.of_nat (length out)) end_ (Z.of_nat (length t)) k =
    Ret (fst (printed (out ++ blanks k ++ t))).
Proof using Hend.
  intros Hk Ht Hr. unfold room in Hr. rewrite !length_app in Hr. unfold blanks in *.
  rewrite length_replicate in Hr. unfold move_right.
  destruct (Z.leb_spec end_ (Z.of_nat (length out))) as [Hle|Hlt].
  { by rewrite !printed_full by lia. }
  rewrite !printed_app by lia. set (m := (Z.to_nat end_ - length out)%nat).
  set (c := take m t ++ drop (length out + length (take m t)) b0).
  assert (Htm : (length (take m t) <= m)%nat) by (rewrite length_take; lia).
  assert (Hc : Z.min (Z.of_nat (Z.to_nat k + length t)) (Z.of_nat m) <= Z.of_nat (length c)).
  { subst c. rewrite length_app, length_drop, length_take. lia. }
  assert (Hdc : forall n, (length (take m t) <= n)%nat -> drop n c = drop (length out + n) b0).
  { intros n Hn. subst c. rewrite drop_app_ge, drop_drop by lia. f_equal. lia. }
  destruct (Z.leb_spec (end_ - Z.of_nat (length out)) k) as [Hs|Hs].
  - rewrite memset_app by (done || lia).
    replace (Z.to_nat (end_ - Z.of_nat (length out))) with m by lia.
    rewrite take_app_le by (rewrite length_replicate; lia).
    rewrite take_replicate, Nat.min_l, length_replicate, Hdc by lia. done.
  - set (n := Z.min (Z.of_nat (length t)) (Z.of_nat m - k)).
    assert (Hmv : (if negb (Z.of_nat (length t) =? 0) then
        let len := if end_ - Z.of_nat (length out) - k <? Z.of_nat (length t)
          then u32 (end_ - Z.of_nat (length out) - k) else Z.of_nat (length t) in
        memmove (out ++ c) (Z.of_nat (length out) + k) (Z.of_nat (length out)) len
      else Ret (out ++ c)) =
      Ret (out ++ take (Z.to_nat k) c ++ take (Z.to_nat n) c ++ drop (Z.to_nat (k + n)) c)).
    { assert (En : (if end_ - Z.of_nat (length out) - k <? Z.of_nat (length t)
        then u32 (end_ - Z.of_nat (length out) - k) else Z.of_nat (length t)) = n).
      { destruct (Z.ltb_spec (end_ - Z.of_nat (length out) - k) (Z.of_nat (length t))); [|lia].
        rewrite u32_small; lia. }
      rewrite En. destruct (Z.eqb_spec (Z.of_nat (length t)) 0) as [E0|E0]; simpl negb; cbv iota zeta.
      - assert (n = 0) as -> by lia. rewrite Z.add_0_r. simpl. by rewrite take_drop.
      - by apply memmove_app; lia. }
    cbv zeta in Hmv |- *. rewrite Hmv, bind_ret.
    assert (Hk1 : length (take (Z.to_nat k) c) = Z.to_nat k) by (rewrite length_take; lia).
    rewrite memset_app by (rewrite ?length_app, ?Hk1; lia).
    rewrite (drop_app_length' (take _ c)) by done. do 2 f_equal.
    rewrite take_app_ge by (rewrite length_replicate; lia). rewrite length_replicate, <- app_assoc.
    assert (Hn : take (m - Z.to_nat k) t = take (Z.to_nat n) t).
    { destruct (Z.le_ge_cases (Z.of_nat (length t)) (Z.of_nat m - k)).
      - rewrite !take_ge by lia. done.
      - f_equal. lia. }
    rewrite Hn. f_equal. f_equal; [|].
    + subst c. rewrite take_app_le by (rewrite length_take; lia). rewrite take_take. f_equal. lia.
    + rewrite Hdc by (rewrite length_take; lia). f_equal.
      rewrite length_app, length_replicate, length_take. lia.
Qed.

Lemma printed_pair out : printed out = (fst (printed out), Z.of_nat (length out)).
Proof. done. Qed.

Lemma widen_string_ok s out t n :
  sp_width s < 2 ^ 23 -> n = Z.of_nat (length t) -> n < 2 ^ 31 -> room (out ++ padded s t) ->
  widen_string (printed (out ++ t)) n end_ s = Ret (printed (out ++ padded s t)).
Proof using Hend.
  intros Hw Hn Hn31 Hr. unfold widen_string, padded in *. rewrite <- Hn in *.
  destruct (Z.leb_spec (sp_width s) n) as [Hle|Hlt].
  { assert (blanks (sp_width s - n) = []) as -> by (unfold blanks; by rewrite Z2Nat.nonpos by lia).
    rewrite app_nil_r. by destruct (flag s LEFT). }
  rewrite u32_small by lia. destruct (flag s LEFT); simpl negb; cbv iota.
  - rewrite app_assoc in Hr |- *. by apply spaces_ok; [|lia|].
  - rewrite printed_pair, length_app.
    replace (Z.of_nat (length out + length t) - n) with (Z.of_nat (length out)) by lia.
    rewrite (u32_small n), Hn by lia.
    rewrite move_right_ok by (lia || by rewrite <- Hn). rewrite bind_ret, <- Hn.
    rewrite (printed_pair (out ++ blanks _ ++ t)). do 2 f_equal. rewrite !length_app.
    unfold blanks. rewrite length_replicate. lia.
Qed.

Lemma str_turn_stop s len o : str_turn end_ s (0, len, o) = Ret (inr (len, o)).
Proof. done. Qed.

Lemma str_turn_read s lim len o c :
  lim <> 0 -> rd s len = Ret c ->
  str_turn end_ s (lim, len, o) =
    if c =? 0 then Ret (inr (len, o))
    else o ← putc end_ c o; Ret (inl (s32 (lim - 1), len + 1, o)).
Proof. intros Hl Hc. unfold str_turn. by rewrite (proj2 (Z.eqb_neq _ _) Hl), Hc. Qed.

(** One character of the reference. *)
Lemma str_prefix_cons lim c l :
  lim <> 0 ->
  str_prefix (if lim <? 0 then None else Some (Z.to_nat lim)) (c :: l) =
    if c =? 0 then Some []
    else t ← str_prefix (if lim - 1 <? 0 then None else Some (Z.to_nat (lim - 1))) l; Some (c :: t).
Proof.
  intros Hl. destruct (Z.ltb_spec lim 0).
  - simpl. by rewrite (proj2 (Z.ltb_lt (lim - 1) 0)) by lia.
  - rewrite (proj2 (Z.ltb_ge (lim - 1) 0)) by lia.
    by replace (Z.to_nat lim) with (S (Z.to_nat (lim - 1))) by lia.
Qed.

Lemma str_loop_ok s rest : forall dn lim t out,
  str_prefix (if lim <? 0 then None else Some (Z.to_nat lim)) rest = Some t ->
  s = dn ++ rest -> - 2 ^ 31 + Z.of_nat (length t) <= lim -> lim < 2 ^ 31 -> room (out ++ t) ->
  loop (S (S (length rest))) (str_turn end_ s) (lim, Z.of_nat (length dn), printed out) =
    Ret (Z.of_nat (length dn + length t), printed (out ++ t)).
Proof using Hend.
  induction rest as [|c rest IH]; intros dn lim t out Ht Hs Hlim Hlim' Hr;
    (destruct (Z.eq_dec lim 0) as [->|Hl0];
     [simpl in Ht; simplify_eq; rewrite (loop_inr _ _ _ _ (str_turn_stop _ _ _)), app_nil_r;
      do 3 f_equal; simpl; lia|]).
  { destruct (Z.ltb_spec lim 0); simpl in Ht; [done|]. destruct (Z.to_nat lim) eqn:E; [lia|done]. }
  assert (Hrd : rd s (Z.of_nat (length dn)) = Ret c).
  { subst s. apply rd_lookup; [lia|]. rewrite Nat2Z.id. by apply list_lookup_middle. }
  pose proof (str_turn_read s lim _ (printed out) c Hl0 Hrd) as Hturn.
  rewrite str_prefix_cons in Ht by done. simpl length. destruct (c =? 0).
  - simplify_eq. rewrite (loop_inr _ _ _ _ Hturn), app_nil_r. do 3 f_equal. simpl. lia.
  - destruct (str_prefix _ rest) as [t'|] eqn:E; [|done]. simpl in Ht. simplify_eq. simpl length in Hlim.
    rewrite (app_snoc out c) in Hr |- *.
    rewrite putc_ok, bind_ret, s32_small in Hturn by (done || lia || by eapply room_app_l).
    rewrite (loop_inl _ _ _ _ Hturn).
    replace (Z.of_nat (length dn) + 1) with (Z.of_nat (length (dn ++ [c])))
      by (rewrite length_app; simpl; lia).
    rewrite (IH (dn ++ [c]) (lim - 1) t' (out ++ [c]) E);
      [|by rewrite <- app_assoc|lia|lia|done].
    do 3 f_equal. rewrite length_app. simpl. lia.
Qed.

(** The ranges of the fields of a specification. *)
Definition spec_ok (s : printf_spec) : Prop :=
  - 2 ^ 23 <= sp_width s < 2 ^ 23 /\ byte (sp_flags s) /\ -1 <= sp_prec s < 2 ^ 15.

Lemma string_nocheck_ok s out l t :
  spec_ok s -> string_text s l = Some t -> Z.of_nat (length t) < 2 ^ 30 -> room (out ++ t) ->
  string_nocheck end_ (printed out) l s = Ret (printed (out ++ t)).
Proof using Hend.
  intros (Hw & Hf & Hp) Ht Hl Hr. unfold string_text, str_limit in Ht.
  destruct (str_prefix _ l) as [t0|] eqn:E; [|done]. simpl in Ht. simplify_eq.
  assert (Hlen : (length t0 <= length (padded s t0))%nat).
  { unfold padded. destruct (flag s LEFT); rewrite length_app; lia. }
  unfold string_nocheck. change 0 with (Z.of_nat (length (@nil Z))) at 1.
  rewrite (str_loop_ok l l [] (sp_prec s) t0 out E); [|done|lia|lia|].
  2:{ eapply room_mono; [exact Hr|]. rewrite !length_app. lia. }
  rewrite bind_ret. apply widen_string_ok; [lia|done|simpl; lia|done].
Qed.

(** A part of the format is copied at once. *)
Lemma literal_out_ok src q n out :
  0 <= q -> 0 <= n < 2 ^ 31 -> q + n <= Z.of_nat (length src) ->
  let t := take (Z.to_nat n) (drop (Z.to_nat q) src) in
  room (out ++ t) ->
  (if Z.of_nat (length out) <? end_ then
     let copy := if end_ - Z.of_nat (length out) <? n then s32 (end_ - Z.of_nat (length out)) else n in
     memcpy (fst (printed out)) (Z.of_nat (length out)) src q copy
   else Ret (fst (printed out))) = Ret (fst (printed (out ++ t))).
Proof using Hend.
  intros Hq Hn Hs t Hr. assert (Ht : length t = Z.to_nat n).
  { subst t. rewrite length_take, length_drop. lia. }
  destruct (Z.ltb_spec (Z.of_nat (length out)) end_) as [Hlt|Hge].
  2:{ by rewrite printed_full by lia. }
  assert (Ho : fst (printed out) = out ++ drop (length out) b0).
  { unfold PrintBuffer.printed. simpl. by rewrite take_ge by lia. }
  unfold room in Hr. rewrite length_app in Hr. rewrite Ho, (printed_app out t) by lia.
  remember (Z.to_nat end_ - length out)%nat as m eqn:Hm.
  assert (Hcopy : (if end_ - Z.of_nat (length out) <? n then s32 (end_ - Z.of_nat (length out)) else n) =
    Z.of_nat (Nat.min (length t) m)).
  { destruct (Z.ltb_spec (end_ - Z.of_nat (length out)) n); [rewrite s32_small|]; lia. }
  cbv zeta. rewrite Hcopy. rewrite memcpy_app by (rewrite ?length_drop; simpl; lia).
  rewrite Nat2Z.id, drop_drop. do 2 f_equal. f_equal.
  - subst t. rewrite take_take. f_equal. lia.
  - f_equal. rewrite length_take. lia.
Qed.
End strings.

(** ** Reading the format

    [format_decode] stays inside the format string, advances unless the
    directive is invalid, and leaves a well-formed specification; and what it
    makes of a directive that is spelled out. *)

(** ** Fields *)

Lemma sx24_range z : - 2 ^ 23 <= sx24 z < 2 ^ 23.
Proof. unfold sx24. pose proof (Z.mod_pos_bound (z + 2 ^ 23) (2 ^ 24)). lia. Qed.
Lemma sx24_small z : - 2 ^ 23 <= z < 2 ^ 23 -> sx24 z = z.
Proof. intros. unfold sx24. rewrite Z.mod_small; lia. Qed.
Lemma sx16_range z : - 2 ^ 15 <= sx16 z < 2 ^ 15.
Proof. unfold sx16. pose proof (Z.mod_pos_bound (z + 2 ^ 15) (2 ^ 16)). lia. Qed.
Lemma sx16_small z : - 2 ^ 15 <= z < 2 ^ 15 -> sx16 z = z.
Proof. intros. unfold sx16. rewrite Z.mod_small; lia. Qed.

Lemma spec_ok_type s v : spec_ok s -> spec_ok (set_type v s).
Proof. done. Qed.
Lemma spec_ok_base s v : spec_ok s -> spec_ok (set_base v s).
Proof. done. Qed.
Lemma spec_ok_width s v : spec_ok s -> spec_ok (set_width v s).
Proof. intros (_ & ? & ?). split; [apply sx24_range|done]. Qed.
Lemma spec_ok_flags s v : spec_ok s -> spec_ok (set_flags v s).
Proof. intros (? & _ & ?). split; [done|]. split; [apply u8_range|done]. Qed.
Lemma spec_ok_add_flag s f : spec_ok s -> spec_ok (add_flag f s).
Proof. apply spec_ok_flags. Qed.
Lemma spec_ok_prec s v : spec_ok s -> -1 <= sx16 v -> spec_ok (set_prec v s).
Proof. intros (? & ? & _) Hv. pose proof (sx16_range v). split; [done|]. split; [done|]. simpl. lia. Qed.
Lemma spec_ok_prec2 s u v : spec_ok s -> -1 <= sx16 v -> spec_ok (set_prec v (set_prec u s)).
Proof. apply (spec_ok_prec s v). Qed.
Create HintDb specs.
#[export] Hint Resolve spec_ok_type spec_ok_base spec_ok_width spec_ok_flags spec_ok_add_flag : specs.

(** Between two calls: a precision taken from the arguments may still be
    negative, until the next call sets it to 0. *)
Definition spec_inv (s : printf_spec) : Prop :=
  - 2 ^ 23 <= sp_width s < 2 ^ 23 /\ byte (sp_flags s) /\ sp_prec s < 2 ^ 15 /\
  (sp_type s <> FORMAT_TYPE_PRECISION -> -1 <= sp_prec s).

Lemma spec_inv_ok s : spec_inv s -> sp_type s <> FORMAT_TYPE_PRECISION -> spec_ok s.
Proof. intros (? & ? & ? & Hp) Ht. specialize (Hp Ht). split; [done|]. split; [done|lia]. Qed.

Lemma spec_ok_inv s : spec_ok s -> spec_inv s.
Proof. intros (? & ? & ?). split; [done|]. split; [done|]. split; [lia|]. intros _. lia. Qed.

Lemma set_field_width_inv s w :
  spec_ok s -> spec_inv (set_field_width s w).
Proof.
  intros Hs. apply spec_ok_inv. unfold set_field_width. case_match; auto with specs.
Qed.

Lemma set_precision_inv s v :
  spec_ok s -> sp_type s = FORMAT_TYPE_PRECISION -> spec_inv (set_precision s v).
Proof.
  intros (Hw & Hf & _) Ht. unfold set_precision, spec_inv.
  destruct (negb (sp_prec (set_prec v s) =? v)); simpl;
    (split; [done|]; split; [done|]; split; [|done]).
  - pose proof (sx16_range (clamp v 0 PRECISION_MAX)). lia.
  - pose proof (sx16_range v). lia.
Qed.

Section decode.
(** The format: a string of [f] characters at offset 0. *)
Variables fmt f : list Z.
Hypothesis Hfmt : cstr fmt 0 f.
Local Abbreviation len := (Z.of_nat (length f)).

(** A read at a position of the string. *)
Lemma fmt_rd p :
  0 <= p <= len -> exists c, rd fmt p = Ret c /\ byte c /\ (c <> 0 -> p < len) /\ (p < len -> c <> 0).
Proof using Hfmt.
  intros Hp. pose proof (cstr_drop _ _ _ (Z.to_nat p) Hfmt ltac:(lia)) as H.
  replace (0 + Z.of_nat (Z.to_nat p)) with p in H by lia.
  exists (hd0 (drop (Z.to_nat p) f)). split; [by apply cstr_hd|]. split; [by eapply cstr_hd_byte|].
  split.
  - intros Hc. destruct (Z.lt_ge_cases p len); [done|]. rewrite drop_ge in Hc by lia. done.
  - intros Hlt E. apply (cstr_hd_0 _ _ _ H) in E.
    apply (f_equal length) in E. rewrite length_drop in E. simpl in E. lia.
Qed.

Lemma fmt_length : len < Z.of_nat (length fmt).
Proof using Hfmt. pose proof (cstr_length _ _ _ Hfmt). lia. Qed.

(** Read the character at [p] in the goal. *)
Ltac read_char p c :=
  let E := fresh "E" in let B := fresh "B" in let H := fresh "Hlt" in
  destruct (fmt_rd p) as (c & E & B & H & _); [lia|]; rewrite E, ?bind_ret.

Lemma skip_atoi_ok p c :
  rd fmt p = Ret c -> isdigit c = true -> 0 <= p <= len ->
  returns (skip_atoi fmt p) (fun '(q, _) => p < q <= len).
Proof using Hfmt.
  intros Hc Hd Hp. unfold skip_atoi.
  apply (loop_returns (fun '(q, _) => p <= q < len /\ exists d, rd fmt q = Ret d)
    (fun '(q, _) => Z.to_nat (len - q))).
  - split; [|eauto]. destruct (fmt_rd p Hp) as (c' & E & _ & Hlt & _). rewrite E in Hc. simplify_eq.
    split; [lia|]. apply Hlt. intros ->. done.
  - pose proof fmt_length. lia.
  - intros [q i] [Hq [d Hd']]. unfold skip_atoi_turn. rewrite Hd', bind_ret.
    read_char (q + 1) e. cbn [returns]. destruct (isdigit e) eqn:Ed; [|lia].
    assert (q + 1 < len) by (apply Hlt; intros ->; done). split; [|lia]. split; [lia|eauto].
Qed.

Definition decoded (p : Z) (r : Z * printf_spec) : Prop :=
  let '(read, s) := r in
  0 <= read /\ p + read <= len /\ spec_ok s /\
  (sp_type s = FORMAT_TYPE_INVALID \/ 0 < read) /\
  (sp_type s = FORMAT_TYPE_NONE \/ sp_type s = FORMAT_TYPE_WIDTH \/ sp_type s = FORMAT_TYPE_PRECISION \/
   sp_base s = 8 \/ sp_base s = 10 \/ sp_base s = 16).

Lemma decode_qualifier_ok start p s :
  0 <= start <= p -> p <= len -> spec_ok s -> returns (decode_qualifier fmt start p s) (decoded start).
Proof using Hfmt.
  intros Hs Hp Hok. unfold decode_qualifier. read_char p c.
  apply (returns_bind _ _ (fun '(q, _) => start <= q <= len)).
  { destruct (_ || _ || _ || _) eqn:Eq; [|cbn [returns]; lia].
    assert (p < len).
    { apply Hlt. intros ->. done. }
    read_char (p + 1) d. cbn [returns].
    destruct (Z.eqb_spec c d) as [->|]; [|lia].
    destruct (Z.eqb_spec d (chr "l"%char)); [lia|]. destruct (Z.eqb_spec d (chr "h"%char)); lia. }
  intros [q ql] Hq. read_char q k. cbv zeta.
  assert (Hnext : forall s', spec_ok s' -> k <> 0 ->
    sp_base s' = 8 \/ sp_base s' = 10 \/ sp_base s' = 16 -> decoded start (q + 1 - start, s')).
  { intros s' Hs' Hk Hb. pose proof (Hlt0 Hk). unfold decoded.
    split; [lia|]. split; [lia|]. split; [done|]. split; [right; lia|tauto]. }
  repeat match goal with
  | |- returns (if k =? ?x then Ret _ else _) _ =>
      destruct (Z.eqb_spec k x); [cbn [returns]; apply Hnext; [auto with specs|lia|auto]|]
  end.
  match goal with |- returns (match ?n with _ => _ end) _ =>
    assert (Hn : match n with
      | Some s' => spec_ok s' /\ k <> 0 /\ (sp_base s' = 8 \/ sp_base s' = 10 \/ sp_base s' = 16)
      | None => True end); [|destruct n as [s'|]] end.
  - repeat match goal with
    | |- context [if ?b then Some _ else _] =>
        destruct b eqn:?; [split; [auto with specs|]; split; [intros ->; done|simpl; auto]|]
    end. done.
  - destruct Hn as (Hs' & Hk & Hb). cbn [returns]. apply Hnext; [|done|].
    + repeat case_match; auto with specs.
    + repeat case_match; simpl; done.
  - cbn [returns]. unfold decoded. split; [lia|]. split; [lia|]. split; [auto with specs|].
    split; [by left|]. simpl. by auto 10.
Qed.

Lemma decode_precision_ok start p s :
  0 <= start <= p -> p <= len -> spec_ok s -> returns (decode_precision fmt start p s) (decoded start).
Proof using Hfmt.
  intros Hs Hp Hok. unfold decode_precision. cbv zeta. read_char p c.
  assert (Hm1 : spec_ok (set_prec (-1) s)) by (apply spec_ok_prec; [done|by vm_compute]).
  destruct (Z.eqb_spec c (chr "."%char)); [|by apply decode_qualifier_ok].
  assert (p < len) by (apply Hlt; lia). read_char (p + 1) d.
  destruct (isdigit d) eqn:Ed.
  - eapply returns_bind; [eapply skip_atoi_ok; [exact E0|done|lia]|]. intros [q n] Hq.
    apply decode_qualifier_ok; [lia|lia|].
    destruct (Z.ltb_spec (sp_prec (set_prec n (set_prec (-1) s))) 0) as [Hn|Hn].
    + apply spec_ok_prec2; [done|by vm_compute].
    + simpl in Hn. apply spec_ok_prec; [done|lia].
  - destruct (Z.eqb_spec d (chr "*"%char)); [|apply decode_qualifier_ok; [lia|lia|done]].
    cbn [returns]. unfold decoded. assert (p + 1 < len) by (apply Hlt0; lia).
    split; [lia|]. split; [lia|]. split; [auto with specs|]. split; [right; lia|]. simpl. auto.
Qed.

Lemma literal_ok p :
  0 <= p <= len ->
  returns (loop (S (length fmt)) (literal_turn fmt) p)
    (fun '(q, c) => p <= q <= len /\ rd fmt q = Ret c /\ (c = 0 \/ c = chr "%"%char)).
Proof using Hfmt.
  intros Hp. apply (loop_returns (fun q => p <= q <= len) (fun q => Z.to_nat (len - q))); [lia| |].
  - pose proof fmt_length. lia.
  - intros q Hq. unfold literal_turn. read_char q c. cbn [returns].
    destruct (Z.eqb_spec c 0); [simpl; auto with lia|].
    destruct (Z.eqb_spec c (chr "%"%char)); simpl; [split; [lia|auto]|].
    assert (q < len) by auto. lia.
Qed.

Lemma flags_ok p s :
  0 <= p < len -> spec_ok s ->
  returns (loop (S (length fmt)) (flags_turn fmt) (p, s))
    (fun '(q, c, s) => p < q <= len /\ rd fmt q = Ret c /\ spec_ok s).
Proof using Hfmt.
  intros Hp Hs.
  apply (loop_returns (fun '(q, s) => p <= q < len /\ spec_ok s)
    (fun '(q, s) => Z.to_nat (len - q))); [split; [lia|done]| |].
  - pose proof fmt_length. lia.
  - intros [q s'] [Hq Hs']. unfold flags_turn. read_char (q + 1) c. cbn [returns].
    assert (Hgo : forall f, c <> 0 -> (p <= q + 1 < len /\ spec_ok (add_flag f s')) /\
      (Z.to_nat (len - (q + 1)) < Z.to_nat (len - q))%nat).
    { intros g Hc. pose proof (Hlt Hc). split; [|lia]. split; [lia|auto with specs]. }
    repeat match goal with
    | |- context [c =? ?x] => destruct (Z.eqb_spec c x); [apply Hgo; lia|]
    end.
    split; [lia|done].
Qed.

Lemma format_decode_ok p s :
  0 <= p < len -> spec_inv s -> returns (format_decode fmt p s) (decoded p).
Proof using Hfmt.
  intros Hp Hi. unfold format_decode.
  destruct (Z.eqb_spec (sp_type s) FORMAT_TYPE_WIDTH) as [Ew|Ew].
  { assert (Hs : spec_ok s) by (apply spec_inv_ok; [done|by rewrite Ew]).
    apply decode_precision_ok; [lia|lia|]. destruct (sp_width s <? 0); auto with specs. }
  destruct (Z.eqb_spec (sp_type s) FORMAT_TYPE_PRECISION) as [Ep|Ep].
  { apply decode_qualifier_ok; [lia|lia|]. apply spec_ok_type. destruct Hi as (Hw & Hf & Hpr & _).
    destruct (Z.ltb_spec (sp_prec s) 0); (split; [exact Hw|]; split; [exact Hf|]); [|lia].
    split; by vm_compute. }
  assert (Hs : spec_ok s) by (by apply spec_inv_ok).
  eapply returns_bind; [apply literal_ok; lia|]. intros [q c] (Hq & Hc & Hcase). cbv zeta.
  destruct (fmt_rd p) as (c0 & Hc0 & _ & _ & Hnz); [lia|].
  destruct (Z.eqb_spec q p) as [->|Hne]; cbn [negb orb].
  2:{ cbn [returns]. unfold decoded. split; [lia|]. split; [lia|]. split; [auto with specs|].
      split; [right; lia|]. by left. }
  assert (c <> 0). { rewrite Hc in Hc0. simplify_eq. apply Hnz. lia. }
  rewrite (proj2 (Z.eqb_neq c 0)) by done.
  eapply returns_bind; [apply flags_ok; [lia|auto with specs]|]. intros [[r d] s'] (Hr & Hd & Hs').
  destruct (isdigit d) eqn:Ed.
  { eapply returns_bind; [eapply skip_atoi_ok; [exact Hd|done|lia]|]. intros [r' n] Hr'.
    apply decode_precision_ok; [lia|lia|auto with specs]. }
  destruct (Z.eqb_spec d (chr "*"%char)); [|apply decode_precision_ok; [lia|lia|auto with specs]].
  cbn [returns]. unfold decoded.
  assert (r < len).
  { destruct (fmt_rd r) as (d' & Ed' & _ & Hlt & _); [lia|]. rewrite Hd in Ed'. simplify_eq. by apply Hlt. }
  split; [lia|]. split; [lia|]. split; [auto with specs|]. split; [right; lia|]. simpl. auto.
Qed.

Lemma alnum_ok p :
  0 <= p <= len -> returns (loop (S (length fmt)) (alnum_turn fmt) p) (fun q => p <= q <= len).
Proof using Hfmt.
  intros Hp. apply (loop_returns (fun q => p <= q <= len) (fun q => Z.to_nat (len - q))); [lia| |].
  - pose proof fmt_length. lia.
  - intros q Hq. unfold alnum_turn. read_char q c. cbn [returns].
    destruct (isalnum c) eqn:Ea; [|lia]. assert (q < len) by (apply Hlt; intros ->; done). lia.
Qed.
End decode.
