(* ===== verification/PrintRender.v ===== *)
(** * The text a format denotes, and vsnprintf against it

    [render] computes the whole text of a format and its arguments, with no
    buffer in sight.  [vsnprintf] runs in step with it: it prints that text. *)
From Stdlib Require Import ZArith Lia Ascii.
From stdpp Require Import base numbers list option strings.
From S2P Require Import Prelude SortHeap Ctype KstrtoxFacts Vsprintf PrintDigits.
From S2P Require Import PrintBuffer PrintFormat.

Definition of_option {A} (x : option A) : outcome A :=
  match x with Some a => Ret a | None => Fault end.

(** ** The texts of the conversions *)

Definition error_text (s : printf_spec) (l : list Z) : option (list Z) :=
  string_text (if sp_prec s =? -1 then set_prec 16 s else s) l.

Definition checked_text (s : printf_spec) (a : Z) (k : option (list Z)) : option (list Z) :=
  match check_pointer_msg a with Some m => error_text s m | None => k end.

Definition hex_spec : printf_spec :=
  mk_spec FORMAT_TYPE_PTR 18 (Z.lor SPECIAL (Z.lor SMALL ZEROPAD)) 16 (-1).

Definition address_spec (s : printf_spec) : printf_spec :=
  let s := add_flag SMALL (set_base 16 s) in
  if sp_width s =? -1 then add_flag ZEROPAD (set_width 16 s) else s.

(** The character conversion pads by the 24-bit counter, once or twice. *)
Definition char_step (s : printf_spec) : printf_spec :=
  set_width (let n := sx24 (sp_width s - 1) in if 0 <? n then 0 else n) s.
Definition char_text (s : printf_spec) (c : Z) : list Z :=
  if flag s LEFT then c :: blanks (sx24 (sp_width s - 1))
  else blanks (sx24 (sp_width s - 1)) ++ c :: blanks (sx24 (sp_width (char_step s) - 1)).
Definition char_spec (s : printf_spec) : printf_spec :=
  if flag s LEFT then char_step s else char_step (char_step s).

Section render.
Variable mem : Z -> list Z.
Variable symbolic : bool.

(** [c] is the character behind the p. *)
Definition pointer_text (c a : Z) (s : printf_spec) : option (list Z) :=
  if c =? chr "a"%char then
    checked_text s a
      (match rd64 (mem a) with Ret n => Some (number_text hex_spec n) | _ => None end)
  else if (c =? chr "e"%char) && IS_ERR_VALUE a then
    match errname symbolic (s32 a) with
    | Some n => string_text s (n ++ [0])
    | None => Some (number_text (set_base 10 (add_flag SIGN s)) (u64 (s32 a)))
    end
  else Some (number_text (address_spec s) a).

Definition render_conversion (fmt : list Z) (q : Z) (spec : printf_spec) (args out : list Z)
  : outcome (Z * printf_spec * list Z * list Z + list Z) :=
  let ty := sp_type spec in
  if ty =? FORMAT_TYPE_CHAR then
    '(a, args) ← va_arg args;
    Ret (inl (q, char_spec spec, args, out ++ char_text spec (u8 (s32 a))))
  else if ty =? FORMAT_TYPE_STR then
    '(a, args) ← va_arg args;
    t ← of_option (checked_text spec a (string_text spec (mem a)));
    Ret (inl (q, spec, args, out ++ t))
  else if ty =? FORMAT_TYPE_PTR then
    '(a, args) ← va_arg args;
    c ← rd fmt q;
    t ← of_option (pointer_text c a spec);
    q ← loop (S (length fmt)) (alnum_turn fmt) q;
    Ret (inl (q, spec, args, out ++ t))
  else if ty =? FORMAT_TYPE_PERCENT_CHAR then
    Ret (inl (q, spec, args, out ++ [chr "%"%char]))
  else if ty =? FORMAT_TYPE_INVALID then Ret (inr out)
  else
    '(a, args) ← va_arg args;
    Ret (inl (q, spec, args, out ++ number_text spec (integer_arg ty (sp_flags spec) a))).

Definition render_turn (fmt : list Z) (st : Z * printf_spec * list Z * list Z)
  : outcome (Z * printf_spec * list Z * list Z + list Z) :=
  let '(p, spec, args, out) := st in
  c ← rd fmt p;
  if c =? 0 then Ret (inr out)
  else
    '(read, spec) ← format_decode fmt p spec;
    let q := p + read in
    let ty := sp_type spec in
    if ty =? FORMAT_TYPE_NONE then
      Ret (inl (q, spec, args, out ++ take (Z.to_nat read) (drop (Z.to_nat p) fmt)))
    else if ty =? FORMAT_TYPE_WIDTH then
      '(a, args) ← va_arg args; Ret (inl (q, set_field_width spec (s32 a), args, out))
    else if ty =? FORMAT_TYPE_PRECISION then
      '(a, args) ← va_arg args; Ret (inl (q, set_precision spec (s32 a), args, out))
    else render_conversion fmt q spec args out.

Definition render (fmt args : list Z) : outcome (list Z) :=
  loop (S (length fmt)) (render_turn fmt) (0, mk_spec 0 0 0 0 0, args, []).
End render.

(** ** The conversions print their texts *)

Lemma spec_number s :
  spec_ok s -> sp_base s = 8 \/ sp_base s = 10 \/ sp_base s = 16 -> number_spec s.
Proof. intros (_ & Hf & Hp) Hb. split; [done|]. split; [done|lia]. Qed.

Lemma hex_spec_number : number_spec hex_spec.
Proof. split; [simpl; auto|]. split; [split; by vm_compute|by vm_compute]. Qed.

Section conversions.
Variable b0 : list Z.
Variable end_ : Z.
Hypothesis Hend : 0 <= end_.
Local Abbreviation printed := (printed b0 end_).
Local Abbreviation room := (room b0 end_).

(** The pointers and words of the va_list, and bytes in memory. *)
Variable mem : Z -> list Z.
Variable symbolic : bool.
Hypothesis Hmem : forall a, Forall byte (mem a).

Definition short (t : list Z) : Prop := Z.of_nat (length t) < 2 ^ 30.

Lemma check_pointer_ok s out a t k :
  spec_ok s -> checked_text s a k = Some t -> short t -> room (out ++ t) ->
  match check_pointer_msg a with
  | Some _ => check_pointer end_ (printed out) a s = Ret (Some (printed (out ++ t)))
  | None => check_pointer end_ (printed out) a s = Ret None /\ k = Some t
  end.
Proof using Hend.
  intros Hs Ht Hl Hr. unfold checked_text, check_pointer in *.
  destruct (check_pointer_msg a) as [m|]; [|done]. unfold error_string, error_text in *.
  rewrite (string_nocheck_ok _ _ Hend _ _ _ t); try done.
  destruct (sp_prec s =? -1); [apply spec_ok_prec; [done|by vm_compute]|done].
Qed.

Lemma string_ok s out a t :
  spec_ok s -> checked_text s a (string_text s (mem a)) = Some t -> short t -> room (out ++ t) ->
  string mem end_ (printed out) a s = Ret (printed (out ++ t)).
Proof using Hend.
  intros Hs Ht Hl Hr. pose proof (check_pointer_ok s out a t _ Hs Ht Hl Hr) as H.
  unfold string. destruct (check_pointer_msg a); [by rewrite H|]. destruct H as [-> Hk].
  rewrite bind_ret. by apply string_nocheck_ok.
Qed.

Lemma rd64_range l n : Forall byte l -> rd64 l = Ret n -> 0 <= n < 2 ^ 64.
Proof.
  intros Hl E. unfold rd64 in E.
  assert (Hb : forall i b, rd l i = Ret b -> byte b).
  { intros i b Hb. apply rd_Ret in Hb as [_ Hb]. by eapply Forall_lookup_1. }
  repeat match type of E with
  | (rd ?l ?i ≫= _) = _ =>
      let b := fresh "b" in let Eb := fresh "Eb" in
      apply bind_Ret_inv in E as (b & Eb & E); apply Hb in Eb; unfold byte in Eb
  end. simplify_eq. lia.
Qed.

Lemma pointer_ok fmt p s out a t c :
  spec_ok s -> 0 <= a < 2 ^ 64 -> rd fmt p = Ret c -> (c <> 0 -> exists d, rd fmt (p + 1) = Ret d) ->
  pointer_text mem symbolic c a s = Some t -> short t -> room (out ++ t) ->
  pointer mem symbolic fmt p end_ (printed out) a s = Ret (printed (out ++ t)).
Proof using Hend Hmem.
  intros Hs Ha Hc Hnext Ht Hl Hr. unfold pointer, pointer_text in *. rewrite Hc, bind_ret.
  destruct (Z.eqb_spec c (chr "a"%char)) as [Ec|Ec].
  { destruct Hnext as [d Hd]; [lia|].
    pose proof (check_pointer_ok s out a t _ Hs Ht Hl Hr) as H. unfold address_val.
    destruct (check_pointer_msg a); [by rewrite H|]. destruct H as [-> Hk]. rewrite bind_ret, Hd, bind_ret.
    destruct (rd64 (mem a)) as [n| | |] eqn:En; try done. simplify_eq. rewrite bind_ret.
    unfold special_hex_number. change (mk_spec _ _ _ _ _) with hex_spec.
    apply number_ok; [done|apply hex_spec_number| |done]. eapply rd64_range; [apply Hmem|done]. }
  destruct ((c =? chr "e"%char) && IS_ERR_VALUE a).
  - unfold err_ptr. destruct (errname symbolic (s32 a)) as [n|].
    + by apply string_nocheck_ok.
    + simplify_eq. apply number_ok; [done| |pose proof (u64_range (s32 a)); lia|done].
      apply spec_number; [auto with specs|simpl; auto].
  - simplify_eq. unfold pointer_string. apply number_ok; [done| |done|done].
    apply spec_number; [|unfold address_spec; case_match; simpl; auto].
    unfold address_spec. case_match; auto 6 with specs.
Qed.

Lemma char_ok {R} s out a t args (k : printf_spec -> list Z -> list Z * Z -> outcome R) :
  t = char_text s (u8 (s32 a)) -> room (out ++ t) ->
  ('(s, o) ← (if negb (flag s LEFT) then char_pad end_ s (printed out) else Ret (s, printed out));
   '(a, args) ← va_arg (a :: args);
   o ← putc end_ (u8 (s32 a)) o;
   '(s, o) ← char_pad end_ s o;
   k s args o) = k (char_spec s) args (printed (out ++ t)).
Proof using Hend.
  intros -> Hr. unfold char_text, char_spec in *. destruct (flag s LEFT); cbn [negb].
  - rewrite bind_ret. cbn [va_arg]. rewrite bind_ret, (app_snoc out) in *.
    rewrite putc_ok by (done || by eapply room_app_l). rewrite bind_ret.
    by rewrite char_pad_ok.
  - rewrite app_assoc in Hr.
    rewrite char_pad_ok by (done || by eapply room_app_l). rewrite bind_ret. cbn [va_arg].
    rewrite (app_snoc (out ++ _)) in Hr.
    rewrite bind_ret, putc_ok by (done || by eapply room_app_l). rewrite bind_ret.
    rewrite char_pad_ok by done. by rewrite bind_ret, <- !app_assoc.
Qed.
End conversions.

(** ** vsnprintf in step with render *)

Definition word (a : Z) : Prop := 0 <= a < 2 ^ 64.

Lemma integer_arg_range ty fl a : word a -> word (integer_arg ty fl a).
Proof.
  unfold word. intros Ha. unfold integer_arg.
  pose proof (u8_range (s32 a)). pose proof (Z.mod_pos_bound (s32 a) (2 ^ 16) ltac:(lia)).
  fold (u16 (s32 a)) in *.
  pose proof (u32_range a). pose proof (u64_range (s64 a)). pose proof (u64_range (s32 a)).
  pose proof (u64_range ((s32 a + 2 ^ 7) mod 2 ^ 8 - 2 ^ 7)).
  pose proof (u64_range ((s32 a + 2 ^ 15) mod 2 ^ 16 - 2 ^ 15)).
  repeat match goal with |- context [if ?c then _ else _] => destruct c end; lia.
Qed.

Lemma va_arg_Ret args a rest : va_arg args = Ret (a, rest) -> args = a :: rest.
Proof. destruct args; simpl; intros; by simplify_eq. Qed.

Lemma short_app_r out t : short (out ++ t) -> short t.
Proof. unfold short. rewrite length_app. lia. Qed.

Section simulation.
Variable b0 : list Z.
Variable end_ : Z.
Hypothesis Hend : 0 <= end_.
Local Abbreviation printed := (printed b0 end_).
Local Abbreviation room := (room b0 end_).
Variable mem : Z -> list Z.
Variable symbolic : bool.
Hypothesis Hmem : forall a, Forall byte (mem a).
Variables fmt f : list Z.
Hypothesis Hfmt : cstr fmt 0 f.
Hypothesis Hlen : Z.of_nat (length f) < 2 ^ 31.
Local Abbreviation len := (Z.of_nat (length f)).

(** The states between two directives. *)
Definition ready (p : Z) (spec : printf_spec) (args : list Z) : Prop :=
  0 <= p <= len /\ spec_inv spec /\ Forall word args.

(** What a turn of [render] promises about the same turn [m] of
    [vsnprintf]. *)
Definition in_step (p : Z) (out : list Z) (r : Z * printf_spec * list Z * list Z + list Z)
    (m : outcome (Z * printf_spec * list Z * (list Z * Z) + list Z * Z)) : Prop :=
  match r with
  | inl (p', spec', args', out') =>
      p < p' /\ ready p' spec' args' /\ (exists t, out' = out ++ t) /\
      (short out' -> room out' -> m = Ret (inl (p', spec', args', printed out')))
  | inr out' => out' = out /\ m = Ret (inr (printed out))
  end.

Lemma conversion_ok p q s args out r :
  (sp_type s = FORMAT_TYPE_INVALID \/ p < q) -> spec_ok s ->
  sp_base s = 8 \/ sp_base s = 10 \/ sp_base s = 16 ->
  ready q s args -> render_conversion mem symbolic fmt q s args out = Ret r ->
  in_step p out r (convert mem symbolic end_ fmt q s args (printed out)).
Proof using Hend Hmem Hfmt Hlen.
  intros Hpq Hs Hb (Hq & Hi & Ha). unfold render_conversion, convert, in_step.
  assert (Hspec : forall q' s' args', q <= q' <= len -> spec_ok s' -> Forall word args' -> ready q' s' args').
  { intros q' s' args' ? ? ?. split; [lia|]. split; [by apply spec_ok_inv|done]. }
  assert (Harg : forall a rest, va_arg args = Ret (a, rest) -> args = a :: rest /\ word a /\ Forall word rest).
  { intros a rest Hv. apply va_arg_Ret in Hv as ->. apply Forall_cons_1 in Ha. tauto. }
  assert (Hlt : sp_type s <> FORMAT_TYPE_INVALID -> p < q) by tauto.
  destruct (Z.eqb_spec (sp_type s) FORMAT_TYPE_CHAR) as [E|_].
  { intros Hr. apply bind_Ret_inv in Hr as ([a args'] & Hva & [= <-]). destruct (Harg _ _ Hva) as (-> & Hw & Ha').
    split; [apply Hlt; by rewrite E|].
    split; [apply Hspec; [lia| |done]; unfold char_spec, char_step; destruct (flag s LEFT); auto with specs|].
    split; [eauto|]. intros Hsh Hr.
    exact (char_ok b0 end_ Hend s out a _ args' (fun s args o => Ret (inl (q, s, args, o))) eq_refl Hr). }
  destruct (Z.eqb_spec (sp_type s) FORMAT_TYPE_STR) as [E|_].
  { intros Hr. apply bind_Ret_inv in Hr as ([a args'] & Hva & Hr). destruct (Harg _ _ Hva) as (-> & Hw & Ha').
    apply bind_Ret_inv in Hr as (t & Ht & [= <-]). destruct (checked_text _ _ _) as [t'|] eqn:Et; [|done].
    simpl in Ht. simplify_eq. split; [apply Hlt; by rewrite E|]. split; [by apply Hspec; [lia|..]|].
    split; [eauto|]. intros Hsh Hr. cbn [va_arg].
    by rewrite bind_ret, (string_ok b0 end_ Hend _ _ _ _ t) by (done || by eapply short_app_r). }
  destruct (Z.eqb_spec (sp_type s) FORMAT_TYPE_PTR) as [E|_].
  { intros Hr. apply bind_Ret_inv in Hr as ([a args'] & Hva & Hr). destruct (Harg _ _ Hva) as (-> & Hw & Ha').
    apply bind_Ret_inv in Hr as (c & Hc & Hr). apply bind_Ret_inv in Hr as (t & Ht & Hr).
    apply bind_Ret_inv in Hr as (q' & Hq' & [= <-]). destruct (pointer_text _ _ _ _ _) as [t'|] eqn:Et; [|done].
    simpl in Ht. simplify_eq. pose proof (alnum_ok fmt f Hfmt q Hq) as Hal. rewrite Hq' in Hal. cbn [returns] in Hal.
    assert (p < q) by (apply Hlt; by rewrite E).
    split; [lia|]. split; [by apply Hspec; [lia|..]|]. split; [eauto|]. intros Hsh Hr.
    cbn [va_arg]. rewrite bind_ret, (pointer_ok b0 end_ Hend mem symbolic Hmem _ _ _ _ _ t c), bind_ret, Hq';
      try (done || by eapply short_app_r).
    intros Hcne. destruct (fmt_rd fmt f Hfmt q Hq) as (c' & Ec & _ & Hin & _). rewrite Hc in Ec. simplify_eq.
    destruct (fmt_rd fmt f Hfmt (q + 1)) as (d & Ed & _); [specialize (Hin Hcne); lia|eauto]. }
  destruct (Z.eqb_spec (sp_type s) FORMAT_TYPE_PERCENT_CHAR) as [E|_].
  { intros [= <-]. split; [apply Hlt; by rewrite E|]. split; [by apply Hspec; [lia|..]|].
    split; [eauto|]. intros _ Hr. by rewrite putc_ok. }
  destruct (Z.eqb_spec (sp_type s) FORMAT_TYPE_INVALID) as [E|Ei]; [intros [= <-]; done|].
  intros Hr. apply bind_Ret_inv in Hr as ([a args'] & Hva & [= <-]). destruct (Harg _ _ Hva) as (-> & Hw & Ha').
  split; [by apply Hlt|]. split; [by apply Hspec; [lia|..]|]. split; [eauto|]. intros Hsh Hr. cbn [va_arg].
  by rewrite bind_ret, number_ok by (done || by apply spec_number || by apply integer_arg_range).
Qed.

Lemma render_turn_ok p spec args out r :
  ready p spec args -> render_turn mem symbolic fmt (p, spec, args, out) = Ret r ->
  in_step p out r (vsnprintf_turn mem symbolic end_ fmt (p, spec, args, printed out)).
Proof using Hend Hmem Hfmt Hlen.
  intros (Hp & Hi & Ha). unfold render_turn, in_step, vsnprintf_turn.
  destruct (fmt_rd fmt f Hfmt p Hp) as (c & -> & _ & Hlt & _). rewrite !bind_ret.
  destruct (Z.eqb_spec c 0) as [->|Hc]; [intros; by simplify_eq|].
  pose proof (format_decode_ok fmt f Hfmt p spec ltac:(auto with lia) Hi) as Hd.
  apply returns_inv in Hd as ([read s] & -> & (Hread & Hq & Hok & Hprog & Hbase)).
  rewrite !bind_ret. cbv zeta.
  assert (Hready : forall s' args', spec_inv s' -> Forall word args' -> ready (p + read) s' args').
  { intros s' args' ? ?. split; [lia|done]. }
  destruct (Z.eqb_spec (sp_type s) FORMAT_TYPE_NONE) as [E|E0].
  { intros [= <-]. assert (0 < read) by (destruct Hprog as [Hx|]; [by rewrite E in Hx|done]).
    split; [lia|]. split; [by apply Hready; [apply spec_ok_inv|]|]. split; [eauto|].
    intros Hs Hr. pose proof (fmt_length fmt f Hfmt).
    pose proof (literal_out_ok b0 end_ Hend fmt p read out ltac:(lia) ltac:(lia) ltac:(lia) Hr) as Hl.
    rewrite (printed_pair b0 end_ out). cbv beta iota. cbv zeta in Hl. rewrite Hl, bind_ret.
    rewrite (printed_pair b0 end_ (out ++ _)). do 4 f_equal.
    rewrite length_app, length_take, length_drop. lia. }
  destruct (Z.eqb_spec (sp_type s) FORMAT_TYPE_WIDTH) as [E|E1].
  { intros Hr. apply bind_Ret_inv in Hr as ([a args'] & Hva & [= <-]).
    apply va_arg_Ret in Hva as ->. apply Forall_cons_1 in Ha as [_ Ha].
    assert (0 < read) by (destruct Hprog as [Hx|]; [by rewrite E in Hx|done]).
    split; [lia|]. split; [apply Hready; [by apply set_field_width_inv|done]|].
    split; [exists []; by rewrite app_nil_r|done]. }
  destruct (Z.eqb_spec (sp_type s) FORMAT_TYPE_PRECISION) as [E|E2].
  { intros Hr. apply bind_Ret_inv in Hr as ([a args'] & Hva & [= <-]).
    apply va_arg_Ret in Hva as ->. apply Forall_cons_1 in Ha as [_ Ha].
    assert (0 < read) by (destruct Hprog as [Hx|]; [by rewrite E in Hx|done]).
    split; [lia|]. split; [apply Hready; [by apply set_precision_inv|done]|].
    split; [exists []; by rewrite app_nil_r|done]. }
  apply conversion_ok; [destruct Hprog; [by left|right; lia]|done|tauto|].
  apply Hready; [by apply spec_ok_inv|done].
Qed.

Lemma render_loop_ok n : forall p spec args out full,
  ready p spec args -> loop n (render_turn mem symbolic fmt) (p, spec, args, out) = Ret full ->
  (exists t, full = out ++ t) /\
  (short full -> room full ->
   loop n (vsnprintf_turn mem symbolic end_ fmt) (p, spec, args, printed out) = Ret (printed full)).
Proof using Hend Hmem Hfmt Hlen.
  induction n as [|n IH]; intros p spec args out full Hrd E; [done|]. rewrite loop_S in E.
  apply bind_Ret_inv in E as (r & Er & E). pose proof (render_turn_ok _ _ _ _ _ Hrd Er) as Hstep.
  destruct r as [[[[p' spec'] args'] out']|out'].
  - destruct Hstep as (_ & Hrd' & [t ->] & Hrun). destruct (IH _ _ _ _ _ Hrd' E) as [[t' ->] Hloop].
    split; [exists (t ++ t'); by rewrite app_assoc|]. intros Hs Hr.
    assert (Hs' : short (out ++ t)) by (unfold short in *; rewrite length_app in Hs; lia).
    rewrite (loop_inl _ _ _ _ (Hrun Hs' (room_app_l _ _ _ _ Hr))). by apply Hloop.
  - destruct Hstep as [-> Hrun]. simplify_eq. split; [exists []; by rewrite app_nil_r|]. intros _ _.
    by rewrite (loop_inr _ _ _ _ Hrun).
Qed.
End simulation.

Lemma ready_start f args : Forall word args -> ready f 0 (mk_spec 0 0 0 0 0) args.
Proof.
  intros Ha. split; [lia|]. split; [|done].
  split; [by vm_compute|]. split; [split; by vm_compute|]. split; [by vm_compute|done].
Qed.

(** ** render is total *)

Section total.
Variable mem : Z -> list Z.
Variable symbolic : bool.
Variables fmt f : list Z.
Hypothesis Hfmt : cstr fmt 0 f.
Local Abbreviation len := (Z.of_nat (length f)).

(** An argument that a pointer conversion may follow: the code replaces it
    by an error text, or a terminated string of at least 8 bytes is there. *)
Definition readable (a : Z) : Prop :=
  check_pointer_msg a = None -> In 0 (mem a) /\ (8 <= length (mem a))%nat.

Lemma str_prefix_some lim l : In 0 l -> exists t, str_prefix lim l = Some t.
Proof.
  revert lim. induction l as [|c l IH]; intros lim Hin; [done|].
  assert (H : exists t, (if c =? 0 then Some [] else t ← str_prefix (pred <$> lim) l; Some (c :: t)) = Some t).
  { destruct (Z.eqb_spec c 0); [eauto|]. destruct Hin as [?|Hin]; [done|].
    destruct (IH (pred <$> lim) Hin) as [t ->]. simpl. eauto. }
  destruct lim as [[|k]|]; [simpl; eauto|exact H..].
Qed.

Lemma string_text_some s l : In 0 l -> exists t, string_text s l = Some t.
Proof.
  intros Hin. unfold string_text. destruct (str_prefix_some (str_limit s) l Hin) as [t ->]. simpl. eauto.
Qed.

Lemma checked_text_some s a k :
  (check_pointer_msg a = None -> exists t, k = Some t) -> exists t, checked_text s a k = Some t.
Proof.
  intros Hk. unfold checked_text. destruct (check_pointer_msg a) as [m|] eqn:E; [|auto].
  apply string_text_some. unfold check_pointer_msg in E. repeat case_match; simplify_eq; simpl; tauto.
Qed.

Lemma rd64_some l : (8 <= length l)%nat -> exists n, rd64 l = Ret n.
Proof.
  intros Hl. unfold rd64.
  repeat match goal with
  | |- context [rd l ?i ≫= _] =>
      let x := fresh "x" in let E := fresh "E" in
      destruct (rd_in_range l i) as (x & E & _); [lia|]; rewrite E, bind_ret; clear E
  end. eauto.
Qed.

Lemma pointer_text_some c a s : readable a -> exists t, pointer_text mem symbolic c a s = Some t.
Proof.
  intros Hr. unfold pointer_text. destruct (c =? chr "a"%char).
  - apply checked_text_some. intros E. destruct (Hr E) as [_ Hl].
    destruct (rd64_some _ Hl) as [n ->]. eauto.
  - destruct ((c =? chr "e"%char) && IS_ERR_VALUE a); [|eauto].
    destruct (errname symbolic (s32 a)); [|eauto]. apply string_text_some.
    apply in_app_iff. right. by left.
Qed.

Definition args_from (args args' : list Z) : Prop := args' = args \/ args' = tail args.

Ltac found := eexists; split; [reflexivity|cbv iota beta; auto].

Lemma conversion_total q s args out :
  0 <= q <= len -> args <> [] -> Forall readable args ->
  exists r, render_conversion mem symbolic fmt q s args out = Ret r /\
    match r with inl (_, _, args', _) => args_from args args' | inr _ => True end.
Proof using Hfmt.
  intros Hq Hne Hr. destruct args as [|a args]; [done|]. apply Forall_cons_1 in Hr as [Ha _].
  unfold render_conversion, args_from. cbn [va_arg tail]. rewrite !bind_ret. cbv zeta.
  destruct (sp_type s =? FORMAT_TYPE_CHAR); [found|].
  destruct (sp_type s =? FORMAT_TYPE_STR).
  { destruct (checked_text_some s a (string_text s (mem a))) as [t ->]; [|found].
    intros E. apply string_text_some. by apply Ha. }
  destruct (sp_type s =? FORMAT_TYPE_PTR).
  { destruct (fmt_rd fmt f Hfmt q Hq) as (c & -> & _). rewrite bind_ret.
    destruct (pointer_text_some c a s Ha) as [t ->]. simpl of_option. rewrite bind_ret.
    pose proof (alnum_ok fmt f Hfmt q Hq) as Hal. apply returns_inv in Hal as (q' & -> & _).
    rewrite bind_ret. found. }
  destruct (sp_type s =? FORMAT_TYPE_PERCENT_CHAR); [found|].
  destruct (sp_type s =? FORMAT_TYPE_INVALID); found.
Qed.

Lemma render_turn_total p spec args out :
  ready f p spec args -> (p < len -> args <> []) -> Forall readable args ->
  exists r, render_turn mem symbolic fmt (p, spec, args, out) = Ret r /\
    match r with inl (_, _, args', _) => args_from args args' | inr _ => True end.
Proof using Hfmt.
  intros (Hp & Hi & _) Hne Hr. unfold render_turn.
  destruct (fmt_rd fmt f Hfmt p Hp) as (c & -> & _ & Hlt & _). rewrite bind_ret.
  destruct (Z.eqb_spec c 0) as [->|Hc]; [found|]. specialize (Hlt Hc). specialize (Hne Hlt).
  pose proof (format_decode_ok fmt f Hfmt p spec ltac:(lia) Hi) as Hd.
  apply returns_inv in Hd as ([read s] & -> & (Hread & Hq & _)). rewrite bind_ret. cbv zeta.
  destruct args as [|a args]; [done|]. cbn [va_arg]. rewrite !bind_ret.
  destruct (sp_type s =? FORMAT_TYPE_NONE); [eexists; split; [done|by left]|].
  destruct (sp_type s =? FORMAT_TYPE_WIDTH); [eexists; split; [done|by right]|].
  destruct (sp_type s =? FORMAT_TYPE_PRECISION); [eexists; split; [done|by right]|].
  apply conversion_total; [lia|done|done].
Qed.

(** With enough arguments, and terminated strings behind the pointers, the
    whole text exists. *)
Lemma render_total args :
  Z.of_nat (length f) < 2 ^ 31 -> (forall a, Forall byte (mem a)) -> Forall word args ->
  (length f <= length args)%nat -> Forall readable args ->
  exists out, render mem symbolic fmt args = Ret out.
Proof using Hfmt.
  intros Hlen Hmem Hw Hn Hr. unfold render.
  assert (H : returns (loop (S (length fmt)) (render_turn mem symbolic fmt)
    (0, mk_spec 0 0 0 0 0, args, [])) (fun _ => True)).
  { apply (loop_returns (fun '(p, spec, args, _) => ready f p spec args /\ Forall readable args /\
      len - p <= Z.of_nat (length args)) (fun '(p, _, _, _) => Z.to_nat (len - p))).
    - split; [by apply ready_start|]. split; [done|lia].
    - pose proof (fmt_length fmt f Hfmt). lia.
    - intros [[[p spec] args'] out] (Hrd & Hr' & Hlen').
      destruct (render_turn_total p spec args' out Hrd) as (r & E & Ht); [|done|].
      { intros ? ->. simpl in Hlen'. lia. }
      pose proof (render_turn_ok [] 0 ltac:(lia) mem symbolic Hmem fmt f Hfmt Hlen _ _ _ _ _ Hrd E) as Hs.
      rewrite E. cbn [returns]. destruct r as [[[[p' spec'] args2] out']|]; [|done].
      destruct Hs as (Hpp & Hrd' & _). pose proof Hrd' as ([? ?] & _ & _).
      split; [|lia]. split; [done|]. destruct Ht as [-> | ->]; [split; [done|lia]|].
      split; [destruct args'; [done|by apply Forall_cons_1 in Hr' as [_ ?]]|]. destruct args'; simpl in *; lia. }
  apply returns_inv in H as (out & E & _). eauto.
Qed.
End total.

(** ** The whole call *)

(** Where the output ends: at [size], or before the top of the address space. *)
Definition capacity (addr size : Z) : Z :=
  if 2 ^ 64 <=? addr + size then 2 ^ 64 - 1 - addr else size.

(** The buffer afterwards: the text cut to leave room for the terminator. *)
Definition terminated (cap : Z) (out buf : list Z) : list Z :=
  if cap =? 0 then buf
  else let t := take (Z.to_nat (cap - 1)) out in t ++ 0 :: drop (S (length t)) buf.

Lemma wr_drop (a b : list Z) y p :
  p = Z.of_nat (length a) -> (length a < length b)%nat ->
  wr (a ++ drop (length a) b) p y = Ret (a ++ y :: drop (S (length a)) b).
Proof.
  intros Hp Hl. destruct (lookup_lt_is_Some_2 b (length a)) as [x Hx]; [done|].
  rewrite (drop_S _ _ _ Hx). by apply wr_app.
Qed.

Lemma terminate_ok buf end_ out :
  0 <= end_ -> Z.min (Z.of_nat (length out) + 1) end_ <= Z.of_nat (length buf) ->
  (if 0 <? end_ then
     if Z.of_nat (length out) <? end_ then wr (fst (printed buf end_ out)) (Z.of_nat (length out)) 0
     else wr (fst (printed buf end_ out)) (end_ - 1) 0
   else Ret (fst (printed buf end_ out))) = Ret (terminated end_ out buf).
Proof.
  intros He Hr. unfold terminated, printed. simpl.
  destruct (Z.ltb_spec 0 end_); [|assert (end_ = 0) as -> by lia; simpl; by rewrite drop_0].
  rewrite (proj2 (Z.eqb_neq end_ 0)) by lia. cbv zeta.
  destruct (Z.ltb_spec (Z.of_nat (length out)) end_).
  - rewrite !take_ge by lia. apply wr_drop; [done|lia].
  - set (t := take (Z.to_nat (end_ - 1)) out).
    assert (Ht : length t = Z.to_nat (end_ - 1)) by (subst t; rewrite length_take; lia).
    destruct (lookup_lt_is_Some_2 out (Z.to_nat (end_ - 1))) as [c Hc]; [lia|].
    assert (E : take (Z.to_nat end_) out = t ++ [c]).
    { replace (Z.to_nat end_) with (S (Z.to_nat (end_ - 1))) by lia. by apply take_S_r. }
    rewrite E, <- app_assoc. simpl. rewrite length_app, Ht. simpl.
    rewrite (wr_app t) by lia. do 3 f_equal. f_equal. lia.
Qed.

Lemma vsnprintf_ok mem symbolic addr buf size fmt f args out :
  cstr fmt 0 f -> Z.of_nat (length f) < 2 ^ 31 -> (forall a, Forall byte (mem a)) -> Forall word args ->
  0 <= addr < 2 ^ 64 -> 0 <= size < 2 ^ 31 ->
  Z.min (Z.of_nat (length out) + 1) (capacity addr size) <= Z.of_nat (length buf) ->
  render mem symbolic fmt args = Ret out -> short out ->
  vsnprintf mem symbolic addr buf size fmt args =
    Ret (terminated (capacity addr size) out buf, Z.of_nat (length out)).
Proof.
  intros Hfmt Hlen Hmem Hargs Haddr Hsize Hroom Hr Hs. unfold vsnprintf.
  rewrite (proj2 (Z.ltb_ge (2 ^ 31 - 1) size)) by lia.
  assert (Hcap : (if u64 (addr + size) <? addr then (2 ^ 64 - 1 - addr, 2 ^ 64 - 1 - addr) else (size, size)) =
    (capacity addr size, capacity addr size)).
  { unfold capacity, u64. destruct (Z.leb_spec (2 ^ 64) (addr + size)).
    - rewrite <- (Z_mod_plus_full _ (-1)), Z.mod_small by lia. by zdec.
    - rewrite Z.mod_small by lia. by zdec. }
  rewrite Hcap. set (cap := capacity addr size) in *.
  assert (H0 : 0 <= cap) by (subst cap; unfold capacity; destruct (2 ^ 64 <=? addr + size); lia).
  destruct (render_loop_ok buf cap H0 mem symbolic Hmem fmt f Hfmt Hlen _ _ _ _ _ _
    (ready_start f args Hargs) Hr) as [_ Hloop].
  rewrite <- (printed_nil buf cap), Hloop; [|done|unfold room; lia].
  rewrite bind_ret, printed_pair. cbv beta iota. rewrite terminate_ok by done.
  rewrite bind_ret, s32_small by (unfold short in Hs; lia). done.
Qed.
