(* ===== verification/PrintParse.v ===== *)
(** * What is printed is read back

    The texts of numbers are numerals in the grammar of the number parsers, so
    parsing what was printed gives the number back; and [num_to_str]. *)
From Stdlib Require Import ZArith Lia Ascii.
From stdpp Require Import base numbers list option strings.
From S2P Require Import Prelude SortHeap Ctype Kstrtox KstrtoxFacts Vsprintf PrintDigits PrintBuffer PrintFormat PrintRender.

(** A text with its terminator, as a C string. *)
Lemma cstr_app pre l rest :
  Forall (fun c => 0 < c < 256) l -> cstr (pre ++ l ++ 0 :: rest) (Z.of_nat (length pre)) l.
Proof.
  revert pre. induction l as [|c l IH]; intros pre H; simpl.
  - apply rd_lookup; [lia|]. rewrite Nat2Z.id. by apply list_lookup_middle.
  - apply Forall_cons_1 in H as [Hc H]. split; [|split; [done|]].
    + apply rd_lookup; [lia|]. rewrite Nat2Z.id. by apply list_lookup_middle.
    + rewrite (app_snoc pre). replace (Z.of_nat (length pre) + 1) with (Z.of_nat (length (pre ++ [c])))
        by (rewrite length_app; simpl; lia). by apply IH.
Qed.

(** ** Numerals *)

(** The characters of a number, most significant first. *)
Definition chars (lc b n : Z) : list Z := map (digit_char lc) (rev (le_digits b n)).

Lemma digit_char_byte lc d : lc = 0 \/ lc = 32 -> 0 <= d < 16 -> 0 < digit_char lc d < 256.
Proof.
  intros Hlc Hd. assert (E : forall k, (k < 16)%nat -> 0 < digit_char lc (Z.of_nat k) < 256).
  { intros k Hk. do 16 (destruct k as [|k]; [by destruct Hlc as [-> | ->]|]). lia. }
  specialize (E (Z.to_nat d) ltac:(lia)). by rewrite Z2Nat.id in E by lia.
Qed.

Lemma rev_digits_range b n : 2 <= b -> 0 <= n -> Forall (fun d => 0 <= d < b) (rev (le_digits b n)).
Proof. intros. apply Forall_rev. by apply le_digits_range. Qed.

Lemma chars_bytes lc b n :
  lc = 0 \/ lc = 32 -> 2 <= b <= 16 -> 0 <= n -> Forall (fun c => 0 < c < 256) (chars lc b n).
Proof.
  intros Hlc Hb Hn. unfold chars. apply Forall_map.
  eapply Forall_impl; [apply (rev_digits_range b n); lia|]. intros d Hd. cbn beta in Hd. apply digit_char_byte; [done|lia].
Qed.

Lemma chars_ne lc b n : chars lc b n <> [].
Proof.
  intros E. apply (f_equal length) in E. unfold chars in E. rewrite length_map, length_rev in E.
  pose proof (le_digits_pos b n). simpl in E. lia.
Qed.

Lemma chars_numeral base pre lc b n :
  prefix base b pre (chars lc b n) -> lc = 0 \/ lc = 32 -> 2 <= b <= 16 -> 0 <= n ->
  numeral base (pre ++ chars lc b n) n.
Proof.
  intros Hp Hlc Hb Hn. apply (numeral_intro _ _ _ b pre (chars lc b n) (rev (le_digits b n)) []).
  - by rewrite app_nil_r.
  - done.
  - unfold chars. pose proof (rev_digits_range b n ltac:(lia) Hn) as H. clear Hp.
    induction H as [|d l Hd _ IH]; simpl; constructor; [|done].
    split; [apply digit_val_digit_char; [done|lia]|lia].
  - intros E. apply (f_equal length) in E. rewrite length_rev in E.
    pose proof (le_digits_pos b n). simpl in E. lia.
  - by left.
  - symmetry. apply numval_le_digits; lia.
Qed.

(** The first character of a number other than 0 is not a zero. *)
Lemma chars_hd lc b n :
  lc = 0 \/ lc = 32 -> 2 <= b <= 16 -> 0 < n -> exists c cs, chars lc b n = c :: cs /\ c <> chr "0"%char.
Proof.
  intros Hlc Hb Hn. destruct (le_digits_last b n) as (ds & d & E & Hd); [lia..|].
  unfold chars. rewrite E, rev_unit. simpl. do 2 eexists. split; [reflexivity|]. intros Hz.
  assert (Hv : digit_val (digit_char lc d) = Some d) by (apply digit_val_digit_char; [done|lia]).
  rewrite Hz in Hv. compute in Hv. simplify_eq. lia.
Qed.

(** The numbers a specification without padding prints, as numerals. *)
Lemma prefix_chars s n :
  sp_base s = 8 \/ sp_base s = 10 \/ sp_base s = 16 -> byte (sp_flags s) -> flag s SIGN = false ->
  0 <= n ->
  let b := sp_base s in
  let base := if flag s SPECIAL then (if b =? 10 then 10 else 0) else b in
  numeral base (prefix_text s n ++ chars (Z.land (sp_flags s) SMALL) b n) n.
Proof.
  intros Hb Hf Hsg Hn b base. pose proof (locase_cases _ Hf) as Hlc. unfold prefix_text. fold b.
  assert (H2 : 2 <= b <= 16) by (subst b; lia).
  destruct (flag s SPECIAL) eqn:Es; simpl in base |- *.
  2:{ apply (chars_numeral _ []); [|done..]. apply prefix_given. subst base. lia. }
  destruct (Z.eqb_spec b 10) as [E10|E10]; cbn [negb andb].
  { apply (chars_numeral _ []); [|done..]. subst base. rewrite <- E10. apply prefix_given. lia. }
  destruct (Z.eqb_spec b 16) as [E16|E16].
  { apply chars_numeral; [|done..]. rewrite E16. apply prefix_hex; [by left|].
    by destruct Hlc as [-> | ->]; [right|left]. }
  assert (E8 : b = 8) by (subst b; lia). rewrite E8.
  destruct (Z.eqb_spec n 0) as [->|Hne].
  - apply (numeral_intro _ _ _ 8 [] [chr "0"%char] [0] []);
      [|apply prefix_octal|by repeat constructor|done|by left|done].
    unfold chars. simpl. by destruct Hlc as [-> | ->].
  - apply (numeral_intro _ _ _ 8 [] (chr "0"%char :: chars (Z.land (sp_flags s) SMALL) 8 n)
      (0 :: rev (le_digits 8 n)) []); [by rewrite app_nil_r|apply prefix_octal| |done|by left|].
    + constructor; [done|]. unfold chars. pose proof (rev_digits_range 8 n ltac:(lia) Hn) as H.
      induction H as [|d l Hd _ IH]; simpl; constructor; [|done].
      split; [apply digit_val_digit_char; [done|lia]|lia].
    + pose proof (numval_le_digits 8 n ltac:(lia) Hn) as H. unfold numval in *. by simpl.
Qed.

(** Without padding the text is sign, prefix and digits. *)
Lemma number_text_plain s n :
  sp_width s <= 0 -> sp_prec s <= 1 ->
  number_text s n =
    sign_text s n ++ prefix_text s n ++ chars (Z.land (sp_flags s) SMALL) (sp_base s) (magnitude s n).
Proof.
  intros Hw Hp. unfold number_text, digits_text.
  fold (chars (Z.land (sp_flags s) SMALL) (sp_base s) (magnitude s n)).
  set (ds := chars _ _ _). assert (Hne : (0 < length ds)%nat).
  { pose proof (chars_ne (Z.land (sp_flags s) SMALL) (sp_base s) (magnitude s n)). subst ds.
    destruct (chars _ _ _); [done|simpl; lia]. }
  replace (Z.to_nat (sp_prec s) - length ds)%nat with O by lia. simpl replicate. rewrite app_nil_l.
  set (fill := sp_width s - _). assert (fill <= 0) by lia. unfold blanks.
  replace (Z.to_nat fill) with O by lia. simpl replicate. rewrite app_nil_r, app_nil_l.
  rewrite <- app_assoc. by destruct (flag s LEFT), (flag s ZEROPAD).
Qed.

(** The value of type [t] in a word of the va_list. *)
Definition kvalue (t : kint) (a : Z) : Z :=
  match t with
  | KULL | KUL => a | KLL | KL => s64 a | KUINT => u32 a | KINT => s32 a
  | KU16 => u16 (s32 a) | KS16 => s16 (s32 a) | KU8 => u8 (s32 a) | KS8 => s8 (s32 a)
  end.

(** Formats of one number: the specification they decode to, the type of the
    argument and the radix to parse with. *)
Definition spec_of (ty fl b : Z) : printf_spec := mk_spec ty (-1) fl b (-1).
Definition number_formats : list (list Z * (printf_spec * kint * Z)) :=
  [(bytes "%llu"%string, (spec_of FORMAT_TYPE_LONG_LONG 0 10, KULL, 10));
   (bytes "%lu"%string, (spec_of FORMAT_TYPE_ULONG 0 10, KUL, 10));
   (bytes "%u"%string, (spec_of FORMAT_TYPE_UINT 0 10, KUINT, 10));
   (bytes "%hu"%string, (spec_of FORMAT_TYPE_USHORT 0 10, KU16, 10));
   (bytes "%hhu"%string, (spec_of FORMAT_TYPE_UBYTE 0 10, KU8, 10));
   (bytes "%lld"%string, (spec_of FORMAT_TYPE_LONG_LONG SIGN 10, KLL, 10));
   (bytes "%ld"%string, (spec_of FORMAT_TYPE_LONG SIGN 10, KL, 10));
   (bytes "%d"%string, (spec_of FORMAT_TYPE_INT SIGN 10, KINT, 10));
   (bytes "%+d"%string, (spec_of FORMAT_TYPE_INT (Z.lor PLUS SIGN) 10, KINT, 10));
   (bytes "%hd"%string, (spec_of FORMAT_TYPE_SHORT SIGN 10, KS16, 10));
   (bytes "%hhd"%string, (spec_of FORMAT_TYPE_BYTE SIGN 10, KS8, 10));
   (bytes "%#llx"%string, (spec_of FORMAT_TYPE_LONG_LONG (Z.lor SPECIAL SMALL) 16, KULL, 0));
   (bytes "%#X"%string, (spec_of FORMAT_TYPE_UINT SPECIAL 16, KUINT, 0));
   (bytes "%#llo"%string, (spec_of FORMAT_TYPE_LONG_LONG SPECIAL 8, KULL, 0));
   (bytes "%lx"%string, (spec_of FORMAT_TYPE_ULONG SMALL 16, KUL, 16));
   (bytes "%llo"%string, (spec_of FORMAT_TYPE_LONG_LONG 0 8, KULL, 8))].

(** What holds of every row of the table. *)
Definition good_format (row : list Z * (printf_spec * kint * Z)) : Prop :=
  let '(f, (s, t, base)) := row in
  (forall mem symbolic a rest,
    render mem symbolic (f ++ [0]) (a :: rest) =
      Ret (number_text s (integer_arg (sp_type s) (sp_flags s) a))) /\
  (forall a, word a -> kmin t <= kvalue t a <= kmax t /\
    integer_arg (sp_type s) (sp_flags s) a = u64 (kvalue t a)) /\
  number_spec s /\ sp_width s = -1 /\ sp_prec s = -1 /\ flag s SIGN = ksigned t /\ flag s SPACE = false /\
  (ksigned t = true -> sp_base s = 10) /\
  base = (if flag s SPECIAL then (if sp_base s =? 10 then 10 else 0) else sp_base s) /\
  Forall (fun c => 0 < c < 256) f /\ (length f < 10)%nat.

Lemma kvalue_range t a : word a -> kmin t <= kvalue t a <= kmax t.
Proof.
  unfold word. intros Ha.
  assert (Hs : forall w z, 0 < w -> - 2 ^ (w - 1) <= (z + 2 ^ (w - 1)) mod 2 ^ w - 2 ^ (w - 1) <= 2 ^ (w - 1) - 1).
  { intros w z Hw. assert (2 ^ w = 2 * 2 ^ (w - 1)) by (rewrite <- (Z.pow_succ_r 2) by lia; f_equal; lia).
    pose proof (Z.mod_pos_bound (z + 2 ^ (w - 1)) (2 ^ w) ltac:(apply Z.pow_pos_nonneg; lia)). lia. }
  assert (Hu : forall w z, 0 <= w -> 0 <= z mod 2 ^ w <= 2 ^ w - 1).
  { intros w z Hw. pose proof (Z.mod_pos_bound z (2 ^ w) ltac:(apply Z.pow_pos_nonneg; lia)). lia. }
  unfold kmin, kmax.
  destruct t; cbn [ksigned kbits kvalue]; try lia;
    first [apply (Hu 32); lia|apply (Hu 16); lia|apply (Hu 8); lia
          |apply (Hs 64); lia|apply (Hs 32); lia|apply (Hs 16); lia|apply (Hs 8); lia].
Qed.

Lemma u64_s64 a : word a -> u64 (s64 a) = a.
Proof.
  unfold word. intros Ha. unfold u64, s64. rewrite Zminus_mod_idemp_l. rewrite Z.mod_small; lia.
Qed.

(** The argument as printed is the value of its type. *)
Lemma integer_arg_kvalue s t a :
  word a ->
  In (sp_type s, t) [(FORMAT_TYPE_LONG_LONG, KULL); (FORMAT_TYPE_ULONG, KUL); (FORMAT_TYPE_UINT, KUINT);
    (FORMAT_TYPE_USHORT, KU16); (FORMAT_TYPE_UBYTE, KU8); (FORMAT_TYPE_LONG_LONG, KLL);
    (FORMAT_TYPE_LONG, KL); (FORMAT_TYPE_INT, KINT); (FORMAT_TYPE_SHORT, KS16); (FORMAT_TYPE_BYTE, KS8)] ->
  integer_arg (sp_type s) (sp_flags s) a = u64 (kvalue t a).
Proof.
  intros Ha Hin. pose proof (u64_s64 a Ha). pose proof (u64_small a Ha).
  pose proof (kvalue_range KUINT a Ha) as H32. pose proof (kvalue_range KU16 a Ha) as H16.
  pose proof (kvalue_range KU8 a Ha) as H8. unfold kmin, kmax in *.
  cbn [kvalue ksigned kbits] in H32, H16, H8.
  repeat destruct Hin as [[= <- <-]|Hin]; try done; unfold integer_arg; simpl; try done;
    rewrite u64_small; done || lia.
Qed.

Lemma number_formats_good : Forall good_format number_formats.
Proof.
  unfold number_formats. repeat apply Forall_cons_2; [..|apply Forall_nil_2]; unfold good_format.
  all: split; [intros; reflexivity|].
  all: split; [intros a Ha; split; [by apply kvalue_range|apply integer_arg_kvalue; [done|simpl; tauto]]|].
  all: split; [split; [simpl; tauto|split; [split; by vm_compute|by vm_compute]]|].
  all: do 5 (split; [done|]); split; [done|].
  all: split; [by apply (bool_decide_unpack _); vm_compute|simpl; lia].
Qed.

Lemma chars_length lc b n k :
  2 <= b -> (0 < k)%nat -> 0 <= n < b ^ Z.of_nat k -> (length (chars lc b n) <= k)%nat.
Proof. intros. unfold chars. rewrite length_map, length_rev. by apply le_digits_length. Qed.

Lemma chars_short lc b n : 8 <= b <= 16 -> 0 <= n < 2 ^ 64 -> (length (chars lc b n) <= 22)%nat.
Proof.
  intros Hb Hn. apply chars_length; [lia..|]. split; [lia|].
  assert (8 ^ Z.of_nat 22 <= b ^ Z.of_nat 22) by (apply Z.pow_le_mono_l; lia). lia.
Qed.

(** The printed text denotes the value. *)
Lemma number_text_denotes f s t base a :
  good_format (f, (s, t, base)) -> word a ->
  let l := number_text s (u64 (kvalue t a)) in
  denotes t base l (kvalue t a) /\ Forall (fun c => 0 < c < 256) l /\ (length l <= 25)%nat.
Proof.
  intros (_ & Hv & Hs & Hw & Hp & Hsg & Hsp & H10 & Hbase & _) Ha l.
  destruct (Hv a Ha) as [Hr _]. clear Hv. pose proof Hs as (Hb & Hf & _).
  pose proof (locase_cases _ Hf) as Hlc. set (v := kvalue t a) in *. subst l.
  rewrite number_text_plain by lia.
  assert (Hk : - 2 ^ 63 <= kmin t /\ (ksigned t = true -> kmax t < 2 ^ 63) /\
    (ksigned t = false -> kmin t = 0) /\ kmax t < 2 ^ 64) by (by destruct t).
  assert (Hpre : Forall (fun c => 0 < c < 256) (prefix_text s (u64 v)) /\ (length (prefix_text s (u64 v)) <= 2)%nat).
  { unfold prefix_text. destruct Hlc as [-> | ->]; repeat case_match; (split; [|simpl; lia]);
      by apply (bool_decide_unpack _); vm_compute. }
  assert (Hch : forall n, 0 <= n < 2 ^ 64 -> Forall (fun c => 0 < c < 256) (chars (Z.land (sp_flags s) SMALL) (sp_base s) n) /\
    (length (chars (Z.land (sp_flags s) SMALL) (sp_base s) n) <= 22)%nat).
  { intros n Hn. split; [apply chars_bytes; [done|lia..]|apply chars_short; lia]. }
  unfold sign_text, magnitude, negative. rewrite Hsg, Hsp. destruct (ksigned t) eqn:Ek; cbn [andb].
  - assert (Es : s64 (u64 v) = v).
    { unfold s64, u64. rewrite Zplus_mod_idemp_l, Z.mod_small; lia. }
    assert (Eb : base = 10) by (rewrite Hbase, H10 by done; by destruct (flag s SPECIAL)).
    assert (Epre : prefix_text s (u64 v) = []).
    { unfold prefix_text. rewrite H10 by done. simpl. by rewrite andb_false_r. }
    rewrite Es, Epre, Eb. rewrite H10 in * by done. simpl app.
    assert (Hnum : forall n, 0 <= n -> numeral 10 (chars (Z.land (sp_flags s) SMALL) 10 n) n).
    { intros n Hn. apply (chars_numeral _ []); [by apply prefix_given|done|lia|done]. }
    destruct (Z.ltb_spec v 0).
    + assert (En : u64 (- u64 v) = - v).
      { unfold u64. rewrite <- Z.sub_0_l, Zminus_mod_idemp_r, Z.sub_0_l, Z.mod_small; lia. }
      rewrite En. destruct (Hch (- v) ltac:(lia)) as [? ?]. split; [|split; [by constructor|simpl; lia]].
      split; [done|]. left. split; [done|]. eexists. split; [reflexivity|]. apply Hnum. lia.
    + rewrite u64_small by lia. destruct (Hch v ltac:(lia)) as [? ?].
      destruct (flag s PLUS); simpl app; (split; [|split; [by repeat constructor|simpl; lia]]);
        (split; [done|]); [right; left; eexists; split; [reflexivity|]|right; right]; apply Hnum; lia.
  - rewrite u64_small in * by lia. destruct (Hch v ltac:(lia)) as [? ?]. destruct Hpre as [? ?]. simpl app.
    split; [|split; [by apply Forall_app|rewrite length_app; lia]].
    split; [done|]. right. right. rewrite Hbase. apply prefix_chars; [done|done|by rewrite Hsg|lia].
Qed.

(** ** num_to_str *)

(** Writing a list into the array, one element per turn. *)
Lemma store_loop (body : list Z * Z -> outcome (list Z * Z + list Z)) (off : Z) (xs : list Z) : forall pre rest,
  (forall k x buf, xs !! k = Some x ->
     body (buf, Z.of_nat k) = (buf ← wr buf (off + Z.of_nat k) x; Ret (inl (buf, Z.of_nat k + 1)))) ->
  (forall buf, body (buf, Z.of_nat (length xs)) = Ret (inr buf)) ->
  off = Z.of_nat (length pre) -> (length xs <= length rest)%nat ->
  loop (S (length xs)) body (pre ++ rest, 0) = Ret (pre ++ xs ++ drop (length xs) rest).
Proof.
  intros pre rest Hbody Hstop Hoff Hl.
  assert (H : forall ys zs, xs = ys ++ zs ->
    loop (S (length zs)) body (pre ++ ys ++ drop (length ys) rest, Z.of_nat (length ys)) =
      Ret (pre ++ xs ++ drop (length xs) rest)).
  { intros ys zs. revert ys. induction zs as [|z zs IH]; intros ys E.
    - rewrite app_nil_r in E. subst ys. apply loop_inr. apply Hstop.
    - assert (Hz : xs !! length ys = Some z) by (subst xs; by apply list_lookup_middle).
      pose proof (Hbody _ _ (pre ++ ys ++ drop (length ys) rest) Hz) as Hb.
      assert (length ys < length rest)%nat by (subst xs; rewrite length_app in Hl; simpl in Hl; lia).
      rewrite app_assoc in Hb. destruct (lookup_lt_is_Some_2 rest (length ys)) as [x Hx]; [done|].
      rewrite (drop_S _ _ _ Hx), (wr_app (pre ++ ys)), bind_ret in Hb by (rewrite length_app; lia).
      simpl length. rewrite app_assoc, (drop_S _ _ _ Hx), (loop_inl _ _ _ _ Hb).
      specialize (IH (ys ++ [z]) ltac:(by rewrite <- app_assoc)).
      rewrite <- IH. rewrite length_app, Nat.add_1_r. simpl. do 2 f_equal; [|lia].
      by rewrite <- !app_assoc. }
  exact (H [] xs eq_refl).
Qed.

Definition dec_text (n : Z) : list Z := chars 0 10 n.

Lemma num_to_str_ok buf size num width :
  0 <= num < 2 ^ 64 -> 0 <= size < 2 ^ 31 -> size <= Z.of_nat (length buf) -> 0 <= width < 2 ^ 32 ->
  let n := Z.of_nat (length (dec_text num)) in
  let text := blanks (width - n) ++ dec_text num in
  num_to_str buf size num width =
    if (size <? n) || (size <? width) then Ret (buf, 0)
    else Ret (text ++ drop (length text) buf, Z.of_nat (length text)).
Proof.
  intros Hnum Hsize Hbuf Hwidth n text. unfold num_to_str.
  assert (Htmp : exists rest, (if num <=? 9 then tmp ← wr tmp_init 0 (chr "0"%char + num); Ret (tmp, 1)
      else put_dec tmp_init 0 num) = Ret (rev (dec_text num) ++ rest, n)).
  { assert (Er : rev (dec_text num) = dec_chars (le_digits 10 num)).
    { unfold dec_text, chars. rewrite <- map_rev, rev_involutive. symmetry.
      apply dec_chars_digit_char; [by left|apply le_digits_range; lia]. }
    assert (En : n = Z.of_nat (length (le_digits 10 num))).
    { subst n. unfold dec_text, chars. by rewrite length_map, length_rev. }
    rewrite Er, En. destruct (Z.leb_spec num 9).
    - unfold tmp_init. simpl replicate. rewrite wr_in_range by (simpl; lia).
      rewrite le_digits_small by lia. eexists. rewrite bind_ret. reflexivity.
    - destruct (put_dec_ok num Hnum) as (rest & -> & _). by exists rest. }
  destruct Htmp as (rest & ->). rewrite bind_ret. cbv beta iota.
  assert (Hn : 0 < n <= 22).
  { subst n. pose proof (chars_short 0 10 num ltac:(lia) Hnum). pose proof (chars_ne 0 10 num).
    unfold dec_text. destruct (chars 0 10 num); [done|simpl in *; lia]. }
  rewrite (u32_small size) by lia.
  destruct (Z.ltb_spec size n) as [?|Hs]; cbn [orb]; [done|].
  destruct (Z.ltb_spec size width) as [?|Hw]; cbn [orb]; [done|].
  rewrite (u32_small n) by lia.
  set (w := Z.max 0 (width - n)).
  assert (Hpre : (if n <? width then
      let width := u32 (width - n) in
      buf ← loop (S (Z.to_nat width)) (blank_turn width) (buf, 0); Ret (buf, width)
    else Ret (buf, 0)) = Ret (blanks w ++ drop (Z.to_nat w) buf, w)).
  { destruct (Z.ltb_spec n width).
    - cbv zeta. rewrite u32_small by lia. assert (E : w = width - n) by lia. rewrite <- E. clearbody w.
      pose proof (store_loop (blank_turn w) 0 (blanks w) [] buf) as Hl. unfold blanks in Hl.
      rewrite length_replicate in Hl. simpl app in Hl. rewrite Hl; [done| | |done|lia].
      + intros k x b Hk. apply lookup_replicate in Hk as [-> Hk]. unfold blank_turn. by zdec.
      + intros b. unfold blank_turn. by zdec.
    - assert (w = 0) as -> by lia. simpl. by rewrite drop_0. }
  cbv zeta in Hpre |- *. rewrite Hpre, bind_ret. cbv beta iota.
  assert (Hwl : length (blanks w) = Z.to_nat w) by (unfold blanks; by rewrite length_replicate).
  assert (Et : text = blanks w ++ dec_text num).
  { subst text w. f_equal. unfold blanks. f_equal. lia. }
  rewrite Et. clear Et Hpre.
  pose proof (store_loop (copy_turn (rev (dec_text num) ++ rest) n w) w (dec_text num) (blanks w)
    (drop (Z.to_nat w) buf)) as Hl.
  subst n. rewrite Nat2Z.id. rewrite Hl.
  - rewrite bind_ret, length_app, Hwl, <- app_assoc, drop_drop. do 3 f_equal. rewrite s32_small; lia.
  - intros k x b Hk. unfold copy_turn. pose proof (lookup_lt_Some _ _ _ Hk). zdec.
    assert (Hrev : rev (dec_text num) !! (length (dec_text num) - k - 1)%nat = Some x).
    { rewrite rev_alt. change (rev_append (dec_text num) []) with (reverse (dec_text num)).
      rewrite reverse_lookup by lia. rewrite <- Hk. f_equal. lia. }
    rewrite (rd_lookup _ _ x); [|lia|].
    + rewrite bind_ret. do 2 f_equal. lia.
    + rewrite lookup_app_l by (rewrite length_rev; lia). rewrite <- Hrev. f_equal. lia.
  - intros b. unfold copy_turn. by zdec.
  - lia.
  - rewrite length_drop. lia.
Qed.

(** ** Directives spelled out

    A printf directive as data, its text, and the specification it means;
    [format_decode] reads the text back into that specification. *)

Inductive qualifier := Qnone | Qhh | Qh | Ql | Qll | QL | Qz | Qt.
Inductive conversion := Cc | Cs | Cp | Cpercent | Co | Cx | CX | Cd | Ci | Cu.
Inductive dflag := Fleft | Fplus | Fspace | Fspecial | Fzero.

Record directive := mk_directive {
  d_flags : list dflag;
  d_width : option Z;
  d_prec : option Z;
  d_qual : qualifier;
  d_conv : conversion;
}.

(** ** The text *)

Definition flag_char (f : dflag) : Z :=
  match f with
  | Fleft => chr "-"%char | Fplus => chr "+"%char | Fspace => chr " "%char
  | Fspecial => chr "#"%char | Fzero => chr "0"%char
  end.

Definition qual_text (q : qualifier) : list Z :=
  match q with
  | Qnone => [] | Qhh => bytes "hh"%string | Qh => bytes "h"%string | Ql => bytes "l"%string
  | Qll => bytes "ll"%string | QL => bytes "L"%string | Qz => bytes "z"%string | Qt => bytes "t"%string
  end.

Definition conv_char (c : conversion) : Z :=
  match c with
  | Cc => chr "c"%char | Cs => chr "s"%char | Cp => chr "p"%char | Cpercent => chr "%"%char
  | Co => chr "o"%char | Cx => chr "x"%char | CX => chr "X"%char | Cd => chr "d"%char
  | Ci => chr "i"%char | Cu => chr "u"%char
  end.

Definition prec_text (p : option Z) : list Z :=
  match p with None => [] | Some p => chr "."%char :: dec_text p end.

Definition directive_text (d : directive) : list Z :=
  chr "%"%char :: map flag_char (d_flags d) ++ from_option dec_text [] (d_width d) ++
  prec_text (d_prec d) ++ qual_text (d_qual d) ++ [conv_char (d_conv d)].

(** Widths and precisions that fit their fields; a width of 0 would be read as
    a flag. *)
Definition directive_ok (d : directive) : Prop :=
  match d_width d with None => True | Some w => 0 < w < 2 ^ 23 end /\
  match d_prec d with None => True | Some p => 0 <= p < 2 ^ 15 end.

(** ** The meaning *)

Definition flag_bit (f : dflag) : Z :=
  match f with
  | Fleft => LEFT | Fplus => PLUS | Fspace => SPACE | Fspecial => SPECIAL | Fzero => ZEROPAD
  end.

Definition conv_flags (c : conversion) : Z :=
  match c with Cd | Ci => SIGN | Cx => SMALL | _ => 0 end.

Definition conv_base (c : conversion) : Z :=
  match c with Co => 8 | Cx | CX => 16 | _ => 10 end.

(** The type: of the argument for a number, else by the conversion. *)
Definition conv_type (q : qualifier) (c : conversion) : Z :=
  match c with
  | Cc => FORMAT_TYPE_CHAR | Cs => FORMAT_TYPE_STR | Cp => FORMAT_TYPE_PTR
  | Cpercent => FORMAT_TYPE_PERCENT_CHAR
  | _ =>
      let signed := match c with Cd | Ci => true | _ => false end in
      match q with
      | Qll | QL => FORMAT_TYPE_LONG_LONG
      | Ql => if signed then FORMAT_TYPE_LONG else FORMAT_TYPE_ULONG
      | Qz => FORMAT_TYPE_SIZE_T
      | Qt => FORMAT_TYPE_PTRDIFF
      | Qhh => if signed then FORMAT_TYPE_BYTE else FORMAT_TYPE_UBYTE
      | Qh => if signed then FORMAT_TYPE_SHORT else FORMAT_TYPE_USHORT
      | Qnone => if signed then FORMAT_TYPE_INT else FORMAT_TYPE_UINT
      end
  end.

Definition directive_flags (d : directive) : Z :=
  Z.lor (foldr Z.lor 0 (map flag_bit (d_flags d))) (conv_flags (d_conv d)).

Definition directive_spec (d : directive) : printf_spec :=
  mk_spec (conv_type (d_qual d) (d_conv d)) (default (-1) (d_width d)) (directive_flags d)
    (conv_base (d_conv d)) (default (-1) (d_prec d)).

(** ** Reading it back *)

Lemma rd_app {A} (a b : list A) i k :
  i = Z.of_nat (length a) + k -> 0 <= k -> rd (a ++ b) i = rd b k.
Proof.
  intros -> Hk. unfold rd. rewrite !decide_True by lia.
  replace (Z.to_nat (Z.of_nat (length a) + k)) with (length a + Z.to_nat k)%nat by lia.
  by rewrite lookup_app_r, Nat.add_comm, Nat.add_sub by lia.
Qed.

Lemma digit_char_dec d : 0 <= d < 10 -> digit_char 0 d = 48 + d /\ isdigit (digit_char 0 d) = true.
Proof.
  intros Hd. assert (E : forall k, (k < 10)%nat ->
    digit_char 0 (Z.of_nat k) = 48 + Z.of_nat k /\ isdigit (digit_char 0 (Z.of_nat k)) = true).
  { intros k Hk. do 10 (destruct k as [|k]; [done|]). lia. }
  specialize (E (Z.to_nat d) ltac:(lia)). by rewrite Z2Nat.id in E by lia.
Qed.

Lemma dec_text_digits n : 0 <= n -> Forall (fun c => isdigit c = true) (dec_text n).
Proof.
  intros Hn. unfold dec_text, chars. apply Forall_map.
  eapply Forall_impl; [apply (rev_digits_range 10 n); lia|]. intros d Hd. by apply digit_char_dec.
Qed.

(** One digit, and whether another follows. *)
Lemma skip_atoi_turn_ok pre d y post a :
  0 <= d < 10 -> 0 <= a * 10 + d < 2 ^ 31 - 64 ->
  skip_atoi_turn (pre ++ digit_char 0 d :: y :: post) (Z.of_nat (length pre), a) =
    Ret (if isdigit y then inl (Z.of_nat (length pre) + 1, a * 10 + d)
         else inr (Z.of_nat (length pre) + 1, a * 10 + d)).
Proof.
  intros Hd Ha. unfold skip_atoi_turn.
  rewrite (rd_app pre _ (Z.of_nat (length pre)) 0) by lia.
  rewrite (rd_lookup _ 0 (digit_char 0 d)) by done. rewrite bind_ret.
  rewrite (proj1 (digit_char_dec d Hd)).
  replace (a * 10 + (48 + d) - chr "0"%char) with (a * 10 + d) by lia. rewrite s32_small by lia.
  rewrite (rd_app pre _ (Z.of_nat (length pre) + 1) 1) by lia.
  rewrite (rd_lookup _ 1 y) by done. rewrite bind_ret. done.
Qed.

Local Abbreviation horner := (foldl (fun a d => a * 10 + d)).

Lemma horner_mono ds a : Forall (fun d => 0 <= d < 10) ds -> 0 <= a -> a <= horner a ds.
Proof.
  revert a. induction ds as [|d ds IH]; intros a H Ha; simpl; [lia|].
  apply Forall_cons_1 in H as [Hd H]. specialize (IH (a * 10 + d) H ltac:(lia)). lia.
Qed.

Lemma skip_atoi_loop x post : isdigit x = false -> forall ds a pre fuel,
  ds <> [] -> Forall (fun d => 0 <= d < 10) ds -> 0 <= a -> horner a ds < 2 ^ 31 - 64 ->
  (length ds <= fuel)%nat ->
  loop fuel (skip_atoi_turn (pre ++ map (digit_char 0) ds ++ x :: post)) (Z.of_nat (length pre), a) =
    Ret (Z.of_nat (length pre) + Z.of_nat (length ds), horner a ds).
Proof.
  intros Hx ds. induction ds as [|d ds IH]; intros a pre fuel Hne Hds Ha Hmax Hf; [done|].
  destruct fuel as [|fuel]; simpl in Hf; [lia|].
  apply Forall_cons_1 in Hds as [Hd Hds]. simpl foldl in Hmax |- *. simpl map. simpl app.
  pose proof (horner_mono ds (a * 10 + d) Hds ltac:(lia)).
  destruct ds as [|d' ds]; simpl map; simpl app.
  - pose proof (skip_atoi_turn_ok pre d x post a Hd ltac:(simpl in *; lia)) as E. rewrite Hx in E.
    by rewrite (loop_inr _ _ _ _ E).
  - pose proof (skip_atoi_turn_ok pre d (digit_char 0 d') (map (digit_char 0) ds ++ x :: post) a Hd
      ltac:(lia)) as E.
    rewrite (proj2 (digit_char_dec d' ltac:(by apply Forall_cons_1 in Hds as [? _]))) in E.
    rewrite (loop_inl _ _ _ _ E), (app_snoc pre (digit_char 0 d)).
    replace (Z.of_nat (length pre) + 1) with (Z.of_nat (length (pre ++ [digit_char 0 d])))
      by (rewrite length_app; simpl; lia).
    rewrite (IH (a * 10 + d) (pre ++ [digit_char 0 d])) by (done || lia || (simpl in *; lia)).
    rewrite length_app. simpl. do 2 f_equal. lia.
Qed.

(** [skip_atoi] over the digits of a number. *)
Lemma skip_atoi_dec pre n x post p :
  0 <= n < 2 ^ 31 - 64 -> isdigit x = false -> p = Z.of_nat (length pre) ->
  skip_atoi (pre ++ dec_text n ++ x :: post) p = Ret (p + Z.of_nat (length (dec_text n)), n).
Proof.
  intros Hn Hx ->. unfold skip_atoi, dec_text, chars. rewrite skip_atoi_loop; [|done|..].
  - rewrite length_map. do 2 f_equal. apply (numval_le_digits 10 n); lia.
  - intros E. apply (f_equal length) in E. rewrite length_rev in E.
    pose proof (le_digits_pos 10 n). simpl in E. lia.
  - apply rev_digits_range; lia.
  - lia.
  - pose proof (numval_le_digits 10 n ltac:(lia) ltac:(lia)) as E. unfold numval in E. lia.
  - rewrite !length_app, length_map. lia.
Qed.

Lemma rd_behind {A} (pre l : list A) k x i :
  l !! k = Some x -> i = Z.of_nat (length pre) + Z.of_nat k -> rd (pre ++ l) i = Ret x.
Proof.
  intros Hl ->. rewrite (rd_app pre l _ (Z.of_nat k)) by lia. apply rd_lookup; [lia|]. by rewrite Nat2Z.id.
Qed.

(** Read at [p], at [p + 1] or at [p + 2], behind [pre]. *)
Ltac read_at pre p :=
  first [erewrite (rd_behind pre _ 0 _ p); [|reflexivity|lia]
        |erewrite (rd_behind pre _ 1 _ (p + 1)); [|reflexivity|lia]
        |erewrite (rd_behind pre _ 2 _ (p + 1 + 1)); [|reflexivity|lia]];
  rewrite ?bind_ret.

(** The flags a conversion adds. *)
Definition add_conv_flags (c : conversion) (s : printf_spec) : printf_spec :=
  if conv_flags c =? 0 then s else add_flag (conv_flags c) s.

Lemma decode_qualifier_dir pre q c post s start p :
  byte (sp_flags s) -> Z.land (sp_flags s) SIGN = 0 -> p = Z.of_nat (length pre) ->
  decode_qualifier (pre ++ qual_text q ++ conv_char c :: post) start p s =
    Ret (p + Z.of_nat (length (qual_text q)) + 1 - start,
         set_type (conv_type q c) (set_base (conv_base c) (add_conv_flags c s))).
Proof.
  intros Hf H0 Hp. unfold decode_qualifier.
  assert (Hs1 : Z.land (u8 (Z.lor (sp_flags s) SIGN)) SIGN = 1).
  { clear H0. revert Hf. generalize (sp_flags s). intros g Hg. all_bytes g Hg. }
  assert (Hs2 : Z.land (u8 (Z.lor (sp_flags s) SMALL)) SIGN = 0).
  { rewrite <- H0. clear H0 Hs1. revert Hf. generalize (sp_flags s). intros g Hg. all_bytes g Hg. }
  destruct q, c; simpl qual_text; simpl conv_char; simpl app; simpl length;
    read_at pre p; simpl; try read_at pre p; simpl; try read_at pre p; simpl;
    rewrite ?Hs1, ?Hs2, ?H0; do 2 f_equal; lia.
Qed.

(** What follows the flags, the width and the precision: neither a flag nor a
    digit, a dot or a star. *)
Definition plain (h : Z) : Prop :=
  isdigit h = false /\ h <> chr "."%char /\ h <> chr "*"%char /\
  h <> chr "-"%char /\ h <> chr "+"%char /\ h <> chr " "%char /\ h <> chr "#"%char.

Lemma conv_head q c post : exists h t, qual_text q ++ conv_char c :: post = h :: t /\ plain h.
Proof. destruct q, c; do 2 eexists; (split; [reflexivity|by repeat split]). Qed.

Lemma set_prec_twice u v s : set_prec v (set_prec u s) = set_prec v s.
Proof. done. Qed.

Lemma decode_precision_dir pre pr q c post s start p :
  byte (sp_flags s) -> Z.land (sp_flags s) SIGN = 0 ->
  match pr with None => True | Some n => 0 <= n < 2 ^ 15 end -> p = Z.of_nat (length pre) ->
  decode_precision (pre ++ prec_text pr ++ qual_text q ++ conv_char c :: post) start p s =
    Ret (p + Z.of_nat (length (prec_text pr) + length (qual_text q)) + 1 - start,
         set_type (conv_type q c) (set_base (conv_base c)
           (add_conv_flags c (set_prec (default (-1) pr) s)))).
Proof.
  intros Hf H0 Hpr Hp. unfold decode_precision. cbv zeta.
  destruct (conv_head q c post) as (h & t & Eh & (Hd & Hdot & Hstar & _)).
  destruct pr as [n|]; simpl prec_text.
  - rewrite <- app_comm_cons. read_at pre p. simpl.
    destruct (dec_text n) as [|x xs] eqn:Ex; [by destruct (chars_ne 0 10 n)|].
    pose proof (dec_text_digits n ltac:(lia)) as Hx. rewrite Ex in Hx. apply Forall_cons_1 in Hx as [Hx _].
    read_at pre p. rewrite Hx, <- Ex, (app_snoc pre), Eh.
    assert (Hlen : p + 1 = Z.of_nat (length (pre ++ [chr "."%char]))) by (rewrite length_app; simpl; lia).
    rewrite (skip_atoi_dec (pre ++ [chr "."%char]) n h t) by (done || lia). rewrite bind_ret.
    simpl sp_prec. rewrite sx16_small by lia. zdec. rewrite set_prec_twice, <- Eh, app_assoc.
    rewrite decode_qualifier_dir; [|done|done|rewrite !length_app in *; lia].
    rewrite Ex. simpl length. do 2 f_equal. lia.
  - rewrite app_nil_l, Eh. read_at pre p.
    rewrite (proj2 (Z.eqb_neq _ _) Hdot), <- Eh, decode_qualifier_dir by done. done.
Qed.

(** The flags. *)
Lemma flags_loop x0 h post : plain h \/ isdigit h = true /\ h <> chr "0"%char \/ h = chr "."%char ->
  forall fs pre s fuel p, p = Z.of_nat (length pre) -> (length fs < fuel)%nat ->
  loop fuel (flags_turn (pre ++ x0 :: map flag_char fs ++ h :: post)) (p, s) =
    Ret (p + 1 + Z.of_nat (length fs), h, foldl (fun s f => add_flag (flag_bit f) s) s fs).
Proof.
  intros Hh fs. revert x0. induction fs as [|f fs IH]; intros x0 pre s fuel p Hp Hf;
    (destruct fuel as [|fuel]; [simpl in Hf; lia|]).
  - assert (E : flags_turn (pre ++ x0 :: map flag_char [] ++ h :: post) (p, s) = Ret (inr (p + 1, h, s))).
    { unfold flags_turn. simpl map. rewrite app_nil_l. read_at pre p.
      assert (Hno : h <> chr "-"%char /\ h <> chr "+"%char /\ h <> chr " "%char /\ h <> chr "#"%char /\ h <> chr "0"%char).
      { destruct Hh as [(Hd & _ & _ & ? & ? & ? & ?)|[[Hd H0]| ->]]; [|..|done].
        - repeat split; try done. intros ->. done.
        - repeat split; try done; intros ->; done. }
      destruct Hno as (? & ? & ? & ? & ?).
      by repeat rewrite (proj2 (Z.eqb_neq _ _)) by done. }
    rewrite (loop_inr _ _ _ _ E). simpl. do 3 f_equal. lia.
  - assert (E : flags_turn (pre ++ x0 :: map flag_char (f :: fs) ++ h :: post) (p, s) =
      Ret (inl (p + 1, add_flag (flag_bit f) s))).
    { unfold flags_turn. simpl map. rewrite <- app_comm_cons.
      read_at pre p. by destruct f. }
    rewrite (loop_inl _ _ _ _ E). simpl map. rewrite <- app_comm_cons, (app_snoc pre).
    rewrite (IH _ (pre ++ [x0])) by (simpl in *; rewrite ?length_app; simpl; lia).
    simpl. do 3 f_equal. lia.
Qed.

Lemma byte_lor a b : byte a -> byte b -> byte (Z.lor a b).
Proof.
  unfold byte. intros Ha Hb. assert (0 <= Z.lor a b) by (apply Z.lor_nonneg; lia). split; [done|].
  assert (E : Z.shiftr (Z.lor a b) 8 = 0).
  { rewrite Z.shiftr_lor, !Z.shiftr_div_pow2, !Z.div_small by lia. done. }
  rewrite Z.shiftr_div_pow2 in E by lia. apply Z.div_small_iff in E; lia.
Qed.

Lemma flags_fold fs s :
  byte (sp_flags s) ->
  let s' := foldl (fun s f => add_flag (flag_bit f) s) s fs in
  s' = mk_spec (sp_type s) (sp_width s) (Z.lor (sp_flags s) (foldr Z.lor 0 (map flag_bit fs)))
         (sp_base s) (sp_prec s).
Proof.
  revert s. induction fs as [|f fs IH]; intros s Hf; simpl.
  - rewrite Z.lor_0_r. by destruct s.
  - assert (byte (flag_bit f)) by (by destruct f).
    rewrite IH by apply u8_range. unfold add_flag, set_flags. simpl.
    rewrite (u8_small (Z.lor (sp_flags s) (flag_bit f))), Z.lor_assoc by (by apply byte_lor). done.
Qed.

Lemma flags_bits fs :
  byte (foldr Z.lor 0 (map flag_bit fs)) /\ Z.land (foldr Z.lor 0 (map flag_bit fs)) SIGN = 0.
Proof.
  induction fs as [|f fs [IH1 IH2]]; simpl; [done|]. split.
  - apply byte_lor; [by destruct f|done].
  - rewrite Z.land_lor_distr_l, IH2. by destruct f.
Qed.

(** The specification, in the order in which the code sets its fields. *)
Definition built_spec (d : directive) (s : printf_spec) : printf_spec :=
  let s := foldl (fun s f => add_flag (flag_bit f) s) (set_flags 0 (set_type FORMAT_TYPE_NONE s)) (d_flags d) in
  let s := set_width (-1) s in
  let s := match d_width d with Some w => set_width w s | None => s end in
  let s := set_prec (default (-1) (d_prec d)) s in
  set_type (conv_type (d_qual d) (d_conv d)) (set_base (conv_base (d_conv d)) (add_conv_flags (d_conv d) s)).

Lemma u8_conv_type q c : u8 (conv_type q c) = conv_type q c.
Proof. by destruct q, c. Qed.

Lemma u8_conv_base c : u8 (conv_base c) = conv_base c.
Proof. by destruct c. Qed.

Lemma conv_flags_byte c : byte (conv_flags c).
Proof. by destruct c. Qed.

Lemma add_conv_flags_ok c s :
  byte (sp_flags s) ->
  add_conv_flags c s =
    mk_spec (sp_type s) (sp_width s) (Z.lor (sp_flags s) (conv_flags c)) (sp_base s) (sp_prec s).
Proof.
  intros Hf. unfold add_conv_flags. destruct (Z.eqb_spec (conv_flags c) 0) as [->|_].
  - rewrite Z.lor_0_r. by destruct s.
  - unfold add_flag, set_flags. by rewrite u8_small by (apply byte_lor; [done|apply conv_flags_byte]).
Qed.

Lemma built_spec_ok d s : directive_ok d -> built_spec d s = directive_spec d.
Proof.
  intros [Hw Hp]. unfold built_spec, directive_spec, directive_flags. rewrite flags_fold by (by vm_compute).
  destruct (flags_bits (d_flags d)) as [Hb _]. set (fl := foldr Z.lor 0 (map flag_bit (d_flags d))) in *.
  change (Z.lor (sp_flags (set_flags 0 (set_type FORMAT_TYPE_NONE s))) fl) with fl. cbv zeta.
  set (s1 := mk_spec _ _ fl _ _).
  assert (Hs1 : (match d_width d with Some w => set_width w (set_width (-1) s1) | None => set_width (-1) s1 end) =
    mk_spec (sp_type s1) (default (-1) (d_width d)) fl (sp_base s1) (sp_prec s1)).
  { destruct (d_width d) as [w|]; simpl in Hw; [|done]. unfold set_width. simpl. by rewrite sx24_small by lia. }
  rewrite Hs1. clearbody s1. unfold set_prec at 1. cbn [sp_type sp_width sp_flags sp_base].
  rewrite sx16_small by (destruct (d_prec d); simpl in *; lia).
  rewrite add_conv_flags_ok by done. unfold set_type, set_base. cbn [sp_type sp_width sp_flags sp_base sp_prec].
  by rewrite u8_conv_type, u8_conv_base.
Qed.

(** The text behind the flags, and its first character. *)
Definition tail_text (d : directive) (post : list Z) : list Z :=
  prec_text (d_prec d) ++ qual_text (d_qual d) ++ conv_char (d_conv d) :: post.

Lemma tail_head d post : exists h t, tail_text d post = h :: t /\ isdigit h = false /\ h <> chr "*"%char /\
  (plain h \/ h = chr "."%char).
Proof.
  unfold tail_text. destruct (conv_head (d_qual d) (d_conv d) post) as (h & t & -> & Hp).
  destruct (d_prec d); simpl; do 2 eexists; (split; [reflexivity|]); [by auto|].
  pose proof Hp as (? & _ & ? & _). auto.
Qed.

Lemma width_head d post :
  directive_ok d -> exists h t, from_option dec_text [] (d_width d) ++ tail_text d post = h :: t /\
    (plain h \/ isdigit h = true /\ h <> chr "0"%char \/ h = chr "."%char) /\
    match d_width d with Some _ => isdigit h = true | None => isdigit h = false /\ h <> chr "*"%char end.
Proof.
  intros [Hwd _]. destruct (d_width d) as [w|]; simpl.
  - destruct (chars_hd 0 10 w) as (x & xs & Ex & Hx); [by left|lia|lia|]. fold (dec_text w) in Ex.
    pose proof (dec_text_digits w ltac:(lia)) as Hd. rewrite Ex in Hd |- *. apply Forall_cons_1 in Hd as [Hd _].
    do 2 eexists. split; [reflexivity|]. split; [right; by left|done].
  - destruct (tail_head d post) as (h & t & E & ? & ? & Hh). do 2 eexists. split; [exact E|].
    split; [destruct Hh; auto|done].
Qed.

(** From the width on. *)
Lemma decode_width_dir pre d post start s p h t :
  directive_ok d -> byte (sp_flags s) -> Z.land (sp_flags s) SIGN = 0 -> p = Z.of_nat (length pre) ->
  from_option dec_text [] (d_width d) ++ tail_text d post = h :: t ->
  let fmt := pre ++ from_option dec_text [] (d_width d) ++ tail_text d post in
  (if isdigit h then
     '(p, n) ← skip_atoi fmt p; decode_precision fmt start p (set_width n s)
   else if h =? chr "*"%char then Ret (p + 1 - start, set_type FORMAT_TYPE_WIDTH s)
   else decode_precision fmt start p s) =
  Ret (p + Z.of_nat (length (from_option dec_text [] (d_width d)) + length (prec_text (d_prec d)) +
         length (qual_text (d_qual d))) + 1 - start,
       set_type (conv_type (d_qual d) (d_conv d)) (set_base (conv_base (d_conv d)) (add_conv_flags (d_conv d)
         (set_prec (default (-1) (d_prec d)) (match d_width d with Some w => set_width w s | None => s end))))).
Proof.
  intros Hok Hf H0 Hp Eh fmt. subst fmt. destruct (width_head d post Hok) as (h' & t' & E' & _ & Hcase).
  rewrite Eh in E'. simplify_eq. destruct Hok as [Hwd Hpr]. clear Eh.
  destruct (d_width d) as [w|]; simpl from_option.
  - rewrite Hcase. destruct (tail_head d post) as (x & u & Ex & Hx & _).
    rewrite Ex, (skip_atoi_dec pre w x u) by (done || lia).
    rewrite bind_ret, <- Ex, app_assoc. cbv beta iota. unfold tail_text.
    rewrite decode_precision_dir; [|done|done|done|rewrite length_app; lia].
    do 2 f_equal. lia.
  - destruct Hcase as [Hd Hst]. rewrite Hd, (proj2 (Z.eqb_neq _ _) Hst), app_nil_l. unfold tail_text.
    by rewrite decode_precision_dir.
Qed.

Lemma format_decode_dir pre d post s p :
  directive_ok d -> sp_type s <> FORMAT_TYPE_WIDTH -> sp_type s <> FORMAT_TYPE_PRECISION ->
  p = Z.of_nat (length pre) ->
  format_decode (pre ++ directive_text d ++ post) p s =
    Ret (Z.of_nat (length (directive_text d)), directive_spec d).
Proof.
  intros Hok Hw Hp Hpos. rewrite <- (built_spec_ok d s Hok). unfold built_spec, format_decode.
  rewrite (proj2 (Z.eqb_neq _ _) Hw), (proj2 (Z.eqb_neq _ _) Hp). cbv zeta.
  assert (Hfmt : pre ++ directive_text d ++ post =
    pre ++ chr "%"%char :: map flag_char (d_flags d) ++ from_option dec_text [] (d_width d) ++ tail_text d post).
  { unfold directive_text, tail_text. simpl. by rewrite <- !app_assoc. }
  rewrite Hfmt, (loop_inr _ _ _ (p, chr "%"%char)).
  2:{ unfold literal_turn. erewrite (rd_behind pre _ 0 _ p); [|reflexivity|lia]. done. }
  rewrite bind_ret. cbv beta iota. rewrite Z.eqb_refl. cbn [negb orb].
  destruct (width_head d post Hok) as (h & t & Ehd & Hh & _). rewrite Ehd.
  rewrite (flags_loop (chr "%"%char) h t Hh (d_flags d) pre) by
    (done || (rewrite !length_app; simpl; rewrite length_app, length_map; lia)).
  rewrite bind_ret. cbv beta iota.
  set (s1 := foldl _ _ (d_flags d)).
  assert (Hs1 : byte (sp_flags s1) /\ Z.land (sp_flags s1) SIGN = 0).
  { subst s1. rewrite flags_fold by (by vm_compute). apply flags_bits. }
  destruct Hs1 as [Hb H0]. clearbody s1.
  rewrite <- Ehd, app_comm_cons, app_assoc.
  rewrite (decode_width_dir _ d post p (set_width (-1) s1) _ h t Hok Hb H0);
    [|rewrite length_app; simpl; rewrite length_map; lia|done].
  do 2 f_equal. unfold directive_text. simpl. rewrite !length_app, length_map. simpl. lia.
Qed.
