(* ===== verification/TextSpec.v ===== *)
(** * What the text functions guarantee

    The theorems about numbers in text and formatted output. *)
From Stdlib Require Import ZArith Lia Ascii.
From stdpp Require Import base numbers list option strings.
From S2P Require Import Prelude SortHeap Ctype Kstrtox KstrtoxFacts Vsprintf.
From S2P Require Import PrintDigits PrintBuffer PrintFormat PrintRender PrintParse.
From S2P Require Import PrintParse.

(** C24: parsing a number is exact for every type.  On any C string each
    [kstrto*] function returns, without a fault; it returns 0 and stores [v]
    exactly when the text denotes [v]: a sign the type admits, the prefix the
    radix admits, digits of the radix whose value is [v], at most one newline,
    and [v] within the range of the type.  Otherwise [*res] is not touched.  The
    code is -ERANGE exactly when such a text, with or without a sign, has a
    value outside the range of the type, or the digits behind the sign and the
    prefix pass 64 bits whatever follows them; and -EINVAL exactly when neither
    the digits pass 64 bits nor the text is such a numeral. *)
Theorem kstrto_spec t m s base l res :
  cstr m s l -> 0 <= base <= 16 -> Z.of_nat (length l) < 2 ^ 31 ->
  (forall v, kstrto t m s base res = Ret (0, v) <-> denotes t base l v) /\
  ((~ exists v, denotes t base l v) ->
    kstrto t m s base res = Ret (- EINVAL, res) \/
    kstrto t m s base res = Ret (- ERANGE, res)) /\
  (kstrto t m s base res = Ret (- ERANGE, res) <->
    overflows t base l \/ exists v, reads t base l v /\ ~ kmin t <= v <= kmax t) /\
  (kstrto t m s base res = Ret (- EINVAL, res) <->
    ~ overflows t base l /\ forall v, ~ reads t base l v).
Proof.
  intros Hs Hb Hl. rewrite (kstrto_ok _ _ _ _ _ Hs Hb Hl t), <- range_error, <- invalid_error.
  set (r := in_range (kmin t) (kmax t) (text_value (ksigned t) base l)).
  assert (Hr : forall v, r = inr v <-> denotes t base l v) by apply denotes_iff.
  assert (Hcode : forall e, r = inl e -> e = EINVAL \/ e = ERANGE).
  { subst r. intros e. pose proof (text_value_code (ksigned t) base l) as H.
    destruct (text_value (ksigned t) base l) as [e'|v]; simpl; intros E.
    - apply H. by simplify_eq.
    - case_match; simplify_eq. by right. }
  assert (He : forall e, e = EINVAL \/ e = ERANGE -> Ret (answer r res) = Ret (- e, res) <-> r = inl e).
  { intros e He. split; [|by intros ->]. destruct r as [e'|w]; simpl.
    - intros [= E]. f_equal. by destruct (Hcode e' eq_refl) as [-> | ->], He as [-> | ->].
    - intros [= E _]. by destruct He as [-> | ->]. }
  split_and!; [|..|by apply He; right|by apply He; left].
  - intros v. rewrite <- Hr. destruct r as [e|w]; simpl.
    + split; [|done]. destruct (Hcode e eq_refl) as [-> | ->]; done.
    + split; [by intros [= ->]|by intros [= ->]].
  - intros Hno. destruct r as [e|w] eqn:E; [|by destruct Hno; exists w; apply Hr].
    destruct (Hcode e eq_refl) as [-> | ->]; [by left|by right].
Qed.

(** The text -0x80 and a newline, as a signed byte. *)
Definition demo_number : list Z := bytes "-0x80"%string ++ [10; 0].

Lemma kstrto_spec_witness :
  cstr demo_number 0 (take 6 demo_number) /\
  kstrto KS8 demo_number 0 0 77 = Ret (0, -128) /\
  kstrto KS8 (bytes "-129"%string ++ [0]) 0 10 77 = Ret (- ERANGE, 77) /\
  (kstrto KS8 demo_number 0 0 77 = Ret (0, -128) <-> denotes KS8 0 (take 6 demo_number) (-128)).
Proof.
  assert (H : cstr demo_number 0 (take 6 demo_number)) by (vm_compute; auto 20).
  split; [exact H|]. split; [by vm_compute|]. split; [by vm_compute|].
  exact (proj1 (kstrto_spec KS8 demo_number 0 0 (take 6 demo_number) 77 H
    ltac:(lia) ltac:(vm_compute; done)) (-128)).
Defined.

(** ** Formatted printing *)

(** A memory in which every address holds the string hello, padded. *)
Definition demo_mem_text (a : Z) : list Z := bytes "hello"%string ++ [0; 0; 0; 0].

(** C25: vsnprintf prints the text of its format, bounded by the buffer.  For
    any format, arguments and memory, let [out] be the text [render] computes,
    which does not depend on the buffer.  Then [vsnprintf] returns the length
    of [out] whatever the size of the buffer, writes nothing but the buffer's
    first [size] bytes, and leaves there the text, cut to leave room for the
    terminator, then the terminator, then the old bytes; a size of 0 writes
    nothing.  [vscnprintf] returns the number of characters it stored.
    [sprintf] does not fault if the text and its terminator fit the buffer.
    When there are enough arguments, and terminated strings behind those that
    are pointers, [out] exists: the call returns. *)
Theorem vsnprintf_spec mem symbolic addr buf size fmt f args :
  cstr fmt 0 f -> Z.of_nat (length f) < 2 ^ 31 -> (forall a, Forall byte (mem a)) -> Forall word args ->
  0 <= addr -> 0 <= size < 2 ^ 31 -> addr + size < 2 ^ 64 -> size <= Z.of_nat (length buf) ->
  (forall out, render mem symbolic fmt args = Ret out -> short out ->
    vsnprintf mem symbolic addr buf size fmt args = Ret (terminated size out buf, Z.of_nat (length out)) /\
    vscnprintf mem symbolic addr buf size fmt args =
      Ret (terminated size out buf, Z.max 0 (Z.min (Z.of_nat (length out)) (size - 1))) /\
    length (terminated size out buf) = length buf /\
    (Z.of_nat (length out) < Z.of_nat (length buf) -> addr + (2 ^ 31 - 1) < 2 ^ 64 ->
     sprintf mem symbolic addr buf fmt args =
       Ret (out ++ 0 :: drop (S (length out)) buf, Z.of_nat (length out)))) /\
  ((length f <= length args)%nat -> Forall (readable mem) args ->
   exists out, render mem symbolic fmt args = Ret out).
Proof.
  intros Hf Hlen Hmem Hargs Ha Hs Has Hb. split; [|intros; by eapply render_total].
  intros out Hr Hsh.
  assert (Hcap : forall n, addr + n < 2 ^ 64 -> capacity addr n = n).
  { intros n Hn. unfold capacity. by rewrite (proj2 (Z.leb_gt _ _)). }
  assert (Hv : vsnprintf mem symbolic addr buf size fmt args =
    Ret (terminated size out buf, Z.of_nat (length out))).
  { rewrite (vsnprintf_ok mem symbolic addr buf size fmt f args out); rewrite ?Hcap; done || lia. }
  split; [exact Hv|]. split; [|split].
  - unfold vscnprintf. rewrite Hv, bind_ret. cbv beta iota. unfold short in Hsh.
    rewrite u64_small by lia. destruct (Z.ltb_spec (Z.of_nat (length out)) size).
    + do 2 f_equal. lia.
    + destruct (Z.eqb_spec size 0) as [->|?]; simpl negb; cbv iota; [do 2 f_equal; lia|].
      rewrite s32_small by lia. do 2 f_equal. lia.
  - unfold terminated. destruct (Z.eqb_spec size 0); [done|]. cbv zeta.
    rewrite length_app. simpl. rewrite length_drop, length_take. lia.
  - intros Hl Hm. unfold sprintf.
    rewrite (vsnprintf_ok mem symbolic addr buf (2 ^ 31 - 1) fmt f args out); rewrite ?Hcap; try (done || lia).
    unfold terminated, short in *. cbv zeta. simpl (_ =? 0). cbv iota. by rewrite take_ge by lia.
Qed.

(** The format [%-6s|%+04d] into a buffer of 8 bytes. *)
Definition demo_format : list Z := bytes "%-6s|%+04d"%string ++ [0].
Definition demo_buffer : list Z := replicate 10 120.
Definition demo_args : list Z := [8192; 7].

Lemma vsnprintf_spec_witness :
  vsnprintf demo_mem_text true 4096 demo_buffer 8 demo_format demo_args =
    Ret (bytes "hello |"%string ++ [0; 120; 120], 11) /\
  ((forall out, render demo_mem_text true demo_format demo_args = Ret out -> short out ->
     vsnprintf demo_mem_text true 4096 demo_buffer 8 demo_format demo_args =
       Ret (terminated 8 out demo_buffer, Z.of_nat (length out)) /\
     vscnprintf demo_mem_text true 4096 demo_buffer 8 demo_format demo_args =
       Ret (terminated 8 out demo_buffer, Z.max 0 (Z.min (Z.of_nat (length out)) (8 - 1))) /\
     length (terminated 8 out demo_buffer) = length demo_buffer /\
     (Z.of_nat (length out) < Z.of_nat (length demo_buffer) -> 4096 + (2 ^ 31 - 1) < 2 ^ 64 ->
      sprintf demo_mem_text true 4096 demo_buffer demo_format demo_args =
        Ret (out ++ 0 :: drop (S (length out)) demo_buffer, Z.of_nat (length out)))) /\
   ((length (take 10 demo_format) <= length demo_args)%nat -> Forall (readable demo_mem_text) demo_args ->
    exists out, render demo_mem_text true demo_format demo_args = Ret out)).
Proof.
  split; [by vm_compute|].
  apply (vsnprintf_spec demo_mem_text true 4096 demo_buffer 8 demo_format (take 10 demo_format) demo_args).
  - vm_compute. auto 40.
  - by vm_compute.
  - intros a. apply (bool_decide_unpack _). by vm_compute.
  - apply (bool_decide_unpack _). by vm_compute.
  - lia.
  - lia.
  - lia.
  - by vm_compute.
Defined.

(** C26: the format parser.  Inside any format string a call of
    [format_decode] at a character returns without reading past the end,
    advances unless the directive is invalid, and leaves a specification whose
    fields fit their bit widths, with a radix of 8, 10 or 16 for every
    conversion.  A directive spelled out with its flags, width, precision,
    qualifier and conversion is read back as exactly that: [format_decode]
    consumes its text and sets each field to the directive's. *)
Theorem format_decode_spec :
  (forall fmt f p s, cstr fmt 0 f -> 0 <= p < Z.of_nat (length f) -> spec_inv s ->
    exists read s', format_decode fmt p s = Ret (read, s') /\
      0 <= read /\ p + read <= Z.of_nat (length f) /\
      (sp_type s' <> FORMAT_TYPE_INVALID -> 0 < read) /\ spec_ok s' /\
      (sp_type s' = FORMAT_TYPE_NONE \/ sp_type s' = FORMAT_TYPE_WIDTH \/ sp_type s' = FORMAT_TYPE_PRECISION \/
       In (sp_base s') [8; 10; 16])) /\
  (forall pre d post s, directive_ok d ->
    sp_type s <> FORMAT_TYPE_WIDTH -> sp_type s <> FORMAT_TYPE_PRECISION ->
    format_decode (pre ++ directive_text d ++ post) (Z.of_nat (length pre)) s =
      Ret (Z.of_nat (length (directive_text d)), directive_spec d)).
Proof.
  split.
  - intros fmt f p s Hf Hp Hs. pose proof (format_decode_ok fmt f Hf p s Hp Hs) as H.
    apply returns_inv in H as ([read s'] & -> & (H0 & H1 & H2 & H3 & H4)).
    exists read, s'. split_and!; try done; [tauto|simpl; intuition].
  - intros. by apply format_decode_dir.
Qed.

Lemma format_decode_spec_witness :
  format_decode (bytes "x%-#10.3llx%%"%string) 1 (mk_spec 0 0 0 0 0) =
    Ret (10, mk_spec FORMAT_TYPE_LONG_LONG 10 (Z.lor LEFT (Z.lor SPECIAL SMALL)) 16 3).
Proof.
  exact (proj2 format_decode_spec [120] (mk_directive [Fleft; Fspecial] (Some 10) (Some 3) Qll Cx)
    (bytes "%%"%string) (mk_spec 0 0 0 0 0) ltac:(by vm_compute) ltac:(done) ltac:(done)).
Defined.

(** C27: what is printed is read back.  For each integer type and each format
    of it, printing a word of the va_list with [snprintf] into a buffer large
    enough and parsing the result with the [kstrto*] function of the type
    gives the argument as that type.  [num_to_str] writes the decimal digits,
    filled up to the width with blanks, and returns their number, or returns 0
    and writes nothing when they do not fit; [kstrtoull] reads the digits
    back wherever they are terminated. *)
Theorem print_parse_roundtrip mem symbolic :
  (forall a, Forall byte (mem a)) ->
  (forall f s t base addr buf size a res,
    In (f, (s, t, base)) number_formats -> word a ->
    0 <= addr -> 26 <= size < 2 ^ 31 -> addr + size < 2 ^ 64 -> size <= Z.of_nat (length buf) ->
    exists b n, snprintf mem symbolic addr buf size (f ++ [0]) [a] = Ret (b, n) /\
      kstrto t b 0 base res = Ret (0, kvalue t a)) /\
  (forall buf size num width,
    word num -> 0 <= size <= Z.of_nat (length buf) -> size < 2 ^ 31 -> 0 <= width < 2 ^ 32 ->
    let n := Z.of_nat (length (dec_text num)) in
    let text := blanks (width - n) ++ dec_text num in
    num_to_str buf size num width =
      (if size <? Z.max n width then Ret (buf, 0)
       else Ret (text ++ drop (length text) buf, Z.max n width))) /\
  (forall num pre rest res, word num ->
    kstrtoull (pre ++ dec_text num ++ 0 :: rest) (Z.of_nat (length pre)) 10 res = Ret (0, num)).
Proof.
  intros Hmem. split; [|split].
  - intros f s t base addr buf size a res Hin Ha Haddr Hs Has Hb.
    pose proof number_formats_good as Hg. rewrite List.Forall_forall in Hg. specialize (Hg _ Hin).
    pose proof Hg as (Hr & Hv & _ & _ & _ & _ & _ & _ & _ & Hf & Hfl).
    assert (Hbase : 0 <= base <= 16).
    { clear -Hin. unfold number_formats in Hin. repeat destruct Hin as [[= _ _ _ <-]|Hin]; [lia..|done]. }
    destruct (number_text_denotes f s t base a Hg Ha) as (Hd & Hc & Hl).
    set (l := number_text s (u64 (kvalue t a))) in *.
    assert (Hrender : render mem symbolic (f ++ [0]) [a] = Ret l).
    { rewrite (Hr mem symbolic a []), (proj2 (Hv a Ha)). done. }
    assert (Hcap : capacity addr size = size).
    { unfold capacity. by rewrite (proj2 (Z.leb_gt (2 ^ 64) (addr + size))). }
    unfold snprintf. rewrite (vsnprintf_ok mem symbolic addr buf size (f ++ [0]) f [a] l), Hcap;
      try (done || lia || (unfold short; lia)).
    + do 2 eexists. split; [reflexivity|].
      unfold terminated. rewrite (proj2 (Z.eqb_neq size 0)) by lia. cbv zeta. rewrite take_ge by lia.
      pose proof (cstr_app [] l (drop (S (length l)) buf) Hc) as Hstr. simpl in Hstr.
      rewrite (kstrto_ok _ _ _ l) by (done || lia).
      by rewrite (proj2 (denotes_iff t base l (kvalue t a)) Hd).
    + apply (cstr_app [] f [] Hf).
    + by constructor.
  - intros buf size num width Hnum Hs Hs31 Hw n text.
    rewrite num_to_str_ok by (unfold word in Hnum; lia). fold n. fold text.
    assert (Ht : Z.of_nat (length text) = Z.max n width).
    { subst text n. rewrite length_app. unfold blanks. rewrite length_replicate. lia. }
    rewrite Ht. destruct (Z.ltb_spec size n), (Z.ltb_spec size width), (Z.ltb_spec size (Z.max n width));
      done || lia.
  - intros num pre rest res Hnum.
    assert (Hc : Forall (fun c => 0 < c < 256) (dec_text num)).
    { apply chars_bytes; [by left|lia|unfold word in Hnum; lia]. }
    pose proof (chars_short 0 10 num ltac:(lia) Hnum) as Hl.
    change kstrtoull with (kstrto KULL).
    rewrite (kstrto_ok _ _ 10 _ res (cstr_app pre (dec_text num) rest Hc) ltac:(lia) ltac:(unfold dec_text; lia) KULL).
    assert (Hd : denotes KULL 10 (dec_text num) num).
    { split; [unfold kmin, kmax; simpl; unfold word in Hnum; lia|]. right. right.
      apply (chars_numeral 10 []); [by apply prefix_given|by left|lia|unfold word in Hnum; lia]. }
    by rewrite (proj2 (denotes_iff KULL 10 (dec_text num) num) Hd).
Qed.

Lemma print_parse_roundtrip_witness :
  (exists b n, snprintf demo_mem_text true 4096 (replicate 40 120) 40 (bytes "%hhd"%string ++ [0]) [200] = Ret (b, n) /\
    kstrto KS8 b 0 10 77 = Ret (0, -56)) /\
  num_to_str (replicate 8 120) 8 1234 6 = Ret (bytes "  1234xx"%string, 6).
Proof.
  assert (Hm : forall a, Forall byte (demo_mem_text a)) by (intros a; apply (bool_decide_unpack _); by vm_compute).
  split.
  - apply (proj1 (print_parse_roundtrip demo_mem_text true Hm) (bytes "%hhd"%string)
      (spec_of FORMAT_TYPE_BYTE SIGN 10) KS8 10 4096 (replicate 40 120) 40 200 77).
    + do 10 right. by left.
    + unfold word. lia.
    + lia.
    + lia.
    + lia.
    + by vm_compute.
  - exact (proj1 (proj2 (print_parse_roundtrip demo_mem_text true Hm)) (replicate 8 120) 8 1234 6
      ltac:(unfold word; lia) ltac:(by vm_compute) ltac:(lia) ltac:(lia)).
Defined.
