(* ===== verification/Qspinlock.v ===== *)
(** * The queued spin lock

    A model of kernel/core/locking/qspinlock.c and asm-generic/qspinlock.h as a
    step relation.  A context is a CPU and a nesting level (task, softirq,
    hardirq, NMI); the contexts interleave at every access to a lock word or to
    a queue node, and an interrupt may come between any two accesses of the
    context it interrupts.  There are any number of locks; a context may hold
    several, and the queue nodes of a CPU are shared by all of them.

    A lock word is the 32-bit value of the union: the bytes [locked] and
    [pending], and the halfword [tail] (little endian). *)
From stdpp Require Import base numbers list option functions relations.
From Stdlib Require Import ZArith Lia.
From S2P Require Import Prelude.

(** ** The lock word *)

Definition _Q_SET_MASK (bits offset : Z) : Z := u32 (Z.shiftl (Z.shiftl 1 bits - 1) offset).
Definition _Q_LOCKED_OFFSET : Z := 0.
Definition _Q_LOCKED_BITS : Z := 8.
Definition _Q_LOCKED_MASK : Z := _Q_SET_MASK _Q_LOCKED_BITS _Q_LOCKED_OFFSET.
Definition _Q_PENDING_OFFSET : Z := _Q_LOCKED_OFFSET + _Q_LOCKED_BITS.
Definition _Q_PENDING_BITS : Z := 8.
Definition _Q_PENDING_MASK : Z := _Q_SET_MASK _Q_PENDING_BITS _Q_PENDING_OFFSET.
Definition _Q_TAIL_IDX_OFFSET : Z := _Q_PENDING_OFFSET + _Q_PENDING_BITS.
Definition _Q_TAIL_IDX_BITS : Z := 2.
Definition _Q_TAIL_IDX_MASK : Z := _Q_SET_MASK _Q_TAIL_IDX_BITS _Q_TAIL_IDX_OFFSET.
Definition _Q_TAIL_CPU_OFFSET : Z := _Q_TAIL_IDX_OFFSET + _Q_TAIL_IDX_BITS.
Definition _Q_TAIL_CPU_BITS : Z := 32 - _Q_TAIL_CPU_OFFSET.
Definition _Q_TAIL_CPU_MASK : Z := _Q_SET_MASK _Q_TAIL_CPU_BITS _Q_TAIL_CPU_OFFSET.
Definition _Q_TAIL_OFFSET : Z := _Q_TAIL_IDX_OFFSET.
Definition _Q_TAIL_MASK : Z := Z.lor _Q_TAIL_IDX_MASK _Q_TAIL_CPU_MASK.
Definition _Q_LOCKED_VAL : Z := Z.shiftl 1 _Q_LOCKED_OFFSET.
Definition _Q_PENDING_VAL : Z := Z.shiftl 1 _Q_PENDING_OFFSET.
Definition _Q_LOCKED_PENDING_MASK : Z := Z.lor _Q_LOCKED_MASK _Q_PENDING_MASK.
Definition MAX_NODES : Z := 4.
Definition _Q_PENDING_LOOPS : Z := 1.

Definition not32 (x : Z) : Z := 2 ^ 32 - 1 - x.

(** Stores to one field of the union: [bits] bits at [offset]. *)
Definition store_field (val bits offset x : Z) : Z :=
  Z.lor (Z.land val (not32 (_Q_SET_MASK bits offset))) (Z.shiftl x offset).
Definition store_locked (val x : Z) : Z := store_field val 8 0 x.
Definition clear_pending (val : Z) : Z := store_field val 8 8 0.
Definition clear_pending_set_locked (val : Z) : Z := store_field val 16 0 _Q_LOCKED_VAL.
Definition set_locked (val : Z) : Z := store_locked val _Q_LOCKED_VAL.

Definition encode_tail (cpu idx : Z) : Z :=
  u32 (Z.lor (u32 (Z.shiftl (cpu + 1) _Q_TAIL_CPU_OFFSET)) (Z.shiftl idx _Q_TAIL_IDX_OFFSET)).
Definition decode_tail (tail : Z) : Z * Z :=
  (s32 (Z.shiftr tail _Q_TAIL_CPU_OFFSET - 1),
   Z.shiftr (Z.land tail _Q_TAIL_IDX_MASK) _Q_TAIL_IDX_OFFSET).

(** The new word, and the previous tail. *)
Definition xchg_tail (val tail : Z) : Z * Z :=
  (store_field val 16 _Q_TAIL_OFFSET (Z.shiftr tail _Q_TAIL_OFFSET),
   Z.shiftl (Z.shiftr val 16) _Q_TAIL_OFFSET).

Definition queued_fetch_set_pending_acquire (val : Z) : Z := Z.lor val _Q_PENDING_VAL.

Definition queued_spin_is_locked (val : Z) : bool := negb (val =? 0).
Definition queued_spin_value_unlocked (val : Z) : bool := val =? 0.
Definition queued_spin_is_contended (val : Z) : bool := negb (Z.land val (not32 _Q_LOCKED_MASK) =? 0).

(** ** The machine *)

(** A queue node is named by its CPU and its index in [qnodes]. *)
Record mcs_spinlock := mk_mcs { mcs_locked : Z; mcs_next : option (Z * Z) }.

(** Where a context is: [lock] is a number, [idx], [next], [old] and [val] are
    the local variables that are still needed. *)
Inductive pc :=
  | Running                                   (* outside the lock functions *)
  | Try_read (l : nat)                        (* queued_spin_trylock *)
  | Try_cas (l : nat)
  | Lock_cas (l : nat)                        (* queued_spin_lock *)
  | Spin_pending (l : nat) (cnt : Z)          (* queued_spin_lock_slowpath: val is _Q_PENDING_VAL *)
  | Fetch_pending (l : nat)
  | Clear_pending (l : nat)
  | Wait_unlocked (l : nat)                   (* pending, waits for the owner *)
  | Take_pending (l : nat)
  | Node_count (l : nat)                      (* at the label queue *)
  | Node_locked (l : nat) (idx : Z)
  | Node_next (l : nat) (idx : Z)
  | Queue_read (l : nat) (idx : Z)            (* the trylock before queueing *)
  | Queue_cas (l : nat) (idx : Z)
  | Xchg_tail (l : nat) (idx : Z)
  | Link_prev (l : nat) (idx old : Z)
  | Wait_node (l : nat) (idx : Z)             (* arch_mcs_spin_lock_contended *)
  | Read_next (l : nat) (idx : Z)
  | Wait_head (l : nat) (idx : Z) (next : option (Z * Z))
  | Claim (l : nat) (idx : Z) (next : option (Z * Z)) (val : Z)
  | Set_locked (l : nat) (idx : Z) (next : option (Z * Z))
  | Wait_next (l : nat) (idx : Z)
  | Pass (l : nat) (idx : Z) (next : Z * Z)
  | Node_dec (l : nat) (idx : Z).             (* at the label release *)

(** A context: its CPU and level. *)
Abbreviation context := (Z * nat)%type.

Record machine := mk_machine {
  word : nat -> Z;                        (* per lock *)
  node : Z * Z -> mcs_spinlock;
  count : Z -> Z;                         (* qnodes[0].mcs.count, per CPU *)
  level : Z -> nat;                       (* the level that runs, per CPU *)
  at_pc : context -> pc;
  held : context -> list nat              (* the locks a context holds *)
}.

Definition machine_init : machine :=
  mk_machine (fun _ => 0) (fun _ => mk_mcs 0 None) (fun _ => 0) (fun _ => 0%nat)
    (fun _ => Running) (fun _ => []).

Definition set_word (l : nat) (v : Z) (s : machine) : machine :=
  mk_machine (<[l := v]> (word s)) (node s) (count s) (level s) (at_pc s) (held s).
Definition set_node (n : Z * Z) (m : mcs_spinlock) (s : machine) : machine :=
  mk_machine (word s) (<[n := m]> (node s)) (count s) (level s) (at_pc s) (held s).
Definition set_count (c v : Z) (s : machine) : machine :=
  mk_machine (word s) (node s) (<[c := v]> (count s)) (level s) (at_pc s) (held s).
Definition set_level (c : Z) (v : nat) (s : machine) : machine :=
  mk_machine (word s) (node s) (count s) (<[c := v]> (level s)) (at_pc s) (held s).
Definition goto (t : context) (p : pc) (s : machine) : machine :=
  mk_machine (word s) (node s) (count s) (level s) (<[t := p]> (at_pc s)) (held s).
Definition set_held (t : context) (h : list nat) (s : machine) : machine :=
  mk_machine (word s) (node s) (count s) (level s) (at_pc s) (<[t := h]> (held s)).

(** The lock function returns with the lock. *)
Definition acquired (t : context) (l : nat) (s : machine) : machine :=
  goto t Running (set_held t (l :: held s t) s).

(** ** The functions *)

(** From [if (val & ~_Q_LOCKED_MASK) goto queue] on. *)
Definition slow_decide (l : nat) (val : Z) : pc :=
  if negb (Z.land val (not32 _Q_LOCKED_MASK) =? 0) then Node_count l else Fetch_pending l.

Definition queued_spin_lock_slowpath (l : nat) (val : Z) : pc :=
  if val =? _Q_PENDING_VAL then Spin_pending l _Q_PENDING_LOOPS else slow_decide l val.

Section machine.
Context (NR_CPUS : Z).

Definition valid_node (n : Z * Z) : Prop := 0 <= n.1 < NR_CPUS /\ 0 <= n.2 < MAX_NODES.
Definition rd_node (n : Z * Z) (s : machine) : outcome mcs_spinlock :=
  if decide (valid_node n) then Ret (node s n) else Fault.
Definition wr_node (n : Z * Z) (m : mcs_spinlock) (s : machine) : outcome machine :=
  if decide (valid_node n) then Ret (set_node n m s) else Fault.

(** The next access of a context that is inside a lock function. *)
Definition context_step (t : context) (s : machine) : outcome machine :=
  let cpu := t.1 in
  match at_pc s t with
  | Running => Ret s
  | Try_read l => Ret (goto t (if word s l =? 0 then Try_cas l else Running) s)
  | Try_cas l =>
      Ret (if word s l =? 0 then acquired t l (set_word l _Q_LOCKED_VAL s) else goto t Running s)
  | Lock_cas l =>
      Ret (if word s l =? 0 then acquired t l (set_word l _Q_LOCKED_VAL s)
           else goto t (queued_spin_lock_slowpath l (word s l)) s)
  | Spin_pending l cnt =>
      let val := word s l in
      Ret (goto t (if negb (val =? _Q_PENDING_VAL) || (cnt =? 0) then slow_decide l val
                   else Spin_pending l (cnt - 1)) s)
  | Fetch_pending l =>
      let val := word s l in
      let s := set_word l (queued_fetch_set_pending_acquire val) s in
      Ret (goto t
        (if negb (Z.land val (not32 _Q_LOCKED_MASK) =? 0) then
           if Z.land val _Q_PENDING_MASK =? 0 then Clear_pending l else Node_count l
         else if negb (Z.land val _Q_LOCKED_MASK =? 0) then Wait_unlocked l else Take_pending l) s)
  | Clear_pending l => Ret (goto t (Node_count l) (set_word l (clear_pending (word s l)) s))
  | Wait_unlocked l =>
      Ret (if Z.land (word s l) _Q_LOCKED_MASK =? 0 then goto t (Take_pending l) s else s)
  | Take_pending l => Ret (acquired t l (set_word l (clear_pending_set_locked (word s l)) s))
  | Node_count l =>
      let idx := count s cpu in
      Ret (goto t (Node_locked l idx) (set_count cpu (s32 (idx + 1)) s))
  | Node_locked l idx =>
      m ← rd_node (cpu, idx) s;
      s ← wr_node (cpu, idx) (mk_mcs 0 (mcs_next m)) s;
      Ret (goto t (Node_next l idx) s)
  | Node_next l idx =>
      m ← rd_node (cpu, idx) s;
      s ← wr_node (cpu, idx) (mk_mcs (mcs_locked m) None) s;
      Ret (goto t (Queue_read l idx) s)
  | Queue_read l idx => Ret (goto t (if word s l =? 0 then Queue_cas l idx else Xchg_tail l idx) s)
  | Queue_cas l idx =>
      Ret (if word s l =? 0 then goto t (Node_dec l idx) (set_word l _Q_LOCKED_VAL s)
           else goto t (Xchg_tail l idx) s)
  | Xchg_tail l idx =>
      let '(val, old) := xchg_tail (word s l) (encode_tail cpu idx) in
      Ret (goto t (if negb (Z.land old _Q_TAIL_MASK =? 0) then Link_prev l idx old
                   else Wait_head l idx None) (set_word l val s))
  | Link_prev l idx old =>
      let prev := decode_tail old in
      m ← rd_node prev s;
      s ← wr_node prev (mk_mcs (mcs_locked m) (Some (cpu, idx))) s;
      Ret (goto t (Wait_node l idx) s)
  | Wait_node l idx =>
      m ← rd_node (cpu, idx) s;
      Ret (if negb (mcs_locked m =? 0) then goto t (Read_next l idx) s else s)
  | Read_next l idx =>
      m ← rd_node (cpu, idx) s;
      Ret (goto t (Wait_head l idx (mcs_next m)) s)
  | Wait_head l idx next =>
      let val := word s l in
      Ret (if Z.land val _Q_LOCKED_PENDING_MASK =? 0 then
             goto t (if Z.land val _Q_TAIL_MASK =? encode_tail cpu idx then Claim l idx next val
                     else Set_locked l idx next) s
           else s)
  | Claim l idx next val =>
      Ret (if word s l =? val then goto t (Node_dec l idx) (set_word l _Q_LOCKED_VAL s)
           else goto t (Set_locked l idx next) s)
  | Set_locked l idx next =>
      Ret (goto t (match next with Some n => Pass l idx n | None => Wait_next l idx end)
             (set_word l (set_locked (word s l)) s))
  | Wait_next l idx =>
      m ← rd_node (cpu, idx) s;
      Ret (match mcs_next m with Some n => goto t (Pass l idx n) s | None => s end)
  | Pass l idx next =>
      m ← rd_node next s;
      s ← wr_node next (mk_mcs 1 (mcs_next m)) s;
      Ret (goto t (Node_dec l idx) s)
  | Node_dec l idx => Ret (acquired t l (set_count cpu (s32 (count s cpu - 1)) s))
  end.

(** What can happen next: a context takes an access, calls a lock function or
    releases a lock it holds; a CPU takes an interrupt, or returns from one that
    has finished and holds no lock. *)
Inductive event :=
  | Ev_run (t : context)
  | Ev_lock (t : context) (l : nat)
  | Ev_trylock (t : context) (l : nat)
  | Ev_unlock (t : context) (l : nat)
  | Ev_irq (cpu : Z)
  | Ev_iret (cpu : Z).

(** A context runs when no interrupt is being handled on top of it. *)
Definition runs (t : context) (s : machine) : Prop := 0 <= t.1 < NR_CPUS /\ t.2 = level s t.1.

#[global] Instance pc_eq_dec : EqDecision pc.
Proof. solve_decision. Defined.

Definition fire (e : event) (s : machine) : outcome (option machine) :=
  match e with
  | Ev_run t => if decide (runs t s /\ at_pc s t <> Running) then s ← context_step t s; Ret (Some s) else Ret None
  | Ev_lock t l => Ret (if decide (runs t s /\ at_pc s t = Running) then Some (goto t (Lock_cas l) s) else None)
  | Ev_trylock t l => Ret (if decide (runs t s /\ at_pc s t = Running) then Some (goto t (Try_read l) s) else None)
  | Ev_unlock t l =>                                                       (* queued_spin_unlock *)
      Ret (if decide (runs t s /\ at_pc s t = Running /\ l ∈ held s t) then
             Some (set_held t (filter (.≠ l) (held s t)) (set_word l (store_locked (word s l) 0) s))
           else None)
  | Ev_irq cpu => Ret (if decide (0 <= cpu < NR_CPUS /\ (level s cpu < 3)%nat) then Some (set_level cpu (S (level s cpu)) s) else None)
  | Ev_iret cpu =>
      let t := (cpu, level s cpu) in
      Ret (if decide (0 <= cpu < NR_CPUS /\ (0 < level s cpu)%nat /\ at_pc s t = Running /\ held s t = [])
           then Some (set_level cpu (pred (level s cpu)) s) else None)
  end.

Definition step (e : event) (s s' : machine) : Prop := fire e s = Ret (Some s').
Definition reachable : machine -> Prop := rtc (fun s s' => exists e, step e s s') machine_init.

End machine.
