(* ===== verification/QspinInv.v ===== *)
(** * The queued spin lock: its invariant, and the first-come first-served lock

    Each lock has an owner, a context that set the pending bit, and a queue of
    contexts, in the order in which they published their nodes.  The invariant
    ties the lock word, the nodes and the program points to them.

    The abstract lock has an owner and a list of waiting contexts.  It is taken
    at once only when nobody waits, and is otherwise handed to the first who
    waits.  [lock_of_ghost] reads the abstract lock off the invariant; the
    lemmas about it are the general steps of the proof that the machine
    preserves the invariant and refines the abstract lock. *)
From stdpp Require Import base numbers list option functions relations.
From Stdlib Require Import ZArith Lia.
From S2P Require Import Prelude Qspinlock.

(** ** The lock word as its three fields *)

Definition qword (o p : bool) (tl : Z) : Z := Z.b2z o + Z.b2z p * 2 ^ 8 + tl * 2 ^ 16.

Lemma land_range_l a b n : 0 <= n -> 0 <= a < 2 ^ n -> 0 <= Z.land a b < 2 ^ n.
Proof.
  intros Hn Ha. replace (Z.land a b) with (Z.land (Z.land a b) (Z.ones n)).
  - rewrite Z.land_ones by lia. apply Z.mod_pos_bound. lia.
  - rewrite <- Z.land_assoc, (Z.land_comm b), Z.land_assoc, Z.land_ones, Z.mod_small by lia. done.
Qed.

Lemma land_split a b x y n : 0 <= n -> 0 <= a < 2 ^ n -> 0 <= b < 2 ^ n ->
  Z.land (a + x * 2 ^ n) (b + y * 2 ^ n) = Z.land a b + Z.land x y * 2 ^ n.
Proof.
  intros Hn Ha Hb. pose proof (land_range_l a b n Hn Ha).
  rewrite <- !lor_shiftl_add by done.
  apply Z.bits_inj'. intros i Hi.
  rewrite !Z.land_spec, !Z.lor_spec, !Z.land_spec.
  destruct (Z.lt_ge_cases i n).
  - rewrite !Z.shiftl_spec_low by done. by rewrite !orb_false_r.
  - rewrite !Z.shiftl_spec_high, Z.land_spec by lia.
    rewrite (testbit_above a n i), (testbit_above b n i) by lia. done.
Qed.

Lemma lor_split a b x y n : 0 <= n -> 0 <= a < 2 ^ n -> 0 <= b < 2 ^ n -> 0 <= Z.lor a b < 2 ^ n ->
  Z.lor (a + x * 2 ^ n) (b + y * 2 ^ n) = Z.lor a b + Z.lor x y * 2 ^ n.
Proof.
  intros Hn Ha Hb Hab. rewrite <- !lor_shiftl_add by done.
  apply Z.bits_inj'. intros i Hi. rewrite !Z.lor_spec.
  destruct (Z.lt_ge_cases i n).
  - rewrite !Z.shiftl_spec_low by done. rewrite !orb_false_r. done.
  - rewrite !Z.shiftl_spec_high, Z.lor_spec by lia.
    rewrite (testbit_above a n i), (testbit_above b n i) by lia. done.
Qed.

Definition halfword (tl : Z) : Prop := 0 <= tl < 2 ^ 16.

Section word.
Context (o p : bool) (tl : Z) (Htl : halfword tl).

Lemma qword_range : 0 <= qword o p tl < 2 ^ 32.
Proof using Htl. unfold qword, halfword in *. destruct o, p; simpl; lia. Qed.

(** A mask splits at bit 16. *)
Lemma qword_land (m lo hi : Z) : m = lo + hi * 2 ^ 16 -> halfword lo ->
  Z.land (qword o p tl) m = Z.land (Z.b2z o + Z.b2z p * 2 ^ 8) lo + Z.land tl hi * 2 ^ 16.
Proof using Htl.
  intros -> Hlo. unfold qword, halfword in *. apply land_split; [lia|destruct o, p; simpl; lia|lia].
Qed.

Lemma land_ones_16 : Z.land tl (2 ^ 16 - 1) = tl.
Proof using Htl. clear o p. unfold halfword in *. change (2 ^ 16 - 1) with (Z.ones 16). rewrite Z.land_ones by lia. apply Z.mod_small. lia. Qed.

Lemma qword_locked : Z.land (qword o p tl) _Q_LOCKED_MASK = Z.b2z o.
Proof using Htl. rewrite (qword_land _ 255 0) by done. rewrite Z.land_0_r. by destruct o, p. Qed.

Lemma qword_pending : Z.land (qword o p tl) _Q_PENDING_MASK = Z.b2z p * 2 ^ 8.
Proof using Htl. rewrite (qword_land _ 65280 0) by done. rewrite Z.land_0_r. by destruct o, p. Qed.

Lemma qword_locked_pending : Z.land (qword o p tl) _Q_LOCKED_PENDING_MASK = Z.b2z o + Z.b2z p * 2 ^ 8.
Proof using Htl. rewrite (qword_land _ 65535 0) by done. rewrite Z.land_0_r. by destruct o, p. Qed.

Lemma qword_tail : Z.land (qword o p tl) _Q_TAIL_MASK = tl * 2 ^ 16.
Proof using Htl. rewrite (qword_land _ 0 (2 ^ 16 - 1)) by done. rewrite land_ones_16. by destruct o, p. Qed.

Lemma qword_contended : Z.land (qword o p tl) (not32 _Q_LOCKED_MASK) = Z.b2z p * 2 ^ 8 + tl * 2 ^ 16.
Proof using Htl. rewrite (qword_land _ 65280 (2 ^ 16 - 1)) by done. rewrite land_ones_16. by destruct o, p. Qed.

Lemma qword_eq_0 : qword o p tl = 0 <-> o = false /\ p = false /\ tl = 0.
Proof using Htl. unfold qword, halfword in *. destruct o, p; simpl; intuition lia. Qed.

Lemma qword_fetch_pending : queued_fetch_set_pending_acquire (qword o p tl) = qword o true tl.
Proof using Htl.
  unfold queued_fetch_set_pending_acquire, qword, halfword in *.
  change _Q_PENDING_VAL with (2 ^ 8 + 0 * 2 ^ 16). rewrite lor_split, Z.lor_0_r by (destruct o, p; vm_compute; intuition congruence).
  by destruct o, p.
Qed.

Lemma qword_store_low (bits off x lo : Z) :
  not32 (_Q_SET_MASK bits off) = lo + (2 ^ 16 - 1) * 2 ^ 16 -> halfword lo ->
  halfword (Z.shiftl x off) -> halfword (Z.lor (Z.land (Z.b2z o + Z.b2z p * 2 ^ 8) lo) (Z.shiftl x off)) ->
  store_field (qword o p tl) bits off x =
    Z.lor (Z.land (Z.b2z o + Z.b2z p * 2 ^ 8) lo) (Z.shiftl x off) + tl * 2 ^ 16.
Proof using Htl.
  intros E Hlo Hx Hr. unfold store_field. rewrite (qword_land _ lo (2 ^ 16 - 1) E Hlo), land_ones_16.
  replace (Z.shiftl x off) with (Z.shiftl x off + 0 * 2 ^ 16) at 1 by lia.
  unfold halfword in *. rewrite lor_split, Z.lor_0_r; [done|lia| |lia|lia].
  apply land_range_l; [lia|destruct o, p; simpl; lia].
Qed.

Lemma qword_set_locked : set_locked (qword o p tl) = qword true p tl.
Proof using Htl.
  unfold set_locked, store_locked. rewrite (qword_store_low _ _ _ 65280) by (unfold halfword; destruct o, p; vm_compute; intuition congruence).
  by destruct o, p.
Qed.

Lemma qword_unlock : store_locked (qword o p tl) 0 = qword false p tl.
Proof using Htl.
  unfold store_locked. rewrite (qword_store_low _ _ _ 65280) by (unfold halfword; destruct o, p; vm_compute; intuition congruence).
  by destruct o, p.
Qed.

Lemma qword_clear_pending : clear_pending (qword o p tl) = qword o false tl.
Proof using Htl.
  unfold clear_pending. rewrite (qword_store_low _ _ _ 255) by (unfold halfword; destruct o, p; vm_compute; intuition congruence).
  by destruct o, p.
Qed.

Lemma qword_take_pending : clear_pending_set_locked (qword o p tl) = qword true false tl.
Proof using Htl.
  unfold clear_pending_set_locked. rewrite (qword_store_low _ _ _ 0) by (unfold halfword; destruct o, p; vm_compute; intuition congruence).
  by destruct o, p.
Qed.

Lemma qword_xchg tl' : halfword tl' ->
  xchg_tail (qword o p tl) (tl' * 2 ^ 16) = (qword o p tl', tl * 2 ^ 16).
Proof using Htl.
  intros Htl'. unfold xchg_tail, store_field. change (_Q_TAIL_OFFSET) with 16.
  assert (Hlo : 0 <= Z.b2z o + Z.b2z p * 2 ^ 8 < 2 ^ 16) by (destruct o, p; simpl; lia).
  assert (Hs : Z.shiftr (tl' * 2 ^ 16) 16 = tl') by (apply (shiftr_add_mul 0 tl' 16); lia). rewrite Hs.
  rewrite (qword_land _ (2 ^ 16 - 1) 0) by done. rewrite Z.land_0_r, Z.add_0_r.
  change (2 ^ 16 - 1) with (Z.ones 16). rewrite Z.land_ones, Z.mod_small by lia.
  rewrite lor_shiftl_add by lia. unfold qword.
  rewrite shiftr_add_mul by lia. rewrite Z.shiftl_mul_pow2 by lia. done.
Qed.
End word.

(** ** Tails *)

(** What the tail halfword says of a node. *)
Definition node_code (n : Z * Z) : Z := (n.1 + 1) * 4 + n.2.

(** A context in a queue, with the index of its node. *)
Abbreviation entry := (Z * nat * Z)%type.
Definition node_of (e : entry) : Z * Z := (e.1.1, e.2).
Definition tail_of (q : list entry) : Z :=
  match last q with Some e => node_code (node_of e) | None => 0 end.

Section tails.
Context (NR_CPUS : Z) (HN : NR_CPUS < 2 ^ 14).

Lemma node_code_range n : valid_node NR_CPUS n -> halfword (node_code n) /\ node_code n <> 0.
Proof using HN. unfold valid_node, halfword, node_code, MAX_NODES. lia. Qed.

Lemma encode_tail_code n : valid_node NR_CPUS n -> encode_tail n.1 n.2 = node_code n * 2 ^ 16.
Proof using HN.
  intros Hn. pose proof (node_code_range n Hn) as [Hc _].
  unfold encode_tail, valid_node, halfword, node_code, MAX_NODES in *.
  change _Q_TAIL_CPU_OFFSET with 18. change _Q_TAIL_IDX_OFFSET with 16.
  rewrite (Z.shiftl_mul_pow2 _ 18), (u32_small ((n.1 + 1) * 2 ^ 18)) by lia.
  rewrite Z.lor_comm, <- Z.shiftl_mul_pow2, lor_shiftl_add by (rewrite ?Z.shiftl_mul_pow2; lia).
  rewrite Z.shiftl_mul_pow2, u32_small by lia. lia.
Qed.

Lemma decode_tail_code n : valid_node NR_CPUS n -> decode_tail (node_code n * 2 ^ 16) = n.
Proof using HN.
  intros Hn. unfold decode_tail, valid_node, node_code, MAX_NODES in *. destruct n as [c i]; simpl in *.
  change _Q_TAIL_CPU_OFFSET with 18. change _Q_TAIL_IDX_OFFSET with 16.
  replace (((c + 1) * 4 + i) * 2 ^ 16) with (i * 2 ^ 16 + (c + 1) * 2 ^ 18) by lia.
  rewrite shiftr_add_mul by lia. rewrite s32_small by lia.
  change _Q_TAIL_IDX_MASK with (3 * 2 ^ 16 + 0 * 2 ^ 18).
  rewrite land_split by lia. rewrite Z.land_0_r, Z.add_0_r.
  rewrite <- !Z.shiftl_mul_pow2, <- Z.shiftl_land by lia.
  change 3 with (Z.ones 2). rewrite Z.land_ones, Z.mod_small by lia.
  rewrite Z.shiftr_shiftl_l, Z.sub_diag by lia. simpl. f_equal. lia.
Qed.

Lemma node_code_inj n m : valid_node NR_CPUS n -> valid_node NR_CPUS m -> node_code n = node_code m -> n = m.
Proof using HN.
  intros Hn Hm E. rewrite <- (decode_tail_code n Hn), <- (decode_tail_code m Hm). by rewrite E.
Qed.

Lemma tail_of_range q : Forall (valid_node NR_CPUS) (node_of <$> q) ->
  halfword (tail_of q) /\ (tail_of q = 0 <-> q = []).
Proof using HN.
  intros Hq. unfold tail_of. destruct (last q) as [e|] eqn:E.
  - apply last_Some in E as [q' ->]. rewrite fmap_app in Hq. apply Forall_app in Hq as [_ He].
    apply Forall_inv, node_code_range in He as [? ?]. split; [done|]. split; [done|]. by destruct q'.
  - apply last_None in E as ->. unfold halfword. split; [lia|done].
Qed.
End tails.

(** ** Roles *)

(** The lock a program point owns, has set the pending bit of, is queued for or
    is about to queue for; the node it uses. *)
Definition owner_of (p : pc) : option nat :=
  match p with Wait_next l _ | Pass l _ _ | Node_dec l _ => Some l | _ => None end.
Definition pender_of (p : pc) : option nat :=
  match p with Clear_pending l | Wait_unlocked l | Take_pending l => Some l | _ => None end.
Definition queued_of (p : pc) : option (nat * Z) :=
  match p with
  | Link_prev l i _ | Wait_node l i | Read_next l i | Wait_head l i _ | Claim l i _ _
  | Set_locked l i _ | Wait_next l i | Pass l i _ => Some (l, i)
  | _ => None
  end.
Definition joiner_of (p : pc) : option nat :=
  match p with
  | Clear_pending l | Node_count l | Node_locked l _ | Node_next l _ | Queue_read l _
  | Queue_cas l _ | Xchg_tail l _ => Some l
  | _ => None
  end.
Definition uses (p : pc) : option Z :=
  match p with
  | Node_locked _ i | Node_next _ i | Queue_read _ i | Queue_cas _ i | Xchg_tail _ i | Node_dec _ i => Some i
  | _ => snd <$> queued_of p
  end.

(** The abstract state of a lock. *)
Record ghost := mk_ghost { owner : option context; pender : option context; queue : list entry }.

Definition owns (s : machine) (l : nat) (t : context) : Prop :=
  l ∈ held s t \/ owner_of (at_pc s t) = Some l.
Definition next_of (s : machine) (e : entry) : option (Z * Z) := mcs_next (node s (node_of e)).
Definition locked_of (s : machine) (e : entry) : Z := mcs_locked (node s (node_of e)).

(** An entry [b] behind [a], and the rest of a queue from [a] on. *)
Definition waiter (s : machine) (a b : entry) : Prop :=
  locked_of s b = 0 /\
  ((exists l i, at_pc s b.1 = Link_prev l i (node_code (node_of a) * 2 ^ 16) /\ next_of s a = None) \/
   (exists l i, at_pc s b.1 = Wait_node l i /\ next_of s a = Some (node_of b))).

Fixpoint links (s : machine) (a : entry) (q : list entry) : Prop :=
  match q with
  | [] => next_of s a = None
  | b :: q => waiter s a b /\ links s b q
  end.

(** Where the first of a queue can be. *)
Definition heading (p : pc) (locked : Z) : Prop :=
  match p with
  | Wait_node _ _ => locked <> 0
  | Read_next _ _ | Wait_head _ _ _ | Claim _ _ _ _ | Set_locked _ _ _ | Wait_next _ _ | Pass _ _ _ => True
  | _ => False
  end.

Definition queue_ok (s : machine) (q : list entry) : Prop :=
  match q with [] => True | h :: q => heading (at_pc s h.1) (locked_of s h) /\ links s h q end.

(** The pending bit, if set, is about to be cleared again. *)
Definition calm (s : machine) (l : nat) (g : ghost) : Prop :=
  forall t, pender g = Some t -> at_pc s t = Clear_pending l.
Definition joined (s : machine) (l : nat) (g : ghost) (e : entry) : Prop :=
  queue g = [e] -> exists t, joiner_of (at_pc s t) = Some l.
(** The [next] a context read is its node's, unless it read NULL. *)
Definition next_ok (s : machine) (e : entry) (next : option (Z * Z)) : Prop :=
  next = None \/ next = next_of s e.

(** What a program point says about its lock. *)
Definition pc_ok (s : machine) (l : nat) (g : ghost) (t : context) : Prop :=
  match at_pc s t with
  | Take_pending l' => l' = l -> owner g = None
  | Wait_head l' i next => l' = l -> next_ok s (t, i) next
  | Claim l' i next val =>
      l' = l -> next_ok s (t, i) next /\ val = qword false false (node_code (t.1, i)) /\
        owner g = None /\ calm s l g
  | Set_locked l' i next =>
      l' = l -> next_ok s (t, i) next /\ owner g = None /\ calm s l g /\ joined s l g (t, i)
  | Wait_next l' i => l' = l -> calm s l g /\ joined s l g (t, i)
  | Pass l' i next => l' = l -> calm s l g /\ next_of s (t, i) = Some next
  | _ => True
  end.

(** The invariant of one lock. *)
Record lock_inv (s : machine) (l : nat) (g : ghost) : Prop := {
  inv_word : word s l = qword (bool_decide (is_Some (owner g))) (bool_decide (is_Some (pender g))) (tail_of (queue g));
  inv_owner t : owns s l t <-> owner g = Some t;
  inv_once t : ~ (l ∈ held s t /\ owner_of (at_pc s t) = Some l);
  inv_pender t : pender_of (at_pc s t) = Some l <-> pender g = Some t;
  inv_queued t i : queued_of (at_pc s t) = Some (l, i) <-> (t, i) ∈ queue g;
  inv_nodup : NoDup (queue g);
  inv_queue : queue_ok s (queue g);
  inv_pc t : pc_ok s l g t
}.

(** The nodes a CPU uses, below level [n]. *)
Fixpoint used_below (s : machine) (c : Z) (n : nat) : Z :=
  match n with
  | O => 0
  | S n => used_below s c n + match uses (at_pc s (c, n)) with Some _ => 1 | None => 0 end
  end.

(** What a context knows of the node it has not published yet, and of its
    count of spins. *)
Definition fresh_ok (s : machine) (t : context) : Prop :=
  match at_pc s t with
  | Spin_pending _ cnt => 0 <= cnt
  | Node_next _ i => mcs_locked (node s (t.1, i)) = 0
  | Queue_read _ i | Queue_cas _ i | Xchg_tail _ i => node s (t.1, i) = mk_mcs 0 None
  | _ => True
  end.

Record node_inv (NR_CPUS : Z) (s : machine) : Prop := {
  inv_count c : count s c = used_below s c 4;
  inv_index t i : uses (at_pc s t) = Some i -> i = used_below s t.1 t.2;
  inv_level c : (level s c <= 3)%nat;
  inv_fresh t : fresh_ok s t;
  inv_active t : at_pc s t <> Running \/ held s t <> [] -> 0 <= t.1 < NR_CPUS /\ (t.2 <= level s t.1)%nat
}.

Definition machine_inv (NR_CPUS : Z) (s : machine) (g : nat -> ghost) : Prop :=
  node_inv NR_CPUS s /\ (forall l, lock_inv s l (g l)) /\ (forall t, NoDup (held s t)).

(** ** Queues *)

Lemma queued_uses p l i : queued_of p = Some (l, i) -> uses p = Some i.
Proof. destruct p; simpl; intros; by simplify_eq. Qed.

Lemma links_ext s s' a q :
  next_of s' a = next_of s a ->
  (forall e, e ∈ q -> node s' (node_of e) = node s (node_of e) /\ at_pc s' e.1 = at_pc s e.1) ->
  links s a q -> links s' a q.
Proof.
  revert a. induction q as [|b q IH]; simpl; intros a Ha Hq; [by rewrite Ha|].
  intros [Hw Hl]. destruct (Hq b ltac:(by constructor)) as [En Ep]. split.
  - unfold waiter, locked_of. rewrite Ep, En, Ha. apply Hw.
  - apply IH; [unfold next_of; by rewrite En| |done]. intros e He. apply Hq. by constructor.
Qed.

Lemma queue_ok_ext s s' q :
  (forall e, e ∈ q -> node s' (node_of e) = node s (node_of e)) ->
  (forall e, e ∈ q -> at_pc s' e.1 = at_pc s e.1) -> queue_ok s q -> queue_ok s' q.
Proof.
  destruct q as [|h q]; [done|]. simpl. intros Hn Hp [Hh Hl]. split.
  - unfold locked_of. by rewrite Hp, Hn by constructor.
  - apply (links_ext s); [unfold next_of; by rewrite Hn by constructor| |done].
    intros e He. split; [apply Hn|apply Hp]; by constructor.
Qed.

(** Who is past the wait for its node is the first. *)
Lemma links_waiting s a q e : links s a q -> e ∈ q ->
  (exists l i old, at_pc s e.1 = Link_prev l i old) \/ (exists l i, at_pc s e.1 = Wait_node l i /\ locked_of s e = 0).
Proof.
  revert a. induction q as [|b q IH]; simpl; intros a Hq He; [by apply not_elem_of_nil in He|].
  destruct Hq as [[Hb Hw] Hq]. apply elem_of_cons in He as [->|He]; [|by apply (IH b)].
  destruct Hw as [(l & i & H & _)|(l & i & H & _)]; eauto 10.
Qed.

Lemma head_first s q e : queue_ok s q -> e ∈ q ->
  match at_pc s e.1 with
  | Link_prev _ _ _ => False
  | Wait_node _ _ => locked_of s e <> 0
  | _ => True
  end -> exists q', q = e :: q'.
Proof.
  destruct q as [|h q]; simpl; intros Hq He Hp; [by apply not_elem_of_nil in He|].
  apply elem_of_cons in He as [->|He]; [by eauto|].
  destruct Hq as [_ Hq]. destruct (links_waiting s h q e Hq He) as [(l & i & old & E)|(l & i & E & El)];
    rewrite E in Hp; done.
Qed.

(** ** Nodes *)

Lemma used_below_mono s c n m : (n <= m)%nat -> used_below s c n <= used_below s c m.
Proof. induction 1 as [|m _ IH]; simpl; [lia|]. case_match; lia. Qed.

Lemma used_below_bound s c n : 0 <= used_below s c n <= Z.of_nat n.
Proof. induction n as [|n IH]; simpl used_below; [lia|]. case_match; lia. Qed.

Lemma used_below_lt s c n m i : (n < m)%nat -> uses (at_pc s (c, n)) = Some i -> used_below s c n < used_below s c m.
Proof. intros Hn Hu. pose proof (used_below_mono s c (S n) m ltac:(lia)) as H. simpl in H. rewrite Hu in H. lia. Qed.

Lemma uses_inj N s t u i : node_inv N s -> uses (at_pc s t) = Some i -> uses (at_pc s u) = Some i ->
  t.1 = u.1 -> t = u.
Proof.
  intros H Ht Hu E. pose proof (inv_index _ _ H t i Ht) as Et. pose proof (inv_index _ _ H u i Hu) as Eu.
  destruct t as [c n], u as [c' m]. simpl in *. subst c'.
  destruct (Nat.lt_trichotomy n m) as [Hlt|[->|Hlt]]; [|done|].
  - pose proof (used_below_lt s c n m i Hlt Ht). lia.
  - pose proof (used_below_lt s c m n i Hlt Hu). lia.
Qed.

Lemma uses_valid N s t i : node_inv N s -> uses (at_pc s t) = Some i -> valid_node N (t.1, i).
Proof.
  intros H Hu.
  assert (Ha : 0 <= t.1 < N /\ (t.2 <= level s t.1)%nat).
  { apply (inv_active _ _ H). left. intros E. by rewrite E in Hu. }
  pose proof (inv_index _ _ H t i Hu) as ->. pose proof (inv_level _ _ H t.1).
  pose proof (used_below_bound s t.1 t.2). unfold valid_node, MAX_NODES. simpl. lia.
Qed.

(** Different entries of queues have different nodes. *)
Lemma node_of_inj N s (e f : entry) : node_inv N s ->
  uses (at_pc s e.1) = Some e.2 -> uses (at_pc s f.1) = Some f.2 -> node_of e = node_of f -> e = f.
Proof.
  intros H He Hf E. destruct e as [t i], f as [u j]. unfold node_of in E. simpl in *. simplify_eq.
  f_equal. by apply (uses_inj N s t u j).
Qed.

(** The context that links its node behind [a]. *)
Lemma links_link s l t i j old a0 q :
  links s a0 q -> (t, i) ∈ q -> at_pc s t = Link_prev l j old ->
  NoDup (fst <$> q) -> NoDup (node_of <$> a0 :: q) ->
  exists a, a ∈ a0 :: q /\ old = node_code (node_of a) * 2 ^ 16 /\ next_of s a = None /\ a <> (t, i) /\
    forall s', at_pc s' t = Wait_node l j -> (forall u, u <> t -> at_pc s' u = at_pc s u) ->
      next_of s' a = Some (node_of (t, i)) -> locked_of s' a = locked_of s a ->
      (forall n, n <> node_of a -> node s' n = node s n) -> links s' a0 q.
Proof.
  revert a0. induction q as [|b q IH]; intros a0 Hl Hin Ht Hnd Hnn; [by apply not_elem_of_nil in Hin|].
  destruct Hl as [Hw Hl]. rewrite fmap_cons in Hnd. rewrite fmap_cons in Hnn. apply NoDup_cons in Hnd as [Hb Hnd].
  apply NoDup_cons in Hnn as [Ha0 Hnn].
  destruct (decide (b = (t, i))) as [->|Hne].
  - destruct Hw as [Hlk [(l' & j' & E & En)|(l' & j' & E & _)]]; simpl in E; rewrite Ht in E; simplify_eq.
    exists a0. split_and!; [by constructor|done|done| |].
    { intros ->. apply Ha0. by constructor. }
    intros s' Et Eu Ena Ela Hn.
    assert (Hnb : node s' (node_of (t, i)) = node s (node_of (t, i))).
    { apply Hn. intros E. apply Ha0. rewrite fmap_cons, E. by constructor. }
    split.
    + split; [unfold locked_of in *; by rewrite Hnb|]. right. by exists l', j'.
    + apply (links_ext s); [unfold next_of; by rewrite Hnb| |done].
      intros e He. split; [|apply Eu].
      * apply Hn. intros E. apply Ha0. rewrite fmap_cons, <- E. right. by apply list_elem_of_fmap_2.
      * intros <-. apply Hb. exact (list_elem_of_fmap_2 fst q e He).
  - apply elem_of_cons in Hin as [?|Hin]; [by simplify_eq|].
    destruct (IH b Hl Hin Ht Hnd Hnn) as (a & Ha & Hold & Hnx & Hat & Hs').
    exists a. split_and!; [by right|done|done|done|].
    intros s' Et Eu Ena Ela Hn.
    assert (Hbt : b.1 <> t).
    { intros E. apply Hb. rewrite E. by apply (list_elem_of_fmap_2 fst _ (t, i)). }
    assert (Hna : node s' (node_of a0) = node s (node_of a0)).
    { apply Hn. intros E. apply Ha0. rewrite E. by apply list_elem_of_fmap_2. }
    split; [|by apply Hs']. unfold waiter. rewrite (Eu b.1 Hbt). unfold next_of. rewrite Hna.
    replace (locked_of s' b) with (locked_of s b); [done|].
    unfold locked_of in *. destruct (decide (node_of b = node_of a)) as [E|E]; [by rewrite E|by rewrite Hn].
Qed.

(** ** The abstract lock *)

Record fifo_lock := mk_fifo { holder : option context; waiting : list context }.
Definition fifo_init : fifo_lock := mk_fifo None [].

(** What context [t] can do. *)
Inductive fifo_step (t : context) : fifo_lock -> fifo_lock -> Prop :=
  | fifo_skip a : fifo_step t a a
  | fifo_take : fifo_step t (mk_fifo None []) (mk_fifo (Some t) [])
  | fifo_join o w : t ∉ w -> fifo_step t (mk_fifo o w) (mk_fifo o (w ++ [t]))
  | fifo_grant w : fifo_step t (mk_fifo None (t :: w)) (mk_fifo (Some t) w)
  | fifo_release w : fifo_step t (mk_fifo (Some t) w) (mk_fifo None w).

(** The contexts that wait: one that has set the pending bit and waits for the
    owner comes before the queue; a first of the queue that is the owner
    already does not wait. *)
Definition pending_waits (s : machine) (g : ghost) : list context :=
  match pender g with
  | Some t => match at_pc s t with Clear_pending _ => [] | _ => [t] end
  | None => []
  end.
Definition queue_waits (s : machine) (q : list entry) : list context :=
  fst <$> filter (fun e : entry => owner_of (at_pc s e.1) = None) q.
Definition lock_of_ghost (s : machine) (g : ghost) : fifo_lock :=
  mk_fifo (owner g) (pending_waits s g ++ queue_waits s (queue g)).

(** The first of the queue is the owner or waits; all others wait. *)
Lemma queue_waits_links s a q : links s a q -> queue_waits s q = fst <$> q.
Proof.
  revert a. induction q as [|b q IH]; simpl; intros a H; [done|].
  destruct H as [[_ Hb] Hq]. unfold queue_waits in *. rewrite filter_cons_True; [rewrite !fmap_cons; f_equal; by apply (IH b)|].
  destruct Hb as [(l & i & E & _)|(l & i & E & _)]; by rewrite E.
Qed.

Lemma queue_waits_cons s e q :
  queue_waits s (e :: q) = (if decide (owner_of (at_pc s e.1) = None) then [e.1] else []) ++ queue_waits s q.
Proof. unfold queue_waits. rewrite filter_cons. by destruct (decide _). Qed.

Lemma queue_waits_ext s s' q :
  (forall e, e ∈ q -> owner_of (at_pc s' e.1) = owner_of (at_pc s e.1)) -> queue_waits s' q = queue_waits s q.
Proof.
  induction q as [|e q IH]; intros H; [done|].
  rewrite !queue_waits_cons, H by constructor. rewrite IH; [done|]. intros f Hf. apply H. by constructor.
Qed.

(** ** Updating the state of one context *)

Record moves (t : context) (s s' : machine) : Prop := {
  moves_pc u : u <> t -> at_pc s' u = at_pc s u;
  moves_held u : u <> t -> held s' u = held s u
}.

(** About to take the lock, and first of the queue past its wait. *)
Definition taking (l : nat) (p : pc) : Prop :=
  match p with Take_pending l' | Claim l' _ _ _ | Set_locked l' _ _ => l' = l | _ => False end.
Definition past_wait (l : nat) (p : pc) : Prop :=
  match p with Claim l' _ _ _ | Set_locked l' _ _ | Wait_next l' _ | Pass l' _ _ => l' = l | _ => False end.

Lemma past_wait_queued l p : past_wait l p -> exists i, queued_of p = Some (l, i).
Proof. destruct p; simpl; try done; intros ->; eauto. Qed.

(** The facts of another context survive. *)
Lemma pc_ok_mono s s' l g g' u :
  at_pc s' u = at_pc s u ->
  (owner g = None -> taking l (at_pc s u) -> owner g' = None) ->
  (calm s l g -> past_wait l (at_pc s u) -> calm s' l g') ->
  (forall i, (u, i) ∈ queue g -> (joined s l g (u, i) -> joined s' l g' (u, i)) /\
    (next_of s (u, i) = None \/ next_of s' (u, i) = next_of s (u, i))) ->
  (forall i, queued_of (at_pc s u) = Some (l, i) -> (u, i) ∈ queue g) ->
  pc_ok s l g u -> pc_ok s' l g' u.
Proof.
  intros Epc Ho Hc Hq Hin. unfold pc_ok. rewrite Epc.
  assert (Hn : forall i nx, (u, i) ∈ queue g -> next_ok s (u, i) nx -> next_ok s' (u, i) nx).
  { intros i nx Hi. destruct (proj2 (Hq i Hi)) as [E|E]; unfold next_ok; rewrite E; [|done].
    intros [->| ->]; by left. }
  destruct (at_pc s u) eqn:E; try done; simpl in Hin, Ho, Hc; intros H ->.
  - apply Ho; [by apply H|done].
  - apply Hn, H; [by apply Hin|done].
  - destruct (H eq_refl) as (H1 & H2 & H3 & H4). split_and!; auto.
  - destruct (H eq_refl) as (H1 & H2 & H3 & H4). split_and!; auto. by apply (Hq idx), H4; auto.
  - destruct (H eq_refl) as (H3 & H4). split; auto. apply (Hq idx), H4; auto.
  - destruct (H eq_refl) as (H3 & H4). split; auto.
    destruct (proj2 (Hq idx (Hin _ eq_refl))) as [E'|E']; congruence.
Qed.

(** The invariant of a lock after context [t] moved: what concerns [t] is
    shown, the rest carries over. *)
Lemma lock_inv_move s s' l g g' t :
  lock_inv s l g -> moves t s s' ->
  word s' l = qword (bool_decide (is_Some (owner g'))) (bool_decide (is_Some (pender g'))) (tail_of (queue g')) ->
  (owns s' l t <-> owner g' = Some t) ->
  (forall u, u <> t -> owner g' = Some u <-> owner g = Some u) ->
  ~ (l ∈ held s' t /\ owner_of (at_pc s' t) = Some l) ->
  (pender_of (at_pc s' t) = Some l <-> pender g' = Some t) ->
  (forall u, u <> t -> pender g' = Some u <-> pender g = Some u) ->
  (forall i, queued_of (at_pc s' t) = Some (l, i) <-> (t, i) ∈ queue g') ->
  (forall u i, u <> t -> (u, i) ∈ queue g' <-> (u, i) ∈ queue g) ->
  NoDup (queue g') -> queue_ok s' (queue g') ->
  pc_ok s' l g' t -> (forall u, u <> t -> pc_ok s l g u -> pc_ok s' l g' u) ->
  lock_inv s' l g'.
Proof.
  intros H Hm Hw Ho1 Ho2 Hon Hp1 Hp2 Hq1 Hq2 Hnd Hqo Hpc1 Hpc2. split; try done.
  - intros u. destruct (decide (u = t)) as [->|Hu]; [done|].
    unfold owns. rewrite (moves_pc _ _ _ Hm), (moves_held _ _ _ Hm), Ho2 by done. apply H.
  - intros u. destruct (decide (u = t)) as [->|Hu]; [done|].
    rewrite (moves_pc _ _ _ Hm), (moves_held _ _ _ Hm) by done. apply H.
  - intros u. destruct (decide (u = t)) as [->|Hu]; [done|].
    rewrite (moves_pc _ _ _ Hm), Hp2 by done. apply H.
  - intros u i. destruct (decide (u = t)) as [->|Hu]; [done|].
    rewrite (moves_pc _ _ _ Hm), Hq2 by done. apply H.
  - intros u. destruct (decide (u = t)) as [->|Hu]; [done|]. apply Hpc2; [done|apply H].
Qed.
