(* ===== verification/QspinMoves.v ===== *)
(** * The queued spin lock: what each move does to a lock

    One lemma per kind of move: the invariant of the lock is preserved with a
    new abstract state, and the abstract lock takes a step. *)
From stdpp Require Import base numbers list option functions relations.
From Stdlib Require Import ZArith Lia.
From S2P Require Import Prelude Qspinlock QspinInv.

Definition no_role (l : nat) (p : pc) : Prop :=
  owner_of p <> Some l /\ pender_of p <> Some l /\ forall i, queued_of p <> Some (l, i).

Lemma no_role_pc_ok s l g t : no_role l (at_pc s t) -> pc_ok s l g t.
Proof.
  intros (H1 & H2 & H3). unfold pc_ok. destruct (at_pc s t); simpl in *; try done; intros ->; exfalso; first [done | by eapply H1 | by eapply H2 | by eapply H3 | by eapply Hu2 | by eapply Hu1].
Qed.

Section moves.
Context (NR_CPUS : Z) (HN : NR_CPUS < 2 ^ 14).
Context (s s' : machine) (l : nat) (g : ghost) (t : context).
Context (Hnodes : node_inv NR_CPUS s) (Hinv : lock_inv s l g) (Hm : moves t s s').

(** ** What the invariant says *)

Lemma queue_valid : Forall (valid_node NR_CPUS) (node_of <$> queue g).
Proof using Hnodes Hinv.
  apply Forall_forall. intros n Hn. apply list_elem_of_fmap in Hn as ([u i] & -> & He).
  apply (inv_queued _ _ _ Hinv) in He. by apply (uses_valid _ s), (queued_uses _ l).
Qed.

Lemma tail_halfword : halfword (tail_of (queue g)).
Proof using HN Hnodes Hinv. apply (tail_of_range _ HN), queue_valid. Qed.

Lemma tail_0 : tail_of (queue g) = 0 <-> queue g = [].
Proof using HN Hnodes Hinv. apply (tail_of_range _ HN), queue_valid. Qed.

Lemma word_unheld : word s l = 0 -> owner g = None /\ pender g = None /\ queue g = [].
Proof using HN Hnodes Hinv.
  rewrite (inv_word _ _ _ Hinv), qword_eq_0 by apply tail_halfword. intros (Ho & Hp & Hq).
  apply bool_decide_eq_false, eq_None_not_Some in Ho. apply bool_decide_eq_false, eq_None_not_Some in Hp.
  by apply tail_0 in Hq.
Qed.

Lemma entry_uses e : e ∈ queue g -> uses (at_pc s e.1) = Some e.2.
Proof using Hinv.
  destruct e as [u i]. intros He. apply (inv_queued _ _ _ Hinv) in He. by apply (queued_uses _ l).
Qed.

Lemma queue_other e : (forall i, (t, i) ∉ queue g) -> e ∈ queue g -> at_pc s' e.1 = at_pc s e.1.
Proof using Hm. intros Hq He. apply Hm. destruct e as [u i]. simpl. intros ->. by eapply Hq. Qed.

Lemma joined_move g' e :
  queue g' = queue g -> (joiner_of (at_pc s t) = Some l -> joiner_of (at_pc s' t) = Some l) ->
  joined s l g e -> joined s' l g' e.
Proof using Hm.
  intros Hq Hj Hjn Eq. rewrite Hq in Eq. destruct (Hjn Eq) as [v Hv]. exists v.
  destruct (decide (v = t)) as [->|Hvt]; [by apply Hj|]. by rewrite (moves_pc _ _ _ Hm).
Qed.

(** ** A context that has nothing to do with the lock *)

Lemma move_idle :
  word s' l = word s l -> (l ∈ held s' t <-> l ∈ held s t) ->
  no_role l (at_pc s t) -> no_role l (at_pc s' t) ->
  (joiner_of (at_pc s t) = Some l -> joiner_of (at_pc s' t) = Some l) ->
  (forall e, e ∈ queue g -> node s' (node_of e) = node s (node_of e)) ->
  lock_inv s' l g /\ lock_of_ghost s' g = lock_of_ghost s g.
Proof using Hinv Hm.
  intros Hw Hh (Hr1 & Hr2 & Hr3) Hr' Hj Hn. pose proof Hr' as (Hr1' & Hr2' & Hr3').
  assert (Hq : forall i, (t, i) ∉ queue g).
  { intros i Hi. by apply (Hr3 i), (inv_queued _ _ _ Hinv). }
  assert (Hp : pender g <> Some t) by (by rewrite <- (inv_pender _ _ _ Hinv)).
  assert (Hpend : forall u, pender g = Some u -> at_pc s' u = at_pc s u).
  { intros u Hu. apply Hm. intros ->. done. }
  split.
  - apply (lock_inv_move s s' l g g t); try done.
    + rewrite Hw. apply Hinv.
    + rewrite <- (inv_owner _ _ _ Hinv t). unfold owns. rewrite Hh. tauto.
    + tauto.
    + intros i. specialize (Hr3' i). specialize (Hq i). tauto.
    + apply Hinv.
    + apply (queue_ok_ext s); [done| |apply Hinv]. intros e. by apply queue_other.
    + by apply no_role_pc_ok.
    + intros u Hu. apply pc_ok_mono; [by apply Hm|done| | |by intros; apply Hinv].
      * intros Hc _ v Hv. rewrite Hpend by done. by apply Hc.
      * intros i Hi. split; [|by right; unfold next_of; rewrite Hn].
        by apply joined_move.
  - unfold lock_of_ghost, pending_waits. f_equal. f_equal.
    + destruct (pender g) as [u|]; [|done]. by rewrite Hpend.
    + apply queue_waits_ext. intros e He. f_equal. by apply queue_other.
Qed.

(** ** Taking a free lock *)

Lemma move_take :
  word s l = 0 -> word s' l = _Q_LOCKED_VAL -> no_role l (at_pc s t) ->
  owns s' l t -> ~ (l ∈ held s' t /\ owner_of (at_pc s' t) = Some l) ->
  pender_of (at_pc s' t) = None -> queued_of (at_pc s' t) = None ->
  lock_inv s' l (mk_ghost (Some t) None []) /\
  fifo_step t (lock_of_ghost s g) (lock_of_ghost s' (mk_ghost (Some t) None [])).
Proof using HN Hnodes Hinv Hm.
  intros H0 Hw (Hr1 & Hr2 & Hr3) Ho Hon Hp Hq. apply word_unheld in H0 as (Eo & Ep & Eq).
  split.
  - apply (lock_inv_move s s' l g _ t); simpl; try done.
    + intros u Hu. rewrite Eo. split; intros; by simplify_eq.
    + by rewrite Hp.
    + intros u Hu. by rewrite Ep.
    + intros i. rewrite Hq. split; [done|]. by intros ?%not_elem_of_nil.
    + intros u i Hu. by rewrite Eq.
    + constructor.
    + unfold pc_ok. destruct (at_pc s' t); simpl in *; try done.
    + intros u Hu Hpc.
      assert (Hu1 : pender_of (at_pc s u) <> Some l).
      { intros E. apply (inv_pender _ _ _ Hinv) in E. by rewrite Ep in E. }
      assert (Hu2 : forall i, queued_of (at_pc s u) <> Some (l, i)).
      { intros i E. apply (inv_queued _ _ _ Hinv) in E. rewrite Eq in E. by apply not_elem_of_nil in E. }
      unfold pc_ok. rewrite (moves_pc _ _ _ Hm) by done.
      destruct (at_pc s u); simpl in *; try done; intros ->; exfalso; first [done | by eapply H1 | by eapply H2 | by eapply H3 | by eapply Hu2 | by eapply Hu1].
  - unfold lock_of_ghost, pending_waits. rewrite Eo, Ep, Eq. simpl. apply fifo_take.
Qed.

(** ** Releasing *)

Lemma move_release :
  word s' l = store_locked (word s l) 0 -> l ∈ held s t -> l ∉ held s' t -> at_pc s' t = at_pc s t ->
  at_pc s t = Running -> node s' = node s ->
  lock_inv s' l (mk_ghost None (pender g) (queue g)) /\
  fifo_step t (lock_of_ghost s g) (lock_of_ghost s' (mk_ghost None (pender g) (queue g))).
Proof using HN Hnodes Hinv Hm.
  intros Hw Hh Hh' Hpc Hrun Hn.
  assert (Ho : owner g = Some t) by (apply (inv_owner _ _ _ Hinv); by left).
  assert (Hpcs : forall u, at_pc s' u = at_pc s u).
  { intros u. destruct (decide (u = t)) as [->|]; [done|by apply Hm]. }
  split.
  - apply (lock_inv_move s s' l g _ t); simpl; try done.
    + rewrite Hw, (inv_word _ _ _ Hinv), qword_unlock by apply tail_halfword. done.
    + unfold owns. rewrite Hpc, Hrun. simpl. split; [|done]. intros [?|?]; done.
    + intros u Hu. rewrite Ho. split; intros; by simplify_eq.
    + tauto.
    + rewrite Hpc. apply Hinv.
    + intros i. rewrite Hpc. apply Hinv.
    + apply Hinv.
    + apply (queue_ok_ext s); [by intros; rewrite Hn|by intros; apply Hpcs|apply Hinv].
    + unfold pc_ok. by rewrite Hpc, Hrun.
    + intros u Hu. apply pc_ok_mono; [by apply Hm| | | |by intros; apply Hinv].
      * done.
      * intros Hc _ v Hv. rewrite Hpcs. by apply Hc.
      * intros i Hi. split; [|by right; unfold next_of; rewrite Hn].
        intros Hj Eq. destruct (Hj Eq) as [v Hv]. exists v. by rewrite Hpcs.
  - unfold lock_of_ghost, pending_waits. simpl.
    rewrite (queue_waits_ext s s') by (intros; by rewrite Hpcs). rewrite Ho.
    replace (match pender g with Some u => match at_pc s' u with Clear_pending _ => [] | _ => [u] end | None => [] end)
      with (match pender g with Some u => match at_pc s u with Clear_pending _ => [] | _ => [u] end | None => [] end)
      by (destruct (pender g); by rewrite ?Hpcs).
    apply fifo_release.
Qed.

(** ** The pending bit *)

Lemma move_set_pending :
  pender g = None -> word s' l = qword (bool_decide (is_Some (owner g))) true (tail_of (queue g)) ->
  held s' t = held s t -> node s' = node s -> no_role l (at_pc s t) -> joiner_of (at_pc s t) <> Some l ->
  pender_of (at_pc s' t) = Some l -> (queue g <> [] <-> at_pc s' t = Clear_pending l) ->
  (at_pc s' t = Take_pending l -> owner g = None) ->
  let g' := mk_ghost (owner g) (Some t) (queue g) in
  lock_inv s' l g' /\ fifo_step t (lock_of_ghost s g) (lock_of_ghost s' g').
Proof using Hinv Hm.
  intros Ep Hw Hh Hn (Hr1 & Hr2 & Hr3) Hj Hp Hc Ht g'.
  assert (Hq : forall i, (t, i) ∉ queue g).
  { intros i Hi. by apply (Hr3 i), (inv_queued _ _ _ Hinv). }
  assert (Hro : owner_of (at_pc s' t) = None /\ forall i, queued_of (at_pc s' t) <> Some (l, i))
    by (destruct (at_pc s' t); done).
  destruct Hro as [Hro Hrq]. split.
  - apply (lock_inv_move s s' l g g' t); simpl; try done.
    + rewrite <- (inv_owner _ _ _ Hinv t). unfold owns. rewrite Hh, Hro. intuition congruence.
    + rewrite Hro. by intros [_ ?].
    + intros u Hu. rewrite Ep. split; intros; by simplify_eq.
    + intros i. specialize (Hrq i). specialize (Hq i). tauto.
    + apply Hinv.
    + apply (queue_ok_ext s); [by intros; rewrite Hn| |apply Hinv]. intros e. by apply queue_other.
    + unfold pc_ok. destruct (at_pc s' t) eqn:E; simpl in *; try done. intros ->. by apply Ht.
    + intros u Hu. apply pc_ok_mono; [by apply Hm|done| | |by intros; apply Hinv].
      * intros _ Hpw v [= <-]. apply Hc. intros E. apply past_wait_queued in Hpw as [i Hi].
        apply (inv_queued _ _ _ Hinv) in Hi. rewrite E in Hi. by apply not_elem_of_nil in Hi.
      * intros i Hi. split; [|by right; unfold next_of; rewrite Hn].
        by apply joined_move.
  - unfold lock_of_ghost, pending_waits. simpl. rewrite Ep.
    rewrite (queue_waits_ext s s') by (intros e He; f_equal; by apply queue_other).
    destruct (decide (queue g = [])) as [E|E].
    + rewrite E. simpl. assert (Hw' : match at_pc s' t with Clear_pending _ => [] | _ => [t] end = [t]).
      { destruct (at_pc s' t) eqn:E'; try done. simplify_eq/=. tauto. }
      rewrite Hw'. apply (fifo_join t (owner g) []). apply not_elem_of_nil.
    + apply Hc in E. rewrite E. apply fifo_skip.
Qed.

Lemma move_clear_pending :
  at_pc s t = Clear_pending l -> at_pc s' t = Node_count l ->
  word s' l = clear_pending (word s l) -> held s' t = held s t -> node s' = node s ->
  let g' := mk_ghost (owner g) None (queue g) in
  lock_inv s' l g' /\ lock_of_ghost s' g' = lock_of_ghost s g.
Proof using HN Hnodes Hinv Hm.
  intros E E' Hw Hh Hn g'.
  assert (Ep : pender g = Some t) by (apply (inv_pender _ _ _ Hinv); by rewrite E).
  assert (Hq : forall i, (t, i) ∉ queue g).
  { intros i Hi. apply (inv_queued _ _ _ Hinv) in Hi. by rewrite E in Hi. }
  split.
  - apply (lock_inv_move s s' l g g' t); simpl; try done.
    + rewrite Hw, (inv_word _ _ _ Hinv), qword_clear_pending by apply tail_halfword. done.
    + rewrite <- (inv_owner _ _ _ Hinv t). unfold owns. by rewrite Hh, E, E'.
    + rewrite E'. by intros [_ ?].
    + by rewrite E'.
    + intros u Hu. rewrite Ep. split; intros; by simplify_eq.
    + intros i. rewrite E'. split; [done|]. by intros ?%Hq.
    + apply Hinv.
    + apply (queue_ok_ext s); [by intros; rewrite Hn| |apply Hinv]. intros e. by apply queue_other.
    + unfold pc_ok. by rewrite E'.
    + intros u Hu. apply pc_ok_mono; [by apply Hm|done|done| |by intros; apply Hinv].
      intros i Hi. split; [|by right; unfold next_of; rewrite Hn].
      apply joined_move; [done|]. by rewrite E, E'.
  - unfold lock_of_ghost, pending_waits. simpl. rewrite Ep, E.
    by rewrite (queue_waits_ext s s') by (intros e He; f_equal; by apply queue_other).
Qed.

(** A step that changes only the program point, and keeps the roles. *)
Lemma move_pc :
  word s' l = word s l -> held s' t = held s t -> node s' = node s ->
  owner_of (at_pc s' t) = owner_of (at_pc s t) -> pender_of (at_pc s' t) = pender_of (at_pc s t) ->
  queued_of (at_pc s' t) = queued_of (at_pc s t) -> joiner_of (at_pc s t) = None -> joiner_of (at_pc s' t) = None ->
  (match queue g with h :: _ => h.1 = t -> heading (at_pc s' t) (locked_of s h) | [] => True end) ->
  (forall i, (t, i) ∈ queue g -> exists q, queue g = (t, i) :: q) ->
  pc_ok s' l g t ->
  lock_inv s' l g /\ lock_of_ghost s' g = lock_of_ghost s g.
Proof using Hinv Hm.
  intros Hw Hh Hn Eo Ep Eq Hj Hj' Hhead Hfirst Hok.
  assert (Hcalm : calm s l g -> calm s' l g).
  { intros Hc v Hv. pose proof (Hc v Hv) as Ev. destruct (decide (v = t)) as [->|]; [|by rewrite (moves_pc _ _ _ Hm)].
    by rewrite Ev in Hj. }
  split.
  - apply (lock_inv_move s s' l g g t); try done.
    + rewrite Hw. apply Hinv.
    + unfold owns. rewrite Hh, Eo. apply Hinv.
    + rewrite Hh, Eo. apply Hinv.
    + rewrite Ep. apply Hinv.
    + intros i. rewrite Eq. apply Hinv.
    + apply Hinv.
    + pose proof (inv_queue _ _ _ Hinv) as Hqo.
      assert (Hother : forall h q e, queue g = h :: q -> e ∈ q -> at_pc s' e.1 = at_pc s e.1).
      { intros h q [u i] Eg He. apply Hm. simpl. intros ->. destruct (Hfirst i) as [q' Eg'].
        { rewrite Eg. by constructor. }
        rewrite Eg in Eg'. simplify_eq. pose proof (inv_nodup _ _ _ Hinv) as Hnd. rewrite Eg in Hnd.
        by apply NoDup_cons in Hnd as [? _]. }
      destruct (queue g) as [|h q]; [done|]. simpl in *. destruct Hqo as [Hh0 Hl]. split.
      * unfold locked_of in *. rewrite Hn. destruct (decide (h.1 = t)) as [Et|Et].
        -- rewrite Et in *. by apply Hhead.
        -- by rewrite (moves_pc _ _ _ Hm).
      * apply (links_ext s); [unfold next_of; by rewrite Hn| |done].
        intros e He. split; [by rewrite Hn|by apply (Hother h q)].
    + intros u Hu. apply pc_ok_mono; [by apply Hm|done|by intros; apply Hcalm| |by intros; apply Hinv].
      intros i Hi. split; [|by right; unfold next_of; rewrite Hn]. apply joined_move; [done|]. by rewrite Hj.
  - unfold lock_of_ghost, pending_waits. f_equal. f_equal.
    + destruct (pender g) as [u|] eqn:Eu; [|done].
      destruct (decide (u = t)) as [->|]; [|by rewrite (moves_pc _ _ _ Hm)].
      apply (inv_pender _ _ _ Hinv) in Eu. rewrite Eu in Ep.
      destruct (at_pc s t); try done; by destruct (at_pc s' t).
    + apply queue_waits_ext. intros e He. destruct (decide (e.1 = t)) as [->|]; [done|].
      by rewrite (moves_pc _ _ _ Hm).
Qed.
End moves.

(** ** The queued spin lock: moves of the queue and of ownership *)

Section moves.
Context (NR_CPUS : Z) (HN : NR_CPUS < 2 ^ 14).
Context (s s' : machine) (l : nat) (g : ghost) (t : context).
Context (Hnodes : node_inv NR_CPUS s) (Hinv : lock_inv s l g) (Hm : moves t s s').

(** ** What the invariant says of the queue *)

Lemma queue_contexts : NoDup (fst <$> queue g).
Proof using Hinv.
  apply NoDup_fmap_2_strong; [|apply Hinv]. intros [u i] [v j] Hu Hv. simpl. intros ->.
  apply (inv_queued _ _ _ Hinv) in Hu, Hv. congruence.
Qed.

Lemma queue_node_of_inj e f : e ∈ queue g -> f ∈ queue g -> node_of e = node_of f -> e = f.
Proof using Hnodes Hinv.
  intros He Hf. apply (node_of_inj NR_CPUS s); [done| |]; by apply (entry_uses s l g).
Qed.

Lemma queue_nodes : NoDup (node_of <$> queue g).
Proof using Hnodes Hinv.
  apply NoDup_fmap_2_strong; [|apply Hinv]. intros e f. apply queue_node_of_inj.
Qed.

(** Past the wait for its node, [t] is the first. *)
Lemma first_in_queue i :
  (t, i) ∈ queue g -> heading (at_pc s t) (locked_of s (t, i)) -> exists q, queue g = (t, i) :: q.
Proof using Hinv.
  intros Hi Hh. apply (head_first s); [apply Hinv|done|]. simpl. by destruct (at_pc s t).
Qed.

(** If another context is past its wait, [t] is not. *)
Lemma past_wait_same u i :
  (t, i) ∈ queue g -> heading (at_pc s t) (locked_of s (t, i)) -> past_wait l (at_pc s u) -> u = t.
Proof using Hinv.
  clear Hm s'. intros Hi Hh Hp. destruct (first_in_queue i Hi Hh) as [q Eq].
  destruct (past_wait_queued _ _ Hp) as [j Hj]. apply (inv_queued _ _ _ Hinv) in Hj.
  destruct (head_first s (queue g) (u, j)) as [q' Eq']; [apply Hinv|done| |].
  - simpl. by destruct (at_pc s u).
  - rewrite Eq in Eq'. by simplify_eq.
Qed.

Lemma calm_of u : past_wait l (at_pc s u) -> calm s l g.
Proof using Hinv.
  intros Hp. pose proof (inv_pc _ _ _ Hinv u) as Hu. unfold pc_ok in Hu.
  destruct (at_pc s u); simpl in Hp; try done; apply Hu in Hp; tauto.
Qed.

(** ** The context with the pending bit takes the lock *)

Lemma move_take_pending :
  at_pc s t = Take_pending l -> at_pc s' t = Running -> word s' l = clear_pending_set_locked (word s l) ->
  held s' t = l :: held s t -> node s' = node s ->
  let g' := mk_ghost (Some t) None (queue g) in
  lock_inv s' l g' /\ fifo_step t (lock_of_ghost s g) (lock_of_ghost s' g').
Proof using HN Hnodes Hinv Hm.
  intros E E' Hw Hh Hn g'.
  assert (Ep : pender g = Some t) by (apply (inv_pender _ _ _ Hinv); by rewrite E).
  assert (Eo : owner g = None).
  { pose proof (inv_pc _ _ _ Hinv t) as H. unfold pc_ok in H. rewrite E in H. by apply H. }
  assert (Hq : forall i, (t, i) ∉ queue g).
  { intros i Hi. apply (inv_queued _ _ _ Hinv) in Hi. by rewrite E in Hi. }
  assert (Hnone : forall u, ~ past_wait l (at_pc s u)).
  { intros u Hu. pose proof (calm_of u Hu t Ep) as Hc. by rewrite E in Hc. }
  split.
  - apply (lock_inv_move s s' l g g' t); simpl; try done.
    + rewrite Hw, (inv_word _ _ _ Hinv), qword_take_pending by (by eapply tail_halfword). done.
    + split; [done|]. intros _. left. rewrite Hh. by constructor.
    + intros u Hu. rewrite Eo. split; intros; by simplify_eq.
    + rewrite E'. by intros [_ ?].
    + by rewrite E'.
    + intros u Hu. rewrite Ep. split; intros; by simplify_eq.
    + intros i. rewrite E'. split; [done|]. by intros ?%Hq.
    + apply Hinv.
    + apply (queue_ok_ext s); [by intros; rewrite Hn| |apply Hinv]. intros e. by apply (queue_other s s' g t).
    + unfold pc_ok. by rewrite E'.
    + intros u Hu Hok.
      assert (Hnt : ~ taking l (at_pc s u)).
      { intros Ht. destruct (at_pc s u) eqn:Eu; simpl in Ht; try done; subst; [|by eapply (Hnone u); rewrite Eu..].
        assert (pender g = Some u) by (apply (inv_pender _ _ _ Hinv); by rewrite Eu). congruence. }
      revert Hok. apply pc_ok_mono; [by apply Hm|done|by intros _ ?%Hnone| |by intros; apply Hinv].
      intros i Hi. split; [|by right; unfold next_of; rewrite Hn].
      apply (joined_move s s' l g t); [done..|]. by rewrite E.
  - unfold lock_of_ghost, pending_waits. simpl. rewrite Ep, E, Eo.
    rewrite (queue_waits_ext s s') by (intros e He; f_equal; by apply (queue_other s s' g t)).
    apply (fifo_grant t).
Qed.

(** ** The owner leaves the lock function *)

Lemma move_return i :
  at_pc s t = Node_dec l i -> at_pc s' t = Running -> word s' l = word s l ->
  held s' t = l :: held s t -> node s' = node s ->
  lock_inv s' l g /\ lock_of_ghost s' g = lock_of_ghost s g.
Proof using Hinv Hm.
  intros E E' Hw Hh Hn.
  assert (Eo : owner g = Some t) by (apply (inv_owner _ _ _ Hinv); right; by rewrite E).
  assert (Ep : pender g <> Some t) by (rewrite <- (inv_pender _ _ _ Hinv); by rewrite E).
  assert (Hq : forall i, (t, i) ∉ queue g).
  { intros j Hi. apply (inv_queued _ _ _ Hinv) in Hi. by rewrite E in Hi. }
  assert (Hpend : forall u, pender g = Some u -> at_pc s' u = at_pc s u).
  { intros u Hu. apply Hm. intros ->. done. }
  split.
  - apply (lock_inv_move s s' l g g t); try done.
    + rewrite Hw. apply Hinv.
    + rewrite Eo. split; [done|]. intros _. left. rewrite Hh. by constructor.
    + rewrite E'. by intros [_ ?].
    + rewrite E'. split; [done|]. by intros ?%Ep.
    + intros j. rewrite E'. split; [done|]. by intros ?%Hq.
    + apply Hinv.
    + apply (queue_ok_ext s); [by intros; rewrite Hn| |apply Hinv]. intros e. by apply (queue_other s s' g t).
    + unfold pc_ok. by rewrite E'.
    + intros u Hu. apply pc_ok_mono; [by apply Hm|done| | |by intros; apply Hinv].
      * intros Hc _ v Hv. rewrite Hpend by done. by apply Hc.
      * intros j Hi. split; [|by right; unfold next_of; rewrite Hn].
        apply (joined_move s s' l g t); [done..|]. by rewrite E.
  - unfold lock_of_ghost, pending_waits. f_equal. f_equal.
    + destruct (pender g) as [u|]; [|done]. by rewrite Hpend.
    + apply queue_waits_ext. intros e He. f_equal. by apply (queue_other s s' g t).
Qed.

(** ** Joining the queue *)

Lemma links_snoc m a q b : links m a q -> waiter m (default a (last q)) b ->
  next_of m b = None -> (forall c, c ∈ a :: q -> c <> b) -> links m a (q ++ [b]).
Proof.
  revert a. induction q as [|c q IH]; intros a Hl Hw Hb Hne; [done|].
  destruct Hl as [Hc Hl]. split; [done|]. apply IH; [done| |done|].
  - by rewrite last_cons in Hw; destruct (last q).
  - intros d Hd. apply Hne. by right.
Qed.

Lemma links_last m a q : links m a q -> next_of m (default a (last q)) = None.
Proof.
  revert a. induction q as [|c q IH]; intros a Hl; [done|]. destruct Hl as [_ Hl].
  rewrite last_cons. apply IH in Hl. by destruct (last q).
Qed.

Lemma move_join i :
  at_pc s t = Xchg_tail l i ->
  at_pc s' t = (if decide (queue g = []) then Wait_head l i None else Link_prev l i (tail_of (queue g) * 2 ^ 16)) ->
  word s' l = qword (bool_decide (is_Some (owner g))) (bool_decide (is_Some (pender g))) (node_code (t.1, i)) ->
  held s' t = held s t -> node s' = node s ->
  let g' := mk_ghost (owner g) (pender g) (queue g ++ [(t, i)]) in
  lock_inv s' l g' /\ fifo_step t (lock_of_ghost s g) (lock_of_ghost s' g').
Proof using Hnodes Hinv Hm.
  intros E E' Hw Hh Hn g'.
  assert (Hfresh : node s (t.1, i) = mk_mcs 0 None).
  { pose proof (inv_fresh _ _ Hnodes t) as H. unfold fresh_ok in H. by rewrite E in H. }
  assert (Ep : pender g <> Some t) by (rewrite <- (inv_pender _ _ _ Hinv); by rewrite E).
  assert (Hq : forall j, (t, j) ∉ queue g).
  { intros j Hi. apply (inv_queued _ _ _ Hinv) in Hi. by rewrite E in Hi. }
  assert (Hrole : owner_of (at_pc s' t) = None /\ pender_of (at_pc s' t) = None /\
            queued_of (at_pc s' t) = Some (l, i)) by (rewrite E'; by destruct (decide _)).
  destruct Hrole as (Ro & Rp & Rq).
  assert (Hpend : forall u, pender g = Some u -> at_pc s' u = at_pc s u).
  { intros u Hu. apply Hm. intros ->. done. }
  assert (Hqo : queue_ok s' (queue g ++ [(t, i)])).
  { pose proof (inv_queue _ _ _ Hinv) as Hqo.
    assert (Hold : queue_ok s' (queue g)).
    { apply (queue_ok_ext s); [by intros; rewrite Hn| |done]. intros e. by apply (queue_other s s' g t). }
    destruct (queue g) as [|h q] eqn:Eg; simpl.
    - rewrite E'. simpl. split; [done|]. unfold next_of, node_of. simpl. by rewrite Hn, Hfresh.
    - destruct Hold as [H1 H2]. split; [done|]. apply links_snoc; [done| | |].
      + split; [unfold locked_of, node_of; simpl; by rewrite Hn, Hfresh|]. left. exists l, i. simpl.
        rewrite E', decide_False by done. split; [|by apply links_last].
        unfold tail_of. rewrite last_cons. by destruct (last q).
      + unfold next_of, node_of. simpl. by rewrite Hn, Hfresh.
      + intros c Hc ->. by apply (Hq i). }
  split.
  - apply (lock_inv_move s s' l g g' t); simpl; try done.
    + rewrite Hw. unfold tail_of. by rewrite last_snoc.
    + unfold owns. rewrite Hh, Ro. rewrite <- (inv_owner _ _ _ Hinv t). unfold owns. by rewrite E.
    + rewrite Ro. by intros [_ ?].
    + rewrite Rp. split; [done|]. by intros ?%Ep.
    + intros j. rewrite Rq, elem_of_app, list_elem_of_singleton. split.
      * intros. simplify_eq. by right.
      * intros [?%Hq|?]; [done|]. by simplify_eq.
    + intros u j Hu. rewrite elem_of_app, list_elem_of_singleton. split; [|by left].
      intros [?|?]; [done|by simplify_eq].
    + apply NoDup_app. split_and!; [apply Hinv| |apply NoDup_singleton].
      intros e He ->%list_elem_of_singleton. by apply (Hq i).
    + unfold pc_ok. rewrite E'. destruct (decide _); [|done]. intros _. by left.
    + intros u Hu. apply pc_ok_mono; [by apply Hm|done| | |by intros; apply Hinv].
      * intros Hc _ v Hv. rewrite Hpend by done. by apply Hc.
      * intros j Hj. split; [|by right; unfold next_of; rewrite Hn].
        intros _. unfold joined. simpl. intros Eq. exfalso.
        apply (f_equal length) in Eq. rewrite length_app in Eq. simpl in Eq.
        destruct (queue g); [by apply not_elem_of_nil in Hj|simpl in Eq; lia].
  - unfold lock_of_ghost, pending_waits, queue_waits. simpl. rewrite filter_app, fmap_app, filter_cons_True by done.
    fold (queue_waits s' (queue g)).
    rewrite (queue_waits_ext s s') by (intros e He; f_equal; by apply (queue_other s s' g t)).
    replace (match pender g with Some u => match at_pc s' u with Clear_pending _ => [] | _ => [u] end | None => [] end)
      with (pending_waits s g) by (unfold pending_waits; destruct (pender g); by rewrite ?Hpend).
    simpl. rewrite app_assoc. apply fifo_join. intros [Hp|Hp]%elem_of_app.
    + unfold pending_waits in Hp. destruct (pender g) as [u|]; [|by apply not_elem_of_nil in Hp].
      destruct (at_pc s u); try by apply not_elem_of_nil in Hp.
      all: by apply list_elem_of_singleton in Hp; subst.
    + unfold queue_waits in Hp. apply list_elem_of_fmap in Hp as ([u j] & -> & Hp%list_elem_of_filter).
      destruct Hp as [_ Hp]. exact (Hq j Hp).
Qed.

(** ** Linking behind the previous node *)

Lemma move_link i old :
  at_pc s t = Link_prev l i old ->
  exists a, decode_tail old = node_of a /\ valid_node NR_CPUS (node_of a) /\ a ∈ queue g /\ a.1 <> t /\
    (at_pc s' t = Wait_node l i -> word s' l = word s l -> held s' t = held s t ->
     node s' = <[node_of a := mk_mcs (locked_of s a) (Some (t.1, i))]> (node s) ->
     lock_inv s' l g /\ lock_of_ghost s' g = lock_of_ghost s g).
Proof using HN Hnodes Hinv Hm.
  intros E. assert (Hi : (t, i) ∈ queue g) by (apply (inv_queued _ _ _ Hinv); by rewrite E).
  pose proof (inv_queue _ _ _ Hinv) as Hqo. pose proof queue_contexts as Hctx. pose proof queue_nodes as Hnn.
  destruct (queue g) as [|h q] eqn:Eg; [by apply not_elem_of_nil in Hi|]. destruct Hqo as [Hh Hl].
  assert (Hiq : (t, i) ∈ q).
  { apply elem_of_cons in Hi as [<-|?]; [|done]. simpl in Hh. by rewrite E in Hh. }
  rewrite fmap_cons in Hctx. apply NoDup_cons in Hctx as [Hht Hctx].
  destruct (links_link s l t i i old h q Hl Hiq E Hctx Hnn) as (a & Ha & -> & Hna & Hat & Hlinks).
  assert (Hav : valid_node NR_CPUS (node_of a)).
  { apply (uses_valid _ s); [done|]. apply (entry_uses s l g); [done|]. by rewrite Eg. }
  assert (Ha1 : a.1 <> t).
  { intros Et. apply Hat. destruct a as [u j]. simpl in Et. subst u. f_equal.
    rewrite <- Eg in Ha. apply (inv_queued _ _ _ Hinv) in Ha. rewrite E in Ha. by simplify_eq/=. }
  exists a. split_and!; [by apply (decode_tail_code NR_CPUS)|done|done|done|].
  intros E' Hw Hhd Hn. rewrite <- Eg in Ha.
  assert (Hother : forall n, n <> node_of a -> node s' n = node s n).
  { intros n Hne. rewrite Hn. by apply fn_lookup_insert_ne. }
  assert (Hla : locked_of s' a = locked_of s a).
  { unfold locked_of at 1. by rewrite Hn, fn_lookup_insert. }
  assert (Hxa : next_of s' a = Some (t.1, i)).
  { unfold next_of at 1. by rewrite Hn, fn_lookup_insert. }
  assert (Hpend : forall u, pender g = Some u -> at_pc s' u = at_pc s u).
  { intros u Hu. apply Hm. intros ->. apply (inv_pender _ _ _ Hinv) in Hu. by rewrite E in Hu. }
  split.
  - apply (lock_inv_move s s' l g g t); try done.
    + rewrite Hw. apply Hinv.
    + rewrite <- (inv_owner _ _ _ Hinv t). unfold owns. by rewrite Hhd, E, E'.
    + rewrite E'. by intros [_ ?].
    + rewrite <- (inv_pender _ _ _ Hinv t). by rewrite E, E'.
    + intros j. rewrite <- (inv_queued _ _ _ Hinv t j). by rewrite E, E'.
    + apply Hinv.
    + rewrite Eg. assert (Hh1 : h.1 <> t).
      { intros Et. apply Hht. rewrite Et. exact (list_elem_of_fmap_2 fst q (t, i) Hiq). }
      split; [|by apply Hlinks; [|apply Hm| | |]].
      rewrite (moves_pc _ _ _ Hm) by done. replace (locked_of s' h) with (locked_of s h); [done|].
      unfold locked_of in *. destruct (decide (node_of h = node_of a)) as [Ee|Ee]; [by rewrite Ee|by rewrite Hother].
    + unfold pc_ok. by rewrite E'.
    + intros u Hu. apply pc_ok_mono; [by apply Hm|done| | |by intros; apply Hinv].
      * intros Hc _ v Hv. rewrite Hpend by done. by apply Hc.
      * intros j Hj. split; [apply (joined_move s s' l g t); [done..|]; by rewrite E|].
        destruct (decide (node_of (u, j) = node_of a)) as [Ee|Ee].
        -- left. unfold next_of in *. by rewrite Ee.
        -- right. unfold next_of. by rewrite Hother.
  - unfold lock_of_ghost, pending_waits. f_equal. f_equal.
    + destruct (pender g) as [u|]; [|done]. by rewrite Hpend.
    + apply queue_waits_ext. intros e He. destruct (decide (e.1 = t)) as [->|]; [by rewrite E, E'|].
      by rewrite (moves_pc _ _ _ Hm).
Qed.

(** ** The first of the queue takes the lock *)

Lemma first_others_idle i u :
  (t, i) ∈ queue g -> heading (at_pc s t) (locked_of s (t, i)) -> calm s l g -> u <> t ->
  ~ taking l (at_pc s u) /\ ~ past_wait l (at_pc s u).
Proof using Hinv.
  clear Hm s'. intros Hi Hh Hc Hu.
  assert (Hp : ~ past_wait l (at_pc s u)) by (intros ?; by eapply Hu, past_wait_same).
  split; [|done]. intros Ht. destruct (at_pc s u) eqn:Eu; simpl in Ht; try done; subst; [|by apply Hp..].
  assert (Ep : pender g = Some u) by (apply (inv_pender _ _ _ Hinv); by rewrite Eu).
  apply Hc in Ep. by rewrite Eu in Ep.
Qed.

Lemma calm_pending_waits : calm s l g -> pending_waits s g = [].
Proof.
  clear. intros Hc. unfold pending_waits. destruct (pender g) as [u|] eqn:Eu; [|done]. by rewrite (Hc u Eu).
Qed.

Lemma claim_alone i next :
  at_pc s t = Claim l i next (word s l) -> queue g = [(t, i)] /\ owner g = None /\ pender g = None.
Proof using HN Hnodes Hinv.
  clear Hm s'. intros E.
  assert (Hi : (t, i) ∈ queue g) by (apply (inv_queued _ _ _ Hinv); by rewrite E).
  pose proof (inv_pc _ _ _ Hinv t) as H. unfold pc_ok in H. rewrite E in H.
  destruct (H eq_refl) as (_ & Hw & _ & _). rewrite (inv_word _ _ _ Hinv) in Hw.
  pose proof (tail_halfword NR_CPUS HN s l g Hnodes Hinv) as Ht.
  pose proof (uses_valid _ _ _ _ Hnodes (entry_uses s l g Hinv _ Hi)) as Hv.
  pose proof (node_code_range _ HN _ Hv) as [Hc _]. simpl in Hc.
  assert (Hfields : bool_decide (is_Some (owner g)) = false /\ bool_decide (is_Some (pender g)) = false /\
            tail_of (queue g) = node_code (t.1, i)).
  { unfold qword, halfword in *.
    destruct (bool_decide (is_Some (owner g))), (bool_decide (is_Some (pender g))); simpl in Hw; lia. }
  destruct Hfields as (Ho & Hp & Htl). apply bool_decide_eq_false, eq_None_not_Some in Ho, Hp.
  split_and!; [|done|done].
  destruct (first_in_queue i Hi) as [q Eq]; [by rewrite E|].
  unfold tail_of in Htl. destruct (last (queue g)) as [f|] eqn:El; [|by rewrite Eq, last_cons in El; destruct (last q)].
  assert (Hf : f ∈ queue g) by (apply last_Some in El as [q' ->]; apply elem_of_app; right; constructor).
  assert (f = (t, i)) as ->.
  { apply queue_node_of_inj; [done..|]. apply (node_code_inj NR_CPUS); [done| |done|done].
    apply (uses_valid _ s); [done|]. by apply (entry_uses s l g). }
  rewrite Eq in *. destruct q as [|b q]; [done|]. exfalso.
  rewrite last_cons_cons in El. apply last_Some in El as [q' E'].
  pose proof (inv_nodup _ _ _ Hinv) as Hnd. rewrite Eq, E' in Hnd.
  apply NoDup_cons in Hnd as [Hnd _]. apply Hnd. apply elem_of_app. right. constructor.
Qed.

Lemma move_claim i next :
  at_pc s t = Claim l i next (word s l) -> at_pc s' t = Node_dec l i -> word s' l = _Q_LOCKED_VAL ->
  held s' t = held s t -> node s' = node s ->
  let g' := mk_ghost (Some t) None [] in
  lock_inv s' l g' /\ fifo_step t (lock_of_ghost s g) (lock_of_ghost s' g').
Proof using HN Hnodes Hinv Hm.
  intros E E' Hw Hh Hn g'. destruct (claim_alone i next E) as (Eq & Eo & Ep).
  assert (Hi : (t, i) ∈ queue g) by (rewrite Eq; by constructor).
  assert (Hhead : heading (at_pc s t) (locked_of s (t, i))) by (by rewrite E).
  assert (Hc : calm s l g) by (intros u Hu; by rewrite Ep in Hu).
  split.
  - apply (lock_inv_move s s' l g g' t); simpl; try done.
    + unfold owns. rewrite E'. split; [done|]. by right.
    + intros u Hu. rewrite Eo. split; intros; by simplify_eq.
    + rewrite Hh, E'. intros [Hl _]. assert (owner g = Some t) by (apply (inv_owner _ _ _ Hinv); by left). congruence.
    + by rewrite E'.
    + intros u Hu. by rewrite Ep.
    + intros j. rewrite E'. split; [done|]. by intros ?%not_elem_of_nil.
    + intros u j Hu. rewrite Eq, list_elem_of_singleton. split; [by intros ?%not_elem_of_nil|]. intros; by simplify_eq.
    + constructor.
    + unfold pc_ok. by rewrite E'.
    + intros u Hu Hok. apply no_role_pc_ok. rewrite (moves_pc _ _ _ Hm) by done. split_and!.
      * intros Hou. assert (owner g = Some u) by (apply (inv_owner _ _ _ Hinv); by right). congruence.
      * rewrite (inv_pender _ _ _ Hinv). by rewrite Ep.
      * intros j Hj%(inv_queued _ _ _ Hinv). rewrite Eq in Hj. apply list_elem_of_singleton in Hj. by simplify_eq.
  - unfold lock_of_ghost. simpl. rewrite (calm_pending_waits Hc), Eq, Eo, queue_waits_cons. simpl. rewrite E.
    apply (fifo_grant t []).
Qed.

Lemma move_set_locked i next :
  at_pc s t = Set_locked l i next ->
  at_pc s' t = match next with Some n => Pass l i n | None => Wait_next l i end ->
  word s' l = set_locked (word s l) -> held s' t = held s t -> node s' = node s ->
  let g' := mk_ghost (Some t) (pender g) (queue g) in
  lock_inv s' l g' /\ fifo_step t (lock_of_ghost s g) (lock_of_ghost s' g').
Proof using HN Hnodes Hinv Hm.
  intros E E' Hw Hh Hn g'.
  assert (Hi : (t, i) ∈ queue g) by (apply (inv_queued _ _ _ Hinv); by rewrite E).
  assert (Hhead : heading (at_pc s t) (locked_of s (t, i))) by (by rewrite E).
  pose proof (inv_pc _ _ _ Hinv t) as H. unfold pc_ok in H. rewrite E in H.
  destruct (H eq_refl) as (Hnx & Eo & Hc & Hj).
  assert (Ep : pender g <> Some t) by (rewrite <- (inv_pender _ _ _ Hinv); by rewrite E).
  assert (Hpend : forall u, pender g = Some u -> at_pc s' u = at_pc s u).
  { intros u Hu. apply Hm. intros ->. done. }
  assert (Hc' : calm s' l g') by (intros v Hv; simpl in Hv; rewrite Hpend by done; by apply Hc).
  assert (Hj' : forall e, joined s l g e -> joined s' l g' e).
  { intros e. apply (joined_move s s' l g t); [done..|]. by rewrite E. }
  assert (Hroles : owner_of (at_pc s' t) = Some l /\ pender_of (at_pc s' t) = None /\ queued_of (at_pc s' t) = Some (l, i) /\
            heading (at_pc s' t) (locked_of s (t, i))) by (rewrite E'; by destruct next).
  destruct Hroles as (Ro & Rp & Rq & Rh).
  destruct (first_in_queue i Hi Hhead) as [q Eq].
  assert (Hqt : forall e, e ∈ q -> at_pc s' e.1 = at_pc s e.1).
  { intros e He. apply Hm. intros Et. pose proof queue_contexts as Hnd. rewrite Eq, fmap_cons in Hnd.
    apply NoDup_cons in Hnd as [Hnd _]. apply Hnd. simpl. rewrite <- Et. by apply list_elem_of_fmap_2. }
  split.
  - apply (lock_inv_move s s' l g g' t); simpl; try done.
    + rewrite Hw, (inv_word _ _ _ Hinv), qword_set_locked by (by eapply tail_halfword). done.
    + split; [done|]. by right.
    + intros u Hu. rewrite Eo. split; intros; by simplify_eq.
    + rewrite Hh. intros [Hl _]. assert (owner g = Some t) by (apply (inv_owner _ _ _ Hinv); by left). congruence.
    + rewrite Rp. split; [done|]. by intros ?%Ep.
    + intros j. rewrite Rq, <- (inv_queued _ _ _ Hinv t j). by rewrite E.
    + apply Hinv.
    + pose proof (inv_queue _ _ _ Hinv) as Hqo. rewrite Eq in *. destruct Hqo as [_ Hl]. split.
      * unfold locked_of in *. by rewrite Hn.
      * apply (links_ext s); [unfold next_of; by rewrite Hn| |done]. intros e He. split; [by rewrite Hn|by apply Hqt].
    + unfold pc_ok. rewrite E'. destruct next as [n|]; intros _; (split; [done|]).
      * destruct Hnx as [?|Hnx]; [done|]. unfold next_of in *. rewrite Hn. done.
      * by apply Hj'.
    + intros u Hu. destruct (first_others_idle i u Hi Hhead Hc Hu) as [Hu1 Hu2].
      apply pc_ok_mono; [by apply Hm|done|done| |by intros; apply Hinv].
      intros j Hj0. split; [by apply Hj'|by right; unfold next_of; rewrite Hn].
  - unfold lock_of_ghost. rewrite (calm_pending_waits Hc). simpl.
    assert (Epw : pending_waits s' g' = []).
    { unfold pending_waits. simpl. destruct (pender g) as [u|] eqn:Eu; [|done]. by rewrite (Hc' u eq_refl). }
    rewrite Epw, Eq, Eo, !queue_waits_cons. simpl. rewrite E, Ro. simpl.
    rewrite (queue_waits_ext s s') by (intros e He; f_equal; by apply Hqt). apply (fifo_grant t).
Qed.

(** ** The owner hands the head of the queue on *)

Lemma move_pass i next :
  at_pc s t = Pass l i next ->
  exists b q, queue g = (t, i) :: b :: q /\ next = node_of b /\ valid_node NR_CPUS next /\
    (at_pc s' t = Node_dec l i -> word s' l = word s l -> held s' t = held s t ->
     node s' = <[next := mk_mcs 1 (next_of s b)]> (node s) ->
     let g' := mk_ghost (owner g) (pender g) (b :: q) in
     tail_of (b :: q) = tail_of (queue g) /\ lock_inv s' l g' /\ lock_of_ghost s' g' = lock_of_ghost s g).
Proof using Hnodes Hinv Hm.
  intros E. assert (Hi : (t, i) ∈ queue g) by (apply (inv_queued _ _ _ Hinv); by rewrite E).
  assert (Hhead : heading (at_pc s t) (locked_of s (t, i))) by (by rewrite E).
  pose proof (inv_pc _ _ _ Hinv t) as H. unfold pc_ok in H. rewrite E in H. destruct (H eq_refl) as [Hc Hnx].
  destruct (first_in_queue i Hi Hhead) as [q' Eq].
  pose proof (inv_queue _ _ _ Hinv) as Hqo. rewrite Eq in Hqo. destruct Hqo as [_ Hl].
  destruct q' as [|b q]; [simpl in Hl; congruence|]. destruct Hl as [[Hlb Hwb] Hl].
  destruct Hwb as [(l' & jb & _ & Hnx')|(l' & jb & Eb & Hnx')]; [congruence|].
  assert (next = node_of b) as -> by congruence. exists b, q.
  pose proof queue_contexts as Hctx. pose proof queue_nodes as Hnn. pose proof (inv_nodup _ _ _ Hinv) as Hnd.
  rewrite Eq in Hctx, Hnn, Hnd. rewrite !fmap_cons in Hctx. rewrite !fmap_cons in Hnn.
  assert (Hbq : b ∈ queue g) by (rewrite Eq; right; constructor).
  split_and!; [done|done|by apply (uses_valid _ s), (entry_uses s l g)|].
  intros E' Hw Hh Hn g'.
  assert (Hother : forall n, n <> node_of b -> node s' n = node s n).
  { intros n Hne. rewrite Hn. by apply fn_lookup_insert_ne. }
  assert (Hnext : forall e, next_of s' e = next_of s e).
  { intros e. unfold next_of. destruct (decide (node_of e = node_of b)) as [Ee|Ee]; [|by rewrite Hother].
    rewrite Ee, Hn, fn_lookup_insert. done. }
  assert (Ep : pender g <> Some t) by (rewrite <- (inv_pender _ _ _ Hinv); by rewrite E).
  assert (Hpend : forall u, pender g = Some u -> at_pc s' u = at_pc s u).
  { intros u Hu. apply Hm. intros ->. done. }
  assert (Hqt : forall e, e ∈ b :: q -> at_pc s' e.1 = at_pc s e.1).
  { intros e He. apply Hm. intros Et. apply NoDup_cons in Hctx as [Hctx _]. apply Hctx. simpl. rewrite <- Et.
    exact (list_elem_of_fmap_2 fst (b :: q) e He). }
  assert (Etl : tail_of (b :: q) = tail_of (queue g)) by (by rewrite Eq).
  split; [done|]. split.
  - apply (lock_inv_move s s' l g g' t); simpl; try done.
    + rewrite Hw, Etl. apply Hinv.
    + rewrite <- (inv_owner _ _ _ Hinv t). unfold owns. by rewrite Hh, E, E'.
    + rewrite Hh, E'. simpl. pose proof (inv_once _ _ _ Hinv t) as Ho. by rewrite E in Ho.
    + rewrite E'. split; [done|]. by intros ?%Ep.
    + intros j. rewrite E'. split; [done|]. intros Hj. exfalso.
      apply NoDup_cons in Hctx as [Hctx _]. apply Hctx. exact (list_elem_of_fmap_2 fst (b :: q) (t, j) Hj).
    + intros u j Hu. rewrite Eq. rewrite (elem_of_cons (b :: q)). split; [by right|]. intros [?|?]; [by simplify_eq|done].
    + by apply NoDup_cons in Hnd as [_ Hnd].
    + split.
      * rewrite Hqt by constructor. rewrite Eb. simpl. unfold locked_of. by rewrite Hn, fn_lookup_insert.
      * apply (links_ext s); [apply Hnext| |done]. intros e He. split; [|apply Hqt; by right].
        apply Hother. intros Ee. apply NoDup_cons in Hnn as [_ Hnn]. apply NoDup_cons in Hnn as [Hnn _].
        apply Hnn. rewrite <- Ee. by apply list_elem_of_fmap_2.
    + unfold pc_ok. by rewrite E'.
    + intros u Hu Hok. destruct (first_others_idle i u Hi Hhead Hc Hu) as [Hu1 Hu2]. revert Hok.
      unfold pc_ok. rewrite (moves_pc _ _ _ Hm) by done.
      destruct (at_pc s u); try done; simpl in *; intros Hok ->; try done.
      destruct (Hok eq_refl) as [->|Hok']; [by left|]. right. by rewrite Hnext.
  - unfold lock_of_ghost. simpl. rewrite Eq, (queue_waits_cons s (t, i)). simpl. rewrite E. simpl.
    rewrite (queue_waits_ext s s') by (intros e He; f_equal; by apply Hqt).
    replace (pending_waits s' g') with (pending_waits s g); [done|].
    unfold pending_waits. simpl. destruct (pender g); [|done]. by rewrite Hpend.
Qed.
End moves.
