(* ===== verification/QspinRun.v ===== *)
(** * The queued spin lock: every step preserves the invariant

    The moves of one lock, put together: the other locks and the queue nodes
    are not disturbed, no access faults, and each abstract lock takes a step. *)
From stdpp Require Import base numbers list option functions relations.
From Stdlib Require Import ZArith Lia.
From S2P Require Import Prelude Qspinlock QspinInv QspinMoves.

(** The lock a program point is about. *)
Definition lock_of (p : pc) : option nat :=
  match p with
  | Running => None
  | Try_read l | Try_cas l | Lock_cas l | Spin_pending l _ | Fetch_pending l | Clear_pending l
  | Wait_unlocked l | Take_pending l | Node_count l | Node_locked l _ | Node_next l _ | Queue_read l _
  | Queue_cas l _ | Xchg_tail l _ | Link_prev l _ _ | Wait_node l _ | Read_next l _ | Wait_head l _ _
  | Claim l _ _ _ | Set_locked l _ _ | Wait_next l _ | Pass l _ _ | Node_dec l _ => Some l
  end.

Definition about (l : nat) (p : pc) : Prop := p = Running \/ lock_of p = Some l.

Lemma about_other l l' p : about l p -> l' <> l -> no_role l' p /\ joiner_of p <> Some l'.
Proof.
  intros [->|Hp] Hl; [done|]. unfold no_role.
  destruct p; simpl in *; simplify_eq; (split; [split_and!|]); try done; try congruence.
Qed.

Section steps.
Context (NR_CPUS : Z) (HN : 0 < NR_CPUS < 2 ^ 14).

(** What holds after a step of [t]. *)
Definition after (t : context) (s : machine) (g : nat -> ghost) (s' : machine) : Prop :=
  exists g', machine_inv NR_CPUS s' g' /\
    forall l, fifo_step t (lock_of_ghost s (g l)) (lock_of_ghost s' (g' l)).

Lemma after_move s s' g t l γ :
  machine_inv NR_CPUS s g -> about l (at_pc s t) -> about l (at_pc s' t) ->
  moves t s s' -> node_inv NR_CPUS s' ->
  (forall l', l' <> l -> word s' l' = word s l') ->
  (forall l', l' <> l -> l' ∈ held s' t <-> l' ∈ held s t) -> NoDup (held s' t) ->
  (forall l' e, l' <> l -> e ∈ queue (g l') -> node s' (node_of e) = node s (node_of e)) ->
  lock_inv s' l γ /\ fifo_step t (lock_of_ghost s (g l)) (lock_of_ghost s' γ) ->
  after t s g s'.
Proof.
  intros (Hno & Hl & Hh) Ha Ha' Hm Hno' Hw Hheld Hnd Hn [Hγ Hf].
  assert (Ho : forall l', l' <> l -> lock_inv s' l' (g l') /\ lock_of_ghost s' (g l') = lock_of_ghost s (g l')).
  { intros l' Hne. destruct (about_other l l' _ Ha Hne) as [Hr Hj], (about_other l l' _ Ha' Hne) as [Hr' _].
    apply (move_idle s s' l' (g l') t); [apply Hl|done|by apply Hw|by apply Hheld|done|done|by intros ?%Hj|].
    intros e. by apply Hn. }
  exists (<[l := γ]> g). split; [split; [done|split]|].
  - intros l'. destruct (decide (l' = l)) as [->|Hne]; [by rewrite fn_lookup_insert|].
    rewrite fn_lookup_insert_ne by done. by apply Ho.
  - intros u. destruct (decide (u = t)) as [->|Hu]; [done|]. rewrite (moves_held _ _ _ Hm) by done. apply Hh.
  - intros l'. destruct (decide (l' = l)) as [->|Hne]; [by rewrite fn_lookup_insert|].
    rewrite fn_lookup_insert_ne by done. rewrite (proj2 (Ho l' Hne)). apply fifo_skip.
Qed.

(** ** The nodes *)

Lemma used_below_ext s s' c n :
  (forall m, (m < n)%nat -> uses (at_pc s' (c, m)) = uses (at_pc s (c, m))) -> used_below s' c n = used_below s c n.
Proof. induction n as [|n IH]; intros H; simpl; [done|]. rewrite IH, H by (intros; auto with lia). done. Qed.

Lemma runs_valid s t : node_inv NR_CPUS s -> runs NR_CPUS t s -> 0 <= t.1 < NR_CPUS /\ (t.2 <= 3)%nat.
Proof. intros H [Ht E]. split; [done|]. rewrite E. apply (inv_level _ _ H). Qed.

Definition uses_one (p : pc) : Z := match uses p with Some _ => 1 | None => 0 end.

(** The levels above the one that runs use no nodes. *)
Lemma above_idle s t m : node_inv NR_CPUS s -> runs NR_CPUS t s -> (t.2 < m)%nat -> at_pc s (t.1, m) = Running.
Proof.
  intros H [_ Ht] Hm. destruct (decide (at_pc s (t.1, m) = Running)) as [|Hne]; [done|].
  destruct (inv_active _ _ H (t.1, m)) as [_ Hl]; [by left|]. simpl in *. lia.
Qed.

Lemma used_below_top s t m : node_inv NR_CPUS s -> runs NR_CPUS t s -> (t.2 < m)%nat ->
  used_below s t.1 m = used_below s t.1 t.2 + uses_one (at_pc s t).
Proof.
  intros H Hr. pose proof (above_idle s t) as Hab. destruct t as [c n]; simpl in *. unfold uses_one.
  induction 1 as [|m Hnm IH]; [done|]. simpl. rewrite IH, (Hab m) by (done || lia). simpl. lia.
Qed.

Lemma top_count s t : node_inv NR_CPUS s -> runs NR_CPUS t s ->
  count s t.1 = used_below s t.1 t.2 + uses_one (at_pc s t).
Proof.
  intros H Hr. rewrite (inv_count _ _ H). apply used_below_top; [done|done|].
  pose proof (runs_valid s t H Hr). lia.
Qed.

(** A step of the context that runs, which may take or give back a node. *)
Lemma node_inv_move s s' t :
  node_inv NR_CPUS s -> runs NR_CPUS t s -> moves t s s' -> level s' = level s ->
  count s' t.1 = used_below s t.1 t.2 + uses_one (at_pc s' t) ->
  (forall c, c <> t.1 -> count s' c = count s c) ->
  (forall i, uses (at_pc s' t) = Some i -> i = used_below s t.1 t.2) -> fresh_ok s' t ->
  (forall u i, u <> t -> uses (at_pc s u) = Some i -> queued_of (at_pc s u) = None ->
    node s' (u.1, i) = node s (u.1, i)) ->
  node_inv NR_CPUS s'.
Proof.
  intros H Hr Hm Hl Hc Hco Hi Hf Hn. pose proof (runs_valid s t H Hr) as [Hv Ht3].
  assert (Hbelow : forall c m, (c = t.1 -> (m <= t.2)%nat) -> used_below s' c m = used_below s c m).
  { intros c m Hmn. apply used_below_ext. intros k Hk. rewrite (moves_pc _ _ _ Hm); [done|].
    intros E. rewrite <- E in Hmn. simpl in Hmn. specialize (Hmn eq_refl). lia. }
  assert (Hab : forall m, (t.2 < m)%nat -> at_pc s' (t.1, m) = Running).
  { intros m Hlt. rewrite (moves_pc _ _ _ Hm); [by apply above_idle|]. intros E. apply (f_equal snd) in E. simpl in E. lia. }
  assert (Htop : forall m, (t.2 < m)%nat -> used_below s' t.1 m = used_below s t.1 t.2 + uses_one (at_pc s' t)).
  { rewrite <- (Hbelow t.1 t.2) by lia. clear -Hab. destruct t as [c n]; simpl in *. unfold uses_one.
    induction 1 as [|m Hnm IH]; [done|]. simpl. rewrite IH, (Hab m) by lia. simpl. lia. }
  split.
  - intros c. destruct (decide (c = t.1)) as [->|Hne]; [rewrite Hc, Htop by lia; done|].
    rewrite Hco, Hbelow by done. apply H.
  - intros u j. destruct (decide (u = t)) as [->|Hut]; [rewrite Hbelow by lia; apply Hi|].
    rewrite (moves_pc _ _ _ Hm) by done. intros Hj. rewrite (inv_index _ _ H _ _ Hj). symmetry. apply Hbelow.
    intros E. destruct (decide (u.2 <= t.2)%nat) as [|Hgt]; [done|]. destruct u as [c m]. simpl in *. subst c.
    rewrite above_idle in Hj by (done || lia). done.
  - intros c. rewrite Hl. apply H.
  - intros u. destruct (decide (u = t)) as [->|Hut]; [done|].
    pose proof (inv_fresh _ _ H u) as Hfu. unfold fresh_ok in *. rewrite (moves_pc _ _ _ Hm) by done.
    specialize (fun i => Hn u i Hut). destruct (at_pc s u); try done; by rewrite Hn.
  - intros u Hu. rewrite Hl. destruct (decide (u = t)) as [->|Hut]; [split; [done|destruct Hr; lia]|].
    rewrite (moves_pc _ _ _ Hm), (moves_held _ _ _ Hm) in Hu by done. by apply H.
Qed.

(** The common case: the same node, if any, and no other memory. *)
Lemma node_inv_same s s' t :
  node_inv NR_CPUS s -> runs NR_CPUS t s -> moves t s s' -> level s' = level s -> count s' = count s ->
  node s' = node s -> uses (at_pc s' t) = uses (at_pc s t) -> fresh_ok s' t ->
  node_inv NR_CPUS s'.
Proof.
  intros H Hr Hm Hl Hc Hn Hu Hf. apply (node_inv_move s s' t); try done.
  - rewrite Hc, top_count by done. unfold uses_one. by rewrite Hu.
  - by rewrite Hc.
  - intros i. rewrite Hu. apply H.
  - by rewrite Hn.
Qed.

(** ** Steps *)

Section step.
Context (s : machine) (g : nat -> ghost) (t : context).
Context (Hmi : machine_inv NR_CPUS s g) (Hr : runs NR_CPUS t s).

Lemma after_same s' l γ :
  about l (at_pc s t) -> about l (at_pc s' t) -> moves t s s' ->
  level s' = level s -> count s' = count s -> node s' = node s ->
  uses (at_pc s' t) = uses (at_pc s t) -> fresh_ok s' t ->
  (forall l', l' <> l -> word s' l' = word s l') ->
  held s' t = held s t \/ held s' t = l :: held s t /\ l ∉ held s t ->
  lock_inv s' l γ /\ fifo_step t (lock_of_ghost s (g l)) (lock_of_ghost s' γ) ->
  after t s g s'.
Proof using HN Hmi Hr.
  intros Ha Ha' Hm Hl Hc Hn Hu Hf Hw Hh Hγ. pose proof Hmi as (Hno & Hli & Hnd).
  apply (after_move s s' g t l γ); try done.
  - by apply (node_inv_same s s' t).
  - intros l' Hne. destruct Hh as [->|[-> _]]; [done|]. rewrite elem_of_cons. naive_solver.
  - destruct Hh as [->|[-> ?]]; [done|]. by apply NoDup_cons.
  - intros. by rewrite Hn.
Qed.

(** A step without effect on any lock. *)
Lemma after_idle s' l :
  about l (at_pc s t) -> about l (at_pc s' t) -> moves t s s' ->
  level s' = level s -> count s' = count s -> node s' = node s ->
  uses (at_pc s' t) = uses (at_pc s t) -> fresh_ok s' t ->
  (forall l', word s' l' = word s l') -> held s' t = held s t ->
  no_role l (at_pc s t) -> no_role l (at_pc s' t) ->
  (joiner_of (at_pc s t) = Some l -> joiner_of (at_pc s' t) = Some l) ->
  after t s g s'.
Proof using HN Hmi Hr.
  intros Ha Ha' Hm Hl Hc Hn Hu Hf Hw Hh Hro Hro' Hj. pose proof Hmi as (Hno & Hli & Hnd).
  apply (after_same s' l (g l)); auto.
  destruct (move_idle s s' l (g l) t) as [H1 H2]; auto; [by rewrite Hh|by rewrite Hn|].
  split; [done|]. rewrite H2. apply fifo_skip.
Qed.

(** A step that keeps the roles of the context. *)
Lemma after_pc s' l :
  about l (at_pc s t) -> about l (at_pc s' t) -> moves t s s' ->
  level s' = level s -> count s' = count s -> node s' = node s ->
  uses (at_pc s' t) = uses (at_pc s t) -> fresh_ok s' t ->
  (forall l', word s' l' = word s l') -> held s' t = held s t ->
  owner_of (at_pc s' t) = owner_of (at_pc s t) -> pender_of (at_pc s' t) = pender_of (at_pc s t) ->
  queued_of (at_pc s' t) = queued_of (at_pc s t) -> joiner_of (at_pc s t) = None -> joiner_of (at_pc s' t) = None ->
  (forall i, (t, i) ∈ queue (g l) -> heading (at_pc s t) (locked_of s (t, i)) /\ forall k, heading (at_pc s' t) k) ->
  pc_ok s' l (g l) t ->
  after t s g s'.
Proof using HN Hmi Hr.
  intros Ha Ha' Hm Hl Hc Hn Hu Hf Hw Hh Ho Hp Hq Hj Hj' Hhead Hok. pose proof Hmi as (Hno & Hli & Hnd).
  apply (after_same s' l (g l)); auto.
  destruct (move_pc s s' l (g l) t) as [H1 H2]; auto.
  - destruct (queue (g l)) as [|[u i] q] eqn:Eg; [done|]. simpl. intros ->. apply (Hhead i). constructor.
  - intros i Hi. apply (first_in_queue s l); [done..|]. by apply Hhead.
  - split; [done|]. rewrite H2. apply fifo_skip.
Qed.

Lemma not_holding l : ~ owns s l t -> l ∉ held s t.
Proof. intros H Hl. apply H. by left. Qed.

Lemma free_not_held l : owner (g l) = None -> l ∉ held s t.
Proof using Hmi.
  intros Ho Hl. assert (owner (g l) = Some t) by (apply (inv_owner s l); [apply Hmi|by left]). congruence.
Qed.
End step.
End steps.

(** The state after a step, read off. *)
Ltac read_off :=
  cbn [word node count level at_pc held set_word set_node set_count set_level goto set_held acquired];
  rewrite ?fn_lookup_insert.
Ltac solve_moves :=
  split; intros ? ?; cbn [word node count level at_pc held set_word set_node set_count set_level goto set_held acquired];
  rewrite ?fn_lookup_insert_ne by congruence; done.

(** ** The queued spin lock: runs of the machine

    Every step of every context preserves the invariant, without a fault. *)

(** Side conditions of the lemmas above, for a step from [E]. *)
Ltac step_side E :=
  first
    [ solve [solve_moves]
    | solve [rewrite E; by right]
    | solve [read_off; first [by left|by right|done]]
    | solve [read_off; rewrite E; done]
    | solve [intros ? ?; read_off; by rewrite ?fn_lookup_insert_ne by done]
    | solve [unfold fresh_ok; read_off; done]
    | idtac ].

Section run.
Context (NR_CPUS : Z) (HN : 0 < NR_CPUS < 2 ^ 14).
Context (s : machine) (g : nat -> ghost) (t : context).
Context (Hmi : machine_inv NR_CPUS s g) (Hr : runs NR_CPUS t s).

(** A program point with nothing to remember. *)
Definition knows_nothing (p : pc) : Prop :=
  match p with
  | Node_next _ _ | Queue_read _ _ | Queue_cas _ _ | Xchg_tail _ _ => False
  | Spin_pending _ cnt => 0 <= cnt
  | _ => True
  end.

Lemma slow_idle l v (p := queued_spin_lock_slowpath l v) :
  about l p /\ no_role l p /\ uses p = None /\ knows_nothing p.
Proof.
  clear. subst p. unfold queued_spin_lock_slowpath, slow_decide.
  repeat case_match; (split_and!; [by right|split_and!; done|done|done]).
Qed.

Lemma fresh_other p : knows_nothing p ->
  forall s', at_pc s' t = p -> fresh_ok s' t.
Proof. clear. intros Hp s' E. unfold fresh_ok. rewrite E. by destruct p. Qed.

Lemma step_take l : 
  word s l = 0 -> about l (at_pc s t) -> no_role l (at_pc s t) -> uses (at_pc s t) = None ->
  after NR_CPUS t s g (acquired t l (set_word l _Q_LOCKED_VAL s)).
Proof using HN Hmi Hr.
  intros H0 Ha Hro Hu. pose proof Hmi as (Hno & Hli & _).
  pose proof (word_unheld NR_CPUS ltac:(lia) s l (g l) Hno (Hli l) H0) as (Eo & _ & _).
  assert (Hm : moves t s (acquired t l (set_word l _Q_LOCKED_VAL s))) by solve_moves.
  eapply (after_same NR_CPUS HN s g t Hmi Hr _ l); try done.
  - by left; read_off.
  - by read_off.
  - unfold fresh_ok. by read_off.
  - intros l' Hl'. read_off. by rewrite fn_lookup_insert_ne.
  - right. read_off. split; [done|]. by apply (free_not_held NR_CPUS s g t Hmi).
  - apply (move_take NR_CPUS ltac:(lia)); try done.
    + by read_off.
    + left. read_off. constructor.
    + read_off. by intros [_ ?].
    + by read_off.
    + by read_off.
Qed.

Lemma step_goto_idle l p' :
  about l (at_pc s t) -> about l p' -> uses p' = uses (at_pc s t) ->
  (forall s', at_pc s' t = p' -> node s' = node s -> fresh_ok s' t) ->
  no_role l (at_pc s t) -> no_role l p' ->
  (joiner_of (at_pc s t) = Some l -> joiner_of p' = Some l) ->
  after NR_CPUS t s g (goto t p' s).
Proof using HN Hmi Hr.
  intros Ha Ha' Hu Hf Hro Hro' Hj.
  assert (E : at_pc (goto t p' s) t = p') by (by read_off).
  apply (after_idle NR_CPUS HN s g t Hmi Hr _ l); rewrite ?E; try done; [solve_moves|by apply Hf].
Qed.

(** ** Before the queue *)

Lemma word_fields l :
  word s l = qword (bool_decide (is_Some (owner (g l)))) (bool_decide (is_Some (pender (g l)))) (tail_of (queue (g l))) /\
  halfword (tail_of (queue (g l))) /\ (tail_of (queue (g l)) = 0 <-> queue (g l) = []).
Proof using HN Hmi.
  pose proof Hmi as (Hno & Hli & _). split_and!.
  - apply Hli.
  - by apply (tail_halfword NR_CPUS ltac:(lia) s l).
  - by apply (tail_0 NR_CPUS ltac:(lia) s l).
Qed.

Lemma fetch_pending_ok l : at_pc s t = Fetch_pending l -> returns (context_step NR_CPUS t s) (after NR_CPUS t s g).
Proof using HN Hmi Hr.
  intros E. pose proof Hmi as (Hno & Hli & _). destruct (word_fields l) as (Ew & Htl & Hq0).
  unfold context_step. rewrite E. apply returns_ret.
  rewrite Ew, qword_contended, qword_pending, qword_locked, qword_fetch_pending by done.
  set (p' := if negb _ then _ else _). set (s' := goto t p' _).
  assert (E' : at_pc s' t = p') by (by subst s'; read_off).
  assert (Hw' : word s' l = qword (bool_decide (is_Some (owner (g l)))) true (tail_of (queue (g l)))) by (by subst s'; read_off).
  assert (Hmv : moves t s s') by (subst s'; solve_moves).
  destruct (pender (g l)) as [u|] eqn:Ep.
  - assert (Hp' : p' = Node_count l) by (subst p'; rewrite bool_decide_true by (by eexists); unfold halfword in Htl;
      rewrite (proj2 (Z.eqb_neq _ 0)) by (simpl; lia); done).
    rewrite Hp' in E'. apply (after_idle NR_CPUS HN s g t Hmi Hr s' l); rewrite ?E, ?E'; try done; try by right.
    + unfold fresh_ok. by rewrite E'.
    + intros l'. destruct (decide (l' = l)) as [->|Hne]; [rewrite Hw', Ew, (bool_decide_true (is_Some (Some u))) by (by eexists); done|].
      subst s'. read_off. by rewrite fn_lookup_insert_ne.
  - assert (Hp' : p' = if decide (queue (g l) = []) then
                         (if decide (owner (g l) = None) then Take_pending l else Wait_unlocked l) else Clear_pending l).
    { subst p'. rewrite (bool_decide_false (is_Some None)) by (by intros [??]).
      destruct (decide (queue (g l) = [])) as [Eq|Eq].
      - rewrite (proj2 Hq0 Eq). destruct (owner (g l)).
        + by rewrite bool_decide_true by (by eexists).
        + by rewrite bool_decide_false by (by intros [??]).
      - rewrite <- Hq0 in Eq. unfold halfword in Htl. rewrite (proj2 (Z.eqb_neq _ 0)) by (simpl; lia). done. }
    assert (Hrole : about l p' /\ uses p' = None /\ pender_of p' = Some l /\ forall s1, at_pc s1 t = p' -> fresh_ok s1 t).
    { rewrite Hp'. split_and!; repeat case_decide; try done; try (by right); intros s1 E1; unfold fresh_ok; by rewrite E1. }
    destruct Hrole as (H1 & H2 & H3 & H4).
    apply (after_same NR_CPUS HN s g t Hmi Hr s' l (mk_ghost (owner (g l)) (Some t) (queue (g l)))); try done.
    + rewrite E. by right.
    + by rewrite E'.
    + by rewrite E', E, H2.
    + by apply H4.
    + intros l' Hne. subst s'. read_off. by rewrite fn_lookup_insert_ne.
    + by left.
    + apply (move_set_pending s s' l (g l) t); try done; try (by rewrite E).
      * by rewrite E'.
      * rewrite E', Hp'. repeat case_decide; by split.
      * rewrite E', Hp'. by repeat case_decide.
Qed.

Lemma clear_pending_ok l : at_pc s t = Clear_pending l -> returns (context_step NR_CPUS t s) (after NR_CPUS t s g).
Proof using HN Hmi Hr.
  intros E. pose proof Hmi as (Hno & Hli & _). unfold context_step. rewrite E. apply returns_ret.
  set (s' := goto t _ _). assert (E' : at_pc s' t = Node_count l) by (by subst s'; read_off).
  assert (Hmv : moves t s s') by (subst s'; solve_moves).
  destruct (move_clear_pending NR_CPUS ltac:(lia) s s' l (g l) t Hno (Hli l) Hmv E E') as [H1 H2]; try done.
  { subst s'. by read_off. }
  eapply (after_same NR_CPUS HN s g t Hmi Hr s' l); rewrite ?E, ?E'; try done; try (by right); try by left.
  - unfold fresh_ok. by rewrite E'.
  - intros l' Hne. subst s'. read_off. by rewrite fn_lookup_insert_ne.
  - split; [exact H1|]. rewrite H2. apply fifo_skip.
Qed.

Lemma take_pending_ok l : at_pc s t = Take_pending l -> returns (context_step NR_CPUS t s) (after NR_CPUS t s g).
Proof using HN Hmi Hr.
  intros E. pose proof Hmi as (Hno & Hli & _). unfold context_step. rewrite E. apply returns_ret.
  set (s' := acquired t l _). assert (E' : at_pc s' t = Running) by (by subst s'; read_off).
  assert (Hmv : moves t s s') by (subst s'; solve_moves).
  assert (Eo : owner (g l) = None).
  { pose proof (inv_pc _ _ _ (Hli l) t) as H. unfold pc_ok in H. rewrite E in H. by apply H. }
  eapply (after_same NR_CPUS HN s g t Hmi Hr s' l); rewrite ?E, ?E'; try done; try (by right); try by left.
  - unfold fresh_ok. by rewrite E'.
  - intros l' Hne. subst s'. read_off. by rewrite fn_lookup_insert_ne.
  - right. subst s'. read_off. split; [done|]. by apply (free_not_held NR_CPUS s g t Hmi).
  - apply (move_take_pending NR_CPUS ltac:(lia)); try done; subst s'; by read_off.
Qed.

Lemma wait_unlocked_ok l : at_pc s t = Wait_unlocked l -> returns (context_step NR_CPUS t s) (after NR_CPUS t s g).
Proof using HN Hmi Hr.
  intros E. pose proof Hmi as (Hno & Hli & _). destruct (word_fields l) as (Ew & Htl & _).
  unfold context_step. rewrite E. apply returns_ret. rewrite Ew, qword_locked by done.
  assert (Hq : forall i, (t, i) ∉ queue (g l)).
  { intros i Hi. apply (inv_queued _ _ _ (Hli l)) in Hi. by rewrite E in Hi. }
  destruct (owner (g l)) as [o|] eqn:Eo.
  - rewrite bool_decide_true by (by eexists). simpl. exists g. split; [done|]. intros. apply fifo_skip.
  - rewrite bool_decide_false by (by intros [??]). simpl.
    set (s' := goto t _ s). assert (E' : at_pc s' t = Take_pending l) by (by subst s'; read_off).
    apply (after_pc NR_CPUS HN s g t Hmi Hr s' l); rewrite ?E, ?E'; try done; try (by right).
    + subst s'. solve_moves.
    + unfold fresh_ok. by rewrite E'.
    + by intros i ?%Hq.
    + unfold pc_ok. by rewrite E'.
Qed.

(** ** The queue node *)

Lemma node_not_queued i l e : uses (at_pc s t) = Some i -> queued_of (at_pc s t) = None ->
  e ∈ queue (g l) -> node_of e <> (t.1, i).
Proof using Hmi.
  clear Hr. pose proof Hmi as (Hno & Hli & _). intros Hu Hq He Ee.
  assert (e = (t, i)) as ->.
  { apply (node_of_inj NR_CPUS s); [done|by apply (entry_uses s l (g l))|done|done]. }
  apply (inv_queued _ _ _ (Hli l)) in He. by rewrite Hq in He.
Qed.

Lemma node_not_used i u j : uses (at_pc s t) = Some i -> u <> t -> uses (at_pc s u) = Some j -> (u.1, j) <> (t.1, i).
Proof using Hmi.
  clear Hr. pose proof Hmi as (Hno & _ & _). intros Hu Hne Hj [= E1 ->]. apply Hne. by apply (uses_inj NR_CPUS s u t i).
Qed.

(** A write to the node the context has not published. *)
Lemma after_own_node l i m p' :
  lock_of (at_pc s t) = Some l -> uses (at_pc s t) = Some i -> no_role l (at_pc s t) ->
  queued_of (at_pc s t) = None -> about l p' ->
  uses p' = Some i -> no_role l p' -> (joiner_of (at_pc s t) = Some l -> joiner_of p' = Some l) ->
  (forall s', at_pc s' t = p' -> node s' (t.1, i) = m -> fresh_ok s' t) ->
  after NR_CPUS t s g (goto t p' (set_node (t.1, i) m s)).
Proof using HN Hmi Hr.
  intros Hl Hu Hro Hq Ha' Hu' Hro' Hj Hf. pose proof Hmi as (Hno & Hli & Hnd).
  set (s' := goto t _ _). assert (E' : at_pc s' t = p') by (by subst s'; read_off).
  assert (Hmv : moves t s s') by (subst s'; solve_moves).
  assert (Hn : forall n, n <> (t.1, i) -> node s' n = node s n) by (intros n Hne; subst s'; read_off; by rewrite fn_lookup_insert_ne).
  apply (after_move NR_CPUS s s' g t l (g l)); try done; rewrite ?E'; try done.
  - by right.
  - apply (node_inv_move NR_CPUS s s' t); try done.
    + change (count s' t.1) with (count s t.1). rewrite (top_count NR_CPUS) by done. unfold uses_one. by rewrite E', Hu', Hu.
    + rewrite E', Hu', <- Hu. apply Hno.
    + apply Hf; [done|]. subst s'. by read_off.
    + intros u j Hne Hj' _. apply Hn. by apply node_not_used.
  - apply Hnd.
  - intros l' e _ He. apply Hn. by apply (node_not_queued i l').
  - destruct (move_idle s s' l (g l) t) as [H1 H2]; rewrite ?E'; try done.
    + intros e He. apply Hn. by apply (node_not_queued i l).
    + split; [done|]. rewrite H2. apply fifo_skip.
Qed.

Lemma rd_own_node i : uses (at_pc s t) = Some i -> rd_node NR_CPUS (t.1, i) s = Ret (node s (t.1, i)).
Proof using Hmi.
  intros Hu. unfold rd_node. rewrite decide_True; [done|]. apply (uses_valid NR_CPUS s); [apply Hmi|done].
Qed.

Lemma wr_valid n m : valid_node NR_CPUS n -> wr_node NR_CPUS n m s = Ret (set_node n m s).
Proof. clear. intros Hn. unfold wr_node. by rewrite decide_True. Qed.

Lemma node_init_ok l i :
  at_pc s t = Node_locked l i \/ at_pc s t = Node_next l i ->
  returns (context_step NR_CPUS t s) (after NR_CPUS t s g).
Proof using HN Hmi Hr.
  intros E. pose proof Hmi as (Hno & _). pose proof (inv_fresh _ _ Hno t) as Hf. unfold fresh_ok in Hf.
  destruct E as [E|E]; unfold context_step; rewrite E in *;
    (rewrite rd_own_node, bind_ret, wr_valid, bind_ret; [..|by apply (uses_valid NR_CPUS s); [done|rewrite E]|by rewrite E]);
    apply returns_ret; apply after_own_node with l; rewrite ?E; try done; try (by right);
    intros s' E'; unfold fresh_ok; rewrite E'.
  - by intros ->.
  - intros ->. by rewrite Hf.
Qed.

Lemma node_count_ok l : at_pc s t = Node_count l -> returns (context_step NR_CPUS t s) (after NR_CPUS t s g).
Proof using HN Hmi Hr.
  intros E. pose proof Hmi as (Hno & Hli & Hnd). unfold context_step. rewrite E. apply returns_ret.
  pose proof (top_count NR_CPUS s t Hno Hr) as Hc. unfold uses_one in Hc. rewrite E in Hc. simpl in Hc.
  pose proof (runs_valid NR_CPUS s t Hno Hr) as [_ Ht3].
  pose proof (used_below_bound s t.1 t.2) as Hb. rewrite s32_small by lia.
  set (s' := goto t _ _). assert (E' : at_pc s' t = Node_locked l (count s t.1)) by (by subst s'; read_off).
  assert (Hmv : moves t s s') by (subst s'; solve_moves).
  apply (after_move NR_CPUS s s' g t l (g l)); try done; rewrite ?E, ?E'; try done; try by right.
  - apply (node_inv_move NR_CPUS s s' t); try done.
    + subst s'. read_off. unfold uses_one. simpl. lia.
    + intros c Hne. subst s'. read_off. by rewrite fn_lookup_insert_ne.
    + rewrite E'. intros i [= <-]. lia.
    + unfold fresh_ok. by rewrite E'.
  - apply Hnd.
  - destruct (move_idle s s' l (g l) t) as [H1 H2]; rewrite ?E, ?E'; try done.
    split; [done|]. rewrite H2. apply fifo_skip.
Qed.

Lemma node_dec_ok l i : at_pc s t = Node_dec l i -> returns (context_step NR_CPUS t s) (after NR_CPUS t s g).
Proof using HN Hmi Hr.
  intros E. pose proof Hmi as (Hno & Hli & Hnd). unfold context_step. rewrite E. apply returns_ret.
  pose proof (top_count NR_CPUS s t Hno Hr) as Hc. unfold uses_one in Hc. rewrite E in Hc. simpl in Hc.
  pose proof (runs_valid NR_CPUS s t Hno Hr) as [_ Ht3].
  pose proof (used_below_bound s t.1 t.2) as Hb. rewrite s32_small by lia.
  set (s' := acquired t l _). assert (E' : at_pc s' t = Running) by (by subst s'; read_off).
  assert (Hmv : moves t s s') by (subst s'; solve_moves).
  assert (Hl : l ∉ held s t).
  { intros Hl. apply (inv_once _ _ _ (Hli l) t). by rewrite E. }
  apply (after_move NR_CPUS s s' g t l (g l)); try done; rewrite ?E, ?E'; try done; try (by right); try by left.
  - apply (node_inv_move NR_CPUS s s' t); try done.
    + subst s'. read_off. unfold uses_one. simpl. lia.
    + intros c Hne. subst s'. read_off. by rewrite fn_lookup_insert_ne.
    + by rewrite E'.
    + unfold fresh_ok. by rewrite E'.
  - intros l' Hne. subst s'. read_off. rewrite elem_of_cons. naive_solver.
  - subst s'. read_off. by apply NoDup_cons.
  - destruct (move_return s s' l (g l) t (Hli l) Hmv i E E') as [H1 H2]; try done.
    { subst s'. by read_off. }
    split; [done|]. rewrite H2. apply fifo_skip.
Qed.

(** ** In the queue *)

Lemma own_node_valid i : uses (at_pc s t) = Some i -> valid_node NR_CPUS (t.1, i).
Proof using Hmi. intros Hu. apply (uses_valid NR_CPUS s); [apply Hmi|done]. Qed.

Lemma xchg_tail_ok l i : at_pc s t = Xchg_tail l i -> returns (context_step NR_CPUS t s) (after NR_CPUS t s g).
Proof using HN Hmi Hr.
  intros E. pose proof Hmi as (Hno & Hli & Hnd). destruct (word_fields l) as (Ew & Htl & Hq0).
  assert (Hv : valid_node NR_CPUS (t.1, i)) by (apply own_node_valid; by rewrite E).
  unfold context_step. rewrite E.
  pose proof (encode_tail_code NR_CPUS ltac:(lia) _ Hv) as Hen. simpl in Hen. rewrite Hen.
  rewrite Ew, qword_xchg by (done || by apply (node_code_range NR_CPUS); [lia|]).
  apply returns_ret.
  assert (Hland : Z.land (tail_of (queue (g l)) * 2 ^ 16) _Q_TAIL_MASK = tail_of (queue (g l)) * 2 ^ 16).
  { pose proof (qword_tail false false _ Htl) as H. unfold qword in H. simpl in H. by rewrite Z.add_0_l in H. }
  rewrite Hland. set (p' := if negb _ then _ else _). set (s' := goto t p' _).
  assert (Hp' : p' = if decide (queue (g l) = []) then Wait_head l i None else Link_prev l i (tail_of (queue (g l)) * 2 ^ 16)).
  { subst p'. destruct (decide _) as [Eq|Eq].
    - by rewrite (proj2 Hq0 Eq).
    - rewrite <- Hq0 in Eq. unfold halfword in Htl. by rewrite (proj2 (Z.eqb_neq _ 0)) by lia. }
  assert (E' : at_pc s' t = p') by (by subst s'; read_off).
  assert (Hmv : moves t s s') by (subst s'; solve_moves).
  assert (Hroles : about l p' /\ uses p' = Some i /\ fresh_ok s' t).
  { unfold fresh_ok. rewrite E', Hp'. destruct (decide _); split_and!; try done; by right. }
  destruct Hroles as (H1 & H2 & H3).
  eapply (after_same NR_CPUS HN s g t Hmi Hr s' l); rewrite ?E, ?E'; try done; try (by right); try by left.
  - intros l' Hne. subst s'. read_off. by rewrite fn_lookup_insert_ne.
  - apply (move_join NR_CPUS s s' l (g l) t Hno (Hli l) Hmv i E); try done.
    + by rewrite E', Hp'.
    + subst s'. by read_off.
Qed.

Lemma link_prev_ok l i old : at_pc s t = Link_prev l i old -> returns (context_step NR_CPUS t s) (after NR_CPUS t s g).
Proof using HN Hmi Hr.
  intros E. pose proof Hmi as (Hno & Hli & Hnd). unfold context_step. rewrite E.
  set (s' := goto t (Wait_node l i) (set_node (decode_tail old)
                (mk_mcs (mcs_locked (node s (decode_tail old))) (Some (t.1, i))) s)).
  assert (Hmv : moves t s s') by (subst s'; solve_moves).
  destruct (move_link NR_CPUS ltac:(lia) s s' l (g l) t Hno (Hli l) Hmv i old E) as (a & Ea & Hav & Ha & Hat & Hstep).
  unfold rd_node. rewrite Ea, decide_True, bind_ret, wr_valid, bind_ret by done. rewrite <- Ea. fold s'.
  apply returns_ret.
  assert (E' : at_pc s' t = Wait_node l i) by (by subst s'; read_off).
  assert (Hn : node s' = <[node_of a := mk_mcs (locked_of s a) (Some (t.1, i))]> (node s)) by (subst s'; read_off; by rewrite Ea).
  pose proof (entry_uses s l (g l) (Hli l) a Ha) as Hau.
  assert (Haq : queued_of (at_pc s a.1) = Some (l, a.2)) by (apply (inv_queued _ _ _ (Hli l)); by destruct a).
  apply (after_move NR_CPUS s s' g t l (g l)); rewrite ?E, ?E'; try done; try by right.
  - apply (node_inv_move NR_CPUS s s' t); try done.
    + change (count s' t.1) with (count s t.1). rewrite (top_count NR_CPUS) by done. unfold uses_one. by rewrite E', E.
    + rewrite E'. intros j Hj. apply (inv_index _ _ Hno). by rewrite E.
    + unfold fresh_ok. by rewrite E'.
    + intros u j Hne Hj Hjq. rewrite Hn, fn_lookup_insert_ne; [done|]. intros Ee.
      assert ((u, j) = a) as <- by (by apply (node_of_inj NR_CPUS s)). simpl in Haq. by rewrite Haq in Hjq.
  - apply Hnd.
  - intros l' e Hne He. rewrite Hn, fn_lookup_insert_ne; [done|]. intros Ee.
    assert (e = a) as -> by (apply (node_of_inj NR_CPUS s); [done|by apply (entry_uses s l' (g l'))|done|done]).
    destruct a as [u j]. apply (inv_queued _ _ _ (Hli l')) in He. simpl in Haq. rewrite Haq in He. by simplify_eq.
  - destruct (Hstep E') as [H1 H2]; try done. split; [done|]. rewrite H2. apply fifo_skip.
Qed.

Lemma in_queue l i : queued_of (at_pc s t) = Some (l, i) -> (t, i) ∈ queue (g l).
Proof using Hmi. intros H. apply (inv_queued _ _ _ (proj1 (proj2 Hmi) l)). done. Qed.

Lemma own_index l i j : queued_of (at_pc s t) = Some (l, i) -> (t, j) ∈ queue (g l) -> j = i.
Proof using Hmi. intros H Hj. apply (inv_queued _ _ _ (proj1 (proj2 Hmi) l)) in Hj. congruence. Qed.

(** A step of the first of the queue that changes its program point only. *)
Lemma after_first l i p' :
  queued_of (at_pc s t) = Some (l, i) -> heading (at_pc s t) (locked_of s (t, i)) ->
  (forall k, heading p' k) -> queued_of p' = Some (l, i) -> owner_of p' = owner_of (at_pc s t) ->
  (forall s', at_pc s' t = p' -> moves t s s' -> node s' = node s -> pc_ok s' l (g l) t) ->
  after NR_CPUS t s g (goto t p' s).
Proof using HN Hmi Hr.
  intros Hq Hh Hh' Hq' Ho Hok. set (s' := goto t p' s).
  assert (E' : at_pc s' t = p') by (by subst s'; read_off).
  assert (Hmv : moves t s s') by (subst s'; solve_moves).
  pose proof (queued_uses _ _ _ Hq) as Hu. pose proof (queued_uses _ _ _ Hq') as Hu'.
  assert (Hside : about l (at_pc s t) /\ about l p' /\ pender_of p' = pender_of (at_pc s t) /\
            joiner_of (at_pc s t) = None /\ joiner_of p' = None /\ fresh_ok s' t).
  { unfold fresh_ok. rewrite E'. clear -Hq Hq'. unfold about.
    destruct (at_pc s t); simpl in Hq; simplify_eq; destruct p'; simpl in Hq'; simplify_eq; split_and!; simpl; auto. }
  destruct Hside as (H1 & H2 & H3 & H4 & H5 & H6).
  apply (after_pc NR_CPUS HN s g t Hmi Hr s' l); rewrite ?E'; try done; try congruence.
  - intros j Hj. rewrite (own_index l i j Hq Hj). split; [done|apply Hh'].
  - by apply Hok.
Qed.

Lemma after_stay : after NR_CPUS t s g s.
Proof using Hmi. exists g. split; [done|]. intros. apply fifo_skip. Qed.

Lemma wait_node_ok l i : at_pc s t = Wait_node l i -> returns (context_step NR_CPUS t s) (after NR_CPUS t s g).
Proof using HN Hmi Hr.
  intros E. unfold context_step. rewrite E, rd_own_node, bind_ret by (by rewrite E). apply returns_ret.
  destruct (Z.eqb_spec (mcs_locked (node s (t.1, i))) 0) as [Hz|Hz]; simpl; [apply after_stay|].
  apply after_first with l i; rewrite ?E; try done. intros s' E' _ _. unfold pc_ok. by rewrite E'.
Qed.

Lemma read_next_ok l i : at_pc s t = Read_next l i -> returns (context_step NR_CPUS t s) (after NR_CPUS t s g).
Proof using HN Hmi Hr.
  intros E. unfold context_step. rewrite E, rd_own_node, bind_ret by (by rewrite E). apply returns_ret.
  apply after_first with l i; rewrite ?E; try done. intros s' E' _ Hn. unfold pc_ok. rewrite E'.
  intros _. right. unfold next_of. by rewrite Hn.
Qed.

Lemma own_pc_ok l : pc_ok s l (g l) t.
Proof using Hmi. apply (inv_pc _ _ _ (proj1 (proj2 Hmi) l)). Qed.

Lemma wait_head_ok l i next : at_pc s t = Wait_head l i next -> returns (context_step NR_CPUS t s) (after NR_CPUS t s g).
Proof using HN Hmi Hr.
  intros E. pose proof Hmi as (Hno & Hli & Hnd). destruct (word_fields l) as (Ew & Htl & Hq0).
  assert (Hv : valid_node NR_CPUS (t.1, i)) by (apply own_node_valid; by rewrite E).
  pose proof (in_queue l i ltac:(by rewrite E)) as Hi.
  pose proof (own_pc_ok l) as Hok. unfold pc_ok in Hok. rewrite E in Hok. specialize (Hok eq_refl).
  unfold context_step. rewrite E. apply returns_ret.
  pose proof (encode_tail_code NR_CPUS ltac:(lia) _ Hv) as Hen. simpl in Hen. rewrite Hen.
  rewrite Ew, qword_locked_pending, qword_tail by done.
  destruct (Z.eqb_spec (Z.b2z (bool_decide (is_Some (owner (g l)))) + Z.b2z (bool_decide (is_Some (pender (g l)))) * 2 ^ 8) 0)
    as [Hz|Hz]; [|apply after_stay].
  assert (Hfree : owner (g l) = None /\ pender (g l) = None).
  { destruct (owner (g l)), (pender (g l)); simpl in Hz; try done;
      rewrite ?(bool_decide_true (is_Some (Some _))) in Hz by (by eexists); simpl in Hz; try lia. }
  destruct Hfree as [Eo Ep]. rewrite Eo, Ep.
  assert (Hcalm : forall s', calm s' l (g l)) by (intros s' u Hu; by rewrite Ep in Hu).
  destruct (Z.eqb_spec (tail_of (queue (g l)) * 2 ^ 16) (node_code (t.1, i) * 2 ^ 16)) as [Ht|Ht].
  - apply after_first with l i; rewrite ?E; try done. intros s' E' Hmv Hn. unfold pc_ok. rewrite E'. intros _.
    split_and!; [|f_equal; lia|done|apply Hcalm]. unfold next_ok, next_of in *. by rewrite Hn.
  - apply after_first with l i; rewrite ?E; try done. intros s' E' Hmv Hn. unfold pc_ok. rewrite E'. intros _.
    split_and!; [|done|apply Hcalm|]; [unfold next_ok, next_of in *; by rewrite Hn|].
    intros Eq. rewrite Eq in Ht. done.
Qed.

Lemma spin_claim_ok l i next val : at_pc s t = Claim l i next val -> returns (context_step NR_CPUS t s) (after NR_CPUS t s g).
Proof using HN Hmi Hr.
  intros E. pose proof Hmi as (Hno & Hli & Hnd). destruct (word_fields l) as (Ew & Htl & Hq0).
  pose proof (own_pc_ok l) as Hok. unfold pc_ok in Hok. rewrite E in Hok.
  destruct (Hok eq_refl) as (Hnx & -> & Eo & Hc).
  unfold context_step. rewrite E. apply returns_ret.
  destruct (Z.eqb_spec (word s l) (qword false false (node_code (t.1, i)))) as [Hw|Hw].
  - rewrite <- Hw in E. set (s' := goto t _ _). assert (E' : at_pc s' t = Node_dec l i) by (by subst s'; read_off).
    assert (Hmv : moves t s s') by (subst s'; solve_moves).
    eapply (after_same NR_CPUS HN s g t Hmi Hr s' l); rewrite ?E, ?E'; try done; try (by right); try by left.
    + unfold fresh_ok. by rewrite E'.
    + intros l' Hne. subst s'. read_off. by rewrite fn_lookup_insert_ne.
    + apply (move_claim NR_CPUS ltac:(lia) s s' l (g l) t Hno (Hli l) Hmv i next E E'); try done. subst s'. by read_off.
  - apply after_first with l i; rewrite ?E; try done. intros s' E' Hmv Hn. unfold pc_ok. rewrite E'. intros _.
    assert (Hcalm : calm s' l (g l)).
    { intros u Hu. rewrite (moves_pc _ _ _ Hmv); [by apply Hc|]. intros ->.
      apply (inv_pender _ _ _ (Hli l)) in Hu. by rewrite E in Hu. }
    split_and!; [|done|done|]; [unfold next_ok, next_of in *; by rewrite Hn|].
    intros Eq. destruct (pender (g l)) as [u|] eqn:Ep; [exists u; by rewrite (Hcalm u Ep)|].
    exfalso. apply Hw. by rewrite Ew, Eo, Eq.
Qed.

Lemma set_locked_ok l i next : at_pc s t = Set_locked l i next -> returns (context_step NR_CPUS t s) (after NR_CPUS t s g).
Proof using HN Hmi Hr.
  intros E. pose proof Hmi as (Hno & Hli & Hnd). unfold context_step. rewrite E. apply returns_ret.
  set (s' := goto t _ _).
  assert (E' : at_pc s' t = match next with Some n => Pass l i n | None => Wait_next l i end) by (by subst s'; read_off).
  assert (Hmv : moves t s s') by (subst s'; solve_moves).
  eapply (after_same NR_CPUS HN s g t Hmi Hr s' l); rewrite ?E, ?E'; try done; try (by left).
  - by right.
  - destruct next; by right.
  - by destruct next.
  - unfold fresh_ok. rewrite E'. by destruct next.
  - intros l' Hne. subst s'. read_off. by rewrite fn_lookup_insert_ne.
  - apply (move_set_locked NR_CPUS ltac:(lia) s s' l (g l) t Hno (Hli l) Hmv i next E E'); try done. subst s'. by read_off.
Qed.

Lemma wait_next_ok l i : at_pc s t = Wait_next l i -> returns (context_step NR_CPUS t s) (after NR_CPUS t s g).
Proof using HN Hmi Hr.
  intros E. pose proof Hmi as (Hno & Hli & Hnd).
  pose proof (own_pc_ok l) as Hok. unfold pc_ok in Hok. rewrite E in Hok. destruct (Hok eq_refl) as [Hc Hj].
  unfold context_step. rewrite E, rd_own_node, bind_ret by (by rewrite E). apply returns_ret.
  destruct (mcs_next (node s (t.1, i))) as [n|] eqn:En; [|apply after_stay].
  apply after_first with l i; rewrite ?E; try done. intros s' E' Hmv Hn. unfold pc_ok. rewrite E'. intros _. split.
  - intros u Hu. rewrite (moves_pc _ _ _ Hmv); [by apply Hc|]. intros ->.
    apply (inv_pender _ _ _ (Hli l)) in Hu. by rewrite E in Hu.
  - unfold next_of. by rewrite Hn.
Qed.

Lemma pass_ok l i next : at_pc s t = Pass l i next -> returns (context_step NR_CPUS t s) (after NR_CPUS t s g).
Proof using HN Hmi Hr.
  intros E. pose proof Hmi as (Hno & Hli & Hnd). unfold context_step. rewrite E.
  set (s' := goto t (Node_dec l i) (set_node next (mk_mcs 1 (mcs_next (node s next))) s)).
  assert (Hmv : moves t s s') by (subst s'; solve_moves).
  destruct (move_pass NR_CPUS s s' l (g l) t Hno (Hli l) Hmv i next E) as (b & q & Eq & En & Hv & Hstep).
  unfold rd_node. rewrite decide_True, bind_ret, wr_valid, bind_ret by done. fold s'. apply returns_ret.
  assert (E' : at_pc s' t = Node_dec l i) by (by subst s'; read_off).
  assert (Hn : node s' = <[next := mk_mcs 1 (next_of s b)]> (node s)) by (subst s'; read_off; by rewrite En).
  assert (Hb : b ∈ queue (g l)) by (rewrite Eq; right; constructor).
  pose proof (entry_uses s l (g l) (Hli l) b Hb) as Hbu.
  assert (Hbq : queued_of (at_pc s b.1) = Some (l, b.2)) by (apply (inv_queued _ _ _ (Hli l)); by destruct b).
  destruct (Hstep E') as (_ & H1 & H2); try done.
  apply (after_move NR_CPUS s s' g t l (mk_ghost (owner (g l)) (pender (g l)) (b :: q))); rewrite ?E, ?E'; try done; try by right.
  - apply (node_inv_move NR_CPUS s s' t); try done.
    + change (count s' t.1) with (count s t.1). rewrite (top_count NR_CPUS) by done. unfold uses_one. by rewrite E', E.
    + rewrite E'. intros j Hj. apply (inv_index _ _ Hno). by rewrite E.
    + unfold fresh_ok. by rewrite E'.
    + intros u j Hne Hj Hjq. rewrite Hn, En, fn_lookup_insert_ne; [done|]. intros Ee.
      assert ((u, j) = b) as <- by (by apply (node_of_inj NR_CPUS s)). simpl in Hbq. by rewrite Hbq in Hjq.
  - apply Hnd.
  - intros l' e Hne He. rewrite Hn, En, fn_lookup_insert_ne; [done|]. intros Ee.
    assert (e = b) as -> by (apply (node_of_inj NR_CPUS s); [done|by apply (entry_uses s l' (g l'))|done|done]).
    destruct b as [u j]. apply (inv_queued _ _ _ (Hli l')) in He. simpl in Hbq. rewrite Hbq in He. by simplify_eq.
  - split; [done|]. rewrite H2. apply fifo_skip.
Qed.

(** ** The fast paths *)

Lemma queue_cas_ok l i : at_pc s t = Queue_cas l i -> returns (context_step NR_CPUS t s) (after NR_CPUS t s g).
Proof using HN Hmi Hr.
  intros E. pose proof Hmi as (Hno & Hli & Hnd). unfold context_step. rewrite E. apply returns_ret.
  destruct (Z.eqb_spec (word s l) 0) as [H0|H0].
  - set (s' := goto t _ _). assert (E' : at_pc s' t = Node_dec l i) by (by subst s'; read_off).
    assert (Hmv : moves t s s') by (subst s'; solve_moves).
    pose proof (word_unheld NR_CPUS ltac:(lia) s l (g l) Hno (Hli l) H0) as (Eo & _ & _).
    eapply (after_same NR_CPUS HN s g t Hmi Hr s' l); rewrite ?E, ?E'; try done; try (by right); try by left.
    + unfold fresh_ok. by rewrite E'.
    + intros l' Hne. subst s'. read_off. by rewrite fn_lookup_insert_ne.
    + apply (move_take NR_CPUS ltac:(lia)); rewrite ?E, ?E'; try done.
      * subst s'. by read_off.
      * right. by rewrite E'.
      * intros [Hl _]. by apply (free_not_held NR_CPUS s g t Hmi l Eo).
  - apply step_goto_idle with l; rewrite ?E; try done; try by right.
    intros s' E' Hn. pose proof (inv_fresh _ _ Hno t) as Hf. unfold fresh_ok in *. rewrite E in Hf. by rewrite E', Hn.
Qed.

Lemma fast_path_ok l :
  at_pc s t = Lock_cas l \/ at_pc s t = Try_cas l -> returns (context_step NR_CPUS t s) (after NR_CPUS t s g).
Proof using HN Hmi Hr.
  intros E. pose proof (slow_idle l (word s l)) as (H1 & H2 & H3 & H4).
  destruct E as [E|E]; unfold context_step; rewrite E; apply returns_ret;
    (destruct (Z.eqb_spec (word s l) 0) as [H0|H0]; [apply step_take; rewrite ?E; try done; by right|]).
  - apply step_goto_idle with l; rewrite ?E; try done; [by right|]. intros s' E' _. by apply (fresh_other _ H4).
  - apply step_goto_idle with l; rewrite ?E; try done; [by right|by left|].
    intros s' E' _. unfold fresh_ok. by rewrite E'.
Qed.

Lemma read_ok l i :
  at_pc s t = Try_read l \/ at_pc s t = Queue_read l i -> returns (context_step NR_CPUS t s) (after NR_CPUS t s g).
Proof using HN Hmi Hr.
  intros E. pose proof Hmi as (Hno & Hli & Hnd). pose proof (inv_fresh _ _ Hno t) as Hf. unfold fresh_ok in Hf.
  destruct E as [E|E]; unfold context_step; rewrite E in *; apply returns_ret; destruct (word s l =? 0);
    apply step_goto_idle with l; rewrite ?E; try done; try (by right); try (by left);
    intros s' E' Hn; unfold fresh_ok; by rewrite E', ?Hn.
Qed.

Lemma spin_pending_ok l cnt : at_pc s t = Spin_pending l cnt -> returns (context_step NR_CPUS t s) (after NR_CPUS t s g).
Proof using HN Hmi Hr.
  intros E. unfold context_step. rewrite E. apply returns_ret. set (p' := if _ || _ then _ else _).
  assert (Hp : about l p' /\ no_role l p' /\ uses p' = None /\
    knows_nothing p').
  { pose proof (inv_fresh _ _ (proj1 Hmi) t) as Hf. unfold fresh_ok in Hf. rewrite E in Hf.
    subst p'. unfold slow_decide. destruct (Z.eqb_spec cnt 0); repeat case_match; (split_and!; [by right|split_and!; done|done|simpl; try done; lia]). }
  destruct Hp as (H1 & H2 & H3 & H4).
  apply step_goto_idle with l; rewrite ?E; try done; [by right|]. intros s' E' _. by apply (fresh_other _ H4).
Qed.

Lemma context_step_ok : at_pc s t <> Running -> returns (context_step NR_CPUS t s) (after NR_CPUS t s g).
Proof using HN Hmi Hr.
  destruct (at_pc s t) eqn:E; intros Hne; [done|..].
  all: eauto using fetch_pending_ok, clear_pending_ok, take_pending_ok, wait_unlocked_ok, node_count_ok, node_dec_ok,
    xchg_tail_ok, link_prev_ok, wait_node_ok, read_next_ok, wait_head_ok, spin_claim_ok, set_locked_ok, wait_next_ok,
    pass_ok, queue_cas_ok, spin_pending_ok.
  all: first [by eapply (read_ok l 0); eauto|by eapply read_ok; eauto|by eapply fast_path_ok; eauto|by eapply node_init_ok; eauto].
Qed.
End run.

(** ** Events *)

(** The context an event belongs to. *)
Definition actor (e : event) (s : machine) : context :=
  match e with
  | Ev_run t | Ev_lock t _ | Ev_trylock t _ | Ev_unlock t _ => t
  | Ev_irq c | Ev_iret c => (c, level s c)
  end.

Section events.
Context (NR_CPUS : Z) (HN : 0 < NR_CPUS < 2 ^ 14).

Lemma spin_unlock_ok s g t l :
  machine_inv NR_CPUS s g -> runs NR_CPUS t s -> at_pc s t = Running -> l ∈ held s t ->
  after NR_CPUS t s g (set_held t (filter (.≠ l) (held s t)) (set_word l (store_locked (word s l) 0) s)).
Proof using HN.
  intros Hmi Hr E Hl. pose proof Hmi as (Hno & Hli & Hnd). set (s' := set_held _ _ _).
  assert (Hmv : moves t s s') by (subst s'; solve_moves).
  assert (E' : at_pc s' t = Running) by done.
  assert (Hh : held s' t = filter (.≠ l) (held s t)) by (by subst s'; read_off).
  apply (after_move NR_CPUS s s' g t l (mk_ghost None (pender (g l)) (queue (g l)))); try done; try by left.
  - apply (node_inv_same NR_CPUS s s' t); try done. unfold fresh_ok. by rewrite E'.
  - intros l' Hne. subst s'. read_off. by rewrite fn_lookup_insert_ne.
  - intros l' Hne. rewrite Hh, list_elem_of_filter. naive_solver.
  - rewrite Hh. apply NoDup_filter, Hnd.
  - apply (move_release NR_CPUS ltac:(lia)); try done.
    + subst s'. by read_off.
    + rewrite Hh, list_elem_of_filter. naive_solver.
Qed.

Lemma call_ok s g t l p :
  machine_inv NR_CPUS s g -> runs NR_CPUS t s -> at_pc s t = Running -> p = Lock_cas l \/ p = Try_read l ->
  after NR_CPUS t s g (goto t p s).
Proof using HN.
  intros Hmi Hr E Hp. apply (step_goto_idle NR_CPUS HN s g t Hmi Hr l); rewrite ?E; try done.
  - by left.
  - destruct Hp as [-> | ->]; by right.
  - by destruct Hp as [-> | ->].
  - intros s' E' _. unfold fresh_ok. rewrite E'. by destruct Hp as [-> | ->].
  - by destruct Hp as [-> | ->].
Qed.

Lemma level_ok s g t c n :
  machine_inv NR_CPUS s g -> (n <= 3)%nat ->
  (forall u, u.1 = c -> at_pc s u <> Running \/ held s u <> [] -> (u.2 <= n)%nat) ->
  after NR_CPUS t s g (set_level c n s).
Proof using.
  intros (Hno & Hli & Hnd) Hn Hact. exists g. split; [split; [|split]|].
  - destruct Hno as [H1 H2 H3 H4 H5]. split; try done.
    + intros u i Hu. rewrite (used_below_ext s); [|done]. by apply H2.
    + intros c'. simpl. destruct (decide (c' = c)) as [->|Hne]; [by rewrite fn_lookup_insert|].
      rewrite fn_lookup_insert_ne by done. apply H3.
    + intros u Hu. simpl in *. destruct (H5 u Hu) as [Hv Hlu]. split; [done|].
      destruct (decide (u.1 = c)) as [E|Hne]; [rewrite E, fn_lookup_insert; by apply Hact|].
      by rewrite fn_lookup_insert_ne.
  - intros l. destruct (Hli l). split; try done. by apply (queue_ok_ext s).
  - done.
  - intros l. apply fifo_skip.
Qed.

Lemma fire_ok s g e :
  machine_inv NR_CPUS s g ->
  returns (fire NR_CPUS e s) (fun r => forall s', r = Some s' -> after NR_CPUS (actor e s) s g s').
Proof using HN.
  intros Hmi. pose proof Hmi as (Hno & Hli & Hnd). destruct e as [t|t l|t l|t l|c|c]; simpl.
  - case_decide as Hr; [|done].
    eapply returns_bind; [apply (context_step_ok NR_CPUS HN s g t Hmi); apply Hr|]. intros s1 H1.
    apply returns_ret. by intros s' [= <-].
  - case_decide as Hr; [|done]. intros s' [= <-]. apply (call_ok s g t l); tauto.
  - case_decide as Hr; [|done]. intros s' [= <-]. apply (call_ok s g t l); tauto.
  - case_decide as Hr; [|done]. intros s' [= <-]. destruct Hr as (? & ? & ?). by apply spin_unlock_ok.
  - case_decide as Hr; [|done]. intros s' [= <-]. apply level_ok; [done|lia|].
    intros u <- Hu. destruct (inv_active _ _ Hno u Hu). lia.
  - case_decide as Hr; [|done]. intros s' [= <-]. destruct Hr as (Hc & Hlv & Hpc & Hh).
    pose proof (inv_level _ _ Hno c). apply level_ok; [done|lia|].
    intros u <- Hu. destruct (inv_active _ _ Hno u Hu).
    destruct (decide (u.2 = level s u.1)) as [E|Hne]; [|lia].
    assert (u = (u.1, level s u.1)) as E' by (destruct u; simpl in *; congruence).
    rewrite <- E' in *. destruct Hu; done.
Qed.

Definition ghost_init : nat -> ghost := fun _ => mk_ghost None None [].

Lemma init_ok : machine_inv NR_CPUS machine_init ghost_init.
Proof using.
  split; [|split].
  - split; try done; simpl; [lia|]. by intros t [?|?].
  - intros l. split; try done; simpl.
    + intros t. split; [|done]. intros [H|H]; [by apply not_elem_of_nil in H|done].
    + intros t [H _]. by apply not_elem_of_nil in H.
    + intros t i. split; [done|]. by intros ?%not_elem_of_nil.
    + constructor.
  - intros t. constructor.
Qed.

Lemma step_inv e s s' g : machine_inv NR_CPUS s g -> step NR_CPUS e s s' -> after NR_CPUS (actor e s) s g s'.
Proof using HN.
  intros Hmi Hs. pose proof (fire_ok s g e Hmi) as H. unfold step in Hs. rewrite Hs in H. simpl in H. by apply H.
Qed.

Lemma spin_reachable_inv s : reachable NR_CPUS s -> exists g, machine_inv NR_CPUS s g.
Proof using HN.
  intros Hs. apply (rtc_ind_r (fun s => exists g, machine_inv NR_CPUS s g) machine_init) in Hs; [done| |].
  - exists ghost_init. apply init_ok.
  - intros s1 s2 _ [e He] [g Hg]. destruct (step_inv e s1 s2 g Hg He) as (g' & Hg' & _). by exists g'.
Qed.
End events.
