(* ===== verification/QspinLive.v ===== *)
(** * The queued spin lock: who wants it gets it

    An infinite run in which every context inside a function of the lock goes
    on taking steps, and every context that holds the lock releases it some
    time.  Nothing is assumed of other locks, of interrupts, or of how often a
    context is delayed.  Then every context that asks for the lock acquires it.

    Until a context is waiting it makes progress by its own steps.  From then
    on the number of contexts before it, and whether the lock is held, can only
    decrease, and each time some context is bound to decrease them. *)
From stdpp Require Import base numbers list option functions relations.
From Stdlib Require Import ZArith Lia.
From S2P Require Import Prelude Qspinlock QspinInv QspinMoves QspinRun.

(** ** Single steps *)

(** Program points at which a context waits for the lock. *)
Definition waits (l : nat) (p : pc) : Prop :=
  match p with
  | Wait_unlocked l' | Take_pending l' | Link_prev l' _ _ | Wait_node l' _ | Read_next l' _
  | Wait_head l' _ _ | Claim l' _ _ _ | Set_locked l' _ _ => l' = l
  | _ => False
  end.

(** A bound on the own steps before a context waits or has the lock. *)
Definition before_rank (p : pc) : option nat :=
  match p with
  | Lock_cas _ => Some 20%nat
  | Spin_pending _ cnt => Some (12 + Z.to_nat cnt)%nat
  | Fetch_pending _ => Some 11%nat
  | Clear_pending _ => Some 10%nat
  | Node_count _ => Some 9%nat
  | Node_locked _ _ => Some 8%nat
  | Node_next _ _ => Some 7%nat
  | Queue_read _ _ => Some 6%nat
  | Queue_cas _ _ => Some 5%nat
  | Xchg_tail _ _ => Some 4%nat
  | _ => None
  end.

Ltac run_step H E :=
  unfold context_step in H; rewrite E in H; cbn [fst snd] in H;
  unfold rd_node, wr_node in H; repeat (case_decide; [|done]); rewrite ?bind_ret in H;
  repeat (case_decide; [|done]); rewrite ?bind_ret in H.

Section steps.
Context (NR_CPUS : Z).

Lemma run_event_inv t s s' : step NR_CPUS (Ev_run t) s s' ->
  runs NR_CPUS t s /\ at_pc s t <> Running /\ context_step NR_CPUS t s = Ret s'.
Proof.
  unfold step. simpl. case_decide as H; [|done]. destruct (context_step NR_CPUS t s); simpl; intros; simplify_eq.
  tauto.
Qed.

(** A context moves only by its own steps. *)
Lemma context_step_others t u s s' : context_step NR_CPUS t s = Ret s' -> u <> t ->
  at_pc s' u = at_pc s u /\ held s' u = held s u.
Proof.
  intros H Hu. assert (Hg : forall p s0, at_pc s0 u = at_pc s u -> at_pc (goto t p s0) u = at_pc s u).
  { intros p s0 E. simpl. by rewrite fn_lookup_insert_ne. }
  destruct (at_pc s t) eqn:E; run_step H E; repeat case_match; simplify_eq; read_off;
    rewrite ?fn_lookup_insert_ne by done; done.
Qed.

Lemma step_others e s s' t : step NR_CPUS e s s' -> at_pc s t <> Running -> e <> Ev_run t ->
  at_pc s' t = at_pc s t /\ held s' t = held s t.
Proof.
  intros Hs Hp He. destruct e as [u|u l|u l|u l|c|c].
  - apply run_event_inv in Hs as (_ & _ & Hs). apply (context_step_others u); [done|congruence].
  - unfold step, fire in Hs. case_decide; simplify_eq. read_off.
    rewrite fn_lookup_insert_ne; [done|]. intros ->. tauto.
  - unfold step, fire in Hs. case_decide; simplify_eq. read_off.
    rewrite fn_lookup_insert_ne; [done|]. intros ->. tauto.
  - unfold step, fire in Hs. case_decide; simplify_eq. read_off.
    rewrite fn_lookup_insert_ne; [done|]. intros ->. tauto.
  - unfold step, fire in Hs. by case_decide; simplify_eq.
  - unfold step, fire in Hs. by case_decide; simplify_eq.
Qed.

(** Where a step leads before the context waits. *)
Lemma before_step l t s s' k :
  fresh_ok s t -> about l (at_pc s t) -> before_rank (at_pc s t) = Some k -> context_step NR_CPUS t s = Ret s' ->
  (about l (at_pc s' t) /\ exists k', (k' < k)%nat /\ before_rank (at_pc s' t) = Some k') \/
  waits l (at_pc s' t) \/ owner_of (at_pc s' t) = Some l \/ l ∈ held s' t.
Proof.
  intros Hf Ha Hk H. unfold about, fresh_ok in *. destruct Ha as [Ha|Ha]; [by rewrite Ha in Hk|].
  destruct (at_pc s t) eqn:E; simpl in Hk, Ha; simplify_eq; run_step H E;
    unfold queued_spin_lock_slowpath, slow_decide, xchg_tail in H;
    repeat case_match; simplify_eq; unfold acquired; cbn [at_pc held goto set_held];
    rewrite ?fn_lookup_insert; simpl in *.
  all: try (right; right; right; constructor).
  all: try (right; right; left; reflexivity).
  all: try (right; left; reflexivity).
  all: left; (split; [by right|]).
  all: try (eexists; split; [|reflexivity]; lia).
  eexists. split; [|reflexivity]. unfold _Q_PENDING_LOOPS. lia.
Qed.
(** Once it is linked, a node stays linked. *)
Lemma next_stable s t u s' i :
  node_inv NR_CPUS s -> uses (at_pc s t) = Some i -> u <> t -> context_step NR_CPUS u s = Ret s' ->
  mcs_next (node s (t.1, i)) <> None -> mcs_next (node s' (t.1, i)) <> None.
Proof.
  intros Hno Hu Hne H Hn.
  assert (Hother : forall j, uses (at_pc s u) = Some j -> (t.1, i) <> (u.1, j)).
  { intros j Hj [= E ->]. apply Hne. by apply (uses_inj NR_CPUS s u t j). }
  assert (Hw : forall n m s0, node s0 = <[n := m]> (node s) -> ((t.1, i) = n -> mcs_next m <> None) ->
            mcs_next (node s0 (t.1, i)) <> None).
  { intros n m s0 E Hm. rewrite E. destruct (decide ((t.1, i) = n)) as [<-|En].
    - rewrite fn_lookup_insert. by apply Hm.
    - by rewrite fn_lookup_insert_ne. }
  destruct (at_pc s u) eqn:E; run_step H E; repeat case_match; simplify_eq; try exact Hn.
  - eapply Hw; [reflexivity|]. intros En. by destruct (Hother idx eq_refl).
  - eapply Hw; [reflexivity|]. intros En. by destruct (Hother idx eq_refl).
  - eapply Hw; [reflexivity|]. done.
  - eapply Hw; [reflexivity|]. by intros <-.
Qed.

(** Steps of an owner that is still in the lock function. *)
Lemma wait_next_step l s t i s' :
  at_pc s t = Wait_next l i -> context_step NR_CPUS t s = Ret s' ->
  match mcs_next (node s (t.1, i)) with Some n => at_pc s' t = Pass l i n | None => s' = s end.
Proof.
  intros E H. run_step H E. destruct (mcs_next (node s (t.1, i))); simplify_eq; [|done].
  read_off. done.
Qed.

Lemma pass_step l s t i n s' :
  at_pc s t = Pass l i n -> context_step NR_CPUS t s = Ret s' -> at_pc s' t = Node_dec l i.
Proof. intros E H. run_step H E. simplify_eq. by read_off. Qed.

Lemma node_dec_step l s t i s' :
  at_pc s t = Node_dec l i -> context_step NR_CPUS t s = Ret s' -> l ∈ held s' t.
Proof. intros E H. run_step H E. simplify_eq. read_off. constructor. Qed.

(** A context links its node behind the one it found as the tail. *)
Lemma link_prev_step l s t i old s' :
  at_pc s t = Link_prev l i old -> context_step NR_CPUS t s = Ret s' ->
  at_pc s' t = Wait_node l i /\ mcs_next (node s' (decode_tail old)) = Some (t.1, i).
Proof. intros E H. run_step H E. simplify_eq. read_off. done. Qed.

(** While the lock is owned, a context that is about to queue goes on to. *)
Lemma joiner_step l s t s' k :
  word s l <> 0 -> joiner_of (at_pc s t) = Some l -> before_rank (at_pc s t) = Some k ->
  context_step NR_CPUS t s = Ret s' ->
  (joiner_of (at_pc s' t) = Some l /\ exists k', (k' < k)%nat /\ before_rank (at_pc s' t) = Some k') \/
  exists i, queued_of (at_pc s' t) = Some (l, i).
Proof.
  intros Hw Hj Hk H. destruct (at_pc s t) eqn:E; simpl in Hj, Hk; simplify_eq; run_step H E;
    unfold xchg_tail in H; rewrite ?(proj2 (Z.eqb_neq _ _) Hw) in H; repeat case_match; simplify_eq; read_off;
    first [by right; eexists|left; split; [done|]; eexists; split; [|reflexivity]; lia].
Qed.
End steps.

(** ** Contexts that will set the pending bit *)

#[global] Instance event_eq_dec : EqDecision event.
Proof. solve_decision. Defined.

Section fetchers.
Context (NR_CPUS : Z) (HN : 0 < NR_CPUS < 2 ^ 14).

Definition contexts : list context :=
  c ← seqZ 0 NR_CPUS; n ← [0; 1; 2; 3]%nat; [(c, n)].

Lemma contexts_in s t : node_inv NR_CPUS s -> at_pc s t <> Running -> t ∈ contexts.
Proof using.
  clear HN. intros H Hp. destruct (inv_active _ _ H t) as [Hc Hn]; [by left|]. pose proof (inv_level _ _ H t.1).
  unfold contexts. apply list_elem_of_bind. exists t.1. split; [|apply elem_of_seqZ; lia].
  apply list_elem_of_bind. exists t.2. split; [destruct t; constructor|].
  destruct t as [c n]. simpl in *. do 4 (destruct n as [|n]; [repeat constructor|]). lia.
Qed.

Definition fetchers (s : machine) (l : nat) : nat := length (filter (fun t => at_pc s t = Fetch_pending l) contexts).

(** Past the first access, a context moves by its own steps only. *)
Lemma came_by_run e s s' u :
  step NR_CPUS e s s' -> at_pc s' u <> at_pc s u -> (forall l, at_pc s' u <> Lock_cas l /\ at_pc s' u <> Try_read l) ->
  e = Ev_run u.
Proof using.
  clear HN. intros Hs Hne Hp. destruct e as [v|v l|v l|v l|c|c].
  - destruct (decide (v = u)) as [->|Hv]; [done|]. apply run_event_inv in Hs as (_ & _ & Hs).
    destruct (context_step_others NR_CPUS v u _ _ Hs) as [E _]; [congruence|done].
  - unfold step, fire in Hs. case_decide; [|done]. injection Hs as <-. exfalso. revert Hne Hp. cbn [at_pc goto].
    destruct (decide (u = v)) as [->|Hu]; [rewrite fn_lookup_insert|by rewrite fn_lookup_insert_ne].
    intros _ Hp. by destruct (Hp l).
  - unfold step, fire in Hs. case_decide; [|done]. injection Hs as <-. exfalso. revert Hne Hp. cbn [at_pc goto].
    destruct (decide (u = v)) as [->|Hu]; [rewrite fn_lookup_insert|by rewrite fn_lookup_insert_ne].
    intros _ Hp. by destruct (Hp l).
  - unfold step, fire in Hs. case_decide; [|done]. by injection Hs as <-.
  - unfold step, fire in Hs. case_decide; [|done]. by injection Hs as <-.
  - unfold step, fire in Hs. case_decide; [|done]. by injection Hs as <-.
Qed.

Lemma run_step_of e s s' u p :
  step NR_CPUS e s s' -> at_pc s' u = p -> at_pc s u <> p -> (forall l, p <> Lock_cas l /\ p <> Try_read l) ->
  context_step NR_CPUS u s = Ret s'.
Proof using.
  clear HN. intros Hs <- Hne Hp. assert (e = Ev_run u) as -> by (by apply (came_by_run e s s')).
  by apply run_event_inv in Hs as (_ & _ & Hs).
Qed.

(** With a queue, nobody else comes to set the pending bit. *)
Lemma no_new_fetch e s s' g l u :
  machine_inv NR_CPUS s g -> queue (g l) <> [] -> step NR_CPUS e s s' ->
  at_pc s' u = Fetch_pending l -> at_pc s u = Fetch_pending l.
Proof.
  intros Hmi Hq Hs E'. destruct (decide (at_pc s u = Fetch_pending l)) as [|Hne]; [done|]. exfalso.
  pose proof (run_step_of e s s' u _ Hs E' Hne ltac:(done)) as H.
  destruct (word_fields NR_CPUS HN s g Hmi l) as (Ew & Htl & Hq0). rewrite <- Hq0 in Hq. unfold halfword in Htl.
  assert (Hslow : slow_decide l (word s l) <> Fetch_pending l).
  { unfold slow_decide. rewrite Ew, qword_contended by done.
    by rewrite (proj2 (Z.eqb_neq (_ + _) 0)) by (destruct (bool_decide (is_Some (pender (g l)))); simpl; lia). }
  assert (Hl : forall l0 v, slow_decide l0 v = Fetch_pending l -> l0 = l).
  { intros l0 v E. unfold slow_decide in E. case_match; by simplify_eq. }
  destruct (at_pc s u) eqn:Eu; run_step H Eu; unfold xchg_tail, queued_spin_lock_slowpath in H;
    repeat case_match; simplify_eq; revert E'; read_off; intros E'; simplify_eq.
  all: first [congruence|assert (l0 = l) as -> by (by eapply Hl); done].
Qed.

(** The pending bit is set by a context that fetches it. *)
Lemma pender_fetched e s s' l u :
  step NR_CPUS e s s' -> pender_of (at_pc s' u) = Some l -> pender_of (at_pc s u) <> Some l ->
  at_pc s u = Fetch_pending l /\ at_pc s' u <> Fetch_pending l.
Proof using.
  clear HN. intros Hs E' Hne.
  assert (H : context_step NR_CPUS u s = Ret s').
  { apply (run_step_of e s s' u (at_pc s' u) Hs eq_refl); [congruence|].
    intros l0. split; intros E; by rewrite E in E'. }
  split; [|intros E; by rewrite E in E'].
  destruct (at_pc s u) eqn:Eu; run_step H Eu; unfold xchg_tail, queued_spin_lock_slowpath, slow_decide in H;
    repeat case_match; simplify_eq; revert E'; read_off; simpl; intros E'; simplify_eq; try done; congruence.
Qed.

Lemma filter_length_le {A} (P Q : A -> Prop) `{!forall x, Decision (P x), !forall x, Decision (Q x)} (xs : list A) :
  (forall x, Q x -> P x) -> (length (filter Q xs) <= length (filter P xs))%nat.
Proof using.
  clear. intros HQP. induction xs as [|x xs IH]; [done|]. rewrite !filter_cons.
  repeat case_decide; simpl; try lia. exfalso. auto.
Qed.

Lemma filter_length_lt {A} (P Q : A -> Prop) `{!forall x, Decision (P x), !forall x, Decision (Q x)} (xs : list A) x :
  (forall x, Q x -> P x) -> x ∈ xs -> P x -> ~ Q x -> (length (filter Q xs) < length (filter P xs))%nat.
Proof using.
  clear. intros HQP Hx HP HQ. induction xs as [|y xs IH]; [by apply not_elem_of_nil in Hx|].
  rewrite !filter_cons. pose proof (filter_length_le P Q xs HQP) as Hle. apply elem_of_cons in Hx as [<-|Hx].
  - rewrite decide_False, decide_True by done. simpl. lia.
  - specialize (IH Hx). repeat case_decide; simpl; try lia. exfalso. auto.
Qed.

Lemma fetchers_le e s s' g l :
  machine_inv NR_CPUS s g -> queue (g l) <> [] -> step NR_CPUS e s s' -> (fetchers s' l <= fetchers s l)%nat.
Proof. intros Hmi Hq Hs. apply filter_length_le. intros u. by apply (no_new_fetch e s s' g l u). Qed.

Lemma fetchers_lt e s s' g l u :
  machine_inv NR_CPUS s g -> queue (g l) <> [] -> step NR_CPUS e s s' ->
  pender_of (at_pc s' u) = Some l -> pender_of (at_pc s u) <> Some l -> (fetchers s' l < fetchers s l)%nat.
Proof.
  intros Hmi Hq Hs Hp Hp'. destruct (pender_fetched e s s' l u Hs Hp Hp') as [E E'].
  apply filter_length_lt with u; [|apply (contexts_in s); [apply Hmi|by rewrite E]|done|done].
  intros v. by apply (no_new_fetch e s s' g l v).
Qed.
End fetchers.

(** ** What the abstract lock says of a context *)

Section abstract.
Context (s : machine) (g : ghost) (l : nat) (Hinv : lock_inv s l g).

Lemma queue_waits_mem t q : t ∈ queue_waits s q <-> exists i, (t, i) ∈ q /\ owner_of (at_pc s t) = None.
Proof.
  clear. unfold queue_waits. rewrite list_elem_of_fmap. split.
  - intros ([u i] & -> & He%list_elem_of_filter). exists i. simpl in *. tauto.
  - intros (i & Hi & Ho). exists (t, i). split; [done|]. by apply list_elem_of_filter.
Qed.

Lemma waits_queued p : waits l p <-> p = Wait_unlocked l \/ p = Take_pending l \/
  exists i, queued_of p = Some (l, i) /\ owner_of p = None.
Proof.
  clear. split.
  - destruct p; simpl; try done; intros ->; eauto 10.
  - intros [->|[->|(i & Hq & Ho)]]; [done..|]. destruct p; simpl in *; by simplify_eq.
Qed.

Lemma waiting_iff t : t ∈ waiting (lock_of_ghost s g) <-> waits l (at_pc s t).
Proof using Hinv.
  unfold lock_of_ghost. simpl. rewrite elem_of_app, queue_waits_mem, waits_queued.
  assert (Hp : t ∈ pending_waits s g <-> at_pc s t = Wait_unlocked l \/ at_pc s t = Take_pending l).
  { unfold pending_waits. pose proof (inv_pender _ _ _ Hinv) as Hpd. split.
    - destruct (pender g) as [u|]; [|by intros ?%not_elem_of_nil].
      pose proof (proj2 (Hpd u) eq_refl) as Eu. destruct (at_pc s u) eqn:E; simpl in Eu; simplify_eq; simpl;
        try (by intros ?%not_elem_of_nil); intros ->%list_elem_of_singleton; rewrite E; auto.
    - intros E. assert (pender g = Some t) as -> by (apply Hpd; by destruct E as [-> | ->]).
      destruct E as [-> | ->]; constructor. }
  rewrite Hp. setoid_rewrite <- (inv_queued _ _ _ Hinv). tauto.
Qed.

Lemma holder_iff t : holder (lock_of_ghost s g) = Some t <-> owns s l t.
Proof using Hinv. symmetry. apply Hinv. Qed.

(** When nobody owns the lock, the first who waits is the one with the pending
    bit, or else the first of the queue, and the pending bit is about to be
    cleared. *)
Lemma first_waiting t w : lock_of_ghost s g = mk_fifo None (t :: w) ->
  (at_pc s t = Wait_unlocked l \/ at_pc s t = Take_pending l) \/
  exists i q, queue g = (t, i) :: q /\ heading (at_pc s t) (locked_of s (t, i)) /\ queued_of (at_pc s t) = Some (l, i) /\
    owner_of (at_pc s t) = None.
Proof using Hinv.
  intros E. unfold lock_of_ghost in E. injection E as Eo Ew.
  assert (Hq : queue_waits s (queue g) = t :: w -> exists i q, queue g = (t, i) :: q /\
    heading (at_pc s t) (locked_of s (t, i)) /\ queued_of (at_pc s t) = Some (l, i) /\ owner_of (at_pc s t) = None).
  { clear Ew. intros Ew. pose proof (inv_queue _ _ _ Hinv) as Hqo.
    destruct (queue g) as [|[u i] q] eqn:Eq; [done|]. destruct Hqo as [Hh _]. simpl in Hh.
    assert (Hu : queued_of (at_pc s u) = Some (l, i)) by (apply (inv_queued _ _ _ Hinv); rewrite Eq; constructor).
    assert (Hn : owner_of (at_pc s u) = None).
    { destruct (owner_of (at_pc s u)) as [l'|] eqn:El; [|done].
      assert (l' = l) as -> by (destruct (at_pc s u); simpl in *; by simplify_eq).
      assert (owner g = Some u) by (apply (inv_owner _ _ _ Hinv); by right). congruence. }
    rewrite queue_waits_cons in Ew. simpl in Ew. rewrite decide_True in Ew by done. simpl in Ew. simplify_eq.
    by exists i, q. }
  unfold pending_waits in Ew. destruct (pender g) as [u|] eqn:Eu; [|by right; apply Hq].
  pose proof (proj2 (inv_pender _ _ _ Hinv u) Eu) as Hu.
  destruct (at_pc s u) eqn:E; simpl in Hu; simplify_eq; simpl in Ew; [by right; apply Hq|by left; left; simplify_eq|].
  left; right; by simplify_eq.
Qed.
End abstract.

(** ** Runs *)

Section live.
Context (NR_CPUS : Z) (HN : 0 < NR_CPUS < 2 ^ 14).
Context (sigma : nat -> machine) (ev : nat -> event) (l : nat).
Context (Hstart : reachable NR_CPUS (sigma O)).
Context (Hstep : forall i, step NR_CPUS (ev i) (sigma i) (sigma (S i))).
Context (fair_run : forall i t, lock_of (at_pc (sigma i) t) = Some l -> exists j, (i <= j)%nat /\ ev j = Ev_run t).
Context (fair_release : forall i t, l ∈ held (sigma i) t -> exists j, (i <= j)%nat /\ ev j = Ev_unlock t l).

(** An abstract state of the lock at time [i]. *)
Definition abstract (i : nat) (a : fifo_lock) : Prop :=
  exists g, machine_inv NR_CPUS (sigma i) g /\ a = lock_of_ghost (sigma i) (g l).

Lemma abstract_step i a : abstract i a -> exists a', abstract (S i) a' /\ fifo_step (actor (ev i) (sigma i)) a a'.
Proof using HN Hstep.
  intros (g & Hg & ->). destruct (step_inv NR_CPUS HN _ _ _ g Hg (Hstep i)) as (g' & Hg' & Hf).
  exists (lock_of_ghost (sigma (S i)) (g' l)). split; [by exists g'|apply Hf].
Qed.

Lemma inv_exists i : exists g, machine_inv NR_CPUS (sigma i) g.
Proof using HN Hstart Hstep.
  induction i as [|i [g Hg]]; [by apply (spin_reachable_inv NR_CPUS HN)|].
  destruct (step_inv NR_CPUS HN _ _ _ g Hg (Hstep i)) as (g' & Hg' & _). by exists g'.
Qed.

Lemma abstract_holder i a t : abstract i a -> holder a = Some t <-> owns (sigma i) l t.
Proof using. intros (g & Hg & ->). apply holder_iff, Hg. Qed.

Lemma abstract_waiting i a t : abstract i a -> t ∈ waiting a <-> waits l (at_pc (sigma i) t).
Proof using. intros (g & Hg & ->). apply waiting_iff, Hg. Qed.

(** A context inside the lock gets to a step; until then [P] stays or [Q] comes. *)
Lemma ensures (P Q : nat -> Prop) t i :
  (forall j, P j -> lock_of (at_pc (sigma j) t) = Some l) ->
  (forall j, P j -> ev j <> Ev_run t -> P (S j) \/ Q (S j)) ->
  (forall j, P j -> ev j = Ev_run t -> Q (S j)) -> P i -> exists j, (i <= j)%nat /\ Q j.
Proof using fair_run.
  intros Hl Hother Hown Hi. destruct (fair_run i t (Hl i Hi)) as (k & Hk & Ek).
  remember (k - i)%nat as d eqn:Ed. revert i Hk Ed Hi. induction d as [|d IH]; intros i Hk Ed Hi.
  - assert (i = k) as -> by lia. exists (S k). split; [lia|by apply Hown].
  - destruct (decide (ev i = Ev_run t)) as [E|E]; [exists (S i); split; [lia|by apply Hown]|].
    destruct (Hother i Hi E) as [HP|HQ]; [|exists (S i); split; [lia|done]].
    destruct (IH (S i)) as (j & Hj & HQ); [lia|lia|done|]. exists j. split; [lia|done].
Qed.

Lemma others i t : at_pc (sigma i) t <> Running -> ev i <> Ev_run t ->
  at_pc (sigma (S i)) t = at_pc (sigma i) t /\ held (sigma (S i)) t = held (sigma i) t.
Proof using Hstep. intros. by apply (step_others NR_CPUS (ev i)). Qed.

Lemma own_run i t : ev i = Ev_run t -> context_step NR_CPUS t (sigma i) = Ret (sigma (S i)).
Proof using Hstep. intros E. pose proof (Hstep i) as H. rewrite E in H. by apply run_event_inv in H as (_ & _ & H). Qed.

(** ** Before waiting *)

Definition settled (t : context) (i : nat) : Prop :=
  waits l (at_pc (sigma i) t) \/ owns (sigma i) l t.

Lemma before_settles t i k : lock_of (at_pc (sigma i) t) = Some l -> before_rank (at_pc (sigma i) t) = Some k ->
  exists j, (i <= j)%nat /\ settled t j.
Proof using HN Hstart Hstep fair_run.
  revert i. induction k as [k IH] using lt_wf_ind. intros i Hl Hk.
  set (Q j := settled t j \/ lock_of (at_pc (sigma j) t) = Some l /\ exists k', (k' < k)%nat /\ before_rank (at_pc (sigma j) t) = Some k').
  destruct (ensures (fun j => at_pc (sigma j) t = at_pc (sigma i) t) Q t i) as (j & Hj & HQ); try done.
  - by intros j ->.
  - intros j Ej Hne. left. destruct (others j t) as [-> _]; [rewrite Ej; intros E; by rewrite E in Hl|done|done].
  - intros j Ej He. destruct (inv_exists j) as [g Hg]. pose proof (inv_fresh _ _ (proj1 Hg) t) as Hf.
    pose proof (own_run j t He) as Hr.
    destruct (before_step NR_CPUS l t _ _ k Hf ltac:(right; by rewrite Ej) ltac:(by rewrite Ej) Hr)
      as [[Ha (k' & Hk' & Ek')]|[Hw|[Ho|Hh]]].
    + right. split; [|by exists k']. destruct Ha as [Ha|Ha]; [by rewrite Ha in Ek'|done].
    + left. by left.
    + left. right. by right.
    + left. right. by left.
  - destruct HQ as [HQ|(Hl' & k' & Hk' & Ek')]; [by exists j|].
    destruct (IH k' Hk' j Hl' Ek') as (j' & Hj' & HQ). exists j'. split; [lia|done].
Qed.

(** ** An owner gets out of the lock function *)

Lemma held_of_dec t i k : at_pc (sigma i) t = Node_dec l k -> exists j, (i <= j)%nat /\ l ∈ held (sigma j) t.
Proof using Hstep fair_run.
  apply (ensures (fun j => at_pc (sigma j) t = Node_dec l k) (fun j => l ∈ held (sigma j) t) t i).
  - by intros j ->.
  - intros j E Hne. left. destruct (others j t) as [-> _]; [by rewrite E|done|done].
  - intros j E He. by apply (node_dec_step NR_CPUS l (sigma j) t k), own_run.
Qed.

Lemma held_of_pass t i k n : at_pc (sigma i) t = Pass l k n -> exists j, (i <= j)%nat /\ l ∈ held (sigma j) t.
Proof using Hstep fair_run.
  intros Hi. destruct (ensures (fun j => at_pc (sigma j) t = Pass l k n) (fun j => at_pc (sigma j) t = Node_dec l k) t i)
    as (j & Hj & E); try done.
  - by intros j ->.
  - intros j E Hne. left. destruct (others j t) as [-> _]; [by rewrite E|done|done].
  - intros j E He. by apply (pass_step NR_CPUS l (sigma j) t k n), own_run.
  - destruct (held_of_dec t j k E) as (j' & Hj' & H). exists j'. split; [lia|done].
Qed.

(** Another event leaves a context where it is, and a link that is set. *)
Lemma linked_stays j t k : at_pc (sigma j) t = Wait_next l k -> ev j <> Ev_run t ->
  mcs_next (node (sigma j) (t.1, k)) <> None -> mcs_next (node (sigma (S j)) (t.1, k)) <> None.
Proof using HN Hstart Hstep.
  intros E Hne Hn. destruct (inv_exists j) as [g [Hno _]]. pose proof (Hstep j) as Hs.
  destruct (ev j) as [u|u l'|u l'|u l'|c|c] eqn:Ev; try (unfold step, fire in Hs; case_decide; [|done]; injection Hs as <-; exact Hn).
  apply run_event_inv in Hs as (_ & _ & Hs). apply (next_stable NR_CPUS (sigma j) t u); try done; [by rewrite E|].
  intros ->. by apply Hne.
Qed.

Lemma held_of_linked t i k : at_pc (sigma i) t = Wait_next l k -> mcs_next (node (sigma i) (t.1, k)) <> None ->
  exists j, (i <= j)%nat /\ l ∈ held (sigma j) t.
Proof using HN Hstart Hstep fair_run.
  intros Hi Hn. destruct (ensures (fun j => at_pc (sigma j) t = Wait_next l k /\ mcs_next (node (sigma j) (t.1, k)) <> None)
    (fun j => exists n, at_pc (sigma j) t = Pass l k n) t i) as (j & Hj & n & E); try done.
  - by intros j [-> _].
  - intros j [E Hnj] Hne. left. split; [|by apply linked_stays].
    destruct (others j t) as [-> _]; [by rewrite E|done|done].
  - intros j [E Hnj] He. pose proof (wait_next_step NR_CPUS l _ t k _ E (own_run j t He)) as H.
    destruct (mcs_next (node (sigma j) (t.1, k))) as [n|]; [by exists n|done].
  - destruct (held_of_pass t j k n E) as (j' & Hj' & H). exists j'. split; [lia|done].
Qed.

(** [t] stays at [Wait_next] or is on its way out. *)
Lemma wait_next_stays j t k : at_pc (sigma j) t = Wait_next l k ->
  at_pc (sigma (S j)) t = Wait_next l k \/ exists n, at_pc (sigma (S j)) t = Pass l k n.
Proof using Hstep.
  intros E. destruct (decide (ev j = Ev_run t)) as [He|He].
  - pose proof (wait_next_step NR_CPUS l _ t k _ E (own_run j t He)) as H.
    destruct (mcs_next (node (sigma j) (t.1, k))) as [n|]; [right; by exists n|left; by rewrite H].
  - left. destruct (others j t) as [-> _]; [by rewrite E|done|done].
Qed.

Lemma held_of_second t i k : at_pc (sigma i) t = Wait_next l k ->
  (exists u m, u <> t /\ queued_of (at_pc (sigma i) u) = Some (l, m)) ->
  exists j, (i <= j)%nat /\ l ∈ held (sigma j) t.
Proof using HN Hstart Hstep fair_run.
  intros Hi (u & m & Hu & Hq). destruct (mcs_next (node (sigma i) (t.1, k))) as [n|] eqn:En.
  { apply (held_of_linked t i k Hi). by rewrite En. }
  destruct (inv_exists i) as [g Hg]. pose proof Hg as (Hno & Hli & _). specialize (Hli l).
  assert (Ht : (t, k) ∈ queue (g l)) by (apply (inv_queued _ _ _ Hli); by rewrite Hi).
  assert (Huq : (u, m) ∈ queue (g l)) by (by apply (inv_queued _ _ _ Hli)).
  destruct (first_in_queue (sigma i) l (g l) t Hli k Ht) as [q Eq]; [by rewrite Hi|].
  pose proof (inv_queue _ _ _ Hli) as Hqo. rewrite Eq in Hqo, Huq. destruct Hqo as [_ Hl].
  destruct q as [|b q]; [apply list_elem_of_singleton in Huq; by simplify_eq|].
  destruct Hl as [[_ [(l' & kb & Eb & _)|(l' & kb & _ & En')]] _]; [|unfold next_of, node_of in En'; simpl in En'; by rewrite En in En'].
  assert (Hb : b ∈ queue (g l)) by (rewrite Eq; right; constructor).
  assert (l' = l) as ->.
  { destruct b as [v j]. apply (inv_queued _ _ _ Hli) in Hb. simpl in Eb. rewrite Eb in Hb. by simplify_eq/=. }
  assert (Hbt : b.1 <> t).
  { intros E. rewrite E, Hi in Eb. done. }
  pose proof (uses_valid NR_CPUS _ t k Hno ltac:(by rewrite Hi)) as Hv.
  destruct (ensures (fun j => at_pc (sigma j) t = Wait_next l k /\ at_pc (sigma j) b.1 = Link_prev l kb (node_code (node_of (t, k)) * 2 ^ 16))
    (fun j => (at_pc (sigma j) t = Wait_next l k /\ mcs_next (node (sigma j) (t.1, k)) <> None) \/
              exists n, at_pc (sigma j) t = Pass l k n) b.1 i) as (j & Hj & HQ); try done.
  - by intros j [_ ->].
  - intros j [E Ej] Hne. destruct (wait_next_stays j t k E) as [E'|HP]; [left|by right; right].
    split; [done|]. destruct (others j b.1) as [-> _]; [by rewrite Ej|done|done].
  - intros j [E Ej] He. left. split.
    + destruct (others j t) as [-> _]; [by rewrite E| |done]. congruence.
    + pose proof (link_prev_step NR_CPUS l _ _ kb _ _ Ej (own_run j _ He)) as [_ Hn].
      rewrite (decode_tail_code NR_CPUS ltac:(lia)) in Hn by done. change (node_of (t, k)) with (t.1, k) in Hn. by rewrite Hn.
  - destruct HQ as [[E Hn]|[n E]].
    + destruct (held_of_linked t j k E Hn) as (j' & ? & ?). exists j'. split; [lia|done].
    + destruct (held_of_pass t j k n E) as (j' & ? & ?). exists j'. split; [lia|done].
Qed.

Lemma held_of_joiner t i k u r : at_pc (sigma i) t = Wait_next l k ->
  joiner_of (at_pc (sigma i) u) = Some l -> before_rank (at_pc (sigma i) u) = Some r ->
  exists j, (i <= j)%nat /\ l ∈ held (sigma j) t.
Proof using HN Hstart Hstep fair_run.
  revert i. induction r as [r IH] using lt_wf_ind. intros i Hi Hj Hr.
  assert (Hut : u <> t) by (intros ->; by rewrite Hi in Hj).
  destruct (ensures (fun j => at_pc (sigma j) t = Wait_next l k /\ at_pc (sigma j) u = at_pc (sigma i) u)
    (fun j => (exists n, at_pc (sigma j) t = Pass l k n) \/ at_pc (sigma j) t = Wait_next l k /\
       ((exists m, queued_of (at_pc (sigma j) u) = Some (l, m)) \/
        joiner_of (at_pc (sigma j) u) = Some l /\ exists r', (r' < r)%nat /\ before_rank (at_pc (sigma j) u) = Some r'))
    u i) as (j & Hij & HQ); try done.
  - intros j [_ ->]. by destruct (at_pc (sigma i) u).
  - intros j [E Ej] Hne. destruct (wait_next_stays j t k E) as [E'|HP]; [left|by right; left].
    split; [done|]. destruct (others j u) as [-> _]; [rewrite Ej; intros E0; by rewrite E0 in Hj|done|done].
  - intros j [E Ej] He. right. split.
    + destruct (others j t) as [-> _]; [by rewrite E| |done]. congruence.
    + destruct (inv_exists j) as [g Hg]. pose proof Hg as (Hno & Hli & _). specialize (Hli l).
      assert (Hw : word (sigma j) l <> 0).
      { intros H0. destruct (word_unheld NR_CPUS ltac:(lia) _ l (g l) Hno Hli H0) as [Ho _].
        assert (owner (g l) = Some t) by (apply (inv_owner _ _ _ Hli); right; by rewrite E). congruence. }
      destruct (joiner_step NR_CPUS l _ u _ r Hw ltac:(by rewrite Ej) ltac:(by rewrite Ej) (own_run j u He)); tauto.
  - destruct HQ as [[n E]|[E [(m & Hm)|(Hj' & r' & Hr' & Er')]]].
    + destruct (held_of_pass t j k n E) as (j' & ? & ?). exists j'. split; [lia|done].
    + destruct (held_of_second t j k E) as (j' & ? & ?); [by exists u, m|]. exists j'. split; [lia|done].
    + destruct (IH r' Hr' j E Hj' Er') as (j' & ? & ?). exists j'. split; [lia|done].
Qed.

Lemma owner_holds t i : owns (sigma i) l t -> exists j, (i <= j)%nat /\ l ∈ held (sigma j) t.
Proof using HN Hstart Hstep fair_run.
  intros [Hh|Ho]; [by exists i|]. destruct (at_pc (sigma i) t) eqn:E; simpl in Ho; simplify_eq.
  - destruct (inv_exists i) as [g Hg]. pose proof Hg as (Hno & Hli & _). specialize (Hli l).
    pose proof (inv_pc _ _ _ Hli t) as Hok. unfold pc_ok in Hok. rewrite E in Hok. destruct (Hok eq_refl) as [_ Hj].
    assert (Ht : (t, idx) ∈ queue (g l)) by (apply (inv_queued _ _ _ Hli); by rewrite E).
    destruct (first_in_queue (sigma i) l (g l) t Hli idx Ht) as [[|[u m] q] Eq]; [by rewrite E| |].
    + destruct (Hj Eq) as [u Hu].
      assert (exists r, before_rank (at_pc (sigma i) u) = Some r) as [r Hr]
        by (destruct (at_pc (sigma i) u); simpl in Hu; try done; eauto).
      by apply (held_of_joiner t i idx u r).
    + apply (held_of_second t i idx E). exists u, m. split.
      * intros ->. pose proof (queue_contexts _ _ _ Hli) as Hnd. rewrite Eq in Hnd.
        rewrite !fmap_cons in Hnd. apply NoDup_cons in Hnd as [Hnd _]. apply Hnd. constructor.
      * apply (inv_queued _ _ _ Hli). rewrite Eq. right. constructor.
  - by apply (held_of_pass t i idx next).
  - by apply (held_of_dec t i idx).
Qed.

(** ** The first who waits gets a free lock *)

Definition first (h : context) (j : nat) : Prop := exists w, abstract j (mk_fifo None (h :: w)).

Lemma first_stays h j : first h j -> first h (S j) \/ owns (sigma (S j)) l h.
Proof using HN Hstep.
  intros [w Ha]. destruct (abstract_step j _ Ha) as (a' & Ha' & Hf). inversion Hf; simplify_eq.
  - left. by exists w.
  - left. exists (w ++ [actor (ev j) (sigma j)]). done.
  - right. by apply (abstract_holder (S j) _ _ Ha').
Qed.

Lemma first_pc h j : first h j ->
  (at_pc (sigma j) h = Wait_unlocked l \/ at_pc (sigma j) h = Take_pending l) \/
  exists k, queued_of (at_pc (sigma j) h) = Some (l, k) /\ owner_of (at_pc (sigma j) h) = None /\
    heading (at_pc (sigma j) h) (mcs_locked (node (sigma j) (h.1, k))).
Proof using.
  intros (w & g & Hg & E). destruct (first_waiting (sigma j) (g l) l (proj1 (proj2 Hg) l) h w (eq_sym E))
    as [?|(k & q & _ & Hh & Hq & Ho)]; [by left|]. right. exists k. done.
Qed.

Lemma first_lock h j : lock_of (at_pc (sigma j) h) <> None \/ first h j -> at_pc (sigma j) h <> Running.
Proof using.
  intros [H|H] E; [by rewrite E in H|].
  destruct (first_pc h j H) as [[E'|E']|(k & Hq & _)]; rewrite E in *; done.
Qed.

(** One step of the first: it stays first while others move. *)
Lemma first_ensures (P Q : nat -> Prop) (R : pc -> Prop) h i :
  (forall j, first h j -> R (at_pc (sigma j) h) -> lock_of (at_pc (sigma j) h) = Some l) ->
  (forall j, first h j -> R (at_pc (sigma j) h) -> ev j = Ev_run h -> Q (S j)) ->
  (forall j, owns (sigma j) l h -> Q j) ->
  first h i -> R (at_pc (sigma i) h) -> exists j, (i <= j)%nat /\ Q j.
Proof using HN Hstep fair_run.
  intros Hl Hrun Howns Hi HR.
  apply (ensures (fun j => first h j /\ R (at_pc (sigma j) h)) Q h i); [| | |done].
  - intros j [Hf Hr]. by apply Hl.
  - intros j [Hf Hr] Hne. destruct (first_stays h j Hf) as [Hf'|Ho]; [|right; by apply Howns]. left. split; [done|].
    destruct (others j h) as [-> _]; [by apply first_lock; right|done|done].
  - intros j [Hf Hr] He. by apply Hrun.
Qed.

Lemma granted_take h i : at_pc (sigma i) h = Take_pending l -> exists j, (i <= j)%nat /\ owns (sigma j) l h.
Proof using Hstep fair_run.
  apply (ensures (fun j => at_pc (sigma j) h = Take_pending l) (fun j => owns (sigma j) l h) h i).
  - by intros j ->.
  - intros j E Hne. left. destruct (others j h) as [-> _]; [by rewrite E|done|done].
  - intros j E He. pose proof (own_run j h He) as H. run_step H E. injection H as H. rewrite <- H.
    left. read_off. constructor.
Qed.

Lemma granted_unlocked h i : first h i -> at_pc (sigma i) h = Wait_unlocked l -> exists j, (i <= j)%nat /\ owns (sigma j) l h.
Proof using HN Hstep fair_run.
  intros Hf E. destruct (first_ensures (fun _ => True) (fun j => owns (sigma j) l h \/ at_pc (sigma j) h = Take_pending l)
    (fun p => p = Wait_unlocked l) h i) as (j & Hj & [Ho|Et]); try done.
  - by intros j _ ->.
  - clear Hf E. intros j (w & g & Hg & Ea) E He. right.
    pose proof (own_run j h He) as H. run_step H E.
    destruct (word_fields NR_CPUS HN _ g Hg l) as (Ew & Htl & _). rewrite Ew, qword_locked in H by done.
    unfold lock_of_ghost in Ea. injection Ea as Eo _. rewrite <- Eo in H.
    rewrite bool_decide_false in H by (by intros [??]). simpl in H. injection H as H. rewrite <- H. by read_off.
  - intros j Ho. by left.
  - by exists j.
  - destruct (granted_take h j Et) as (j' & ? & ?). exists j'. split; [lia|done].
Qed.

Lemma granted_set h i k nx : at_pc (sigma i) h = Set_locked l k nx -> exists j, (i <= j)%nat /\ owns (sigma j) l h.
Proof using Hstep fair_run.
  apply (ensures (fun j => at_pc (sigma j) h = Set_locked l k nx) (fun j => owns (sigma j) l h) h i).
  - by intros j ->.
  - intros j E Hne. left. destruct (others j h) as [-> _]; [by rewrite E|done|done].
  - intros j E He. pose proof (own_run j h He) as H. run_step H E. injection H as H. rewrite <- H.
    right. read_off. by destruct nx.
Qed.

Lemma granted_claim h i k nx v : at_pc (sigma i) h = Claim l k nx v -> exists j, (i <= j)%nat /\ owns (sigma j) l h.
Proof using Hstep fair_run.
  intros Hi. destruct (ensures (fun j => at_pc (sigma j) h = Claim l k nx v)
    (fun j => owns (sigma j) l h \/ at_pc (sigma j) h = Set_locked l k nx) h i) as (j & Hj & [Ho|Es]); try done.
  - by intros j ->.
  - intros j E Hne. left. destruct (others j h) as [-> _]; [by rewrite E|done|done].
  - intros j E He. pose proof (own_run j h He) as H. run_step H E. injection H as H. rewrite <- H.
    destruct (word (sigma j) l =? v); [left; right; by read_off|right; by read_off].
  - by exists j.
  - destruct (granted_set h j k nx Es) as (j' & ? & ?). exists j'. split; [lia|done].
Qed.

(** *** At the head of the queue *)

Definition head_at (h : context) (k : Z) (nx : option (Z * Z)) (j : nat) : Prop :=
  first h j /\ at_pc (sigma j) h = Wait_head l k nx.
Definition past_head (h : context) (j : nat) : Prop := owns (sigma j) l h \/ past_wait l (at_pc (sigma j) h).
Definition pending_clear (j : nat) : Prop :=
  forall u, pender_of (at_pc (sigma j) u) <> Some l.

Lemma head_queue h k nx j g : at_pc (sigma j) h = Wait_head l k nx -> machine_inv NR_CPUS (sigma j) g -> queue (g l) <> [].
Proof using.
  intros E Hg Eq. assert (Hi : (h, k) ∈ queue (g l)).
  { apply (inv_queued _ _ _ (proj1 (proj2 Hg) l)). by rewrite E. }
  rewrite Eq in Hi. by apply not_elem_of_nil in Hi.
Qed.

(** The head passes once it looks at a clear pending bit. *)
Lemma head_run h k nx j : head_at h k nx j -> pending_clear j -> ev j = Ev_run h -> past_head h (S j).
Proof using HN Hstep.
  intros [(w & g & Hg & Ea) E] Hc He. right. pose proof (own_run j h He) as H. run_step H E.
  destruct (word_fields NR_CPUS HN _ g Hg l) as (Ew & Htl & _). rewrite Ew, qword_locked_pending in H by done.
  unfold lock_of_ghost in Ea. injection Ea as Eo _. rewrite <- Eo in H.
  assert (Ep : pender (g l) = None).
  { destruct (pender (g l)) as [u|] eqn:Eu; [|done]. by apply (inv_pender _ _ _ (proj1 (proj2 Hg) l)), Hc in Eu. }
  rewrite Ep, bool_decide_false in H by (by intros [??]). simpl in H. injection H as H. rewrite <- H. read_off.
  by case_match.
Qed.

(** A step of another context leaves the head where it is, and either the
    pending bit as well or there is one fetcher less. *)
Lemma head_other h k nx j : head_at h k nx j -> ev j <> Ev_run h ->
  past_head h (S j) \/ head_at h k nx (S j) /\ (fetchers NR_CPUS (sigma (S j)) l <= fetchers NR_CPUS (sigma j) l)%nat /\
    (pending_clear j -> pending_clear (S j) \/ (fetchers NR_CPUS (sigma (S j)) l < fetchers NR_CPUS (sigma j) l)%nat).
Proof using HN Hstart Hstep.
  intros [Hf E] Hne. destruct (first_stays h j Hf) as [Hf'|Ho]; [|left; by left]. right.
  destruct (inv_exists j) as [g Hg]. pose proof (head_queue h k nx j g E Hg) as Hq.
  split_and!.
  - split; [done|]. destruct (others j h) as [-> _]; [by rewrite E|done|done].
  - by apply (fetchers_le NR_CPUS HN (ev j) _ _ g).
  - intros Hc. destruct (inv_exists (S j)) as [g' Hg']. destruct (pender (g' l)) as [u|] eqn:Eu.
    + right. apply (inv_pender _ _ _ (proj1 (proj2 Hg') l)) in Eu. by apply (fetchers_lt NR_CPUS HN (ev j) _ _ g l u).
    + left. intros u Hu%(inv_pender _ _ _ (proj1 (proj2 Hg') l)). congruence.
Qed.

Lemma head_passes h k nx n i : head_at h k nx i -> (fetchers NR_CPUS (sigma i) l <= n)%nat ->
  exists j, (i <= j)%nat /\ past_head h j.
Proof using HN Hstart Hstep fair_run.
  revert i. induction n as [n IH] using lt_wf_ind. intros i Hi Hn.
  assert (Hclear : forall m, head_at h k nx m -> (fetchers NR_CPUS (sigma m) l <= n)%nat -> pending_clear m ->
            exists j, (m <= j)%nat /\ past_head h j).
  { clear i Hi Hn. intros m Hm Hn Hc.
    destruct (ensures (fun j => head_at h k nx j /\ (fetchers NR_CPUS (sigma j) l <= n)%nat /\ pending_clear j)
      (fun j => past_head h j \/ head_at h k nx j /\ (fetchers NR_CPUS (sigma j) l < n)%nat) h m) as (j & Hj & HQ); try done.
    - intros j ([_ ->] & _ & _). done.
    - intros j (Hh & Hk & Hp) Hne. destruct (head_other h k nx j Hh Hne) as [HP|(Hh' & Hle & Hcl)]; [by right; left|].
      destruct (Hcl Hp) as [Hp'|Hlt]; [left; split_and!; [done|lia|done]|right; right; split; [done|lia]].
    - intros j (Hh & Hk & Hp) He. left. by apply (head_run h k nx).
    - destruct HQ as [HP|[Hh Hlt]]; [by exists j|].
      destruct (IH (fetchers NR_CPUS (sigma j) l) Hlt j Hh (le_n _)) as (j' & ? & ?). exists j'. split; [lia|done]. }
  destruct (inv_exists i) as [g Hg]. pose proof Hg as (Hno & Hli & _). specialize (Hli l).
  destruct (pender (g l)) as [p|] eqn:Ep.
  2:{ apply Hclear; [done..|]. intros u Hu%(inv_pender _ _ _ Hli). congruence. }
  pose proof (proj2 (inv_pender _ _ _ Hli p) Ep) as Hp.
  assert (Epc : at_pc (sigma i) p = Clear_pending l).
  { destruct Hi as [(w & g2 & Hg2 & Ea) E]. pose proof (proj1 (proj2 Hg2) l) as Hli2.
    assert (Ep2 : pender (g2 l) = Some p) by (by apply (inv_pender _ _ _ Hli2)).
    unfold lock_of_ghost, pending_waits in Ea. rewrite Ep2 in Ea. injection Ea as _ Ea.
    destruct (at_pc (sigma i) p) eqn:E'; simpl in Hp; simplify_eq; try done; simpl in Ea; simplify_eq; congruence. }
  assert (Hph : p <> h) by (intros ->; destruct Hi as [_ E]; congruence).
  destruct (ensures (fun j => head_at h k nx j /\ (fetchers NR_CPUS (sigma j) l <= n)%nat /\ at_pc (sigma j) p = Clear_pending l)
    (fun j => past_head h j \/ head_at h k nx j /\ (fetchers NR_CPUS (sigma j) l <= n)%nat /\ pending_clear j) p i)
    as (j & Hj & HQ); try done.
  - by intros j (_ & _ & ->).
  - intros j (Hh & Hk & E) Hne.
    assert (E' : at_pc (sigma (S j)) p = Clear_pending l) by (destruct (others j p) as [-> _]; [by rewrite E|done|done]).
    destruct (decide (ev j = Ev_run h)) as [He|He].
    + (* the head looks at a set pending bit *)
      left. destruct Hh as [Hf Eh]. pose proof (own_run j h He) as H. run_step H Eh.
      destruct (inv_exists j) as [g' Hg']. destruct (word_fields NR_CPUS HN _ g' Hg' l) as (Ew & Htl & _).
      rewrite Ew, qword_locked_pending in H by done.
      assert (Ep' : pender (g' l) = Some p) by (apply (inv_pender _ _ _ (proj1 (proj2 Hg') l)); by rewrite E).
      rewrite Ep', (bool_decide_true (is_Some (Some p))) in H by (by eexists).
      rewrite (proj2 (Z.eqb_neq (_ + _) 0)) in H by (destruct (bool_decide (is_Some (owner (g' l)))); done).
      injection H as H. unfold head_at, first, abstract. rewrite <- H. done.
    + destruct (head_other h k nx j Hh He) as [HP|(Hh' & Hle & _)]; [by right; left|left; split_and!; [done|lia|done]].
  - intros j (Hh & Hk & E) He.
    destruct (head_other h k nx j Hh ltac:(congruence)) as [HP|(Hh' & Hle & _)]; [by left|right].
    split_and!; [done|lia|]. intros u Hu. pose proof (own_run j p He) as H.
    destruct (decide (u = p)) as [->|Hup].
    + run_step H E. injection H as H. rewrite <- H in Hu. revert Hu. by read_off.
    + destruct (context_step_others NR_CPUS p u _ _ H Hup) as [Eu _]. rewrite Eu in Hu.
      destruct (inv_exists j) as [g' Hg']. pose proof (proj1 (proj2 Hg') l) as Hli'.
      assert (pender (g' l) = Some u) by (by apply (inv_pender _ _ _ Hli')).
      assert (pender (g' l) = Some p) by (apply (inv_pender _ _ _ Hli'); by rewrite E). congruence.
  - destruct HQ as [HP|(Hh & Hk & Hp')]; [by exists j|].
    destruct (Hclear j Hh Hk Hp') as (j' & ? & ?). exists j'. split; [lia|done].
Qed.

Lemma granted_head h i k nx : first h i -> at_pc (sigma i) h = Wait_head l k nx -> exists j, (i <= j)%nat /\ owns (sigma j) l h.
Proof using HN Hstart Hstep fair_run.
  intros Hf E. destruct (head_passes h k nx _ i (conj Hf E) (le_n _)) as (j & Hj & [Ho|Hp]); [by exists j|].
  destruct (at_pc (sigma j) h) eqn:Ej; simpl in Hp; try done; subst.
  - destruct (granted_claim h j idx next val Ej) as (j' & ? & ?). exists j'. split; [lia|done].
  - destruct (granted_set h j idx next Ej) as (j' & ? & ?). exists j'. split; [lia|done].
  - exists j. split; [done|]. right. by rewrite Ej.
  - exists j. split; [done|]. right. by rewrite Ej.
Qed.

Lemma granted_next h i k : first h i -> at_pc (sigma i) h = Read_next l k -> exists j, (i <= j)%nat /\ owns (sigma j) l h.
Proof using HN Hstart Hstep fair_run.
  intros Hf E. destruct (first_ensures (fun _ => True)
    (fun j => owns (sigma j) l h \/ first h j /\ exists nx, at_pc (sigma j) h = Wait_head l k nx)
    (fun p => p = Read_next l k) h i) as (j & Hj & [Ho|(Hf' & nx & Et)]); try done.
  - by intros j _ ->.
  - clear Hf E. intros j Hf E He. destruct (first_stays h j Hf) as [Hf'|Ho]; [right|by left].
    split; [done|]. pose proof (own_run j h He) as H. run_step H E. injection H as H. eexists. rewrite <- H. by read_off.
  - intros j Ho. by left.
  - by exists j.
  - destruct (granted_head h j k nx Hf' Et) as (j' & ? & ?). exists j'. split; [lia|done].
Qed.

Lemma granted_node h i k : first h i -> at_pc (sigma i) h = Wait_node l k -> exists j, (i <= j)%nat /\ owns (sigma j) l h.
Proof using HN Hstart Hstep fair_run.
  intros Hf E. destruct (first_ensures (fun _ => True)
    (fun j => owns (sigma j) l h \/ first h j /\ at_pc (sigma j) h = Read_next l k)
    (fun p => p = Wait_node l k) h i) as (j & Hj & [Ho|(Hf' & Et)]); try done.
  - by intros j _ ->.
  - clear Hf E. intros j Hf E He. destruct (first_stays h j Hf) as [Hf'|Ho]; [right|by left].
    split; [done|]. destruct (first_pc h j Hf) as [[E'|E']|(k' & Hq & _ & Hh)]; [congruence..|].
    rewrite E in Hq, Hh. simpl in Hq, Hh. simplify_eq.
    pose proof (own_run j h He) as H. run_step H E. rewrite (proj2 (Z.eqb_neq _ _) Hh) in H. injection H as H.
    rewrite <- H. by read_off.
  - intros j Ho. by left.
  - by exists j.
  - destruct (granted_next h j k Hf' Et) as (j' & ? & ?). exists j'. split; [lia|done].
Qed.

Lemma granted h i : first h i -> exists j, (i <= j)%nat /\ owns (sigma j) l h.
Proof using HN Hstart Hstep fair_run.
  intros Hf. destruct (first_pc h i Hf) as [[E|E]|(k & Hq & Ho & Hh)].
  - by apply granted_unlocked.
  - by apply granted_take.
  - destruct (at_pc (sigma i) h) eqn:E; simpl in Hq, Ho, Hh; try done; simplify_eq.
    + by apply (granted_node h i k).
    + by apply (granted_next h i k).
    + by apply (granted_head h i k next).
    + by apply (granted_claim h i k next val).
    + by apply (granted_set h i k next).
Qed.

(** ** Everybody who waits gets the lock *)

(** The contexts before [t], and whether the lock is held. *)
Definition distance (a : fifo_lock) (w : list context) : nat :=
  2 * length w + match holder a with Some _ => 1 | None => 0 end.

Lemma distance_step t j a w w2 : abstract j a -> waiting a = w ++ t :: w2 ->
  owns (sigma (S j)) l t \/ exists a' w' w2', abstract (S j) a' /\ waiting a' = w' ++ t :: w2' /\
    ((distance a' w' < distance a w)%nat \/ holder a' = holder a /\ w' = w).
Proof using HN Hstep.
  intros Ha Ew. destruct (abstract_step j a Ha) as (a' & Ha' & Hf). inversion Hf; simplify_eq/=.
  - right. exists a', w, w2. auto.
  - by destruct w.
  - right. eexists _, w, (w2 ++ [_]). split; [exact Ha'|]. simpl. split; [by rewrite <- (assoc_L (++))|auto].
  - destruct w as [|u w]; simplify_eq/=.
    + left. by apply (abstract_holder (S j) _ _ Ha').
    + right. eexists _, w, w2. split; [exact Ha'|]. split; [done|]. left. unfold distance. simpl. lia.
  - right. eexists _, w, w2. split; [exact Ha'|]. split; [done|]. left. unfold distance. simpl. lia.
Qed.

Lemma distance_walk t n i a w w2 : abstract i a -> waiting a = w ++ t :: w2 ->
  exists j, (i <= j <= i + n)%nat /\
    (owns (sigma j) l t \/ exists a' w' w2', abstract j a' /\ waiting a' = w' ++ t :: w2' /\
      ((distance a' w' < distance a w)%nat \/ j = (i + n)%nat /\ holder a' = holder a /\ w' = w)).
Proof using HN Hstep.
  intros Ha Ew. induction n as [|n (j & Hj & [Ho|(a' & w' & w2' & Ha' & Ew' & [Hd|(-> & Eh & ->)])])].
  - exists i. split; [lia|]. right. exists a, w, w2. split_and!; try done. right. split_and!; [lia|done|done].
  - exists j. split; [lia|]. by left.
  - exists j. split; [lia|]. right. exists a', w', w2'. auto.
  - exists (S (i + n)). split; [lia|].
    destruct (distance_step t _ a' w w2' Ha' Ew') as [Ho|(a1 & w1 & w3 & Ha1 & Ew1 & Hd)]; [by left|].
    right. exists a1, w1, w3. split_and!; try done. unfold distance in *. rewrite Eh in Hd.
    destruct Hd as [Hd|[Eh' ->]]; [by left|]. right. split_and!; [lia|congruence|done].
Qed.

Lemma waiting_gets d t i a w w2 : abstract i a -> waiting a = w ++ t :: w2 -> distance a w = d ->
  exists j, (i <= j)%nat /\ owns (sigma j) l t.
Proof using HN Hstart Hstep fair_run fair_release.
  revert i a w w2. induction d as [d IH] using lt_wf_ind. intros i a w w2 Ha Ew Ed.
  (* [t] gets the lock, or the distance is smaller, once the state must have changed by [k] *)
  assert (Hby : forall k, (i <= k)%nat -> (forall a' w2', abstract k a' -> holder a' = holder a -> waiting a' = w ++ t :: w2' ->
            exists j, (k <= j)%nat /\ (owns (sigma j) l t \/ exists a1 w1 w3, abstract j a1 /\ waiting a1 = w1 ++ t :: w3 /\
              (distance a1 w1 < d)%nat)) -> exists j, (i <= j)%nat /\ owns (sigma j) l t).
  { intros k Hk Hend. destruct (distance_walk t (k - i) i a w w2 Ha Ew) as (j & Hj & [Ho|(a' & w' & w2' & Ha' & Ew' & Hd)]).
    - exists j. split; [lia|done].
    - destruct Hd as [Hd|(-> & Eh & ->)].
      + destruct (IH (distance a' w') ltac:(lia) j a' w' w2' Ha' Ew' eq_refl) as (j' & ? & ?). exists j'. split; [lia|done].
      + replace (i + (k - i))%nat with k in * by lia.
        destruct (Hend a' w2' Ha' Eh Ew') as (j & Hj' & [Ho|(a1 & w1 & w3 & Ha1 & Ew1 & Hd)]); [exists j; split; [lia|done]|].
        destruct (IH (distance a1 w1) Hd j a1 w1 w3 Ha1 Ew1 eq_refl) as (j' & ? & ?). exists j'. split; [lia|done]. }
  destruct (holder a) as [o|] eqn:Eh.
  - destruct (owner_holds o i) as (j1 & Hj1 & Hh); [by apply (abstract_holder i a)|].
    destruct (fair_release j1 o Hh) as (j2 & Hj2 & Ev). apply (Hby j2 ltac:(lia)).
    intros a' w2' Ha' Eh' Ew'. exists (S j2). split; [lia|].
    destruct (distance_step t j2 a' w w2' Ha' Ew') as [Ho|(a1 & w1 & w3 & Ha1 & Ew1 & Hd)]; [by left|right].
    exists a1, w1, w3. split_and!; [done|done|]. destruct Hd as [Hd|[Eh1 _]].
    + unfold distance in *. rewrite Eh' in Hd. rewrite Eh in Ed. lia.
    + exfalso. assert (Hown : owns (sigma (S j2)) l o) by (apply (abstract_holder (S j2) a1); congruence).
      pose proof (Hstep j2) as Hs. rewrite Ev in Hs. unfold step, fire in Hs. case_decide as Hd; [|done].
      injection Hs as Hs. unfold owns in Hown. rewrite <- Hs in Hown. revert Hown. read_off.
      destruct Hd as (_ & Hd & _). rewrite Hd, list_elem_of_filter. simpl. intros [[? _]|?]; done.
  - destruct w as [|h w].
    + apply (granted t i). exists w2. by destruct a; simplify_eq/=.
    + destruct (granted h i) as (j & Hj & Ho); [exists (w ++ t :: w2); by destruct a; simplify_eq/=|].
      apply (Hby j Hj). intros a' w2' Ha' Eh' _. exfalso. apply (abstract_holder j a' h Ha') in Ho. congruence.
Qed.

Lemma lock_acquired i t :
  lock_of (at_pc (sigma i) t) = Some l -> at_pc (sigma i) t <> Try_read l -> at_pc (sigma i) t <> Try_cas l ->
  exists j, (i <= j)%nat /\ l ∈ held (sigma j) t.
Proof using HN Hstart Hstep fair_run fair_release.
  intros Hl H1 H2.
  assert (Hs : exists j, (i <= j)%nat /\ settled t j).
  { destruct (before_rank (at_pc (sigma i) t)) as [k|] eqn:Ek; [by apply (before_settles t i k)|].
    exists i. split; [done|]. unfold settled, owns.
    destruct (at_pc (sigma i) t); simpl in *; try done; simplify_eq; try (by left); right; by right. }
  destruct Hs as (j & Hj & [Hw|Ho]).
  - destruct (inv_exists j) as [g Hg]. set (a := lock_of_ghost (sigma j) (g l)).
    assert (Ha : abstract j a) by (by exists g). clearbody a.
    apply (abstract_waiting j a t Ha) in Hw. apply list_elem_of_split in Hw as (w & w2 & Ew).
    destruct (waiting_gets _ t j a w w2 Ha Ew eq_refl) as (j1 & ? & Ho).
    destruct (owner_holds t j1 Ho) as (j2 & ? & ?). exists j2. split; [lia|done].
  - destruct (owner_holds t j Ho) as (j2 & ? & ?). exists j2. split; [lia|done].
Qed.
End live.
