(* ===== verification/Qrwlock.v ===== *)
(** * The queued read-write lock

    A model of kernel/core/locking/qrwlock.c and asm-generic/qrwlock.h as a
    step relation: one lock word [cnts], and the spin lock [wait_lock], which is
    the first-come first-served lock that the queued spin lock refines
    (QspinInv.v).  The contexts interleave at every access to the word and at
    every step of the spin lock.  As in Qspinlock.v a context is a CPU and a
    nesting level, an interrupt starts the next level of its CPU at any time,
    and the levels below stand still until it returns.  A context does not ask
    for a lock it holds. *)
From stdpp Require Import base numbers list option functions relations gmap.
From Stdlib Require Import ZArith Lia.
From S2P Require Import Prelude Qspinlock QspinInv.

Definition _QW_WAITING : Z := 0x100.
Definition _QW_LOCKED : Z := 0x0ff.
Definition _QW_WMASK : Z := 0x1ff.
Definition _QR_SHIFT : Z := 9.
Definition _QR_BIAS : Z := u32 (Z.shiftl 1 _QR_SHIFT).

(** ** The spin lock, as its users see it *)

(** The lock is free for [t]: nobody waits, or [t] is the first. *)
Definition spin_enter (t : context) (a : fifo_lock) : option fifo_lock :=
  match holder a, waiting a with
  | None, [] => Some (mk_fifo (Some t) [])
  | None, u :: w => if decide (u = t) then Some (mk_fifo (Some t) w) else None
  | Some _, _ => None
  end.
Definition spin_join (t : context) (a : fifo_lock) : fifo_lock := mk_fifo (holder a) (waiting a ++ [t]).
Definition spin_leave (a : fifo_lock) : fifo_lock := mk_fifo None (waiting a).

(** ** The machine *)

Inductive rw_pc :=
  | Outside
  | Reading                (* holds the lock *)
  | Writing
  | Rtry_read              (* queued_read_trylock *)
  | Rtry_add
  | Rtry_sub
  | Wtry_read              (* queued_write_trylock *)
  | Wtry_cas
  | R_add (interrupt : bool)   (* queued_read_lock; what in_interrupt() will say *)
  | R_interrupt            (* queued_read_lock_slowpath *)
  | R_sub
  | R_lock
  | R_queued
  | R_add_again
  | R_wait
  | R_unlock
  | W_cas                  (* queued_write_lock *)
  | W_lock                 (* queued_write_lock_slowpath *)
  | W_queued
  | W_read
  | W_cas_direct
  | W_add
  | W_wait
  | W_cas_waiting
  | W_unlock.

Record rw_machine := mk_rw {
  cnts : Z;
  wait_lock : fifo_lock;
  rw_level : Z -> nat;                    (* the level that runs, per CPU *)
  rw_at : context -> rw_pc }.

Definition rw_init : rw_machine := mk_rw 0 fifo_init (fun _ => O) (fun _ => Outside).

Definition rw_goto (t : context) (p : rw_pc) (s : rw_machine) : rw_machine :=
  mk_rw (cnts s) (wait_lock s) (rw_level s) (<[t := p]> (rw_at s)).
Definition set_cnts (v : Z) (s : rw_machine) : rw_machine := mk_rw v (wait_lock s) (rw_level s) (rw_at s).
Definition set_wait (a : fifo_lock) (s : rw_machine) : rw_machine := mk_rw (cnts s) a (rw_level s) (rw_at s).
Definition set_rw_level (c : Z) (n : nat) (s : rw_machine) : rw_machine :=
  mk_rw (cnts s) (wait_lock s) (<[c := n]> (rw_level s)) (rw_at s).

Definition wmasked (v : Z) : bool := negb (Z.land v _QW_WMASK =? 0).
Definition wlocked (v : Z) : bool := negb (Z.land v _QW_LOCKED =? 0).

(** The next access of a context; [None] when it waits for the spin lock. *)
Definition rw_context_step (t : context) (s : rw_machine) : option rw_machine :=
  let v := cnts s in
  let added := u32 (v + _QR_BIAS) in
  let subbed := u32 (v - _QR_BIAS) in
  let enter p := (fun a => rw_goto t p (set_wait a s)) <$> spin_enter t (wait_lock s) in
  match rw_at s t with
  | Outside | Reading | Writing => None
  | Rtry_read => Some (rw_goto t (if wmasked v then Outside else Rtry_add) s)
  | Rtry_add => Some (rw_goto t (if wmasked added then Rtry_sub else Reading) (set_cnts added s))
  | Rtry_sub => Some (rw_goto t Outside (set_cnts subbed s))
  | Wtry_read => Some (rw_goto t (if v =? 0 then Wtry_cas else Outside) s)
  | Wtry_cas => Some (if v =? 0 then rw_goto t Writing (set_cnts _QW_LOCKED s) else rw_goto t Outside s)
  | R_add interrupt =>
      Some (rw_goto t (if wmasked added then if (interrupt : bool) then R_interrupt else R_sub else Reading)
             (set_cnts added s))
  | R_interrupt => Some (if wlocked v then s else rw_goto t Reading s)
  | R_sub => Some (rw_goto t R_lock (set_cnts subbed s))
  | R_lock | R_queued => enter R_add_again
  | R_add_again => Some (rw_goto t R_wait (set_cnts added s))
  | R_wait => Some (if wlocked v then s else rw_goto t R_unlock s)
  | R_unlock => Some (rw_goto t Reading (set_wait (spin_leave (wait_lock s)) s))
  | W_cas => Some (if v =? 0 then rw_goto t Writing (set_cnts _QW_LOCKED s) else rw_goto t W_lock s)
  | W_lock | W_queued => enter W_read
  | W_read => Some (rw_goto t (if v =? 0 then W_cas_direct else W_add) s)
  | W_cas_direct => Some (if v =? 0 then rw_goto t W_unlock (set_cnts _QW_LOCKED s) else rw_goto t W_add s)
  | W_add => Some (rw_goto t W_wait (set_cnts (u32 (v + _QW_WAITING)) s))
  | W_wait => Some (if v =? _QW_WAITING then rw_goto t W_cas_waiting s else s)
  | W_cas_waiting =>
      Some (if v =? _QW_WAITING then rw_goto t W_unlock (set_cnts _QW_LOCKED s) else rw_goto t W_wait s)
  | W_unlock => Some (rw_goto t Writing (set_wait (spin_leave (wait_lock s)) s))
  end.

(** A context takes an access, queues for the spin lock, calls a lock function,
    or releases the lock; an interrupt is taken on a CPU, or returns. *)
Inductive rw_event :=
  | Rw_run (t : context)
  | Rw_queue (t : context)
  | Rw_call (t : context) (p : rw_pc)
  | Rw_read_unlock (t : context)
  | Rw_write_unlock (t : context)
  | Rw_irq (cpu : Z)
  | Rw_iret (cpu : Z).

Definition rw_actor (e : rw_event) : context :=
  match e with
  | Rw_run t | Rw_queue t | Rw_call t _ | Rw_read_unlock t | Rw_write_unlock t => t
  | Rw_irq cpu | Rw_iret cpu => (cpu, O)
  end.

(** Where a lock function starts.  [in_interrupt()] is true above the lowest
    level; there it is also true when bottom halves are disabled. *)
Definition entry_point (t : context) (p : rw_pc) : bool :=
  match p with
  | Rtry_read | Wtry_read | W_cas => true
  | R_add interrupt => interrupt || (t.2 =? 0)%nat
  | _ => false
  end.

(** What the running context does. *)
Definition rw_access (e : rw_event) (s : rw_machine) : option rw_machine :=
  match e with
  | Rw_run t => rw_context_step t s
  | Rw_queue t =>
      match rw_at s t with
      | R_lock => Some (rw_goto t R_queued (set_wait (spin_join t (wait_lock s)) s))
      | W_lock => Some (rw_goto t W_queued (set_wait (spin_join t (wait_lock s)) s))
      | _ => None
      end
  | Rw_call t p =>
      match rw_at s t with
      | Outside => if entry_point t p then Some (rw_goto t p s) else None
      | _ => None
      end
  | Rw_read_unlock t =>
      match rw_at s t with
      | Reading => Some (rw_goto t Outside (set_cnts (u32 (cnts s - _QR_BIAS)) s))
      | _ => None
      end
  | Rw_write_unlock t =>
      match rw_at s t with
      | Writing => Some (rw_goto t Outside (set_cnts (store_field (cnts s) 8 0 0) s))
      | _ => None
      end
  | Rw_irq _ | Rw_iret _ => None
  end.

(** A context runs when no interrupt is being handled on top of it. *)
Definition rw_runs (NR_CPUS : Z) (t : context) (s : rw_machine) : Prop := 0 <= t.1 < NR_CPUS /\ t.2 = rw_level s t.1.

#[export] Instance rw_runs_dec NR_CPUS t s : Decision (rw_runs NR_CPUS t s).
Proof. unfold rw_runs. apply _. Defined.

(** Only the running context of a CPU acts; a handler returns when it uses no
    lock any more. *)
Definition rw_fire (NR_CPUS : Z) (e : rw_event) (s : rw_machine) : option rw_machine :=
  match e with
  | Rw_irq cpu =>
      if decide (0 <= cpu < NR_CPUS /\ (rw_level s cpu < 3)%nat) then Some (set_rw_level cpu (S (rw_level s cpu)) s) else None
  | Rw_iret cpu =>
      if decide (0 <= cpu < NR_CPUS /\ (0 < rw_level s cpu)%nat) then
        match rw_at s (cpu, rw_level s cpu) with
        | Outside => Some (set_rw_level cpu (pred (rw_level s cpu)) s)
        | _ => None
        end
      else None
  | _ => if decide (rw_runs NR_CPUS (rw_actor e) s) then rw_access e s else None
  end.

Definition rw_step (NR_CPUS : Z) (e : rw_event) (s s' : rw_machine) : Prop := rw_fire NR_CPUS e s = Some s'.
Definition rw_reachable (NR_CPUS : Z) : rw_machine -> Prop := rtc (fun s s' => exists e, rw_step NR_CPUS e s s') rw_init.
