(* ===== verification/QrwlockInv.v ===== *)
(** * The queued read-write lock: its invariant

    The lock word counts the contexts that have added themselves as readers,
    and has the two bits of the one writer that waits and of the one that has
    the lock.  A reader that holds the lock excludes the second. *)
From stdpp Require Import base numbers list option functions relations gmap.
From Stdlib Require Import ZArith Lia.
From S2P Require Import Prelude Qspinlock QspinInv QspinLive Qrwlock.

(** ** The lock word *)

Definition rwword (readers : Z) (waiting locked : bool) : Z :=
  readers * 2 ^ 9 + Z.b2z waiting * 256 + Z.b2z locked * 255.

Section word.
Context (r : Z) (w k : bool) (Hr : 0 <= r < 2 ^ 17).

Lemma rwword_range : 0 <= rwword r w k < 2 ^ 32.
Proof using Hr. unfold rwword. destruct w, k; simpl; lia. Qed.

Lemma rwword_land m : 0 <= m < 2 ^ 9 -> Z.land (rwword r w k) m = Z.land (Z.b2z w * 256 + Z.b2z k * 255) m.
Proof using Hr.
  intros Hm. unfold rwword. replace (r * 2 ^ 9 + Z.b2z w * 256 + Z.b2z k * 255) with (Z.b2z w * 256 + Z.b2z k * 255 + r * 2 ^ 9) by lia.
  replace m with (m + 0 * 2 ^ 9) at 1 by lia. rewrite land_split, Z.land_0_r by (destruct w, k; simpl; lia). lia.
Qed.

Lemma rwword_masked : wmasked (rwword r w k) = w || k.
Proof using Hr. unfold wmasked. rewrite rwword_land by done. by destruct w, k. Qed.

Lemma rwword_locked : wlocked (rwword r w k) = k.
Proof using Hr. unfold wlocked. rewrite rwword_land by done. by destruct w, k. Qed.

Lemma rwword_0 : rwword r w k = 0 <-> r = 0 /\ w = false /\ k = false.
Proof using Hr. unfold rwword. destruct w, k; simpl; intuition lia. Qed.

Lemma rwword_waiting : rwword r w k = _QW_WAITING <-> r = 0 /\ w = true /\ k = false.
Proof using Hr. unfold rwword, _QW_WAITING. destruct w, k; simpl; intuition lia. Qed.

Lemma rwword_add : u32 (rwword r w k + _QR_BIAS) = rwword (r + 1) w k.
Proof using Hr.
  pose proof rwword_range. unfold rwword in *. change _QR_BIAS with (2 ^ 9).
  rewrite u32_small by (destruct w, k; simpl in *; lia). lia.
Qed.

Lemma rwword_sub : 0 < r -> u32 (rwword r w k - _QR_BIAS) = rwword (r - 1) w k.
Proof using Hr.
  intros. unfold rwword in *. change _QR_BIAS with (2 ^ 9).
  rewrite u32_small by (destruct w, k; simpl in *; lia). lia.
Qed.

Lemma rwword_unlock : store_field (rwword r w true) 8 0 0 = rwword r w false.
Proof using Hr.
  clear k. unfold store_field. rewrite Z.shiftl_0_l, Z.lor_0_r.
  change (not32 (_Q_SET_MASK 8 0)) with (256 + (2 ^ 23 - 1) * 2 ^ 9).
  unfold rwword. replace (r * 2 ^ 9 + Z.b2z w * 256 + Z.b2z true * 255) with (Z.b2z w * 256 + 255 + r * 2 ^ 9) by (simpl; lia).
  rewrite land_split by (destruct w; simpl; lia).
  change (2 ^ 23 - 1) with (Z.ones 23). rewrite Z.land_ones, Z.mod_small by lia.
  assert (Hl : Z.land (Z.b2z w * 256 + 255) 256 = Z.b2z w * 256) by (by destruct w). rewrite Hl. simpl Z.b2z. lia.
Qed.
End word.

Lemma rwword_wait r k : 0 <= r < 2 ^ 17 -> u32 (rwword r false k + _QW_WAITING) = rwword r true k.
Proof. intros Hr. unfold rwword, _QW_WAITING. rewrite u32_small by (destruct k; simpl; lia). simpl. lia. Qed.

(** ** Roles *)

(** Counted in the word as a reader. *)
Definition counted (p : rw_pc) : bool :=
  match p with Reading | Rtry_sub | R_interrupt | R_sub | R_wait | R_unlock => true | _ => false end.
(** Sure that no writer has the lock. *)
Definition admitted (p : rw_pc) : bool :=
  match p with Reading | R_unlock => true | _ => false end.
Definition locking (p : rw_pc) : bool := match p with Writing | W_unlock => true | _ => false end.
Definition awaiting (p : rw_pc) : bool := match p with W_wait | W_cas_waiting => true | _ => false end.
(** Owns the spin lock, or is queued for it. *)
Definition spinning (p : rw_pc) : bool :=
  match p with
  | R_add_again | R_wait | R_unlock | W_read | W_cas_direct | W_add | W_wait | W_cas_waiting | W_unlock => true
  | _ => false
  end.
Definition spin_queued (p : rw_pc) : bool := match p with R_queued | W_queued => true | _ => false end.

Definition has (o : option context) : bool := bool_decide (is_Some o).

Section inv.
Context (NR_CPUS : Z).

Record rw_inv (s : rw_machine) (readers : gset context) (waiter writer : option context) : Prop := {
  rw_word : cnts s = rwword (Z.of_nat (size readers)) (has waiter) (has writer);
  rw_readers t : t ∈ readers <-> counted (rw_at s t) = true;
  rw_waiter t : waiter = Some t <-> awaiting (rw_at s t) = true;
  rw_writer t : writer = Some t <-> locking (rw_at s t) = true;
  rw_holder t : holder (wait_lock s) = Some t <-> spinning (rw_at s t) = true;
  rw_queued t : t ∈ waiting (wait_lock s) <-> spin_queued (rw_at s t) = true;
  rw_nodup : NoDup (waiting (wait_lock s));
  rw_admitted t : admitted (rw_at s t) = true -> writer = None;
  rw_valid t : rw_at s t <> Outside -> 0 <= t.1 < NR_CPUS /\ (t.2 < 4)%nat
}.

Context (HN : 0 < NR_CPUS < 2 ^ 14).

Lemma contexts_length : length (contexts NR_CPUS) = (4 * Z.to_nat NR_CPUS)%nat.
Proof using.
  clear HN. unfold contexts. rewrite <- (length_seqZ 0 NR_CPUS). generalize (seqZ 0 NR_CPUS).
  induction l as [|c l IH]; [done|]. rewrite bind_cons, length_app, IH. simpl. lia.
Qed.

(** There are fewer readers than contexts. *)
Lemma readers_bound s R ww wo : rw_inv s R ww wo -> 0 <= Z.of_nat (size R) < 2 ^ 16.
Proof using HN.
  intros H. split; [lia|].
  assert (Hle : (size R <= length (contexts NR_CPUS))%nat).
  { unfold size, set_size. apply submseteq_length, NoDup_submseteq; [apply NoDup_elements|].
    intros [c n] Ht%elem_of_elements%(rw_readers _ _ _ _ H).
    destruct (rw_valid _ _ _ _ H (c, n)) as [Hc Hn]; [intros E; by rewrite E in Ht|]. simpl in *.
    apply list_elem_of_bind. exists c. split; [|apply elem_of_seqZ; lia].
    apply list_elem_of_bind. exists n. split; [constructor|].
    do 4 (destruct n as [|n]; [repeat constructor|]). lia. }
  rewrite contexts_length in Hle. lia.
Qed.

End inv.

(** ** Interrupt levels *)

(** Points that only a task reaches: the queue is closed to interrupt handlers. *)
Definition task_only (p : rw_pc) : bool :=
  match p with
  | R_add false | R_sub | R_lock | R_queued | R_add_again | R_wait | R_unlock => true
  | _ => false
  end.

Record rw_levels (NR_CPUS : Z) (s : rw_machine) : Prop := {
  levels_bound c : (rw_level s c < 4)%nat;
  levels_active t : rw_at s t <> Outside -> 0 <= t.1 < NR_CPUS /\ (t.2 <= rw_level s t.1)%nat;
  levels_task t : task_only (rw_at s t) = true -> t.2 = O }.

Section levels.
Context (NR_CPUS : Z).

Lemma levels_goto s s0 t p : rw_levels NR_CPUS s -> rw_level s0 = rw_level s -> rw_at s0 = rw_at s -> rw_runs NR_CPUS t s ->
  (task_only p = true -> t.2 = O) -> rw_levels NR_CPUS (rw_goto t p s0).
Proof using.
  intros [Hb Ha Ht] El Ea [Hc Hr] Hp. split; simpl; rewrite ?El, ?Ea; [done|..]; intros u; destruct (decide (u = t)) as [->|Hu];
    rewrite ?fn_lookup_insert, ?fn_lookup_insert_ne by done; auto. intros _. split; [done|lia].
Qed.

Lemma levels_step t s s' : rw_levels NR_CPUS s -> rw_runs NR_CPUS t s -> rw_context_step t s = Some s' -> rw_levels NR_CPUS s'.
Proof using.
  intros H Hr Hs. pose proof (levels_task _ _ H t) as Ht. unfold rw_context_step in Hs.
  destruct (rw_at s t) eqn:E; try destruct (spin_enter t (wait_lock s)); simplify_eq/=; repeat case_match; subst;
    try done; apply (levels_goto s); try done; auto.
Qed.

Lemma levels_access e s s' : rw_levels NR_CPUS s -> rw_runs NR_CPUS (rw_actor e) s -> rw_access e s = Some s' -> rw_levels NR_CPUS s'.
Proof using.
  intros H Hr Hs. destruct e as [t|t|t p|t|t|c|c]; simpl in *; try done; [by apply (levels_step t s)|..];
    pose proof (levels_task _ _ H t) as Ht; destruct (rw_at s t) eqn:E; try done;
    try (destruct (entry_point t p) eqn:Ep; [|done]); simplify_eq; apply (levels_goto s); try done; auto.
  intros Hp. destruct p as [| | | | | | | |i| | | | | | | | | | | | | | | |]; try done. destruct i; [done|].
  simpl in Ep. by apply Nat.eqb_eq.
Qed.

(** An interrupt comes or goes. *)
Lemma levels_set c n s : rw_levels NR_CPUS s -> (n < 4)%nat ->
  (forall m, rw_at s (c, m) <> Outside -> (m <= n)%nat) -> rw_levels NR_CPUS (set_rw_level c n s).
Proof using.
  intros [Hb Ha Ht] Hn Hm. split; simpl; [..|done].
  - intros d. destruct (decide (d = c)) as [->|Hd]; rewrite ?fn_lookup_insert, ?fn_lookup_insert_ne by done; auto.
  - intros [d m] Hu. split; [by apply Ha in Hu as []|]. simpl.
    destruct (decide (d = c)) as [->|Hd]; rewrite ?fn_lookup_insert, ?fn_lookup_insert_ne by done; [by apply Hm|by apply Ha in Hu as []].
Qed.

Lemma levels_fire e s s' : rw_levels NR_CPUS s -> rw_fire NR_CPUS e s = Some s' -> rw_levels NR_CPUS s'.
Proof using.
  intros H Hs. destruct e as [t|t|t p|t|t|c|c]; unfold rw_fire in Hs;
    try (case_decide as Hr; [|done]; by eapply levels_access).
  - case_decide as Hc; [|done]. injection Hs as <-. apply levels_set; [done|lia|].
    intros m Hm. apply (levels_active _ _ H) in Hm as [_ Hm]. simpl in Hm. lia.
  - case_decide as Hc; [|done]. destruct (rw_at s (c, rw_level s c)) eqn:E; try done. injection Hs as <-.
    pose proof (levels_bound _ _ H c). apply levels_set; [done|lia|].
    intros m Hm. assert (m <> rw_level s c) by (by intros ->). apply (levels_active _ _ H) in Hm as [_ Hm]. simpl in Hm. lia.
Qed.

Lemma levels_init : rw_levels NR_CPUS rw_init.
Proof using. split; simpl; [lia|done|done]. Qed.
End levels.

(** ** One context moves *)

Definition put (b : bool) (t : context) (R : gset context) : gset context := if b then {[t]} ∪ R else R ∖ {[t]}.
Definition puto (b : bool) (t : context) (o : option context) : option context :=
  if b then Some t else if decide (o = Some t) then None else o.

Lemma puto_iff b t o : (b = true -> o = None \/ o = Some t) -> forall u, puto b t o = Some u <-> (if decide (u = t) then b = true else o = Some u).
Proof.
  intros Hb u. unfold puto. destruct b; repeat case_decide; subst; try (split; congruence).
  split; [congruence|]. intros ->. destruct Hb; [done|congruence|congruence].
Qed.

Lemma puto_same t o b : (o = Some t <-> b = true) -> puto b t o = o.
Proof. intros H. unfold puto. destruct b; [by rewrite (proj2 H)|]. case_decide as E; [|done]. by apply H in E. Qed.

Lemma put_same (t : context) (R : gset context) b : (t ∈ R <-> b = true) -> put b t R = R.
Proof. intros H. apply leibniz_equiv. unfold put. destruct b; set_solver. Qed.

Lemma put_in (t : context) (R : gset context) : t ∉ R -> size (put true t R) = S (size R).
Proof. intros H. unfold put. rewrite size_union by set_solver. by rewrite size_singleton. Qed.

Lemma put_out (t : context) (R : gset context) : t ∈ R -> size R = S (size (put false t R)).
Proof.
  intros H. unfold put. rewrite (union_difference_singleton_L t R) at 1 by done.
  rewrite size_union by set_solver. by rewrite size_singleton.
Qed.

Section move.
Context (NR_CPUS : Z) (s : rw_machine) (R : gset context) (ww wo : option context) (t : context).
Context (H : rw_inv NR_CPUS s R ww wo).

Lemma rw_update p v a :
  v = rwword (Z.of_nat (size (put (counted p) t R))) (has (puto (awaiting p) t ww)) (has (puto (locking p) t wo)) ->
  (awaiting p = true -> ww = None \/ ww = Some t) -> (locking p = true -> wo = None \/ wo = Some t) ->
  (spinning p = true -> holder (wait_lock s) = None \/ holder (wait_lock s) = Some t) ->
  holder a = puto (spinning p) t (holder (wait_lock s)) ->
  (t ∈ waiting a <-> spin_queued p = true) -> (forall u, u <> t -> u ∈ waiting a <-> u ∈ waiting (wait_lock s)) ->
  NoDup (waiting a) ->
  (admitted p = true -> wo = None) -> (admitted p = true -> locking p = false) ->
  (locking p = true -> forall u, admitted (rw_at s u) = true -> u = t) ->
  (rw_at s t <> Outside \/ 0 <= t.1 < NR_CPUS /\ (t.2 < 4)%nat) ->
  rw_inv NR_CPUS (mk_rw v a (rw_level s) (<[t := p]> (rw_at s))) (put (counted p) t R) (puto (awaiting p) t ww) (puto (locking p) t wo).
Proof using H.
  intros Hv Hww Hwo Hh Ha Hq1 Hq2 Hnd Had1 Had2 Hlk Hval. split; cbn [cnts wait_lock rw_level rw_at].
  - exact Hv.
  - intros u. destruct (decide (u = t)) as [->|Hu].
    + rewrite fn_lookup_insert. unfold put. destruct (counted p); set_solver.
    + rewrite fn_lookup_insert_ne, <- (rw_readers _ _ _ _ _ H) by done. unfold put. destruct (counted p); set_solver.
  - intros u. rewrite puto_iff by done. case_decide as E; [subst; by rewrite fn_lookup_insert|].
    rewrite fn_lookup_insert_ne by done. apply H.
  - intros u. rewrite puto_iff by done. case_decide as E; [subst; by rewrite fn_lookup_insert|].
    rewrite fn_lookup_insert_ne by done. apply H.
  - intros u. rewrite Ha, puto_iff by done. case_decide as E; [subst; by rewrite fn_lookup_insert|].
    rewrite fn_lookup_insert_ne by done. apply H.
  - intros u. destruct (decide (u = t)) as [->|Hu]; [by rewrite fn_lookup_insert|].
    rewrite fn_lookup_insert_ne, Hq2 by done. apply H.
  - exact Hnd.
  - intros u. destruct (decide (u = t)) as [->|Hu].
    + rewrite fn_lookup_insert. intros E. unfold puto. rewrite Had2, Had1 by done. by case_decide.
    + rewrite fn_lookup_insert_ne by done. intros E. unfold puto. destruct (locking p) eqn:El.
      * exfalso. apply Hu. by apply Hlk.
      * rewrite (rw_admitted _ _ _ _ _ H u E). by case_decide.
  - intros u. destruct (decide (u = t)) as [->|Hu].
    + intros _. destruct Hval as [Hval|Hval]; [by apply H|done].
    + rewrite fn_lookup_insert_ne by done. apply H.
Qed.

(** The roles before the move, from the program point. *)
Lemma puto_awaiting b : awaiting (rw_at s t) = b -> puto b t ww = ww.
Proof using H. intros <-. apply puto_same, H. Qed.
Lemma puto_locking b : locking (rw_at s t) = b -> puto b t wo = wo.
Proof using H. intros <-. apply puto_same, H. Qed.
Lemma put_counted b : counted (rw_at s t) = b -> put b t R = R.
Proof using H. intros <-. apply put_same, H. Qed.

(** A move that leaves the spin lock alone. *)
Lemma rw_update_pc p v :
  v = rwword (Z.of_nat (size (put (counted p) t R))) (has (puto (awaiting p) t ww)) (has (puto (locking p) t wo)) ->
  (awaiting p = true -> ww = None \/ ww = Some t) -> (locking p = true -> wo = None \/ wo = Some t) ->
  spinning p = spinning (rw_at s t) -> spin_queued p = spin_queued (rw_at s t) ->
  (admitted p = true -> wo = None) -> (admitted p = true -> locking p = false) ->
  (locking p = true -> forall u, admitted (rw_at s u) = true -> u = t) ->
  (rw_at s t <> Outside \/ 0 <= t.1 < NR_CPUS /\ (t.2 < 4)%nat) ->
  rw_inv NR_CPUS (mk_rw v (wait_lock s) (rw_level s) (<[t := p]> (rw_at s))) (put (counted p) t R) (puto (awaiting p) t ww) (puto (locking p) t wo).
Proof using H.
  intros Hv Hww Hwo Hsp Hsq Had1 Had2 Hlk Hval. apply rw_update; try done.
  - rewrite Hsp. intros E. right. by apply H.
  - rewrite Hsp. symmetry. apply puto_same, H.
  - rewrite Hsq. apply H.
  - apply H.
Qed.
End move.
