(* ===== verification/QrwlockRun.v ===== *)
(** * The queued read-write lock: runs *)
From stdpp Require Import base numbers list option functions relations gmap.
From Stdlib Require Import ZArith Lia.
From S2P Require Import Prelude Qspinlock QspinInv Qrwlock QrwlockInv.

(** The roles that only a move of a special kind changes. *)
Definition same_roles (p q : rw_pc) : Prop :=
  awaiting q = awaiting p /\ locking q = locking p /\ spinning q = spinning p /\ spin_queued q = spin_queued p.

Section moves.
Context (NR_CPUS : Z) (HN : 0 < NR_CPUS < 2 ^ 14).
Context (s : rw_machine) (R : gset context) (ww wo : option context) (t : context).
Context (H : rw_inv NR_CPUS s R ww wo).

Lemma bound : 0 <= Z.of_nat (size R) < 2 ^ 16.
Proof using H HN. by apply (readers_bound NR_CPUS HN s R ww wo). Qed.

Lemma no_readers_admitted : size R = 0%nat -> forall u, admitted (rw_at s u) = true -> u = t.
Proof using H HN.
  intros HR u Hu. exfalso. apply size_empty_inv in HR.
  assert (u ∈ R) by (apply (rw_readers _ _ _ _ _ H); by destruct (rw_at s u)). set_solver.
Qed.

Lemma writer_excludes p : locking p = locking (rw_at s t) -> locking p = true ->
  forall u, admitted (rw_at s u) = true -> u = t.
Proof using H HN.
  intros E Hp u Hu. apply (rw_admitted _ _ _ _ _ H) in Hu.
  assert (wo = Some t) by (apply H; congruence). congruence.
Qed.

Lemma writer_self p : locking p = locking (rw_at s t) -> locking p = true -> wo = None \/ wo = Some t.
Proof using H HN. intros E Hp. right. apply H. congruence. Qed.
Lemma waiter_self p : awaiting p = awaiting (rw_at s t) -> awaiting p = true -> ww = None \/ ww = Some t.
Proof using H HN. intros E Hp. right. apply H. congruence. Qed.

Definition inv_after (s' : rw_machine) : Prop := exists R' ww' wo', rw_inv NR_CPUS s' R' ww' wo'.

Definition present : Prop := rw_at s t <> Outside \/ 0 <= t.1 < NR_CPUS /\ (t.2 < 4)%nat.

(** No effect on the word. *)
Lemma keep_ok p : present -> same_roles (rw_at s t) p -> counted p = counted (rw_at s t) ->
  (admitted p = true -> wo = None) -> inv_after (rw_goto t p s).
Proof using H HN.
  intros Hp (H1 & H2 & H3 & H4) Hc Had. do 3 eexists.
  apply (rw_update_pc NR_CPUS s R ww wo t H); try done.
  - rewrite put_same, !puto_same by (rewrite ?Hc, ?H1, ?H2; apply H). apply H.
  - by apply waiter_self.
  - by apply writer_self.
  - by destruct p.
  - by apply writer_excludes.
Qed.

(** A reader adds itself to the count, or takes itself off. *)
Lemma add_ok p : present -> same_roles (rw_at s t) p -> counted (rw_at s t) = false -> counted p = true ->
  (admitted p = true -> wo = None) -> inv_after (rw_goto t p (set_cnts (u32 (cnts s + _QR_BIAS)) s)).
Proof using H HN.
  intros Hp (H1 & H2 & H3 & H4) Hc Hc' Had. pose proof bound. do 3 eexists.
  apply (rw_update_pc NR_CPUS s R ww wo t H); try done.
  - cbn [cnts set_cnts]. rewrite (rw_word _ _ _ _ _ H), rwword_add by lia. rewrite Hc', put_in.
    + rewrite !puto_same by (rewrite ?H1, ?H2; apply H). f_equal. lia.
    + rewrite (rw_readers _ _ _ _ _ H). congruence.
  - by apply waiter_self.
  - by apply writer_self.
  - by destruct p.
  - by apply writer_excludes.
Qed.

Lemma sub_ok p : present -> same_roles (rw_at s t) p -> counted (rw_at s t) = true -> counted p = false ->
  inv_after (rw_goto t p (set_cnts (u32 (cnts s - _QR_BIAS)) s)).
Proof using H HN.
  intros Hp (H1 & H2 & H3 & H4) Hc Hc'. pose proof bound.
  assert (Ht : t ∈ R) by (by apply (rw_readers _ _ _ _ _ H)). pose proof (put_out t R Ht) as Hsz. do 3 eexists.
  apply (rw_update_pc NR_CPUS s R ww wo t H); try done.
  - cbn [cnts set_cnts]. rewrite (rw_word _ _ _ _ _ H), rwword_sub by lia. rewrite Hc'.
    rewrite !puto_same by (rewrite ?H1, ?H2; apply H). f_equal. lia.
  - by apply waiter_self.
  - by apply writer_self.
  - by destruct p.
  - by destruct p.
  - by apply writer_excludes.
Qed.

(** A writer finds the word 0. *)
Lemma take_ok p : present -> cnts s = 0 -> spinning p = spinning (rw_at s t) -> spin_queued p = spin_queued (rw_at s t) ->
  counted p = false -> awaiting p = false -> locking p = true -> counted (rw_at s t) = false ->
  inv_after (rw_goto t p (set_cnts _QW_LOCKED s)).
Proof using H HN.
  intros Hp H0 H3 H4 Hc Hw Hl Hc0. pose proof bound. rewrite (rw_word _ _ _ _ _ H), rwword_0 in H0 by lia.
  destruct H0 as (HR & Hww & Hwo). assert (Hww' : ww = None) by (by destruct ww). assert (Hwo' : wo = None) by (by destruct wo).
  do 3 eexists. apply (rw_update_pc NR_CPUS s R ww wo t H); try done.
  - rewrite Hc, put_same by (rewrite (rw_readers _ _ _ _ _ H); by rewrite Hc0).
    rewrite HR, Hw, Hl, Hww'. done.
  - by left.
  - by left.
  - by destruct p.
  - intros _. apply no_readers_admitted. lia.
Qed.

(** The owner of the spin lock announces that it waits, or takes the lock from
    the readers, all gone. *)
Lemma wait_ok : rw_at s t = W_add -> inv_after (rw_goto t W_wait (set_cnts (u32 (cnts s + _QW_WAITING)) s)).
Proof using H HN.
  intros E. pose proof bound. assert (Hww : ww = None).
  { destruct ww as [u|] eqn:Eu; [|done]. exfalso. pose proof (proj1 (rw_waiter _ _ _ _ _ H u) eq_refl) as Hu.
    assert (Hs : holder (wait_lock s) = Some u) by (apply H; by destruct (rw_at s u)).
    assert (Ht : holder (wait_lock s) = Some t) by (apply H; by rewrite E). rewrite Hs in Ht. injection Ht as ->.
    by rewrite E in Hu. }
  do 3 eexists. apply (rw_update_pc NR_CPUS s R ww wo t H); rewrite ?E; try done; [| by left | by left].
  cbn [cnts set_cnts]. pose proof (rw_word _ _ _ _ _ H) as Ew. rewrite Hww in Ew. rewrite Ew.
  change (has None) with false. rewrite rwword_wait by lia. rewrite put_same by (rewrite (rw_readers _ _ _ _ _ H), E; done).
  rewrite (puto_same t wo) by (rewrite (rw_writer _ _ _ _ _ H), E; done). done.
Qed.

Lemma claim_ok : rw_at s t = W_cas_waiting -> cnts s = _QW_WAITING ->
  inv_after (rw_goto t W_unlock (set_cnts _QW_LOCKED s)).
Proof using H HN.
  intros E H0. pose proof bound. rewrite (rw_word _ _ _ _ _ H), rwword_waiting in H0 by lia.
  destruct H0 as (HR & _ & Hwo). assert (Hwo' : wo = None) by (by destruct wo).
  assert (Hww : ww = Some t) by (apply H; by rewrite E).
  do 3 eexists. apply (rw_update_pc NR_CPUS s R ww wo t H); rewrite ?E; try done.
  - rewrite Hww. change (puto (awaiting W_unlock) t (Some t)) with (if decide (Some t = Some t) then None else Some t).
    rewrite decide_True by done. rewrite put_same by (rewrite (rw_readers _ _ _ _ _ H), E; done).
    rewrite HR. done.
  - by left.
  - intros _. apply no_readers_admitted. lia.
  - by left.
Qed.

Lemma unlock_ok : rw_at s t = Writing -> inv_after (rw_goto t Outside (set_cnts (store_field (cnts s) 8 0 0) s)).
Proof using H HN.
  intros E. pose proof bound. assert (Hwo : wo = Some t) by (apply H; by rewrite E).
  do 3 eexists. apply (rw_update_pc NR_CPUS s R ww wo t H); rewrite ?E; try done; [|by left].
  cbn [cnts set_cnts]. pose proof (rw_word _ _ _ _ _ H) as Ew. rewrite Hwo in Ew. rewrite Ew, Hwo.
  change (has (Some t)) with true. rewrite rwword_unlock by lia.
  rewrite put_same by (rewrite (rw_readers _ _ _ _ _ H), E; done).
  rewrite (puto_same t ww) by (rewrite (rw_waiter _ _ _ _ _ H), E; done).
  change (puto (locking Outside) t (Some t)) with (if decide (Some t = Some t) then None else Some t).
  by rewrite decide_True.
Qed.

(** The spin lock. *)
Lemma enter_ok p a : present -> spin_enter t (wait_lock s) = Some a ->
  spinning (rw_at s t) = false -> awaiting p = awaiting (rw_at s t) -> locking p = locking (rw_at s t) ->
  counted p = counted (rw_at s t) -> spinning p = true -> spin_queued p = false -> admitted p = false ->
  (spin_queued (rw_at s t) = true \/ rw_at s t = R_lock \/ rw_at s t = W_lock) ->
  inv_after (rw_goto t p (set_wait a s)).
Proof using H HN.
  intros Hp Ha Hsp H1 H2 Hc H3 H4 Had Hq. unfold spin_enter in Ha.
  pose proof (rw_nodup _ _ _ _ _ H) as Hnd. pose proof (rw_queued _ _ _ _ _ H t) as Hqt.
  destruct (holder (wait_lock s)) as [o|] eqn:Eh; [done|]. do 3 eexists.
  apply (rw_update NR_CPUS s R ww wo t H); try done.
  - cbn [cnts set_wait]. rewrite put_same, !puto_same by (rewrite ?Hc, ?H1, ?H2; apply H). apply H.
  - by apply waiter_self.
  - by apply writer_self.
  - by left.
  - rewrite H3. simpl. destruct (waiting (wait_lock s)); simplify_eq/=; [done|]. case_decide; by simplify_eq/=.
  - rewrite H4. split; [|done]. destruct (waiting (wait_lock s)) as [|u w] eqn:Ew; simplify_eq/=; [by intros ?%not_elem_of_nil|].
    case_decide; simplify_eq/=. apply NoDup_cons in Hnd as [Hnd _]. by intros ?%Hnd.
  - intros u Hu. destruct (waiting (wait_lock s)) as [|v w] eqn:Ew; simplify_eq/=; [done|].
    case_decide; simplify_eq/=. rewrite elem_of_cons. naive_solver.
  - destruct (waiting (wait_lock s)) as [|v w] eqn:Ew; simplify_eq/=; [constructor|].
    case_decide; simplify_eq/=. by apply NoDup_cons in Hnd as [_ ?].
  - by rewrite Had.
  - by rewrite Had.
  - by apply writer_excludes.
Qed.

Lemma leave_ok p : present -> spinning (rw_at s t) = true ->
  awaiting p = awaiting (rw_at s t) -> locking p = locking (rw_at s t) ->
  counted p = counted (rw_at s t) -> spinning p = false -> spin_queued p = false -> (admitted p = true -> wo = None) ->
  inv_after (rw_goto t p (set_wait (spin_leave (wait_lock s)) s)).
Proof using H HN.
  intros Hp Hsp H1 H2 Hc H3 H4 Had. do 3 eexists.
  assert (Hh : holder (wait_lock s) = Some t) by (by apply H).
  apply (rw_update NR_CPUS s R ww wo t H); try done.
  - cbn [cnts set_wait]. rewrite put_same, !puto_same by (rewrite ?Hc, ?H1, ?H2; apply H). apply H.
  - by apply waiter_self.
  - by apply writer_self.
  - by rewrite H3.
  - rewrite H3, Hh. unfold puto. by rewrite decide_True.
  - rewrite H4, <- (rw_queued _ _ _ _ _ H t) || rewrite H4.
    pose proof (rw_queued _ _ _ _ _ H t) as Hq. simpl. rewrite Hq. by destruct (rw_at s t).
  - apply H.
  - by destruct p.
  - by apply writer_excludes.
Qed.

Lemma join_ok p : present -> spin_queued (rw_at s t) = false -> spinning (rw_at s t) = false ->
  awaiting p = awaiting (rw_at s t) -> locking p = locking (rw_at s t) ->
  counted p = counted (rw_at s t) -> spinning p = false -> spin_queued p = true -> admitted p = false ->
  inv_after (rw_goto t p (set_wait (spin_join t (wait_lock s)) s)).
Proof using H HN.
  intros Hp Hsq Hsp H1 H2 Hc H3 H4 Had. do 3 eexists.
  assert (Hq : t ∉ waiting (wait_lock s)) by (rewrite (rw_queued _ _ _ _ _ H); congruence).
  apply (rw_update NR_CPUS s R ww wo t H); try done.
  - cbn [cnts set_wait]. rewrite put_same, !puto_same by (rewrite ?Hc, ?H1, ?H2; apply H). apply H.
  - by apply waiter_self.
  - by apply writer_self.
  - by rewrite H3.
  - rewrite H3. cbn [wait_lock set_wait spin_join holder]. rewrite puto_same; [done|]. rewrite (rw_holder _ _ _ _ _ H). by rewrite Hsp.
  - rewrite H4. simpl. split; [done|]. intros _. apply elem_of_app. right. constructor.
  - intros u Hu. simpl. rewrite elem_of_app, list_elem_of_singleton. naive_solver.
  - simpl. apply NoDup_app. split_and!; [apply H| |apply NoDup_singleton].
    intros u Hu ->%list_elem_of_singleton. done.
  - by rewrite Had.
  - by rewrite Had.
  - by apply writer_excludes.
Qed.
End moves.

(** The branches of the program point a move goes to. *)
Ltac branches := repeat match goal with |- context [if ?b then _ else _] => destruct b eqn:? end.

Section run.
Context (NR_CPUS : Z) (HN : 0 < NR_CPUS < 2 ^ 14).

Lemma rw_context_ok s R ww wo t s' :
  rw_inv NR_CPUS s R ww wo -> rw_context_step t s = Some s' -> inv_after NR_CPUS s'.
Proof using HN.
  intros H Hs. pose proof (bound NR_CPUS HN s R ww wo H) as Hb.
  assert (Hself : inv_after NR_CPUS s) by (by exists R, ww, wo).
  assert (Hp : rw_at s t <> Outside -> present NR_CPUS s t) by (by left).
  pose proof (rw_word _ _ _ _ _ H) as Ew.
  assert (Hlk : wlocked (cnts s) = false -> wo = None).
  { rewrite Ew, rwword_locked by lia. by destruct wo. }
  assert (Hadd : wmasked (u32 (cnts s + _QR_BIAS)) = false -> wo = None).
  { rewrite Ew, rwword_add, rwword_masked by lia. destruct wo; [|done]. by rewrite orb_true_r. }
  unfold rw_context_step in Hs. destruct (rw_at s t) eqn:E; try discriminate;
    specialize (Hp ltac:(discriminate)).
  - injection Hs as <-. apply (keep_ok NR_CPUS HN s R ww wo t H); rewrite ?E; try done; by branches.
  - injection Hs as <-. apply (add_ok NR_CPUS HN s R ww wo t H); rewrite ?E; try done; branches; auto; done.
  - injection Hs as <-. by apply (sub_ok NR_CPUS HN s R ww wo t H); rewrite ?E.
  - injection Hs as <-. apply (keep_ok NR_CPUS HN s R ww wo t H); rewrite ?E; try done; by branches.
  - injection Hs as <-. destruct (Z.eqb_spec (cnts s) 0).
    + by apply (take_ok NR_CPUS HN s R ww wo t H); rewrite ?E.
    + by apply (keep_ok NR_CPUS HN s R ww wo t H); rewrite ?E.
  - injection Hs as <-. apply (add_ok NR_CPUS HN s R ww wo t H); rewrite ?E; try done; branches; auto; done.
  - injection Hs as <-. destruct (wlocked (cnts s)) eqn:Em; [done|].
    apply (keep_ok NR_CPUS HN s R ww wo t H); rewrite ?E; try done. intros _. by apply Hlk.
  - injection Hs as <-. by apply (sub_ok NR_CPUS HN s R ww wo t H); rewrite ?E.
  - destruct (spin_enter t (wait_lock s)) as [a|] eqn:Ea; simpl in Hs; [injection Hs as <-|done].
    apply (enter_ok NR_CPUS HN s R ww wo t H); rewrite ?E; try done. auto.
  - destruct (spin_enter t (wait_lock s)) as [a|] eqn:Ea; simpl in Hs; [injection Hs as <-|done].
    apply (enter_ok NR_CPUS HN s R ww wo t H); rewrite ?E; try done. auto.
  - injection Hs as <-. by apply (add_ok NR_CPUS HN s R ww wo t H); rewrite ?E.
  - injection Hs as <-. destruct (wlocked (cnts s)) eqn:Em; [done|].
    apply (keep_ok NR_CPUS HN s R ww wo t H); rewrite ?E; try done. intros _. by apply Hlk.
  - injection Hs as <-. apply (leave_ok NR_CPUS HN s R ww wo t H); rewrite ?E; try done.
    intros _. apply (rw_admitted _ _ _ _ _ H t). by rewrite E.
  - injection Hs as <-. destruct (Z.eqb_spec (cnts s) 0).
    + by apply (take_ok NR_CPUS HN s R ww wo t H); rewrite ?E.
    + by apply (keep_ok NR_CPUS HN s R ww wo t H); rewrite ?E.
  - destruct (spin_enter t (wait_lock s)) as [a|] eqn:Ea; simpl in Hs; [injection Hs as <-|done].
    apply (enter_ok NR_CPUS HN s R ww wo t H); rewrite ?E; try done. auto.
  - destruct (spin_enter t (wait_lock s)) as [a|] eqn:Ea; simpl in Hs; [injection Hs as <-|done].
    apply (enter_ok NR_CPUS HN s R ww wo t H); rewrite ?E; try done. auto.
  - injection Hs as <-. apply (keep_ok NR_CPUS HN s R ww wo t H); rewrite ?E; try done; by branches.
  - injection Hs as <-. destruct (Z.eqb_spec (cnts s) 0).
    + by apply (take_ok NR_CPUS HN s R ww wo t H); rewrite ?E.
    + by apply (keep_ok NR_CPUS HN s R ww wo t H); rewrite ?E.
  - injection Hs as <-. by apply (wait_ok NR_CPUS HN s R ww wo t H).
  - injection Hs as <-. destruct (Z.eqb_spec (cnts s) _QW_WAITING); [|done].
    by apply (keep_ok NR_CPUS HN s R ww wo t H); rewrite ?E.
  - injection Hs as <-. destruct (Z.eqb_spec (cnts s) _QW_WAITING).
    + by apply (claim_ok NR_CPUS HN s R ww wo t H).
    + by apply (keep_ok NR_CPUS HN s R ww wo t H); rewrite ?E.
  - injection Hs as <-. apply (leave_ok NR_CPUS HN s R ww wo t H); rewrite ?E; try done.
Qed.

Lemma rw_access_ok e s R ww wo s' : rw_inv NR_CPUS s R ww wo -> present NR_CPUS s (rw_actor e) ->
  rw_access e s = Some s' -> inv_after NR_CPUS s'.
Proof using HN.
  intros H Hp Hs. pose proof (bound NR_CPUS HN s R ww wo H) as Hb.
  destruct e as [t|t|t p|t|t|c|c]; simpl in Hs, Hp; try done.
  - by apply (rw_context_ok s R ww wo t).
  - destruct (rw_at s t) eqn:E; try discriminate; injection Hs as <-;
      apply (join_ok NR_CPUS HN s R ww wo t H); by rewrite ?E.
  - destruct (rw_at s t) eqn:E; try discriminate.
    destruct (entry_point t p) eqn:Ep; [|done]. injection Hs as <-.
    apply (keep_ok NR_CPUS HN s R ww wo t H); rewrite ?E; try done; by destruct p.
  - destruct (rw_at s t) eqn:E; try discriminate. injection Hs as <-.
    by apply (sub_ok NR_CPUS HN s R ww wo t H); rewrite ?E.
  - destruct (rw_at s t) eqn:E; try discriminate. injection Hs as <-.
    apply (unlock_ok NR_CPUS HN s R ww wo t H); by rewrite ?E.
Qed.

Lemma set_level_ok c n s R ww wo : rw_inv NR_CPUS s R ww wo -> inv_after NR_CPUS (set_rw_level c n s).
Proof using. intros H. exists R, ww, wo. destruct H. by split. Qed.

Lemma rw_fire_ok e s R ww wo s' : rw_inv NR_CPUS s R ww wo -> rw_levels NR_CPUS s ->
  rw_fire NR_CPUS e s = Some s' -> inv_after NR_CPUS s'.
Proof using HN.
  intros H Hl Hs. destruct e as [t|t|t p|t|t|c|c]; unfold rw_fire in Hs;
    try (case_decide as Hr; [|done]; eapply rw_access_ok; [exact H| |exact Hs]; right;
         destruct Hr as [Hc Hr]; pose proof (levels_bound _ _ Hl t.1); simpl in *; split; [done|lia]).
  - case_decide; simplify_eq. by eapply set_level_ok.
  - case_decide; [|done]. case_match; simplify_eq. by eapply set_level_ok.
Qed.

Lemma rw_init_ok : rw_inv NR_CPUS rw_init ∅ None None.
Proof using.
  clear HN. split; simpl; try done; try (intros t; split; done).
  - intros t. split; [by intros ?%not_elem_of_nil|done].
  - constructor.
Qed.

Lemma rw_reachable_inv s : rw_reachable NR_CPUS s -> inv_after NR_CPUS s /\ rw_levels NR_CPUS s.
Proof using HN.
  intros H. assert (H0 : inv_after NR_CPUS rw_init /\ rw_levels NR_CPUS rw_init)
    by (split; [do 3 eexists; apply rw_init_ok|apply levels_init]).
  revert H H0. unfold rw_reachable. generalize rw_init. induction 1 as [|a b c [e Hab] Hbc IH]; [done|].
  intros [(R & ww & wo & Hinv) Hl]. apply IH. split; [by apply (rw_fire_ok e a R ww wo)|by apply (levels_fire NR_CPUS e a)].
Qed.
End run.

(** ** The queued read-write lock: its use of the spin lock, and progress *)

Lemma spin_enter_fifo t a a' : spin_enter t a = Some a' -> fifo_step t a a'.
Proof.
  unfold spin_enter. destruct a as [[o|] [|u w]]; simpl; intros; simplify_eq; [constructor|].
  case_decide; simplify_eq. constructor.
Qed.

Section live.
Context (NR_CPUS : Z) (HN : 0 < NR_CPUS < 2 ^ 14).
Context (s : rw_machine) (R : gset context) (ww wo : option context) (H : rw_inv NR_CPUS s R ww wo).

Lemma spin_leave_fifo t : spinning (rw_at s t) = true -> fifo_step t (wait_lock s) (spin_leave (wait_lock s)).
Proof using H.
  intros Ht. apply (rw_holder _ _ _ _ _ H) in Ht. destruct (wait_lock s) as [o w]. simpl in *. subst o. constructor.
Qed.

Lemma spin_join_fifo t : spin_queued (rw_at s t) = false -> fifo_step t (wait_lock s) (spin_join t (wait_lock s)).
Proof using H.
  intros Ht. pose proof (rw_queued _ _ _ _ _ H t) as Hq. destruct (wait_lock s) as [o w]. simpl in *. constructor.
  rewrite Hq. congruence.
Qed.

Lemma rw_access_fifo e s' : rw_access e s = Some s' -> fifo_step (rw_actor e) (wait_lock s) (wait_lock s').
Proof using H.
  intros Hs. destruct e as [t|t|t p|t|t|c|c]; simpl in *; try done.
  - unfold rw_context_step in Hs. destruct (rw_at s t) eqn:E; simplify_eq; simpl; try (by constructor);
      try (case_match; by constructor);
      try (destruct (spin_enter t (wait_lock s)) as [a|] eqn:Ea; simpl in Hs; simplify_eq; by apply spin_enter_fifo);
      apply spin_leave_fifo; by rewrite E.
  - destruct (rw_at s t) eqn:E; simplify_eq; apply spin_join_fifo; by rewrite E.
  - repeat (case_match; simplify_eq; try done). constructor.
  - repeat (case_match; simplify_eq; try done). constructor.
  - repeat (case_match; simplify_eq; try done). constructor.
Qed.

(** Each move of the lock is a move of its spin lock. *)
Lemma rw_fire_fifo e s' : rw_fire NR_CPUS e s = Some s' -> fifo_step (rw_actor e) (wait_lock s) (wait_lock s').
Proof using H.
  intros Hs. destruct e; unfold rw_fire in Hs; case_decide; try done; try (by apply rw_access_fifo);
    repeat case_match; simplify_eq; constructor.
Qed.

(** ** Progress *)

(** Context [t] can take a step that moves it on. *)
Definition moves_on (t : context) : Prop := exists s', rw_context_step t s = Some s' /\ rw_at s' t <> rw_at s t.

Lemma goto_moves_on t p s1 : rw_context_step t s = Some (rw_goto t p s1) -> p <> rw_at s t -> moves_on t.
Proof using. intros Hs Hp. eexists. split; [exact Hs|]. simpl. by rewrite fn_lookup_insert. Qed.

(** The program points that may have to wait. *)
Definition may_wait (p : rw_pc) : bool :=
  match p with
  | Outside | Reading | Writing | R_interrupt | R_lock | R_queued | R_wait | W_lock | W_queued | W_wait => true
  | _ => false
  end.

Lemma no_wait t : may_wait (rw_at s t) = false -> moves_on t.
Proof using.
  intros Ht. unfold moves_on, rw_context_step. destruct (rw_at s t) eqn:E; try done;
    repeat case_match; eexists; (split; [reflexivity|]); simpl; by rewrite fn_lookup_insert.
Qed.

Lemma no_writer_moves t : wo = None -> rw_at s t = R_interrupt \/ rw_at s t = R_wait -> moves_on t.
Proof using H HN.
  intros Hwo Ht. pose proof (bound NR_CPUS HN s R ww wo H) as Hb.
  assert (Hlk : wlocked (cnts s) = false) by (rewrite (rw_word _ _ _ _ _ H), rwword_locked, Hwo by lia; done).
  destruct Ht as [E|E]; eapply goto_moves_on; try (unfold rw_context_step; rewrite E, Hlk; reflexivity); by rewrite E.
Qed.

Lemma enter_moves t : rw_at s t = R_lock \/ rw_at s t = R_queued \/ rw_at s t = W_lock \/ rw_at s t = W_queued ->
  is_Some (spin_enter t (wait_lock s)) -> moves_on t.
Proof using.
  intros Ht [a Ha]. destruct Ht as [E|[E|[E|E]]];
    eapply goto_moves_on; try (unfold rw_context_step; rewrite E, Ha; reflexivity); by rewrite E.
Qed.

(** Can go on if its CPU lets it: by a step, or by releasing the lock. *)
Definition ready (t : context) : Prop := moves_on t \/ rw_at s t = Reading \/ rw_at s t = Writing.

(** Whoever has the spin lock, or is first for it, can go on, or a reader can. *)
Lemma holder_ready t : wo = None -> spinning (rw_at s t) = true -> exists u, ready u.
Proof using H HN.
  intros Hwo Ht. pose proof (bound NR_CPUS HN s R ww wo H) as Hb.
  destruct (may_wait (rw_at s t)) eqn:Em; [|exists t; left; by apply no_wait].
  destruct (rw_at s t) eqn:E; try done.
  - exists t. left. apply no_writer_moves; auto.
  - assert (Hww : ww = Some t) by (apply H; by rewrite E).
    destruct (size R) as [|n] eqn:En.
    + exists t. left. pose proof (rw_word _ _ _ _ _ H) as Ew. rewrite Hww, Hwo, En in Ew.
      eapply goto_moves_on; [unfold rw_context_step; rewrite E, Ew; reflexivity|]. by rewrite E.
    + destruct (size_pos_elem_of R) as [u Hu]; [lia|]. apply (rw_readers _ _ _ _ _ H) in Hu. exists u. unfold ready.
      destruct (rw_at s u) eqn:Eu; try done;
        first [right; left; reflexivity | left; apply no_wait; by rewrite Eu | left; apply no_writer_moves; auto].
Qed.

Lemma writer_ready o : locking (rw_at s o) = true -> ready o.
Proof using. intros Ho. unfold ready. destruct (rw_at s o) eqn:E; try done; [by auto|]. left. apply no_wait. by rewrite E. Qed.

Lemma some_ready t : rw_at s t <> Outside -> exists u, ready u.
Proof using H HN.
  intros Ht. assert (Ewo : wo = None \/ exists o, wo = Some o) by (clear; destruct wo; eauto).
  destruct Ewo as [Ewo|[o Ewo]]; [|exists o; by apply writer_ready, H].
  destruct (holder (wait_lock s)) as [h|] eqn:Eh.
  { apply (holder_ready h); [done|]. by apply (rw_holder _ _ _ _ _ H). }
  destruct (may_wait (rw_at s t)) eqn:Em; [|exists t; left; by apply no_wait].
  destruct (waiting (wait_lock s)) as [|u w] eqn:Ew.
  - assert (Hq : spin_queued (rw_at s t) = false).
    { destruct (spin_queued (rw_at s t)) eqn:Eq; [|done]. apply (rw_queued _ _ _ _ _ H) in Eq. rewrite Ew in Eq. by apply not_elem_of_nil in Eq. }
    assert (Hsp : spinning (rw_at s t) = false).
    { destruct (spinning (rw_at s t)) eqn:Eq; [|done]. apply (rw_holder _ _ _ _ _ H) in Eq. congruence. }
    exists t. unfold ready.
    assert (He : is_Some (spin_enter t (wait_lock s))) by (unfold spin_enter; rewrite Eh, Ew; by eexists).
    destruct (rw_at s t) eqn:E; try done;
      first [right; left; reflexivity | right; right; reflexivity | left; apply no_writer_moves; auto; done | left; apply enter_moves; auto].
  - assert (Hq : spin_queued (rw_at s u) = true) by (apply (rw_queued _ _ _ _ _ H); rewrite Ew; constructor).
    exists u. left. apply enter_moves; [destruct (rw_at s u); try done; auto|].
    unfold spin_enter. rewrite Eh, Ew, decide_True by done. by eexists.
Qed.

(** ** Progress of the machine *)

(** Inside the blocking [queued_write_lock], or with the lock for writing. *)
Definition write_locking (p : rw_pc) : bool :=
  match p with
  | W_cas | W_lock | W_queued | W_read | W_cas_direct | W_add | W_wait | W_cas_waiting | W_unlock => true
  | _ => false
  end.
Definition write_side (p : rw_pc) : bool := match p with Writing => true | _ => write_locking p end.

(** The rule of use: a task or handler that takes the lock for writing keeps
    interrupts off, or at least interrupts whose handlers use the lock. *)
Definition interrupts_off : Prop := forall c n m, (n < m)%nat ->
  (write_side (rw_at s (c, n)) = true -> rw_at s (c, m) = Outside) /\
  (write_locking (rw_at s (c, m)) = true -> rw_at s (c, n) = Outside).

(** An event that brings the machine forward: a context moves to another program
    point, releases the lock, or a handler that does not use the lock returns. *)
Definition progresses (e : rw_event) : Prop :=
  exists s', rw_fire NR_CPUS e s = Some s' /\
    match e with
    | Rw_run t => rw_at s' t <> rw_at s t
    | Rw_read_unlock _ | Rw_write_unlock _ | Rw_iret _ => True
    | _ => False
    end.

Context (Hl : rw_levels NR_CPUS s) (Hoff : interrupts_off).

Lemma runs_ready t : rw_runs NR_CPUS t s -> ready t -> exists e, progresses e.
Proof using.
  clear Hl Hoff. intros Hr [(s' & Hs & Hn)|[E|E]].
  - exists (Rw_run t), s'. split; [|done]. unfold rw_fire. by rewrite decide_True.
  - exists (Rw_read_unlock t). eexists. split; [|done]. unfold rw_fire. rewrite decide_True by done. simpl. by rewrite E.
  - exists (Rw_write_unlock t). eexists. split; [|done]. unfold rw_fire. rewrite decide_True by done. simpl. by rewrite E.
Qed.

(** The context that runs on the CPU of [u]. *)
Definition top (u : context) : context := (u.1, rw_level s u.1).

Lemma top_cases u : rw_at s u <> Outside -> rw_runs NR_CPUS (top u) s /\ (top u = u \/ (u.2 < rw_level s u.1)%nat).
Proof using Hl.
  intros Hu. destruct (levels_active _ _ Hl u Hu) as [Hc Hle]. split; [done|]. destruct u as [c n]. unfold top. simpl in *.
  destruct (decide (n = rw_level s c)) as [->|]; [by left|right; lia].
Qed.

(** A handler that does not use the lock returns. *)
Lemma top_returns u : rw_at s u <> Outside -> (u.2 < rw_level s u.1)%nat -> rw_at s (top u) = Outside -> exists e, progresses e.
Proof using Hl.
  intros Hu Hlt Ht. destruct (levels_active _ _ Hl u Hu) as [Hc _]. exists (Rw_iret u.1). eexists. split; [|done].
  unfold rw_fire. rewrite decide_True by lia. unfold top in Ht. by rewrite Ht.
Qed.

Lemma writer_progresses o : locking (rw_at s o) = true -> exists e, progresses e.
Proof using Hl Hoff.
  intros Ho. assert (Hout : rw_at s o <> Outside) by (by intros E; rewrite E in Ho).
  destruct (top_cases o Hout) as [Hr [Et|Hlt]].
  - rewrite Et in Hr. apply (runs_ready o Hr). by apply writer_ready.
  - apply (top_returns o); [done..|]. destruct o as [c n]. apply (Hoff c n _ Hlt). by destruct (rw_at s (c, n)).
Qed.

(** Whatever runs on top of a context that is inside the lock brings the machine
    forward. *)
Lemma ready_progresses u : rw_at s u <> Outside -> ready u -> exists e, progresses e.
Proof using H HN Hl Hoff.
  intros Hu Hready. destruct (top_cases u Hu) as [Hr [Et|Hlt]].
  { rewrite Et in Hr. by apply (runs_ready u Hr). }
  pose proof (levels_task _ _ Hl (top u)) as Htask. pose proof (bound NR_CPUS HN s R ww wo H) as Hb.
  assert (Hwr : write_locking (rw_at s (top u)) = true -> rw_at s u = Outside) by (destruct u as [c n]; by apply (Hoff c n _ Hlt)).
  destruct (may_wait (rw_at s (top u))) eqn:Em; [|by apply (runs_ready (top u) Hr); left; apply no_wait].
  destruct (rw_at s (top u)) eqn:E; try done;
    try (exfalso; first [by apply Hu, Hwr | specialize (Htask eq_refl); simpl in Htask; lia]).
  - by apply (top_returns u).
  - apply (runs_ready (top u) Hr). right. by left.
  - apply (runs_ready (top u) Hr). by right; right.
  - destruct (wlocked (cnts s)) eqn:El.
    + assert (Ewo : exists o, wo = Some o).
      { rewrite (rw_word _ _ _ _ _ H), rwword_locked in El by lia. clear -El. destruct wo; [by eexists|done]. }
      destruct Ewo as [o Ewo]. by apply (writer_progresses o), H.
    + apply (runs_ready (top u) Hr). left. eapply goto_moves_on; [unfold rw_context_step; rewrite E, El; reflexivity|]. by rewrite E.
Qed.

Lemma machine_progresses t : rw_at s t <> Outside -> exists e, progresses e.
Proof using H HN Hl Hoff.
  intros Ht. destruct (some_ready t Ht) as [u Hu]. apply (ready_progresses u); [|done].
  destruct Hu as [(s' & Hs & _)|[E|E]]; [|by rewrite E..]. intros E. unfold rw_context_step in Hs. by rewrite E in Hs.
Qed.
End live.
