(* ===== verification/LockSpec.v ===== *)
(** * Locks: what they promise

    The queued spin lock: it excludes, no access of it ever leaves the queue
    nodes, it is a first-come first-served lock, and under fair scheduling who
    asks for it gets it.  The queued read-write lock, over any such spin lock:
    it excludes, its word counts the readers exactly, interrupt handlers stay out
    of its queue, and it does not deadlock when writers keep interrupts off. *)
From stdpp Require Import base numbers list option functions relations gmap.
From Stdlib Require Import ZArith Lia.
From S2P Require Import Prelude Qspinlock QspinInv QspinMoves QspinRun QspinLive Qrwlock QrwlockInv QrwlockRun.

(** ** The queued spin lock *)

(** Nobody has lock [l], has set its pending bit or is queued for it. *)
Definition unused (s : machine) (l : nat) : Prop :=
  forall t, ~ owns s l t /\ pender_of (at_pc s t) <> Some l /\ forall i, queued_of (at_pc s t) <> Some (l, i).
(** Somebody has set the pending bit or is queued. *)
Definition contended (s : machine) (l : nat) : Prop :=
  exists t, pender_of (at_pc s t) = Some l \/ exists i, queued_of (at_pc s t) = Some (l, i).

Section qspinlock.
Context (NR_CPUS : Z) (HN : 0 < NR_CPUS < 2 ^ 14).

Lemma word_free s g l : machine_inv NR_CPUS s g -> word s l = 0 <-> unused s l.
Proof using HN.
  intros Hmi. destruct (word_fields NR_CPUS HN s g Hmi l) as (Ew & Htl & Hq0).
  pose proof (proj1 (proj2 Hmi) l) as Hli. rewrite Ew, qword_eq_0, !bool_decide_eq_false, Hq0 by done. split.
  - intros (Ho & Hp & Hq) t. rewrite (inv_owner _ _ _ Hli), (inv_pender _ _ _ Hli). split_and!.
    + intros E. apply Ho. by eexists.
    + intros E. apply Hp. by eexists.
    + intros i. rewrite (inv_queued _ _ _ Hli), Hq. apply not_elem_of_nil.
  - intros H. split_and!.
    + intros [t Et]. destruct (H t) as [Hn _]. by apply Hn, (inv_owner _ _ _ Hli).
    + intros [t Et]. destruct (H t) as (_ & Hn & _). by apply Hn, (inv_pender _ _ _ Hli).
    + destruct (queue (g l)) as [|[t i] q] eqn:Eq; [done|]. destruct (H t) as (_ & _ & Hn). exfalso.
      apply (Hn i), (inv_queued _ _ _ Hli). rewrite Eq. constructor.
Qed.

Lemma word_contended s g l : machine_inv NR_CPUS s g -> queued_spin_is_contended (word s l) = true <-> contended s l.
Proof using HN.
  intros Hmi. destruct (word_fields NR_CPUS HN s g Hmi l) as (Ew & Htl & Hq0).
  pose proof (proj1 (proj2 Hmi) l) as Hli. unfold queued_spin_is_contended. rewrite Ew, qword_contended by done. split.
  - intros H. destruct (pender (g l)) as [t|] eqn:Ep.
    + exists t. left. by apply (inv_pender _ _ _ Hli).
    + rewrite bool_decide_false in H by (by intros [??]). simpl in H. destruct (queue (g l)) as [|[t i] q] eqn:Eq.
      * rewrite (proj2 Hq0 eq_refl) in H. done.
      * exists t. right. exists i. apply (inv_queued _ _ _ Hli). rewrite Eq. constructor.
  - unfold halfword in Htl. intros (t & [Hp|(i & Hq)]).
    + apply (inv_pender _ _ _ Hli) in Hp. rewrite Hp, bool_decide_true by (by eexists).
      rewrite (proj2 (Z.eqb_neq _ 0)) by (simpl; lia). done.
    + apply (inv_queued _ _ _ Hli) in Hq. assert (tail_of (queue (g l)) <> 0) by (rewrite Hq0; by intros E; rewrite E in Hq; apply not_elem_of_nil in Hq).
      rewrite (proj2 (Z.eqb_neq _ 0)) by (destruct (bool_decide (is_Some (pender (g l)))); simpl; lia). done.
Qed.

Lemma node_count_bounds s g c : machine_inv NR_CPUS s g -> 0 <= count s c <= MAX_NODES.
Proof using. clear HN. intros Hmi. rewrite (inv_count _ _ (proj1 Hmi)). apply (used_below_bound s c 4). Qed.
End qspinlock.

(** C28: In every state the machine can reach, no access faults (every queue
    node used is one of the CPU's four, every tail decodes to a node); a lock
    has one owner, and its locked byte is set while it is held; the word is 0
    exactly when the lock is unused, and is contended exactly when some context
    has set the pending bit or is queued. *)
Theorem queued_spin_lock_safe NR_CPUS s : 0 < NR_CPUS < 2 ^ 14 -> reachable NR_CPUS s ->
  (forall e, returns (fire NR_CPUS e s) (fun _ => True)) /\
  (forall l t u, l ∈ held s t -> l ∈ held s u -> t = u) /\
  (forall l t, l ∈ held s t -> Z.land (word s l) _Q_LOCKED_MASK = _Q_LOCKED_VAL) /\
  (forall l, queued_spin_is_locked (word s l) = false <-> unused s l) /\
  (forall l, queued_spin_value_unlocked (word s l) = true <-> unused s l) /\
  (forall l, queued_spin_is_contended (word s l) = true <-> contended s l) /\
  (forall c, 0 <= count s c <= MAX_NODES).
Proof.
  intros HN Hs. destruct (spin_reachable_inv NR_CPUS HN s Hs) as [g Hmi]. pose proof (fun l => proj1 (proj2 Hmi) l) as Hli.
  split_and!.
  - intros e. eapply returns_mono; [by apply (fire_ok NR_CPUS HN s g e)|done].
  - intros l t u Ht Hu. assert (Et : owner (g l) = Some t) by (apply (Hli l); by left).
    assert (Eu : owner (g l) = Some u) by (apply (Hli l); by left). congruence.
  - intros l t Ht. destruct (word_fields NR_CPUS HN s g Hmi l) as (Ew & Htl & _). rewrite Ew, qword_locked by done.
    assert (Et : owner (g l) = Some t) by (apply (Hli l); by left). rewrite Et. by rewrite bool_decide_true by (by eexists).
  - intros l. unfold queued_spin_is_locked. rewrite negb_false_iff, Z.eqb_eq. by apply (word_free NR_CPUS HN s g).
  - intros l. unfold queued_spin_value_unlocked. rewrite Z.eqb_eq. by apply (word_free NR_CPUS HN s g).
  - intros l. by apply (word_contended NR_CPUS HN s g).
  - intros c. by apply (node_count_bounds NR_CPUS s g).
Qed.

(** C29: The queued spin lock implements the first-come first-served lock: a
    relation holds at the start and is kept by every step, each lock taking a
    step that the acting context may take; the owner and the contexts that wait
    are those whose program points say so. *)
Theorem queued_spin_lock_refines NR_CPUS : 0 < NR_CPUS < 2 ^ 14 ->
  exists Rel : machine -> (nat -> fifo_lock) -> Prop,
    Rel machine_init (fun _ => fifo_init) /\
    (forall s a e s', Rel s a -> step NR_CPUS e s s' ->
      exists a', Rel s' a' /\ forall l, fifo_step (actor e s) (a l) (a' l)) /\
    (forall s a l t, Rel s a ->
      (holder (a l) = Some t <-> owns s l t) /\ (t ∈ waiting (a l) <-> waits l (at_pc s t))).
Proof.
  intros HN. exists (fun s a => exists g, machine_inv NR_CPUS s g /\ forall l, a l = lock_of_ghost s (g l)). split_and!.
  - exists ghost_init. split; [apply init_ok|done].
  - intros s a e s' (g & Hmi & Ha) Hs. destruct (step_inv NR_CPUS HN e s s' g Hmi Hs) as (g' & Hmi' & Hf).
    exists (fun l => lock_of_ghost s' (g' l)). split; [by exists g'|]. intros l. rewrite Ha. apply Hf.
  - intros s a l t (g & Hmi & Ha). pose proof (proj1 (proj2 Hmi) l) as Hli. rewrite Ha. split.
    + by apply holder_iff.
    + by apply waiting_iff.
Qed.

(** C30: Every context that calls [queued_spin_lock] acquires the lock, and
    waits a finite time only, in every infinite run in which the contexts that
    are inside a function of this lock go on taking steps and each context
    that holds it releases it some time. *)
Theorem queued_spin_lock_acquires NR_CPUS (sigma : nat -> machine) (ev : nat -> event) l i t :
  0 < NR_CPUS < 2 ^ 14 -> reachable NR_CPUS (sigma O) ->
  (forall k, step NR_CPUS (ev k) (sigma k) (sigma (S k))) ->
  (forall k u, lock_of (at_pc (sigma k) u) = Some l -> exists j, (k <= j)%nat /\ ev j = Ev_run u) ->
  (forall k u, l ∈ held (sigma k) u -> exists j, (k <= j)%nat /\ ev j = Ev_unlock u l) ->
  ev i = Ev_lock t l ->
  exists j, (i < j)%nat /\ l ∈ held (sigma j) t.
Proof.
  intros HN H0 Hs Hrun Hrel Ei.
  assert (E : at_pc (sigma (S i)) t = Lock_cas l).
  { pose proof (Hs i) as H. rewrite Ei in H. unfold step, fire in H. case_decide; [|done]. injection H as <-. by read_off. }
  destruct (lock_acquired NR_CPUS HN sigma ev l H0 Hs Hrun Hrel (S i) t) as (j & Hj & Hh); rewrite ?E; try done.
  exists j. split; [lia|done].
Qed.

(** ** The queued read-write lock *)

(** C31: In every reachable state a writer that has the lock excludes other
    writers and all readers; the word is the number of readers that have added
    themselves, at most one per context, with the bits of the writer that waits
    and the one that has the lock; and every step uses the spin lock as a
    context may use a first-come first-served lock.  A reader in an interrupt
    handler never waits in the queue or has the spin lock.  The lock does not
    deadlock, although a context stands still while a handler runs on top of it:
    when writers keep out the interrupts whose handlers use the lock
    ([interrupts_off]) and some context is inside a lock function or has the lock,
    some event is possible in which a running context moves on, a holder that
    runs releases the lock, or a handler that uses no lock returns. *)
Theorem queued_rwlock_safe NR_CPUS s : 0 < NR_CPUS < 2 ^ 14 -> rw_reachable NR_CPUS s ->
  (forall t u, rw_at s t = Writing -> rw_at s u = Writing -> t = u) /\
  (forall t u, rw_at s t = Writing -> rw_at s u <> Reading) /\
  (exists (readers : gset context) (waiter writer : bool),
    cnts s = rwword (Z.of_nat (size readers)) waiter writer /\ Z.of_nat (size readers) < 2 ^ 16 /\
    (forall t, t ∈ readers <-> counted (rw_at s t) = true) /\
    (waiter = true <-> exists t, awaiting (rw_at s t) = true) /\
    (writer = true <-> exists t, locking (rw_at s t) = true)) /\
  ((forall t, rw_at s t = Outside) -> cnts s = 0 /\ wait_lock s = fifo_init) /\
  (forall e s', rw_step NR_CPUS e s s' -> fifo_step (rw_actor e) (wait_lock s) (wait_lock s')) /\
  (forall t, task_only (rw_at s t) = true -> t.2 = O) /\
  (interrupts_off s -> forall t, rw_at s t <> Outside -> exists e, progresses NR_CPUS s e).
Proof.
  intros HN Hs. destruct (rw_reachable_inv NR_CPUS HN s Hs) as [(R & ww & wo & H) Hl].
  pose proof (bound NR_CPUS HN s R ww wo H) as Hb. split_and!.
  - intros t u Et Eu. assert (H1 : wo = Some t) by (apply H; by rewrite Et).
    assert (H2 : wo = Some u) by (apply H; by rewrite Eu). congruence.
  - intros t u Et Eu. assert (H1 : wo = Some t) by (apply H; by rewrite Et).
    assert (H2 : wo = None) by (apply (rw_admitted _ _ _ _ _ H u); by rewrite Eu). congruence.
  - exists R, (has ww), (has wo). split_and!; [apply H|lia|apply H|..];
      unfold has; rewrite bool_decide_eq_true; split; intros [t Ht]; exists t; by apply H.
  - intros Hout. assert (HR : size R = 0%nat).
    { rewrite size_empty_iff. intros t. rewrite (rw_readers _ _ _ _ _ H), Hout. set_solver. }
    assert (Hww : ww = None) by (destruct ww as [t|]; [|done]; pose proof (proj1 (rw_waiter _ _ _ _ _ H t) eq_refl) as E; by rewrite Hout in E).
    assert (Hwo : wo = None) by (destruct wo as [t|]; [|done]; pose proof (proj1 (rw_writer _ _ _ _ _ H t) eq_refl) as E; by rewrite Hout in E).
    split; [rewrite (rw_word _ _ _ _ _ H), HR, Hww, Hwo; done|].
    pose proof (rw_holder _ _ _ _ _ H) as Hh. pose proof (rw_queued _ _ _ _ _ H) as Hq. destruct (wait_lock s) as [o w]. simpl in *.
    unfold fifo_init. f_equal.
    + destruct o as [t|]; [|done]. pose proof (proj1 (Hh t) eq_refl) as E. by rewrite Hout in E.
    + destruct w as [|t w]; [done|]. pose proof (proj1 (Hq t) ltac:(constructor)) as E. by rewrite Hout in E.
  - intros e s' He. by apply (rw_fire_fifo NR_CPUS s R ww wo H).
  - apply Hl.
  - intros Hoff t Ht. by apply (machine_progresses NR_CPUS HN s R ww wo H Hl Hoff t).
Qed.

(** ** A run, for the witnesses *)

(** One CPU takes lock 0 and releases it, forever. *)
Definition round_event (k : nat) : event :=
  match (k mod 3)%nat with
  | O => Ev_lock (0, O) O
  | S O => Ev_run (0, O)
  | _ => Ev_unlock (0, O) O
  end.
Definition next (e : event) (s : machine) : machine := match fire 2 e s with Ret (Some s') => s' | _ => s end.
Fixpoint round_state (k : nat) : machine :=
  match k with O => machine_init | S k => next (round_event k) (round_state k) end.

Definition at_rest (s : machine) : Prop :=
  word s O = 0 /\ (forall u, at_pc s u = Running) /\ (forall u, held s u = []) /\ forall c, level s c = O.

Lemma next_lock s : at_rest s -> step 2 (Ev_lock (0, O) O) s (goto (0, O) (Lock_cas O) s).
Proof.
  intros (_ & Hp & _ & Hl). unfold step, fire. rewrite decide_True; [done|]. split; [|apply Hp].
  unfold runs. simpl. rewrite Hl. lia.
Qed.

Lemma next_run s : at_rest s ->
  step 2 (Ev_run (0, O)) (goto (0, O) (Lock_cas O) s) (acquired (0, O) O (set_word O 1 (goto (0, O) (Lock_cas O) s))).
Proof.
  intros (Hw & Hp & _ & Hl). unfold step, fire. rewrite decide_True.
  - unfold context_step. read_off. rewrite bind_ret. by rewrite Hw.
  - split; [|by read_off]. unfold runs. simpl. rewrite Hl. lia.
Qed.

Definition released (s : machine) : machine :=
  let s1 := acquired (0, O) O (set_word O 1 (goto (0, O) (Lock_cas O) s)) in
  set_held (0, O) (filter (.≠ O) (held s1 (0, O))) (set_word O (store_locked (word s1 O) 0) s1).

Lemma next_unlock s : at_rest s ->
  step 2 (Ev_unlock (0, O) O) (acquired (0, O) O (set_word O 1 (goto (0, O) (Lock_cas O) s))) (released s).
Proof.
  intros (Hw & Hp & _ & Hl). unfold step, fire. rewrite decide_True; [done|]. read_off. split_and!; [|done|constructor].
  unfold runs. simpl. rewrite Hl. lia.
Qed.

Lemma released_rest s : at_rest s -> at_rest (released s).
Proof.
  intros (Hw & Hp & Hh & Hl). unfold released, at_rest. split_and!.
  - by read_off.
  - intros u. read_off. destruct (decide (u = (0, O))) as [->|Hu]; [by rewrite fn_lookup_insert|].
    by rewrite !fn_lookup_insert_ne, Hp by done.
  - intros u. read_off. rewrite Hh. destruct (decide (u = (0, O))) as [->|Hu]; [by rewrite fn_lookup_insert|].
    by rewrite !fn_lookup_insert_ne, Hh by done.
  - done.
Qed.

Lemma next_step e s s' : step 2 e s s' -> next e s = s'.
Proof. unfold step, next. by intros ->. Qed.

(** The state at each of the three points of a round. *)
Definition phase (k : nat) (s : machine) : Prop :=
  exists s0, at_rest s0 /\
    match (k mod 3)%nat with
    | O => s = s0
    | S O => s = goto (0, O) (Lock_cas O) s0
    | _ => s = acquired (0, O) O (set_word O 1 (goto (0, O) (Lock_cas O) s0))
    end.

Lemma phase_step k s : phase k s -> exists s', step 2 (round_event k) s s' /\ phase (S k) s'.
Proof.
  intros (s0 & H0 & Hs). unfold phase, round_event.
  assert (Hk : (k mod 3 = 0 /\ S k mod 3 = 1 \/ k mod 3 = 1 /\ S k mod 3 = 2 \/ k mod 3 = 2 /\ S k mod 3 = 0)%nat)
    by (pose proof (Nat.div_mod_eq k 3); pose proof (Nat.div_mod_eq (S k) 3);
        pose proof (Nat.mod_upper_bound k 3); pose proof (Nat.mod_upper_bound (S k) 3); lia).
  destruct Hk as [[E E']|[[E E']|[E E']]]; rewrite E in *; rewrite E'; subst s.
  - eexists. split; [by apply next_lock|]. by exists s0.
  - eexists. split; [by apply next_run|]. by exists s0.
  - eexists. split; [by apply next_unlock|]. exists (released s0). split; [by apply released_rest|done].
Qed.

Lemma round_phase k : phase k (round_state k).
Proof.
  induction k as [|k IH]; [by exists machine_init|].
  destruct (phase_step k _ IH) as (s' & Hs & Hp). simpl. by rewrite (next_step _ _ _ Hs).
Qed.

Lemma round_step k : step 2 (round_event k) (round_state k) (round_state (S k)).
Proof.
  destruct (phase_step k _ (round_phase k)) as (s' & Hs & _). simpl. by rewrite (next_step _ _ _ Hs).
Qed.

Lemma round_eventually (r k : nat) : (r < 3)%nat -> exists j, (k <= j)%nat /\ (j mod 3 = r)%nat.
Proof.
  intros Hr. exists (r + k * 3)%nat. split; [lia|]. rewrite Nat.Div0.mod_add. by apply Nat.mod_small.
Qed.

Lemma round_runs k u : lock_of (at_pc (round_state k) u) = Some O -> exists j, (k <= j)%nat /\ round_event j = Ev_run u.
Proof.
  destruct (round_phase k) as (s0 & (_ & Hp & _ & _) & Hs). intros Hu.
  assert (u = (0, O)) as ->.
  { destruct (decide (u = (0, O))) as [|Hne]; [done|]. exfalso. destruct (k mod 3)%nat as [|[|]]; rewrite Hs in Hu; revert Hu;
      read_off; rewrite ?fn_lookup_insert_ne, Hp by done; done. }
  destruct (round_eventually 1 k) as (j & Hj & E); [lia|]. exists j. split; [done|]. unfold round_event. by rewrite E.
Qed.

Lemma round_releases k u : O ∈ held (round_state k) u -> exists j, (k <= j)%nat /\ round_event j = Ev_unlock u O.
Proof.
  destruct (round_phase k) as (s0 & (_ & _ & Hh & _) & Hs). intros Hu.
  assert (u = (0, O)) as ->.
  { destruct (decide (u = (0, O))) as [|Hne]; [done|]. exfalso. destruct (k mod 3)%nat as [|[|]]; rewrite Hs in Hu; revert Hu;
      read_off; rewrite ?fn_lookup_insert_ne, Hh by done; apply not_elem_of_nil. }
  destruct (round_eventually 2 k) as (j & Hj & E); [lia|]. exists j. split; [done|]. unfold round_event. by rewrite E.
Qed.

Lemma round_reachable k : reachable 2 (round_state k).
Proof.
  induction k as [|k IH]; [constructor|]. eapply rtc_r; [exact IH|]. exists (round_event k). apply round_step.
Qed.

(** ** Witnesses *)

Lemma queued_spin_lock_safe_witness :
  O ∈ held (round_state 2) (0, O) /\ Z.land (word (round_state 2) O) _Q_LOCKED_MASK = _Q_LOCKED_VAL /\
  forall t u, O ∈ held (round_state 2) t -> O ∈ held (round_state 2) u -> t = u.
Proof.
  destruct (queued_spin_lock_safe 2 (round_state 2)) as (_ & H1 & H2 & _); [lia|apply round_reachable|].
  assert (Hh : O ∈ held (round_state 2) (0, O)) by (vm_compute; left).
  split; [exact Hh|]. split; [exact (H2 O (0, O) Hh)|exact (H1 O)].
Defined.

Lemma queued_spin_lock_refines_witness : exists Rel : machine -> (nat -> fifo_lock) -> Prop,
  Rel machine_init (fun _ => fifo_init) /\
  forall s a e s', Rel s a -> step 2 e s s' -> exists a', Rel s' a' /\ forall l, fifo_step (actor e s) (a l) (a' l).
Proof.
  destruct (queued_spin_lock_refines 2) as (Rel & H1 & H2 & _); [lia|]. exists Rel. by split.
Defined.

Lemma queued_spin_lock_acquires_witness : exists j, (3 < j)%nat /\ O ∈ held (round_state j) (0, O).
Proof.
  apply (queued_spin_lock_acquires 2 round_state round_event O 3 (0, O)).
  - lia.
  - constructor.
  - apply round_step.
  - apply round_runs.
  - apply round_releases.
  - reflexivity.
Defined.

Definition rw_play (es : list rw_event) : option rw_machine :=
  foldl (fun o e => s ← o; rw_fire 2 e s) (Some rw_init) es.

Lemma rw_play_reachable es s : rw_play es = Some s -> rw_reachable 2 s.
Proof.
  revert s. induction es as [|e es IH] using rev_ind; intros s; unfold rw_play.
  - intros [= <-]. constructor.
  - rewrite foldl_app. simpl. fold (rw_play es). destruct (rw_play es) as [s0|]; [|done]. intros Hs.
    eapply rtc_r; [by apply IH|]. exists e. exact Hs.
Qed.

Definition rw_sample (es : list rw_event) : rw_machine := default rw_init (rw_play es).
Definition write_events : list rw_event := [Rw_call (0, O) W_cas; Rw_run (0, O)].
(** A task reads, a writer waits on the other CPU, and an interrupt on top of the
    task has found the writer's bit. *)
Definition wait_events : list rw_event :=
  [Rw_call (0, O) (R_add false); Rw_run (0, O); Rw_call (1, O) W_cas; Rw_run (1, O); Rw_run (1, O); Rw_run (1, O);
   Rw_run (1, O); Rw_irq 0; Rw_call (0, 1%nat) (R_add true); Rw_run (0, 1%nat)].

Lemma rw_fire_others e s s' u : rw_fire 2 e s = Some s' -> u <> rw_actor e -> rw_at s' u = rw_at s u.
Proof.
  intros Hs Hu. assert (Hg : forall p s0, rw_at (rw_goto (rw_actor e) p s0) u = rw_at s0 u) by (intros; simpl; by rewrite fn_lookup_insert_ne).
  destruct e as [t|t|t p|t|t|c|c]; unfold rw_fire in Hs; case_decide; try done; simpl in *; unfold rw_context_step in *;
    repeat case_match; simplify_eq; try rewrite Hg; try done;
    destruct (spin_enter t (wait_lock s)); simplify_eq/=; by rewrite fn_lookup_insert_ne.
Qed.

Lemma rw_play_others es s u : rw_play es = Some s -> Forall (fun e => u <> rw_actor e) es -> rw_at s u = Outside.
Proof.
  revert s. induction es as [|e es IH] using rev_ind; intros s; unfold rw_play; [by intros [= <-]|].
  rewrite foldl_app. simpl. fold (rw_play es). destruct (rw_play es) as [s0|]; [|done]. intros Hs [H1 H2]%Forall_app.
  simpl in Hs. rewrite (rw_fire_others e s0 s u Hs) by (by apply Forall_inv in H2). by apply IH.
Qed.

Lemma wait_events_at u : rw_at (rw_sample wait_events) u = Outside \/ u = (0, O) \/ u = (0, 1%nat) \/ u = (1, O).
Proof.
  destruct (decide (u = (1, O))) as [|H1]; [by auto|]. destruct (decide (u = (0, O))) as [|H0]; [by auto|].
  destruct (decide (u = (0, 1%nat))) as [|H2]; [by auto|]. left.
  apply (rw_play_others wait_events); [reflexivity|]. unfold wait_events. rewrite !Forall_cons, Forall_nil. simpl. tauto.
Qed.

Lemma wait_events_off : interrupts_off (rw_sample wait_events).
Proof.
  intros c n m Hnm. split; intros Hw.
  - destruct (wait_events_at (c, n)) as [E|[E|[E|E]]]; [rewrite E in Hw|simplify_eq; vm_compute in Hw..|]; try done. simplify_eq.
    destruct (wait_events_at (1, m)) as [Em|[Em|[Em|Em]]]; [done|simplify_eq; lia..].
  - destruct (wait_events_at (c, m)) as [E|[E|[E|E]]]; [rewrite E in Hw|simplify_eq; vm_compute in Hw..|]; try done. simplify_eq. lia.
Qed.

Lemma queued_rwlock_safe_witness :
  (rw_at (rw_sample write_events) (0, O) = Writing /\ forall u, rw_at (rw_sample write_events) u <> Reading) /\
  rw_at (rw_sample wait_events) (0, 1%nat) = R_interrupt /\ rw_at (rw_sample wait_events) (1, O) = W_wait /\
  exists e, progresses 2 (rw_sample wait_events) e.
Proof.
  split.
  - split; [reflexivity|]. intros u. apply (queued_rwlock_safe 2 (rw_sample write_events) ltac:(lia)) with (0, O); [|reflexivity].
    apply (rw_play_reachable write_events). reflexivity.
  - split; [reflexivity|]. split; [reflexivity|].
    assert (Hr : rw_reachable 2 (rw_sample wait_events)) by (apply (rw_play_reachable wait_events); reflexivity).
    destruct (queued_rwlock_safe 2 (rw_sample wait_events) ltac:(lia) Hr) as (_ & _ & _ & _ & _ & _ & Hp).
    apply (Hp wait_events_off (0, O)). by vm_compute.
Defined.
