(* ===== verification/Crc32.v ===== *)
(** * Checksums (lib/base/src/crc32.c, bitrev.c)

    The configuration is the default: slicing by 8 (CRC_LE_BITS and CRC_BE_BITS
    are 64), little endian.  A buffer is a byte memory and an index in it;
    [base] is the address of the memory, which decides how many bytes are
    handled before the first aligned word.  [crc32_le_bits] and [crc32_be_bits]
    are the variants of the same functions for CRC_LE_BITS = CRC_BE_BITS = 1,
    one bit at a time. *)
From stdpp Require Import base numbers list option.
From Stdlib Require Import ZArith Lia.
From S2P Require Import Prelude Crc32Table.

Definition CRC32_POLY_LE : Z := 0xedb88320.
Definition CRC32_POLY_BE : Z := 0x04c11db7.
Definition CRC32C_POLY_LE : Z := 0x82F63B78.

(** ** Slicing by 8 *)

(** [tab[t][i]]. *)
Definition tab_at (tab : list (list Z)) (t i : Z) : outcome Z := row ← rd tab t; rd row i.

(** The word at index [p] of the memory, little endian. *)
Definition load32 (m : list Z) (p : Z) : outcome Z :=
  b0 ← rd m p; b1 ← rd m (p + 1); b2 ← rd m (p + 2); b3 ← rd m (p + 3);
  Ret (Z.lor b0 (Z.lor (Z.shiftl b1 8) (Z.lor (Z.shiftl b2 16) (Z.shiftl b3 24)))).

Definition DO_CRC (tab : list (list Z)) (crc x : Z) : outcome Z :=
  e ← tab_at tab 0 (Z.land (Z.lxor crc x) 255); Ret (Z.lxor e (Z.shiftr crc 8)).

Definition DO_CRC4 (tab : list (list Z)) (q : Z) : outcome Z :=
  e3 ← tab_at tab 3 (Z.land q 255);
  e2 ← tab_at tab 2 (Z.land (Z.shiftr q 8) 255);
  e1 ← tab_at tab 1 (Z.land (Z.shiftr q 16) 255);
  e0 ← tab_at tab 0 (Z.land (Z.shiftr q 24) 255);
  Ret (Z.lxor (Z.lxor (Z.lxor e3 e2) e1) e0).

Definition DO_CRC8 (tab : list (list Z)) (q : Z) : outcome Z :=
  e7 ← tab_at tab 7 (Z.land q 255);
  e6 ← tab_at tab 6 (Z.land (Z.shiftr q 8) 255);
  e5 ← tab_at tab 5 (Z.land (Z.shiftr q 16) 255);
  e4 ← tab_at tab 4 (Z.land (Z.shiftr q 24) 255);
  Ret (Z.lxor (Z.lxor (Z.lxor e7 e6) e5) e4).

(** Bytes up to an aligned address; the state is [(crc, buf, len)]. *)
Definition align_turn (base : Z) (tab : list (list Z)) (m : list Z) (st : Z * Z * Z) : outcome (Z * Z * Z + Z * Z * Z) :=
  let '(crc, buf, len) := st in
  x ← rd m buf;
  crc ← DO_CRC tab crc x;
  let buf := buf + 1 in
  let len := u64 (len - 1) in
  if negb (len =? 0) && negb (Z.land (base + buf) 3 =? 0) then Ret (inl (crc, buf, len)) else Ret (inr (crc, buf, len)).

(** Two words; [b] is the index of the next word. *)
Definition words_turn (tab : list (list Z)) (m : list Z) (st : Z * Z * Z) : outcome (Z * Z * Z + Z * Z) :=
  let '(crc, b, len) := st in
  if len =? 0 then Ret (inr (crc, b))
  else
    w ← load32 m b;
    crc ← DO_CRC8 tab (Z.lxor crc w);
    q ← load32 m (b + 4);
    e ← DO_CRC4 tab q;
    Ret (inl (Z.lxor crc e, b + 8, u64 (len - 1))).

(** The last bytes. *)
Definition tail_turn (tab : list (list Z)) (m : list Z) (st : Z * Z * Z) : outcome (Z * Z * Z + Z) :=
  let '(crc, p, len) := st in
  x ← rd m p;
  crc ← DO_CRC tab crc x;
  let len := u64 (len - 1) in
  if negb (len =? 0) then Ret (inl (crc, p + 1, len)) else Ret (inr crc).

Definition crc32_body (base crc : Z) (m : list Z) (buf len : Z) (tab : list (list Z)) : outcome Z :=
  '(crc, buf, len) ←
    (if negb (Z.land (base + buf) 3 =? 0) && negb (len =? 0) then loop (Z.to_nat len) (align_turn base tab m) (crc, buf, len)
     else Ret (crc, buf, len));
  let rem_len := Z.land len 7 in
  '(crc, b) ← loop (Z.to_nat (Z.shiftr len 3) + 1) (words_turn tab m) (crc, buf, Z.shiftr len 3);
  if rem_len =? 0 then Ret crc
  else loop (Z.to_nat rem_len) (tail_turn tab m) (crc, b, rem_len).

(** The conversions to and from little endian are the identity. *)
Definition crc32_le_generic (base crc : Z) (m : list Z) (p len : Z) (tab : list (list Z)) : outcome Z :=
  crc ← crc32_body base (u32 crc) m p len tab; Ret (u32 crc).
Definition crc32_le (base crc : Z) (m : list Z) (p len : Z) : outcome Z := crc32_le_generic base crc m p len crc32table_le.
Definition __crc32c_le (base crc : Z) (m : list Z) (p len : Z) : outcome Z := crc32_le_generic base crc m p len crc32ctable_le.

Definition crc32_be_generic (base crc : Z) (m : list Z) (p len : Z) (tab : list (list Z)) : outcome Z :=
  crc ← crc32_body base (u32 (swab32 crc)) m p len tab; Ret (swab32 crc).
Definition crc32_be (base crc : Z) (m : list Z) (p len : Z) : outcome Z := crc32_be_generic base crc m p len crc32table_be.

(** ** One bit at a time *)

Definition crc_bit (polynomial crc : Z) : Z := Z.lxor (Z.shiftr crc 1) (if Z.testbit crc 0 then polynomial else 0).
Definition crc_bit_be (polynomial crc : Z) : Z :=
  Z.lxor (u32 (Z.shiftl crc 1)) (if negb (Z.land crc 0x80000000 =? 0) then polynomial else 0).

Definition crc32_le_bits (polynomial crc : Z) (bytes : list Z) : Z :=
  foldl (fun crc x => Nat.iter 8 (crc_bit polynomial) (Z.lxor crc x)) crc bytes.
Definition crc32_be_bits (polynomial crc : Z) (bytes : list Z) : Z :=
  foldl (fun crc x => Nat.iter 8 (crc_bit_be polynomial) (Z.lxor crc (Z.shiftl x 24))) crc bytes.

(** ** Shifting and combining *)

(** [x & 1 ? ... : ...]; the state is [(i, x, product)]. *)
Definition gf2_turn (y modulus : Z) (st : Z * Z * Z) : outcome (Z * Z * Z + Z) :=
  let '(i, x, product) := st in
  if i <? 31 then
    let product := Z.lxor (Z.shiftr product 1) (if Z.testbit product 0 then modulus else 0) in
    let x := Z.shiftr x 1 in
    Ret (inl (i + 1, x, Z.lxor product (if Z.testbit x 0 then y else 0)))
  else Ret (inr product).
Definition gf2_multiply (x y modulus : Z) : outcome Z :=
  loop 32 (gf2_turn y modulus) (0, x, if Z.testbit x 0 then y else 0).

Definition shift_bits_turn (polynomial n : Z) (st : Z * Z) : outcome (Z * Z + Z) :=
  let '(i, crc) := st in
  if i <? n then Ret (inl (i + 1, crc_bit polynomial crc)) else Ret (inr crc).

Definition shift_turn (polynomial : Z) (st : Z * Z * Z) : outcome (Z * Z * Z + Z) :=
  let '(crc, power, len) := st in
  crc ← (if Z.testbit len 0 then gf2_multiply crc power polynomial else Ret crc);
  let len := Z.shiftr len 1 in
  if len =? 0 then Ret (inr crc)
  else power ← gf2_multiply power power polynomial; Ret (inl (crc, power, len)).

Definition crc32_generic_shift (crc len polynomial : Z) : outcome Z :=
  crc ← loop 25 (shift_bits_turn polynomial (8 * s32 (Z.land len 3))) (0, crc);
  let len := Z.shiftr len 2 in
  if len =? 0 then Ret crc else loop 64 (shift_turn polynomial) (crc, polynomial, len).

Definition crc32_le_shift (crc len : Z) : outcome Z := crc32_generic_shift crc len CRC32_POLY_LE.
Definition __crc32c_le_shift (crc len : Z) : outcome Z := crc32_generic_shift crc len CRC32C_POLY_LE.
Definition crc32_le_combine (crc1 crc2 len2 : Z) : outcome Z := c ← crc32_le_shift crc1 len2; Ret (Z.lxor c crc2).
Definition __crc32c_le_combine (crc1 crc2 len2 : Z) : outcome Z := c ← __crc32c_le_shift crc1 len2; Ret (Z.lxor c crc2).

(** ** Reversing bits *)

Definition byte_rev_table : list Z :=
  [0x00; 0x80; 0x40; 0xc0; 0x20; 0xa0; 0x60; 0xe0;
   0x10; 0x90; 0x50; 0xd0; 0x30; 0xb0; 0x70; 0xf0;
   0x08; 0x88; 0x48; 0xc8; 0x28; 0xa8; 0x68; 0xe8;
   0x18; 0x98; 0x58; 0xd8; 0x38; 0xb8; 0x78; 0xf8;
   0x04; 0x84; 0x44; 0xc4; 0x24; 0xa4; 0x64; 0xe4;
   0x14; 0x94; 0x54; 0xd4; 0x34; 0xb4; 0x74; 0xf4;
   0x0c; 0x8c; 0x4c; 0xcc; 0x2c; 0xac; 0x6c; 0xec;
   0x1c; 0x9c; 0x5c; 0xdc; 0x3c; 0xbc; 0x7c; 0xfc;
   0x02; 0x82; 0x42; 0xc2; 0x22; 0xa2; 0x62; 0xe2;
   0x12; 0x92; 0x52; 0xd2; 0x32; 0xb2; 0x72; 0xf2;
   0x0a; 0x8a; 0x4a; 0xca; 0x2a; 0xaa; 0x6a; 0xea;
   0x1a; 0x9a; 0x5a; 0xda; 0x3a; 0xba; 0x7a; 0xfa;
   0x06; 0x86; 0x46; 0xc6; 0x26; 0xa6; 0x66; 0xe6;
   0x16; 0x96; 0x56; 0xd6; 0x36; 0xb6; 0x76; 0xf6;
   0x0e; 0x8e; 0x4e; 0xce; 0x2e; 0xae; 0x6e; 0xee;
   0x1e; 0x9e; 0x5e; 0xde; 0x3e; 0xbe; 0x7e; 0xfe;
   0x01; 0x81; 0x41; 0xc1; 0x21; 0xa1; 0x61; 0xe1;
   0x11; 0x91; 0x51; 0xd1; 0x31; 0xb1; 0x71; 0xf1;
   0x09; 0x89; 0x49; 0xc9; 0x29; 0xa9; 0x69; 0xe9;
   0x19; 0x99; 0x59; 0xd9; 0x39; 0xb9; 0x79; 0xf9;
   0x05; 0x85; 0x45; 0xc5; 0x25; 0xa5; 0x65; 0xe5;
   0x15; 0x95; 0x55; 0xd5; 0x35; 0xb5; 0x75; 0xf5;
   0x0d; 0x8d; 0x4d; 0xcd; 0x2d; 0xad; 0x6d; 0xed;
   0x1d; 0x9d; 0x5d; 0xdd; 0x3d; 0xbd; 0x7d; 0xfd;
   0x03; 0x83; 0x43; 0xc3; 0x23; 0xa3; 0x63; 0xe3;
   0x13; 0x93; 0x53; 0xd3; 0x33; 0xb3; 0x73; 0xf3;
   0x0b; 0x8b; 0x4b; 0xcb; 0x2b; 0xab; 0x6b; 0xeb;
   0x1b; 0x9b; 0x5b; 0xdb; 0x3b; 0xbb; 0x7b; 0xfb;
   0x07; 0x87; 0x47; 0xc7; 0x27; 0xa7; 0x67; 0xe7;
   0x17; 0x97; 0x57; 0xd7; 0x37; 0xb7; 0x77; 0xf7;
   0x0f; 0x8f; 0x4f; 0xcf; 0x2f; 0xaf; 0x6f; 0xef;
   0x1f; 0x9f; 0x5f; 0xdf; 0x3f; 0xbf; 0x7f; 0xff].

Definition __bitrev8 (byte : Z) : outcome Z := rd byte_rev_table byte.
Definition __bitrev16 (x : Z) : outcome Z :=
  lo ← __bitrev8 (u8 (Z.land x 0xff)); hi ← __bitrev8 (u8 (Z.shiftr x 8)); Ret (u16 (Z.lor (Z.shiftl lo 8) hi)).
Definition __bitrev32 (x : Z) : outcome Z :=
  lo ← __bitrev16 (u16 (Z.land x 0xffff)); hi ← __bitrev16 (u16 (Z.shiftr x 16)); Ret (u32 (Z.lor (Z.shiftl lo 16) hi)).

(** What [bitrev8], [bitrev16] and [bitrev32] expand to for constants. *)
Definition __constant_bitrev32 (x : Z) : Z :=
  let x := u32 x in
  let x := u32 (Z.lor (Z.shiftr x 16) (u32 (Z.shiftl x 16))) in
  let x := u32 (Z.lor (Z.shiftr (Z.land x 0xFF00FF00) 8) (Z.shiftl (Z.land x 0x00FF00FF) 8)) in
  let x := u32 (Z.lor (Z.shiftr (Z.land x 0xF0F0F0F0) 4) (Z.shiftl (Z.land x 0x0F0F0F0F) 4)) in
  let x := u32 (Z.lor (Z.shiftr (Z.land x 0xCCCCCCCC) 2) (Z.shiftl (Z.land x 0x33333333) 2)) in
  u32 (Z.lor (Z.shiftr (Z.land x 0xAAAAAAAA) 1) (Z.shiftl (Z.land x 0x55555555) 1)).
Definition __constant_bitrev16 (x : Z) : Z :=
  let x := u16 x in
  let x := u16 (Z.lor (Z.shiftr x 8) (Z.shiftl x 8)) in
  let x := u16 (Z.lor (Z.shiftr (Z.land x 0xF0F0) 4) (Z.shiftl (Z.land x 0x0F0F) 4)) in
  let x := u16 (Z.lor (Z.shiftr (Z.land x 0xCCCC) 2) (Z.shiftl (Z.land x 0x3333) 2)) in
  u16 (Z.lor (Z.shiftr (Z.land x 0xAAAA) 1) (Z.shiftl (Z.land x 0x5555) 1)).
Definition __constant_bitrev8 (x : Z) : Z :=
  let x := u8 x in
  let x := u8 (Z.lor (Z.shiftr x 4) (Z.shiftl x 4)) in
  let x := u8 (Z.lor (Z.shiftr (Z.land x 0xCC) 2) (Z.shiftl (Z.land x 0x33) 2)) in
  u8 (Z.lor (Z.shiftr (Z.land x 0xAA) 1) (Z.shiftl (Z.land x 0x55) 1)).
