(* ===== verification/Crc32Facts.v ===== *)
(** * Checksums are linear

    A step of the CRC is linear over exclusive or, and only moves a word whose
    low bits are 0.  So the CRC of eight bytes is the sum of eight table
    entries, and the CRC of two messages can be computed from their CRCs.

    One bit of the CRC is linear, so eight bits are a byte step; the big-endian
    CRC is one between byte swaps.  A word is a polynomial with x^0 at the top:
    [n] bits of the CRC multiply by x^n.  Byte swaps and bit reversals each
    permute the bits of a word; the big-endian CRC is the little-endian one
    under reversal. *)
From stdpp Require Import base numbers list option.
From Stdlib Require Import ZArith Lia.
From S2P Require Import Prelude Crc32Table Crc32.

Definition word32 (z : Z) : Prop := 0 <= z < 2 ^ 32.
Definition is_byte (z : Z) : Prop := 0 <= z < 256.

(** ** Words *)

Lemma lxor_range a b n : 0 <= n -> 0 <= a < 2 ^ n -> 0 <= b < 2 ^ n -> 0 <= Z.lxor a b < 2 ^ n.
Proof.
  intros Hn Ha Hb. replace (Z.lxor a b) with (Z.lxor a b mod 2 ^ n) by
    (apply Z.bits_inj'; intros i Hi; destruct (Z.lt_ge_cases i n);
     [by rewrite Z.mod_pow2_bits_low | rewrite Z.mod_pow2_bits_high, Z.lxor_spec, (testbit_above a n), (testbit_above b n) by lia; done]).
  apply Z.mod_pos_bound, Z.pow_pos_nonneg; lia.
Qed.

Lemma word32_lxor a b : word32 a -> word32 b -> word32 (Z.lxor a b).
Proof. intros. by apply lxor_range. Qed.

Lemma byte_word32 b : is_byte b -> word32 b.
Proof. unfold is_byte, word32. lia. Qed.

Lemma land255_byte v : is_byte (Z.land v 255).
Proof. change 255 with (Z.ones 8). unfold is_byte. rewrite Z.land_ones by lia. apply Z.mod_pos_bound. lia. Qed.

Lemma shiftr_word32 v n : 0 <= n -> word32 v -> word32 (Z.shiftr v n).
Proof.
  intros Hn Hv. unfold word32 in *. rewrite Z.shiftr_div_pow2 by lia.
  assert (0 < 2 ^ n) by (apply Z.pow_pos_nonneg; lia).
  split; [apply Z.div_pos; lia|]. apply Z.div_lt_upper_bound; nia.
Qed.

(** A word is its low byte and the rest. *)
Lemma low_byte v : Z.lxor (Z.land v 255) (Z.shiftl (Z.shiftr v 8) 8) = v.
Proof.
  apply Z.bits_inj'. intros i Hi. change 255 with (Z.ones 8). rewrite Z.lxor_spec, Z.land_spec.
  destruct (Z.lt_ge_cases i 8).
  - rewrite Z.ones_spec_low, Z.shiftl_spec_low by lia. by rewrite andb_true_r, xorb_false_r.
  - rewrite Z.ones_spec_high, Z.shiftl_spec_high, Z.shiftr_spec by lia. rewrite andb_false_r. simpl. f_equal. lia.
Qed.

Lemma shiftr_lxor_byte v x : is_byte x -> Z.shiftr (Z.lxor v x) 8 = Z.shiftr v 8.
Proof.
  intros Hx. rewrite Z.shiftr_lxor. rewrite (Z.shiftr_div_pow2 x) by lia. unfold is_byte in Hx.
  rewrite (Z.div_small x) by lia. apply Z.lxor_0_r.
Qed.

Lemma lor_bytes b v : is_byte b -> 0 <= v -> Z.lor b (Z.shiftl v 8) = b + v * 2 ^ 8.
Proof. intros Hb Hv. unfold is_byte in Hb. apply lor_shiftl_add; lia. Qed.

(** ** Linear steps that move words *)

(** [L] processes a byte that was added to the low end of the word. *)
Record byte_step (L : Z -> Z) : Prop := {
  step_lxor a b : word32 a -> word32 b -> L (Z.lxor a b) = Z.lxor (L a) (L b);
  step_word a : word32 a -> word32 (L a);
  step_moves a : 0 <= a < 2 ^ 24 -> L (Z.shiftl a 8) = a
}.

Definition crc_bytes (L : Z -> Z) (crc : Z) (l : list Z) : Z := foldl (fun c x => L (Z.lxor c x)) crc l.

(** The table [tab] was made for [L]. *)
Definition table_for (L : Z -> Z) (tab : list (list Z)) : Prop :=
  forall t i : nat, (t < 8)%nat -> (i < 256)%nat -> tab_at tab (Z.of_nat t) (Z.of_nat i) = Ret (Nat.iter (S t) L (Z.of_nat i)).

Definition entry_ok (L : Z -> Z) (tab : list (list Z)) (t i : nat) : bool :=
  match tab_at tab (Z.of_nat t) (Z.of_nat i) with Ret v => v =? Nat.iter (S t) L (Z.of_nat i) | _ => false end.
Definition table_ok (L : Z -> Z) (tab : list (list Z)) : bool :=
  forallb (fun t => forallb (entry_ok L tab t) (seq 0 256)) (seq 0 8).

Lemma table_ok_spec L tab : table_ok L tab = true -> table_for L tab.
Proof.
  unfold table_ok. intros H t i Ht Hi. rewrite forallb_forall in H. specialize (H t).
  rewrite forallb_forall in H. specialize (H ltac:(apply in_seq; lia) i ltac:(apply in_seq; lia)).
  unfold entry_ok in H. destruct (tab_at _ _ _); try done. by apply Z.eqb_eq in H as ->.
Qed.

Section step.
Context (L : Z -> Z) (HL : byte_step L).

Lemma iter_word n a : word32 a -> word32 (Nat.iter n L a).
Proof using HL. intros Ha. induction n as [|n IH]; [done|]. by apply (step_word _ HL). Qed.

Lemma iter_lxor n a b : word32 a -> word32 b -> Nat.iter n L (Z.lxor a b) = Z.lxor (Nat.iter n L a) (Nat.iter n L b).
Proof using HL.
  intros Ha Hb. induction n as [|n IH]; [done|]. simpl. rewrite IH. apply (step_lxor _ HL); by apply iter_word.
Qed.

Lemma crc_bytes_word l : forall c, word32 c -> Forall is_byte l -> word32 (crc_bytes L c l).
Proof using HL.
  induction l as [|x l IH]; intros c Hc Hl; [done|]. apply Forall_cons_1 in Hl as [Hx Hl].
  apply IH; [|done]. apply (step_word _ HL), word32_lxor; [done|by apply byte_word32].
Qed.

Lemma crc_bytes_app c l l' : crc_bytes L c (l ++ l') = crc_bytes L (crc_bytes L c l) l'.
Proof using. apply foldl_app. Qed.

(** The low byte goes through the step, the rest moves down. *)
Lemma step_split v : word32 v -> L v = Z.lxor (L (Z.land v 255)) (Z.shiftr v 8).
Proof using HL.
  intros Hv. rewrite <- (low_byte v) at 1. unfold word32 in Hv.
  assert (Hh : 0 <= Z.shiftr v 8 < 2 ^ 24) by (rewrite Z.shiftr_div_pow2 by lia; split; [apply Z.div_pos; lia|apply Z.div_lt_upper_bound; lia]).
  assert (Hw : word32 (Z.shiftl (Z.shiftr v 8) 8)) by (unfold word32; rewrite Z.shiftl_mul_pow2 by lia; lia).
  rewrite (step_lxor _ HL), (step_moves _ HL) by first [exact Hh | exact Hw | apply byte_word32, land255_byte]. done.
Qed.

Lemma step_add v w : word32 v -> word32 w -> L (Z.lxor v w) = Z.lxor (L (Z.lxor v (Z.land w 255))) (Z.shiftr w 8).
Proof using HL.
  intros Hv Hw. assert (word32 (Z.land w 255)) by (apply byte_word32, land255_byte).
  rewrite !(step_lxor _ HL), (step_split w) by done. by rewrite Z.lxor_assoc.
Qed.

(** Four steps on a word, by its bytes. *)
Definition byte_at (q : Z) (k : Z) : Z := Z.land (Z.shiftr q k) 255.

Lemma shiftr_32 q : word32 q -> Z.shiftr q 32 = 0.
Proof. intros Hq. unfold word32 in Hq. rewrite Z.shiftr_div_pow2 by lia. by apply Z.div_small. Qed.

Lemma four_bytes c q : word32 c -> word32 q ->
  Nat.iter 4 L (Z.lxor c q) = crc_bytes L c [byte_at q 0; byte_at q 8; byte_at q 16; byte_at q 24].
Proof using HL.
  intros Hc Hq. unfold crc_bytes, byte_at. cbn [Nat.iter nat_rect foldl].
  assert (Hb : forall k, word32 (Z.land (Z.shiftr q k) 255)) by (intros; apply byte_word32, land255_byte).
  rewrite Z.shiftr_0_r. rewrite (step_add c q) by done.
  assert (Hl : word32 (Z.land q 255)) by (apply byte_word32, land255_byte).
  set (c1 := L (Z.lxor c (Z.land q 255))). assert (H1 : word32 c1) by (by apply (step_word _ HL), word32_lxor).
  rewrite (step_add c1 (Z.shiftr q 8)) by (done || by apply shiftr_word32).
  rewrite Z.shiftr_shiftr by lia. change (8 + 8) with 16.
  set (c2 := L (Z.lxor c1 _)). assert (H2 : word32 c2) by (by apply (step_word _ HL), word32_lxor).
  rewrite (step_add c2 (Z.shiftr q 16)) by (done || by apply shiftr_word32).
  rewrite Z.shiftr_shiftr by lia. change (16 + 8) with 24.
  set (c3 := L (Z.lxor c2 _)). assert (H3 : word32 c3) by (by apply (step_word _ HL), word32_lxor).
  rewrite (step_add c3 (Z.shiftr q 24)) by (done || by apply shiftr_word32).
  rewrite Z.shiftr_shiftr by lia. change (24 + 8) with 32. rewrite shiftr_32 by done. by rewrite Z.lxor_0_r.
Qed.

Lemma four_sum q n : word32 q -> Nat.iter (n + 4) L q =
  Z.lxor (Z.lxor (Z.lxor (Nat.iter (n + 4) L (byte_at q 0)) (Nat.iter (n + 3) L (byte_at q 8)))
    (Nat.iter (n + 2) L (byte_at q 16))) (Nat.iter (n + 1) L (byte_at q 24)).
Proof using HL.
  intros Hq. assert (Hb : forall k, word32 (byte_at q k)) by (intros; apply byte_word32, land255_byte).
  assert (H4 : Nat.iter 4 L q = Z.lxor (Z.lxor (Z.lxor (Nat.iter 4 L (byte_at q 0)) (Nat.iter 3 L (byte_at q 8)))
    (Nat.iter 2 L (byte_at q 16))) (Nat.iter 1 L (byte_at q 24))).
  { rewrite <- (Z.lxor_0_l q) at 1. rewrite four_bytes by done. unfold crc_bytes. cbn [foldl]. rewrite Z.lxor_0_l.
    cbn [Nat.iter nat_rect].
    assert (Hw : forall n k, word32 (Nat.iter n L (byte_at q k))) by (intros; by apply iter_word).
    rewrite !(step_lxor _ HL); try done;
      repeat first [done | apply Hb | apply (step_word _ HL) | apply word32_lxor]. }
  rewrite !Nat.iter_add, H4.
  assert (Hw : forall n k, word32 (Nat.iter n L (byte_at q k))) by (intros; by apply iter_word).
  rewrite !iter_lxor by (repeat apply word32_lxor; apply Hw). by rewrite <- !Nat.iter_add.
Qed.

(** ** The macros *)

Context (tab : list (list Z)) (Htab : table_for L tab).

Lemma tab_byte t i : (t < 8)%nat -> is_byte i -> tab_at tab (Z.of_nat t) i = Ret (Nat.iter (S t) L i).
Proof using Htab. unfold is_byte. intros Ht Hi. rewrite <- (Z2Nat.id i) by lia. apply Htab; lia. Qed.

Lemma DO_CRC_ok crc x : word32 crc -> is_byte x -> DO_CRC tab crc x = Ret (L (Z.lxor crc x)).
Proof using HL Htab.
  intros Hc Hx. unfold DO_CRC. rewrite (tab_byte 0) by (lia || apply land255_byte). rewrite bind_ret. f_equal.
  rewrite (step_split (Z.lxor crc x)) by (apply word32_lxor; [done|by apply byte_word32]).
  by rewrite (shiftr_lxor_byte _ x).
Qed.

Lemma DO_CRC4_ok q : word32 q -> DO_CRC4 tab q = Ret (Nat.iter 4 L q).
Proof using HL Htab.
  intros Hq. unfold DO_CRC4.
  rewrite (tab_byte 3), bind_ret, (tab_byte 2), bind_ret, (tab_byte 1), bind_ret, (tab_byte 0), bind_ret by (lia || apply land255_byte).
  change 4%nat with (0 + 4)%nat. rewrite (four_sum q 0) by done. unfold byte_at. by rewrite Z.shiftr_0_r.
Qed.

Lemma DO_CRC8_ok q : word32 q -> DO_CRC8 tab q = Ret (Nat.iter 8 L q).
Proof using HL Htab.
  intros Hq. unfold DO_CRC8.
  rewrite (tab_byte 7), bind_ret, (tab_byte 6), bind_ret, (tab_byte 5), bind_ret, (tab_byte 4), bind_ret by (lia || apply land255_byte).
  change 8%nat with (4 + 4)%nat. rewrite (four_sum q 4) by done. unfold byte_at. by rewrite Z.shiftr_0_r.
Qed.

(** ** The body *)

Context (m : list Z) (Hm : Forall is_byte m) (Hsz : Z.of_nat (length m) < 2 ^ 64).

Definition part (p n : Z) : list Z := take (Z.to_nat n) (drop (Z.to_nat p) m).

Lemma rd_byte p : 0 <= p < Z.of_nat (length m) -> exists x, rd m p = Ret x /\ is_byte x /\
  forall n, 0 < n -> part p n = x :: part (p + 1) (n - 1).
Proof using Hm.
  intros Hp. destruct (rd_in_range m p Hp) as (x & Hr & Hx). exists x. split; [done|]. split.
  - by eapply (Forall_lookup_1 _ _ _ _ Hm).
  - intros n Hn. unfold part. rewrite (drop_S m x) by done. replace (Z.to_nat n) with (S (Z.to_nat (n - 1))) by lia.
    simpl. by replace (Z.to_nat (p + 1)) with (S (Z.to_nat p)) by lia.
Qed.

Lemma part_nil p : part p 0 = [].
Proof using. done. Qed.

(** What is left to do gives [R]. *)
Definition pending (R : Z) (st : Z * Z * Z) : Prop :=
  let '(crc, p, n) := st in
  word32 crc /\ 0 <= p /\ 0 <= n /\ p + n <= Z.of_nat (length m) /\ crc_bytes L crc (part p n) = R.

Lemma pending_byte R crc p n : pending R (crc, p, n) -> 0 < n ->
  exists x, rd m p = Ret x /\ DO_CRC tab crc x = Ret (L (Z.lxor crc x)) /\ u64 (n - 1) = n - 1 /\
    pending R (L (Z.lxor crc x), p + 1, n - 1).
Proof using HL Htab Hm Hsz.
  intros (Hc & Hp & Hn & Hle & HR) Hn0. destruct (rd_byte p) as (x & Hr & Hx & Hpart); [lia|].
  exists x. split; [done|]. split; [by apply DO_CRC_ok|]. split; [apply u64_small; lia|].
  assert (word32 (L (Z.lxor crc x))) by (apply (step_word _ HL), word32_lxor; [done|by apply byte_word32]).
  unfold pending. split_and!; [done|lia|lia|lia|]. rewrite Hpart in HR by lia. exact HR.
Qed.

Lemma align_ok R base crc p n : pending R (crc, p, n) -> 0 < n ->
  returns (loop (Z.to_nat n) (align_turn base tab m) (crc, p, n)) (pending R).
Proof using HL Htab Hm Hsz.
  intros H Hn. apply (loop_returns (fun st => pending R st /\ 0 < st.2) (fun st => Z.to_nat st.2 - 1)%nat); [done|simpl; lia|].
  clear crc p n H Hn. intros [[crc p] n] [H Hn]. simpl in Hn. unfold align_turn.
  destruct (pending_byte R crc p n H Hn) as (x & -> & E & Eu & H'). rewrite bind_ret, E, bind_ret, Eu.
  destruct (Z.eqb_spec (n - 1) 0) as [E0|E0]; simpl; [done|]. destruct (negb _); simpl; [|done].
  split; [split; [done|]|]; destruct H' as (_ & _ & ? & _); lia.
Qed.

Lemma tail_ok R crc p n : pending R (crc, p, n) -> 0 < n ->
  returns (loop (Z.to_nat n) (tail_turn tab m) (crc, p, n)) (eq R).
Proof using HL Htab Hm Hsz.
  intros H Hn. apply (loop_returns (fun st => pending R st /\ 0 < st.2) (fun st => Z.to_nat st.2 - 1)%nat); [done|simpl; lia|].
  clear crc p n H Hn. intros [[crc p] n] [H Hn]. simpl in Hn. unfold tail_turn.
  destruct (pending_byte R crc p n H Hn) as (x & -> & E & Eu & H'). rewrite bind_ret, E, bind_ret, Eu.
  destruct (Z.eqb_spec (n - 1) 0) as [E0|E0]; simpl.
  - destruct H' as (_ & _ & _ & _ & <-). rewrite E0. done.
  - split; [split; [done|]|]; destruct H' as (_ & _ & ? & _); lia.
Qed.

(** A word and its bytes. *)
Lemma load32_ok p : 0 <= p -> p + 4 <= Z.of_nat (length m) ->
  exists w, load32 m p = Ret w /\ word32 w /\
    part p 4 = [byte_at w 0; byte_at w 8; byte_at w 16; byte_at w 24].
Proof using Hm.
  intros Hp Hle. unfold load32.
  destruct (rd_byte p) as (b0 & -> & H0 & P0); [lia|]. destruct (rd_byte (p + 1)) as (b1 & -> & H1 & P1); [lia|].
  destruct (rd_byte (p + 2)) as (b2 & -> & H2 & P2); [lia|]. destruct (rd_byte (p + 3)) as (b3 & -> & H3 & P3); [lia|].
  rewrite !bind_ret. eexists. split; [reflexivity|].
  assert (E : Z.lor b0 (Z.lor (Z.shiftl b1 8) (Z.lor (Z.shiftl b2 16) (Z.shiftl b3 24))) =
    b0 + (b1 + (b2 + b3 * 2 ^ 8) * 2 ^ 8) * 2 ^ 8).
  { assert (0 <= b1 /\ 0 <= b2 /\ 0 <= b3) by (unfold is_byte in *; lia).
    pose proof (lor_bytes b2 b3 H2 ltac:(lia)) as E2. pose proof (lor_bytes b1 (Z.lor b2 (Z.shiftl b3 8)) H1 ltac:(rewrite E2; lia)) as E1.
    rewrite <- E2, <- E1, <- lor_bytes by (done || (rewrite E1, E2; unfold is_byte in *; lia)).
    rewrite !Z.shiftl_lor, !Z.shiftl_shiftl by lia. done. }
  rewrite E. unfold is_byte in *. split; [unfold word32; lia|].
  rewrite P0 by lia. change (4 - 1) with 3. rewrite P1 by lia. replace (p + 1 + 1) with (p + 2) by lia. change (3 - 1) with 2.
  rewrite P2 by lia. replace (p + 2 + 1) with (p + 3) by lia. change (2 - 1) with 1. rewrite P3 by lia. change (1 - 1) with 0.
  rewrite part_nil. unfold byte_at. change 255 with (Z.ones 8). rewrite !Z.land_ones, !Z.shiftr_div_pow2 by lia.
  repeat f_equal; Z.to_euclidean_division_equations; lia.
Qed.

Lemma part_split p n k : 0 <= k <= n -> 0 <= p -> part p n = part p k ++ part (p + k) (n - k).
Proof using.
  clear. intros Hk Hp. unfold part. replace (Z.to_nat (p + k)) with (Z.to_nat p + Z.to_nat k)%nat by lia.
  rewrite <- drop_drop. rewrite <- (take_drop (Z.to_nat k) (take (Z.to_nat n) _)) at 1.
  rewrite take_take, Nat.min_l, skipn_firstn_comm by lia. by replace (Z.to_nat n - Z.to_nat k)%nat with (Z.to_nat (n - k)) by lia.
Qed.

Lemma words_ok R crc p n rest : pending R (crc, p, 8 * n + rest) -> 0 <= n -> 0 <= rest ->
  returns (loop (Z.to_nat n + 1) (words_turn tab m) (crc, p, n)) (fun '(crc, b) => pending R (crc, b, rest)).
Proof using HL Htab Hm Hsz.
  intros H Hn Hrest.
  apply (loop_returns (fun st => 0 <= st.2 /\ pending R (st.1.1, st.1.2, 8 * st.2 + rest)) (fun st => Z.to_nat st.2));
    [done|simpl; lia|]. clear crc p n H Hn. intros [[crc p] n] [Hn H]. simpl in Hn, H. unfold words_turn.
  destruct (Z.eqb_spec n 0) as [->|E0]; simpl; [done|]. destruct H as (Hc & Hp & Hr & Hle & HR).
  destruct (load32_ok p Hp) as (w & -> & Hw & Pw); [lia|]. destruct (load32_ok (p + 4)) as (q & -> & Hq & Pq); [lia|lia|].
  rewrite bind_ret, DO_CRC8_ok by (by apply word32_lxor).
  rewrite !bind_ret, DO_CRC4_ok, bind_ret by done. rewrite (u64_small (n - 1)) by lia. split; cbn [fst snd]; [|lia].
  split; [lia|]. change 8%nat with (4 + 4)%nat. rewrite Nat.iter_add, <- iter_lxor
    by (done || apply iter_word, word32_lxor; done).
  assert (Hbs : forall q, Forall is_byte [byte_at q 0; byte_at q 8; byte_at q 16; byte_at q 24]) by (intros; repeat constructor; apply land255_byte).
  rewrite (four_bytes crc w) by done. rewrite (four_bytes _ q) by (done || by apply crc_bytes_word).
  split_and!; [by repeat apply crc_bytes_word|lia|lia|lia|].
  rewrite <- Pw, <- Pq, <- !crc_bytes_app, <- HR.
  rewrite (part_split p (8 * n + rest) 4), (part_split (p + 4) (8 * n + rest - 4) 4) by lia.
  replace (p + 4 + 4) with (p + 8) by lia. replace (8 * n + rest - 4 - 4) with (8 * (n - 1) + rest) by lia.
  done.
Qed.

Lemma crc32_body_ok base crc p n : word32 crc -> 0 <= p -> 0 <= n -> p + n <= Z.of_nat (length m) ->
  crc32_body base crc m p n tab = Ret (crc_bytes L crc (part p n)).
Proof using HL Htab Hm Hsz.
  intros Hc Hp Hn Hle. set (R := crc_bytes L crc (part p n)).
  assert (H : pending R (crc, p, n)) by (unfold pending; split_and!; try done; lia).
  cut (returns (crc32_body base crc m p n tab) (eq R)).
  { intros Hr. by destruct (returns_inv _ _ Hr) as (? & -> & <-). }
  unfold crc32_body. apply returns_bind with (P := pending R).
  { destruct (negb _ && _) eqn:E; [|done]. apply andb_true_iff in E as [_ E]. apply negb_true_iff, Z.eqb_neq in E.
    apply align_ok; [done|lia]. }
  clearbody R. clear crc p n Hc Hp Hn Hle H. intros [[crc p] n] H.
  assert (En : n = 8 * Z.shiftr n 3 + Z.land n 7).
  { change 7 with (Z.ones 3). rewrite Z.land_ones, Z.shiftr_div_pow2 by lia. apply Z.div_mod. lia. }
  assert (H7 : 0 <= Z.shiftr n 3 /\ 0 <= Z.land n 7).
  { destruct H as (_ & _ & Hn & _). rewrite Z.shiftr_nonneg, Z.land_nonneg. lia. }
  apply returns_bind with (P := fun '(crc, b) => pending R (crc, b, Z.land n 7)).
  { apply words_ok; [by rewrite <- En|lia|lia]. }
  intros [crc' b] H'. destruct (Z.eqb_spec (Z.land n 7) 0) as [E0|E0].
  - destruct H' as (_ & _ & _ & _ & <-). rewrite E0. done.
  - apply tail_ok; [done|lia].
Qed.
End step.

(** Adding a bit above a word. *)
Lemma lxor_top a n : 0 <= n -> 0 <= a < 2 ^ n -> Z.lxor a (2 ^ n) = a + 2 ^ n.
Proof.
  intros Hn Ha. rewrite <- (Z.mul_1_l (2 ^ n)) at 2. rewrite <- lor_shiftl_add, Z.shiftl_1_l by lia.
  apply Z.lxor_lor. rewrite <- Z.shiftl_1_l. by apply land_shiftl_disjoint.
Qed.

(** ** One bit *)

Section bit.
Context (P : Z) (HP : word32 P).

Lemma crc_bit_word a : word32 a -> word32 (crc_bit P a).
Proof using HP.
  intros Ha. apply word32_lxor; [by apply shiftr_word32|]. destruct (Z.testbit a 0); [done|]. unfold word32. lia.
Qed.

Lemma crc_bit_lxor a b : crc_bit P (Z.lxor a b) = Z.lxor (crc_bit P a) (crc_bit P b).
Proof using.
  unfold crc_bit. rewrite Z.shiftr_lxor, Z.lxor_spec. apply Z.bits_inj'. intros i Hi. rewrite !Z.lxor_spec.
  destruct (Z.testbit a 0), (Z.testbit b 0); rewrite ?Z.bits_0; simpl;
    destruct (Z.testbit (Z.shiftr a 1) i), (Z.testbit (Z.shiftr b 1) i), (Z.testbit P i); done.
Qed.

Lemma crc_bit_even a : crc_bit P (2 * a) = a.
Proof using.
  unfold crc_bit. rewrite Z.testbit_even_0, Z.lxor_0_r, Z.shiftr_div_pow2, Z.mul_comm by lia. by apply Z.div_mul.
Qed.

Lemma crc_bits_shift n a : Nat.iter n (crc_bit P) (Z.shiftl a (Z.of_nat n)) = a.
Proof using.
  revert a. induction n as [|n IH]; intros a; [apply Z.shiftl_0_r|].
  rewrite Nat.iter_succ_r. rewrite Z.shiftl_mul_pow2 by lia. rewrite Nat2Z.inj_succ, Z.pow_succ_r by lia.
  replace (a * (2 * 2 ^ Z.of_nat n)) with (2 * (a * 2 ^ Z.of_nat n)) by lia.
  rewrite crc_bit_even, <- Z.shiftl_mul_pow2 by lia. apply IH.
Qed.

Lemma crc_bits_word n a : word32 a -> word32 (Nat.iter n (crc_bit P) a).
Proof using HP. intros Ha. induction n as [|n IH]; [done|]. by apply crc_bit_word. Qed.

Lemma crc_bits_lxor n a b : Nat.iter n (crc_bit P) (Z.lxor a b) = Z.lxor (Nat.iter n (crc_bit P) a) (Nat.iter n (crc_bit P) b).
Proof using. induction n as [|n IH]; [done|]. simpl. by rewrite IH, crc_bit_lxor. Qed.

Lemma crc_bits_0 n : Nat.iter n (crc_bit P) 0 = 0.
Proof using. pose proof (crc_bits_lxor n 0 0) as H. rewrite !Z.lxor_nilpotent in H. done. Qed.

Lemma le_step : byte_step (Nat.iter 8 (crc_bit P)).
Proof using HP.
  split.
  - intros a b _ _. apply crc_bits_lxor.
  - intros a. apply crc_bits_word.
  - intros a _. apply (crc_bits_shift 8).
Qed.

(** The top bit of the polynomial is set: a step forgets nothing. *)
Lemma crc_bit_inj a b : Z.testbit P 31 = true -> word32 a -> word32 b -> crc_bit P a = crc_bit P b -> a = b.
Proof using HP.
  intros HP31 Ha Hb E.
  assert (Hz : word32 (Z.lxor a b)) by (by apply word32_lxor).
  assert (E0 : crc_bit P (Z.lxor a b) = 0) by (rewrite crc_bit_lxor, E; apply Z.lxor_nilpotent).
  apply Z.lxor_eq. set (z := Z.lxor a b) in *. unfold word32 in Hz.
  assert (Ht : Z.testbit z 0 = false).
  { pose proof (f_equal (fun v => Z.testbit v 31) E0) as H. unfold crc_bit in H. rewrite Z.lxor_spec, Z.shiftr_spec, Z.bits_0 in H by lia.
    rewrite (testbit_above z 32 (31 + 1)) in H by lia. destruct (Z.testbit z 0); [|done]. by rewrite HP31 in H. }
  unfold crc_bit in E0. rewrite Ht, Z.lxor_0_r in E0. rewrite Z.bit0_odd in Ht.
  pose proof (Zdiv2_odd_eqn z) as Ez. rewrite Ht in Ez. rewrite Z.div2_spec, E0 in Ez. lia.
Qed.

Lemma crc_bits_inj n a b : Z.testbit P 31 = true -> word32 a -> word32 b ->
  Nat.iter n (crc_bit P) a = Nat.iter n (crc_bit P) b -> a = b.
Proof using HP.
  intros HP31. revert a b. induction n as [|n IH]; intros a b Ha Hb; [done|]. simpl. intros E.
  apply crc_bit_inj in E; [by apply IH|done|by apply crc_bits_word..].
Qed.

(** ** Multiplication *)

Definition msb : Z := 2 ^ 31.

(** The first [k] coefficients of [x], multiplied by x^0. *)
Lemma mult_turns y (n : nat) x k prod : word32 x -> y = Nat.iter n (crc_bit P) msb -> (k <= 31)%nat ->
  prod = Nat.iter n (crc_bit P) (Z.shiftl (x mod 2 ^ (Z.of_nat k + 1)) (31 - Z.of_nat k)) ->
  loop (32 - k) (gf2_turn y P) (Z.of_nat k, Z.shiftr x (Z.of_nat k), prod) = Ret (Nat.iter n (crc_bit P) x).
Proof using.
  intros Hx Hy Hk Hp. remember (31 - k)%nat as d eqn:Ed. revert k prod Hk Hp Ed.
  induction d as [|d IH]; intros k prod Hk Hp Ed.
  - assert (k = 31%nat) as -> by lia. change (32 - 31)%nat with 1%nat. erewrite loop_inr; [|reflexivity]. rewrite Hp. change (Z.of_nat 31) with 31.
    change (31 - 31) with 0. rewrite Z.shiftl_0_r. unfold word32 in Hx. by rewrite Z.mod_small.
  - replace (32 - k)%nat with (S (32 - S k)) by lia. erewrite loop_inl; [|unfold gf2_turn; zdec; reflexivity].
    rewrite Z.shiftr_shiftr by lia. replace (Z.of_nat k + 1) with (Z.of_nat (S k)) at 1 2 by lia.
    apply IH; [lia| |lia].
    fold (crc_bit P prod). rewrite Hp, <- Nat.iter_succ, Nat.iter_succ_r.
    set (v := x mod 2 ^ (Z.of_nat k + 1)).
    assert (Hv : 0 <= v < 2 ^ (Z.of_nat k + 1)) by (apply Z.mod_pos_bound, Z.pow_pos_nonneg; lia).
    replace (Z.shiftl v (31 - Z.of_nat k)) with (2 * Z.shiftl v (30 - Z.of_nat k)).
    2:{ rewrite !Z.shiftl_mul_pow2 by lia. replace (31 - Z.of_nat k) with (Z.succ (30 - Z.of_nat k)) by lia. rewrite Z.pow_succ_r by lia. lia. }
    rewrite crc_bit_even. rewrite Z.shiftr_spec, Z.add_0_l by lia.
    replace (31 - Z.of_nat (S k)) with (30 - Z.of_nat k) by lia.
    assert (Em : x mod 2 ^ (Z.of_nat (S k) + 1) = v + Z.b2z (Z.testbit x (Z.of_nat k + 1)) * 2 ^ (Z.of_nat k + 1)).
    { replace (Z.of_nat (S k) + 1) with (Z.succ (Z.of_nat k + 1)) by lia. unfold v. rewrite Z.pow_succ_r, Z.mul_comm by lia.
      rewrite Z.rem_mul_r by (try apply Z.pow_nonzero; lia). rewrite <- Z.testbit_spec' by lia. lia. }
    rewrite Em. destruct (Z.testbit x (Z.of_nat k + 1)); simpl Z.b2z.
    + rewrite Hy, <- crc_bits_lxor. f_equal. rewrite !Z.shiftl_mul_pow2 by lia. unfold msb.
      assert (E31 : 2 ^ 31 = 2 ^ (Z.of_nat k + 1) * 2 ^ (30 - Z.of_nat k)) by (rewrite <- Z.pow_add_r by lia; f_equal; lia).
      assert (0 < 2 ^ (30 - Z.of_nat k)) by (apply Z.pow_pos_nonneg; lia).
      rewrite lxor_top by nia. rewrite E31. lia.
    + rewrite Z.mul_0_l, Z.add_0_r, Z.lxor_0_r. done.
Qed.

Lemma gf2_multiply_ok x n : word32 x -> gf2_multiply x (Nat.iter n (crc_bit P) msb) P = Ret (Nat.iter n (crc_bit P) x).
Proof using.
  intros Hx. unfold gf2_multiply. rewrite <- (Z.shiftr_0_r x) at 1. apply (mult_turns _ n x 0); [done|done|lia|].
  change (2 ^ (Z.of_nat 0 + 1)) with 2. change (31 - Z.of_nat 0) with 31.
  rewrite <- (Z.bit0_mod x). destruct (Z.testbit x 0); simpl Z.b2z; [done|]. rewrite Z.shiftl_0_l. symmetry. apply crc_bits_0.
Qed.

(** ** Appending zero bytes *)

Lemma shift_bits_ok crc n k : (k <= n)%nat -> (n <= 24)%nat ->
  loop (25 - k) (shift_bits_turn P (Z.of_nat n)) (Z.of_nat k, Nat.iter k (crc_bit P) crc) = Ret (Nat.iter n (crc_bit P) crc).
Proof using.
  intros Hk Hn. remember (n - k)%nat as d eqn:Ed. revert k Hk Ed. induction d as [|d IH]; intros k Hk Ed.
  - assert (k = n) as -> by lia. replace (25 - n)%nat with (S (24 - n)) by lia.
    apply loop_inr. unfold shift_bits_turn. by zdec.
  - replace (25 - k)%nat with (S (25 - S k)) by lia. erewrite loop_inl; [|unfold shift_bits_turn; zdec; reflexivity].
    rewrite <- Nat.iter_succ. replace (Z.of_nat k + 1) with (Z.of_nat (S k)) by lia. apply IH; lia.
Qed.

Lemma shift_turn_eq crc power len : shift_turn P (crc, power, len) =
  (crc ← (if Z.testbit len 0 then gf2_multiply crc power P else Ret crc);
   if Z.shiftr len 1 =? 0 then Ret (inr crc)
   else power ← gf2_multiply power power P; Ret (inl (crc, power, Z.shiftr len 1))).
Proof using. done. Qed.

Lemma shift_turns_ok fuel : forall crc (a n : nat) len, word32 crc -> 0 < len < 2 ^ Z.of_nat fuel ->
  n = (a * Z.to_nat len)%nat ->
  loop fuel (shift_turn P) (crc, Nat.iter a (crc_bit P) msb, len) = Ret (Nat.iter n (crc_bit P) crc).
Proof using HP.
  induction fuel as [|fuel IH]; intros crc a n len Hc Hlen ->; [simpl in Hlen; lia|].
  rewrite loop_S, shift_turn_eq. rewrite Nat2Z.inj_succ, Z.pow_succ_r in Hlen by lia.
  assert (Hl : len = 2 * (len / 2) + Z.b2z (Z.testbit len 0)) by (rewrite Z.bit0_mod; apply Z.div_mod; lia).
  assert (E : (if Z.testbit len 0 then gf2_multiply crc (Nat.iter a (crc_bit P) msb) P else Ret crc) =
    Ret (Nat.iter (a * Z.to_nat (Z.b2z (Z.testbit len 0))) (crc_bit P) crc)).
  { destruct (Z.testbit len 0); simpl Z.b2z; [rewrite gf2_multiply_ok by done; by rewrite Nat.mul_1_r|by rewrite Nat.mul_0_r]. }
  rewrite E, bind_ret. set (b := Z.b2z _) in *. assert (Hb : 0 <= b <= 1) by (unfold b; destruct (Z.testbit len 0); simpl; lia).
  rewrite Z.shiftr_div_pow2 by lia. change (2 ^ 1) with 2. destruct (Z.eqb_spec (len / 2) 0) as [E0|E0].
  - simpl. do 2 f_equal. f_equal. lia.
  - rewrite gf2_multiply_ok by (apply crc_bits_word; unfold word32, msb; lia). rewrite !bind_ret. rewrite <- Nat.iter_add.
    rewrite (IH _ (a + a)%nat _ (len / 2) (crc_bits_word _ _ Hc) ltac:(lia) eq_refl).
    rewrite <- Nat.iter_add. do 2 f_equal.
    replace (Z.to_nat len) with (2 * Z.to_nat (len / 2) + Z.to_nat b)%nat by lia. lia.
Qed.

Lemma generic_shift_ok crc len : P = Nat.iter 32 (crc_bit P) msb -> word32 crc -> 0 <= len < 2 ^ 64 ->
  crc32_generic_shift crc len P = Ret (Nat.iter (8 * Z.to_nat len) (crc_bit P) crc).
Proof using HP.
  intros E32 Hc Hlen. unfold crc32_generic_shift.
  assert (H3 : Z.land len 3 = len mod 4) by (change 3 with (Z.ones 2); by rewrite Z.land_ones).
  assert (Hm : 0 <= len mod 4 < 4) by (apply Z.mod_pos_bound; lia).
  rewrite H3, s32_small by lia. replace (8 * (len mod 4)) with (Z.of_nat (8 * Z.to_nat (len mod 4))) by lia.
  pose proof (shift_bits_ok crc (8 * Z.to_nat (len mod 4)) 0 ltac:(lia) ltac:(lia)) as H. change (Z.of_nat 0) with 0 in H.
  change (25 - 0)%nat with 25%nat in H. change (Nat.iter 0 (crc_bit P) crc) with crc in H. rewrite H, bind_ret.
  rewrite Z.shiftr_div_pow2 by lia. change (2 ^ 2) with 4. pose proof (Z.div_mod len 4 ltac:(lia)) as Hd.
  destruct (Z.eqb_spec (len / 4) 0) as [E0|E0].
  - do 2 f_equal. f_equal. rewrite E0 in Hd. lia.
  - rewrite E32 at 2. rewrite (shift_turns_ok 64 _ 32 (32 * Z.to_nat (len / 4))); [|by apply crc_bits_word| |done].
    + rewrite <- Nat.iter_add. do 2 f_equal. lia.
    + split; [|apply Z.div_lt_upper_bound; lia]. assert (0 <= len / 4) by (apply Z.div_pos; lia). lia.
Qed.
End bit.

(** ** Bits at a known position *)

Ltac bit_step :=
  match goal with
  | |- context [Z.testbit (Z.lor ?a ?b) ?i] => rewrite (Z.lor_spec a b i)
  | |- context [Z.testbit (Z.land ?a ?b) ?i] => rewrite (Z.land_spec a b i)
  | |- context [Z.testbit (Z.shiftr ?a ?n) ?i] =>
      rewrite (Z.shiftr_spec a n i) by lia; let v := eval vm_compute in (i + n) in change (i + n) with v
  | |- context [Z.testbit (Z.shiftl ?a ?n) ?i] =>
      let v := eval vm_compute in (i - n) in
      rewrite (Z.shiftl_spec a n i) by lia; change (i - n) with v
  | |- context [Z.testbit (u32 ?a) ?i] => unfold u32 at 1; first [rewrite (Z.mod_pow2_bits_low a 32 i) by lia | rewrite (Z.mod_pow2_bits_high a 32 i) by lia]
  | |- context [Z.testbit (u16 ?a) ?i] => unfold u16 at 1; first [rewrite (Z.mod_pow2_bits_low a 16 i) by lia | rewrite (Z.mod_pow2_bits_high a 16 i) by lia]
  | |- context [Z.testbit (u8 ?a) ?i] => unfold u8 at 1; first [rewrite (Z.mod_pow2_bits_low a 8 i) by lia | rewrite (Z.mod_pow2_bits_high a 8 i) by lia]
  | |- context [Z.testbit ?a (Z.neg ?i)] => rewrite (Z.testbit_neg_r a (Z.neg i)) by lia
  | |- context [Z.testbit (Zpos ?c) ?i] => let v := eval vm_compute in (Z.testbit (Zpos c) i) in change (Z.testbit (Zpos c) i) with v
  end.
Ltac bit_eval := repeat (bit_step; rewrite ?andb_true_r, ?andb_false_r, ?orb_false_r, ?orb_false_l).

(** All positions below [n], one by one. *)
Lemma bits_below (n : nat) a b : 0 <= a < 2 ^ Z.of_nat n -> 0 <= b < 2 ^ Z.of_nat n ->
  (forall i, (i < n)%nat -> Z.testbit a (Z.of_nat i) = Z.testbit b (Z.of_nat i)) -> a = b.
Proof.
  intros Ha Hb H. apply Z.bits_inj'. intros i Hi. destruct (Z.lt_ge_cases i (Z.of_nat n)) as [Hl|Hl].
  - rewrite <- (Z2Nat.id i) by done. apply H. lia.
  - by rewrite (testbit_above a (Z.of_nat n)), (testbit_above b (Z.of_nat n)).
Qed.

Lemma u32_word z : word32 (u32 z).
Proof. apply u32_range. Qed.

(** The bits of an expression one by one; [f] says which bit of [x] each is. *)
Ltac one_bit x f :=
  match goal with |- context [Z.testbit x (Z.of_nat (f ?j))] =>
    let v := eval vm_compute in (Z.of_nat (f j)) in change (Z.of_nat (f j)) with v;
    let w := eval vm_compute in (Z.of_nat j) in change (Z.of_nat j) with w end; bit_eval; done.
Ltac all_bits_32 i x f := do 32 (destruct i as [|i]; [one_bit x f|]); lia.
Ltac all_bits_16 i x f := do 16 (destruct i as [|i]; [one_bit x f|]); lia.

Definition swapped (i : nat) : nat := (8 * (3 - i / 8) + i mod 8)%nat.
Definition reversed (n i : nat) : nat := (n - 1 - i)%nat.

Lemma swab32_bit x i : (i < 32)%nat -> Z.testbit (swab32 x) (Z.of_nat i) = Z.testbit x (Z.of_nat (swapped i)).
Proof. intros Hi. unfold swab32. all_bits_32 i x swapped. Qed.

Lemma constant_bitrev32_bit x i : (i < 32)%nat ->
  Z.testbit (__constant_bitrev32 x) (Z.of_nat i) = Z.testbit x (Z.of_nat (reversed 32 i)).
Proof. intros Hi. unfold __constant_bitrev32. cbv zeta. all_bits_32 i x (reversed 32). Qed.

Lemma constant_bitrev16_bit x i : (i < 16)%nat ->
  Z.testbit (__constant_bitrev16 x) (Z.of_nat i) = Z.testbit x (Z.of_nat (reversed 16 i)).
Proof. intros Hi. unfold __constant_bitrev16. cbv zeta. all_bits_16 i x (reversed 16). Qed.

(** ** The table of reversed bytes *)

(** [r] is [x], on [n] bits, read from the other end. *)
Definition reverses (n : nat) (x r : Z) : Prop :=
  0 <= r < 2 ^ Z.of_nat n /\
  forall i, (i < n)%nat -> Z.testbit r (Z.of_nat i) = Z.testbit x (Z.of_nat (reversed n i)).

Lemma reverses_unique n x r r' : reverses n x r -> reverses n x r' -> r = r'.
Proof. intros [Hr H] [Hr' H']. apply (bits_below n); [done|done|]. intros i Hi. by rewrite H, H'. Qed.

Definition rev_entry_ok (x : Z) : bool :=
  match __bitrev8 x with
  | Ret r => (0 <=? r) && (r <? 256) && (r =? __constant_bitrev8 x) &&
      forallb (fun i => Bool.eqb (Z.testbit r (Z.of_nat i)) (Z.testbit x (Z.of_nat (reversed 8 i)))) (seq 0 8)
  | _ => false
  end.

Lemma rev_table_ok : forallb rev_entry_ok (Z.of_nat <$> seq 0 256) = true.
Proof. vm_compute. reflexivity. Qed.

Lemma bitrev8_ok x : is_byte x -> __bitrev8 x = Ret (__constant_bitrev8 x) /\ reverses 8 x (__constant_bitrev8 x).
Proof.
  unfold is_byte. intros Hx. pose proof rev_table_ok as H. rewrite forallb_forall in H.
  specialize (H x ltac:(rewrite <- (Z2Nat.id x) by lia; apply in_map, in_seq; lia)).
  unfold rev_entry_ok in H. destruct (__bitrev8 x) as [r| | |]; try done.
  apply andb_true_iff in H as [H Hb]. apply andb_true_iff in H as [H Hc]. apply andb_true_iff in H as [H0 H1].
  apply Z.leb_le in H0. apply Z.ltb_lt in H1. apply Z.eqb_eq in Hc as <-. split; [done|]. split; [done|].
  intros i Hi. rewrite forallb_forall in Hb. apply eqb_prop, Hb, in_seq. lia.
Qed.

(** Halves are reversed and exchanged. *)
Lemma rev_join n x lo hi : reverses n (x mod 2 ^ Z.of_nat n) lo -> reverses n (Z.shiftr x (Z.of_nat n)) hi ->
  reverses (n + n) x (Z.lor (Z.shiftl lo (Z.of_nat n)) hi).
Proof.
  intros [Hlo Bl] [Hhi Bh].
  assert (E : Z.lor (Z.shiftl lo (Z.of_nat n)) hi = hi + lo * 2 ^ Z.of_nat n) by (rewrite Z.lor_comm; apply lor_shiftl_add; lia).
  split; [rewrite E, Nat2Z.inj_add, Z.pow_add_r by lia; nia|].
  intros i Hi. unfold reversed in *. rewrite Z.lor_spec. destruct (Nat.lt_ge_cases i n) as [Hl|Hl].
  - rewrite Z.shiftl_spec_low, Bh, Z.shiftr_spec by lia. simpl. f_equal. lia.
  - rewrite Z.shiftl_spec_high by lia. rewrite (testbit_above hi (Z.of_nat n)), orb_false_r by lia.
    replace (Z.of_nat i - Z.of_nat n) with (Z.of_nat (i - n)) by lia. rewrite Bl, Z.mod_pow2_bits_low by lia. f_equal. lia.
Qed.

Lemma bitrev16_ok x : 0 <= x < 2 ^ 16 -> __bitrev16 x = Ret (__constant_bitrev16 x) /\ reverses 16 x (__constant_bitrev16 x).
Proof.
  intros Hx. unfold __bitrev16, u8. change 0xff with (Z.ones 8). rewrite Z.land_ones, Z.mod_mod by lia.
  assert (H1 : is_byte (x mod 2 ^ 8)) by (apply Z.mod_pos_bound; lia).
  assert (H2 : is_byte (Z.shiftr x 8)).
  { unfold is_byte. rewrite Z.shiftr_div_pow2 by lia. split; [apply Z.div_pos; lia|apply Z.div_lt_upper_bound; lia]. }
  rewrite (Z.mod_small (Z.shiftr x 8)) by done. destruct (bitrev8_ok _ H1) as [-> R1], (bitrev8_ok _ H2) as [-> R2].
  rewrite !bind_ret. pose proof (rev_join 8 x _ _ R1 R2) as R. unfold u16. rewrite Z.mod_small by apply R.
  assert (Rc : reverses 16 x (__constant_bitrev16 x)) by (split; [apply Z.mod_pos_bound; lia|apply constant_bitrev16_bit]).
  split; [|done]. f_equal. by apply (reverses_unique 16 x).
Qed.

Lemma constant_bitrev32_reverses x : reverses 32 x (__constant_bitrev32 x).
Proof. split; [apply u32_range|apply constant_bitrev32_bit]. Qed.

Lemma bitrev32_ok x : word32 x -> __bitrev32 x = Ret (__constant_bitrev32 x).
Proof.
  unfold word32. intros Hx. unfold __bitrev32, u16. change 0xffff with (Z.ones 16). rewrite Z.land_ones, Z.mod_mod by lia.
  assert (H1 : 0 <= x mod 2 ^ 16 < 2 ^ 16) by (apply Z.mod_pos_bound; lia).
  assert (H2 : 0 <= Z.shiftr x 16 < 2 ^ 16).
  { rewrite Z.shiftr_div_pow2 by lia. split; [apply Z.div_pos; lia|apply Z.div_lt_upper_bound; lia]. }
  rewrite (Z.mod_small (Z.shiftr x 16)) by done. destruct (bitrev16_ok _ H1) as [-> R1], (bitrev16_ok _ H2) as [-> R2].
  rewrite !bind_ret. pose proof (rev_join 16 x _ _ R1 R2) as R. unfold u32. rewrite Z.mod_small by apply R.
  f_equal. apply (reverses_unique 32 x); [done|apply constant_bitrev32_reverses].
Qed.

(** ** Permutations of bits *)

Definition permutes (p : nat -> nat) (f : Z -> Z) : Prop :=
  (forall i, (i < 32)%nat -> (p i < 32)%nat) /\
  forall x, word32 (f x) /\ forall i, (i < 32)%nat -> Z.testbit (f x) (Z.of_nat i) = Z.testbit x (Z.of_nat (p i)).

Lemma permutes_lxor p f a b : permutes p f -> f (Z.lxor a b) = Z.lxor (f a) (f b).
Proof.
  intros [_ H]. apply (bits_below 32); [apply H|apply word32_lxor; apply H|].
  intros i Hi. rewrite Z.lxor_spec, !(proj2 (H _)), Z.lxor_spec by done. done.
Qed.

Lemma permutes_comp p q f g : permutes p f -> permutes q g -> permutes (fun i => q (p i)) (fun x => f (g x)).
Proof.
  intros [Hp Hf] [Hq Hg]. split; [intros i Hi; apply Hq, Hp, Hi|]. intros x. split; [apply Hf|].
  intros i Hi. rewrite (proj2 (Hf _)), (proj2 (Hg _)) by auto. done.
Qed.

Lemma permutes_ext p f g x : permutes p f -> permutes p g -> f x = g x.
Proof.
  intros [_ Hf] [_ Hg]. apply (bits_below 32); [apply Hf|apply Hg|].
  intros i Hi. by rewrite (proj2 (Hf _)), (proj2 (Hg _)).
Qed.

Lemma permutes_inv p f x : permutes p f -> (forall i, (i < 32)%nat -> p (p i) = i) -> word32 x -> f (f x) = x.
Proof.
  intros [Hp Hf] Hi Hx. apply (bits_below 32); [apply Hf|done|].
  intros i Hi'. rewrite !(proj2 (Hf _)), Hi by auto. done.
Qed.

Lemma permutes_eq p q f : (forall i, (i < 32)%nat -> p i = q i) -> permutes p f -> permutes q f.
Proof.
  intros E [Hp Hf]. split; [intros i Hi; rewrite <- E by done; auto|]. intros x. split; [apply Hf|].
  intros i Hi. rewrite <- E by done. by apply Hf.
Qed.

(** A fact about the 32 positions. *)
Ltac positions i := do 32 (destruct i as [|i]; [by vm_compute|]); lia.

Lemma swab_permutes : permutes swapped swab32.
Proof.
  split; [intros i Hi; unfold swapped; pose proof (Nat.mod_upper_bound i 8); lia|]. intros x. split; [apply u32_range|]. intros i. apply swab32_bit.
Qed.

Lemma bitrev_permutes : permutes (reversed 32) __constant_bitrev32.
Proof. split; [unfold reversed; lia|]. intros x. apply constant_bitrev32_reverses. Qed.

(** Reversing each byte. *)
Definition byte_reversed (i : nat) : nat := (8 * (i / 8) + (7 - i mod 8))%nat.

Definition revbytes (x : Z) : Z := __constant_bitrev32 (swab32 x).
Lemma revbytes_permutes : permutes byte_reversed revbytes.
Proof.
  pose proof (permutes_comp _ _ _ _ bitrev_permutes swab_permutes) as H. unfold revbytes.
  refine (permutes_eq _ _ _ _ H). intros i Hi. positions i.
Qed.

Lemma revbytes_shift a : 0 <= a < 2 ^ 24 ->
  revbytes (Z.shiftl a 8) = Z.shiftl (revbytes a) 8 /\ 0 <= revbytes a < 2 ^ 24.
Proof.
  intros Ha. destruct revbytes_permutes as [_ H]. set (f := revbytes) in *. clearbody f.
  assert (Hr : 0 <= f a < 2 ^ 24).
  { replace (f a) with (f a mod 2 ^ 24); [apply Z.mod_pos_bound; lia|].
    apply (bits_below 32); [|apply H|].
    - pose proof (Z.mod_pos_bound (f a) (2 ^ 24)). unfold word32. lia.
    - intros i Hi. destruct (Nat.lt_ge_cases i 24) as [Hl|Hl]; [by rewrite Z.mod_pow2_bits_low by lia|].
      rewrite Z.mod_pow2_bits_high by lia. rewrite (proj2 (H a)) by done. symmetry. apply (testbit_above a 24); [done|].
      unfold byte_reversed. pose proof (Nat.div_mod_eq i 8). pose proof (Nat.mod_upper_bound i 8). lia. }
  split; [|done]. apply (bits_below 32); [apply H|rewrite Z.shiftl_mul_pow2; lia|].
  intros i Hi. rewrite (proj2 (H _)) by done. destruct (Nat.lt_ge_cases i 8) as [Hl|Hl].
  - rewrite !Z.shiftl_spec_low; [done|lia|]. unfold byte_reversed. rewrite Nat.div_small by lia. lia.
  - rewrite !Z.shiftl_spec_high; [|lia..|].
    + replace (Z.of_nat i - 8) with (Z.of_nat (i - 8)) by lia. rewrite (proj2 (H a)) by lia. f_equal.
      unfold byte_reversed. pose proof (Nat.div_mod_eq i 8). pose proof (Nat.mod_upper_bound i 8).
      pose proof (Nat.div_mod_eq (i - 8) 8). pose proof (Nat.mod_upper_bound (i - 8) 8). lia.
    + unfold byte_reversed. pose proof (Nat.div_mod_eq i 8). pose proof (Nat.mod_upper_bound i 8). lia.
Qed.

(** ** The big-endian steps are the little-endian ones, reversed *)

Lemma poly_le_word : word32 CRC32_POLY_LE.
Proof. by vm_compute. Qed.

Lemma crc_bit_be_word c : word32 (crc_bit_be CRC32_POLY_BE c).
Proof.
  apply word32_lxor; [apply u32_range|]. by destruct (negb _); vm_compute.
Qed.

Lemma top_bit v : negb (Z.land v 0x80000000 =? 0) = Z.testbit v 31.
Proof.
  change 0x80000000 with (2 ^ 31). destruct (Z.testbit v 31) eqn:E.
  - destruct (Z.eqb_spec (Z.land v (2 ^ 31)) 0) as [H|H]; [|done].
    apply (f_equal (fun z => Z.testbit z 31)) in H. rewrite Z.land_spec, E in H. done.
  - replace (Z.land v (2 ^ 31)) with 0; [done|]. apply Z.bits_inj'. intros i Hi. rewrite Z.land_spec, Z.bits_0.
    destruct (Z.eq_dec i 31) as [->|Hne]; [by rewrite E|]. rewrite Z.pow2_bits_false by lia. by rewrite andb_false_r.
Qed.

Lemma crc_bit_rev v : word32 v ->
  crc_bit_be CRC32_POLY_BE (__constant_bitrev32 v) = __constant_bitrev32 (crc_bit CRC32_POLY_LE v).
Proof.
  intros Hv. destruct bitrev_permutes as [_ H]. unfold crc_bit_be. rewrite top_bit.
  change 31 with (Z.of_nat 31). rewrite (proj2 (H v)) by lia. change (Z.of_nat (reversed 32 31)) with 0.
  apply (bits_below 32); [|apply H|].
  { apply word32_lxor; [apply u32_range|]. by destruct (Z.testbit v 0); vm_compute. }
  intros i Hi. rewrite (proj2 (H _)) by done. unfold crc_bit. rewrite !Z.lxor_spec. f_equal.
  - unfold u32. rewrite Z.mod_pow2_bits_low, Z.shiftl_spec, Z.shiftr_spec by lia. destruct i as [|i].
    + rewrite Z.testbit_neg_r by lia. symmetry. by apply (testbit_above v 32).
    + replace (Z.of_nat (S i) - 1) with (Z.of_nat i) by lia. rewrite (proj2 (H v)) by lia. unfold reversed. f_equal. lia.
  - destruct (Z.testbit v 0); [|by rewrite !Z.bits_0]. positions i.
Qed.

Lemma crc_bits_rev n v : word32 v ->
  Nat.iter n (crc_bit_be CRC32_POLY_BE) (__constant_bitrev32 v) = __constant_bitrev32 (Nat.iter n (crc_bit CRC32_POLY_LE) v).
Proof.
  intros Hv. induction n as [|n IH]; [done|]. simpl. rewrite IH. apply crc_bit_rev. apply crc_bits_word; [apply poly_le_word|done].
Qed.

Lemma bitrev_inv v : word32 v -> __constant_bitrev32 (__constant_bitrev32 v) = v.
Proof. apply (permutes_inv _ _ _ bitrev_permutes). intros i Hi. unfold reversed. lia. Qed.
Lemma swab_inv v : word32 v -> swab32 (swab32 v) = v.
Proof. apply (permutes_inv _ _ _ swab_permutes). intros i Hi. positions i. Qed.

(** The step of the big-endian CRC on swapped words. *)
Definition be_byte_step (v : Z) : Z := swab32 (Nat.iter 8 (crc_bit_be CRC32_POLY_BE) (swab32 v)).

Lemma be_byte_step_rev v :
  be_byte_step v = swab32 (__constant_bitrev32 (Nat.iter 8 (crc_bit CRC32_POLY_LE) (revbytes v))).
Proof.
  unfold be_byte_step, revbytes. rewrite <- crc_bits_rev by apply bitrev_permutes. rewrite bitrev_inv by apply swab_permutes. done.
Qed.

Lemma be_step : byte_step be_byte_step.
Proof.
  pose proof (le_step CRC32_POLY_LE poly_le_word) as HL. split.
  - intros a b Ha Hb. rewrite !be_byte_step_rev.
    rewrite (permutes_lxor _ _ a b revbytes_permutes). rewrite (step_lxor _ HL) by apply revbytes_permutes.
    by rewrite (permutes_lxor _ _ _ _ bitrev_permutes), (permutes_lxor _ _ _ _ swab_permutes).
  - intros a _. apply swab_permutes.
  - intros a Ha. rewrite be_byte_step_rev. destruct (revbytes_shift a Ha) as [-> Hr].
    rewrite (step_moves _ HL) by done. unfold revbytes. rewrite bitrev_inv by apply swab_permutes. apply swab_inv. unfold word32. lia.
Qed.
