(* ===== verification/Crc32Spec.v ===== *)
(** * What the checksums promise *)
From stdpp Require Import base numbers list option.
From Stdlib Require Import ZArith Lia.
From S2P Require Import Prelude Crc32Table Crc32 Crc32Facts.

(** ** The tables *)

Lemma table_le_ok : table_for (Nat.iter 8 (crc_bit CRC32_POLY_LE)) crc32table_le.
Proof. apply table_ok_spec. vm_compute. reflexivity. Qed.
Lemma tablec_le_ok : table_for (Nat.iter 8 (crc_bit CRC32C_POLY_LE)) crc32ctable_le.
Proof. apply table_ok_spec. vm_compute. reflexivity. Qed.
Lemma table_be_ok : table_for be_byte_step crc32table_be.
Proof. apply table_ok_spec. vm_compute. reflexivity. Qed.

Lemma polyc_word : word32 CRC32C_POLY_LE.
Proof. by vm_compute. Qed.

Lemma Forall_part P m p n : Forall P m -> Forall P (part m p n).
Proof. intros H. unfold part. by apply Forall_take, Forall_drop. Qed.

(** ** The big-endian checksum, by bytes *)

Lemma bitrev8_word x : is_byte x -> is_byte (__constant_bitrev8 x).
Proof. intros Hx. apply (bitrev8_ok x Hx). Qed.

Lemma shifted_byte x : is_byte x -> Z.shiftl x 24 = __constant_bitrev32 (__constant_bitrev8 x).
Proof.
  intros Hx. destruct (bitrev8_ok x Hx) as [_ [Hr Hb]]. destruct (constant_bitrev32_reverses (__constant_bitrev8 x)) as [H1 H2].
  unfold is_byte in Hx. apply (bits_below 32); [rewrite Z.shiftl_mul_pow2; lia|done|].
  intros i Hi. rewrite H2 by done. unfold reversed in *. destruct (Nat.lt_ge_cases i 24) as [Hl|Hl].
  - rewrite Z.shiftl_spec_low by lia. symmetry. apply (testbit_above _ 8); [exact Hr|lia].
  - rewrite Z.shiftl_spec_high, Hb by lia. f_equal. lia.
Qed.

Lemma be_bits_rev l c : word32 c -> Forall is_byte l ->
  crc32_be_bits CRC32_POLY_BE (__constant_bitrev32 c) l =
    __constant_bitrev32 (crc32_le_bits CRC32_POLY_LE c (__constant_bitrev8 <$> l)).
Proof.
  revert c. induction l as [|x l IH]; intros c Hc Hl; [done|]. apply Forall_cons_1 in Hl as [Hx Hl].
  unfold crc32_be_bits, crc32_le_bits in *. rewrite fmap_cons. cbn [foldl].
  rewrite shifted_byte, <- (permutes_lxor _ _ _ _ bitrev_permutes) by done.
  assert (Hw : word32 (Z.lxor c (__constant_bitrev8 x))) by (by apply word32_lxor; [|apply byte_word32, bitrev8_word]).
  rewrite crc_bits_rev by done. apply IH; [|done]. apply crc_bits_word; [apply poly_le_word|done].
Qed.

Lemma be_bits_swab l c : word32 c -> Forall is_byte l ->
  swab32 (crc_bytes be_byte_step (swab32 c) l) = crc32_be_bits CRC32_POLY_BE c l.
Proof.
  revert c. induction l as [|x l IH]; intros c Hc Hl; [by apply swab_inv|]. apply Forall_cons_1 in Hl as [Hx Hl].
  unfold crc_bytes, crc32_be_bits in *. cbn [foldl].
  assert (E : swab32 x = Z.shiftl x 24).
  { unfold is_byte in Hx. apply (bits_below 32); [apply u32_range|rewrite Z.shiftl_mul_pow2; lia|].
    intros i Hi. rewrite swab32_bit by done. unfold swapped. pose proof (Nat.div_mod_eq i 8). pose proof (Nat.mod_upper_bound i 8).
    destruct (Nat.lt_ge_cases i 24) as [Hl'|Hl'].
    - rewrite Z.shiftl_spec_low by lia. apply (testbit_above _ 8); lia.
    - rewrite Z.shiftl_spec_high by lia. f_equal. lia. }
  assert (E' : be_byte_step (Z.lxor (swab32 c) x) =
    swab32 (Nat.iter 8 (crc_bit_be CRC32_POLY_BE) (Z.lxor c (Z.shiftl x 24)))).
  { unfold be_byte_step. by rewrite (permutes_lxor _ _ _ _ swab_permutes), swab_inv, E. }
  rewrite E'. apply IH; [|done]. change 8%nat with (S 7). simpl. apply crc_bit_be_word.
Qed.

(** ** Errors *)

Lemma le_bits_app P c l l' : crc32_le_bits P c (l ++ l') = crc32_le_bits P (crc32_le_bits P c l) l'.
Proof. apply foldl_app. Qed.

Lemma le_bits_bytes P c l : crc32_le_bits P c l = crc_bytes (Nat.iter 8 (crc_bit P)) c l.
Proof. done. Qed.

Section detect.
Context (P : Z) (HP : word32 P) (HP31 : Z.testbit P 31 = true).

Lemma le_bits_word c l : word32 c -> Forall is_byte l -> word32 (crc32_le_bits P c l).
Proof using HP. apply (crc_bytes_word _ (le_step P HP)). Qed.

Lemma le_bits_inj l c c' : word32 c -> word32 c' -> Forall is_byte l ->
  crc32_le_bits P c l = crc32_le_bits P c' l -> c = c'.
Proof using HP HP31.
  revert c c'. induction l as [|x l IH]; intros c c' Hc Hc' Hl; [done|]. apply Forall_cons_1 in Hl as [Hx Hl].
  unfold crc32_le_bits in *. cbn [foldl]. intros E. apply byte_word32 in Hx.
  apply IH in E; [|by apply (crc_bits_word P HP), word32_lxor..|done].
  apply (crc_bits_inj P HP) in E; [|done|by apply word32_lxor..].
  apply (f_equal (fun v => Z.lxor v x)) in E. rewrite !Z.lxor_assoc, Z.lxor_nilpotent, !Z.lxor_0_r in E. done.
Qed.

Lemma bytes_inj n a b : word32 a -> word32 b ->
  Nat.iter n (Nat.iter 8 (crc_bit P)) a = Nat.iter n (Nat.iter 8 (crc_bit P)) b -> a = b.
Proof using HP HP31.
  revert a b. induction n as [|n IH]; intros a b Ha Hb; [done|]. rewrite !(Nat.iter_succ_r n). intros E.
  apply IH in E; [|by apply (crc_bits_word P HP)..]. by apply (crc_bits_inj P HP 8).
Qed.

(** Four bytes of a message as one word. *)
Lemma four_word b0 b1 b2 b3 : is_byte b0 -> is_byte b1 -> is_byte b2 -> is_byte b3 ->
  let w := b0 + (b1 + (b2 + b3 * 2 ^ 8) * 2 ^ 8) * 2 ^ 8 in
  word32 w /\ [byte_at w 0; byte_at w 8; byte_at w 16; byte_at w 24] = [b0; b1; b2; b3].
Proof using.
  clear. intros H0 H1 H2 H3 w. unfold is_byte in *. subst w. split; [unfold word32; lia|].
  unfold byte_at. change 255 with (Z.ones 8). rewrite !Z.land_ones, !Z.shiftr_div_pow2 by lia.
  repeat f_equal; Z.to_euclidean_division_equations; lia.
Qed.

Lemma four_inj c d d' : word32 c -> length d = 4%nat -> length d' = 4%nat -> Forall is_byte d -> Forall is_byte d' ->
  crc32_le_bits P c d = crc32_le_bits P c d' -> d = d'.
Proof using HP HP31.
  intros Hc Hl Hl' Hd Hd' E.
  destruct d as [|b0 [|b1 [|b2 [|b3 [|]]]]]; try done. destruct d' as [|c0 [|c1 [|c2 [|c3 [|]]]]]; try done.
  repeat match goal with H : Forall _ (_ :: _) |- _ => apply Forall_cons_1 in H as [? ?] end.
  destruct (four_word b0 b1 b2 b3) as [Hw Ew]; [done..|]. destruct (four_word c0 c1 c2 c3) as [Hv Ev]; [done..|].
  set (w := b0 + _) in *. set (v := c0 + _) in *. rewrite <- Ew, <- Ev in E |- *.
  rewrite !le_bits_bytes in E.
  rewrite <- !(four_bytes _ (le_step P HP)) in E by done.
  assert (E2 : Z.lxor c w = Z.lxor c v).
  { apply (bytes_inj 4); [by apply word32_lxor..|exact E]. }
  apply (f_equal (Z.lxor c)) in E2. rewrite <- !Z.lxor_assoc, Z.lxor_nilpotent, !Z.lxor_0_l in E2. by rewrite E2.
Qed.
End detect.

(** The checksum of a message from a seed is that of zeros from the seed plus
    that of the message from 0. *)
Lemma combine_sum P c c' l : word32 P -> word32 c -> word32 c' -> Forall is_byte l ->
  crc32_le_bits P (Z.lxor c c') l = Z.lxor (crc32_le_bits P c (replicate (length l) 0)) (crc32_le_bits P c' l).
Proof.
  intros HP. revert c c'. induction l as [|x l IH]; intros c c' Hc Hc' Hl; [done|]. apply Forall_cons_1 in Hl as [Hx Hl].
  unfold crc32_le_bits in *. cbn [foldl length replicate]. rewrite Z.lxor_0_r, Z.lxor_assoc, crc_bits_lxor.
  apply IH; [by apply crc_bits_word|apply crc_bits_word; [done|by apply word32_lxor, byte_word32]|done].
Qed.

Lemma shift_zeros P c n : crc32_le_bits P c (replicate n 0) = Nat.iter (8 * n) (crc_bit P) c.
Proof.
  revert c. induction n as [|n IH]; intros c; [done|]. unfold crc32_le_bits in *. cbn [replicate foldl].
  rewrite IH, Z.lxor_0_r, <- Nat.iter_add. f_equal. lia.
Qed.

Lemma polys_msb : Z.testbit CRC32_POLY_LE 31 = true /\ Z.testbit CRC32C_POLY_LE 31 = true.
Proof. by vm_compute. Qed.

(** ** The theorems *)

(** C32: [crc32_le], [__crc32c_le] and [crc32_be], which read the message eight
    bytes at a time through tables, compute the checksums defined one bit at a
    time, whatever the alignment and the length; the big-endian checksum is the
    little-endian one of the message with reversed bytes, reversed; and the
    table of reversed bytes agrees with the constant-folded reversals. *)
Theorem crc32_spec (m : list Z) (base crc p n : Z) :
  Forall is_byte m -> Z.of_nat (length m) < 2 ^ 64 -> word32 crc -> 0 <= p -> 0 <= n -> p + n <= Z.of_nat (length m) ->
  crc32_le base crc m p n = Ret (crc32_le_bits CRC32_POLY_LE crc (part m p n)) /\
  __crc32c_le base crc m p n = Ret (crc32_le_bits CRC32C_POLY_LE crc (part m p n)) /\
  crc32_be base crc m p n = Ret (crc32_be_bits CRC32_POLY_BE crc (part m p n)) /\
  (exists revs, __bitrev8 <$> part m p n = Ret <$> revs /\
    crc32_be_bits CRC32_POLY_BE (__constant_bitrev32 crc) (part m p n) =
      __constant_bitrev32 (crc32_le_bits CRC32_POLY_LE crc revs)) /\
  __bitrev32 crc = Ret (__constant_bitrev32 crc) /\ __constant_bitrev32 (__constant_bitrev32 crc) = crc.
Proof.
  intros Hm Hsz Hc Hp Hn Hle. pose proof (Forall_part _ _ p n Hm) as Hpart. split_and!.
  - unfold crc32_le, crc32_le_generic. rewrite u32_small by done.
    rewrite (crc32_body_ok _ (le_step _ poly_le_word) _ table_le_ok m Hm Hsz) by done. rewrite bind_ret, u32_small; [done|].
    by apply (le_bits_word _ poly_le_word).
  - unfold __crc32c_le, crc32_le_generic. rewrite u32_small by done.
    rewrite (crc32_body_ok _ (le_step _ polyc_word) _ tablec_le_ok m Hm Hsz) by done. rewrite bind_ret, u32_small; [done|].
    by apply (le_bits_word _ polyc_word).
  - unfold crc32_be, crc32_be_generic. rewrite u32_small by apply swab_permutes.
    rewrite (crc32_body_ok _ be_step _ table_be_ok m Hm Hsz) by (done || apply swab_permutes). rewrite bind_ret.
    f_equal. by apply be_bits_swab.
  - exists (__constant_bitrev8 <$> part m p n). split; [|by apply be_bits_rev].
    rewrite <- list_fmap_compose. apply list_fmap_ext. intros i x Hx. apply bitrev8_ok.
    by apply (Forall_lookup_1 _ _ _ _ Hpart Hx).
  - by apply bitrev32_ok.
  - by apply bitrev_inv.
Qed.

Lemma crc32_spec_witness :
  let m := [0; 0x31; 0x32; 0x33; 0x34; 0x35; 0x36; 0x37; 0x38; 0x39] in
  crc32_le 2 0xffffffff m 1 9 = Ret (Z.lxor 0xcbf43926 0xffffffff) /\
  crc32_le 2 0xffffffff m 1 9 = Ret (crc32_le_bits CRC32_POLY_LE 0xffffffff (part m 1 9)).
Proof.
  intros m. split; [vm_compute; reflexivity|].
  apply (crc32_spec m 2 0xffffffff 1 9); [|vm_compute; reflexivity|unfold word32; lia|lia|lia|vm_compute; discriminate].
  unfold m, is_byte. repeat (apply List.Forall_cons; [lia|]). apply List.Forall_nil.
Defined.

(** C33: [crc32_le_shift] appends zero bytes in logarithmically many
    multiplications, [crc32_le_combine] computes the checksum of two messages
    one after the other from the checksums of both, likewise for CRC32C, and
    messages of the same length that differ only within four consecutive bytes
    have different checksums. *)
Theorem crc32_combine_spec (seed : Z) (l1 l2 : list Z) :
  word32 seed -> Forall is_byte l1 -> Forall is_byte l2 -> Z.of_nat (length l2) < 2 ^ 64 ->
  let crc P s l := crc32_le_bits P s l in
  let len2 := Z.of_nat (length l2) in
  crc32_le_shift seed len2 = Ret (crc CRC32_POLY_LE seed (replicate (length l2) 0)) /\
  __crc32c_le_shift seed len2 = Ret (crc CRC32C_POLY_LE seed (replicate (length l2) 0)) /\
  crc32_le_combine (crc CRC32_POLY_LE seed l1) (crc CRC32_POLY_LE 0 l2) len2 = Ret (crc CRC32_POLY_LE seed (l1 ++ l2)) /\
  __crc32c_le_combine (crc CRC32C_POLY_LE seed l1) (crc CRC32C_POLY_LE 0 l2) len2 = Ret (crc CRC32C_POLY_LE seed (l1 ++ l2)) /\
  (forall P d d', P = CRC32_POLY_LE \/ P = CRC32C_POLY_LE -> length d = 4%nat -> length d' = 4%nat ->
    Forall is_byte d -> Forall is_byte d' -> d <> d' -> crc P seed (l1 ++ d ++ l2) <> crc P seed (l1 ++ d' ++ l2)).
Proof.
  intros Hs H1 H2 Hlen crc len2. unfold crc, len2.
  assert (Hword : forall P c l, word32 P -> word32 c -> Forall is_byte l -> word32 (crc32_le_bits P c l)) by (intros; by apply le_bits_word).
  assert (H0 : word32 0) by (unfold word32; lia). pose proof poly_le_word as HP. pose proof polyc_word as HPc.
  split_and!.
  - unfold crc32_le_shift. rewrite generic_shift_ok by (done || lia || (vm_compute; reflexivity)). by rewrite shift_zeros, Nat2Z.id.
  - unfold __crc32c_le_shift. rewrite generic_shift_ok by (done || lia || (vm_compute; reflexivity)). by rewrite shift_zeros, Nat2Z.id.
  - unfold crc32_le_combine, crc32_le_shift. rewrite generic_shift_ok by (auto || lia || (vm_compute; reflexivity)).
    rewrite bind_ret, Nat2Z.id, le_bits_app. f_equal. symmetry. rewrite <- (Z.lxor_0_r (crc32_le_bits _ seed l1)) at 1.
    rewrite combine_sum, shift_zeros by auto. done.
  - unfold __crc32c_le_combine, __crc32c_le_shift. rewrite generic_shift_ok by (auto || lia || (vm_compute; reflexivity)).
    rewrite bind_ret, Nat2Z.id, le_bits_app. f_equal. symmetry. rewrite <- (Z.lxor_0_r (crc32_le_bits _ seed l1)) at 1.
    rewrite combine_sum, shift_zeros by auto. done.
  - intros P d d' HPP Hd Hd' Bd Bd' Hne E. apply Hne. rewrite !le_bits_app in E.
    assert (HP' : word32 P /\ Z.testbit P 31 = true) by (destruct polys_msb, HPP; by subst). destruct HP' as [HP' Hmsb].
    apply (le_bits_inj P HP' Hmsb) in E; [|auto..]. by apply (four_inj P HP' Hmsb (crc32_le_bits P seed l1)); auto.
Qed.

Lemma crc32_combine_spec_witness :
  crc32_le_combine (crc32_le_bits CRC32_POLY_LE 7 [1; 2; 3]) (crc32_le_bits CRC32_POLY_LE 0 [4; 5; 6; 7; 8]) 5 =
    Ret (crc32_le_bits CRC32_POLY_LE 7 [1; 2; 3; 4; 5; 6; 7; 8]).
Proof.
  apply (crc32_combine_spec 7 [1; 2; 3] [4; 5; 6; 7; 8]); [unfold word32; lia| | |reflexivity];
    repeat (apply List.Forall_cons; [unfold is_byte; lia|]); apply List.Forall_nil.
Defined.
