(* ===== verification/Rbtree.v ===== *)
(** * Red-black trees (lib/base/src/rbtree.c and its headers)

    The store maps the address of every [struct rb_node] to its fields; 0 is
    NULL, and an access through NULL or an address that is no node faults.  The
    parent word of a node holds the parent's address and, in bit 0, its color.
    [root_node] and [rb_leftmost] are the fields of the root; the argument
    [cached] says whether the caller passes the address of [rb_leftmost] or NULL.
    The callbacks of an augmented tree are parameters: they read the store and
    compute new values of the data their owner keeps beside the nodes ([data]). *)

From stdpp Require Import base numbers list option gmap.
From Stdlib Require Import ZArith Lia.
From S2P Require Import Prelude.

Record rb_node : Type := mk_node { rb_parent_color : Z; rb_right : Z; rb_left : Z }.
Record rb_store (D : Type) : Type :=
  mk_store { nodes : gmap Z rb_node; root_node : Z; rb_leftmost : Z; data : D }.
Arguments mk_store {D}.
Arguments nodes {D}.
Arguments root_node {D}.
Arguments rb_leftmost {D}.
Arguments data {D}.

Definition RB_RED : Z := 0.
Definition RB_BLACK : Z := 1.
(** [pc & ~3] and [pc & 1] *)
Definition parent_bits (pc : Z) : Z := Z.land pc (ULLONG_MAX - 3).
Definition color_bit (pc : Z) : Z := Z.land pc 1.
Definition is_black_bits (pc : Z) : bool := negb (color_bit pc =? 0).

(** The cell [rb_link] points to. *)
Inductive link : Type := LRoot | LLeft (p : Z) | LRight (p : Z).

Section Rbtree.
Context {D : Type}.
Abbreviation store := (rb_store D).

Record rb_augment_callbacks : Type := mk_callbacks {
  propagate : Z -> Z -> store -> outcome D;
  copy : Z -> Z -> store -> outcome D;
  rotate : Z -> Z -> store -> outcome D
}.

(** ** Fields *)

Definition set_nodes (s : store) (m : gmap Z rb_node) : store := mk_store m (root_node s) (rb_leftmost s) (data s).
Definition set_root (s : store) (p : Z) : store := mk_store (nodes s) p (rb_leftmost s) (data s).
Definition set_leftmost (s : store) (p : Z) : store := mk_store (nodes s) (root_node s) p (data s).
Definition set_data (s : store) (d : D) : store := mk_store (nodes s) (root_node s) (rb_leftmost s) d.

Definition get_node (s : store) (p : Z) : outcome rb_node :=
  if p =? 0 then Fault else match nodes s !! p with Some n => Ret n | None => Fault end.
Definition upd_node (s : store) (p : Z) (f : rb_node -> rb_node) : outcome store :=
  n ← get_node s p; Ret (set_nodes s (<[p := f n]> (nodes s))).
Definition get_pc (s : store) (p : Z) : outcome Z := n ← get_node s p; Ret (rb_parent_color n).
Definition get_left (s : store) (p : Z) : outcome Z := n ← get_node s p; Ret (rb_left n).
Definition get_right (s : store) (p : Z) : outcome Z := n ← get_node s p; Ret (rb_right n).
Definition set_pc (s : store) (p v : Z) : outcome store := upd_node s p (fun n => mk_node v (rb_right n) (rb_left n)).
Definition set_left (s : store) (p v : Z) : outcome store := upd_node s p (fun n => mk_node (rb_parent_color n) (rb_right n) v).
Definition set_right (s : store) (p v : Z) : outcome store := upd_node s p (fun n => mk_node (rb_parent_color n) v (rb_left n)).

Definition rb_parent (s : store) (p : Z) : outcome Z := pc ← get_pc s p; Ret (parent_bits pc).
Definition rb_red_parent (s : store) (p : Z) : outcome Z := get_pc s p.
Definition rb_is_black (s : store) (p : Z) : outcome bool := pc ← get_pc s p; Ret (is_black_bits pc).
Definition rb_is_red (s : store) (p : Z) : outcome bool := b ← rb_is_black s p; Ret (negb b).
Definition rb_set_parent (s : store) (rb p : Z) : outcome store := pc ← get_pc s rb; set_pc s rb (Z.lor (color_bit pc) p).
Definition rb_set_parent_color (s : store) (rb p color : Z) : outcome store := set_pc s rb (Z.lor p color).
Definition rb_set_black (s : store) (rb : Z) : outcome store := pc ← get_pc s rb; set_pc s rb (Z.lor pc RB_BLACK).
(** [if (rb) rb_set_parent_color(rb, p, RB_BLACK)] and [if (rb) rb_set_parent(rb, p)] *)
Definition opt_set_black (s : store) (rb p : Z) : outcome store :=
  if negb (rb =? 0) then rb_set_parent_color s rb p RB_BLACK else Ret s.
Definition opt_set_parent (s : store) (rb p : Z) : outcome store :=
  if negb (rb =? 0) then rb_set_parent s rb p else Ret s.
(** [rb && rb_is_red(rb)] and [!rb || rb_is_black(rb)] *)
Definition and_red (s : store) (rb : Z) : outcome bool := if negb (rb =? 0) then rb_is_red s rb else Ret false.
Definition or_black (s : store) (rb : Z) : outcome bool := if rb =? 0 then Ret true else rb_is_black s rb.

Definition change_child (s : store) (old new parent : Z) : outcome store :=
  if negb (parent =? 0) then
    l ← get_left s parent;
    if l =? old then set_left s parent new else set_right s parent new
  else Ret (set_root s new).
Definition rotate_set_parents (s : store) (old new color : Z) : outcome store :=
  parent ← rb_parent s old;
  pc ← get_pc s old;
  s ← set_pc s new pc;
  s ← rb_set_parent_color s old new color;
  change_child s old new parent.

Definition rb_link_node (s : store) (node parent : Z) (rb_link : link) : outcome store :=
  s ← upd_node s node (fun _ => mk_node parent 0 0);
  match rb_link with
  | LRoot => Ret (set_root s node)
  | LLeft p => set_left s p node
  | LRight p => set_right s p node
  end.

(** The callbacks write their data only. *)
Definition call (f : Z -> Z -> store -> outcome D) (s : store) (a b : Z) : outcome store :=
  d ← f a b s; Ret (set_data s d).

Definition rb_fuel (s : store) : nat := S (S (size (nodes s))).

(** ** Insertion *)

Section insert.
Context (augment_rotate : Z -> Z -> store -> outcome D).

(** Cases 2 and 3 for a parent that is a left child, and their mirror image. *)
Definition insert_fix_left (s : store) (node parent gparent : Z) : outcome store :=
  tmp ← get_right s parent;
  '(s, parent, tmp) ←
    (if node =? tmp then
       tmp ← get_left s node;
       s ← set_right s parent tmp;
       s ← set_left s node parent;
       s ← opt_set_black s tmp parent;
       s ← rb_set_parent_color s parent node RB_RED;
       s ← call augment_rotate s parent node;
       tmp ← get_right s node;
       Ret (s, node, tmp)
     else Ret (s, parent, tmp));
  s ← set_left s gparent tmp;
  s ← set_right s parent gparent;
  s ← opt_set_black s tmp gparent;
  s ← rotate_set_parents s gparent parent RB_RED;
  call augment_rotate s gparent parent.

Definition insert_fix_right (s : store) (node parent gparent : Z) : outcome store :=
  tmp ← get_left s parent;
  '(s, parent, tmp) ←
    (if node =? tmp then
       tmp ← get_right s node;
       s ← set_left s parent tmp;
       s ← set_right s node parent;
       s ← opt_set_black s tmp parent;
       s ← rb_set_parent_color s parent node RB_RED;
       s ← call augment_rotate s parent node;
       tmp ← get_left s node;
       Ret (s, node, tmp)
     else Ret (s, parent, tmp));
  s ← set_right s gparent tmp;
  s ← set_left s parent gparent;
  s ← opt_set_black s tmp gparent;
  s ← rotate_set_parents s gparent parent RB_RED;
  call augment_rotate s gparent parent.

(** Case 1, the color flip. *)
Definition insert_flip (s : store) (parent gparent tmp : Z) : outcome (store * Z * Z) :=
  s ← rb_set_parent_color s tmp gparent RB_BLACK;
  s ← rb_set_parent_color s parent gparent RB_BLACK;
  up ← rb_parent s gparent;
  s ← rb_set_parent_color s gparent up RB_RED;
  Ret (s, gparent, up).

Definition rb_insert_turn (st : store * Z * Z) : outcome (store * Z * Z + store) :=
  let '(s, node, parent) := st in
  if parent =? 0 then s ← rb_set_parent_color s node 0 RB_BLACK; Ret (inr s) else
  b ← rb_is_black s parent;
  if (b : bool) then Ret (inr s) else
  gparent ← rb_red_parent s parent;
  tmp ← get_right s gparent;
  if negb (parent =? tmp) then
    red ← and_red s tmp;
    if (red : bool) then st ← insert_flip s parent gparent tmp; Ret (inl st)
    else s ← insert_fix_left s node parent gparent; Ret (inr s)
  else
    tmp ← get_left s gparent;
    red ← and_red s tmp;
    if (red : bool) then st ← insert_flip s parent gparent tmp; Ret (inl st)
    else s ← insert_fix_right s node parent gparent; Ret (inr s).

Definition rb_insert (s : store) (node : Z) (newleft cached : bool) : outcome store :=
  parent ← rb_red_parent s node;
  s ← (if newleft then (if cached then Ret (set_leftmost s node) else Fault) else Ret s);
  loop (rb_fuel s) rb_insert_turn (s, node, parent).

End insert.

(** ** Traversal *)

Definition down_turn (get : store -> Z -> outcome Z) (s : store) (n : Z) : outcome (Z + Z) :=
  c ← get s n; if negb (c =? 0) then Ret (inl c) else Ret (inr n).
Definition go_left (s : store) (n : Z) : outcome Z := loop (rb_fuel s) (down_turn get_left s) n.
Definition go_right (s : store) (n : Z) : outcome Z := loop (rb_fuel s) (down_turn get_right s) n.
Definition rb_first (s : store) : outcome Z := if root_node s =? 0 then Ret 0 else go_left s (root_node s).
Definition rb_last (s : store) : outcome Z := if root_node s =? 0 then Ret 0 else go_right s (root_node s).

(** [while ((parent = rb_parent(node)) && node == parent->side) node = parent;] *)
Definition up_turn (get : store -> Z -> outcome Z) (s : store) (node : Z) : outcome (Z + Z) :=
  parent ← rb_parent s node;
  if parent =? 0 then Ret (inr parent) else
  c ← get s parent;
  if node =? c then Ret (inl parent) else Ret (inr parent).
Definition RB_EMPTY_NODE (s : store) (node : Z) : outcome bool := pc ← get_pc s node; Ret (pc =? node).
Definition RB_CLEAR_NODE (s : store) (node : Z) : outcome store := set_pc s node node.
Definition rb_next (s : store) (node : Z) : outcome Z :=
  e ← RB_EMPTY_NODE s node;
  if (e : bool) then Ret 0 else
  c ← get_right s node;
  if negb (c =? 0) then go_left s c else loop (rb_fuel s) (up_turn get_right s) node.
Definition rb_prev (s : store) (node : Z) : outcome Z :=
  e ← RB_EMPTY_NODE s node;
  if (e : bool) then Ret 0 else
  c ← get_left s node;
  if negb (c =? 0) then go_right s c else loop (rb_fuel s) (up_turn get_left s) node.

Definition deepest_turn (s : store) (node : Z) : outcome (Z + Z) :=
  l ← get_left s node;
  if negb (l =? 0) then Ret (inl l) else
  r ← get_right s node;
  if negb (r =? 0) then Ret (inl r) else Ret (inr node).
Definition rb_left_deepest_node (s : store) (node : Z) : outcome Z := loop (rb_fuel s) (deepest_turn s) node.
Definition rb_next_postorder (s : store) (node : Z) : outcome Z :=
  if node =? 0 then Ret 0 else
  parent ← rb_parent s node;
  if parent =? 0 then Ret parent else
  l ← get_left s parent;
  if negb (node =? l) then Ret parent else
  r ← get_right s parent;
  if negb (r =? 0) then rb_left_deepest_node s r else Ret parent.
Definition rb_first_postorder (s : store) : outcome Z :=
  if root_node s =? 0 then Ret 0 else rb_left_deepest_node s (root_node s).

(** ** Replacement *)

Definition rb_replace_node (s : store) (victim new : Z) : outcome store :=
  parent ← rb_parent s victim;
  n ← get_node s victim;
  s ← upd_node s new (fun _ => n);
  l ← get_left s victim;
  s ← opt_set_parent s l new;
  r ← get_right s victim;
  s ← opt_set_parent s r new;
  change_child s victim new parent.
Definition rb_replace_node_cached (s : store) (victim new : Z) : outcome store :=
  s ← rb_replace_node s victim new;
  Ret (if rb_leftmost s =? victim then set_leftmost s new else s).

(** ** Removal *)

(** The walk to the leftmost node under the right child. *)
Definition successor_turn (s : store) (st : Z * Z * Z) : outcome (Z * Z * Z + Z * Z) :=
  let '(parent, successor, tmp) := st in
  let parent := successor in
  let successor := tmp in
  tmp ← get_left s tmp;
  if negb (tmp =? 0) then Ret (inl (parent, successor, tmp)) else Ret (inr (parent, successor)).

Section erase.
Context (augment : rb_augment_callbacks).

(** The node has two children: find its successor and unlink it, case 2 where
    it is the right child, case 3 otherwise; the result is [parent],
    [successor] and [child2]. *)
Definition erase_successor (s : store) (node child : Z) : outcome (store * Z * Z * Z) :=
  tmp ← get_left s child;
  if tmp =? 0 then
    child2 ← get_right s child;
    s ← call (copy augment) s node child;
    Ret (s, child, child, child2)
  else
    '(parent, successor) ← loop (rb_fuel s) (successor_turn s) (0, child, tmp);
    child2 ← get_right s successor;
    s ← set_left s parent child2;
    s ← set_right s successor child;
    s ← rb_set_parent s child successor;
    s ← call (copy augment) s node successor;
    s ← call (propagate augment) s parent successor;
    Ret (s, parent, successor, child2).
(** The successor takes the node's place; the result is the node whose data is
    stale, and [rebalance]. *)
Definition erase_replace (s : store) (node parent successor child2 : Z) : outcome (store * Z * Z) :=
  tmp ← get_left s node;
  s ← set_left s successor tmp;
  s ← rb_set_parent s tmp successor;
  pc ← get_pc s node;
  s ← change_child s node successor (parent_bits pc);
  if negb (child2 =? 0) then
    s ← set_pc s successor pc;
    s ← rb_set_parent_color s child2 parent RB_BLACK;
    Ret (s, successor, 0)
  else
    pc2 ← get_pc s successor;
    s ← set_pc s successor pc;
    Ret (s, successor, if is_black_bits pc2 then parent else 0).
(** Case 1: at most one child. *)
Definition erase_one (s : store) (node child tmp : Z) : outcome (store * Z * Z) :=
  if tmp =? 0 then
    pc ← get_pc s node;
    s ← change_child s node child (parent_bits pc);
    if negb (child =? 0) then s ← set_pc s child pc; Ret (s, parent_bits pc, 0)
    else Ret (s, parent_bits pc, if is_black_bits pc then parent_bits pc else 0)
  else
    pc ← get_pc s node;
    s ← set_pc s tmp pc;
    s ← change_child s node tmp (parent_bits pc);
    Ret (s, parent_bits pc, 0).

Definition erase_augmented (s : store) (node : Z) (cached : bool) : outcome (store * Z) :=
  child ← get_right s node;
  tmp ← get_left s node;
  s ← (if cached && (node =? rb_leftmost s)
       then n ← rb_next s node; Ret (set_leftmost s n) else Ret s);
  '(s, tmp, rebalance) ←
    (if (tmp =? 0) || (child =? 0) then erase_one s node child tmp
     else
       '(s, parent, successor, child2) ← erase_successor s node child;
       erase_replace s node parent successor child2);
  s ← call (propagate augment) s tmp 0;
  Ret (s, rebalance).

End erase.

(** ** Rebalancing after a removal *)

Section erase_color.
Context (augment_rotate : Z -> Z -> store -> outcome D).

(** Case 1: a red sibling; the result is the new sibling. *)
Definition color_red_left (s : store) (parent sibling : Z) : outcome (store * Z) :=
  red ← rb_is_red s sibling;
  if (red : bool) then
    tmp1 ← get_left s sibling;
    s ← set_right s parent tmp1;
    s ← set_left s sibling parent;
    s ← rb_set_parent_color s tmp1 parent RB_BLACK;
    s ← rotate_set_parents s parent sibling RB_RED;
    s ← call augment_rotate s parent sibling;
    Ret (s, tmp1)
  else Ret (s, sibling).
Definition color_red_right (s : store) (parent sibling : Z) : outcome (store * Z) :=
  red ← rb_is_red s sibling;
  if (red : bool) then
    tmp1 ← get_right s sibling;
    s ← set_left s parent tmp1;
    s ← set_right s sibling parent;
    s ← rb_set_parent_color s tmp1 parent RB_BLACK;
    s ← rotate_set_parents s parent sibling RB_RED;
    s ← call augment_rotate s parent sibling;
    Ret (s, tmp1)
  else Ret (s, sibling).

(** Case 2: both children of the sibling are black. *)
Definition color_flip (s : store) (parent sibling : Z) : outcome (store * Z * Z + store) :=
  s ← rb_set_parent_color s sibling parent RB_RED;
  red ← rb_is_red s parent;
  if (red : bool) then s ← rb_set_black s parent; Ret (inr s)
  else
    up ← rb_parent s parent;
    Ret (if negb (up =? 0) then inl (s, parent, up) else inr s).

(** Case 3: the inner child of the sibling is red, the outer one black. *)
Definition color_inner_left (s : store) (parent sibling tmp2 : Z) : outcome store :=
  tmp1 ← get_right s tmp2;
  s ← set_left s sibling tmp1;
  s ← set_right s tmp2 sibling;
  s ← set_right s parent tmp2;
  s ← opt_set_black s tmp1 sibling;
  call augment_rotate s sibling tmp2.
Definition color_inner_right (s : store) (parent sibling tmp2 : Z) : outcome store :=
  tmp1 ← get_left s tmp2;
  s ← set_right s sibling tmp1;
  s ← set_left s tmp2 sibling;
  s ← set_left s parent tmp2;
  s ← opt_set_black s tmp1 sibling;
  call augment_rotate s sibling tmp2.

(** Case 4: the outer child [tmp1] of the sibling is red. *)
Definition color_outer_left (s : store) (parent sibling tmp1 : Z) : outcome store :=
  tmp2 ← get_left s sibling;
  s ← set_right s parent tmp2;
  s ← set_left s sibling parent;
  s ← rb_set_parent_color s tmp1 sibling RB_BLACK;
  s ← opt_set_parent s tmp2 parent;
  s ← rotate_set_parents s parent sibling RB_BLACK;
  call augment_rotate s parent sibling.
Definition color_outer_right (s : store) (parent sibling tmp1 : Z) : outcome store :=
  tmp2 ← get_right s sibling;
  s ← set_left s parent tmp2;
  s ← set_right s sibling parent;
  s ← rb_set_parent_color s tmp1 sibling RB_BLACK;
  s ← opt_set_parent s tmp2 parent;
  s ← rotate_set_parents s parent sibling RB_BLACK;
  call augment_rotate s parent sibling.

Definition color_left (s : store) (parent sibling : Z) : outcome (store * Z * Z + store) :=
  '(s, sibling) ← color_red_left s parent sibling;
  tmp1 ← get_right s sibling;
  b1 ← or_black s tmp1;
  if (b1 : bool) then
    tmp2 ← get_left s sibling;
    b2 ← or_black s tmp2;
    if (b2 : bool) then color_flip s parent sibling
    else
      s ← color_inner_left s parent sibling tmp2;
      s ← color_outer_left s parent tmp2 sibling; Ret (inr s)
  else s ← color_outer_left s parent sibling tmp1; Ret (inr s).
Definition color_right (s : store) (parent sibling : Z) : outcome (store * Z * Z + store) :=
  '(s, sibling) ← color_red_right s parent sibling;
  tmp1 ← get_left s sibling;
  b1 ← or_black s tmp1;
  if (b1 : bool) then
    tmp2 ← get_right s sibling;
    b2 ← or_black s tmp2;
    if (b2 : bool) then color_flip s parent sibling
    else
      s ← color_inner_right s parent sibling tmp2;
      s ← color_outer_right s parent tmp2 sibling; Ret (inr s)
  else s ← color_outer_right s parent sibling tmp1; Ret (inr s).

Definition erase_color_turn (st : store * Z * Z) : outcome (store * Z * Z + store) :=
  let '(s, node, parent) := st in
  sibling ← get_right s parent;
  if negb (node =? sibling) then color_left s parent sibling
  else sibling ← get_left s parent; color_right s parent sibling.

Definition rb_erase_color (s : store) (parent : Z) : outcome store :=
  loop (rb_fuel s) erase_color_turn (s, 0, parent).

End erase_color.

(** ** Entry points *)

Definition dummy (a b : Z) (s : store) : outcome D := Ret (data s).
Definition dummy_callbacks : rb_augment_callbacks := mk_callbacks dummy dummy dummy.

Definition rb_insert_color (s : store) (node : Z) : outcome store := rb_insert dummy s node false false.
Definition rb_insert_color_cached (s : store) (node : Z) (leftmost : bool) : outcome store := rb_insert dummy s node leftmost true.
Definition rb_insert_augmented (augment : rb_augment_callbacks) (s : store) (node : Z) : outcome store :=
  rb_insert (rotate augment) s node false false.
Definition rb_insert_augmented_cached (augment : rb_augment_callbacks) (s : store) (node : Z) (newleft : bool) : outcome store :=
  rb_insert (rotate augment) s node newleft true.

Definition erase_with (augment : rb_augment_callbacks) (s : store) (node : Z) (cached : bool) : outcome store :=
  '(s, rebalance) ← erase_augmented augment s node cached;
  if negb (rebalance =? 0) then rb_erase_color (rotate augment) s rebalance else Ret s.
Definition rb_erase (s : store) (node : Z) : outcome store := erase_with dummy_callbacks s node false.
Definition rb_erase_cached (s : store) (node : Z) : outcome store := erase_with dummy_callbacks s node true.
Definition rb_erase_augmented (augment : rb_augment_callbacks) (s : store) (node : Z) : outcome store := erase_with augment s node false.
Definition rb_erase_augmented_cached (augment : rb_augment_callbacks) (s : store) (node : Z) : outcome store := erase_with augment s node true.

End Rbtree.
Arguments rb_augment_callbacks : clear implicits.

(** ** [RB_DECLARE_CALLBACKS]

    The data is a value per node; [rbcompute] reads the node's own fields and
    the values of its children, which it reaches through the links. *)
Section declare_callbacks.
Context {A : Type} `{EqDecision A} (rbcompute : rb_store (gmap Z A) -> Z -> outcome A).

Definition get_aug (s : rb_store (gmap Z A)) (p : Z) : outcome A :=
  if p =? 0 then Fault else match data s !! p with Some a => Ret a | None => Fault end.
Definition set_aug (s : rb_store (gmap Z A)) (p : Z) (a : A) : outcome (rb_store (gmap Z A)) :=
  _ ← get_aug s p; Ret (set_data s (<[p := a]> (data s))).

Definition rb_propagate_turn (stop : Z) (st : rb_store (gmap Z A) * Z) : outcome (rb_store (gmap Z A) * Z + rb_store (gmap Z A)) :=
  let '(s, rb) := st in
  if rb =? stop then Ret (inr s) else
  augmented ← rbcompute s rb;
  v ← get_aug s rb;
  if decide (v = augmented) then Ret (inr s) else
  s ← set_aug s rb augmented;
  rb ← rb_parent s rb;
  Ret (inl (s, rb)).
Definition rbname_propagate (rb stop : Z) (s : rb_store (gmap Z A)) : outcome (gmap Z A) :=
  s ← loop (rb_fuel s) (rb_propagate_turn stop) (s, rb); Ret (data s).
Definition rbname_copy (rb_old rb_new : Z) (s : rb_store (gmap Z A)) : outcome (gmap Z A) :=
  a ← get_aug s rb_old; s ← set_aug s rb_new a; Ret (data s).
Definition rbname_rotate (rb_old rb_new : Z) (s : rb_store (gmap Z A)) : outcome (gmap Z A) :=
  a ← get_aug s rb_old;
  s ← set_aug s rb_new a;
  c ← rbcompute s rb_old;
  s ← set_aug s rb_old c;
  Ret (data s).
Definition rbname : rb_augment_callbacks (gmap Z A) := mk_callbacks rbname_propagate rbname_copy rbname_rotate.

End declare_callbacks.
