(* ===== verification/RbtreeFacts.v ===== *)
(** * The trees a store of red-black nodes represents

    An inductive tree with the addresses of the nodes, its in-order list, the
    context of a subtree as a list of frames, the predicate [rep] that ties a
    tree to the fields in memory, and the coloring rules.  [AugmentLaws] is what
    the rebalancing code needs of the callbacks of an augmented tree: a
    relation [val] between a node and the in-order list of its subtree. *)

From stdpp Require Import base numbers list option gmap.
From Stdlib Require Import ZArith Lia.
From S2P Require Import Prelude Rbtree.

Inductive color : Type := Red | Black.
Inductive side : Type := L | R.
Inductive tree : Type := Leaf | Node (c : color) (l : tree) (p : Z) (r : tree).

Definition flip (d : side) : side := match d with L => R | R => L end.
Definition addr (t : tree) : Z := match t with Leaf => 0 | Node _ _ p _ => p end.
Definition root_color (t : tree) : color := match t with Leaf => Black | Node c _ _ _ => c end.
Fixpoint inorder (t : tree) : list Z :=
  match t with Leaf => [] | Node _ l p r => inorder l ++ p :: inorder r end.
Definition join (d : side) (c : color) (t : tree) (p : Z) (sib : tree) : tree :=
  match d with L => Node c t p sib | R => Node c sib p t end.
(** The in-order list around a hole with list [K]. *)
Definition wrap (d : side) (p : Z) (sib : tree) (K : list Z) : list Z :=
  match d with L => K ++ p :: inorder sib | R => inorder sib ++ p :: K end.

Inductive frame : Type := Fr (d : side) (c : color) (p : Z) (sib : tree).
Fixpoint plug (C : list frame) (t : tree) : tree :=
  match C with [] => t | Fr d c p sib :: C => plug C (join d c t p sib) end.
Fixpoint cwrap (C : list frame) (K : list Z) : list Z :=
  match C with [] => K | Fr d _ p sib :: C => cwrap C (wrap d p sib K) end.
Fixpoint caddrs (C : list frame) : list Z :=
  match C with [] => [] | Fr _ _ p sib :: C => p :: inorder sib ++ caddrs C end.
Definition par (C : list frame) : Z := match C with [] => 0 | Fr _ _ p _ :: _ => p end.

(** ** Coloring

    [rbt h t]: no red node has a red child, and every path to a leaf has
    [h] black nodes.  [cok h C]: the context accepts a black subtree with [h]. *)
Inductive rbt : nat -> tree -> Prop :=
  | rbt_leaf : rbt 0 Leaf
  | rbt_red h l p r : rbt h l -> rbt h r -> root_color l = Black -> root_color r = Black -> rbt h (Node Red l p r)
  | rbt_black h l p r : rbt h l -> rbt h r -> rbt (S h) (Node Black l p r).
Definition red_black (t : tree) : Prop := root_color t = Black /\ exists h, rbt h t.

Definition top_black (C : list frame) : Prop := match C with Fr _ Black _ _ :: _ => True | _ => False end.
Fixpoint cok (h : nat) (C : list frame) : Prop :=
  match C with
  | [] => True
  | Fr _ Black _ sib :: C => rbt h sib /\ cok (S h) C
  | Fr _ Red _ sib :: C => rbt h sib /\ root_color sib = Black /\ top_black C /\ cok h C
  end.

(** ** Memory *)

Definition cbit (c : color) : Z := match c with Red => RB_RED | Black => RB_BLACK end.
Definition bits (p : Z) (c : color) : Z := Z.lor p (cbit c).
(** Nodes are aligned (to 8 bytes in the source), so two low bits are free. *)
Definition ptr (p : Z) : Prop := 0 < p < 2 ^ 64 /\ p mod 4 = 0.
(** A node whose child on side [d] is [x] and whose other child is [y]. *)
Definition mkd (d : side) (pc x y : Z) : rb_node :=
  match d with L => mk_node pc y x | R => mk_node pc x y end.

Fixpoint rep (m : gmap Z rb_node) (q : Z) (t : tree) : Prop :=
  match t with
  | Leaf => True
  | Node c l p r => m !! p = Some (mk_node (bits q c) (addr r) (addr l)) /\ rep m p l /\ rep m p r
  end.
Fixpoint crep (m : gmap Z rb_node) (root : Z) (C : list frame) (a : Z) : Prop :=
  match C with
  | [] => root = a
  | Fr d c p sib :: C => m !! p = Some (mkd d (bits (par C) c) a (addr sib)) /\ rep m p sib /\ crep m root C p
  end.

(** ** In-order lists *)

Lemma inorder_join d c t p sib : inorder (join d c t p sib) = wrap d p sib (inorder t).
Proof. by destruct d. Qed.
Lemma inorder_plug C t : inorder (plug C t) = cwrap C (inorder t).
Proof. revert t. induction C as [|[d c p sib] C IH]; intros t; simpl; [done|]. by rewrite IH, inorder_join. Qed.
Lemma addr_join d c t p sib : addr (join d c t p sib) = p.
Proof. by destruct d. Qed.
Lemma wrap_perm d p sib K : wrap d p sib K ≡ₚ p :: inorder sib ++ K.
Proof. destruct d; simpl; [|by rewrite Permutation_middle]. rewrite <- Permutation_middle. by rewrite (comm app). Qed.
Lemma cwrap_perm C K : cwrap C K ≡ₚ K ++ caddrs C.
Proof.
  revert K. induction C as [|[d c p sib] C IH]; intros K; simpl; [by rewrite app_nil_r|].
  rewrite IH, wrap_perm. simpl. rewrite <- Permutation_middle. f_equiv.
  rewrite !(assoc app). f_equiv. by rewrite (comm app).
Qed.
Lemma plug_perm C t : inorder (plug C t) ≡ₚ inorder t ++ caddrs C.
Proof. by rewrite inorder_plug, cwrap_perm. Qed.
Lemma cwrap_app C C' K : cwrap (C ++ C') K = cwrap C' (cwrap C K).
Proof. revert K. induction C as [|[d c p sib] C IH]; intros K; simpl; auto. Qed.
Lemma plug_app C C' t : plug (C ++ C') t = plug C' (plug C t).
Proof. revert t. induction C as [|[d c p sib] C IH]; intros t; simpl; auto. Qed.
Lemma caddrs_app C C' : caddrs (C ++ C') = caddrs C ++ caddrs C'.
Proof. induction C as [|[d c p sib] C IH]; simpl; [done|]. by rewrite IH, (assoc app). Qed.
Lemma addr_nil t : addr t = 0 -> Forall ptr (inorder t) -> t = Leaf.
Proof. destruct t as [|c l p r]; [done|]. simpl. intros -> H. apply Forall_app in H as [_ H]. apply Forall_cons_1 in H as [[? _] _]. lia. Qed.
Lemma addr_in t : t <> Leaf -> addr t ∈ inorder t.
Proof. destruct t as [|c l p r]; [done|]. intros _. simpl. apply elem_of_app. right. left. Qed.

Ltac flat := cbn [inorder caddrs join wrap flip app]; repeat progress (rewrite <- ?app_assoc; cbn [app]).

(** ** The parent word *)

Definition is_black (c : color) : bool := match c with Black => true | Red => false end.

Lemma bits_parent p c : p = 0 \/ ptr p -> parent_bits (bits p c) = p /\ color_bit (bits p c) = cbit c /\ is_black_bits (bits p c) = is_black c.
Proof.
  intros Hp. assert (Hr : 0 <= p < 2 ^ 64 /\ p mod 2 ^ 2 = 0).
  { change (2 ^ 2) with 4. destruct Hp as [->|[? ?]]; [split; [lia|reflexivity]|split; lia]. }
  clear Hp. destruct Hr as [Hr Hm].
  assert (E : bits p c = cbit c + p / 2 ^ 2 * 2 ^ 2).
  { unfold bits. replace p with (Z.shiftl (p / 2 ^ 2) 2) at 1.
    2:{ rewrite Z.shiftl_mul_pow2 by lia. pose proof (Z.div_mod p (2 ^ 2)). lia. }
    rewrite Z.lor_comm, lor_shiftl_add; [done|lia|]. destruct c; simpl; unfold RB_RED, RB_BLACK; lia. }
  assert (E4 : p = p / 2 ^ 2 * 2 ^ 2) by (pose proof (Z.div_mod p (2 ^ 2)); lia).
  assert (Hc : 0 <= cbit c < 2) by (destruct c; simpl; unfold RB_RED, RB_BLACK; lia).
  change (2 ^ 2) with 4 in *.
  assert (Hb : color_bit (bits p c) = cbit c).
  { unfold color_bit. change 1 with (Z.ones 1). rewrite Z.land_ones by lia. rewrite E.
    replace (cbit c + p / 4 * 4) with (cbit c + p / 4 * 2 * 2 ^ 1) by lia.
    rewrite Z.mod_add by lia. apply Z.mod_small. lia. }
  split; [|split; [exact Hb|]].
  - unfold parent_bits. change (ULLONG_MAX - 3) with (ULLONG_MAX - (2 ^ 2 - 1)).
    rewrite land_high_mask by (rewrite ?E; lia). rewrite E. change (2 ^ 2) with 4.
    rewrite Z.div_add by lia. rewrite (Z.div_small (cbit c)) by lia. lia.
  - unfold is_black_bits. rewrite Hb. by destruct c.
Qed.
Lemma bits_set p q c : p = 0 \/ ptr p -> Z.lor (color_bit (bits p c)) q = bits q c.
Proof. intros Hp. destruct (bits_parent p c Hp) as (_ & -> & _). unfold bits. apply Z.lor_comm. Qed.
Lemma bits_black p c : Z.lor (bits p c) RB_BLACK = bits p Black.
Proof. unfold bits. rewrite <- Z.lor_assoc. f_equal. by destruct c. Qed.
Lemma bits_red p : bits p Red = p.
Proof. apply Z.lor_0_r. Qed.
Lemma ptr_nz p : ptr p -> p <> 0.
Proof. intros [? _]. lia. Qed.

Lemma null_notin l : Forall ptr l -> 0 ∉ l.
Proof. rewrite Forall_forall. intros H H0. by apply (ptr_nz 0 (H 0 H0)). Qed.

(** ** Distinct addresses, by counting *)

Definition one (x y : Z) : nat := if decide (x = y) then 1 else 0.
Fixpoint cnt (x : Z) (l : list Z) : nat := match l with [] => 0 | y :: l => one x y + cnt x l end.
Lemma cnt_app x l k : cnt x (l ++ k) = (cnt x l + cnt x k)%nat.
Proof. induction l as [|y l IH]; simpl; [done|]. rewrite IH. lia. Qed.
Lemma one_same x : one x x = 1%nat.
Proof. unfold one. by rewrite decide_True. Qed.
Lemma cnt_elem x l : x ∈ l -> (1 <= cnt x l)%nat.
Proof. induction 1 as [l|y l H IH]; simpl; [rewrite one_same; lia|lia]. Qed.
Lemma cnt_nodup x l : NoDup l -> (cnt x l <= 1)%nat.
Proof.
  induction 1 as [|y l Hy Hl IH]; simpl; [lia|]. unfold one. destruct (decide (x = y)) as [->|]; [|lia].
  assert (cnt y l = 0%nat); [|lia]. clear -Hy. induction l as [|z l IH]; simpl; [done|].
  rewrite not_elem_of_cons in Hy. unfold one. rewrite decide_False by tauto. rewrite IH; tauto.
Qed.

Lemma nodup_cnt l : (forall x, cnt x l <= 1)%nat -> NoDup l.
Proof.
  induction l as [|y l IH]; intros H; [constructor|]. apply NoDup_cons. split.
  - intros Hy%cnt_elem. specialize (H y). simpl in H. rewrite one_same in H. lia.
  - apply IH. intros x. specialize (H x). simpl in H. lia.
Qed.
(** [distinct] proves [a <> b] and [a ∉ l] from a [NoDup] hypothesis. *)
Ltac count_in H x :=
  let Hc := fresh "Hc" in
  pose proof (cnt_nodup x _ H) as Hc;
  repeat progress (rewrite ?cnt_app in Hc; cbn [cnt inorder caddrs app wrap join] in Hc);
  rewrite ?one_same in Hc.
Ltac distinct :=
  match goal with
  | H : NoDup _ |- ?a <> ?b =>
      let E := fresh "E" in intros E; count_in H a;
      assert (one a b = 1%nat) by (rewrite E; apply one_same); lia
  | H : NoDup _ |- ?a ∉ ?l =>
      let E := fresh "E" in intros E; apply cnt_elem in E;
      repeat progress (rewrite ?cnt_app in E; cbn [cnt inorder caddrs app wrap join] in E);
      count_in H a; lia
  end.
(** [NoDup] of a part of a list known to be [NoDup]. *)
Ltac nodup_part :=
  match goal with
  | H : NoDup _ |- NoDup ?l =>
      let x := fresh "x" in apply nodup_cnt; intros x; count_in H x;
      repeat progress (rewrite ?cnt_app; cbn [cnt inorder caddrs app wrap join]); lia
  end.
Ltac forall_part :=
  cbn [inorder caddrs app wrap join] in *;
  repeat match goal with
  | H : Forall _ (_ :: _) |- _ => let H1 := fresh "Hp" in let H2 := fresh "Hp" in destruct (Forall_cons_1 _ _ _ H) as [H1 H2]; clear H
  | H : Forall _ (_ ++ _) |- _ => let H1 := fresh "Hp" in let H2 := fresh "Hp" in destruct (proj1 (Forall_app _ _ _) H) as [H1 H2]; clear H
  end;
  cbn [inorder caddrs app]; repeat first [apply Forall_cons_2 | apply Forall_app_2 | apply Forall_nil_2]; assumption.

(** ** Framing *)

Lemma crep_cons m r d c p sib C a :
  crep m r (Fr d c p sib :: C) a <-> m !! p = Some (mkd d (bits (par C) c) a (addr sib)) /\ rep m p sib /\ crep m r C p.
Proof. done. Qed.

Lemma rep_ext m m' q t : (forall p, p ∈ inorder t -> m' !! p = m !! p) -> rep m q t -> rep m' q t.
Proof.
  revert q. induction t as [|c l IHl p r IHr]; intros q H Hr; simpl in *; [done|].
  setoid_rewrite elem_of_app in H. setoid_rewrite elem_of_cons in H. destruct Hr as (Hp & Hl & Hr).
  rewrite H by auto. split; [done|]. split; [apply IHl|apply IHr]; auto.
Qed.
Lemma rep_insert m q t p n : p ∉ inorder t -> rep m q t -> rep (<[p := n]> m) q t.
Proof. intros Hp. apply rep_ext. intros x Hx. apply lookup_insert_ne. congruence. Qed.
Lemma crep_ext m m' r C a : (forall p, p ∈ caddrs C -> m' !! p = m !! p) -> crep m r C a -> crep m' r C a.
Proof.
  revert a. induction C as [|[d c p sib] C IH]; intros a H Hr; simpl in *; [done|].
  setoid_rewrite elem_of_cons in H. setoid_rewrite elem_of_app in H. destruct Hr as (Hp & Hs & Hr).
  rewrite H by auto. split; [done|]. split; [|eauto]. eapply rep_ext; [|exact Hs]. auto.
Qed.
Lemma crep_insert m r C a p n : p ∉ caddrs C -> crep m r C a -> crep (<[p := n]> m) r C a.
Proof. intros Hp. apply crep_ext. intros x Hx. apply lookup_insert_ne. congruence. Qed.
Lemma rep_join m q d c t p sib :
  rep m q (join d c t p sib) <-> m !! p = Some (mkd d (bits q c) (addr t) (addr sib)) /\ rep m p t /\ rep m p sib.
Proof. destruct d; simpl; tauto. Qed.
Lemma rep_plug m r C t : rep m 0 (plug C t) /\ r = addr (plug C t) <-> crep m r C (addr t) /\ rep m (par C) t.
Proof.
  revert t. induction C as [|[d c p sib] C IH]; intros t; simpl; [tauto|].
  rewrite IH, rep_join, addr_join. tauto.
Qed.
Lemma rep_elem m q t p : rep m q t -> p ∈ inorder t -> is_Some (m !! p).
Proof.
  revert q. induction t as [|c l IHl x r IHr]; intros q Hr Hp; simpl in *; [by apply elem_of_nil in Hp|].
  destruct Hr as (Hx & Hl & Hr). apply elem_of_app in Hp as [Hp|Hp]; [eauto|].
  apply elem_of_cons in Hp as [->|Hp]; eauto.
Qed.
Lemma par_ok C : Forall ptr (caddrs C) -> par C = 0 \/ ptr (par C).
Proof. destruct C as [|[d c p sib] C]; simpl; [auto|]. intros H. apply Forall_cons_1 in H. tauto. Qed.

(** ** A store holding a tree, and one focused on a subtree *)

(** [s'] differs from [s] on [X] only. *)
Definition stable {D} (X : list Z) (s s' : rb_store D) : Prop :=
  rb_leftmost s' = rb_leftmost s /\ forall p, p ∉ X -> nodes s' !! p = nodes s !! p.
Definition holds {D} (s : rb_store D) (T : tree) : Prop :=
  (rep (nodes s) 0 T /\ root_node s = addr T) /\ NoDup (inorder T) /\ Forall ptr (inorder T).
Definition focus {D} (s : rb_store D) (C : list frame) (t : tree) : Prop :=
  (crep (nodes s) (root_node s) C (addr t) /\ rep (nodes s) (par C) t) /\
  NoDup (inorder t ++ caddrs C) /\ Forall ptr (inorder t ++ caddrs C).

Lemma focus_holds {D} (s : rb_store D) C t : focus s C t <-> holds s (plug C t).
Proof. unfold focus, holds. by rewrite rep_plug, (plug_perm C t). Qed.
Lemma stable_refl {D} X (s : rb_store D) : stable X s s.
Proof. done. Qed.
Lemma stable_trans {D} X (s1 s2 s3 : rb_store D) : stable X s1 s2 -> stable X s2 s3 -> stable X s1 s3.
Proof. intros [E1 H1] [E2 H2]. split; [congruence|]. intros p Hp. by rewrite H2, H1. Qed.
Lemma stable_mono {D} X Y (s s' : rb_store D) : X ⊆ Y -> stable X s s' -> stable Y s s'.
Proof. intros Hs [E H]. split; [done|]. intros p Hp. apply H. set_solver. Qed.
Lemma holds_size {D} (s : rb_store D) T : holds s T -> (length (inorder T) <= size (nodes s))%nat.
Proof.
  intros [[Hr _] [Hn _]]. assert (H : list_to_set (inorder T) ⊆ dom (nodes s)).
  { intros p Hp. apply elem_of_list_to_set in Hp. apply elem_of_dom. by eapply rep_elem. }
  apply subseteq_size in H. rewrite size_list_to_set, size_dom in H by done. lia.
Qed.
Lemma holds_fuel {D} (s : rb_store D) T : holds s T -> (length (inorder T) < rb_fuel s)%nat.
Proof. intros H%holds_size. unfold rb_fuel. lia. Qed.

(** ** Callbacks *)

Section laws.
Context {D : Type} (val : D -> Z -> list Z -> Prop).

(** The data of every node of [t] is right for its subtree. *)
Fixpoint dok (d : D) (t : tree) : Prop :=
  match t with
  | Leaf => True
  | Node _ l p r => dok d l /\ val d p (inorder l ++ p :: inorder r) /\ dok d r
  end.
(** The data around a hole is right for a subtree with list [K]. *)
Fixpoint cdok (d : D) (C : list frame) (K : list Z) : Prop :=
  match C with
  | [] => True
  | Fr s _ p sib :: C => dok d sib /\ val d p (wrap s p sib K) /\ cdok d C (wrap s p sib K)
  end.
Definition same_except (X : list Z) (d d' : D) : Prop := forall p K, p ∉ X -> val d p K -> val d' p K.

Lemma dok_join d s c t p sib : dok d (join s c t p sib) <-> dok d t /\ val d p (wrap s p sib (inorder t)) /\ dok d sib.
Proof. destruct s; simpl; tauto. Qed.
Lemma dok_plug d C t : dok d (plug C t) <-> cdok d C (inorder t) /\ dok d t.
Proof.
  revert t. induction C as [|[s c p sib] C IH]; intros t; simpl; [tauto|].
  rewrite IH, dok_join, inorder_join. tauto.
Qed.
Lemma dok_same X d d' t : same_except X d d' -> (forall p, p ∈ X -> p ∉ inorder t) -> dok d t -> dok d' t.
Proof.
  intros Hs. induction t as [|c l IHl p r IHr]; simpl; [done|]. intros HX (Hl & Hp & Hr).
  setoid_rewrite elem_of_app in HX. setoid_rewrite elem_of_cons in HX. split; [apply IHl; auto; naive_solver|].
  split; [apply Hs; naive_solver|apply IHr; auto; naive_solver].
Qed.
Lemma cdok_same X d d' C K : same_except X d d' -> (forall p, p ∈ X -> p ∉ caddrs C) -> cdok d C K -> cdok d' C K.
Proof.
  intros Hs. revert K. induction C as [|[s c p sib] C IH]; intros K; simpl; [done|]. intros HX (Hl & Hp & Hr).
  setoid_rewrite elem_of_cons in HX. setoid_rewrite elem_of_app in HX. split; [eapply dok_same; eauto; naive_solver|].
  split; [apply Hs; naive_solver|apply IH; auto; naive_solver].
Qed.
Lemma same_refl X d : same_except X d d.
Proof. intros p K _ H. exact H. Qed.

(** The path of parent words from a hole up to [stop]. *)
Fixpoint path (m : gmap Z rb_node) (C : list frame) (a stop : Z) : Prop :=
  match C with
  | [] => True
  | Fr s c p sib :: C' =>
      (exists pc, m !! p = Some (mkd s pc a (addr sib)) /\ parent_bits pc = match C' with [] => stop | Fr _ _ q _ :: _ => q end) /\
      rep m p sib /\ path m C' p stop
  end.

(** What the rebalancing code relies on.  [rotate old new]: [new] takes over
    the subtree of [old], which keeps the children it now has.  [copy old new]:
    [new] takes the place of [old].  [propagate x stop]: the data is stale from
    [x] up to, and without, [stop]. *)
Class AugmentLaws (cb : rb_augment_callbacks D) : Prop := {
  rotate_ok s old new n ta tb K K1 :
    nodes s !! old = Some n -> rb_left n = addr ta -> rb_right n = addr tb ->
    ptr old -> ptr new -> NoDup (old :: new :: inorder ta ++ inorder tb) -> Forall ptr (inorder ta ++ inorder tb) ->
    dok (data s) ta -> dok (data s) tb -> val (data s) old K -> val (data s) new K1 ->
    returns (rotate cb old new s) (fun d => val d new K /\ val d old (inorder ta ++ old :: inorder tb) /\
      same_except [old; new] (data s) d);
  copy_ok s old new K K1 :
    ptr old -> ptr new -> val (data s) old K -> val (data s) new K1 ->
    returns (copy cb old new s) (fun d => val d new K /\ same_except [new] (data s) d);
  propagate_ok s x n ta tb C stop K :
    nodes s !! x = Some n -> rb_left n = addr ta -> rb_right n = addr tb ->
    parent_bits (rb_parent_color n) = match C with [] => stop | Fr _ _ q _ :: _ => q end ->
    path (nodes s) C x stop -> (length C < size (nodes s))%nat ->
    NoDup (stop :: x :: inorder ta ++ inorder tb ++ caddrs C) -> Forall ptr (x :: inorder ta ++ inorder tb ++ caddrs C) ->
    dok (data s) ta -> dok (data s) tb -> val (data s) x K -> cdok (data s) C K ->
    returns (propagate cb x stop s) (fun d => dok d ta /\ dok d tb /\ val d x (inorder ta ++ x :: inorder tb) /\
      cdok d C (inorder ta ++ x :: inorder tb) /\ same_except (x :: caddrs C) (data s) d);
  propagate_stop s stop : returns (propagate cb stop stop s) (fun d => same_except [] (data s) d)
}.

End laws.

#[export] Instance dummy_laws {D} : AugmentLaws (D := D) (fun _ _ _ => True) dummy_callbacks.
Proof.
  assert (Hd : forall d t, dok (D := D) (fun _ _ _ => True) d t) by (intros d t; induction t; simpl; auto).
  assert (Hc : forall d P K, cdok (D := D) (fun _ _ _ => True) d P K).
  { intros d P. induction P as [|[? ? ? ?] P IH]; simpl; auto. }
  split; simpl; intros; split_and?; auto; done.
Qed.

(** ** Running the code on a store *)

Lemma get_node_ok {D} (s : rb_store D) p n : p <> 0 -> nodes s !! p = Some n -> get_node s p = Ret n.
Proof. intros Hp H. unfold get_node. rewrite (proj2 (Z.eqb_neq p 0)) by done. by rewrite H. Qed.
Lemma upd_node_ok {D} (s : rb_store D) p n f : p <> 0 -> nodes s !! p = Some n -> upd_node s p f = Ret (set_nodes s (<[p := f n]> (nodes s))).
Proof. intros Hp H. unfold upd_node. by rewrite (get_node_ok s p n). Qed.

Lemma callback_ok {D} (f : Z -> Z -> rb_store D -> outcome D) s a b P (Q : rb_store D -> Prop) :
  returns (f a b s) P -> (forall d, P d -> Q (set_data s d)) -> returns (call f s a b) Q.
Proof. intros H HQ. unfold call. eapply returns_bind; [exact H|]. intros d Hd. apply HQ, Hd. Qed.

Lemma callback_bind {D B} (f : Z -> Z -> rb_store D -> outcome D) s a b P (k : rb_store D -> outcome B) Q :
  returns (f a b s) P -> (forall d, P d -> returns (k (set_data s d)) Q) -> returns (call f s a b ≫= k) Q.
Proof.
  intros H HQ. apply returns_bind with (P := fun s' => returns (k s') Q); [|auto]. by eapply callback_ok.
Qed.

Ltac nz := solve [ apply ptr_nz; assumption | assumption | discriminate ].
Ltac mem_lookup :=
  cbn [nodes set_nodes set_root set_leftmost set_data];
  first [ eassumption
        | rewrite lookup_insert_eq; reflexivity
        | rewrite lookup_insert_ne by distinct; mem_lookup ].
Ltac rb_unfold :=
  unfold opt_set_black, opt_set_parent, and_red, or_black, rb_is_red, rb_is_black, rb_red_parent, rb_parent, rb_set_parent, rb_set_parent_color,
    rb_set_black, set_pc, set_left, set_right, get_pc, get_left, get_right.
(** One access to the store. *)
Ltac rb_access :=
  first [ erewrite get_node_ok by first [nz | mem_lookup]
        | erewrite upd_node_ok by first [nz | mem_lookup] ];
  rewrite ?bind_ret;
  cbn [nodes root_node rb_leftmost data set_nodes set_root set_leftmost set_data rb_parent_color rb_left rb_right mkd].
Ltac rb_run := rb_unfold; rewrite ?bind_assoc; repeat (rb_access; rewrite ?bind_assoc).
(** [rep] and [crep] of a store with other nodes changed. *)
Ltac rep_frame :=
  repeat match goal with
  | |- rep (<[_ := _]> _) _ _ => apply rep_insert; [distinct|]
  | |- crep (<[_ := _]> _) _ _ _ => apply crep_insert; [distinct|]
  end; try assumption.

Lemma change_child_ok {D} (s : rb_store D) C old new :
  crep (nodes s) (root_node s) C old -> NoDup (old :: caddrs C) -> ptr old -> Forall ptr (caddrs C) ->
  exists m r, change_child s old new (par C) = Ret (mk_store m r (rb_leftmost s) (data s)) /\
    crep m r C new /\ forall q, q ∉ caddrs C -> m !! q = nodes s !! q.
Proof.
  destruct s as [m r lm d]. simpl. intros Hc Hn Ho Hp. destruct C as [|[e c p sib] C].
  - exists m, new. simpl. done.
  - simpl in Hc, Hp. destruct Hc as (Hm & Hs & Hc). apply Forall_cons_1 in Hp as [Hp Hq].
    unfold change_child. simpl par. rewrite (proj2 (Z.eqb_neq p 0)) by nz. simpl negb. cbv iota.
    exists (<[p := mkd e (bits (par C) c) new (addr sib)]> m), r. rb_run.
    assert (E : (rb_left (mkd e (bits (par C) c) old (addr sib)) =? old) = match e with L => true | R => false end).
    { destruct e; simpl; [by apply Z.eqb_refl|]. apply Z.eqb_neq. destruct sib as [|cs sl sp sr]; simpl.
      - intros E. by apply (ptr_nz old). - distinct. }
    rewrite E. split; [destruct e; rb_run; reflexivity|]. split.
    + simpl. rewrite lookup_insert_eq. split; [done|]. split; rep_frame.
    + intros q Hx. simpl in Hx. rewrite not_elem_of_cons in Hx. apply lookup_insert_ne. naive_solver.
Qed.

Lemma rotate_set_parents_ok {D} (s : rb_store D) C old new c col ro lo nn :
  nodes s !! old = Some (mk_node (bits (par C) c) ro lo) -> nodes s !! new = Some nn ->
  crep (nodes s) (root_node s) C old -> NoDup (old :: new :: caddrs C) -> ptr old -> ptr new -> Forall ptr (caddrs C) ->
  exists m r, rotate_set_parents s old new (cbit col) = Ret (mk_store m r (rb_leftmost s) (data s)) /\
    crep m r C new /\ m !! old = Some (mk_node (bits new col) ro lo) /\
    m !! new = Some (mk_node (bits (par C) c) (rb_right nn) (rb_left nn)) /\
    forall q, q ∉ old :: new :: caddrs C -> m !! q = nodes s !! q.
Proof.
  destruct s as [m r lm d]. simpl. intros Ho Hw Hc Hn Hpo Hpw Hp. unfold rotate_set_parents. rb_run.
  destruct (bits_parent (par C) c (par_ok C Hp)) as (-> & _ & _).
  match goal with |- context [change_child ?s' _ _ _] => destruct (change_child_ok s' C old new) as (m' & r' & E & Hc' & Hm') end.
  - simpl. rep_frame.
  - apply NoDup_cons in Hn as [Hn1 Hn2]. apply NoDup_cons in Hn2 as [_ Hn2]. rewrite not_elem_of_cons in Hn1.
    apply NoDup_cons. tauto.
  - done.
  - done.
  - exists m', r'. split; [exact E|]. split; [done|].
    split; [rewrite Hm' by distinct; mem_lookup|]. split; [rewrite Hm' by distinct; mem_lookup|].
    intros q Hq. rewrite !not_elem_of_cons in Hq. destruct Hq as (? & ? & ?). rewrite Hm' by done.
    cbn [nodes set_nodes]. by rewrite !lookup_insert_ne by congruence.
Qed.

(** New parent and color for the top of a subtree. *)
Definition blacken (t : tree) : tree := match t with Leaf => Leaf | Node _ l p r => Node Black l p r end.
Lemma blacken_id t : root_color t = Black -> blacken t = t.
Proof. destruct t as [|[] l p r]; simpl; congruence. Qed.
Lemma inorder_blacken t : inorder (blacken t) = inorder t.
Proof. by destruct t. Qed.

Lemma set_black_ok {D} (s : rb_store D) q t g :
  rep (nodes s) q t -> Forall ptr (inorder t) -> NoDup (inorder t) ->
  exists m, opt_set_black s (addr t) g = Ret (set_nodes s m) /\ rep m g (blacken t) /\
    forall p, p ∉ inorder t -> m !! p = nodes s !! p.
Proof.
  destruct s as [m r lm d]. destruct t as [|c l p x]; simpl; intros Hr Hp Hn.
  - exists m. done.
  - destruct Hr as (Hm & Hl & Hx). assert (ptr p) by forall_part. unfold opt_set_black.
    rewrite (proj2 (Z.eqb_neq p 0)) by nz. simpl negb. cbv iota. exists (<[p := mk_node (bits g Black) (addr x) (addr l)]> m).
    rb_run. split; [reflexivity|]. split.
    + split; [mem_lookup|]. split; rep_frame.
    + intros y Hy. rewrite elem_of_app, elem_of_cons in Hy. apply lookup_insert_ne. naive_solver.
Qed.
Lemma set_black_node {D} (s : rb_store D) t g : t <> Leaf -> Forall ptr (inorder t) -> opt_set_black s (addr t) g = set_pc s (addr t) (bits g Black).
Proof.
  intros Ht Hp. unfold opt_set_black. destruct t as [|c l p r]; [done|]. simpl addr.
  rewrite (proj2 (Z.eqb_neq p 0)); [done|]. apply ptr_nz. forall_part.
Qed.
Lemma addr_blacken t : addr (blacken t) = addr t.
Proof. by destruct t. Qed.
Lemma set_parent_node {D} (s : rb_store D) t g : t <> Leaf -> Forall ptr (inorder t) -> opt_set_parent s (addr t) g = rb_set_parent s (addr t) g.
Proof.
  intros Ht Hp. unfold opt_set_parent. destruct t as [|c l p r]; [done|]. simpl addr.
  rewrite (proj2 (Z.eqb_neq p 0)); [done|]. apply ptr_nz. forall_part.
Qed.
Lemma set_parent_ok {D} (s : rb_store D) q t g :
  q = 0 \/ ptr q -> rep (nodes s) q t -> Forall ptr (inorder t) -> NoDup (inorder t) ->
  exists m, opt_set_parent s (addr t) g = Ret (set_nodes s m) /\ rep m g t /\
    forall p, p ∉ inorder t -> m !! p = nodes s !! p.
Proof.
  intros Hq. destruct s as [m r lm d]. destruct t as [|c l p x]; simpl; intros Hr Hp Hn.
  - exists m. done.
  - destruct Hr as (Hm & Hl & Hx). assert (ptr p) by forall_part. unfold opt_set_parent.
    rewrite (proj2 (Z.eqb_neq p 0)) by nz. simpl negb. cbv iota. exists (<[p := mk_node (bits g c) (addr x) (addr l)]> m).
    rb_run. rewrite bits_set by done. split; [reflexivity|]. split.
    + split; [mem_lookup|]. split; rep_frame.
    + intros y Hy. rewrite elem_of_app, elem_of_cons in Hy. apply lookup_insert_ne. naive_solver.
Qed.

(** ** Both mirror images at once *)

Definition get_side {D} (d : side) : rb_store D -> Z -> outcome Z := match d with L => get_left | R => get_right end.
Definition set_side {D} (d : side) : rb_store D -> Z -> Z -> outcome (rb_store D) := match d with L => set_left | R => set_right end.
Lemma flip_flip d : flip (flip d) = d.
Proof. by destruct d. Qed.
Lemma mkd_flip d pc x y : mkd (flip d) pc x y = mkd d pc y x.
Proof. by destruct d. Qed.
Lemma get_side_ok {D} d (s : rb_store D) p pc x y : ptr p -> nodes s !! p = Some (mkd d pc x y) -> get_side d s p = Ret x.
Proof. intros Hp H. destruct d; simpl; rb_run; done. Qed.
Lemma set_side_ok {D} d (s : rb_store D) p pc x y v :
  ptr p -> nodes s !! p = Some (mkd d pc x y) -> set_side d s p v = Ret (set_nodes s (<[p := mkd d pc v y]> (nodes s))).
Proof. intros Hp H. destruct d; simpl; rb_run; done. Qed.
Lemma get_flip_ok {D} d (s : rb_store D) p pc x y : ptr p -> nodes s !! p = Some (mkd d pc x y) -> get_side (flip d) s p = Ret y.
Proof. intros Hp H. eapply get_side_ok; [done|]. by rewrite mkd_flip. Qed.
Lemma set_flip_ok {D} d (s : rb_store D) p pc x y v :
  ptr p -> nodes s !! p = Some (mkd d pc x y) -> set_side (flip d) s p v = Ret (set_nodes s (<[p := mkd d pc x v]> (nodes s))).
Proof. intros Hp H. erewrite set_side_ok; [|done|by rewrite mkd_flip]. by rewrite mkd_flip. Qed.
Lemma set_pc_ok {D} d (s : rb_store D) p pc x y v :
  ptr p -> nodes s !! p = Some (mkd d pc x y) -> set_pc s p v = Ret (set_nodes s (<[p := mkd d v x y]> (nodes s))).
Proof. intros Hp H. destruct d; rb_run; done. Qed.
Lemma get_pc_ok {D} d (s : rb_store D) p pc x y : ptr p -> nodes s !! p = Some (mkd d pc x y) -> get_pc s p = Ret pc.
Proof. intros Hp H. destruct d; rb_run; done. Qed.

(** Carrying [rep] to a store that changed elsewhere, as [H] says. *)
Ltac carry H :=
  first [ eapply rep_ext; [intros ? ?%cnt_elem; apply H; distinct|]
        | eapply crep_ext; [intros ? ?%cnt_elem; apply H; distinct|] ];
  cbn [nodes root_node set_nodes]; rep_frame.

(** ** Colors *)

Lemma node_neq (p : Z) (t : tree) : ptr p -> p ∉ inorder t -> p <> addr t.
Proof. intros Hp Hn E. destruct t as [|c l x r]; simpl in *; [by apply (ptr_nz p)|]. apply Hn, elem_of_app. right. subst. left. Qed.
Lemma rbt_join_red d h t p u : rbt h t -> rbt h u -> root_color t = Black -> root_color u = Black -> rbt h (join d Red t p u).
Proof. destruct d; simpl; constructor; auto. Qed.
Lemma rbt_join_black d h t p u : rbt h t -> rbt h u -> rbt (S h) (join d Black t p u).
Proof. destruct d; simpl; constructor; auto. Qed.
Lemma color_join d c t p u : root_color (join d c t p u) = c.
Proof. by destruct d. Qed.
Lemma join_node d c x n y : exists a b, join d c x n y = Node c a n b.
Proof. destruct d; simpl; eauto. Qed.

Lemma cok_plug h C t : cok h C -> rbt h t -> root_color t = Black \/ top_black C -> red_black (plug C t).
Proof.
  revert h t. induction C as [|[d c p sib] C IH]; intros h t HC Ht Hb; simpl in *.
  - destruct Hb as [Hb|[]]. split; eauto.
  - destruct c.
    + destruct HC as (Hs & Bs & HT & HC). destruct Hb as [Hb|[]]. apply (IH h); [done| |auto].
      destruct d; simpl; constructor; auto.
    + destruct HC as (Hs & HC). apply (IH (S h)); [done| |left; by destruct d].
      destruct d; simpl; constructor; auto.
Qed.
(** A red-black tree around one of its subtrees. *)
Lemma cok_unplug C t : red_black (plug C t) ->
  exists h, cok h C /\ rbt h t /\ (root_color t = Black \/ top_black C).
Proof.
  revert t. induction C as [|[d c p sib] C IH]; intros t; simpl.
  - intros (Hb & h & Ht). eauto.
  - intros (h & HC & Ht & Hb)%IH. destruct c.
    + assert (E : rbt h t /\ rbt h sib /\ root_color t = Black /\ root_color sib = Black).
      { destruct d; simpl in Ht; inversion Ht; subst; auto. }
      destruct E as (E1 & E2 & E3 & E4). exists h. destruct Hb as [Hb|Hb]; [by destruct d|]. auto.
    + assert (E : exists h', h = S h' /\ rbt h' t /\ rbt h' sib).
      { destruct d; simpl in Ht; inversion Ht; subst; eauto. }
      destruct E as (h' & -> & E1 & E2). exists h'. auto.
Qed.
Lemma red_children h l p r : rbt h (Node Red l p r) -> rbt h l /\ rbt h r /\ root_color l = Black /\ root_color r = Black.
Proof. inversion 1; auto. Qed.
Lemma rbt_blacken h t : rbt h t -> exists h', rbt h' (blacken t) /\ (root_color t = Red -> h' = S h).
Proof. inversion 1; subst; simpl; eexists; (split; [by constructor|done]). Qed.

Lemma is_black_ok {D} (s : rb_store D) q t : t <> Leaf -> q = 0 \/ ptr q -> rep (nodes s) q t -> Forall ptr (inorder t) ->
  rb_is_black s (addr t) = Ret (is_black (root_color t)).
Proof.
  intros Ht Hq Hr Hp. destruct t as [|c l p r]; [done|]. destruct Hr as (Hm & _). simpl addr. unfold rb_is_black.
  assert (ptr p) by forall_part. rb_run. by destruct (bits_parent q c Hq) as (_ & _ & ->).
Qed.
Lemma and_red_ok {D} (s : rb_store D) q t : q = 0 \/ ptr q -> rep (nodes s) q t -> Forall ptr (inorder t) ->
  and_red s (addr t) = Ret (negb (is_black (root_color t))).
Proof.
  intros Hq Hr Hp. unfold and_red. destruct t as [|c l p r] eqn:E; [done|]. rewrite <- E in *.
  assert (ptr (addr t)) by (rewrite E in *; simpl; forall_part).
  rewrite (proj2 (Z.eqb_neq (addr t) 0)) by nz. simpl. unfold rb_is_red. rewrite (is_black_ok s q t); [done|congruence|done..].
Qed.
Lemma or_black_ok {D} (s : rb_store D) q t : q = 0 \/ ptr q -> rep (nodes s) q t -> Forall ptr (inorder t) ->
  or_black s (addr t) = Ret (is_black (root_color t)).
Proof.
  intros Hq Hr Hp. unfold or_black. destruct t as [|c l p r] eqn:E; [done|]. rewrite <- E in *.
  assert (ptr (addr t)) by (rewrite E in *; simpl; forall_part).
  rewrite (proj2 (Z.eqb_neq (addr t) 0)) by nz. rewrite (is_black_ok s q t); [done|congruence|done..].
Qed.

(** The loop rule with a ghost state that carries the measure. *)
Lemma loop_returns_ix {S R I} (Inv : I -> S -> Prop) (m : I -> nat) (Q : R -> Prop) (body : S -> outcome (S + R)) fuel i s :
  Inv i s -> (m i < fuel)%nat ->
  (forall i s, Inv i s -> returns (body s) (fun r =>
     match r with inl s' => exists i', Inv i' s' /\ (m i' < m i)%nat | inr x => Q x end)) ->
  returns (loop fuel body s) Q.
Proof.
  intros Hi Hm Hb. revert i s Hi Hm. induction fuel as [|fuel IH]; intros i s Hi Hm; [lia|].
  rewrite loop_S. eapply returns_bind; [exact (Hb i s Hi)|]. intros [s'|x] Hr; [|exact Hr].
  destruct Hr as (i' & Hi' & Hm'). apply (IH i'); [done|lia].
Qed.

(** ** Places in a tree *)

Lemma cwrap_split C : exists A B, forall K, cwrap C K = A ++ K ++ B.
Proof.
  induction C as [|[d c p sib] C (A & B & IH)]; [exists [], []; intros; simpl; by rewrite app_nil_r|].
  destruct d; [exists A, (p :: inorder sib ++ B)|exists (A ++ inorder sib ++ [p]), B]; intros K; simpl; rewrite IH; by flat.
Qed.
Lemma locate T p : p ∈ inorder T -> exists C c l r, T = plug C (Node c l p r).
Proof.
  enough (H : forall C, p ∈ inorder T -> exists C' c l r, plug C T = plug C' (Node c l p r)) by (intros Hp; exact (H [] Hp)).
  induction T as [|c l IHl x r IHr]; intros C Hp; simpl in Hp; [by apply elem_of_nil in Hp|].
  apply elem_of_app in Hp as [Hp|Hp]; [exact (IHl (Fr L c x r :: C) Hp)|].
  apply elem_of_cons in Hp as [->|Hp]; [eauto 6|exact (IHr (Fr R c x l :: C) Hp)].
Qed.
Lemma length_caddrs C : (length C <= length (caddrs C))%nat.
Proof. induction C as [|[d c p sib] C IH]; simpl; [done|]. rewrite length_app. lia. Qed.
Lemma focus_fuel {D} (s : rb_store D) C t : focus s C t -> (length (inorder t) + length C < rb_fuel s)%nat.
Proof.
  intros H. apply focus_holds, holds_fuel in H. rewrite plug_perm, length_app in H. pose proof (length_caddrs C). lia.
Qed.
Lemma focus_size {D} (s : rb_store D) C t : focus s C t -> (length (inorder t) + length C <= size (nodes s))%nat.
Proof.
  intros H. apply focus_holds, holds_size in H. rewrite plug_perm, length_app in H. pose proof (length_caddrs C). lia.
Qed.
(** The arguments of [rb_link_node] for a leaf. *)
Definition link_at (C : list frame) : Z * link :=
  match C with [] => (0, LRoot) | Fr L _ p _ :: _ => (p, LLeft p) | Fr R _ p _ :: _ => (p, LRight p) end.
Lemma link_node_ok {D} (s : rb_store D) C n :
  holds s (plug C Leaf) -> ptr n -> is_Some (nodes s !! n) -> n ∉ inorder (plug C Leaf) ->
  exists s', rb_link_node s n (fst (link_at C)) (snd (link_at C)) = Ret s' /\ focus s' C (Node Red Leaf n Leaf) /\
    data s' = data s /\ rb_leftmost s' = rb_leftmost s /\ forall q, q ∉ n :: caddrs C -> nodes s' !! q = nodes s !! q.
Proof.
  intros H pn [x Hx] Hn. apply focus_holds in H as ((Hc & _) & Hd & HP). rewrite plug_perm in Hn. simpl in Hn, Hd, HP.
  assert (E : fst (link_at C) = par C) by (destruct C as [|[[] ? ? ?] ?]; done). rewrite E.
  unfold rb_link_node. erewrite upd_node_ok by first [nz|eassumption]. rewrite bind_ret.
  assert (Hn' : NoDup (n :: caddrs C)) by (by apply NoDup_cons).
  assert (Hc' : forall C', C = C' -> crep (<[n := mk_node (par C) 0 0]> (nodes s)) (root_node s) C' 0).
  { intros C' <-. apply crep_insert; [done|exact Hc]. }
  destruct C as [|[d c p sib] C]; [|assert (pp : ptr p) by forall_part; destruct d]; simpl.
  - eexists. split; [reflexivity|]. split; [|split; [done|split; [done|]]].
    + unfold focus. cbn. split; [split; [done|]|split; [done|auto]]. by rewrite lookup_insert_eq.
    + intros q Hq. rewrite !not_elem_of_cons in Hq. apply lookup_insert_ne. naive_solver.
  - destruct (proj1 (crep_cons _ _ _ _ _ _ _ _) (Hc' _ eq_refl)) as (Hm & _ & _). apply crep_cons in Hc as (_ & Hs & Hr). unfold set_left. erewrite upd_node_ok; [|nz|exact Hm].
    eexists. split; [reflexivity|]. split; [|split; [done|split; [done|]]].
    + unfold focus. cbn [crep par addr nodes root_node set_nodes mkd rb_parent_color rb_left rb_right rep]. split; [split|split; [done|by apply Forall_cons]].
      * split; [apply lookup_insert_eq|]. split; rep_frame.
      * split; [rewrite lookup_insert_ne by distinct; cbn [nodes set_nodes]; rewrite lookup_insert_eq, bits_red; done|done].
    + intros q Hq. rewrite !not_elem_of_cons in Hq. cbn [nodes set_nodes]. by rewrite !lookup_insert_ne by naive_solver.
  - destruct (proj1 (crep_cons _ _ _ _ _ _ _ _) (Hc' _ eq_refl)) as (Hm & _ & _). apply crep_cons in Hc as (_ & Hs & Hr). unfold set_right. erewrite upd_node_ok; [|nz|exact Hm].
    eexists. split; [reflexivity|]. split; [|split; [done|split; [done|]]].
    + unfold focus. cbn [crep par addr nodes root_node set_nodes mkd rb_parent_color rb_left rb_right rep]. split; [split|split; [done|by apply Forall_cons]].
      * split; [apply lookup_insert_eq|]. split; rep_frame.
      * split; [rewrite lookup_insert_ne by distinct; cbn [nodes set_nodes]; rewrite lookup_insert_eq, bits_red; done|done].
    + intros q Hq. rewrite !not_elem_of_cons in Hq. cbn [nodes set_nodes]. by rewrite !lookup_insert_ne by naive_solver.
Qed.
