(* ===== verification/RbtreeInsert.v ===== *)
(** * Insertion into a red-black tree

    The rotation at the top of a subtree that insertion and removal share, and
    the loop of [__rb_insert]: the hole of the focus is a red node, and each
    turn recolors and moves up two frames or rotates and stops. *)

From stdpp Require Import base numbers list option gmap.
From Stdlib Require Import ZArith Lia.
From S2P Require Import Prelude Rbtree RbtreeFacts.

Section insert.
Context {D : Type} (val : D -> Z -> list Z -> Prop) (cb : rb_augment_callbacks D) `{!AugmentLaws val cb}.

Definition done_with (s0 : rb_store D) (X K : list Z) (s : rb_store D) : Prop :=
  exists T, holds s T /\ red_black T /\ inorder T = K /\ dok val (data s) T /\ stable X s0 s.

(** [P] is the top of a subtree and [S] has taken [P] as its child on side [e]. *)
Lemma rotate_top_ok (s : rb_store D) e C P S c col x tm y pcS K1 :
  nodes s !! P = Some (mkd e (bits (par C) c) (addr x) (addr tm)) ->
  nodes s !! S = Some (mkd e pcS P (addr y)) ->
  rep (nodes s) P x -> rep (nodes s) P tm -> rep (nodes s) S y -> crep (nodes s) (root_node s) C P ->
  NoDup (P :: S :: inorder x ++ inorder tm ++ inorder y ++ caddrs C) ->
  Forall ptr (P :: S :: inorder x ++ inorder tm ++ inorder y ++ caddrs C) ->
  let t := join e c (join e col x P tm) S y in
  dok val (data s) x -> dok val (data s) tm -> dok val (data s) y ->
  val (data s) P (inorder t) -> val (data s) S K1 -> cdok val (data s) C (inorder t) ->
  returns (s ← rotate_set_parents s P S (cbit col); call (rotate cb) s P S)
    (fun s' => focus s' C t /\ dok val (data s') (plug C t) /\ stable (P :: S :: caddrs C) s s').
Proof using AugmentLaws0.
  intros HP HS Hx Htm Hy HC Hn Hp t Dx Dtm Dy DP DS DC.
  assert (HnC : NoDup (P :: S :: caddrs C)) by nodup_part.
  pose proof Hp as Hp'. apply Forall_cons in Hp' as [pP Hp']. apply Forall_cons in Hp' as [pS Hp'].
  rewrite !Forall_app in Hp'. destruct Hp' as (px & ptm & py & pC).
  destruct (rotate_set_parents_ok s C P S c col (rb_right (mkd e (bits (par C) c) (addr x) (addr tm)))
    (rb_left (mkd e (bits (par C) c) (addr x) (addr tm))) _ ltac:(rewrite HP; by destruct e) HS HC HnC pP pS pC)
    as (m & r & -> & Hc & HmP & HmS & Hm).
  rewrite bind_ret.
  assert (Hrep : forall q u, NoDup (P :: S :: inorder u ++ caddrs C) -> rep (nodes s) q u -> rep m q u).
  { clear Hn. intros q u Hnu. apply rep_ext. intros p Hin. apply Hm. apply cnt_elem in Hin. clear HnC. distinct. }
  apply Hrep in Hx, Htm, Hy; [|nodup_part..].
  eapply callback_ok.
  { eapply (rotate_ok val) with (old := P) (new := S) (ta := match e with L => x | R => tm end) (tb := match e with L => tm | R => x end);
      cbn [nodes data]; [exact HmP|by destruct e..|done|done|destruct e; nodup_part| | | |exact DP|exact DS]; destruct e; try done; forall_part. }
  intros d (VS & VP & Hs). cbn [data] in Hs. split; [|split].
  - unfold focus. cbn [nodes root_node set_data]. unfold t. rewrite addr_join. split.
    + rewrite !rep_join, addr_join. split; [done|]. split; [destruct e; exact HmS|].
      split; [split; [destruct e; exact HmP|done]|done].
    + split; [destruct e; nodup_part|destruct e; forall_part].
  - cbn [data set_data]. apply dok_plug. unfold t. rewrite !dok_join.
    assert (Dsame : forall u, NoDup (P :: S :: inorder u ++ caddrs C) -> dok val (data s) u -> dok val d u).
    { clear Hn HnC. intros u Hnu. apply (dok_same val [P; S]); [exact Hs|].
      intros p Hin. rewrite !elem_of_cons, elem_of_nil in Hin. destruct Hin as [->|[->|[]]]; distinct. }
    split; [|split; [split; [|split]|split]]; try (apply Dsame; [nodup_part|done]).
    + apply (cdok_same val [P; S] (data s)); [exact Hs| |exact DC].
      intros p Hin. rewrite !elem_of_cons, elem_of_nil in Hin. destruct Hin as [->|[->|[]]]; distinct.
    + destruct e; exact VP.
    + rewrite <- inorder_join with (c := c). exact VS.
  - split; [done|exact Hm].
Qed.

(** Case 3 of [__rb_insert] when the parent is the child on side [d]. *)
Definition insert_tail (d : side) (s : rb_store D) (parent gparent tmp : Z) : outcome (rb_store D) :=
  s ← set_side d s gparent tmp;
  s ← set_side (flip d) s parent gparent;
  s ← opt_set_black s tmp gparent;
  s ← rotate_set_parents s gparent parent RB_RED;
  call (rotate cb) s gparent parent.
Definition insert_fix (d : side) (s : rb_store D) (node parent gparent : Z) : outcome (rb_store D) :=
  tmp ← get_side (flip d) s parent;
  '(s, parent, tmp) ←
    (if node =? tmp then
       tmp ← get_side d s node;
       s ← set_side (flip d) s parent tmp;
       s ← set_side d s node parent;
       s ← opt_set_black s tmp parent;
       s ← rb_set_parent_color s parent node RB_RED;
       s ← call (rotate cb) s parent node;
       tmp ← get_side (flip d) s node;
       Ret (s, node, tmp)
     else Ret (s, parent, tmp));
  insert_tail d s parent gparent tmp.
Lemma insert_fix_sides : insert_fix_left (rotate cb) = insert_fix L /\ insert_fix_right (rotate cb) = insert_fix R.
Proof. done. Qed.

Lemma insert_tail_ok (s : rb_store D) d C p g q tl tr u old pcp K1 :
  nodes s !! g = Some (mkd d (bits (par C) Black) old (addr u)) ->
  nodes s !! p = Some (mkd d pcp (addr tl) (addr tr)) ->
  rep (nodes s) p tl -> rep (nodes s) q tr -> root_color tr = Black -> rep (nodes s) g u ->
  crep (nodes s) (root_node s) C g ->
  NoDup (g :: p :: inorder tl ++ inorder tr ++ inorder u ++ caddrs C) ->
  Forall ptr (g :: p :: inorder tl ++ inorder tr ++ inorder u ++ caddrs C) ->
  let t := join d Black tl p (join d Red tr g u) in
  dok val (data s) tl -> dok val (data s) tr -> dok val (data s) u ->
  val (data s) g (inorder t) -> val (data s) p K1 -> cdok val (data s) C (inorder t) ->
  returns (insert_tail d s p g (addr tr))
    (fun s' => focus s' C t /\ dok val (data s') (plug C t) /\ stable (inorder (plug C t)) s s').
Proof using AugmentLaws0.
  intros Hg Hp Htl Htr Btr Hu HC Hn HP t Dtl Dtr Du Dg Dp DC. unfold insert_tail.
  pose proof HP as HP'. apply Forall_cons in HP' as [pg HP']. apply Forall_cons in HP' as [pp HP'].
  rewrite !Forall_app in HP'. destruct HP' as (ptl & ptr' & pu & pC).
  erewrite set_side_ok by eassumption. rewrite bind_ret.
  erewrite set_flip_ok by first [eassumption|mem_lookup]. rewrite bind_ret. cbn [nodes set_nodes].
  match goal with |- context [opt_set_black ?s1 _ _] => destruct (set_black_ok s1 q tr g) as (m1 & -> & R1 & H1) end.
  { cbn [nodes set_nodes]. rep_frame. }
  { done. }
  { nodup_part. }
  rewrite bind_ret. rewrite blacken_id in R1 by done. cbn [nodes set_nodes] in H1.
  assert (Et : inorder t = inorder (join (flip d) Black (join (flip d) Red u g tr) p tl)) by (destruct d; done).
  rewrite Et in *. eapply returns_mono; [eapply (rotate_top_ok _ (flip d) C g p Black Red u tr tl pcp K1); cbn [nodes root_node data set_nodes]|].
  - rewrite mkd_flip. rewrite H1 by distinct. mem_lookup.
  - rewrite mkd_flip. rewrite H1 by distinct. mem_lookup.
  - carry H1.
  - done.
  - carry H1.
  - carry H1.
  - nodup_part.
  - forall_part.
  - done.
  - done.
  - done.
  - done.
  - done.
  - done.
  - replace (join (flip d) Black (join (flip d) Red u g tr) p tl) with t by (destruct d; done).
    intros s' (F & Dk & S). split; [done|]. split; [done|]. split; [apply S|]. intros y Hy.
    rewrite plug_perm in Hy. unfold t in Hy. rewrite (inorder_join d), wrap_perm, inorder_join, wrap_perm in Hy.
    rewrite (proj2 S) by set_solver. cbn [nodes set_nodes]. rewrite H1 by set_solver.
    by rewrite !lookup_insert_ne by set_solver.
Qed.

(** What [insert_fix] leaves: a tree at the place of [gparent]. *)
Definition fixed (s : rb_store D) (C : list frame) (K : list Z) (h : nat) (s' : rb_store D) : Prop :=
  exists t, focus s' C t /\ inorder t = K /\ root_color t = Black /\ rbt (S h) t /\
    dok val (data s') (plug C t) /\ stable (cwrap C K) s s'.


Lemma insert_fix_straight (s : rb_store D) d C p g s1 u t h :
  focus s (Fr d Red p s1 :: Fr d Black g u :: C) t -> root_color t = Red ->
  rbt h t -> rbt h s1 -> root_color s1 = Black -> rbt h u -> root_color u = Black ->
  dok val (data s) (plug (Fr d Red p s1 :: Fr d Black g u :: C) t) ->
  returns (insert_fix d s (addr t) p g) (fixed s C (wrap d g u (wrap d p s1 (inorder t))) h).
Proof using AugmentLaws0.
  intros F Ct Rt R1 B1 Ru Bu Dk. destruct t as [|ct a n b]; [done|]. simpl in Ct. subst ct.
  destruct F as ((Hc & Hr) & Hn & HP). cbn [crep par] in Hc, Hr. destruct Hc as (Hp & H1 & Hg & Hu & HC).
  apply dok_plug in Dk as (Dc & Dt). cbn [cdok] in Dc. destruct Dc as (D1 & Vp & Du & Vg & DC).
  assert (ptr p) by forall_part. unfold insert_fix. cbn [addr] in *.
  erewrite get_flip_ok by eassumption. rewrite bind_ret.
  assert (En : (n =? addr s1) = false).
  { apply Z.eqb_neq, node_neq; [forall_part|distinct]. }
  rewrite En, bind_ret.
  assert (Ei : inorder (join d Black (Node Red a n b) p (join d Red s1 g u)) = wrap d g u (wrap d p s1 (inorder (Node Red a n b)))).
  { destruct d; by flat. }
  eapply returns_mono; [eapply (insert_tail_ok s d C p g p (Node Red a n b) s1 u p); try eassumption; rewrite ?Ei; try eassumption|].
  - nodup_part.
  - forall_part.
  - intros s' (F' & D' & S'). eexists. split; [exact F'|]. split; [exact Ei|]. split; [by rewrite color_join|].
    split; [by apply rbt_join_black, rbt_join_red|]. split; [done|]. by rewrite inorder_plug, Ei in S'.
Qed.

Lemma insert_fix_turned (s : rb_store D) d C p g s1 u x n y h :
  let C2 := Fr (flip d) Red p s1 :: Fr d Black g u :: C in
  let K := wrap d g u (wrap (flip d) p s1 (inorder (join d Red x n y))) in
  focus s C2 (join d Red x n y) ->
  rbt h x -> rbt h y -> root_color x = Black -> root_color y = Black ->
  rbt h s1 -> root_color s1 = Black -> rbt h u -> root_color u = Black ->
  dok val (data s) (plug C2 (join d Red x n y)) ->
  returns (insert_fix d s n p g) (fixed s C K h).
Proof using AugmentLaws0.
  intros C2 K F Rx Ry Bx By R1 B1 Ru Bu Dk.
  destruct F as ((Hc & Hr) & Hn & HP). unfold C2 in *. cbn [crep par] in Hc, Hr. rewrite mkd_flip, addr_join in Hc.
  destruct Hc as (Hp & H1 & Hg & Hu & HC). apply rep_join in Hr as (Hnn & Hx & Hy).
  apply dok_plug in Dk as (Dc & Dt). cbn [cdok] in Dc. destruct Dc as (D1 & Vp & Du & Vg & DC).
  apply dok_join in Dt as (Dx & Vn & Dy). rewrite inorder_join in *.
  assert (En : NoDup (n :: p :: g :: inorder x ++ inorder y ++ inorder s1 ++ inorder u ++ caddrs C)) by (destruct d; nodup_part).
  assert (EP : Forall ptr (n :: p :: g :: inorder x ++ inorder y ++ inorder s1 ++ inorder u ++ caddrs C)) by (destruct d; forall_part).
  clear Hn HP. rename En into Hn. rename EP into HP.
  assert (pn : ptr n) by forall_part. assert (pp : ptr p) by forall_part. assert (pg : ptr g) by forall_part.
  unfold insert_fix. erewrite get_flip_ok by eassumption. rewrite bind_ret, Z.eqb_refl.
  erewrite get_side_ok by eassumption. rewrite bind_ret.
  erewrite set_flip_ok by eassumption. rewrite bind_ret.
  erewrite set_side_ok by first [eassumption|mem_lookup]. rewrite bind_ret. cbn [nodes set_nodes].
  match goal with |- context [opt_set_black ?s1 _ _] => destruct (set_black_ok s1 n x p) as (m1 & -> & R1' & H1') end.
  { cbn [nodes set_nodes]. rep_frame. }
  { forall_part. }
  { nodup_part. }
  rewrite bind_ret. rewrite blacken_id in R1' by done. cbn [nodes set_nodes] in H1'. unfold rb_set_parent_color.
  erewrite (set_pc_ok d); [|done|]. 2:{ cbn [nodes set_nodes]. rewrite H1' by distinct. mem_lookup. }
  rewrite bind_ret.
  rewrite bind_assoc. cbn [nodes set_nodes data]. eapply callback_bind.
  { eapply (rotate_ok val) with (old := p) (new := n) (ta := match d with L => s1 | R => x end) (tb := match d with L => x | R => s1 end);
      cbn [nodes data set_nodes]; [apply lookup_insert_eq|by destruct d..|done|done|destruct d; nodup_part| | | |exact Vp|exact Vn];
      destruct d; try done; forall_part. }
  intros e (Vn' & Vp' & Hs). cbn [data set_nodes] in Hs.
  erewrite get_flip_ok; [|done|]. 2:{ cbn [nodes set_nodes set_data]. rewrite lookup_insert_ne by distinct. rewrite H1' by distinct. mem_lookup. }
  rewrite !bind_ret.
  assert (Dsame : forall v, NoDup (p :: n :: inorder v ++ caddrs C) -> dok val (data s) v -> dok val e v).
  { clear Hn. intros v Hnv. apply (dok_same val [p; n]); [exact Hs|].
    intros q Hin. rewrite !elem_of_cons, elem_of_nil in Hin. destruct Hin as [->|[->|[]]]; distinct. }
  assert (K0 : K = wrap d g u (wrap (flip d) p s1 (wrap d n y (inorder x)))) by (unfold K; by rewrite inorder_join).
  assert (EK : inorder (join d Black (join d Red s1 p x) n (join d Red y g u)) = K).
  { subst K. destruct d; by flat. }
  assert (Ew : wrap (flip d) p s1 (wrap d n y (inorder x)) = inorder (join d Red (join d Red s1 p x) n y)).
  { destruct d; by flat. }
  eapply returns_mono; [eapply (insert_tail_ok _ d C n g n (join d Red s1 p x) y u p); rewrite ?addr_join; cbn [nodes root_node data set_nodes set_data]|].
  - rewrite lookup_insert_ne by distinct. rewrite H1' by distinct. mem_lookup.
  - rewrite lookup_insert_ne by distinct. rewrite H1' by distinct. mem_lookup.
  - apply rep_join. split; [apply lookup_insert_eq|]. split; rep_frame. carry H1'.
  - rep_frame. carry H1'.
  - done.
  - rep_frame. carry H1'.
  - rep_frame. carry H1'.
  - destruct d; nodup_part.
  - destruct d; forall_part.
  - apply dok_join. split; [apply Dsame; [nodup_part|done]|]. split; [destruct d; exact Vp'|apply Dsame; [nodup_part|done]].
  - apply Dsame; [nodup_part|done].
  - apply Dsame; [nodup_part|done].
  - rewrite EK, K0. apply Hs; [|exact Vg]. rewrite !not_elem_of_cons. split; [distinct|]. split; [distinct|apply not_elem_of_nil].
  - exact Vn'.
  - rewrite EK, K0. apply (cdok_same val [p; n] (data s)); [exact Hs| |exact DC].
    intros q Hin. rewrite !elem_of_cons, elem_of_nil in Hin. destruct Hin as [->|[->|[]]]; distinct.
  - intros s' (F' & D' & S'). eexists. split; [exact F'|]. split; [exact EK|]. split; [by rewrite color_join|].
    split; [apply rbt_join_black; by apply rbt_join_red|]. split; [exact D'|]. rewrite inorder_plug, EK in S'. split; [apply S'|].
    intros q Hq. rewrite (proj2 S') by done. cbn [nodes set_data set_nodes].
    rewrite cwrap_perm in Hq. unfold K in Hq. rewrite !wrap_perm in Hq.
    rewrite inorder_join, wrap_perm in Hq. rewrite lookup_insert_ne by set_solver. rewrite H1' by set_solver.
    by rewrite !lookup_insert_ne by set_solver.
Qed.

Lemma insert_flip_ok (s : rb_store D) d1 d2 C p g s1 u t :
  focus s (Fr d1 Red p s1 :: Fr d2 Black g u :: C) t -> u <> Leaf ->
  exists s', insert_flip s p g (addr u) = Ret (s', g, par C) /\
    focus s' C (join d2 Red (join d1 Black t p s1) g (blacken u)) /\ data s' = data s /\
    stable (p :: g :: inorder u) s s'.
Proof using.
  intros ((Hc & Hr) & Hn & HP) Hu. cbn [crep par] in Hc, Hr. destruct Hc as (Hp & H1 & Hg & Hru & HC).
  destruct s as [m r lm da]. cbn [nodes root_node] in *.
  assert (pp : ptr p) by forall_part. assert (pg : ptr g) by forall_part. assert (pC : Forall ptr (caddrs C)) by forall_part.
  destruct (set_black_ok (mk_store m r lm da) g u g) as (m1 & E1 & R1 & M1); [done|forall_part|nodup_part|].
  unfold insert_flip. assert (En : opt_set_black (mk_store m r lm da) (addr u) g = rb_set_parent_color (mk_store m r lm da) (addr u) g RB_BLACK).
  { apply set_black_node; [done|forall_part]. }
  rewrite <- En, E1, bind_ret. unfold rb_set_parent_color, rb_parent. cbn [nodes set_nodes] in M1.
  erewrite (set_pc_ok d1); [|done|]. 2:{ cbn [nodes set_nodes]. rewrite M1 by distinct. exact Hp. }
  rewrite bind_ret. erewrite (get_pc_ok d2); [|done|]. 2:{ cbn [nodes set_nodes]. rewrite lookup_insert_ne by distinct. rewrite M1 by distinct. exact Hg. }
  rewrite !bind_ret. destruct (bits_parent (par C) Black (par_ok C pC)) as (-> & _ & _).
  erewrite (set_pc_ok d2); [|done|]. 2:{ cbn [nodes set_nodes]. rewrite lookup_insert_ne by distinct. rewrite M1 by distinct. exact Hg. }
  rewrite bind_ret. eexists. split; [reflexivity|]. split; [|split; [done|]].
  - unfold focus. cbn [nodes root_node set_nodes]. rewrite addr_join, !rep_join, addr_join. split.
    + split; [rep_frame; carry M1|]. split; [rewrite lookup_insert_eq; f_equal; unfold mkd; destruct u; done|].
      split; [split; [rewrite lookup_insert_ne by distinct; apply lookup_insert_eq|split; rep_frame; carry M1]|].
      do 2 (apply rep_insert; [rewrite inorder_blacken; distinct|]). exact R1.
    + rewrite inorder_join, wrap_perm, inorder_join, wrap_perm, inorder_blacken.
      split; [nodup_part|forall_part].
  - split; [done|]. intros q Hq. cbn [nodes set_nodes]. rewrite !elem_of_cons in Hq.
    rewrite !lookup_insert_ne by naive_solver. apply M1. naive_solver.
Qed.

Definition insert_inv (s0 : rb_store D) (K : list Z) (C : list frame) (st : rb_store D * Z * Z) : Prop :=
  let '(s, node, parent) := st in
  exists a b h, focus s C (Node Red a node b) /\ parent = par C /\ rbt h (Node Red a node b) /\ cok h C /\
    cwrap C (inorder (Node Red a node b)) = K /\ dok val (data s) (plug C (Node Red a node b)) /\ stable K s0 s.

Lemma insert_done (s0 s : rb_store D) C K h t :
  focus s C t -> rbt h t -> cok h C -> root_color t = Black \/ top_black C ->
  cwrap C (inorder t) = K -> dok val (data s) (plug C t) -> stable K s0 s -> done_with s0 K K s.
Proof using.
  intros F Ht HC Hb HK Dk S. exists (plug C t). rewrite inorder_plug. split; [by apply focus_holds|].
  split; [by eapply cok_plug|]. auto.
Qed.

Lemma insert_root_ok (s0 s : rb_store D) a n b h K :
  focus s [] (Node Red a n b) -> rbt h (Node Red a n b) -> inorder (Node Red a n b) = K ->
  dok val (data s) (Node Red a n b) -> stable K s0 s ->
  returns (rb_set_parent_color s n 0 RB_BLACK) (done_with s0 K K).
Proof using.
  intros ((Hc & Hm & Ha & Hb) & Hn & HP) (Ra & Rb & _ & _)%red_children HK Dk S. simpl in Hc.
  assert (pn : ptr n) by forall_part. rb_run. apply returns_ret.
  eapply (insert_done _ _ [] K (Datatypes.S h) (Node Black a n b)); try done; [|by constructor|auto|].
  - unfold focus. cbn [nodes root_node set_nodes crep addr caddrs]. split; [|done].
    split; [done|]. split; [apply lookup_insert_eq|]. split; rep_frame.
  - destruct S as [S1 S2]. split; [done|]. intros q Hq. cbn [nodes set_nodes]. rewrite lookup_insert_ne; [by apply S2|].
    intros <-. apply Hq. rewrite <- HK. simpl. apply elem_of_app. right. left.
Qed.

(** The branch of a turn for a red parent on side [d]. *)
Definition insert_red (d : side) (s : rb_store D) (node parent gparent tmp : Z) : outcome (rb_store D * Z * Z + rb_store D) :=
  red ← and_red s tmp;
  if (red : bool) then st ← insert_flip s parent gparent tmp; Ret (inl st)
  else s ← insert_fix d s node parent gparent; Ret (inr s).

Definition insert_post (s0 : rb_store D) (K : list Z) (C : list frame) (r : rb_store D * Z * Z + rb_store D) : Prop :=
  match r with
  | inl st => exists C', insert_inv s0 K C' st /\ (length C' < length C)%nat
  | inr s => done_with s0 K K s
  end.

Lemma join_red_split d a n b : exists x y, Node Red a n b = join d Red x n y.
Proof using. destruct d; [exists a, b|exists b, a]; done. Qed.

Lemma fixed_done (s0 s s' : rb_store D) C K h :
  cok (S h) C -> stable (cwrap C K) s0 s -> fixed s C K h s' -> done_with s0 (cwrap C K) (cwrap C K) s'.
Proof using.
  intros HC S (t & F & E & Bt & Rt & Dk & S'). eapply insert_done; eauto; [by rewrite E|].
  by eapply stable_trans.
Qed.

Lemma insert_red_ok (s0 s : rb_store D) d1 d2 C p g s1 u a n b h K :
  let C2 := Fr d1 Red p s1 :: Fr d2 Black g u :: C in
  focus s C2 (Node Red a n b) -> rbt h (Node Red a n b) -> cok h C2 ->
  cwrap C2 (inorder (Node Red a n b)) = K -> dok val (data s) (plug C2 (Node Red a n b)) -> stable K s0 s ->
  returns (insert_red d2 s n p g (addr u)) (insert_post s0 K C2).
Proof using AugmentLaws0.
  intros C2 F Rt HC HK Dk S. destruct HC as (R1 & B1 & _ & Ru & HC). unfold insert_red.
  destruct (red_children _ _ _ _ Rt) as (Ra & Rb & Ba & Bb).
  assert (Hu : rep (nodes s) g u /\ Forall ptr (inorder u) /\ ptr g).
  { destruct F as (((_ & _ & _ & Hu & _) & _) & _ & HP). unfold C2 in HP. split; [done|]. split; forall_part. }
  destruct Hu as (Hu & pu & pg). rewrite (and_red_ok s g u) by auto. rewrite bind_ret.
  destruct (root_color u) eqn:Eu; simpl negb; cbv iota.
  - destruct (insert_flip_ok s d1 d2 C p g s1 u (Node Red a n b) F) as (s' & -> & F' & Ed & S'); [by intros ->|].
    rewrite bind_ret. apply returns_ret. unfold insert_post. exists C. split; [|unfold C2; simpl; lia].
    destruct (rbt_blacken h u Ru) as (h' & Rb' & Eh). specialize (Eh Eu). subst h'.
    assert (Rf : rbt (Datatypes.S h) (join d2 Red (join d1 Black (Node Red a n b) p s1) g (blacken u))).
    { apply rbt_join_red; [by apply rbt_join_black|done|apply color_join|by destruct u]. }
    assert (Ef : inorder (join d2 Red (join d1 Black (Node Red a n b) p s1) g (blacken u)) = wrap d2 g u (wrap d1 p s1 (inorder (Node Red a n b)))).
    { rewrite !inorder_join. destruct d2; cbn [wrap]; by rewrite inorder_blacken. }
    assert (Df : dok val (data s') (plug C (join d2 Red (join d1 Black (Node Red a n b) p s1) g (blacken u)))).
    { rewrite Ed. apply dok_plug. rewrite Ef. apply dok_plug in Dk as (Dc & Dt). cbn [C2 cdok] in Dc.
      destruct Dc as (D1 & Vp & Du & Vg & DC). split; [done|]. apply dok_join. split; [apply dok_join; done|].
      rewrite inorder_join. split; [destruct d2; cbn [wrap] in *; by rewrite inorder_blacken|by destruct u]. }
    assert (Sf : stable K s0 s').
    { eapply stable_trans; [exact S|]. eapply stable_mono; [|exact S']. rewrite <- HK. intros q Hq.
      rewrite cwrap_perm. unfold C2. simpl. set_solver. }
    destruct (join_node d2 Red (join d1 Black (Node Red a n b) p s1) g (blacken u)) as (a' & b' & E).
    rewrite E in *. exists a', b', (Datatypes.S h). split; [done|]. split; [done|]. split; [done|]. split; [done|].
    rewrite Ef. split; [exact HK|]. split; [done|exact Sf].
  - assert (Hd : d1 = d2 \/ d1 = flip d2) by (destruct d1, d2; auto).
    eapply returns_bind with (P := fixed s C (cwrap [Fr d1 Red p s1; Fr d2 Black g u] (inorder (Node Red a n b))) h).
    + destruct Hd as [->| ->]; [by apply (insert_fix_straight s d2 C p g s1 u (Node Red a n b))|].
      destruct (join_red_split d2 a n b) as (x & y & E). unfold C2 in *. rewrite E in *.
      assert (Exy : rbt h x /\ rbt h y /\ root_color x = Black /\ root_color y = Black) by (destruct d2; simpl in E; inversion E; subst; auto).
      destruct Exy as (Rx & Ry & Bx & By). by apply (insert_fix_turned s d2 C p g s1 u x n y h).
    + intros s' Fx. apply returns_ret. unfold insert_post. simpl in HK. subst K. eapply fixed_done; eauto.
Qed.

Lemma insert_turn_ok (s0 : rb_store D) K C st :
  insert_inv s0 K C st -> returns (rb_insert_turn (rotate cb) st) (insert_post s0 K C).
Proof using AugmentLaws0.
  destruct st as [[s node] parent]. intros (a & b & h & F & -> & Rt & HC & HK & Dk & S).
  destruct C as [|[d1 c1 p s1] C]; unfold rb_insert_turn; cbn [par].
  - eapply returns_bind; [by eapply insert_root_ok|]. intros s' Hs'. exact Hs'.
  - assert (HP : ptr p /\ (par C = 0 \/ ptr (par C))).
    { destruct F as (_ & _ & HP). split; [forall_part|apply par_ok; forall_part]. }
    destruct HP as [pp pC]. rewrite (proj2 (Z.eqb_neq p 0)) by nz.
    assert (Hp : nodes s !! p = Some (mkd d1 (bits (par C) c1) node (addr s1))) by apply F.
    unfold rb_is_black, rb_red_parent. rewrite (get_pc_ok _ _ _ _ _ _ pp Hp), !bind_ret.
    destruct (bits_parent (par C) c1 pC) as (_ & _ & ->). destruct c1; cbn [is_black]; cbv iota.
    2:{ apply returns_ret. eapply insert_done; eauto. right. exact I. }
    destruct C as [|[d2 [] g u] C]; try (by destruct HC as (_ & _ & [] & _)).
    rewrite bits_red. cbn [par].
    assert (Hg : nodes s !! g = Some (mkd d2 (bits (par C) Black) p (addr u))) by apply F.
    assert (HP : ptr g /\ NoDup (p :: inorder u)). { destruct F as (_ & Hn & HP). split; [forall_part|nodup_part]. }
    destruct HP as [pg Hn]. replace g with (par (Fr d2 Black g u :: C)) by done.
    pose proof (insert_red_ok s0 s d1 d2 C p g s1 u a node b h K F Rt HC HK Dk S) as IR.
    destruct insert_fix_sides as [EL ER].
    unfold insert_red in IR. destruct d2.
    + change get_right with (get_side (D := D) (flip L)). cbn [par]. rewrite (get_flip_ok _ _ _ _ _ _ pg Hg), bind_ret.
      rewrite (proj2 (Z.eqb_neq p (addr u))) by (apply node_neq; [done|distinct]). simpl negb. cbv iota. rewrite EL. exact IR.
    + change get_right with (get_side (D := D) R). cbn [par]. rewrite (get_side_ok _ _ _ _ _ _ pg Hg), bind_ret.
      rewrite Z.eqb_refl. simpl negb. cbv iota. change get_left with (get_side (D := D) (flip R)).
      rewrite (get_flip_ok _ _ _ _ _ _ pg Hg), bind_ret, ER. exact IR.
Qed.

(** The whole of [__rb_insert], after [rb_link_node]. *)
Lemma rb_insert_ok (s : rb_store D) C n newleft cached :
  focus s C (Node Red Leaf n Leaf) -> red_black (plug C Leaf) ->
  dok val (data s) (plug C (Node Red Leaf n Leaf)) -> (newleft = true -> cached = true) ->
  let s0 := if newleft then set_leftmost s n else s in
  let K := cwrap C [n] in
  returns (rb_insert (rotate cb) s n newleft cached) (done_with s0 K K).
Proof using AugmentLaws0.
  intros F RB Dk Hl s0 K. unfold rb_insert, rb_red_parent.
  assert (pn : ptr n) by (destruct F as (_ & _ & HP); forall_part).
  assert (Hn : nodes s !! n = Some (mkd L (bits (par C) Red) 0 0)) by apply F.
  rewrite (get_pc_ok _ _ _ _ _ _ pn Hn), bind_ret, bits_red.
  assert (E : (if newleft then if cached then Ret (set_leftmost s n) else Fault else Ret s) = Ret s0).
  { unfold s0. destruct newleft; [by rewrite Hl|done]. }
  rewrite E, bind_ret. assert (F0 : focus s0 C (Node Red Leaf n Leaf)) by (unfold s0; by destruct newleft).
  destruct (cok_unplug _ _ RB) as (h & HC & Hh & _). inversion Hh; subst h.
  eapply (loop_returns_ix (insert_inv s0 K) length) with (i := C).
  - exists Leaf, Leaf, O. split; [done|]. split; [done|]. split; [by constructor; constructor|]. split; [done|].
    split; [done|]. split; [|apply stable_refl]. unfold s0. by destruct newleft.
  - apply focus_fuel in F0. lia.
  - intros C' st. apply insert_turn_ok.
Qed.

End insert.
