(* ===== verification/RbtreeErase.v ===== *)
(** * Removal from a red-black tree

    [__rb_erase_augmented]: the node with at most one child is unlinked, or its
    successor is and takes its place; what remains is red-black, or lacks one
    black node on the paths through the hole that [rebalance] names. *)

From stdpp Require Import base numbers list option gmap.
From Stdlib Require Import ZArith Lia.
From S2P Require Import Prelude Rbtree RbtreeFacts.

(** What [rebalance] says about the tree with the hole [t] in [C]. *)
Definition settled (C : list frame) (t : tree) (rebalance : Z) : Prop :=
  rebalance = 0 /\ red_black (plug C t) \/ t = Leaf /\ C <> [] /\ rebalance = par C /\ cok 1 C.

Lemma removal_colors h C d c x ch :
  cok h C -> rbt h (join d c Leaf x ch) -> c = Black \/ top_black C ->
  (ch <> Leaf -> c = Black /\ settled C (blacken ch) 0) /\
  (ch = Leaf -> settled C Leaf (if is_black c then par C else 0)).
Proof.
  intros HC Ht Hb. destruct c.
  - assert (E : rbt h Leaf /\ rbt h ch /\ root_color ch = Black) by (destruct d; inversion Ht; subst; auto).
    destruct E as (E0 & E1 & E2). inversion E0; subst. split.
    + intros Hch. inversion E1; subst; [done|]. simpl in E2. discriminate.
    + intros ->. left. split; [done|]. eapply cok_plug; eauto.
  - assert (E : exists h', h = S h' /\ rbt h' Leaf /\ rbt h' ch) by (destruct d; inversion Ht; subst; eauto).
    destruct E as (h' & -> & E0 & E1). inversion E0; subst. split.
    + intros Hch. split; [done|]. left. split; [done|]. inversion E1; subst; [done|]. simpl.
      apply (cok_plug 1); [done|by constructor|auto].
    + intros ->. simpl. destruct C as [|F C]; [left; split; [done|]; split; [done|exists O; constructor]|].
      right. done.
Qed.

(** The top of a hole's path, and the path between two places. *)
Definition parq (P : list frame) (q : Z) : Z := match P with [] => q | Fr _ _ p _ :: _ => p end.
Fixpoint cpath (m : gmap Z rb_node) (P : list frame) (a q : Z) : Prop :=
  match P with
  | [] => True
  | Fr d c p sib :: P => m !! p = Some (mkd d (bits (parq P q) c) a (addr sib)) /\ rep m p sib /\ cpath m P p q
  end.
Definition topa (P : list frame) (a : Z) : Z := foldl (fun _ F => match F with Fr _ _ p _ => p end) a P.

Lemma topa_plug P t : addr (plug P t) = topa P (addr t).
Proof. revert t. induction P as [|[d c p sib] P IH]; intros t; simpl; [done|]. rewrite IH. by destruct d. Qed.
Lemma rep_cpath m q P t : rep m q (plug P t) <-> cpath m P (addr t) q /\ rep m (parq P q) t.
Proof. revert t. induction P as [|[d c p sib] P IH]; intros t; simpl; [tauto|]. rewrite IH, rep_join, addr_join. tauto. Qed.
Lemma crep_app m r P C a : crep m r (P ++ C) a <-> cpath m P a (par C) /\ crep m r C (topa P a).
Proof.
  revert a. induction P as [|[d c p sib] P IH]; intros a; simpl; [tauto|]. rewrite IH.
  replace (par (P ++ C)) with (parq P (par C)) by (by destruct P as [|[? ? ? ?] ?]). tauto.
Qed.
Lemma par_app P C : par (P ++ C) = parq P (par C).
Proof. by destruct P as [|[? ? ? ?] ?]. Qed.
Lemma parq_ok P q : q = 0 \/ ptr q -> Forall ptr (caddrs P) -> parq P q = 0 \/ ptr (parq P q).
Proof. destruct P as [|[d c p sib] P]; simpl; [done|]. intros _ H. right. forall_part. Qed.
Lemma cpath_app m P P' a q : cpath m (P ++ P') a q <-> cpath m P a (parq P' q) /\ cpath m P' (topa P a) q.
Proof.
  revert a. induction P as [|[d c p sib] P IH]; intros a; simpl; [tauto|]. rewrite IH.
  replace (parq (P ++ P') q) with (parq P (parq P' q)) by (by destruct P as [|[? ? ? ?] ?]). tauto.
Qed.
Lemma cpath_ext m m' P a q : (forall p, p ∈ caddrs P -> m' !! p = m !! p) -> cpath m P a q -> cpath m' P a q.
Proof.
  revert a. induction P as [|[d c p sib] P IH]; intros a H Hr; simpl in *; [done|].
  setoid_rewrite elem_of_cons in H. setoid_rewrite elem_of_app in H. destruct Hr as (Hp & Hs & Hr).
  rewrite H by auto. split; [done|]. split; [|eauto]. eapply rep_ext; [|exact Hs]. auto.
Qed.
Lemma cpath_insert m P a q p n : p ∉ caddrs P -> cpath m P a q -> cpath (<[p := n]> m) P a q.
Proof. intros Hp. apply cpath_ext. intros x Hx. apply lookup_insert_ne. congruence. Qed.
Lemma cpath_path m P a q : q = 0 \/ ptr q -> Forall ptr (caddrs P) -> cpath m P a q -> path m P a q.
Proof.
  intros Hq. revert a. induction P as [|[d c p sib] P IH]; intros a HP Hr; simpl in *; [done|].
  destruct Hr as (Hp & Hs & Hr). split; [|split; [done|apply IH; [forall_part|done]]].
  eexists. split; [exact Hp|]. destruct (bits_parent (parq P q) c) as (-> & _ & _); [|done].
  apply parq_ok; [done|forall_part].
Qed.
Lemma cpath_size m P a q : cpath m P a q -> NoDup (caddrs P) -> (length P <= size m)%nat.
Proof.
  intros Hc Hn. assert (H : list_to_set (caddrs P) ⊆ dom m).
  { intros p Hp%elem_of_list_to_set. apply elem_of_dom. clear Hn. revert a Hc. induction P as [|[d c x sib] P IH]; intros a Hc; simpl in *; [by apply elem_of_nil in Hp|].
    destruct Hc as (Hx & Hs & Hc). rewrite elem_of_cons, elem_of_app in Hp. destruct Hp as [->|[Hp|Hp]]; [eauto|by eapply rep_elem|eauto]. }
  apply subseteq_size in H. rewrite size_list_to_set, size_dom in H by done. pose proof (length_caddrs P). lia.
Qed.
Lemma cok_subst h P d c n n' l C : cok h (P ++ Fr d c n l :: C) -> cok h (P ++ Fr d c n' l :: C).
Proof.
  revert h. induction P as [|[d' [] p sib] P IH]; intros h; simpl; [done| |].
  - intros (? & ? & HT & H). split; [done|]. split; [done|]. split; [|by apply IH]. by destruct P as [|[? [] ? ?] ?].
  - intros (? & H). split; [done|by apply IH].
Qed.

(** A new child below the path, and a new parent above it. *)
Lemma cpath_hole_ok {D} (s : rb_store D) d c p sib P a a' q :
  cpath (nodes s) (Fr d c p sib :: P) a q -> NoDup (caddrs (Fr d c p sib :: P)) -> ptr p ->
  exists m, set_side d s p a' = Ret (set_nodes s m) /\ cpath m (Fr d c p sib :: P) a' q /\
    forall x, x ∉ caddrs (Fr d c p sib :: P) -> m !! x = nodes s !! x.
Proof.
  intros (Hm & Hs & Hr) Hn pp. eexists. split; [by eapply set_side_ok|]. split.
  - cbn [cpath]. split; [apply lookup_insert_eq|]. split; [rep_frame|]. apply cpath_insert; [distinct|done].
  - intros x Hx. apply lookup_insert_ne. intros ->. apply Hx. simpl. left.
Qed.
Lemma cpath_parent_ok {D} (s : rb_store D) P a q q' :
  P <> [] -> cpath (nodes s) P a q -> NoDup (caddrs P) -> Forall ptr (caddrs P) -> q = 0 \/ ptr q ->
  exists m, rb_set_parent s (topa P a) q' = Ret (set_nodes s m) /\ cpath m P a q' /\
    forall x, x ∉ caddrs P -> m !! x = nodes s !! x.
Proof.
  intros HP Hc Hn Hp Hq. destruct (exists_last HP) as (P1 & [d c p sib] & ->).
  apply cpath_app in Hc as (H1 & Hm & Hs & _). rewrite caddrs_app in Hn, Hp. cbn [parq] in *.
  assert (pp : ptr p) by forall_part. unfold topa. rewrite foldl_app. simpl. unfold rb_set_parent.
  rewrite (get_pc_ok _ _ _ _ _ _ pp Hm), bind_ret, (set_pc_ok _ _ _ _ _ _ _ pp Hm), bits_set by done.
  eexists. split; [reflexivity|]. split.
  - apply cpath_app. split; [apply cpath_insert; [distinct|done]|]. cbn [cpath].
    split; [apply lookup_insert_eq|]. split; [rep_frame|done].
  - intros x Hx. apply lookup_insert_ne. intros ->. apply Hx. rewrite caddrs_app. simpl. apply elem_of_app. right. left.
Qed.

Section erase.
Context {D : Type} (val : D -> Z -> list Z -> Prop) (cb : rb_augment_callbacks D) `{!AugmentLaws val cb}.

Definition refreshed (s : rb_store D) (C : list frame) (t : tree) (s' : rb_store D) : Prop :=
  focus s' C t /\ dok val (data s') (plug C t) /\ stable [] s s'.

Lemma crep_path m r C a : Forall ptr (caddrs C) -> crep m r C a -> path m C a 0.
Proof using.
  intros HP H. apply cpath_path; [auto|done|]. rewrite <- (app_nil_r C) in H. apply crep_app in H as [H _]. exact H.
Qed.

Lemma prop_node_ok (s : rb_store D) C x c tx ty K :
  focus s C (Node c tx x ty) -> dok val (data s) tx -> dok val (data s) ty -> val (data s) x K -> cdok val (data s) C K ->
  returns (call (propagate cb) s x 0) (refreshed s C (Node c tx x ty)).
Proof using AugmentLaws0.
  intros F Dx Dy Vx DC. pose proof (focus_size s C _ F) as Hf. destruct F as ((Hc & Hm & Hx & Hy) & Hn & HP).
  assert (pC : Forall ptr (caddrs C)) by forall_part. assert (px : ptr x) by forall_part.
  eapply callback_ok.
  - eapply (propagate_ok val) with (ta := tx) (tb := ty) (C := C) (K := K); [exact Hm|done|done| | | | | |done..].
    + simpl. destruct (bits_parent (par C) c (par_ok C pC)) as (-> & _ & _). by destruct C as [|[? ? ? ?] ?].
    + by eapply crep_path.
    + simpl in Hf. rewrite length_app in Hf. simpl in Hf. lia.
    + assert (Hn' : NoDup (x :: inorder tx ++ inorder ty ++ caddrs C)) by nodup_part.
      apply NoDup_cons. split; [|done]. assert (HP' : Forall ptr (x :: inorder tx ++ inorder ty ++ caddrs C)) by forall_part.
      by apply null_notin.
    + forall_part.
  - intros d (D1 & D2 & V & DC' & Hs). split; [|split; [|done]].
    + split; [done|]. split; done.
    + apply dok_plug. simpl. auto.
Qed.

Lemma prop_up_ok (s : rb_store D) C t K0 :
  focus s C t -> dok val (data s) t -> cdok val (data s) C K0 ->
  returns (call (propagate cb) s (par C) 0) (refreshed s C t).
Proof using AugmentLaws0.
  intros F Dt DC. destruct C as [|[d c p sib] C].
  - simpl. eapply callback_ok; [apply (propagate_stop val)|]. intros e He. split; [exact F|]. split; [|done].
    eapply (dok_same val []); [exact He| |exact Dt]. intros p Hp. by apply elem_of_nil in Hp.
  - destruct DC as (Ds & Vp & DC). simpl par. rewrite focus_holds in F. cbn [plug] in F. rewrite <- focus_holds in F.
    destruct d; cbn [join] in F.
    + eapply returns_mono; [by eapply prop_node_ok|]. intros s' (F' & D' & S'). split; [|done].
      rewrite focus_holds. cbn [plug join]. by rewrite <- focus_holds.
    + eapply returns_mono; [by eapply prop_node_ok|]. intros s' (F' & D' & S'). split; [|done].
      rewrite focus_holds. cbn [plug join]. by rewrite <- focus_holds.
Qed.

Definition one_post (s : rb_store D) (C : list frame) (n : Z) (ch : tree) (r : rb_store D * Z * Z) : Prop :=
  let '(s', tmp, rebalance) := r in
  tmp = par C /\ focus s' C (blacken ch) /\ data s' = data s /\ settled C (blacken ch) rebalance /\
  stable (inorder ch ++ caddrs C) s s'.

Lemma erase_one_ok (s : rb_store D) d C c n ch :
  focus s C (join d c Leaf n ch) -> red_black (plug C (join d c Leaf n ch)) -> (d = R -> ch <> Leaf) ->
  returns (match d with L => erase_one s n (addr ch) 0 | R => erase_one s n 0 (addr ch) end) (one_post s C n ch).
Proof using.
  intros F RB Hd. destruct (cok_unplug _ _ RB) as (h & HC & Ht & Hb). rewrite color_join in Hb. destruct (removal_colors h C d c n ch HC Ht Hb) as [Hne He]. clear HC Ht Hb RB.
  destruct F as ((Hc & Hr) & Hn & HP). rewrite addr_join in Hc. apply rep_join in Hr as (Hm & _ & Hch).
  rewrite inorder_join in Hn, HP.
  assert (pn : ptr n) by (destruct d; forall_part). assert (pC : Forall ptr (caddrs C)) by (destruct d; forall_part).
  assert (pch : Forall ptr (inorder ch)) by (destruct d; forall_part).
  assert (Hn' : NoDup (n :: inorder ch ++ caddrs C)) by (destruct d; nodup_part). clear Hn HP.
  destruct (bits_parent (par C) c (par_ok C pC)) as (Ep & _ & Eb).
  destruct d; unfold erase_one.
  - cbn [Z.eqb]. cbv iota. rewrite (get_pc_ok _ _ _ _ _ _ pn Hm), bind_ret, Ep, Eb.
    destruct (change_child_ok s C n (addr ch) Hc) as (m & r & -> & Hc' & Hm'); [nodup_part|done..|]. rewrite bind_ret.
    assert (Hch' : rep m n ch) by carry Hm'.
    assert (Hl : ch = Leaf \/ ch <> Leaf) by (destruct ch; auto). destruct Hl as [->|Hl].
    + simpl. split; [done|]. split; [|split; [done|]; split; [by apply He|]].
      * split; [done|]. split; [nodup_part|forall_part].
      * split; [done|]. exact Hm'.
    + destruct (Hne Hl) as [-> HS].
      assert (Ea : addr ch <> 0) by (intros Ea; apply Hl; by apply addr_nil). rewrite (proj2 (Z.eqb_neq _ _) Ea). simpl negb. cbv iota.
      rewrite <- set_black_node by done.
      match goal with |- context [opt_set_black ?s1 _ _] => destruct (set_black_ok s1 n ch (par C)) as (m1 & -> & R1 & H1) end; [done|done|nodup_part|].
      rewrite bind_ret. split; [done|]. cbn [nodes set_nodes] in H1. split; [|split; [done|]; split; [done|]].
      * split; [split; [cbn [nodes root_node set_nodes]; destruct ch; [done|]; carry H1|done]|].
        rewrite inorder_blacken. split; [nodup_part|forall_part].
      * split; [done|]. intros q Hq. rewrite elem_of_app in Hq. cbn [nodes set_nodes]. rewrite H1 by tauto. apply Hm'. tauto.
  - specialize (Hd eq_refl). destruct (Hne Hd) as [-> HS].
    assert (Ea : addr ch <> 0) by (intros Ea; apply Hd; by apply addr_nil). rewrite (proj2 (Z.eqb_neq _ _) Ea).
    rewrite (get_pc_ok _ _ _ _ _ _ pn Hm), bind_ret, Ep. rewrite <- set_black_node by done.
    destruct (set_black_ok s n ch (par C)) as (m1 & -> & R1 & H1); [done|done|nodup_part|]. rewrite bind_ret.
    destruct (change_child_ok (set_nodes s m1) C n (addr ch)) as (m & r & -> & Hc' & Hm'); [cbn [nodes root_node set_nodes]; carry H1|nodup_part|done|done|].
    rewrite bind_ret. cbn [nodes set_nodes] in Hm'. split; [done|]. split; [|split; [done|]; split; [done|]].
    + split; [split; [destruct ch; done|]|].
      * eapply rep_ext; [|exact R1]. intros q Hq. rewrite inorder_blacken in Hq. apply cnt_elem in Hq. apply Hm'. distinct.
      * rewrite inorder_blacken. split; [nodup_part|forall_part].
    + split; [done|]. intros q Hq. rewrite elem_of_app in Hq. cbn [nodes]. rewrite Hm' by tauto. apply H1. tauto.
Qed.

(** The state after [erase_successor]: the successor [x], with color [cs], is
    out of the path [P] below it, and the node [n] still has its place. *)
Record unlinked (s : rb_store D) (C P : list frame) (c cs : color) (l ch : tree) (n x : Z) : Prop := {
  un_node : exists rr, nodes s !! n = Some (mk_node (bits (par C) c) rr (addr l));
  un_left : rep (nodes s) n l /\ l <> Leaf;
  un_ctx : crep (nodes s) (root_node s) C n;
  un_succ : exists pcx lx, nodes s !! x = Some (mk_node pcx (addr (plug P ch)) lx) /\ is_black_bits pcx = is_black cs;
  un_path : cpath (nodes s) P (addr ch) x /\ rep (nodes s) x ch;
  un_nodup : NoDup (n :: x :: inorder l ++ inorder ch ++ caddrs P ++ caddrs C);
  un_ptr : Forall ptr (n :: x :: inorder l ++ inorder ch ++ caddrs P ++ caddrs C)
}.

Definition replace_post (s : rb_store D) (P C3 : list frame) (l ch : tree) (x : Z) (C : list frame) (r : rb_store D * Z * Z) : Prop :=
  let '(s', tmp, rebalance) := r in
  tmp = x /\ focus s' C3 (blacken ch) /\ data s' = data s /\ settled C3 (blacken ch) rebalance /\
  stable (x :: inorder l ++ inorder ch ++ caddrs C) s s'.

Lemma erase_replace_ok (s : rb_store D) C P c cs l ch n x :
  let C3 := P ++ Fr R c x l :: C in
  unlinked s C P c cs l ch n x ->
  (ch <> Leaf -> cs = Black /\ settled C3 (blacken ch) 0) ->
  (ch = Leaf -> settled C3 Leaf (if is_black cs then par C3 else 0)) ->
  returns (erase_replace s n (par C3) x (addr ch)) (replace_post s P C3 l ch x C).
Proof using.
  intros C3 [(rr & Hn) (Hl & Ll) HC (pcx & lx & Hx & Ex) (HP & Hch) Hd Hp] Hne He.
  assert (pn : ptr n) by forall_part. assert (px : ptr x) by forall_part.
  assert (pl : Forall ptr (inorder l)) by forall_part. assert (pch : Forall ptr (inorder ch)) by forall_part.
  assert (pC : Forall ptr (caddrs C)) by forall_part. unfold erase_replace.
  change (mk_node (bits (par C) c) rr (addr l)) with (mkd L (bits (par C) c) (addr l) rr) in Hn.
  change (mk_node pcx (addr (plug P ch)) lx) with (mkd L pcx lx (addr (plug P ch))) in Hx.
  change get_left with (get_side (D := D) L). change set_left with (set_side (D := D) L).
  rewrite (get_side_ok _ _ _ _ _ _ pn Hn), bind_ret, (set_side_ok _ _ _ _ _ _ _ px Hx), bind_ret.
  rewrite <- set_parent_node by done.
  match goal with |- context [opt_set_parent ?s1 _ _] => destruct (set_parent_ok s1 n l x) as (m1 & -> & R1 & H1) end;
    [auto|cbn [nodes set_nodes]; rep_frame|done|nodup_part|]. rewrite bind_ret. cbn [nodes set_nodes] in H1.
  erewrite (get_pc_ok L); [|done|]. 2:{ cbn [nodes set_nodes]. rewrite H1 by distinct. mem_lookup. } rewrite bind_ret.
  destruct (bits_parent (par C) c (par_ok C pC)) as (-> & _ & _).
  match goal with |- context [change_child ?s1 _ _ _] => destruct (change_child_ok s1 C n x) as (m & r & -> & Hc' & Hm) end;
    [cbn [nodes root_node set_nodes]; carry H1|nodup_part|done|done|]. rewrite bind_ret.
  cbn [nodes set_nodes rb_leftmost data] in *.
  assert (Hx' : m !! x = Some (mkd L pcx (addr l) (addr (plug P ch)))).
  { rewrite Hm by distinct. rewrite H1 by distinct. mem_lookup. }
  assert (Hl' : rep m x l) by carry Hm.
  assert (HP' : cpath m P (addr ch) x).
  { eapply cpath_ext; [intros q Hq%cnt_elem; rewrite Hm by distinct; apply H1; distinct|]. apply cpath_insert; [distinct|done]. }
  assert (Hch' : rep m x ch).
  { eapply rep_ext; [intros q Hq%cnt_elem; rewrite Hm by distinct; apply H1; distinct|]. rep_frame. }
  assert (Fin : forall m2, m2 !! x = Some (mkd L (bits (par C) c) (addr l) (addr (plug P ch))) -> rep m2 x l -> crep m2 r C x ->
    cpath m2 P (addr ch) x -> rep m2 (par C3) (blacken ch) -> focus (mk_store m2 r (rb_leftmost s) (data s)) C3 (blacken ch)).
  { intros m2 F1 F2 F3 F4 F5. split; [split; [|exact F5]|].
    - cbn [nodes root_node]. unfold C3. apply crep_app. cbn [par]. rewrite addr_blacken. split; [done|]. apply crep_cons.
      rewrite <- topa_plug. split; [exact F1|]. split; done.
    - unfold C3. rewrite caddrs_app, inorder_blacken. split; [nodup_part|forall_part]. }
  assert (Out : forall q, q ∉ x :: inorder l ++ inorder ch ++ caddrs C -> m !! q = nodes s !! q).
  { intros q Hq. rewrite elem_of_cons, !elem_of_app in Hq. rewrite Hm, H1 by tauto. apply lookup_insert_ne. naive_solver. }
  assert (Hl0 : ch = Leaf \/ ch <> Leaf) by (destruct ch; auto). destruct Hl0 as [Ech|Hch0].
  - rewrite Ech. cbn [addr Z.eqb negb]. cbv iota. rewrite (get_pc_ok L (mk_store m r (rb_leftmost s) (data s)) _ _ _ _ px Hx'), bind_ret.
    rewrite (set_pc_ok L (mk_store m r (rb_leftmost s) (data s)) _ _ _ _ _ px Hx'), bind_ret. apply returns_ret. split; [done|].
    subst ch. split; [|split; [done|split; [rewrite Ex; by apply He|]]].
    + cbn [set_nodes root_node rb_leftmost data]. apply Fin; [mem_lookup|rep_frame|rep_frame| |done]. apply cpath_insert; [distinct|done].
    + split; [done|]. intros q Hq. cbn [nodes set_nodes]. rewrite lookup_insert_ne; [by apply Out|]. intros <-. apply Hq. left.
  - destruct (Hne Hch0) as [-> HS].
    assert (Ea : addr ch <> 0) by (intros Ea; apply Hch0; by apply addr_nil). rewrite (proj2 (Z.eqb_neq _ _) Ea). simpl negb. cbv iota.
    rewrite (set_pc_ok L (mk_store m r (rb_leftmost s) (data s)) _ _ _ _ _ px Hx'), bind_ret. unfold rb_set_parent_color. change (Z.lor (par C3) RB_BLACK) with (bits (par C3) Black).
    rewrite <- set_black_node by done.
    match goal with |- context [opt_set_black ?s1 _ _] => destruct (set_black_ok s1 x ch (par C3)) as (m2 & -> & R2 & H2) end;
      [cbn [nodes set_nodes]; rep_frame|done|nodup_part|]. rewrite bind_ret. apply returns_ret. split; [done|].
    cbn [set_nodes root_node rb_leftmost data nodes] in *. split; [|split; [done|split; [done|]]].
    + apply Fin; [rewrite H2 by distinct; mem_lookup|carry H2|carry H2| |done].
      eapply cpath_ext; [intros q Hq%cnt_elem; apply H2; distinct|]. apply cpath_insert; [distinct|done].
    + split; [done|]. intros q Hq. cbn [nodes set_nodes]. pose proof Hq as Hq'. rewrite elem_of_cons, !elem_of_app in Hq'.
      rewrite H2 by tauto. rewrite lookup_insert_ne by naive_solver. by apply Out.
Qed.

(** *** Finding the successor *)

Definition lefts (P : list frame) : Prop := Forall (fun F => match F with Fr d _ _ _ => d = L end) P.
Lemma leftmost_split r : r <> Leaf -> exists P cs x ch, r = plug P (Node cs Leaf x ch) /\ lefts P.
Proof using.
  enough (H : forall Q, r <> Leaf -> lefts Q -> exists P cs x ch, plug Q r = plug P (Node cs Leaf x ch) /\ lefts P).
  { intros Hr. apply (H [] Hr). constructor. }
  induction r as [|c l IHl x r _]; intros Q Hr HQ; [done|]. destruct l as [|cl ll xl rl]; [eauto 6|].
  apply (IHl (Fr L c x r :: Q)); [done|]. by constructor.
Qed.

Definition succ_inv (s : rb_store D) (P : list frame) (N : tree) (Q : list frame) (st : Z * Z * Z) : Prop :=
  exists q0 succ q c sib P2, st = (q0, succ, addr (plug Q N)) /\ P = Q ++ Fr L c succ sib :: P2 /\
    rep (nodes s) q (plug Q N) /\ Forall ptr (inorder (plug Q N)).

Lemma successor_ok (s : rb_store D) P cs x ch q c1 p1 s1 P2 :
  let N := Node cs Leaf x ch in
  P = Fr L c1 p1 s1 :: P2 -> lefts P -> rep (nodes s) q (plug P N) -> Forall ptr (inorder (plug P N)) ->
  (length P < rb_fuel s)%nat ->
  exists t0, get_left s (addr (plug P N)) = Ret t0 /\ t0 <> 0 /\
    returns (loop (rb_fuel s) (successor_turn s) (0, addr (plug P N), t0)) (fun r => r = (p1, x)).
Proof using.
  intros N EP HL Hr HPt Hf. destruct (exists_last (l := P)) as (Q & [d c p sib] & E); [by rewrite EP|].
  assert (d = L) by (rewrite E in HL; unfold lefts in HL; rewrite Forall_app in HL; destruct HL as [_ HL]; by inversion HL). subst d.
  rewrite E in Hr, HPt, Hf |- *.
  rewrite plug_app in *. cbn [plug join] in *. destruct Hr as (Hp & Hr & Hs).
  assert (pp : ptr p) by forall_part. exists (addr (plug Q N)). cbn [addr].
  assert (HQ : Forall ptr (inorder (plug Q N))) by forall_part.
  assert (Hnz : forall Q', Forall ptr (inorder (plug Q' N)) -> addr (plug Q' N) <> 0).
  { intros Q' H' E0. apply addr_nil in E0; [|done]. apply (f_equal (fun t => length (inorder t))) in E0.
    rewrite plug_perm, length_app in E0. simpl in E0. lia. }
  split; [change get_left with (get_side (D := D) L); eapply get_side_ok; [done|exact Hp]|]. split; [by apply Hnz|].
  apply (loop_returns_ix (succ_inv s P N) length) with (i := Q).
  - exists 0, p, p, c, sib, []. done.
  - rewrite length_app in Hf. simpl in Hf. lia.
  - clear -Hnz EP HL. intros Q st (q0 & succ & q & c & sib & P2' & -> & E & Hr & HPt).
    unfold successor_turn. destruct Q as [|F Q _] using rev_ind.
    + unfold N in *. simpl plug in *. destruct Hr as (Hx & _ & _). assert (ptr x) by forall_part. cbn [addr].
      change get_left with (get_side (D := D) L). rewrite (get_side_ok L s x (bits q cs) 0 (addr ch)); [|done|exact Hx]. rewrite bind_ret. simpl.
      rewrite EP in E. simpl in E. congruence.
    + destruct F as [d c' p' sib'].
      assert (d = L) by (rewrite E in HL; unfold lefts in HL; rewrite !Forall_app in HL; destruct HL as [[_ HL] _]; by inversion HL). subst d.
      rewrite plug_app in *. cbn [plug join addr] in *. destruct Hr as (Hp & Hr & Hs). assert (ptr p') by forall_part.
      change get_left with (get_side (D := D) L). rewrite (get_side_ok L s p' (bits q c') (addr (plug Q N)) (addr sib')) by done. rewrite bind_ret.
      assert (HQ : Forall ptr (inorder (plug Q N))) by forall_part.
      rewrite (proj2 (Z.eqb_neq _ _) (Hnz Q HQ)). simpl negb. cbv iota. apply returns_ret. exists Q. split; [|rewrite length_app; simpl; lia].
      exists succ, p', p', c', sib', (Fr L c succ sib :: P2'). split; [done|]. split; [|done]. by rewrite E, <- app_assoc.
Qed.

Definition successor_post (s : rb_store D) (C P : list frame) (c cs : color) (l ch : tree) (n x : Z)
    (r : rb_store D * Z * Z * Z) : Prop :=
  let '(s', parent, successor, child2) := r in
  parent = parq P x /\ successor = x /\ child2 = addr ch /\ unlinked s' C P c cs l ch n x /\
  dok val (data s') l /\ dok val (data s') (plug P ch) /\
  val (data s') x (inorder (Node c l n (plug P (Node cs Leaf x ch)))) /\
  cdok val (data s') C (inorder (Node c l n (plug P (Node cs Leaf x ch)))) /\
  stable (inorder (plug P (Node cs Leaf x ch))) s s'.

(** Case 2. *)
Lemma successor_child_ok (s : rb_store D) C c cs l ch n x :
  let r := Node cs Leaf x ch in
  focus s C (Node c l n r) -> l <> Leaf -> dok val (data s) (plug C (Node c l n r)) ->
  returns (erase_successor cb s n x) (successor_post s C [] c cs l ch n x).
Proof using AugmentLaws0.
  intros r ((HC & Hn & Hl & Hx & _ & Hch) & Hd & HP) Ll Dk. apply dok_plug in Dk as (DC & Dl & Vn & _ & Vx & Dch).
  unfold r in *. assert (pn : ptr n) by forall_part. assert (px : ptr x) by forall_part. unfold erase_successor.
  change (mk_node (bits n cs) (addr ch) (addr Leaf)) with (mkd L (bits n cs) 0 (addr ch)) in Hx.
  change get_left with (get_side (D := D) L). rewrite (get_side_ok _ _ _ _ _ _ px Hx), bind_ret. cbn [Z.eqb]. cbv iota.
  change get_right with (get_side (D := D) (flip L)). rewrite (get_flip_ok _ _ _ _ _ _ px Hx), bind_ret.
  assert (Hd' : NoDup (n :: x :: inorder l ++ inorder ch ++ caddrs [] ++ caddrs C)) by (unfold r in Hd; nodup_part).
  assert (HP' : Forall ptr (n :: x :: inorder l ++ inorder ch ++ caddrs [] ++ caddrs C)) by (unfold r in HP; forall_part).
  eapply callback_bind; [by eapply (copy_ok val)|]. intros d (V & Hs). apply returns_ret. split; [done|]. split; [done|]. split; [done|].
  split; [|cbn [data set_data]; split; [|split; [|split; [exact V|split; [|done]]]]].
  - split; [eauto|done|done| |done|done|done]. exists (bits n cs), 0. split; [done|].
    by destruct (bits_parent n cs) as (_ & _ & ->); auto.
  - apply (dok_same val [x] (data s)); [done| |done]. intros q Hq%list_elem_of_singleton. subst q. distinct.
  - simpl plug. apply (dok_same val [x] (data s)); [done| |done]. intros q Hq%list_elem_of_singleton. subst q. distinct.
  - apply (cdok_same val [x] (data s)); [done| |done]. intros q Hq%list_elem_of_singleton. subst q. distinct.
Qed.

Lemma topa_any P a a' : P <> [] -> topa P a = topa P a'.
Proof using. destruct P as [|[d c p sib] P]; done. Qed.

(** The links of case 3. *)
Lemma unlink_ok (s : rb_store D) C P c cs l ch n x c1 p1 s1 P2 :
  P = Fr L c1 p1 s1 :: P2 ->
  let r := plug P (Node cs Leaf x ch) in
  focus s C (Node c l n r) -> lefts P -> l <> Leaf ->
  exists m, (s ← set_left s p1 (addr ch); s ← set_right s x (addr r); rb_set_parent s (addr r) x) = Ret (set_nodes s m) /\
    unlinked (set_nodes s m) C P c cs l ch n x /\ (forall q, q ∉ inorder r -> m !! q = nodes s !! q).
Proof using.
  intros EP r ((HC & Hn & Hl & Hr) & Hd & HP) HL Ll. assert (NP : P <> []) by (by rewrite EP). cbn [inorder] in Hd, HP. unfold r in Hd, HP. rewrite plug_perm in Hd, HP.
  cbn [inorder app] in Hd, HP. pose proof (proj1 (rep_cpath _ _ _ _) Hr) as (Hp & Hx & _ & Hch).
  assert (pn : ptr n) by forall_part. assert (px : ptr x) by forall_part. assert (pp : ptr p1) by (rewrite EP in HP; forall_part).
  assert (EN : addr r = topa P x) by (unfold r; by rewrite topa_plug).
  assert (pP : Forall ptr (caddrs P)) by forall_part.
  change (mk_node (bits (parq P n) cs) (addr ch) (addr Leaf)) with (mkd L (bits (parq P n) cs) 0 (addr ch)) in Hx.
  assert (HdP : NoDup (n :: x :: inorder l ++ inorder ch ++ caddrs P ++ caddrs C)) by nodup_part.
  destruct (cpath_hole_ok s L c1 p1 s1 P2 x (addr ch) n) as (m1 & E1 & Hp1 & H1); [by rewrite EP in Hp|rewrite <- EP; nodup_part|done|].
  change set_left with (set_side (D := D) L). rewrite E1, bind_ret. change set_right with (set_side (D := D) (flip L)).
  rewrite <- EP in Hp1, H1. erewrite (set_flip_ok L); [|done|]. 2:{ cbn [nodes set_nodes]. rewrite H1 by distinct. exact Hx. }
  rewrite bind_ret, EN. rewrite (topa_any P x (addr ch)) by done.
  match goal with |- context [rb_set_parent ?s1 _ _] => destruct (cpath_parent_ok s1 P (addr ch) n x) as (m2 & E2 & Hp2 & H2) end;
    [done|cbn [nodes set_nodes]; apply cpath_insert; [distinct|exact Hp1]|nodup_part|done|auto|].
  rewrite E2. eexists. split; [reflexivity|]. cbn [nodes set_nodes] in *.
  assert (Out : forall q, q <> x -> q ∉ caddrs P -> m2 !! q = nodes s !! q).
  { intros q Hq1 Hq2. rewrite H2 by done. rewrite lookup_insert_ne by congruence. by apply H1. }
  split.
  - split; [| | |exists (bits (parq P n) cs), 0| |done|forall_part]; cbn [nodes root_node set_nodes].
    + rewrite Out by distinct. eauto.
    + split; [|done]. eapply rep_ext; [|exact Hl]. intros q Hq%cnt_elem. apply Out; distinct.
    + eapply crep_ext; [|exact HC]. intros q Hq%cnt_elem. apply Out; distinct.
    + rewrite H2 by distinct. rewrite lookup_insert_eq. split.
      * by rewrite topa_plug.
      * destruct (bits_parent (parq P n) cs) as (_ & _ & ->); [apply parq_ok; auto|done].
    + split; [exact Hp2|]. eapply rep_ext; [|exact Hch]. intros q Hq%cnt_elem. apply Out; distinct.
  - intros q Hq. unfold r in Hq. rewrite plug_perm in Hq. cbn [inorder app] in Hq. rewrite elem_of_cons, elem_of_app in Hq.
    apply Out; tauto.
Qed.

(** Case 3. *)
Lemma successor_below_ok (s : rb_store D) C P c cs l ch n x c1 p1 s1 P2 :
  P = Fr L c1 p1 s1 :: P2 ->
  focus s C (Node c l n (plug P (Node cs Leaf x ch))) -> lefts P -> l <> Leaf -> dok val (data s) (plug C (Node c l n (plug P (Node cs Leaf x ch)))) ->
  returns (erase_successor cb s n (addr (plug P (Node cs Leaf x ch)))) (successor_post s C P c cs l ch n x).
Proof using AugmentLaws0.
  intros EP F HL Ll Dk. destruct (unlink_ok s C P c cs l ch n x c1 p1 s1 P2 EP F HL Ll) as (m & E & Un & Out).
  pose proof (focus_size _ _ _ F) as Hf. apply dok_plug in Dk as (DC & Dl & Vn & Dr). apply dok_plug in Dr as (DP & _ & Vx & Dch).
  destruct F as ((_ & _ & _ & Hr) & Hd & HP). cbn [inorder] in Hd, HP, Hf.
  assert (Hlen : (length P < rb_fuel s /\ length P2 < size (nodes s))%nat).
  { unfold rb_fuel. rewrite length_app in Hf. cbn [length] in Hf. rewrite plug_perm, length_app in Hf.
    pose proof (length_caddrs P). rewrite EP in *. simpl in *. lia. }
  assert (pr : Forall ptr (inorder (plug P (Node cs Leaf x ch)))) by forall_part.
  destruct (successor_ok s P cs x ch n c1 p1 s1 P2 EP HL Hr pr (proj1 Hlen)) as (t0 & E0 & N0 & Hloop).
  unfold erase_successor. rewrite E0, bind_ret. rewrite (proj2 (Z.eqb_neq _ _) N0).
  eapply returns_bind; [exact Hloop|]. intros _ ->. cbv iota.
  apply rep_cpath in Hr as (_ & Hx & _). rewrite plug_perm in Hd, HP. cbn [inorder app] in Hd, HP.
  assert (pn : ptr n) by forall_part. assert (px : ptr x) by forall_part.
  change get_right with (get_side (D := D) (flip L)). rewrite (get_flip_ok L s x (bits (parq P n) cs) 0 (addr ch) px Hx), bind_ret.
  assert (E' : forall k : rb_store D -> outcome (rb_store D * Z * Z * Z),
    (s ← set_left s p1 (addr ch); s ← set_right s x (addr (plug P (Node cs Leaf x ch))); s ← rb_set_parent s (addr (plug P (Node cs Leaf x ch))) x; k s) = k (set_nodes s m)).
  { intros k. change (k (set_nodes s m)) with (Ret (set_nodes s m) ≫= k). rewrite <- E.
    unfold mbind, outcome_bind. destruct (set_left s p1 (addr ch)) as [s0| | |]; try reflexivity.
    destruct (set_right s0 x (addr (plug P (Node cs Leaf x ch)))); reflexivity. }
  rewrite E'. clear E E'. eapply callback_bind; [eapply (copy_ok val); cbn [data set_nodes]; [done|done|exact Vn|exact Vx]|].
  intros d (V1 & Hs1). cbn [data set_nodes] in Hs1.
  assert (Hx1 : forall A : list Z, x ∉ A -> forall q, q ∈ [x] -> q ∉ A) by (intros A HA q Hq%list_elem_of_singleton; by subst).
  apply (dok_same val _ _ _ _ Hs1) in Dl, Dch; [|apply Hx1; distinct..].
  apply (cdok_same val _ _ _ _ _ Hs1) in DC, DP; [|apply Hx1; distinct..].
  destruct Un as [U1 U2 U3 U4 [U5 U6] U7 U8]. assert (UN : unlinked (set_nodes s m) C P c cs l ch n x) by done.
  pose proof U5 as Hp. rewrite EP in Hp, DP. destruct Hp as (Hp1 & _ & Hp2). destruct DP as (Ds1 & Vp1 & DP2).
  rewrite EP in Hd, HP. cbn [nodes set_nodes] in Hp1, Hp2. assert (pp : ptr p1) by forall_part.
  assert (pP2 : Forall ptr (caddrs P2)) by forall_part.
  assert (Hsz : (length P <= size m)%nat) by (eapply cpath_size; [exact U5|nodup_part]). rewrite EP in Hsz. cbn [length] in Hsz.
  eapply callback_bind.
  { eapply (propagate_ok val) with (ta := ch) (tb := s1) (C := P2); cbn [nodes data set_nodes set_data];
      [exact Hp1|done|done| | |lia|nodup_part|forall_part|done|done|exact Vp1|exact DP2].
    - cbn [mkd rb_parent_color]. destruct (bits_parent (parq P2 x) c1) as (-> & _ & _); [apply parq_ok; auto|by destruct P2].
    - apply cpath_path; auto. }
  intros e (E1 & E2 & E3 & E4 & Hs2). cbn [data set_data set_nodes] in Hs2. apply returns_ret.
  assert (Hx2 : forall A : list Z, NoDup (p1 :: A ++ caddrs P2) -> forall q, q ∈ p1 :: caddrs P2 -> q ∉ A).
  { clear Hd. intros A HA q [->|Hq%cnt_elem]%elem_of_cons; distinct. }
  split; [by rewrite EP|]. split; [done|]. split; [done|]. split; [done|]. cbn [data set_data]. split; [|split; [|split; [|split; [|done]]]].
  - apply (dok_same val _ _ _ _ Hs2); [|done]. apply Hx2. nodup_part.
  - apply dok_plug. split; [|done]. rewrite EP. done.
  - apply Hs2; [|exact V1]. rewrite not_elem_of_cons. split; distinct.
  - apply (cdok_same val _ _ _ _ _ Hs2); [|done]. apply Hx2. nodup_part.
Qed.

(** ** The whole of [__rb_erase_augmented], but for [leftmost] *)

Definition erased (s : rb_store D) (X K : list Z) (r : rb_store D * Z) : Prop :=
  let '(s', rebalance) := r in
  exists C t, focus s' C t /\ cwrap C (inorder t) = K /\ dok val (data s') (plug C t) /\ settled C t rebalance /\ stable X s s'.
Definition erase_body (s : rb_store D) (node child tmp : Z) : outcome (rb_store D * Z) :=
  '(s, tmp, rebalance) ←
    (if (tmp =? 0) || (child =? 0) then erase_one s node child tmp
     else
       '(s, parent, successor, child2) ← erase_successor cb s node child;
       erase_replace s node parent successor child2);
  s ← call (propagate cb) s tmp 0;
  Ret (s, rebalance).
Lemma erase_augmented_body (s : rb_store D) node cached :
  erase_augmented cb s node cached =
    (child ← get_right s node; tmp ← get_left s node;
     s ← (if cached && (node =? rb_leftmost s) then n ← rb_next s node; Ret (set_leftmost s n) else Ret s);
     erase_body s node child tmp).
Proof using. done. Qed.

Lemma dok_blacken d t : dok val d (blacken t) <-> dok val d t.
Proof using. by destruct t. Qed.

Lemma erase_one_body (s : rb_store D) d C c n ch :
  focus s C (join d c Leaf n ch) -> red_black (plug C (join d c Leaf n ch)) -> (d = R -> ch <> Leaf) ->
  dok val (data s) (plug C (join d c Leaf n ch)) ->
  returns ('(s, tmp, rebalance) ← match d with L => erase_one s n (addr ch) 0 | R => erase_one s n 0 (addr ch) end;
           s ← call (propagate cb) s tmp 0; Ret (s, rebalance))
    (erased s (inorder (plug C (join d c Leaf n ch))) (cwrap C (inorder ch))).
Proof using AugmentLaws0.
  intros F RB Hd Dk. apply dok_plug in Dk as (DC & Dk). apply dok_join in Dk as (_ & _ & Dch).
  eapply returns_bind; [by eapply (erase_one_ok s d C c n ch)|]. intros [[s1 tmp] reb] (-> & F1 & E1 & St & S1).
  eapply returns_bind; [eapply (prop_up_ok s1 C (blacken ch)); [done| |]|].
  - by rewrite E1, dok_blacken.
  - rewrite E1. exact DC.
  - intros s2 (F2 & D2 & S2). apply returns_ret. exists C, (blacken ch). split; [done|]. split; [by rewrite inorder_blacken|].
    split; [done|]. split; [done|]. eapply stable_trans; [|eapply stable_mono; [|exact S2]]; [|set_solver].
    eapply stable_mono; [|exact S1]. intros q Hq. rewrite plug_perm, inorder_join, wrap_perm. set_solver.
Qed.

Lemma erase_two_body (s : rb_store D) C c l n r :
  focus s C (Node c l n r) -> red_black (plug C (Node c l n r)) -> l <> Leaf -> r <> Leaf ->
  dok val (data s) (plug C (Node c l n r)) ->
  returns ('(s, tmp, rebalance) ← ('(s, parent, successor, child2) ← erase_successor cb s n (addr r);
                                   erase_replace s n parent successor child2);
           s ← call (propagate cb) s tmp 0; Ret (s, rebalance))
    (erased s (inorder (plug C (Node c l n r))) (cwrap C (inorder l ++ inorder r))).
Proof using AugmentLaws0.
  intros F RB Ll Lr Dk. destruct (leftmost_split r Lr) as (P & cs & x & ch & -> & HL).
  set (C3 := P ++ Fr R c x l :: C). set (T := inorder (plug C (Node c l n (plug P (Node cs Leaf x ch))))).
  assert (HS : (ch <> Leaf -> cs = Black /\ settled C3 (blacken ch) 0) /\ (ch = Leaf -> settled C3 Leaf (if is_black cs then par C3 else 0))).
  { assert (RB' : red_black (plug (P ++ Fr R c n l :: C) (Node cs Leaf x ch))) by (by rewrite plug_app).
    destruct (cok_unplug _ _ RB') as (h & HC & Ht & Hb). apply cok_subst with (n' := x) in HC. fold C3 in HC.
    apply (removal_colors h C3 L cs x ch); [done|done|]. destruct Hb as [Hb|Hb]; [by left|right].
    unfold C3. by destruct P as [|[? ? ? ?] ?]. }
  destruct HS as [Hne He].
  assert (H1 : returns (erase_successor cb s n (addr (plug P (Node cs Leaf x ch)))) (successor_post s C P c cs l ch n x)).
  { destruct P as [|[d c1 p1 s1] P2]; [by apply successor_child_ok|]. assert (d = L) by (inversion HL; done). subst d.
    by eapply successor_below_ok. }
  rewrite bind_assoc. eapply returns_bind; [exact H1|]. intros [[[s1 parent] successor] child2].
  intros (-> & -> & -> & Un & Dl & DP & Vx & DC & S1).
  replace (parq P x) with (par C3) by (unfold C3; by rewrite par_app).
  eapply returns_bind; [by apply (erase_replace_ok s1 C P c cs l ch n x)|]. intros [[s2 tmp] reb] (-> & F2 & E2 & St & S2).
  assert (F2' : focus s2 C (Node c l x (plug P (blacken ch)))).
  { apply focus_holds in F2. unfold C3 in F2. rewrite plug_app in F2. by apply focus_holds. }
  eapply returns_bind; [eapply (prop_node_ok s2 C x c l (plug P (blacken ch))); [done|..]; rewrite E2; [done| |exact Vx|exact DC]|].
  { apply dok_plug. rewrite dok_blacken, inorder_blacken. by apply dok_plug. }
  intros s3 (F3 & D3 & S3). apply returns_ret. exists C3, (blacken ch).
  assert (EP : plug C3 (blacken ch) = plug C (Node c l x (plug P (blacken ch)))) by (unfold C3; by rewrite plug_app).
  assert (F3' : focus s3 C3 (blacken ch)) by (apply focus_holds; rewrite EP; by apply focus_holds).
  split; [done|]. split; [|split; [by rewrite EP|split; [done|]]].
  - rewrite <- inorder_plug, EP, inorder_plug. cbn [inorder]. f_equal. f_equal.
    assert (Eps : forall K, cwrap P (x :: K) = x :: cwrap P K).
    { clear -HL. intros K. revert K. induction HL as [|[d c p sib] P Hd _ IH]; intros K; simpl; [done|]. subst d. simpl. by rewrite IH. }
    rewrite !inorder_plug, inorder_blacken. cbn [inorder app]. by rewrite Eps.
  - assert (Xs : forall q, q ∈ x :: inorder l ++ inorder ch ++ caddrs P ++ caddrs C -> q ∈ T).
    { intros q Hq. unfold T. rewrite plug_perm. cbn [inorder]. rewrite plug_perm. cbn [inorder app]. set_solver. }
    eapply stable_trans; [eapply stable_mono; [|exact S1]|]; [intros q Hq; apply Xs; rewrite plug_perm in Hq; cbn [inorder app] in Hq; set_solver|].
    eapply stable_trans; [eapply stable_mono; [|exact S2]|eapply stable_mono; [|exact S3]]; [intros q Hq; apply Xs; set_solver|set_solver].
Qed.

Lemma erase_body_ok (s : rb_store D) C c l n r :
  focus s C (Node c l n r) -> red_black (plug C (Node c l n r)) -> dok val (data s) (plug C (Node c l n r)) ->
  returns (erase_body s n (addr r) (addr l)) (erased s (inorder (plug C (Node c l n r))) (cwrap C (inorder l ++ inorder r))).
Proof using AugmentLaws0.
  intros F RB Dk. assert (HP : Forall ptr (inorder l) /\ Forall ptr (inorder r)) by (destruct F as (_ & _ & HP); split; forall_part).
  destruct HP as [pl pr]. assert (nz : forall t, Forall ptr (inorder t) -> t <> Leaf -> (addr t =? 0) = false).
  { intros t Ht Hn. apply Z.eqb_neq. intros E. apply Hn. by apply addr_nil. }
  unfold erase_body. assert (Hl : l = Leaf \/ l <> Leaf) by (destruct l; auto). destruct Hl as [->|Hl].
  - by apply (erase_one_body s L C c n r).
  - rewrite (nz l) by done. assert (Hr : r = Leaf \/ r <> Leaf) by (destruct r; auto). destruct Hr as [->|Hr].
    + cbn [inorder]. rewrite app_nil_r. by apply (erase_one_body s R C c n l).
    + rewrite (nz r) by done. by apply erase_two_body.
Qed.

End erase.
