(* ===== verification/RbtreeColor.v ===== *)
(** * Rebalancing after a removal

    The loop of [____rb_erase_color]: the paths through the hole lack one black
    node; a turn recolors the sibling and moves up, or rotates and stops. *)

From stdpp Require Import base numbers list option gmap.
From Stdlib Require Import ZArith Lia.
From S2P Require Import Prelude Rbtree RbtreeFacts RbtreeInsert.

Section color.
Context {D : Type} (val : D -> Z -> list Z -> Prop) (cb : rb_augment_callbacks D) `{!AugmentLaws val cb}.

(** ** The branches for a node on side [d] *)

Definition color_red (d : side) (s : rb_store D) (parent sibling : Z) : outcome (rb_store D * Z) :=
  red ← rb_is_red s sibling;
  if (red : bool) then
    tmp1 ← get_side d s sibling;
    s ← set_side (flip d) s parent tmp1;
    s ← set_side d s sibling parent;
    s ← rb_set_parent_color s tmp1 parent RB_BLACK;
    s ← rotate_set_parents s parent sibling RB_RED;
    s ← call (rotate cb) s parent sibling;
    Ret (s, tmp1)
  else Ret (s, sibling).
Definition color_inner (d : side) (s : rb_store D) (parent sibling tmp2 : Z) : outcome (rb_store D) :=
  tmp1 ← get_side (flip d) s tmp2;
  s ← set_side d s sibling tmp1;
  s ← set_side (flip d) s tmp2 sibling;
  s ← set_side (flip d) s parent tmp2;
  s ← opt_set_black s tmp1 sibling;
  call (rotate cb) s sibling tmp2.
Definition color_outer (d : side) (s : rb_store D) (parent sibling tmp1 : Z) : outcome (rb_store D) :=
  tmp2 ← get_side d s sibling;
  s ← set_side (flip d) s parent tmp2;
  s ← set_side d s sibling parent;
  s ← rb_set_parent_color s tmp1 sibling RB_BLACK;
  s ← opt_set_parent s tmp2 parent;
  s ← rotate_set_parents s parent sibling RB_BLACK;
  call (rotate cb) s parent sibling.
Definition color_rest (d : side) (s : rb_store D) (parent sibling : Z) : outcome (rb_store D * Z * Z + rb_store D) :=
  tmp1 ← get_side (flip d) s sibling;
  b1 ← or_black s tmp1;
  if (b1 : bool) then
    tmp2 ← get_side d s sibling;
    b2 ← or_black s tmp2;
    if (b2 : bool) then color_flip s parent sibling
    else
      s ← color_inner d s parent sibling tmp2;
      s ← color_outer d s parent tmp2 sibling; Ret (inr s)
  else s ← color_outer d s parent sibling tmp1; Ret (inr s).
Definition color_side (d : side) (s : rb_store D) (parent sibling : Z) : outcome (rb_store D * Z * Z + rb_store D) :=
  '(s, sibling) ← color_red d s parent sibling;
  color_rest d s parent sibling.
Lemma color_sides : color_left (rotate cb) = color_side L /\ color_right (rotate cb) = color_side R.
Proof using. done. Qed.

(** Case 4. *)
Lemma color_outer_ok (s : rb_store D) d C c p q t sn sf old pcq qn qf K1 :
  nodes s !! p = Some (mkd d (bits (par C) c) (addr t) old) ->
  nodes s !! q = Some (mkd d pcq (addr sn) (addr sf)) ->
  rep (nodes s) p t -> rep (nodes s) qn sn -> rep (nodes s) qf sf -> crep (nodes s) (root_node s) C p ->
  qn = 0 \/ ptr qn -> sf <> Leaf ->
  NoDup (p :: q :: inorder t ++ inorder sn ++ inorder sf ++ caddrs C) ->
  Forall ptr (p :: q :: inorder t ++ inorder sn ++ inorder sf ++ caddrs C) ->
  let u := join d c (join d Black t p sn) q (blacken sf) in
  dok val (data s) t -> dok val (data s) sn -> dok val (data s) sf ->
  val (data s) p (inorder u) -> val (data s) q K1 -> cdok val (data s) C (inorder u) ->
  returns (color_outer d s p q (addr sf))
    (fun s' => focus s' C u /\ dok val (data s') (plug C u) /\ stable (inorder (plug C u)) s s').
Proof using AugmentLaws0.
  intros Hp Hq Ht Hsn Hsf HC Hqn Lf Hn HP u Dt Dn Df Vp Vq DC. unfold color_outer.
  assert (pp : ptr p) by forall_part. assert (pq : ptr q) by forall_part. assert (psf : Forall ptr (inorder sf)) by forall_part.
  assert (psn : Forall ptr (inorder sn)) by forall_part.
  rewrite (get_side_ok _ _ _ _ _ _ pq Hq), bind_ret, (set_flip_ok _ _ _ _ _ _ _ pp Hp), bind_ret.
  erewrite set_side_ok by first [eassumption|mem_lookup]. rewrite bind_ret. cbn [nodes set_nodes].
  unfold rb_set_parent_color. change (Z.lor q RB_BLACK) with (bits q Black). rewrite <- set_black_node by done.
  match goal with |- context [opt_set_black ?s1 _ _] => destruct (set_black_ok s1 qf sf q) as (m1 & -> & R1 & H1) end;
    [cbn [nodes set_nodes]; rep_frame|done|nodup_part|]. rewrite bind_ret. cbn [nodes set_nodes] in H1.
  match goal with |- context [opt_set_parent ?s1 _ _] => destruct (set_parent_ok s1 qn sn p) as (m2 & -> & R2 & H2) end;
    [done|cbn [nodes set_nodes]; carry H1|done|nodup_part|]. rewrite bind_ret. cbn [nodes set_nodes] in H2.
  eapply returns_mono; [eapply (rotate_top_ok val cb _ d C p q c Black t sn (blacken sf) pcq K1); cbn [nodes root_node data set_nodes]; fold u|].
  - rewrite H2 by distinct. rewrite H1 by distinct. mem_lookup.
  - rewrite addr_blacken. rewrite H2 by distinct. rewrite H1 by distinct. mem_lookup.
  - eapply rep_ext; [intros z Hz%cnt_elem; rewrite H2 by distinct; apply H1; distinct|]. rep_frame.
  - done.
  - eapply rep_ext; [|exact R1]. intros z Hz. rewrite inorder_blacken in Hz. apply cnt_elem in Hz. apply H2; distinct.
  - eapply crep_ext; [intros z Hz%cnt_elem; rewrite H2 by distinct; apply H1; distinct|]. rep_frame.
  - rewrite inorder_blacken. nodup_part.
  - rewrite inorder_blacken. forall_part.
  - done.
  - done.
  - by destruct sf.
  - exact Vp.
  - exact Vq.
  - exact DC.
  - intros s' (F & Dk & S). split; [done|]. split; [done|]. split; [apply S|]. intros z Hz.
    rewrite plug_perm in Hz. unfold u in Hz. rewrite inorder_join, wrap_perm, inorder_join, wrap_perm, inorder_blacken in Hz.
    rewrite (proj2 S) by set_solver. cbn [nodes set_nodes]. rewrite H2, H1 by set_solver. by rewrite !lookup_insert_ne by set_solver.
Qed.

(** Case 1: afterwards the sibling is black and the parent red. *)
Lemma color_red_ok (s : rb_store D) d C p q t sn sf :
  let T := join d Black t p (join d Red sn q sf) in
  focus s C T -> sn <> Leaf -> root_color sn = Black -> dok val (data s) (plug C T) ->
  returns (color_red d s p q) (fun r => exists s', r = (s', addr sn) /\
    focus s' C (join d Black (join d Red t p sn) q sf) /\ dok val (data s') (plug C (join d Black (join d Red t p sn) q sf)) /\
    stable (inorder (plug C T)) s s').
Proof using AugmentLaws0.
  intros T F Ln Bn Dk. apply dok_plug in Dk as (DC & Dk). unfold T in Dk. apply dok_join in Dk as (Dt & Vp & Ds).
  pose proof Ds as Ds'. apply dok_join in Ds' as (Dn & Vq & Df). destruct F as ((HC & Hr) & Hn & HP). unfold T in HC, Hr.
  rewrite addr_join in HC. apply rep_join in Hr as (Hp & Ht & Hs). apply rep_join in Hs as (Hq & Hsn & Hsf). rewrite addr_join in Hp.
  assert (EK : inorder T = inorder (join d Black (join d Red t p sn) q sf)) by (unfold T; destruct d; by flat).
  assert (Hn' : NoDup (p :: q :: inorder t ++ inorder sn ++ inorder sf ++ caddrs C)) by (unfold T in Hn; destruct d; nodup_part).
  assert (HP' : Forall ptr (p :: q :: inorder t ++ inorder sn ++ inorder sf ++ caddrs C)) by (unfold T in HP; destruct d; forall_part).
  clear Hn HP. rename Hn' into Hn. rename HP' into HP.
  assert (pp : ptr p) by forall_part. assert (pq : ptr q) by forall_part. assert (psn : Forall ptr (inorder sn)) by forall_part.
  unfold color_red. unfold rb_is_red, rb_is_black. rewrite (get_pc_ok _ _ _ _ _ _ pq Hq), !bind_ret.
  destruct (bits_parent p Red) as (_ & _ & ->); [auto|]. cbn [is_black negb]. cbv iota.
  rewrite (get_side_ok _ _ _ _ _ _ pq Hq), bind_ret, (set_flip_ok _ _ _ _ _ _ _ pp Hp), bind_ret.
  erewrite set_side_ok by first [eassumption|mem_lookup]. rewrite bind_ret. cbn [nodes set_nodes].
  unfold rb_set_parent_color. change (Z.lor p RB_BLACK) with (bits p Black). rewrite <- set_black_node by done.
  match goal with |- context [opt_set_black ?s1 _ _] => destruct (set_black_ok s1 q sn p) as (m1 & -> & R1 & H1) end;
    [cbn [nodes set_nodes]; rep_frame|done|nodup_part|]. rewrite bind_ret, <- bind_assoc. rewrite blacken_id in R1 by done. cbn [nodes set_nodes] in H1.
  eapply returns_bind; [eapply (rotate_top_ok val cb _ d C p q Black Red t sn sf (bits p Red) _); cbn [nodes root_node data set_nodes]|].
  - rewrite H1 by distinct. mem_lookup.
  - rewrite H1 by distinct. mem_lookup.
  - carry H1.
  - done.
  - carry H1.
  - carry H1.
  - done.
  - done.
  - done.
  - done.
  - done.
  - rewrite <- EK. unfold T. rewrite inorder_join. exact Vp.
  - exact Vq.
  - by rewrite <- EK.
  - intros s' (F & Dk & S). apply returns_ret. exists s'. split; [done|]. split; [done|]. split; [done|]. split; [apply S|]. intros z Hz.
    rewrite plug_perm, EK, inorder_join, wrap_perm, inorder_join, wrap_perm in Hz.
    rewrite (proj2 S) by set_solver. cbn [nodes set_nodes]. rewrite H1 by set_solver. by rewrite !lookup_insert_ne by set_solver.
Qed.

(** Case 3 leaves the links of case 4. *)
Lemma color_inner_ok (s : rb_store D) d C c p q t n1 i n2 sf :
  let T := join d c t p (join d Black (join d Red n1 i n2) q sf) in
  let sf' := join d Black n2 q sf in
  let u := join d c (join d Black t p n1) i sf' in
  focus s C T -> root_color n2 = Black -> dok val (data s) (plug C T) ->
  returns (s ← color_inner d s p q i; color_outer d s p i q)
    (fun s' => focus s' C u /\ dok val (data s') (plug C u) /\ stable (inorder (plug C u)) s s').
Proof using AugmentLaws0.
  intros T sf' u F B2 Dk. apply dok_plug in Dk as (DC & Dk). unfold T in Dk. apply dok_join in Dk as (Dt & Vp & Ds).
  apply dok_join in Ds as (Di & Vq & Df). apply dok_join in Di as (D1 & Vi & D2).
  destruct F as ((HC & Hr) & Hn & HP). unfold T in HC, Hr.
  rewrite addr_join in HC. apply rep_join in Hr as (Hp & Ht & Hs). apply rep_join in Hs as (Hq & Hi & Hsf).
  apply rep_join in Hi as (Hi & H1 & H2). rewrite addr_join in Hp, Hq.
  assert (EK : inorder T = inorder u) by (unfold T, u, sf'; destruct d; by flat).
  assert (Hn' : NoDup (p :: q :: i :: inorder t ++ inorder n1 ++ inorder n2 ++ inorder sf ++ caddrs C)) by (unfold T in Hn; destruct d; nodup_part).
  assert (HP' : Forall ptr (p :: q :: i :: inorder t ++ inorder n1 ++ inorder n2 ++ inorder sf ++ caddrs C)) by (unfold T in HP; destruct d; forall_part).
  clear Hn HP. rename Hn' into Hn. rename HP' into HP.
  assert (pp : ptr p) by forall_part. assert (pq : ptr q) by forall_part. assert (pi : ptr i) by forall_part.
  assert (pn2 : Forall ptr (inorder n2)) by forall_part.
  unfold color_inner. rewrite !bind_assoc, (get_flip_ok _ _ _ _ _ _ pi Hi), !bind_ret, bind_assoc, (set_side_ok _ _ _ _ _ _ _ pq Hq), !bind_ret, bind_assoc.
  erewrite set_flip_ok by first [eassumption|mem_lookup]. rewrite !bind_ret, bind_assoc.
  erewrite set_flip_ok by first [eassumption|mem_lookup]. rewrite !bind_ret, bind_assoc. cbn [nodes set_nodes].
  match goal with |- context [opt_set_black ?s1 _ _] => destruct (set_black_ok s1 i n2 q) as (m1 & -> & R1 & M1) end;
    [cbn [nodes set_nodes]; rep_frame|done|nodup_part|]. rewrite bind_ret. rewrite blacken_id in R1 by done. cbn [nodes set_nodes] in M1.
  assert (Mi : m1 !! i = Some (mkd d (bits q Red) (addr n1) q)) by (rewrite M1 by distinct; mem_lookup).
  assert (Mq : m1 !! q = Some (mkd d (bits p Black) (addr n2) (addr sf))) by (rewrite M1 by distinct; mem_lookup).
  assert (Mp : m1 !! p = Some (mkd d (bits (par C) c) (addr t) i)) by (rewrite M1 by distinct; mem_lookup).
  eapply callback_bind.
  { eapply (rotate_ok val) with (old := q) (new := i) (ta := match d with L => n2 | R => sf end) (tb := match d with L => sf | R => n2 end);
      cbn [nodes data set_nodes]; [exact Mq|by destruct d..|done|done|destruct d; nodup_part| | | |exact Vq|exact Vi];
      destruct d; try done; forall_part. }
  intros e (Vi' & Vq' & Hs). cbn [data set_nodes] in Hs.
  assert (Dsame : forall v, NoDup (q :: i :: inorder v ++ caddrs C) -> dok val (data s) v -> dok val e v).
  { clear Hn. intros v Hnv. apply (dok_same val [q; i]); [exact Hs|].
    intros z Hin. rewrite !elem_of_cons, elem_of_nil in Hin. destruct Hin as [->|[->|[]]]; distinct. }
  assert (Eb : blacken sf' = sf') by (apply blacken_id; unfold sf'; apply color_join).
  assert (Ea : addr sf' = q) by apply addr_join.
  match goal with |- returns (color_outer d ?s0 p i q) _ => replace (color_outer d s0 p i q) with (color_outer d s0 p i (addr sf')) by (by rewrite Ea) end.
  assert (Rsf : rep m1 p sf').
  { apply rep_join. split; [exact Mq|]. split; [done|]. carry M1. }
  eapply returns_mono; [eapply (color_outer_ok _ d C c p i t n1 sf' i (bits q Red) i p); cbn [nodes root_node data set_nodes set_data]|].
  - exact Mp.
  - by rewrite Ea.
  - carry M1.
  - carry M1.
  - exact Rsf.
  - carry M1.
  - auto.
  - unfold sf'. by destruct d.
  - unfold sf'. destruct d; nodup_part.
  - unfold sf'. destruct d; forall_part.
  - apply Dsame; [nodup_part|done].
  - apply Dsame; [nodup_part|done].
  - apply dok_join. split; [apply Dsame; [nodup_part|done]|]. split; [destruct d; exact Vq'|apply Dsame; [nodup_part|done]].
  - rewrite Eb. fold u. rewrite <- EK. unfold T. rewrite inorder_join. apply Hs; [|exact Vp]. rewrite !not_elem_of_cons. split; [distinct|]. split; [distinct|apply not_elem_of_nil].
  - exact Vi'.
  - rewrite Eb. fold u. rewrite <- EK. apply (cdok_same val [q; i] (data s)); [exact Hs| |exact DC].
    intros z Hin. rewrite !elem_of_cons, elem_of_nil in Hin. destruct Hin as [->|[->|[]]]; distinct.
  - rewrite Eb. fold u. intros s' (F & Dk & S). split; [done|]. split; [done|]. split; [apply S|]. intros z Hz.
    rewrite (proj2 S) by done. cbn [nodes set_nodes set_data].
    rewrite plug_perm in Hz. unfold u, sf' in Hz. rewrite inorder_join, wrap_perm, inorder_join, wrap_perm, inorder_join, wrap_perm in Hz.
    rewrite M1 by set_solver. by rewrite !lookup_insert_ne by set_solver.
Qed.

(** Case 2. *)
Definition redden (t : tree) : tree := match t with Leaf => Leaf | Node _ l p r => Node Red l p r end.
Lemma inorder_redden t : inorder (redden t) = inorder t.
Proof using. by destruct t. Qed.

Lemma color_flip_ok (s : rb_store D) d C c p t sib :
  focus s C (join d c t p sib) -> sib <> Leaf ->
  exists s', focus s' C (join d Black t p (redden sib)) /\ data s' = data s /\ stable (p :: inorder sib) s s' /\
    color_flip s p (addr sib) =
      Ret (match c with Red => inr s' | Black => if negb (par C =? 0) then inl (s', p, par C) else inr s' end).
Proof using.
  intros ((HC & Hr) & Hn & HP) Ls. rewrite addr_join in HC. apply rep_join in Hr as (Hp & Ht & Hs). rewrite inorder_join, wrap_perm in Hn, HP.
  assert (pp : ptr p) by forall_part. assert (pC : Forall ptr (caddrs C)) by forall_part. assert (ps : Forall ptr (inorder sib)) by forall_part.
  destruct sib as [|cs a q b]; [done|]. destruct Hs as (Hq & Ha & Hb). assert (pq : ptr q) by forall_part. cbn [addr redden] in *.
  unfold color_flip, rb_set_parent_color.
  change (mk_node (bits p cs) (addr b) (addr a)) with (mkd L (bits p cs) (addr a) (addr b)) in Hq.
  rewrite (set_pc_ok _ _ _ _ _ _ _ pq Hq), bind_ret. unfold rb_is_red, rb_is_black.
  erewrite (get_pc_ok d); [|done|]. 2:{ cbn [nodes set_nodes]. rewrite lookup_insert_ne by distinct. exact Hp. }
  rewrite !bind_ret. destruct (bits_parent (par C) c (par_ok C pC)) as (Ep & _ & ->).
  set (m1 := <[q := mkd L (Z.lor p RB_RED) (addr a) (addr b)]> (nodes s)).
  assert (Rr : forall m2 c', m2 !! p = Some (mkd d (bits (par C) c') (addr t) q) -> (forall z, z <> p -> m2 !! z = m1 !! z) ->
    c' = Black -> focus (set_nodes s m2) C (join d Black t p (Node Red a q b))).
  { intros m2 c' M1 M2 ->. split; [|rewrite inorder_join, wrap_perm; split; [nodup_part|forall_part]].
    cbn [nodes root_node set_nodes]. rewrite addr_join, rep_join. split.
    - eapply crep_ext; [intros z Hz%cnt_elem; apply M2; distinct|]. unfold m1. rep_frame.
    - split; [exact M1|]. split; [eapply rep_ext; [intros z Hz%cnt_elem; apply M2; distinct|]; unfold m1; rep_frame|].
      cbn [rep]. rewrite M2 by distinct. unfold m1. split; [apply lookup_insert_eq|].
      split; (eapply rep_ext; [intros z Hz%cnt_elem; apply M2; distinct|]; unfold m1; rep_frame). }
  destruct c; cbn [is_black negb]; cbv iota.
  - unfold rb_set_black. erewrite (get_pc_ok d); [|done|]. 2:{ cbn [nodes set_nodes]. unfold m1. rewrite lookup_insert_ne by distinct. exact Hp. }
    rewrite bind_ret, bits_black. erewrite (set_pc_ok d); [|done|]. 2:{ cbn [nodes set_nodes]. unfold m1. rewrite lookup_insert_ne by distinct. exact Hp. }
    rewrite bind_ret. eexists. split; [|split; [|split; [|reflexivity]]].
    + eapply (Rr _ Black); [apply lookup_insert_eq| |done]. intros z Hz. by apply lookup_insert_ne.
    + done.
    + split; [done|]. intros z Hz. cbn [nodes set_nodes]. unfold m1. cbn [inorder] in Hz. rewrite elem_of_cons, elem_of_app, elem_of_cons in Hz.
      rewrite !lookup_insert_ne by naive_solver. done.
  - unfold rb_parent. erewrite (get_pc_ok d); [|done|]. 2:{ cbn [nodes set_nodes]. unfold m1. rewrite lookup_insert_ne by distinct. exact Hp. }
    rewrite !bind_ret, Ep. eexists. split; [|split; [|split; [|reflexivity]]].
    + eapply (Rr _ Black); [unfold m1; rewrite lookup_insert_ne by distinct; exact Hp|done|done].
    + done.
    + split; [done|]. intros z Hz. cbn [nodes set_nodes]. unfold m1. cbn [inorder] in Hz. rewrite elem_of_cons, elem_of_app, elem_of_cons in Hz.
      rewrite lookup_insert_ne by naive_solver. done.
Qed.

(** ** The loop *)

Definition color_inv (s0 : rb_store D) (X K : list Z) (C2 : list frame) (st : rb_store D * Z * Z) : Prop :=
  exists s d c p sib C t h, C2 = Fr d c p sib :: C /\ st = (s, addr t, p) /\ focus s C2 t /\ rbt h t /\ root_color t = Black /\
    cok (S h) C2 /\ cwrap C2 (inorder t) = K /\ dok val (data s) (plug C2 t) /\ stable X s0 s.
Definition color_post (s0 : rb_store D) (X K : list Z) (C : list frame) (r : rb_store D * Z * Z + rb_store D) : Prop :=
  match r with inl st => color_inv s0 X K C st | inr s => done_with val s0 X K s end.

(** A subtree whose rebalancing is over. *)
Lemma color_done (s0 s : rb_store D) X K C u h :
  focus s C u -> dok val (data s) (plug C u) -> cwrap C (inorder u) = K -> stable X s0 s ->
  rbt h u -> cok h C -> root_color u = Black \/ top_black C -> done_with val s0 X K s.
Proof using.
  intros F Dk HK S Ru HC Hb. exists (plug C u). rewrite inorder_plug. split; [by apply focus_holds|].
  split; [by eapply cok_plug|]. done.
Qed.

Lemma rbt_outer d h c t p sn q sf sib C : cok (S h) (Fr d c p sib :: C) ->
  rbt h t -> rbt h sn -> rbt (S h) (blacken sf) ->
  let u := join d c (join d Black t p sn) q (blacken sf) in
  exists h', rbt h' u /\ cok h' C /\ (root_color u = Black \/ top_black C).
Proof using.
  intros HC Ht Hn Hf u. destruct c.
  - destruct HC as (_ & _ & HT & HC). exists (S h). split; [|auto]. apply rbt_join_red; [by apply rbt_join_black|done|apply color_join|].
    by destruct sf.
  - destruct HC as (_ & HC). exists (S (S h)). split; [apply rbt_join_black; [by apply rbt_join_black|done]|]. split; [done|]. left. apply color_join.
Qed.

Lemma join_split d t : t <> Leaf -> exists a n b, t = join d (root_color t) a n b.
Proof using. destruct t as [|c l p r]; [done|]. intros _. destruct d; [by exists l, p, r|by exists r, p, l]. Qed.
Lemma rbt_join_inv d c h t p u : rbt h (join d c t p u) ->
  match c with Red => rbt h t /\ rbt h u /\ root_color t = Black /\ root_color u = Black | Black => exists h', h = S h' /\ rbt h' t /\ rbt h' u end.
Proof using. intros H. destruct d, c; simpl in H; inversion H; subst; eauto 6. Qed.
Lemma redden_join d c t p u : redden (join d c t p u) = join d Red t p u.
Proof using. by destruct d. Qed.

Lemma color_rest_ok (s0 s : rb_store D) X K d C c p q t sn sf h :
  let sib := join d Black sn q sf in
  focus s C (join d c t p sib) -> rbt h t -> root_color t = Black -> rbt h sn -> rbt h sf -> cok (S h) (Fr d c p sib :: C) ->
  cwrap C (inorder (join d c t p sib)) = K -> dok val (data s) (plug C (join d c t p sib)) -> stable X s0 s -> K ⊆ X ->
  returns (color_rest d s p q) (fun r => match r with
    | inl st => c = Black /\ color_inv s0 X K C st | inr s' => done_with val s0 X K s' end).
Proof using AugmentLaws0.
  intros sib F Ht Bt Hsn Hsf HC HK Dk S HX. pose proof F as ((Fc & Fr0) & Fn & FP). unfold sib in Fr0, Fn, FP. rewrite addr_join in Fc. apply rep_join in Fr0 as (Hp & Rt & Rs).
  apply rep_join in Rs as (Hq & Rn & Rf). rewrite addr_join in Hp.
  assert (Hn : NoDup (p :: q :: inorder t ++ inorder sn ++ inorder sf ++ caddrs C)) by (destruct d; nodup_part).
  assert (HP : Forall ptr (p :: q :: inorder t ++ inorder sn ++ inorder sf ++ caddrs C)) by (destruct d; forall_part).
  clear Fn FP. assert (pp : ptr p) by forall_part. assert (pq : ptr q) by forall_part.
  assert (psn : Forall ptr (inorder sn)) by forall_part. assert (psf : Forall ptr (inorder sf)) by forall_part.
  assert (Sub : forall u s', inorder u = inorder (join d c t p sib) -> stable (inorder (plug C u)) s s' -> stable X s0 s').
  { intros u s' Eu Hs. eapply stable_trans; [exact S|]. eapply stable_mono; [|exact Hs]. by rewrite inorder_plug, Eu, HK. }
  unfold color_rest. rewrite (get_flip_ok _ _ _ _ _ _ pq Hq), bind_ret, (or_black_ok s q sf) by auto. rewrite bind_ret.
  destruct (root_color sf) eqn:Ef; cbn [is_black]; cbv iota.
  - assert (Lf : sf <> Leaf) by (intros ->; done). destruct (rbt_blacken h sf Hsf) as (h' & Rb & Eh). specialize (Eh Ef). subst h'.
    assert (Eu : inorder (join d c (join d Black t p sn) q (blacken sf)) = inorder (join d c t p sib)).
    { unfold sib. destruct d; cbn [join inorder]; rewrite inorder_blacken; by flat. }
    pose proof (proj1 (dok_plug val _ _ _) Dk) as (DC & Dj). apply dok_join in Dj as (Dt & Vp & Ds). apply dok_join in Ds as (Dn & Vq & Df).
    eapply returns_bind; [eapply (color_outer_ok s d C c p q t sn sf q (bits p Black) q q); eauto|].
    + rewrite Eu, inorder_join. exact Vp.
    + by rewrite Eu.
    + intros s' (F' & D' & S'). apply returns_ret. destruct (rbt_outer d h c t p sn q sf sib C HC Ht Hsn Rb) as (h' & R1 & R2 & R3).
      eapply color_done; eauto. by rewrite Eu.
  - change get_side with (@get_side D). rewrite (get_side_ok _ _ _ _ _ _ pq Hq), bind_ret, (or_black_ok s q sn) by auto. rewrite bind_ret.
    destruct (root_color sn) eqn:En; cbn [is_black]; cbv iota.
    + assert (Ln : sn <> Leaf) by (intros ->; done). destruct (join_split d sn Ln) as (n1 & i & n2 & E). rewrite En in E. subst sn.
      apply rbt_join_inv in Hsn as (R1 & R2 & B1 & B2). rewrite addr_join, <- bind_assoc.
      eapply returns_bind; [by apply (color_inner_ok s d C c p q t n1 i n2 sf)|]. intros s' (F' & D' & S'). apply returns_ret.
      assert (Eu : inorder (join d c (join d Black t p n1) i (join d Black n2 q sf)) = inorder (join d c t p sib)).
      { unfold sib. destruct d; by flat. }
      assert (Eb : blacken (join d Black n2 q sf) = join d Black n2 q sf) by (apply blacken_id, color_join).
      destruct (rbt_outer d h c t p n1 i (join d Black n2 q sf) sib C HC Ht) as (h' & H1 & H2 & H3);
        [done|rewrite Eb; by apply rbt_join_black|].
      rewrite Eb in *. eapply color_done; eauto. by rewrite Eu.
    + destruct (color_flip_ok s d C c p t sib F) as (s' & F' & Ed & S' & E); [unfold sib; by destruct d|].
      unfold sib in E at 1. rewrite addr_join in E. rewrite E. apply returns_ret. unfold sib in F'. rewrite redden_join in F'.
      assert (Eu : inorder (join d Black t p (join d Red sn q sf)) = inorder (join d c t p sib)) by (unfold sib; by destruct d).
      assert (Ru : rbt (Datatypes.S h) (join d Black t p (join d Red sn q sf))) by (apply rbt_join_black; [done|by apply rbt_join_red]).
      assert (Du : dok val (data s') (plug C (join d Black t p (join d Red sn q sf)))).
      { rewrite Ed. apply dok_plug. rewrite Eu. apply dok_plug in Dk as (DC & Dj). split; [done|]. unfold sib in Dj. destruct d; exact Dj. }
      assert (Sx : stable X s0 s').
      { eapply stable_trans; [exact S|]. eapply stable_mono; [|exact S']. rewrite <- HX, <- HK, cwrap_perm, inorder_join, wrap_perm. set_solver. }
      destruct c.
      * destruct HC as (_ & _ & HT & HC). eapply color_done; eauto. by rewrite Eu.
      * destruct HC as (_ & HC). destruct C as [|[d' c' p' sib'] C'].
        { cbn [par Z.eqb negb]. cbv iota. eapply color_done; eauto; [by rewrite Eu|]. left. apply color_join. }
        assert (pp' : ptr p') by forall_part. cbn [par]. rewrite (proj2 (Z.eqb_neq p' 0)) by nz. cbn [negb]. cbv iota. split; [done|].
        exists s', d', c', p', sib', C', (join d Black t p (join d Red sn q sf)), (Datatypes.S h).
        rewrite addr_join. split; [done|]. split; [done|]. split; [done|]. split; [done|]. split; [apply color_join|]. split; [done|].
        split; [by rewrite Eu|]. done.
Qed.

Lemma color_turn_ok (s0 : rb_store D) X K C2 st :
  K ⊆ X -> color_inv s0 X K C2 st ->
  returns (erase_color_turn (rotate cb) st) (fun r => match r with
    | inl st' => exists C', color_inv s0 X K C' st' /\ (length C' < length C2)%nat | inr s' => done_with val s0 X K s' end).
Proof using AugmentLaws0.
  intros HX (s & d & c & p & sib & C & t & h & -> & -> & F & Ht & Bt & HC & HK & Dk & S).
  assert (Hsib : rbt (Datatypes.S h) sib) by (destruct c; apply HC).
  assert (Ls : sib <> Leaf) by (intros ->; inversion Hsib).
  assert (Fp : nodes s !! p = Some (mkd d (bits (par C) c) (addr t) (addr sib)) /\ ptr p /\ Forall ptr (inorder t) /\ Forall ptr (inorder sib) /\ NoDup (inorder t ++ inorder sib) /\ rep (nodes s) p sib).
  { destruct F as ((HF & _) & Hn & HP). destruct HF as (Hp & Hs & _). split; [done|]. split; [forall_part|]. split; [forall_part|]. split; [forall_part|]. split; [nodup_part|done]. }
  destruct Fp as (Hp & pp & pt & ps & Hn & Rs).
  assert (Side : erase_color_turn (rotate cb) (s, addr t, p) = color_side d s p (addr sib)).
  { destruct color_sides as [EL ER]. unfold erase_color_turn. destruct d.
    - change get_right with (get_side (D := D) (flip L)). rewrite (get_flip_ok _ _ _ _ _ _ pp Hp), bind_ret.
      assert (E : addr t <> addr sib).
      { intros E. destruct t as [|ct a n b].
        - simpl in E. symmetry in E. by apply addr_nil in E.
        - apply (node_neq n sib); [simpl in pt; forall_part|distinct|done]. }
      rewrite (proj2 (Z.eqb_neq _ _) E). cbn [negb]. cbv iota. by rewrite EL.
    - change get_right with (get_side (D := D) R). rewrite (get_side_ok _ _ _ _ _ _ pp Hp), bind_ret, Z.eqb_refl. cbn [negb]. cbv iota.
      change get_left with (get_side (D := D) (flip R)). rewrite (get_flip_ok _ _ _ _ _ _ pp Hp), bind_ret. by rewrite ER. }
  rewrite Side. unfold color_side. destruct (join_split d sib Ls) as (sn & q & sf & E).
  destruct (root_color sib) eqn:Ec.
  - destruct c; [destruct HC as (_ & ? & _); congruence|]. destruct HC as (_ & HC). subst sib.
    apply rbt_join_inv in Hsib as (Rn & Rf & Bn & Bf). assert (Ln : sn <> Leaf) by (intros ->; inversion Rn).
    apply focus_holds in F. cbn [plug] in F, Dk, HK. rewrite <- focus_holds in F. rewrite addr_join.
    eapply returns_bind; [by apply (color_red_ok s d C p q t sn sf)|]. intros [s1 x] (s1' & E & F1 & D1 & S1). inversion E; subst s1' x; clear E.
    destruct (join_split d sn Ln) as (a & i & b & E). rewrite Bn in E. subst sn. rewrite addr_join.
    apply rbt_join_inv in Rn as (h' & Eh & Ra & Rb). inversion Eh; subst h'.
    assert (F1' : focus s1 (Fr d Black q sf :: C) (join d Red t p (join d Black a i b))) by (by apply focus_holds; apply focus_holds in F1).
    eapply returns_mono; [eapply (color_rest_ok s0 s1 X K d (Fr d Black q sf :: C) Red p i t a b h F1' Ht Bt Ra Rb)|].
    + cbn [cok top_black]. split; [by apply rbt_join_black|]. split; [done|]. done.
    + cbn [cwrap]. rewrite <- HK. cbn [cwrap]. f_equal. destruct d; by flat.
    + done.
    + eapply stable_trans; [exact S|]. eapply stable_mono; [|exact S1]. rewrite <- HX, <- HK, inorder_plug, inorder_join. done.
    + done.
    + intros [st'|s'] Hr; [by destruct Hr|exact Hr].
  - subst sib. apply rbt_join_inv in Hsib as (h' & Eh & Rn & Rf). inversion Eh; subst h'.
    rewrite addr_join in *. unfold color_red. rewrite <- (addr_join d Black sn q sf) at 1.
    unfold rb_is_red. rewrite (is_black_ok s p) by auto. rewrite color_join, !bind_ret. cbn [is_black negb]. cbv iota. rewrite bind_ret.
    apply focus_holds in F. cbn [plug] in F, Dk. rewrite <- focus_holds in F. cbn [cwrap] in HK. rewrite <- inorder_join with (c := c) in HK.
    eapply returns_mono; [by eapply (color_rest_ok s0 s X K d C c p q t sn sf h)|].
    intros [st'|s'] Hr; [|exact Hr]. destruct Hr as [_ Hr]. exists C. split; [done|simpl; lia].
Qed.

(** [__rb_erase_color] at the hole that [rebalance] names. *)
Lemma rb_erase_color_ok (s0 s : rb_store D) X C K :
  focus s C Leaf -> C <> [] -> cok 1 C -> cwrap C [] = K -> dok val (data s) (plug C Leaf) -> stable X s0 s -> K ⊆ X ->
  returns (rb_erase_color (rotate cb) s (par C)) (done_with val s0 X K).
Proof using AugmentLaws0.
  intros F NC HC HK Dk S HX. destruct C as [|[d c p sib] C]; [done|]. unfold rb_erase_color.
  eapply (loop_returns_ix (color_inv s0 X K) length) with (i := Fr d c p sib :: C).
  - exists s, d, c, p, sib, C, Leaf, O. split; [done|]. split; [done|]. split; [done|]. split; [constructor|]. done.
  - apply focus_fuel in F. lia.
  - intros C' st. by apply color_turn_ok.
Qed.

End color.
