(* ===== verification/RbtreeWalk.v ===== *)
(** * Walking a red-black tree, and replacing a node

    [rb_first], [rb_last], [rb_next] and [rb_prev] follow the in-order list,
    [rb_first_postorder] and [rb_next_postorder] the post-order list;
    [rb_replace_node] puts another node in a node's place. *)

From stdpp Require Import base numbers list option gmap.
From Stdlib Require Import ZArith Lia.
From S2P Require Import Prelude Rbtree RbtreeFacts.

Section walk.
Context {D : Type}.
Implicit Types s : rb_store D.

Lemma nonleaf_addr t : t <> Leaf -> Forall ptr (inorder t) -> (addr t =? 0) = false.
Proof using. intros Ht Hp. apply Z.eqb_neq. intros E. by apply addr_nil in E. Qed.

Lemma down_turn_eq get s n : down_turn get s n = (c ← get s n; if negb (c =? 0) then Ret (inl c) else Ret (inr n)).
Proof using. done. Qed.
Lemma up_turn_eq get s n : up_turn get s n =
  (parent ← rb_parent s n; if parent =? 0 then Ret (inr parent) else c ← get s parent; if n =? c then Ret (inl parent) else Ret (inr parent)).
Proof using. done. Qed.

(** ** Down to one side *)

Fixpoint most (d : side) (t : tree) : Z :=
  match t with
  | Leaf => 0
  | Node _ l p r =>
      match d with
      | L => match l with Leaf => p | _ => most L l end
      | R => match r with Leaf => p | _ => most R r end
      end
  end.
Lemma most_join d c t p sib : most d (join d c t p sib) = match t with Leaf => p | _ => most d t end.
Proof using. by destruct d. Qed.
Lemma most_left t : most L t = hd 0 (inorder t).
Proof using.
  induction t as [|c l IHl p r _]; [done|]. cbn [most inorder]. rewrite IHl. destruct l as [|cl ll pl rl]; [done|].
  simpl. destruct (inorder ll); done.
Qed.
Lemma most_right t : most R t = default 0 (last (inorder t)).
Proof using.
  induction t as [|c l _ p r IHr]; [done|]. cbn [most inorder]. rewrite IHr. destruct r as [|cr lr pr rr]; [simpl; by rewrite last_snoc|].
  rewrite last_app, last_cons. destruct (last (inorder (Node cr lr pr rr))) as [y|] eqn:E; [done|].
  apply last_None in E. simpl in E. by apply app_eq_nil in E as [_ E].
Qed.

Lemma down_ok s d t q fuel :
  t <> Leaf -> rep (nodes s) q t -> Forall ptr (inorder t) -> (length (inorder t) < fuel)%nat ->
  loop fuel (down_turn (get_side d) s) (addr t) = Ret (most d t).
Proof using.
  revert q fuel. enough (H : forall k t q fuel, (length (inorder t) <= k)%nat -> t <> Leaf -> rep (nodes s) q t -> Forall ptr (inorder t) ->
    (length (inorder t) < fuel)%nat -> loop fuel (down_turn (get_side d) s) (addr t) = Ret (most d t)) by (intros; by eapply H).
  clear t. induction k as [|k IH]; intros t q fuel Hk Ht Hr HP Hf.
  - destruct t; [done|]. simpl in Hk. rewrite length_app in Hk. simpl in Hk. lia.
  - destruct fuel as [|fuel]; [lia|]. assert (E : exists c u p sib, t = join d c u p sib).
    { destruct t as [|c l p r]; [done|]. destruct d; [by exists c, l, p, r|by exists c, r, p, l]. }
    destruct E as (c & u & p & sib & ->). rewrite most_join, addr_join. apply rep_join in Hr as (Hp & Hu & _).
    rewrite inorder_join, wrap_perm in *. assert (pp : ptr p) by forall_part. assert (pu : Forall ptr (inorder u)) by forall_part.
    cbn [length] in *. rewrite length_app in *.
    rewrite loop_S, down_turn_eq, (get_side_ok _ _ _ _ _ _ pp Hp), bind_ret.
    destruct u as [|cu lu xu ru] eqn:Eu; [done|]. rewrite <- Eu in *. assert (Hn : u <> Leaf) by (by rewrite Eu).
    rewrite nonleaf_addr by done. cbn [negb]. cbv iota. rewrite bind_ret. rewrite (IH u p fuel); [by rewrite Eu| |done|done|done|]; lia.
Qed.

(** ** Up to the first turn *)

Fixpoint upto (d : side) (C : list frame) : Z :=
  match C with
  | [] => 0
  | Fr d' _ p _ :: C => match d, d' with L, L | R, R => p | _, _ => upto d C end
  end.
Lemma cwrap_around C : exists A B, (forall K, cwrap C K = A ++ K ++ B) /\ hd 0 B = upto L C /\ default 0 (last A) = upto R C.
Proof using.
  induction C as [|[d c p sib] C (A & B & H & HB & HA)].
  - exists [], []. split; [|done]. intros K. simpl. by rewrite app_nil_r.
  - destruct d.
    + exists A, (p :: inorder sib ++ B). split; [|by split]. intros K. simpl. rewrite H. by flat.
    + exists (A ++ inorder sib ++ [p]), B. split; [|split; [done|]].
      * intros K. simpl. rewrite H. by flat.
      * rewrite app_assoc, last_snoc. done.
Qed.

Lemma up_ok s d C n fuel :
  crep (nodes s) (root_node s) C n -> is_Some (nodes s !! n) ->
  (exists c x y, nodes s !! n = Some (mkd d (bits (par C) c) x y)) ->
  NoDup (n :: caddrs C) -> ptr n -> Forall ptr (caddrs C) -> (length C < fuel)%nat ->
  loop fuel (up_turn (get_side (flip d)) s) n = Ret (upto d C).
Proof using.
  revert n fuel. induction C as [|[d' c' p sib] C IH]; intros n fuel HC _ (c & x & y & Hn) Hd pn HP Hf; (destruct fuel as [|fuel]; [simpl in Hf; lia|]);
    rewrite loop_S, up_turn_eq; unfold rb_parent; rewrite (get_pc_ok _ _ _ _ _ _ pn Hn), !bind_ret.
  - destruct (bits_parent (par []) c) as (-> & _ & _); [by left|]. done.
  - cbn [par]. destruct (bits_parent p c) as (-> & _ & _); [right; forall_part|]. assert (pp : ptr p) by forall_part. rewrite (proj2 (Z.eqb_neq p 0)) by nz.
    apply crep_cons in HC as (Hp & Hs & HC). assert (Hn' : n ∉ inorder sib) by distinct.
    assert (Ed : (d' = d /\ get_side (flip d) s p = Ret (addr sib)) \/ (d' = flip d /\ get_side (flip d) s p = Ret n)).
    { destruct d, d'; [left|right|right|left]; (split; [done|]); [eapply (get_flip_ok L)|eapply (get_side_ok R)|eapply (get_side_ok L)|eapply (get_flip_ok R)]; done. }
    destruct Ed as [[-> ->]|[-> ->]]; rewrite bind_ret.
    + rewrite (proj2 (Z.eqb_neq n (addr sib))) by (by apply node_neq). cbn [upto]. by destruct d.
    + rewrite Z.eqb_refl. rewrite bind_ret. rewrite (IH p fuel); [by destruct d|done|by eexists| |nodup_part|done|forall_part|simpl in Hf; lia].
      exists c'. rewrite Hp. destruct d; do 2 eexists; reflexivity.
Qed.

(** ** The in-order walk *)

Lemma not_empty s C c l n r : focus s C (Node c l n r) -> RB_EMPTY_NODE s n = Ret false.
Proof using.
  intros ((_ & Hn & _) & Hd & HP). assert (pn : ptr n) by forall_part. unfold RB_EMPTY_NODE.
  change (mk_node (bits (par C) c) (addr r) (addr l)) with (mkd L (bits (par C) c) (addr l) (addr r)) in Hn.
  rewrite (get_pc_ok _ _ _ _ _ _ pn Hn), bind_ret. f_equal. apply Z.eqb_neq. intros E.
  destruct (bits_parent (par C) c) as (E1 & _); [apply par_ok; forall_part|]. rewrite E in E1.
  destruct (bits_parent n Red) as (E2 & _); [auto|]. rewrite bits_red in E2.
  destruct C as [|[d' c' p sib] C]; simpl in E1; [by apply (ptr_nz n pn); congruence|].
  assert (n <> p) by distinct. congruence.
Qed.
Lemma walk_step_ok s d C c l n r :
  focus s C (join d c l n r) -> 
  (c' ← get_side (flip d) s n;
   if negb (c' =? 0) then loop (rb_fuel s) (down_turn (get_side d) s) c' else loop (rb_fuel s) (up_turn (get_side (flip d)) s) n) =
  Ret (match r with Leaf => upto d C | _ => most d r end).
Proof using.
  intros F. pose proof (focus_fuel s C _ F) as Hf. destruct F as ((HC & Hr) & Hd & HP). rewrite addr_join in HC. apply rep_join in Hr as (Hn & _ & Hr).
  rewrite inorder_join, wrap_perm in Hd, HP, Hf. cbn [length] in Hf. rewrite length_app in Hf. assert (pn : ptr n) by forall_part. assert (pr : Forall ptr (inorder r)) by forall_part.
  rewrite (get_flip_ok _ _ _ _ _ _ pn Hn), bind_ret. destruct r as [|cr lr xr rr] eqn:Er.
  - cbn [addr Z.eqb negb]. cbv iota. apply up_ok; [done|by eexists|eauto|nodup_part|done|forall_part|lia].
  - rewrite <- Er in *. rewrite nonleaf_addr by first [done | by rewrite Er]. cbn [negb]. cbv iota. eapply down_ok; [by rewrite Er|done|done|lia].
Qed.

Lemma nodup_middle (A B A' B' : list Z) n : NoDup (A ++ n :: B) -> A ++ n :: B = A' ++ n :: B' -> A = A' /\ B = B'.
Proof using.
  revert A'. induction A as [|a A IH]; intros A' Hd E; destruct A' as [|a' A']; simpl in *.
  - by inversion E.
  - inversion E; subst. apply NoDup_cons in Hd as [Hn _]. exfalso. apply Hn. apply elem_of_app. right. left.
  - inversion E; subst. apply NoDup_cons in Hd as [Hn _]. exfalso. apply Hn. apply elem_of_app. right. left.
  - inversion E; subst. apply NoDup_cons in Hd as [_ Hd]. destruct (IH A' Hd) as [-> ->]; done.
Qed.

(** A node's place, with the in-order list split there. *)
Lemma locate_split s T A n B : holds s T -> inorder T = A ++ n :: B ->
  exists C c l r, T = plug C (Node c l n r) /\ focus s C (Node c l n r) /\
    hd 0 B = match r with Leaf => upto L C | _ => most L r end /\ default 0 (last A) = match l with Leaf => upto R C | _ => most R l end.
Proof using.
  intros HT E. destruct (locate T n) as (C & c & l & r & ->); [rewrite E; apply elem_of_app; right; left|].
  exists C, c, l, r. split; [done|]. split; [by apply focus_holds|]. destruct (cwrap_around C) as (A' & B' & H & HB & HA).
  assert (E' : A ++ n :: B = (A' ++ inorder l) ++ n :: inorder r ++ B').
  { rewrite <- E, inorder_plug, H. cbn [inorder]. by flat. }
  assert (Hd : NoDup (A ++ n :: B)) by (rewrite <- E; apply HT).
  destruct (nodup_middle _ _ _ _ _ Hd E') as [-> ->]. split.
  - destruct r as [|cr lr xr rr] eqn:Er; [done|]. rewrite <- Er. rewrite most_left, Er. simpl. by destruct (inorder lr).
  - destruct l as [|cl ll xl rl] eqn:El; [simpl; by rewrite app_nil_r|]. rewrite <- El. rewrite most_right, last_app.
    destruct (last (inorder l)) as [y|] eqn:Ey; [done|]. apply last_None in Ey. rewrite El in Ey. simpl in Ey. by apply app_eq_nil in Ey as [_ Ey].
Qed.

Lemma rb_next_ok s T A n B : holds s T -> inorder T = A ++ n :: B -> rb_next s n = Ret (hd 0 B).
Proof using.
  intros HT E. destruct (locate_split s T A n B HT E) as (C & c & l & r & -> & F & -> & _).
  unfold rb_next. rewrite (not_empty s C c l n r F), bind_ret. exact (walk_step_ok s L C c l n r F).
Qed.
Lemma rb_prev_ok s T A n B : holds s T -> inorder T = A ++ n :: B -> rb_prev s n = Ret (default 0 (last A)).
Proof using.
  intros HT E. destruct (locate_split s T A n B HT E) as (C & c & l & r & -> & F & _ & ->).
  unfold rb_prev. rewrite (not_empty s C c l n r F), bind_ret. exact (walk_step_ok s R C c r n l F).
Qed.
Lemma rb_first_ok s T : holds s T -> rb_first s = Ret (hd 0 (inorder T)).
Proof using.
  intros HT. pose proof (holds_fuel s T HT) as Hf. destruct HT as ((Hr & E) & Hd & HP). unfold rb_first. rewrite E.
  destruct T as [|c l p r] eqn:ET; [done|]. rewrite <- ET in *. rewrite nonleaf_addr by first [done | by rewrite ET].
  rewrite <- most_left. apply (down_ok s L T 0); [by rewrite ET|done..].
Qed.
Lemma rb_last_ok s T : holds s T -> rb_last s = Ret (default 0 (last (inorder T))).
Proof using.
  intros HT. pose proof (holds_fuel s T HT) as Hf. destruct HT as ((Hr & E) & Hd & HP). unfold rb_last. rewrite E.
  destruct T as [|c l p r] eqn:ET; [done|]. rewrite <- ET in *. rewrite nonleaf_addr by first [done | by rewrite ET].
  rewrite <- most_right. apply (down_ok s R T 0); [by rewrite ET|done..].
Qed.

(** ** The post-order walk *)

Fixpoint postorder (t : tree) : list Z :=
  match t with Leaf => [] | Node _ l p r => postorder l ++ postorder r ++ [p] end.
Lemma postorder_perm t : postorder t ≡ₚ inorder t.
Proof using.
  induction t as [|c l IHl p r IHr]; simpl; [done|]. rewrite IHl, IHr. f_equiv. by rewrite (comm app).
Qed.
Lemma postorder_nonempty t : t <> Leaf -> postorder t <> [].
Proof using. destruct t as [|c l p r]; [done|]. intros _ E. simpl in E. apply app_eq_nil in E as [_ E]. by apply app_eq_nil in E as [_ E]. Qed.
Lemma hd_app (A B : list Z) : A <> [] -> hd 0 (A ++ B) = hd 0 A.
Proof using. by destruct A. Qed.
Fixpoint popost (C : list frame) : list Z :=
  match C with [] => [] | Fr L _ p sib :: C => postorder sib ++ p :: popost C | Fr R _ p _ :: C => p :: popost C end.
Lemma postorder_plug C : exists A, forall t, postorder (plug C t) = A ++ postorder t ++ popost C.
Proof using.
  induction C as [|[d c p sib] C (A & H)]; [exists []; intros t; simpl; by rewrite app_nil_r|].
  destruct d; [exists A|exists (A ++ postorder sib)]; intros t; cbn [plug]; rewrite H; simpl; by rewrite <- !app_assoc.
Qed.

Lemma deepest_turn_eq s n : deepest_turn s n =
  (l ← get_left s n; if negb (l =? 0) then Ret (inl l) else r ← get_right s n; if negb (r =? 0) then Ret (inl r) else Ret (inr n)).
Proof using. done. Qed.
Lemma deepest_ok s t q fuel :
  t <> Leaf -> rep (nodes s) q t -> Forall ptr (inorder t) -> (length (inorder t) < fuel)%nat ->
  loop fuel (deepest_turn s) (addr t) = Ret (hd 0 (postorder t)).
Proof using.
  revert q fuel. induction t as [|c l IHl p r IHr]; intros q fuel Ht Hr HP Hf; [done|]. clear Ht.
  destruct Hr as (Hp & Hl & Hr). cbn [inorder addr] in *. rewrite length_app in Hf. cbn [length] in Hf.
  destruct fuel as [|fuel]; [lia|]. assert (pp : ptr p) by forall_part.
  assert (pl : Forall ptr (inorder l)) by forall_part. assert (pr : Forall ptr (inorder r)) by forall_part.
  change (mk_node (bits q c) (addr r) (addr l)) with (mkd L (bits q c) (addr l) (addr r)) in Hp.
  rewrite loop_S, deepest_turn_eq. change get_left with (get_side (D := D) L). change get_right with (get_side (D := D) (flip L)).
  rewrite (get_side_ok _ _ _ _ _ _ pp Hp), bind_ret. destruct l as [|cl ll pl' rl] eqn:El.
  - rewrite (get_flip_ok _ _ _ _ _ _ pp Hp). cbn [addr Z.eqb negb]. cbv iota. rewrite bind_ret. destruct r as [|cr lr pr' rr] eqn:Er; [done|]. rewrite <- Er in *.
    rewrite nonleaf_addr by first [done | by rewrite Er]. cbn [negb]. cbv iota. rewrite bind_ret.
    rewrite (IHr p) by first [done | lia | by rewrite Er]. cbn [postorder app]. f_equal. symmetry. apply hd_app, postorder_nonempty. by rewrite Er.
  - rewrite <- El in *. rewrite nonleaf_addr by first [done | by rewrite El]. cbn [negb]. cbv iota. rewrite bind_ret.
    rewrite (IHl p) by first [done | lia | by rewrite El]. cbn [postorder]. f_equal. symmetry. apply hd_app, postorder_nonempty. by rewrite El.
Qed.

Lemma rb_first_postorder_ok s T : holds s T -> rb_first_postorder s = Ret (hd 0 (postorder T)).
Proof using.
  intros HT. pose proof (holds_fuel s T HT) as Hf. destruct HT as ((Hr & E) & Hd & HP). unfold rb_first_postorder. rewrite E.
  destruct T as [|c l p r] eqn:ET; [done|]. rewrite <- ET in *. rewrite nonleaf_addr by first [done | by rewrite ET].
  apply (deepest_ok s T 0); [by rewrite ET|done..].
Qed.

Lemma rb_next_postorder_ok s T A n B : holds s T -> postorder T = A ++ n :: B -> rb_next_postorder s n = Ret (hd 0 B).
Proof using.
  intros HT E. pose proof (holds_fuel s T HT) as Hf.
  destruct (locate T n) as (C & c & l & r & ->); [rewrite <- postorder_perm, E; apply elem_of_app; right; left|].
  destruct (postorder_plug C) as (A' & HC). pose proof E as E1. rewrite HC in E1. cbn [postorder] in E1.
  assert (Hd : NoDup (A ++ n :: B)) by (rewrite <- E, postorder_perm; apply HT).
  assert (E2 : A ++ n :: B = (A' ++ postorder l ++ postorder r) ++ n :: popost C) by (rewrite <- E1; by rewrite <- !app_assoc).
  destruct (nodup_middle _ _ _ _ _ Hd E2) as [_ ->]. clear E E1 E2 HC Hd A A'.
  apply focus_holds in HT as ((HC & Hn & _) & Hd & HP). unfold rb_next_postorder, rb_parent.
  assert (pn : ptr n) by forall_part. rewrite (proj2 (Z.eqb_neq n 0)) by nz.
  change (mk_node (bits (par C) c) (addr r) (addr l)) with (mkd L (bits (par C) c) (addr l) (addr r)) in Hn.
  rewrite (get_pc_ok _ _ _ _ _ _ pn Hn), !bind_ret.
  destruct (bits_parent (par C) c) as (-> & _ & _); [apply par_ok; forall_part|].
  destruct C as [|[d c' p sib] C]; [done|]. cbn [par] in *. assert (pp : ptr p) by forall_part. rewrite (proj2 (Z.eqb_neq p 0)) by nz.
  apply crep_cons in HC as (Hp & Hs & _). assert (ps : Forall ptr (inorder sib)) by forall_part. cbn [addr] in Hp.
  change get_left with (get_side (D := D) L). destruct d.
  - rewrite (get_side_ok _ _ _ _ _ _ pp Hp), bind_ret, Z.eqb_refl. cbn [negb]. cbv iota. change get_right with (get_side (D := D) (flip L)).
    rewrite (get_flip_ok _ _ _ _ _ _ pp Hp), bind_ret. destruct sib as [|cs ls xs rs] eqn:Es; [done|]. rewrite <- Es in *.
    rewrite nonleaf_addr by first [done | by rewrite Es]. cbn [negb]. cbv iota. unfold rb_left_deepest_node.
    rewrite (deepest_ok s sib p); [|by rewrite Es|done|done|].
    + cbn [popost]. f_equal. symmetry. apply hd_app, postorder_nonempty. by rewrite Es.
    + rewrite plug_perm, length_app in Hf. cbn [caddrs length] in Hf. rewrite length_app in Hf. lia.
  - change (get_side L) with (get_side (D := D) (flip R)). rewrite (get_flip_ok _ _ _ _ _ _ pp Hp), bind_ret.
    assert (Hx : n <> addr sib) by (apply node_neq; [done|distinct]). rewrite (proj2 (Z.eqb_neq _ _) Hx). done.
Qed.

(** ** Replacing a node *)

Lemma replace_ok s C c l v r new :
  focus s C (Node c l v r) -> ptr new -> is_Some (nodes s !! new) -> new ∉ inorder (plug C (Node c l v r)) ->
  exists s', rb_replace_node s v new = Ret s' /\ focus s' C (Node c l new r) /\ data s' = data s /\
    stable (new :: inorder (plug C (Node c l v r))) s s'.
Proof using.
  intros ((HC & Hv & Hl & Hr) & Hd & HP) pw [w Hw] Nw. rewrite plug_perm in Nw.
  assert (Hd' : NoDup (new :: v :: inorder l ++ inorder r ++ caddrs C)).
  { apply NoDup_cons. split; [|nodup_part]. rewrite elem_of_cons, !elem_of_app. cbn [inorder] in Nw. rewrite elem_of_app, elem_of_app, elem_of_cons in Nw. tauto. }
  assert (HP' : Forall ptr (new :: v :: inorder l ++ inorder r ++ caddrs C)) by forall_part. cbn [addr] in HC.
  clear Hd HP Nw. rename Hd' into Hd. rename HP' into HP.
  assert (pv : ptr v) by forall_part. assert (pl : Forall ptr (inorder l)) by forall_part. assert (pr : Forall ptr (inorder r)) by forall_part.
  assert (pC : Forall ptr (caddrs C)) by forall_part.
  change (mk_node (bits (par C) c) (addr r) (addr l)) with (mkd L (bits (par C) c) (addr l) (addr r)) in Hv.
  unfold rb_replace_node, rb_parent. rewrite (get_pc_ok _ _ _ _ _ _ pv Hv), !bind_ret.
  destruct (bits_parent (par C) c (par_ok C pC)) as (-> & _ & _).
  rewrite (get_node_ok s v _) with (1 := ptr_nz v pv) (2 := Hv). rewrite bind_ret.
  rewrite (upd_node_ok s new w) with (1 := ptr_nz new pw) (2 := Hw). rewrite bind_ret.
  change get_left with (get_side (D := D) L). change get_right with (get_side (D := D) (flip L)).
  erewrite (get_side_ok L); [|done|]. 2:{ cbn [nodes set_nodes]. rewrite lookup_insert_ne by distinct. exact Hv. } rewrite bind_ret.
  match goal with |- context [opt_set_parent ?s1 _ _] => destruct (set_parent_ok s1 v l new) as (m1 & -> & R1 & H1) end;
    [auto|cbn [nodes set_nodes]; rep_frame|done|nodup_part|]. rewrite bind_ret. cbn [nodes set_nodes] in H1.
  erewrite (get_flip_ok L); [|done|]. 2:{ cbn [nodes set_nodes]. rewrite H1 by distinct. rewrite lookup_insert_ne by distinct. exact Hv. } rewrite bind_ret.
  match goal with |- context [opt_set_parent ?s1 _ _] => destruct (set_parent_ok s1 v r new) as (m2 & -> & R2 & H2) end;
    [auto|cbn [nodes set_nodes]; carry H1|done|nodup_part|]. rewrite bind_ret. cbn [nodes set_nodes] in H2.
  match goal with |- context [change_child ?s1 _ _ _] => destruct (change_child_ok s1 C v new) as (m & r0 & -> & Hc & Hm) end;
    [cbn [nodes root_node set_nodes]; eapply crep_ext; [intros z Hz%cnt_elem; rewrite H2 by distinct; apply H1; distinct|]; rep_frame|nodup_part|done|done|].
  cbn [nodes set_nodes] in Hm. eexists. split; [reflexivity|]. split; [|split; [done|split; [done|]]].
  - split; [split; [exact Hc|]|split; [nodup_part|forall_part]]. cbn [nodes rep]. split; [|split].
    + rewrite Hm by distinct. rewrite H2 by distinct. rewrite H1 by distinct. apply lookup_insert_eq.
    + eapply rep_ext; [|exact R1]. intros z Hz%cnt_elem. rewrite Hm by distinct. apply H2; distinct.
    + eapply rep_ext; [|exact R2]. intros z Hz%cnt_elem. apply Hm; distinct.
  - intros z Hz. rewrite elem_of_cons, plug_perm in Hz. cbn [inorder] in Hz. rewrite !elem_of_app, elem_of_cons in Hz. cbn [nodes].
    rewrite Hm, H2, H1 by tauto. apply lookup_insert_ne. naive_solver.
Qed.

End walk.
