(* ===== verification/RbtreeSpec.v ===== *)
(** * What red-black trees promise

    The tree refines a list of nodes, the in-order list, whatever sequence of
    insertions, removals and replacements made it; it stays red-black, so a node is
    at most twice the logarithm of the number of nodes deep, and [rb_leftmost]
    stays the first node.  The walks follow the list.  With the callbacks of
    [RB_DECLARE_CALLBACKS] every node's augmented value stays the value of its subtree. *)

From stdpp Require Import base numbers list option gmap.
From Stdlib Require Import ZArith Lia.
From S2P Require Import Prelude Rbtree RbtreeFacts RbtreeInsert RbtreeErase RbtreeColor RbtreeWalk.

(** ** The whole of a removal *)

Section erase_with.
Context {D : Type} (val : D -> Z -> list Z -> Prop) (cb : rb_augment_callbacks D) `{!AugmentLaws val cb}.

Lemma erase_with_ok (s : rb_store D) T n cached A B :
  holds s T -> red_black T -> dok val (data s) T -> inorder T = A ++ n :: B ->
  let s0 := if cached && (n =? rb_leftmost s) then set_leftmost s (hd 0 B) else s in
  returns (erase_with cb s n cached) (done_with val s0 (inorder T) (A ++ B)).
Proof using AugmentLaws0.
  intros HT RB Dk E s0. pose proof (rb_next_ok s T A n B HT E) as EN.
  destruct (locate_split s T A n B HT E) as (C & c & l & r & ET & F & _ & _).
  assert (EK : cwrap C (inorder l ++ inorder r) = A ++ B).
  { destruct (cwrap_split C) as (A' & B' & H). assert (E' : A ++ n :: B = (A' ++ inorder l) ++ n :: inorder r ++ B').
    { rewrite <- E, ET, inorder_plug, H. cbn [inorder]. by flat. }
    assert (Hd : NoDup (A ++ n :: B)) by (rewrite <- E; apply HT). destruct (nodup_middle _ _ _ _ _ Hd E') as [-> ->].
    rewrite H. by flat. }
  assert (pn : ptr n) by (destruct F as (_ & _ & HP); forall_part).
  assert (Hn : nodes s !! n = Some (mkd L (bits (par C) c) (addr l) (addr r))) by apply F.
  unfold erase_with. rewrite erase_augmented_body. change get_left with (get_side (D := D) L). change get_right with (get_side (D := D) (flip L)).
  rewrite (get_flip_ok _ _ _ _ _ _ pn Hn), bind_ret, (get_side_ok _ _ _ _ _ _ pn Hn), bind_ret.
  assert (E0 : (if cached && (n =? rb_leftmost s) then n0 ← rb_next s n; Ret (set_leftmost s n0) else Ret s) = Ret s0).
  { unfold s0. destruct (cached && (n =? rb_leftmost s)); [by rewrite EN|done]. }
  rewrite E0, bind_ret.
  assert (F0 : focus s0 C (Node c l n r)) by (unfold s0; by destruct (cached && (n =? rb_leftmost s))).
  assert (D0 : dok val (data s0) (plug C (Node c l n r))) by (rewrite <- ET; unfold s0; by destruct (cached && (n =? rb_leftmost s))).
  rewrite ET in RB |- *. eapply returns_bind; [by apply (erase_body_ok val cb s0 C c l n r)|].
  rewrite EK. intros [s1 reb] (C1 & t1 & F1 & E1 & D1 & [[-> RB1]|(-> & NC & -> & HC)] & S1).
  - cbn [Z.eqb negb]. cbv iota. apply returns_ret. exists (plug C1 t1). split; [by apply focus_holds|]. split; [done|].
    split; [by rewrite inorder_plug|]. done.
  - assert (Hnz : par C1 <> 0).
    { destruct C1 as [|[d1 c1 p1 sb1] C1]; [done|]. destruct F1 as (_ & _ & HP). simpl. apply ptr_nz. forall_part. }
    rewrite (proj2 (Z.eqb_neq _ _) Hnz). cbn [negb]. cbv iota. eapply rb_erase_color_ok; try done.
    rewrite <- EK, inorder_plug. intros q. rewrite !cwrap_perm. cbn [inorder]. set_solver.
Qed.

End erase_with.

(** ** Balance *)

Fixpoint height (t : tree) : nat := match t with Leaf => 0 | Node _ l _ r => S (Nat.max (height l) (height r)) end.
Lemma rbt_bounds h t : rbt h t ->
  (2 ^ h <= S (length (inorder t)))%nat /\ (height t <= 2 * h + match root_color t with Red => 1 | Black => 0 end)%nat.
Proof.
  induction 1 as [|h l p r _ [L1 L2] _ [R1 R2] Bl Br|h l p r _ [L1 L2] _ [R1 R2]]; simpl; [lia| |].
  - rewrite Bl in L2. rewrite Br in R2. rewrite length_app. simpl. lia.
  - rewrite length_app. simpl. destruct (root_color l), (root_color r); lia.
Qed.
Lemma red_black_height t : red_black t -> (height t <= 2 * Nat.log2 (S (length (inorder t))))%nat.
Proof.
  intros (Hb & h & Ht). destruct (rbt_bounds h t Ht) as [H1 H2]. rewrite Hb in H2.
  apply Nat.log2_le_pow2 in H1; lia.
Qed.

(** ** Operations on lists of nodes *)

Fixpoint ins_before (p n : Z) (l : list Z) : list Z :=
  match l with [] => [] | x :: l => if x =? p then n :: x :: l else x :: ins_before p n l end.
Fixpoint ins_after (p n : Z) (l : list Z) : list Z :=
  match l with [] => [] | x :: l => if x =? p then x :: n :: l else x :: ins_after p n l end.
Fixpoint remove_node (n : Z) (l : list Z) : list Z :=
  match l with [] => [] | x :: l => if x =? n then l else x :: remove_node n l end.
Fixpoint subst_node (v new : Z) (l : list Z) : list Z :=
  match l with [] => [] | x :: l => if x =? v then new :: l else x :: subst_node v new l end.

Lemma before_middle A B p n : p ∉ A -> ins_before p n (A ++ p :: B) = A ++ n :: p :: B.
Proof.
  induction A as [|a A IH]; simpl; [by rewrite Z.eqb_refl|]. rewrite not_elem_of_cons. intros [Ha Hp].
  rewrite (proj2 (Z.eqb_neq a p)) by congruence. by rewrite IH.
Qed.
Lemma after_middle A B p n : p ∉ A -> ins_after p n (A ++ p :: B) = A ++ p :: n :: B.
Proof.
  induction A as [|a A IH]; simpl; [by rewrite Z.eqb_refl|]. rewrite not_elem_of_cons. intros [Ha Hp].
  rewrite (proj2 (Z.eqb_neq a p)) by congruence. by rewrite IH.
Qed.
Lemma remove_middle A B n : n ∉ A -> remove_node n (A ++ n :: B) = A ++ B.
Proof.
  induction A as [|a A IH]; simpl; [by rewrite Z.eqb_refl|]. rewrite not_elem_of_cons. intros [Ha Hp].
  rewrite (proj2 (Z.eqb_neq a n)) by congruence. by rewrite IH.
Qed.
Lemma subst_middle A B v new : v ∉ A -> subst_node v new (A ++ v :: B) = A ++ new :: B.
Proof.
  induction A as [|a A IH]; simpl; [by rewrite Z.eqb_refl|]. rewrite not_elem_of_cons. intros [Ha Hp].
  rewrite (proj2 (Z.eqb_neq a v)) by congruence. by rewrite IH.
Qed.

(** An insertion at the leaf a search ended at, a removal, a replacement. *)
Inductive rb_op : Type := Insert (n : Z) (at_ : link) | Erase (n : Z) | Replace (v new : Z).
Definition link_parent (k : link) : Z := match k with LRoot => 0 | LLeft p => p | LRight p => p end.
Definition list_op (op : rb_op) (l : list Z) : list Z :=
  match op with
  | Insert n LRoot => [n]
  | Insert n (LLeft p) => ins_before p n l
  | Insert n (LRight p) => ins_after p n l
  | Erase n => remove_node n l
  | Replace v new => subst_node v new l
  end.
(** A node outside the tree. *)
Definition fresh_node {D} (s : rb_store D) (l : list Z) (n : Z) : Prop := ptr n /\ is_Some (nodes s !! n) /\ n ∉ l.
Definition op_pre {D} (s : rb_store D) (l : list Z) (op : rb_op) : Prop :=
  match op with
  | Insert n LRoot => fresh_node s l n /\ root_node s = 0
  | Insert n (LLeft p) => fresh_node s l n /\ p ∈ l /\ get_left s p = Ret 0
  | Insert n (LRight p) => fresh_node s l n /\ p ∈ l /\ get_right s p = Ret 0
  | Erase n => n ∈ l
  | Replace v new => v ∈ l /\ fresh_node s l new
  end.
(** The functions for a root with a cached leftmost node, whose callers say
    whether a new node is the first one, and those for a plain root. *)
Definition run_op {D} (cached : bool) (s : rb_store D) (l : list Z) (op : rb_op) : outcome (rb_store D) :=
  match op with
  | Insert n k =>
      s ← rb_link_node s n (link_parent k) k;
      if cached then rb_insert_color_cached s n (hd 0 (list_op op l) =? n) else rb_insert_color s n
  | Erase n => if cached then rb_erase_cached s n else rb_erase s n
  | Replace v new => if cached then rb_replace_node_cached s v new else rb_replace_node s v new
  end.

Inductive reach {D} (cached : bool) (s0 : rb_store D) : rb_store D -> list Z -> Prop :=
  | reach_empty : reach cached s0 (set_leftmost (set_root s0 0) 0) []
  | reach_op s l op s' :
      reach cached s0 s l -> op_pre s l op -> run_op cached s l op = Ret s' -> reach cached s0 s' (list_op op l).

(** A tree with the nodes [l] in order. *)
Definition tree_list {D} (cached : bool) (s : rb_store D) (l : list Z) : Prop :=
  exists T, holds s T /\ red_black T /\ inorder T = l /\ (cached = true -> rb_leftmost s = hd 0 l).

Section cached.
Context {D : Type}.
Implicit Types s : rb_store D.
Definition tt_val (d : D) (p : Z) (K : list Z) : Prop := True.

#[local] Instance tt_laws : AugmentLaws tt_val dummy_callbacks := dummy_laws.

Lemma dok_true (d : D) t : dok tt_val d t.
Proof using. induction t; simpl; split_and?; done. Qed.
Lemma nodup_mid_l (A B : list Z) n : NoDup (A ++ n :: B) -> n ∉ A.
Proof using. intros H. distinct. Qed.

(** An insertion at the leaf [C]. *)
Lemma insert_at_ok cached s C n :
  holds s (plug C Leaf) -> red_black (plug C Leaf) -> (cached = true -> rb_leftmost s = hd 0 (inorder (plug C Leaf))) ->
  fresh_node s (inorder (plug C Leaf)) n ->
  returns (s ← rb_link_node s n (fst (link_at C)) (snd (link_at C));
           if cached then rb_insert_color_cached s n (hd 0 (cwrap C [n]) =? n) else rb_insert_color s n)
    (fun s' => tree_list cached s' (cwrap C [n]) /\ stable (n :: inorder (plug C Leaf)) (set_leftmost s (rb_leftmost s')) s').
Proof using.
  intros HT RB HL (pn & Hn & Nn). destruct (link_node_ok s C n HT pn Hn Nn) as (s1 & -> & F & Ed & El & Out). rewrite bind_ret.
  set (nl := cached && (hd 0 (cwrap C [n]) =? n)).
  assert (E0 : (if cached then rb_insert_color_cached s1 n (hd 0 (cwrap C [n]) =? n) else rb_insert_color s1 n) =
    rb_insert (rotate dummy_callbacks) s1 n nl cached) by (unfold nl; by destruct cached).
  rewrite E0. eapply returns_mono; [apply (rb_insert_ok tt_val dummy_callbacks s1 C n nl cached F RB (dok_true _ _)); unfold nl; by destruct cached|].
  intros s' (T & HT' & RB' & E & _ & [SL SN]). destruct (cwrap_split C) as (A & B & H).
  assert (EK : inorder (plug C Leaf) = A ++ B) by (rewrite inorder_plug, H; done).
  split.
  - exists T. split; [done|]. split; [done|]. split; [done|]. intros ->. specialize (HL eq_refl). unfold nl in SL. cbn [andb] in SL. rewrite SL.
    destruct (hd 0 (cwrap C [n]) =? n) eqn:Eh.
    + apply Z.eqb_eq in Eh. by rewrite Eh.
    + cbn [rb_leftmost]. rewrite El, HL, EK, H. rewrite H in Eh. destruct A as [|a A]; [|done]. simpl in Eh. by rewrite Z.eqb_refl in Eh.
  - split; [done|]. intros q Hq. rewrite SN by (rewrite H; rewrite EK in Hq; set_solver).
    assert (Es : nodes (if nl then set_leftmost s1 n else s1) = nodes s1) by (by destruct nl).
    rewrite Es. apply Out. rewrite plug_perm in Hq. simpl in Hq. done.
Qed.

(** The leaf beside a node without a child on side [d]. *)
Lemma leaf_beside s T l d p :
  holds s T -> inorder T = l -> p ∈ l -> get_side d s p = Ret 0 ->
  exists C, T = plug C Leaf /\ link_at C = (p, match d with L => LLeft p | R => LRight p end) /\
    forall n, cwrap C [n] = match d with L => ins_before p n l | R => ins_after p n l end.
Proof using.
  intros HT E Hp Hg. subst l. destruct (locate T p Hp) as (C & c & l & r & ->). pose proof HT as HT'. apply focus_holds in HT as ((_ & Hm & _) & Hd & HP).
  assert (pp : ptr p) by forall_part. assert (pl : Forall ptr (inorder l)) by forall_part. assert (pr : Forall ptr (inorder r)) by forall_part.
  assert (Hm' : nodes s !! p = Some (mkd d (bits (par C) c) (match d with L => addr l | R => addr r end) (match d with L => addr r | R => addr l end))) by (rewrite Hm; by destruct d).
  rewrite (get_side_ok _ _ _ _ _ _ pp Hm') in Hg. inversion Hg as [E0]. destruct (cwrap_split C) as (A & B & H).
  assert (HN : NoDup (inorder (plug C (Node c l p r)))) by apply HT'. rewrite inorder_plug, H in HN. cbn [inorder] in HN.
  destruct d.
  - apply addr_nil in E0; [|done]. subst l. exists (Fr L c p r :: C). split; [done|]. split; [done|]. intros n.
    cbn [cwrap wrap app]. rewrite H, inorder_plug, H. cbn [inorder app]. rewrite before_middle; [done|]. cbn [inorder app] in HN. distinct.
  - apply addr_nil in E0; [|done]. subst r. exists (Fr R c p l :: C). split; [done|]. split; [done|]. intros n.
    cbn [cwrap wrap app]. rewrite H, inorder_plug, H. cbn [inorder app].
    replace (A ++ (inorder l ++ [p]) ++ B) with ((A ++ inorder l) ++ p :: B) by (by flat).
    rewrite after_middle; [by flat|]. cbn [inorder app] in HN. distinct.
Qed.

Definition op_nodes (op : rb_op) : list Z := match op with Insert n _ => [n] | Erase n => [] | Replace _ new => [new] end.

Lemma leaf_of_link s T l n k : holds s T -> inorder T = l -> op_pre s l (Insert n k) ->
  exists C, T = plug C Leaf /\ link_at C = (link_parent k, k) /\ cwrap C [n] = list_op (Insert n k) l.
Proof using.
  intros HT E Hpre. destruct k as [|p|p].
  - destruct Hpre as (_ & H0). exists []. destruct HT as ((_ & Hr) & _ & HP). rewrite H0 in Hr. symmetry in Hr. by rewrite (addr_nil T).
  - destruct Hpre as (_ & Hp & Hg). destruct (leaf_beside s T l L p HT E Hp Hg) as (C & H1 & H2 & H3). exists C. by rewrite H3.
  - destruct Hpre as (_ & Hp & Hg). destruct (leaf_beside s T l R p HT E Hp Hg) as (C & H1 & H2 & H3). exists C. by rewrite H3.
Qed.

Lemma run_erase_ok cached s l n : tree_list cached s l -> n ∈ l ->
  returns (run_op cached s l (Erase n)) (fun s' => tree_list cached s' (remove_node n l) /\ stable l (set_leftmost s (rb_leftmost s')) s').
Proof using.
  intros (T & HT & RB & E & HL) Hn. apply list_elem_of_split in Hn as (A & B & El). rewrite El in E. cbn [run_op].
  assert (E0 : (if cached then rb_erase_cached s n else rb_erase s n) = erase_with dummy_callbacks s n cached) by (by destruct cached).
  rewrite E0. eapply returns_mono; [eapply (erase_with_ok tt_val dummy_callbacks s T n cached A B HT RB (dok_true _ _) E)|].
  assert (HN : NoDup (A ++ n :: B)) by (rewrite <- E; apply HT).
  intros s' (T' & HT' & RB' & E' & _ & [SL SN]). rewrite El, remove_middle by (by eapply nodup_mid_l). split.
  - exists T'. split; [done|]. split; [done|]. split; [done|]. intros ->. specialize (HL eq_refl). cbn [andb] in SL. rewrite SL, HL, El.
    destruct A as [|a A]; simpl; [by rewrite Z.eqb_refl|]. rewrite (proj2 (Z.eqb_neq n a)); [by rewrite HL, El|distinct].
  - split; [done|]. intros q Hq. rewrite SN by (by rewrite E). by destruct (cached && (n =? rb_leftmost s)).
Qed.

Lemma run_replace_ok cached s l v new : tree_list cached s l -> v ∈ l -> fresh_node s l new ->
  returns (run_op cached s l (Replace v new))
    (fun s' => tree_list cached s' (subst_node v new l) /\ stable (new :: l) (set_leftmost s (rb_leftmost s')) s').
Proof using.
  intros (T & HT & RB & E & HL) Hv (pn & Hn & Nn). apply list_elem_of_split in Hv as (A & B & El). rewrite El in E.
  destruct (locate_split s T A v B HT E) as (C & c & lt & r & -> & F & _ & _).
  destruct (replace_ok s C c lt v r new F pn Hn) as (s1 & E1 & F1 & Ed & [SL SN]); [by rewrite E, <- El|].
  set (s2 := if cached && (rb_leftmost s1 =? v) then set_leftmost s1 new else s1).
  assert (E0 : run_op cached s l (Replace v new) = Ret s2).
  { cbn [run_op]. unfold rb_replace_node_cached, s2. rewrite E1. by destruct cached. }
  rewrite E0. apply returns_ret. assert (HN : NoDup (A ++ v :: B)) by (rewrite <- E; apply HT).
  assert (EC : cwrap C (inorder (Node c lt new r)) = A ++ new :: B).
  { destruct (cwrap_split C) as (A' & B' & H). rewrite H. rewrite inorder_plug, H in E. cbn [inorder] in *.
    assert (E2 : A ++ v :: B = (A' ++ inorder lt) ++ v :: inorder r ++ B') by (rewrite <- E; by flat).
    destruct (nodup_middle _ _ _ _ _ HN E2) as [-> ->]. by flat. }
  assert (RB1 : red_black (plug C (Node c lt new r))).
  { destruct (cok_unplug _ _ RB) as (h & HC & Hh & Hb). eapply cok_plug; [exact HC| |exact Hb]. inversion Hh; subst; by constructor. }
  rewrite El, subst_middle by (by eapply nodup_mid_l). split.
  - exists (plug C (Node c lt new r)). split; [apply focus_holds; unfold s2; by destruct (cached && (rb_leftmost s1 =? v))|].
    split; [done|]. split; [by rewrite inorder_plug|]. intros ->. specialize (HL eq_refl). unfold s2. cbn [andb]. rewrite SL, HL, El.
    destruct A as [|a A]; simpl; [by rewrite Z.eqb_refl|]. rewrite (proj2 (Z.eqb_neq a v)); [by rewrite SL, HL, El|].
    assert (v <> a) by distinct. congruence.
  - split; [done|]. intros q Hq. rewrite <- E in Hq. pose proof (SN q Hq) as Hs. unfold s2. by destruct (cached && (rb_leftmost s1 =? v)).
Qed.

Lemma op_ok cached s l op : tree_list cached s l -> op_pre s l op ->
  returns (run_op cached s l op) (fun s' => tree_list cached s' (list_op op l) /\ stable (op_nodes op ++ l) (set_leftmost s (rb_leftmost s')) s').
Proof using.
  intros HTl Hpre. destruct op as [n k|n|v new].
  - destruct HTl as (T & HT & RB & E & HL). assert (Hf : fresh_node s l n) by (destruct k; apply Hpre).
    destruct (leaf_of_link s T l n k HT E Hpre) as (C & -> & Hk & Hc). subst l.
    pose proof (insert_at_ok cached s C n HT RB HL Hf) as HI. rewrite Hk in HI. cbn [run_op]. by rewrite <- Hc.
  - by apply run_erase_ok.
  - apply run_replace_ok; [done|apply Hpre..].
Qed.

Lemma reach_tree cached (s0 s : rb_store D) l : reach cached s0 s l -> tree_list cached s l.
Proof using.
  induction 1 as [|s l op s' _ IH Hpre Hrun].
  - exists Leaf. split; [|split; [split; [done|exists O; constructor]|done]]. split; [done|]. split; constructor.
  - pose proof (op_ok cached s l op IH Hpre) as H. rewrite Hrun in H. apply H.
Qed.

(** A parent comes after its children in the post-order list. *)
Lemma parent_later s T n p : holds s T -> n ∈ inorder T -> rb_parent s n = Ret p -> p <> 0 ->
  exists A B C, postorder T = A ++ n :: B ++ p :: C.
Proof using.
  intros HT Hn Hp Np. destruct (locate T n Hn) as (C & c & l & r & ->). apply focus_holds in HT as ((_ & Hm & _) & _ & HP).
  assert (pn : ptr n) by forall_part. change (mk_node (bits (par C) c) (addr r) (addr l)) with (mkd L (bits (par C) c) (addr l) (addr r)) in Hm.
  unfold rb_parent in Hp. rewrite (get_pc_ok _ _ _ _ _ _ pn Hm), bind_ret in Hp.
  destruct (bits_parent (par C) c) as (E & _ & _); [apply par_ok; forall_part|]. rewrite E in Hp. inversion Hp; subst p.
  destruct (postorder_plug C) as (A & HC). rewrite HC. cbn [postorder].
  destruct C as [|[d c' p sib] C]; [done|]. exists (A ++ postorder l ++ postorder r).
  destruct d; [exists (postorder sib)|exists []]; exists (popost C); cbn [popost par app]; by rewrite <- !app_assoc.
Qed.

Lemma cleared_ok s n : ptr n -> is_Some (nodes s !! n) ->
  returns (RB_CLEAR_NODE s n) (fun s' => rb_next s' n = Ret 0 /\ rb_prev s' n = Ret 0).
Proof using.
  intros pn [x Hx]. unfold RB_CLEAR_NODE, set_pc. erewrite upd_node_ok by first [nz|eassumption]. apply returns_ret.
  unfold rb_next, rb_prev, RB_EMPTY_NODE, get_pc. erewrite get_node_ok by first [nz|mem_lookup]. rewrite !bind_ret.
  cbn [rb_parent_color]. by rewrite Z.eqb_refl.
Qed.

End cached.

(** ** The callbacks of [RB_DECLARE_CALLBACKS] *)

(** [rbcompute] computes [F] of a subtree from the values of the two children. *)
Class AugmentCompute {A} (rbcompute : rb_store (gmap Z A) -> Z -> outcome A) (F : list Z -> A) (f : Z -> A -> A -> A) : Prop := {
  fold_split K p K' : F (K ++ p :: K') = f p (F K) (F K');
  compute_ok s p n a b :
    p <> 0 -> nodes s !! p = Some n ->
    (if rb_left n =? 0 then Some (F []) else data s !! rb_left n) = Some a ->
    (if rb_right n =? 0 then Some (F []) else data s !! rb_right n) = Some b ->
    rbcompute s p = Ret (f p a b)
}.

Section declare.
Context {A : Type} `{EqDecision A} (rbcompute : rb_store (gmap Z A) -> Z -> outcome A) (F : list Z -> A) (f : Z -> A -> A -> A)
  `{!AugmentCompute rbcompute F f}.

Definition aug_val (d : gmap Z A) (p : Z) (K : list Z) : Prop := d !! p = Some (F K).

Lemma aug_tree d t : dok aug_val d t -> Forall ptr (inorder t) ->
  (if addr t =? 0 then Some (F []) else d !! addr t) = Some (F (inorder t)).
Proof using AugmentCompute0.
  destruct t as [|c l p r]; [done|]. intros (_ & V & _) HP. cbn [addr]. rewrite (proj2 (Z.eqb_neq p 0)); [exact V|].
  apply ptr_nz. forall_part.
Qed.
Lemma compute_node s p n ta tb :
  nodes s !! p = Some n -> rb_left n = addr ta -> rb_right n = addr tb -> ptr p ->
  dok aug_val (data s) ta -> dok aug_val (data s) tb -> Forall ptr (inorder ta) -> Forall ptr (inorder tb) ->
  rbcompute s p = Ret (F (inorder ta ++ p :: inorder tb)).
Proof using AugmentCompute0.
  intros Hn El Er Hp Da Db Pa Pb. rewrite (fold_split (rbcompute := rbcompute) (f := f)). apply (compute_ok (F := F) s p n); [nz|done| |].
  - rewrite El. by apply aug_tree.
  - rewrite Er. by apply aug_tree.
Qed.
Lemma get_aug_ok s p K : ptr p -> aug_val (data s) p K -> get_aug s p = Ret (F K).
Proof using AugmentCompute0. intros Hp V. unfold get_aug. rewrite (proj2 (Z.eqb_neq p 0)) by nz. unfold aug_val in V. by rewrite V. Qed.
Lemma set_aug_ok s p K a : ptr p -> aug_val (data s) p K -> set_aug s p a = Ret (set_data s (<[p := a]> (data s))).
Proof using AugmentCompute0. intros Hp V. unfold set_aug. by rewrite (get_aug_ok s p K Hp V). Qed.
Lemma same_insert (d : gmap Z A) p a : same_except aug_val [p] d (<[p := a]> d).
Proof using AugmentCompute0. intros q K Hq V. unfold aug_val. rewrite lookup_insert_ne; [done|]. intros <-. apply Hq. left. Qed.
Lemma same_sub X Y (d d' : gmap Z A) : X ⊆ Y -> same_except aug_val X d d' -> same_except aug_val Y d d'.
Proof using AugmentCompute0. intros HX H q K Hq. apply H. set_solver. Qed.
Lemma same_trans X (d d1 d2 : gmap Z A) : same_except aug_val X d d1 -> same_except aug_val X d1 d2 -> same_except aug_val X d d2.
Proof using AugmentCompute0. intros H1 H2 q K Hq V. eauto. Qed.
Lemma not_in_one (x : Z) (l : list Z) : x ∉ l -> forall q, q ∈ [x] -> q ∉ l.
Proof using AugmentCompute0. intros H q Hq%list_elem_of_singleton. by subst. Qed.

Lemma rotate_law s old new n ta tb K K1 :
  nodes s !! old = Some n -> rb_left n = addr ta -> rb_right n = addr tb -> ptr old -> ptr new ->
  NoDup (old :: new :: inorder ta ++ inorder tb) -> Forall ptr (inorder ta ++ inorder tb) ->
  dok aug_val (data s) ta -> dok aug_val (data s) tb -> aug_val (data s) old K -> aug_val (data s) new K1 ->
  returns (rbname_rotate rbcompute old new s) (fun d => aug_val d new K /\ aug_val d old (inorder ta ++ old :: inorder tb) /\
    same_except aug_val [old; new] (data s) d).
Proof using AugmentCompute0.
  intros Hn El Er po pw Hd HP Da Db Vo Vn. assert (pa : Forall ptr (inorder ta)) by forall_part. assert (pb : Forall ptr (inorder tb)) by forall_part.
  unfold rbname_rotate. rewrite (get_aug_ok s old K po Vo), bind_ret, (set_aug_ok s new K1 _ pw Vn), bind_ret.
  set (d1 := <[new := F K]> (data s)). assert (S1 : same_except aug_val [new] (data s) d1) by apply same_insert.
  rewrite (compute_node (set_data s d1) old n ta tb) by
    (done || (cbn [data set_data]; eapply dok_same; [exact S1|apply not_in_one; distinct|done])).
  rewrite bind_ret. erewrite set_aug_ok; [|done|]. 2:{ cbn [data set_data]. apply S1; [|exact Vo]. rewrite not_elem_of_cons. split; [distinct|apply not_elem_of_nil]. }
  rewrite bind_ret. cbn [data set_data]. apply returns_ret. split; [|split].
  - unfold aug_val. rewrite lookup_insert_ne by distinct. apply lookup_insert_eq.
  - apply lookup_insert_eq.
  - eapply same_trans; [eapply same_sub; [|exact S1]; set_solver|eapply same_sub; [|apply same_insert]; set_solver].
Qed.

Lemma cdok_change d C K K' : F K = F K' -> cdok aug_val d C K -> cdok aug_val d C K'.
Proof using AugmentCompute0.
  revert K K'. induction C as [|[s c p sib] C IH]; intros K K' E; simpl; [done|]. intros (H1 & V & H2).
  assert (Ew : F (wrap s p sib K) = F (wrap s p sib K')).
  { destruct s; cbn [wrap]; rewrite !(fold_split (rbcompute := rbcompute) (f := f)); by rewrite E. }
  split; [done|]. split; [unfold aug_val in *; by rewrite <- Ew|]. by apply (IH _ _ Ew).
Qed.

Lemma propagate_turn_eq stop s rb : rb_propagate_turn rbcompute stop (s, rb) =
  (if rb =? stop then Ret (inr s) else
   augmented ← rbcompute s rb; v ← get_aug s rb;
   if decide (v = augmented) then Ret (inr s) else
   s ← set_aug s rb augmented; rb ← rb_parent s rb; Ret (inl (s, rb))).
Proof using AugmentCompute0. done. Qed.
Lemma propagate_law fuel s x n ta tb C stop K :
  nodes s !! x = Some n -> rb_left n = addr ta -> rb_right n = addr tb ->
  parent_bits (rb_parent_color n) = match C with [] => stop | Fr _ _ q _ :: _ => q end ->
  path (nodes s) C x stop -> (S (length C) < fuel)%nat ->
  NoDup (stop :: x :: inorder ta ++ inorder tb ++ caddrs C) -> Forall ptr (x :: inorder ta ++ inorder tb ++ caddrs C) ->
  dok aug_val (data s) ta -> dok aug_val (data s) tb -> aug_val (data s) x K -> cdok aug_val (data s) C K ->
  returns (loop fuel (rb_propagate_turn rbcompute stop) (s, x)) (fun s' => let d := data s' in
    dok aug_val d ta /\ dok aug_val d tb /\ aug_val d x (inorder ta ++ x :: inorder tb) /\
    cdok aug_val d C (inorder ta ++ x :: inorder tb) /\ same_except aug_val (x :: caddrs C) (data s) d).
Proof using AugmentCompute0.
  revert fuel s x n ta tb K. induction C as [|[sd c p sib] C IH]; intros fuel s x n ta tb K Hn El Er Ep Hpath Hf Hd HP Da Db V DC;
    (destruct fuel as [|fuel]; [lia|]); assert (px : ptr x) by forall_part;
    assert (pa : Forall ptr (inorder ta)) by forall_part; assert (pb : Forall ptr (inorder tb)) by forall_part;
    set (K' := inorder ta ++ x :: inorder tb) in *; rewrite loop_S, propagate_turn_eq;
    rewrite (proj2 (Z.eqb_neq x stop)) by (assert (stop <> x) by distinct; congruence);
    rewrite (compute_node s x n ta tb) by done; rewrite bind_ret, (get_aug_ok s x K px V), bind_ret; fold K';
    (destruct (decide (F K = F K')) as [E|E]; [rewrite bind_ret; apply returns_ret; cbn zeta; split; [done|]; split; [done|];
      split; [unfold aug_val in *; by rewrite <- E|]; split; [by eapply cdok_change|apply same_refl]|]);
    rewrite (set_aug_ok s x K _ px V), bind_ret; unfold rb_parent, get_pc;
    rewrite (get_node_ok _ x n) by (done || nz); rewrite !bind_ret, Ep;
    set (s1 := set_data s (<[x := F K']> (data s)));
    assert (S1 : same_except aug_val [x] (data s) (data s1)) by apply same_insert;
    assert (V1 : aug_val (data s1) x K') by apply lookup_insert_eq.
  - destruct fuel as [|fuel]; [lia|]. rewrite loop_S, propagate_turn_eq, Z.eqb_refl, bind_ret. apply returns_ret. cbn zeta.
    split; [eapply dok_same; [exact S1|apply not_in_one; distinct|done]|].
    split; [eapply dok_same; [exact S1|apply not_in_one; distinct|done]|]. split; [exact V1|]. split; [done|exact S1].
  - destruct Hpath as ((pc & Hp & Epc) & Hs & Hpath). destruct DC as (Ds & Vp & DC).
    assert (D1 : dok aug_val (data s1) (Node Red ta x tb)).
    { split; [eapply dok_same; [exact S1|apply not_in_one; distinct|done]|]. split; [exact V1|].
      eapply dok_same; [exact S1|apply not_in_one; distinct|done]. }
    assert (Ds1 : dok aug_val (data s1) sib) by (eapply dok_same; [exact S1|apply not_in_one; distinct|done]).
    assert (Vp1 : aug_val (data s1) p (wrap sd p sib K)).
    { apply S1; [|done]. rewrite not_elem_of_cons. split; [distinct|apply not_elem_of_nil]. }
    assert (DC1 : cdok aug_val (data s1) C (wrap sd p sib K)) by (eapply cdok_same; [exact S1|apply not_in_one; distinct|done]).
    eapply returns_mono; [eapply (IH fuel s1 p (mkd sd pc x (addr sib)) (match sd with L => Node Red ta x tb | R => sib end)
      (match sd with L => sib | R => Node Red ta x tb end) (wrap sd p sib K))|];
      [exact Hp|by destruct sd|by destruct sd|by destruct sd|done|simpl in Hf; lia|destruct sd; nodup_part|destruct sd; forall_part
      |by destruct sd|by destruct sd|done|done|].
    intros s' H. cbn zeta in H |- *. destruct H as (H1 & H2 & H3 & H4 & H5).
    assert (Dx : dok aug_val (data s') (Node Red ta x tb) /\ dok aug_val (data s') sib) by (destruct sd; done).
    destruct Dx as [(Dx1 & Dx2 & Dx3) Dsib]. split; [done|]. split; [done|]. split; [done|]. split.
    + split; [done|]. split; [destruct sd; exact H3|destruct sd; exact H4].
    + eapply same_trans; [eapply same_sub; [|exact S1]|eapply same_sub; [|exact H5]]; set_solver.
Qed.

#[export] Instance rbname_laws : AugmentLaws aug_val (rbname rbcompute).
Proof using AugmentCompute0.
  split.
  - apply rotate_law.
  - intros s old new K K1 po pw Vo Vn. cbn [copy rbname]. unfold rbname_copy.
    rewrite (get_aug_ok s old K po Vo), bind_ret, (set_aug_ok s new K1 _ pw Vn), bind_ret. apply returns_ret. cbn [data set_data].
    split; [apply lookup_insert_eq|apply same_insert].
  - intros s x n ta tb C stop K Hn El Er Ep Hpath Hf Hd HP Da Db V DC. cbn [propagate rbname]. unfold rbname_propagate.
    eapply returns_bind; [eapply (propagate_law (rb_fuel s)); try eassumption; unfold rb_fuel; lia|]. intros s' Hs'. exact Hs'.
  - intros s stop. cbn [propagate rbname]. unfold rbname_propagate, rb_fuel. rewrite loop_S, propagate_turn_eq, Z.eqb_refl, !bind_ret.
    apply returns_ret, same_refl.
Qed.

End declare.

(** A tree whose nodes all have the value of their subtree. *)
Definition aug_list {A} (F : list Z -> A) (s : rb_store (gmap Z A)) (l : list Z) : Prop :=
  exists T, holds s T /\ red_black T /\ inorder T = l /\ forall C c x p y, T = plug C (Node c x p y) -> data s !! p = Some (F (inorder (Node c x p y))).
(** An insertion that first refreshes the path above the new node. *)
Definition insert_refresh {A} `{EqDecision A} (rbcompute : rb_store (gmap Z A) -> Z -> outcome A) (s : rb_store (gmap Z A)) (n : Z) (k : link) : outcome (rb_store (gmap Z A)) :=
  s ← rb_link_node s n (link_parent k) k;
  s ← call (propagate (rbname rbcompute)) s n 0;
  rb_insert_augmented (rbname rbcompute) s n.

Section augmented.
Context {A : Type} `{EqDecision A} (rbcompute : rb_store (gmap Z A) -> Z -> outcome A) (F : list Z -> A) (f : Z -> A -> A -> A)
  `{!AugmentCompute rbcompute F f}.

Lemma dok_everywhere d T : dok (aug_val F) d T <-> forall C c x p y, T = plug C (Node c x p y) -> d !! p = Some (F (inorder (Node c x p y))).
Proof using.
  split.
  - intros H C c x p y ->. apply dok_plug in H as (_ & _ & V & _). exact V.
  - intros H. assert (G : forall t C, T = plug C t -> dok (aug_val F) d t); [|by apply (G T [])].
    induction t as [|c l IHl p r IHr]; intros C E; [done|]. split; [by apply (IHl (Fr L c p r :: C))|].
    split; [exact (H C c l p r E)|by apply (IHr (Fr R c p l :: C))].
Qed.
Lemma done_aug s0 X K s : done_with (aug_val F) s0 X K s -> aug_list F s K.
Proof using. intros (T & HT & RB & E & Dk & _). exists T. split; [done|]. split; [done|]. split; [done|]. by apply dok_everywhere. Qed.

Lemma insert_refresh_ok s l n k :
  aug_list F s l -> op_pre s l (Insert n k) -> data s !! n = Some (F []) ->
  returns (insert_refresh rbcompute s n k) (fun s' => aug_list F s' (list_op (Insert n k) l)).
Proof using AugmentCompute0.
  intros (T & HT & RB & E & Dk) Hpre Hv. apply dok_everywhere in Dk. assert (Hf : fresh_node s l n) by (destruct k; apply Hpre).
  destruct (leaf_of_link s T l n k HT E Hpre) as (C & -> & Hk & <-). destruct Hf as (pn & Hn & Nn). subst l.
  destruct (link_node_ok s C n HT pn Hn Nn) as (s1 & E1 & F1 & Ed & _ & _). rewrite Hk in E1. unfold insert_refresh. cbn [fst snd] in E1.
  rewrite E1, bind_ret. apply dok_plug in Dk as (DC & _).
  eapply returns_bind; [eapply (prop_node_ok (aug_val F) (rbname rbcompute) s1 C n Red Leaf Leaf []); rewrite ?Ed; done|].
  intros s2 (F2 & D2 & _). eapply returns_mono; [eapply (rb_insert_ok (aug_val F) (rbname rbcompute) s2 C n false false); done|].
  intros s3 H3. by eapply done_aug.
Qed.

Lemma aug_erase_ok s l n : aug_list F s l -> n ∈ l ->
  returns (rb_erase_augmented (rbname rbcompute) s n) (fun s' => aug_list F s' (remove_node n l)).
Proof using AugmentCompute0.
  intros (T & HT & RB & E & Dk) Hn. apply dok_everywhere in Dk. apply list_elem_of_split in Hn as (L1 & L2 & El). rewrite El in E.
  eapply returns_mono; [eapply (erase_with_ok (aug_val F) (rbname rbcompute) s T n false L1 L2 HT RB Dk E)|].
  assert (HN : NoDup (L1 ++ n :: L2)) by (rewrite <- E; apply HT).
  intros s' H. rewrite El, remove_middle by (by eapply nodup_mid_l). by eapply done_aug.
Qed.

Lemma aug_root s l : aug_list F s l -> l <> [] -> data s !! root_node s = Some (F l).
Proof using.
  intros (T & ((_ & ->) & _) & _ & <- & Dk) Hl. destruct T as [|c x p y]; [done|]. exact (Dk [] c x p y eq_refl).
Qed.

End augmented.

(** Subtree sizes, as an augmented value. *)
Definition size_compute (s : rb_store (gmap Z Z)) (p : Z) : outcome Z :=
  l ← get_left s p; r ← get_right s p;
  a ← (if l =? 0 then Ret 0 else get_aug s l);
  b ← (if r =? 0 then Ret 0 else get_aug s r);
  Ret (a + 1 + b).
#[export] Instance size_laws : AugmentCompute size_compute (fun l => Z.of_nat (length l)) (fun _ a b => a + 1 + b).
Proof.
  split.
  - intros K p K'. rewrite length_app. simpl. lia.
  - intros s p n a b Hp Hn Ha Hb. unfold size_compute, get_left, get_right, get_aug. rewrite !(get_node_ok s p n) by done. rewrite !bind_ret.
    destruct (rb_left n =? 0), (rb_right n =? 0); simpl in Ha, Hb; simplify_eq; rewrite ?Ha, ?Hb; done.
Qed.

(** ** What the users rely on *)

(** C34: Whatever insertions at leaves, removals and replacements made the tree,
    with or without the cached leftmost node, its in-order list is the one the
    operations give on a list of nodes: the structure is a tree with consistent
    parent words, the root is black, no red node has a red child, all paths
    have as many black nodes, so that no node is deeper than twice the
    logarithm of the number of nodes plus one, and [rb_leftmost] is the first
    node.  Every further operation on nodes of the tree, or with a node outside it,
    returns, gives the next list, and changes no node but those of the tree. *)
Theorem rb_tree_refines {D} (cached : bool) (s0 s : rb_store D) (l : list Z) (H : reach cached s0 s l) :
  (exists T, holds s T /\ red_black T /\ inorder T = l /\ (height T <= 2 * Nat.log2 (S (length l)))%nat) /\
  (cached = true -> rb_leftmost s = hd 0 l) /\
  forall op, op_pre s l op ->
    returns (run_op cached s l op) (fun s' => reach cached s0 s' (list_op op l) /\ stable (op_nodes op ++ l) (set_leftmost s (rb_leftmost s')) s').
Proof.
  pose proof (reach_tree cached s0 s l H) as HT. split; [|split].
  - destruct HT as (T & HT & RB & E & _). exists T. split; [done|]. split; [done|]. split; [done|]. rewrite <- E. by apply red_black_height.
  - by destruct HT as (T & _ & _ & _ & HL).
  - intros op Hpre. pose proof (op_ok cached s l op HT Hpre) as Ho. destruct (run_op cached s l op) as [s'| | |] eqn:Er; try done.
    destruct Ho as [_ Hs]. split; [by eapply reach_op|exact Hs].
Qed.

Definition W0 : rb_store unit := mk_store (list_to_map ((fun p => (p, mk_node 77 78 79)) <$> [8; 16; 24; 32])) 91 92 tt.
Definition Wempty : rb_store unit := set_leftmost (set_root W0 0) 0.
Definition step_store (s : rb_store unit) (l : list Z) (op : rb_op) : rb_store unit :=
  match run_op true s l op with Ret s' => s' | _ => s end.
Definition W1 : rb_store unit := Eval vm_compute in step_store Wempty [] (Insert 16 LRoot).
Definition W2 : rb_store unit := Eval vm_compute in step_store W1 [16] (Insert 8 (LLeft 16)).
Definition W3 : rb_store unit := Eval vm_compute in step_store W2 [8; 16] (Insert 24 (LRight 16)).
Definition W4 : rb_store unit := Eval vm_compute in step_store W3 [8; 16; 24] (Erase 16).

Lemma W3_reach : reach true W0 W3 [8; 16; 24].
Proof.
  assert (E1 : reach true W0 W1 [16]).
  { apply (reach_op true W0 Wempty [] (Insert 16 LRoot) W1); [apply reach_empty| |vm_compute; reflexivity].
    split; [|reflexivity]. split; [by vm_compute|]. split; [by eexists|apply not_elem_of_nil]. }
  assert (E2 : reach true W0 W2 [8; 16]).
  { apply (reach_op true W0 W1 [16] (Insert 8 (LLeft 16)) W2); [exact E1| |vm_compute; reflexivity].
    split; [|split; [left|reflexivity]]. split; [by vm_compute|]. split; [by eexists|]. by apply (bool_decide_unpack _). }
  apply (reach_op true W0 W2 [8; 16] (Insert 24 (LRight 16)) W3); [exact E2| |vm_compute; reflexivity].
  split; [|split; [by apply (bool_decide_unpack _)|reflexivity]]. split; [by vm_compute|]. split; [by eexists|]. by apply (bool_decide_unpack _).
Qed.
Lemma rb_tree_refines_witness :
  reach true W0 W3 [8; 16; 24] /\ rb_leftmost W3 = 8 /\ run_op true W3 [8; 16; 24] (Erase 16) = Ret W4 /\ reach true W0 W4 [8; 24].
Proof.
  split; [exact W3_reach|]. destruct (rb_tree_refines true W0 W3 [8; 16; 24] W3_reach) as (_ & HL & Hop).
  split; [exact (HL eq_refl)|]. split; [vm_compute; reflexivity|].
  assert (Hin : 16 ∈ [8; 16; 24]) by (by apply (bool_decide_unpack _)). specialize (Hop (Erase 16) Hin).
  assert (E : run_op true W3 [8; 16; 24] (Erase 16) = Ret W4) by (vm_compute; reflexivity).
  rewrite E in Hop. exact (proj1 Hop).
Defined.

(** C35: The walks follow the tree: [rb_first], [rb_last], [rb_next] and [rb_prev]
    give the ends and the neighbours in the in-order list, 0 beyond its ends;
    [rb_first_postorder] and [rb_next_postorder] go through a list
    with the same nodes in which every node comes before its parent; and from a
    node marked with [RB_CLEAR_NODE] both directions give 0. *)
Theorem rb_walk_spec {D} (cached : bool) (s : rb_store D) (l : list Z) (H : tree_list cached s l) :
  rb_first s = Ret (hd 0 l) /\ rb_last s = Ret (default 0 (last l)) /\
  (forall A n B, l = A ++ n :: B -> rb_next s n = Ret (hd 0 B) /\ rb_prev s n = Ret (default 0 (last A))) /\
  (exists P, P ≡ₚ l /\ rb_first_postorder s = Ret (hd 0 P) /\
    (forall A n B, P = A ++ n :: B -> rb_next_postorder s n = Ret (hd 0 B)) /\
    (forall n p, n ∈ l -> rb_parent s n = Ret p -> p <> 0 -> exists A B C, P = A ++ n :: B ++ p :: C)) /\
  (forall n, ptr n -> is_Some (nodes s !! n) -> returns (RB_CLEAR_NODE s n) (fun s' => rb_next s' n = Ret 0 /\ rb_prev s' n = Ret 0)).
Proof.
  destruct H as (T & HT & _ & <- & _). split; [by apply rb_first_ok|]. split; [by apply rb_last_ok|]. split.
  - intros A n B E. split; [by eapply rb_next_ok|by eapply rb_prev_ok].
  - split; [|by apply cleared_ok]. exists (postorder T). split; [apply postorder_perm|]. split; [by apply rb_first_postorder_ok|].
    split; [intros A n B E; by eapply rb_next_postorder_ok|]. intros n p Hn Hp Np. by eapply parent_later.
Qed.
Lemma rb_walk_spec_witness :
  tree_list true W3 [8; 16; 24] /\ rb_first W3 = Ret 8 /\ rb_next W3 8 = Ret 16 /\ rb_prev W3 8 = Ret 0 /\ rb_last W3 = Ret 24.
Proof.
  assert (H : tree_list true W3 [8; 16; 24]) by exact (reach_tree true W0 W3 _ W3_reach).
  split; [exact H|]. destruct (rb_walk_spec true W3 [8; 16; 24] H) as (H1 & H2 & H3 & _).
  split; [exact H1|]. split; [exact (proj1 (H3 [] 8 [16; 24] eq_refl))|]. split; [exact (proj2 (H3 [] 8 [16; 24] eq_refl))|exact H2].
Defined.

(** C36: With the callbacks that [RB_DECLARE_CALLBACKS] generates, for any
    value that a node's own data and the values of its children determine,
    every node keeps the value of its subtree: an insertion that links the node, with the value of an
    empty tree, and refreshes the path above it before [rb_insert_augmented],
    and [rb_erase_augmented], whose rotations, copies and
    propagation (which stops at the first value that does not change) leave
    no stale value; so the root has the value of the whole list. *)
Theorem rb_augmented_spec {A} `{EqDecision A} (rbcompute : rb_store (gmap Z A) -> Z -> outcome A) (F : list Z -> A) (f : Z -> A -> A -> A)
    (Hc : AugmentCompute rbcompute F f) (s : rb_store (gmap Z A)) (l : list Z) (H : aug_list F s l) :
  (forall n k, op_pre s l (Insert n k) -> data s !! n = Some (F []) ->
    returns (insert_refresh rbcompute s n k) (fun s' => aug_list F s' (list_op (Insert n k) l))) /\
  (forall n, n ∈ l -> returns (rb_erase_augmented (rbname rbcompute) s n) (fun s' => aug_list F s' (remove_node n l))) /\
  (l <> [] -> data s !! root_node s = Some (F l)).
Proof.
  split; [|split].
  - intros n k Hpre Hv. by eapply insert_refresh_ok.
  - intros n Hn. by eapply aug_erase_ok.
  - intros Hl. by eapply aug_root.
Qed.

Definition A0 : rb_store (gmap Z Z) :=
  mk_store (list_to_map [(8, mk_node 1 16 0); (16, mk_node 8 0 0); (24, mk_node 77 78 79)]) 8 0 (list_to_map [(8, 2); (16, 1); (24, 0)]).
Definition A1 : rb_store (gmap Z Z) := Eval vm_compute in match insert_refresh size_compute A0 24 (LRight 16) with Ret s => s | _ => A0 end.
Lemma rb_augmented_spec_witness :
  aug_list (fun l => Z.of_nat (length l)) A0 [8; 16] /\ op_pre A0 [8; 16] (Insert 24 (LRight 16)) /\
  insert_refresh size_compute A0 24 (LRight 16) = Ret A1 /\ aug_list (fun l => Z.of_nat (length l)) A1 [8; 16; 24] /\ data A1 !! 16 = Some 3.
Proof.
  set (F := fun l : list Z => Z.of_nat (length l)).
  assert (H : aug_list F A0 [8; 16]).
  { exists (Node Black Leaf 8 (Node Red Leaf 16 Leaf)). split; [|split; [|split; [done|]]].
    - split; [split; [|done]|split; [by apply (bool_decide_unpack _)|by repeat constructor]]. cbn [rep addr]. split_and!; done.
    - split; [done|]. exists 1%nat. by repeat constructor.
    - apply dok_everywhere. cbn [dok inorder app]. split_and!; done. }
  assert (Hp : op_pre A0 [8; 16] (Insert 24 (LRight 16))).
  { split; [|split; [by apply (bool_decide_unpack _)|reflexivity]]. split; [by vm_compute|]. split; [by eexists|]. by apply (bool_decide_unpack _). }
  split; [exact H|]. split; [exact Hp|]. assert (E : insert_refresh size_compute A0 24 (LRight 16) = Ret A1) by (vm_compute; reflexivity).
  split; [exact E|]. destruct (rb_augmented_spec size_compute F (fun _ a b => a + 1 + b) size_laws A0 [8; 16] H) as (Hi & _).
  specialize (Hi 24 (LRight 16) Hp eq_refl). rewrite E in Hi. split; [exact Hi|reflexivity].
Defined.
