(* ===== verification/Math64.v ===== *)
(** * 64-bit division and multiplication (lib/base math64.h, div64.h, div64.c)

    [Word64] has the functions of a 64-bit machine, among them the products of
    96 and 128 bits in both variants: with 128-bit integers and with words only.
    [Word32] has the functions that replace them where BITS_PER_LONG is 32.
    Signed arithmetic that leaves its type, shifts by the width of the type or
    more, and division by zero fault. *)
From stdpp Require Import base numbers list option.
From Stdlib Require Import ZArith Lia.
From S2P Require Import Prelude.

(** Results of signed arithmetic. *)
Definition int32 (z : Z) : outcome Z := if decide (- 2 ^ 31 <= z < 2 ^ 31) then Ret z else Fault.
Definition int64 (z : Z) : outcome Z := if decide (- 2 ^ 63 <= z < 2 ^ 63) then Ret z else Fault.

(** Division: nothing is divided by zero, and a signed quotient must be in range. *)
Definition nonzero (b : Z) : outcome unit := if b =? 0 then Fault else Ret tt.

(** The halves of a union of a 64-bit word and two 32-bit words, little endian. *)
Definition low (x : Z) : Z := u32 x.
Definition high (x : Z) : Z := u32 (Z.shiftr x 32).
Definition set_high (x h : Z) : Z := Z.lor (low x) (Z.shiftl (u32 h) 32).
Definition set_low (x l : Z) : Z := Z.lor (u32 l) (Z.shiftl (high x) 32).

(** Shifts of 64-bit words. *)
Definition shl64 (x n : Z) : outcome Z := if decide (0 <= n < 64) then Ret (u64 (Z.shiftl x n)) else Fault.
Definition shr64 (x n : Z) : outcome Z := if decide (0 <= n < 64) then Ret (Z.shiftr x n) else Fault.

Definition fls (x : Z) : Z := if x =? 0 then 0 else Z.log2 x + 1.

(** ** On both machines *)

Definition div_turn (divisor : Z) (s : Z * Z) : outcome ((Z * Z) + (Z * Z)) :=
  let '(dividend, ret) := s in
  if divisor <=? dividend then Ret (inl (dividend - divisor, u32 (ret + 1))) else Ret (inr (ret, dividend)).
(** The returned quotient and [*remainder]. *)
Definition __iter_div_u64_rem (dividend divisor : Z) : outcome (Z * Z) :=
  loop (S (Z.to_nat (dividend / divisor))) (div_turn divisor) (dividend, 0).
Definition iter_div_u64_rem (dividend divisor : Z) : outcome (Z * Z) := __iter_div_u64_rem dividend divisor.

Definition mul_u32_u32 (a b : Z) : Z := u64 (a * b).

(** With words of 64 bits only. *)
Definition mul_u64_u32_shr (a mul shift : Z) : outcome Z :=
  let al := u32 a in
  let ah := u32 (Z.shiftr a 32) in
  ret ← shr64 (mul_u32_u32 al mul) shift;
  if ah =? 0 then Ret ret
  else x ← shl64 (mul_u32_u32 ah mul) (32 - shift); Ret (u64 (ret + x)).

Definition mul_u64_u64_shr (a b shift : Z) : outcome Z :=
  let rl := mul_u32_u32 (low a) (low b) in
  let rm := mul_u32_u32 (low a) (high b) in
  let rn := mul_u32_u32 (high a) (low b) in
  let rh := mul_u32_u32 (high a) (high b) in
  let c := u64 (u64 (high rl + low rm) + low rn) in
  let rl := set_high rl (u32 c) in
  let c := u64 (u64 (u64 (Z.shiftr c 32 + high rm) + high rn) + low rh) in
  let rh := set_low rh (u32 c) in
  let rh := set_high rh (u32 (u64 (Z.shiftr c 32 + high rh))) in
  if shift =? 0 then Ret rl
  else if shift <? 64 then
    x ← shr64 rl shift; y ← shl64 rh (64 - shift); Ret (Z.lor x y)
  else shr64 rh (Z.land shift 63).

(** With integers of 128 bits. *)
Definition u128 (z : Z) : Z := z mod 2 ^ 128.
Definition shr128 (x n : Z) : outcome Z := if decide (0 <= n < 128) then Ret (Z.shiftr x n) else Fault.
Definition mul_u64_u32_shr_int128 (a mul shift : Z) : outcome Z := x ← shr128 (u128 (a * mul)) shift; Ret (u64 x).
Definition mul_u64_u64_shr_int128 (a mul shift : Z) : outcome Z := x ← shr128 (u128 (a * mul)) shift; Ret (u64 x).

(** [do_div(n, base)] of the machine: the new [n] and the value. *)
Class DoDiv : Type := do_div : Z -> Z -> outcome (Z * Z).

Definition mul_u64_u32_div `{DoDiv} (a mul divisor : Z) : outcome Z :=
  let u := a in
  let rl := mul_u32_u32 (low u) mul in
  let rh := u64 (mul_u32_u32 (high u) mul + high rl) in
  '(rh, rem) ← do_div rh divisor;
  let rl := set_high rl rem in
  '(rl, _) ← do_div rl divisor;
  Ret (set_high rl (low rh)).

(** ** 64-bit machines *)

Module Word64.
Definition div_u64_rem (dividend divisor : Z) : outcome (Z * Z) :=
  nonzero divisor;; Ret (dividend / divisor, u32 (dividend mod divisor)).
Definition div_s64_rem (dividend divisor : Z) : outcome (Z * Z) :=
  nonzero divisor;; q ← int64 (Z.quot dividend divisor); Ret (q, s32 (Z.rem dividend divisor)).
Definition div64_u64_rem (dividend divisor : Z) : outcome (Z * Z) :=
  nonzero divisor;; Ret (dividend / divisor, dividend mod divisor).
Definition div64_u64 (dividend divisor : Z) : outcome Z := nonzero divisor;; Ret (dividend / divisor).
Definition div64_s64 (dividend divisor : Z) : outcome Z := nonzero divisor;; int64 (Z.quot dividend divisor).
Definition div_u64 (dividend divisor : Z) : outcome Z := '(q, _) ← div_u64_rem dividend divisor; Ret q.
Definition div_s64 (dividend divisor : Z) : outcome Z := '(q, _) ← div_s64_rem dividend divisor; Ret q.

Definition do_div : DoDiv := fun n base => nonzero base;; Ret (n / base, u32 (n mod base)).
#[export] Existing Instance do_div.

Definition DIV64_U64_ROUND_UP (ll d : Z) : outcome Z := div64_u64 (u64 (u64 (ll + d) - 1)) d.
End Word64.

(** ** 32-bit machines *)

Module Word32.
(** [while ((int64_t)b > 0 && b < rem)]. *)
Definition double_turn (rem : Z) (s : Z * Z) : outcome ((Z * Z) + (Z * Z)) :=
  let '(b, d) := s in
  if (0 <? s64 b) && (b <? rem) then Ret (inl (u64 (b + b), u64 (d + d))) else Ret (inr (b, d)).
Definition reduce_turn (s : Z * Z * Z * Z) : outcome ((Z * Z * Z * Z) + (Z * Z)) :=
  let '(rem, res, b, d) := s in
  let '(rem, res) := if b <=? rem then (u64 (rem - b), u64 (res + d)) else (rem, res) in
  let b := Z.shiftr b 1 in
  let d := Z.shiftr d 1 in
  if d =? 0 then Ret (inr (res, rem)) else Ret (inl (rem, res, b, d)).
(** The new [*n] and the remainder. *)
Definition __div64_32 (n base : Z) : outcome (Z * Z) :=
  let rem := n in
  let b := base in
  let high := u32 (Z.shiftr rem 32) in
  '(rem, res) ←
    (if base <=? high then
       nonzero base;;
       let high := high / base in
       Ret (u64 (rem - u64 (Z.shiftl (u32 (high * base)) 32)), u64 (Z.shiftl high 32))
     else Ret (rem, 0));
  '(b, d) ← loop 66 (double_turn rem) (b, 1);
  '(res, rem) ← loop 66 reduce_turn (rem, res, b, d);
  Ret (res, u32 rem).

(** [do_div] when the divisor is not a constant. *)
Definition do_div : DoDiv := fun n base =>
  if Z.shiftr n 32 =? 0 then nonzero base;; Ret (u32 n / base, u32 n mod base)
  else __div64_32 n base.
#[export] Existing Instance do_div.

Definition div_u64_rem (dividend divisor : Z) : outcome (Z * Z) := do_div dividend divisor.
Definition div_u64 (dividend divisor : Z) : outcome Z := '(q, _) ← div_u64_rem dividend divisor; Ret q.

Definition abs (int : Z -> outcome Z) (x : Z) : outcome Z := if x <? 0 then int (- x) else Ret x.

Definition div_s64_rem (dividend divisor : Z) : outcome (Z * Z) :=
  if dividend <? 0 then
    n ← int64 (- dividend); b ← abs int32 divisor;
    '(quotient, remainder) ← div_u64_rem n b;
    remainder ← int32 (- s32 remainder);
    let quotient := if 0 <? divisor then u64 (- quotient) else quotient in
    Ret (s64 quotient, remainder)
  else
    b ← abs int32 divisor;
    '(quotient, remainder) ← div_u64_rem dividend b;
    let quotient := if divisor <? 0 then u64 (- quotient) else quotient in
    Ret (s64 quotient, s32 remainder).
Definition div_s64 (dividend divisor : Z) : outcome Z := '(q, _) ← div_s64_rem dividend divisor; Ret q.

Definition div64_u64_rem (dividend divisor : Z) : outcome (Z * Z) :=
  let high := u32 (Z.shiftr divisor 32) in
  if high =? 0 then
    div_u64_rem dividend (u32 divisor)
  else
    let n := 1 + fls high in
    x ← shr64 dividend n; y ← shr64 divisor n;
    quot ← div_u64 x (u32 y);
    let quot := if negb (quot =? 0) then u64 (quot - 1) else quot in
    let remainder := u64 (dividend - u64 (quot * divisor)) in
    if divisor <=? remainder then Ret (u64 (quot + 1), u64 (remainder - divisor)) else Ret (quot, remainder).

Definition div64_u64 (dividend divisor : Z) : outcome Z :=
  let high := u32 (Z.shiftr divisor 32) in
  if high =? 0 then div_u64 dividend (u32 divisor)
  else
    let n := 1 + fls high in
    x ← shr64 dividend n; y ← shr64 divisor n;
    quot ← div_u64 x (u32 y);
    let quot := if negb (quot =? 0) then u64 (quot - 1) else quot in
    Ret (if divisor <=? u64 (dividend - u64 (quot * divisor)) then u64 (quot + 1) else quot).

Definition div64_s64 (dividend divisor : Z) : outcome Z :=
  a ← abs int64 dividend; b ← abs int64 divisor;
  quot ← div64_u64 a b;
  let quot := s64 quot in
  let t := Z.shiftr (Z.lxor dividend divisor) 63 in
  int64 (Z.lxor quot t - t).
End Word32.
