(* ===== verification/Math64Spec.v ===== *)
(** * 64-bit arithmetic: theorems

    The products by words are the products by wider integers, the divisions by
    subtraction are division, and the functions of a 32-bit machine are those
    of a 64-bit machine, with one exception that [div64_u64_wrong] exhibits. *)
From stdpp Require Import base numbers list option.
From Stdlib Require Import ZArith Lia.
From S2P Require Import Prelude Math64.

(** ** Halves and shifts *)

Lemma nonzero_ok {A} b (f : unit -> outcome A) : b <> 0 -> (nonzero b ≫= f) = f tt.
Proof. intros Hb. unfold nonzero. by rewrite (proj2 (Z.eqb_neq b 0)). Qed.

Lemma int64_ok z : - 2 ^ 63 <= z < 2 ^ 63 -> int64 z = Ret z.
Proof. intros. unfold int64. by rewrite decide_True. Qed.
Lemma int64_over z : ~ - 2 ^ 63 <= z < 2 ^ 63 -> int64 z = Fault.
Proof. intros. unfold int64. by rewrite decide_False. Qed.
Lemma int32_ok z : - 2 ^ 31 <= z < 2 ^ 31 -> int32 z = Ret z.
Proof. intros. unfold int32. by rewrite decide_True. Qed.

Lemma high_div x : 0 <= x < 2 ^ 64 -> high x = x / 2 ^ 32.
Proof.
  intros Hx. unfold high. rewrite Z.shiftr_div_pow2 by lia. apply u32_small. split; [apply Z.div_pos; lia|].
  apply Z.div_lt_upper_bound; lia.
Qed.

Lemma high_range x : 0 <= high x < 2 ^ 32.
Proof. apply u32_range. Qed.
Lemma low_range x : 0 <= low x < 2 ^ 32.
Proof. apply u32_range. Qed.

Lemma halves x : 0 <= x < 2 ^ 64 -> x = low x + high x * 2 ^ 32.
Proof. intros Hx. rewrite high_div by done. unfold low, u32. pose proof (Z_div_mod_eq_full x (2 ^ 32)). lia. Qed.

Lemma set_high_add x h : 0 <= h < 2 ^ 32 -> set_high x h = low x + h * 2 ^ 32.
Proof. intros Hh. unfold set_high. rewrite (u32_small h) by done. apply lor_shiftl_add; [lia|apply low_range]. Qed.
Lemma set_low_add x l : 0 <= l < 2 ^ 32 -> set_low x l = l + high x * 2 ^ 32.
Proof. intros Hl. unfold set_low. rewrite (u32_small l) by done. apply lor_shiftl_add; lia. Qed.

Lemma mul_u32_u32_ok a b : 0 <= a < 2 ^ 32 -> 0 <= b < 2 ^ 32 -> mul_u32_u32 a b = a * b /\ 0 <= a * b <= (2 ^ 32 - 1) * (2 ^ 32 - 1).
Proof. intros. assert (0 <= a * b <= (2 ^ 32 - 1) * (2 ^ 32 - 1)) by nia. split; [|done]. apply u64_small. lia. Qed.

Lemma shr64_ok x n : 0 <= n < 64 -> shr64 x n = Ret (x / 2 ^ n).
Proof. intros. unfold shr64. rewrite decide_True, Z.shiftr_div_pow2 by lia. done. Qed.
Lemma shl64_ok x n : 0 <= n < 64 -> shl64 x n = Ret (u64 (x * 2 ^ n)).
Proof. intros. unfold shl64. rewrite decide_True, Z.shiftl_mul_pow2 by lia. done. Qed.

(** ** Products *)

Lemma int128_ok a b n : 0 <= a < 2 ^ 64 -> 0 <= b < 2 ^ 64 -> 0 <= n < 128 ->
  mul_u64_u64_shr_int128 a b n = Ret (u64 (a * b / 2 ^ n)).
Proof.
  intros Ha Hb Hn. unfold mul_u64_u64_shr_int128, shr128, u128. rewrite Z.mod_small by nia.
  by rewrite decide_True, Z.shiftr_div_pow2 by lia.
Qed.

Lemma mul_u64_u32_shr_ok a mul n : 0 <= a < 2 ^ 64 -> 0 <= mul < 2 ^ 32 -> 0 <= n <= 32 ->
  mul_u64_u32_shr a mul n = Ret (u64 (a * mul / 2 ^ n)).
Proof.
  intros Ha Hm Hn. pose proof (halves a Ha) as E. pose proof (low_range a) as Hl. pose proof (high_range a) as Hh.
  unfold mul_u64_u32_shr. fold (low a) (high a). cbv zeta. rewrite shr64_ok by lia. cbn.
  destruct (mul_u32_u32_ok (low a) mul Hl Hm) as [-> Bl].
  destruct (mul_u32_u32_ok (high a) mul Hh Hm) as [-> Bh].
  assert (Hq : 0 <= low a * mul / 2 ^ n < 2 ^ 64).
  { split; [apply Z.div_pos; lia|]. apply Z.div_lt_upper_bound; [lia|]. assert (1 <= 2 ^ n) by (apply (Z.pow_le_mono_r 2 0 n); lia). nia. }
  destruct (Z.eqb_spec (high a) 0) as [E0|E0].
  - rewrite E0 in E. replace a with (low a) at 2 by lia. by rewrite u64_small.
  - rewrite shl64_ok by lia. cbn. rewrite u64_add_r. do 2 f_equal.
    rewrite E at 3. replace ((low a + high a * 2 ^ 32) * mul) with (low a * mul + high a * mul * 2 ^ (32 - n) * 2 ^ n).
    2:{ rewrite <- Z.mul_assoc, <- Z.pow_add_r by lia. replace (32 - n + n) with 32 by lia. ring. }
    rewrite Z.div_add by lia. lia.
Qed.

(** The two words of the product. *)
Lemma product_words a b : 0 <= a < 2 ^ 64 -> 0 <= b < 2 ^ 64 ->
  let rl := mul_u32_u32 (low a) (low b) in let rm := mul_u32_u32 (low a) (high b) in
  let rn := mul_u32_u32 (high a) (low b) in let rh := mul_u32_u32 (high a) (high b) in
  let c := u64 (u64 (high rl + low rm) + low rn) in
  let c' := u64 (u64 (u64 (Z.shiftr c 32 + high rm) + high rn) + low rh) in
  set_high rl (u32 c) = (a * b) mod 2 ^ 64 /\
  set_high (set_low rh (u32 c')) (u32 (u64 (Z.shiftr c' 32 + high (set_low rh (u32 c'))))) = a * b / 2 ^ 64.
Proof.
  intros Ha Hb. pose proof (halves a Ha) as Ea. pose proof (halves b Hb) as Eb.
  pose proof (low_range a). pose proof (high_range a). pose proof (low_range b). pose proof (high_range b).
  cbv zeta.
  destruct (mul_u32_u32_ok (low a) (low b)) as [-> Bl]; [done..|].
  destruct (mul_u32_u32_ok (low a) (high b)) as [-> Bm]; [done..|].
  destruct (mul_u32_u32_ok (high a) (low b)) as [-> Bn]; [done..|].
  destruct (mul_u32_u32_ok (high a) (high b)) as [-> Bh]; [done..|].
  assert (EP : a * b = low a * low b + (low a * high b + high a * low b) * 2 ^ 32 + high a * high b * 2 ^ 64).
  { rewrite Ea at 1. rewrite Eb at 1. ring. }
  assert (HP : 0 <= a * b < 2 ^ 128) by nia.
  revert EP HP Bl Bm Bn Bh. generalize (a * b) (low a * low b) (low a * high b) (high a * low b) (high a * high b).
  clear. intros P rl rm rn rh EP HP Bl Bm Bn Bh.
  pose proof (halves rl ltac:(lia)). pose proof (halves rm ltac:(lia)). pose proof (halves rn ltac:(lia)). pose proof (halves rh ltac:(lia)).
  pose proof (low_range rl). pose proof (high_range rl). pose proof (low_range rm). pose proof (high_range rm).
  pose proof (low_range rn). pose proof (high_range rn). pose proof (low_range rh). pose proof (high_range rh).
  rewrite (u64_small (high rl + low rm)) by lia. rewrite (u64_small (_ + low rn)) by lia.
  set (c := high rl + low rm + low rn) in *. pose proof (halves c ltac:(lia)). pose proof (low_range c). pose proof (high_range c).
  assert (Ec : Z.shiftr c 32 = high c) by (rewrite high_div, Z.shiftr_div_pow2 by lia; done). rewrite Ec. fold (low c).
  rewrite (u64_small (high c + _)) by lia. rewrite (u64_small (_ + high rn)) by lia. rewrite (u64_small (_ + low rh)) by lia.
  set (c' := high c + high rm + high rn + low rh) in *.
  pose proof (halves c' ltac:(lia)). pose proof (low_range c'). pose proof (high_range c').
  assert (Ec' : Z.shiftr c' 32 = high c') by (rewrite high_div, Z.shiftr_div_pow2 by lia; done). rewrite Ec'. fold (low c').
  rewrite set_high_add, set_low_add by done.
  set (r := low c' + high rh * 2 ^ 32).
  assert (Er : low r = low c' /\ high r = high rh).
  { rewrite high_div by lia. unfold low at 1, u32, r. rewrite Z.mod_add, Z.div_add, Z.mod_small, Z.div_small by lia. lia. }
  destruct Er as [Erl Erh]. rewrite Erh. rewrite (u64_small (high c' + _)) by lia.
  rewrite (u32_small (high c' + high rh)) by lia.
  rewrite set_high_add, Erl by lia.
  assert (EP' : P = (low c' + (high c' + high rh) * 2 ^ 32) * 2 ^ 64 + (low rl + low c * 2 ^ 32)) by lia.
  split; [apply (Z.mod_unique_pos _ _ (low c' + (high c' + high rh) * 2 ^ 32))|apply (Z.div_unique_pos _ _ _ (low rl + low c * 2 ^ 32))]; lia.
Qed.

Lemma mul_u64_u64_shr_ok a b n : 0 <= a < 2 ^ 64 -> 0 <= b < 2 ^ 64 -> 0 <= n < 128 ->
  mul_u64_u64_shr a b n = Ret (u64 (a * b / 2 ^ n)).
Proof.
  intros Ha Hb Hn. destruct (product_words a b Ha Hb) as [El Eh]. unfold mul_u64_u64_shr. cbv zeta in *. rewrite El, Eh.
  assert (HP : 0 <= a * b < 2 ^ 128) by nia. revert HP. generalize (a * b). clear -Hn. intros P HP.
  destruct (Z.eqb_spec n 0) as [->|Hn0]; [by rewrite Z.div_1_r|].
  assert (Hh : 0 <= P / 2 ^ 64 < 2 ^ 64) by (split; [apply Z.div_pos|apply Z.div_lt_upper_bound]; lia).
  destruct (Z.ltb_spec n 64) as [H64|H64].
  - rewrite shr64_ok, shl64_ok by lia. cbn. f_equal.
    pose proof (Z.mod_pos_bound P (2 ^ 64) ltac:(lia)) as Hl.
    assert (E64 : 2 ^ 64 = 2 ^ n * 2 ^ (64 - n)) by (rewrite <- Z.pow_add_r by lia; f_equal; lia).
    assert (0 < 2 ^ n) by lia. assert (0 < 2 ^ (64 - n)) by lia.
    assert (Eu : u64 (P / 2 ^ 64 * 2 ^ (64 - n)) = P / 2 ^ 64 mod 2 ^ n * 2 ^ (64 - n)).
    { unfold u64. rewrite E64 at 2. by rewrite Z.mul_mod_distr_r by lia. }
    assert (Hq : 0 <= P mod 2 ^ 64 / 2 ^ n < 2 ^ (64 - n)) by (split; [apply Z.div_pos|apply Z.div_lt_upper_bound]; lia).
    pose proof (Z.mod_pos_bound (P / 2 ^ 64) (2 ^ n) ltac:(lia)).
    rewrite Eu, <- Z.shiftl_mul_pow2, lor_shiftl_add by lia. unfold u64.
    apply (Z.mod_unique_pos _ _ (P / 2 ^ 64 / 2 ^ n)); [nia|].
    rewrite (Z_div_mod_eq_full P (2 ^ 64)) at 1.
    replace (2 ^ 64 * (P / 2 ^ 64)) with (P / 2 ^ 64 * 2 ^ (64 - n) * 2 ^ n) by (rewrite E64 at 2; ring).
    rewrite Z.add_comm, Z.div_add by lia. rewrite (Z_div_mod_eq_full (P / 2 ^ 64) (2 ^ n)) at 1. rewrite E64 at 4. ring.
  - rewrite shr64_ok. 2:{ change 63 with (Z.ones 6). rewrite Z.land_ones by lia. pose proof (Z.mod_pos_bound n (2 ^ 6)). lia. }
    change 63 with (Z.ones 6). rewrite Z.land_ones by lia.
    replace (n mod 2 ^ 6) with (n - 64) by (apply (Z.mod_unique_pos _ _ 1); lia).
    rewrite Z.div_div by lia. rewrite <- Z.pow_add_r by lia. replace (64 + (n - 64)) with n by lia.
    rewrite u64_small; [done|]. split; [apply Z.div_pos; lia|].
    apply Z.div_lt_upper_bound; [lia|]. rewrite <- Z.pow_add_r by lia.
    apply Z.lt_le_trans with (2 ^ 128); [lia|]. apply Z.pow_le_mono_r; lia.
Qed.

(** ** Division by subtraction *)

Lemma div_loop_ok D N r fuel : 0 < D -> 0 <= N -> N / D = Z.of_nat fuel ->
  loop (S fuel) (div_turn D) (N, u32 r) = Ret (u32 (r + N / D), N mod D).
Proof.
  intros HD HN Hf. revert N r HN Hf. induction fuel as [|fuel IH]; intros N r HN Hf.
  - apply Z.div_small_iff in Hf; [|lia]. erewrite loop_inr; cbn; [|by zdec].
    rewrite Z.div_small, Z.mod_small, Z.add_0_r by lia. done.
  - assert (HDN : D <= N) by (destruct (Z.le_gt_cases D N); [done|]; rewrite Z.div_small in Hf; lia).
    erewrite loop_inl; cbn; [|by zdec]. unfold u32 at 1 2. rewrite Z.add_mod_idemp_l by lia. fold (u32 (r + 1)).
    assert (Hs : (N - D) / D = N / D - 1) by (replace (N - D) with (N + (-1) * D) by ring; rewrite Z.div_add by lia; lia).
    rewrite (IH (N - D)) by lia. rewrite Hs. do 2 f_equal; [f_equal; lia|].
    replace (N - D) with (N + (-1) * D) by ring. by rewrite Z.mod_add by lia.
Qed.

Lemma iter_div_ok N D : 0 <= N -> 0 < D -> __iter_div_u64_rem N D = Ret (u32 (N / D), N mod D).
Proof.
  intros HN HD. unfold __iter_div_u64_rem. pose proof (Z.div_pos N D HN HD). apply (div_loop_ok D N 0); lia.
Qed.

(** ** Long division on a 32-bit machine *)

Lemma double_ok rem b (k : nat) fuel : 0 < b -> 0 <= rem < 2 ^ 64 -> b * 2 ^ Z.of_nat k < 2 ^ 64 -> (64 - k < fuel)%nat ->
  exists k', (k' < 64)%nat /\ loop fuel (Word32.double_turn rem) (b * 2 ^ Z.of_nat k, 2 ^ Z.of_nat k) =
    Ret (b * 2 ^ Z.of_nat k', 2 ^ Z.of_nat k') /\ rem < 2 * (b * 2 ^ Z.of_nat k') /\ b * 2 ^ Z.of_nat k' < 2 ^ 64.
Proof.
  intros Hb Hrem. revert k. induction fuel as [|fuel IH]; intros k Hk Hf; [lia|].
  assert (Hp : 0 < 2 ^ Z.of_nat k) by lia.
  assert (Hk64 : (k < 64)%nat).
  { apply Nat2Z.inj_lt. apply (Z.pow_lt_mono_r_iff 2); [lia..|]. change (2 ^ Z.of_nat 64) with (2 ^ 64). nia. }
  destruct (decide (b * 2 ^ Z.of_nat k < 2 ^ 63 /\ b * 2 ^ Z.of_nat k < rem)) as [[H63 Hlt]|Hn].
  - assert (E2 : 2 ^ Z.of_nat (S k) = 2 * 2 ^ Z.of_nat k) by (rewrite Nat2Z.inj_succ; apply Z.pow_succ_r; lia).
    destruct (IH (S k)) as (k' & Hk' & EL & Hr & Hb'); [rewrite E2; lia|lia|]. exists k'. split; [done|]. split; [|done].
    rewrite <- EL. apply loop_inl. unfold Word32.double_turn. rewrite s64_small by nia. zdec. cbn [andb].
    assert (2 ^ Z.of_nat k < 2 ^ 63) by nia.
    rewrite E2, !u64_small by nia. do 3 f_equal; lia.
  - exists k. split; [done|]. split; [|nia]. apply loop_inr. unfold Word32.double_turn.
    destruct (Z.ltb_spec (b * 2 ^ Z.of_nat k) rem); [|by rewrite andb_false_r].
    replace (s64 (b * 2 ^ Z.of_nat k)) with (b * 2 ^ Z.of_nat k - 2 ^ 64); [by zdec|].
    unfold s64. replace ((b * 2 ^ Z.of_nat k + 2 ^ 63) mod 2 ^ 64) with (b * 2 ^ Z.of_nat k + 2 ^ 63 - 2 ^ 64); [lia|].
    apply (Z.mod_unique_pos _ _ 1); lia.
Qed.

Lemma reduce_turn_ok base rem res d : 0 < base -> 0 < d -> 0 <= rem < 2 * (base * d) -> rem < 2 ^ 64 -> 0 <= res ->
  res + rem / base < 2 ^ 64 ->
  exists rem' res', Word32.reduce_turn (rem, res, base * d, d) =
      Ret (if d / 2 =? 0 then inr (res', rem') else inl (rem', res', base * d / 2, d / 2)) /\
    0 <= rem' < base * d /\ rem' < 2 ^ 64 /\ 0 <= res' /\ res' + rem' / base = res + rem / base /\ rem' mod base = rem mod base.
Proof.
  intros Hb Hd Hr H64 Hs Hq. unfold Word32.reduce_turn. rewrite <- !Z.div2_div, <- !Z.div2_spec.
  destruct (Z.leb_spec (base * d) rem) as [Hle|Hle].
  - assert (Eq : rem / base = (rem - base * d) / base + d).
    { replace rem with (rem - base * d + d * base) at 1 by ring. by rewrite Z.div_add by lia. }
    assert (Em : (rem - base * d) mod base = rem mod base).
    { replace rem with (rem - base * d + d * base) at 2 by ring. by rewrite Z.mod_add by lia. }
    pose proof (Z.div_pos (rem - base * d) base ltac:(lia) ltac:(lia)).
    exists (rem - base * d), (res + d). rewrite !u64_small by lia. split; [by destruct (_ =? 0)|]. lia.
  - exists rem, res. split; [by destruct (_ =? 0)|]. lia.
Qed.

Lemma reduce_ok base rem res (k : nat) fuel : 0 < base -> 0 <= rem < 2 * (base * 2 ^ Z.of_nat k) -> rem < 2 ^ 64 -> 0 <= res ->
  res + rem / base < 2 ^ 64 -> (k < fuel)%nat ->
  loop fuel Word32.reduce_turn (rem, res, base * 2 ^ Z.of_nat k, 2 ^ Z.of_nat k) = Ret (res + rem / base, rem mod base).
Proof.
  intros Hbase. revert rem res fuel. induction k as [|k IH]; intros rem res fuel Hr H64 Hs Hq Hf.
  all: destruct fuel as [|fuel]; [lia|]; rewrite loop_S.
  - destruct (reduce_turn_ok base rem res 1) as (rem' & res' & E & Hr' & _ & _ & Eq & Em); [done || lia..|].
    change (2 ^ Z.of_nat 0) with 1. rewrite E. change (1 / 2) with 0. cbn. rewrite <- Eq, <- Em, Z.div_small, Z.mod_small by lia. by rewrite Z.add_0_r.
  - assert (E2 : 2 ^ Z.of_nat (S k) = 2 ^ Z.of_nat k * 2) by (rewrite Nat2Z.inj_succ, Z.pow_succ_r by lia; lia).
    destruct (reduce_turn_ok base rem res (2 ^ Z.of_nat (S k))) as (rem' & res' & E & Hr' & H64' & Hs' & Eq & Em); [lia..|].
    rewrite E. rewrite E2, Z.mul_assoc in *. rewrite !Z.div_mul by lia. zdec. cbn. rewrite IH by lia. by rewrite Eq, Em.
Qed.

Lemma div64_32_ok n base : 0 <= n < 2 ^ 64 -> 0 < base < 2 ^ 32 -> Word32.__div64_32 n base = Ret (n / base, n mod base).
Proof.
  intros Hn Hb. unfold Word32.__div64_32. cbv zeta. fold (high n). pose proof (high_range n) as Hh. rewrite nonzero_ok by lia.
  assert (Hst : exists rem res, (if base <=? high n then Ret (u64 (n - u64 (Z.shiftl (u32 (high n / base * base)) 32)), u64 (Z.shiftl (high n / base) 32))
      else Ret (n, 0)) = Ret (rem, res) /\ 0 <= rem < 2 ^ 64 /\ 0 <= res /\ res + rem / base = n / base /\ rem mod base = n mod base).
  { destruct (Z.leb_spec base (high n)) as [Hle|Hle]; [|exists n, 0; repeat split; lia].
    pose proof (halves n Hn) as En. pose proof (low_range n). pose proof (Z_div_mod_eq_full (high n) base). pose proof (Z.mod_pos_bound (high n) base ltac:(lia)).
    pose proof (Z.div_pos (high n) base ltac:(lia) ltac:(lia)).
    exists (n - high n / base * base * 2 ^ 32), (high n / base * 2 ^ 32). rewrite !Z.shiftl_mul_pow2 by lia.
    assert (high n / base < 2 ^ 32) by (apply Z.div_lt_upper_bound; nia).
    rewrite (u32_small (high n / base * base)), (u64_small (high n / base * base * 2 ^ 32)), !u64_small by lia. split; [done|]. split; [lia|]. split; [lia|].
    replace n with (n - high n / base * base * 2 ^ 32 + high n / base * 2 ^ 32 * base) at 4 7 by ring.
    rewrite Z.div_add, Z.mod_add by lia. lia. }
  destruct Hst as (rem & res & -> & Hrem & Hres & Eq & Em). cbn [mbind outcome_bind].
  destruct (double_ok rem base 0 66) as (k & Hk & EL & Hr & Hbk); [lia..|].
  change (2 ^ Z.of_nat 0) with 1 in EL. rewrite Z.mul_1_r in EL. rewrite EL. cbn [mbind outcome_bind].
  assert (n / base < 2 ^ 64) by (apply Z.div_lt_upper_bound; nia).
  rewrite reduce_ok by lia. cbn. rewrite Eq, Em, u32_small; [done|].
  pose proof (Z.mod_pos_bound n base). lia.
Qed.

(** ** What a machine promises of [do_div] *)

Class DoDivLaws `{DoDiv} : Prop :=
  do_div_ok n base : 0 <= n < 2 ^ 64 -> 0 < base < 2 ^ 32 -> do_div n base = Ret (n / base, n mod base).

Lemma mod_u32 n base : 0 < base < 2 ^ 32 -> u32 (n mod base) = n mod base.
Proof. intros. apply u32_small. pose proof (Z.mod_pos_bound n base). lia. Qed.

#[export] Instance word64_laws : @DoDivLaws Word64.do_div.
Proof. intros n base Hn Hb. unfold do_div, Word64.do_div. rewrite nonzero_ok, mod_u32 by lia. done. Qed.

Lemma do_div_32_ok n base : 0 <= n < 2 ^ 64 -> 0 < base < 2 ^ 32 -> Word32.do_div n base = Ret (n / base, n mod base).
Proof.
  intros Hn Hb. unfold Word32.do_div. rewrite nonzero_ok by lia.
  destruct (Z.eqb_spec (Z.shiftr n 32) 0) as [E|E]; [|by apply div64_32_ok].
  rewrite Z.shiftr_div_pow2 in E by lia. apply Z.div_small_iff in E; [|lia]. by rewrite u32_small by lia.
Qed.
#[export] Instance word32_laws : @DoDivLaws Word32.do_div := do_div_32_ok.

Lemma mul_u64_u32_div_ok `{DoDivLaws} a mul divisor : 0 <= a < 2 ^ 64 -> 0 <= mul < 2 ^ 32 -> 0 < divisor < 2 ^ 32 ->
  mul_u64_u32_div a mul divisor = Ret (u64 (a * mul / divisor)).
Proof.
  intros Ha Hm Hd. pose proof (halves a Ha) as Ea. pose proof (low_range a) as Hl. pose proof (high_range a) as Hh.
  unfold mul_u64_u32_div. cbv zeta.
  destruct (mul_u32_u32_ok (low a) mul Hl Hm) as [-> Bl]. destruct (mul_u32_u32_ok (high a) mul Hh Hm) as [-> Bh].
  assert (EP : a * mul = low a * mul + high a * mul * 2 ^ 32) by (rewrite Ea at 1; ring).
  revert EP Bl Bh. generalize (a * mul) (low a * mul) (high a * mul). clear -H0 Hd. intros P rl rh EP Bl Bh.
  pose proof (halves rl ltac:(lia)). pose proof (low_range rl). pose proof (high_range rl).
  rewrite u64_small by lia. set (h := rh + high rl) in *. rewrite do_div_ok by lia. cbn.
  pose proof (Z_div_mod_eq_full h divisor) as Eh. pose proof (Z.mod_pos_bound h divisor ltac:(lia)).
  rewrite set_high_add by lia. set (l := low rl + h mod divisor * 2 ^ 32).
  rewrite do_div_ok by lia. cbn. rewrite set_high_add by apply low_range. f_equal.
  assert (Hq : 0 <= l / divisor < 2 ^ 32) by (split; [apply Z.div_pos|apply Z.div_lt_upper_bound]; lia).
  assert (Elow : low (l / divisor) = l / divisor) by (by apply u32_small). rewrite Elow.
  assert (ED : P / divisor = l / divisor + h / divisor * 2 ^ 32).
  { rewrite <- Z.div_add by lia. f_equal. lia. }
  rewrite ED. pose proof (low_range (h / divisor)). unfold low, u32 in *. unfold u64.
  pose proof (Z_div_mod_eq_full (h / divisor) (2 ^ 32)).
  apply (Z.mod_unique_pos _ _ (h / divisor / 2 ^ 32)); lia.
Qed.

(** ** Division by 64-bit divisors on a 32-bit machine *)

Lemma div_u64_32_ok n base : 0 <= n < 2 ^ 64 -> 0 < base < 2 ^ 32 -> Word32.div_u64 n base = Ret (n / base).
Proof. intros. unfold Word32.div_u64, Word32.div_u64_rem. by rewrite do_div_32_ok. Qed.

(** The quotient of the leading bits is the quotient or one more when it does not exceed the divisor's. *)
Lemma leading_quotient N D n : 0 <= n -> 0 <= N -> 0 < D / 2 ^ n -> N / 2 ^ n / (D / 2 ^ n) <= D / 2 ^ n + 1 ->
  N / D <= N / 2 ^ n / (D / 2 ^ n) <= N / D + 1.
Proof.
  intros Hn HN HD1 Hq. set (p := 2 ^ n) in *. assert (Hp : 0 < p) by (unfold p; lia). clearbody p.
  pose proof (Z_div_mod_eq_full N p) as EN. pose proof (Z.mod_pos_bound N p Hp).
  pose proof (Z_div_mod_eq_full D p) as ED. pose proof (Z.mod_pos_bound D p Hp).
  set (N1 := N / p) in *. set (D1 := D / p) in *. assert (HD : 0 < D) by nia.
  pose proof (Z_div_mod_eq_full N1 D1) as E1. pose proof (Z.mod_pos_bound N1 D1 HD1). set (q := N1 / D1) in *.
  assert (HN1 : 0 <= N1) by (apply Z.div_pos; lia). assert (Hq0 : 0 <= q) by (apply Z.div_pos; lia).
  split.
  - apply Z.lt_succ_r. apply Z.div_lt_upper_bound; [done|].
    assert (N1 < D1 * (q + 1)) by lia. assert (N < p * (D1 * (q + 1))) by nia. assert (p * D1 * (q + 1) <= D * (q + 1)) by nia. nia.
  - destruct (decide (q = 0)) as [->|]; [pose proof (Z.div_pos N D HN HD); lia|].
    assert (q - 1 <= N / D); [|lia]. apply Z.div_le_lower_bound; [done|].
    assert (D <= p * (D1 + 1)) by lia. assert (D * (q - 1) <= p * (D1 + 1) * (q - 1)) by nia.
    assert (p * ((D1 + 1) * (q - 1)) <= p * (D1 * q)) by nia. assert (p * (D1 * q) <= p * N1) by nia. lia.
Qed.

Lemma fls_bounds x : 0 < x -> 2 ^ (fls x - 1) <= x < 2 ^ fls x.
Proof.
  intros Hx. unfold fls. rewrite (proj2 (Z.eqb_neq x 0)) by lia. pose proof (Z.log2_spec x Hx).
  replace (Z.log2 x + 1 - 1) with (Z.log2 x) by lia. rewrite <- Z.add_1_r in *. done.
Qed.

Lemma div_estimate N D : 0 <= N < 2 ^ 64 -> 2 ^ 34 <= D < 2 ^ 64 ->
  let n := 1 + fls (high D) in
  0 <= n < 64 /\ 0 < D / 2 ^ n < 2 ^ 32 /\ 0 <= N / 2 ^ n < 2 ^ 64 /\ N / D <= N / 2 ^ n / (D / 2 ^ n) <= N / D + 1.
Proof.
  intros HN HD n. assert (Hh : 4 <= high D < 2 ^ 32).
  { rewrite high_div by lia. split; [apply Z.div_le_lower_bound; lia|apply Z.div_lt_upper_bound; lia]. }
  destruct (fls_bounds (high D)) as [Hf1 Hf2]; [lia|]. subst n. set (f := fls (high D)) in *.
  assert (Hf : 3 <= f <= 32).
  { split.
    - destruct (Z.lt_ge_cases f 3); [|done]. assert (2 ^ f <= 2 ^ 2) by (apply Z.pow_le_mono_r; lia). lia.
    - destruct (Z.lt_ge_cases 32 f); [|done]. assert (2 ^ 32 <= 2 ^ (f - 1)) by (apply Z.pow_le_mono_r; lia). lia. }
  rewrite high_div in Hf1, Hf2 by lia.
  pose proof (Z_div_mod_eq_full D (2 ^ 32)). pose proof (Z.mod_pos_bound D (2 ^ 32) ltac:(lia)).
  assert (E1 : 2 ^ (f - 1) * 2 ^ 32 = 2 ^ 30 * 2 ^ (1 + f)) by (rewrite <- !Z.pow_add_r by lia; f_equal; lia).
  assert (E2 : 2 ^ f * 2 ^ 32 = 2 ^ (1 + f) * 2 ^ 31) by (rewrite <- !Z.pow_add_r by lia; f_equal; lia).
  assert (Hp : 2 ^ 4 <= 2 ^ (1 + f)) by (apply Z.pow_le_mono_r; lia).
  assert (HD1 : 2 ^ 30 <= D / 2 ^ (1 + f) < 2 ^ 31).
  { split; [apply Z.div_le_lower_bound|apply Z.div_lt_upper_bound]; nia. }
  assert (HN1 : 0 <= N / 2 ^ (1 + f) < 2 ^ 60).
  { split; [apply Z.div_pos|apply Z.div_lt_upper_bound]; nia. }
  split; [lia|]. split; [lia|]. split; [lia|]. apply leading_quotient; [lia..|].
  apply Z.lt_le_incl. apply Z.le_lt_trans with (2 ^ 30); [|lia]. apply Z.div_le_upper_bound; nia.
Qed.

(** The divisors whose leading bits lose nothing that matters. *)
Definition exact_divisor (d : Z) : Prop := 0 < d < 2 ^ 32 \/ 2 ^ 34 <= d < 2 ^ 64.

Lemma correct_estimate N D q : 0 <= N < 2 ^ 64 -> 0 < D < 2 ^ 64 -> N / D <= q <= N / D + 1 -> q < 2 ^ 64 ->
  let quot := if negb (q =? 0) then u64 (q - 1) else q in
  let remainder := u64 (N - u64 (quot * D)) in
  (if D <=? remainder then (u64 (quot + 1), u64 (remainder - D)) else (quot, remainder)) = (N / D, N mod D).
Proof.
  intros HN HD Hq Hq64 quot remainder. pose proof (Z_div_mod_eq_full N D) as E. pose proof (Z.mod_pos_bound N D ltac:(lia)) as Hm.
  pose proof (Z.div_pos N D ltac:(lia) ltac:(lia)) as Hpos.
  assert (Hqt : 0 <= quot /\ (quot = N / D \/ quot = N / D - 1)).
  { unfold quot. destruct (Z.eqb_spec q 0) as [->|]; cbn [negb]; [lia|]. rewrite u64_small by lia. lia. }
  clearbody quot. destruct Hqt as [H0 [Eq|Eq]].
  - assert (Er : remainder = N mod D) by (unfold remainder; rewrite (u64_small (quot * D)), u64_small by nia; nia).
    rewrite Er, Eq. by zdec.
  - assert (Er : remainder = N mod D + D) by (unfold remainder; rewrite (u64_small (quot * D)), u64_small by nia; nia).
    rewrite Er, Eq. zdec. rewrite !u64_small by nia. f_equal; lia.
Qed.

Lemma div64_u64_rem_ok N D : 0 <= N < 2 ^ 64 -> exact_divisor D -> Word32.div64_u64_rem N D = Ret (N / D, N mod D).
Proof.
  intros HN [HD|HD]; unfold Word32.div64_u64_rem; fold (high D); cbv zeta.
  - assert (Hh : high D = 0) by (rewrite high_div by lia; apply Z.div_small; lia).
    rewrite Hh. cbn [Z.eqb]. rewrite u32_small by lia. by apply do_div_32_ok.
  - destruct (div_estimate N D HN HD) as (Hn & HD1 & HN1 & Hq). assert (Hh : high D <> 0).
    { rewrite high_div by lia. pose proof (Z.div_le_lower_bound D (2 ^ 32) 4). lia. }
    rewrite (proj2 (Z.eqb_neq _ _) Hh), !shr64_ok by done. cbn [mbind outcome_bind].
    rewrite u32_small, div_u64_32_ok by lia. cbn [mbind outcome_bind].
    rewrite <- (correct_estimate N D (N / 2 ^ (1 + fls (high D)) / (D / 2 ^ (1 + fls (high D))))); [|lia..|].
    + by destruct (D <=? _).
    + apply Z.le_lt_trans with (N / D + 1); [lia|]. assert (N / D < 2 ^ 30); [|lia]. apply Z.div_lt_upper_bound; lia.
Qed.

Lemma div64_u64_rem_fst N D : Word32.div64_u64 N D = ('(q, _) ← Word32.div64_u64_rem N D; Ret q).
Proof.
  unfold Word32.div64_u64, Word32.div64_u64_rem. cbv zeta. destruct (_ =? 0); [done|].
  destruct (shr64 N _) as [x| | |]; [|done..]. destruct (shr64 D _) as [y| | |]; [|done..]. cbn [mbind outcome_bind].
  destruct (Word32.div_u64 x (u32 y)) as [q| | |]; [|done..]. cbn [mbind outcome_bind]. by destruct (D <=? _).
Qed.

(** ** Signed division on a 32-bit machine *)

Lemma quot_signs a b : b <> 0 -> Z.quot a b = (if Bool.eqb (a <? 0) (b <? 0) then Z.abs a / Z.abs b else - (Z.abs a / Z.abs b)).
Proof.
  intros Hb. rewrite Z.quot_div by done. destruct (Z.ltb_spec a 0), (Z.ltb_spec b 0); cbn.
  - rewrite !Z.sgn_neg by lia. lia.
  - rewrite Z.sgn_neg, Z.sgn_pos by lia. lia.
  - rewrite (Z.sgn_neg b) by lia. destruct (Z.eq_dec a 0) as [->|]; [by rewrite Z.div_0_l by lia|]. rewrite Z.sgn_pos by lia. lia.
  - rewrite (Z.sgn_pos b) by lia. destruct (Z.eq_dec a 0) as [->|]; [by rewrite Z.div_0_l by lia|]. rewrite Z.sgn_pos by lia. lia.
Qed.

Lemma quot_range a b : - 2 ^ 63 < a < 2 ^ 63 -> b <> 0 -> - 2 ^ 63 <= Z.quot a b < 2 ^ 63.
Proof.
  intros Ha Hb. rewrite quot_signs by done. pose proof (Z.div_pos (Z.abs a) (Z.abs b) ltac:(lia) ltac:(lia)).
  assert (Z.abs a / Z.abs b <= Z.abs a) by (apply Z.div_le_upper_bound; nia). destruct (Bool.eqb _ _); lia.
Qed.

Lemma rem_sign a b : b <> 0 -> Z.rem a b = if a <? 0 then - (Z.abs a mod Z.abs b) else Z.abs a mod Z.abs b.
Proof.
  intros Hb. rewrite Z.rem_mod by done. destruct (Z.ltb_spec a 0); [rewrite Z.sgn_neg by lia; lia|].
  destruct (Z.eq_dec a 0) as [->|]; [by rewrite Z.mod_0_l by lia|]. rewrite Z.sgn_pos by lia. lia.
Qed.

Lemma abs64_ok x : - 2 ^ 63 < x < 2 ^ 63 -> Word32.abs int64 x = Ret (Z.abs x).
Proof. intros. unfold Word32.abs. destruct (Z.ltb_spec x 0); [rewrite int64_ok by lia|]; f_equal; lia. Qed.
Lemma abs32_ok x : - 2 ^ 31 < x < 2 ^ 31 -> Word32.abs int32 x = Ret (Z.abs x).
Proof. intros. unfold Word32.abs. destruct (Z.ltb_spec x 0); [rewrite int32_ok by lia|]; f_equal; lia. Qed.

Lemma s64_neg q : 0 <= q < 2 ^ 63 -> s64 (u64 (- q)) = - q.
Proof. intros. unfold s64, u64. rewrite Z.add_mod_idemp_l, Z.mod_small by lia. lia. Qed.

Lemma div_s64_rem_ok a b : - 2 ^ 63 < a < 2 ^ 63 -> - 2 ^ 31 < b < 2 ^ 31 -> b <> 0 ->
  Word32.div_s64_rem a b = Ret (Z.quot a b, Z.rem a b).
Proof.
  intros Ha Hb Hb0. unfold Word32.div_s64_rem, Word32.div_u64_rem. rewrite !abs32_ok, quot_signs, rem_sign by done.
  pose proof (Z.mod_pos_bound (Z.abs a) (Z.abs b) ltac:(lia)). pose proof (Z.div_pos (Z.abs a) (Z.abs b) ltac:(lia) ltac:(lia)).
  assert (Z.abs a / Z.abs b < 2 ^ 63) by (apply Z.div_lt_upper_bound; nia).
  destruct (Z.ltb_spec a 0).
  - rewrite int64_ok by lia. replace (- a) with (Z.abs a) by lia. cbn [mbind outcome_bind]. rewrite do_div_32_ok by lia.
    cbn [mbind outcome_bind]. rewrite s32_small, int32_ok by lia. cbn [mbind outcome_bind].
    destruct (Z.ltb_spec 0 b), (Z.ltb_spec b 0); try lia; cbn [Bool.eqb]; rewrite ?s64_neg, ?s64_small by lia; done.
  - assert (Ea : Word32.do_div a = Word32.do_div (Z.abs a)) by (f_equal; lia).
    cbn [mbind outcome_bind]. rewrite Ea, do_div_32_ok by lia. cbn [mbind outcome_bind]. rewrite s32_small by lia.
    destruct (Z.ltb_spec b 0); cbn [Bool.eqb]; rewrite ?s64_neg, ?s64_small by lia; done.
Qed.

Lemma sign_word a b : - 2 ^ 63 <= a < 2 ^ 63 -> - 2 ^ 63 <= b < 2 ^ 63 ->
  Z.shiftr (Z.lxor a b) 63 = if Bool.eqb (a <? 0) (b <? 0) then 0 else -1.
Proof.
  intros Ha Hb. rewrite Z.shiftr_lxor, !Z.shiftr_div_pow2 by lia.
  assert (Hd : forall x, - 2 ^ 63 <= x < 2 ^ 63 -> x / 2 ^ 63 = if x <? 0 then -1 else 0).
  { intros x Hx. destruct (Z.ltb_spec x 0); [|apply Z.div_small; lia]. symmetry. apply (Z.div_unique_pos _ _ _ (x + 2 ^ 63)); lia. }
  rewrite !Hd by done. by destruct (a <? 0), (b <? 0).
Qed.

Lemma div64_s64_ok a b : - 2 ^ 63 < a < 2 ^ 63 -> - 2 ^ 63 < b < 2 ^ 63 -> exact_divisor (Z.abs b) ->
  Word32.div64_s64 a b = Ret (Z.quot a b).
Proof.
  intros Ha Hb Hx. assert (Hb0 : b <> 0) by (intros ->; destruct Hx; cbn in *; lia).
  unfold Word32.div64_s64. rewrite !abs64_ok by done. cbn [mbind outcome_bind].
  rewrite div64_u64_rem_fst, div64_u64_rem_ok by (done || lia). cbn [mbind outcome_bind].
  pose proof (Z.div_pos (Z.abs a) (Z.abs b) ltac:(lia) ltac:(lia)).
  assert (Z.abs a / Z.abs b < 2 ^ 63) by (apply Z.div_lt_upper_bound; nia).
  rewrite s64_small, sign_word, quot_signs by lia. destruct (Bool.eqb _ _).
  - rewrite Z.lxor_0_r, Z.sub_0_r. by apply int64_ok; lia.
  - rewrite Z.lxor_m1_r. unfold Z.lnot. replace (Z.pred _ - -1) with (- (Z.abs a / Z.abs b)) by lia. by apply int64_ok; lia.
Qed.

Lemma round_up_ok a b : 0 <= a -> 0 < b -> a + b <= 2 ^ 64 -> Word64.DIV64_U64_ROUND_UP a b = Ret (- (- a / b)).
Proof.
  intros Ha Hb Hab. unfold Word64.DIV64_U64_ROUND_UP.
  assert (E : u64 (u64 (a + b) - 1) = a + b - 1) by (unfold u64; rewrite Zminus_mod_idemp_l, Z.mod_small; lia).
  rewrite E. unfold Word64.div64_u64. rewrite nonzero_ok by lia. f_equal. symmetry.
  pose proof (Z_div_mod_eq_full (- a) b). pose proof (Z.mod_pos_bound (- a) b Hb).
  apply (Z.div_unique_pos _ _ _ (b - 1 - (- a) mod b)); lia.
Qed.

(** ** The claim *)

(** Below 2^34 one bit of the divisor too many is dropped. *)
Lemma div64_u64_wrong : Word32.div64_u64 (2 ^ 64 - 1) (2 ^ 32 + 3) = Ret 4294967295 /\
  Word64.div64_u64 (2 ^ 64 - 1) (2 ^ 32 + 3) = Ret 4294967293.
Proof. by vm_compute. Qed.

(** With [do_div] of either machine. *)
Definition both (P : DoDiv -> Prop) : Prop := P Word64.do_div /\ P Word32.do_div.

(** C37: the 64-bit arithmetic is the arithmetic it stands for, on either
    machine.  The shifted products computed by 32-bit pieces are those computed
    with 128-bit integers, and are the bits of the exact product;
    [mul_u64_u32_div] divides the exact product; division by subtraction
    terminates with quotient and remainder; and the 32-bit machine's long
    division by a 32-bit divisor, its signed division, and its division by
    divisors below 2^32 or from 2^34 on, return what the division instructions
    of the 64-bit machine return; between 2^32 and 2^34 they need not: a bit of
    the divisor too many is dropped.  [DIV64_U64_ROUND_UP] rounds the quotient
    up unless the sum of its operands passes 64 bits. *)
Theorem math64_machines_agree a b m d : 0 <= a < 2 ^ 64 -> 0 <= b < 2 ^ 64 -> 0 <= m < 2 ^ 32 -> 0 < d < 2 ^ 32 ->
  (forall n, 0 <= n <= 32 -> mul_u64_u32_shr a m n = Ret (u64 (a * m / 2 ^ n)) /\ mul_u64_u32_shr_int128 a m n = mul_u64_u32_shr a m n) /\
  (forall n, 0 <= n < 128 -> mul_u64_u64_shr a b n = Ret (u64 (a * b / 2 ^ n)) /\ mul_u64_u64_shr_int128 a b n = mul_u64_u64_shr a b n) /\
  both (fun D => @mul_u64_u32_div D a m d = Ret (u64 (a * m / d))) /\
  iter_div_u64_rem a d = Ret (u32 (a / d), a mod d) /\
  Word32.div_u64_rem a d = Word64.div_u64_rem a d /\ Word32.div_u64 a d = Word64.div_u64 a d /\
  (exact_divisor b -> Word32.div64_u64_rem a b = Word64.div64_u64_rem a b /\ Word32.div64_u64 a b = Word64.div64_u64 a b) /\
  (forall x y, - 2 ^ 63 < x < 2 ^ 63 -> y <> 0 ->
    (- 2 ^ 31 < y < 2 ^ 31 -> Word32.div_s64_rem x y = Word64.div_s64_rem x y /\ Word32.div_s64 x y = Word64.div_s64 x y) /\
    (- 2 ^ 63 < y < 2 ^ 63 -> exact_divisor (Z.abs y) -> Word32.div64_s64 x y = Word64.div64_s64 x y)) /\
  (Word32.div64_u64 (2 ^ 64 - 1) (2 ^ 32 + 3) = Ret 4294967295 /\ Word64.div64_u64 (2 ^ 64 - 1) (2 ^ 32 + 3) = Ret 4294967293) /\
  (0 < b -> a + b <= 2 ^ 64 -> Word64.DIV64_U64_ROUND_UP a b = Ret (- (- a / b))).
Proof.
  intros Ha Hb Hm Hd. split.
  { intros n Hn. rewrite mul_u64_u32_shr_ok by done. split; [done|]. by apply int128_ok; lia. }
  split; [intros n Hn; rewrite mul_u64_u64_shr_ok by done; split; [done|by apply int128_ok]|].
  split; [split; by apply mul_u64_u32_div_ok|]. split; [by apply iter_div_ok; lia|].
  assert (E : Word32.div_u64_rem a d = Word64.div_u64_rem a d).
  { unfold Word32.div_u64_rem, Word64.div_u64_rem. by rewrite do_div_32_ok, nonzero_ok, mod_u32 by lia. }
  split; [done|]. split; [unfold Word32.div_u64, Word64.div_u64; by rewrite E|]. split.
  { intros Hx. rewrite div64_u64_rem_fst, div64_u64_rem_ok by done. unfold Word64.div64_u64_rem, Word64.div64_u64.
    destruct Hx; by rewrite !nonzero_ok by lia. }
  split; [|split; [exact div64_u64_wrong|by intros; apply round_up_ok; lia]]. intros x y Hx Hy. split.
  - intros Hy32. assert (Es : Word32.div_s64_rem x y = Word64.div_s64_rem x y).
    { rewrite div_s64_rem_ok by done. unfold Word64.div_s64_rem. rewrite nonzero_ok by done.
      rewrite int64_ok by (by apply quot_range; lia). cbn. rewrite s32_small; [done|]. pose proof (Z.rem_bound_abs x y Hy). lia. }
    split; [done|]. unfold Word32.div_s64, Word64.div_s64. by rewrite Es.
  - intros Hy64 He. rewrite div64_s64_ok by done. unfold Word64.div64_s64. rewrite nonzero_ok by done.
    by rewrite int64_ok by (by apply quot_range; lia).
Qed.

Lemma math64_machines_agree_witness :
  Word32.div64_u64_rem (2 ^ 64 - 1) (2 ^ 34 + 3) = Word64.div64_u64_rem (2 ^ 64 - 1) (2 ^ 34 + 3) /\
  mul_u64_u64_shr (2 ^ 64 - 1) (2 ^ 34 + 3) 70 = mul_u64_u64_shr_int128 (2 ^ 64 - 1) (2 ^ 34 + 3) 70.
Proof.
  destruct (math64_machines_agree (2 ^ 64 - 1) (2 ^ 34 + 3) 7 10) as (_ & H & _ & _ & _ & _ & Hd & _); [lia..|].
  split; [apply Hd; right; lia|]. symmetry. apply H. lia.
Defined.
