(* ===== verification/Time.v ===== *)
(** * Calendar time and time stamps (lib/base time.c, timeconv.c, time64.h, time32.h, time.h)

    Seconds and nanoseconds are signed 64-bit words.  The kernel is built with
    -fno-strict-overflow (kernel/CMakeLists.txt), so there their arithmetic
    wraps; lib/base is also built for user space, where leaving the type is
    undefined and faults here.  The build is a parameter of every operation.
    The fields of [struct tm] are converted to its types.  The loops that
    normalise have a fuel that their quotient bounds. *)
From stdpp Require Import base numbers list option.
From Stdlib Require Import ZArith Lia.
From S2P Require Import Prelude Math64.

Record timespec64 : Type := mk_timespec64 { tv_sec : Z; tv_nsec : Z }.
Record timespec : Type := mk_timespec { ts_sec : Z; ts_nsec : Z }.
Record timeval : Type := mk_timeval { tvl_sec : Z; tvl_usec : Z }.
Record itimerspec64 : Type := mk_itimerspec64 { it_interval : timespec64; it_value : timespec64 }.

Definition USEC_PER_SEC : Z := 1000000.
Definition NSEC_PER_USEC : Z := 1000.
Definition NSEC_PER_SEC : Z := 1000000000.
Definition TIME64_MAX : Z := s64 (Z.lxor (Z.shiftl 1 63) ULLONG_MAX).
Definition KTIME_MAX : Z := s64 (Z.lxor (Z.shiftl 1 63) ULLONG_MAX).
Definition KTIME_SEC_MAX : Z := Z.quot KTIME_MAX NSEC_PER_SEC.

(** ** Signed arithmetic *)

Class Overflow : Type := wraps : bool.
Definition kernel_build : Overflow := true.
Definition user_build : Overflow := false.

Section time.
Context {O : Overflow}.

Definition i64 (z : Z) : outcome Z := if wraps then Ret (s64 z) else int64 z.

(** ** time.c *)

Definition mktime64 (year0 mon0 day hour min sec : Z) : outcome Z :=
  let '(mon, year) :=
    let mon := u32 (mon0 - 2) in
    if s32 mon <=? 0 then (u32 (mon + 12), u32 (year0 - 1)) else (mon, year0) in
  let n := u32 (u32 (u32 (u32 (year / 4 - year / 100) + year / 400) + u32 (367 * mon) / 12) + day) in
  days ← i64 (n + u32 (year * 365)); days ← i64 (days - 719499);
  hours ← i64 (days * 24); hours ← i64 (hours + hour);
  mins ← i64 (hours * 60); mins ← i64 (mins + min);
  secs ← i64 (mins * 60); i64 (secs + sec).

Definition mktime (year mon day hour min sec : Z) : outcome Z :=
  t ← mktime64 year mon day hour min sec; Ret (u64 t).

(** The body shared by [ns_to_timespec] and [ns_to_timespec64]. *)
Definition ns_split (nsec : Z) : outcome (Z * Z) :=
  if nsec =? 0 then Ret (0, 0)
  else
    '(sec, rem) ← Word64.div_s64_rem nsec NSEC_PER_SEC;
    if rem <? 0 then sec ← i64 (sec - 1); Ret (sec, s32 (rem + NSEC_PER_SEC)) else Ret (sec, rem).

Definition ns_to_timespec (nsec : Z) : outcome timespec := '(s, n) ← ns_split nsec; Ret (mk_timespec s n).
Definition ns_to_timespec64 (nsec : Z) : outcome timespec64 := '(s, n) ← ns_split nsec; Ret (mk_timespec64 s n).

Definition ns_to_timeval (nsec : Z) : outcome timeval :=
  ts ← ns_to_timespec nsec; Ret (mk_timeval (ts_sec ts) (Z.quot (ts_nsec ts) 1000)).

Definition carry_turn (s : Z * Z) : outcome ((Z * Z) + (Z * Z)) :=
  let '(sec, nsec) := s in
  if NSEC_PER_SEC <=? nsec then
    nsec ← i64 (nsec - NSEC_PER_SEC); sec ← i64 (sec + 1); Ret (inl (sec, nsec))
  else Ret (inr (sec, nsec)).
Definition borrow_turn (s : Z * Z) : outcome ((Z * Z) + (Z * Z)) :=
  let '(sec, nsec) := s in
  if nsec <? 0 then
    nsec ← i64 (nsec + NSEC_PER_SEC); sec ← i64 (sec - 1); Ret (inl (sec, nsec))
  else Ret (inr (sec, nsec)).
Definition normalize_fuel (nsec : Z) : nat := S (Z.to_nat (Z.abs (nsec / NSEC_PER_SEC))).
Definition set_normalized_timespec64 (sec nsec : Z) : outcome timespec64 :=
  '(sec, nsec) ← loop (normalize_fuel nsec) carry_turn (sec, nsec);
  '(sec, nsec) ← loop (normalize_fuel nsec) borrow_turn (sec, nsec);
  Ret (mk_timespec64 sec nsec).

Definition timespec64_add_safe (lhs rhs : timespec64) : outcome timespec64 :=
  nsec ← i64 (tv_nsec lhs + tv_nsec rhs);
  res ← set_normalized_timespec64 (s64 (u64 (u64 (tv_sec lhs) + u64 (tv_sec rhs)))) nsec;
  if (tv_sec res <? tv_sec lhs) || (tv_sec res <? tv_sec rhs) then Ret (mk_timespec64 TIME64_MAX 0)
  else Ret res.

(** ** time64.h *)

Definition timespec64_equal (a b : timespec64) : bool := (tv_sec a =? tv_sec b) && (tv_nsec a =? tv_nsec b).

Definition timespec64_compare (lhs rhs : timespec64) : outcome Z :=
  if tv_sec lhs <? tv_sec rhs then Ret (-1)
  else if tv_sec rhs <? tv_sec lhs then Ret 1
  else d ← i64 (tv_nsec lhs - tv_nsec rhs); Ret (s32 d).

Definition timespec64_add (lhs rhs : timespec64) : outcome timespec64 :=
  sec ← i64 (tv_sec lhs + tv_sec rhs); nsec ← i64 (tv_nsec lhs + tv_nsec rhs);
  set_normalized_timespec64 sec nsec.
Definition timespec64_sub (lhs rhs : timespec64) : outcome timespec64 :=
  sec ← i64 (tv_sec lhs - tv_sec rhs); nsec ← i64 (tv_nsec lhs - tv_nsec rhs);
  set_normalized_timespec64 sec nsec.

Definition timespec64_valid (ts : timespec64) : bool :=
  if tv_sec ts <? 0 then false
  else if NSEC_PER_SEC <=? u64 (tv_nsec ts) then false
  else true.
Definition timespec64_valid_strict (ts : timespec64) : bool :=
  if negb (timespec64_valid ts) then false
  else if KTIME_SEC_MAX <=? u64 (tv_sec ts) then false
  else true.

Definition timespec64_to_ns (ts : timespec64) : outcome Z :=
  n ← i64 (tv_sec ts * NSEC_PER_SEC); i64 (n + tv_nsec ts).

Definition timespec64_add_ns (a : timespec64) (ns : Z) : outcome timespec64 :=
  '(n, ns) ← __iter_div_u64_rem (u64 (u64 (tv_nsec a) + ns)) NSEC_PER_SEC;
  sec ← i64 (tv_sec a + n);
  Ret (mk_timespec64 sec (s64 ns)).

(** ** time32.h and time.h *)

Definition timespec64_to_timespec (ts64 : timespec64) : timespec := mk_timespec (tv_sec ts64) (tv_nsec ts64).
Definition timespec_to_timespec64 (ts : timespec) : timespec64 := mk_timespec64 (ts_sec ts) (ts_nsec ts).

Definition timespec_equal (a b : timespec) : bool := (ts_sec a =? ts_sec b) && (ts_nsec a =? ts_nsec b).
Definition timespec_compare (lhs rhs : timespec) : outcome Z :=
  if ts_sec lhs <? ts_sec rhs then Ret (-1)
  else if ts_sec rhs <? ts_sec lhs then Ret 1
  else d ← i64 (ts_nsec lhs - ts_nsec rhs); Ret (s32 d).
Definition timespec_valid (ts : timespec) : bool :=
  if ts_sec ts <? 0 then false
  else if NSEC_PER_SEC <=? u64 (ts_nsec ts) then false
  else true.
Definition timespec_to_ns (ts : timespec) : outcome Z :=
  n ← i64 (ts_sec ts * NSEC_PER_SEC); i64 (n + ts_nsec ts).
Definition timespec_add_ns (a : timespec) (ns : Z) : outcome timespec :=
  '(n, ns) ← __iter_div_u64_rem (u64 (u64 (ts_nsec a) + ns)) NSEC_PER_SEC;
  sec ← i64 (ts_sec a + n);
  Ret (mk_timespec sec (s64 ns)).

Definition timeval_valid (tv : timeval) : bool :=
  if tvl_sec tv <? 0 then false
  else if (tvl_usec tv <? 0) || (USEC_PER_SEC <=? tvl_usec tv) then false
  else true.
Definition timeval_to_ns (tv : timeval) : outcome Z :=
  n ← i64 (tvl_sec tv * NSEC_PER_SEC); u ← i64 (tvl_usec tv * NSEC_PER_USEC); i64 (n + u).

Definition itimerspec64_valid (its : itimerspec64) : bool :=
  if negb (timespec64_valid (it_interval its)) || negb (timespec64_valid (it_value its)) then false else true.

Definition time_after32 (a b : Z) : bool := s32 (u32 (u32 b - u32 a)) <? 0.
Definition time_before32 (b a : Z) : bool := time_after32 a b.

(** ** timeconv.c *)

Record tm : Type := mk_tm {
  tm_sec : Z; tm_min : Z; tm_hour : Z; tm_mday : Z; tm_mon : Z; tm_year : Z; tm_wday : Z; tm_yday : Z }.

Definition __isleap (year : Z) : bool :=
  (Z.rem year 4 =? 0) && (negb (Z.rem year 100 =? 0) || (Z.rem year 400 =? 0)).

Definition math_div (a b : Z) : outcome Z := i64 (Z.quot a b - (if Z.rem a b <? 0 then 1 else 0)).

Definition leaps_until (y : Z) : outcome Z :=
  y ← i64 (y - 1);
  a ← math_div y 4; b ← math_div y 100; c ← math_div y 400;
  d ← i64 (a - b); i64 (d + c).
Definition leaps_between (y1 y2 : Z) : outcome Z :=
  leaps1 ← leaps_until y1; leaps2 ← leaps_until y2; i64 (leaps2 - leaps1).

Definition __mon_yday : list (list Z) :=
  [[0; 31; 59; 90; 120; 151; 181; 212; 243; 273; 304; 334; 365];
   [0; 31; 60; 91; 121; 152; 182; 213; 244; 274; 305; 335; 366]].

Definition SECS_PER_HOUR : Z := 60 * 60.
Definition SECS_PER_DAY : Z := SECS_PER_HOUR * 24.

(** The two loops that bring [rem] into a day. *)
Definition rem_up_turn (s : Z * Z) : outcome ((Z * Z) + (Z * Z)) :=
  let '(days, rem) := s in
  if rem <? 0 then rem ← i64 (rem + SECS_PER_DAY); days ← i64 (days - 1); Ret (inl (days, rem))
  else Ret (inr (days, rem)).
Definition rem_down_turn (s : Z * Z) : outcome ((Z * Z) + (Z * Z)) :=
  let '(days, rem) := s in
  if SECS_PER_DAY <=? rem then rem ← i64 (rem - SECS_PER_DAY); days ← i64 (days + 1); Ret (inl (days, rem))
  else Ret (inr (days, rem)).
Definition rem_fuel (rem : Z) : nat := S (Z.to_nat (Z.abs (rem / SECS_PER_DAY))).

(** The guess of the year. *)
Definition year_turn (s : Z * Z) : outcome ((Z * Z) + (Z * Z)) :=
  let '(y, days) := s in
  if (days <? 0) || ((if __isleap y then 366 else 365) <=? days) then
    g ← math_div days 365; yg ← i64 (y + g);
    d ← i64 (yg - y); d ← i64 (d * 365); l ← leaps_between y yg; d ← i64 (d + l);
    days ← i64 (days - d);
    Ret (inl (yg, days))
  else Ret (inr (y, days)).
Definition year_fuel : nat := 64.

(** [for (y = 11; days < ip[y]; y--)]. *)
Definition month_turn (ip : list Z) (days : Z) (y : Z) : outcome (Z + Z * Z) :=
  d ← rd ip y; if days <? d then Ret (inl (y - 1)) else Ret (inr (y, d)).

Definition time64_to_tm (totalsecs offset : Z) : outcome tm :=
  '(days, remainder) ← Word64.div_s64_rem totalsecs SECS_PER_DAY;
  rem ← i64 (remainder + offset);
  '(days, rem) ← loop (rem_fuel rem) rem_up_turn (days, rem);
  '(days, rem) ← loop (rem_fuel rem) rem_down_turn (days, rem);
  let hour := s32 (Z.quot rem SECS_PER_HOUR) in
  let rem := Z.rem rem SECS_PER_HOUR in
  let min := s32 (Z.quot rem 60) in
  let sec := s32 (Z.rem rem 60) in
  wd ← i64 (4 + days);
  let wday := s32 (Z.rem wd 7) in
  let wday := if wday <? 0 then wday + 7 else wday in
  '(y, days) ← loop year_fuel year_turn (1970, days);
  year ← i64 (y - 1900);
  let yday := s32 days in
  ip ← rd __mon_yday (Z.b2z (__isleap y));
  '(y, d) ← loop 13 (month_turn ip days) 11;
  days ← i64 (days - d);
  let mon := s32 y in
  mday ← i64 (days + 1);
  Ret (mk_tm sec min hour (s32 mday) mon year wday yday).
End time.
