(* ===== verification/TimeFacts.v ===== *)
(** * The calendar

    The reference is the calendar's rule for the day after a date; [date_num]
    numbers the dates, and counts from 1970-01-01.  The lemmas here relate the
    computations of timeconv.c and time.c to it. *)
From stdpp Require Import base numbers list option.
From Stdlib Require Import ZArith Lia.
From S2P Require Import Prelude Math64 Math64Spec Time.

(** ** The rule *)

Record date : Type := mk_date { d_year : Z; d_month : Z; d_day : Z }.

Definition leap_year (y : Z) : bool := (y mod 4 =? 0) && (negb (y mod 100 =? 0) || (y mod 400 =? 0)).
Definition month_days (leap : bool) (m : Z) : Z :=
  if m =? 2 then (if leap then 29 else 28)
  else if (m =? 4) || (m =? 6) || (m =? 9) || (m =? 11) then 30 else 31.

Definition valid_date (d : date) : Prop :=
  1 <= d_month d <= 12 /\ 1 <= d_day d <= month_days (leap_year (d_year d)) (d_month d).

Definition next_date (d : date) : date :=
  if d_day d <? month_days (leap_year (d_year d)) (d_month d) then mk_date (d_year d) (d_month d) (d_day d + 1)
  else if d_month d <? 12 then mk_date (d_year d) (d_month d + 1) 1
  else mk_date (d_year d + 1) 1 1.
Definition prev_date (d : date) : date :=
  if 1 <? d_day d then mk_date (d_year d) (d_month d) (d_day d - 1)
  else if 1 <? d_month d then mk_date (d_year d) (d_month d - 1) (month_days (leap_year (d_year d)) (d_month d - 1))
  else mk_date (d_year d - 1) 12 31.

Definition epoch : date := mk_date 1970 1 1.

(** The date [n] days after the epoch. *)
Definition date_after (n : Z) : date :=
  if 0 <=? n then Nat.iter (Z.to_nat n) next_date epoch else Nat.iter (Z.to_nat (- n)) prev_date epoch.

(** ** The number of a date *)

(** Leap years before year [y], up to a constant. *)
Definition leaps (y : Z) : Z := (y - 1) / 4 - (y - 1) / 100 + (y - 1) / 400.
Definition year_start (y : Z) : Z := 365 * (y - 1970) + leaps y - leaps 1970.
Definition month_start (leap : bool) (m : Z) : Z :=
  foldr Z.add 0 (map (fun i => month_days leap (Z.of_nat i)) (seq 1 (Z.to_nat (m - 1)))).
Definition year_days (y : Z) : Z := 365 + Z.b2z (leap_year y).
Definition date_num (d : date) : Z :=
  year_start (d_year d) + month_start (leap_year (d_year d)) (d_month d) + (d_day d - 1).

Lemma div_step x k : 0 < k -> (x + 1) / k = x / k + (if (x + 1) mod k =? 0 then 1 else 0).
Proof.
  intros Hk. pose proof (Z_div_mod_eq_full x k). pose proof (Z.mod_pos_bound x k Hk).
  pose proof (Z_div_mod_eq_full (x + 1) k). pose proof (Z.mod_pos_bound (x + 1) k Hk).
  destruct (Z.eqb_spec ((x + 1) mod k) 0); nia.
Qed.

Lemma leaps_succ y : leaps (y + 1) = leaps y + Z.b2z (leap_year y).
Proof.
  unfold leaps, leap_year. replace (y + 1 - 1) with (y - 1 + 1) by lia. rewrite !div_step by lia.
  replace (y - 1 + 1) with y by lia.
  assert (H4 : y mod 100 = 0 -> y mod 4 = 0).
  { intros H. pose proof (Z_div_mod_eq_full y 100). replace y with (y / 100 * 25 * 4) by lia. apply Z.mod_mul. lia. }
  assert (H100 : y mod 400 = 0 -> y mod 100 = 0).
  { intros H. pose proof (Z_div_mod_eq_full y 400). replace y with (y / 400 * 4 * 100) by lia. apply Z.mod_mul. lia. }
  destruct (Z.eqb_spec (y mod 4) 0), (Z.eqb_spec (y mod 100) 0), (Z.eqb_spec (y mod 400) 0); cbn; tauto || lia.
Qed.

Lemma year_start_succ y : year_start (y + 1) = year_start y + year_days y.
Proof. unfold year_start, year_days. rewrite leaps_succ. lia. Qed.

Lemma sub_div_mono a b k : 0 < k -> a <= b -> a - a / k <= b - b / k.
Proof.
  intros Hk Hab. assert (b / k <= a / k + (b - a)); [|lia]. rewrite <- Z.div_add by lia. apply Z.div_le_mono; [done|nia].
Qed.

(** How many leap years a span of years can have. *)
Lemma leaps_span y n : 0 <= n -> 0 <= leaps (y + n) - leaps y <= (n + 3) / 4.
Proof.
  intros Hn. unfold leaps. replace (y + n - 1) with (y - 1 + n) by lia. set (x := y - 1).
  assert (E25 : forall z, z / 100 = z / 4 / 25) by (intros; by rewrite Z.div_div by lia).
  assert (E : forall z, z / 400 = z / 100 / 4) by (intros; by rewrite Z.div_div by lia). rewrite !E, !E25.
  assert (Hx : x / 4 <= (x + n) / 4) by (apply Z.div_le_mono; lia).
  assert (Hs : (x + n) / 4 - x / 4 <= (n + 3) / 4).
  { assert ((x + n) / 4 <= (n + 3) / 4 + x / 4); [|lia]. rewrite <- Z.div_add by lia. apply Z.div_le_mono; [lia|].
    pose proof (Z_div_mod_eq_full x 4). pose proof (Z.mod_pos_bound x 4). lia. }
  revert Hx Hs. generalize (x / 4) ((x + n) / 4). intros a b Hab Hs.
  pose proof (sub_div_mono a b 25 ltac:(lia) Hab). assert (H25 : a / 25 <= b / 25) by (apply Z.div_le_mono; lia).
  pose proof (sub_div_mono _ _ 4 ltac:(lia) H25). assert (a / 25 / 4 <= b / 25 / 4) by (apply Z.div_le_mono; lia). lia.
Qed.

Lemma year_start_mono y y' : y < y' -> year_start y + year_days y <= year_start y'.
Proof.
  intros Hy. rewrite <- year_start_succ. pose proof (leaps_span (y + 1) (y' - (y + 1)) ltac:(lia)) as Hl.
  replace (y + 1 + (y' - (y + 1))) with y' in Hl by lia. unfold year_start. lia.
Qed.

(** Every month. *)
Lemma months (P : Z -> Prop) : P 1 -> P 2 -> P 3 -> P 4 -> P 5 -> P 6 -> P 7 -> P 8 -> P 9 -> P 10 -> P 11 -> P 12 ->
  forall m, 1 <= m <= 12 -> P m.
Proof. intros. assert (Hm : m = 1 \/ m = 2 \/ m = 3 \/ m = 4 \/ m = 5 \/ m = 6 \/ m = 7 \/ m = 8 \/ m = 9 \/ m = 10 \/ m = 11 \/ m = 12) by lia.
  by repeat (destruct Hm as [->|Hm]; [done|]); subst.
Qed.

Lemma month_start_succ l m : 1 <= m <= 12 ->
  (if m <? 12 then month_start l (m + 1) else 365 + Z.b2z l) = month_start l m + month_days l m.
Proof. revert m. apply months; by destruct l. Qed.

Lemma month_start_range l m : 1 <= m <= 12 -> 0 <= month_start l m /\ month_start l m + month_days l m <= 365 + Z.b2z l /\ 28 <= month_days l m <= 31.
Proof. revert m. apply months; destruct l; vm_compute; repeat split; discriminate. Qed.

Lemma month_start_mono l m m' : 1 <= m -> m < m' -> m' <= 12 -> month_start l m + month_days l m <= month_start l m'.
Proof.
  intros Hm Hlt Hm'. pose proof (Zlt_lower_bound_ind (fun k => k <= 12 -> month_start l m + month_days l m <= month_start l k) (m + 1)) as H.
  apply H; [|lia..]. intros x IH Hx Hle. destruct (decide (x = m + 1)) as [->|].
  - pose proof (month_start_succ l m) as E. rewrite (proj2 (Z.ltb_lt m 12)) in E by lia. rewrite <- E by lia. lia.
  - pose proof (month_start_succ l (x - 1)) as E. rewrite (proj2 (Z.ltb_lt (x - 1) 12)) in E by lia.
    replace (x - 1 + 1) with x in E by lia. rewrite E by lia. pose proof (month_start_range l (x - 1)).
    specialize (IH (x - 1)). lia.
Qed.

Lemma next_date_ok d : valid_date d -> valid_date (next_date d) /\ date_num (next_date d) = date_num d + 1.
Proof.
  destruct d as [y m dd]. unfold valid_date, next_date, date_num. cbn. intros [Hm Hd].
  pose proof (month_start_succ (leap_year y) m Hm) as Es. pose proof (month_start_range (leap_year y) m Hm).
  destruct (Z.ltb_spec dd (month_days (leap_year y) m)); cbn; [lia|].
  destruct (Z.ltb_spec m 12); cbn.
  - pose proof (month_start_range (leap_year y) (m + 1)). lia.
  - rewrite year_start_succ. change (month_start _ 1) with 0. unfold year_days. lia.
Qed.

Lemma prev_date_ok d : valid_date d -> valid_date (prev_date d) /\ date_num (prev_date d) = date_num d - 1.
Proof.
  destruct d as [y m dd]. unfold valid_date, prev_date, date_num. cbn. intros [Hm Hd].
  destruct (Z.ltb_spec 1 dd); cbn; [lia|]. destruct (Z.ltb_spec 1 m); cbn.
  - pose proof (month_start_succ (leap_year y) (m - 1)) as Es. pose proof (month_start_range (leap_year y) (m - 1)).
    rewrite (proj2 (Z.ltb_lt (m - 1) 12)) in Es by lia. replace (m - 1 + 1) with m in Es by lia. lia.
  - replace m with 1 by lia. change (month_start (leap_year y) 1) with 0.
    pose proof (year_start_succ (y - 1)) as Ey. replace (y - 1 + 1) with y in Ey by lia. rewrite Ey. unfold year_days.
    pose proof (month_start_succ (leap_year (y - 1)) 12 ltac:(lia)) as Es. cbn [Z.ltb Z.compare Pos.compare Pos.compare_cont] in Es.
    assert (Hj : forall l, month_days l 12 = 31) by done. rewrite Hj in *. lia.
Qed.

Lemma iter_num (f : date -> date) s : (forall d, valid_date d -> valid_date (f d) /\ date_num (f d) = date_num d + s) ->
  forall k, valid_date (Nat.iter k f epoch) /\ date_num (Nat.iter k f epoch) = s * Z.of_nat k.
Proof.
  intros Hf k. induction k as [|k [IHv IHn]].
  { rewrite Z.mul_0_r. split; [unfold valid_date; cbn; lia|done]. }
  simpl. destruct (Hf _ IHv) as [Hv Hn]. split; [done|]. lia.
Qed.

Lemma date_after_ok n : valid_date (date_after n) /\ date_num (date_after n) = n.
Proof.
  unfold date_after. destruct (Z.leb_spec 0 n).
  - destruct (iter_num next_date 1 next_date_ok (Z.to_nat n)). split; [done|lia].
  - destruct (iter_num prev_date (-1)) with (k := Z.to_nat (- n)); [|split; [done|lia]].
    intros d Hd. destruct (prev_date_ok d Hd). split; [done|lia].
Qed.

Lemma date_num_range d : valid_date d ->
  year_start (d_year d) <= date_num d < year_start (d_year d) + year_days (d_year d).
Proof.
  destruct d as [y m dd]. unfold valid_date, date_num, year_days. cbn. intros [Hm Hd].
  pose proof (month_start_range (leap_year y) m Hm). lia.
Qed.

Lemma year_of_num y y' n : year_start y <= n < year_start y + year_days y ->
  year_start y' <= n < year_start y' + year_days y' -> y = y'.
Proof.
  intros H H'. destruct (Z.lt_trichotomy y y') as [Hlt|[->|Hlt]]; [|done|]; pose proof (year_start_mono _ _ Hlt); lia.
Qed.

Lemma date_num_inj d d' : valid_date d -> valid_date d' -> date_num d = date_num d' -> d = d'.
Proof.
  intros Hv Hv' E. pose proof (date_num_range d Hv) as Hr. pose proof (date_num_range d' Hv') as Hr'. rewrite <- E in Hr'.
  pose proof (year_of_num _ _ _ Hr Hr') as Ey. destruct d as [y m dd], d' as [y' m' dd']. unfold valid_date, date_num in *. cbn in *.
  subst y'. destruct Hv as [Hm Hd], Hv' as [Hm' Hd']. assert (m = m').
  { destruct (Z.lt_trichotomy m m') as [Hlt|[->|Hlt]]; [|done|].
    - pose proof (month_start_mono (leap_year y) m m'). lia.
    - pose proof (month_start_mono (leap_year y) m' m). lia. }
  subst m'. f_equal. lia.
Qed.

Lemma date_is d n : valid_date d -> date_num d = n -> d = date_after n.
Proof. intros Hv E. destruct (date_after_ok n) as [Hv' En]. apply date_num_inj; [done..|lia]. Qed.

(** ** Signed arithmetic, in both builds *)

Section facts.
Context {O : Overflow}.

Lemma i64_ok z : - 2 ^ 63 <= z < 2 ^ 63 -> i64 z = Ret z.
Proof. intros. unfold i64. destruct wraps; [by rewrite s64_small|by apply int64_ok]. Qed.

Lemma s64_range z : - 2 ^ 63 <= s64 z < 2 ^ 63.
Proof using. unfold s64. pose proof (Z.mod_pos_bound (z + 2 ^ 63) (2 ^ 64)). lia. Qed.

Lemma s64_s64_add a b : s64 (s64 a + b) = s64 (a + b).
Proof using. unfold s64. replace ((a + 2 ^ 63) mod 2 ^ 64 - 2 ^ 63 + b + 2 ^ 63) with ((a + 2 ^ 63) mod 2 ^ 64 + b) by lia.
  rewrite Z.add_mod_idemp_l by lia. do 2 f_equal. lia. Qed.

Lemma i64_range z x : i64 z = Ret x -> - 2 ^ 63 <= x < 2 ^ 63.
Proof. unfold i64, int64. destruct wraps; [intros [= <-]; apply s64_range|]. case_decide; [|done]. by intros [= <-]. Qed.

(** Two steps in one direction are one. *)
Lemma i64_then q a b : - 2 ^ 63 <= q < 2 ^ 63 -> 0 <= a /\ 0 <= b \/ a <= 0 /\ b <= 0 ->
  (exists x, i64 (q + a) = Ret x /\ - 2 ^ 63 <= x < 2 ^ 63 /\ i64 (x + b) = i64 (q + a + b)) \/
  (i64 (q + a) = Fault /\ i64 (q + a + b) = Fault).
Proof.
  intros Hq Hab. unfold i64. destruct wraps.
  - left. exists (s64 (q + a)). split; [done|]. split; [apply s64_range|]. by rewrite s64_s64_add.
  - destruct (decide (- 2 ^ 63 <= q + a < 2 ^ 63)); [left; exists (q + a); by rewrite int64_ok|].
    right. by rewrite !int64_over by lia.
Qed.

(** ** timeconv.c *)

Lemma rem_zero a k : 0 < k -> (Z.rem a k =? 0) = (a mod k =? 0).
Proof.
  intros Hk. pose proof (Z.rem_mod_eq_0 a k ltac:(lia)).
  destruct (Z.eqb_spec (Z.rem a k) 0), (Z.eqb_spec (a mod k) 0); tauto || lia.
Qed.

Lemma isleap_ok y : __isleap y = leap_year y.
Proof. unfold __isleap, leap_year. by rewrite !rem_zero. Qed.

Lemma math_div_ok a b : - 2 ^ 62 < a < 2 ^ 62 -> 0 < b -> math_div a b = Ret (a / b).
Proof.
  intros Ha Hb. unfold math_div. assert (E : Z.quot a b - (if Z.rem a b <? 0 then 1 else 0) = a / b).
  { pose proof (Z.quot_rem' a b) as Eq. apply (Z.div_unique_pos _ _ _ (if Z.rem a b <? 0 then Z.rem a b + b else Z.rem a b)).
    - pose proof (Z.rem_bound_abs a b ltac:(lia)). destruct (Z.ltb_spec (Z.rem a b) 0); lia.
    - destruct (Z.ltb_spec (Z.rem a b) 0); lia. }
  rewrite E. apply i64_ok. assert (- 2 ^ 62 <= a / b < 2 ^ 62); [|lia].
  split; [apply Z.div_le_lower_bound|apply Z.div_lt_upper_bound]; nia.
Qed.

Lemma div_abs a b : 0 < b -> Z.abs (a / b) <= Z.abs a.
Proof.
  intros Hb. destruct (Z.le_gt_cases 0 a).
  - pose proof (Z.div_pos a b). pose proof (Z.div_le_upper_bound a b a). nia.
  - pose proof (Z.div_le_lower_bound a b a). pose proof (Z.div_le_upper_bound a b 0). nia.
Qed.

Lemma leaps_until_ok y : - 2 ^ 60 < y < 2 ^ 60 -> leaps_until y = Ret (leaps y).
Proof.
  intros Hy. unfold leaps_until, leaps. rewrite i64_ok by lia. cbn. rewrite !math_div_ok by lia. cbn.
  pose proof (div_abs (y - 1) 4). pose proof (div_abs (y - 1) 100). pose proof (div_abs (y - 1) 400).
  rewrite !i64_ok by lia. cbn. by rewrite i64_ok by lia.
Qed.

Lemma leaps_between_ok a b : - 2 ^ 60 < a < 2 ^ 60 -> - 2 ^ 60 < b < 2 ^ 60 -> leaps_between a b = Ret (leaps b - leaps a).
Proof.
  intros Ha Hb. unfold leaps_between. rewrite !leaps_until_ok by done. cbn. apply i64_ok.
  unfold leaps. pose proof (div_abs (a - 1) 4). pose proof (div_abs (a - 1) 100). pose proof (div_abs (a - 1) 400).
  pose proof (div_abs (b - 1) 4). pose proof (div_abs (b - 1) 100). pose proof (div_abs (b - 1) 400). lia.
Qed.

(** ** Bringing a remainder into range by repeated addition *)

Section norm.
Context (K : Z) (HK : 0 < K < 2 ^ 62).

Definition down (s : Z * Z) : outcome ((Z * Z) + (Z * Z)) :=
  let '(q, n) := s in
  if K <=? n then n ← i64 (n - K); q ← i64 (q + 1); Ret (inl (q, n)) else Ret (inr (q, n)).
Definition up (s : Z * Z) : outcome ((Z * Z) + (Z * Z)) :=
  let '(q, n) := s in
  if n <? 0 then n ← i64 (n + K); q ← i64 (q - 1); Ret (inl (q, n)) else Ret (inr (q, n)).

Lemma down_loop fuel q n : - 2 ^ 63 <= q < 2 ^ 63 -> - 2 ^ 63 <= n < 2 ^ 63 -> n / K < Z.of_nat fuel -> (0 < fuel)%nat ->
  loop fuel down (q, n) = (x ← i64 (q + Z.max 0 (n / K)); Ret (x, n - Z.max 0 (n / K) * K)).
Proof using HK.
  revert q n. induction fuel as [|fuel IH]; intros q n Hq Hn Hf H0; [lia|]. destruct (Z.leb_spec K n) as [Hle|Hle].
  - assert (Ed : (n - K) / K = n / K - 1) by (replace (n - K) with (n + (-1) * K) by ring; rewrite Z.div_add by lia; lia).
    assert (0 < n / K) by (apply Z.div_str_pos; lia).
    rewrite loop_S. cbn. zdec. rewrite (i64_ok (n - K)) by lia. cbn. replace (Z.max 0 (n / K)) with (1 + (n / K - 1)) by lia.
    rewrite (Z.add_assoc q). destruct (i64_then q 1 (n / K - 1) Hq ltac:(lia)) as [(x & -> & Hx & E)|[-> ->]]; [|done].
    cbn. rewrite IH, Ed by lia. replace (Z.max 0 (n / K - 1)) with (n / K - 1) by lia. rewrite E.
    by replace (n - K - (n / K - 1) * K) with (n - (1 + (n / K - 1)) * K) by ring.
  - assert (n / K <= 0) by (apply Z.lt_succ_r, Z.div_lt_upper_bound; lia).
    replace (Z.max 0 (n / K)) with 0 by lia. rewrite loop_S. cbn [down up]. zdec. rewrite i64_ok by lia. cbn [mbind outcome_bind]. f_equal. f_equal; lia.
Qed.

Lemma up_loop fuel q n : - 2 ^ 63 <= q < 2 ^ 63 -> - 2 ^ 63 <= n < 2 ^ 63 -> - (n / K) < Z.of_nat fuel -> (0 < fuel)%nat ->
  loop fuel up (q, n) = (x ← i64 (q + Z.min 0 (n / K)); Ret (x, n - Z.min 0 (n / K) * K)).
Proof using HK.
  revert q n. induction fuel as [|fuel IH]; intros q n Hq Hn Hf H0; [lia|]. destruct (Z.lt_ge_cases n 0) as [Hlt|Hge].
  - assert (Ed : (n + K) / K = n / K + 1) by (replace (n + K) with (n + 1 * K) by ring; rewrite Z.div_add by lia; lia).
    assert (n / K < 0) by (apply Z.div_lt_upper_bound; lia).
    rewrite loop_S. cbn. zdec. rewrite (i64_ok (n + K)) by lia. cbn. replace (Z.min 0 (n / K)) with (-1 + (n / K + 1)) by lia.
    rewrite (Z.add_assoc q). destruct (i64_then q (-1) (n / K + 1) Hq ltac:(lia)) as [(x & E1 & Hx & E)|[E1 E]];
      change (q - 1) with (q + -1); rewrite E1; [|by rewrite E].
    cbn. rewrite IH, Ed by lia. replace (Z.min 0 (n / K + 1)) with (n / K + 1) by lia. rewrite E.
    by replace (n + K - (n / K + 1) * K) with (n - (-1 + (n / K + 1)) * K) by ring.
  - pose proof (Z.div_pos n K ltac:(lia) ltac:(lia)).
    replace (Z.min 0 (n / K)) with 0 by lia. rewrite loop_S. cbn [down up]. zdec. rewrite i64_ok by lia. cbn [mbind outcome_bind]. f_equal. f_equal; lia.
Qed.

(** The two loops are a division; the quotient is added to the word at once. *)
Lemma norm_ok q n : - 2 ^ 63 <= q < 2 ^ 63 -> - 2 ^ 63 <= n < 2 ^ 63 ->
  ('(q, n) ← loop (S (Z.to_nat (Z.abs (n / K)))) down (q, n); loop (S (Z.to_nat (Z.abs (n / K)))) up (q, n)) =
    (q ← i64 (q + n / K); Ret (q, n mod K)).
Proof using HK.
  intros Hq Hn. rewrite down_loop by lia. rewrite (Z.mod_eq n K) by lia. destruct (Z.le_gt_cases 0 n).
  - pose proof (Z.div_pos n K ltac:(lia) ltac:(lia)). replace (Z.max 0 (n / K)) with (n / K) by lia.
    pose proof (Z_div_mod_eq_full n K). pose proof (Z.mod_pos_bound n K ltac:(lia)).
    destruct (i64 (q + n / K)) as [x| | |] eqn:Ex; [|done..]. apply i64_range in Ex. cbn [mbind outcome_bind].
    assert (E0 : (n - n / K * K) / K = 0) by (apply Z.div_small; lia).
    rewrite up_loop by (rewrite ?E0; lia). rewrite E0. change (Z.min 0 0) with 0. rewrite Z.add_0_r, i64_ok by lia. cbn. f_equal. f_equal; lia.
  - assert (n / K < 0) by (apply Z.div_lt_upper_bound; lia). replace (Z.max 0 (n / K)) with 0 by lia.
    rewrite Z.add_0_r, i64_ok by lia. cbn. rewrite Z.sub_0_r, up_loop by lia. replace (Z.min 0 (n / K)) with (n / K) by lia.
    destruct (i64 (q + n / K)); [|done..]. cbn. f_equal. f_equal; lia.
Qed.

(** The loops in the other order, when the quotient stays in its type. *)
Lemma norm_up_ok q n : - 2 ^ 63 <= q < 2 ^ 63 -> - 2 ^ 63 <= n < 2 ^ 63 -> - 2 ^ 63 <= q + n / K < 2 ^ 63 ->
  exists q' n', loop (S (Z.to_nat (Z.abs (n / K)))) up (q, n) = Ret (q', n') /\
    loop (S (Z.to_nat (Z.abs (n' / K)))) down (q', n') = Ret (q + n / K, n mod K).
Proof using HK.
  intros Hq Hn Hqn. rewrite up_loop by lia. rewrite (Z.mod_eq n K) by lia. destruct (Z.le_gt_cases 0 n).
  - pose proof (Z.div_pos n K ltac:(lia) ltac:(lia)). replace (Z.min 0 (n / K)) with 0 by lia. rewrite Z.add_0_r, i64_ok by lia. exists q, n.
    split; [cbn; f_equal; f_equal; lia|]. rewrite down_loop by lia. replace (Z.max 0 (n / K)) with (n / K) by lia. rewrite i64_ok by lia.
    cbn. f_equal. f_equal; lia.
  - assert (n / K < 0) by (apply Z.div_lt_upper_bound; lia). replace (Z.min 0 (n / K)) with (n / K) by lia. rewrite i64_ok by lia.
    eexists _, _. split; [done|]. pose proof (Z_div_mod_eq_full n K). pose proof (Z.mod_pos_bound n K ltac:(lia)).
    assert (E0 : (n - n / K * K) / K = 0) by (apply Z.div_small; lia).
    rewrite down_loop by (rewrite ?E0; lia). rewrite E0. change (Z.max 0 0) with 0. rewrite i64_ok by lia. cbn. f_equal. f_equal; lia.
Qed.
End norm.

(** ** The year *)

Definition out_of_year (y days : Z) : Prop := days < 0 \/ year_days y <= days.

Lemma year_guard y days : (days <? 0) || ((if __isleap y then 366 else 365) <=? days) = bool_decide (out_of_year y days).
Proof.
  rewrite isleap_ok. unfold out_of_year, year_days.
  replace (if leap_year y then 366 else 365) with (365 + Z.b2z (leap_year y)) by (by destruct (leap_year y)).
  destruct (Z.ltb_spec days 0), (Z.leb_spec (365 + Z.b2z (leap_year y)) days); cbn; symmetry;
    (apply bool_decide_eq_true || apply bool_decide_eq_false); lia.
Qed.

Lemma leaps_bound y : Z.abs (leaps y) <= 3 * (Z.abs y + 1).
Proof.
  unfold leaps. pose proof (div_abs (y - 1) 4). pose proof (div_abs (y - 1) 100). pose proof (div_abs (y - 1) 400). lia.
Qed.

Definition guess (y days : Z) : Z := y + days / 365.
Definition rest (y days : Z) : Z := days - (365 * (days / 365) + (leaps (guess y days) - leaps y)).

Lemma year_turn_ok y days : - 2 ^ 57 < y < 2 ^ 57 -> - 2 ^ 57 <= days <= 2 ^ 57 ->
  year_turn (y, days) = Ret (if bool_decide (out_of_year y days) then inl (guess y days, rest y days) else inr (y, days)).
Proof.
  intros Hy Hd. unfold year_turn. rewrite year_guard. case_bool_decide as Ho; [|done].
  pose proof (div_abs days 365 ltac:(lia)) as Hq. unfold rest, guess. rewrite math_div_ok by lia. cbn [mbind outcome_bind].
  rewrite i64_ok by lia. cbn [mbind outcome_bind]. replace (y + days / 365 - y) with (days / 365) by lia.
  pose proof (leaps_bound y). pose proof (leaps_bound (y + days / 365)).
  pose proof (Z_div_mod_eq_full days 365). pose proof (Z.mod_pos_bound days 365 ltac:(lia)).
  rewrite i64_ok by lia. cbn [mbind outcome_bind]. rewrite i64_ok by lia. cbn [mbind outcome_bind].
  rewrite leaps_between_ok by lia. cbn [mbind outcome_bind]. rewrite i64_ok by lia. cbn [mbind outcome_bind].
  rewrite i64_ok by lia. cbn [mbind outcome_bind]. do 3 f_equal. lia.
Qed.

Lemma guess_keeps y days : year_start (guess y days) + rest y days = year_start y + days.
Proof. unfold rest, guess, year_start. lia. Qed.

(** A guess that is off by more than one year is off by half as much, at most, the next time. *)
Lemma guess_converges y days : out_of_year y days ->
  days / 365 <> 0 /\ (out_of_year (guess y days) (rest y days) -> 2 * Z.abs (rest y days / 365) <= Z.abs (days / 365)) /\
  Z.abs (rest y days) <= 366 + Z.abs (days / 365).
Proof.
  unfold out_of_year, year_days. intros Ho. pose proof (Z_div_mod_eq_full days 365) as E.
  pose proof (Z.mod_pos_bound days 365 ltac:(lia)) as Hr. set (q := days / 365) in *. set (r := days mod 365) in *.
  assert (Hq : q <> 0) by (intros E0; rewrite E0 in E; destruct (leap_year y); cbn in *; lia).
  assert (Er : rest y days = r - (leaps (y + q) - leaps y)) by (unfold rest, guess; fold q; lia).
  unfold guess. fold q. rewrite Er. clearbody q r. split; [done|].
  destruct (Z.lt_trichotomy q 0) as [Hneg|[|Hpos]]; [|done|].
  - pose proof (leaps_span (y + q) (- q) ltac:(lia)) as Hs. replace (y + q + - q) with y in Hs by lia.
    assert (Hs4 : (- q + 3) / 4 <= - q) by (apply Z.div_le_upper_bound; lia). split; [|lia].
    intros Hout. destruct (decide (q = -1)) as [->|Hq2].
    + pose proof (leaps_succ (y + -1)) as Hl. replace (y + -1 + 1) with y in Hl by lia. lia.
    + assert (Hd4 : (- q + 3) / 4 < - q) by (apply Z.div_lt_upper_bound; lia).
      assert (0 <= (r - (leaps (y + q) - leaps y)) / 365) by (apply Z.div_pos; destruct (leap_year (y + q)); cbn in *; lia).
      assert (2 * ((r - (leaps (y + q) - leaps y)) / 365) <= - q); [|lia].
      apply Z.le_trans with (2 * ((364 + (- q + 3) / 4) / 365)); [apply Z.mul_le_mono_nonneg_l; [lia|]; apply Z.div_le_mono; lia|].
      assert ((364 + (- q + 3) / 4) / 365 * 365 <= 364 + (- q + 3) / 4) by (pose proof (Z.mul_div_le (364 + (- q + 3) / 4) 365); lia).
      pose proof (Z.mul_div_le (- q + 3) 4). lia.
  - pose proof (leaps_span y q ltac:(lia)) as Hs. assert (Hs4 : (q + 3) / 4 <= q) by (apply Z.div_le_upper_bound; lia). split; [|lia].
    intros Hout. destruct (decide (q = 1)) as [->|Hq2].
    + pose proof (leaps_succ y). destruct (leap_year y); cbn in *; destruct (leap_year (y + 1)); cbn in *; lia.
    + assert (r - (leaps (y + q) - leaps y) < 0) by (destruct (leap_year (y + q)); cbn in *; lia).
      pose proof (Z.mul_succ_div_gt (r - (leaps (y + q) - leaps y)) 365 ltac:(lia)).
      assert ((r - (leaps (y + q) - leaps y)) / 365 < 0) by (apply Z.div_lt_upper_bound; lia).
      pose proof (Z.mul_div_le (q + 3) 4). lia.
Qed.

Definition year_inv (n y days : Z) : Prop :=
  year_start y + days = n /\ - 2 ^ 56 <= days <= 2 ^ 56.

Lemma year_inv_bound n y days : - 2 ^ 56 <= n <= 2 ^ 56 -> year_inv n y days -> - 2 ^ 57 < y < 2 ^ 57.
Proof.
  intros Hn [E Hd]. pose proof (leaps_bound y). unfold year_start in E. change (leaps 1970) with 477 in E. lia.
Qed.

Lemma year_loop_ok n y days fuel : - 2 ^ 56 <= n <= 2 ^ 56 -> year_inv n y days ->
  (out_of_year y days -> Z.abs (days / 365) < 2 ^ Z.of_nat fuel) ->
  exists y' days', loop (S fuel) year_turn (y, days) = Ret (y', days') /\ year_inv n y' days' /\ ~ out_of_year y' days'.
Proof.
  intros Hn. revert y days. induction fuel as [|fuel IH]; intros y days HI Hq.
  all: pose proof (year_inv_bound n y days Hn HI) as Hy; pose proof (year_turn_ok y days Hy ltac:(destruct HI; lia)) as Et.
  all: destruct (decide (out_of_year y days)) as [Ho|Ho];
    [rewrite bool_decide_eq_true_2 in Et by done|exists y, days; rewrite bool_decide_eq_false_2 in Et by done; split; [by apply loop_inr|done]].
  all: destruct (guess_converges y days Ho) as (H0 & Hhalf & Hb); specialize (Hq Ho).
  - change (2 ^ Z.of_nat 0) with 1 in Hq. lia.
  - rewrite (loop_inl _ _ _ _ Et). apply IH.
    + destruct HI as [E Hd]. split; [by rewrite guess_keeps|].
      assert (Z.abs (days / 365) <= 2 ^ 49); [|lia].
      pose proof (Z.div_le_lower_bound days 365 (- 2 ^ 49)). pose proof (Z.div_le_upper_bound days 365 (2 ^ 49)). lia.
    + intros Ho'. specialize (Hhalf Ho'). rewrite Nat2Z.inj_succ, Z.pow_succ_r in Hq by lia. lia.
Qed.

(** ** The month *)

Lemma mon_yday_ok l m : 1 <= m <= 12 -> (ip ← rd __mon_yday (Z.b2z l); rd ip (m - 1)) = Ret (month_start l m).
Proof. revert m. apply months; by destruct l. Qed.

Lemma month_turn_ok ip days y d : rd ip y = Ret d ->
  month_turn ip days y = Ret (if days <? d then inl (y - 1) else inr (y, d)).
Proof. intros E. unfold month_turn. rewrite E. cbn. by destruct (days <? d). Qed.

Lemma month_loop_ok l ip days (k fuel : nat) : rd __mon_yday (Z.b2z l) = Ret ip -> (k < 12)%nat -> (k < fuel)%nat ->
  0 <= days < month_start l (Z.of_nat k + 1) + month_days l (Z.of_nat k + 1) ->
  exists m, 1 <= m <= 12 /\ loop fuel (month_turn ip days) (Z.of_nat k) = Ret (m - 1, month_start l m) /\
    month_start l m <= days < month_start l m + month_days l m.
Proof.
  intros Hip. revert fuel. induction k as [|k IH]; intros fuel Hk Hf Hd; (destruct fuel as [|fuel]; [lia|]).
  all: match type of Hd with context [month_start ?b (Z.of_nat ?k + 1)] =>
    pose proof (mon_yday_ok b (Z.of_nat k + 1) ltac:(lia)) as Hr; replace (Z.of_nat k + 1 - 1) with (Z.of_nat k) in Hr by lia end.
  all: rewrite Hip in Hr; cbn [mbind outcome_bind] in Hr; rewrite loop_S, (month_turn_ok _ _ _ _ Hr); cbn [mbind outcome_bind].
  - change (Z.of_nat 0 + 1) with 1 in *. change (month_start l 1) with 0 in *. zdec. exists 1. split; [lia|]. split; [done|].
    change (month_start l 1) with 0. lia.
  - destruct (Z.ltb_spec days (month_start l (Z.of_nat (S k) + 1))) as [Hlt|Hge].
    + cbn [mbind outcome_bind]. replace (Z.of_nat (S k) - 1) with (Z.of_nat k) by lia. apply IH; [lia..|].
      split; [lia|]. pose proof (month_start_succ l (Z.of_nat k + 1) ltac:(lia)) as Es.
      rewrite (proj2 (Z.ltb_lt _ _)) in Es by lia. rewrite <- Es. by replace (Z.of_nat k + 1 + 1) with (Z.of_nat (S k) + 1) by lia.
    + exists (Z.of_nat (S k) + 1). split; [lia|]. split; [|lia]. cbn [mbind outcome_bind]. do 2 f_equal. lia.
Qed.
End facts.
