(* ===== verification/TimeSpec.v ===== *)
(** * Calendar time and time stamps: theorems *)
From stdpp Require Import base numbers list option.
From Stdlib Require Import ZArith Lia.
From S2P Require Import Prelude Math64 Math64Spec Time TimeFacts.

(** ** Seconds to dates *)

Section facts.
Context {O : Overflow}.

Lemma rem_fix a k : 0 < k -> (if Z.rem a k <? 0 then Z.rem a k + k else Z.rem a k) = a mod k.
Proof.
  intros Hk. pose proof (Z.quot_rem' a k). pose proof (Z.rem_bound_abs a k ltac:(lia)).
  apply (Z.mod_unique_pos _ _ (if Z.rem a k <? 0 then Z.quot a k - 1 else Z.quot a k)); destruct (Z.ltb_spec (Z.rem a k) 0); lia.
Qed.

Lemma split_seconds t off : - 2 ^ 63 <= t < 2 ^ 63 -> - 2 ^ 31 <= off < 2 ^ 31 ->
  exists days rem days' rem', Word64.div_s64_rem t SECS_PER_DAY = Ret (days, rem) /\ i64 (rem + off) = Ret (rem + off) /\
    loop (rem_fuel (rem + off)) rem_up_turn (days, rem + off) = Ret (days', rem') /\
    loop (rem_fuel rem') rem_down_turn (days', rem') = Ret ((t + off) / SECS_PER_DAY, (t + off) mod SECS_PER_DAY) /\
    - 2 ^ 50 < (t + off) / SECS_PER_DAY < 2 ^ 50.
Proof.
  intros Ht Hoff. assert (HS : SECS_PER_DAY = 86400) by done. rewrite !HS.
  pose proof (Z.quot_rem' t 86400) as E. pose proof (Z.rem_bound_abs t 86400 ltac:(lia)) as Hr.
  assert (ED : (t + off) / 86400 = Z.quot t 86400 + (Z.rem t 86400 + off) / 86400).
  { replace (t + off) with (Z.rem t 86400 + off + Z.quot t 86400 * 86400) by lia. rewrite Z.div_add by lia. lia. }
  assert (EM : (t + off) mod 86400 = (Z.rem t 86400 + off) mod 86400).
  { replace (t + off) with (Z.rem t 86400 + off + Z.quot t 86400 * 86400) by lia. by rewrite Z.mod_add by lia. }
  assert (HD : - 2 ^ 50 < (t + off) / 86400 < 2 ^ 50).
  { pose proof (Z.div_lt_upper_bound (t + off) 86400 (2 ^ 50)). pose proof (Z.div_le_lower_bound (t + off) 86400 (- 2 ^ 49)). lia. }
  destruct (norm_up_ok 86400 ltac:(lia) (Z.quot t 86400) (Z.rem t 86400 + off)) as (q & n & E1 & E2); [lia..|].
  exists (Z.quot t 86400), (Z.rem t 86400), q, n. split.
  { unfold Word64.div_s64_rem. rewrite nonzero_ok by lia. rewrite int64_ok by lia. cbn. by rewrite s32_small by lia. }
  split; [apply i64_ok; lia|]. split; [exact E1|]. split; [|done]. rewrite ED, EM. exact E2.
Qed.

Lemma clock_ok R : 0 <= R < 86400 ->
  s32 (Z.rem (Z.rem R SECS_PER_HOUR) 60) = R mod 60 /\ s32 (Z.quot (Z.rem R SECS_PER_HOUR) 60) = R mod 3600 / 60 /\
  s32 (Z.quot R SECS_PER_HOUR) = R / 3600.
Proof.
  intros HR. change SECS_PER_HOUR with 3600. pose proof (Z.mod_pos_bound R 3600 ltac:(lia)) as H.
  rewrite (Z.rem_mod_nonneg R 3600), Z.rem_mod_nonneg, !Z.quot_div_nonneg by lia.
  rewrite <- Z.mod_mod_divide with (a := R) (b := 3600) (c := 60) by (by exists 60).
  pose proof (Z.mod_pos_bound (R mod 3600) 60 ltac:(lia)).
  pose proof (Z.div_pos (R mod 3600) 60). pose proof (Z.div_lt_upper_bound (R mod 3600) 60 60).
  pose proof (Z.div_pos R 3600). pose proof (Z.div_lt_upper_bound R 3600 24). rewrite !s32_small by lia. done.
Qed.

Lemma time64_to_tm_ok t off : - 2 ^ 63 <= t < 2 ^ 63 -> - 2 ^ 31 <= off < 2 ^ 31 ->
  let D := (t + off) / SECS_PER_DAY in let R := (t + off) mod SECS_PER_DAY in
  exists y m d, valid_date (mk_date y m d) /\ date_num (mk_date y m d) = D /\
    time64_to_tm t off = Ret (mk_tm (R mod 60) (R mod 3600 / 60) (R / 3600) d (m - 1) (y - 1900) ((4 + D) mod 7) (D - year_start y)).
Proof.
  intros Ht Hoff D R. destruct (split_seconds t off Ht Hoff) as (days & rem & days' & rem' & E1 & E2 & E3 & E4 & HD).
  fold D R in E4, HD. assert (HR : 0 <= R < 86400) by (apply Z.mod_pos_bound; done).
  unfold time64_to_tm. rewrite E1. cbn [mbind outcome_bind]. rewrite E2. cbn [mbind outcome_bind].
  rewrite E3. cbn [mbind outcome_bind]. rewrite E4. cbn [mbind outcome_bind]. clear E1 E2 E3 E4.
  rewrite (i64_ok (4 + D)) by lia. cbn [mbind outcome_bind].
  destruct (year_loop_ok D 1970 D 63) as (y & dy & E & HI & Hin); [lia|split; [done|lia]| |].
  { intros _. pose proof (div_abs D 365 ltac:(lia)). lia. }
  pose proof (year_inv_bound D y dy ltac:(lia) HI) as Hy. destruct HI as [Ey _].
  assert (Hdy : 0 <= dy < year_days y) by (unfold out_of_year in Hin; lia).
  change year_fuel with 64%nat. rewrite E. cbn [mbind outcome_bind]. rewrite i64_ok by lia. cbn [mbind outcome_bind].
  rewrite isleap_ok. unfold year_days in Hdy. set (l := leap_year y) in *.
  destruct (rd_in_range __mon_yday (Z.b2z l)) as (ip & Eip & _); [by destruct l|]. rewrite Eip. cbn [mbind outcome_bind].
  destruct (month_loop_ok l ip dy 11 13 Eip) as (m & Hm & El & Hd); [lia..| |].
  { change (Z.of_nat 11 + 1) with 12. replace (month_start l 12 + month_days l 12) with (365 + Z.b2z l) by (by destruct l). done. }
  change (Z.of_nat 11) with 11 in El. rewrite El. cbn [mbind outcome_bind].
  pose proof (month_start_range l m Hm). assert (Z.b2z l <= 1) by (by destruct l).
  rewrite i64_ok by lia. cbn [mbind outcome_bind]. rewrite i64_ok by lia. cbn [mbind outcome_bind].
  exists y, m, (dy - month_start l m + 1). split; [split; cbn; [done|fold l; lia]|]. split; [unfold date_num; cbn; fold l; lia|].
  destruct (clock_ok R HR) as (-> & -> & ->). do 2 f_equal.
  - apply s32_small. lia.
  - apply s32_small. lia.
  - rewrite <- rem_fix by lia. pose proof (Z.rem_bound_abs (4 + D) 7 ltac:(lia)). by rewrite !s32_small by lia.
  - rewrite s32_small by lia. lia.
Qed.

(** ** Dates to seconds *)

(** The months from March on, and January and February as months 11 and 12 of the year before. *)
Lemma march_months l m : 1 <= m <= 12 ->
  367 * (if m <=? 2 then m + 10 else m - 2) / 12 = if m <=? 2 then month_start l m + 336 else month_start l m - Z.b2z l - 29.
Proof. revert m. apply months; by destruct l. Qed.

Lemma march_first m : 1 <= m <= 12 -> (s32 (u32 (m - 2)) <=? 0) = (m <=? 2) /\
  u32 (u32 (m - 2) + 12) = (if m <=? 2 then m + 10 else m + 10) /\ (2 < m -> u32 (m - 2) = m - 2).
Proof. revert m. apply months; vm_compute; repeat split; discriminate || done. Qed.

Definition mktime_years : Z := 11767033.

Lemma mktime64_ok y m d h mi s : valid_date (mk_date y m d) -> 1 <= y <= mktime_years ->
  0 <= h < 2 ^ 32 -> 0 <= mi < 2 ^ 32 -> 0 <= s < 2 ^ 32 ->
  mktime64 y m d h mi s = Ret (((date_num (mk_date y m d) * 24 + h) * 60 + mi) * 60 + s).
Proof.
  unfold mktime_years. intros [Hm Hd] Hy Hh Hmi Hs. cbn in Hm, Hd. destruct (march_first m Hm) as (E1 & E2 & E3).
  pose proof (march_months (leap_year y) m Hm) as E4. pose proof (month_start_range (leap_year y) m Hm) as Hms.
  set (Y := if m <=? 2 then y - 1 else y). set (M := if m <=? 2 then m + 10 else m - 2) in *.
  assert (Est : (if s32 (u32 (m - 2)) <=? 0 then (u32 (u32 (m - 2) + 12), u32 (y - 1)) else (u32 (m - 2), y)) = (M, Y)).
  { rewrite E1, E2. unfold M, Y. destruct (Z.leb_spec m 2); [by rewrite u32_small by lia|by rewrite E3 by lia]. }
  unfold mktime64. cbv zeta. rewrite Est. assert (HY : 0 <= Y <= 11767033) by (unfold Y; destruct (m <=? 2); lia).
  assert (HM' : 0 <= M <= 12) by (unfold M; destruct (Z.leb_spec m 2); lia).
  assert (HM : 0 <= 367 * M / 12 <= 400) by (split; [apply Z.div_pos|apply Z.div_le_upper_bound]; lia).
  assert (Hdn : date_num (mk_date y m d) = Y / 4 - Y / 100 + Y / 400 + 367 * M / 12 + d + Y * 365 - 719499).
  { unfold date_num, year_start. cbn [d_year d_month d_day]. change (leaps 1970) with 477. rewrite E4. unfold Y.
    destruct (Z.leb_spec m 2); [unfold leaps; lia|]. pose proof (leaps_succ y) as El. unfold leaps in El at 1.
    replace (y + 1 - 1) with y in El by lia. lia. }
  assert (H4 : 0 <= Y / 4 <= Y) by (split; [apply Z.div_pos; lia|apply Z.div_le_upper_bound; lia]).
  assert (H100 : 0 <= Y / 100 <= Y / 4).
  { split; [apply Z.div_pos; lia|]. replace (Y / 100) with (Y / 4 / 25) by (by rewrite Z.div_div by lia). apply Z.div_le_upper_bound; lia. }
  assert (H400 : 0 <= Y / 400 <= Y) by (split; [apply Z.div_pos; lia|apply Z.div_le_upper_bound; lia]).
  rewrite (u32_small (367 * M)), (u32_small (Y / 4 - _)), (u32_small (_ + Y / 400)), (u32_small (_ + 367 * M / 12)), (u32_small (_ + d)), (u32_small (Y * 365)) by lia.
  rewrite (i64_ok (_ + Y * 365)) by lia. cbn [mbind outcome_bind]. rewrite <- Hdn.
  assert (HD : - 2 ^ 40 < date_num (mk_date y m d) < 2 ^ 40) by (rewrite Hdn; lia).
  by repeat (rewrite i64_ok by lia; cbn [mbind outcome_bind]).
Qed.

(** ** Normalised time stamps *)

Definition instant (ts : timespec64) : Z := tv_sec ts * NSEC_PER_SEC + tv_nsec ts.
Definition sec_range (s : Z) : Prop := - 2 ^ 63 <= s < 2 ^ 63.
Definition normal (ts : timespec64) : Prop := sec_range (tv_sec ts) /\ 0 <= tv_nsec ts < NSEC_PER_SEC.
(** The normalised time stamp of a number of nanoseconds. *)
Definition stamp (n : Z) : timespec64 := mk_timespec64 (n / NSEC_PER_SEC) (n mod NSEC_PER_SEC).

(** That of a sum or difference: the seconds wrap in the kernel build; in the
    user-space build there is a result only when [ok]. *)
Definition stamped (ok : Prop) `{Decision ok} (n : Z) : outcome timespec64 :=
  if wraps then Ret (mk_timespec64 (s64 (n / NSEC_PER_SEC)) (n mod NSEC_PER_SEC))
  else if decide ok then Ret (stamp n) else Fault.
#[export] Instance sec_range_dec s : Decision (sec_range s).
Proof. unfold sec_range. apply _. Defined.

Lemma nsec_per_sec : NSEC_PER_SEC = 1000000000.
Proof. done. Qed.

Lemma stamp_instant n : instant (stamp n) = n.
Proof. unfold instant, stamp. cbn [tv_sec tv_nsec]. pose proof (Z_div_mod_eq_full n NSEC_PER_SEC). lia. Qed.

Lemma stamp_normal n : sec_range (n / NSEC_PER_SEC) -> normal (stamp n).
Proof. intros Hn. split; [done|]. cbn. apply Z.mod_pos_bound. done. Qed.

Lemma normal_stamp ts : normal ts -> ts = stamp (instant ts).
Proof.
  destruct ts as [s n]. unfold normal, stamp, instant. cbn [tv_sec tv_nsec]. intros [Hs Hn]. rewrite nsec_per_sec in *. f_equal.
  - apply (Z.div_unique_pos _ _ _ n); lia.
  - apply (Z.mod_unique_pos _ _ s); lia.
Qed.

Lemma set_normalized_ok sec nsec : sec_range sec -> sec_range nsec ->
  set_normalized_timespec64 sec nsec = (s ← i64 (sec + nsec / NSEC_PER_SEC); Ret (mk_timespec64 s (nsec mod NSEC_PER_SEC))).
Proof.
  intros Hs Hn. unfold set_normalized_timespec64.
  transitivity ('(s, n) ← ('(s, n) ← loop (normalize_fuel nsec) (down NSEC_PER_SEC) (sec, nsec); loop (normalize_fuel n) (up NSEC_PER_SEC) (s, n)); Ret (mk_timespec64 s n)).
  { change carry_turn with (down NSEC_PER_SEC). change borrow_turn with (up NSEC_PER_SEC).
    by destruct (loop (normalize_fuel nsec) (down NSEC_PER_SEC) (sec, nsec)) as [[s n]| | |]. }
  unfold normalize_fuel.
  transitivity ('(s, n) ← (s ← i64 (sec + nsec / NSEC_PER_SEC); Ret (s, nsec mod NSEC_PER_SEC)); Ret (mk_timespec64 s n)).
  { by rewrite <- norm_ok by (done || (rewrite nsec_per_sec; lia)). }
  by destruct (i64 _).
Qed.

(** Seconds computed before the normalisation. *)
Lemma norm_stamped z nsec : sec_range nsec ->
  (sec ← i64 z; set_normalized_timespec64 sec nsec) =
    stamped (sec_range z /\ sec_range ((z * NSEC_PER_SEC + nsec) / NSEC_PER_SEC)) (z * NSEC_PER_SEC + nsec).
Proof.
  intros Hn. unfold stamped, stamp. rewrite (Z.add_comm (z * _)), Z.div_add, Z.mod_add by done. rewrite (Z.add_comm _ z).
  transitivity (x ← i64 z; s ← i64 (x + nsec / NSEC_PER_SEC); Ret (mk_timespec64 s (nsec mod NSEC_PER_SEC))).
  { destruct (i64 z) as [x| | |] eqn:Ex; [|done..]. cbn [mbind outcome_bind]. apply set_normalized_ok; [by apply (i64_range z)|done]. }
  unfold i64, int64, sec_range. destruct wraps; [cbn; by rewrite s64_s64_add|].
  destruct (decide (- 2 ^ 63 <= z < 2 ^ 63)); [cbn [mbind outcome_bind]|by rewrite decide_False by tauto].
  case_decide; case_decide; done || tauto.
Qed.

Lemma ns_split_ok n : sec_range n -> ns_split n = Ret (n / NSEC_PER_SEC, n mod NSEC_PER_SEC).
Proof.
  unfold sec_range. intros Hn. unfold ns_split. destruct (Z.eqb_spec n 0) as [->|H0]; [done|].
  rewrite nsec_per_sec. pose proof (Z.quot_rem' n 1000000000) as E. pose proof (Z.rem_bound_abs n 1000000000 ltac:(lia)) as Hr.
  unfold Word64.div_s64_rem. rewrite nonzero_ok, int64_ok by lia. cbn [mbind outcome_bind]. rewrite s32_small by lia.
  rewrite <- rem_fix by lia. destruct (Z.ltb_spec (Z.rem n 1000000000) 0).
  - rewrite i64_ok by lia. cbn. rewrite s32_small by lia. do 2 f_equal. apply (Z.div_unique_pos _ _ _ (Z.rem n 1000000000 + 1000000000)); lia.
  - do 2 f_equal. apply (Z.div_unique_pos _ _ _ (Z.rem n 1000000000)); lia.
Qed.

Lemma to_ns_ok ts : normal ts -> timespec64_to_ns ts =
  if wraps then Ret (s64 (instant ts))
  else if decide (- 9223372036 * NSEC_PER_SEC <= instant ts < 2 ^ 63) then Ret (instant ts) else Fault.
Proof.
  unfold normal, sec_range. intros [Hs Hn]. unfold timespec64_to_ns, instant, i64, int64. rewrite nsec_per_sec in *.
  destruct wraps; [cbn; by rewrite s64_s64_add|].
  repeat (case_decide; cbn); done || lia.
Qed.

Lemma stamp_add a b : normal a -> normal b -> timespec64_add a b =
  stamped (sec_range (tv_sec a + tv_sec b) /\ sec_range ((instant a + instant b) / NSEC_PER_SEC)) (instant a + instant b).
Proof.
  unfold normal, timespec64_add. intros [Ha Ha'] [Hb Hb'].
  replace (instant a + instant b) with ((tv_sec a + tv_sec b) * NSEC_PER_SEC + (tv_nsec a + tv_nsec b)) by (unfold instant; ring).
  rewrite nsec_per_sec in *. rewrite <- norm_stamped by (unfold sec_range; lia).
  destruct (i64 (tv_sec a + tv_sec b)); [|done..]. cbn [mbind outcome_bind]. by rewrite i64_ok by lia.
Qed.

Lemma stamp_sub a b : normal a -> normal b -> timespec64_sub a b =
  stamped (sec_range (tv_sec a - tv_sec b) /\ sec_range ((instant a - instant b) / NSEC_PER_SEC)) (instant a - instant b).
Proof.
  unfold normal, timespec64_sub. intros [Ha Ha'] [Hb Hb'].
  replace (instant a - instant b) with ((tv_sec a - tv_sec b) * NSEC_PER_SEC + (tv_nsec a - tv_nsec b)) by (unfold instant; ring).
  rewrite nsec_per_sec in *. rewrite <- norm_stamped by (unfold sec_range; lia).
  destruct (i64 (tv_sec a - tv_sec b)); [|done..]. cbn [mbind outcome_bind]. by rewrite i64_ok by lia.
Qed.

(** The sum of two valid stamps, with saturation; when the seconds add up to
    the maximum and the nanoseconds carry, the increment overflows, which the
    comparison sees if it wraps. *)
Lemma stamp_add_safe a b : normal a -> normal b -> 0 <= tv_sec a -> 0 <= tv_sec b ->
  timespec64_add_safe a b =
    if decide ((instant a + instant b) / NSEC_PER_SEC <= TIME64_MAX) then Ret (stamp (instant a + instant b))
    else if negb wraps && (tv_sec a + tv_sec b =? TIME64_MAX) then Fault
    else Ret (mk_timespec64 TIME64_MAX 0).
Proof.
  unfold normal, sec_range. intros [Ha Ha'] [Hb Hb'] H0 H0'. unfold timespec64_add_safe. change TIME64_MAX with (2 ^ 63 - 1).
  rewrite nsec_per_sec in *. unfold stamp. rewrite nsec_per_sec.
  assert (EI : instant a + instant b = tv_nsec a + tv_nsec b + (tv_sec a + tv_sec b) * 1000000000) by (unfold instant; rewrite nsec_per_sec; ring).
  rewrite EI, Z.div_add, Z.mod_add by done.
  assert (Hc : 0 <= (tv_nsec a + tv_nsec b) / 1000000000 <= 1).
  { split; [apply Z.div_pos; lia|apply Z.lt_succ_r, Z.div_lt_upper_bound; lia]. }
  rewrite i64_ok by lia. cbn [mbind outcome_bind]. rewrite (u64_small (tv_sec a)), (u64_small (tv_sec b)), u64_small by lia.
  rewrite set_normalized_ok by (apply s64_range || (unfold sec_range; lia)). rewrite nsec_per_sec.
  destruct (Z.lt_ge_cases (tv_sec a + tv_sec b) (2 ^ 63)) as [Hlt|Hge].
  - rewrite s64_small, (Z.add_comm (_ + tv_sec b)) by lia. case_decide as Hm.
    + rewrite i64_ok by lia. cbn [mbind outcome_bind tv_sec]. by zdec.
    + assert (E : (tv_nsec a + tv_nsec b) / 1000000000 + (tv_sec a + tv_sec b) = 2 ^ 63) by lia. rewrite E, (proj2 (Z.eqb_eq _ _)) by lia.
      unfold i64, int64. destruct wraps; [|done]. change (s64 (2 ^ 63)) with (- 2 ^ 63). cbn [mbind outcome_bind tv_sec]. by zdec.
  - assert (Es : s64 (tv_sec a + tv_sec b) = tv_sec a + tv_sec b - 2 ^ 64).
    { unfold s64. rewrite <- (Z.mod_unique_pos (tv_sec a + tv_sec b + 2 ^ 63) (2 ^ 64) 1 (tv_sec a + tv_sec b + 2 ^ 63 - 2 ^ 64)); lia. }
    rewrite Es, decide_False, (proj2 (Z.eqb_neq _ _)), andb_false_r, i64_ok by lia. cbn [mbind outcome_bind tv_sec]. by zdec.
Qed.

Lemma stamp_compare a b : normal a -> normal b ->
  (c ← timespec64_compare a b; Ret (Z.sgn c)) = Ret (Z.sgn (instant a - instant b)) /\
  timespec64_equal a b = (instant a =? instant b).
Proof.
  unfold normal, instant, timespec64_compare, timespec64_equal. rewrite nsec_per_sec. intros [Ha Ha'] [Hb Hb']. split.
  - destruct (Z.ltb_spec (tv_sec a) (tv_sec b)); [cbn; f_equal; symmetry; apply Z.sgn_neg; lia|].
    destruct (Z.ltb_spec (tv_sec b) (tv_sec a)); [cbn; f_equal; symmetry; apply Z.sgn_pos; lia|].
    rewrite i64_ok by lia. cbn. rewrite s32_small by lia. do 2 f_equal. lia.
  - destruct (Z.eqb_spec (tv_sec a) (tv_sec b)), (Z.eqb_spec (tv_nsec a) (tv_nsec b)); cbn; symmetry;
      (apply Z.eqb_eq || apply Z.eqb_neq); lia.
Qed.

(** The quotient goes through 32 bits. *)
Lemma add_ns_ok a ns : normal a -> 0 <= ns -> timespec64_add_ns a ns =
  (let n := u64 (tv_nsec a + ns) in s ← i64 (tv_sec a + u32 (n / NSEC_PER_SEC)); Ret (mk_timespec64 s (n mod NSEC_PER_SEC))).
Proof.
  unfold normal. intros [Ha Ha'] Hns. unfold timespec64_add_ns. rewrite nsec_per_sec in *.
  rewrite (u64_small (tv_nsec a)) by lia. cbv zeta. set (n := u64 (tv_nsec a + ns)).
  assert (Hn : 0 <= n < 2 ^ 64) by (apply Z.mod_pos_bound; lia).
  rewrite iter_div_ok by lia. cbn [mbind outcome_bind]. pose proof (Z.mod_pos_bound n 1000000000 ltac:(lia)).
  by rewrite s64_small by lia.
Qed.

Lemma stamp_add_ns a ns : normal a -> 0 <= ns -> tv_nsec a + ns < 2 ^ 32 * NSEC_PER_SEC ->
  timespec64_add_ns a ns = stamped (sec_range ((instant a + ns) / NSEC_PER_SEC)) (instant a + ns).
Proof.
  intros Hn Hns Hlt. rewrite add_ns_ok by done. destruct Hn as [Ha Ha']. unfold stamped, stamp.
  replace (instant a + ns) with (tv_nsec a + ns + tv_sec a * NSEC_PER_SEC) by (unfold instant; ring). rewrite Z.div_add, Z.mod_add by done.
  rewrite nsec_per_sec in *. cbv zeta. rewrite u64_small by lia.
  assert (0 <= (tv_nsec a + ns) / 1000000000 < 2 ^ 32) by (split; [apply Z.div_pos|apply Z.div_lt_upper_bound]; lia).
  rewrite u32_small, (Z.add_comm (tv_sec a)) by done. unfold i64, int64, sec_range. destruct wraps; [done|]. repeat case_decide; done || tauto.
Qed.

Lemma valid_ok ts : sec_range (tv_sec ts) -> sec_range (tv_nsec ts) ->
  timespec64_valid ts = bool_decide (normal ts /\ 0 <= tv_sec ts).
Proof.
  unfold normal, sec_range. intros Hs Hn. unfold timespec64_valid. rewrite nsec_per_sec. symmetry.
  destruct (Z.ltb_spec (tv_sec ts) 0); [apply bool_decide_eq_false; lia|].
  assert (Eu : u64 (tv_nsec ts) = if tv_nsec ts <? 0 then tv_nsec ts + 2 ^ 64 else tv_nsec ts).
  { destruct (Z.ltb_spec (tv_nsec ts) 0); [|by apply u64_small; lia]. symmetry. apply (Z.mod_unique_pos _ _ (-1)); lia. }
  rewrite Eu. destruct (Z.ltb_spec (tv_nsec ts) 0).
  - zdec. apply bool_decide_eq_false. lia.
  - destruct (Z.leb_spec 1000000000 (tv_nsec ts)); [apply bool_decide_eq_false|apply bool_decide_eq_true]; lia.
Qed.

Lemma timeval_ok n : sec_range n ->
  exists tv, ns_to_timeval n = Ret tv /\ tvl_sec tv * NSEC_PER_SEC + tvl_usec tv * NSEC_PER_USEC = n - n mod NSEC_PER_USEC /\
    0 <= tvl_usec tv < USEC_PER_SEC /\ timeval_valid tv = (0 <=? n).
Proof.
  intros Hn. unfold ns_to_timeval, ns_to_timespec. rewrite ns_split_ok by done. cbn [mbind outcome_bind ts_sec ts_nsec].
  change NSEC_PER_USEC with 1000. change USEC_PER_SEC with 1000000. rewrite nsec_per_sec.
  pose proof (Z_div_mod_eq_full n 1000000000) as E. pose proof (Z.mod_pos_bound n 1000000000 ltac:(lia)) as Hm.
  rewrite Z.quot_div_nonneg by lia. eexists. split; [done|]. cbn [tvl_sec tvl_usec].
  pose proof (Z_div_mod_eq_full (n mod 1000000000) 1000) as E'. pose proof (Z.mod_mod_divide n 1000000000 1000 ltac:(by exists 1000000)) as Ed.
  pose proof (Z.div_pos (n mod 1000000000) 1000). pose proof (Z.div_lt_upper_bound (n mod 1000000000) 1000 1000000).
  split; [lia|]. split; [lia|]. unfold timeval_valid. cbn [tvl_sec tvl_usec]. change USEC_PER_SEC with 1000000.
  destruct (Z.leb_spec 0 n); zdec; [done|]. by zdec.
Qed.

Lemma after32_ok b k : - 2 ^ 31 < k < 2 ^ 31 -> time_after32 (u32 (b + k)) (u32 b) = (0 <? k).
Proof.
  intros Hk. unfold time_after32.
  assert (E : s32 (u32 (u32 (u32 b) - u32 (u32 (b + k)))) = - k).
  { unfold u32. rewrite !Zmod_mod, <- Zminus_mod. replace (b - (b + k)) with (- k) by lia.
    unfold s32. rewrite Z.add_mod_idemp_l, Z.mod_small by lia. lia. }
  rewrite E. destruct (Z.ltb_spec 0 k); by zdec.
Qed.

End facts.

(** ** Claims *)

(** C38: [time64_to_tm] splits every 64-bit number of seconds, with any offset,
    into a date and a time of day, without overflow and with a search for the
    year that ends.  The date is the one the calendar's rule reaches from
    1970-01-01 after that many days, forwards or backwards; the day of the week
    and of the year are those of that date. *)
Theorem time64_to_tm_calendar (O : Overflow) t off : - 2 ^ 63 <= t < 2 ^ 63 -> - 2 ^ 31 <= off < 2 ^ 31 ->
  let D := (t + off) / SECS_PER_DAY in
  exists r, time64_to_tm t off = Ret r /\
    mk_date (tm_year r + 1900) (tm_mon r + 1) (tm_mday r) = date_after D /\
    mk_date (tm_year r + 1900) 1 1 = date_after (D - tm_yday r) /\ 0 <= tm_yday r < year_days (tm_year r + 1900) /\
    tm_wday r = (4 + D) mod 7 /\
    0 <= tm_hour r < 24 /\ 0 <= tm_min r < 60 /\ 0 <= tm_sec r < 60 /\
    D * SECS_PER_DAY + tm_hour r * 3600 + tm_min r * 60 + tm_sec r = t + off.
Proof.
  intros Ht Hoff D. destruct (time64_to_tm_ok t off Ht Hoff) as (y & m & d & Hv & En & ->). fold D in En |- *.
  eexists. split; [done|]. cbn [tm_year tm_mon tm_mday tm_yday tm_wday tm_hour tm_min tm_sec].
  replace (y - 1900 + 1900) with y by lia. replace (m - 1 + 1) with m by lia.
  pose proof (date_num_range _ Hv) as Hr. cbn [d_year] in Hr.
  split; [by apply date_is|]. split.
  { apply date_is; [split; cbn; lia|]. unfold date_num. cbn [d_year d_month d_day]. change (month_start _ 1) with 0. lia. }
  split; [lia|]. split; [done|]. change SECS_PER_DAY with 86400 in *.
  pose proof (Z_div_mod_eq_full (t + off) 86400) as E. pose proof (Z.mod_pos_bound (t + off) 86400 ltac:(lia)) as HR.
  set (R := (t + off) mod 86400) in *. pose proof (Z_div_mod_eq_full R 3600). pose proof (Z.mod_pos_bound R 3600 ltac:(lia)).
  pose proof (Z_div_mod_eq_full (R mod 3600) 60). pose proof (Z.mod_pos_bound (R mod 3600) 60 ltac:(lia)) as Hs.
  rewrite (Z.mod_mod_divide R 3600 60) in * by (by exists 60).
  assert (D * 86400 = t + off - R) by (unfold D; lia). lia.
Qed.

Lemma time64_to_tm_calendar_witness : exists r, @time64_to_tm kernel_build (- 1) 0 = Ret r /\ tm_year r = 69 /\ tm_mday r = 31 /\
  mk_date (tm_year r + 1900) (tm_mon r + 1) (tm_mday r) = date_after (-1).
Proof.
  destruct (time64_to_tm_calendar kernel_build (-1) 0) as (r & E & Hd & _); [lia..|]. exists r. split; [exact E|].
  vm_compute in E. injection E as <-. repeat split.
Defined.

(** C39: [mktime64] numbers the seconds of the dates the calendar's rule reaches,
    for hours, minutes and seconds of any size, and is the inverse of
    [time64_to_tm], in the years 1 to 11767033 where its 32-bit terms do not
    wrap. *)
Theorem mktime64_inverse (O : Overflow) :
  (forall n h mi s, 1 <= d_year (date_after n) <= mktime_years -> 0 <= h < 2 ^ 32 -> 0 <= mi < 2 ^ 32 -> 0 <= s < 2 ^ 32 ->
    mktime64 (d_year (date_after n)) (d_month (date_after n)) (d_day (date_after n)) h mi s = Ret (((n * 24 + h) * 60 + mi) * 60 + s)) /\
  (forall t, - 2 ^ 63 <= t < 2 ^ 63 -> exists r, time64_to_tm t 0 = Ret r /\
    (1 <= tm_year r + 1900 <= mktime_years ->
      mktime64 (tm_year r + 1900) (tm_mon r + 1) (tm_mday r) (tm_hour r) (tm_min r) (tm_sec r) = Ret t)).
Proof.
  split.
  - intros n h mi s Hy Hh Hmi Hs. destruct (date_after_ok n) as [Hv En]. destruct (date_after n) as [y m d]. cbn in *.
    rewrite mktime64_ok by done. by rewrite En.
  - intros t Ht. destruct (time64_to_tm_ok t 0 Ht ltac:(lia)) as (y & m & d & Hv & En & ->). eexists. split; [done|].
    cbn [tm_year tm_mon tm_mday tm_hour tm_min tm_sec]. rewrite Z.add_0_r in *. change SECS_PER_DAY with 86400 in *.
    replace (y - 1900 + 1900) with y by lia. replace (m - 1 + 1) with m by lia. intros Hy.
    pose proof (Z_div_mod_eq_full t 86400). pose proof (Z.mod_pos_bound t 86400 ltac:(lia)).
    set (R := t mod 86400) in *. pose proof (Z_div_mod_eq_full R 3600). pose proof (Z.mod_pos_bound R 3600 ltac:(lia)).
    pose proof (Z_div_mod_eq_full (R mod 3600) 60). pose proof (Z.mod_pos_bound (R mod 3600) 60 ltac:(lia)).
    rewrite (Z.mod_mod_divide R 3600 60) in * by (by exists 60). rewrite mktime64_ok by (done || lia). f_equal. lia.
Qed.

Lemma mktime64_inverse_witness : @mktime64 kernel_build 2000 2 29 24 0 0 = Ret ((11016 * 24 + 24) * 60 * 60) /\
  date_after 11016 = mk_date 2000 2 29.
Proof.
  assert (E : date_after 11016 = mk_date 2000 2 29) by (vm_compute; reflexivity). split; [|exact E].
  destruct (mktime64_inverse kernel_build) as [H _]. specialize (H 11016 24 0 0). rewrite E in H. cbn in H.
  rewrite H by (unfold mktime_years; lia). reflexivity.
Defined.

(** C40: normalised time stamps are numbers of nanoseconds, exactly, in the
    kernel build, where the seconds wrap, and in the user-space build, where
    leaving 64 bits faults.  Normalisation divides the nanoseconds; conversion
    from nanoseconds gives the stamp of the number, and conversion back the
    number, which in the user-space build faults below -9223372036 s; sum and
    difference are the stamp of the sum and difference; [timespec64_add_safe]
    is that of the sum while its seconds fit and [TIME64_MAX] beyond, except
    that in the user-space build it faults when only the carry overflows.
    [timespec64_add_ns] adds the quotient of the wrapped nanoseconds through 32
    bits, so it is the stamp of the sum below 2^32 seconds only.  Comparison and
    equality are those of the numbers, and validity is normality with
    nonnegative seconds. *)
Theorem timespec64_spec (O : Overflow) :
  (forall sec nsec, sec_range sec -> sec_range nsec -> set_normalized_timespec64 sec nsec =
    (s ← i64 (sec + nsec / NSEC_PER_SEC); Ret (mk_timespec64 s (nsec mod NSEC_PER_SEC)))) /\
  (forall n, sec_range n -> ns_to_timespec64 n = Ret (stamp n) /\ normal (stamp n) /\ instant (stamp n) = n /\
    (ts ← ns_to_timespec n; Ret (timespec_to_timespec64 ts)) = Ret (stamp n) /\
    timespec64_to_ns (stamp n) =
      (if wraps then Ret n else if decide (- 9223372036 * NSEC_PER_SEC <= n) then Ret n else Fault)) /\
  (forall a b, normal a -> normal b ->
    (c ← timespec64_compare a b; Ret (Z.sgn c)) = Ret (Z.sgn (instant a - instant b)) /\
    timespec64_equal a b = (instant a =? instant b) /\
    timespec64_add a b =
      stamped (sec_range (tv_sec a + tv_sec b) /\ sec_range ((instant a + instant b) / NSEC_PER_SEC)) (instant a + instant b) /\
    timespec64_sub a b =
      stamped (sec_range (tv_sec a - tv_sec b) /\ sec_range ((instant a - instant b) / NSEC_PER_SEC)) (instant a - instant b) /\
    (timespec64_valid a = true -> timespec64_valid b = true -> timespec64_add_safe a b =
      if decide ((instant a + instant b) / NSEC_PER_SEC <= TIME64_MAX) then Ret (stamp (instant a + instant b))
      else if negb wraps && (tv_sec a + tv_sec b =? TIME64_MAX) then Fault
      else Ret (mk_timespec64 TIME64_MAX 0)) /\
    (forall ns, 0 <= ns -> timespec64_add_ns a ns =
      (let n := u64 (tv_nsec a + ns) in s ← i64 (tv_sec a + u32 (n / NSEC_PER_SEC)); Ret (mk_timespec64 s (n mod NSEC_PER_SEC)))) /\
    (forall ns, 0 <= ns -> tv_nsec a + ns < 2 ^ 32 * NSEC_PER_SEC ->
      timespec64_add_ns a ns = stamped (sec_range ((instant a + ns) / NSEC_PER_SEC)) (instant a + ns))) /\
  (forall ts, sec_range (tv_sec ts) -> sec_range (tv_nsec ts) -> timespec64_valid ts = bool_decide (normal ts /\ 0 <= tv_sec ts)) /\
  (forall n, sec_range n -> exists tv, ns_to_timeval n = Ret tv /\ timeval_valid tv = (0 <=? n) /\
    tvl_sec tv * NSEC_PER_SEC + tvl_usec tv * NSEC_PER_USEC = n - n mod NSEC_PER_USEC).
Proof.
  split; [apply set_normalized_ok|]. split.
  { intros n Hn. assert (HN : normal (stamp n)).
    { apply stamp_normal. unfold sec_range in *. rewrite nsec_per_sec.
      split; [apply Z.div_le_lower_bound|apply Z.div_lt_upper_bound]; lia. }
    unfold ns_to_timespec64, ns_to_timespec. rewrite ns_split_ok by done. split; [done|]. split; [done|].
    split; [apply stamp_instant|]. split; [done|]. rewrite to_ns_ok, stamp_instant by done.
    unfold sec_range in Hn. destruct wraps; [by rewrite s64_small|]. case_decide; case_decide; done || lia. }
  split.
  { intros a b Ha Hb. destruct (stamp_compare a b Ha Hb). split; [done|]. split; [done|].
    split; [by apply stamp_add|]. split; [by apply stamp_sub|].
    split; [|split; intros; [by apply add_ns_ok|by apply stamp_add_ns]].
    assert (Hv : forall ts, normal ts -> timespec64_valid ts = true -> 0 <= tv_sec ts).
    { intros ts Hn Ht. unfold timespec64_valid in Ht. destruct (Z.ltb_spec (tv_sec ts) 0); done. }
    intros Hva Hvb. apply stamp_add_safe; auto. }
  split; [apply valid_ok|]. intros n Hn. destruct (timeval_ok n Hn) as (tv & E & Ev & _ & Hval). by exists tv.
Qed.

Lemma timespec64_spec_witness :
  @timespec64_add_safe kernel_build (mk_timespec64 TIME64_MAX 999999999) (mk_timespec64 0 1) = Ret (mk_timespec64 TIME64_MAX 0) /\
  @timespec64_add_safe user_build (mk_timespec64 TIME64_MAX 999999999) (mk_timespec64 0 1) = Fault /\
  @timespec64_add_safe user_build (mk_timespec64 TIME64_MAX 0) (mk_timespec64 1 0) = Ret (mk_timespec64 TIME64_MAX 0) /\
  @timespec64_add_ns kernel_build (mk_timespec64 7 0) (2 ^ 32 * NSEC_PER_SEC) = Ret (mk_timespec64 7 0) /\
  @ns_to_timespec64 kernel_build (-1) = Ret (mk_timespec64 (-1) 999999999).
Proof.
  destruct (timespec64_spec kernel_build) as (_ & Hn & Ha & _). destruct (timespec64_spec user_build) as (_ & _ & Hu & _).
  assert (H9 : normal (mk_timespec64 TIME64_MAX 999999999)) by (vm_compute; repeat split; discriminate).
  assert (H0 : normal (mk_timespec64 TIME64_MAX 0)) by (vm_compute; repeat split; discriminate).
  assert (H1 : normal (mk_timespec64 0 1)) by (vm_compute; repeat split; discriminate).
  assert (H10 : normal (mk_timespec64 1 0)) by (vm_compute; repeat split; discriminate).
  assert (H7 : normal (mk_timespec64 7 0)) by (vm_compute; repeat split; discriminate).
  split; [|split; [|split; [|split]]].
  - destruct (Ha _ _ H9 H1) as (_ & _ & _ & _ & H & _). rewrite H by reflexivity. reflexivity.
  - destruct (Hu _ _ H9 H1) as (_ & _ & _ & _ & H & _). rewrite H by reflexivity. reflexivity.
  - destruct (Hu _ _ H0 H10) as (_ & _ & _ & _ & H & _). rewrite H by reflexivity. reflexivity.
  - destruct (Ha _ _ H7 H7) as (_ & _ & _ & _ & _ & H & _). rewrite H by (vm_compute; discriminate). reflexivity.
  - apply Hn. unfold sec_range. lia.
Defined.
